(* ===== verification/_CoqProject ===== *)
-Q . S2P
Prelude.v
Context.v
Middleware.v
Registry.v
Models.v
AuditTrail.v
Writes.v
History.v
Queries.v
MemoryOrm.v
LegacyTypes.v
PyFloat.v
Schema.v
Json.v
JsonParse.v
Trail.v
Rules.v
RuleClients.v
Builtins.v
Versioned.v
Tenancy.v
Constructs.v
ConstructStore.v
Identity.v
Resolver.v
Settings.v
Visibility.v
Objects.v
Secrets.v
Leaks.v
Scheduling.v
Rotation.v
Environments.v
EnvBehaviour.v
Flow.v
RuleGate.v
Temporal.v
Deployments.v
Events.v
EventBehaviour.v
Notifications.v
Contracts.v
Templates.v
Plugins.v
PluginBehaviour.v
Connectors.v
ConnectorBehaviour.v
Federation.v
Marketplace.v
Sync.v
Portability.v
Migrations.v
ColdStorage.v
LegacyDemo.v
ObjectsDemo.v
VaultDemo.v
RotationDemo.v
WorkspaceDemo.v
TemporalDemo.v
DeployDemo.v
EventDemo.v
BlueprintDemo.v
PluginDemo.v
ConnectorDemo.v
MarketDemo.v
IdentityDemo.v
SyncDemo.v
PortDemo.v
StorageDemo.v
