(* ===== verification/Prelude.v ===== *)
(** * PyScoped: a verification development

    PyScoped binds Django data access to a trusted application context and keeps
    an append-only, hash-chained history of every change.  The repository holds
    the current package (src/pyscoped, version 2) and the framework it replaced
    (src/legacy/v1/scoped), a stack of layers over a SQL database.  This library
    models the whole of the current package and, of the old framework, its
    audit, rule, tenancy, object, secrets, scheduling, environment, flow,
    temporal, deployment, event, notification, contract, template, integration,
    connector, marketplace, registry, identity and sync layers, as executable Rocq functions, and proves what
    makes them correct.

    ** The current package

    - Prelude: Python outcomes ([exn], [outcome]), the state-and-exception
      computations [prog] every component is written in, their reasoning rules
      ([preserves], [respects], [reads], with hint databases), stable sorting.
    - Context (context.py, integration.py): identities, ScopeContext, the context
      variable with its reset tokens, the scope manager ([scope_enter],
      [scope_exit], [scope_call]), [in_scope].  State: [world], an arbitrary database
      with the context and action variables and the scope objects by reference.
    - Middleware (middleware.py): the request bracket and the streaming iterator,
      a machine of [chunks_next] and [chunks_close] over its own context copy.
    - Registry (registry.py, checks.py): models as data, [register],
      [install_relation_guards] and the system checks.  State: [rstate].
    - Models (models.py): Resource and AuditEvent, their append-only guards, and
      the typeclass [Django]: what the package relies on in the ORM (row access,
      saving, deleting, atomic blocks).  Its laws are the only assumptions of the
      files built on it; MemoryOrm discharges them with a concrete database.
    - AuditTrail (audit.py): snapshots, scope and relation checks, [append_event].
    - Writes (registry.py's wrappers): [save_base], [refresh], [before_delete],
      [forward_get].
    - History (history.py, the backfill command): [history], [verify_history],
      [backfill], [restore].
    - Queries (query.py): querysets bound to a context, their combination, the
      audited bulk writes, the scope predicate of joins.
    - MemoryOrm: an in-memory [Django] instance; the witnesses of the files above.

    A request enters through Middleware or the scope manager, which set the
    context variable; Registry decides which models are tracked or enforced;
    Writes and Queries read the context, check rows with AuditTrail and append
    events; History reads them back.

    ** The old framework

    - LegacyTypes (types.py): lifecycles, action types, URNs, Python's [int].
      PyFloat: Python's [float] as the doubles of the Standard Library's SpecFloat, and
      what the sources use of it: exact comparison with ints, the shortest text, JSON,
      microseconds.
    - Schema (storage/_schema.py, storage/interface.py and the dataclasses of the
      layers): the tables with their unique and foreign keys ([tables]), the
      process state ([store]: database, clock, id counter, the audit writer's
      memory, the rule cache, and what other processes are about to commit), the
      statements ([select], [sql_update], [sql_insert], [transaction]), and the
      typeclass [Host]: the text of instants, the digest (64 hex digits), and the
      row order of a SELECT without ORDER BY, which is any permutation.  [keeps]
      is the calculus of table invariants that hold on both exits.
    - Constructs (registry/base.py, kinds.py): the registry of constructs in memory;
      its entries are objects in a heap that several indexes refer to; listeners are
      arbitrary computations.  State: [process], the registry, the custom kinds, the
      data of the stores and the [store].  ConstructStore (store.py, sqlite_store.py):
      [RegistryStore] is the interface of what it is saved to, with both stores as
      instances.
    - Identity (identity/principal.py, context.py): principals, the edges between
      them, ScopedContext.  Resolver (resolver.py): the walks and paths over them.
    - Json: Python's [str] and [json.dumps] of JSON values.
    - Trail (audit/): the writer with its bounded retry, queries, chunked
      verification, retention.  [AuditSink] is the interface the other layers
      use: recording touches nothing but the trail, and may raise.
    - Rules (rules/engine.py, compiler.py, cache.py): the store, the cache, the
      engine, explanations, compiler.
    - RuleClients (rules/quotas.py, rate_limit.py, features.py, redaction.py): the
      checkers built over a list of rules.  Builtins (rules/builtins.py): the
      rule factories.
    - Tenancy (tenancy/models.py, lifecycle.py, projection.py): scopes, members,
      projections, the walks over the hierarchy.
    - Visibility (tenancy/engine.py): the recursive visibility queries.
    - Objects (objects/manager.py, models.py, versioning.py, isolation.py): the
      object manager, which calls the engine, the checkers and the visibility
      queries; its rows are [ScopedObject], [ObjectVersion] and [Tombstone].
    - Settings (tenancy/config.py): settings of scopes and their resolution up the
      hierarchy.
    - Secrets (secrets/backend.py, models.py, policy.py, vault.py): [SecretBackend]
      is the encryption interface, with both backends as instances (Fernet itself is
      a parameter); policies; the vault, whose backing objects come from Objects.
      Leaks (leak_detection.py): the scan for plaintexts in other data.
    - Scheduling (scheduling/): schedules, due actions and the job queue; executors
      are arbitrary computations.  Rotation (secrets/rotation.py): the executor and
      the loop that join vault, scheduler and queue.
    - Environments (environments/): the life of an environment, the objects in it,
      its snapshots; [Promoter] is the promotion manager as an environment sees
      it.  EnvBehaviour: what discarding, promoting, restoring and the retention
      of snapshots do.
    - Flow (flow/): pipelines and stages, channels, promotions; [flow_promoter] is
      the [Promoter] that environments are given.
    - Temporal (temporal/): constraints, rollback of an entry, to an instant and in
      cascade over the trail's parent links, reconstruction; it writes the tables
      of Objects and Environments directly, as the code does.
    - Deployments (deployments/): targets, deployments, gates, rollbacks; the
      application's callback is an arbitrary computation.
    - Events (events/): the bus, subscriptions, endpoints with encrypted
      configurations, deliveries and retries; listeners and transports are
      arbitrary computations.  JsonParse: [json.loads], proved to invert
      [json.dumps].  EventBehaviour: what the bus and the rounds do.
    - Notifications (notifications/): rules and their templates ([str.format]),
      notifications, preferences, what waits for delivery.
    - Versioned: the invariant of a table whose rows number their versions in another.
      Contracts (registry/contracts.py): contracts, the validator of data against
      their fields and constraints, their diff.  Templates (registry/templates.py):
      templates and their instances by deep merge.
    - RuleGate: the rule check and the translation of driver errors that the layers
      at the edge share.
    - Plugins (integrations/): integrations; plugins with their permissions and hooks,
      the sandbox checks, the dispatch of hook points to handlers, which are
      arbitrary computations on a shared context.  PluginBehaviour: the invariant,
      what a dispatch does, what suspending and uninstalling leave.
    - Connectors (connector/models.py, bridge.py): the bridges to other instances with
      their policies and traffic; the transport is an arbitrary computation.
      ConnectorBehaviour: the invariant and when an object is sent.  Federation
      (protocol.py): signed messages, sequences, the ledger against replays,
      negotiation; [Hmac] is the signature as an interface.  Marketplace
      (connector/marketplace/): listings with their versions, reviews and installations.
    - Sync (sync/agent.py, models.py, transport.py): the agent that pushes the metadata
      of the trail to the management plane, its threads, statement by statement, and its
      control from outside; the plane is an arbitrary computation.
    - Portability (objects/export.py, import_.py): packages and streams of objects, read
      back under new ids.  ColdStorage (storage/tiering.py, archival.py): tiers, retention
      policies, sealed archives; the compression is a parameter.  Migrations
      (storage/migrations/): the runner and its bookkeeping over any database; the
      migrations themselves are arbitrary computations.
    - LegacyDemo, ObjectsDemo, VaultDemo, RotationDemo, WorkspaceDemo,
      TemporalDemo, DeployDemo, EventDemo, BlueprintDemo,
      PluginDemo, ConnectorDemo, MarketDemo, IdentityDemo,
      SyncDemo, PortDemo, StorageDemo: a concrete [Host] and the runs behind the witnesses.

    ** What the theorems show

    - No row of another scope leaves a queryset, a join, a guarded relation or a
      history read (queries_in_scope, joins_scoped, forward_get_in_scope,
      history_authorized); writes stay in scope and are recorded exactly once, or
      leave the database alone (the save_base, delete, queryset_update and bulk
      theorems of Writes and Queries, restore_audited).
    - Histories are intact chains, and accepting one is equivalent to that
      (writes_keep_history, verify_history_exact, tamper_evident).
    - The context is what the enclosing scope set, at every exit and between
      streamed chunks (with_scope_brackets, middleware_request_bracket,
      streaming_keeps_context).
    - Registration and its checks: register_preserves_ok, checks_pass_iff.
    - The old trail stays linked under races, verification in chunks is one pass,
      retention keeps a verifiable suffix (Trail).
    - The rule engine decides by deny-overrides whatever a coherent cache holds;
      explanations and the compiled index agree with it.  Versions and bindings stay
      sound however operations end, gapless and with a coherent cache as long as they
      return; the next change that returns clears the cache (Rules).
    - Tenancy: invariants of every sequence of operations, returning or raising;
      what freezing, dissolving and adding members do; the hierarchy walks end;
      the visibility queries agree (Tenancy, Visibility).
    - Redaction acts field by field, flags and rate limits are decided exactly as
      configured (RuleClients); but the engine reads every bound rule as an
      access rule (factories_change_access).
    - The registry of constructs is sound in every reachable state, and what is saved
      is what is loaded (Constructs, ConstructStore).  Principals are never lost;
      walks return everything within their depth once, whatever the cycles, and
      paths are shortest; contexts nest (Identity, Resolver).
    - Objects: versions are append-only and numbered without gap, tombstones are
      final, reads and lists are isolated, quotas hold after every create.
    - Settings resolve to the nearest scope; a deleted one cannot be set again
      (resolve_nearest, deleted_setting_stuck).
    - The vault: what every way out of a resolution does and logs, rotation takes
      effect everywhere, what is stored and granted reads back, versions and the
      access log are append-only (Secrets); the leak scan is exact (Leaks).
    - Jobs: the state machine, a run of the queue drains it and executes each job once,
      due actions become one job each (Scheduling); rotations happen exactly when due, and scheduling them
      is idempotent (Rotation).
    - Environments: states move along the table only and discarding is final;
      discard archives exactly the created objects and dissolves the scope;
      promotion comes before the check of the state; a snapshot brings back the
      contents and the version pointers of its capture (Environments, EnvBehaviour).
    - Flow: an object's moves are one chain within pipelines, every move and
      promotion obeys its guards, channels are resolved exactly up to their
      limit (Flow).
    - Rolling back an update restores the rows before it; a rollback to an instant
      leaves the version of that instant; denied and immutable entries stay; a
      cascade handles exactly what depends on an entry, children first; what a
      rollback leaves undone is stated too (Temporal).
    - Deployments: versions without gaps, states along the table only, execution
      behind its guards and gates, rollback chains that end (Deployments).
    - Events: an emission queues what its subscriptions ask for before listeners
      run; a round of deliveries always returns and leaves nothing pending;
      retries obey their count and their delay; configurations survive their
      encryption (EventBehaviour).  Notifications follow their rules and templates
      exactly; a preference can be set once (Notifications).
    - The validator of contracts is exact, floats included, versions stay what they were and judge data
      as then, whatever follows (Contracts); an instance is the deep merge, key by
      key (Templates).
    - Plugins: states along the table only, nothing archived is revived; a dispatch
      calls exactly the hooks that may run when their turn comes, by priority, and
      survives their failures (PluginBehaviour).
    - Connectors: the state machine with its approval; an object is sent only where
      state, direction, type and policies allow; what was sent, failed or was refused
      by a policy is on record, what the checks refuse is not (ConnectorBehaviour).  Messages are numbered upwards and accepted once
      (Federation).  In the marketplace a reviewer has one review of a listing, versions
      only rise, and what is installed is counted (Marketplace).
    - Statement by statement, with any loops, calls and restarts in between, the sync
      agent delivers every entry of the trail at least once, and exactly once and in order
      as long as no stop gives up on its thread; it catches up, and what it sends does not
      depend on stored data (Sync).
    - What is exported is what is imported, as a package or as a stream; an import only
      adds rows (Portability).
      A sealed archive stays and gives back what was archived; policies never leave a
      version warmer than they found it (ColdStorage).  Rolling back what was applied
      restores the database; a failure stops exactly there (Migrations).

    ** Fuel

    Eight loops are not structural.  Chunked verification ([verify_loop]) gets
    one turn more than there are entries, since every full chunk moves past at
    least one; [ancestors_loop] and [descendants_loop] get two turns more than
    there are scopes, since every turn visits, or pops, a scope not seen before;
    [collect_loop] gets a turn for each entry of the trail at each of the hundred
    depths; [rollback_chain_loop] two more than there are deployments, since a
    rollback has a higher version than what it rolls back; [walk_loop] one more than
    there are principals and [path_loop] one more than edges have ends, since each is
    queued once; [type_pages] one more than there are objects, since a page holds one.
    Running out of fuel is the result None, and the theorems show it never
    happens.  The retries of the audit writer and the twenty levels of the
    visibility queries are bounds of the code itself.

    ** Not modelled

    Coroutine variants (the same steps under an event loop), thread locks, SQL
    text and drivers, JSON text (states are values; what depends on the text
    takes it from the interface), logging, and hit counters of the cache.  The
    clock does not move inside one operation; between operations it may.
    Typed object data and pydantic conditions are third-party code.  An
    exception's text is a parameter where the code stores it.  The old framework's
    search and blob layers, its command line and test helpers, the drivers of its
    database and the schema scripts that its migrations run are not part of the
    model. *)

From stdpp Require Export prelude gmap strings list pretty sorting.

#[export] Set Warnings "-clear-no-such-hyp".
Set Default Proof Using "Type".

Declare Scope pys_scope.
Delimit Scope pys_scope with pys.

(** ** Python outcomes

    A Python call either returns a value or raises.  The exception classes are
    those the sources raise themselves (exceptions.py of both packages and the
    builtin classes they use); [AppError] stands for whatever code outside
    src/ (a view, a resolver, a model's own save method, the database driver)
    raises. *)

Inductive exn :=
  | MissingContext
  | ScopeViolation (msg : string)
  | UnsupportedOperation (msg : string)
  | HistoryConflict (msg : string)
  | ImproperlyConfigured (msg : string)
  | ValueError (msg : string)
  | TypeError (msg : string)
  | KeyError (key : string)
  | AttributeError (name : string)
  | RuntimeError (msg : string)
  | IntegrityError (msg : string)
  | StopIteration
  | CommandError (msg : string)
  | AccessDenied (msg : string)
  | NotFound (msg : string)
  | ScopeFrozen (msg : string)
  | QuotaExceeded (msg : string)
  | RateLimitExceeded (msg : string)
  | IsolationViolation (msg : string)
  | SequenceCollision (msg : string)
  | StorageError (msg : string)
  | SecretNotFound (msg : string)
  | SecretAccessDenied (msg : string)
  | SecretRefExpired (msg : string)
  | SecretLeakDetected (msg : string)
  | EnvironmentNotFound (msg : string)
  | EnvironmentStateError (msg : string)
  | FlowError (msg : string)
  | StageTransitionDenied (msg : string)
  | FlowBlocked (msg : string)
  | PromotionDenied (msg : string)
  | RollbackDenied (msg : string)
  | RollbackFailed (msg : string)
  | DeploymentError (msg : string)
  | DeploymentGateFailed (msg : string)
  | DeploymentRollbackError (msg : string)
  | ScopeNotFound (msg : string)
  | IndexError (msg : string)
  | InvalidToken
  | NoContextError (msg : string)
  | PrincipalNotFound (msg : string)
  | ContractNotFound (msg : string)
  | ContractValidationError (msg : string)
  | TemplateNotFound (msg : string)
  | TemplateVersionNotFound (msg : string)
  | TemplateInstantiationError (msg : string)
  | PluginError (msg : string)
  | PluginSandboxError (msg : string)
  | PluginPermissionError (msg : string)
  | HookExecutionError (msg : string)
  | IntegrationError (msg : string)
  | ConnectorError (msg : string)
  | ConnectorNotApproved (msg : string)
  | ConnectorRevoked (msg : string)
  | ConnectorPolicyViolation (msg : string)
  | FederationError (msg : string)
  | MarketplaceError (msg : string)
  | ListingNotFound (msg : string)
  | AlreadyRegistered (msg : string)
  | NotRegistered (msg : string)
  | RegistryFrozen (msg : string)
  | SyncError (msg : string)
  | SyncAuthenticationError (msg : string)
  | SyncBatchRejected (msg : string)
  | SyncTransportError (msg : string)
  | OverflowError (msg : string)
  | MigrationError (msg : string)
  | AppError (code : Z).

#[export] Instance exn_eq_dec : EqDecision exn.
Proof. solve_decision. Defined.

Inductive outcome (A : Type) :=
  | Ok (a : A)
  | Raise (e : exn).
Arguments Ok {A} a.
Arguments Raise {A} e.

#[export] Instance outcome_eq_dec `{EqDecision A} : EqDecision (outcome A).
Proof. solve_decision. Defined.

#[export] Instance outcome_ret : MRet outcome := @Ok.
#[export] Instance outcome_bind : MBind outcome := λ A B f r,
  match r with Ok a => f a | Raise e => Raise e end.

#[export] Instance outcome_fmap : FMap outcome := λ A B f r,
  match r with Ok a => Ok (f a) | Raise e => Raise e end.

Definition is_ok {A} (r : outcome A) : bool :=
  match r with Ok _ => true | Raise _ => false end.

(** ** Stateful computations

    [prog S R] is a computation over a state [S] (the process: context
    variables, database, clock) that returns an [R] or raises.  Raising does
    not undo the state: undoing is what transactions and [finally] blocks do,
    and they are written out where the code has them. *)

Definition prog (S R : Type) : Type := S → outcome R * S.

#[export] Instance prog_ret {S} : MRet (prog S) := λ R a s, (Ok a, s).
#[export] Instance prog_bind {S} : MBind (prog S) := λ R R' f m s,
  match m s with
  | (Ok a, s') => f a s'
  | (Raise e, s') => (Raise e, s')
  end.

Section Prog.
Context {S : Type}.

Definition raise {R} (e : exn) : prog S R := λ s, (Raise e, s).
Definition gets {R} (f : S → R) : prog S R := λ s, (Ok (f s), s).
Definition modify (f : S → S) : prog S unit := λ s, (Ok tt, f s).
Definition lift {R} (r : outcome R) : prog S R := λ s, (r, s).
Definition raise_if (b : bool) (e : exn) : prog S unit :=
  if b then raise e else mret tt.

(** [try: m finally: f]: [f] runs on both exits, its exception wins. *)
Definition finally {R} (m : prog S R) (f : prog S unit) : prog S R := λ s,
  let '(r, s1) := m s in
  match f s1 with
  | (Ok _, s2) => (r, s2)
  | (Raise e, s2) => (Raise e, s2)
  end.

(** [for x in l: body x] for a body run for its effects. *)
Fixpoint for_each {X} (l : list X) (body : X → prog S unit) : prog S unit :=
  match l with
  | [] => mret tt
  | x :: l' => body x ;; for_each l' body
  end.

(** A loop that threads local variables through its iterations. *)
Fixpoint for_fold {X Y} (l : list X) (y : Y) (body : Y → X → prog S Y) : prog S Y :=
  match l with
  | [] => mret y
  | x :: l' => y' ← body y x; for_fold l' y' body
  end.
End Prog.

(** ** Reasoning about computations

    [wp m Q s]: running [m] from [s] ends in an outcome and a state that
    satisfy [Q]; every [prog] is a total function, so this is total
    correctness. *)

Definition wp {S R} (m : prog S R) (Q : outcome R → S → Prop) (s : S) : Prop :=
  Q (m s).1 (m s).2.

(** [m] keeps the state predicate [I], whether it returns or raises. *)
Definition preserves {S R} (I : S → Prop) (m : prog S R) : Prop :=
  ∀ s, I s → I (m s).2.

Create HintDb preserves.
Create HintDb respects.

Section ProgLaws.
Context {S : Type}.
Implicit Types (s : S).

Lemma run_bind {R R'} (m : prog S R) (f : R → prog S R') s :
  (m ≫= f) s = match m s with
               | (Ok a, s') => f a s'
               | (Raise e, s') => (Raise e, s')
               end.
Proof. reflexivity. Qed.

Lemma run_bind_ok {R R'} (m : prog S R) (f : R → prog S R') s a s' :
  m s = (Ok a, s') → (m ≫= f) s = f a s'.
Proof. intros H. by rewrite run_bind, H. Qed.

Lemma run_bind_raise {R R'} (m : prog S R) (f : R → prog S R') s e s' :
  m s = (Raise e, s') → (m ≫= f) s = (Raise e, s').
Proof. intros H. by rewrite run_bind, H. Qed.

(** A computation that returned went through every step of it. *)
Lemma bind_ok_inv {R R'} (m : prog S R) (f : R → prog S R') s b s' :
  (m ≫= f) s = (Ok b, s') →
  ∃ a s1, m s = (Ok a, s1) ∧ f a s1 = (Ok b, s').
Proof. rewrite run_bind. destruct (m s) as [[a|e] s1]; naive_solver. Qed.

Lemma lift_ok {R} (r : outcome R) s a s' : lift r s = (Ok a, s') → r = Ok a ∧ s' = s.
Proof. by intros [= -> ->]. Qed.

Lemma gets_ok {R} (f : S → R) s a s' : gets f s = (Ok a, s') → a = f s ∧ s' = s.
Proof. by intros [= -> ->]. Qed.

Lemma mret_ok {R} (b a : R) s s' : (mret b : prog S R) s = (Ok a, s') → a = b ∧ s' = s.
Proof. by intros [= -> ->]. Qed.

Lemma modify_ok (f : S → S) s u s' : modify f s = (Ok u, s') → s' = f s.
Proof. by intros [= _ <-]. Qed.

Lemma wp_bind {R R'} (m : prog S R) (f : R → prog S R') Q s :
  wp m (λ r s', match r with
                | Ok a => wp (f a) Q s'
                | Raise e => Q (Raise e) s'
                end) s → wp (m ≫= f) Q s.
Proof. unfold wp. rewrite run_bind. by destruct (m s) as [[a|e] s1]. Qed.

Lemma wp_mono {R} (m : prog S R) (P Q : outcome R → S → Prop) s :
  wp m P s → (∀ r s', P r s' → Q r s') → wp m Q s.
Proof. unfold wp. eauto. Qed.

Lemma preserves_ret {R} I (a : R) : preserves I (mret a : prog S R).
Proof. by intros s. Qed.
Lemma preserves_raise {R} I e : preserves I (raise e : prog S R).
Proof. by intros s. Qed.
Lemma preserves_gets {R} I (f : S → R) : preserves I (gets f).
Proof. by intros s. Qed.
Lemma preserves_lift {R} I (r : outcome R) : preserves I (lift r : prog S R).
Proof. by intros s. Qed.
Lemma preserves_raise_if I b e : preserves I (raise_if b e : prog S unit).
Proof. destruct b; by intros s. Qed.
Lemma preserves_modify I (f : S → S) :
  (∀ s, I s → I (f s)) → preserves I (modify f).
Proof. intros H s. apply H. Qed.

Lemma preserves_bind {R R'} I (m : prog S R) (f : R → prog S R') :
  preserves I m → (∀ a, preserves I (f a)) → preserves I (m ≫= f).
Proof.
  intros Hm Hf s HI. rewrite run_bind. specialize (Hm s HI).
  destruct (m s) as [[a|e] s1]; [by apply Hf | done].
Qed.

Lemma preserves_finally {R} I (m : prog S R) f :
  preserves I m → preserves I f → preserves I (finally m f).
Proof.
  intros Hm Hf s HI. unfold finally. specialize (Hm s HI).
  destruct (m s) as [r s1]. specialize (Hf s1 Hm).
  by destruct (f s1) as [[]].
Qed.

Lemma preserves_for_each {X} I (l : list X) body :
  (∀ x, x ∈ l → preserves I (body x)) → preserves I (@for_each S X l body).
Proof.
  induction l as [|x l IH]; intros H; simpl; [apply preserves_ret|].
  apply preserves_bind; [apply H; left|].
  intros _. apply IH. intros y Hy. apply H. by right.
Qed.

Lemma preserves_for_fold {X Y} I (l : list X) (body : Y → X → prog S Y) y :
  (∀ y x, x ∈ l → preserves I (body y x)) → preserves I (for_fold l y body).
Proof.
  revert y. induction l as [|x l IH]; intros y H; simpl; [apply preserves_ret|].
  apply preserves_bind; [apply H; left|].
  intros y'. apply IH. intros z x' Hx. apply H. by right.
Qed.

(** Raising is only reported: [lift] and [raise_if] leave the state alone. *)
Lemma raise_if_ok b e s s' :
  raise_if b e s = (Ok tt, s') ↔ b = false ∧ s' = s.
Proof.
  destruct b; unfold raise_if, raise, mret, prog_ret; split.
  - discriminate.
  - intros [? _]; discriminate.
  - by intros [= ->].
  - by intros [_ ->].
Qed.
End ProgLaws.

(** Two-state invariants: [m] relates the state it starts in to the state it
    ends in by the preorder [Rel], on both exits. *)

Definition respects {S R} (Rel : relation S) (m : prog S R) : Prop :=
  ∀ s, Rel s (m s).2.

Section Respects.
Context {S : Type} (Rel : relation S) `{!PreOrder Rel}.

Lemma respects_pure {R} (m : prog S R) : (∀ s, (m s).2 = s) → respects Rel m.
Proof using Type*. intros H s. by rewrite H. Qed.

Lemma respects_bind {R R'} (m : prog S R) (f : R → prog S R') :
  respects Rel m → (∀ a, respects Rel (f a)) → respects Rel (m ≫= f).
Proof using Type*.
  intros Hm Hf s. rewrite run_bind. specialize (Hm s).
  destruct (m s) as [[a|e] s1]; [|done]. etrans; [exact Hm | apply Hf].
Qed.

Lemma respects_finally {R} (m : prog S R) f :
  respects Rel m → respects Rel f → respects Rel (finally m f).
Proof using Type*.
  intros Hm Hf s. unfold finally. specialize (Hm s).
  destruct (m s) as [r s1]. specialize (Hf s1).
  destruct (f s1) as [[] s2]; by etrans.
Qed.

Lemma respects_for_each {X} (l : list X) body :
  (∀ x, x ∈ l → respects Rel (body x)) → respects Rel (@for_each S X l body).
Proof using Type*.
  induction l as [|x l IH]; intros H; simpl; [by apply respects_pure|].
  apply respects_bind; [apply H; left|].
  intros _. apply IH. intros y Hy. apply H. by right.
Qed.

Lemma respects_for_fold {X Y} (l : list X) (body : Y → X → prog S Y) y :
  (∀ y x, x ∈ l → respects Rel (body y x)) → respects Rel (for_fold l y body).
Proof using Type*.
  revert y. induction l as [|x l IH]; intros y H; simpl; [by apply respects_pure|].
  apply respects_bind; [apply H; left|].
  intros y'. apply IH. intros z x' Hx. apply H. by right.
Qed.

Lemma respects_raise_if b e : respects Rel (raise_if b e : prog S unit).
Proof using Type*. apply respects_pure. by destruct b. Qed.
End Respects.

Ltac respects_step :=
  match goal with
  | |- respects _ (mbind _ _) => apply respects_bind; [exact _| |intros ?]
  | |- respects _ (mret _) => apply respects_pure; [exact _|done]
  | |- respects _ (raise _) => apply respects_pure; [exact _|done]
  | |- respects _ (raise_if _ _) => apply respects_raise_if; exact _
  | |- respects _ (gets _) => apply respects_pure; [exact _|done]
  | |- respects _ (lift _) => apply respects_pure; [exact _|done]
  | |- respects _ (for_each _ _) => apply respects_for_each; [exact _|intros]
  | |- respects _ (for_fold _ _ _) => apply respects_for_fold; [exact _|intros]
  | |- respects _ (finally _ _) => apply respects_finally; [exact _| |]
  | |- respects _ (if ?b then _ else _) => destruct b eqn:?
  | |- respects _ (match ?x with _ => _ end) => destruct x eqn:?
  end.

#[export] Hint Resolve preserves_ret preserves_raise preserves_gets preserves_lift
  preserves_raise_if preserves_modify preserves_bind preserves_finally
  preserves_for_each preserves_for_fold : preserves.

Ltac preserves_step :=
  match goal with
  | |- preserves _ (mbind _ _) => apply preserves_bind; [|intros ?]
  | |- preserves _ (mret _) => apply preserves_ret
  | |- preserves _ (raise _) => apply preserves_raise
  | |- preserves _ (raise_if _ _) => apply preserves_raise_if
  | |- preserves _ (gets _) => apply preserves_gets
  | |- preserves _ (lift _) => apply preserves_lift
  | |- preserves _ (finally _ _) => apply preserves_finally
  | |- preserves _ (for_each _ _) => apply preserves_for_each; intros
  | |- preserves _ (for_fold _ _ _) => apply preserves_for_fold; intros
  | |- preserves _ (if ?b then _ else _) => destruct b eqn:?
  | |- preserves _ (match ?x with _ => _ end) => destruct x eqn:?
  end.

(** Decompose a computation along its binds and close the leaves from the
    [preserves] database. *)
Ltac solve_preserves := repeat (preserves_step || (progress eauto with preserves)).

Ltac solve_respects := repeat (respects_step || (progress eauto with respects)).

(** Run a hypothesis [m s = (Ok a, s')] forward through its binds. *)
Ltac run_inv H :=
  repeat match type of H with
  | mbind _ _ _ = (Ok _, _) =>
      let H1 := fresh "Hrun" in
      apply bind_ok_inv in H as (? & ? & H1 & H)
  end.

(** ** Stable sorting

    Python's [list.sort] and the databases' ORDER BY on a key: a stable
    insertion sort over a boolean order. *)

Section Sort.
Context {X : Type} (leb : X → X → bool).

Fixpoint insert_by (x : X) (l : list X) : list X :=
  match l with
  | [] => [x]
  | y :: l' => if leb x y then x :: y :: l' else y :: insert_by x l'
  end.

Definition sort_by (l : list X) : list X := foldr insert_by [] l.

Definition leb_rel (x y : X) : Prop := leb x y = true.

Lemma insert_by_perm x l : insert_by x l ≡ₚ x :: l.
Proof.
  induction l as [|y l IH]; simpl; [done|].
  destruct (leb x y); [done|]. rewrite IH. constructor.
Qed.

Lemma sort_by_perm l : sort_by l ≡ₚ l.
Proof. induction l as [|x l IH]; simpl; [done|]. by rewrite insert_by_perm, IH. Qed.

Lemma elem_of_sort_by x l : x ∈ sort_by l ↔ x ∈ l.
Proof. by rewrite sort_by_perm. Qed.

Lemma insert_by_last x y l :
  leb y x = true → insert_by y (l ++ [x]) = insert_by y l ++ [x].
Proof.
  intros Hyx. induction l as [|z l IH]; simpl; [by rewrite Hyx|].
  destruct (leb y z); [done|]. by rewrite IH.
Qed.

(** Appending an element that is not below any other keeps it last. *)
Lemma sort_by_snoc x l :
  (∀ y, y ∈ l → leb y x = true) → sort_by (l ++ [x]) = sort_by l ++ [x].
Proof.
  induction l as [|y l IH]; intros H; simpl; [done|].
  fold (sort_by (l ++ [x])). rewrite IH by (intros; apply H; by right).
  apply insert_by_last, H. left.
Qed.

Lemma sort_by_id l : StronglySorted leb_rel l → sort_by l = l.
Proof.
  induction 1 as [|x l Hl IH Hx]; simpl; [done|].
  fold (sort_by l). rewrite IH. destruct l as [|y l]; simpl; [done|].
  inversion Hx as [|?? Hxy]; subst. unfold leb_rel in Hxy. by rewrite Hxy.
Qed.

Context (leb_total : ∀ x y, leb x y = true ∨ leb y x = true).
Context (leb_trans : ∀ x y z, leb x y = true → leb y z = true → leb x z = true).

Lemma insert_by_sorted x l :
  StronglySorted leb_rel l → StronglySorted leb_rel (insert_by x l).
Proof using leb_total leb_trans.
  induction 1 as [|y l Hl IH Hy]; simpl; [by repeat constructor|].
  destruct (leb x y) eqn:Hxy.
  - constructor; [by constructor|]. constructor; [done|].
    eapply Forall_impl; [exact Hy|]. intros z Hz. by eapply leb_trans.
  - constructor; [done|]. rewrite insert_by_perm. constructor; [|done].
    destruct (leb_total x y) as [?|?]; [congruence | done].
Qed.

Lemma sort_by_sorted l : StronglySorted leb_rel (sort_by l).
Proof using leb_total leb_trans.
  induction l as [|x l IH]; simpl; [constructor|]. by apply insert_by_sorted.
Qed.
End Sort.

Lemma filter_nil_iff {X} (P : X → Prop) `{∀ x, Decision (P x)} (l : list X) :
  filter P l = [] ↔ ∀ x, x ∈ l → ¬ P x.
Proof.
  split.
  - intros Hnil x Hx HP. assert (x ∈ filter P l) by (by apply list_elem_of_filter).
    rewrite Hnil in *. by apply not_elem_of_nil in H0.
  - induction l as [|x l IH]; intros Hn; [done|].
    rewrite filter_cons_False by (apply Hn; left). apply IH. intros y Hy.
    apply Hn. by right.
Qed.

Lemma filter_all_iff {X} (P : X → Prop) `{∀ x, Decision (P x)} (l : list X) :
  filter P l = l ↔ ∀ x, x ∈ l → P x.
Proof.
  split.
  - intros Heq x Hx. rewrite <-Heq in Hx. by apply list_elem_of_filter in Hx as [? _].
  - induction l as [|x l IH]; intros Hall; [done|].
    rewrite filter_cons_True by (apply Hall; left). f_equal. apply IH. intros y Hy.
    apply Hall. by right.
Qed.

Lemma filter_ext_in {X} (P Q : X → Prop) `{!∀ x, Decision (P x)} `{!∀ x, Decision (Q x)} (l : list X) :
  (∀ x, x ∈ l → P x ↔ Q x) → filter P l = filter Q l.
Proof.
  induction l as [|x l IH]; intros Heq; [done|]. rewrite !filter_cons, IH by (intros y Hy; apply Heq; by right).
  pose proof (Heq x ltac:(left)) as Hx. repeat case_decide; first [done|tauto].
Qed.

(** ** Folds *)

Lemma foldl_preserves {A X} (P : A → Prop) (f : A → X → A) l a :
  P a → (∀ a x, x ∈ l → P a → P (f a x)) → P (foldl f a l).
Proof.
  revert a. induction l as [|x l IH]; intros a Ha Hf; simpl; [done|].
  apply IH; [apply Hf; [left|done]|]. intros b y Hy. apply Hf. by right.
Qed.

Lemma foldl_establishes {A X} (P : A → Prop) (f : A → X → A) l a x :
  x ∈ l → (∀ a, P (f a x)) → (∀ a y, P a → P (f a y)) → P (foldl f a l).
Proof.
  intros Hx Hhit Hkeep. revert a. induction Hx as [x l|x y l Hx IH]; intros a; simpl.
  - apply foldl_preserves; auto.
  - by apply IH.
Qed.

Lemma foldl_fixed {A X} (f : A → X → A) l a :
  (∀ x, x ∈ l → f a x = a) → foldl f a l = a.
Proof.
  induction l as [|x l IH]; intros H; simpl; [done|].
  rewrite H by left. apply IH. intros y Hy. apply H. by right.
Qed.

(** ** Searching *)

Lemma find_Some_elem {X} (p : X → bool) l x : find p l = Some x → x ∈ l ∧ p x = true.
Proof. rewrite list_elem_of_In. apply List.find_some. Qed.

Lemma find_None_elem {X} (p : X → bool) l x : find p l = None → x ∈ l → p x = false.
Proof. rewrite list_elem_of_In. intros H. by apply List.find_none. Qed.

(** Elements with distinct keys are known by their key. *)
Lemma sublist_sorted {X} (R : relation X) (l k : list X) : l `sublist_of` k → StronglySorted R k → StronglySorted R l.
Proof.
  induction 1 as [|x l k Hsub IH|x l k _ IH]; intros Hs; [done| |]; apply StronglySorted_inv in Hs as [Hs Hx]; auto.
  constructor; [auto|]. rewrite Forall_forall in *. intros y Hy. apply Hx.
  eapply elem_of_submseteq; [exact Hy|]. by apply sublist_submseteq.
Qed.

Lemma fmap_sublist {X Y} (f : X → Y) (l k : list X) : l `sublist_of` k → f <$> l `sublist_of` f <$> k.
Proof. induction 1; simpl; by constructor. Qed.

Lemma sorted_mono {X} (R R' : relation X) (l : list X) :
  (∀ x y, R x y → R' x y) → StronglySorted R l → StronglySorted R' l.
Proof. intros H. induction 1; constructor; [done|]. eapply Forall_impl; [done|]. auto. Qed.

(** Rows are only added, and each moves along [R]. *)
Definition grown {X} (R : relation X) (l k : list X) : Prop := ∃ m, Forall2 R l m ∧ m `prefix_of` k.

Lemma grown_refl {X} (R : relation X) `{HR : !Reflexive R} l : grown R l l.
Proof. exists l. split; [|done]. by apply Forall_Forall2_diag, Forall_true. Qed.

#[export] Instance grown_preorder {X} (R : relation X) `{!PreOrder R} : PreOrder (grown R).
Proof.
  split; [intros l; exact (grown_refl R l)|]. intros a b c (m & Hm & Hmb) (n & Hn & Hnc).
  destruct Hmb as [r ->]. apply Forall2_app_inv_l in Hn as (n1 & n2 & Hn1 & _ & ->). exists n1. split; [by etrans|].
  by eapply prefix_app_l.
Qed.

Lemma grown_app {X} (R : relation X) `{!Reflexive R} l k : grown R l (l ++ k).
Proof. exists l. split; [|by apply prefix_app_r]. by apply Forall_Forall2_diag, Forall_true. Qed.

Lemma grown_fmap {X} (R : relation X) (f : X → X) l : (∀ x, x ∈ l → R x (f x)) → grown R l (f <$> l).
Proof.
  intros H. exists (f <$> l). split; [|done]. rewrite Forall2_fmap_r. by apply Forall_Forall2_diag, Forall_forall.
Qed.

Lemma grown_elem {X} (R : relation X) l k x : grown R l k → x ∈ l → ∃ y, y ∈ k ∧ R x y.
Proof.
  intros (m & Hm & Hp) Hx. apply list_elem_of_lookup in Hx as [i Hi].
  destruct (Forall2_lookup_l _ _ _ _ _ Hm Hi) as (y & Hy & HR). exists y. split; [|done].
  eapply list_elem_of_lookup_2, prefix_lookup_Some; done.
Qed.

Lemma fresh_snoc {X} (f : X → string) l x : NoDup (f <$> l) → (∀ y, y ∈ l → f x ≠ f y) → NoDup (f <$> l ++ [x]).
Proof.
  intros Hnd Hx. rewrite fmap_app. apply NoDup_app. split; [done|]. split; [|apply NoDup_singleton].
  intros k (y & -> & Hy)%list_elem_of_fmap Hk%list_elem_of_singleton. by apply (Hx y).
Qed.

(** An update keeps a column that it does not touch. *)
Lemma update_column {X K} (g : X → K) (p : X → bool) (f : X → X) (l : list X) :
  (∀ x, g (f x) = g x) → g <$> ((λ x, if p x then f x else x) <$> l) = g <$> l.
Proof.
  intros Hg. rewrite <-list_fmap_compose. apply list_fmap_ext. intros _ x _. simpl. by destruct (p x).
Qed.

Lemma NoDup_fmap_inj_in {X K} (f : X → K) (l : list X) x y :
  NoDup (f <$> l) → x ∈ l → y ∈ l → f x = f y → x = y.
Proof.
  induction l as [|a l IH]; [by intros _ ?%elem_of_nil|]. rewrite fmap_cons, NoDup_cons.
  intros [Ha Hnd] [->|Hx]%elem_of_cons [->|Hy]%elem_of_cons Heq; [done| | |by apply IH].
  - destruct Ha. rewrite Heq. by apply list_elem_of_fmap_2.
  - destruct Ha. rewrite <-Heq. by apply list_elem_of_fmap_2.
Qed.

Lemma find_app {X} (p : X → bool) l1 l2 :
  find p (l1 ++ l2) = match find p l1 with Some x => Some x | None => find p l2 end.
Proof. induction l1 as [|x l1 IH]; simpl; [done|]. by destruct (p x). Qed.

Lemma mjoin_nil_iff {X} (ll : list (list X)) : mjoin ll = [] ↔ ∀ l, l ∈ ll → l = [].
Proof.
  split.
  - induction ll as [|l ll IH]; simpl; [by intros _ l ?%not_elem_of_nil|].
    intros [-> Hll]%app_eq_nil l'. rewrite elem_of_cons. intros [->|?]; auto.
  - induction ll as [|l ll IH]; simpl; intros H; [done|].
    rewrite (H l), IH; [done| |left]. intros l' Hl'. apply H. by right.
Qed.

(** ** Read-only computations *)

Definition reads {S R} (m : prog S R) : Prop := ∀ s, (m s).2 = s.

Create HintDb reads.

Section Reads.
Context {S : Type}.

Lemma reads_ret {R} (a : R) : reads (mret a : prog S R).
Proof. done. Qed.
Lemma reads_raise {R} e : reads (raise e : prog S R).
Proof. done. Qed.
Lemma reads_gets {R} (f : S → R) : reads (gets f).
Proof. done. Qed.
Lemma reads_lift {R} (r : outcome R) : reads (lift r : prog S R).
Proof. done. Qed.
Lemma reads_raise_if b e : reads (raise_if b e : prog S unit).
Proof. by destruct b. Qed.

Lemma reads_bind {R R'} (m : prog S R) (f : R → prog S R') :
  reads m → (∀ a, reads (f a)) → reads (m ≫= f).
Proof.
  intros Hm Hf s. rewrite run_bind. specialize (Hm s).
  destruct (m s) as [[a|e] s1]; simpl in *; subst; [apply Hf | done].
Qed.

Lemma reads_for_each {X} (l : list X) body :
  (∀ x, x ∈ l → reads (body x)) → reads (@for_each S X l body).
Proof.
  induction l as [|x l IH]; intros H; simpl; [apply reads_ret|].
  apply reads_bind; [apply H; left|]. intros _. apply IH. intros y Hy. apply H. by right.
Qed.

Lemma reads_for_fold {X Y} (l : list X) (body : Y → X → prog S Y) y :
  (∀ y x, x ∈ l → reads (body y x)) → reads (for_fold l y body).
Proof.
  revert y. induction l as [|x l IH]; intros y H; simpl; [apply reads_ret|].
  apply reads_bind; [apply H; left|]. intros y'. apply IH. intros z x' Hx. apply H. by right.
Qed.

Lemma reads_run {R} (m : prog S R) s r s' : reads m → m s = (r, s') → s' = s.
Proof. intros Hm H. specialize (Hm s). by rewrite H in Hm. Qed.

Lemma reads_preserves {R} I (m : prog S R) : reads m → preserves I m.
Proof. intros Hm s. by rewrite Hm. Qed.

Lemma reads_respects {R} Rel `{!PreOrder Rel} (m : prog S R) : reads m → respects Rel m.
Proof. intros Hm. by apply respects_pure. Qed.
End Reads.

#[export] Hint Resolve reads_ret reads_raise reads_gets reads_lift reads_raise_if reads_bind
  reads_for_each reads_for_fold : reads.

Ltac solve_reads :=
  repeat match goal with
  | |- reads (mbind _ _) => apply reads_bind; [|intros ?]
  | |- reads (for_each _ _) => apply reads_for_each; intros
  | |- reads (for_fold _ _ _) => apply reads_for_fold; intros
  | |- reads (if ?b then _ else _) => destruct b eqn:?
  | |- reads (match ?x with _ => _ end) => destruct x eqn:?
  | |- _ => progress eauto with reads
  end.
