(* ===== verification/Context.v ===== *)
(** * Trusted application context (pyscoped/context.py, pyscoped/integration.py)

    Identities, the [ScopeContext] dataclass, the [_current] context variable,
    the [scope] context manager / decorator and the [in_scope] decorator. *)

From S2P Require Import Prelude.

(** ** Python values that reach [identity]

    [PObj text] is an object without a [pk] attribute that is not one of the
    builtin scalars (a UUID, a Decimal); [PModel pk anonymous text] is one with
    it (a model instance, a user), [anonymous] saying that
    [getattr(value, "is_authenticated", True) is False].  [text] is [str(value)].
    Characters are code points below 256. *)

Inductive pyval :=
  | PNone
  | PBool (b : bool)
  | PInt (z : Z)
  | PStr (s : string)
  | PObj (text : string)
  | PModel (pk : pyval) (anonymous : bool) (text : string).

#[export] Instance pyval_eq_dec : EqDecision pyval.
Proof. solve_decision. Defined.

(** [str(v)]. *)
Definition py_str (v : pyval) : string :=
  match v with
  | PNone => "None"
  | PBool true => "True"
  | PBool false => "False"
  | PInt z => pretty z
  | PStr s => s
  | PObj text | PModel _ _ text => text
  end.

(** The code points below 256 for which [str.isspace] holds; [s.strip()] is
    empty exactly when every character is one of them. *)
Definition py_isspace (c : Ascii.ascii) : bool :=
  let n := Ascii.N_of_ascii c in
  ((9 <=? n) && (n <=? 13) || (28 <=? n) && (n <=? 32) || (n =? 133) || (n =? 160))%N.

Fixpoint all_space (s : string) : bool :=
  match s with
  | EmptyString => true
  | String c s' => py_isspace c && all_space s'
  end.

(** ** identity *)

Definition MAX_IDENTITY : nat := 255.

Definition identity_scalar (value : pyval) : outcome string :=
  match value with
  | PNone | PBool _ => Raise (ValueError "An explicit, nonempty identity is required.")
  | _ =>
      let result := py_str value in
      if all_space result || (MAX_IDENTITY <? String.length result)
      then Raise (ValueError "Identity must contain 1–255 characters.")
      else Ok result
  end.

Definition identity (value : pyval) : outcome string :=
  match value with
  | PModel pk anonymous _ =>
      if anonymous then Raise (ValueError "Anonymous users cannot be actors.")
      else identity_scalar pk
  | _ => identity_scalar value
  end.

(** The strings an identity can be. *)
Definition valid_identity (s : string) : Prop :=
  all_space s = false ∧ String.length s ≤ MAX_IDENTITY.

(** ** The process state

    [w_current] is the [_current] ContextVar of the running task, [w_action]
    the [_action] ContextVar of audit.py, [w_scopes] the heap of live [scope]
    manager objects with their mutable [_token], [w_next] the next object
    address, [w_now] what [timezone.now()] reads, [w_db] the database (and
    anything else code outside the package may touch). *)

Record ScopeContext := {
  ctx_id : nat;              (* object identity: [is] compares it *)
  actor : string;
  scope : string;
  reason : string;
  request_id : string;
}.

#[export] Instance ScopeContext_eq_dec : EqDecision ScopeContext.
Proof. solve_decision. Defined.

Definition token : Type := option ScopeContext.

Record scope_manager := {
  context : ScopeContext;
  sm_token : option token;
}.

Definition set_token (t : option token) (m : scope_manager) : scope_manager :=
  {| context := context m; sm_token := t |}.

Record world (D : Type) := World {
  w_db : D;
  w_current : option ScopeContext;
  w_action : option (string * pyval * string);
  w_scopes : gmap nat scope_manager;
  w_next : nat;
  w_now : string;
}.
Arguments World {D} _ _ _ _ _ _.
Arguments w_db {D} _.
Arguments w_current {D} _.
Arguments w_action {D} _.
Arguments w_scopes {D} _.
Arguments w_next {D} _.
Arguments w_now {D} _.

Abbreviation py D := (prog (world D)).

Definition set_db {D} (d : D) (w : world D) : world D :=
  World d (w_current w) (w_action w) (w_scopes w) (w_next w) (w_now w).
Definition set_current {D} (c : option ScopeContext) (w : world D) : world D :=
  World (w_db w) c (w_action w) (w_scopes w) (w_next w) (w_now w).
Definition set_action {D} (a : option (string * pyval * string)) (w : world D) : world D :=
  World (w_db w) (w_current w) a (w_scopes w) (w_next w) (w_now w).
Definition set_scopes {D} (m : gmap nat scope_manager) (w : world D) : world D :=
  World (w_db w) (w_current w) (w_action w) m (w_next w) (w_now w).
Definition bump {D} (w : world D) : world D :=
  World (w_db w) (w_current w) (w_action w) (w_scopes w) (S (w_next w)) (w_now w).

Definition same_object (a b : option ScopeContext) : bool :=
  match a, b with
  | None, None => true
  | Some x, Some y => bool_decide (ctx_id x = ctx_id y)
  | _, _ => false
  end.

Section Operations.
Context {D : Type}.
Implicit Types (w : world D).

(** [object()]: a fresh address. *)
Definition fresh : py D nat := λ w, (Ok (w_next w), bump w).

(** ScopeContext(...) with its [__post_init__]; [reason] and [request_id]
    are arbitrary Python values until the type check. *)
Definition new_ScopeContext (actor scope reason request_id : pyval) : py D ScopeContext :=
  a ← lift (identity actor);
  s ← lift (identity scope);
  match reason, request_id with
  | PStr r, PStr q =>
      raise_if (255 <? String.length q)
        (ValueError "request_id must be at most 255 characters.") ;;
      i ← fresh;
      mret {| ctx_id := i; actor := a; scope := s; reason := r; request_id := q |}
  | _, _ => raise (ValueError "reason and request_id must be strings.")
  end.

(** ContextVar.set / ContextVar.reset. *)
Definition current_set (c : option ScopeContext) : py D token :=
  λ w, (Ok (w_current w), set_current c w).
Definition current_reset (t : option token) : py D unit := λ w,
  match t with
  | Some old => (Ok tt, set_current old w)
  | None => (Raise (TypeError "expected an instance of Token, got None"), w)
  end.

(** [_bind(ctx)] around a block. *)
Definition _bind {R} (c : option ScopeContext) (body : py D R) : py D R :=
  t ← current_set c;
  finally body (current_reset (Some t)).

Definition current_context (required : bool) : py D (option ScopeContext) :=
  c ← gets w_current;
  match c with
  | None => if required then raise MissingContext else mret None
  | Some x => mret (Some x)
  end.

(** [current_context()], whose result is never None. *)
Definition the_context : py D ScopeContext :=
  c ← current_context true;
  match c with Some x => mret x | None => raise MissingContext end.

(** ** class scope *)

(** [scope(actor=..., scope=..., reason=..., request_id=...)]: the address of
    a manager whose token is None. *)
Definition new_scope (a s r q : pyval) : py D nat :=
  c ← new_ScopeContext a s r q;
  i ← fresh;
  modify (λ w, set_scopes (<[i := {| context := c; sm_token := None |}]> (w_scopes w)) w) ;;
  mret i.

Definition get_manager (i : nat) : py D scope_manager :=
  m ← gets (λ w, w_scopes w !! i);
  match m with
  | Some x => mret x
  | None => raise (TypeError "not a scope manager")
  end.

Definition put_token (i : nat) (t : option token) : py D unit :=
  modify (λ w, set_scopes (alter (set_token t) i (w_scopes w)) w).

Definition scope_enter (i : nat) : py D ScopeContext :=
  m ← get_manager i;
  match sm_token m with
  | Some _ => raise (RuntimeError
      "Use a fresh scope manager for each nested/concurrent entry.")
  | None =>
      t ← current_set (Some (context m));
      put_token i (Some t) ;;
      mret (context m)
  end.

Definition scope_exit (i : nat) : py D unit :=
  m ← get_manager i;
  current_reset (sm_token m) ;;
  put_token i None.

(** [with manager as c: body c]: the body runs only after [__enter__]
    returned; [__exit__] runs on both of its exits. *)
Definition with_manager {R} (i : nat) (body : ScopeContext → py D R) : py D R :=
  c ← scope_enter i;
  finally (body c) (scope_exit i).

(** [with scope(actor=..., ...) as c: body c]. *)
Definition with_scope {R} (a s r q : pyval) (body : ScopeContext → py D R) : py D R :=
  i ← new_scope a s r q;
  with_manager i body.

(** [_recreate_cm]: a new manager from [self.context.__dict__]. *)
Definition _recreate_cm (i : nat) : py D nat :=
  m ← get_manager i;
  let c := context m in
  new_scope (PStr (actor c)) (PStr (scope c)) (PStr (reason c)) (PStr (request_id c)).

(** What [inspect] says of a function; coroutines and plain functions are
    wrapped alike, an [await] being a call here. *)
Inductive function_kind := Plain | Coroutine | Generator | AsyncGenerator.

(** [scope.__call__]: decorating a function with a manager. *)
Definition scope_call {R} (i : nat) (kind : function_kind) (f : py D R) : py D (py D R) :=
  match kind with
  | Generator | AsyncGenerator =>
      raise (UnsupportedOperation
        "Use scope inside generators, or ScopedMiddleware streaming.")
  | Plain | Coroutine => mret (j ← _recreate_cm i; with_manager j (λ _, f))
  end.

(** ** integration.py *)

(** What a resolver may return. *)
Inductive resolved := RContext (c : ScopeContext) | RNone | ROther.

Definition validate_context (r : resolved) : py D ScopeContext :=
  match r with
  | RContext c => mret c
  | _ => raise (ImproperlyConfigured "A PyScoped resolver must return ScopeContext.")
  end.

Definition in_scope {R} (resolver : py D resolved) (kind : function_kind) (f : py D R)
  : py D (py D R) :=
  match kind with
  | Generator | AsyncGenerator =>
      raise (UnsupportedOperation
        "Use scope inside generators, or ScopedMiddleware streaming.")
  | Plain | Coroutine => mret (
      r ← resolver;
      c ← validate_context r;
      with_scope (PStr (actor c)) (PStr (scope c)) (PStr (reason c)) (PStr (request_id c))
        (λ _, f))
  end.
End Operations.

#[global] Arguments _bind : simpl never.
#[global] Arguments finally : simpl never.
#[global] Arguments identity : simpl never.

(** ** Identities *)

Lemma identity_scalar_ok v s :
  identity_scalar v = Ok s → s = py_str v ∧ valid_identity s.
Proof.
  unfold identity_scalar, valid_identity. intros H.
  assert (Hs : s = py_str v ∧ all_space s || (MAX_IDENTITY <? String.length s) = false).
  { destruct v; simpl in *; try discriminate; case_match; by simplify_eq. }
  destruct Hs as [-> Hs]. apply orb_false_iff in Hs as [? Hl].
  apply Nat.ltb_ge in Hl. eauto.
Qed.

Lemma identity_PStr s : valid_identity s → identity (PStr s) = Ok s.
Proof.
  intros [Hsp Hlen]. unfold identity. simpl. rewrite Hsp.
  destruct (Nat.ltb_spec MAX_IDENTITY (String.length s)); [lia | done].
Qed.

Lemma identity_valid v s : identity v = Ok s → valid_identity s.
Proof.
  unfold identity. destruct v as [| | | | |pk [] t]; try discriminate;
    intros H; by apply identity_scalar_ok in H as [_ ?].
Qed.

#[export] Hint Resolve identity_valid : core.

(** [ScopeContext] fields that every constructed context has. *)
Definition ctx_valid (c : ScopeContext) : Prop :=
  valid_identity (actor c) ∧ valid_identity (scope c) ∧ String.length (request_id c) ≤ 255.

(** ** The frame of a computation

    A computation is framed when it leaves the current context as it found it,
    allocates objects only upwards and leaves every manager that existed before
    it untouched. *)

Definition scopes_ok {D} (w : world D) : Prop :=
  ∀ i, is_Some (w_scopes w !! i) → i < w_next w.

Definition frame {D} (w w' : world D) : Prop :=
  scopes_ok w →
  scopes_ok w' ∧ w_next w ≤ w_next w' ∧ w_current w' = w_current w ∧
  ∀ i, i < w_next w → w_scopes w' !! i = w_scopes w !! i.

#[export] Instance frame_preorder {D} : PreOrder (@frame D).
Proof.
  split.
  - intros w Hw. split_and!; auto.
  - intros w1 w2 w3 H12 H23 Hw1.
    destruct (H12 Hw1) as (Hw2 & Hn & Hc & Hs).
    destruct (H23 Hw2) as (Hw3 & Hn' & Hc' & Hs').
    split_and!; [done | lia | congruence |].
    intros i Hi. rewrite Hs' by lia. by apply Hs.
Qed.

Section ContextTheory.
Context {D : Type}.
Implicit Types (w : world D).

Lemma new_ScopeContext_ok a s r q w c w' :
  new_ScopeContext a s r q w = (Ok c, w') →
  ctx_valid c ∧ identity a = Ok (actor c) ∧ identity s = Ok (scope c) ∧
  r = PStr (reason c) ∧ q = PStr (request_id c) ∧ ctx_id c = w_next w ∧ w' = bump w.
Proof.
  unfold new_ScopeContext, lift. intros H.
  destruct (identity a) as [sa|] eqn:Ha; [|done].
  destruct (identity s) as [ss|] eqn:Hs; [|done].
  unfold mbind, prog_bind in H. destruct r; try done. destruct q; try done.
  destruct (255 <? String.length s1) eqn:Hq; [done|].
  unfold fresh, mret, prog_ret in H. simpl in H. simplify_eq. simpl.
  apply Nat.ltb_ge in Hq.
  split_and!; try done; repeat split; simpl; try lia; by eapply identity_valid.
Qed.

Lemma new_ScopeContext_raise a s r q w e w' :
  new_ScopeContext a s r q w = (Raise e, w') → w' = w.
Proof.
  unfold new_ScopeContext, lift, raise_if, raise, mbind, prog_bind.
  destruct (identity a); [|naive_solver].
  destruct (identity s); [|naive_solver].
  destruct r; try by intros [= _ ->]. destruct q; try by intros [= _ ->].
  destruct (255 <? _); [by intros [= _ ->] | done].
Qed.

(** Rebuilding a context from its own fields gives the same values at a new
    address. *)
Lemma new_ScopeContext_copy c w :
  ctx_valid c →
  new_ScopeContext (PStr (actor c)) (PStr (scope c)) (PStr (reason c))
    (PStr (request_id c)) w =
  (Ok {| ctx_id := w_next w; actor := actor c; scope := scope c;
         reason := reason c; request_id := request_id c |}, bump w).
Proof.
  intros (Ha & Hs & Hq). unfold new_ScopeContext.
  rewrite !identity_PStr by done. unfold mbind, prog_bind, lift.
  destruct (Nat.ltb_spec 255 (String.length (request_id c))); [lia|]. reflexivity.
Qed.

Lemma respects_frame_bump {R} (f : world D → R) :
  respects frame (λ w, (Ok (f w), bump w)).
Proof.
  intros w Hw. split_and!; simpl; auto.
  intros i Hi. specialize (Hw i Hi). simpl. lia.
Qed.

Lemma new_ScopeContext_frame a s r q : respects frame (new_ScopeContext (D:=D) a s r q).
Proof.
  unfold new_ScopeContext. solve_respects. apply (respects_frame_bump w_next).
Qed.

Lemma new_scope_frame a s r q : respects frame (new_scope (D:=D) a s r q).
Proof.
  unfold new_scope. apply respects_bind; [exact _| apply new_ScopeContext_frame|].
  intros c w Hw. unfold fresh, modify, mbind, prog_bind, mret, prog_ret. simpl.
  split_and!; simpl; auto.
  - intros i Hi. simpl in *. destruct (decide (i = w_next w)) as [->|Hne]; [lia|].
    rewrite lookup_insert_ne in Hi by done. specialize (Hw i Hi). lia.
  - intros i Hi. rewrite lookup_insert_ne by lia. done.
Qed.

Lemma get_manager_frame i : respects frame (get_manager (D:=D) i).
Proof. unfold get_manager. solve_respects. Qed.

(** Entering and leaving a manager brackets the body. *)
Lemma with_manager_run {R} i m (body : ScopeContext → py D R) w :
  w_scopes w !! i = Some m → sm_token m = None →
  let w1 := set_scopes (alter (set_token (Some (w_current w))) i (w_scopes w))
              (set_current (Some (context m)) w) in
  let w2 := (body (context m) w1).2 in
  w_scopes w2 !! i = w_scopes w1 !! i →
  with_manager i body w =
    ((body (context m) w1).1,
     set_scopes (alter (set_token None) i (w_scopes w2)) (set_current (w_current w) w2)).
Proof.
  intros Hm Ht w1 w2 Hkeep. unfold with_manager, scope_enter, get_manager, gets, put_token,
    current_set, current_reset, modify, mbind, prog_bind, mret, prog_ret.
  rewrite Hm, Ht. change (set_scopes _ (set_current _ w)) with w1.
  unfold finally, scope_exit, get_manager, gets, put_token, current_reset, modify,
    mbind, prog_bind, mret, prog_ret.
  subst w2. destruct (body (context m) w1) as [r w2] eqn:Hb. simpl in *.
  rewrite Hkeep. subst w1. simpl. rewrite lookup_alter_eq, Hm. reflexivity.
Qed.

(** A manager whose token is set refuses to be entered again. *)
Lemma with_manager_busy {R} i m t (body : ScopeContext → py D R) w :
  w_scopes w !! i = Some m → sm_token m = Some t →
  with_manager i body w = (Raise (RuntimeError
    "Use a fresh scope manager for each nested/concurrent entry."), w).
Proof.
  intros Hm Ht. unfold with_manager, scope_enter, get_manager, gets,
    mbind, prog_bind, mret, prog_ret. by rewrite Hm, Ht.
Qed.

Lemma set_token_id m : sm_token m = None → set_token None m = m.
Proof. destruct m; simpl. by intros ->. Qed.

Lemma with_manager_frame {R} i (body : ScopeContext → py D R) :
  (∀ c, respects frame (body c)) → respects frame (with_manager i body).
Proof.
  intros Hbody w Hw. destruct (w_scopes w !! i) as [m|] eqn:Hm; last first.
  { unfold with_manager, scope_enter, get_manager, gets, mbind, prog_bind, mret, prog_ret.
    rewrite Hm. simpl. by apply (reflexivity w : frame w w). }
  destruct (sm_token m) as [t|] eqn:Ht.
  { erewrite with_manager_busy by done. simpl. by apply (reflexivity w : frame w w). }
  set (w1 := set_scopes (alter (set_token (Some (w_current w))) i (w_scopes w))
              (set_current (Some (context m)) w)).
  assert (Hw1 : scopes_ok w1).
  { intros j Hj. apply (Hw j). subst w1; simpl in Hj. by rewrite lookup_alter_is_Some in Hj. }
  assert (Hi : i < w_next w1) by (apply (Hw i); eauto).
  destruct (Hbody (context m) w1 Hw1) as (Hw2 & Hn & Hc & Hs).
  erewrite with_manager_run by eauto. fold w1.
  set (w2 := (body (context m) w1).2) in *.
  split_and!; simpl; [ |done|done|].
  - intros j Hj. simpl in *. apply Hw2. by rewrite lookup_alter_is_Some in Hj.
  - intros j Hj. destruct (decide (j = i)) as [->|Hne].
    + rewrite lookup_alter_eq, Hs by done. subst w1; simpl.
      rewrite lookup_alter_eq, Hm. simpl. f_equal.
      rewrite <- (set_token_id m Ht) at 2. reflexivity.
    + rewrite lookup_alter_ne, Hs by done. subst w1; simpl. by rewrite lookup_alter_ne.
Qed.

(** [with scope(...)] as [ScopeContext(...)] followed by the bracketed body:
    the manager it allocates is invisible to a framed body. *)
Lemma with_scope_run {R} a s r q (body : ScopeContext → py D R) w c w1 :
  scopes_ok w →
  (∀ c, respects frame (body c)) →
  new_ScopeContext a s r q w = (Ok c, w1) →
  ∃ w2, w_current w2 = Some c ∧ w_db w2 = w_db w ∧ w_next w2 = S (S (w_next w)) ∧
    scopes_ok w2 ∧
    (∀ j, j < w_next w → w_scopes w2 !! j = w_scopes w !! j) ∧
    (with_scope a s r q body w).1 = (body c w2).1 ∧
    w_db (with_scope a s r q body w).2 = w_db (body c w2).2 ∧
    w_current (with_scope a s r q body w).2 = w_current w.
Proof.
  intros Hw Hbody Hnew. unfold with_scope, new_scope.
  pose proof (new_ScopeContext_ok _ _ _ _ _ _ _ Hnew) as (_ & _ & _ & _ & _ & _ & ->).
  unfold mbind, prog_bind. rewrite Hnew. unfold fresh, modify, mret, prog_ret. simpl.
  set (i := S (w_next w)). set (m := {| context := c; sm_token := None |}).
  set (w1 := set_scopes (<[i:=m]> (w_scopes w)) (bump (bump w))).
  set (w2 := set_scopes (alter (set_token (Some (w_current w1))) i (w_scopes w1))
               (set_current (Some c) w1)).
  assert (Hw2 : scopes_ok w2).
  { intros j Hj. subst w2 w1; simpl in *. rewrite lookup_alter_is_Some in Hj.
    destruct (decide (j = i)) as [->|]; [unfold i; lia|].
    rewrite lookup_insert_ne in Hj by done. specialize (Hw j Hj). lia. }
  destruct (Hbody c w2 Hw2) as (_ & _ & _ & Hs).
  assert (Hm : w_scopes w1 !! i = Some m) by apply lookup_insert_eq.
  exists w2. rewrite (with_manager_run i m body w1 Hm eq_refl); last first.
  { apply (Hs i). subst w2 w1 i; simpl. lia. }
  split_and!; try done.
  intros j Hj. subst w2 w1; simpl.
  rewrite lookup_alter_ne, lookup_insert_ne by (subst i; lia). done.
Qed.

Lemma with_scope_raise {R} a s r q (body : ScopeContext → py D R) w e w1 :
  new_ScopeContext a s r q w = (Raise e, w1) → with_scope a s r q body w = (Raise e, w1).
Proof.
  intros H. unfold with_scope, new_scope, mbind, prog_bind. by rewrite H.
Qed.

Lemma with_scope_frame {R} a s r q (body : ScopeContext → py D R) :
  (∀ c, respects frame (body c)) → respects frame (with_scope a s r q body).
Proof.
  intros Hbody. unfold with_scope. apply respects_bind; [exact _|apply new_scope_frame|].
  intros i. by apply with_manager_frame.
Qed.
End ContextTheory.

#[export] Hint Resolve new_ScopeContext_frame new_scope_frame get_manager_frame
  with_manager_frame with_scope_frame : respects.

(** ** Theorems *)

Section ContextProperties.
Context {D : Type}.
Implicit Types (w : world D).

(** Every identity the library accepts is a nonblank string of at most
    255 characters, and accepting it again gives the same string. *)
Theorem identity_sound_idempotent v s :
  identity v = Ok s → valid_identity s ∧ identity (PStr s) = Ok s.
Proof. intros H. pose proof (identity_valid _ _ H). eauto using identity_PStr. Qed.

(** C9: [with scope(...)] runs its body under the context it builds and always
    gives the enclosing context back, whether the body returns or raises; with
    a bad identity the body does not run. *)
Theorem with_scope_brackets {R} a s r q (body : ScopeContext → py D R) w :
  scopes_ok w →
  (∀ c, respects frame (body c)) →
  w_current (with_scope a s r q body w).2 = w_current w ∧
  match new_ScopeContext a s r q w with
  | (Raise e, _) => (with_scope a s r q body w).1 = Raise e ∧
                    w_db (with_scope a s r q body w).2 = w_db w
  | (Ok c, _) => ctx_valid c ∧ ∃ w2,
      w_current w2 = Some c ∧ w_db w2 = w_db w ∧
      (with_scope a s r q body w).1 = (body c w2).1 ∧
      w_db (with_scope a s r q body w).2 = w_db (body c w2).2
  end.
Proof.
  intros Hw Hbody. split.
  { by destruct (with_scope_frame a s r q body Hbody w Hw) as (_ & _ & -> & _). }
  destruct (new_ScopeContext a s r q w) as [[c|e] w1] eqn:Hnew.
  - split; [by apply new_ScopeContext_ok in Hnew as [? _]|].
    edestruct (with_scope_run a s r q body w c w1 Hw Hbody Hnew) as (w2 & ? & ? & _ & _ & _ & ? & ? & _). eauto 10.
  - erewrite with_scope_raise by done. split; [done|]. simpl.
    apply new_ScopeContext_raise in Hnew as ->. done.
Qed.

(** A scope manager that is already entered cannot be entered again: the
    nested body does not run, RuntimeError surfaces, and the context and the
    database are what they were. *)
Theorem scope_reentry_rejected {R} i m (body : ScopeContext → py D R) w :
  w_scopes w !! i = Some m → sm_token m = None →
  let '(r, w') := with_manager i (λ _, with_manager i body) w in
  r = Raise (RuntimeError "Use a fresh scope manager for each nested/concurrent entry.") ∧
  w_current w' = w_current w ∧ w_db w' = w_db w.
Proof.
  intros Hm Ht.
  pose proof (with_manager_run i m (λ _, with_manager i body) w Hm Ht) as Hrun. simpl in Hrun.
  erewrite (with_manager_busy (R:=R)) in Hrun; [| simpl; by rewrite lookup_alter_eq, Hm | done].
  rewrite Hrun by done. simpl. auto.
Qed.

(** A function decorated with [scope(...)] runs, on every call, under a
    fresh context object carrying the decorator's identities (so recursion and
    concurrent calls do not collide) and restores the caller's context. *)
Theorem decorated_call_fresh_context {R} i m (f : py D R) w :
  scopes_ok w → w_scopes w !! i = Some m → ctx_valid (context m) → respects frame f →
  ∃ g, scope_call i Plain f w = (Ok g, w) ∧
  ∃ c w2, ctx_id c = w_next w ∧ actor c = actor (context m) ∧ scope c = scope (context m) ∧
    reason c = reason (context m) ∧ request_id c = request_id (context m) ∧
    w_current w2 = Some c ∧ w_db w2 = w_db w ∧
    (g w).1 = (f w2).1 ∧ w_current (g w).2 = w_current w.
Proof.
  intros Hw Hm Hv Hf.
  assert (Hg : (j ← _recreate_cm i; with_manager j (λ _, f)) w =
    with_scope (PStr (actor (context m))) (PStr (scope (context m)))
      (PStr (reason (context m))) (PStr (request_id (context m))) (λ _, f) w).
  { unfold with_scope, _recreate_cm, get_manager, gets, mbind, prog_bind, mret, prog_ret.
    by rewrite Hm. }
  eexists. split; [reflexivity|]. rewrite Hg.
  destruct (with_scope_run _ _ _ _ (λ _, f) w _ _ Hw (λ _, Hf)
    (new_ScopeContext_copy (context m) w Hv)) as (w2 & Hcur & Hdb & _ & _ & _ & Hr & _ & Hc).
  eexists _, w2. split_and!; [| | | | |exact Hcur|exact Hdb|exact Hr|exact Hc]; done.
Qed.

(** [in_scope(resolver)] runs the function only under the context its
    resolver returned; any other result is refused before the function runs. *)
Theorem in_scope_resolves {R} (resolver : py D resolved) (f : py D R) w r w1 :
  scopes_ok w → respects frame resolver → respects frame f →
  resolver w = (Ok r, w1) →
  ∃ g, in_scope resolver Coroutine f w = (Ok g, w) ∧ w_current (g w).2 = w_current w ∧
  match r with
  | RContext c => ctx_valid c → ∃ c' w2,
      actor c' = actor c ∧ scope c' = scope c ∧ w_current w2 = Some c' ∧
      w_db w2 = w_db w1 ∧ (g w).1 = (f w2).1 ∧ w_db (g w).2 = w_db (f w2).2
  | _ => (g w).1 = Raise (ImproperlyConfigured
           "A PyScoped resolver must return ScopeContext.") ∧ w_db (g w).2 = w_db w1
  end.
Proof.
  intros Hw Hres Hf Hrun. pose proof (Hres w Hw) as Hfr. rewrite Hrun in Hfr. simpl in Hfr.
  destruct Hfr as (Hw1 & _ & Hc1 & _).
  eexists. split; [reflexivity|]. rewrite run_bind, Hrun.
  destruct r as [c| |]; simpl; [|done|done].
  rewrite run_bind. simpl.
  pose proof (with_scope_frame (PStr (actor c)) (PStr (scope c)) (PStr (reason c))
    (PStr (request_id c)) (λ _, f) (λ _, Hf) w1 Hw1) as (_ & _ & Hcur & _).
  split; [congruence|]. intros Hv.
  destruct (with_scope_run _ _ _ _ (λ _, f) w1 _ _ Hw1 (λ _, Hf)
    (new_ScopeContext_copy c w1 Hv)) as (w2 & Hcur2 & Hdb & _ & _ & _ & Hr & Hd & _).
  eexists _, w2. split_and!; [| |exact Hcur2|exact Hdb|exact Hr|exact Hd]; done.
Qed.
End ContextProperties.

(** ** Witnesses *)

(** A process with no context, no managers, at address 0. *)
Definition idle {D} (d : D) : world D := World d None None ∅ 0 "2026-01-01T00:00:00Z".

Lemma idle_scopes_ok {D} (d : D) : scopes_ok (idle d).
Proof. intros i [x Hx]. simpl in Hx. by rewrite lookup_empty in Hx. Qed.

Lemma identity_sound_idempotent_witness :
  identity (PModel (PInt 42) false "bob") = Ok "42" ∧ identity (PStr "42") = Ok "42".
Proof.
  split; [vm_compute; reflexivity|].
  apply (identity_sound_idempotent (PModel (PInt 42) false "bob") "42").
  vm_compute. reflexivity.
Defined.

Definition alice : ScopeContext :=
  {| ctx_id := 3; actor := "alice"; scope := "acme"; reason := ""; request_id := "r1" |}.

Lemma alice_valid : ctx_valid alice.
Proof. repeat split; vm_compute; repeat constructor. Qed.

(** A process that holds one manager, for [alice], not entered. *)
Definition one_manager : world nat :=
  World 7 None None {[ 4 := {| context := alice; sm_token := None |} ]} 5 "t0".

Lemma one_manager_ok : scopes_ok one_manager.
Proof.
  intros i [x Hx]. simpl in Hx. apply lookup_singleton_Some in Hx as [<- _]. simpl. lia.
Qed.

Definition read_db : py nat nat := gets w_db.

Lemma read_db_frame : respects frame read_db.
Proof. apply respects_pure; [exact _ | done]. Qed.

Lemma with_scope_brackets_witness :
  w_current (with_scope (PStr "alice") (PStr "acme") (PStr "") (PStr "") (λ _, read_db)
    one_manager).2 = None.
Proof.
  apply (with_scope_brackets (PStr "alice") (PStr "acme") (PStr "") (PStr "")
    (λ _, read_db) one_manager one_manager_ok (λ _, read_db_frame)).
Defined.

Lemma scope_reentry_rejected_witness :
  (with_manager 4 (λ _, with_manager 4 (λ _, read_db)) one_manager).1 =
  Raise (RuntimeError "Use a fresh scope manager for each nested/concurrent entry.").
Proof.
  apply (scope_reentry_rejected 4 {| context := alice; sm_token := None |}
    (λ _, read_db) one_manager); vm_compute; reflexivity.
Defined.

Lemma decorated_call_fresh_context_witness :
  ∃ g, scope_call 4 Plain read_db one_manager = (Ok g, one_manager) ∧
       ∃ c w2, ctx_id c = 5 ∧ actor c = "alice" ∧ w_current w2 = Some c ∧
         (g one_manager).1 = (read_db w2).1.
Proof.
  destruct (decorated_call_fresh_context 4 {| context := alice; sm_token := None |}
    read_db one_manager one_manager_ok eq_refl alice_valid read_db_frame)
    as (g & Hg & c & w2 & ? & ? & _ & _ & _ & ? & _ & ? & _).
  exists g. split; [exact Hg|]. exists c, w2. auto.
Defined.

Definition alice_resolver : py nat resolved := mret (RContext alice).

Lemma alice_resolver_frame : respects frame alice_resolver.
Proof. apply respects_pure; [exact _ | done]. Qed.

Lemma in_scope_resolves_witness :
  ∃ g, in_scope alice_resolver Coroutine read_db one_manager = (Ok g, one_manager) ∧
       w_current (g one_manager).2 = None.
Proof.
  destruct (in_scope_resolves alice_resolver read_db one_manager (RContext alice)
    one_manager one_manager_ok alice_resolver_frame read_db_frame eq_refl)
    as (g & Hg & Hc & _).
  exists g. split; [exact Hg | exact Hc].
Defined.
