(* ===== verification/Middleware.v ===== *)
(** * Request context (pyscoped/middleware.py)

    [ScopedMiddleware]: the request bracket and the streaming wrapper, whose
    generator is a three-state machine. *)

From S2P Require Import Prelude Context.

Section Middleware.
Context {D : Type}.
Implicit Types (w : world D).

Definition chunk : Type := string.

(** An iterator object: [it_next] gives [None] for StopIteration, [it_close]
    is its [close]/[aclose] method when it has one. *)
Record iterator := {
  it_next : py D (option chunk);
  it_close : option (py D unit);
}.

(** A response: [streaming] holds [iter(response.streaming_content)] when the
    response streams. *)
Record response := {
  payload : string;
  streaming : option (py D iterator);
}.

(** ** __init__: the configured resolver *)

Inductive setting {Req : Type} :=
  | SCallable (f : Req → py D resolved)
  | SString (path : string)
  | SOther.
Arguments setting : clear implicits.

Definition middleware_init {Req} (import_string : string → py D (setting Req))
  (value : setting Req) : py D (Req → py D resolved) :=
  v ← match value with SString path => import_string path | _ => mret value end;
  match v with
  | SCallable f => mret f
  | _ => raise (ImproperlyConfigured
           "Configure PYSCOPED_CONTEXT_RESOLVER with a trusted callable.")
  end.

(** ** _stream *)

(** The states of the [chunks()] generator: not started, suspended at its
    [yield] with the source iterator in hand, returned. *)
Inductive generator :=
  | Unstarted
  | Suspended (it : iterator)
  | Finished.

(** The [finally] clause of [chunks]. *)
Definition close_source (ctx : option ScopeContext) (it : iterator) : py D unit :=
  match it_close it with
  | Some close => _bind ctx close
  | None => mret tt
  end.

(** One turn of the [while True] loop, up to the next [yield]. *)
Definition pull (ctx : option ScopeContext) (it : iterator) (w : world D)
  : outcome (option chunk) * generator * world D :=
  match _bind ctx (it_next it) w with
  | (Ok (Some c), w1) => (Ok (Some c), Suspended it, w1)
  | (Ok None, w1) =>
      match close_source ctx it w1 with
      | (Ok _, w2) => (Ok None, Finished, w2)
      | (Raise e, w2) => (Raise e, Finished, w2)
      end
  | (Raise e, w1) =>
      match close_source ctx it w1 with
      | (Ok _, w2) => (Raise e, Finished, w2)
      | (Raise e', w2) => (Raise e', Finished, w2)
      end
  end.

(** [next(chunks)] and [chunks.close()]. *)
Definition chunks_next (source : py D iterator) (ctx : option ScopeContext)
  (g : generator) (w : world D) : outcome (option chunk) * generator * world D :=
  match g with
  | Unstarted =>
      match source w with
      | (Ok it, w1) => pull ctx it w1
      | (Raise e, w1) => (Raise e, Finished, w1)
      end
  | Suspended it => pull ctx it w
  | Finished => (Ok None, Finished, w)
  end.

Definition chunks_close (ctx : option ScopeContext) (g : generator) (w : world D)
  : outcome unit * generator * world D :=
  match g with
  | Suspended it => let '(r, w1) := close_source ctx it w in (r, Finished, w1)
  | _ => (Ok tt, Finished, w)
  end.

(** What the middleware hands back: the response itself, or one whose content
    is the wrapping generator. *)
Inductive result_response :=
  | Untouched (r : response)
  | Wrapped (r : response) (source : py D iterator) (ctx : option ScopeContext)
      (g : generator).

Definition _stream (r : response) (ctx : option ScopeContext) : result_response :=
  match streaming r with
  | None => Untouched r
  | Some source => Wrapped r source ctx Unstarted
  end.

(** ** __call__ / __acall__

    [get_response] receives the request together with the value the
    middleware stored in [request.pyscoped_context]. *)
Definition middleware_call {Req} (resolver : Req → py D resolved)
  (get_response : Req → option ScopeContext → py D response) (request : Req)
  : py D result_response :=
  t ← current_set None;
  finally
    (r ← resolver request;
     match r with
     | RNone =>
         resp ← get_response request None;
         mret (_stream resp None)
     | _ =>
         ctx ← validate_context r;
         resp ← _bind (Some ctx) (get_response request (Some ctx));
         mret (_stream resp (Some ctx))
     end)
    (current_reset (Some t)).
End Middleware.
Arguments iterator : clear implicits.
Arguments response : clear implicits.
Arguments generator : clear implicits.
Arguments result_response : clear implicits.
Arguments setting : clear implicits.

(** ** Lemmas *)

Section MiddlewareTheory.
Context {D : Type}.
Implicit Types (w : world D).

Lemma bind_run {R} ctx (body : py D R) w :
  _bind ctx body w =
  ((body (set_current ctx w)).1,
   set_current (w_current w) (body (set_current ctx w)).2).
Proof.
  unfold _bind, current_set, current_reset, finally, mbind, prog_bind. simpl.
  by destruct (body (set_current ctx w)).
Qed.

Lemma close_source_current ctx it w : w_current (close_source ctx it w).2 = w_current w.
Proof. unfold close_source. destruct (it_close it); [|done]. by rewrite bind_run. Qed.

Lemma pull_current ctx it w : w_current (pull ctx it w).2 = w_current w.
Proof.
  unfold pull. rewrite bind_run.
  destruct (it_next it (set_current ctx w)) as [[[c|]|e] w1]; simpl; [done| |];
    pose proof (close_source_current ctx it (set_current (w_current w) w1)) as Hc;
    destruct (close_source _ _ _) as [[]]; exact Hc.
Qed.

(** ** Theorems *)

(** Whatever the resolver and the view do, the middleware gives the worker
    its own context back; the resolver runs without any context (a request
    never inherits a previous one), the view runs under exactly the resolver's
    context and finds it on the request, and a resolver result that is not a
    context is refused before the view runs. *)
Theorem middleware_request_bracket {Req} (resolver : Req → py D resolved)
  (get_response : Req → option ScopeContext → py D (response D)) request w :
  let w0 := set_current None w in
  let out := middleware_call resolver get_response request w in
  w_current out.2 = w_current w ∧
  match resolver request w0 with
  | (Raise e, w1) => out.1 = Raise e ∧ w_db out.2 = w_db w1
  | (Ok RNone, w1) =>
      let v := get_response request None w1 in
      out.1 = ((λ r, _stream r None) <$> v.1) ∧ w_db out.2 = w_db v.2
  | (Ok (RContext c), w1) =>
      let v := get_response request (Some c) (set_current (Some c) w1) in
      out.1 = ((λ r, _stream r (Some c)) <$> v.1) ∧ w_db out.2 = w_db v.2
  | (Ok ROther, w1) =>
      out.1 = Raise (ImproperlyConfigured "A PyScoped resolver must return ScopeContext.") ∧
      w_db out.2 = w_db w1
  end.
Proof.
  intros w0 out. subst out. unfold middleware_call.
  match goal with |- context [t ← current_set None; finally ?m _] =>
    change (t ← current_set None; finally m (current_reset (Some t))) with (_bind None m)
  end.
  rewrite bind_run. fold w0. simpl. split; [done|].
  unfold mbind, prog_bind. destruct (resolver request w0) as [[[c| |]|e] w1]; simpl.
  - rewrite bind_run. by destruct (get_response request (Some c) _) as [[]].
  - by destruct (get_response request None w1) as [[]].
  - done.
  - done.
Qed.

(** ** The streaming generator, observed

    The source's calls are observed through a log kept in the database slot:
    every [next]/[close] of the source records the context it ran under, and
    what it answers may depend on everything logged so far. *)

Inductive source_call := CNext | CClose.
End MiddlewareTheory.

Definition call_log : Type := list (source_call * option ScopeContext).

Section Streaming.
Context (answer : call_log → outcome (option chunk)) (closing : call_log → outcome unit).
Context (ctx : option ScopeContext).

Definition log_call (k : source_call) (w : world call_log) : world call_log :=
  set_db (w_db w ++ [(k, w_current w)]) w.

Definition observed : iterator call_log := {|
  it_next := λ w, (answer (w_db w), log_call CNext w);
  it_close := Some (λ w, (closing (w_db w), log_call CClose w));
|}.

(** What the consumer of the stream does. *)
Inductive consumer_op := ONext | OClose.

Definition consume (op : consumer_op) (g : generator call_log) (w : world call_log)
  : generator call_log * world call_log :=
  match op with
  | ONext => let '(_, g', w') := chunks_next (mret observed) ctx g w in (g', w')
  | OClose => let '(_, g', w') := chunks_close ctx g w in (g', w')
  end.

Definition consume_all (ops : list consumer_op) (gw : generator call_log * world call_log)
  : generator call_log * world call_log :=
  foldl (λ gw op, consume op gw.1 gw.2) gw ops.

(** The log of a stream whose generator is in state [g]: [next] calls only
    while it is suspended, one [close] last once it is finished. *)
Definition log_shape (g : generator call_log) (log : call_log) : Prop :=
  match g with
  | Unstarted => log = []
  | Suspended it => it = observed ∧ ∃ n, log = replicate (S n) (CNext, ctx)
  | Finished => log = [] ∨
      ∃ n, log = replicate (S n) (CNext, ctx) ++ [(CClose, ctx)]
  end.

Lemma log_snoc n : replicate n (CNext, ctx) ++ [(CNext, ctx)] = replicate (S n) (CNext, ctx).
Proof. by rewrite <- replicate_cons_app. Qed.

Lemma pull_shape n w r g' w' :
  w_db w = replicate n (CNext, ctx) →
  pull ctx observed w = (r, g', w') → log_shape g' (w_db w').
Proof.
  intros Hlog. unfold pull, close_source. rewrite bind_run.
  change (it_close observed) with
    (Some (λ w, (closing (w_db w), log_call CClose w)) : option (py call_log unit)).
  change (it_next observed (set_current ctx w)) with
    (answer (w_db w), log_call CNext (set_current ctx w)).
  unfold log_call. simpl. rewrite Hlog. destruct (answer _) as [[c|]|e]; simpl.
  - intros [= <- <- <-]. simpl. split; [done|]. exists n. by rewrite log_snoc.
  - rewrite log_snoc.
    destruct (closing _) as [[]|e']; simpl; intros [= <- <- <-]; simpl; eauto.
  - rewrite log_snoc.
    destruct (closing _) as [[]|e']; simpl; intros [= <- <- <-]; simpl; eauto.
Qed.

Lemma consume_shape op g w :
  log_shape g (w_db w) →
  let gw := consume op g w in
  log_shape gw.1 (w_db gw.2) ∧ w_current gw.2 = w_current w.
Proof.
  intros Hg. unfold consume. destruct op.
  - pose proof (pull_current ctx observed w) as Hc.
    destruct g as [|it|]; simpl in *; [| |auto].
    + destruct (pull ctx observed w) as [[r g'] w'] eqn:Hp. simpl in *.
      split; [exact (pull_shape 0 w r g' w' Hg Hp) | done].
    + destruct Hg as [-> [n Hn]].
      destruct (pull ctx observed w) as [[r g'] w'] eqn:Hp. simpl in *.
      split; [exact (pull_shape (S n) w r g' w' Hn Hp) | done].
  - destruct g as [|it|]; simpl in *; [auto| |auto].
    destruct Hg as [-> [n Hn]]. unfold close_source, observed, log_call.
    cbn [it_close]. rewrite bind_run. simpl. rewrite Hn. eauto.
Qed.

Lemma consume_all_shape ops g w :
  log_shape g (w_db w) →
  let gw := consume_all ops (g, w) in
  log_shape gw.1 (w_db gw.2) ∧ w_current gw.2 = w_current w.
Proof.
  revert g w. induction ops as [|op ops IH]; intros g w Hg; simpl in *; [done|].
  destruct (consume_shape op g w Hg) as [Hs Hc].
  destruct (consume op g w) as [g1 w1]. simpl in *.
  destruct (IH g1 w1 Hs) as [? ?]. split; [done|congruence].
Qed.

(** C10: However the consumer drives a wrapped stream (any sequence of [next] and
    [close]), every call the source sees runs under the stream's own context,
    nothing runs after the source is closed, it is closed at most once and
    always once the generator returned after starting, and the consumer's
    context is never disturbed. *)
Theorem streaming_keeps_context ops w :
  w_db w = [] →
  let gw := consume_all ops (Unstarted, w) in
  w_current gw.2 = w_current w ∧
  (∀ k c, (k, c) ∈ w_db gw.2 → c = ctx) ∧
  match gw.1 with
  | Unstarted => w_db gw.2 = []
  | Suspended _ => (w_db gw.2).*1 = replicate (length (w_db gw.2)) CNext
  | Finished => w_db gw.2 = [] ∨
      ∃ n, (w_db gw.2).*1 = replicate (S n) CNext ++ [CClose]
  end.
Proof.
  intros Hw gw.
  assert (Hinv : log_shape gw.1 (w_db gw.2) ∧ w_current gw.2 = w_current w).
  { subst gw. apply (consume_all_shape ops Unstarted w Hw). }
  destruct Hinv as [Hs Hc]. split; [done|].
  unfold log_shape in Hs. destruct gw.1.
  - by rewrite Hs; split; [intros ?? ?%not_elem_of_nil|].
  - destruct Hs as [_ [n Hn]]. rewrite Hn. split.
    + by intros k c [[= -> ->] _]%elem_of_replicate.
    + by rewrite fmap_replicate, length_replicate.
  - destruct Hs as [Hn|[n Hn]]; rewrite Hn.
    + split; [by intros ?? ?%not_elem_of_nil|by left].
    + split.
      * intros k c. rewrite elem_of_app, elem_of_replicate, list_elem_of_singleton. naive_solver.
      * right. exists n. by rewrite fmap_app, fmap_replicate.
Qed.
End Streaming.

(** ** Witnesses *)

(** A source with two chunks. *)
Definition two_chunks (log : call_log) : outcome (option chunk) :=
  if length log <? 2 then Ok (Some "chunk") else Ok None.

Lemma streaming_keeps_context_witness :
  let gw := consume_all two_chunks (λ _, Ok tt) (Some alice)
              [ONext; ONext; ONext; ONext; OClose] (Unstarted, idle []) in
  w_current gw.2 = None ∧ length (w_db gw.2) = 4 ∧
  (∀ k c, (k, c) ∈ w_db gw.2 → c = Some alice).
Proof.
  destruct (streaming_keeps_context two_chunks (λ _, Ok tt) (Some alice)
    [ONext; ONext; ONext; ONext; OClose] (idle []) eq_refl) as (Hc & Hall & _).
  split; [exact Hc|]. split; [vm_compute; reflexivity | exact Hall].
Defined.
