(* ===== verification/Registry.v ===== *)
(** * Model registration (pyscoped/registry.py, pyscoped/checks.py)

    The metadata Django exposes about an application model is data here (a
    [model] record); what the package does with it is modelled: the checks of
    [register], the registry, the one-time installation of the method wrappers,
    the relation guards, and the system checks. *)

From S2P Require Import Prelude Context.

(** ** Metadata *)

Inductive on_delete := CASCADE | PROTECT | RESTRICT | DO_NOTHING | SET_NULL | SET_DEFAULT | CUSTOM.

#[export] Instance on_delete_eq_dec : EqDecision on_delete.
Proof. solve_decision. Defined.

Record field := {
  f_name : string;
  f_attname : string;
  f_is_relation : bool;
  f_related_model : string;          (* label of field.related_model *)
  f_target_attname : string;         (* field.target_field.attname *)
  f_target : string * string;        (* the field whose to_python converts a value *)
  f_on_delete : on_delete;
  f_null : bool;
  f_concrete : bool;
  f_many_to_many : bool;
  f_primary_key : bool;
}.

(** [mgr_scoped]: isinstance(manager, ScopedManager); [mgr_queryset_scoped]:
    issubclass(manager._queryset_class, ScopedQuerySet). *)
Record manager := { mgr_name : string; mgr_scoped : bool; mgr_queryset_scoped : bool }.

(** A reverse relation of [_meta.related_objects]. *)
Record reverse_relation := {
  rel_related_model : string;
  rel_one_to_one : bool;
  rel_hidden : bool;
  rel_accessor : string;
}.

Record model := {
  label : string;
  label_lower : string;
  m_abstract : bool;
  m_proxy : bool;
  m_parents : bool;
  m_composite_pk : bool;
  m_managers : list manager;
  m_fields : list field;             (* _meta.fields *)
  m_has_many_to_many : bool;         (* any(f.many_to_many for f in _meta.get_fields()) *)
  m_get_field : string → option field;
  m_related : list reverse_relation;         (* _meta.related_objects *)
  m_pk_name : string;
}.

Inductive mode := Audit | Enforce.

#[export] Instance mode_eq_dec : EqDecision mode.
Proof. solve_decision. Defined.

Definition parse_mode (s : string) : option mode :=
  if bool_decide (s = "audit") then Some Audit
  else if bool_decide (s = "enforce") then Some Enforce else None.

Record Registration := {
  rg_model : model;
  scope_field : string;
  fields : list string;
  rg_mode : mode;
}.

(** [_meta.get_field(name)] for a name that was checked at registration. *)
Definition field_or (m : model) (name : string) (d : field) : field := default d (m_get_field m name).

Definition no_field : field := {|
  f_name := ""; f_attname := ""; f_is_relation := false; f_related_model := "";
  f_target_attname := ""; f_target := ("", ""); f_on_delete := PROTECT;
  f_null := true; f_concrete := false; f_many_to_many := false; f_primary_key := false |}.

Definition get_field (m : model) (name : string) : field := field_or m name no_field.

Definition scope_attname (c : Registration) : string :=
  f_attname (get_field (rg_model c) (scope_field c)).

(** ** The registry

    [installed] lists the models whose save_base / save / delete /
    refresh_from_db were wrapped and whose pre_delete receiver was connected,
    once per installation; [guards] maps a relation descriptor
    [(model, attribute)] to the protected target it was wrapped for. *)
Record rstate := {
  _registry : list Registration;
  installed : list string;
  guards : gmap (string * string) string;
  models_ready : bool;
}.

Definition find_registration (l : list Registration) (lbl : string) : option Registration :=
  find (λ c, bool_decide (label (rg_model c) = lbl)) l.

Definition registration (rs : rstate) (m : model) : outcome Registration :=
  match find_registration (_registry rs) (label m) with
  | Some c => Ok c
  | None => Raise (ImproperlyConfigured (label m +:+ " must be registered with @pyscoped.scoped."))
  end.

Definition registered_models (rs : rstate) : list Registration := _registry rs.

Definition enforced (c : Registration) : bool := bool_decide (rg_mode c = Enforce).

(** [protected]: the registrations in enforce mode. *)
Definition protected (rs : rstate) : list Registration := filter (λ c, enforced c = true) (_registry rs).

(** ** install_relation_guards *)

Definition guard (lbl name target : string) (g : gmap (string * string) string)
  : gmap (string * string) string :=
  match g !! (lbl, name) with
  | Some _ => g                                  (* already a _ScopedForwardRelation *)
  | None => <[(lbl, name) := target]> g
  end.

Definition guard_field (prot : list Registration) (lbl : string)
  (g : gmap (string * string) string) (f : field) : gmap (string * string) string :=
  if f_is_relation f then
    match find_registration prot (f_related_model f) with
    | Some target => guard lbl (f_name f) (label (rg_model target)) g
    | None => g
    end
  else g.

Definition guard_relation (prot : list Registration) (lbl : string)
  (g : gmap (string * string) string) (r : reverse_relation) : gmap (string * string) string :=
  match find_registration prot (rel_related_model r) with
  | Some target =>
      if negb (rel_one_to_one r) || rel_hidden r then g
      else guard lbl (rel_accessor r) (label (rg_model target)) g
  | None => g
  end.

Definition guard_model (ready : bool) (prot : list Registration)
  (g : gmap (string * string) string) (c : Registration) : gmap (string * string) string :=
  let m := rg_model c in
  let g1 := foldl (guard_field prot (label m)) g (m_fields m) in
  if ready then foldl (guard_relation prot (label m)) g1 (m_related m) else g1.

Definition install_relation_guards (rs : rstate) : rstate :=
  {| _registry := _registry rs; installed := installed rs; models_ready := models_ready rs;
     guards := foldl (guard_model (models_ready rs) (protected rs)) (guards rs) (protected rs) |}.

(** ** register *)

(** The [fields] argument: a tuple or list of names, or something else (a bare
    string, a set). *)
Inductive fields_arg := FieldSeq (names : list string) | FieldOther.

Definition bad_manager (x : manager) : bool := negb (mgr_scoped x) || negb (mgr_queryset_scoped x).

Definition check_field (m : model) (name : string) : outcome unit :=
  match m_get_field m name with
  | None => Raise (ImproperlyConfigured ("Unknown field " +:+ name +:+ " on " +:+ label m +:+ "."))
  | Some f =>
      if negb (f_concrete f) || f_many_to_many f || f_primary_key f
      then Raise (ImproperlyConfigured "Scope/audit fields must be concrete, non-PK columns.")
      else Ok tt
  end.

Fixpoint check_fields (m : model) (names : list string) : outcome unit :=
  match names with
  | [] => Ok tt
  | n :: ns => check_field m n ≫= λ _, check_fields m ns
  end.

(** The validation part of [register], in the order of the code. *)
Definition validate_registration (m : model) (sf : string) (fs : fields_arg) (md : string)
  : outcome Registration :=
  if m_abstract m || m_proxy m || m_parents m then
    Raise (ImproperlyConfigured "Register a concrete model without multi-table inheritance.")
  else if m_composite_pk m then
    Raise (ImproperlyConfigured "Composite primary keys are outside initial 2.0 support.")
  else match find bad_manager (m_managers m) with
  | Some x => Raise (ImproperlyConfigured
      (label m +:+ "." +:+ mgr_name x +:+ " needs ScopedManager and ScopedQuerySet."))
  | None =>
  match parse_mode md with
  | None => Raise (ImproperlyConfigured "mode must be 'audit' or 'enforce'.")
  | Some md' =>
  match fs with
  | FieldOther | FieldSeq [] =>
      Raise (ImproperlyConfigured "Supply a nonempty explicit audit field allowlist.")
  | FieldSeq names =>
      check_fields m (sf :: names) ≫= λ _,
      if f_null (get_field m sf)
      then Raise (ImproperlyConfigured "The scope field must be non-nullable.")
      else Ok {| rg_model := m; scope_field := sf; fields := names; rg_mode := md' |}
  end end end.

(** [_registry[model] != config], the model being the same object. *)
Definition same_options (a b : Registration) : bool :=
  bool_decide (scope_field a = scope_field b) && bool_decide (fields a = fields b)
  && bool_decide (rg_mode a = rg_mode b).

Definition register (m : model) (sf : string) (fs : fields_arg) (md : string) (rs : rstate)
  : outcome rstate :=
  config ← validate_registration m sf fs md;
  match find_registration (_registry rs) (label m) with
  | Some old =>
      if same_options old config then Ok rs
      else Raise (ImproperlyConfigured "A model cannot be registered twice with different options.")
  | None =>
      Ok (install_relation_guards
        {| _registry := _registry rs ++ [config];
           installed := installed rs ++ [label m];
           guards := guards rs;
           models_ready := models_ready rs |})
  end.

(** The [@scoped] decorator. *)
Definition scoped (sf : string) (fs : fields_arg) (md : string) (m : model) : rstate → outcome rstate :=
  register m sf fs md.

(** ** checks.py *)

Inductive check_error := E001 (lbl mgr : string) | E002 (lbl fld : string) | E003 (lbl mgr : string)
  | E004 (lbl : string).

Definition check_manager (m : model) (x : manager) : list check_error :=
  if negb (mgr_scoped x) then [E001 (label m) (mgr_name x)]
  else if negb (mgr_queryset_scoped x) then [E003 (label m) (mgr_name x)] else [].

Definition audited_on_delete (d : on_delete) : bool :=
  match d with CASCADE | PROTECT | RESTRICT | DO_NOTHING => true | _ => false end.

Definition check_on_delete (m : model) (f : field) : list check_error :=
  if f_is_relation f && negb (audited_on_delete (f_on_delete f)) then [E002 (label m) (f_name f)] else [].

Definition check_model (m : model) : list check_error :=
  mjoin (check_manager m <$> m_managers m)
  ++ (if m_has_many_to_many m then [E004 (label m)] else [])
  ++ mjoin (check_on_delete m <$> m_fields m).

(** [app_configs]: None checks every model, else those the predicate selects. *)
Definition check_registered_models (app_configs : option (model → bool)) (rs : rstate)
  : list check_error :=
  mjoin ((λ c, match app_configs with
               | Some selected => if selected (rg_model c) then check_model (rg_model c) else []
               | None => check_model (rg_model c)
               end) <$> registered_models rs).

(** ** What a registration guarantees *)

Definition audit_column (f : field) : Prop :=
  f_concrete f = true ∧ f_many_to_many f = false ∧ f_primary_key f = false.

Record valid_registration (c : Registration) : Prop := {
  vr_concrete : m_abstract (rg_model c) || m_proxy (rg_model c) || m_parents (rg_model c) = false;
  vr_simple_pk : m_composite_pk (rg_model c) = false;
  vr_managers : ∀ x, x ∈ m_managers (rg_model c) →
    mgr_scoped x = true ∧ mgr_queryset_scoped x = true;
  vr_nonempty : fields c ≠ [];
  vr_columns : ∀ n, n ∈ scope_field c :: fields c →
    ∃ f, m_get_field (rg_model c) n = Some f ∧ audit_column f;
  vr_scope_not_null : f_null (get_field (rg_model c) (scope_field c)) = false;
}.

Definition labels (rs : rstate) : list string := (label ∘ rg_model) <$> _registry rs.

(** Every relation between enforced models is read through a guarded
    descriptor. *)
Definition guards_complete (rs : rstate) : Prop :=
  ∀ c, c ∈ protected rs →
    (∀ f t, f ∈ m_fields (rg_model c) → f_is_relation f = true →
      find_registration (protected rs) (f_related_model f) = Some t →
      is_Some (guards rs !! (label (rg_model c), f_name f))) ∧
    (models_ready rs = true → ∀ r t, r ∈ m_related (rg_model c) →
      rel_one_to_one r = true → rel_hidden r = false →
      find_registration (protected rs) (rel_related_model r) = Some t →
      is_Some (guards rs !! (label (rg_model c), rel_accessor r))).

Record registry_ok (rs : rstate) : Prop := {
  ro_nodup : NoDup (labels rs);
  ro_installed : installed rs = labels rs;   (* each model wrapped exactly once *)
  ro_valid : Forall valid_registration (_registry rs);
  ro_guards : guards_complete rs;
}.

(** ** Lemmas *)

Lemma check_fields_ok m names u :
  check_fields m names = Ok u →
  ∀ n, n ∈ names → ∃ f, m_get_field m n = Some f ∧ audit_column f.
Proof.
  revert u. induction names as [|n ns IH]; intros u H k Hk; [by apply not_elem_of_nil in Hk|].
  simpl in H. destruct (check_field m n) as [[]|] eqn:Hn; [|done].
  apply elem_of_cons in Hk as [->|Hk]; [|by eapply IH].
  unfold check_field in Hn. destruct (m_get_field m n) as [f|]; [|done].
  exists f. split; [done|]. unfold audit_column.
  destruct (f_concrete f), (f_many_to_many f), (f_primary_key f); done.
Qed.

Lemma validate_registration_ok m sf fs md c :
  validate_registration m sf fs md = Ok c →
  valid_registration c ∧ rg_model c = m ∧ scope_field c = sf ∧
  fs = FieldSeq (fields c) ∧ parse_mode md = Some (rg_mode c).
Proof.
  unfold validate_registration. intros H.
  destruct (m_abstract m || m_proxy m || m_parents m) eqn:Hab; [done|].
  destruct (m_composite_pk m) eqn:Hpk; [done|].
  destruct (find bad_manager (m_managers m)) eqn:Hman; [done|].
  destruct (parse_mode md) as [md'|]; [|done].
  destruct fs as [[|n ns]|]; try done.
  destruct (check_fields m (sf :: n :: ns)) as [u|] eqn:Hf; [|done]. simpl in H.
  destruct (f_null (get_field m sf)) eqn:Hnull; [done|]. simplify_eq.
  split_and!; try done. constructor; simpl; try done.
  - intros x Hx. pose proof (find_None_elem _ _ _ Hman Hx) as Hbad.
    unfold bad_manager in Hbad. by destruct (mgr_scoped x), (mgr_queryset_scoped x).
  - by eapply check_fields_ok.
Qed.

Lemma guard_subseteq lbl n t g : g ⊆ guard lbl n t g.
Proof. unfold guard. case_match; [done|]. by apply insert_subseteq. Qed.

Lemma guard_is_Some lbl n t g : is_Some (guard lbl n t g !! (lbl, n)).
Proof. unfold guard. case_match eqn:H; [by eauto|]. rewrite lookup_insert_eq. eauto. Qed.

Lemma guard_fixed lbl n t g : is_Some (g !! (lbl, n)) → guard lbl n t g = g.
Proof. unfold guard. by intros [x ->]. Qed.

Lemma is_Some_subseteq (g g' : gmap (string * string) string) k :
  g ⊆ g' → is_Some (g !! k) → is_Some (g' !! k).
Proof. intros Hsub [x Hx]. exists x. by eapply lookup_weaken. Qed.

Lemma guard_field_subseteq prot lbl f g : g ⊆ guard_field prot lbl g f.
Proof. unfold guard_field. repeat case_match; try done. apply guard_subseteq. Qed.

Lemma guard_relation_subseteq prot lbl r g : g ⊆ guard_relation prot lbl g r.
Proof. unfold guard_relation. repeat case_match; try done. apply guard_subseteq. Qed.

Lemma foldl_subseteq {X} (f : gmap (string * string) string → X → gmap (string * string) string) l g :
  (∀ g x, g ⊆ f g x) → g ⊆ foldl f g l.
Proof. intros Hf. apply (foldl_preserves (λ g', g ⊆ g')); [done|]. intros; by etrans. Qed.

Lemma guard_model_subseteq ready prot c g : g ⊆ guard_model ready prot g c.
Proof.
  unfold guard_model. etrans; [|case_match; [|reflexivity]].
  - apply foldl_subseteq. intros. apply guard_field_subseteq.
  - apply foldl_subseteq. intros. apply guard_relation_subseteq.
Qed.

Lemma guard_model_field ready prot c g f t :
  f ∈ m_fields (rg_model c) → f_is_relation f = true →
  find_registration prot (f_related_model f) = Some t →
  is_Some (guard_model ready prot g c !! (label (rg_model c), f_name f)).
Proof.
  intros Hf Hrel Ht. unfold guard_model.
  assert (Hg1 : is_Some (foldl (guard_field prot (label (rg_model c))) g
    (m_fields (rg_model c)) !! (label (rg_model c), f_name f))).
  { apply (foldl_establishes (λ g, is_Some (g !! (label (rg_model c), f_name f))) _ _ _ f Hf).
    - intros g'. unfold guard_field. rewrite Hrel, Ht. apply guard_is_Some.
    - intros g' y. apply is_Some_subseteq, guard_field_subseteq. }
  destruct ready; [|done]. revert Hg1. apply is_Some_subseteq, foldl_subseteq.
  intros. apply guard_relation_subseteq.
Qed.

Lemma guard_model_relation prot c g r t :
  r ∈ m_related (rg_model c) → rel_one_to_one r = true → rel_hidden r = false →
  find_registration prot (rel_related_model r) = Some t →
  is_Some (guard_model true prot g c !! (label (rg_model c), rel_accessor r)).
Proof.
  intros Hr Hone Hhid Ht. unfold guard_model.
  apply (foldl_establishes (λ g, is_Some (g !! (label (rg_model c), rel_accessor r))) _ _ _ r Hr).
  - intros g'. unfold guard_relation. rewrite Ht, Hone, Hhid. apply guard_is_Some.
  - intros g' y. apply is_Some_subseteq, guard_relation_subseteq.
Qed.

Lemma install_complete rs : guards_complete (install_relation_guards rs).
Proof.
  intros c Hc. change (protected (install_relation_guards rs)) with (protected rs) in *.
  split.
  - intros f t Hf Hrel Ht. simpl.
    apply (foldl_establishes
      (λ g, is_Some (g !! (label (rg_model c), f_name f))) _ _ _ c Hc).
    + intros g. by eapply guard_model_field.
    + intros g c'. apply is_Some_subseteq, guard_model_subseteq.
  - simpl. intros Hready r t Hr Hone Hhid Ht. rewrite Hready.
    apply (foldl_establishes
      (λ g, is_Some (g !! (label (rg_model c), rel_accessor r))) _ _ _ c Hc).
    + intros g. by eapply guard_model_relation.
    + intros g c'. apply is_Some_subseteq, guard_model_subseteq.
Qed.

Lemma find_registration_Some l lbl c :
  find_registration l lbl = Some c → c ∈ l ∧ label (rg_model c) = lbl.
Proof. intros [? ?%bool_decide_eq_true_1]%find_Some_elem. done. Qed.

Lemma find_registration_None l lbl :
  find_registration l lbl = None → lbl ∉ ((label ∘ rg_model) <$> l).
Proof.
  intros Hnone (c & -> & Hc)%list_elem_of_fmap.
  by apply (find_None_elem _ _ c Hnone), bool_decide_eq_false_1 in Hc.
Qed.

Lemma find_registration_NoDup l c :
  NoDup ((label ∘ rg_model) <$> l) → c ∈ l → find_registration l (label (rg_model c)) = Some c.
Proof.
  unfold find_registration. induction l as [|d l IH]; intros Hnd Hc; [by apply not_elem_of_nil in Hc|].
  simpl in *. apply NoDup_cons in Hnd as [Hd Hnd].
  apply elem_of_cons in Hc as [->|Hc]; [by rewrite bool_decide_eq_true_2|].
  rewrite bool_decide_eq_false_2; [auto|].
  intros Heq. apply Hd. simpl. rewrite Heq. apply list_elem_of_fmap. eauto.
Qed.

Lemma guards_complete_fixed rs :
  guards_complete rs → install_relation_guards rs = rs.
Proof.
  intros Hg. unfold install_relation_guards. destruct rs as [reg inst g ready]. simpl in *. f_equal.
  apply foldl_fixed. intros c Hc. destruct (Hg c Hc) as [Hf Hr]. simpl in *.
  assert (Hfields : foldl (guard_field (protected {| _registry := reg; installed := inst;
    guards := g; models_ready := ready |}) (label (rg_model c))) g (m_fields (rg_model c)) = g).
  { apply foldl_fixed. intros f Hfin. unfold guard_field.
    destruct (f_is_relation f) eqn:Hrel; [|done].
    destruct (find_registration _ _) eqn:Ht; [|done]. apply guard_fixed. eauto. }
  unfold guard_model. rewrite Hfields.
  destruct ready; [|done]. apply foldl_fixed. intros r Hrin. unfold guard_relation.
  destruct (find_registration _ _) eqn:Ht; [|done].
  destruct (rel_one_to_one r) eqn:Ho, (rel_hidden r) eqn:Hh; try done.
  apply guard_fixed. eauto.
Qed.

Lemma check_manager_nil m x :
  check_manager m x = [] ↔ mgr_scoped x = true ∧ mgr_queryset_scoped x = true.
Proof. unfold check_manager. destruct (mgr_scoped x), (mgr_queryset_scoped x); simpl; intuition congruence. Qed.

Lemma check_on_delete_nil m f :
  check_on_delete m f = [] ↔ (f_is_relation f = true → audited_on_delete (f_on_delete f) = true).
Proof.
  unfold check_on_delete. destruct (f_is_relation f), (audited_on_delete (f_on_delete f)); naive_solver.
Qed.

Lemma check_model_nil m :
  check_model m = [] ↔
  (∀ x, x ∈ m_managers m → mgr_scoped x = true ∧ mgr_queryset_scoped x = true) ∧
  m_has_many_to_many m = false ∧
  (∀ f, f ∈ m_fields m → f_is_relation f = true → audited_on_delete (f_on_delete f) = true).
Proof.
  unfold check_model. rewrite !app_nil, !mjoin_nil_iff.
  setoid_rewrite list_elem_of_fmap. split.
  - intros (Hm & Hn & Hf). split_and!.
    + intros x Hx. apply (check_manager_nil m). eauto.
    + by destruct (m_has_many_to_many m).
    + intros f Hfin. apply (check_on_delete_nil m). eauto.
  - intros (Hm & -> & Hf). split_and!; [|done|].
    + intros l (x & -> & Hx). apply check_manager_nil. eauto.
    + intros l (f & -> & Hfin). apply check_on_delete_nil. eauto.
Qed.

Lemma register_ok_step m sf fs md rs rs' :
  registry_ok rs → register m sf fs md rs = Ok rs' → registry_ok rs'.
Proof.
  intros Hok. unfold register.
  destruct (validate_registration m sf fs md) as [c|] eqn:Hv; [|done]. simpl.
  destruct (validate_registration_ok _ _ _ _ _ Hv) as (Hvalid & Hm & _).
  destruct (find_registration (_registry rs) (label m)) as [old|] eqn:Hfind.
  { case_match; intros; by simplify_eq. }
  intros [= <-]. destruct Hok as [Hnd Hinst Hval Hg].
  constructor; [| | |apply install_complete].
  - change (NoDup ((label ∘ rg_model) <$> (_registry rs ++ [c]))).
    rewrite fmap_app. apply NoDup_app. split_and!; [done| |apply NoDup_singleton].
    intros x Hx ->%list_elem_of_singleton. apply find_registration_None in Hfind.
    simpl in Hx. by rewrite Hm in Hx.
  - change (installed rs ++ [label m] = (label ∘ rg_model) <$> (_registry rs ++ [c])).
    rewrite fmap_app, Hinst. simpl. by rewrite Hm.
  - simpl. apply Forall_app. split; [done|]. by apply Forall_singleton.
Qed.

(** ** Theorems *)

(** Registration keeps the registry well formed: every model is registered at
    most once and its write path is wrapped exactly once (so a write is never
    audited twice), every registration satisfies the documented configuration
    rules, and every relation between enforced models is guarded. *)
Theorem register_preserves_ok m sf fs md rs rs' :
  registry_ok rs → register m sf fs md rs = Ok rs' → registry_ok rs'.
Proof. apply register_ok_step. Qed.

(** A second registration of a model with the same options changes nothing; with
    different options it is refused; and registering never alters or removes
    another model's registration. *)
Theorem register_again m sf fs md rs c :
  registry_ok rs → c ∈ _registry rs → label (rg_model c) = label m →
  (∀ rs', register m sf fs md rs = Ok rs' → rs' = rs ∧ sf = scope_field c ∧
     fs = FieldSeq (fields c) ∧ parse_mode md = Some (rg_mode c)) ∧
  (∀ m' sf' fs' md' rs', register m' sf' fs' md' rs = Ok rs' → c ∈ _registry rs').
Proof.
  intros Hok Hc Hl. split.
  - intros rs'. unfold register.
    destruct (validate_registration m sf fs md) as [c'|] eqn:Hv; [|done]. simpl.
    destruct (validate_registration_ok _ _ _ _ _ Hv) as (_ & _ & Hs & Hf & Hmd).
    rewrite <- Hl, (find_registration_NoDup _ _ (ro_nodup _ Hok) Hc).
    unfold same_options. destruct (_ && _) eqn:Hsame; [|done]. intros [= <-].
    apply andb_true_iff in Hsame as [[H1 H2]%andb_true_iff H3].
    apply bool_decide_eq_true_1 in H1, H2, H3. by rewrite H1, H2, H3.
  - intros m' sf' fs' md' rs'. unfold register.
    destruct (validate_registration _ _ _ _) as [c'|]; [|done]. simpl.
    destruct (find_registration _ _); [case_match; intros; by simplify_eq|].
    intros [= <-]. simpl. apply elem_of_app. by left.
Qed.

(** Installing the relation guards again, as every registration and the app's
    [ready()] do, leaves a complete installation as it is. *)
Theorem install_relation_guards_idempotent rs :
  install_relation_guards (install_relation_guards rs) = install_relation_guards rs.
Proof. apply guards_complete_fixed, install_complete. Qed.

(** On a registry built by [register] the system checks report nothing exactly
    when no registered model has an implicit many-to-many and every relation's
    on_delete is an audited one; manager errors (E001, E003) cannot occur. *)
Theorem checks_pass_iff rs :
  registry_ok rs →
  check_registered_models None rs = [] ↔
  ∀ c, c ∈ _registry rs → m_has_many_to_many (rg_model c) = false ∧
    ∀ f, f ∈ m_fields (rg_model c) → f_is_relation f = true →
      f_on_delete f ∈ [CASCADE; PROTECT; RESTRICT; DO_NOTHING].
Proof.
  intros Hok. unfold check_registered_models. rewrite mjoin_nil_iff.
  setoid_rewrite list_elem_of_fmap.
  assert (Hdel : ∀ d, audited_on_delete d = true ↔ d ∈ [CASCADE; PROTECT; RESTRICT; DO_NOTHING]).
  { intros []; split; intros H; try done; try (by repeat constructor);
      repeat (apply elem_of_cons in H as [H|H]; [done|]); by apply not_elem_of_nil in H. }
  setoid_rewrite <- Hdel. split.
  - intros H c Hc. specialize (H (check_model (rg_model c)) ltac:(eauto)).
    by apply check_model_nil in H as (_ & ? & ?).
  - intros H l (c & -> & Hc). destruct (H c Hc). apply check_model_nil. split_and!; try done.
    pose proof (ro_valid _ Hok) as Hv. rewrite Forall_forall in Hv. apply (Hv c Hc).
Qed.

(** ** Witnesses: the test application's Invoice and Child models *)

Definition plain_field (owner name : string) : field := {|
  f_name := name; f_attname := name; f_is_relation := false; f_related_model := "";
  f_target_attname := ""; f_target := (owner, name); f_on_delete := DO_NOTHING;
  f_null := false; f_concrete := true; f_many_to_many := false; f_primary_key := false |}.

Definition invoice_fk : field := {|
  f_name := "invoice"; f_attname := "invoice_id"; f_is_relation := true;
  f_related_model := "testapp.Invoice"; f_target_attname := "id";
  f_target := ("testapp.Invoice", "id"); f_on_delete := CASCADE;
  f_null := false; f_concrete := true; f_many_to_many := false; f_primary_key := false |}.

Definition by_name (l : list field) (n : string) : option field :=
  find (λ f, bool_decide (f_name f = n)) l.

Definition invoice_fields : list field :=
  plain_field "testapp.Invoice" <$> ["tenant"; "amount"; "status"; "secret"].
Definition child_fields : list field :=
  [plain_field "testapp.Child" "tenant"; invoice_fk; plain_field "testapp.Child" "value"].

Definition objects_manager : manager :=
  {| mgr_name := "objects"; mgr_scoped := true; mgr_queryset_scoped := true |}.

Definition test_model (lbl low : string) (fs : list field) : model := {|
  label := lbl; label_lower := low; m_abstract := false; m_proxy := false; m_parents := false;
  m_composite_pk := false; m_managers := [objects_manager]; m_fields := fs;
  m_has_many_to_many := false; m_get_field := by_name fs; m_related := []; m_pk_name := "id" |}.

Definition Invoice : model := test_model "testapp.Invoice" "testapp.invoice" invoice_fields.
Definition Child : model := test_model "testapp.Child" "testapp.child" child_fields.

Definition no_registrations : rstate :=
  {| _registry := []; installed := []; guards := ∅; models_ready := true |}.

Lemma no_registrations_ok : registry_ok no_registrations.
Proof.
  constructor; simpl; [apply NoDup_nil_2 | done | constructor |].
  intros c Hc. by apply not_elem_of_nil in Hc.
Qed.

Definition invoice_registration : Registration :=
  {| rg_model := Invoice; scope_field := "tenant"; fields := ["amount"; "status"]; rg_mode := Enforce |}.
Definition child_registration : Registration :=
  {| rg_model := Child; scope_field := "tenant"; fields := ["value"]; rg_mode := Enforce |}.

Definition invoice_registry : rstate :=
  {| _registry := [invoice_registration]; installed := ["testapp.Invoice"]; guards := ∅;
     models_ready := true |}.
Definition test_registry : rstate :=
  {| _registry := [invoice_registration; child_registration];
     installed := ["testapp.Invoice"; "testapp.Child"];
     guards := {[("testapp.Child", "invoice") := "testapp.Invoice"]}; models_ready := true |}.

Lemma invoice_registry_ok : registry_ok invoice_registry.
Proof.
  apply (register_ok_step Invoice "tenant" (FieldSeq ["amount"; "status"]) "enforce"
    no_registrations); [apply no_registrations_ok | vm_compute; reflexivity].
Qed.

Lemma test_registry_ok : registry_ok test_registry.
Proof.
  apply (register_ok_step Child "tenant" (FieldSeq ["value"]) "enforce" invoice_registry);
    [apply invoice_registry_ok | vm_compute; reflexivity].
Qed.

Lemma register_preserves_ok_witness :
  register Child "tenant" (FieldSeq ["value"]) "enforce" invoice_registry = Ok test_registry ∧
  registry_ok test_registry.
Proof.
  split; [vm_compute; reflexivity|].
  apply (register_preserves_ok Child "tenant" (FieldSeq ["value"]) "enforce" invoice_registry);
    [apply invoice_registry_ok | vm_compute; reflexivity].
Defined.

Lemma register_again_witness :
  register Invoice "tenant" (FieldSeq ["amount"; "status"]) "enforce" test_registry
    = Ok test_registry ∧
  invoice_registration ∈ _registry test_registry.
Proof.
  split; [vm_compute; reflexivity|].
  destruct (register_again Invoice "tenant" (FieldSeq ["amount"; "status"]) "enforce"
    test_registry invoice_registration test_registry_ok ltac:(left) eq_refl) as [_ Hkeep].
  apply (Hkeep Invoice "tenant" (FieldSeq ["amount"; "status"]) "enforce").
  vm_compute. reflexivity.
Defined.

Lemma checks_pass_iff_witness : check_registered_models None test_registry = [].
Proof.
  apply (checks_pass_iff test_registry test_registry_ok).
  intros c Hc. apply elem_of_cons in Hc as [->|Hc%list_elem_of_singleton]; [|subst c].
  - split; [reflexivity|]. intros f Hf Hrel. simpl in Hf.
    repeat (apply elem_of_cons in Hf as [->|Hf]; [discriminate Hrel|]).
    by apply not_elem_of_nil in Hf.
  - split; [reflexivity|]. intros f Hf Hrel. simpl in Hf.
    apply elem_of_cons in Hf as [->|Hf]; [discriminate Hrel|].
    apply elem_of_cons in Hf as [->|Hf]; [left|].
    apply elem_of_cons in Hf as [->|Hf]; [discriminate Hrel|].
    by apply not_elem_of_nil in Hf.
Defined.
