(* ===== verification/Models.v ===== *)
(** * Stored history (pyscoped/models.py) and the ORM interface

    The two history tables with their unique constraints, the append-only guards
    of AuditEvent, and the typeclass [Django] that states what the package
    relies on in the ORM. *)

From S2P Require Import Prelude Context Registry.

(** ** Values *)

(** A JSON value as a snapshot holds it ([JText] is the canonical text of a
    number that is not an integer, an array or an object). *)
Inductive json := JNull | JBool (b : bool) | JInt (z : Z) | JStr (s : string) | JText (t : string).

#[export] Instance json_eq_dec : EqDecision json.
Proof. solve_decision. Defined.

(** The dict produced by [snapshot]: field name to JSON value. *)
Abbreviation snapshot_dict := (gmap string json).

(** An instance or a loaded row: its primary key and its column attributes. *)
Record row := { pk : pyval; attrs : gmap string pyval }.

#[export] Instance row_eq_dec : EqDecision row.
Proof. solve_decision. Defined.

Definition getattr (r : row) (name : string) : pyval := default PNone (attrs r !! name).
Definition setattr (r : row) (name : string) (v : pyval) : row :=
  {| pk := pk r; attrs := <[name := v]> (attrs r) |}.

(** ** Tables

    A Resource is found by its unique key [psc_resource_key], (model_label,
    object_pk); the foreign key of an AuditEvent to its Resource is that key.
    The surrogate integer ids are not modelled. *)

Definition resource_key : Type := string * string.

Record Resource := { r_scope : string; r_revision : nat; r_digest : string }.

Record AuditEvent := {
  e_revision : nat;
  e_scope : string;
  e_actor : string;
  e_action : string;
  e_before : option snapshot_dict;
  e_after : option snapshot_dict;
  e_occurred_at : string;
  e_reason : string;
  e_request_id : string;
  e_previous_digest : string;
  e_digest : string;
}.

#[export] Instance Resource_eq_dec : EqDecision Resource.
Proof. solve_decision. Defined.
#[export] Instance AuditEvent_eq_dec : EqDecision AuditEvent.
Proof. solve_decision. Defined.

(** The database: the application's tables, abstract, and the history tables.
    [db_events] keeps each resource's events in insertion order. *)
Record database (A : Type) := Database {
  db_app : A;
  db_resources : gmap resource_key Resource;
  db_events : gmap resource_key (list AuditEvent);
}.
Arguments Database {A} _ _ _.
Arguments db_app {A} _.
Arguments db_resources {A} _.
Arguments db_events {A} _.

Definition set_app {A} (a : A) (d : database A) : database A :=
  Database a (db_resources d) (db_events d).

(** Everything an event's digest covers: its columns and its resource's key. *)
Record payload := {
  p_revision : nat; p_scope : string; p_actor : string; p_action : string;
  p_before : option snapshot_dict; p_after : option snapshot_dict;
  p_occurred_at : string; p_reason : string; p_request_id : string;
  p_previous_digest : string; p_model_label : string; p_object_pk : string;
}.

#[export] Instance payload_eq_dec : EqDecision payload.
Proof. solve_decision. Defined.

(** ** The ORM

    What the package uses of Django, for application tables of type [A]:
    - [row_by a m attname v]: QuerySet(model=m).filter(attname=v).first();
      [row_by_pk] the same for filter(pk=v);
    - [to_python f v]: the field's conversion of a deserialized value;
    - [json_default v]: DjangoJSONEncoder on a value json cannot encode itself;
    - [digest_of p]: sha256 of the canonical JSON text of [p];
    - [atomic m]: transaction.atomic() around [m].  Its documented contract is
      [atomic_spec]: a block that completes keeps its changes, a block that
      raises has its database changes rolled back and the exception goes on. *)
Class Django (A : Type) := {
  row_by : A → string → string → pyval → option row;
  row_by_pk : A → string → pyval → option row;
  to_python : string * string → json → outcome pyval;
  json_default : pyval → outcome json;
  digest_of : payload → string;
  atomic : ∀ {R}, py (database A) R → py (database A) R;
  atomic_spec : ∀ {R} (m : py (database A) R) w,
    atomic m w = match m w with
                 | (Ok a, w') => (Ok a, w')
                 | (Raise e, w') => (Raise e, set_db (w_db w) w')
                 end;
}.

(** ** AuditEvent's append-only guards *)

Section AppendOnly.
Context {A : Type}.

(** [AuditEvent.save]: only a new event may be stored; storing one enforces
    the unique constraint psc_event_revision. *)
Definition event_save (adding : bool) (key : resource_key) (e : AuditEvent)
  : py (database A) unit :=
  if negb adding then raise (UnsupportedOperation "Audit events are append-only.")
  else
    d ← gets w_db;
    let existing := default [] (db_events d !! key) in
    raise_if (existsb (λ x, e_revision x =? e_revision e) existing)
      (IntegrityError "psc_event_revision") ;;
    modify (set_db (Database (db_app d) (db_resources d)
      (<[key := existing ++ [e]]> (db_events d)))).

Definition event_delete : py (database A) unit :=
  raise (UnsupportedOperation "Audit events are append-only.").

(** The mutators of _AppendOnlyQuerySet. *)
Inductive append_only_op := AO_update | AO_delete | AO_bulk_update | AO_bulk_create.

Definition append_only_queryset (op : append_only_op) : py (database A) unit :=
  match op with
  | AO_bulk_create => raise (UnsupportedOperation
      "Audit events must be appended through tracked model operations.")
  | _ => raise (UnsupportedOperation "Audit events are append-only.")
  end.
End AppendOnly.

(** [resource.events.order_by("revision")]. *)
Definition by_revision (a b : AuditEvent) : bool := e_revision a <=? e_revision b.
Definition events_of {A} (d : database A) (key : resource_key) : list AuditEvent :=
  sort_by by_revision (default [] (db_events d !! key)).

(** ** Transactions *)

Section Transactions.
Context {A : Type} `{!Django A}.

(** A transaction that fails leaves the database as it was. *)
Lemma atomic_raise_db {R} (m : py (database A) R) w e w' :
  atomic m w = (Raise e, w') → w_db w' = w_db w.
Proof.
  rewrite atomic_spec. destruct (m w) as [[a|e'] w1]; [done|]. by intros [= _ <-].
Qed.

Lemma atomic_ok {R} (m : py (database A) R) w a w' :
  atomic m w = (Ok a, w') ↔ m w = (Ok a, w').
Proof. rewrite atomic_spec. destruct (m w) as [[?|?] ?]; naive_solver. Qed.

Lemma atomic_outcome {R} (m : py (database A) R) w : (atomic m w).1 = (m w).1.
Proof. rewrite atomic_spec. by destruct (m w) as [[?|?] ?]. Qed.

Lemma atomic_current {R} (m : py (database A) R) w :
  w_current (atomic m w).2 = w_current (m w).2.
Proof. rewrite atomic_spec. by destruct (m w) as [[?|?] ?]. Qed.

Lemma preserves_atomic {R} (I : database A → Prop) (m : py (database A) R) :
  preserves (I ∘ w_db) m → preserves (I ∘ w_db) (atomic m).
Proof.
  intros Hm w HI. rewrite atomic_spec. specialize (Hm w HI).
  destruct (m w) as [[?|?] ?]; done.
Qed.

Lemma reads_atomic {R} (m : py (database A) R) : reads m → reads (atomic m).
Proof.
  intros Hm w. rewrite atomic_spec. specialize (Hm w).
  destruct (m w) as [[?|?] w']; simpl in *; subst; [done | by destruct w].
Qed.

(** Two-state invariants on the database lift through transactions. *)
Definition on_db {D} (Rel : relation D) : relation (world D) :=
  λ w w', Rel (w_db w) (w_db w').

#[export] Instance on_db_preorder {D} (Rel : relation D) `{!PreOrder Rel} : PreOrder (on_db Rel).
Proof. split; unfold on_db; [intros w; reflexivity | intros w1 w2 w3 ??; by etrans]. Qed.

Lemma respects_atomic {R} (Rel : relation (database A)) `{!PreOrder Rel}
  (m : py (database A) R) :
  respects (on_db Rel) m → respects (on_db Rel) (atomic m).
Proof.
  intros Hm w. rewrite atomic_spec. specialize (Hm w).
  destruct (m w) as [[?|?] ?]; [done|]. unfold on_db. simpl. reflexivity.
Qed.
End Transactions.

#[export] Hint Resolve preserves_atomic : preserves.
#[export] Hint Resolve respects_atomic : respects.
