(* ===== verification/AuditTrail.v ===== *)
(** * Audit (pyscoped/audit.py)

    Snapshots, the scope and relationship checks, and [append_event]: the one
    place where history grows. *)

From S2P Require Import Prelude Context Registry Models.

Section Audit.
Context {A : Type} `{!Django A}.

(** [plain]: the JSON round trip of one value. *)
Definition plain_value (v : pyval) : outcome json :=
  match v with
  | PNone => Ok JNull
  | PBool b => Ok (JBool b)
  | PInt z => Ok (JInt z)
  | PStr s => Ok (JStr s)
  | _ => json_default v
  end.

Definition load_row (m : model) (key : pyval) : py (database A) (option row) :=
  if bool_decide (key = PNone) then mret None
  else gets (λ w, row_by_pk (db_app (w_db w)) (label m) key).

Definition snapshot_fields (c : Registration) (r : row) : outcome (list (string * json)) :=
  mapM (λ name, pair name <$> plain_value (getattr r (f_attname (get_field (rg_model c) name))))
    (fields c).

Definition snapshot (c : Registration) (inst : option row) : outcome (option snapshot_dict) :=
  match inst with
  | None => Ok None
  | Some r => (Some ∘ list_to_map) <$> snapshot_fields c r
  end.

(** [expected.to_python(v)] for the scope column (its target column when the
    scope is a foreign key). *)
Definition scope_to_python (c : Registration) (s : string) : outcome pyval :=
  to_python (f_target (get_field (rg_model c) (scope_field c))) (JStr s).

Definition check_scope (c : Registration) (inst : row) (ctx : ScopeContext) : outcome string :=
  actual ← identity (getattr inst (scope_attname c));
  match rg_mode c with
  | Audit => Ok actual
  | Enforce =>
      a ← scope_to_python c actual;
      b ← scope_to_python c (scope ctx);
      if bool_decide (a = b) then Ok actual
      else Raise (ScopeViolation (label (rg_model c) +:+ " belongs to a different scope."))
  end.

(** One iteration of the loop of [check_relations]. *)
Definition check_relation (prot : list Registration) (inst : row) (ctx : ScopeContext)
  (f : field) : py (database A) unit :=
  if negb (f_is_relation f) then mret tt else
  match find_registration prot (f_related_model f) with
  | None => mret tt
  | Some target =>
      let value := getattr inst (f_attname f) in
      if bool_decide (value = PNone) then mret tt else
      related ← gets (λ w, row_by (db_app (w_db w)) (f_related_model f) (f_target_attname f) value);
      match related with
      | None => mret tt
      | Some r => lift (check_scope target r ctx) ;; mret tt
      end
  end.

Definition check_relations (rs : rstate) (c : Registration) (inst : row) (ctx : ScopeContext)
  : py (database A) unit :=
  match rg_mode c with
  | Audit => mret tt
  | Enforce => for_each (m_fields (rg_model c)) (check_relation (protected rs) inst ctx)
  end.

(** [event_digest]. *)
Definition payload_of (key : resource_key) (e : AuditEvent) : payload := {|
  p_revision := e_revision e; p_scope := e_scope e; p_actor := e_actor e;
  p_action := e_action e; p_before := e_before e; p_after := e_after e;
  p_occurred_at := e_occurred_at e; p_reason := e_reason e; p_request_id := e_request_id e;
  p_previous_digest := e_previous_digest e; p_model_label := key.1; p_object_pk := key.2 |}.

Definition event_digest (key : resource_key) (e : AuditEvent) : string :=
  digest_of (payload_of key e).

Definition with_digest (d : string) (e : AuditEvent) : AuditEvent := {|
  e_revision := e_revision e; e_scope := e_scope e; e_actor := e_actor e;
  e_action := e_action e; e_before := e_before e; e_after := e_after e;
  e_occurred_at := e_occurred_at e; e_reason := e_reason e; e_request_id := e_request_id e;
  e_previous_digest := e_previous_digest e; e_digest := d |}.

(** [Resource.objects.get_or_create(..., defaults={"scope": ...})]. *)
Definition get_or_create_resource (key : resource_key) (sc : string)
  : py (database A) Resource :=
  d ← gets w_db;
  match db_resources d !! key with
  | Some res => mret res
  | None =>
      let res := {| r_scope := sc; r_revision := 0; r_digest := "" |} in
      modify (set_db (Database (db_app d) (<[key := res]> (db_resources d)) (db_events d))) ;;
      mret res
  end.

(** [resource.save(update_fields=["revision", "digest"])]. *)
Definition save_resource_head (key : resource_key) (res : Resource) : py (database A) unit :=
  modify (λ w, set_db (Database (db_app (w_db w))
    (alter (λ old, {| r_scope := r_scope old; r_revision := r_revision res;
                      r_digest := r_digest res |}) key (db_resources (w_db w)))
    (db_events (w_db w))) w).

Definition resource_key_of (c : Registration) (r : row) : outcome resource_key :=
  (λ s, (label_lower (rg_model c), s)) <$> identity (pk r).

Definition new_event (res : Resource) (sc : string) (action : string)
  (before after : option snapshot_dict) (now : string) (ctx : ScopeContext) : AuditEvent := {|
  e_revision := r_revision res + 1; e_scope := sc; e_actor := actor ctx; e_action := action;
  e_before := before; e_after := after; e_occurred_at := now; e_reason := reason ctx;
  e_request_id := request_id ctx; e_previous_digest := r_digest res; e_digest := "" |}.

Definition append_event (c : Registration) (r : row) (action : string)
  (before after : option snapshot_dict) (ctx : ScopeContext) : py (database A) AuditEvent :=
  atomic (
    key ← lift (resource_key_of c r);
    sc ← lift (identity (getattr r (scope_attname c)));
    resource ← get_or_create_resource key sc;
    raise_if (negb (bool_decide (r_scope resource = sc))) (ScopeViolation
      "An existing history identity cannot be reassigned to another scope.") ;;
    now ← gets w_now;
    let unsigned := new_event resource sc action before after now ctx in
    let event := with_digest (event_digest key unsigned) unsigned in
    event_save true key event ;;
    save_resource_head key {| r_scope := r_scope resource; r_revision := e_revision event;
                              r_digest := e_digest event |} ;;
    mret event).
End Audit.

#[global] Arguments event_digest : simpl never.

(** ** The history invariant *)

Definition last_digest (l : list AuditEvent) : string := default "" (e_digest <$> last l).

Section Invariant.
Context {A : Type} `{!Django A}.

(** A hash chain: revisions count up from [rev], each event carries the digest
    of the one before it and its own correct digest. *)
Fixpoint chain (key : resource_key) (sc : string) (prev : string) (rev : nat)
  (l : list AuditEvent) : Prop :=
  match l with
  | [] => True
  | e :: l' => e_revision e = rev ∧ e_previous_digest e = prev ∧ e_scope e = sc ∧
      e_digest e = event_digest key e ∧ chain key sc (e_digest e) (S rev) l'
  end.

Definition head_ok (key : resource_key) (res : Resource) (l : list AuditEvent) : Prop :=
  chain key (r_scope res) "" 1 l ∧ r_revision res = length l ∧ r_digest res = last_digest l.

(** Every history is an intact chain under its head; events without a resource
    do not exist. *)
Definition history_ok (d : database A) : Prop :=
  ∀ key, match db_resources d !! key with
         | Some res => head_ok key res (default [] (db_events d !! key))
         | None => default [] (db_events d !! key) = []
         end.

(** History only grows: heads advance within their scope, and the stored
    events are a prefix of the later ones. *)
Definition extends (d d' : database A) : Prop :=
  ∀ key,
    (∀ res, db_resources d !! key = Some res → ∃ res', db_resources d' !! key = Some res' ∧
      r_scope res' = r_scope res ∧ r_revision res ≤ r_revision res') ∧
    default [] (db_events d !! key) `prefix_of` default [] (db_events d' !! key).

#[export] Instance extends_preorder : PreOrder extends.
Proof.
  split.
  - intros d key. split; [|reflexivity]. intros res Hr. exists res. auto.
  - intros d1 d2 d3 H12 H23 key. destruct (H12 key) as [Ha Hp], (H23 key) as [Hb Hq].
    split; [|by etrans]. intros res Hr. destruct (Ha res Hr) as (r2 & H2 & ? & ?).
    destruct (Hb r2 H2) as (r3 & ? & ? & ?). exists r3. split_and!; [done|congruence|lia].
Qed.

Lemma event_digest_with_digest key d e : event_digest key (with_digest d e) = event_digest key e.
Proof. reflexivity. Qed.

Lemma chain_app key sc prev rev l1 l2 :
  chain key sc prev rev (l1 ++ l2) ↔
  chain key sc prev rev l1 ∧
  chain key sc (default prev (e_digest <$> last l1)) (rev + length l1) l2.
Proof.
  revert prev rev. induction l1 as [|e l1 IH]; intros prev rev; simpl.
  { rewrite Nat.add_0_r. tauto. }
  rewrite IH. replace (S rev + length l1) with (rev + S (length l1)) by lia.
  replace (default prev (e_digest <$> last (e :: l1)))
    with (default (e_digest e) (e_digest <$> last l1)) by (rewrite last_cons; by destruct (last l1)).
  tauto.
Qed.

Lemma chain_revisions key sc prev rev l e :
  chain key sc prev rev l → e ∈ l → rev ≤ e_revision e < rev + length l.
Proof.
  revert prev rev. induction l as [|x l IH]; intros prev rev Hc He; [by apply not_elem_of_nil in He|].
  destruct Hc as (Hr & _ & _ & _ & Hc). simpl. apply elem_of_cons in He as [->|He]; [lia|].
  specialize (IH _ _ Hc He). lia.
Qed.

Lemma chain_sorted key sc prev rev l :
  chain key sc prev rev l → StronglySorted (leb_rel by_revision) l.
Proof.
  revert prev rev. induction l as [|x l IH]; intros prev rev Hc; [constructor|].
  destruct Hc as (Hr & _ & _ & _ & Hc). constructor; [by eapply IH|].
  apply Forall_forall. intros e He. pose proof (chain_revisions _ _ _ _ _ _ Hc He).
  unfold leb_rel, by_revision. apply Nat.leb_le. lia.
Qed.

(** On intact histories ORDER BY revision is the stored order. *)
Lemma events_of_intact d key : history_ok d → events_of d key = default [] (db_events d !! key).
Proof.
  intros H. specialize (H key). unfold events_of.
  destruct (db_resources d !! key) as [res|].
  - destruct H as [Hc _]. by apply sort_by_id, (chain_sorted _ _ _ _ _ Hc).
  - by rewrite H.
Qed.

(** ** append_event, run *)

Definition head_after (res : Resource) (e : AuditEvent) : Resource :=
  {| r_scope := r_scope res; r_revision := e_revision e; r_digest := e_digest e |}.

Definition appended (d : database A) (key : resource_key) (res : Resource) (e : AuditEvent)
  : database A :=
  Database (db_app d) (<[key := head_after res e]> (db_resources d))
    (<[key := default [] (db_events d !! key) ++ [e]]> (db_events d)).

(** The event [append_event] builds on the head [res]. *)
Definition event_on (key : resource_key) (res : Resource) (action : string)
  (before after : option snapshot_dict) (now : string) (ctx : ScopeContext) : AuditEvent :=
  let unsigned := new_event res (r_scope res) action before after now ctx in
  with_digest (event_digest key unsigned) unsigned.

Definition head_of (d : database A) (key : resource_key) (sc : string) : Resource :=
  default {| r_scope := sc; r_revision := 0; r_digest := "" |} (db_resources d !! key).

Lemma get_or_create_ok key sc (w : world (database A)) res w' :
  get_or_create_resource key sc w = (Ok res, w') →
  res = head_of (w_db w) key sc ∧
  w' = set_db (Database (db_app (w_db w)) (<[key := res]> (db_resources (w_db w)))
         (db_events (w_db w))) w.
Proof.
  unfold get_or_create_resource, gets, head_of. rewrite run_bind.
  destruct (db_resources (w_db w) !! key) as [r0|] eqn:Hr.
  - intros [= <- <-]. split; [done|]. rewrite insert_id by done.
    by destruct w as [[] ?????].
  - by intros [= <- <-].
Qed.

Lemma get_or_create_run key sc (w : world (database A)) :
  get_or_create_resource key sc w =
  (Ok (head_of (w_db w) key sc),
   set_db (Database (db_app (w_db w)) (<[key := head_of (w_db w) key sc]> (db_resources (w_db w)))
     (db_events (w_db w))) w).
Proof.
  destruct (get_or_create_resource key sc w) as [[res|e] w'] eqn:H.
  - by apply get_or_create_ok in H as [-> ->].
  - unfold get_or_create_resource, gets in H. rewrite run_bind in H. by case_match.
Qed.

Lemma event_save_ok key e (w w' : world (database A)) :
  event_save true key e w = (Ok tt, w') →
  w' = set_db (Database (db_app (w_db w)) (db_resources (w_db w))
         (<[key := default [] (db_events (w_db w) !! key) ++ [e]]> (db_events (w_db w)))) w.
Proof.
  unfold event_save, gets, modify. simpl. rewrite !run_bind.
  unfold raise_if. destruct (existsb _ _); [done|]. by intros [= <-].
Qed.

Lemma append_event_ok c r action before after ctx w e w' :
  append_event c r action before after ctx w = (Ok e, w') →
  ∃ key sc, resource_key_of c r = Ok key ∧ identity (getattr r (scope_attname c)) = Ok sc ∧
    let res := head_of (w_db w) key sc in
    r_scope res = sc ∧ e = event_on key res action before after (w_now w) ctx ∧
    w' = set_db (appended (w_db w) key res e) w.
Proof.
  unfold append_event. rewrite atomic_ok. intros H.
  apply bind_ok_inv in H as (key & w1 & H1 & H). unfold lift in H1. simplify_eq.
  apply bind_ok_inv in H as (sc & w2 & H2 & H). unfold lift in H2. simplify_eq.
  apply bind_ok_inv in H as (res & w1 & H2 & H).
  apply get_or_create_ok in H2 as [-> ->].
  apply bind_ok_inv in H as ([] & w3 & H3 & H).
  apply raise_if_ok in H3 as [Hsc%negb_false_iff%bool_decide_eq_true_1 ->].
  apply bind_ok_inv in H as (now & w3 & H3 & H). unfold gets in H3. simplify_eq.
  apply bind_ok_inv in H as ([] & w3 & H3 & H).
  apply event_save_ok in H3 as ->.
  unfold save_resource_head, modify, mbind, prog_bind, mret, prog_ret in H. simplify_eq.
  eexists _, _. split_and!; [done|done|done| |].
  - unfold event_on. by rewrite Hsc.
  - unfold event_on. rewrite Hsc. unfold appended, set_db. simpl. by rewrite alter_insert_eq.
Qed.

(** A failing append changes nothing in the database. *)
Lemma append_event_raise c r action before after ctx w e w' :
  append_event c r action before after ctx w = (Raise e, w') → w_db w' = w_db w.
Proof. apply atomic_raise_db. Qed.

Lemma event_on_revision key res action before after now ctx :
  e_revision (event_on key res action before after now ctx) = S (r_revision res).
Proof. simpl. lia. Qed.

Lemma head_of_ok d key sc :
  history_ok d → r_scope (head_of d key sc) = sc →
  head_ok key (head_of d key sc) (default [] (db_events d !! key)).
Proof.
  intros H Hsc. specialize (H key). unfold head_of in *.
  destruct (db_resources d !! key) as [res|]; [done|]. rewrite H. done.
Qed.

Lemma head_ok_snoc key res l action before after now ctx :
  head_ok key res l →
  let e := event_on key res action before after now ctx in
  head_ok key (head_after res e) (l ++ [e]).
Proof.
  intros (Hc & Hr & Hd) e. split_and!.
  - apply chain_app. split; [done|]. simpl. split_and!; try done.
    simpl. rewrite Hr. lia.
  - rewrite length_app. simpl. lia.
  - unfold last_digest. by rewrite last_snoc.
Qed.

Lemma appended_ok d key res e :
  history_ok d → head_ok key (head_after res e) (default [] (db_events d !! key) ++ [e]) →
  history_ok (appended d key res e).
Proof.
  intros H He k. unfold appended. simpl. destruct (decide (k = key)) as [->|Hne].
  - by rewrite !lookup_insert_eq.
  - rewrite !lookup_insert_ne by done. apply H.
Qed.

Lemma appended_extends d key sc action before after now ctx :
  r_scope (head_of d key sc) = sc →
  extends d (appended d key (head_of d key sc)
    (event_on key (head_of d key sc) action before after now ctx)).
Proof.
  intros Hsc k. unfold appended. simpl. destruct (decide (k = key)) as [->|Hne].
  - rewrite !lookup_insert_eq. split; [|by eexists].
    intros res Hres. eexists. split; [done|]. unfold head_of in *. rewrite Hres in *.
    simpl. split; [done|lia].
  - rewrite !lookup_insert_ne by done. split; [by eauto | done].
Qed.

Lemma append_event_preserves c r action before after ctx :
  preserves (history_ok ∘ w_db) (append_event c r action before after ctx).
Proof.
  intros w HI. destruct (append_event c r action before after ctx w) as [[e|e] w'] eqn:H.
  - apply append_event_ok in H as (key & sc & _ & _ & Hsc & -> & ->). simpl.
    apply appended_ok; [done|]. by apply head_ok_snoc, head_of_ok.
  - simpl. by rewrite (append_event_raise _ _ _ _ _ _ _ _ _ H).
Qed.

Lemma append_event_extends c r action before after ctx :
  respects (on_db extends) (append_event c r action before after ctx).
Proof.
  intros w. unfold on_db.
  destruct (append_event c r action before after ctx w) as [[e|e] w'] eqn:H; simpl.
  - apply append_event_ok in H as (key & sc & _ & _ & Hsc & -> & ->). by apply appended_extends.
  - by rewrite (append_event_raise _ _ _ _ _ _ _ _ _ H).
Qed.

(** On intact history an append can only fail on a bad identity or a scope
    reassignment: the unique constraint never fires. *)
Lemma append_event_succeeds c r action before after ctx w key sc :
  history_ok (w_db w) →
  resource_key_of c r = Ok key → identity (getattr r (scope_attname c)) = Ok sc →
  r_scope (head_of (w_db w) key sc) = sc →
  let res := head_of (w_db w) key sc in
  let e := event_on key res action before after (w_now w) ctx in
  append_event c r action before after ctx w = (Ok e, set_db (appended (w_db w) key res e) w).
Proof.
  intros HI Hkey Hsc Hhead res e.
  assert (Hfresh : existsb (λ x, e_revision x =? r_revision res + 1)
    (default [] (db_events (w_db w) !! key)) = false).
  { destruct (head_of_ok _ _ _ HI Hhead) as (Hc & Hr & _). fold res in Hc, Hr.
    apply not_true_is_false. intros (x & Hx & Heq%Nat.eqb_eq)%existsb_exists.
    apply list_elem_of_In in Hx. pose proof (chain_revisions _ _ _ _ _ _ Hc Hx). lia. }
  unfold append_event. rewrite atomic_spec.
  rewrite (run_bind_ok _ _ w key w) by (unfold lift; by rewrite Hkey).
  rewrite (run_bind_ok _ _ w sc w) by (unfold lift; by rewrite Hsc).
  rewrite (run_bind_ok _ _ w res _ (get_or_create_run key sc w)).
  unfold raise_if. rewrite bool_decide_eq_true_2 by done.
  unfold gets, event_save, save_resource_head, modify, mbind, prog_bind, mret, prog_ret.
  simpl. rewrite Hfresh. subst e. unfold event_on, appended, set_db. subst res.
  rewrite Hhead. simpl. rewrite alter_insert_eq. unfold head_after. simpl. by rewrite Hhead.
Qed.
End Invariant.

Section AuditReads.
Context {A : Type} `{!Django A}.

Lemma load_row_reads m k : reads (load_row (A:=A) m k).
Proof. unfold load_row. solve_reads. Qed.

Lemma the_context_reads {D} : reads (the_context (D:=D)).
Proof. unfold the_context, current_context. solve_reads. Qed.

Lemma check_relation_reads prot inst ctx f : reads (check_relation (A:=A) prot inst ctx f).
Proof. unfold check_relation. solve_reads. Qed.

Lemma check_relations_reads rs c inst ctx : reads (check_relations (A:=A) rs c inst ctx).
Proof. unfold check_relations. destruct (rg_mode c); solve_reads; apply check_relation_reads. Qed.

Lemma the_context_ok {D} (w w' : world D) ctx :
  the_context w = (Ok ctx, w') → w' = w ∧ w_current w = Some ctx.
Proof.
  unfold the_context, current_context, gets. rewrite !run_bind.
  destruct (w_current w); simpl; [|done]. by intros [= <- <-].
Qed.

Lemma the_context_none {D} (w : world D) :
  w_current w = None → the_context w = (Raise MissingContext, w).
Proof. intros H. unfold the_context, current_context, gets. rewrite !run_bind. by rewrite H. Qed.

Lemma load_row_ok m k (w : world (database A)) r w' :
  load_row m k w = (Ok r, w') →
  w' = w ∧ r = if bool_decide (k = PNone) then None else row_by_pk (db_app (w_db w)) (label m) k.
Proof. unfold load_row. case_bool_decide; by intros [= <- <-]. Qed.

(** [inst] belongs to the scope of [ctx] as [check_scope] decides it. *)
Definition in_scope_of (c : Registration) (inst : row) (ctx : ScopeContext) : Prop :=
  ∃ actual v, identity (getattr inst (scope_attname c)) = Ok actual ∧
    scope_to_python c actual = Ok v ∧ scope_to_python c (scope ctx) = Ok v.

Lemma check_scope_ok c inst ctx s :
  check_scope c inst ctx = Ok s →
  identity (getattr inst (scope_attname c)) = Ok s ∧
  (rg_mode c = Enforce → in_scope_of c inst ctx).
Proof.
  unfold check_scope. destruct (identity _) as [actual|] eqn:Ha; [|done]. simpl.
  destruct (rg_mode c); [by intros [= <-]|].
  destruct (scope_to_python c actual) as [a|] eqn:H1; [|done]. simpl.
  destruct (scope_to_python c (scope ctx)) as [b|] eqn:H2; [|done]. simpl.
  case_bool_decide; [|done]. intros [= <-]. subst. split; [done|].
  intros _. exists actual, b. auto.
Qed.

(** A relation column that passed points to no row, or to a row of the scope. *)
Definition relation_in_scope (prot : list Registration) (inst : row) (ctx : ScopeContext)
  (d : database A) (f : field) : Prop :=
  f_is_relation f = true → getattr inst (f_attname f) ≠ PNone →
  ∀ target r, find_registration prot (f_related_model f) = Some target →
    row_by (db_app d) (f_related_model f) (f_target_attname f) (getattr inst (f_attname f)) = Some r →
    rg_mode target = Enforce → in_scope_of target r ctx.

Lemma check_relation_ok prot inst ctx f w w' :
  check_relation prot inst ctx f w = (Ok tt, w') →
  relation_in_scope prot inst ctx (w_db w) f.
Proof.
  unfold check_relation, relation_in_scope. intros H Hrel Hval target r Ht Hr Hmode.
  rewrite Hrel, Ht in H. simpl in H. rewrite bool_decide_eq_false_2 in H by done.
  unfold gets in H. rewrite run_bind, Hr in H.
  unfold lift in H. rewrite run_bind in H.
  destruct (check_scope target r ctx) as [s|] eqn:Hc; [|done].
  by apply check_scope_ok in Hc as [_ Hs]; apply Hs.
Qed.

Lemma check_relations_ok rs c inst ctx w w' f :
  check_relations rs c inst ctx w = (Ok tt, w') → rg_mode c = Enforce →
  f ∈ m_fields (rg_model c) → relation_in_scope (protected rs) inst ctx (w_db w) f.
Proof.
  unfold check_relations. intros H Hmode. rewrite Hmode in H. revert H.
  induction (m_fields (rg_model c)) as [|g l IH]; intros H Hf; [by apply not_elem_of_nil in Hf|].
  simpl in H. apply bind_ok_inv in H as ([] & w1 & H1 & H2).
  pose proof (reads_run _ _ _ _ (check_relation_reads _ _ _ _) H1) as ->.
  apply elem_of_cons in Hf as [->|Hf]; [by eapply check_relation_ok | by apply IH].
Qed.
End AuditReads.

#[export] Hint Resolve load_row_reads the_context_reads check_relation_reads
  check_relations_reads : reads.
#[export] Hint Resolve append_event_preserves : preserves.
#[export] Hint Resolve append_event_extends : respects.
