(* ===== verification/Writes.v ===== *)
(** * Instance writes (the wrappers that [register] installs, registry.py)

    [save_base], [save]/[delete], [refresh_from_db] and the pre_delete receiver.
    The method each wrapper calls (Django's own, or the application's override)
    is a parameter: any computation over the whole process state. *)

From S2P Require Import Prelude Context Registry Models AuditTrail.

Section Writes.
Context {A : Type} `{!Django A}.
Implicit Types (w : world (database A)).

(** [original(instance, ...)]: it may change the instance (a generated primary
    key), which it returns here. *)
Definition method : Type := row → py (database A) row.

Definition check_persisted (c : Registration) (r : option row) (ctx : ScopeContext)
  : py (database A) unit :=
  match r with
  | Some b => lift (check_scope c b ctx) ;; mret tt
  | None => mret tt
  end.

Definition same_scope_value (c : Registration) (before : option row) (inst : row) : bool :=
  match before with
  | Some b => bool_decide (getattr b (scope_attname c) = getattr inst (scope_attname c))
  | None => true
  end.

(** The action recorded for a save: [restore] overrides it for its own row. *)
Definition save_action (c : Registration) (before : option row) (inst : row)
  (override : option (string * pyval * string)) : string :=
  let action := match before with None => "create" | Some _ => "update" end in
  match override with
  | Some (m, k, a) => if bool_decide ((m, k) = (label (rg_model c), pk inst)) then a else action
  | None => action
  end.

(** The first half of the transaction in [save_base]: everything that must hold
    before the write; it returns the [before] snapshot. *)
Definition before_save (rs : rstate) (c : Registration) (inst : row) (ctx : ScopeContext)
  : py (database A) (option row * option snapshot_dict) :=
  before_row ← load_row (rg_model c) (pk inst);
  check_persisted c before_row ctx ;;
  lift (check_scope c inst ctx) ;;
  check_relations rs c inst ctx ;;
  raise_if (negb (same_scope_value c before_row inst))
    (UnsupportedOperation "Scope changes require an explicit application migration.") ;;
  before ← lift (snapshot c before_row);
  mret (before_row, before).

(** The second half: what was persisted is checked and recorded. *)
Definition after_save (rs : rstate) (c : Registration) (before_row : option row)
  (before : option snapshot_dict) (inst : row) (ctx : ScopeContext) : py (database A) unit :=
  after_row ← load_row (rg_model c) (pk inst);
  match after_row with
  | None => raise (UnsupportedOperation "The save did not leave a persisted row.")
  | Some a =>
      lift (check_scope c a ctx) ;;
      check_relations rs c a ctx ;;
      override ← gets w_action;
      after ← lift (snapshot c (Some a));
      append_event c a (save_action c before_row inst override) before after ctx ;;
      mret tt
  end.

(** [save_base(instance, raw=...)] as installed by [register]. *)
Definition save_base (rs : rstate) (c : Registration) (original : method) (raw : bool)
  (inst : row) : py (database A) row :=
  ctx ← the_context;
  raise_if raw (UnsupportedOperation
    "Raw fixture saves bypass guarantees; use a data migration.") ;;
  atomic (
    bs ← before_save rs c inst ctx;
    inst' ← original inst;
    after_save rs c bs.1 bs.2 inst' ctx ;;
    mret inst').

(** [wrap_method] around [save] and [delete]. *)
Definition wrap_method {R} (body : row → py (database A) R) (inst : row) : py (database A) R :=
  the_context ;; atomic (body inst).

(** [refresh_from_db]. *)
Definition refresh (c : Registration) (original_refresh : method) (inst : row)
  : py (database A) row :=
  match rg_mode c with
  | Enforce =>
      ctx ← the_context;
      r ← load_row (rg_model c) (pk inst);
      check_persisted c r ctx ;;
      original_refresh inst
  | Audit => original_refresh inst
  end.

(** The pre_delete receiver. *)
Definition before_delete (c : Registration) (inst : row) : py (database A) unit :=
  ctx ← the_context;
  r ← load_row (rg_model c) (pk inst);
  match r with
  | Some x =>
      lift (check_scope c x ctx) ;;
      before ← lift (snapshot c (Some x));
      append_event c x "delete" before None ctx ;;
      mret tt
  | None => mret tt
  end.

(** [_ScopedForwardRelation.__get__]: reading a guarded relation through its
    original descriptor. *)
Definition forward_get (target : Registration) (original_get : row → py (database A) (option row))
  (inst : row) : py (database A) (option row) :=
  ctx ← the_context;
  related ← original_get inst;
  check_persisted target related ctx ;;
  mret related.

(** ** Lemmas *)

Lemma check_persisted_reads c r ctx : reads (check_persisted c r ctx).
Proof. unfold check_persisted. solve_reads. Qed.

Lemma before_save_reads rs c inst ctx : reads (before_save rs c inst ctx).
Proof.
  unfold before_save. solve_reads; eauto using check_persisted_reads, check_relations_reads with reads.
Qed.

Lemma check_persisted_ok c r ctx w w' :
  check_persisted c r ctx w = (Ok tt, w') →
  ∀ b, r = Some b → rg_mode c = Enforce → in_scope_of c b ctx.
Proof.
  unfold check_persisted, lift. intros H b ->. rewrite run_bind in H.
  destruct (check_scope c b ctx) eqn:Hc; [|done]. by apply check_scope_ok in Hc as [_ ?].
Qed.

Lemma before_save_ok rs c inst ctx w bs w' :
  before_save rs c inst ctx w = (Ok bs, w') →
  w' = w ∧
  bs.1 = (if bool_decide (pk inst = PNone) then None
          else row_by_pk (db_app (w_db w)) (label (rg_model c)) (pk inst)) ∧
  snapshot c bs.1 = Ok bs.2 ∧
  (∀ b, bs.1 = Some b → getattr b (scope_attname c) = getattr inst (scope_attname c)) ∧
  (rg_mode c = Enforce →
    in_scope_of c inst ctx ∧ (∀ b, bs.1 = Some b → in_scope_of c b ctx) ∧
    ∀ f, f ∈ m_fields (rg_model c) → relation_in_scope (protected rs) inst ctx (w_db w) f).
Proof.
  intros H. pose proof (reads_run _ _ _ _ (before_save_reads _ _ _ _) H) as ->.
  split; [done|]. unfold before_save in H.
  apply bind_ok_inv in H as (b & w1 & H1 & H). apply load_row_ok in H1 as [-> Hb].
  apply bind_ok_inv in H as ([] & w1 & H1 & H).
  pose proof (reads_run _ _ _ _ (check_persisted_reads _ _ _) H1) as ->.
  pose proof (check_persisted_ok _ _ _ _ _ H1) as Hp.
  apply bind_ok_inv in H as (s & w1 & H2 & H). apply lift_ok in H2 as [H2 ->].
  apply check_scope_ok in H2 as [_ Hinst].
  apply bind_ok_inv in H as ([] & w1 & H3 & H).
  pose proof (reads_run _ _ _ _ (check_relations_reads _ _ _ _) H3) as ->.
  apply bind_ok_inv in H as ([] & w1 & H4 & H). apply raise_if_ok in H4 as [Hsame ->].
  apply bind_ok_inv in H as (sn & w1 & H5 & H). apply lift_ok in H5 as [H5 ->].
  apply mret_ok in H as [-> _]. simpl.
  split_and!; [done|done| |].
  - intros b' ->. apply negb_false_iff, bool_decide_eq_true_1 in Hsame. done.
  - intros Hmode. split_and!; [auto| |].
    + intros b' ->. by eapply Hp.
    + intros f Hf. by eapply check_relations_ok.
Qed.

Lemma after_save_ok rs c br before inst ctx w w' :
  after_save rs c br before inst ctx w = (Ok tt, w') →
  ∃ a after e, pk inst ≠ PNone ∧ row_by_pk (db_app (w_db w)) (label (rg_model c)) (pk inst) = Some a ∧
    snapshot c (Some a) = Ok after ∧
    append_event c a (save_action c br inst (w_action w)) before after ctx w = (Ok e, w') ∧
    (rg_mode c = Enforce → in_scope_of c a ctx ∧
      ∀ f, f ∈ m_fields (rg_model c) → relation_in_scope (protected rs) a ctx (w_db w) f).
Proof.
  unfold after_save. intros H.
  apply bind_ok_inv in H as (ar & w1 & H1 & H). apply load_row_ok in H1 as [-> Har].
  case_bool_decide; subst ar; [done|].
  destruct (row_by_pk _ _ _) as [a|] eqn:Ha; [|done].
  apply bind_ok_inv in H as (s & w1 & H2 & H). apply lift_ok in H2 as [H2 ->].
  apply check_scope_ok in H2 as [_ Hinst].
  apply bind_ok_inv in H as ([] & w1 & H3 & H).
  pose proof (reads_run _ _ _ _ (check_relations_reads _ _ _ _) H3) as ->.
  apply bind_ok_inv in H as (ov & w1 & H4 & H). apply gets_ok in H4 as [-> ->].
  apply bind_ok_inv in H as (sn & w1 & H5 & H). apply lift_ok in H5 as [H5 ->].
  apply bind_ok_inv in H as (e & w2 & H6 & H). apply mret_ok in H as [_ ->].
  exists a, sn, e. split_and!; try done.
  intros Hmode. split; [auto|]. intros f Hf. by eapply check_relations_ok.
Qed.

Lemma save_base_ok rs c original raw inst w inst' w' :
  save_base rs c original raw inst w = (Ok inst', w') →
  ∃ ctx bs w1, raw = false ∧ w_current w = Some ctx ∧
    before_save rs c inst ctx w = (Ok bs, w) ∧ original inst w = (Ok inst', w1) ∧
    after_save rs c bs.1 bs.2 inst' ctx w1 = (Ok tt, w').
Proof.
  unfold save_base. intros H.
  apply bind_ok_inv in H as (ctx & w1 & H1 & H). apply the_context_ok in H1 as [-> Hctx].
  apply bind_ok_inv in H as ([] & w1 & H1 & H). apply raise_if_ok in H1 as [-> ->].
  rewrite atomic_ok in H. apply bind_ok_inv in H as (bs & w1 & H1 & H).
  pose proof (reads_run _ _ _ _ (before_save_reads _ _ _ _) H1) as ->.
  apply bind_ok_inv in H as (i & w1 & H2 & H). apply bind_ok_inv in H as ([] & w2 & H3 & H).
  apply mret_ok in H as [-> ->]. eauto 10.
Qed.

Lemma wrap_method_ok {R} (body : row → py (database A) R) inst w r w' :
  wrap_method body inst w = (Ok r, w') → body inst w = (Ok r, w').
Proof.
  unfold wrap_method. intros H. apply bind_ok_inv in H as (ctx & w1 & H1 & H).
  apply the_context_ok in H1 as [-> _]. by rewrite atomic_ok in H.
Qed.

Lemma save_base_raise_db rs c original raw inst w e w' :
  save_base rs c original raw inst w = (Raise e, w') → w_db w' = w_db w.
Proof.
  unfold save_base. rewrite run_bind.
  destruct (the_context w) as [[ctx|e'] w1] eqn:H1; last first.
  { intros [= _ <-]. by rewrite (reads_run _ _ _ _ the_context_reads H1). }
  apply the_context_ok in H1 as [-> _]. rewrite run_bind.
  destruct raw; simpl; [by intros [= _ <-]|]. apply atomic_raise_db.
Qed.

(** The method calls the model only through the ORM: it keeps the current
    context and does not touch the history tables itself. *)
Definition plain_method (original : method) : Prop :=
  ∀ i w, let w' := (original i w).2 in
    db_resources (w_db w') = db_resources (w_db w) ∧ db_events (w_db w') = db_events (w_db w) ∧
    w_now w' = w_now w ∧ w_action w' = w_action w.

Lemma after_save_preserves rs c br before inst ctx :
  preserves (history_ok ∘ w_db) (after_save rs c br before inst ctx).
Proof.
  unfold after_save.
  repeat (preserves_step || (apply reads_preserves; solve_reads; fail) || apply append_event_preserves);
    apply reads_preserves; eauto with reads.
Qed.

Lemma after_save_extends rs c br before inst ctx :
  respects (on_db extends) (after_save rs c br before inst ctx).
Proof.
  unfold after_save.
  repeat (respects_step || apply append_event_extends);
    (apply reads_respects; [exact _ | eauto with reads]).
Qed.

Lemma save_base_preserves rs c original raw inst :
  (∀ i, preserves (history_ok ∘ w_db) (original i)) →
  preserves (history_ok ∘ w_db) (save_base rs c original raw inst).
Proof.
  intros Ho. unfold save_base. apply preserves_bind; [apply reads_preserves, the_context_reads|].
  intros ctx. preserves_step; [apply preserves_raise_if|]. apply preserves_atomic.
  apply preserves_bind; [apply reads_preserves, before_save_reads|]. intros bs.
  apply preserves_bind; [apply Ho|]. intros i'.
  apply preserves_bind; [apply after_save_preserves|]. intros _. apply preserves_ret.
Qed.

Lemma save_base_extends rs c original raw inst :
  (∀ i, respects (on_db extends) (original i)) →
  respects (on_db extends) (save_base rs c original raw inst).
Proof.
  intros Ho. unfold save_base.
  respects_step; [apply reads_respects; [exact _|apply the_context_reads]|].
  respects_step; [respects_step|]. apply respects_atomic; [exact _|].
  respects_step; [apply reads_respects; [exact _|apply before_save_reads]|].
  respects_step; [apply Ho|]. respects_step; [apply after_save_extends|]. respects_step.
Qed.

Lemma before_delete_preserves c inst : preserves (history_ok ∘ w_db) (before_delete c inst).
Proof.
  unfold before_delete.
  repeat (preserves_step || apply append_event_preserves);
    apply reads_preserves; eauto with reads.
Qed.

Lemma before_delete_extends c inst : respects (on_db extends) (before_delete c inst).
Proof.
  unfold before_delete.
  repeat (respects_step || apply append_event_extends);
    (apply reads_respects; [exact _ | eauto with reads]).
Qed.

Lemma check_scope_foreign c inst ctx actual a b :
  rg_mode c = Enforce → identity (getattr inst (scope_attname c)) = Ok actual →
  scope_to_python c actual = Ok a → scope_to_python c (scope ctx) = Ok b → a ≠ b →
  check_scope c inst ctx =
    Raise (ScopeViolation (label (rg_model c) +:+ " belongs to a different scope.")).
Proof.
  intros Hm Hi Ha Hb Hne. unfold check_scope. rewrite Hi. simpl. rewrite Hm.
  rewrite Ha. simpl. rewrite Hb. simpl. by rewrite bool_decide_eq_false_2.
Qed.

(** ** Theorems *)

(** C1: A save that returns recorded exactly one event: the caller's actor, the
    state before and the state actually persisted, appended to the history of
    the persisted row and of no other; the action is create or update
    (restore's own for the row being restored). *)
Theorem save_base_audited rs c original raw inst w inst' w' :
  plain_method original →
  save_base rs c original raw inst w = (Ok inst', w') →
  ∃ ctx before_row before a after key w1,
    raw = false ∧ w_current w = Some ctx ∧ original inst w = (Ok inst', w1) ∧
    before_row = (if bool_decide (pk inst = PNone) then None
                  else row_by_pk (db_app (w_db w)) (label (rg_model c)) (pk inst)) ∧
    snapshot c before_row = Ok before ∧
    row_by_pk (db_app (w_db w1)) (label (rg_model c)) (pk inst') = Some a ∧
    snapshot c (Some a) = Ok after ∧ resource_key_of c a = Ok key ∧
    db_app (w_db w') = db_app (w_db w1) ∧
    (∃ e, default [] (db_events (w_db w') !! key) = default [] (db_events (w_db w) !! key) ++ [e] ∧
      e_actor e = actor ctx ∧ e_before e = before ∧ e_after e = after ∧
      e_reason e = reason ctx ∧ e_request_id e = request_id ctx ∧
      e_action e = save_action c before_row inst' (w_action w) ∧
      e_revision e = r_revision (head_of (w_db w) key (e_scope e)) + 1 ∧
      e_digest e = event_digest key e) ∧
    (∀ k, k ≠ key → db_events (w_db w') !! k = db_events (w_db w) !! k ∧
                    db_resources (w_db w') !! k = db_resources (w_db w) !! k).
Proof.
  intros Hplain H.
  destruct (save_base_ok _ _ _ _ _ _ _ _ H) as (ctx & bs & w1 & Hraw & Hctx & Hbs & Ho & Has).
  destruct (before_save_ok _ _ _ _ _ _ _ Hbs) as (_ & Hb1 & Hb2 & _).
  destruct (after_save_ok _ _ _ _ _ _ _ _ Has) as (a & after & e & _ & Ha & Hafter & Happ & _).
  destruct (append_event_ok _ _ _ _ _ _ _ _ _ Happ) as (key & sc & Hkey & _ & Hsc & -> & ->).
  pose proof (Hplain inst w) as (Hr & He & _ & Hact). rewrite Ho in Hr, He, Hact. simpl in *.
  exists ctx, bs.1, bs.2, a, after, key, w1. split_and!; try done.
  - assert (Hhead : head_of (w_db w1) key sc = head_of (w_db w) key sc).
    { unfold head_of. by rewrite Hr. }
    eexists. rewrite lookup_insert_eq. simpl. rewrite He. split; [reflexivity|].
    split_and!; try done; unfold event_on; simpl; [by rewrite Hact | by rewrite Hsc, Hhead].
  - intros k Hk. rewrite !lookup_insert_ne by done. by rewrite Hr, He.
Qed.

(** C2: In enforce mode a save that returns stayed inside the caller's scope: the
    row that was persisted before, the instance, the row persisted after, and
    every row of an enforced model they point to belong to it, and the scope
    column did not change. *)
Theorem save_base_in_scope rs c original raw inst w inst' w' :
  rg_mode c = Enforce →
  save_base rs c original raw inst w = (Ok inst', w') →
  ∃ ctx a w1, w_current w = Some ctx ∧ original inst w = (Ok inst', w1) ∧
    row_by_pk (db_app (w_db w1)) (label (rg_model c)) (pk inst') = Some a ∧
    in_scope_of c inst ctx ∧ in_scope_of c a ctx ∧
    (∀ b, pk inst ≠ PNone → row_by_pk (db_app (w_db w)) (label (rg_model c)) (pk inst) = Some b →
      in_scope_of c b ctx ∧ getattr b (scope_attname c) = getattr inst (scope_attname c)) ∧
    (∀ f, f ∈ m_fields (rg_model c) →
      relation_in_scope (protected rs) inst ctx (w_db w) f ∧
      relation_in_scope (protected rs) a ctx (w_db w1) f).
Proof.
  intros Hmode H.
  destruct (save_base_ok _ _ _ _ _ _ _ _ H) as (ctx & bs & w1 & _ & Hctx & Hbs & Ho & Has).
  destruct (before_save_ok _ _ _ _ _ _ _ Hbs) as (_ & Hb1 & _ & Hsame & Henf).
  destruct (Henf Hmode) as (Hinst & Hb & Hrel).
  destruct (after_save_ok _ _ _ _ _ _ _ _ Has) as (a & after & e & _ & Ha & _ & _ & Hafter).
  destruct (Hafter Hmode) as (Hina & Hrela).
  exists ctx, a, w1. split_and!; try done; [|eauto].
  intros b Hpk Hrow. rewrite bool_decide_eq_false_2 in Hb1 by done. rewrite Hrow in Hb1. eauto.
Qed.

(** C3: Nothing is written without attribution and nothing half-written: without
    a context a save raises MissingContext before it looks at the database,
    and a save that raises for any reason (the checks, the application's own
    method, the audit append) leaves the whole database as it was. *)
Theorem save_base_all_or_nothing rs c original raw inst w :
  (w_current w = None → save_base rs c original raw inst w = (Raise MissingContext, w)) ∧
  (∀ e w', save_base rs c original raw inst w = (Raise e, w') → w_db w' = w_db w) ∧
  (∀ ctx, w_current w = Some ctx → raw = true →
    save_base rs c original raw inst w = (Raise (UnsupportedOperation
      "Raw fixture saves bypass guarantees; use a data migration."), w)).
Proof.
  split_and!.
  - intros Hn. unfold save_base. rewrite run_bind. by rewrite the_context_none.
  - intros e w'. apply save_base_raise_db.
  - intros ctx Hctx ->. unfold save_base, the_context, current_context, gets.
    rewrite !run_bind. by rewrite Hctx.
Qed.

(** An instance whose persisted row belongs to another scope cannot be saved:
    in enforce mode the save is refused with ScopeViolation before the model's
    own save runs, and nothing changes. *)
Theorem save_base_rejects_foreign rs c original inst w ctx b actual va vc :
  rg_mode c = Enforce → w_current w = Some ctx → pk inst ≠ PNone →
  row_by_pk (db_app (w_db w)) (label (rg_model c)) (pk inst) = Some b →
  identity (getattr b (scope_attname c)) = Ok actual →
  scope_to_python c actual = Ok va → scope_to_python c (scope ctx) = Ok vc → va ≠ vc →
  save_base rs c original false inst w =
    (Raise (ScopeViolation (label (rg_model c) +:+ " belongs to a different scope.")), w).
Proof.
  intros Hmode Hctx Hpk Hrow Hid Ha Hc Hne.
  unfold save_base, the_context, current_context, gets. rewrite !run_bind. rewrite Hctx.
  simpl. rewrite run_bind. simpl. rewrite atomic_spec.
  unfold before_save, load_row, gets, check_persisted, lift, mbind, prog_bind.
  rewrite bool_decide_eq_false_2, Hrow by done.
  erewrite check_scope_foreign by done. by destruct w.
Qed.

(** Deleting a row through the ORM retains its history and adds one delete
    event with the deleted state; a row of another scope cannot be deleted. *)
Theorem delete_audited c inst w w' b :
  pk inst ≠ PNone →
  row_by_pk (db_app (w_db w)) (label (rg_model c)) (pk inst) = Some b →
  before_delete c inst w = (Ok tt, w') →
  ∃ ctx before key e, w_current w = Some ctx ∧ snapshot c (Some b) = Ok before ∧
    resource_key_of c b = Ok key ∧ (rg_mode c = Enforce → in_scope_of c b ctx) ∧
    default [] (db_events (w_db w') !! key) = default [] (db_events (w_db w) !! key) ++ [e] ∧
    e_action e = "delete" ∧ e_actor e = actor ctx ∧ e_before e = before ∧ e_after e = None ∧
    extends (w_db w) (w_db w').
Proof.
  intros Hpk Hrow H. pose proof (before_delete_extends c inst w) as Hext. rewrite H in Hext.
  unfold before_delete in H.
  apply bind_ok_inv in H as (ctx & w1 & H1 & H). apply the_context_ok in H1 as [-> Hctx].
  apply bind_ok_inv in H as (r & w1 & H1 & H). apply load_row_ok in H1 as [-> Hr].
  rewrite bool_decide_eq_false_2, Hrow in Hr by done. subst r.
  apply bind_ok_inv in H as (s & w1 & H2 & H). apply lift_ok in H2 as [H2 ->].
  apply check_scope_ok in H2 as [_ Hin].
  apply bind_ok_inv in H as (before & w1 & H3 & H). apply lift_ok in H3 as [H3 ->].
  apply bind_ok_inv in H as (e & w1 & H4 & H). apply mret_ok in H as [_ ->].
  apply append_event_ok in H4 as (key & sc & Hkey & _ & Hsc & -> & ->).
  exists ctx, before, key, (event_on key (head_of (w_db w) key sc) "delete" before None (w_now w) ctx).
  split_and!; try done. simpl. by rewrite lookup_insert_eq.
Qed.

(** C4: Whatever the application's own save does, as long as it keeps recorded
    histories intact so does the audited save and delete, and histories only
    ever grow. *)
Theorem writes_keep_history rs c original raw inst :
  (∀ i, preserves (history_ok ∘ w_db) (original i)) →
  (∀ i, respects (on_db extends) (original i)) →
  preserves (history_ok ∘ w_db) (save_base rs c original raw inst) ∧
  respects (on_db extends) (save_base rs c original raw inst) ∧
  preserves (history_ok ∘ w_db) (before_delete c inst) ∧
  respects (on_db extends) (before_delete c inst).
Proof.
  intros Hp He. split_and!.
  - by apply save_base_preserves.
  - by apply save_base_extends.
  - apply before_delete_preserves.
  - apply before_delete_extends.
Qed.

(** Reading a guarded relation never yields a row of another scope, cached or
    not, and never anything without a context. *)
Theorem forward_get_in_scope target original_get inst w r w' :
  rg_mode target = Enforce →
  forward_get target original_get inst w = (Ok (Some r), w') →
  ∃ ctx, w_current w = Some ctx ∧ in_scope_of target r ctx.
Proof.
  unfold forward_get. intros Hmode H.
  apply bind_ok_inv in H as (ctx & w1 & H1 & H). apply the_context_ok in H1 as [-> Hctx].
  apply bind_ok_inv in H as (rel & w1 & H1 & H).
  apply bind_ok_inv in H as ([] & w2 & H2 & H). apply mret_ok in H as [<- _].
  exists ctx. split; [done|]. by eapply check_persisted_ok.
Qed.
End Writes.

#[export] Hint Resolve save_base_preserves before_delete_preserves : preserves.
#[export] Hint Resolve save_base_extends before_delete_extends : respects.
