(* ===== verification/History.v ===== *)
(** * History (pyscoped/history.py)

    Reading, verifying, baselining and restoring recorded history. *)

From S2P Require Import Prelude Context Registry Models AuditTrail Writes.

Record Verification := { v_valid : bool; v_events : nat; v_detail : string }.

#[export] Instance Verification_eq_dec : EqDecision Verification.
Proof. solve_decision. Defined.

Record BackfillResult := {
  examined : nat; pending : nat; created : nat; skipped : nat; dry_run : bool
}.

#[export] Instance BackfillResult_eq_dec : EqDecision BackfillResult.
Proof. solve_decision. Defined.

Section History.
Context {A : Type} `{!Django A}.
Implicit Types (w : world (database A)).

Definition history_key (c : Registration) (k : pyval) : outcome resource_key :=
  (λ s, (label_lower (rg_model c), s)) <$> identity k.

(** ** Reading *)

(** [_resource]: the head of one history, authorized against the context (in
    both modes). *)
Definition _resource (c : Registration) (k : pyval)
  : py (database A) (option (resource_key * Resource)) :=
  ctx ← the_context;
  key ← lift (history_key c k);
  found ← gets (λ w, db_resources (w_db w) !! key);
  match found with
  | None => mret None
  | Some res =>
      a ← lift (scope_to_python c (r_scope res));
      b ← lift (scope_to_python c (scope ctx));
      raise_if (negb (bool_decide (a = b))) (ScopeViolation "History belongs to another scope.") ;;
      mret (Some (key, res))
  end.

Definition history (c : Registration) (k : pyval) : py (database A) (list AuditEvent) :=
  found ← _resource c k;
  match found with
  | None => mret []
  | Some (key, _) => gets (λ w, events_of (w_db w) key)
  end.

(** ** Verification *)

(** The loop of [verify_history]: the revision it rejects, or the digest of the
    last event. *)
Fixpoint verify_events (key : resource_key) (sc previous : string) (revision : nat)
  (l : list AuditEvent) : nat + string :=
  match l with
  | [] => inr previous
  | e :: l' =>
      if negb (e_revision e =? revision)
         || negb (bool_decide (e_previous_digest e = previous))
         || negb (bool_decide (e_scope e = sc))
         || negb (bool_decide (e_digest e = event_digest key e))
      then inl revision
      else verify_events key sc (e_digest e) (S revision) l'
  end.

Definition verify_chain (key : resource_key) (res : Resource) (l : list AuditEvent)
  : Verification :=
  match verify_events key (r_scope res) "" 1 l with
  | inl revision =>
      {| v_valid := false; v_events := length l;
         v_detail := "Invalid event at revision " +:+ pretty revision +:+ "." |}
  | inr previous =>
      if negb (r_revision res =? length l) || negb (bool_decide (r_digest res = previous))
      then {| v_valid := false; v_events := length l;
              v_detail := "Head does not match retained events." |}
      else {| v_valid := true; v_events := length l; v_detail := "" |}
  end.

Definition verify_history (c : Registration) (k : pyval) : py (database A) Verification :=
  atomic (
    found ← _resource c k;
    match found with
    | None => mret {| v_valid := false; v_events := 0; v_detail := "No history exists." |}
    | Some (key, res) =>
        events ← gets (λ w, events_of (w_db w) key);
        mret (verify_chain key res events)
    end).

(** ** Backfill *)

Definition count_skipped (r : BackfillResult) : BackfillResult :=
  {| examined := S (examined r); pending := pending r; created := created r;
     skipped := S (skipped r); dry_run := dry_run r |}.
Definition count_pending (r : BackfillResult) : BackfillResult :=
  {| examined := S (examined r); pending := S (pending r);
     created := if dry_run r then created r else S (created r);
     skipped := skipped r; dry_run := dry_run r |}.

(** Resource.objects.filter(..., revision__gt=0).exists(). *)
Definition has_history (d : database A) (key : resource_key) : bool :=
  match db_resources d !! key with
  | Some res => 0 <? r_revision res
  | None => false
  end.

(** One iteration of [backfill], its own transaction. *)
Definition backfill_row (c : Registration) (ctx : ScopeContext) (acc : BackfillResult) (k : pyval)
  : py (database A) BackfillResult :=
  atomic (
    r ← load_row (rg_model c) k;
    match r with
    | None => mret (count_skipped acc)
    | Some x =>
        lift (check_scope c x ctx) ;;
        key ← lift (history_key c k);
        seen ← gets (λ w, has_history (w_db w) key);
        if (seen : bool) then mret (count_skipped acc)
        else if dry_run acc then mret (count_pending acc)
        else
          after ← lift (snapshot c (Some x));
          append_event c x "baseline" None after ctx ;;
          mret (count_pending acc)
    end).

(** [select_pks]: the primary keys of the rows the model's scoped manager selects
    with [scope_attname = ctx.scope], in primary key order. *)
Definition backfill (c : Registration) (select_pks : A → string → list pyval) (dry : bool)
  (batch_size : Z) : py (database A) BackfillResult :=
  ctx ← the_context;
  raise_if (bool_decide (batch_size < 1)%Z) (ValueError "batch_size must be positive.") ;;
  pks ← gets (λ w, select_pks (db_app (w_db w)) (scope ctx));
  for_fold pks {| examined := 0; pending := 0; created := 0; skipped := 0; dry_run := dry |}
    (backfill_row c ctx).

(** ** Restore *)

Definition conflict {R} (msg : string) : py (database A) R := raise (HistoryConflict msg).

(** The loop that rebuilds the row: scope and relations must be unchanged, every
    other registered field takes its recorded value. *)
Fixpoint restore_fields (c : Registration) (target : snapshot_dict) (names : list string)
  (r : row) (updates : list string) : outcome (row * list string) :=
  match names with
  | [] => Ok (r, updates)
  | name :: names' =>
      let f := get_field (rg_model c) name in
      let recorded := default JNull (target !! name) in
      if bool_decide (name = scope_field c) || f_is_relation f then
        current ← snapshot c (Some r);
        if bool_decide (Some recorded = current ≫= (λ m, m !! name))
        then restore_fields c target names' r updates
        else Raise (UnsupportedOperation "Restoration cannot change scope or relationships.")
      else
        v ← to_python (f_target f) recorded;
        restore_fields c target names' (setattr r (f_attname f) v) (updates ++ [name])
  end.

Definition set_action_var (a : option (string * pyval * string)) : py (database A) unit :=
  modify (set_action a).

(** The recorded state [restore] goes back to, after all its conflict checks. *)
Definition restore_target (c : Registration) (k : pyval) (r : row) (revision expected_revision : nat)
  : py (database A) snapshot_dict :=
  found ← _resource c k;
  match found with
  | None => conflict "Expected revision does not match current history."
  | Some (_, res) =>
      if negb (r_revision res =? expected_revision)
      then conflict "Expected revision does not match current history." else
      v ← verify_history c k;
      if negb (v_valid v) then conflict "History verification failed." else
      events ← history c k;
      match last events with
      | None => conflict "Current data differs from the history head; reconcile first."
      | Some head =>
          current ← lift (snapshot c (Some r));
          if negb (bool_decide (current = e_after head))
          then conflict "Current data differs from the history head; reconcile first." else
          match find (λ e, e_revision e =? revision) events ≫= e_after with
          | None => conflict "Target revision has no restorable state."
          | Some after =>
              if bool_decide (dom after = list_to_set (fields c) :> gset string) then mret after
              else conflict "Registered fields changed; migrate history explicitly."
          end
      end
  end.

(** [save]: the registered model's [save(using=..., update_fields=...)]. *)
Definition restore (c : Registration) (save : row → list string → py (database A) row)
  (k : pyval) (revision expected_revision : nat) : py (database A) row :=
  ctx ← the_context;
  atomic (
    found ← load_row (rg_model c) k;
    match found with
    | None => conflict "Deleted/missing rows cannot be resurrected by restore()."
    | Some r =>
        lift (check_scope c r ctx) ;;
        target ← restore_target c k r revision expected_revision;
        upd ← lift (restore_fields c target (fields c) r []);
        raise_if (bool_decide (upd.2 = [])) (UnsupportedOperation
          "No scalar fields are registered for restoration.") ;;
        old ← gets w_action;
        set_action_var (Some (label (rg_model c), pk upd.1, "restore")) ;;
        finally (save upd.1 upd.2) (set_action_var old)
    end).

(** ** The pyscoped_backfill command *)

(** The parsed options; [apply] is off unless given. *)
Record command_options := {
  opt_model : string; opt_actor : string; opt_scope : string;
  opt_batch_size : Z; opt_apply : bool; opt_reason : string;
}.

(** [Command.handle]; [get_model] is apps.get_model. The result is what it prints. *)
Definition handle (rs : rstate) (get_model : string → option model)
  (select_pks : Registration → A → string → list pyval) (o : command_options)
  : py (database A) BackfillResult :=
  match get_model (opt_model o) with
  | None => raise (CommandError ("Unknown model: " +:+ opt_model o))
  | Some m =>
      with_scope (PStr (opt_actor o)) (PStr (opt_scope o)) (PStr (opt_reason o)) (PStr "") (λ _,
        c ← lift (registration rs m);
        backfill c (select_pks c) (negb (opt_apply o)) (opt_batch_size o))
  end.
End History.

(** ** Lemmas *)

Section HistoryTheory.
Context {A : Type} `{!Django A}.
Implicit Types (w : world (database A)).

Lemma resource_reads c k : reads (_resource (A:=A) c k).
Proof. unfold _resource. solve_reads. Qed.

Lemma history_reads c k : reads (history (A:=A) c k).
Proof. unfold history. apply reads_bind; [apply resource_reads|]. intros ?. solve_reads. Qed.

Lemma verify_history_reads c k : reads (verify_history (A:=A) c k).
Proof.
  apply reads_atomic, reads_bind; [apply resource_reads|]. intros ?. solve_reads.
Qed.

(** The scope of a history belongs to the context that read it. *)
Definition history_in_scope (c : Registration) (res : Resource) (ctx : ScopeContext) : Prop :=
  ∃ v, scope_to_python c (r_scope res) = Ok v ∧ scope_to_python c (scope ctx) = Ok v.

Lemma resource_ok c k w found w' :
  _resource c k w = (Ok found, w') →
  w' = w ∧ ∃ ctx key, w_current w = Some ctx ∧ history_key c k = Ok key ∧
    (found = (pair key) <$> db_resources (w_db w) !! key) ∧
    (∀ res, db_resources (w_db w) !! key = Some res → history_in_scope c res ctx).
Proof.
  intros H. pose proof (reads_run _ _ _ _ (resource_reads _ _) H) as ->. split; [done|].
  unfold _resource in H.
  apply bind_ok_inv in H as (ctx & w1 & H1 & H). apply the_context_ok in H1 as [-> Hctx].
  apply bind_ok_inv in H as (key & w1 & H1 & H). apply lift_ok in H1 as [Hkey ->].
  apply bind_ok_inv in H as (f & w1 & H1 & H). apply gets_ok in H1 as [-> ->].
  exists ctx, key. split; [done|]. split; [done|].
  destruct (db_resources (w_db w) !! key) as [res|]; [|by apply mret_ok in H as [-> _]].
  apply bind_ok_inv in H as (a & w1 & H1 & H). apply lift_ok in H1 as [Ha ->].
  apply bind_ok_inv in H as (b & w1 & H1 & H). apply lift_ok in H1 as [Hb ->].
  apply bind_ok_inv in H as ([] & w1 & H1 & H).
  apply raise_if_ok in H1 as [Hab%negb_false_iff%bool_decide_eq_true_1 ->].
  apply mret_ok in H as [-> _]. split; [done|]. intros ? [= <-]. exists b. by subst.
Qed.

Lemma verify_events_chain key sc prev rev l d :
  verify_events key sc prev rev l = inr d ↔
  chain key sc prev rev l ∧ d = default prev (e_digest <$> last l).
Proof.
  revert prev rev. induction l as [|e l IH]; intros prev rev; cbn [verify_events chain].
  { simpl. split; [by intros [= <-] | by intros [_ ->]]. }
  rewrite last_cons.
  destruct (Nat.eqb_spec (e_revision e) rev) as [Hr|Hr]; simpl; last first.
  { split; [done|]. intros [(? & _) _]. done. }
  case_bool_decide as Hp; simpl; [|split; [done|]; intros [(_ & ? & _) _]; done].
  case_bool_decide as Hs; simpl; [|split; [done|]; intros [(_ & _ & ? & _) _]; done].
  case_bool_decide as Hd; simpl; [|split; [done|]; intros [(_ & _ & _ & ? & _) _]; done].
  rewrite IH. destruct (last l); simpl; naive_solver.
Qed.

(** Verification accepts exactly the intact chains under their head. *)
Lemma verify_chain_valid key res l : v_valid (verify_chain key res l) = true ↔ head_ok key res l.
Proof.
  unfold verify_chain, head_ok, last_digest.
  destruct (verify_events key (r_scope res) "" 1 l) as [n|d] eqn:Hv.
  - split; [done|]. intros (Hc & _).
    assert (Hv' : verify_events key (r_scope res) "" 1 l = inr (default "" (e_digest <$> last l)))
      by (by apply verify_events_chain). congruence.
  - apply verify_events_chain in Hv as [Hc ->].
    destruct (Nat.eqb_spec (r_revision res) (length l)); simpl; [|naive_solver].
    case_bool_decide; simpl; naive_solver.
Qed.

Lemma verify_history_ok c k w v w' :
  verify_history c k w = (Ok v, w') →
  w' = w ∧ ∃ ctx key, w_current w = Some ctx ∧ history_key c k = Ok key ∧
    v = match db_resources (w_db w) !! key with
        | None => {| v_valid := false; v_events := 0; v_detail := "No history exists." |}
        | Some res => verify_chain key res (events_of (w_db w) key)
        end.
Proof.
  intros H. pose proof (reads_run _ _ _ _ (verify_history_reads _ _) H) as ->. split; [done|].
  unfold verify_history in H. rewrite atomic_ok in H.
  apply bind_ok_inv in H as (found & w1 & H1 & H).
  apply resource_ok in H1 as (-> & ctx & key & Hctx & Hkey & -> & _).
  exists ctx, key. split; [done|]. split; [done|].
  destruct (db_resources (w_db w) !! key) as [res|]; simpl in H.
  - apply bind_ok_inv in H as (l & w1 & H1 & H). apply gets_ok in H1 as [-> ->].
    by apply mret_ok in H as [-> _].
  - by apply mret_ok in H as [-> _].
Qed.

(** ** Tamper evidence *)

(** Two different payloads with the same digest: a SHA-256 collision. *)
Definition digest_collision : Prop := ∃ p q : payload, p ≠ q ∧ digest_of p = digest_of q.

Lemma payload_digest_inj key e1 e2 :
  payload_of key e1 = payload_of key e2 → e_digest e1 = e_digest e2 → e1 = e2.
Proof. destruct e1, e2. unfold payload_of. simpl. intros [=] ?. by subst. Qed.

Lemma chain_snoc_inv key sc prev rev l e :
  chain key sc prev rev (l ++ [e]) →
  chain key sc prev rev l ∧ e_previous_digest e = default prev (e_digest <$> last l) ∧
  e_digest e = event_digest key e.
Proof. rewrite chain_app. simpl. naive_solver. Qed.

Lemma chain_determined key sc sc' l l' :
  length l = length l' → last_digest l = last_digest l' →
  chain key sc "" 1 l → chain key sc' "" 1 l' → l = l' ∨ digest_collision.
Proof.
  revert l'. induction l as [|e l IH] using rev_ind; intros l' Hlen Hd Hc Hc'.
  - left. by destruct l'.
  - destruct l' as [|e' l' _] using rev_ind; [rewrite length_app in Hlen; simpl in Hlen; lia|].
    rewrite !length_app in Hlen. simpl in Hlen.
    unfold last_digest in Hd. rewrite !last_snoc in Hd. simpl in Hd.
    apply chain_snoc_inv in Hc as (Hc & Hp & He). apply chain_snoc_inv in Hc' as (Hc' & Hp' & He').
    destruct (decide (payload_of key e = payload_of key e')) as [Heq|Hne]; last first.
    { right. exists (payload_of key e), (payload_of key e'). split; [done|].
      unfold event_digest in He, He'. congruence. }
    pose proof (payload_digest_inj _ _ _ Heq Hd) as ->.
    destruct (IH l') as [->|?]; [lia| |done|done|by left|by right].
    unfold last_digest. congruence.
Qed.

(** ** Backfill, run *)

(** A row needs no baseline (any more): it is gone, or it has history. *)
Definition settled (c : Registration) (d : database A) (k : pyval) : Prop :=
  k = PNone ∨ row_by_pk (db_app d) (label (rg_model c)) k = None ∨
  ∃ key, history_key c k = Ok key ∧ has_history d key = true.

(** Same application tables, history at most longer. *)
Definition grows (d d' : database A) : Prop := db_app d' = db_app d ∧ extends d d'.

#[export] Instance grows_preorder : PreOrder grows.
Proof.
  split; [by intros d; split|]. intros d1 d2 d3 [H1 H2] [H3 H4]. split; [congruence|by etrans].
Qed.

Lemma has_history_extends (d d' : database A) key :
  extends d d' → has_history d key = true → has_history d' key = true.
Proof.
  intros Hext. unfold has_history. destruct (Hext key) as [Hres _].
  destruct (db_resources d !! key) as [res|]; [|done].
  destruct (Hres res eq_refl) as (res' & -> & _ & Hle). rewrite !Nat.ltb_lt. lia.
Qed.

Lemma settled_grows c (d d' : database A) k : grows d d' → settled c d k → settled c d' k.
Proof.
  intros [Happ Hext] [?|[?|(key & ? & ?)]]; [by left|right; left; by rewrite Happ|].
  right. right. exists key. split; [done|]. by eapply has_history_extends.
Qed.

Lemma has_history_appended (d : database A) key res e k :
  0 < e_revision e →
  has_history (appended d key res e) k = if decide (k = key) then true else has_history d k.
Proof.
  intros He. unfold has_history, appended. simpl. case_decide as Hk.
  - subst. rewrite lookup_insert_eq. simpl. by apply Nat.ltb_lt.
  - by rewrite lookup_insert_ne.
Qed.

(** What one iteration did: skipped a settled row, or counted one that was not
    (and, when applying, gave it a baseline event). *)
Lemma backfill_row_ok c ctx acc k w acc' w' :
  backfill_row c ctx acc k w = (Ok acc', w') →
  (settled c (w_db w) k ∧ acc' = count_skipped acc ∧ w' = w) ∨
  (∃ x key s, k ≠ PNone ∧ row_by_pk (db_app (w_db w)) (label (rg_model c)) k = Some x ∧
     check_scope c x ctx = Ok s ∧ history_key c k = Ok key ∧ has_history (w_db w) key = false ∧
     acc' = count_pending acc ∧
     if dry_run acc then w' = w
     else ∃ after e, append_event c x "baseline" None after ctx w = (Ok e, w')).
Proof.
  unfold backfill_row. rewrite atomic_ok. intros H.
  apply bind_ok_inv in H as (r & w1 & H1 & H). apply load_row_ok in H1 as [-> Hr].
  destruct r as [x|]; last first.
  { apply mret_ok in H as [-> ->]. left. split; [|done].
    case_bool_decide; [by left | right; left; done]. }
  apply bind_ok_inv in H as (s & w1 & H1 & H). apply lift_ok in H1 as [Hs ->].
  apply bind_ok_inv in H as (key & w1 & H1 & H). apply lift_ok in H1 as [Hkey ->].
  apply bind_ok_inv in H as (seen & w1 & H1 & H). apply gets_ok in H1 as [-> ->].
  case_bool_decide as Hk; [done|].
  destruct (has_history (w_db w) key) eqn:Hh.
  { apply mret_ok in H as [-> ->]. left. split; [|done]. right. right. eauto. }
  right. exists x, key, s. split_and!; try done; destruct (dry_run acc).
  - by apply mret_ok in H as [-> _].
  - apply bind_ok_inv in H as (after & w1 & H1 & H). apply bind_ok_inv in H as (e & w2 & H2 & H).
    by apply mret_ok in H as [-> _].
  - by apply mret_ok in H as [_ ->].
  - apply bind_ok_inv in H as (after & w1 & H1 & H). apply lift_ok in H1 as [_ ->].
    apply bind_ok_inv in H as (e & w2 & H2 & H). apply mret_ok in H as [_ ->]. eauto.
Qed.

(** The row passes the scope check, if it is there. *)
Definition scope_checked (c : Registration) (ctx : ScopeContext) (a : A) (k : pyval) : Prop :=
  ∀ x, k ≠ PNone → row_by_pk a (label (rg_model c)) k = Some x → is_ok (check_scope c x ctx) = true.

(** A settled row of the scope is skipped. *)
Lemma backfill_row_settled c ctx acc k w :
  settled c (w_db w) k →
  scope_checked c ctx (db_app (w_db w)) k →
  backfill_row c ctx acc k w = (Ok (count_skipped acc), w).
Proof.
  intros Hset Hscope. unfold backfill_row. rewrite atomic_spec.
  unfold load_row, gets, lift, mbind, prog_bind, mret, prog_ret.
  case_bool_decide as Hk; [done|].
  destruct (row_by_pk _ _ _) as [x|] eqn:Hx; [|done].
  specialize (Hscope x Hk Hx). destruct (check_scope c x ctx) as [s|]; [|done].
  destruct Hset as [?|[?|(key & -> & ->)]]; [done|congruence|done].
Qed.

(** The rows a model's pk query yields carry the pk they were asked for. *)
Definition keyed (c : Registration) (pks : list pyval) : Prop :=
  ∀ (a : A) k r, k ∈ pks → row_by_pk a (label (rg_model c)) k = Some r → pk r = k.

Lemma append_event_db c r action before after ctx w e w' :
  append_event c r action before after ctx w = (Ok e, w') →
  w_current w' = w_current w ∧ grows (w_db w) (w_db w') ∧
  ∃ key, resource_key_of c r = Ok key ∧
    ∀ k, has_history (w_db w') k = if decide (k = key) then true else has_history (w_db w) k.
Proof.
  intros H. pose proof (append_event_extends c r action before after ctx w) as Hext.
  rewrite H in Hext. apply append_event_ok in H as (key & sc & Hkey & _ & _ & -> & ->).
  split; [done|]. split; [by split|]. exists key. split; [done|]. intros k. simpl.
  apply has_history_appended. rewrite event_on_revision. lia.
Qed.

(** An applied iteration settles its row and touches no other history. *)
Lemma backfill_row_applied c ctx pks acc k w acc' w' :
  keyed c pks → k ∈ pks → dry_run acc = false →
  backfill_row c ctx acc k w = (Ok acc', w') →
  w_current w' = w_current w ∧ grows (w_db w) (w_db w') ∧ settled c (w_db w') k ∧
  ∀ key, history_key c k ≠ Ok key → has_history (w_db w') key = has_history (w_db w) key.
Proof.
  intros Hkeyed Hin Hdry H.
  apply backfill_row_ok in H as [(? & _ & ->)|(x & key & s & _ & Hx & _ & Hkey & _ & _ & H)].
  { by split_and!. }
  rewrite Hdry in H. destruct H as (after & e & H).
  apply append_event_db in H as (? & ? & key' & Hkey' & Hhist). split_and!; [done..| |].
  - right. right. exists key. split; [done|]. rewrite Hhist.
    assert (key' = key) as ->; [|by rewrite decide_True].
    unfold resource_key_of in Hkey'. rewrite (Hkeyed _ _ _ Hin Hx) in Hkey'.
    unfold history_key in Hkey. congruence.
  - intros key0 Hne. rewrite Hhist, decide_False; [done|]. intros ->.
    unfold resource_key_of in Hkey'. rewrite (Hkeyed _ _ _ Hin Hx) in Hkey'. done.
Qed.

Lemma backfill_row_checked c ctx acc k w acc' w' :
  backfill_row c ctx acc k w = (Ok acc', w') → scope_checked c ctx (db_app (w_db w)) k.
Proof.
  unfold backfill_row. rewrite atomic_ok. intros H x Hk Hx.
  apply bind_ok_inv in H as (r & w1 & H1 & H). apply load_row_ok in H1 as [-> Hr].
  rewrite bool_decide_eq_false_2, Hx in Hr by done. subst r.
  apply bind_ok_inv in H as (s & w1 & H1 & H). apply lift_ok in H1 as [Hs _]. by rewrite Hs.
Qed.

Lemma backfill_row_dry c ctx acc k w :
  dry_run acc = true → (backfill_row c ctx acc k w).2 = w.
Proof.
  intros Hdry. unfold backfill_row. rewrite Hdry. revert w. apply reads_atomic.
  apply reads_bind; [apply load_row_reads|]. intros r. solve_reads.
Qed.

(** *** The loop over the selected keys *)

Lemma for_fold_cons {S X Y} x (l : list X) (y : Y) (body : Y → X → prog S Y) s z s' :
  for_fold (x :: l) y body s = (Ok z, s') →
  ∃ y1 s1, body y x s = (Ok y1, s1) ∧ for_fold l y1 body s1 = (Ok z, s').
Proof. intros H. by apply bind_ok_inv in H. Qed.

Lemma backfill_row_dry_run c ctx acc k w acc' w' :
  backfill_row c ctx acc k w = (Ok acc', w') → dry_run acc' = dry_run acc.
Proof. intros [(_ & -> & _)|(? & ? & ? & _ & _ & _ & _ & _ & -> & _)]%backfill_row_ok; done. Qed.

Lemma backfill_loop_applied c ctx pks all acc w r w' :
  keyed c all → pks ⊆ all → dry_run acc = false →
  for_fold pks acc (backfill_row c ctx) w = (Ok r, w') →
  w_current w' = w_current w ∧ grows (w_db w) (w_db w') ∧
  ∀ k, k ∈ pks → settled c (w_db w') k ∧ scope_checked c ctx (db_app (w_db w)) k.
Proof.
  intros Hkeyed. revert acc w. induction pks as [|k pks IH]; intros acc w Hsub Hdry H.
  { apply mret_ok in H as [_ ->]. split_and!; [done..|]. by intros k ?%not_elem_of_nil. }
  apply for_fold_cons in H as (acc1 & w1 & H1 & H).
  pose proof (backfill_row_checked _ _ _ _ _ _ _ H1) as Hchk.
  pose proof (backfill_row_dry_run _ _ _ _ _ _ _ H1) as Hdry1. rewrite Hdry in Hdry1.
  apply (backfill_row_applied _ _ all) in H1 as (Hc1 & Hg1 & Hs1 & _);
    [|done|apply Hsub; left|done].
  apply IH in H as (Hc & Hg & Hs); [|intros x Hx; apply Hsub; by right|done].
  split; [congruence|]. split; [by etrans|]. intros k' [->|Hk']%elem_of_cons.
  - split; [by eapply settled_grows|done].
  - destruct (Hs _ Hk') as [? Hc']. split; [done|]. destruct Hg1 as [<- _]. done.
Qed.

Definition skip_all (n : nat) (r : BackfillResult) : BackfillResult :=
  {| examined := n + examined r; pending := pending r; created := created r;
     skipped := n + skipped r; dry_run := dry_run r |}.

Lemma backfill_loop_settled c ctx pks acc w :
  (∀ k, k ∈ pks → settled c (w_db w) k ∧ scope_checked c ctx (db_app (w_db w)) k) →
  for_fold pks acc (backfill_row c ctx) w = (Ok (skip_all (length pks) acc), w).
Proof.
  revert acc. induction pks as [|k pks IH]; intros acc H; simpl; [by destruct acc|].
  destruct (H k) as [Hs Hc]; [left|].
  rewrite (run_bind_ok _ _ _ _ _ (backfill_row_settled c ctx acc k w Hs Hc)).
  rewrite IH by (intros; apply H; by right).
  unfold skip_all, count_skipped. simpl. by rewrite !Nat.add_succ_r.
Qed.

Lemma backfill_loop_counts c ctx pks acc w r w' :
  for_fold pks acc (backfill_row c ctx) w = (Ok r, w') →
  dry_run r = dry_run acc ∧ examined r = length pks + examined acc ∧
  pending r + skipped r + examined acc = pending acc + skipped acc + examined r ∧
  created r + (if dry_run acc then 0 else pending acc) =
    created acc + (if dry_run acc then 0 else pending r).
Proof.
  revert acc w. induction pks as [|k pks IH]; intros acc w H.
  { apply mret_ok in H as [-> _]. split_and!; [done..|]. lia. }
  apply for_fold_cons in H as (acc1 & w1 & H1 & H).
  apply IH in H as (Hd & He & Hp & Hc).
  apply backfill_row_ok in H1 as [(_ & -> & _)|(? & ? & ? & _ & _ & _ & _ & _ & -> & _)];
    cbn [count_skipped count_pending dry_run examined pending skipped created length] in *;
    destruct (dry_run acc); split_and!; try done; lia.
Qed.

(** The report of a dry run with the same decisions. *)
Definition dry_of (r : BackfillResult) : BackfillResult :=
  {| examined := examined r; pending := pending r; created := 0; skipped := skipped r;
     dry_run := true |}.

Definition same_histories (c : Registration) (k : pyval) (d0 d : database A) : Prop :=
  ∀ key, history_key c k = Ok key → has_history d0 key = has_history d key.

Lemma backfill_row_preview c ctx acc k w acc' w' w0 :
  db_app (w_db w0) = db_app (w_db w) → same_histories c k (w_db w0) (w_db w) →
  backfill_row c ctx acc k w = (Ok acc', w') →
  backfill_row c ctx (dry_of acc) k w0 = (Ok (dry_of acc'), w0).
Proof.
  intros Happ Hsame H. pose proof (backfill_row_checked _ _ _ _ _ _ _ H) as Hchk.
  apply backfill_row_ok in H
    as [(Hs & -> & _)|(x & key & s & Hk & Hx & Hs & Hkey & Hh & -> & _)].
  - rewrite backfill_row_settled; [done| |by rewrite Happ].
    destruct Hs as [?|[?|(key & Hkey & ?)]]; [by left|right; left; by rewrite Happ|].
    right. right. exists key. split; [done|]. by rewrite Hsame.
  - rewrite <-Hsame in Hh by done. unfold backfill_row. rewrite atomic_spec.
    unfold load_row, gets, lift. rewrite bool_decide_eq_false_2 by done.
    unfold mbind, prog_bind. rewrite Happ, Hx, Hs, Hkey, Hh. done.
Qed.

(** Distinct primary keys are distinct identities. *)
Definition distinct_keys (c : Registration) (pks : list pyval) : Prop :=
  NoDup pks ∧ ∀ k1 k2 key, k1 ∈ pks → k2 ∈ pks →
    history_key c k1 = Ok key → history_key c k2 = Ok key → k1 = k2.

Lemma distinct_keys_cons c k pks :
  distinct_keys c (k :: pks) → distinct_keys c pks ∧
  ∀ k' key, k' ∈ pks → history_key c k' = Ok key → history_key c k ≠ Ok key.
Proof.
  intros [Hnd Hinj]. apply NoDup_cons in Hnd as [Hk Hnd]. split.
  - split; [done|]. intros ?????. apply Hinj; by right.
  - intros k' key Hk' H1 H2. apply Hk. rewrite (Hinj k k' key); [done|left|by right|done..].
Qed.

Lemma backfill_loop_preview c ctx pks all acc w r w' w0 :
  keyed c all → pks ⊆ all → distinct_keys c pks → dry_run acc = false →
  db_app (w_db w0) = db_app (w_db w) →
  (∀ k, k ∈ pks → same_histories c k (w_db w0) (w_db w)) →
  for_fold pks acc (backfill_row c ctx) w = (Ok r, w') →
  for_fold pks (dry_of acc) (backfill_row c ctx) w0 = (Ok (dry_of r), w0).
Proof.
  intros Hkeyed. revert acc w.
  induction pks as [|k pks IH]; intros acc w Hsub Hd Hdry Happ Hsame H.
  { by apply mret_ok in H as [-> _]. }
  apply for_fold_cons in H as (acc1 & w1 & H1 & H). simpl.
  rewrite (run_bind_ok _ _ _ _ _
    (backfill_row_preview _ _ _ _ _ _ _ _ Happ (Hsame k ltac:(left)) H1)).
  apply distinct_keys_cons in Hd as [Hd Hother].
  pose proof (backfill_row_dry_run _ _ _ _ _ _ _ H1) as Hdry1. rewrite Hdry in Hdry1.
  apply (backfill_row_applied _ _ all) in H1 as (_ & [Happ1 _] & _ & Hkeep);
    [|done|apply Hsub; left|done].
  eapply (IH acc1 w1); [intros x Hx; apply Hsub; by right|done|done|congruence| |done].
  intros k' Hk' key Hkey. rewrite Hkeep by (by eapply Hother).
  by apply (Hsame k'); [right|].
Qed.

Lemma backfill_row_preserves c ctx acc k : preserves (history_ok ∘ w_db) (backfill_row c ctx acc k).
Proof.
  apply preserves_atomic. apply preserves_bind; [apply reads_preserves, load_row_reads|].
  intros r. solve_preserves.
Qed.

Lemma backfill_ok c select_pks dry bs w r w' :
  backfill c select_pks dry bs w = (Ok r, w') →
  ∃ ctx, w_current w = Some ctx ∧ (1 ≤ bs)%Z ∧
    for_fold (select_pks (db_app (w_db w)) (scope ctx))
      {| examined := 0; pending := 0; created := 0; skipped := 0; dry_run := dry |}
      (backfill_row c ctx) w = (Ok r, w').
Proof.
  unfold backfill. intros H.
  apply bind_ok_inv in H as (ctx & w1 & H1 & H). apply the_context_ok in H1 as [-> Hctx].
  apply bind_ok_inv in H as ([] & w1 & H1 & H).
  apply raise_if_ok in H1 as [Hb%bool_decide_eq_false_1 ->].
  apply bind_ok_inv in H as (pks & w1 & H1 & H). apply gets_ok in H1 as [-> ->].
  exists ctx. split_and!; [done|lia|done].
Qed.

Lemma backfill_run c select_pks dry bs w ctx :
  w_current w = Some ctx → (1 ≤ bs)%Z →
  backfill c select_pks dry bs w =
    for_fold (select_pks (db_app (w_db w)) (scope ctx))
      {| examined := 0; pending := 0; created := 0; skipped := 0; dry_run := dry |}
      (backfill_row c ctx) w.
Proof.
  intros Hctx Hbs. unfold backfill, the_context, current_context, gets.
  unfold mbind, prog_bind. rewrite Hctx. unfold raise_if, mret, prog_ret.
  by rewrite bool_decide_eq_false_2 by lia.
Qed.

(** ** Restore, run *)

Lemma restore_target_reads c k r rev erev : reads (restore_target c k r rev erev).
Proof.
  unfold restore_target, conflict. apply reads_bind; [apply resource_reads|]. intros found.
  destruct found as [[? res]|]; [|apply reads_raise].
  destruct (negb _); [apply reads_raise|].
  apply reads_bind; [apply verify_history_reads|]. intros v.
  destruct (negb _); [apply reads_raise|].
  apply reads_bind; [apply history_reads|]. intros l. solve_reads.
Qed.

Lemma history_ok_run c k w l w' :
  history c k w = (Ok l, w') →
  w' = w ∧ ∃ ctx key, w_current w = Some ctx ∧ history_key c k = Ok key ∧
    l = match db_resources (w_db w) !! key with Some _ => events_of (w_db w) key | None => [] end ∧
    (∀ res, db_resources (w_db w) !! key = Some res → history_in_scope c res ctx).
Proof.
  intros H. pose proof (reads_run _ _ _ _ (history_reads _ _) H) as ->. split; [done|].
  unfold history in H. apply bind_ok_inv in H as (found & w1 & H1 & H).
  apply resource_ok in H1 as (-> & ctx & key & Hctx & Hkey & -> & Hin).
  exists ctx, key. split_and!; [done..| |done].
  destruct (db_resources (w_db w) !! key) as [res|]; simpl in H.
  - by apply gets_ok in H as [-> _].
  - by apply mret_ok in H as [-> _].
Qed.

(** All the conditions under which [restore] goes back to [after]. *)
Definition restorable (c : Registration) (d : database A) (ctx : ScopeContext) (k : pyval) (r : row)
  (revision expected : nat) (key : resource_key) (after : snapshot_dict) : Prop :=
  history_key c k = Ok key ∧
  ∃ res head e, db_resources d !! key = Some res ∧ r_revision res = expected ∧
    history_in_scope c res ctx ∧ head_ok key res (events_of d key) ∧
    last (events_of d key) = Some head ∧ snapshot c (Some r) = Ok (e_after head) ∧
    e ∈ events_of d key ∧ e_revision e = revision ∧ e_after e = Some after ∧
    dom after = list_to_set (fields c).

Lemma restore_target_ok c k r rev erev w after w' :
  restore_target c k r rev erev w = (Ok after, w') →
  w' = w ∧ ∃ ctx key, w_current w = Some ctx ∧ restorable c (w_db w) ctx k r rev erev key after.
Proof.
  intros H. pose proof (reads_run _ _ _ _ (restore_target_reads _ _ _ _ _) H) as ->.
  split; [done|]. unfold restore_target, conflict in H.
  apply bind_ok_inv in H as (found & w1 & H1 & H).
  apply resource_ok in H1 as (-> & ctx & key & Hctx & Hkey & -> & Hin).
  exists ctx, key. split; [done|]. split; [done|].
  destruct (db_resources (w_db w) !! key) as [res|] eqn:Hres; [|done]. simpl in H.
  destruct (Nat.eqb_spec (r_revision res) erev) as [Hrev|]; [|done]. simpl in H.
  apply bind_ok_inv in H as (v & w1 & H1 & H).
  apply verify_history_ok in H1 as (-> & ? & key' & _ & Hkey' & ->).
  assert (key' = key) as -> by congruence. rewrite Hres in H.
  destruct (v_valid _) eqn:Hvalid; [|done]. apply verify_chain_valid in Hvalid. simpl in H.
  apply bind_ok_inv in H as (l & w1 & H1 & H).
  apply history_ok_run in H1 as (-> & ? & key' & _ & Hkey'' & -> & _).
  assert (key' = key) as -> by congruence. rewrite Hres in H.
  destruct (last (events_of (w_db w) key)) as [head|] eqn:Hlast; [|done].
  apply bind_ok_inv in H as (cur & w1 & H1 & H). apply lift_ok in H1 as [Hcur ->].
  case_bool_decide as Hhead; [|done]. simpl in H.
  destruct (find _ _) as [e|] eqn:Hfind; [|done]. simpl in H.
  apply find_Some_elem in Hfind as [He Hrev'%Nat.eqb_eq].
  destruct (e_after e) as [a|] eqn:Ha; [|done].
  case_bool_decide as Hdom; [|done]. apply mret_ok in H as [-> _].
  subst cur. exists res, head, e. split_and!; auto.
Qed.

(** Whether [restore] leaves a field alone. *)
Definition fixed_field (c : Registration) (name : string) : bool :=
  bool_decide (name = scope_field c) || f_is_relation (get_field (rg_model c) name).

Definition attname_of (c : Registration) (name : string) : string :=
  f_attname (get_field (rg_model c) name).

Lemma restore_fields_ok c target names r ups r' ups' :
  restore_fields c target names r ups = Ok (r', ups') →
  pk r' = pk r ∧ ups' = ups ++ filter (λ n, fixed_field c n = false) names ∧
  (∀ a, (∀ n, n ∈ names → fixed_field c n = false → attname_of c n ≠ a) →
    getattr r' a = getattr r a) ∧
  (NoDup (attname_of c <$> names) →
   ∀ n, n ∈ names → fixed_field c n = false →
    to_python (f_target (get_field (rg_model c) n)) (default JNull (target !! n)) =
      Ok (getattr r' (attname_of c n))).
Proof.
  revert r ups. induction names as [|n names IH]; intros r ups H.
  { injection H as <- <-. rewrite app_nil_r. split_and!; [done..|]. intros _ n ?%not_elem_of_nil. done. }
  cbn [restore_fields] in H. fold (fixed_field c n) in H.
  rewrite filter_cons. destruct (fixed_field c n) eqn:Hn.
  - rewrite decide_False by done.
    destruct (snapshot c (Some r)) as [cur|]; [|done]. simpl in H. case_bool_decide; [|done].
    apply IH in H as (Hpk & Hu & Hsame & Hset). split_and!; [done..| |].
    + intros a Ha. apply Hsame. intros m Hm. apply Ha. by right.
    + cbn. intros [_ Hnd]%NoDup_cons m [->|Hm]%elem_of_cons Hf; [congruence|]. by apply Hset.
  - rewrite decide_True by done.
    destruct (to_python _ _) as [v|] eqn:Hv; [|done]. simpl in H.
    apply IH in H as (Hpk & Hu & Hsame & Hset). split_and!; [done| | |].
    + by rewrite Hu, <-app_assoc.
    + intros a Ha. rewrite Hsame by (intros m Hm; apply Ha; by right).
      unfold getattr, setattr. simpl. rewrite lookup_insert_ne; [done|]. apply Ha; [left|done].
    + cbn. intros [Hnin Hnd]%NoDup_cons m [->|Hm]%elem_of_cons Hf; [|by apply Hset].
      rewrite Hsame.
      * rewrite Hv. unfold getattr, setattr, attname_of. simpl. by rewrite lookup_insert_eq.
      * intros n' Hn' _ Heq. apply Hnin. rewrite <-Heq. by apply list_elem_of_fmap_2.
Qed.

(** [restore] up to its save, and after it. *)
Lemma restore_ok c save k rev erev w r' w' :
  restore c save k rev erev w = (Ok r', w') →
  ∃ ctx x s key after y ups w1, w_current w = Some ctx ∧ k ≠ PNone ∧
    row_by_pk (db_app (w_db w)) (label (rg_model c)) k = Some x ∧ check_scope c x ctx = Ok s ∧
    restorable c (w_db w) ctx k x rev erev key after ∧
    restore_fields c after (fields c) x [] = Ok (y, ups) ∧ ups ≠ [] ∧
    save y ups (set_action (Some (label (rg_model c), pk y, "restore")) w) = (Ok r', w1) ∧
    w' = set_action (w_action w) w1.
Proof.
  unfold restore. intros H.
  apply bind_ok_inv in H as (ctx & w1 & H1 & H). apply the_context_ok in H1 as [-> Hctx].
  rewrite atomic_ok in H. apply bind_ok_inv in H as (found & w1 & H1 & H).
  apply load_row_ok in H1 as [-> Hx]. destruct found as [x|]; [|done].
  case_bool_decide as Hk; [done|].
  apply bind_ok_inv in H as (s & w1 & H1 & H). apply lift_ok in H1 as [Hs ->].
  apply bind_ok_inv in H as (after & w1 & H1 & H).
  apply restore_target_ok in H1 as (-> & ctx' & key & Hctx' & Hr).
  apply bind_ok_inv in H as ([y ups] & w1 & H1 & H). apply lift_ok in H1 as [Hf ->].
  apply bind_ok_inv in H as ([] & w1 & H1 & H).
  apply raise_if_ok in H1 as [Hu%bool_decide_eq_false_1 ->].
  apply bind_ok_inv in H as (old & w1 & H1 & H). apply gets_ok in H1 as [-> ->].
  apply bind_ok_inv in H as ([] & w1 & H1 & H). apply modify_ok in H1 as ->.
  unfold finally, set_action_var, modify in H. simpl in Hu, H.
  destruct (save _ _ _) as [r w2] eqn:Hsave. simplify_eq.
  exists ctx, x, s, key, after, y, ups, w2. split_and!; try done.
Qed.

(** The action override of the caller, kept by both exits. *)
Definition same_action : relation (world (database A)) := λ w w', w_action w' = w_action w.

#[export] Instance same_action_preorder : PreOrder same_action.
Proof. split; unfold same_action; [done|]. intros ??? H1 H2. congruence. Qed.

Lemma atomic_same_action {R} (m : py (database A) R) :
  respects same_action m → respects same_action (atomic m).
Proof.
  intros Hm w. specialize (Hm w). rewrite atomic_spec.
  destruct (m w) as [[?|?] w']; [done|]. by destruct w'.
Qed.

Lemma action_bracket {R} a (m : py (database A) R) :
  respects same_action
    (old ← gets w_action; set_action_var a ;; finally m (set_action_var old)).
Proof.
  intros w. unfold gets, set_action_var, modify, finally, mbind, prog_bind.
  by destruct (m _) as [r w'].
Qed.

Lemma restore_same_action c save k rev erev : respects same_action (restore c save k rev erev).
Proof.
  unfold restore, conflict.
  apply respects_bind; [exact _|apply reads_respects; [exact _|apply the_context_reads]|].
  intros ctx. apply atomic_same_action.
  apply respects_bind; [exact _|apply reads_respects; [exact _|apply load_row_reads]|].
  intros [x|]; [|respects_step].
  respects_step; [respects_step|]. respects_step; [apply reads_respects; [exact _|apply restore_target_reads]|].
  respects_step; [respects_step|]. respects_step; [respects_step|]. apply action_bracket.
Qed.

Lemma restore_raise_db c save k rev erev w e w' :
  restore c save k rev erev w = (Raise e, w') → w_db w' = w_db w.
Proof.
  unfold restore. rewrite run_bind.
  destruct (the_context w) as [[ctx|e'] w1] eqn:H1; last first.
  { intros [= _ <-]. by rewrite (reads_run _ _ _ _ the_context_reads H1). }
  apply the_context_ok in H1 as [-> _]. apply atomic_raise_db.
Qed.

(** ** Theorems *)

(** C7: Verification reads without writing and accepts a history exactly when it
    is an intact hash chain (consecutive revisions, matching digests, one
    scope) whose length and last digest the head records; histories that only
    the package wrote always verify, with their event count. *)
Theorem verify_history_exact c k w v w' :
  verify_history c k w = (Ok v, w') →
  w' = w ∧ ∃ key, history_key c k = Ok key ∧
    (v_valid v = true ↔
      ∃ res, db_resources (w_db w) !! key = Some res ∧ head_ok key res (events_of (w_db w) key)) ∧
    (history_ok (w_db w) → is_Some (db_resources (w_db w) !! key) →
      v = {| v_valid := true; v_events := length (events_of (w_db w) key); v_detail := "" |}).
Proof.
  intros (-> & ctx & key & _ & Hkey & ->)%verify_history_ok. split; [done|].
  exists key. split; [done|]. destruct (db_resources (w_db w) !! key) as [res|] eqn:Hres.
  - split.
    + rewrite verify_chain_valid. naive_solver.
    + intros Hok _. assert (Hhead : head_ok key res (events_of (w_db w) key)).
      { rewrite events_of_intact by done. specialize (Hok key). by rewrite Hres in Hok. }
      pose proof (proj2 (verify_chain_valid _ _ _) Hhead) as Hv.
      unfold verify_chain in *. by repeat case_match.
  - split; [naive_solver|]. by intros _ [? ?].
Qed.

(** Rewriting events under a retained head is detected: if two databases
    hold the same head (revision and digest) for a history and both verify,
    they hold the same events, unless two different payloads collide under
    SHA-256. *)
Theorem tamper_evident c k w1 w2 v1 v2 key res1 res2 :
  history_key c k = Ok key →
  db_resources (w_db w1) !! key = Some res1 → db_resources (w_db w2) !! key = Some res2 →
  r_revision res1 = r_revision res2 → r_digest res1 = r_digest res2 →
  verify_history c k w1 = (Ok v1, w1) → verify_history c k w2 = (Ok v2, w2) →
  v_valid v1 = true → v_valid v2 = true →
  events_of (w_db w1) key = events_of (w_db w2) key ∨ digest_collision.
Proof.
  intros Hkey H1 H2 Hrev Hdig Hv1 Hv2 Hvalid1 Hvalid2.
  apply verify_history_ok in Hv1 as (_ & ? & key1 & _ & Hkey1 & ->).
  apply verify_history_ok in Hv2 as (_ & ? & key2 & _ & Hkey2 & ->).
  rewrite Hkey in Hkey1, Hkey2. simplify_eq. rewrite H1 in Hvalid1. rewrite H2 in Hvalid2.
  apply verify_chain_valid in Hvalid1 as (Hc1 & Hl1 & Hd1).
  apply verify_chain_valid in Hvalid2 as (Hc2 & Hl2 & Hd2).
  eapply chain_determined; [congruence|congruence|done|done].
Qed.

(** History is read only by its own scope: a read that returns ran in a
    context whose scope equals the history's and returned all its events in
    revision order; without a context it raises MissingContext, from another
    scope ScopeViolation. *)
Theorem history_authorized c k w :
  (∀ l w', history c k w = (Ok l, w') →
    w' = w ∧ ∃ ctx key, w_current w = Some ctx ∧ history_key c k = Ok key ∧
      (∀ res, db_resources (w_db w) !! key = Some res →
        history_in_scope c res ctx ∧ l ≡ₚ default [] (db_events (w_db w) !! key) ∧
        StronglySorted (leb_rel by_revision) l) ∧
      (db_resources (w_db w) !! key = None → l = [])) ∧
  (w_current w = None → history c k w = (Raise MissingContext, w)) ∧
  (∀ ctx key res a b, w_current w = Some ctx → history_key c k = Ok key →
    db_resources (w_db w) !! key = Some res →
    scope_to_python c (r_scope res) = Ok a → scope_to_python c (scope ctx) = Ok b → a ≠ b →
    history c k w = (Raise (ScopeViolation "History belongs to another scope."), w)).
Proof.
  split_and!.
  - intros l w' (-> & ctx & key & Hctx & Hkey & -> & Hin)%history_ok_run.
    split; [done|]. exists ctx, key. split_and!; [done..| |by intros ->].
    intros res Hres. rewrite Hres. split_and!; [by apply Hin|apply sort_by_perm|].
    apply sort_by_sorted; unfold by_revision.
    + intros x y. rewrite !Nat.leb_le. lia.
    + intros x y z. rewrite !Nat.leb_le. lia.
  - intros Hn. unfold history, _resource. by rewrite !run_bind, the_context_none.
  - intros ctx key res a b Hctx Hkey Hres Ha Hb Hne.
    unfold history, _resource, the_context, current_context, gets, lift, mbind, prog_bind.
    rewrite Hctx. unfold mret, prog_ret. rewrite Hkey, Hres, Ha, Hb.
    by rewrite bool_decide_eq_false_2.
Qed.

(** Backfill is resumable and idempotent: an applied run leaves the
    application's rows as they are, keeps histories intact and only extends
    them, settles every selected row (its counts add up), and running it again
    creates nothing and changes nothing. *)
Theorem backfill_idempotent c select_pks bs w r w' ctx :
  w_current w = Some ctx → keyed c (select_pks (db_app (w_db w)) (scope ctx)) →
  backfill c select_pks false bs w = (Ok r, w') →
  let pks := select_pks (db_app (w_db w)) (scope ctx) in
  db_app (w_db w') = db_app (w_db w) ∧ extends (w_db w) (w_db w') ∧
  (history_ok (w_db w) → history_ok (w_db w')) ∧
  (∀ k, k ∈ pks → settled c (w_db w') k) ∧
  examined r = length pks ∧ created r = pending r ∧ pending r + skipped r = examined r ∧
  backfill c select_pks false bs w' =
    (Ok {| examined := length pks; pending := 0; created := 0; skipped := length pks;
           dry_run := false |}, w').
Proof.
  intros Hctx Hkeyed H. set (pks := select_pks _ _). cbn zeta.
  apply backfill_ok in H as (ctx' & Hctx' & Hbs & H).
  rewrite Hctx in Hctx'. injection Hctx' as <-. fold pks in H, Hkeyed.
  pose proof H as Hrun.
  apply (backfill_loop_applied _ _ _ pks) in Hrun as (Hcur & [Happ Hext] & Hset); [|done..].
  destruct (backfill_loop_counts _ _ _ _ _ _ _ H) as (_ & He & Hp & Hc). simpl in *.
  split_and!; try done; [| |lia|lia|lia|].
  - intros Hok. change (w_db w') with (w_db (Ok r, w').2). rewrite <-H.
    by apply (preserves_for_fold (history_ok ∘ w_db)); [intros; apply backfill_row_preserves|].
  - intros k Hk. by apply Hset.
  - rewrite (backfill_run _ _ _ _ _ ctx), Happ by (done || congruence). fold pks.
    rewrite backfill_loop_settled; [|intros k Hk; rewrite Happ; by apply Hset].
    unfold skip_all. simpl. by rewrite Nat.add_0_r.
Qed.

(** A dry run writes nothing and previews exactly: when an applied run returns,
    the dry run from the same state reports the same numbers of examined,
    pending and skipped rows, with none created. *)
Theorem backfill_preview_exact c select_pks bs w r w' ctx :
  w_current w = Some ctx →
  keyed c (select_pks (db_app (w_db w)) (scope ctx)) →
  distinct_keys c (select_pks (db_app (w_db w)) (scope ctx)) →
  backfill c select_pks false bs w = (Ok r, w') →
  backfill c select_pks true bs w =
    (Ok {| examined := examined r; pending := created r; created := 0; skipped := skipped r;
           dry_run := true |}, w).
Proof.
  intros Hctx Hkeyed Hd H. apply backfill_ok in H as (ctx' & Hctx' & Hbs & H).
  rewrite Hctx in Hctx'. injection Hctx' as <-.
  rewrite (backfill_run _ _ _ _ _ ctx) by done.
  destruct (backfill_loop_counts _ _ _ _ _ _ _ H) as (_ & _ & _ & Hc). simpl in Hc.
  apply (backfill_loop_preview _ _ _ _ _ _ _ _ w Hkeyed) in H as Hpre; [|done..].
  unfold dry_of in Hpre. simpl in Hpre. rewrite Hpre. do 3 f_equal. lia.
Qed.

(** C8: A restore that returns went back to a recorded state of a live row in
    scope: the expected revision was current, the history verified and its head
    equalled the row's state; every registered scalar field of the saved row has
    the recorded value, scope and relation columns are untouched; the save is
    recorded as one new restore event on top of the retained history, and the
    caller's action override is back. *)
Theorem restore_audited rs c write k rev erev w r' w' :
  (∀ ups, plain_method (write ups)) →
  (∀ ups i w j w1, write ups i w = (Ok j, w1) → pk j = pk i) →
  restore c (λ r ups, wrap_method (save_base rs c (write ups) false) r) k rev erev w = (Ok r', w') →
  ∃ ctx x y ups key after w1,
    w_current w = Some ctx ∧ row_by_pk (db_app (w_db w)) (label (rg_model c)) k = Some x ∧
    restorable c (w_db w) ctx k x rev erev key after ∧ pk y = pk x ∧
    (NoDup (attname_of c <$> fields c) → ∀ n, n ∈ fields c → fixed_field c n = false →
      to_python (f_target (get_field (rg_model c) n)) (default JNull (after !! n)) =
        Ok (getattr y (attname_of c n))) ∧
    (∀ a, (∀ n, n ∈ fields c → fixed_field c n = false → attname_of c n ≠ a) →
      getattr y a = getattr x a) ∧
    write ups y (set_action (Some (label (rg_model c), pk y, "restore")) w) = (Ok r', w1) ∧
    ups = filter (λ n, fixed_field c n = false) (fields c) ∧
    w_action w' = w_action w ∧ db_app (w_db w') = db_app (w_db w1) ∧
    ∃ a key' e, row_by_pk (db_app (w_db w1)) (label (rg_model c)) (pk r') = Some a ∧
      resource_key_of c a = Ok key' ∧
      default [] (db_events (w_db w') !! key') = default [] (db_events (w_db w) !! key') ++ [e] ∧
      snapshot c (Some a) = Ok (e_after e) ∧ e_actor e = actor ctx ∧ e_action e = "restore".
Proof.
  intros Hplain Hpk H.
  apply restore_ok in H as (ctx & x & s & key & after & y & ups & w2 & Hctx & Hk & Hx & _ & Hr & Hf
    & _ & Hsave & ->).
  apply restore_fields_ok in Hf as (Hpky & Hups & Hsame & Hset).
  set (w0 := set_action _ w) in *.
  apply wrap_method_ok, save_base_ok in Hsave as (ctx' & bs & w1 & _ & Hctx' & _ & Hw & Has).
  assert (ctx' = ctx) as -> by (unfold w0 in Hctx'; simpl in Hctx'; congruence).
  apply after_save_ok in Has as (a & aft & e & _ & Ha & Haft & Happ & _).
  pose proof (Hplain ups y w0) as (Hres & Hev & _ & Hact). pose proof (Hpk _ _ _ _ _ Hw) as Hpk'.
  rewrite Hw in Hres, Hev, Hact. simpl in *.
  apply append_event_ok in Happ as (key' & sc & Hkey' & _ & _ & -> & ->).
  exists ctx, x, y, ups, key, after, w1. split_and!; try done.
  match goal with |- context [appended _ _ _ ?e] => exists a, key', e end.
  split_and!; [done|done| |done|done|].
  - simpl. rewrite lookup_insert_eq. simpl. by rewrite Hev.
  - simpl. rewrite Hact. unfold save_action. by rewrite bool_decide_eq_true_2 by congruence.
Qed.

(** A restore that is refused or fails changes nothing: the database and the
    action override are as they were, whatever raised; a deleted row is never
    resurrected. *)
Theorem restore_all_or_nothing c save k rev erev w :
  (∀ e w', restore c save k rev erev w = (Raise e, w') →
    w_db w' = w_db w ∧ w_action w' = w_action w) ∧
  (∀ ctx, w_current w = Some ctx →
    k = PNone ∨ row_by_pk (db_app (w_db w)) (label (rg_model c)) k = None →
    (restore c save k rev erev w).1 =
      Raise (HistoryConflict "Deleted/missing rows cannot be resurrected by restore().")).
Proof.
  split.
  - intros e w' H. split; [by eapply restore_raise_db|].
    pose proof (restore_same_action c save k rev erev w) as Ha. by rewrite H in Ha.
  - intros ctx Hctx Hmiss. unfold restore. rewrite (run_bind_ok _ _ w ctx w), atomic_outcome
      by (unfold the_context, current_context, gets, mbind, prog_bind; by rewrite Hctx).
    rewrite run_bind. unfold load_row, gets. case_bool_decide; [done|].
    destruct Hmiss as [?|Hm]; [done|]. by rewrite Hm.
Qed.
End HistoryTheory.

#[export] Hint Resolve resource_reads history_reads verify_history_reads : reads.
