(* ===== verification/Queries.v ===== *)
(** * Scoped querysets (pyscoped/query.py)

    The context binding of querysets and queries, their combinators, the audited
    bulk writes, the scope predicate of joins, and the default manager. *)

From S2P Require Import Prelude Context Registry Models AuditTrail Writes.

(** What the querysets use of Django besides [Django]: the rows of a model in
    primary key order; primary keys are unique. *)
Class DjangoTables (A : Type) := {
  table : A → string → list row;
  table_pk_unique : ∀ a m, NoDup (pk <$> table a m);
}.

(** ** Queries and querysets *)

(** A [_ScopedQuery]: the context it carries, the rows its WHERE selects, the
    queries nested in it (subqueries, and the parts of a UNION, INTERSECT or
    EXCEPT), and what [_mutation_config] asks of it. *)
#[local] Set Warnings "-register-all".

Inductive query (A : Type) := Query {
  q_scope_context : option ScopeContext;
  q_where : A → row → bool;
  q_nested : list (query A);
  is_sliced : bool;
  combinator : bool;
}.
Arguments Query {A} _ _ _ _ _.
Arguments q_scope_context {A} _.
Arguments q_where {A} _.
Arguments q_nested {A} _.
Arguments is_sliced {A} _.
Arguments combinator {A} _.

(** A [ScopedQuerySet] of a model: [qs_values] is [_fields is not None]. *)
Record queryset (A : Type) := Queryset {
  _scope_context : option ScopeContext;
  qs_query : query A;
  qs_values : bool;
  _result_cache : option (list row);
}.
Arguments Queryset {A} _ _ _ _.
Arguments _scope_context {A} _.
Arguments qs_query {A} _.
Arguments qs_values {A} _.
Arguments _result_cache {A} _.

Inductive bool_op := Q_or | Q_and | Q_xor.
Inductive set_op := Q_union | Q_intersection | Q_difference.

Section Queries.
Context {A : Type} `{!Django A} `{!DjangoTables A}.
Implicit Types (w : world (database A)).

(** [_ScopedQuery.check_context]. *)
Definition query_check_context (q : query A) : py (database A) unit :=
  match q_scope_context q with
  | None => mret tt
  | Some sc =>
      ctx ← the_context;
      raise_if (negb (same_object (Some ctx) (Some sc)))
        (ScopeViolation "A query/subquery cannot escape its originating scope context.")
  end.

(** Compiling a query to SQL: [get_compiler] and [_CheckedCompiler.as_sql] check
    it, and compiling the queries nested in it checks those. *)
Fixpoint compile (q : query A) : py (database A) unit :=
  query_check_context q ;;
  (fix all (l : list (query A)) : py (database A) unit :=
     match l with
     | [] => mret tt
     | s :: l' => compile s ;; all l'
     end) (q_nested q).

(** Running a compiled query. *)
Definition run_query (c : Registration) (q : query A) : py (database A) (list row) :=
  compile q ;;
  gets (λ w, filter (λ r, q_where q (db_app (w_db w)) r = true)
               (table (db_app (w_db w)) (label (rg_model c)))).

(** [ScopedQuerySet._check_context]. *)
Definition _check_context (c : Registration) (qs : queryset A) : py (database A) unit :=
  match rg_mode c with
  | Enforce =>
      ctx ← the_context;
      raise_if (negb (same_object (Some ctx) (_scope_context qs)))
        (ScopeViolation "Evaluate a scoped queryset within the context that created it.")
  | Audit => mret tt
  end.

(** [_fetch_all]: the result cache is filled once, the context is checked every
    time. *)
Definition _fetch_all (c : Registration) (qs : queryset A)
  : py (database A) (queryset A * list row) :=
  _check_context c qs ;;
  match _result_cache qs with
  | Some rows => mret (qs, rows)
  | None =>
      rows ← run_query c (qs_query qs);
      mret (Queryset (_scope_context qs) (qs_query qs) (qs_values qs) (Some rows), rows)
  end.

(** [count], [exists], [aggregate] and [create]: the check, then Django's own. *)
Definition checked_call {R} (c : Registration) (qs : queryset A) (super : py (database A) R)
  : py (database A) R :=
  _check_context c qs ;; super.

(** [iterator] and [aiterator]: a generator that checks before it starts and
    again before each item it yields. *)
Inductive iter_state := It_start | It_rows (rest : list row).

Definition iter_next (c : Registration) (qs : queryset A) (st : iter_state)
  : py (database A) (option row * iter_state) :=
  rest ← match st with
         | It_start => _check_context c qs ;; run_query c (qs_query qs)
         | It_rows rest => mret rest
         end;
  match rest with
  | [] => mret (None, It_rows [])
  | r :: rest' => _check_context c qs ;; mret (Some r, It_rows rest')
  end.

(** ** Derived querysets *)

(** [_clone] with another query. *)
Definition _clone (qs : queryset A) (q : query A) : queryset A :=
  Queryset (_scope_context qs) q (qs_values qs) None.

(** [filter]/[exclude]: Django ANDs the condition, whose subqueries are nested. *)
Definition filter_qs (qs : queryset A) (p : A → row → bool) (nested : list (query A)) : queryset A :=
  let q := qs_query qs in
  _clone qs (Query (q_scope_context q) (λ a r, q_where q a r && p a r) (q_nested q ++ nested)
               (is_sliced q) (combinator q)).

(** A second argument of a combinator: [other], a ScopedQuerySet or not. *)
Inductive operand := Scoped (qs : queryset A) | Unscoped.

Definition _check_other (c : Registration) (qs : queryset A) (other : operand)
  : py (database A) (queryset A) :=
  _check_context c qs ;;
  match other with
  | Unscoped => raise (UnsupportedOperation "Combine only scoped querysets.")
  | Scoped o => _check_context c o ;; mret o
  end.

Definition bool_op_holds (op : bool_op) (a b : bool) : bool :=
  match op with Q_or => a || b | Q_and => a && b | Q_xor => xorb a b end.

(** [|], [&], [^]: Query.combine merges the other WHERE into a clone. *)
Definition combine (c : Registration) (op : bool_op) (qs : queryset A) (other : operand)
  : py (database A) (queryset A) :=
  o ← _check_other c qs other;
  let q := qs_query qs in let p := qs_query o in
  mret (_clone qs (Query (q_scope_context q)
    (λ a r, bool_op_holds op (q_where q a r) (q_where p a r))
    (q_nested q ++ q_nested p) (is_sliced q) (combinator q))).

Fixpoint check_others (c : Registration) (qs : queryset A) (others : list operand)
  : py (database A) (list (queryset A)) :=
  match others with
  | [] => mret []
  | x :: l => o ← _check_other c qs x; os ← check_others c qs l; mret (o :: os)
  end.

Definition set_op_holds (op : set_op) (a : bool) (bs : list bool) : bool :=
  match op with
  | Q_union => a || existsb id bs
  | Q_intersection => a && forallb id bs
  | Q_difference => a && negb (existsb id bs)
  end.

(** [union], [intersection], [difference]. *)
Definition combine_all (c : Registration) (op : set_op) (qs : queryset A) (others : list operand)
  : py (database A) (queryset A) :=
  os ← check_others c qs others;
  let q := qs_query qs in
  mret (_clone qs (Query (q_scope_context q)
    (λ a r, set_op_holds op (q_where q a r) ((λ o, q_where (qs_query o) a r) <$> os))
    (q :: (qs_query <$> os)) (is_sliced q) true)).

Definition extra : py (database A) (queryset A) :=
  raise (UnsupportedOperation "extra() embeds unscoped SQL; use normal scoped queries.").

Definition raw : py (database A) (queryset A) :=
  raise (UnsupportedOperation "Raw queries bypass scoping. Use the scoped queryset API.").

(** [ScopedManager.get_queryset] on the manager's class of queryset. *)
Definition get_queryset (c : Registration) (is_scoped_class : bool)
  : py (database A) (queryset A) :=
  raise_if (negb is_scoped_class)
    (UnsupportedOperation "Custom querysets must inherit ScopedQuerySet.") ;;
  let all ctx := Queryset ctx (Query ctx (λ _ _, true) [] false false) false None in
  match rg_mode c with
  | Audit => mret (all None)
  | Enforce =>
      ctx ← the_context;
      v ← lift (scope_to_python c (scope ctx));
      mret (filter_qs (all (Some ctx))
        (λ _ r, bool_decide (getattr r (scope_attname c) = v)) [])
  end.

(** ** Bulk writes *)

(** [_mutation_config]: the names are the columns the write sets. *)
Definition _mutation_config (c : Registration) (qs : queryset A) (names : list string)
  : py (database A) unit :=
  _check_context c qs ;;
  the_context ;;
  raise_if (existsb (λ n, bool_decide (n ∈ [scope_field c; scope_attname c; "pk"; m_pk_name (rg_model c)])) names)
    (UnsupportedOperation "Queryset mutations cannot change primary keys or scope.") ;;
  raise_if (is_sliced (qs_query qs) || combinator (qs_query qs) || qs_values qs)
    (UnsupportedOperation "Mutation requires an unsliced, uncombined model queryset.").

(** The dict [{row.pk: snapshot(config, row) for row in rows}]. *)
Definition snapshots (c : Registration) (rows : list row)
  : outcome (list (pyval * option snapshot_dict)) :=
  mapM (λ r, pair (pk r) <$> snapshot c (Some r)) rows.

Definition before_get (before : list (pyval * option snapshot_dict)) (k : pyval)
  : option snapshot_dict :=
  find (λ x, bool_decide (x.1 = k)) before ≫= snd.

Definition record_row (rs : rstate) (c : Registration) (before : list (pyval * option snapshot_dict))
  (action : string) (ctx : ScopeContext) (k : pyval) : py (database A) unit :=
  found ← load_row (rg_model c) k;
  match found with
  | None => raise (UnsupportedOperation "A bulk mutation did not leave the expected persisted row.")
  | Some r =>
      lift (check_scope c r ctx) ;;
      check_relations rs c r ctx ;;
      after ← lift (snapshot c (Some r));
      append_event c r action (before_get before k) after ctx ;;
      mret tt
  end.

Definition _record_bulk (rs : rstate) (c : Registration)
  (before : list (pyval * option snapshot_dict)) (keys : list pyval) (action : string)
  : py (database A) unit :=
  ctx ← the_context;
  for_each keys (record_row rs c before action ctx).

(** [update(kwargs)]: [native] is Django's update of the rows with these keys. *)
Definition update (rs : rstate) (c : Registration) (qs : queryset A) (names : list string)
  (native : list pyval → py (database A) nat) : py (database A) nat :=
  _mutation_config c qs names ;;
  if bool_decide (names = []) then mret 0
  else atomic (
    found ← _fetch_all c (_clone qs (qs_query qs));
    before ← lift (snapshots c found.2);
    count ← native before.*1;
    _record_bulk rs c before before.*1 "update" ;;
    mret count).

(** [delete]: [super_delete] collects the rows and sends pre_delete for each. *)
Definition delete {R} (c : Registration) (qs : queryset A) (super_delete : py (database A) R)
  : py (database A) R :=
  _check_context c qs ;; the_context ;; atomic super_delete.

(** [bulk_create]: [native] inserts the objects and returns them with their
    primary keys. *)
Definition bulk_create (rs : rstate) (c : Registration) (qs : queryset A) (objs : list row)
  (conflict_options : bool) (native : list row → py (database A) (list row))
  : py (database A) (list row) :=
  _mutation_config c qs [] ;;
  raise_if conflict_options (UnsupportedOperation
    "Conflict-handling bulk inserts need an explicit app workflow.") ;;
  ctx ← the_context;
  atomic (
    for_each objs (λ o, lift (check_scope c o ctx) ;; check_relations rs c o ctx) ;;
    result ← native objs;
    raise_if (existsb (λ o, bool_decide (pk o = PNone)) result)
      (UnsupportedOperation "This backend cannot return bulk-inserted identities.") ;;
    _record_bulk rs c [] (pk <$> result) "create" ;;
    mret result).

Definition has_keys (keys : list pyval) (r : row) : bool := bool_decide (pk r ∈ keys).

Definition bulk_update (rs : rstate) (c : Registration) (qs : queryset A) (objs : list row)
  (names : list string) (native : list pyval → py (database A) nat) : py (database A) nat :=
  _mutation_config c qs names ;;
  raise_if (bool_decide (names = []))
    (ValueError "Field names must be supplied to bulk_update().") ;;
  let keys := pk <$> objs in
  raise_if (existsb (λ k, bool_decide (k = PNone)) keys)
    (ValueError "Every bulk_update object must have a primary key.") ;;
  raise_if (negb (bool_decide (NoDup keys))) (UnsupportedOperation
    "Duplicate bulk_update identities are ambiguous; deduplicate first.") ;;
  ctx ← the_context;
  atomic (
    persisted ← gets (λ w, filter (λ r, has_keys keys r = true)
                             (table (db_app (w_db w)) (label (rg_model c))));
    for_each persisted (λ r, lift (check_scope c r ctx) ;; mret tt) ;;
    selected ← _fetch_all c (filter_qs qs (λ _, has_keys keys) []);
    before ← lift (snapshots c selected.2);
    count ← native before.*1;
    _record_bulk rs c before before.*1 "update" ;;
    mret count).
End Queries.

(** ** Joins *)

(** An entry of [query.alias_map]; [scoped_by] is the context and the scope
    column of a join wrapped as [_ScopedJoin]. *)
Record join := {
  table_name : string;
  table_alias : string;
  parent_alias : option string;
  scoped_by : option (ScopeContext * string);
}.

Abbreviation alias_map := (list (string * join)).

Section Joins.
Context {D : Type}.
(** Of Django: the SQL of a join, the quoting of names, the tables and columns
    of models, the database value of a scope, and which aliases are referenced. *)
Context (join_sql : join → string * list pyval) (quote_alias quote_name : string → string)
  (db_table : model → string) (column : model → string → string)
  (get_db_prep_value : string → pyval) (referenced : string → bool).

(** [_ScopedJoin.as_sql]; a join that is not wrapped renders natively. *)
Definition join_as_sql (j : join) : prog (world D * alias_map) (string * list pyval) :=
  match scoped_by j with
  | None => mret (join_sql j)
  | Some (sc, col) =>
      current ← gets (λ s, w_current s.1);
      raise_if (bool_decide (current = None)) MissingContext ;;
      raise_if (negb (same_object current (Some sc)))
        (ScopeViolation "A joined query cannot escape its scope context.") ;;
      let '(sql, params) := join_sql j in
      mret (sql +:+ " AND " +:+ quote_alias (table_alias j) +:+ "." +:+ quote_name col +:+ " = %s",
            params ++ [get_db_prep_value (scope sc)])
  end.

(** Django's [get_from_clause]: the referenced joins, in alias order. *)
Definition super_get_from_clause : prog (world D * alias_map) (list (string * list pyval)) :=
  m ← gets snd;
  for_fold (filter (λ x, referenced x.1 = true) m) []
    (λ acc x, sql ← join_as_sql x.2; mret (acc ++ [sql])).

(** The config that scopes this join, if any: the last registered enforced
    model on its table, when the join has a parent. *)
Definition join_config (configs : list Registration) (j : join) : option Registration :=
  match parent_alias j with
  | None => None
  | Some p => if bool_decide (p = "") then None else
      find (λ c, bool_decide (db_table (rg_model c) = table_name j)) (rev (filter (λ c, enforced c = true) configs))
  end.

Definition wrap_join (configs : list Registration) (ctx : ScopeContext) (j : join) : option join :=
  (λ c, {| table_name := table_name j; table_alias := table_alias j; parent_alias := parent_alias j;
           scoped_by := Some (ctx, column (rg_model c) (scope_field c)) |}) <$> join_config configs j.

(** [alias_map[alias] = j] for an alias that is there. *)
Definition assign (alias : string) (j : join) (m : alias_map) : alias_map :=
  (λ x, if bool_decide (x.1 = alias) then (x.1, j) else x) <$> m.

Definition update_aliases (l : alias_map) (m : alias_map) : alias_map :=
  foldl (λ m x, assign x.1 x.2 m) m l.

(** [_CheckedCompiler.get_from_clause]. *)
Definition get_from_clause (configs : list Registration) (q_ctx : option ScopeContext)
  : prog (world D * alias_map) (list (string * list pyval)) :=
  match q_ctx with
  | None => super_get_from_clause
  | Some ctx =>
      items ← gets snd;
      originals ← for_fold items [] (λ originals x,
        match wrap_join configs ctx x.2 with
        | Some wrapped => modify (λ s, (s.1, assign x.1 wrapped s.2)) ;; mret (originals ++ [x])
        | None => mret originals
        end);
      finally super_get_from_clause (modify (λ s, (s.1, update_aliases originals s.2)))
  end.
End Joins.

(** ** Lemmas *)

Section QueryTheory.
Context {A : Type} `{!Django A} `{!DjangoTables A}.
Implicit Types (w : world (database A)) (qs : queryset A).

Lemma query_check_context_reads (q : query A) : reads (query_check_context q).
Proof. unfold query_check_context. solve_reads. Qed.

Lemma compile_reads : ∀ q : query A, reads (compile q).
Proof.
  fix IH 1. intros [sc p l sl co]. simpl. apply reads_bind; [apply query_check_context_reads|].
  intros _. clear sc p sl co. induction l as [|s l IHl]; simpl; [apply reads_ret|].
  apply reads_bind; [apply IH|]. intros _. apply IHl.
Qed.

Lemma check_context_reads c qs : reads (_check_context c qs).
Proof. unfold _check_context. solve_reads. Qed.

Lemma fetch_reads c qs : reads (_fetch_all c qs).
Proof.
  unfold _fetch_all, run_query. apply reads_bind; [apply check_context_reads|]. intros _.
  destruct (_result_cache qs); [apply reads_ret|].
  apply reads_bind; [|intros; apply reads_ret].
  apply reads_bind; [apply compile_reads|]. intros _. apply reads_gets.
Qed.

(** An enforced queryset is usable only under the very context object it carries. *)
Lemma check_context_ok c qs w u w' :
  _check_context c qs w = (Ok u, w') →
  w' = w ∧ (rg_mode c = Enforce → ∃ ctx sc, w_current w = Some ctx ∧
    _scope_context qs = Some sc ∧ ctx_id ctx = ctx_id sc).
Proof.
  intros H. pose proof (reads_run _ _ _ _ (check_context_reads _ _) H) as ->. split; [done|].
  intros Hm. unfold _check_context in H. rewrite Hm in H.
  apply bind_ok_inv in H as (ctx & w1 & H1 & H). apply the_context_ok in H1 as [-> Hctx].
  destruct u. apply raise_if_ok in H as [Hs%negb_false_iff _].
  destruct (_scope_context qs) as [sc|] eqn:Hsc; [|done].
  apply bool_decide_eq_true_1 in Hs. eauto.
Qed.

Lemma run_query_ok c (q : query A) w rows w' :
  run_query c q w = (Ok rows, w') →
  w' = w ∧ rows = filter (λ r, q_where q (db_app (w_db w)) r = true)
                    (table (db_app (w_db w)) (label (rg_model c))).
Proof.
  unfold run_query. intros H. apply bind_ok_inv in H as ([] & w1 & H1 & H).
  pose proof (reads_run _ _ _ _ (compile_reads _) H1) as ->. by apply gets_ok in H as [-> ->].
Qed.

Lemma fetch_ok c qs w found w' :
  _fetch_all c qs w = (Ok found, w') →
  _check_context c qs w = (Ok tt, w) ∧ w' = w ∧
  _scope_context found.1 = _scope_context qs ∧ qs_query found.1 = qs_query qs ∧
  _result_cache found.1 = Some found.2 ∧
  match _result_cache qs with
  | Some rows => found.2 = rows
  | None => found.2 = filter (λ r, q_where (qs_query qs) (db_app (w_db w)) r = true)
                        (table (db_app (w_db w)) (label (rg_model c)))
  end.
Proof.
  intros H. pose proof (reads_run _ _ _ _ (fetch_reads _ _) H) as ->.
  unfold _fetch_all in H. apply bind_ok_inv in H as ([] & w1 & H1 & H).
  pose proof (reads_run _ _ _ _ (check_context_reads _ _) H1) as ->.
  destruct (_result_cache qs) as [rows|] eqn:Hc.
  - apply mret_ok in H as [-> _]. by split_and!.
  - apply bind_ok_inv in H as (rows & w1 & H2 & H). apply run_query_ok in H2 as [-> ->].
    apply mret_ok in H as [-> _]. by split_and!.
Qed.

(** ** Every derived queryset stays in its scope *)

(** Context objects are immutable and identified by [ctx_id] while anything
    refers to them: [object i] is the contents of object [i]. *)
Variable object : nat → ScopeContext.

Definition genuine (o : option ScopeContext) : Prop := ∀ x, o = Some x → object (ctx_id x) = x.

(** The row is in the scope that [ctx] selects. *)
Definition selects (c : Registration) (ctx : ScopeContext) (r : row) : Prop :=
  scope_to_python c (scope ctx) = Ok (getattr r (scope_attname c)).

(** What a queryset of an enforced model promises. *)
Definition confined (c : Registration) (qs : queryset A) : Prop :=
  ∃ sc, _scope_context qs = Some sc ∧ object (ctx_id sc) = sc ∧
    q_scope_context (qs_query qs) = Some sc ∧
    (∀ a r, q_where (qs_query qs) a r = true → selects c sc r) ∧
    ∀ rows r, _result_cache qs = Some rows → r ∈ rows → selects c sc r.

(** The querysets a program can get hold of: from the manager, by filtering,
    combining and evaluating, each step at its own time and in its own context. *)
Inductive reachable (c : Registration) : queryset A → Prop :=
  | reach_manager w qs w' b : genuine (w_current w) →
      get_queryset c b w = (Ok qs, w') → reachable c qs
  | reach_filter qs p nested : reachable c qs → reachable c (filter_qs qs p nested)
  | reach_combine op qs other w qs' w' : reachable c qs →
      (∀ o, other = Scoped o → reachable c o) → genuine (w_current w) →
      combine c op qs other w = (Ok qs', w') → reachable c qs'
  | reach_combine_all op qs others w qs' w' : reachable c qs →
      (∀ o, Scoped o ∈ others → reachable c o) → genuine (w_current w) →
      combine_all c op qs others w = (Ok qs', w') → reachable c qs'
  | reach_fetch qs w found w' : reachable c qs →
      _fetch_all c qs w = (Ok found, w') → reachable c found.1.

Lemma confined_filter c qs p nested : confined c qs → confined c (filter_qs qs p nested).
Proof.
  intros (sc & ? & ? & ? & Hw & _). exists sc. split_and!; [done..| |done].
  intros a r. simpl. rewrite andb_true_iff. intros [? _]. by eapply Hw.
Qed.

(** Two confined querysets that are both usable now are confined to one scope. *)
Lemma check_other_ok c qs other w o w' :
  rg_mode c = Enforce → genuine (w_current w) → confined c qs →
  (∀ o, other = Scoped o → confined c o) →
  _check_other c qs other w = (Ok o, w') →
  w' = w ∧ other = Scoped o ∧ ∃ sc, _scope_context qs = Some sc ∧
    ∀ a r, q_where (qs_query o) a r = true → selects c sc r.
Proof.
  intros Hm Hg (sc & Hqs & Hobj & _) Ho H. unfold _check_other in H.
  apply bind_ok_inv in H as (u & w1 & H1 & H).
  apply check_context_ok in H1 as [-> H1]. destruct (H1 Hm) as (ctx & sc1 & Hctx & Hsc1 & Hid1).
  destruct other as [o'|]; [|done]. apply bind_ok_inv in H as (u' & w1 & H2 & H).
  apply check_context_ok in H2 as [-> H2]. destruct (H2 Hm) as (ctx2 & sc2 & Hctx2 & Hsc2 & Hid2).
  apply mret_ok in H as [-> ->]. split; [done|]. split; [done|].
  destruct (Ho o' eq_refl) as (sc3 & Hsc3 & Hobj3 & _ & Hw3 & _). exists sc. split; [done|].
  assert (sc3 = sc) as <-; [|done]. simplify_eq. congruence.
Qed.

Lemma confined_combine c op qs other w qs' w' :
  rg_mode c = Enforce → genuine (w_current w) → confined c qs →
  (∀ o, other = Scoped o → confined c o) →
  combine c op qs other w = (Ok qs', w') → confined c qs'.
Proof.
  intros Hm Hg Hqs Ho H. unfold combine in H. apply bind_ok_inv in H as (o & w1 & H1 & H).
  eapply check_other_ok in H1 as (-> & _ & sc' & Hsc' & Hw'); [|done..].
  apply mret_ok in H as [-> _]. destruct Hqs as (sc & Hsc & Hobj & Hq & Hw & _).
  exists sc. split_and!; [done..| |done]. rewrite Hsc in Hsc'. injection Hsc' as <-.
  intros a r. simpl. destruct (q_where (qs_query qs) a r) eqn:H1; [by eauto|].
  destruct (q_where (qs_query o) a r) eqn:H2; [by eauto|]. by destruct op.
Qed.

Lemma check_others_ok c qs others w os w' :
  rg_mode c = Enforce → genuine (w_current w) → confined c qs →
  (∀ o, Scoped o ∈ others → confined c o) →
  check_others c qs others w = (Ok os, w') →
  ∀ o sc, o ∈ os → _scope_context qs = Some sc →
    ∀ a r, q_where (qs_query o) a r = true → selects c sc r.
Proof.
  intros Hm Hg Hqs. revert w os w' Hg.
  induction others as [|x l IH]; intros w os w' Hg Ho H o sc Hin Hsc; simpl in H.
  { apply mret_ok in H as [-> _]. by apply not_elem_of_nil in Hin. }
  apply bind_ok_inv in H as (o1 & w1 & H1 & H).
  eapply check_other_ok in H1 as (-> & _ & sc1 & Hsc1 & Hw1);
    [|first [done|intros ? ->; apply Ho; left]..].
  apply bind_ok_inv in H as (os1 & w1 & H2 & H). apply mret_ok in H as [-> _].
  apply elem_of_cons in Hin as [->|Hin]; [by simplify_eq|].
  eapply (IH w); try done. intros o' Ho'. apply Ho. by right.
Qed.

Lemma confined_combine_all c op qs others w qs' w' :
  rg_mode c = Enforce → genuine (w_current w) → confined c qs →
  (∀ o, Scoped o ∈ others → confined c o) →
  combine_all c op qs others w = (Ok qs', w') → confined c qs'.
Proof.
  intros Hm Hg Hqs Ho H. unfold combine_all in H. apply bind_ok_inv in H as (os & w1 & H1 & H).
  pose proof (check_others_ok _ _ _ _ _ _ Hm Hg Hqs Ho H1) as Hos. apply mret_ok in H as [-> _].
  destruct Hqs as (sc & Hsc & Hobj & Hq & Hw & _). exists sc. split_and!; [done..| |done].
  intros a r. simpl. destruct (q_where (qs_query qs) a r) eqn:Ha; [by eauto|].
  destruct op; simpl; [|done|done].
  intros (b & Hb & Hbt)%existsb_exists.
  apply list_elem_of_In, list_elem_of_fmap in Hb as (o & -> & Hin). by eapply (Hos o).
Qed.

Lemma get_queryset_confined c b w qs w' :
  rg_mode c = Enforce → genuine (w_current w) →
  get_queryset c b w = (Ok qs, w') → confined c qs.
Proof.
  intros Hm Hg H. unfold get_queryset in H. rewrite Hm in H.
  apply bind_ok_inv in H as ([] & w1 & H1 & H). apply raise_if_ok in H1 as [_ ->].
  apply bind_ok_inv in H as (ctx & w1 & H1 & H). apply the_context_ok in H1 as [-> Hctx].
  apply bind_ok_inv in H as (v & w1 & H1 & H). apply lift_ok in H1 as [Hv ->].
  apply mret_ok in H as [-> _]. exists ctx. split_and!; [done|by apply Hg|done| |done].
  intros a r. simpl. unfold selects. case_bool_decide; [by subst|done].
Qed.

Lemma confined_fetch c qs w found w' :
  confined c qs → _fetch_all c qs w = (Ok found, w') → confined c found.1.
Proof.
  intros (sc & Hsc & Hobj & Hq & Hw & Hcache) (_ & _ & H1 & H2 & H3 & H4)%fetch_ok.
  exists sc. rewrite H1, H2. split_and!; [done..|].
  rewrite H3. intros rows r [= <-] Hr. destruct (_result_cache qs) as [rows'|].
  - subst. by eapply Hcache.
  - rewrite H4 in Hr. apply list_elem_of_filter in Hr as [Hr _]. by eapply Hw.
Qed.

Lemma reachable_confined c qs : rg_mode c = Enforce → reachable c qs → confined c qs.
Proof.
  intros Hm. induction 1; eauto using get_queryset_confined, confined_filter, confined_combine,
    confined_combine_all, confined_fetch.
Qed.
End QueryTheory.

#[local] Arguments snapshot : simpl never.

(** ** Bulk writes, run *)

Section BulkTheory.
Context {A : Type} `{!Django A} `{!DjangoTables A}.
Implicit Types (w : world (database A)) (qs : queryset A).

(** The event a bulk write records for the persisted row [a]. *)
Definition recorded (c : Registration) (before : list (pyval * option snapshot_dict))
  (action : string) (ctx : ScopeContext) (app : A) (k : pyval) (x : resource_key * AuditEvent)
  : Prop :=
  ∃ a, row_by_pk app (label (rg_model c)) k = Some a ∧ resource_key_of c a = Ok x.1 ∧
    (rg_mode c = Enforce → in_scope_of c a ctx) ∧ e_before x.2 = before_get before k ∧
    snapshot c (Some a) = Ok (e_after x.2) ∧ e_action x.2 = action ∧ e_actor x.2 = actor ctx.

Definition log_of (key : resource_key) (log : list (resource_key * AuditEvent)) : list AuditEvent :=
  snd <$> filter (λ x, x.1 = key) log.

(** [d'] is [d] with the logged events appended, each to its own history. *)
Definition logged (d d' : database A) (log : list (resource_key * AuditEvent)) : Prop :=
  db_app d' = db_app d ∧
  ∀ key, default [] (db_events d' !! key) = default [] (db_events d !! key) ++ log_of key log.

Lemma logged_cons d d1 d2 x log : logged d d1 [x] → logged d1 d2 log → logged d d2 (x :: log).
Proof.
  intros [Ha1 H1] [Ha2 H2]. split; [congruence|]. intros key. rewrite H2, H1.
  unfold log_of. rewrite !filter_cons. case_decide; simpl; by rewrite <-?app_assoc, ?app_nil_r.
Qed.

Lemma record_row_ok rs c before action ctx k w w' :
  record_row rs c before action ctx k w = (Ok tt, w') →
  w_current w' = w_current w ∧
  ∃ x, recorded c before action ctx (db_app (w_db w)) k x ∧ logged (w_db w) (w_db w') [x].
Proof.
  unfold record_row. intros H.
  apply bind_ok_inv in H as (found & w1 & H1 & H). apply load_row_ok in H1 as [-> Hf].
  case_bool_decide; subst found; [done|].
  destruct (row_by_pk _ _ _) as [a|] eqn:Ha; [|done].
  apply bind_ok_inv in H as (s & w1 & H1 & H). apply lift_ok in H1 as [H1 ->].
  apply check_scope_ok in H1 as [_ Hin].
  apply bind_ok_inv in H as ([] & w1 & H1 & H).
  pose proof (reads_run _ _ _ _ (check_relations_reads _ _ _ _) H1) as ->.
  apply bind_ok_inv in H as (after & w1 & H2 & H). apply lift_ok in H2 as [H2 ->].
  apply bind_ok_inv in H as (e & w2 & H3 & H). apply mret_ok in H as [_ ->].
  apply append_event_ok in H3 as (key & sc & Hkey & _ & _ & -> & ->).
  split; [done|]. match goal with |- context [appended _ _ _ ?e] => exists (key, e) end.
  split.
  - exists a. split_and!; done.
  - split; [done|]. intros key'. unfold log_of. rewrite filter_cons. simpl.
    destruct (decide (key' = key)) as [->|Hne].
    + rewrite lookup_insert_eq, decide_True by done. done.
    + rewrite lookup_insert_ne, decide_False by done. by rewrite app_nil_r.
Qed.

Lemma record_rows_ok rs c before action ctx keys w w' :
  for_each keys (record_row rs c before action ctx) w = (Ok tt, w') →
  ∃ log, Forall2 (recorded c before action ctx (db_app (w_db w))) keys log ∧
    logged (w_db w) (w_db w') log.
Proof.
  revert w. induction keys as [|k keys IH]; intros w H; simpl in H.
  { apply mret_ok in H as [_ ->]. exists []. split; [done|]. split; [done|].
    intros key. by rewrite app_nil_r. }
  apply bind_ok_inv in H as ([] & w1 & H1 & H).
  apply record_row_ok in H1 as (_ & x & Hx & Hlog). apply IH in H as (log & Hall & Hrest).
  exists (x :: log). destruct (Hlog) as [Happ _]. rewrite Happ in Hall.
  split; [by constructor|]. by eapply logged_cons.
Qed.

Lemma record_bulk_ok rs c before keys action w w' :
  _record_bulk rs c before keys action w = (Ok tt, w') →
  ∃ ctx log, w_current w = Some ctx ∧
    Forall2 (recorded c before action ctx (db_app (w_db w))) keys log ∧
    logged (w_db w) (w_db w') log.
Proof.
  unfold _record_bulk. intros H. apply bind_ok_inv in H as (ctx & w1 & H1 & H).
  apply the_context_ok in H1 as [-> Hctx]. apply record_rows_ok in H as (log & ? & ?). eauto.
Qed.

Lemma snapshots_ok c rows before :
  snapshots c rows = Ok before →
  before.*1 = pk <$> rows ∧
  (NoDup (pk <$> rows) → ∀ r, r ∈ rows → snapshot c (Some r) = Ok (before_get before (pk r))).
Proof.
  revert before. induction rows as [|r rows IH]; intros before H.
  { injection H as <-. split; [done|]. by intros _ r ?%not_elem_of_nil. }
  unfold snapshots in H. cbn [mapM] in H. fold (snapshots c rows) in H.
  destruct (snapshot c (Some r)) as [sn|] eqn:Hs; [|done].
  cbn [fmap outcome_fmap mbind outcome_bind] in H.
  destruct (snapshots c rows) as [b|] eqn:Hb; [|done]. injection H as <-.
  destruct (IH b eq_refl) as [Hk Hg]. split; [by cbn; rewrite Hk|].
  rewrite fmap_cons. intros [Hnin Hnd]%NoDup_cons x [->|Hx]%elem_of_cons.
  - rewrite Hs. unfold before_get. cbn. rewrite bool_decide_eq_true_2 by done. done.
  - rewrite Hg by done. unfold before_get. cbn. rewrite bool_decide_eq_false_2; [done|].
    intros Heq. apply Hnin. rewrite Heq. by apply list_elem_of_fmap_2.
Qed.

(** The rows a fresh evaluation yields: a filter of the table, keys distinct. *)
Lemma fetch_fresh c qs w found w' :
  _result_cache qs = None → _fetch_all c qs w = (Ok found, w') →
  w' = w ∧ found.2 = filter (λ r, q_where (qs_query qs) (db_app (w_db w)) r = true)
                       (table (db_app (w_db w)) (label (rg_model c))) ∧
  NoDup (pk <$> found.2).
Proof.
  intros Hc (_ & -> & _ & _ & _ & H)%fetch_ok. rewrite Hc in H. split; [done|]. split; [done|].
  rewrite H. generalize (table_pk_unique (db_app (w_db w)) (label (rg_model c))).
  generalize (table (db_app (w_db w)) (label (rg_model c))) as l.
  induction l as [|r l IH]; [done|]. rewrite fmap_cons. intros [Hnin Hnd]%NoDup_cons.
  rewrite filter_cons. case_decide; [|auto]. rewrite fmap_cons. apply NoDup_cons. split; [|auto].
  intros (x & Hx & Hin)%list_elem_of_fmap. apply list_elem_of_filter in Hin as [_ Hin].
  apply Hnin. rewrite Hx. by apply list_elem_of_fmap_2.
Qed.

(** The application's table writes: the history tables are not theirs. *)
Definition plain_write {R} (m : py (database A) R) : Prop :=
  ∀ w, db_resources (w_db (m w).2) = db_resources (w_db w) ∧
    db_events (w_db (m w).2) = db_events (w_db w) ∧ w_current (m w).2 = w_current w.

Lemma Forall2_impl_elem {X Y} (P Q : X → Y → Prop) l k :
  Forall2 P l k → (∀ x y, x ∈ l → P x y → Q x y) → Forall2 Q l k.
Proof.
  induction 1 as [|x y l k Hx Hall IH]; intros HQ; constructor; [by apply HQ; [left|]|].
  apply IH. intros a b Ha. apply HQ. by right.
Qed.

(** The tail shared by [update] and [bulk_update]: snapshots, the native write,
    one event per selected row. *)
Lemma audited_tail rs c rows native w count w' :
  NoDup (pk <$> rows) → (∀ ks, plain_write (native ks)) →
  (before ← lift (snapshots c rows);
   count ← native before.*1;
   _record_bulk rs c before before.*1 "update" ;;
   mret count : py (database A) nat) w = (Ok count, w') →
  ∃ ctx w1 log, w_current w = Some ctx ∧ native (pk <$> rows) w = (Ok count, w1) ∧
    db_app (w_db w') = db_app (w_db w1) ∧
    Forall2 (λ r x, ∃ before, snapshot c (Some r) = Ok (e_before x.2) ∧
      recorded c before "update" ctx (db_app (w_db w1)) (pk r) x) rows log ∧
    logged (set_app (db_app (w_db w1)) (w_db w)) (w_db w') log.
Proof.
  intros Hnd Hplain H. apply bind_ok_inv in H as (before & w1 & H1 & H).
  apply lift_ok in H1 as [Hb ->]. apply snapshots_ok in Hb as [Hkeys Hget].
  apply bind_ok_inv in H as (n & w1 & H1 & H). rewrite Hkeys in H1.
  pose proof (Hplain (pk <$> rows) w) as (Hr & He & Hc). rewrite H1 in Hr, He, Hc. simpl in *.
  apply bind_ok_inv in H as ([] & w2 & H2 & H). apply mret_ok in H as [-> ->].
  rewrite Hkeys in H2. apply record_bulk_ok in H2 as (ctx & log & Hctx & Hall & Happ & Hlog).
  exists ctx, w1, log. split_and!; [congruence|done|done| |].
  - rewrite Forall2_fmap_l in Hall. specialize (Hget Hnd).
    apply (Forall2_impl_elem _ _ _ _ Hall). intros r x Hin Hx. exists before. split; [|done].
    destruct Hx as (a & _ & _ & _ & -> & _). by apply Hget.
  - split; [by rewrite Happ|]. intros key. rewrite Hlog. simpl. by rewrite He.
Qed.
End BulkTheory.

(** ** Joins, run *)

Section JoinTheory.
Context {D : Type}.
Context (join_sql : join → string * list pyval) (quote_alias quote_name : string → string)
  (db_table : model → string) (column : model → string → string)
  (get_db_prep_value : string → pyval) (referenced : string → bool).
Context (configs : list Registration) (ctx : ScopeContext).

Abbreviation render := (join_as_sql (D:=D) join_sql quote_alias quote_name get_db_prep_value).
Abbreviation from_clause := (super_get_from_clause (D:=D) join_sql quote_alias quote_name
  get_db_prep_value referenced).
Abbreviation wrap := (wrap_join db_table column configs ctx).

(** An alias with its join as the compiler sees it. *)
Definition wrapped_entry (x : string * join) : string * join := (x.1, default x.2 (wrap x.2)).

Lemma assign_notin alias j m : alias ∉ m.*1 → assign alias j m = m.
Proof.
  induction m as [|x m IH]; [done|]. rewrite fmap_cons, not_elem_of_cons. intros [Hx Hm].
  unfold assign in *. rewrite fmap_cons, IH by done. by rewrite bool_decide_eq_false_2.
Qed.

Lemma assign_middle pre alias j j' m :
  NoDup ((pre ++ (alias, j) :: m).*1) →
  assign alias j' (pre ++ (alias, j) :: m) = pre ++ (alias, j') :: m.
Proof.
  rewrite fmap_app, fmap_cons. intros (_ & Hpre & [Hm _]%NoDup_cons)%NoDup_app.
  unfold assign at 1. rewrite fmap_app, fmap_cons. fold (assign alias j' pre) (assign alias j' m).
  rewrite !assign_notin; [|done|intros Hin; apply (Hpre _ Hin); left].
  cbn. by rewrite bool_decide_eq_true_2.
Qed.

Lemma wrap_loop items acc w pre :
  NoDup ((pre ++ items).*1) →
  for_fold items acc (λ originals x,
    match wrap x.2 with
    | Some wrapped => modify (λ s, (s.1, assign x.1 wrapped s.2)) ;; mret (originals ++ [x])
    | None => mret originals
    end : prog (world D * alias_map) _) (w, pre ++ items) =
  (Ok (acc ++ filter (λ x, is_Some (wrap x.2)) items), (w, pre ++ (wrapped_entry <$> items))).
Proof.
  revert acc pre. induction items as [|[alias j] items IH]; intros acc pre Hnd; cbn [for_fold].
  { rewrite filter_nil, fmap_nil, !app_nil_r. done. }
  rewrite run_bind, fmap_cons, filter_cons. unfold wrapped_entry at 1. cbn [fst snd].
  destruct (wrap j) as [j'|] eqn:Hw.
  - rewrite decide_True by done. unfold modify, mbind at 1, prog_bind, mret, prog_ret.
    cbn [fst snd]. rewrite assign_middle by done.
    rewrite (cons_middle _ pre), app_assoc, IH.
    + rewrite <-!app_assoc. done.
    + revert Hnd. rewrite <-app_assoc, !fmap_app. exact id.
  - rewrite decide_False by (by intros [? ?]). unfold mret, prog_ret.
    rewrite (cons_middle _ pre), app_assoc, IH.
    + rewrite <-!app_assoc. done.
    + revert Hnd. rewrite <-app_assoc, !fmap_app. exact id.
Qed.

Lemma restore_aliases pre m :
  NoDup ((pre ++ m).*1) →
  update_aliases (filter (λ x, is_Some (wrap x.2)) m) (pre ++ (wrapped_entry <$> m)) = pre ++ m.
Proof.
  revert pre. induction m as [|[alias j] m IH]; intros pre Hnd; [done|].
  assert (Hnd' : NoDup (((pre ++ [(alias, j)]) ++ m).*1)) by (by rewrite <-app_assoc).
  rewrite fmap_cons, filter_cons. unfold wrapped_entry at 1. cbn [fst snd].
  destruct (wrap j) as [j'|] eqn:Hw.
  - rewrite decide_True by done. unfold update_aliases. cbn [foldl fst snd].
    rewrite assign_middle.
    + specialize (IH _ Hnd'). unfold update_aliases in IH. rewrite <-!app_assoc in IH. exact IH.
    + revert Hnd. rewrite !fmap_app, !fmap_cons. cbn. rewrite <-list_fmap_compose. done.
  - rewrite decide_False by (by intros [? ?]). cbn.
    specialize (IH _ Hnd'). rewrite <-!app_assoc in IH. exact IH.
Qed.

Lemma render_reads j : reads (render j).
Proof.
  unfold join_as_sql. destruct (scoped_by j) as [[sc col]|]; [|apply reads_ret].
  destruct (join_sql j). solve_reads.
Qed.

Lemma render_ok j w m clause s' :
  render j (w, m) = (Ok clause, s') →
  match scoped_by j with
  | None => clause = join_sql j
  | Some (sc, col) =>
      same_object (w_current w) (Some sc) = true ∧
      clause = ((join_sql j).1 +:+ " AND " +:+ quote_alias (table_alias j) +:+ "." +:+
                  quote_name col +:+ " = %s", (join_sql j).2 ++ [get_db_prep_value (scope sc)])
  end.
Proof.
  unfold join_as_sql. destruct (scoped_by j) as [[sc col]|].
  - intros H. apply bind_ok_inv in H as (cur & s1 & H1 & H). apply gets_ok in H1 as [-> ->].
    apply bind_ok_inv in H as ([] & s1 & H1 & H). apply raise_if_ok in H1 as [_ ->].
    apply bind_ok_inv in H as ([] & s1 & H1 & H).
    apply raise_if_ok in H1 as [Hs%negb_false_iff ->]. destruct (join_sql j).
    apply mret_ok in H as [-> _]. done.
  - by intros [-> _]%mret_ok.
Qed.

Lemma from_clause_ok w m clauses s' :
  from_clause (w, m) = (Ok clauses, s') →
  Forall2 (λ x clause, render x.2 (w, m) = (Ok clause, (w, m)))
    (filter (λ x, referenced x.1 = true) m) clauses.
Proof.
  unfold super_get_from_clause. intros H. apply bind_ok_inv in H as (m' & s1 & H1 & H).
  apply gets_ok in H1 as [-> ->]. simpl in H. revert H.
  cut (∀ (l : alias_map) acc, for_fold l acc (λ acc x, sql ← render x.2; mret (acc ++ [sql])) (w, m) =
    (Ok clauses, s') → ∃ k, clauses = acc ++ k ∧
      Forall2 (λ x clause, render x.2 (w, m) = (Ok clause, (w, m))) l k).
  { intros Hc H. by destruct (Hc _ [] H) as (k & -> & ?). }
  induction l as [|x l IH]; intros acc H; cbn [for_fold] in H.
  { apply mret_ok in H as [-> _]. exists []. by rewrite app_nil_r. }
  apply bind_ok_inv in H as (acc' & s1 & H1 & H). apply bind_ok_inv in H1 as (cl & s2 & H1 & H2).
  pose proof (reads_run _ _ _ _ (render_reads _) H1) as ->. apply mret_ok in H2 as [-> ->].
  apply IH in H as (k & -> & Hk). exists (cl :: k). split; [by rewrite <-app_assoc|]. by constructor.
Qed.

Lemma from_clause_reads : reads from_clause.
Proof.
  unfold super_get_from_clause. apply reads_bind; [apply reads_gets|]. intros m.
  apply reads_for_fold. intros acc x _. apply reads_bind; [apply render_reads|]. solve_reads.
Qed.

Lemma get_from_clause_run w m :
  NoDup m.*1 →
  get_from_clause (D:=D) join_sql quote_alias quote_name db_table column get_db_prep_value
    referenced configs (Some ctx) (w, m) =
  ((from_clause (w, wrapped_entry <$> m)).1, (w, m)).
Proof.
  intros Hnd. unfold get_from_clause.
  rewrite (run_bind_ok _ _ _ m (w, m)) by done.
  rewrite (run_bind_ok _ _ _ _ _ (wrap_loop m [] w [] Hnd)). unfold finally, modify. cbn [app].
  pose proof (from_clause_reads (w, wrapped_entry <$> m)) as Hr.
  destruct (from_clause (w, wrapped_entry <$> m)) as [r s]. cbn in Hr |- *. subst s. cbn [fst snd].
  pose proof (restore_aliases [] m Hnd) as Hback. cbn [app] in Hback. by rewrite Hback.
Qed.
End JoinTheory.

(** ** Theorems *)

Section QueryTheorems.
Context {A : Type} `{!Django A} `{!DjangoTables A}.
Implicit Types (w : world (database A)) (qs : queryset A).

Lemma check_context_stale c qs w ctx :
  rg_mode c = Enforce → w_current w = Some ctx → same_object (Some ctx) (_scope_context qs) = false →
  _check_context c qs w = (Raise (ScopeViolation
    "Evaluate a scoped queryset within the context that created it."), w).
Proof.
  intros Hm Hctx Hs. unfold _check_context, the_context, current_context, gets.
  rewrite Hm. unfold mbind, prog_bind. rewrite Hctx. simpl. unfold same_object in Hs. by rewrite Hs.
Qed.

Lemma check_context_none c qs w :
  rg_mode c = Enforce → w_current w = None → _check_context c qs w = (Raise MissingContext, w).
Proof. intros Hm Hn. unfold _check_context. rewrite Hm, run_bind. by rewrite the_context_none. Qed.

Lemma check_context_first {R} c qs (f : unit → py (database A) R) w e :
  _check_context c qs w = (Raise e, w) → (_check_context c qs ≫= f) w = (Raise e, w).
Proof. intros H. by rewrite run_bind, H. Qed.

Lemma stale_iter c qs w e st :
  _check_context c qs w = (Raise e, w) → st ≠ It_rows [] → iter_next c qs st w = (Raise e, w).
Proof.
  intros H Hst. unfold iter_next. rewrite run_bind. destruct st as [|[|r rest]].
  - by rewrite (check_context_first _ _ _ _ _ H).
  - done.
  - unfold mret, prog_ret. by rewrite (check_context_first _ _ _ _ _ H).
Qed.

Lemma stale_combine c qs w e op other :
  _check_context c qs w = (Raise e, w) → combine c op qs other w = (Raise e, w).
Proof. intros H. unfold combine, _check_other. by rewrite !run_bind, H. Qed.

Lemma stale_combine_all c qs w e op other others :
  _check_context c qs w = (Raise e, w) → combine_all c op qs (other :: others) w = (Raise e, w).
Proof. intros H. unfold combine_all, check_others, _check_other. by rewrite !run_bind, H. Qed.

Lemma stale_mutation {R} c qs w e names (f : unit → py (database A) R) :
  _check_context c qs w = (Raise e, w) → (_mutation_config c qs names ≫= f) w = (Raise e, w).
Proof. intros H. unfold _mutation_config. by rewrite !run_bind, H. Qed.

(** C5: No row of another scope comes out of a queryset: whatever a program builds
    from the default manager of an enforced model by filtering, combining
    (|, &, ^, union, intersection, difference) and evaluating, in whatever
    contexts, an evaluation that returns happens in a context and yields rows
    of that context's scope only, from the database or from the result cache. *)
Theorem queries_in_scope (object : nat → ScopeContext) c qs w found w' :
  rg_mode c = Enforce → reachable object c qs → genuine object (w_current w) →
  _fetch_all c qs w = (Ok found, w') →
  ∃ ctx, w_current w = Some ctx ∧ ∀ r, r ∈ found.2 → selects c ctx r.
Proof.
  intros Hm Hreach Hg H. apply (reachable_confined object) in Hreach; [|done].
  pose proof (confined_fetch object _ _ _ _ _ Hreach H) as (sc & Hsc & Hobj & _ & _ & Hcache).
  apply fetch_ok in H as (Hchk & -> & Hsc' & _ & Hres & _).
  apply check_context_ok in Hchk as [_ Hchk].
  destruct (Hchk Hm) as (ctx & sc1 & Hctx & Hsc1 & Hid). exists ctx. split; [done|].
  assert (ctx = sc) as ->; [|intros r Hr; by eapply Hcache].
  specialize (Hg ctx Hctx). simplify_eq. congruence.
Qed.

(** A queryset is bound to the context object that created it: under any
    other context every operation that evaluates, combines or mutates raises
    ScopeViolation (without one, MissingContext) before it touches the
    database, and an iterator stops before its next row. *)
Theorem stale_queryset_refused c qs w e :
  rg_mode c = Enforce →
  match w_current w with
  | None => e = MissingContext
  | Some ctx => same_object (Some ctx) (_scope_context qs) = false ∧
      e = ScopeViolation "Evaluate a scoped queryset within the context that created it."
  end →
  _fetch_all c qs w = (Raise e, w) ∧
  (∀ st, st ≠ It_rows [] → iter_next c qs st w = (Raise e, w)) ∧
  (∀ R (super : py (database A) R), checked_call c qs super w = (Raise e, w)) ∧
  (∀ op other, combine c op qs other w = (Raise e, w)) ∧
  (∀ op other others, combine_all c op qs (other :: others) w = (Raise e, w)) ∧
  (∀ rs names native, update rs c qs names native w = (Raise e, w)) ∧
  (∀ R (super : py (database A) R), delete c qs super w = (Raise e, w)) ∧
  (∀ rs objs opts native, bulk_create rs c qs objs opts native w = (Raise e, w)) ∧
  (∀ rs objs names native, bulk_update rs c qs objs names native w = (Raise e, w)).
Proof.
  intros Hm He.
  assert (H : _check_context c qs w = (Raise e, w)).
  { destruct (w_current w) as [ctx|] eqn:Hctx.
    - destruct He as [Hs ->]. by eapply check_context_stale.
    - subst. by apply check_context_none. }
  split_and!; intros.
  - by apply check_context_first.
  - by apply stale_iter.
  - by apply check_context_first.
  - by apply stale_combine.
  - by apply stale_combine_all.
  - by apply stale_mutation.
  - by apply check_context_first.
  - by apply stale_mutation.
  - by apply stale_mutation.
Qed.

(** The rows [qs] selects now. *)
Definition selected (c : Registration) (qs : queryset A) (d : database A) : list row :=
  filter (λ r, q_where (qs_query qs) (db_app d) r = true) (table (db_app d) (label (rg_model c))).

(** The history of each updated row grew by one update event, of no other. *)
Definition updates_logged (c : Registration) (ctx : ScopeContext) (rows : list row) (app : A)
  (d d' : database A) : Prop :=
  ∃ log, Forall2 (λ r x, ∃ before, snapshot c (Some r) = Ok (e_before x.2) ∧
      recorded c before "update" ctx app (pk r) x) rows log ∧ logged (set_app app d) d' log.

Lemma mutation_config_ok c qs names w w' :
  _mutation_config c qs names w = (Ok tt, w') →
  w' = w ∧ _check_context c qs w = (Ok tt, w) ∧
  (∀ n, n ∈ names → n ∉ [scope_field c; scope_attname c; "pk"; m_pk_name (rg_model c)]) ∧
  is_sliced (qs_query qs) = false ∧ combinator (qs_query qs) = false ∧ qs_values qs = false.
Proof.
  unfold _mutation_config. intros H. apply bind_ok_inv in H as ([] & w1 & H1 & H).
  pose proof (reads_run _ _ _ _ (check_context_reads _ _) H1) as ->.
  apply bind_ok_inv in H as (ctx & w1 & H2 & H). apply the_context_ok in H2 as [-> _].
  apply bind_ok_inv in H as ([] & w1 & H2 & H). apply raise_if_ok in H2 as [Hn ->].
  apply raise_if_ok in H as [Hs ->]. rewrite !orb_false_iff in Hs. split_and!; try tauto.
  intros n Hin Hbad. apply not_true_iff_false in Hn. apply Hn, existsb_exists. exists n.
  split; [by apply list_elem_of_In|by apply bool_decide_eq_true_2].
Qed.

(** QuerySet.update is audited: one that returns changed no primary key and
    no scope column, updated natively exactly the rows selected within the
    context, and appended one update event (caller, state before, state
    persisted) to each one's history and to no other. *)
Theorem queryset_update_audited rs c qs names native w count w' :
  names ≠ [] → (∀ ks, plain_write (native ks)) →
  update rs c qs names native w = (Ok count, w') →
  ∃ ctx w1, w_current w = Some ctx ∧
    (rg_mode c = Enforce → same_object (Some ctx) (_scope_context qs) = true) ∧
    (∀ n, n ∈ names → n ∉ [scope_field c; scope_attname c; "pk"; m_pk_name (rg_model c)]) ∧
    native (pk <$> selected c qs (w_db w)) w = (Ok count, w1) ∧
    db_app (w_db w') = db_app (w_db w1) ∧
    updates_logged c ctx (selected c qs (w_db w)) (db_app (w_db w1)) (w_db w) (w_db w').
Proof.
  intros Hne Hplain H. unfold update in H. apply bind_ok_inv in H as ([] & w1 & H1 & H).
  apply mutation_config_ok in H1 as (-> & Hchk & Hnames & _). rewrite bool_decide_eq_false_2 in H by done.
  rewrite atomic_ok in H. apply bind_ok_inv in H as (found & w1 & H1 & H).
  apply fetch_fresh in H1 as (-> & Hrows & Hnd); [|done].
  apply audited_tail in H as (ctx & w1 & log & Hctx & Hnat & Happ & Hall & Hlog); [|done..].
  change (found.2 = selected c qs (w_db w)) in Hrows. rewrite Hrows in *.
  exists ctx, w1. split_and!; try done; [|by exists log].
  intros Hm. apply check_context_ok in Hchk as [_ Hchk].
  destruct (Hchk Hm) as (ctx' & sc & Hctx' & -> & Hid). simplify_eq. by apply bool_decide_eq_true_2.
Qed.

Lemma for_each_check_scope c ctx (rows : list row) w w' :
  for_each rows (λ r, lift (check_scope c r ctx) ;; mret tt : py (database A) unit) w = (Ok tt, w') →
  w' = w ∧ ∀ r, r ∈ rows → is_ok (check_scope c r ctx) = true.
Proof.
  revert w. induction rows as [|r rows IH]; intros w H; simpl in H.
  { apply mret_ok in H as [_ ->]. split; [done|]. by intros r ?%not_elem_of_nil. }
  apply bind_ok_inv in H as ([] & w1 & H1 & H). apply bind_ok_inv in H1 as (s & w2 & H1 & H2).
  apply lift_ok in H1 as [H1 ->]. apply mret_ok in H2 as [_ ->].
  apply IH in H as [-> H]. split; [done|]. intros x [->|Hx]%elem_of_cons; [by rewrite H1|by apply H].
Qed.

Lemma check_scope_in_scope c r ctx :
  rg_mode c = Enforce → is_ok (check_scope c r ctx) = true → in_scope_of c r ctx.
Proof.
  intros Hm H. destruct (check_scope c r ctx) as [s|] eqn:Hc; [|done].
  apply check_scope_ok in Hc as [_ Hc]. by apply Hc.
Qed.

(** bulk_update is audited and refuses foreign batches: one that returns had
    distinct primary keys, every persisted row with one of them was in the
    caller's scope (in enforce mode), only rows of the queryset were updated,
    and each got one update event. *)
Theorem bulk_update_audited rs c qs objs names native w count w' :
  (∀ ks, plain_write (native ks)) →
  bulk_update rs c qs objs names native w = (Ok count, w') →
  let rows := filter (λ r, has_keys (pk <$> objs) r = true) (selected c qs (w_db w)) in
  names ≠ [] ∧ NoDup (pk <$> objs) ∧ (PNone ∉ (pk <$> objs)) ∧
  ∃ ctx w1, w_current w = Some ctx ∧
    (rg_mode c = Enforce → ∀ r, r ∈ table (db_app (w_db w)) (label (rg_model c)) →
      pk r ∈ (pk <$> objs) → in_scope_of c r ctx) ∧
    native (pk <$> rows) w = (Ok count, w1) ∧ db_app (w_db w') = db_app (w_db w1) ∧
    updates_logged c ctx rows (db_app (w_db w1)) (w_db w) (w_db w').
Proof.
  intros Hplain H rows. unfold bulk_update in H. apply bind_ok_inv in H as ([] & w1 & H1 & H).
  apply mutation_config_ok in H1 as (-> & _ & _).
  apply bind_ok_inv in H as ([] & w1 & H1 & H).
  apply raise_if_ok in H1 as [Hne%bool_decide_eq_false_1 ->].
  apply bind_ok_inv in H as ([] & w1 & H1 & H). apply raise_if_ok in H1 as [Hnone ->].
  apply bind_ok_inv in H as ([] & w1 & H1 & H).
  apply raise_if_ok in H1 as [Hnd%negb_false_iff%bool_decide_eq_true_1 ->].
  apply bind_ok_inv in H as (ctx & w1 & H1 & H). apply the_context_ok in H1 as [-> Hctx].
  rewrite atomic_ok in H. apply bind_ok_inv in H as (per & w1 & H1 & H).
  apply gets_ok in H1 as [-> ->]. apply bind_ok_inv in H as ([] & w1 & H1 & H).
  apply for_each_check_scope in H1 as [-> Hscope].
  apply bind_ok_inv in H as (found & w1 & H1 & H).
  apply fetch_fresh in H1 as (-> & Hrows & Hnd'); [|done].
  apply audited_tail in H as (ctx' & w1 & log & Hctx' & Hnat & Happ & Hall & Hlog); [|done..].
  assert (found.2 = rows) as Heq.
  { rewrite Hrows. unfold rows, selected. rewrite list_filter_filter.
    apply list_filter_iff. intros r. simpl. rewrite andb_true_iff. tauto. }
  rewrite Heq in *. assert (ctx' = ctx) as -> by congruence.
  split_and!; [done|done| |].
  - intros (o & Ho & Hin)%list_elem_of_fmap. apply not_true_iff_false in Hnone.
    apply Hnone, existsb_exists. exists PNone. split; [|by apply bool_decide_eq_true_2].
    apply list_elem_of_In. rewrite Ho. by apply list_elem_of_fmap_2.
  - exists ctx, w1. split_and!; try done; [|by exists log]. intros Hm r Hr Hk.
    apply check_scope_in_scope; [done|]. apply Hscope, list_elem_of_filter.
    split; [by apply bool_decide_eq_true_2|done].
Qed.

Lemma for_each_objects rs c ctx (objs : list row) w w' :
  for_each objs (λ o, lift (check_scope c o ctx) ;; check_relations rs c o ctx) w = (Ok tt, w') →
  w' = w ∧ ∀ o, o ∈ objs → is_ok (check_scope c o ctx) = true ∧
    check_relations rs c o ctx w = (Ok tt, w).
Proof.
  revert w. induction objs as [|o objs IH]; intros w H; simpl in H.
  { apply mret_ok in H as [_ ->]. split; [done|]. by intros r ?%not_elem_of_nil. }
  apply bind_ok_inv in H as ([] & w1 & H1 & H). apply bind_ok_inv in H1 as (s & w2 & H1 & H2).
  apply lift_ok in H1 as [H1 ->].
  pose proof (reads_run _ _ _ _ (check_relations_reads _ _ _ _) H2) as ->.
  apply IH in H as [-> H]. split; [done|].
  intros x [->|Hx]%elem_of_cons; [by rewrite H1|by apply H].
Qed.

(** bulk_create is audited: one that returns inserted objects that all belong
    to the caller's scope and point to rows of it (in enforce mode), every one
    came back with a primary key, and each persisted row's history, and no
    other, grew by one create event. *)
Theorem bulk_create_audited rs c qs objs opts native w result w' :
  (∀ l, plain_write (native l)) →
  bulk_create rs c qs objs opts native w = (Ok result, w') →
  opts = false ∧ (PNone ∉ (pk <$> result)) ∧
  ∃ ctx w1 log, w_current w = Some ctx ∧
    (rg_mode c = Enforce → ∀ o, o ∈ objs → in_scope_of c o ctx ∧
      ∀ f, f ∈ m_fields (rg_model c) → relation_in_scope (protected rs) o ctx (w_db w) f) ∧
    native objs w = (Ok result, w1) ∧
    Forall2 (recorded c [] "create" ctx (db_app (w_db w1))) (pk <$> result) log ∧
    logged (set_app (db_app (w_db w1)) (w_db w)) (w_db w') log.
Proof.
  intros Hplain H. unfold bulk_create in H. apply bind_ok_inv in H as ([] & w1 & H1 & H).
  apply mutation_config_ok in H1 as (-> & _ & _).
  apply bind_ok_inv in H as ([] & w1 & H1 & H). apply raise_if_ok in H1 as [-> ->].
  apply bind_ok_inv in H as (ctx & w1 & H1 & H). apply the_context_ok in H1 as [-> Hctx].
  rewrite atomic_ok in H. apply bind_ok_inv in H as ([] & w1 & H1 & H).
  apply for_each_objects in H1 as [-> Hobjs].
  apply bind_ok_inv in H as (res & w1 & Hnat & H).
  pose proof (Hplain objs w) as (Hr & He & Hc). rewrite Hnat in Hr, He, Hc. simpl in Hr, He, Hc.
  apply bind_ok_inv in H as ([] & w2 & H1 & H). apply raise_if_ok in H1 as [Hnone ->].
  apply bind_ok_inv in H as ([] & w2 & H2 & H). apply mret_ok in H as [-> ->].
  apply record_bulk_ok in H2 as (ctx' & log & Hctx' & Hall & Happ & Hlog).
  assert (ctx' = ctx) as -> by congruence. split_and!; [done| |].
  - intros (o & Ho & Hin)%list_elem_of_fmap. apply not_true_iff_false in Hnone.
    apply Hnone, existsb_exists. exists o.
    split; [by apply list_elem_of_In|by apply bool_decide_eq_true_2].
  - exists ctx, w1, log. split_and!; try done.
    + intros Hm o Ho. destruct (Hobjs o Ho) as [Hs Hrel].
      split; [by apply check_scope_in_scope|]. intros f Hf. by eapply check_relations_ok.
    + split; [done|]. intros key. rewrite Hlog. simpl. by rewrite He.
Qed.

Lemma record_row_preserves rs c before action ctx k :
  preserves (history_ok ∘ w_db) (record_row rs c before action ctx k).
Proof.
  unfold record_row. apply preserves_bind; [apply reads_preserves, load_row_reads|]. intros [a|];
    [|apply preserves_raise].
  apply preserves_bind; [apply preserves_lift|]. intros _.
  apply preserves_bind; [apply reads_preserves, check_relations_reads|]. intros _. solve_preserves.
Qed.

Lemma record_bulk_preserves rs c before keys action :
  preserves (history_ok ∘ w_db) (_record_bulk rs c before keys action).
Proof.
  unfold _record_bulk. apply preserves_bind; [apply reads_preserves, the_context_reads|].
  intros ctx. apply preserves_for_each. intros k _. apply record_row_preserves.
Qed.

Lemma mutation_config_reads c qs names : reads (_mutation_config (A:=A) c qs names).
Proof.
  unfold _mutation_config. apply reads_bind; [apply check_context_reads|]. intros _.
  apply reads_bind; [apply the_context_reads|]. solve_reads.
Qed.

(** A computation that only reads, then a transaction: all or nothing. *)
Definition all_or_nothing {R} (m : py (database A) R) : Prop :=
  ∀ w e w', m w = (Raise e, w') → w_db w' = w_db w.

Lemma all_or_nothing_atomic {R} (m : py (database A) R) : all_or_nothing (atomic m).
Proof. intros w e w'. apply atomic_raise_db. Qed.

Lemma all_or_nothing_reads {R} (m : py (database A) R) : reads m → all_or_nothing m.
Proof. intros Hm w e w' H. by rewrite (reads_run _ _ _ _ Hm H). Qed.

Lemma all_or_nothing_bind {R R'} (m : py (database A) R) (f : R → py (database A) R') :
  reads m → (∀ a, all_or_nothing (f a)) → all_or_nothing (m ≫= f).
Proof.
  intros Hm Hf w e w'. rewrite run_bind. specialize (Hm w).
  destruct (m w) as [[a|e'] w1]; simpl in Hm; subst; [apply Hf|by intros [= _ <-]].
Qed.

Lemma updates_all_or_nothing rs c qs names native : all_or_nothing (update rs c qs names native).
Proof.
  apply all_or_nothing_bind; [apply mutation_config_reads|]. intros _. case_bool_decide;
    [apply all_or_nothing_reads, reads_ret|apply all_or_nothing_atomic].
Qed.

Lemma bulk_update_all_or_nothing rs c qs objs names native :
  all_or_nothing (bulk_update rs c qs objs names native).
Proof.
  apply all_or_nothing_bind; [apply mutation_config_reads|]. intros _.
  do 3 (apply all_or_nothing_bind; [apply reads_raise_if|]; intros _).
  apply all_or_nothing_bind; [apply the_context_reads|]. intros ctx. apply all_or_nothing_atomic.
Qed.

Lemma bulk_create_all_or_nothing rs c qs objs opts native :
  all_or_nothing (bulk_create rs c qs objs opts native).
Proof.
  apply all_or_nothing_bind; [apply mutation_config_reads|]. intros _.
  apply all_or_nothing_bind; [apply reads_raise_if|]. intros _.
  apply all_or_nothing_bind; [apply the_context_reads|]. intros ctx. apply all_or_nothing_atomic.
Qed.

Lemma delete_all_or_nothing {R} c qs (super : py (database A) R) :
  all_or_nothing (delete c qs super).
Proof.
  apply all_or_nothing_bind; [apply check_context_reads|]. intros _.
  apply all_or_nothing_bind; [apply the_context_reads|]. intros ctx. apply all_or_nothing_atomic.
Qed.

Lemma update_preserves rs c qs names native :
  (∀ ks, preserves (history_ok ∘ w_db) (native ks)) →
  preserves (history_ok ∘ w_db) (update rs c qs names native).
Proof.
  intros Hn. unfold update. apply preserves_bind; [apply reads_preserves, mutation_config_reads|].
  intros _. case_bool_decide; [apply preserves_ret|]. apply preserves_atomic.
  apply preserves_bind; [apply reads_preserves, fetch_reads|]. intros found.
  apply preserves_bind; [apply preserves_lift|]. intros before.
  apply preserves_bind; [apply Hn|]. intros count.
  apply preserves_bind; [apply record_bulk_preserves|]. intros _. apply preserves_ret.
Qed.

(** Bulk writes are all or nothing: an update, bulk_update, bulk_create or
    queryset delete that raises, for whatever reason and however far it came
    (a row that vanished, a foreign row, the native write, the audit append),
    leaves the whole database as it was; and an update keeps every history an
    intact chain when the native write does. *)
Theorem bulk_writes_all_or_nothing {R} rs c qs objs names opts
  (native : list pyval → py (database A) nat) (insert : list row → py (database A) (list row))
  (super_delete : py (database A) R) :
  all_or_nothing (update rs c qs names native) ∧
  all_or_nothing (bulk_update rs c qs objs names native) ∧
  all_or_nothing (bulk_create rs c qs objs opts insert) ∧
  all_or_nothing (delete c qs super_delete) ∧
  ((∀ ks, preserves (history_ok ∘ w_db) (native ks)) →
    preserves (history_ok ∘ w_db) (update rs c qs names native)).
Proof.
  split_and!.
  - apply updates_all_or_nothing.
  - apply bulk_update_all_or_nothing.
  - apply bulk_create_all_or_nothing.
  - apply delete_all_or_nothing.
  - apply update_preserves.
Qed.
End QueryTheorems.

(** C6: Joins cannot leak another scope's rows: compiling the FROM clause of a
    scoped query renders every referenced join to a table of an enforced model
    with its native SQL extended by "AND alias.scope_column = %s" and the
    scope's value as the last parameter, only under the query's own context;
    the other joins are untouched, and the alias map is restored whether it
    returns or raises. *)
Theorem joins_scoped {D} join_sql quote_alias quote_name db_table column prep referenced configs ctx
  (w : world D) (m : alias_map) r w' m' :
  NoDup m.*1 →
  get_from_clause join_sql quote_alias quote_name db_table column prep referenced configs (Some ctx)
    (w, m) = (r, (w', m')) →
  w' = w ∧ m' = m ∧
  ∀ clauses, r = Ok clauses →
    Forall2 (λ x clause,
      match join_config db_table configs x.2 with
      | Some c => ∃ sql params, clause = (sql +:+ " AND " +:+ quote_alias (table_alias x.2) +:+ "."
            +:+ quote_name (column (rg_model c) (scope_field c)) +:+ " = %s",
            params ++ [prep (scope ctx)]) ∧ same_object (w_current w) (Some ctx) = true
      | None => scoped_by x.2 = None → clause = join_sql x.2
      end) (filter (λ x, referenced x.1 = true) m) clauses.
Proof.
  intros Hnd H. rewrite get_from_clause_run in H by done. injection H as Hr <- <-.
  split; [done|]. split; [done|]. intros clauses ->.
  destruct (super_get_from_clause _ _ _ _ _ _) as [r s'] eqn:H. simpl in Hr. subst r.
  apply from_clause_ok in H.
  assert (Hmap : filter (λ x, referenced x.1 = true) (wrapped_entry db_table column configs ctx <$> m)
    = wrapped_entry db_table column configs ctx <$> filter (λ x, referenced x.1 = true) m).
  { clear. induction m as [|x m IH]; [done|]. rewrite fmap_cons, filter_cons, (filter_cons _ x m). simpl.
    case_decide; [by rewrite fmap_cons, IH|done]. }
  rewrite Hmap in H. rewrite Forall2_fmap_l in H. eapply Forall2_impl; [exact H|].
  intros [alias j] clause Hj. apply render_ok in Hj. unfold wrapped_entry, wrap_join in Hj. simpl in *.
  destruct (join_config db_table configs j) as [c|]; simpl in Hj.
  - destruct Hj as [? ->]. by eexists _, _.
  - intros Hs. by rewrite Hs in Hj.
Qed.
