(* ===== verification/MemoryOrm.v ===== *)
(** * An in-memory ORM

    A concrete instance of [Django]: application tables are a list of labelled
    rows.  It discharges the laws the other files assume and lets their
    statements be run on examples; it models no code of the repository. *)

From S2P Require Import Prelude Context Registry Models AuditTrail Writes History Queries.

Definition tables : Type := list (string * row).

Definition table_rows (t : tables) (m : string) : list row :=
  snd <$> filter (λ x, x.1 = m) t.

Definition json_text (j : json) : string :=
  match j with
  | JNull => "null"
  | JBool true => "true"
  | JBool false => "false"
  | JInt z => pretty z
  | JStr s => "'" +:+ s +:+ "'"
  | JText t => t
  end.

Definition snapshot_text (s : option snapshot_dict) : string :=
  match s with
  | None => "null"
  | Some m => foldr (λ kv acc, kv.1 +:+ ":" +:+ json_text kv.2 +:+ "," +:+ acc) "}" (map_to_list m)
  end.

Definition payload_text (p : payload) : string :=
  pretty (p_revision p) +:+ "|" +:+ p_scope p +:+ "|" +:+ p_actor p +:+ "|" +:+ p_action p +:+ "|"
  +:+ snapshot_text (p_before p) +:+ "|" +:+ snapshot_text (p_after p) +:+ "|"
  +:+ p_occurred_at p +:+ "|" +:+ p_reason p +:+ "|" +:+ p_request_id p +:+ "|"
  +:+ p_previous_digest p +:+ "|" +:+ p_model_label p +:+ "|" +:+ p_object_pk p.

Definition json_value (j : json) : pyval :=
  match j with
  | JNull => PNone
  | JBool b => PBool b
  | JInt z => PInt z
  | JStr s => PStr s
  | JText t => PObj t
  end.

Definition run_atomic {R} (m : py (database tables) R) : py (database tables) R := λ w,
  match m w with
  | (Ok a, w') => (Ok a, w')
  | (Raise e, w') => (Raise e, set_db (w_db w) w')
  end.

#[export] Instance memory_orm : Django tables := {
  row_by t m attname v := find (λ r, bool_decide (getattr r attname = v)) (table_rows t m);
  row_by_pk t m k := find (λ r, bool_decide (pk r = k)) (table_rows t m);
  to_python _ j := Ok (json_value j);
  json_default v := Ok (JStr (py_str v));
  digest_of := payload_text;
  atomic := @run_atomic;
  atomic_spec := λ R m w, eq_refl;
}.

(** [Model.save_base] of the in-memory ORM: replace the row with the same primary
    key, or add one. *)
Definition native_save (m : model) : method (A:=tables) := λ inst w,
  let t := db_app (w_db w) in
  let others := filter (λ x, ¬ (x.1 = label m ∧ pk x.2 = pk inst)) t in
  (Ok inst, set_db (set_app (others ++ [(label m, inst)]) (w_db w)) w).

Lemma native_save_plain m : plain_method (native_save m).
Proof. intros i w. done. Qed.

Lemma native_save_preserves m i : preserves (history_ok ∘ w_db) (native_save m i).
Proof. by intros w. Qed.

Lemma native_save_extends m i : respects (on_db extends) (native_save m i).
Proof. intros w. unfold on_db. intros key. split; [by eauto | done]. Qed.

Definition empty_db : database tables := Database [] ∅ ∅.

Lemma empty_history_ok : history_ok empty_db.
Proof. intros key. simpl. by rewrite !lookup_empty. Qed.

(** ** A running example: alice saves an invoice in scope acme *)

Definition logged_in : world (database tables) :=
  World empty_db (Some alice) None ∅ 10 "2026-01-01T00:00:00Z".

Definition an_invoice (amount : Z) : row :=
  {| pk := PInt 1;
     attrs := list_to_map [("tenant", PStr "acme"); ("amount", PInt amount); ("status", PStr "draft")] |}.

Definition save_invoice (r : row) : py (database tables) row :=
  save_base test_registry invoice_registration (native_save Invoice) false r.

(** After two saves. *)
Definition saved_once : world (database tables) := (save_invoice (an_invoice 10) logged_in).2.
Definition saved_twice : world (database tables) := (save_invoice (an_invoice 20) saved_once).2.

Definition invoice_key : resource_key := ("testapp.invoice", "1").

Example saved_twice_actions :
  e_action <$> events_of (w_db saved_twice) invoice_key = ["create"; "update"].
Proof. vm_compute. reflexivity. Qed.

Lemma saved_twice_ok : history_ok (w_db saved_twice).
Proof.
  apply save_base_preserves; [intros; apply native_save_preserves|].
  apply save_base_preserves; [intros; apply native_save_preserves|]. apply empty_history_ok.
Qed.

(** The runs the witnesses below start from. *)
Lemma second_save_run :
  save_base test_registry invoice_registration (native_save Invoice) false (an_invoice 20) saved_once
  = (Ok (an_invoice 20), saved_twice).
Proof. vm_compute. reflexivity. Qed.

Lemma delete_run :
  before_delete invoice_registration (an_invoice 20) saved_twice =
    (Ok tt, (before_delete invoice_registration (an_invoice 20) saved_twice).2).
Proof. vm_compute. reflexivity. Qed.

Lemma stored_invoice :
  row_by_pk (db_app (w_db saved_twice)) "testapp.Invoice" (PInt 1) = Some (an_invoice 20).
Proof. vm_compute. reflexivity. Qed.

Definition get_invoice : row → py (database tables) (option row) :=
  λ _, gets (λ w, row_by_pk (db_app (w_db w)) "testapp.Invoice" (PInt 1)).

Lemma forward_get_run :
  forward_get invoice_registration get_invoice (an_invoice 10) saved_once =
    (Ok (Some (an_invoice 10)), saved_once).
Proof. vm_compute. reflexivity. Qed.

(** ** Witnesses for the instance writes *)

Lemma save_base_audited_witness :
  ∃ inst' w' ctx, save_invoice (an_invoice 20) saved_once = (Ok inst', w') ∧
    w_current saved_once = Some ctx ∧
    ∃ e, default [] (db_events (w_db w') !! invoice_key) =
      default [] (db_events (w_db saved_once) !! invoice_key) ++ [e] ∧ e_actor e = actor ctx.
Proof.
  destruct (save_base_audited test_registry invoice_registration (native_save Invoice) false
    (an_invoice 20) saved_once (an_invoice 20) saved_twice (native_save_plain Invoice)
    second_save_run)
    as (ctx & br & b & a & af & key & w1 & _ & Hctx & _ & _ & _ & Ha & _ & Hkey & _ & (e & He & Hact & _) & _).
  exists (an_invoice 20), saved_twice, ctx. split; [exact second_save_run|].
  split; [exact Hctx|]. exists e. split; [|exact Hact].
  assert (key = invoice_key) as ->; [|exact He].
  assert (Hpk : pk a = PInt 1).
  { apply find_Some_elem in Ha as [_ Ha%bool_decide_eq_true_1]. exact Ha. }
  unfold resource_key_of in Hkey. rewrite Hpk in Hkey. vm_compute in Hkey. by injection Hkey as <-.
Defined.

Lemma save_base_in_scope_witness :
  ∃ ctx, w_current saved_once = Some ctx ∧ in_scope_of invoice_registration (an_invoice 20) ctx.
Proof.
  destruct (save_base_in_scope test_registry invoice_registration (native_save Invoice) false
    (an_invoice 20) saved_once (an_invoice 20) saved_twice eq_refl second_save_run)
    as (ctx & a & w1 & Hctx & _ & _ & Hin & _).
  exists ctx. split; [exact Hctx | exact Hin].
Defined.

(** Bob, working in scope b. *)
Definition bob : ScopeContext :=
  {| ctx_id := 8; actor := "bob"; scope := "b"; reason := ""; request_id := "" |}.

Definition as_bob : world (database tables) := set_current (Some bob) saved_once.

Lemma save_base_rejects_foreign_witness :
  save_invoice (setattr (an_invoice 99) "tenant" (PStr "b")) as_bob =
    (Raise (ScopeViolation "testapp.Invoice belongs to a different scope."), as_bob).
Proof.
  apply (save_base_rejects_foreign test_registry invoice_registration (native_save Invoice)
    (setattr (an_invoice 99) "tenant" (PStr "b")) as_bob bob (an_invoice 10) "acme"
    (PStr "acme") (PStr "b"));
    first [done | vm_compute; reflexivity].
Defined.

Lemma delete_audited_witness :
  ∃ ctx before e, w_current saved_twice = Some ctx ∧
    snapshot invoice_registration (Some (an_invoice 20)) = Ok before ∧
    e_action e = "delete" ∧ e_before e = before ∧
    (before_delete invoice_registration (an_invoice 20) saved_twice).1 = Ok tt.
Proof.
  destruct (delete_audited invoice_registration (an_invoice 20) saved_twice
    (before_delete invoice_registration (an_invoice 20) saved_twice).2 (an_invoice 20)
    ltac:(discriminate) stored_invoice delete_run)
    as (ctx & before & key & e & Hctx & Hb & _ & _ & _ & Hact & _ & He & _).
  exists ctx, before, e. split_and!; try assumption. by rewrite delete_run.
Defined.

Lemma writes_keep_history_witness :
  history_ok (w_db (save_base test_registry invoice_registration (native_save Invoice) false
    (an_invoice 10) logged_in).2).
Proof.
  destruct (writes_keep_history test_registry invoice_registration (native_save Invoice) false
    (an_invoice 10) (native_save_preserves Invoice) (native_save_extends Invoice)) as [Hkeep _].
  exact (Hkeep logged_in empty_history_ok).
Defined.

Lemma forward_get_in_scope_witness :
  ∃ ctx, w_current saved_once = Some ctx ∧ in_scope_of invoice_registration (an_invoice 10) ctx.
Proof.
  exact (forward_get_in_scope invoice_registration get_invoice (an_invoice 10) saved_once
    (an_invoice 10) saved_once eq_refl forward_get_run).
Defined.

Lemma save_base_all_or_nothing_witness :
  save_invoice (an_invoice 1) (idle empty_db) = (Raise MissingContext, idle empty_db).
Proof.
  destruct (save_base_all_or_nothing test_registry invoice_registration (native_save Invoice) false
    (an_invoice 1) (idle empty_db)) as [Hnone _].
  exact (Hnone eq_refl).
Defined.

(** ** Reading, baselining and restoring history *)

(** [Model.save(update_fields=ups)]: the stored row takes the listed fields of the
    instance. *)
Definition native_update (m : model) (ups : list string) : method (A:=tables) := λ inst w,
  let write r := foldl (λ r n, let a := f_attname (get_field m n) in setattr r a (getattr inst a)) r ups in
  let t := (λ x, if decide (x.1 = label m ∧ pk x.2 = pk inst) then (x.1, write x.2) else x)
             <$> db_app (w_db w) in
  (Ok inst, set_db (set_app t (w_db w)) w).

Lemma native_update_plain m ups : plain_method (native_update m ups).
Proof. intros i w. done. Qed.

(** The primary keys of the invoices of a scope. *)
Definition select_invoices (t : tables) (sc : string) : list pyval :=
  pk <$> filter (λ r, getattr r "tenant" = PStr sc) (table_rows t "testapp.Invoice").

Definition restore_invoice (revision expected : nat) : py (database tables) row :=
  restore invoice_registration
    (λ r ups, wrap_method (save_base test_registry invoice_registration (native_update Invoice ups) false) r)
    (PInt 1) revision expected.

Definition restored : world (database tables) := (restore_invoice 1 2 saved_twice).2.

Example restored_events :
  (λ e, (e_action e, (default ∅ (e_after e)) !! "amount")) <$> events_of (w_db restored) invoice_key =
    [("create", Some (JInt 10)); ("update", Some (JInt 20)); ("restore", Some (JInt 10))].
Proof. vm_compute. reflexivity. Qed.

Lemma restore_run : restore_invoice 1 2 saved_twice = (Ok (an_invoice 10), restored).
Proof. vm_compute. reflexivity. Qed.

Lemma verify_run :
  verify_history invoice_registration (PInt 1) saved_twice =
    (Ok {| v_valid := true; v_events := 2; v_detail := "" |}, saved_twice).
Proof. vm_compute. reflexivity. Qed.

(** Two invoices that were stored before the model was registered. *)
Definition another_invoice : row :=
  {| pk := PInt 2;
     attrs := list_to_map [("tenant", PStr "acme"); ("amount", PInt 7); ("status", PStr "paid")] |}.

Definition legacy_rows : world (database tables) :=
  set_db (Database [("testapp.Invoice", an_invoice 10); ("testapp.Invoice", another_invoice)] ∅ ∅)
    logged_in.

Definition backfilled : world (database tables) :=
  (backfill invoice_registration select_invoices false 500 legacy_rows).2.

Definition two_created : BackfillResult :=
  {| examined := 2; pending := 2; created := 2; skipped := 0; dry_run := false |}.

Lemma backfill_run_legacy :
  backfill invoice_registration select_invoices false 500 legacy_rows = (Ok two_created, backfilled).
Proof. vm_compute. reflexivity. Qed.

Lemma selected_keys :
  select_invoices (db_app (w_db legacy_rows)) (scope alice) = [PInt 1; PInt 2].
Proof. vm_compute. reflexivity. Qed.

Lemma find_pk (m : string) (t : tables) k r : row_by_pk t m k = Some r → pk r = k.
Proof. by intros [_ H%bool_decide_eq_true_1]%find_Some_elem. Qed.

Lemma memory_keyed c pks : keyed (A:=tables) c pks.
Proof. intros a k r _. apply find_pk. Qed.

Lemma selected_distinct :
  distinct_keys invoice_registration (select_invoices (db_app (w_db legacy_rows)) (scope alice)).
Proof.
  rewrite selected_keys. split.
  - repeat constructor; set_solver.
  - intros k1 k2 key. rewrite !elem_of_cons, !elem_of_nil.
    intros [-> | [-> | []]] [-> | [-> | []]] H1 H2; try reflexivity;
      vm_compute in H1, H2; congruence.
Qed.

(** ** Witnesses for the history functions *)

Lemma verify_history_exact_witness :
  ∃ res, db_resources (w_db saved_twice) !! invoice_key = Some res ∧
    head_ok invoice_key res (events_of (w_db saved_twice) invoice_key).
Proof.
  destruct (verify_history_exact invoice_registration (PInt 1) saved_twice _ _ verify_run)
    as (_ & key & Hkey & Hiff & _).
  vm_compute in Hkey. injection Hkey as <-. exact (proj1 Hiff eq_refl).
Defined.

Lemma tamper_evident_witness :
  events_of (w_db saved_twice) invoice_key = events_of (w_db saved_twice) invoice_key ∨
  digest_collision.
Proof.
  destruct (db_resources (w_db saved_twice) !! invoice_key) as [res|] eqn:Hres;
    [|vm_compute in Hres; discriminate].
  exact (tamper_evident invoice_registration (PInt 1) saved_twice saved_twice _ _ invoice_key
    res res eq_refl Hres Hres eq_refl eq_refl verify_run verify_run eq_refl eq_refl).
Defined.

Lemma history_authorized_witness :
  history invoice_registration (PInt 1) (set_current None saved_twice) =
    (Raise MissingContext, set_current None saved_twice).
Proof.
  destruct (history_authorized invoice_registration (PInt 1) (set_current None saved_twice))
    as (_ & Hnone & _).
  exact (Hnone eq_refl).
Defined.

Lemma backfill_idempotent_witness :
  backfill invoice_registration select_invoices false 500 backfilled =
    (Ok {| examined := length (select_invoices (db_app (w_db legacy_rows)) (scope alice));
           pending := 0; created := 0;
           skipped := length (select_invoices (db_app (w_db legacy_rows)) (scope alice));
           dry_run := false |}, backfilled).
Proof.
  destruct (backfill_idempotent invoice_registration select_invoices 500 legacy_rows two_created
    backfilled alice eq_refl (memory_keyed _ _) backfill_run_legacy)
    as (_ & _ & _ & _ & _ & _ & _ & H).
  exact H.
Defined.

Lemma backfill_preview_exact_witness :
  backfill invoice_registration select_invoices true 500 legacy_rows =
    (Ok {| examined := 2; pending := 2; created := 0; skipped := 0; dry_run := true |}, legacy_rows).
Proof.
  exact (backfill_preview_exact invoice_registration select_invoices 500 legacy_rows two_created
    backfilled alice eq_refl (memory_keyed _ _) selected_distinct backfill_run_legacy).
Defined.

Lemma restore_audited_witness :
  ∃ ctx key' e, w_current saved_twice = Some ctx ∧
    default [] (db_events (w_db restored) !! key') =
      default [] (db_events (w_db saved_twice) !! key') ++ [e] ∧
    e_actor e = actor ctx ∧ e_action e = "restore".
Proof.
  destruct (restore_audited test_registry invoice_registration (native_update Invoice) (PInt 1) 1 2
    saved_twice (an_invoice 10) restored (native_update_plain Invoice)
    ltac:(by intros ups i w j w1 [= -> _]) restore_run)
    as (ctx & x & y & ups & key & after & w1 & Hctx & _ & _ & _ & _ & _ & _ & _ & _ & _ &
        a & key' & e & _ & _ & Hev & _ & Hact & Hre).
  exists ctx, key', e. split_and!; assumption.
Defined.

Lemma restore_all_or_nothing_witness :
  (restore_invoice 1 2 logged_in).1 =
    Raise (HistoryConflict "Deleted/missing rows cannot be resurrected by restore().").
Proof.
  destruct (restore_all_or_nothing invoice_registration
    (λ r ups, wrap_method (save_base test_registry invoice_registration (native_update Invoice ups) false) r)
    (PInt 1) 1 2 logged_in) as [_ H].
  exact (H alice eq_refl (or_intror eq_refl)).
Defined.

(** ** Querysets over the in-memory ORM *)

Definition distinct_rows (l : list row) : list row :=
  foldr (λ r acc, if decide (pk r ∈ (pk <$> acc)) then acc else r :: acc) [] l.

Lemma distinct_rows_unique l : NoDup (pk <$> distinct_rows l).
Proof.
  induction l as [|r l IH]; simpl; [constructor|]. case_decide; [done|].
  rewrite fmap_cons. by apply NoDup_cons.
Qed.

#[export] Instance memory_tables : DjangoTables tables := {
  table t m := distinct_rows (table_rows t m);
  table_pk_unique t m := distinct_rows_unique (table_rows t m);
}.

(** [update(status="sent")] on the rows with the given keys. *)
Definition native_set_status (ks : list pyval) : py (database tables) nat := λ w,
  let t := db_app (w_db w) in
  let hit (x : string * row) := bool_decide (x.1 = "testapp.Invoice" ∧ pk x.2 ∈ ks) in
  (Ok (length (filter (λ x, hit x = true) t)),
   set_db (set_app ((λ x, if hit x then (x.1, setattr x.2 "status" (PStr "sent")) else x) <$> t)
     (w_db w)) w).

Definition native_insert (l : list row) : py (database tables) (list row) := λ w,
  (Ok l, set_db (set_app (db_app (w_db w) ++ (pair "testapp.Invoice" <$> l)) (w_db w)) w).

Lemma native_set_status_plain ks : plain_write (native_set_status ks).
Proof. by intros w. Qed.

Lemma native_insert_plain l : plain_write (native_insert l).
Proof. by intros w. Qed.

Definition invoices : queryset tables :=
  match (get_queryset invoice_registration true saved_twice).1 with
  | Ok qs => qs
  | Raise _ => Queryset None (Query None (λ _ _, false) [] false false) false None
  end.

Lemma invoices_run : get_queryset invoice_registration true saved_twice = (Ok invoices, saved_twice).
Proof. vm_compute. reflexivity. Qed.

Lemma fetch_run :
  ∃ qs, _fetch_all invoice_registration invoices saved_twice = (Ok (qs, [an_invoice 20]), saved_twice).
Proof. eexists. vm_compute. reflexivity. Qed.

Definition status_sent : world (database tables) :=
  (update test_registry invoice_registration invoices ["status"] native_set_status saved_twice).2.

Lemma update_run :
  update test_registry invoice_registration invoices ["status"] native_set_status saved_twice
  = (Ok 1, status_sent).
Proof. vm_compute. reflexivity. Qed.

Definition bulk_sent : world (database tables) :=
  (bulk_update test_registry invoice_registration invoices [an_invoice 20] ["status"]
     native_set_status saved_twice).2.

Lemma bulk_update_run :
  bulk_update test_registry invoice_registration invoices [an_invoice 20] ["status"]
    native_set_status saved_twice = (Ok 1, bulk_sent).
Proof. vm_compute. reflexivity. Qed.

Definition bulk_created : world (database tables) :=
  (bulk_create test_registry invoice_registration invoices [another_invoice] false native_insert
     saved_twice).2.

Lemma bulk_create_run :
  bulk_create test_registry invoice_registration invoices [another_invoice] false native_insert
    saved_twice = (Ok [another_invoice], bulk_created).
Proof. vm_compute. reflexivity. Qed.

(** invoice LEFT OUTER JOIN child, as Django renders it. *)
Definition child_joins : alias_map :=
  [("testapp_invoice", {| table_name := "testapp.Invoice"; table_alias := "testapp_invoice";
      parent_alias := None; scoped_by := None |});
   ("testapp_child", {| table_name := "testapp.Child"; table_alias := "testapp_child";
      parent_alias := Some "testapp_invoice"; scoped_by := None |})].

Definition plain_join_sql (j : join) : string * list pyval := (table_name j, []).

Definition child_from_clause (w : world (database tables)) :=
  get_from_clause plain_join_sql id id label (λ _ c, c) PStr (λ _, true)
    [invoice_registration; child_registration] (Some alice) (w, child_joins).

Lemma child_from_clause_run :
  child_from_clause saved_twice =
    (Ok [("testapp.Invoice", []);
         ("testapp.Child AND testapp_child.tenant = %s", [PStr "acme"])],
     (saved_twice, child_joins)).
Proof. vm_compute. reflexivity. Qed.

(** ** Witnesses for the querysets *)

Lemma alice_genuine : genuine (λ _, alice) (w_current saved_twice).
Proof. intros x Hx. vm_compute in Hx. by injection Hx as <-. Qed.

Lemma queries_in_scope_witness :
  ∃ ctx, w_current saved_twice = Some ctx ∧ selects invoice_registration ctx (an_invoice 20).
Proof.
  destruct fetch_run as [qs Hrun].
  destruct (queries_in_scope (λ _, alice) invoice_registration invoices saved_twice _ saved_twice
    eq_refl (reach_manager _ _ saved_twice invoices saved_twice true alice_genuine invoices_run)
    alice_genuine Hrun) as (ctx & Hctx & Hrows).
  exists ctx. split; [exact Hctx|]. apply Hrows. left.
Defined.

Lemma stale_queryset_refused_witness :
  (_fetch_all invoice_registration invoices as_bob).1 =
    Raise (ScopeViolation "Evaluate a scoped queryset within the context that created it.").
Proof.
  destruct (stale_queryset_refused invoice_registration invoices as_bob
    (ScopeViolation "Evaluate a scoped queryset within the context that created it.")
    eq_refl (conj eq_refl eq_refl)) as [H _].
  exact (f_equal fst H).
Defined.

Lemma queryset_update_audited_witness :
  ∃ ctx w1, w_current saved_twice = Some ctx ∧
    updates_logged invoice_registration ctx (selected invoice_registration invoices (w_db saved_twice))
      (db_app (w_db w1)) (w_db saved_twice) (w_db status_sent).
Proof.
  destruct (queryset_update_audited test_registry invoice_registration invoices ["status"]
    native_set_status saved_twice 1 status_sent ltac:(discriminate) native_set_status_plain update_run)
    as (ctx & w1 & Hctx & _ & _ & _ & _ & Hlog).
  exists ctx, w1. split; [exact Hctx|exact Hlog].
Defined.

Lemma bulk_update_audited_witness :
  ∃ ctx, w_current saved_twice = Some ctx ∧ NoDup (pk <$> [an_invoice 20]).
Proof.
  destruct (bulk_update_audited test_registry invoice_registration invoices [an_invoice 20] ["status"]
    native_set_status saved_twice 1 bulk_sent native_set_status_plain bulk_update_run)
    as (_ & Hnd & _ & ctx & w1 & Hctx & _).
  exists ctx. split; [exact Hctx|exact Hnd].
Defined.

Lemma bulk_create_audited_witness :
  ∃ ctx log w1, w_current saved_twice = Some ctx ∧
    logged (set_app (db_app (w_db w1)) (w_db saved_twice)) (w_db bulk_created) log.
Proof.
  destruct (bulk_create_audited test_registry invoice_registration invoices [another_invoice] false
    native_insert saved_twice [another_invoice] bulk_created native_insert_plain bulk_create_run)
    as (_ & _ & ctx & w1 & log & Hctx & _ & _ & _ & Hlog).
  exists ctx, log, w1. split; [exact Hctx|exact Hlog].
Defined.

Lemma bulk_writes_all_or_nothing_witness :
  w_db (update test_registry invoice_registration invoices ["tenant"] native_set_status saved_twice).2
    = w_db saved_twice.
Proof.
  destruct (bulk_writes_all_or_nothing (R:=unit) test_registry invoice_registration invoices [] ["tenant"]
    false native_set_status native_insert (mret tt)) as [H _].
  apply (H saved_twice (UnsupportedOperation
    "Queryset mutations cannot change primary keys or scope.")).
  vm_compute. reflexivity.
Defined.

Lemma joins_scoped_witness :
  Forall2 (λ x clause,
    match join_config label [invoice_registration; child_registration] x.2 with
    | Some c => ∃ sql params, clause = (sql +:+ " AND " +:+ table_alias x.2 +:+ "." +:+ scope_field c
        +:+ " = %s", params ++ [PStr "acme"]) ∧
        same_object (w_current saved_twice) (Some alice) = true
    | None => scoped_by x.2 = None → clause = plain_join_sql x.2
    end) child_joins [("testapp.Invoice", []);
         ("testapp.Child AND testapp_child.tenant = %s", [PStr "acme"])].
Proof.
  destruct (joins_scoped plain_join_sql id id label (λ _ c, c) PStr (λ _, true)
    [invoice_registration; child_registration] alice saved_twice child_joins _ _ _
    ltac:(repeat constructor; set_solver) child_from_clause_run) as (_ & _ & H).
  exact (H _ eq_refl).
Defined.
