(* ===== verification/LegacyTypes.v ===== *)
(** * Legacy v1: core types (legacy/v1/scoped/types.py)

    Lifecycles, action types and the URN grammar shared by every layer of the
    v1 framework. *)

From Stdlib Require Import Ascii.
From S2P Require Import Prelude.

(** ** Lifecycles *)

Inductive Lifecycle := DRAFT | ACTIVE | DEPRECATED | ARCHIVED.

#[export] Instance Lifecycle_eq_dec : EqDecision Lifecycle.
Proof. solve_decision. Defined.

Definition lifecycle_name (l : Lifecycle) : string :=
  match l with
  | DRAFT => "DRAFT" | ACTIVE => "ACTIVE" | DEPRECATED => "DEPRECATED" | ARCHIVED => "ARCHIVED"
  end.

(** [Lifecycle[name]]. *)
Definition lifecycle_of_name (s : string) : option Lifecycle :=
  find (λ l, bool_decide (lifecycle_name l = s)) [DRAFT; ACTIVE; DEPRECATED; ARCHIVED].

(** ** Action types *)

Module ActionType.

Inductive t :=
  | CREATE
  | READ
  | UPDATE
  | DELETE
  | SHARE
  | REVOKE
  | REGISTER
  | UNREGISTER
  | RULE_CHANGE
  | ROLLBACK
  | SCOPE_CREATE
  | SCOPE_MODIFY
  | SCOPE_DISSOLVE
  | MEMBERSHIP_CHANGE
  | OWNERSHIP_TRANSFER
  | LIFECYCLE_CHANGE
  | ACCESS_CHECK
  | PROJECTION
  | ENV_SPAWN
  | ENV_SUSPEND
  | ENV_RESUME
  | ENV_COMPLETE
  | ENV_DISCARD
  | ENV_PROMOTE
  | ENV_SNAPSHOT
  | STAGE_TRANSITION
  | FLOW_PUSH
  | PROMOTION
  | DEPLOY
  | DEPLOY_ROLLBACK
  | GATE_CHECK
  | SECRET_CREATE
  | SECRET_READ
  | SECRET_ROTATE
  | SECRET_REVOKE
  | SECRET_REF_GRANT
  | SECRET_REF_RESOLVE
  | INTEGRATION_CONNECT
  | INTEGRATION_DISCONNECT
  | PLUGIN_INSTALL
  | PLUGIN_ACTIVATE
  | PLUGIN_SUSPEND
  | PLUGIN_UNINSTALL
  | PLUGIN_PERMISSION_GRANT
  | PLUGIN_PERMISSION_REVOKE
  | HOOK_REGISTER
  | HOOK_DEACTIVATE
  | HOOK_EXECUTE
  | CONNECTOR_PROPOSE
  | CONNECTOR_SUBMIT
  | CONNECTOR_APPROVE
  | CONNECTOR_REJECT
  | CONNECTOR_SUSPEND
  | CONNECTOR_REVOKE
  | CONNECTOR_SYNC
  | CONNECTOR_POLICY_ADD
  | MARKETPLACE_PUBLISH
  | MARKETPLACE_INSTALL
  | MARKETPLACE_VERSION_UPDATE
  | MARKETPLACE_DEPRECATE
  | MARKETPLACE_REMOVE
  | MARKETPLACE_VISIBILITY_CHANGE
  | MARKETPLACE_REVIEW
  | CONTRACT_CREATE
  | CONTRACT_UPDATE
  | CONTRACT_VALIDATE
  | BLOB_CREATE
  | BLOB_READ
  | BLOB_DELETE
  | RATE_LIMIT_CHECK
  | QUOTA_CHECK
  | FEATURE_FLAG_CHECK
  | REDACTION_APPLY
  | CONFIG_SET
  | CONFIG_DELETE
  | TEMPLATE_CREATE
  | TEMPLATE_UPDATE
  | TEMPLATE_INSTANTIATE
  | EXPORT
  | IMPORT
  | EVENT_EMIT
  | EVENT_SUBSCRIBE
  | EVENT_UNSUBSCRIBE
  | WEBHOOK_CREATE
  | WEBHOOK_DELETE
  | WEBHOOK_DELIVER
  | NOTIFICATION_CREATE
  | NOTIFICATION_READ
  | NOTIFICATION_DISMISS
  | NOTIFICATION_RULE_CREATE
  | SCHEDULE_CREATE
  | SCHEDULE_ARCHIVE
  | JOB_ENQUEUE
  | JOB_START
  | JOB_COMPLETE
  | JOB_FAIL
  | JOB_CANCEL.

#[global] Instance t_eq_dec : EqDecision t.
Proof. solve_decision. Defined.

Definition value (a : t) : string :=
  match a with
  | CREATE => "create"
  | READ => "read"
  | UPDATE => "update"
  | DELETE => "delete"
  | SHARE => "share"
  | REVOKE => "revoke"
  | REGISTER => "register"
  | UNREGISTER => "unregister"
  | RULE_CHANGE => "rule_change"
  | ROLLBACK => "rollback"
  | SCOPE_CREATE => "scope_create"
  | SCOPE_MODIFY => "scope_modify"
  | SCOPE_DISSOLVE => "scope_dissolve"
  | MEMBERSHIP_CHANGE => "membership_change"
  | OWNERSHIP_TRANSFER => "ownership_transfer"
  | LIFECYCLE_CHANGE => "lifecycle_change"
  | ACCESS_CHECK => "access_check"
  | PROJECTION => "projection"
  | ENV_SPAWN => "env_spawn"
  | ENV_SUSPEND => "env_suspend"
  | ENV_RESUME => "env_resume"
  | ENV_COMPLETE => "env_complete"
  | ENV_DISCARD => "env_discard"
  | ENV_PROMOTE => "env_promote"
  | ENV_SNAPSHOT => "env_snapshot"
  | STAGE_TRANSITION => "stage_transition"
  | FLOW_PUSH => "flow_push"
  | PROMOTION => "promotion"
  | DEPLOY => "deploy"
  | DEPLOY_ROLLBACK => "deploy_rollback"
  | GATE_CHECK => "gate_check"
  | SECRET_CREATE => "secret_create"
  | SECRET_READ => "secret_read"
  | SECRET_ROTATE => "secret_rotate"
  | SECRET_REVOKE => "secret_revoke"
  | SECRET_REF_GRANT => "secret_ref_grant"
  | SECRET_REF_RESOLVE => "secret_ref_resolve"
  | INTEGRATION_CONNECT => "integration_connect"
  | INTEGRATION_DISCONNECT => "integration_disconnect"
  | PLUGIN_INSTALL => "plugin_install"
  | PLUGIN_ACTIVATE => "plugin_activate"
  | PLUGIN_SUSPEND => "plugin_suspend"
  | PLUGIN_UNINSTALL => "plugin_uninstall"
  | PLUGIN_PERMISSION_GRANT => "plugin_permission_grant"
  | PLUGIN_PERMISSION_REVOKE => "plugin_permission_revoke"
  | HOOK_REGISTER => "hook_register"
  | HOOK_DEACTIVATE => "hook_deactivate"
  | HOOK_EXECUTE => "hook_execute"
  | CONNECTOR_PROPOSE => "connector_propose"
  | CONNECTOR_SUBMIT => "connector_submit"
  | CONNECTOR_APPROVE => "connector_approve"
  | CONNECTOR_REJECT => "connector_reject"
  | CONNECTOR_SUSPEND => "connector_suspend"
  | CONNECTOR_REVOKE => "connector_revoke"
  | CONNECTOR_SYNC => "connector_sync"
  | CONNECTOR_POLICY_ADD => "connector_policy_add"
  | MARKETPLACE_PUBLISH => "marketplace_publish"
  | MARKETPLACE_INSTALL => "marketplace_install"
  | MARKETPLACE_VERSION_UPDATE => "marketplace_version_update"
  | MARKETPLACE_DEPRECATE => "marketplace_deprecate"
  | MARKETPLACE_REMOVE => "marketplace_remove"
  | MARKETPLACE_VISIBILITY_CHANGE => "marketplace_visibility_change"
  | MARKETPLACE_REVIEW => "marketplace_review"
  | CONTRACT_CREATE => "contract_create"
  | CONTRACT_UPDATE => "contract_update"
  | CONTRACT_VALIDATE => "contract_validate"
  | BLOB_CREATE => "blob_create"
  | BLOB_READ => "blob_read"
  | BLOB_DELETE => "blob_delete"
  | RATE_LIMIT_CHECK => "rate_limit_check"
  | QUOTA_CHECK => "quota_check"
  | FEATURE_FLAG_CHECK => "feature_flag_check"
  | REDACTION_APPLY => "redaction_apply"
  | CONFIG_SET => "config_set"
  | CONFIG_DELETE => "config_delete"
  | TEMPLATE_CREATE => "template_create"
  | TEMPLATE_UPDATE => "template_update"
  | TEMPLATE_INSTANTIATE => "template_instantiate"
  | EXPORT => "export"
  | IMPORT => "import"
  | EVENT_EMIT => "event_emit"
  | EVENT_SUBSCRIBE => "event_subscribe"
  | EVENT_UNSUBSCRIBE => "event_unsubscribe"
  | WEBHOOK_CREATE => "webhook_create"
  | WEBHOOK_DELETE => "webhook_delete"
  | WEBHOOK_DELIVER => "webhook_deliver"
  | NOTIFICATION_CREATE => "notification_create"
  | NOTIFICATION_READ => "notification_read"
  | NOTIFICATION_DISMISS => "notification_dismiss"
  | NOTIFICATION_RULE_CREATE => "notification_rule_create"
  | SCHEDULE_CREATE => "schedule_create"
  | SCHEDULE_ARCHIVE => "schedule_archive"
  | JOB_ENQUEUE => "job_enqueue"
  | JOB_START => "job_start"
  | JOB_COMPLETE => "job_complete"
  | JOB_FAIL => "job_fail"
  | JOB_CANCEL => "job_cancel"
  end.

Definition all : list t :=
  [CREATE; READ; UPDATE; DELETE; SHARE; REVOKE; REGISTER; UNREGISTER; RULE_CHANGE; ROLLBACK;
   SCOPE_CREATE; SCOPE_MODIFY; SCOPE_DISSOLVE; MEMBERSHIP_CHANGE; OWNERSHIP_TRANSFER;
   LIFECYCLE_CHANGE; ACCESS_CHECK; PROJECTION; ENV_SPAWN; ENV_SUSPEND; ENV_RESUME;
   ENV_COMPLETE; ENV_DISCARD; ENV_PROMOTE; ENV_SNAPSHOT; STAGE_TRANSITION; FLOW_PUSH;
   PROMOTION; DEPLOY; DEPLOY_ROLLBACK; GATE_CHECK; SECRET_CREATE; SECRET_READ; SECRET_ROTATE;
   SECRET_REVOKE; SECRET_REF_GRANT; SECRET_REF_RESOLVE; INTEGRATION_CONNECT;
   INTEGRATION_DISCONNECT; PLUGIN_INSTALL; PLUGIN_ACTIVATE; PLUGIN_SUSPEND; PLUGIN_UNINSTALL;
   PLUGIN_PERMISSION_GRANT; PLUGIN_PERMISSION_REVOKE; HOOK_REGISTER; HOOK_DEACTIVATE;
   HOOK_EXECUTE; CONNECTOR_PROPOSE; CONNECTOR_SUBMIT; CONNECTOR_APPROVE; CONNECTOR_REJECT;
   CONNECTOR_SUSPEND; CONNECTOR_REVOKE; CONNECTOR_SYNC; CONNECTOR_POLICY_ADD;
   MARKETPLACE_PUBLISH; MARKETPLACE_INSTALL; MARKETPLACE_VERSION_UPDATE; MARKETPLACE_DEPRECATE;
   MARKETPLACE_REMOVE; MARKETPLACE_VISIBILITY_CHANGE; MARKETPLACE_REVIEW; CONTRACT_CREATE;
   CONTRACT_UPDATE; CONTRACT_VALIDATE; BLOB_CREATE; BLOB_READ; BLOB_DELETE; RATE_LIMIT_CHECK;
   QUOTA_CHECK; FEATURE_FLAG_CHECK; REDACTION_APPLY; CONFIG_SET; CONFIG_DELETE;
   TEMPLATE_CREATE; TEMPLATE_UPDATE; TEMPLATE_INSTANTIATE; EXPORT; IMPORT; EVENT_EMIT;
   EVENT_SUBSCRIBE; EVENT_UNSUBSCRIBE; WEBHOOK_CREATE; WEBHOOK_DELETE; WEBHOOK_DELIVER;
   NOTIFICATION_CREATE; NOTIFICATION_READ; NOTIFICATION_DISMISS; NOTIFICATION_RULE_CREATE;
   SCHEDULE_CREATE; SCHEDULE_ARCHIVE; JOB_ENQUEUE; JOB_START; JOB_COMPLETE; JOB_FAIL;
   JOB_CANCEL].

(** [ActionType(value)]. *)
Definition of_value (s : string) : option t := find (λ a, bool_decide (value a = s)) all.

Lemma all_complete a : a ∈ all.
Proof. apply list_elem_of_In. destruct a; vm_compute; tauto. Qed.

(** The stored text of an action determines it. *)
Lemma of_value_value a : of_value (value a) = Some a.
Proof. destruct a; vm_compute; reflexivity. Qed.

#[global] Instance value_inj : Inj (=) (=) value.
Proof.
  intros a b H. apply (f_equal of_value) in H. rewrite !of_value_value in H. by injection H.
Qed.
End ActionType.

Lemma lifecycle_of_name_name l : lifecycle_of_name (lifecycle_name l) = Some l.
Proof. by destruct l. Qed.

(** ** Decimal integers: Python's [int(text)] *)

Definition digit (c : ascii) : option Z :=
  let n := Z.of_nat (nat_of_ascii c) in
  if (48 <=? n)%Z && (n <=? 57)%Z then Some (n - 48)%Z else None.

(** [int(text, 16)] of a text of lower-case hexadecimal digits. *)
Definition hex_value (c : ascii) : option Z :=
  let n := Z.of_nat (nat_of_ascii c) in
  if (48 <=? n)%Z && (n <=? 57)%Z then Some (n - 48)%Z
  else if (97 <=? n)%Z && (n <=? 102)%Z then Some (n - 87)%Z else None.

Fixpoint hex_int (s : string) (acc : Z) : option Z :=
  match s with
  | EmptyString => Some acc
  | String c s' => match hex_value c with Some d => hex_int s' (16 * acc + d)%Z | None => None end
  end.

Fixpoint all_hex (s : string) : bool :=
  match s with
  | EmptyString => true
  | String c s' => match hex_value c with Some _ => all_hex s' | None => false end
  end.

(** Digits, with single underscores between them. *)
Fixpoint scan_int (s : string) (prev : bool) (acc : Z) : option Z :=
  match s with
  | EmptyString => if prev then Some acc else None
  | String c s' =>
      match digit c with
      | Some d => scan_int s' true (10 * acc + d)%Z
      | None => if Ascii.eqb c "_" && prev then scan_int s' false acc else None
      end
  end.

Definition is_space (c : ascii) : bool :=
  let n := nat_of_ascii c in (n =? 32) || ((9 <=? n) && (n <=? 13)) || ((28 <=? n) && (n <=? 31)).

Fixpoint lstrip (s : string) : string :=
  match s with String c s' => if is_space c then lstrip s' else s | EmptyString => s end.

Fixpoint rstrip (s : string) : string :=
  match s with
  | EmptyString => EmptyString
  | String c s' =>
      match rstrip s' with
      | EmptyString => if is_space c then EmptyString else String c EmptyString
      | r => String c r
      end
  end.

Definition py_int (s : string) : option Z :=
  match rstrip (lstrip s) with
  | String "-" s' => Z.opp <$> scan_int s' false 0
  | String "+" s' => scan_int s' false 0
  | s' => scan_int s' false 0
  end.

(** ** URNs *)

Record URN := { kind : string; namespace : string; urn_name : string; version : Z }.

#[export] Instance URN_eq_dec : EqDecision URN.
Proof. solve_decision. Defined.

(** The constructor, with [__post_init__]. *)
Definition new_URN (k n nm : string) (v : Z) : outcome URN :=
  if bool_decide (k = "") then Raise (ValueError "URN kind must be non-empty")
  else if bool_decide (n = "") then Raise (ValueError "URN namespace must be non-empty")
  else if bool_decide (nm = "") then Raise (ValueError "URN name must be non-empty")
  else if (v <? 1)%Z then Raise (ValueError ("URN version must be >= 1, got " +:+ pretty v))
  else Ok {| kind := k; namespace := n; urn_name := nm; version := v |}.

(** [__str__]. *)
Definition URN_str (u : URN) : string :=
  "scoped:" +:+ kind u +:+ ":" +:+ namespace u +:+ ":" +:+ urn_name u +:+ ":" +:+ pretty (version u).

(** [raw.split(":")] and [":".join(parts)]. *)
Fixpoint split_colon (s : string) : list string :=
  match s with
  | EmptyString => [""]
  | String c s' =>
      if Ascii.eqb c ":" then "" :: split_colon s'
      else match split_colon s' with
           | h :: t => String c h :: t
           | [] => [String c ""]
           end
  end.

Fixpoint join_colon (l : list string) : string :=
  match l with
  | [] => ""
  | [x] => x
  | x :: l' => x +:+ ":" +:+ join_colon l'
  end.

Definition URN_parse (raw : string) : outcome URN :=
  match split_colon raw with
  | first :: k :: n :: x :: y :: l =>
      if bool_decide (first = "scoped") then
        match py_int (default "" (last (x :: y :: l))) with
        | None => Raise (ValueError "invalid literal for int()")
        | Some v => new_URN k n (join_colon (removelast (x :: y :: l))) v
        end
      else Raise (ValueError ("Invalid URN: " +:+ raw))
  | _ => Raise (ValueError ("Invalid URN: " +:+ raw))
  end.

(** *** Lemmas *)

Fixpoint no_colon (s : string) : Prop :=
  match s with EmptyString => True | String c s' => c <> ":"%char /\ no_colon s' end.

Lemma split_colon_nonempty s : split_colon s <> [].
Proof.
  induction s as [|c s IH]; cbn; [done|]. destruct (Ascii.eqb c ":"); [done|].
  by destruct (split_colon s).
Qed.

Lemma split_colon_none s : no_colon s → split_colon s = [s].
Proof.
  induction s as [|c s IH]; cbn; [done|]. intros [Hc Hs].
  destruct (Ascii.eqb_spec c ":"); [done|]. by rewrite IH.
Qed.

Lemma split_colon_app a b : no_colon a → split_colon (a +:+ ":" +:+ b) = a :: split_colon b.
Proof.
  induction a as [|c a IH]; intros Ha; [done|]. destruct Ha as [Hc Ha]. specialize (IH Ha).
  change (split_colon (String c (a +:+ ":" +:+ b)) = String c a :: split_colon b).
  cbn [split_colon]. rewrite IH. by destruct (Ascii.eqb_spec c ":").
Qed.

Lemma split_colon_last a v : no_colon v → split_colon (a +:+ ":" +:+ v) = split_colon a ++ [v].
Proof.
  intros Hv. induction a as [|c a IH].
  { change (split_colon (String ":" v) = [""; v]). cbn [split_colon]. by rewrite split_colon_none. }
  change (split_colon (String c (a +:+ ":" +:+ v)) = split_colon (String c a) ++ [v]).
  cbn [split_colon]. rewrite IH. destruct (Ascii.eqb c ":"); [done|].
  destruct (split_colon a) eqn:Ha; [by apply split_colon_nonempty in Ha|done].
Qed.

Lemma join_split_colon s : join_colon (split_colon s) = s.
Proof.
  induction s as [|c s IH]; cbn; [done|].
  destruct (Ascii.eqb_spec c ":") as [->|Hc].
  - destruct (split_colon s) as [|h t] eqn:Hs; [by apply split_colon_nonempty in Hs|].
    change (String ":" (join_colon (h :: t)) = String ":" s). by rewrite IH.
  - destruct (split_colon s) as [|h t] eqn:Hs; [by apply split_colon_nonempty in Hs|].
    destruct t; cbn in *; by rewrite <-IH.
Qed.

Lemma split_colon_parts s x : x ∈ split_colon s → no_colon x.
Proof.
  revert x. induction s as [|c s IH]; cbn; intros x.
  { by intros ->%list_elem_of_singleton. }
  destruct (Ascii.eqb_spec c ":") as [|Hc].
  - intros [->|Hx]%elem_of_cons; [done|auto].
  - destruct (split_colon s) as [|h t]; [by intros ->%list_elem_of_singleton|].
    intros [->|Hx]%elem_of_cons; [|apply IH; by right]. split; [done|apply IH; left].
Qed.

(** Printing a number yields digits that read back as that number. *)
Fixpoint all_digits (s : string) : Prop :=
  match s with EmptyString => True | String c s' => is_Some (digit c) /\ all_digits s' end.

Lemma digit_char d : (d < 10)%N → digit (pretty_N_char d) = Some (Z.of_N d).
Proof.
  intros Hd. assert (∃ n, d = N.of_nat n ∧ n < 10) as (n & -> & Hn)
    by (exists (N.to_nat d); lia).
  do 10 (destruct n as [|n]; [done|]). lia.
Qed.

Lemma scan_pretty_go x s : scan_int (pretty_N_go x s) true 0 = scan_int s true (Z.of_N x).
Proof.
  revert s. induction (N.lt_wf_0 x) as [x _ IH]; intros s.
  destruct (decide (0 < x)%N) as [Hx|Hx].
  - rewrite pretty_N_go_step by done. rewrite IH by (apply N.div_lt; lia). cbn [scan_int].
    rewrite digit_char by (apply N.mod_lt; lia). f_equal.
    rewrite N2Z.inj_mod, N2Z.inj_div. pose proof (Z.div_mod (Z.of_N x) 10). lia.
  - assert (x = 0%N) as -> by lia. by rewrite pretty_N_go_0.
Qed.

Lemma all_digits_go x s : all_digits s → all_digits (pretty_N_go x s).
Proof.
  revert s. induction (N.lt_wf_0 x) as [x _ IH]; intros s Hs.
  destruct (decide (0 < x)%N) as [Hx|Hx].
  - rewrite pretty_N_go_step by done. apply IH; [apply N.div_lt; lia|]. split; [|done].
    rewrite digit_char by (apply N.mod_lt; lia). done.
  - assert (x = 0%N) as -> by lia. by rewrite pretty_N_go_0.
Qed.

Lemma hex_value_range c d : hex_value c = Some d → (0 ≤ d < 16)%Z.
Proof. unfold hex_value. case_match eqn:H1; [|case_match eqn:H2]; intros [= <-]; lia. Qed.

Lemma hex_int_total s acc : all_hex s = true → (0 ≤ acc)%Z → ∃ n, hex_int s acc = Some n ∧ (0 ≤ n)%Z.
Proof.
  revert acc. induction s as [|c s IH]; intros acc; simpl; [eauto|].
  destruct (hex_value c) as [d|] eqn:Hd; [|done]. intros Hs Hacc. apply hex_value_range in Hd.
  apply IH; [done|lia].
Qed.

Lemma all_hex_substring n m s : all_hex s = true → all_hex (String.substring n m s) = true.
Proof.
  revert n m. induction s as [|c s IH]; intros [|n] [|m]; simpl; try done;
    destruct (hex_value c) eqn:Hc; try done; intros Hs; simpl; rewrite ?Hc; auto.
Qed.

Lemma digit_range c : is_Some (digit c) → 48 ≤ nat_of_ascii c ≤ 57.
Proof.
  unfold digit. intros [d H].
  destruct ((48 <=? Z.of_nat (nat_of_ascii c))%Z && (Z.of_nat (nat_of_ascii c) <=? 57)%Z) eqn:Hb;
    [|done]. apply andb_true_iff in Hb as [?%Z.leb_le ?%Z.leb_le]. lia.
Qed.

Lemma digit_not_space c : is_Some (digit c) → is_space c = false.
Proof.
  intros H%digit_range. unfold is_space. rewrite !orb_false_iff, !andb_false_iff, Nat.eqb_neq, !Nat.leb_gt.
  lia.
Qed.

Lemma digits_lstrip s : all_digits s → lstrip s = s.
Proof. destruct s as [|c s]; [done|]. intros [Hc _]. cbn. by rewrite digit_not_space. Qed.

Lemma digits_rstrip s : all_digits s → rstrip s = s.
Proof.
  induction s as [|c s IH]; [done|]. intros [Hc Hs]. cbn. rewrite IH by done.
  destruct s; [by rewrite digit_not_space|done].
Qed.

Lemma digits_no_colon s : all_digits s → no_colon s.
Proof.
  induction s as [|c s IH]; [done|]. intros [Hc Hs]. split; [|auto].
  intros ->. apply digit_range in Hc. vm_compute in Hc. lia.
Qed.

Lemma py_int_digits s : all_digits s → s ≠ "" → py_int s = scan_int s true 0.
Proof.
  intros Hs Hne. unfold py_int. rewrite digits_lstrip, digits_rstrip by (rewrite ?digits_lstrip; done).
  destruct s as [|c s]; [done|]. destruct Hs as [Hc Hs].
  assert (Hsame : scan_int (String c s) false 0 = scan_int (String c s) true 0).
  { cbn. destruct Hc as [d Hc]. by rewrite Hc. }
  rewrite <-Hsame. apply digit_range in Hc.
  destruct c as [[] [] [] [] [] [] [] []]; try done; vm_compute in Hc; lia.
Qed.

Lemma pretty_positive v : (1 ≤ v)%Z →
  all_digits (pretty v) ∧ pretty v ≠ "" ∧ py_int (pretty v) = Some v.
Proof.
  intros Hv. destruct v as [|p|p]; [lia| |lia].
  assert (Hp : pretty (Z.pos p) = pretty_N_go (N.pos p) "") by reflexivity.
  assert (Hd : all_digits (pretty (Z.pos p))) by (rewrite Hp; by apply all_digits_go).
  assert (Hs : scan_int (pretty (Z.pos p)) true 0 = Some (Z.pos p))
    by (rewrite Hp, scan_pretty_go; done).
  assert (Hne : pretty (Z.pos p) ≠ "") by (intros H; by rewrite H in Hs).
  split_and!; [done|done|]. by rewrite py_int_digits.
Qed.

Lemma split_URN_str u :
  no_colon (kind u) → no_colon (namespace u) → (1 ≤ version u)%Z →
  split_colon (URN_str u) =
    "scoped" :: kind u :: namespace u :: split_colon (urn_name u) ++ [pretty (version u)].
Proof.
  intros Hk Hn Hv. unfold URN_str.
  change ("scoped:" +:+ kind u +:+ ":" +:+ namespace u +:+ ":" +:+ urn_name u +:+ ":" +:+ pretty (version u))
    with ("scoped" +:+ ":" +:+ kind u +:+ ":" +:+ namespace u +:+ ":" +:+ urn_name u +:+ ":"
      +:+ pretty (version u)).
  rewrite !split_colon_app by (done || by repeat split). rewrite split_colon_last; [done|].
  apply digits_no_colon, pretty_positive. done.
Qed.

Lemma URN_parse_parts raw k n rest :
  split_colon raw = "scoped" :: k :: n :: rest → 2 ≤ length rest →
  URN_parse raw = match py_int (default "" (last rest)) with
                  | None => Raise (ValueError "invalid literal for int()")
                  | Some v => new_URN k n (join_colon (removelast rest)) v
                  end.
Proof.
  intros H Hlen. unfold URN_parse. rewrite H. destruct rest as [|x [|y l]]; simpl in Hlen; [lia..|].
  by rewrite bool_decide_eq_true_2.
Qed.

(** The text of a URN whose kind and namespace have no colon parses back to it. *)
Lemma URN_parse_str k n nm v u :
  no_colon k → no_colon n → new_URN k n nm v = Ok u → URN_parse (URN_str u) = Ok u.
Proof.
  intros Hk Hn H. unfold new_URN in H. repeat case_bool_decide; try done.
  destruct (Z.ltb_spec v 1) as [|Hv]; [done|]. injection H as <-.
  destruct (pretty_positive v Hv) as (_ & _ & Hint).
  rewrite (URN_parse_parts _ k n (split_colon nm ++ [pretty v])); last first.
  { rewrite length_app. destruct (split_colon nm) eqn:Hs; [by apply split_colon_nonempty in Hs|].
    simpl. lia. }
  { by rewrite split_URN_str. }
  rewrite last_snoc, removelast_last, join_split_colon. simpl. rewrite Hint.
  unfold new_URN. rewrite !bool_decide_eq_false_2 by done.
  by rewrite (proj2 (Z.ltb_ge v 1)).
Qed.

(** Printing and parsing a URN are inverse: the text of a URN whose kind and
    namespace have no colon (its name may) parses back to it, and whatever
    parses is a valid URN: nonempty parts without stray colons and a version
    of at least 1. *)
Theorem urn_roundtrip :
  (∀ k n nm v u, no_colon k → no_colon n → new_URN k n nm v = Ok u → URN_parse (URN_str u) = Ok u) ∧
  (∀ raw u, URN_parse raw = Ok u →
    kind u ≠ "" ∧ namespace u ≠ "" ∧ urn_name u ≠ "" ∧ (1 ≤ version u)%Z ∧
    no_colon (kind u) ∧ no_colon (namespace u)).
Proof.
  split.
  - exact URN_parse_str.
  - intros raw u H. unfold URN_parse in H.
    pose proof (split_colon_parts raw) as Hparts.
    destruct (split_colon raw) as [|f [|k [|n [|x [|y l]]]]]; try done.
    case_bool_decide; [|done]. destruct (py_int _) as [v|]; [|done].
    unfold new_URN in H. repeat case_bool_decide; try done.
    destruct (Z.ltb_spec v 1); [done|]. injection H as <-. simpl.
    split_and!; try done; apply Hparts; set_solver.
Qed.

Definition user_urn : URN :=
  {| kind := "model"; namespace := "myapp"; urn_name := "user:abc123"; version := 12 |}.

Lemma urn_roundtrip_witness : URN_parse "scoped:model:myapp:user:abc123:12" = Ok user_urn.
Proof.
  destruct urn_roundtrip as [H _].
  apply (H "model" "myapp" "user:abc123" 12%Z user_urn); [by repeat split..|reflexivity].
Defined.
