(* ===== verification/PyFloat.v ===== *)
(** * Python's floats

    A float is an IEEE double, as the Standard Library's [SpecFloat] has it.  Comparison with
    ints is exact, [repr] is the shortest decimal that reads back, reading rounds to the
    nearest double. *)

From Stdlib Require Import Ascii SpecFloat.
From Stdlib Require QArith_base Qpower.
From S2P Require Import Prelude.

#[export] Instance spec_float_eq_dec : EqDecision spec_float.
Proof. solve_decision. Defined.

(** ** Numbers and their order *)

(** What [isinstance(x, (int, float))] accepts; a bool is an int. *)
Inductive py_number := NInt (z : Z) | NFloat (f : spec_float).

(** [m * 2 ** e], or no finite number. *)
Inductive extended := Finite (m e : Z) | Infinite (negative : bool) | NotANumber.

Definition signed (negative : bool) (m : Z) : Z := if negative then (- m)%Z else m.

Definition extended_of (x : py_number) : extended :=
  match x with
  | NInt z => Finite z 0
  | NFloat (S754_zero _) => Finite 0 0
  | NFloat (S754_finite s m e) => Finite (signed s (Z.pos m)) e
  | NFloat (S754_infinity s) => Infinite s
  | NFloat S754_nan => NotANumber
  end.

(** Both at the smaller exponent. *)
Definition dyadic_compare (a e b f : Z) : comparison :=
  let k := Z.min e f in (a * 2 ^ (e - k) ?= b * 2 ^ (f - k))%Z.

(** None: not comparable. *)
Definition num_compare (x y : py_number) : option comparison :=
  match extended_of x, extended_of y with
  | NotANumber, _ | _, NotANumber => None
  | Finite a e, Finite b f => Some (dyadic_compare a e b f)
  | Infinite s, Infinite t => Some (if Bool.eqb s t then Eq else if s then Lt else Gt)
  | Infinite s, Finite _ _ => Some (if s then Lt else Gt)
  | Finite _ _, Infinite s => Some (if s then Gt else Lt)
  end.

Definition num_ltb (x y : py_number) : bool := match num_compare x y with Some Lt => true | _ => false end.
Definition num_gtb (x y : py_number) : bool := match num_compare x y with Some Gt => true | _ => false end.
Definition num_eqb (x y : py_number) : bool := match num_compare x y with Some Eq => true | _ => false end.

Definition num_truthy (x : py_number) : bool :=
  match extended_of x with Finite m _ => negb (m =? 0)%Z | _ => true end.

(** ** Reading decimals *)

(** [10 ** n], 1 below zero. *)
Definition ten (n : Z) : positive := Z.to_pos (10 ^ Z.max n 0).

(** [d * 10 ** q] rounded to the nearest double, ties to even. *)
Definition decimal_float (negative : bool) (d : N) (q : Z) : spec_float :=
  match d with
  | N0 => S754_zero negative
  | Npos p => SFdiv 53 1024 (S754_finite negative (p * ten q) 0) (S754_finite false (ten (- q)) 0)
  end.

(** ** Writing decimals *)

Definition digits_of (n : Z) : Z := Z.of_nat (String.length (pretty n)).

(** A positive number [num / den] is below [10 ** k] and not below [10 ** (k - 1)]. *)
Definition magnitude (num den : Z) : Z :=
  let k := (digits_of num - digits_of den)%Z in
  if (den * Z.pos (ten k) <=? num * Z.pos (ten (- k)))%Z then (k + 1)%Z else k.

(** The nearest decimal with [n] digits, if one of the two next to the number reads back. *)
Definition decimal_of_length (m : positive) (e k : Z) (n : nat) : option (N * Z) :=
  let q := (k - Z.of_nat n)%Z in
  let num := (Z.pos m * 2 ^ Z.max e 0 * Z.pos (ten (- q)))%Z in
  let den := (2 ^ Z.max (- e) 0 * Z.pos (ten q))%Z in
  let low := Z.to_N (num / den) in
  let twice := (2 * (num mod den))%Z in
  let back d := bool_decide (decimal_float false d q = S754_finite false m e) in
  match back low, back (low + 1)%N with
  | true, true => Some (if (twice <? den)%Z || (twice =? den)%Z && N.even low then low else (low + 1)%N, q)
  | true, false => Some (low, q)
  | false, true => Some ((low + 1)%N, q)
  | false, false => None
  end.

Fixpoint first_decimal (m : positive) (e k : Z) (n turns : nat) : N * Z :=
  match turns with
  | O => (Z.to_N (Z.pos m * 2 ^ e), 0%Z)
  | S turns => match decimal_of_length m e k n with Some d => d | None => first_decimal m e k (S n) turns end
  end.

(** Seventeen digits are enough for a double. *)
Definition shortest (m : positive) (e : Z) : N * Z :=
  first_decimal m e (magnitude (Z.pos m * 2 ^ Z.max e 0) (2 ^ Z.max (- e) 0)) 1 17.

(** Without the zeros at its end. *)
Fixpoint strip_zeros (turns : nat) (d : N) (q : Z) : N * Z :=
  match turns with
  | O => (d, q)
  | S turns => if (d mod 10 =? 0)%N then strip_zeros turns (d / 10) (q + 1) else (d, q)
  end.

Fixpoint zeros (n : nat) : string := match n with O => "" | S n => String "0"%char (zeros n) end.

Definition exponent_text (x : Z) : string :=
  (if (x <? 0)%Z then "e-" else "e+") +:+ (if (Z.abs x <? 10)%Z then "0" else "") +:+ pretty (Z.abs_N x).

(** [repr] of the digits with the point [point] places behind the first of them. *)
Definition decimal_text (d : N) (q : Z) : string :=
  let text := pretty d in
  let len := String.length text in
  let point := (Z.of_nat len + q)%Z in
  if ((point <=? -4) || (16 <? point))%Z then
    String.substring 0 1 text +:+ (if len =? 1 then "" else "." +:+ String.substring 1 len text) +:+
      exponent_text (point - 1)
  else if (point <=? 0)%Z then "0." +:+ zeros (Z.to_nat (- point)) +:+ text
  else if (Z.of_nat len <=? point)%Z then text +:+ zeros (Z.to_nat point - len) +:+ ".0"
  else String.substring 0 (Z.to_nat point) text +:+ "." +:+ String.substring (Z.to_nat point) len text.

Definition sign_text (negative : bool) : string := if negative then "-" else "".

Definition finite_text (m : positive) (e : Z) : string :=
  let '(d, q) := shortest m e in
  let '(d, q) := strip_zeros 17 d q in
  decimal_text d q.

Definition float_repr (f : spec_float) : string :=
  match f with
  | S754_zero s => sign_text s +:+ "0.0"
  | S754_finite s m e => sign_text s +:+ finite_text m e
  | S754_infinity s => sign_text s +:+ "inf"
  | S754_nan => "nan"
  end.

(** [json.dumps]. *)
Definition float_json (f : spec_float) : string :=
  match f with
  | S754_infinity s => sign_text s +:+ "Infinity"
  | S754_nan => "NaN"
  | _ => float_repr f
  end.

Example float_texts :
  (λ x : N * Z, float_repr (decimal_float false x.1 x.2)) <$>
    [(1%N, (-1)%Z); (15%N, (-1)%Z); (1%N, 23%Z); (12345678901234567%N, 1%Z); (1%N, 16%Z); (1%N, 15%Z); (1%N, (-4)%Z);
     (12%N, (-6)%Z); (9007199254740993%N, 0%Z); (0%N, 0%Z); (1%N, 400%Z)]
  = ["0.1"; "1.5"; "1e+23"; "1.2345678901234566e+17"; "1e+16"; "1000000000000000.0"; "0.0001"; "1.2e-05";
     "9007199254740992.0"; "0.0"; "inf"].
Proof. vm_compute. reflexivity. Qed.

(** ** Microseconds of [timedelta(seconds=x)] *)

(** The whole part and the float of the fraction, both with the sign. *)
Definition modf (s : bool) (m : positive) (e : Z) : Z * spec_float :=
  let den := (2 ^ Z.max (- e) 0)%Z in
  let num := (Z.pos m * 2 ^ Z.max e 0)%Z in
  (signed s (num / den), binary_normalize 53 1024 (signed s (num mod den)) (Z.min e 0) s).

(** To the nearest int, ties to even. *)
Definition round_half_even (f : spec_float) : Z :=
  match f with
  | S754_finite s m e =>
      let den := (2 ^ Z.max (- e) 0)%Z in
      let num := (Z.pos m * 2 ^ Z.max e 0)%Z in
      let q := (num / den)%Z in
      let twice := (2 * (num mod den))%Z in
      signed s (if (twice <? den)%Z || (twice =? den)%Z && Z.even q then q else q + 1)
  | _ => 0%Z
  end.

Definition million : spec_float := S754_finite false 1000000 0.

Definition float_micros (f : spec_float) : outcome Z :=
  match f with
  | S754_zero _ => Ok 0%Z
  | S754_finite s m e =>
      let '(whole, fraction) := modf s m e in
      Ok (whole * 1000000 + round_half_even (SFmul 53 1024 fraction million))%Z
  | S754_infinity _ => Raise (OverflowError "cannot convert float infinity to integer")
  | S754_nan => Raise (ValueError "cannot convert float NaN to integer")
  end.

Example micros_of_floats :
  (λ x : N * Z, float_micros (decimal_float false x.1 x.2)) <$> [(15%N, (-1)%Z); (1%N, (-7)%Z); (25%N, (-7)%Z); (864%N, 2%Z)]
  = [Ok 1500000%Z; Ok 0%Z; Ok 2%Z; Ok 86400000000%Z].
Proof. vm_compute. reflexivity. Qed.

(** ** The order is that of the numbers *)

Definition dyadic (m e : Z) : QArith_base.Q :=
  QArith_base.Qmult (QArith_base.inject_Z m) (QArith_base.Qpower (QArith_base.inject_Z 2) e).

(** [x < y]: of finite numbers as rationals; nothing compares with a NaN. *)
Definition py_lt (x y : py_number) : Prop :=
  match extended_of x, extended_of y with
  | NotANumber, _ | _, NotANumber => False
  | Finite a e, Finite b f => QArith_base.Qlt (dyadic a e) (dyadic b f)
  | Infinite s, Infinite t => s = true ∧ t = false
  | Infinite s, Finite _ _ => s = true
  | Finite _ _, Infinite s => s = false
  end.

Lemma dyadic_at k a e : (k ≤ e)%Z → QArith_base.Qeq (dyadic (a * 2 ^ (e - k)) k) (dyadic a e).
Proof.
  intros Hk. unfold dyadic.
  rewrite QArith_base.inject_Z_mult, (Qpower.Zpower_Qpower 2 (e - k)) by lia.
  rewrite <-QArith_base.Qmult_assoc, <-Qpower.Qpower_plus by done. by rewrite Z.sub_add.
Qed.

Lemma dyadic_positive k : QArith_base.Qlt (QArith_base.inject_Z 0) (QArith_base.Qpower (QArith_base.inject_Z 2) k).
Proof. by apply Qpower.Qpower_0_lt. Qed.

Lemma dyadic_compare_exact a e b f :
  dyadic_compare a e b f = QArith_base.Qcompare (dyadic a e) (dyadic b f).
Proof.
  unfold dyadic_compare. set (k := Z.min e f).
  rewrite <-(dyadic_at k a e), <-(dyadic_at k b f) by lia. unfold dyadic.
  set (x := (a * 2 ^ (e - k))%Z). set (y := (b * 2 ^ (f - k))%Z). pose proof (dyadic_positive k) as Hp.
  assert (Hlt : ∀ u v, (u < v)%Z → QArith_base.Qlt (QArith_base.Qmult (QArith_base.inject_Z u) (QArith_base.Qpower (QArith_base.inject_Z 2) k))
    (QArith_base.Qmult (QArith_base.inject_Z v) (QArith_base.Qpower (QArith_base.inject_Z 2) k))).
  { intros u v Huv. apply QArith_base.Qmult_lt_compat_r; [done|]. by rewrite <-QArith_base.Zlt_Qlt. }
  destruct (Z.compare_spec x y) as [->|H|H].
  - symmetry. by apply QArith_base.Qeq_alt.
  - symmetry. apply QArith_base.Qlt_alt. by apply Hlt.
  - symmetry. apply QArith_base.Qgt_alt. by apply Hlt.
Qed.

Lemma num_ltb_spec x y : num_ltb x y = true ↔ py_lt x y.
Proof.
  unfold num_ltb, num_compare, py_lt. destruct (extended_of x) as [a e|[]|], (extended_of y) as [b f|[]|]; cbn; try naive_solver.
  rewrite dyadic_compare_exact, QArith_base.Qlt_alt. by destruct (QArith_base.Qcompare _ _).
Qed.

Lemma dyadic_compare_swap a e b f : dyadic_compare a e b f = CompOpp (dyadic_compare b f a e).
Proof. unfold dyadic_compare. rewrite Z.min_comm. apply Z.compare_antisym. Qed.

Lemma num_gtb_spec x y : num_gtb x y = true ↔ py_lt y x.
Proof.
  rewrite <-num_ltb_spec. unfold num_gtb, num_ltb, num_compare.
  destruct (extended_of x) as [a e|[]|], (extended_of y) as [b f|[]|]; cbn; try done.
  rewrite dyadic_compare_swap. by destruct (dyadic_compare b f a e).
Qed.

(** On ints the order is that of the ints. *)
Lemma py_lt_ints x y : py_lt (NInt x) (NInt y) ↔ (x < y)%Z.
Proof.
  rewrite <-num_ltb_spec. unfold num_ltb, num_compare. cbn. unfold dyadic_compare. cbn. rewrite !Z.mul_1_r.
  unfold Z.lt. by destruct (x ?= y)%Z.
Qed.
