(* ===== verification/Schema.v ===== *)
(** * Legacy v1: rows, tables and storage (tenancy, rules and audit models, storage/)

    The dataclasses that mirror the tables of the tenancy, rule and audit
    layers, the tables with their unique constraints, and the statements the
    layers run on them. *)

From Stdlib Require SpecFloat.
From S2P Require Import Prelude LegacyTypes PyFloat.

(** ** JSON *)

#[local] Set Warnings "-register-all".

Inductive jval :=
  | JVnull | JVbool (b : bool) | JVint (z : Z) | JVfloat (f : SpecFloat.spec_float) | JVstr (s : string)
  | JVlist (l : list jval) | JVdict (d : list (string * jval)).

(** A dict[str, Any]. *)
Abbreviation jdict := (list (string * jval)).

Definition jget (d : jdict) (k : string) : option jval :=
  snd <$> find (λ x, bool_decide (x.1 = k)) d.

Definition jset (d : jdict) (k : string) (v : jval) : jdict :=
  if existsb (λ x, bool_decide (x.1 = k)) d
  then (λ x, if bool_decide (x.1 = k) then (k, v) else x) <$> d
  else d ++ [(k, v)].

(** {a, b merged}: [b] wins. *)
Definition jmerge (a b : jdict) : jdict := foldl (λ d x, jset d x.1 x.2) a b.

Definition jopt (o : option string) : jval := from_option JVstr JVnull o.

(** Python's truth of an optional string and an optional int. *)
Definition given_str (o : option string) : bool := from_option (λ s, negb (bool_decide (s = ""))) false o.
Definition given_int (o : option Z) : bool := from_option (λ z, negb (bool_decide (z = 0%Z))) false o.

(** ** Enumerations of the layers *)

Inductive RuleType :=
  | RT_ACCESS | RT_SHARING | RT_VISIBILITY | RT_OWNERSHIP | RT_CONSTRAINT
  | RT_REDACTION | RT_RATE_LIMIT | RT_QUOTA | RT_FEATURE_FLAG.

Definition rule_type_value (t : RuleType) : string :=
  match t with
  | RT_ACCESS => "access" | RT_SHARING => "sharing" | RT_VISIBILITY => "visibility"
  | RT_OWNERSHIP => "ownership" | RT_CONSTRAINT => "constraint" | RT_REDACTION => "redaction"
  | RT_RATE_LIMIT => "rate_limit" | RT_QUOTA => "quota" | RT_FEATURE_FLAG => "feature_flag"
  end.

Inductive RuleEffect := ALLOW | DENY.

Definition effect_value (e : RuleEffect) : string := match e with ALLOW => "ALLOW" | DENY => "DENY" end.

Inductive BindingTargetType :=
  | BT_SCOPE | BT_PRINCIPAL | BT_OBJECT_TYPE | BT_OBJECT | BT_ENVIRONMENT | BT_CONNECTOR.

Definition target_type_value (t : BindingTargetType) : string :=
  match t with
  | BT_SCOPE => "scope" | BT_PRINCIPAL => "principal" | BT_OBJECT_TYPE => "object_type"
  | BT_OBJECT => "object" | BT_ENVIRONMENT => "environment" | BT_CONNECTOR => "connector"
  end.

Inductive ScopeRole := VIEWER | EDITOR | ADMIN_ROLE | OWNER.

Definition role_value (r : ScopeRole) : string :=
  match r with VIEWER => "viewer" | EDITOR => "editor" | ADMIN_ROLE => "admin" | OWNER => "owner" end.

Inductive AccessLevel := READ_LEVEL | WRITE_LEVEL | ADMIN_LEVEL.

Definition level_value (a : AccessLevel) : string :=
  match a with READ_LEVEL => "read" | WRITE_LEVEL => "write" | ADMIN_LEVEL => "admin" end.

#[export] Instance RuleType_eq_dec : EqDecision RuleType.
Proof. solve_decision. Defined.
#[export] Instance RuleEffect_eq_dec : EqDecision RuleEffect.
Proof. solve_decision. Defined.
#[export] Instance BindingTargetType_eq_dec : EqDecision BindingTargetType.
Proof. solve_decision. Defined.
#[export] Instance ScopeRole_eq_dec : EqDecision ScopeRole.
Proof. solve_decision. Defined.
#[export] Instance AccessLevel_eq_dec : EqDecision AccessLevel.
Proof. solve_decision. Defined.

(** [coerce_role], [coerce_access_level] on a string (an enum member is itself). *)
Definition coerce_role (s : string) : outcome ScopeRole :=
  match find (λ r, bool_decide (role_value r = s)) [VIEWER; EDITOR; ADMIN_ROLE; OWNER] with
  | Some r => Ok r
  | None => Raise (ValueError ("Invalid role '" +:+ s +:+ "'. Valid roles: 'viewer', 'editor', 'admin', 'owner'"))
  end.

Definition coerce_access_level (s : string) : outcome AccessLevel :=
  match find (λ r, bool_decide (level_value r = s)) [READ_LEVEL; WRITE_LEVEL; ADMIN_LEVEL] with
  | Some r => Ok r
  | None => Raise (ValueError ("Invalid access level '" +:+ s +:+ "'. Valid levels: 'read', 'write', 'admin'"))
  end.

(** ** Rows

    Timestamps are instants (microseconds); [isoformat], their stored text, is
    order preserving and injective. *)

Record TraceEntry := {
  te_id : string; te_sequence : nat; te_actor : string; te_action : ActionType.t;
  te_target_type : string; te_target_id : string; te_timestamp : Z;
  te_hash : string; te_previous_hash : string; te_scope : option string;
  te_before : option jdict; te_after : option jdict; te_metadata : jdict;
  te_parent : option string;
}.

Record Rule := {
  rl_id : string; rl_name : string; rl_type : RuleType; rl_effect : RuleEffect;
  rl_priority : Z; rl_conditions : jdict; rl_created_at : Z; rl_created_by : string;
  rl_version : nat; rl_description : string; rl_lifecycle : Lifecycle;
}.

Record RuleVersion := {
  rv_id : string; rv_rule : string; rv_version : nat; rv_conditions : jdict;
  rv_effect : RuleEffect; rv_priority : Z; rv_created_at : Z; rv_created_by : string;
  rv_reason : string;
}.

Record RuleBinding := {
  rb_id : string; rb_rule : string; rb_target_type : BindingTargetType; rb_target : string;
  rb_bound_at : Z; rb_bound_by : string; rb_lifecycle : Lifecycle;
}.

(** A frozen scope has lifecycle DEPRECATED (stored as FROZEN). *)
Record Scope := {
  sc_id : string; sc_name : string; sc_owner : string; sc_created_at : Z;
  sc_description : string; sc_parent : option string; sc_lifecycle : Lifecycle;
  sc_metadata : jdict;
}.

Record ScopeMembership := {
  sm_id : string; sm_scope : string; sm_principal : string; sm_role : ScopeRole;
  sm_granted_at : Z; sm_granted_by : string; sm_expires : option Z; sm_lifecycle : Lifecycle;
}.

Record ScopeProjection := {
  sp_id : string; sp_scope : string; sp_object : string; sp_projected_at : Z;
  sp_projected_by : string; sp_level : AccessLevel; sp_lifecycle : Lifecycle;
}.

(** A dict stored as JSON is kept as the dict; dicts are compared up to order. *)
Record ScopedObject := {
  so_id : string; so_type : string; so_owner : string; so_version : nat; so_created_at : Z;
  so_lifecycle : Lifecycle; so_registry : option string;
}.

Record ObjectVersion := {
  ov_id : string; ov_object : string; ov_version : nat; ov_data : jdict; ov_created_at : Z;
  ov_created_by : string; ov_reason : string; ov_checksum : string;
}.

Record Tombstone := {
  tb_id : string; tb_object : string; tb_at : Z; tb_by : string; tb_reason : string;
}.

Record ScopedSetting := {
  ss_id : string; ss_scope : string; ss_key : string; ss_value : jval; ss_created_at : Z;
  ss_created_by : string; ss_updated_at : option Z; ss_updated_by : option string;
  ss_description : string; ss_lifecycle : Lifecycle;
}.

Inductive SecretClassification := STANDARD | SENSITIVE | CRITICAL.

Inductive AccessResult := SUCCESS | DENIED | EXPIRED.

Record Secret := {
  se_id : string; se_name : string; se_owner : string; se_object : string; se_created_at : Z;
  se_version : nat; se_classification : SecretClassification; se_description : string;
  se_expires : option Z; se_rotated_at : option Z; se_lifecycle : Lifecycle;
}.

Record SecretVersion := {
  sv_id : string; sv_secret : string; sv_version : nat; sv_value : string; sv_algo : string;
  sv_key : string; sv_created_at : Z; sv_created_by : string; sv_reason : string;
}.

(** A revoked reference has lifecycle ARCHIVED (stored as REVOKED). *)
Record SecretRef := {
  sr_id : string; sr_secret : string; sr_token : string; sr_granted_to : string; sr_granted_at : Z;
  sr_granted_by : string; sr_scope : option string; sr_env : option string; sr_expires : option Z;
  sr_lifecycle : Lifecycle;
}.

Record SecretAccessEntry := {
  sl_id : string; sl_secret : string; sl_ref : option string; sl_accessor : string; sl_type : string;
  sl_at : Z; sl_env : option string; sl_scope : option string; sl_result : AccessResult;
}.

Record SecretPolicy := {
  pl_id : string; pl_created_at : Z; pl_created_by : string; pl_secret : option string;
  pl_classification : option SecretClassification; pl_max_age : option Z; pl_auto : bool;
  pl_scopes : list string; pl_envs : list string;
}.

#[export] Instance SecretClassification_eq_dec : EqDecision SecretClassification.
Proof. solve_decision. Defined.
#[export] Instance AccessResult_eq_dec : EqDecision AccessResult.
Proof. solve_decision. Defined.

(** The five tables of the secrets layer. *)
Record vault_tables := VaultTables {
  v_secrets : list Secret;
  v_versions : list SecretVersion;
  v_refs : list SecretRef;
  v_log : list SecretAccessEntry;
  v_policies : list SecretPolicy;
}.

(** Scheduling. *)
Inductive JobState := JOB_QUEUED | JOB_RUNNING | JOB_COMPLETED | JOB_FAILED | JOB_CANCELLED.

#[export] Instance JobState_eq_dec : EqDecision JobState.
Proof. solve_decision. Defined.

Record RecurringSchedule := {
  rc_id : string; rc_name : string; rc_owner : string; rc_cron : option string; rc_interval : option Z;
  rc_created_at : Z; rc_lifecycle : Lifecycle;
}.

Record ScheduledAction := {
  ac_id : string; ac_name : string; ac_owner : string; ac_type : string; ac_config : jdict; ac_next : Z;
  ac_schedule : option string; ac_scope : option string; ac_created_at : Z; ac_lifecycle : Lifecycle;
}.

Record Job := {
  jb_id : string; jb_name : string; jb_type : string; jb_config : jdict; jb_owner : string; jb_state : JobState;
  jb_created_at : Z; jb_started_at : option Z; jb_completed_at : option Z; jb_result : jdict;
  jb_error : option string; jb_action : option string; jb_scope : option string; jb_lifecycle : Lifecycle;
}.

Record sched_tables := SchedTables {
  d_schedules : list RecurringSchedule;
  d_actions : list ScheduledAction;
  d_jobs : list Job;
}.

(** Environments. *)
Inductive EnvironmentState := SPAWNING | ENV_ACTIVE | SUSPENDED | COMPLETED | DISCARDED | PROMOTED.

#[export] Instance EnvironmentState_eq_dec : EqDecision EnvironmentState.
Proof. solve_decision. Defined.

Inductive ObjectOrigin := CREATED | PROJECTED.

#[export] Instance ObjectOrigin_eq_dec : EqDecision ObjectOrigin.
Proof. solve_decision. Defined.

Record Environment := {
  en_id : string; en_name : string; en_owner : string; en_created_at : Z; en_state : EnvironmentState;
  en_description : string; en_template : option string; en_scope : option string; en_ephemeral : bool;
  en_completed_at : option Z; en_metadata : jdict;
}.

Record EnvironmentTemplate := {
  et_id : string; et_name : string; et_owner : string; et_created_at : Z; et_description : string;
  et_config : jdict; et_lifecycle : Lifecycle;
}.

Record EnvironmentObject := {
  eo_id : string; eo_env : string; eo_object : string; eo_origin : ObjectOrigin; eo_added_at : Z;
}.

(** What a snapshot holds: the rows it was taken from (none of them for an
    environment that does not exist). *)
Record snapshot_state := {
  snap_env : option Environment; snap_objects : list EnvironmentObject;
  snap_versions : list ObjectVersion; snap_members : list ScopeMembership;
}.

Record EnvironmentSnapshot := {
  es_id : string; es_env : string; es_name : string; es_data : snapshot_state; es_created_at : Z;
  es_created_by : string; es_checksum : string;
}.

Record env_tables := EnvTables {
  e_templates : list EnvironmentTemplate;
  e_envs : list Environment;
  e_snapshots : list EnvironmentSnapshot;
  e_objects : list EnvironmentObject;
}.

(** Flow. *)
Inductive FlowPointType := FP_ENVIRONMENT | FP_SCOPE | FP_STAGE.

#[export] Instance FlowPointType_eq_dec : EqDecision FlowPointType.
Proof. solve_decision. Defined.

Record Pipeline := {
  pp_id : string; pp_name : string; pp_owner : string; pp_created_at : Z; pp_description : string;
  pp_lifecycle : Lifecycle;
}.

Record Stage := {
  sg_id : string; sg_pipeline : string; sg_name : string; sg_ordinal : Z; sg_metadata : jdict;
}.

Record StageTransition := {
  tn_id : string; tn_object : string; tn_to : string; tn_at : Z; tn_by : string; tn_from : option string;
  tn_reason : string;
}.

Record FlowChannel := {
  fc_id : string; fc_name : string; fc_source_type : FlowPointType; fc_source : string;
  fc_target_type : FlowPointType; fc_target : string; fc_owner : string; fc_created_at : Z;
  fc_allowed : list string; fc_lifecycle : Lifecycle;
}.

Record Promotion := {
  pm_id : string; pm_object : string; pm_env : string; pm_scope : string; pm_at : Z; pm_by : string;
  pm_stage : option string;
}.

Record flow_tables := FlowTables {
  w_pipelines : list Pipeline;
  w_stages : list Stage;
  w_transitions : list StageTransition;
  w_channels : list FlowChannel;
  w_promotions : list Promotion;
}.

(** Deployments. *)
Inductive DeploymentState := DEP_PENDING | DEPLOYING | DEPLOYED | DEP_FAILED | ROLLED_BACK.

#[export] Instance DeploymentState_eq_dec : EqDecision DeploymentState.
Proof. solve_decision. Defined.

Inductive GateType := STAGE_CHECK | RULE_CHECK | APPROVAL | CUSTOM_GATE.

#[export] Instance GateType_eq_dec : EqDecision GateType.
Proof. solve_decision. Defined.

Record DeploymentTarget := {
  dt_id : string; dt_name : string; dt_type : string; dt_owner : string; dt_created_at : Z;
  dt_config : jdict; dt_lifecycle : Lifecycle;
}.

Record Deployment := {
  dp_id : string; dp_target : string; dp_by : string; dp_version : nat; dp_state : DeploymentState;
  dp_object : option string; dp_scope : option string; dp_at : option Z; dp_rollback_of : option string;
  dp_metadata : jdict;
}.

Record DeploymentGate := {
  dg_id : string; dg_deployment : string; dg_type : GateType; dg_passed : bool; dg_at : Z; dg_details : jdict;
}.

Record deploy_tables := DeployTables {
  p_targets : list DeploymentTarget;
  p_deployments : list Deployment;
  p_gates : list DeploymentGate;
}.

(** Events and webhooks. *)
Inductive DeliveryStatus := DELIVERY_PENDING | DELIVERED | DELIVERY_FAILED | RETRYING.

#[export] Instance DeliveryStatus_eq_dec : EqDecision DeliveryStatus.
Proof. solve_decision. Defined.

Inductive EventType :=
  | OBJECT_CREATED | OBJECT_UPDATED | OBJECT_DELETED | SCOPE_CREATED | SCOPE_MODIFIED | SCOPE_DISSOLVED
  | MEMBERSHIP_CHANGED | RULE_CHANGED | ENVIRONMENT_SPAWNED | ENVIRONMENT_COMPLETED | ENVIRONMENT_DISCARDED
  | ENVIRONMENT_PROMOTED | DEPLOYMENT_COMPLETED | DEPLOYMENT_ROLLED_BACK | SECRET_ROTATED | STAGE_TRANSITIONED
  | CONNECTOR_SYNCED | CUSTOM_EVENT.

#[export] Instance EventType_eq_dec : EqDecision EventType.
Proof. solve_decision. Defined.

Record Event := {
  ev_id : string; ev_type : EventType; ev_actor : string; ev_target_type : string; ev_target : string;
  ev_at : Z; ev_scope : option string; ev_data : jdict; ev_source : option string; ev_lifecycle : Lifecycle;
}.

Record EventSubscription := {
  sb_id : string; sb_name : string; sb_owner : string; sb_events : list string; sb_targets : list string;
  sb_scope : option string; sb_endpoint : option string; sb_created_at : Z; sb_lifecycle : Lifecycle;
}.

Record WebhookEndpoint := {
  wh_id : string; wh_name : string; wh_owner : string; wh_url : string; wh_config : jdict;
  wh_scope : option string; wh_created_at : Z; wh_lifecycle : Lifecycle;
}.

(** A row of webhook_deliveries. *)
Record Delivery := {
  wd_id : string; wd_event : string; wd_endpoint : string; wd_subscription : string;
  wd_status : DeliveryStatus; wd_at : Z; wd_attempt : nat; wd_response : option Z;
  wd_body : option string; wd_error : option string;
}.

Record event_tables := EventTables {
  n_events : list Event;
  n_subscriptions : list EventSubscription;
  n_endpoints : list WebhookEndpoint;
  n_deliveries : list Delivery;
}.

(** Notifications. *)
Inductive NotificationStatus := UNREAD | READ_STATUS | DISMISSED.

#[export] Instance NotificationStatus_eq_dec : EqDecision NotificationStatus.
Proof. solve_decision. Defined.

Inductive NotificationChannel := IN_APP | EMAIL | SMS | PUSH | WEBHOOK_CHANNEL.

#[export] Instance NotificationChannel_eq_dec : EqDecision NotificationChannel.
Proof. solve_decision. Defined.

Record Notification := {
  nt_id : string; nt_recipient : string; nt_title : string; nt_body : string; nt_channel : NotificationChannel;
  nt_status : NotificationStatus; nt_created_at : Z; nt_event : option string; nt_rule : option string;
  nt_scope : option string; nt_data : jdict; nt_read_at : option Z; nt_dismissed_at : option Z;
  nt_lifecycle : Lifecycle;
}.

Record NotificationRule := {
  nr_id : string; nr_name : string; nr_owner : string; nr_events : list string; nr_targets : list string;
  nr_scope : option string; nr_recipients : list string; nr_channel : NotificationChannel;
  nr_title : string; nr_body : string; nr_created_at : Z; nr_lifecycle : Lifecycle;
}.

Record NotificationPreference := {
  np_id : string; np_principal : string; np_channel : NotificationChannel; np_enabled : bool;
  np_created_at : Z; np_lifecycle : Lifecycle;
}.

Record notify_tables := NotifyTables {
  m_notifications : list Notification;
  m_rules : list NotificationRule;
  m_preferences : list NotificationPreference;
}.

(** Principals and their graph. *)
Record Principal := {
  pc_id : string; pc_kind : string; pc_name : string; pc_entry : string; pc_created_at : Z;
  pc_created_by : string; pc_lifecycle : Lifecycle; pc_metadata : jdict;
}.

Record PrincipalRelationship := {
  pe_id : string; pe_parent : string; pe_child : string; pe_label : string; pe_created_at : Z;
  pe_created_by : string; pe_metadata : jdict;
}.

(** An entry of the construct registry. *)
Record RegistryRow := {
  rr_id : string; rr_urn : string; rr_kind : string; rr_namespace : string; rr_name : string;
  rr_lifecycle : Lifecycle; rr_at : Z; rr_by : string; rr_version : Z; rr_previous : option string;
  rr_metadata : jdict; rr_tags : list string;
}.

Record identity_tables := IdentityTables {
  i_principals : list Principal;
  i_relationships : list PrincipalRelationship;
  i_entries : list RegistryRow;
}.

(** Contracts and templates. *)
Inductive FieldType := STRING | INTEGER | FLOAT | BOOLEAN | DATETIME | JSON | LIST | REF | BLOB | ANY.

#[export] Instance FieldType_eq_dec : EqDecision FieldType.
Proof. solve_decision. Defined.

Record ContractField := {
  cf_name : string; cf_type : FieldType; cf_required : bool; cf_default : jval; cf_description : string;
  cf_constraints : jdict;
}.

Record ContractConstraint := {
  cc_name : string; cc_type : string; cc_config : jdict; cc_description : string;
}.

Record Contract := {
  kt_id : string; kt_name : string; kt_object_type : string; kt_owner : string; kt_created_at : Z;
  kt_description : string; kt_version : nat; kt_lifecycle : Lifecycle; kt_metadata : jdict;
}.

Record ContractVersion := {
  kv_id : string; kv_contract : string; kv_version : nat; kv_fields : list ContractField; kv_created_at : Z;
  kv_created_by : string; kv_constraints : list ContractConstraint; kv_reason : string;
}.

Record Template := {
  tp_id : string; tp_name : string; tp_description : string; tp_type : string; tp_owner : string;
  tp_schema : jdict; tp_version : nat; tp_created_at : Z; tp_scope : option string; tp_lifecycle : Lifecycle;
}.

Record TemplateVersion := {
  tv_id : string; tv_template : string; tv_version : nat; tv_schema : jdict; tv_created_at : Z;
  tv_created_by : string; tv_reason : string;
}.

Record blueprint_tables := BlueprintTables {
  k_contracts : list Contract;
  k_contract_versions : list ContractVersion;
  k_templates : list Template;
  k_template_versions : list TemplateVersion;
}.

(** Integrations and plugins. *)
Inductive PluginState := INSTALLED | PLUGIN_ACTIVE | PLUGIN_SUSPENDED | UNINSTALLED.

#[export] Instance PluginState_eq_dec : EqDecision PluginState.
Proof. solve_decision. Defined.

Record Integration := {
  ig_id : string; ig_name : string; ig_type : string; ig_owner : string; ig_created_at : Z;
  ig_description : string; ig_scope : option string; ig_config : jdict; ig_credentials : option string;
  ig_lifecycle : Lifecycle; ig_metadata : jdict;
}.

Record Plugin := {
  pg_id : string; pg_name : string; pg_owner : string; pg_installed_at : Z; pg_version : string;
  pg_description : string; pg_scope : option string; pg_manifest : jdict; pg_state : PluginState;
  pg_activated_at : option Z; pg_metadata : jdict;
}.

Record PluginHook := {
  hk_id : string; hk_plugin : string; hk_point : string; hk_handler : string; hk_priority : Z;
  hk_lifecycle : Lifecycle;
}.

Record PluginPermission := {
  pn_id : string; pn_plugin : string; pn_type : string; pn_target : string; pn_granted_at : Z;
  pn_granted_by : string; pn_lifecycle : Lifecycle;
}.

Record plugin_tables := PluginTables {
  g_integrations : list Integration;
  g_plugins : list Plugin;
  g_hooks : list PluginHook;
  g_permissions : list PluginPermission;
}.

(** Connectors, the marketplace and the federation. *)
Inductive ConnectorState := PROPOSED | PENDING_APPROVAL | CON_ACTIVE | CON_SUSPENDED | REVOKED | REJECTED.

#[export] Instance ConnectorState_eq_dec : EqDecision ConnectorState.
Proof. solve_decision. Defined.

Inductive ConnectorDirection := INBOUND | OUTBOUND | BIDIRECTIONAL.

#[export] Instance ConnectorDirection_eq_dec : EqDecision ConnectorDirection.
Proof. solve_decision. Defined.

Inductive PolicyType := ALLOW_TYPES | DENY_TYPES | POLICY_RATE_LIMIT | CLASSIFICATION.

#[export] Instance PolicyType_eq_dec : EqDecision PolicyType.
Proof. solve_decision. Defined.

Inductive TrafficStatus := TRAFFIC_SUCCESS | TRAFFIC_BLOCKED | TRAFFIC_FAILED.

#[export] Instance TrafficStatus_eq_dec : EqDecision TrafficStatus.
Proof. solve_decision. Defined.

Record Connector := {
  cn_id : string; cn_name : string; cn_local : string; cn_remote : string; cn_endpoint : string;
  cn_created_at : Z; cn_created_by : string; cn_description : string; cn_state : ConnectorState;
  cn_direction : ConnectorDirection; cn_scope : option string; cn_approved_at : option Z;
  cn_approved_by : option string; cn_metadata : jdict;
}.

Record ConnectorPolicy := {
  cp_id : string; cp_connector : string; cp_type : PolicyType; cp_config : jdict; cp_created_at : Z;
  cp_created_by : string;
}.

Record ConnectorTraffic := {
  ct_id : string; ct_connector : string; ct_direction : string; ct_object_type : string; ct_action : string;
  ct_at : Z; ct_object : option string; ct_status : TrafficStatus; ct_size : option Z; ct_metadata : jdict;
}.

Inductive ListingType := CONNECTOR_TEMPLATE | PLUGIN_LISTING | INTEGRATION_LISTING.

#[export] Instance ListingType_eq_dec : EqDecision ListingType.
Proof. solve_decision. Defined.

Inductive ListingVisibility := PUBLIC | UNLISTED | PRIVATE.

#[export] Instance ListingVisibility_eq_dec : EqDecision ListingVisibility.
Proof. solve_decision. Defined.

Record MarketplaceListing := {
  li_id : string; li_name : string; li_publisher : string; li_type : ListingType; li_published_at : Z;
  li_description : string; li_version : string; li_template : jdict; li_visibility : ListingVisibility;
  li_updated_at : option Z; li_lifecycle : Lifecycle; li_downloads : nat; li_metadata : jdict;
}.

Record MarketplaceReview := {
  vw_id : string; vw_listing : string; vw_reviewer : string; vw_rating : Z; vw_at : Z; vw_text : string;
}.

Record MarketplaceInstall := {
  ms_id : string; ms_listing : string; ms_installer : string; ms_at : Z; ms_version : string; ms_config : jdict;
  ms_result : option string; ms_result_type : option string;
}.

(** Rows of federation_sequences and federation_seen_messages. *)
Record FederationSequence := { fq_connector : string; fq_last : Z; fq_at : Z }.
Record SeenMessage := {
  fs_connector : string; fs_sender : string; fs_sequence : Z; fs_at : Z; fs_message : string;
}.

Record connector_tables := ConnectorTables {
  x_connectors : list Connector;
  x_policies : list ConnectorPolicy;
  x_traffic : list ConnectorTraffic;
  x_listings : list MarketplaceListing;
  x_reviews : list MarketplaceReview;
  x_installs : list MarketplaceInstall;
  x_sequences : list FederationSequence;
  x_seen : list SeenMessage;
}.

(** The tables of the layers above the objects. *)
Record layer_tables := LayerTables {
  y_sched : sched_tables;
  y_env : env_tables;
  y_flow : flow_tables;
  y_deploy : deploy_tables;
  y_events : event_tables;
  y_notify : notify_tables;
  y_identity : identity_tables;
  y_blueprints : blueprint_tables;
  y_plugins : plugin_tables;
  y_connect : connector_tables;
}.

(** ** Tables and process state *)

Record tables := Tables {
  t_trail : list TraceEntry;
  t_rules : list Rule;
  t_versions : list RuleVersion;
  t_bindings : list RuleBinding;
  t_scopes : list Scope;
  t_members : list ScopeMembership;
  t_projections : list ScopeProjection;
  t_objects : list ScopedObject;
  t_object_versions : list ObjectVersion;
  t_tombstones : list Tombstone;
  t_settings : list ScopedSetting;
  t_vault : vault_tables;
  t_layers : layer_tables;
}.

Definition set_trail (x : list TraceEntry) (t : tables) : tables :=
  Tables x (t_rules t) (t_versions t) (t_bindings t) (t_scopes t) (t_members t)
    (t_projections t) (t_objects t) (t_object_versions t) (t_tombstones t)
    (t_settings t) (t_vault t) (t_layers t).
Definition set_rules (x : list Rule) (t : tables) : tables :=
  Tables (t_trail t) x (t_versions t) (t_bindings t) (t_scopes t) (t_members t)
    (t_projections t) (t_objects t) (t_object_versions t) (t_tombstones t)
    (t_settings t) (t_vault t) (t_layers t).
Definition set_versions (x : list RuleVersion) (t : tables) : tables :=
  Tables (t_trail t) (t_rules t) x (t_bindings t) (t_scopes t) (t_members t)
    (t_projections t) (t_objects t) (t_object_versions t) (t_tombstones t)
    (t_settings t) (t_vault t) (t_layers t).
Definition set_bindings (x : list RuleBinding) (t : tables) : tables :=
  Tables (t_trail t) (t_rules t) (t_versions t) x (t_scopes t) (t_members t)
    (t_projections t) (t_objects t) (t_object_versions t) (t_tombstones t)
    (t_settings t) (t_vault t) (t_layers t).
Definition set_scopes_table (x : list Scope) (t : tables) : tables :=
  Tables (t_trail t) (t_rules t) (t_versions t) (t_bindings t) x (t_members t)
    (t_projections t) (t_objects t) (t_object_versions t) (t_tombstones t)
    (t_settings t) (t_vault t) (t_layers t).
Definition set_members (x : list ScopeMembership) (t : tables) : tables :=
  Tables (t_trail t) (t_rules t) (t_versions t) (t_bindings t) (t_scopes t) x
    (t_projections t) (t_objects t) (t_object_versions t) (t_tombstones t)
    (t_settings t) (t_vault t) (t_layers t).
Definition set_projections (x : list ScopeProjection) (t : tables) : tables :=
  Tables (t_trail t) (t_rules t) (t_versions t) (t_bindings t) (t_scopes t) (t_members t)
    x (t_objects t) (t_object_versions t) (t_tombstones t)
    (t_settings t) (t_vault t) (t_layers t).
Definition set_objects (x : list ScopedObject) (t : tables) : tables :=
  Tables (t_trail t) (t_rules t) (t_versions t) (t_bindings t) (t_scopes t) (t_members t)
    (t_projections t) x (t_object_versions t) (t_tombstones t)
    (t_settings t) (t_vault t) (t_layers t).
Definition set_object_versions (x : list ObjectVersion) (t : tables) : tables :=
  Tables (t_trail t) (t_rules t) (t_versions t) (t_bindings t) (t_scopes t) (t_members t)
    (t_projections t) (t_objects t) x (t_tombstones t)
    (t_settings t) (t_vault t) (t_layers t).
Definition set_tombstones (x : list Tombstone) (t : tables) : tables :=
  Tables (t_trail t) (t_rules t) (t_versions t) (t_bindings t) (t_scopes t) (t_members t)
    (t_projections t) (t_objects t) (t_object_versions t) x
    (t_settings t) (t_vault t) (t_layers t).
Definition set_settings (x : list ScopedSetting) (t : tables) : tables :=
  Tables (t_trail t) (t_rules t) (t_versions t) (t_bindings t) (t_scopes t) (t_members t)
    (t_projections t) (t_objects t) (t_object_versions t) (t_tombstones t)
    x (t_vault t) (t_layers t).
Definition set_vault (x : vault_tables) (t : tables) : tables :=
  Tables (t_trail t) (t_rules t) (t_versions t) (t_bindings t) (t_scopes t) (t_members t)
    (t_projections t) (t_objects t) (t_object_versions t) (t_tombstones t)
    (t_settings t) x (t_layers t).
Definition set_layers (x : layer_tables) (t : tables) : tables :=
  Tables (t_trail t) (t_rules t) (t_versions t) (t_bindings t) (t_scopes t) (t_members t)
    (t_projections t) (t_objects t) (t_object_versions t) (t_tombstones t)
    (t_settings t) (t_vault t) x.

Definition set_secrets (x : list Secret) (t : tables) : tables :=
  set_vault (VaultTables x (v_versions (t_vault t)) (v_refs (t_vault t)) (v_log (t_vault t)) (v_policies (t_vault t))) t.
Definition set_secret_versions (x : list SecretVersion) (t : tables) : tables :=
  set_vault (VaultTables (v_secrets (t_vault t)) x (v_refs (t_vault t)) (v_log (t_vault t)) (v_policies (t_vault t))) t.
Definition set_secret_refs (x : list SecretRef) (t : tables) : tables :=
  set_vault (VaultTables (v_secrets (t_vault t)) (v_versions (t_vault t)) x (v_log (t_vault t)) (v_policies (t_vault t))) t.
Definition set_secret_log (x : list SecretAccessEntry) (t : tables) : tables :=
  set_vault (VaultTables (v_secrets (t_vault t)) (v_versions (t_vault t)) (v_refs (t_vault t)) x (v_policies (t_vault t))) t.
Definition set_secret_policies (x : list SecretPolicy) (t : tables) : tables :=
  set_vault (VaultTables (v_secrets (t_vault t)) (v_versions (t_vault t)) (v_refs (t_vault t)) (v_log (t_vault t)) x) t.

Definition set_sched (x : sched_tables) (t : tables) : tables :=
  set_layers (LayerTables x (y_env (t_layers t)) (y_flow (t_layers t)) (y_deploy (t_layers t))
    (y_events (t_layers t)) (y_notify (t_layers t)) (y_identity (t_layers t))
    (y_blueprints (t_layers t)) (y_plugins (t_layers t)) (y_connect (t_layers t))) t.
Definition set_env (x : env_tables) (t : tables) : tables :=
  set_layers (LayerTables (y_sched (t_layers t)) x (y_flow (t_layers t)) (y_deploy (t_layers t))
    (y_events (t_layers t)) (y_notify (t_layers t)) (y_identity (t_layers t))
    (y_blueprints (t_layers t)) (y_plugins (t_layers t)) (y_connect (t_layers t))) t.
Definition set_flow (x : flow_tables) (t : tables) : tables :=
  set_layers (LayerTables (y_sched (t_layers t)) (y_env (t_layers t)) x (y_deploy (t_layers t))
    (y_events (t_layers t)) (y_notify (t_layers t)) (y_identity (t_layers t))
    (y_blueprints (t_layers t)) (y_plugins (t_layers t)) (y_connect (t_layers t))) t.
Definition set_deploy (x : deploy_tables) (t : tables) : tables :=
  set_layers (LayerTables (y_sched (t_layers t)) (y_env (t_layers t)) (y_flow (t_layers t)) x
    (y_events (t_layers t)) (y_notify (t_layers t)) (y_identity (t_layers t))
    (y_blueprints (t_layers t)) (y_plugins (t_layers t)) (y_connect (t_layers t))) t.
Definition set_events_layer (x : event_tables) (t : tables) : tables :=
  set_layers (LayerTables (y_sched (t_layers t)) (y_env (t_layers t)) (y_flow (t_layers t))
    (y_deploy (t_layers t)) x (y_notify (t_layers t)) (y_identity (t_layers t))
    (y_blueprints (t_layers t)) (y_plugins (t_layers t)) (y_connect (t_layers t))) t.
Definition set_notify (x : notify_tables) (t : tables) : tables :=
  set_layers (LayerTables (y_sched (t_layers t)) (y_env (t_layers t)) (y_flow (t_layers t))
    (y_deploy (t_layers t)) (y_events (t_layers t)) x (y_identity (t_layers t))
    (y_blueprints (t_layers t)) (y_plugins (t_layers t)) (y_connect (t_layers t))) t.
Definition set_identity (x : identity_tables) (t : tables) : tables :=
  set_layers (LayerTables (y_sched (t_layers t)) (y_env (t_layers t)) (y_flow (t_layers t))
    (y_deploy (t_layers t)) (y_events (t_layers t)) (y_notify (t_layers t)) x
    (y_blueprints (t_layers t)) (y_plugins (t_layers t)) (y_connect (t_layers t))) t.
Definition set_blueprints (x : blueprint_tables) (t : tables) : tables :=
  set_layers (LayerTables (y_sched (t_layers t)) (y_env (t_layers t)) (y_flow (t_layers t))
    (y_deploy (t_layers t)) (y_events (t_layers t)) (y_notify (t_layers t)) (y_identity (t_layers t)) x
    (y_plugins (t_layers t)) (y_connect (t_layers t))) t.
Definition set_plugins (x : plugin_tables) (t : tables) : tables :=
  set_layers (LayerTables (y_sched (t_layers t)) (y_env (t_layers t)) (y_flow (t_layers t))
    (y_deploy (t_layers t)) (y_events (t_layers t)) (y_notify (t_layers t)) (y_identity (t_layers t))
    (y_blueprints (t_layers t)) x (y_connect (t_layers t))) t.
Definition set_connect (x : connector_tables) (t : tables) : tables :=
  set_layers (LayerTables (y_sched (t_layers t)) (y_env (t_layers t)) (y_flow (t_layers t))
    (y_deploy (t_layers t)) (y_events (t_layers t)) (y_notify (t_layers t)) (y_identity (t_layers t))
    (y_blueprints (t_layers t)) (y_plugins (t_layers t)) x) t.
Definition sched (t : tables) : sched_tables := y_sched (t_layers t).
Definition set_schedules (x : list RecurringSchedule) (t : tables) : tables :=
  set_sched (SchedTables x (d_actions (sched t)) (d_jobs (sched t))) t.
Definition set_actions (x : list ScheduledAction) (t : tables) : tables :=
  set_sched (SchedTables (d_schedules (sched t)) x (d_jobs (sched t))) t.
Definition set_jobs (x : list Job) (t : tables) : tables :=
  set_sched (SchedTables (d_schedules (sched t)) (d_actions (sched t)) x) t.

Definition envs (t : tables) : env_tables := y_env (t_layers t).
Definition set_templates (x : list EnvironmentTemplate) (t : tables) : tables :=
  set_env (EnvTables x (e_envs (envs t)) (e_snapshots (envs t)) (e_objects (envs t))) t.
Definition set_envs (x : list Environment) (t : tables) : tables :=
  set_env (EnvTables (e_templates (envs t)) x (e_snapshots (envs t)) (e_objects (envs t))) t.
Definition set_snapshots (x : list EnvironmentSnapshot) (t : tables) : tables :=
  set_env (EnvTables (e_templates (envs t)) (e_envs (envs t)) x (e_objects (envs t))) t.
Definition set_env_objects (x : list EnvironmentObject) (t : tables) : tables :=
  set_env (EnvTables (e_templates (envs t)) (e_envs (envs t)) (e_snapshots (envs t)) x) t.

Definition flow (t : tables) : flow_tables := y_flow (t_layers t).
Definition set_pipelines (x : list Pipeline) (t : tables) : tables :=
  set_flow (FlowTables x (w_stages (flow t)) (w_transitions (flow t)) (w_channels (flow t)) (w_promotions (flow t))) t.
Definition set_stages (x : list Stage) (t : tables) : tables :=
  set_flow (FlowTables (w_pipelines (flow t)) x (w_transitions (flow t)) (w_channels (flow t)) (w_promotions (flow t))) t.
Definition set_transitions (x : list StageTransition) (t : tables) : tables :=
  set_flow (FlowTables (w_pipelines (flow t)) (w_stages (flow t)) x (w_channels (flow t)) (w_promotions (flow t))) t.
Definition set_channels (x : list FlowChannel) (t : tables) : tables :=
  set_flow (FlowTables (w_pipelines (flow t)) (w_stages (flow t)) (w_transitions (flow t)) x (w_promotions (flow t))) t.
Definition set_promotions (x : list Promotion) (t : tables) : tables :=
  set_flow (FlowTables (w_pipelines (flow t)) (w_stages (flow t)) (w_transitions (flow t)) (w_channels (flow t)) x) t.

Definition deploys (t : tables) : deploy_tables := y_deploy (t_layers t).
Definition set_targets (x : list DeploymentTarget) (t : tables) : tables :=
  set_deploy (DeployTables x (p_deployments (deploys t)) (p_gates (deploys t))) t.
Definition set_deployments (x : list Deployment) (t : tables) : tables :=
  set_deploy (DeployTables (p_targets (deploys t)) x (p_gates (deploys t))) t.
Definition set_gates (x : list DeploymentGate) (t : tables) : tables :=
  set_deploy (DeployTables (p_targets (deploys t)) (p_deployments (deploys t)) x) t.

Definition eventing (t : tables) : event_tables := y_events (t_layers t).
Definition set_events (x : list Event) (t : tables) : tables :=
  set_events_layer (EventTables x (n_subscriptions (eventing t)) (n_endpoints (eventing t)) (n_deliveries (eventing t))) t.
Definition set_subscriptions (x : list EventSubscription) (t : tables) : tables :=
  set_events_layer (EventTables (n_events (eventing t)) x (n_endpoints (eventing t)) (n_deliveries (eventing t))) t.
Definition set_endpoints (x : list WebhookEndpoint) (t : tables) : tables :=
  set_events_layer (EventTables (n_events (eventing t)) (n_subscriptions (eventing t)) x (n_deliveries (eventing t))) t.
Definition set_deliveries (x : list Delivery) (t : tables) : tables :=
  set_events_layer (EventTables (n_events (eventing t)) (n_subscriptions (eventing t)) (n_endpoints (eventing t)) x) t.

Definition notifying (t : tables) : notify_tables := y_notify (t_layers t).
Definition set_notifications (x : list Notification) (t : tables) : tables :=
  set_notify (NotifyTables x (m_rules (notifying t)) (m_preferences (notifying t))) t.
Definition set_notification_rules (x : list NotificationRule) (t : tables) : tables :=
  set_notify (NotifyTables (m_notifications (notifying t)) x (m_preferences (notifying t))) t.
Definition set_preferences (x : list NotificationPreference) (t : tables) : tables :=
  set_notify (NotifyTables (m_notifications (notifying t)) (m_rules (notifying t)) x) t.

Definition principal_graph (t : tables) : identity_tables := y_identity (t_layers t).
Definition set_principals (x : list Principal) (t : tables) : tables :=
  set_identity (IdentityTables x (i_relationships (principal_graph t)) (i_entries (principal_graph t))) t.
Definition set_relationships (x : list PrincipalRelationship) (t : tables) : tables :=
  set_identity (IdentityTables (i_principals (principal_graph t)) x (i_entries (principal_graph t))) t.
Definition set_registry_entries (x : list RegistryRow) (t : tables) : tables :=
  set_identity (IdentityTables (i_principals (principal_graph t)) (i_relationships (principal_graph t)) x) t.

Definition blueprints (t : tables) : blueprint_tables := y_blueprints (t_layers t).
Definition set_contracts (x : list Contract) (t : tables) : tables :=
  set_blueprints (BlueprintTables x (k_contract_versions (blueprints t)) (k_templates (blueprints t))
    (k_template_versions (blueprints t))) t.
Definition set_contract_versions (x : list ContractVersion) (t : tables) : tables :=
  set_blueprints (BlueprintTables (k_contracts (blueprints t)) x (k_templates (blueprints t))
    (k_template_versions (blueprints t))) t.
Definition set_construct_templates (x : list Template) (t : tables) : tables :=
  set_blueprints (BlueprintTables (k_contracts (blueprints t)) (k_contract_versions (blueprints t)) x
    (k_template_versions (blueprints t))) t.
Definition set_template_versions (x : list TemplateVersion) (t : tables) : tables :=
  set_blueprints (BlueprintTables (k_contracts (blueprints t)) (k_contract_versions (blueprints t))
    (k_templates (blueprints t)) x) t.

Definition plugging (t : tables) : plugin_tables := y_plugins (t_layers t).
Definition set_integrations (x : list Integration) (t : tables) : tables :=
  set_plugins (PluginTables x (g_plugins (plugging t)) (g_hooks (plugging t)) (g_permissions (plugging t))) t.
Definition set_plugin_rows (x : list Plugin) (t : tables) : tables :=
  set_plugins (PluginTables (g_integrations (plugging t)) x (g_hooks (plugging t)) (g_permissions (plugging t))) t.
Definition set_hooks (x : list PluginHook) (t : tables) : tables :=
  set_plugins (PluginTables (g_integrations (plugging t)) (g_plugins (plugging t)) x (g_permissions
    (plugging t))) t.
Definition set_permissions (x : list PluginPermission) (t : tables) : tables :=
  set_plugins (PluginTables (g_integrations (plugging t)) (g_plugins (plugging t)) (g_hooks (plugging t)) x) t.

Definition connecting (t : tables) : connector_tables := y_connect (t_layers t).
Definition set_connectors (x : list Connector) (t : tables) : tables :=
  set_connect (ConnectorTables x (x_policies (connecting t)) (x_traffic (connecting t)) (x_listings
    (connecting t)) (x_reviews (connecting t)) (x_installs (connecting t)) (x_sequences (connecting t))
    (x_seen (connecting t))) t.
Definition set_connector_policies (x : list ConnectorPolicy) (t : tables) : tables :=
  set_connect (ConnectorTables (x_connectors (connecting t)) x (x_traffic (connecting t)) (x_listings
    (connecting t)) (x_reviews (connecting t)) (x_installs (connecting t)) (x_sequences (connecting t))
    (x_seen (connecting t))) t.
Definition set_traffic (x : list ConnectorTraffic) (t : tables) : tables :=
  set_connect (ConnectorTables (x_connectors (connecting t)) (x_policies (connecting t)) x (x_listings
    (connecting t)) (x_reviews (connecting t)) (x_installs (connecting t)) (x_sequences (connecting t))
    (x_seen (connecting t))) t.
Definition set_listings (x : list MarketplaceListing) (t : tables) : tables :=
  set_connect (ConnectorTables (x_connectors (connecting t)) (x_policies (connecting t)) (x_traffic
    (connecting t)) x (x_reviews (connecting t)) (x_installs (connecting t)) (x_sequences (connecting t))
    (x_seen (connecting t))) t.
Definition set_reviews (x : list MarketplaceReview) (t : tables) : tables :=
  set_connect (ConnectorTables (x_connectors (connecting t)) (x_policies (connecting t)) (x_traffic
    (connecting t)) (x_listings (connecting t)) x (x_installs (connecting t)) (x_sequences (connecting t))
    (x_seen (connecting t))) t.
Definition set_installs (x : list MarketplaceInstall) (t : tables) : tables :=
  set_connect (ConnectorTables (x_connectors (connecting t)) (x_policies (connecting t)) (x_traffic
    (connecting t)) (x_listings (connecting t)) (x_reviews (connecting t)) x (x_sequences (connecting t))
    (x_seen (connecting t))) t.
Definition set_sequences (x : list FederationSequence) (t : tables) : tables :=
  set_connect (ConnectorTables (x_connectors (connecting t)) (x_policies (connecting t)) (x_traffic
    (connecting t)) (x_listings (connecting t)) (x_reviews (connecting t)) (x_installs (connecting t)) x
    (x_seen (connecting t))) t.
Definition set_seen (x : list SeenMessage) (t : tables) : tables :=
  set_connect (ConnectorTables (x_connectors (connecting t)) (x_policies (connecting t)) (x_traffic
    (connecting t)) (x_listings (connecting t)) (x_reviews (connecting t)) (x_installs (connecting t))
    (x_sequences (connecting t)) x) t.

(** The state of one process: the database, the clock, the id generator, the
    audit writer's memory and the rule cache (key to expiry and rules).
    [rivals] are the entries that other processes are going to commit to the
    audit trail, one batch per insert of this process, just before it. *)
Record store := Store {
  st_db : tables;
  st_now : Z;
  st_next : nat;
  st_sequence : nat;
  st_last_hash : string;
  st_rivals : list (list TraceEntry);
  st_cache : list (string * (Z * list Rule));
}.

Definition put_db (x : tables) (s : store) : store :=
  Store x (st_now s) (st_next s) (st_sequence s) (st_last_hash s) (st_rivals s) (st_cache s).
Definition put_next (x : nat) (s : store) : store :=
  Store (st_db s) (st_now s) x (st_sequence s) (st_last_hash s) (st_rivals s) (st_cache s).
Definition put_chain (n : nat) (h : string) (s : store) : store :=
  Store (st_db s) (st_now s) (st_next s) n h (st_rivals s) (st_cache s).
Definition put_rivals (x : list (list TraceEntry)) (s : store) : store :=
  Store (st_db s) (st_now s) (st_next s) (st_sequence s) (st_last_hash s) x (st_cache s).
Definition put_cache (x : list (string * (Z * list Rule))) (s : store) : store :=
  Store (st_db s) (st_now s) (st_next s) (st_sequence s) (st_last_hash s) (st_rivals s) x.

(** ** The host

    What the layers use of the world outside: the text of instants, hashlib's
    SHA-256 digest in 64 hexadecimal digits, and the database's row order where
    a statement has no ORDER BY (some permutation of the rows). *)
Class Host := {
  isoformat : Z → string;
  hexdigest : string → string;
  hexdigest_hex : ∀ s, all_hex (hexdigest s) = true ∧ String.length (hexdigest s) = 64;
  scan : ∀ {R}, list R → list R;
  scan_perm : ∀ {R} (l : list R), scan l ≡ₚ l;
}.

Abbreviation lp := (prog store).

Section Storage.
Context `{host : !Host}.

Definition now_utc : lp Z := gets st_now.

(** [generate_id]: never the same id twice. *)
Definition id_of (n : nat) : string := "id-" +:+ pretty n.
Definition generate_id : lp string :=
  n ← gets st_next;
  modify (put_next (S n)) ;;
  mret (id_of n).

(** SELECT ... WHERE p, in the database's own order; fetch_one takes the first. *)
Definition select {R} (tbl : tables → list R) (p : R → bool) : lp (list R) :=
  gets (λ s, scan (filter (λ r, p r = true) (tbl (st_db s)))).
Definition fetch_one {R} (tbl : tables → list R) (p : R → bool) : lp (option R) :=
  l ← select tbl p; mret (head l).
Definition select_count {R} (tbl : tables → list R) (p : R → bool) : lp nat :=
  gets (λ s, length (filter (λ r, p r = true) (tbl (st_db s)))).
(** ... ORDER BY. *)
Definition select_sorted {R} (tbl : tables → list R) (p : R → bool) (leb : R → R → bool)
  : lp (list R) :=
  gets (λ s, sort_by leb (scan (filter (λ r, p r = true) (tbl (st_db s))))).

(** UPDATE ... WHERE p. *)
Definition sql_update {R} (tbl : tables → list R) (put : list R → tables → tables)
  (p : R → bool) (f : R → R) : lp unit :=
  modify (λ s, put_db (put ((λ r, if p r then f r else r) <$> tbl (st_db s)) (st_db s)) s).

(** DELETE ... WHERE p. *)
Definition sql_delete {R} (tbl : tables → list R) (put : list R → tables → tables)
  (p : R → bool) : lp unit :=
  modify (λ s, put_db (put (filter (λ r, p r = false) (tbl (st_db s))) (st_db s)) s).

(** INSERT: [clash] is the table's unique constraints. *)
Definition sql_insert {R} (tbl : tables → list R) (put : list R → tables → tables)
  (clash : R → R → bool) (constraint : string) (r : R) : lp unit :=
  l ← gets (λ s, tbl (st_db s));
  raise_if (existsb (clash r) l) (IntegrityError constraint) ;;
  modify (λ s, put_db (put (tbl (st_db s) ++ [r]) (st_db s)) s).

(** The body of a [try]: its outcome. *)
Definition try {R} (m : lp R) : lp (outcome R) := λ s, let '(r, s') := m s in (Ok r, s').

(** [with backend.transaction() as txn]: rolled back on an exception. *)
Definition transaction {R} (m : lp R) : lp R := λ s,
  match m s with
  | (Ok a, s') => (Ok a, s')
  | (Raise e, s') => (Raise e, put_db (st_db s) s')
  end.
End Storage.

(** ** Running statements *)

(** An UPDATE that selects no row changes none. *)
Lemma fmap_unchanged {R} (p : R → bool) (f : R → R) (l : list R) :
  (∀ x, x ∈ l → p x = false) → (λ x, if p x then f x else x) <$> l = l.
Proof.
  induction l as [|x l IH]; intros H; [done|]. rewrite fmap_cons, (H x), IH; [done| |left].
  intros y Hy. apply H. by right.
Qed.

Lemma NoDup_fmap_filter {R K} (f : R → K) (P : R → Prop) `{∀ x, Decision (P x)} (l : list R) :
  NoDup (f <$> l) → NoDup (f <$> filter P l).
Proof.
  induction l as [|x l IH]; [done|]. rewrite fmap_cons, NoDup_cons, filter_cons. intros [Hx Hl].
  case_decide; [|by apply IH]. rewrite fmap_cons, NoDup_cons. split; [|by apply IH].
  intros (y & Heq & [_ Hy]%list_elem_of_filter)%list_elem_of_fmap. apply Hx. rewrite Heq.
  by apply list_elem_of_fmap_2.
Qed.

Section StorageTheory.
Context `{host : !Host}.

Lemma generate_id_ok s i s' : generate_id s = (Ok i, s') → i = id_of (st_next s) ∧ s' = put_next (S (st_next s)) s.
Proof. by intros [= <- <-]. Qed.

Lemma now_utc_ok s n s' : now_utc s = (Ok n, s') → n = st_now s ∧ s' = s.
Proof. by intros [= <- <-]. Qed.

Lemma sql_update_ok {R} (tbl : tables → list R) put p f s u s' :
  sql_update tbl put p f s = (Ok u, s') →
  s' = put_db (put ((λ r, if p r then f r else r) <$> tbl (st_db s)) (st_db s)) s.
Proof. by intros [= _ <-]. Qed.

Lemma sql_insert_ok {R} (tbl : tables → list R) put clash c (r : R) s u s' :
  sql_insert tbl put clash c r s = (Ok u, s') →
  (∀ x, x ∈ tbl (st_db s) → clash r x = false) ∧
  s' = put_db (put (tbl (st_db s) ++ [r]) (st_db s)) s.
Proof.
  unfold sql_insert. intros H. apply bind_ok_inv in H as (l & s1 & H1 & H).
  apply gets_ok in H1 as [-> ->]. apply bind_ok_inv in H as ([] & s1 & H1 & H).
  apply raise_if_ok in H1 as [H1 ->]. apply modify_ok in H. split; [|done].
  intros x Hx. destruct (clash r x) eqn:Hc; [|done]. exfalso.
  assert (Ht : existsb (clash r) (tbl (st_db s)) = true); [|congruence].
  apply existsb_exists. exists x. by rewrite <-list_elem_of_In.
Qed.

Lemma sql_insert_run {R} (tbl : tables → list R) put clash c (r : R) s :
  (∀ x, x ∈ tbl (st_db s) → clash r x = false) →
  sql_insert tbl put clash c r s = (Ok tt, put_db (put (tbl (st_db s) ++ [r]) (st_db s)) s).
Proof.
  intros Hc. unfold sql_insert, gets, mbind, prog_bind, raise_if.
  destruct (existsb (clash r) (tbl (st_db s))) eqn:He; [|done].
  apply existsb_exists in He as (x & Hx & Hclash). rewrite <-list_elem_of_In in Hx. by rewrite Hc in Hclash.
Qed.

(** An INSERT either fails and changes nothing or appends its row. *)
Lemma sql_insert_cases {R} (tbl : tables → list R) put clash c (r : R) s :
  sql_insert tbl put clash c r s = (Raise (IntegrityError c), s) ∨
  (∀ x, x ∈ tbl (st_db s) → clash r x = false) ∧
  sql_insert tbl put clash c r s = (Ok tt, put_db (put (tbl (st_db s) ++ [r]) (st_db s)) s).
Proof.
  destruct (existsb (clash r) (tbl (st_db s))) eqn:He.
  - left. unfold sql_insert, gets, mbind, prog_bind, raise_if. by rewrite He.
  - right. assert (Hc : ∀ x, x ∈ tbl (st_db s) → clash r x = false).
    { intros x Hx. destruct (clash r x) eqn:Hcl; [|done]. exfalso.
      assert (existsb (clash r) (tbl (st_db s)) = true); [|congruence].
      apply existsb_exists. exists x. by rewrite <-list_elem_of_In. }
    split; [done|by apply sql_insert_run].
Qed.

Lemma fetch_one_reads {R} (tbl : tables → list R) p : reads (fetch_one tbl p).
Proof. by intros s. Qed.

Lemma select_elem {R} (tbl : tables → list R) p s l s' :
  select tbl p s = (Ok l, s') → s' = s ∧ ∀ r, r ∈ l ↔ r ∈ tbl (st_db s) ∧ p r = true.
Proof.
  intros [= <- <-]. split; [done|]. intros r. rewrite scan_perm, list_elem_of_filter. tauto.
Qed.

Lemma fetch_one_ok {R} (tbl : tables → list R) p s o s' :
  fetch_one tbl p s = (Ok o, s') →
  s' = s ∧ match o with
           | Some r => r ∈ tbl (st_db s) ∧ p r = true
           | None => ∀ r, r ∈ tbl (st_db s) → p r = false
           end.
Proof.
  unfold fetch_one. intros H. apply bind_ok_inv in H as (l & s1 & H1 & H).
  apply select_elem in H1 as [-> Hl]. apply mret_ok in H as [-> ->]. split; [done|].
  destruct l as [|x l]; simpl.
  - intros r Hr. destruct (p r) eqn:Hp; [|done]. exfalso.
    by apply (not_elem_of_nil r), Hl.
  - apply Hl. left.
Qed.
End StorageTheory.

Lemma transaction_ok {R} (m : lp R) s a s' : transaction m s = (Ok a, s') → m s = (Ok a, s').
Proof. unfold transaction. destruct (m s) as [[x|e] s1]; [done|]. by intros [=]. Qed.

Lemma transaction_raise {R} (m : lp R) s e s' : transaction m s = (Raise e, s') → st_db s' = st_db s.
Proof. unfold transaction. destruct (m s) as [[x|e'] s1]; [done|]. by intros [= _ <-]. Qed.

(** ** Invariants of the database

    Running [m] from [s] keeps the invariant [I] of the tables and moves along
    the preorder [A], whether it returns or raises. *)

Section Keeps.
Context (I : tables → Prop) (A : relation tables) `{!PreOrder A}.

Definition keeps {R} (m : lp R) (s : store) : Prop :=
  I (st_db s) → I (st_db (m s).2) ∧ A (st_db s) (st_db (m s).2).

Lemma keeps_bind {R R'} (m : lp R) (f : R → lp R') s :
  keeps m s → (∀ a s1, m s = (Ok a, s1) → keeps (f a) s1) → keeps (m ≫= f) s.
Proof using Type*.
  intros Hm Hf Hok. rewrite run_bind. destruct (Hm Hok) as [H1 H2].
  destruct (m s) as [[a|e] s1]; [|done]. destruct (Hf a s1 eq_refl H1) as [H3 H4].
  split; [done|]. by etrans.
Qed.

Lemma keeps_same {R} (m : lp R) s : st_db (m s).2 = st_db s → keeps m s.
Proof using Type*. intros H Hok. by rewrite H. Qed.

Lemma keeps_reading {R} (m : lp R) s : reads m → keeps m s.
Proof using Type*. intros H. apply keeps_same. by rewrite (H s). Qed.

Lemma keeps_try {R} (m : lp R) s : keeps m s → keeps (try m) s.
Proof using. intros Hm Hok. unfold try. specialize (Hm Hok). by destruct (m s) as [r s1]. Qed.

Lemma keeps_transaction {R} (m : lp R) s : keeps m s → keeps (transaction m) s.
Proof using Type*.
  intros Hm Hok. unfold transaction. specialize (Hm Hok). destruct (m s) as [[a|e] s1]; [done|].
  simpl. by split.
Qed.

Lemma keeps_for_each {X} (l : list X) (body : X → lp unit) s :
  (∀ x s, x ∈ l → keeps (body x) s) → keeps (for_each l body) s.
Proof using Type*.
  revert s. induction l as [|x l IH]; intros s H; simpl; [by apply keeps_same|].
  apply keeps_bind; [apply H; left|]. intros _ s1 _. apply IH. intros y s' Hy. apply H. by right.
Qed.

Lemma keeps_for_fold {X Y} (l : list X) (y : Y) (body : Y → X → lp Y) s :
  (∀ y x s, x ∈ l → keeps (body y x) s) → keeps (for_fold l y body) s.
Proof using Type*.
  revert s y. induction l as [|x l IH]; intros s y H; simpl; [by apply keeps_same|].
  apply keeps_bind; [apply H; left|]. intros y' s1 _. apply IH. intros z x' s' Hx. apply H. by right.
Qed.
End Keeps.

(** Run every hypothesis [m s = (Ok a, s')] through the statements of [m]. *)
Ltac run_stmt :=
  match goal with
  | H : mbind _ _ _ = (Ok _, _) |- _ =>
      let H1 := fresh "Hrun" in
      apply bind_ok_inv in H as (? & ? & H1 & H); cbv beta in H
  | H : now_utc _ = (Ok _, _) |- _ => apply now_utc_ok in H as [-> ->]
  | H : generate_id _ = (Ok _, _) |- _ => apply generate_id_ok in H as [-> ->]
  | H : gets _ _ = (Ok _, _) |- _ => apply gets_ok in H as [-> ->]
  | H : mret _ _ = (Ok _, _) |- _ => apply mret_ok in H as [? ?]; subst
  | H : modify _ _ = (Ok _, _) |- _ => apply modify_ok in H; subst
  | H : sql_update _ _ _ _ _ = (Ok _, _) |- _ => apply sql_update_ok in H; subst
  | H : sql_insert _ _ _ _ _ _ = (Ok _, _) |- _ => apply sql_insert_ok in H as [? ?]; subst
  | H : raise_if _ _ _ = (Ok ?u, _) |- _ => destruct u; apply raise_if_ok in H as [? ?]; subst
  | H : raise _ _ = (Ok _, _) |- _ => discriminate H
  end.
