(* ===== verification/Json.v ===== *)
(** * Legacy v1: Python's text of values

    What the layers use of [str] and [json.dumps] on JSON values.  A character
    is an [ascii]: code points up to 255. *)

From Stdlib Require Import Ascii.
From S2P Require Import Prelude LegacyTypes PyFloat Schema.

Definition str1 (c : ascii) : string := String c "".

Definition quote1 : ascii := "'"%char.
Definition quote2 : ascii := ascii_of_nat 34.
Definition backslash : ascii := "\"%char.

(** A lower-case hexadecimal digit. *)
Definition hex_digit (n : nat) : ascii :=
  if n <? 10 then ascii_of_nat (48 + n) else ascii_of_nat (87 + n).
Definition hex2 (n : nat) : string := str1 (hex_digit (n / 16)) +:+ str1 (hex_digit (n mod 16)).

(** [str.isprintable] of one code point. *)
Definition printable (n : nat) : bool :=
  (32 <=? n) && (n <=? 126) || (161 <=? n) && negb (n =? 173).

Fixpoint concat_chars (f : ascii → string) (s : string) : string :=
  match s with EmptyString => "" | String c s' => f c +:+ concat_chars f s' end.

Fixpoint has_char (c : ascii) (s : string) : bool :=
  match s with EmptyString => false | String d s' => bool_decide (c = d) || has_char c s' end.

(** [repr(s)]: single quotes, unless only they would need escaping. *)
Definition repr_char (q c : ascii) : string :=
  let n := nat_of_ascii c in
  if bool_decide (c = q) || bool_decide (c = backslash) then str1 backslash +:+ str1 c
  else if n =? 9 then str1 backslash +:+ "t"
  else if n =? 10 then str1 backslash +:+ "n"
  else if n =? 13 then str1 backslash +:+ "r"
  else if printable n then str1 c
  else str1 backslash +:+ "x" +:+ hex2 n.

Definition py_repr_str (s : string) : string :=
  let q := if has_char quote1 s && negb (has_char quote2 s) then quote2 else quote1 in
  str1 q +:+ concat_chars (repr_char q) s +:+ str1 q.

Fixpoint join_with (sep : string) (l : list string) : string :=
  match l with [] => "" | [x] => x | x :: l' => x +:+ sep +:+ join_with sep l' end.

Fixpoint py_repr (v : jval) : string :=
  match v with
  | JVnull => "None"
  | JVbool b => if b then "True" else "False"
  | JVint z => pretty z
  | JVfloat f => float_repr f
  | JVstr s => py_repr_str s
  | JVlist l => "[" +:+ join_with ", " (py_repr <$> l) +:+ "]"
  | JVdict d => "{" +:+ join_with ", " ((λ x, py_repr_str x.1 +:+ ": " +:+ py_repr x.2) <$> d) +:+ "}"
  end%string.

(** [str(value)]. *)
Definition py_str_value (v : jval) : string :=
  match v with JVstr s => s | _ => py_repr v end.

(** The truth of a JSON value. *)
Definition jtruthy (v : jval) : bool :=
  match v with
  | JVnull => false
  | JVbool b => b
  | JVint z => negb (bool_decide (z = 0%Z))
  | JVfloat f => num_truthy (NFloat f)
  | JVstr s => negb (bool_decide (s = ""))
  | JVlist l => negb (bool_decide (length l = 0))
  | JVdict d => negb (bool_decide (length d = 0))
  end.

(** ** json.dumps(value, sort_keys=True) *)

Definition json_char (c : ascii) : string :=
  let n := nat_of_ascii c in
  if bool_decide (c = quote2) || bool_decide (c = backslash) then str1 backslash +:+ str1 c
  else if n =? 8 then str1 backslash +:+ "b"
  else if n =? 9 then str1 backslash +:+ "t"
  else if n =? 10 then str1 backslash +:+ "n"
  else if n =? 12 then str1 backslash +:+ "f"
  else if n =? 13 then str1 backslash +:+ "r"
  else if (32 <=? n) && (n <=? 126) then str1 c
  else str1 backslash +:+ "u00" +:+ hex2 n.

Definition json_string (s : string) : string :=
  str1 quote2 +:+ concat_chars json_char s +:+ str1 quote2.

Definition by_key {V} (a b : string * V) : bool := String.leb a.1 b.1.

Fixpoint json_dumps (v : jval) : string :=
  match v with
  | JVnull => "null"
  | JVbool b => if b then "true" else "false"
  | JVint z => pretty z
  | JVfloat f => float_json f
  | JVstr s => json_string s
  | JVlist l => "[" +:+ join_with ", " (json_dumps <$> l) +:+ "]"
  | JVdict d => "{" +:+ join_with ", " ((λ x, json_string x.1 +:+ ": " +:+ x.2) <$>
                  sort_by by_key ((λ x, (x.1, json_dumps x.2)) <$> d)) +:+ "}"
  end%string.

(** [json.dumps(value)]: the keys in their order. *)
Fixpoint json_text (v : jval) : string :=
  match v with
  | JVlist l => "[" +:+ join_with ", " (json_text <$> l) +:+ "]"
  | JVdict d => "{" +:+ join_with ", " ((λ x, json_string x.1 +:+ ": " +:+ json_text x.2) <$> d) +:+ "}"
  | _ => json_dumps v
  end%string.

(** ** Facts *)

Lemma string_app_length s t : String.length (s +:+ t) = String.length s + String.length t.
Proof. induction s as [|c s IH]; simpl; [done|]. by rewrite IH. Qed.

Example dumps_sorted :
  json_dumps (JVdict [("2", JVint 1); ("1", JVlist [JVnull; JVint 5])]%string)
    = ("{" +:+ json_string "1" +:+ ": [null, 5], " +:+ json_string "2" +:+ ": 1}")%string.
Proof. reflexivity. Qed.

Lemma string_leb_cons a s b t :
  String.leb (String a s) (String b t) = true ↔
    (N_of_ascii a < N_of_ascii b)%N ∨ a = b ∧ String.leb s t = true.
Proof.
  unfold String.leb. cbn [String.compare]. unfold Ascii.compare.
  destruct (N.compare_spec (N_of_ascii a) (N_of_ascii b)) as [Heq|Hlt|Hgt].
  - apply (f_equal ascii_of_N) in Heq as Hab. rewrite !ascii_N_embedding in Hab. subst b.
    split; [by right|]. intros [?|[_ H]]; [lia|done].
  - split; [by left|done].
  - split; [done|]. intros [?|[-> _]]; lia.
Qed.

Lemma string_leb_trans s t u : String.leb s t = true → String.leb t u = true → String.leb s u = true.
Proof.
  revert t u. induction s as [|a s IH]; intros [|b t] [|c u]; try done.
  rewrite !string_leb_cons. intros [Hab|[-> Hst]] [Hbc|[-> Htu]].
  - left. lia.
  - by left.
  - by left.
  - right. split; [done|]. by eapply IH.
Qed.
