(* ===== verification/JsonParse.v ===== *)
(** * Legacy v1: json.loads

    The parser that reads back what [json.dumps] wrote, and the proof that it
    does: a dict stored as JSON is the dict.  Code points above 255 have no value
    here. *)

From Stdlib Require Import Ascii.
From S2P Require Import Prelude LegacyTypes PyFloat Schema Json.

(** ** The parser *)

Definition is_space (c : ascii) : bool :=
  let n := nat_of_ascii c in (n =? 32) || (n =? 9) || (n =? 10) || (n =? 13).

Fixpoint skip_spaces (s : string) : string :=
  match s with String c s' => if is_space c then skip_spaces s' else s | EmptyString => s end.

Definition digit_of (c : ascii) : option N :=
  let n := N_of_ascii c in if (48 <=? n)%N && (n <=? 57)%N then Some (n - 48)%N else None.

Fixpoint read_digits (acc : N) (s : string) : N * string :=
  match s with
  | String c s' => match digit_of c with Some d => read_digits (acc * 10 + d) s' | None => (acc, s) end
  | EmptyString => (acc, s)
  end.

Definition starts_digit (s : string) : bool :=
  match s with String c _ => bool_decide (is_Some (digit_of c)) | EmptyString => false end.

Definition parse_natural (s : string) : option (N * string) :=
  match s with
  | String c s' =>
      match digit_of c with
      | None => None
      | Some d => Some (if (d =? 0)%N then (0%N, s') else read_digits 0 s)
      end
  | EmptyString => None
  end.

(** The digits of [n] with those behind the point, and how many there are. *)
Definition read_fraction (n : N) (s : string) : option (N * Z * string) :=
  match s with
  | String c t =>
      if bool_decide (c = "."%char) && starts_digit t then
        let x := read_digits n t in Some (x.1, Z.of_nat (String.length t - String.length x.2), x.2)
      else None
  | EmptyString => None
  end.

Definition read_sign (s : string) : bool * string :=
  match s with
  | String c t =>
      if bool_decide (c = "-"%char) then (true, t) else if bool_decide (c = "+"%char) then (false, t) else (false, s)
  | EmptyString => (false, s)
  end.

Definition read_exponent (s : string) : option (Z * string) :=
  match s with
  | String c t =>
      let x := read_sign t in
      if (bool_decide (c = "e"%char) || bool_decide (c = "E"%char)) && starts_digit x.2 then
        let y := read_digits 0 x.2 in Some (signed x.1 (Z.of_N y.1), y.2)
      else None
  | EmptyString => None
  end.

(** A fraction or an exponent makes a float. *)
Definition parse_unsigned (negative : bool) (s : string) : option (jval * string) :=
  match parse_natural s with
  | None => None
  | Some (n, r) =>
      match read_fraction n r with
      | Some (m, k, r1) =>
          match read_exponent r1 with
          | Some (x, r2) => Some (JVfloat (decimal_float negative m (x - k)), r2)
          | None => Some (JVfloat (decimal_float negative m (- k)), r1)
          end
      | None =>
          match read_exponent r with
          | Some (x, r2) => Some (JVfloat (decimal_float negative n x), r2)
          | None => Some (JVint (signed negative (Z.of_N n)), r)
          end
      end
  end.

Definition parse_number (s : string) : option (jval * string) :=
  match s with
  | String c t => if bool_decide (c = "-"%char) then parse_unsigned true t else parse_unsigned false s
  | EmptyString => None
  end.

Definition unescape (c : ascii) : option ascii :=
  if bool_decide (c = quote2) || bool_decide (c = backslash) || bool_decide (c = "/"%char) then Some c
  else if bool_decide (c = "b"%char) then Some (ascii_of_nat 8)
  else if bool_decide (c = "t"%char) then Some (ascii_of_nat 9)
  else if bool_decide (c = "n"%char) then Some (ascii_of_nat 10)
  else if bool_decide (c = "f"%char) then Some (ascii_of_nat 12)
  else if bool_decide (c = "r"%char) then Some (ascii_of_nat 13)
  else None.

(** Four hexadecimal digits, lower case as written by [json.dumps]. *)
Definition code_point (a b c d : ascii) : option ascii :=
  match hex_value a, hex_value b, hex_value c, hex_value d with
  | Some w, Some x, Some y, Some z =>
      let n := (4096 * w + 256 * x + 16 * y + z)%Z in
      if (n <? 256)%Z then Some (ascii_of_nat (Z.to_nat n)) else None
  | _, _, _, _ => None
  end.

(** After the opening quote. *)
Fixpoint string_body (s : string) : option (string * string) :=
  match s with
  | EmptyString => None
  | String c s1 =>
      if bool_decide (c = quote2) then Some (EmptyString, s1)
      else if bool_decide (c = backslash) then
        match s1 with
        | String "u" (String h1 (String h2 (String h3 (String h4 s2)))) =>
            match code_point h1 h2 h3 h4, string_body s2 with
            | Some x, Some (t, r) => Some (String x t, r)
            | _, _ => None
            end
        | String e s2 =>
            match unescape e, string_body s2 with
            | Some x, Some (t, r) => Some (String x t, r)
            | _, _ => None
            end
        | EmptyString => None
        end
      else if nat_of_ascii c <? 32 then None
      else match string_body s1 with Some (t, r) => Some (String c t, r) | None => None end
  end.

Definition expect (c : ascii) (s : string) : option string :=
  match s with String d s' => if bool_decide (c = d) then Some s' else None | EmptyString => None end.

Fixpoint is_prefix_of (p s : string) : option string :=
  match p, s with
  | EmptyString, _ => Some s
  | String a p', String c s' => if bool_decide (a = c) then is_prefix_of p' s' else None
  | String _ _, EmptyString => None
  end.

Definition words : list (string * jval) := [
  ("null", JVnull); ("true", JVbool true); ("false", JVbool false)].
Definition float_words : list (string * jval) := [
  ("NaN", JVfloat SpecFloat.S754_nan); ("Infinity", JVfloat (SpecFloat.S754_infinity false));
  ("-Infinity", JVfloat (SpecFloat.S754_infinity true))].

Fixpoint one_of (l : list (string * jval)) (s : string) : option (jval * string) :=
  match l with
  | [] => None
  | (w, v) :: l' => match is_prefix_of w s with Some r => Some (v, r) | None => one_of l' s end
  end.

Definition parse_word (s : string) : option (jval * string) :=
  match one_of words s, parse_number s with
  | Some x, _ => Some x
  | None, Some x => Some x
  | None, None => one_of float_words s
  end.

(** A value, the rest of a list after its bracket, the rest of a dict. *)
Fixpoint parse_value (fuel : nat) (s : string) : option (jval * string) :=
  match fuel with
  | O => None
  | S fuel' =>
      match s with
      | EmptyString => None
      | String c s1 =>
          if bool_decide (c = quote2) then
            match string_body s1 with Some (t, r) => Some (JVstr t, r) | None => None end
          else if bool_decide (c = "["%char) then
            match skip_spaces s1 with
            | String "]" r => Some (JVlist [], r)
            | s2 => match parse_items fuel' s2 with Some (l, r) => Some (JVlist l, r) | None => None end
            end
          else if bool_decide (c = "{"%char) then
            match skip_spaces s1 with
            | String "}" r => Some (JVdict [], r)
            | s2 => match parse_members fuel' s2 with Some (d, r) => Some (JVdict (jmerge [] d), r) | None => None end
            end
          else parse_word s
      end
  end
with parse_items (fuel : nat) (s : string) : option (list jval * string) :=
  match fuel with
  | O => None
  | S fuel' =>
      match parse_value fuel' s with
      | None => None
      | Some (v, r) =>
          match skip_spaces r with
          | String "]" r' => Some ([v], r')
          | String "," r' =>
              match parse_items fuel' (skip_spaces r') with Some (l, r'') => Some (v :: l, r'') | None => None end
          | _ => None
          end
      end
  end
with parse_members (fuel : nat) (s : string) : option (jdict * string) :=
  match fuel with
  | O => None
  | S fuel' =>
      match s with
      | String c s1 =>
          match (if bool_decide (c = quote2) then string_body s1 else None) with
          | None => None
          | Some (k, r) =>
              match expect ":" (skip_spaces r) with
              | None => None
              | Some r1 =>
                  match parse_value fuel' (skip_spaces r1) with
                  | None => None
                  | Some (v, r2) =>
                      match skip_spaces r2 with
                      | String "}" r3 => Some ([(k, v)], r3)
                      | String "," r3 =>
                          match parse_members fuel' (skip_spaces r3) with
                          | Some (d, r4) => Some ((k, v) :: d, r4)
                          | None => None
                          end
                      | _ => None
                      end
                  end
              end
          end
      | EmptyString => None
      end
  end.

(** [json.loads]; None stands for JSONDecodeError.  The text's length bounds the
    nesting. *)
Definition json_loads (s : string) : option jval :=
  match parse_value (S (String.length s)) (skip_spaces s) with
  | Some (v, r) => match skip_spaces r with EmptyString => Some v | _ => None end
  | None => None
  end.

(** ** What was written is read back *)

(** The text of a float reads as the float: so it does for every double. *)
Definition float_back (f : SpecFloat.spec_float) : bool :=
  match parse_word (float_json f) with Some (JVfloat g, EmptyString) => bool_decide (g = f) | _ => false end.

(** No key twice in any dict, and floats that read back. *)
Fixpoint json_ok (v : jval) : bool :=
  match v with
  | JVfloat f => float_back f
  | JVlist l => forallb json_ok l
  | JVdict d => bool_decide (NoDup d.*1) && forallb (λ x, json_ok x.2) d
  | _ => true
  end.

Section Induction.
Context (P : jval → Prop).
Context (Hnull : P JVnull) (Hbool : ∀ b, P (JVbool b)) (Hint : ∀ z, P (JVint z)) (Hfloat : ∀ f, P (JVfloat f))
  (Hstr : ∀ s, P (JVstr s)).
Context (Hlist : ∀ l, Forall P l → P (JVlist l)) (Hdict : ∀ d, Forall (λ x, P x.2) d → P (JVdict d)).

Lemma jval_nested_ind : ∀ v, P v.
Proof using Type*.
  fix IH 1. intros [|b|z|f|s|l|d]; [done|done|done|done|done| |].
  - apply Hlist. induction l as [|v l IHl]; constructor; [apply IH|exact IHl].
  - apply Hdict. induction d as [|[k v] d IHd]; constructor; [apply IH|exact IHd].
Qed.
End Induction.

Lemma app_assoc_str (s t u : string) : (s +:+ t) +:+ u = s +:+ (t +:+ u).
Proof. induction s as [|c s IH]; [done|]. exact (f_equal (String c) IH). Qed.

Lemma json_char_read c t :
  string_body (json_char c +:+ t) = match string_body t with Some (x, r) => Some (String c x, r) | None => None end.
Proof. destruct c as [[] [] [] [] [] [] [] []]; reflexivity. Qed.

Lemma string_body_run s r : string_body (concat_chars json_char s +:+ (str1 quote2 +:+ r)) = Some (s, r).
Proof. induction s as [|c s IH]; [reflexivity|].
  change (concat_chars json_char (String c s)) with (json_char c +:+ concat_chars json_char s).
  by rewrite app_assoc_str, json_char_read, IH.
Qed.

(** What may follow a value. *)
Definition closed (r : string) : Prop :=
  r = "" ∨ ∃ c s, r = String c s ∧ c ∈ [","%char; "]"%char; "}"%char].

Lemma closed_digits x r : closed r → read_digits x r = (x, r).
Proof. intros [->|(c & s & -> & Hc)]; [done|]. rewrite !elem_of_cons in Hc. by destruct Hc as [->|[->|[->|?%elem_of_nil]]]. Qed.

Lemma closed_not c s : closed (String c s) → c = ","%char ∨ c = "]"%char ∨ c = "}"%char.
Proof. intros [?|(c' & s' & [= <- <-] & Hc)]; [done|]. rewrite !elem_of_cons in Hc. by destruct Hc as [->|[->|[->|?%elem_of_nil]]]; auto. Qed.

Lemma closed_fraction n r : closed r → read_fraction n r = None.
Proof. destruct r as [|c r]; [done|]. by intros [->|[->| ->]]%closed_not. Qed.

Lemma closed_exponent r : closed r → read_exponent r = None.
Proof. destruct r as [|c r]; [done|]. by intros [->|[->| ->]]%closed_not. Qed.

Lemma digit_of_char x : (x < 10)%N → digit_of (pretty_N_char x) = Some x.
Proof.
  intros H. assert (x = 0 ∨ x = 1 ∨ x = 2 ∨ x = 3 ∨ x = 4 ∨ x = 5 ∨ x = 6 ∨ x = 7 ∨ x = 8 ∨ x = 9)%N as Hx by lia.
  by destruct Hx as [->|[->|[->|[->|[->|[->|[->|[->|[->| ->]]]]]]]]].
Qed.

Lemma read_digits_go x s : read_digits 0 (pretty_N_go x s) = read_digits x s.
Proof.
  revert s. induction (N.lt_wf_0 x) as [x _ IH]; intros s.
  destruct (decide (x = 0)%N) as [->|Hx]; [by rewrite pretty_N_go_0|].
  rewrite pretty_N_go_step by lia. rewrite IH by (apply N.div_lt; lia). cbn [read_digits].
  rewrite digit_of_char by (apply N.mod_lt; lia). f_equal. pose proof (N.div_mod x 10 ltac:(lia)). lia.
Qed.

(** A positive number starts with a digit that is not zero. *)
Lemma go_head x s : (0 < x)%N → ∃ c t d, pretty_N_go x s = String c t ∧ digit_of c = Some d ∧ d ≠ 0%N.
Proof.
  revert s. induction (N.lt_wf_0 x) as [x _ IH]; intros s Hx. rewrite pretty_N_go_step by done.
  destruct (decide (x < 10)%N) as [Hlt|Hge].
  - rewrite N.div_small, pretty_N_go_0, N.mod_small by done. exists (pretty_N_char x), s, x.
    rewrite digit_of_char by done. split_and!; [done|done|lia].
  - apply IH; [by apply N.div_lt|]. apply N.div_str_pos. lia.
Qed.

Lemma go_app x s t : pretty_N_go x s +:+ t = pretty_N_go x (s +:+ t).
Proof.
  revert s. induction (N.lt_wf_0 x) as [x _ IH]; intros s.
  destruct (decide (x = 0)%N) as [->|Hx]; [by rewrite !pretty_N_go_0|].
  rewrite !(pretty_N_go_step x) by lia. by rewrite IH by (apply N.div_lt; lia).
Qed.

Lemma parse_natural_run (n : N) r : closed r → parse_natural (pretty n +:+ r) = Some (n, r).
Proof.
  intros Hr. unfold pretty, pretty_N. case_decide as Hn.
  - by subst.
  - rewrite go_app. change ("" +:+ r) with r. destruct (go_head n r) as (c & t & d & Heq & Hd & Hne); [lia|].
    unfold parse_natural. rewrite Heq, Hd, (proj2 (N.eqb_neq d 0) Hne). by rewrite <-Heq, read_digits_go, closed_digits.
Qed.

Lemma natural_head (n : N) : ∃ c t d, pretty n = String c t ∧ digit_of c = Some d.
Proof.
  unfold pretty, pretty_N. case_decide as Hn; [by exists "0"%char, "", 0%N|].
  destruct (go_head n "") as (c & t & d & -> & Hd & _); [lia|]. by exists c, t, d.
Qed.

Lemma pretty_Z_cases (z : Z) :
  (pretty z = pretty (Z.to_N z) ∧ (0 ≤ z)%Z) ∨ (pretty z = String "-" (pretty (Z.to_N (- z))) ∧ (z < 0)%Z).
Proof. destruct z as [|p|p]; [by left|by left|by right]. Qed.

Lemma digit_not_dash c d : digit_of c = Some d → c ≠ "-"%char.
Proof. by intros H ->. Qed.

Lemma parse_unsigned_run negative (n : N) r :
  closed r → parse_unsigned negative (pretty n +:+ r) = Some (JVint (signed negative (Z.of_N n)), r).
Proof. intros Hr. unfold parse_unsigned. by rewrite parse_natural_run, closed_fraction, closed_exponent. Qed.

Lemma parse_number_run (z : Z) r : closed r → parse_number (pretty z +:+ r) = Some (JVint z, r).
Proof.
  intros Hr. destruct (pretty_Z_cases z) as [[-> Hz]|[-> Hz]].
  - pose proof (parse_unsigned_run false (Z.to_N z) r Hr) as Hrun.
    destruct (natural_head (Z.to_N z)) as (c & t & d & Heq & Hd). rewrite Heq in *.
    change (String c t +:+ r) with (String c (t +:+ r)) in *. cbn [parse_number].
    rewrite bool_decide_eq_false_2, Hrun by exact (digit_not_dash c d Hd). cbn. by rewrite Z2N.id.
  - change (parse_number (String "-" (pretty (Z.to_N (- z))) +:+ r)) with (parse_unsigned true (pretty (Z.to_N (- z)) +:+ r)).
    rewrite parse_unsigned_run by done. cbn. rewrite Z2N.id by lia. by rewrite Z.opp_involutive.
Qed.

(** *** More text behind a value that has been read *)

Lemma read_digits_app a s r :
  closed r → read_digits a (s +:+ r) = ((read_digits a s).1, (read_digits a s).2 +:+ r).
Proof.
  intros Hr. revert a. induction s as [|c s IH]; intros a; [by apply closed_digits|].
  change (String c s +:+ r) with (String c (s +:+ r)). cbn [read_digits]. by destruct (digit_of c).
Qed.

Lemma starts_digit_app s r : closed r → starts_digit (s +:+ r) = starts_digit s.
Proof.
  intros Hr. destruct s as [|c s]; [|done]. destruct r as [|c r]; [done|].
  by apply closed_not in Hr as [->|[->| ->]].
Qed.

(** [more r] of what was read: the same, with [r] behind the rest. *)
Definition more {X} (r : string) (x : X * string) : X * string := (x.1, x.2 +:+ r).

Lemma parse_natural_app s r : closed r → parse_natural (s +:+ r) = more r <$> parse_natural s.
Proof.
  intros Hr. destruct s as [|c s].
  - destruct r as [|c r]; [done|]. by apply closed_not in Hr as [->|[->| ->]].
  - change (String c s +:+ r) with (String c (s +:+ r)). cbn [parse_natural]. destruct (digit_of c) as [d|] eqn:Hd; rewrite ?Hd; [|done].
    destruct (d =? 0)%N; [done|]. change (String c (s +:+ r)) with (String c s +:+ r). by rewrite read_digits_app.
Qed.

Lemma read_fraction_app n s r :
  closed r → read_fraction n (s +:+ r) = more r <$> read_fraction n s.
Proof.
  intros Hr. destruct s as [|c s]; [change ("" +:+ r) with r; by rewrite closed_fraction|].
  change (String c s +:+ r) with (String c (s +:+ r)). cbn [read_fraction]. rewrite starts_digit_app by done. destruct (bool_decide _ && starts_digit s); [|done].
  rewrite read_digits_app by done. cbn. unfold more. cbn. rewrite !string_app_length. do 4 f_equal. lia.
Qed.

Lemma read_exponent_app s r :
  closed r → read_exponent (s +:+ r) = more r <$> read_exponent s.
Proof.
  intros Hr. destruct s as [|c s]; [change ("" +:+ r) with r; by rewrite closed_exponent|].
  change (String c s +:+ r) with (String c (s +:+ r)). cbn [read_exponent].
  assert (Hsign : read_sign (s +:+ r) = ((read_sign s).1, (read_sign s).2 +:+ r)).
  { destruct s as [|d s].
    - destruct r as [|d r]; [done|]. by apply closed_not in Hr as [->|[->| ->]].
    - change (String d s +:+ r) with (String d (s +:+ r)). cbn [read_sign]. by repeat case_bool_decide. }
  rewrite Hsign. cbn [fst snd]. rewrite starts_digit_app by done. destruct (_ && starts_digit _); [|done].
  by rewrite read_digits_app.
Qed.

Lemma parse_unsigned_app negative s r :
  closed r → parse_unsigned negative (s +:+ r) = more r <$> parse_unsigned negative s.
Proof.
  intros Hr. unfold parse_unsigned. rewrite parse_natural_app by done. destruct (parse_natural s) as [[n u]|]; [|done].
  cbn [fmap option_fmap option_map more fst snd]. rewrite read_fraction_app by done.
  destruct (read_fraction n u) as [[[m k] u1]|]; cbn [fmap option_fmap option_map more fst snd]; rewrite read_exponent_app by done.
  - by destruct (read_exponent u1) as [[x u2]|].
  - by destruct (read_exponent u) as [[x u2]|].
Qed.

Lemma parse_number_app s r : closed r → parse_number (s +:+ r) = more r <$> parse_number s.
Proof.
  intros Hr. destruct s as [|c s].
  - destruct r as [|c r]; [done|]. by apply closed_not in Hr as [->|[->| ->]].
  - change (String c s +:+ r) with (String c (s +:+ r)). cbn [parse_number].
    case_bool_decide; [by apply parse_unsigned_app|]. by apply (parse_unsigned_app false (String c s)).
Qed.

(** *** The first character of a text *)

(** How a number may start. *)
Definition starter (c : ascii) : Prop :=
  is_space c = false ∧ c ∉ [quote2; "["%char; "{"%char; "]"%char; "n"%char; "t"%char; "f"%char].

Lemma digit_starter c d : digit_of c = Some d → starter c.
Proof.
  destruct c as [[] [] [] [] [] [] [] []]; try discriminate; intros _;
    (split; [reflexivity|by apply (bool_decide_unpack _)]).
Qed.

Definition starts_well (s : string) : Prop := ∃ c t, s = String c t ∧ starter c.

Lemma starts_well_app s t : starts_well s → starts_well (s +:+ t).
Proof. intros (c & u & -> & Hc). by exists c, (u +:+ t). Qed.

Lemma starts_well_char c t : is_space c = false → bool_decide (c ∉ [quote2; "["%char; "{"%char; "]"%char; "n"%char; "t"%char; "f"%char]) = true →
  starts_well (String c t).
Proof. intros Hs Hc%bool_decide_eq_true_1. by exists c, t. Qed.

Lemma natural_starts (n : N) : starts_well (pretty n).
Proof. destruct (natural_head n) as (c & t & d & -> & Hd). exists c, t. split; [done|]. by eapply digit_starter. Qed.

Lemma number_starts (z : Z) : starts_well (pretty z).
Proof. destruct (pretty_Z_cases z) as [[-> _]|[-> _]]; [apply natural_starts|by apply starts_well_char]. Qed.

Lemma substring_starts n m s : starts_well s → 0 < m → n = 0 → starts_well (String.substring n m s).
Proof.
  intros (c & t & -> & Hc) Hm ->. destruct m as [|m]; [lia|]. exists c, (String.substring 0 m t). done.
Qed.

Lemma decimal_starts d q : starts_well (decimal_text d q).
Proof.
  unfold decimal_text. set (point := (_ + q)%Z). destruct ((point <=? -4) || (16 <? point))%Z.
  { apply starts_well_app, substring_starts; [apply natural_starts|lia|done]. }
  destruct (Z.leb_spec point 0); [by apply starts_well_char|].
  destruct (_ <=? point)%Z; apply starts_well_app; [apply natural_starts|].
  apply substring_starts; [apply natural_starts|lia|done].
Qed.

Lemma sign_starts s t : starts_well t → starts_well (sign_text s +:+ t).
Proof. intros Ht. destruct s; [by apply starts_well_char|done]. Qed.

Lemma float_starts f : starts_well (float_json f).
Proof.
  destruct f as [s|s| |s m e]; cbn [float_json float_repr].
  - apply sign_starts. by apply starts_well_char.
  - apply sign_starts. by apply starts_well_char.
  - by apply starts_well_char.
  - apply sign_starts. unfold finite_text. destruct (shortest m e) as [d q]. destruct (strip_zeros 17 d q). apply decimal_starts.
Qed.

Lemma text_head v : ∃ c t, json_text v = String c t ∧ is_space c = false ∧ c ≠ "]"%char.
Proof.
  assert (Hwell : ∀ s, starts_well s → ∃ c t, s = String c t ∧ is_space c = false ∧ c ≠ "]"%char).
  { intros s (c & t & -> & Hsp & Hc). exists c, t. split_and!; [done..|]. intros ->. apply Hc. by apply (bool_decide_unpack _). }
  destruct v as [|[]|z|f|s|l|d]; try (eexists _, _; split; [reflexivity|]; split; [reflexivity|by apply (bool_decide_unpack _)]).
  - apply (Hwell (pretty z)), number_starts.
  - apply (Hwell (float_json f)), float_starts.
Qed.

Lemma skip_none c s : is_space c = false → skip_spaces (String c s) = String c s.
Proof. intros H. simpl. by rewrite H. Qed.

Lemma skip_text v r : skip_spaces (json_text v +:+ r) = json_text v +:+ r.
Proof. destruct (text_head v) as (c & t & -> & Hc & _). by apply (skip_none c (t +:+ r)). Qed.

Lemma skip_closed r : closed r → skip_spaces r = r.
Proof.
  intros [->|(c & s & -> & Hc)]; [done|]. apply skip_none. rewrite !elem_of_cons in Hc.
  by destruct Hc as [->|[->|[->|?%elem_of_nil]]].
Qed.

(** *** One value *)

Lemma is_prefix_run p r : is_prefix_of p (p +:+ r) = Some r.
Proof.
  induction p as [|c p IH]; [done|]. change (String c p +:+ r) with (String c (p +:+ r)). cbn [is_prefix_of].
  by rewrite bool_decide_eq_true_2.
Qed.

(** No word has a character that may follow a value. *)
Definition word_like (w : string) : Prop :=
  Forall (λ c, c ∉ [","%char; "]"%char; "}"%char]) (String.list_ascii_of_string w).

Lemma is_prefix_app w s r :
  word_like w → closed r → is_prefix_of w (s +:+ r) = (λ t, t +:+ r) <$> is_prefix_of w s.
Proof.
  intros Hw Hr. revert s. induction w as [|a w IH]; intros s; [done|].
  apply Forall_cons in Hw as [Ha Hw]. destruct s as [|c s].
  - destruct r as [|c r]; [done|]. change ("" +:+ String c r) with (String c r). cbn [is_prefix_of].
    rewrite bool_decide_eq_false_2; [done|]. intros <-. apply Ha.
    apply closed_not in Hr as [->|[->| ->]]; by apply (bool_decide_unpack _).
  - change (String c s +:+ r) with (String c (s +:+ r)). cbn [is_prefix_of]. case_bool_decide; [by apply IH|done].
Qed.

Lemma words_like : Forall (λ x : string * jval, word_like x.1) (words ++ float_words).
Proof. repeat (constructor; [repeat constructor; by apply (bool_decide_unpack _)|]). constructor. Qed.

Lemma one_of_app l s r :
  Forall (λ x : string * jval, word_like x.1) l → closed r → one_of l (s +:+ r) = more r <$> one_of l s.
Proof.
  intros Hl Hr. induction Hl as [|[w v] l Hw _ IH]; [done|]. cbn [one_of]. rewrite is_prefix_app by done.
  by destruct (is_prefix_of w s).
Qed.

Lemma parse_word_app s r : closed r → parse_word (s +:+ r) = more r <$> parse_word s.
Proof.
  intros Hr. pose proof words_like as [Hw Hf]%Forall_app. unfold parse_word.
  rewrite !one_of_app, parse_number_app by done. by destruct (one_of words s), (parse_number s).
Qed.

Lemma parse_word_other s :
  starts_well s → parse_word s = match parse_number s with Some x => Some x | None => one_of float_words s end.
Proof.
  intros (c & t & -> & _ & Hc). rewrite !not_elem_of_cons in Hc. destruct Hc as (_ & _ & _ & _ & Hn & Ht & Hf & _).
  unfold parse_word, one_of, words. cbn [is_prefix_of]. by rewrite !bool_decide_eq_false_2 by congruence.
Qed.

Lemma parse_value_word f s :
  starts_well s → parse_value (S f) s = parse_word s.
Proof.
  intros (c & t & -> & _ & Hc). rewrite !not_elem_of_cons in Hc. destruct Hc as (H1 & H2 & H3 & _). cbn [parse_value].
  by rewrite !bool_decide_eq_false_2.
Qed.

Lemma parse_value_named f w v r :
  (w, v) ∈ words → parse_value (S f) (w +:+ r) = Some (v, r).
Proof.
  unfold words. rewrite !elem_of_cons. intros Hw.
  destruct Hw as [[= -> ->]|[[= -> ->]|[[= -> ->]|?%elem_of_nil]]]; [| | |done]; cbn; unfold parse_word; cbn;
    by destruct r.
Qed.

Lemma parse_scalar v f r :
  match v with JVlist _ | JVdict _ => False | JVfloat x => float_back x = true | _ => True end → closed r →
  parse_value (S f) (json_text v +:+ r) = Some (v, r).
Proof.
  intros Hv Hr. destruct v as [|b|z|x|s|l|d]; try done; cbn [json_text json_dumps].
  - destruct b; [apply (parse_value_named f "true")|apply (parse_value_named f "false")]; unfold words; rewrite !elem_of_cons; auto.
  - pose proof (number_starts z) as Hz. rewrite parse_value_word by by apply starts_well_app.
    rewrite parse_word_other by by apply starts_well_app. by rewrite parse_number_run.
  - rewrite parse_value_word by apply starts_well_app, float_starts. rewrite parse_word_app by done.
    unfold float_back in Hv. destruct (parse_word (float_json x)) as [[[| | |y| | |] [|c t]]|]; try done.
    by apply bool_decide_eq_true_1 in Hv as ->.
  - unfold json_string. rewrite !app_assoc_str. change (str1 quote2 +:+ ?x) with (String quote2 x).
    cbn [parse_value]. rewrite bool_decide_eq_true_2 by done.
    change (String quote2 r) with (str1 quote2 +:+ r). by rewrite string_body_run.
Qed.

(** *** Lists and dicts *)

(** What parsing one value comes to. *)
Definition read_back (v : jval) : Prop :=
  ∀ f r, closed r → String.length (json_text v) ≤ f → parse_value f (json_text v +:+ r) = Some (v, r).

Lemma closed_char c r : c ∈ [","%char; "]"%char; "}"%char] → closed (String c r).
Proof. right. by eexists _, _. Qed.

Lemma text_positive v : 1 ≤ String.length (json_text v).
Proof. destruct (text_head v) as (c & t & -> & _). simpl. lia. Qed.

Lemma items_run l r f :
  l ≠ [] → Forall read_back l → String.length (join_with ", " (json_text <$> l)) < f →
  parse_items f (join_with ", " (json_text <$> l) +:+ String "]" r) = Some (l, r).
Proof.
  intros Hne Hl. revert f Hne. induction Hl as [|v l Hv Hl IH]; intros f Hne Hf; [done|]. clear Hne.
  destruct f as [|f]; [lia|]. cbn [parse_items]. destruct l as [|w l].
  - cbn [fmap list_fmap join_with] in *. rewrite (Hv f) by (lia || by apply closed_char; right; left). done.
  - change (join_with ", " (json_text <$> v :: w :: l)) with
      (json_text v +:+ ", " +:+ join_with ", " (json_text <$> w :: l)) in *.
    rewrite !string_app_length in Hf. change (String.length ", ") with 2 in Hf.
    rewrite !app_assoc_str, (Hv f) by (lia || by apply closed_char; left).
    change (skip_spaces (", " +:+ ?x)) with (String "," (String " " x)). cbv beta iota.
    change (skip_spaces (String " " ?x)) with (skip_spaces x).
    assert (Hskip : ∀ x, skip_spaces (join_with ", " (json_text <$> w :: l) +:+ x) = join_with ", " (json_text <$> w :: l) +:+ x).
    { intros x. destruct l as [|u l]; cbn [fmap list_fmap join_with]; [apply skip_text|]. rewrite app_assoc_str.
      apply skip_text. }
    rewrite Hskip, IH by (done || lia). done.
Qed.

Definition member_text (x : string * jval) : string := json_string x.1 +:+ ": " +:+ json_text x.2.

Lemma member_head k v r : skip_spaces (member_text (k, v) +:+ r) = member_text (k, v) +:+ r.
Proof. done. Qed.

Lemma key_run k r : string_body (concat_chars json_char k +:+ str1 quote2 +:+ r) = Some (k, r).
Proof. apply string_body_run. Qed.

Lemma members_run d r f :
  d ≠ [] → Forall (λ x, read_back x.2) d → String.length (join_with ", " (member_text <$> d)) < f →
  parse_members f (join_with ", " (member_text <$> d) +:+ String "}" r) = Some (d, r).
Proof.
  intros Hne Hd. revert f Hne. induction Hd as [|[k v] d Hv Hd IH]; intros f Hne Hf; [done|]. clear Hne. simpl in Hv.
  destruct f as [|f]; [lia|].
  assert (Hstep : ∀ r', closed r' → String.length (member_text (k, v)) ≤ f →
    parse_members (S f) (member_text (k, v) +:+ r') =
      match skip_spaces r' with
      | String "}" r3 => Some ([(k, v)], r3)
      | String "," r3 =>
          match parse_members f (skip_spaces r3) with Some (d, r4) => Some ((k, v) :: d, r4) | None => None end
      | _ => None
      end).
  { intros r' Hr' Hlen. unfold member_text in *. cbn [fst snd] in *. rewrite !string_app_length in Hlen.
    unfold json_string. rewrite !app_assoc_str. change (str1 quote2 +:+ ?x) with (String quote2 x) at 1.
    cbn [parse_members]. rewrite bool_decide_eq_true_2 by done. rewrite key_run.
    change (expect ":" (skip_spaces (": " +:+ ?x))) with (Some (String " " x)). cbv beta iota.
    change (skip_spaces (String " " ?x)) with (skip_spaces x). rewrite skip_text, Hv by (done || lia). done. }
  destruct d as [|[k' v'] d].
  - cbn [fmap list_fmap join_with] in *. rewrite Hstep by (lia || by apply closed_char; right; right; left). done.
  - change (join_with ", " (member_text <$> (k, v) :: (k', v') :: d)) with
      (member_text (k, v) +:+ ", " +:+ join_with ", " (member_text <$> (k', v') :: d)) in *.
    rewrite !string_app_length in Hf. change (String.length ", ") with 2 in Hf.
    rewrite !app_assoc_str, Hstep by (lia || by apply closed_char; left).
    change (skip_spaces (", " +:+ ?x)) with (String "," (String " " x)). cbv beta iota.
    change (skip_spaces (String " " ?x)) with (skip_spaces x).
    assert (Hskip : ∀ x, skip_spaces (join_with ", " (member_text <$> (k', v') :: d) +:+ x) =
      join_with ", " (member_text <$> (k', v') :: d) +:+ x).
    { intros x. by destruct d. }
    rewrite Hskip, IH by (done || lia). done.
Qed.

Lemma jmerge_same a d : NoDup (a ++ d).*1 → jmerge a d = a ++ d.
Proof.
  revert a. induction d as [|[k v] d IH]; intros a Hnd; [by rewrite app_nil_r|]. unfold jmerge. cbn [foldl fst snd].
  assert (Hset : jset a k v = a ++ [(k, v)]).
  { unfold jset. destruct (existsb _ a) eqn:Hex; [|done]. apply existsb_exists in Hex as (x & Hx & Hk).
    apply bool_decide_eq_true_1 in Hk. apply list_elem_of_In in Hx. rewrite fmap_app, fmap_cons in Hnd.
    apply NoDup_app in Hnd as (_ & Hno & _). destruct (Hno x.1); [by apply list_elem_of_fmap_2|]. rewrite Hk. left. }
  rewrite Hset. etrans; [apply IH|]; by rewrite <-app_assoc.
Qed.

Lemma join_head v l r : ∃ c t,
  join_with ", " (json_text <$> v :: l) +:+ r = String c t ∧ is_space c = false ∧ c ≠ "]"%char.
Proof.
  destruct (text_head v) as (c & t & Hv & Hc). exists c.
  destruct l as [|w l]; cbn [fmap list_fmap join_with]; rewrite Hv; by eexists.
Qed.

Lemma list_back l : Forall read_back l → read_back (JVlist l).
Proof.
  intros Hl f r Hr Hf. destruct f as [|f]; [pose proof (text_positive (JVlist l)); lia|].
  cbn [json_text] in *. rewrite !string_app_length in Hf. change (String.length "[") with 1 in Hf.
  change (String.length "]") with 1 in Hf. rewrite !app_assoc_str. change ("[" +:+ ?x) with (String "[" x).
  cbn [parse_value]. rewrite bool_decide_eq_false_2, bool_decide_eq_true_2 by done.
  destruct l as [|v l]; [done|]. change ("]" +:+ r) with (String "]" r).
  pose proof (items_run (v :: l) r f ltac:(done) Hl ltac:(lia)) as Hrun.
  destruct (join_head v l (String "]" r)) as (c & t & Heq & Hsp & Hc). rewrite Heq in *. rewrite skip_none by done.
  clear -Hrun Hc. destruct c as [[] [] [] [] [] [] [] []]; try (by rewrite Hrun). by destruct Hc.
Qed.

Lemma dict_back d : NoDup d.*1 → Forall (λ x, read_back x.2) d → read_back (JVdict d).
Proof.
  intros Hnd Hd f r Hr Hf. destruct f as [|f]; [pose proof (text_positive (JVdict d)); lia|].
  cbn [json_text] in *. rewrite !string_app_length in Hf. change (String.length "{") with 1 in Hf.
  change (String.length "}") with 1 in Hf. rewrite !app_assoc_str. change ("{" +:+ ?x) with (String "{" x).
  cbn [parse_value]. rewrite !bool_decide_eq_false_2, bool_decide_eq_true_2 by done.
  destruct d as [|[k v] d]; [done|]. change ("}" +:+ r) with (String "}" r).
  pose proof (members_run ((k, v) :: d) r f ltac:(done) Hd ltac:(unfold member_text; lia)) as Hrun.
  unfold member_text in Hrun.
  assert (Hj : ∃ t, join_with ", " ((λ x, json_string x.1 +:+ ": " +:+ json_text x.2) <$> (k, v) :: d) +:+ String "}" r
    = String quote2 t) by (by destruct d; eexists).
  destruct Hj as [t Hj]. rewrite Hj in *. rewrite skip_none by done.
  change (match parse_members f (String quote2 t) with Some (d0, r0) => Some (JVdict (jmerge [] d0), r0) | None => None end
    = Some (JVdict ((k, v) :: d), r)).
  rewrite Hrun. by rewrite (jmerge_same []).
Qed.

Lemma read_back_all v : json_ok v = true → read_back v.
Proof.
  assert (Hscalar : ∀ w, match w with JVlist _ | JVdict _ => False | JVfloat x => float_back x = true | _ => True end → read_back w).
  { intros w Hw f r Hr Hf. pose proof (text_positive w). destruct f as [|f]; [lia|]. by apply parse_scalar. }
  induction v as [|b|z|x|s|l IH|d IH] using jval_nested_ind; intros Hok; try by apply Hscalar.
  - apply list_back. cbn [json_ok] in Hok. rewrite forallb_forall in Hok. rewrite Forall_forall in *. intros v Hv.
    apply IH; [done|]. apply Hok. by apply list_elem_of_In.
  - cbn [json_ok] in Hok. apply andb_true_iff in Hok as [Hnd%bool_decide_eq_true_1 Hok]. apply dict_back; [done|].
    rewrite forallb_forall in Hok. rewrite Forall_forall in *. intros x Hx. apply IH; [done|].
    apply Hok. by apply list_elem_of_In.
Qed.

(** What [json.dumps] writes, [json.loads] reads back. *)
Theorem json_roundtrip v : json_ok v = true → json_loads (json_text v) = Some v.
Proof.
  intros Hok. unfold json_loads. pose proof (read_back_all v Hok (S (String.length (json_text v))) "") as H.
  pose proof (skip_text v "") as Hs.
  assert (Happ : ∀ s, s +:+ "" = s) by (induction s as [|c s IH]; [done|exact (f_equal (String c) IH)]).
  rewrite Happ in *. rewrite Hs, H; [done|by left|lia].
Qed.
