(* ===== verification/Trail.v ===== *)
(** * Legacy v1: the audit trail (audit/models.py, writer.py, query.py, retention.py)

    The hash-chained trail: the writer with its bounded retry against other
    processes, filtered reads, chunked verification, and retention. *)

From Stdlib Require Import Ascii.
From S2P Require Import Prelude LegacyTypes Schema.

Section Trail.
Context `{host : !Host}.

(** ** The hash *)

Definition hash_payload (id : string) (seq : nat) (actor action ttype tid ts prev : string) : string :=
  id +:+ "|" +:+ pretty seq +:+ "|" +:+ actor +:+ "|" +:+ action +:+ "|" +:+
  ttype +:+ "|" +:+ tid +:+ "|" +:+ ts +:+ "|" +:+ prev.

Definition compute_hash (id : string) (seq : nat) (actor action ttype tid ts prev : string) : string :=
  hexdigest (hash_payload id seq actor action ttype tid ts prev).

(** The arguments of [record]. *)
Record trace_request := {
  q_actor : string; q_action : ActionType.t; q_target_type : string; q_target_id : string;
  q_scope : option string; q_before : option jdict; q_after : option jdict;
  q_metadata : jdict; q_parent : option string;
}.

Definition request_hash (q : trace_request) (id : string) (seq : nat) (ts : Z) (prev : string) : string :=
  compute_hash id seq (q_actor q) (ActionType.value (q_action q)) (q_target_type q) (q_target_id q)
    (isoformat ts) prev.

Definition new_entry (q : trace_request) (id : string) (seq : nat) (ts : Z) (prev : string)
  : TraceEntry := {|
  te_id := id; te_sequence := seq; te_actor := q_actor q; te_action := q_action q;
  te_target_type := q_target_type q; te_target_id := q_target_id q; te_timestamp := ts;
  te_hash := request_hash q id seq ts prev; te_previous_hash := prev; te_scope := q_scope q;
  te_before := q_before q; te_after := q_after q; te_metadata := q_metadata q;
  te_parent := q_parent q |}.

(** [TraceEntry.snapshot]. *)
Definition entry_snapshot (e : TraceEntry) : jdict := [
  ("id", JVstr (te_id e)); ("sequence", JVint (Z.of_nat (te_sequence e)));
  ("actor_id", JVstr (te_actor e)); ("action", JVstr (ActionType.value (te_action e)));
  ("target_type", JVstr (te_target_type e)); ("target_id", JVstr (te_target_id e));
  ("scope_id", jopt (te_scope e)); ("timestamp", JVstr (isoformat (te_timestamp e)));
  ("before_state", from_option JVdict JVnull (te_before e));
  ("after_state", from_option JVdict JVnull (te_after e));
  ("metadata", JVdict (te_metadata e)); ("parent_trace_id", jopt (te_parent e));
  ("hash", JVstr (te_hash e)); ("previous_hash", JVstr (te_previous_hash e))].

(** ** AuditWriter *)

Definition _MAX_SEQUENCE_RETRIES : nat := 3.

Definition by_sequence (a b : TraceEntry) : bool := te_sequence a <=? te_sequence b.
Definition by_sequence_desc (a b : TraceEntry) : bool := te_sequence b <=? te_sequence a.

Definition _seed_chain : lp (nat * string) :=
  l ← select_sorted t_trail (λ _, true) by_sequence_desc;
  mret (match l with [] => (0, "") | e :: _ => (te_sequence e, te_hash e) end).

Definition _reseed_if_stale : lp unit :=
  seed ← _seed_chain;
  current ← gets st_sequence;
  if current <? seed.1 then modify (put_chain seed.1 seed.2) else mret tt.

(** The constructor. *)
Definition new_writer : lp unit :=
  seed ← _seed_chain; modify (put_chain seed.1 seed.2).

Definition sequence_collision : exn := IntegrityError "audit_trail.sequence".

(** INSERT INTO audit_trail, with its unique index, primary key and foreign key. *)
Definition _persist_in_txn (e : TraceEntry) : lp unit :=
  l ← gets (λ s, t_trail (st_db s));
  raise_if (existsb (λ x, te_sequence x =? te_sequence e) l) sequence_collision ;;
  raise_if (existsb (λ x, bool_decide (te_id x = te_id e)) l) (IntegrityError "audit_trail.id") ;;
  raise_if (match te_parent e with
            | None => false
            | Some p => negb (existsb (λ x, bool_decide (te_id x = p)) (l ++ [e]))
            end) (IntegrityError "audit_trail.parent_trace_id") ;;
  modify (λ s, put_db (set_trail (t_trail (st_db s) ++ [e]) (st_db s)) s).

Definition _is_sequence_collision (e : exn) : bool := bool_decide (e = sequence_collision).

(** Other processes commit before this process's transaction starts. *)
Definition rivals_commit : lp unit := modify (λ s,
  match st_rivals s with
  | [] => s
  | batch :: rest =>
      put_rivals rest (put_db (set_trail (t_trail (st_db s) ++ batch) (st_db s)) s)
  end).

(** The loop of [record]: [left] attempts remain. *)
Fixpoint record_attempts (left : nat) (q : trace_request) : lp TraceEntry :=
  match left with
  | O => raise (SequenceCollision "Failed to assign unique audit sequence after 3 retries")
  | S left' =>
      _reseed_if_stale ;;
      entry_id ← generate_id;
      ts ← now_utc;
      sequence ← gets st_sequence;
      last_hash ← gets st_last_hash;
      let seq := S sequence in
      let entry := new_entry q entry_id seq ts last_hash in
      rivals_commit ;;
      r ← try (transaction (_persist_in_txn entry));
      match r with
      | Raise e =>
          if _is_sequence_collision e && (0 <? left') then record_attempts left' q else raise e
      | Ok _ => modify (put_chain seq (te_hash entry)) ;; mret entry
      end
  end.

Definition record (q : trace_request) : lp TraceEntry :=
  record_attempts (S _MAX_SEQUENCE_RETRIES) q.

(** One entry of a batch, inside the transaction. *)
Definition batch_entry (ts : Z) (acc : list TraceEntry) (q : trace_request) : lp (list TraceEntry) :=
  entry_id ← generate_id;
  sequence ← gets st_sequence;
  last_hash ← gets st_last_hash;
  let entry := new_entry q entry_id (S sequence) ts last_hash in
  _persist_in_txn entry ;;
  modify (put_chain (S sequence) (te_hash entry)) ;;
  mret (acc ++ [entry]).

Fixpoint batch_attempts (left : nat) (qs : list trace_request) : lp (list TraceEntry) :=
  match left with
  | O => raise (SequenceCollision "Failed to assign unique audit sequence for batch after 3 retries")
  | S left' =>
      _reseed_if_stale ;;
      ts ← now_utc;
      saved_seq ← gets st_sequence;
      saved_hash ← gets st_last_hash;
      rivals_commit ;;
      r ← try (transaction (for_fold qs [] (batch_entry ts)));
      match r with
      | Ok entries => mret entries
      | Raise e =>
          modify (put_chain saved_seq saved_hash) ;;
          if _is_sequence_collision e && (0 <? left') then batch_attempts left' qs else raise e
      end
  end.

Definition record_batch (qs : list trace_request) : lp (list TraceEntry) :=
  batch_attempts (S _MAX_SEQUENCE_RETRIES) qs.

Definition last_sequence : lp nat := gets st_sequence.
Definition last_hash : lp string := gets st_last_hash.

(** ** AuditQuery *)

Definition get (id : string) : lp (option TraceEntry) :=
  fetch_one t_trail (λ e, bool_decide (te_id e = id)).

Definition get_by_sequence (n : nat) : lp (option TraceEntry) :=
  fetch_one t_trail (λ e, te_sequence e =? n).

Definition filter_opt {X} `{EqDecision X} (f : option X) (v : X) : bool :=
  match f with None => true | Some x => bool_decide (v = x) end.

Definition opt_filter_opt {X} `{EqDecision X} (f : option X) (v : option X) : bool :=
  match f with None => true | Some x => bool_decide (v = Some x) end.

(** The WHERE clause of [query]. *)
Record trail_filter := {
  f_actor : option string; f_action : option ActionType.t; f_target_type : option string;
  f_target_id : option string; f_scope : option string; f_parent : option string;
  f_since : option Z; f_until : option Z;
}.

Definition no_filter : trail_filter := {|
  f_actor := None; f_action := None; f_target_type := None; f_target_id := None;
  f_scope := None; f_parent := None; f_since := None; f_until := None |}.

Definition filter_holds (f : trail_filter) (e : TraceEntry) : bool :=
  filter_opt (f_actor f) (te_actor e) && filter_opt (f_action f) (te_action e) &&
  filter_opt (f_target_type f) (te_target_type e) && filter_opt (f_target_id f) (te_target_id e) &&
  opt_filter_opt (f_scope f) (te_scope e) && opt_filter_opt (f_parent f) (te_parent e) &&
  match f_since f with None => true | Some t => (t <=? te_timestamp e)%Z end &&
  match f_until f with None => true | Some t => (te_timestamp e <=? t)%Z end.

(** [order_by.startswith("-")] and [order_by.lstrip("-")]. *)
Definition is_desc (o : string) : bool :=
  match o with String "-" _ => true | _ => false end.
Fixpoint strip_dashes (o : string) : string :=
  match o with String "-" o' => strip_dashes o' | _ => o end.

Definition by_timestamp (a b : TraceEntry) : bool := (te_timestamp a <=? te_timestamp b)%Z.
Definition by_timestamp_desc (a b : TraceEntry) : bool := (te_timestamp b <=? te_timestamp a)%Z.

Definition trail_order (o : string) : TraceEntry → TraceEntry → bool :=
  if bool_decide (strip_dashes o = "timestamp")
  then if is_desc o then by_timestamp_desc else by_timestamp
  else if is_desc o then by_sequence_desc else by_sequence.

Definition query (f : trail_filter) (order_by : string) (limit offset : nat) : lp (list TraceEntry) :=
  l ← select_sorted t_trail (filter_holds f) (trail_order order_by);
  mret (take limit (drop offset l)).

Definition count (f : trail_filter) : lp nat := select_count t_trail (filter_holds f).

Definition children (parent : string) : lp (list TraceEntry) :=
  query {| f_actor := None; f_action := None; f_target_type := None; f_target_id := None;
           f_scope := None; f_parent := Some parent; f_since := None; f_until := None |}
    "sequence" 1000 0.

Definition history (target_type target_id : string) (limit : nat) : lp (list TraceEntry) :=
  query {| f_actor := None; f_action := None; f_target_type := Some target_type;
           f_target_id := Some target_id; f_scope := None; f_parent := None;
           f_since := None; f_until := None |} "sequence" limit 0.

(** ** Chain verification *)

Record ChainVerification := {
  cv_valid : bool; entries_checked : nat; first_sequence : nat; cv_last_sequence : nat;
  broken_at_sequence : option nat;
}.

Definition expected_hash (e : TraceEntry) : string :=
  compute_hash (te_id e) (te_sequence e) (te_actor e) (ActionType.value (te_action e))
    (te_target_type e) (te_target_id e) (isoformat (te_timestamp e)) (te_previous_hash e).

(** The local variables of the walk. *)
Record walk := {
  total_checked : nat; first_seq : option nat; last_seq : nat; prev_hash : option string }.

Definition broken (w : walk) (e : TraceEntry) : ChainVerification := {|
  cv_valid := false; entries_checked := S (total_checked w);
  first_sequence := default (te_sequence e) (first_seq w); cv_last_sequence := te_sequence e;
  broken_at_sequence := Some (te_sequence e) |}.

Definition step (w : walk) (e : TraceEntry) : walk := {|
  total_checked := S (total_checked w); first_seq := Some (default (te_sequence e) (first_seq w));
  last_seq := te_sequence e; prev_hash := Some (te_hash e) |}.

(** The checks on one entry. *)
Definition entry_fits (w : walk) (e : TraceEntry) : bool :=
  bool_decide (te_hash e = expected_hash e) &&
  match prev_hash w with None => true | Some h => bool_decide (te_previous_hash e = h) end.

(** The inner loop over a chunk. *)
Fixpoint walk_chunk (w : walk) (l : list TraceEntry) : ChainVerification + walk :=
  match l with
  | [] => inr w
  | e :: l' => if entry_fits w e then walk_chunk (step w e) l' else inl (broken w e)
  end.

Definition walk_result (w : walk) : ChainVerification :=
  match first_seq w with
  | None => {| cv_valid := true; entries_checked := 0; first_sequence := 0; cv_last_sequence := 0;
               broken_at_sequence := None |}
  | Some f => {| cv_valid := true; entries_checked := total_checked w; first_sequence := f;
                 cv_last_sequence := last_seq w; broken_at_sequence := None |}
  end.

Definition in_range (from : nat) (to : option nat) (e : TraceEntry) : bool :=
  (from <=? te_sequence e) && match to with None => true | Some t => te_sequence e <=? t end.

Definition fetch_chunk (from : nat) (to : option nat) (chunk_size : nat) : lp (list TraceEntry) :=
  l ← select_sorted t_trail (in_range from to) by_sequence; mret (take chunk_size l).

(** The outer loop; [fuel] bounds the number of chunks. *)
Fixpoint verify_loop (fuel : nat) (w : walk) (from : nat) (to : option nat) (chunk_size : nat)
  : lp (option ChainVerification) :=
  match fuel with
  | O => mret None
  | S fuel' =>
      entries ← fetch_chunk from to chunk_size;
      match last entries with
      | None => mret (Some (walk_result w))
      | Some final =>
          match walk_chunk w entries with
          | inl failed => mret (Some failed)
          | inr w' =>
              if length entries <? chunk_size then mret (Some (walk_result w'))
              else verify_loop fuel' w' (S (te_sequence final)) to chunk_size
          end
      end
  end.

Definition start_walk : walk :=
  {| total_checked := 0; first_seq := None; last_seq := 0; prev_hash := None |}.

(** One chunk more than the trail has entries is always enough. *)
Definition verify_chain (from : nat) (to : option nat) (chunk_size : nat)
  : lp (option ChainVerification) :=
  fuel ← gets (λ s, S (length (t_trail (st_db s))));
  verify_loop fuel start_walk from to chunk_size.

(** ** Retention *)

Record RetentionPolicy := {
  max_age_days : option Z; max_entries : option nat;
  compact_before_state : bool; compact_after_state : bool;
}.

Record RetentionResult := { deleted : nat; compacted : nat }.

Definition microseconds_per_day : Z := 86400000000.

Definition _age_cutoff (p : RetentionPolicy) : lp (option Z) :=
  match max_age_days p with
  | None => mret None
  | Some d => now ← now_utc; mret (Some (now - d * microseconds_per_day)%Z)
  end.

Definition older (cutoff : option Z) (e : TraceEntry) : bool :=
  match cutoff with None => false | Some c => (te_timestamp e <? c)%Z end.

Definition estimate (p : RetentionPolicy) : lp nat :=
  cutoff ← _age_cutoff p;
  by_age ← match cutoff with
           | None => mret 0
           | Some _ => select_count t_trail (older cutoff)
           end;
  match max_entries p with
  | None => mret by_age
  | Some m => total ← select_count t_trail (λ _, true); mret (Nat.max by_age (total - m))
  end.

Definition state_present (before after : bool) (e : TraceEntry) : bool :=
  (before && bool_decide (is_Some (te_before e))) || (after && bool_decide (is_Some (te_after e))).

Definition strip_state (before after : bool) (e : TraceEntry) : TraceEntry := {|
  te_id := te_id e; te_sequence := te_sequence e; te_actor := te_actor e; te_action := te_action e;
  te_target_type := te_target_type e; te_target_id := te_target_id e;
  te_timestamp := te_timestamp e; te_hash := te_hash e; te_previous_hash := te_previous_hash e;
  te_scope := te_scope e; te_before := if before then None else te_before e;
  te_after := if after then None else te_after e; te_metadata := te_metadata e;
  te_parent := te_parent e |}.

Definition compact (before_sequence : option nat) (before after : bool) : lp nat :=
  if negb before && negb after then mret 0 else
  let where_ e := state_present before after e &&
    match before_sequence with None => true | Some n => te_sequence e <? n end in
  affected ← select_count t_trail where_;
  if affected =? 0 then mret 0 else
  sql_update t_trail set_trail where_ (strip_state before after) ;;
  mret affected.

(** DELETE FROM audit_trail: an entry that stays may not lose its parent. *)
Definition delete_entries (p : TraceEntry → bool) : lp unit :=
  l ← gets (λ s, t_trail (st_db s));
  raise_if (existsb (λ e, negb (p e) &&
      match te_parent e with
      | None => false
      | Some id => existsb (λ x, p x && bool_decide (te_id x = id)) l
      end) l) (IntegrityError "audit_trail.parent_trace_id") ;;
  sql_delete t_trail set_trail p.

Definition delete_excess (m : nat) : lp unit :=
  l ← select_sorted t_trail (λ _, true) by_sequence_desc;
  match drop m l with
  | [] => mret tt
  | e :: _ => delete_entries (λ x, te_sequence x <=? te_sequence e)
  end.

Definition apply (p : RetentionPolicy) : lp RetentionResult :=
  total_before ← select_count t_trail (λ _, true);
  cutoff ← _age_cutoff p;
  match cutoff with
  | None => mret tt
  | Some _ => delete_entries (older cutoff)
  end ;;
  match max_entries p with None => mret tt | Some m => delete_excess m end ;;
  n ← (if compact_before_state p || compact_after_state p
       then compact None (compact_before_state p) (compact_after_state p) else mret 0);
  remaining ← select_count t_trail (λ _, true);
  mret {| deleted := total_before - remaining; compacted := n |}.
End Trail.

(** ** Lemmas: order and selection *)

Section TrailTheory.
Context `{host : !Host}.

Definition seq_lt (a b : TraceEntry) : Prop := te_sequence a < te_sequence b.

(** The trail as the writers leave it: strictly increasing sequences. *)
Definition seq_sorted (l : list TraceEntry) : Prop := StronglySorted seq_lt l.

Lemma seq_sorted_distinct l a b :
  seq_sorted l → a ∈ l → b ∈ l → te_sequence a = te_sequence b → a = b.
Proof.
  induction 1 as [|x l Hl IH Hx]; [by intros ?%not_elem_of_nil|].
  rewrite Forall_forall in Hx. rewrite !elem_of_cons. intros [->|Ha] [->|Hb] Heq; auto.
  - specialize (Hx _ Hb). unfold seq_lt in Hx. lia.
  - specialize (Hx _ Ha). unfold seq_lt in Hx. lia.
Qed.

Lemma seq_sorted_filter l (p : TraceEntry → bool) :
  seq_sorted l → seq_sorted (filter (λ e, p e = true) l).
Proof.
  induction 1 as [|x l Hl IH Hx]; [constructor|]. rewrite filter_cons.
  case_decide; [|done]. constructor; [done|]. rewrite Forall_forall in Hx |- *.
  intros y [_ Hy]%list_elem_of_filter. by apply Hx.
Qed.

Lemma seq_sorted_app l1 l2 :
  seq_sorted (l1 ++ l2) ↔
  seq_sorted l1 ∧ seq_sorted l2 ∧ ∀ a b, a ∈ l1 → b ∈ l2 → te_sequence a < te_sequence b.
Proof.
  unfold seq_sorted. induction l1 as [|x l1 IH]; simpl.
  { split; [intros ?; split_and!; [constructor|done|by intros ?? ?%not_elem_of_nil]|tauto]. }
  split.
  - intros H. inversion H as [|?? Hl Hx]; subst. rewrite Forall_app in Hx.
    apply IH in Hl as (H1 & H2 & H3). destruct Hx as [Hx1 Hx2]. split_and!; [by constructor|done|].
    intros a b [->|Ha]%elem_of_cons Hb; [|by apply H3].
    rewrite Forall_forall in Hx2. by apply Hx2.
  - intros (H1 & H2 & H3). inversion H1 as [|?? Hl Hx]; subst. constructor.
    + apply IH. split_and!; [done..|]. intros a b Ha Hb. apply H3; [by right|done].
    + apply Forall_app. split; [done|]. apply Forall_forall. intros b Hb. apply H3; [left|done].
Qed.

Lemma by_sequence_total x y : by_sequence x y = true ∨ by_sequence y x = true.
Proof. unfold by_sequence. rewrite !Nat.leb_le. lia. Qed.
Lemma by_sequence_trans x y z : by_sequence x y = true → by_sequence y z = true → by_sequence x z = true.
Proof. unfold by_sequence. rewrite !Nat.leb_le. lia. Qed.

(** Sorting any permutation of a trail by sequence gives the trail. *)
Lemma sort_perm_trail l k : seq_sorted l → k ≡ₚ l → sort_by by_sequence k = l.
Proof.
  intros Hl Hk. apply (StronglySorted_unique_strong (leb_rel by_sequence)).
  - intros x y Hx Hy Hxy Hyx. apply (seq_sorted_distinct l).
    + done.
    + rewrite <-Hk. by rewrite sort_by_perm in Hx.
    + done.
    + unfold leb_rel, by_sequence in *. rewrite Nat.leb_le in *. lia.
  - apply sort_by_sorted; [apply by_sequence_total|apply by_sequence_trans].
  - clear k Hk. induction Hl as [|x l Hl IH Hx]; constructor; [done|].
    eapply Forall_impl; [exact Hx|]. unfold seq_lt, leb_rel, by_sequence. intros ??.
    apply Nat.leb_le. lia.
  - by rewrite sort_by_perm.
Qed.

Lemma sort_desc_trail l k : seq_sorted l → k ≡ₚ l → sort_by by_sequence_desc k = reverse l.
Proof.
  intros Hl Hk. apply (StronglySorted_unique_strong (leb_rel by_sequence_desc)).
  - intros x y Hx Hy Hxy Hyx. apply (seq_sorted_distinct l).
    + done.
    + rewrite <-Hk. by rewrite sort_by_perm in Hx.
    + by rewrite elem_of_reverse in Hy.
    + unfold leb_rel, by_sequence_desc in *. rewrite Nat.leb_le in *. lia.
  - apply sort_by_sorted; unfold by_sequence_desc; intros; rewrite !Nat.leb_le in *; lia.
  - clear k Hk. induction Hl as [|x l Hl IH Hx] using StronglySorted_ind; [constructor|].
    rewrite reverse_cons. clear Hl. revert IH.
    assert (Hx' : ∀ y, y ∈ reverse l → te_sequence x < te_sequence y).
    { intros y Hy. rewrite elem_of_reverse in Hy. rewrite Forall_forall in Hx. by apply Hx. }
    clear Hx. induction (reverse l) as [|y k IHk]; intros IH; simpl.
    { repeat constructor. }
    inversion IH as [|?? Hk Hy]; subst. constructor.
    + apply IHk; [|done]. intros z Hz. apply Hx'. by right.
    + apply Forall_app. split; [done|]. constructor; [|done].
      unfold leb_rel, by_sequence_desc. apply Nat.leb_le. specialize (Hx' y ltac:(left)). lia.
  - rewrite sort_by_perm. by rewrite reverse_Permutation.
Qed.

Lemma select_trail (p : TraceEntry → bool) s :
  seq_sorted (t_trail (st_db s)) →
  select_sorted t_trail p by_sequence s = (Ok (filter (λ e, p e = true) (t_trail (st_db s))), s).
Proof.
  intros Hs. unfold select_sorted, gets. do 2 f_equal.
  apply sort_perm_trail; [by apply seq_sorted_filter|apply scan_perm].
Qed.

Lemma filter_true {X} (l : list X) : filter (λ _, true = true) l = l.
Proof. induction l as [|x l IH]; [done|]. by rewrite filter_cons_True, IH. Qed.

Lemma select_trail_desc s :
  seq_sorted (t_trail (st_db s)) →
  select_sorted t_trail (λ _, true) by_sequence_desc s = (Ok (reverse (t_trail (st_db s))), s).
Proof.
  intros Hs. unfold select_sorted, gets. do 2 f_equal. apply sort_desc_trail; [done|].
  rewrite filter_true. apply scan_perm.
Qed.
End TrailTheory.

(** ** Lemmas: verification *)

Section VerifyTheory.
Context `{host : !Host}.

(** The whole walk over a list in one go. *)
Definition pass (w : walk) (l : list TraceEntry) : ChainVerification :=
  match walk_chunk w l with inl failed => failed | inr w' => walk_result w' end.

(** The hash chain: every entry hashes correctly and carries the hash of the one
    before it. *)
Fixpoint linked (prev : option string) (l : list TraceEntry) : Prop :=
  match l with
  | [] => True
  | e :: l' => te_hash e = expected_hash e ∧
      match prev with None => True | Some h => te_previous_hash e = h end ∧
      linked (Some (te_hash e)) l'
  end.

Definition trail_ok (l : list TraceEntry) : Prop := seq_sorted l ∧ linked None l.

Lemma walk_chunk_app w l1 l2 :
  walk_chunk w (l1 ++ l2) =
    match walk_chunk w l1 with inl f => inl f | inr w' => walk_chunk w' l2 end.
Proof.
  revert w. induction l1 as [|e l1 IH]; intros w; [done|]. simpl.
  destruct (entry_fits w e); [apply IH|done].
Qed.

Lemma walk_chunk_linked w l :
  linked (prev_hash w) l ↔ ∃ w', walk_chunk w l = inr w'.
Proof.
  revert w. induction l as [|e l IH]; intros w; simpl; [naive_solver|].
  unfold entry_fits. destruct (decide (te_hash e = expected_hash e)) as [Hh|Hh].
  - rewrite (bool_decide_eq_true_2 _ Hh). simpl.
    destruct (prev_hash w) as [h|].
    + case_bool_decide; [|naive_solver]. rewrite <-(IH (step w e)). simpl. tauto.
    + rewrite <-(IH (step w e)). simpl. tauto.
  - rewrite (bool_decide_eq_false_2 _ Hh). simpl. naive_solver.
Qed.

Lemma walk_chunk_final w l w' :
  walk_chunk w l = inr w' →
  total_checked w' = total_checked w + length l ∧
  first_seq w' = match first_seq w with Some f => Some f | None => te_sequence <$> head l end ∧
  prev_hash w' = match last l with Some e => Some (te_hash e) | None => prev_hash w end ∧
  last_seq w' = match last l with Some e => te_sequence e | None => last_seq w end.
Proof.
  revert w. induction l as [|e l IH]; intros w H; cbn [walk_chunk] in H.
  { injection H as <-. simpl. split_and!; [lia| |done|done]. by destruct (first_seq w). }
  destruct (entry_fits w e); [|done]. apply IH in H as (-> & -> & -> & ->).
  rewrite last_cons. simpl. split_and!; [lia| | |].
  - by destruct (first_seq w).
  - by destruct (last l).
  - by destruct (last l).
Qed.

Lemma walk_broken w l f : walk_chunk w l = inl f → cv_valid f = false.
Proof.
  revert w. induction l as [|e l IH]; intros w H; cbn [walk_chunk] in H; [done|].
  destruct (entry_fits w e); [by eapply IH|]. by injection H as <-.
Qed.

(** A pass reports valid exactly on the linked lists. *)
Lemma pass_valid w l : cv_valid (pass w l) = true ↔ linked (prev_hash w) l.
Proof.
  rewrite walk_chunk_linked. unfold pass. destruct (walk_chunk w l) as [f|w'] eqn:H.
  - split; [|by intros [? ?]]. by rewrite (walk_broken _ _ _ H).
  - split; [by eauto|]. intros _. unfold walk_result. by destruct (first_seq w').
Qed.

Lemma in_range_next from to e n :
  from ≤ n → in_range (S n) to e = in_range from to e && (n <? te_sequence e).
Proof.
  intros Hn. unfold in_range. apply eq_iff_eq_true. rewrite !andb_true_iff, !Nat.leb_le, Nat.ltb_lt.
  intuition lia.
Qed.

(** The rest of the range, after the chunk that ends in [final], is what the next
    query selects. *)
Lemma next_chunk l from to n final :
  seq_sorted l →
  let r := filter (λ e, in_range from to e = true) l in
  last (take n r) = Some final →
  filter (λ e, in_range (S (te_sequence final)) to e = true) l = drop n r.
Proof.
  intros Hl r Hlast.
  assert (Hr : seq_sorted r) by (by apply seq_sorted_filter).
  assert (Hfrom : from ≤ te_sequence final).
  { apply last_Some_elem_of in Hlast. assert (Hin : final ∈ r).
    { rewrite <-(take_drop n r). apply elem_of_app. by left. }
    apply list_elem_of_filter in Hin as [Hin _]. unfold in_range in Hin.
    apply andb_true_iff in Hin as [Hin%Nat.leb_le _]. done. }
  transitivity (filter (λ e, te_sequence final < te_sequence e) r).
  { unfold r. rewrite list_filter_filter. apply list_filter_iff. intros e.
    rewrite (in_range_next from), andb_true_iff, Nat.ltb_lt by done. tauto. }
  rewrite <-(take_drop n r) in Hr |- * at 1. rewrite filter_app.
  apply seq_sorted_app in Hr as (Hr1 & _ & Hr2).
  apply last_Some in Hlast as [k Hk]. rewrite Hk in Hr1, Hr2 |- *.
  apply seq_sorted_app in Hr1 as (_ & _ & Hk').
  rewrite (proj2 (filter_nil_iff _ (k ++ [final]))).
  - simpl. apply filter_all_iff. intros e He. apply Hr2; [|done]. apply elem_of_app. right. by apply list_elem_of_singleton.
  - intros x [Hx|Hx%list_elem_of_singleton]%elem_of_app; [|subst; lia].
    specialize (Hk' x final Hx ltac:(by apply list_elem_of_singleton)). lia.
Qed.

Lemma fetch_chunk_run from to n s :
  seq_sorted (t_trail (st_db s)) →
  fetch_chunk from to n s =
    (Ok (take n (filter (λ e, in_range from to e = true) (t_trail (st_db s)))), s).
Proof. intros Hs. unfold fetch_chunk. by rewrite (run_bind_ok _ _ _ _ _ (select_trail _ _ Hs)). Qed.

Lemma take_last_none {X} n (l : list X) : 0 < n → last (take n l) = None → l = [].
Proof. destruct n, l; simpl; [lia|lia|done|]. intros _ H%last_None. done. Qed.

(** The chunked walk is the single pass, whatever the chunk size. *)
Lemma verify_loop_pass fuel w from to n s :
  let l := filter (λ e, in_range from to e = true) (t_trail (st_db s)) in
  seq_sorted (t_trail (st_db s)) → 0 < n → length l < fuel →
  verify_loop fuel w from to n s = (Ok (Some (pass w l)), s).
Proof.
  cbn zeta. intros Hs Hn. revert w from. induction fuel as [|fuel IH]; intros w from Hfuel; [lia|].
  cbn [verify_loop]. rewrite (run_bind_ok _ _ _ _ _ (fetch_chunk_run from to n s Hs)).
  set (l := filter _ _) in *. destruct (last (take n l)) as [final|] eqn:Hlast; last first.
  { apply take_last_none in Hlast; [|done]. by rewrite Hlast. }
  assert (Hsplit : walk_chunk w l = match walk_chunk w (take n l) with
      inl f => inl f | inr w' => walk_chunk w' (drop n l) end)
    by (by rewrite <-walk_chunk_app, take_drop).
  unfold pass. rewrite Hsplit. destruct (walk_chunk w (take n l)) as [f|w'] eqn:Hw; [done|].
  rewrite length_take. destruct (Nat.ltb_spec (n `min` length l) n) as [Hshort|Hfull].
  - rewrite drop_ge by lia. done.
  - pose proof (next_chunk _ from to n final Hs Hlast) as Hnext. fold l in Hnext.
    rewrite IH; rewrite Hnext; [done|]. rewrite length_drop. lia.
Qed.

Lemma filter_length_le {X} (P : X → Prop) `{∀ x, Decision (P x)} (l : list X) :
  length (filter P l) ≤ length l.
Proof. apply length_filter. Qed.

Lemma verify_chain_pass from to n s :
  seq_sorted (t_trail (st_db s)) → 0 < n →
  verify_chain from to n s =
    (Ok (Some (pass start_walk (filter (λ e, in_range from to e = true) (t_trail (st_db s))))), s).
Proof.
  intros Hs Hn. unfold verify_chain. rewrite (run_bind_ok _ _ _ (S (length (t_trail (st_db s)))) s) by done.
  apply verify_loop_pass; [done|done|]. apply Nat.lt_succ_r, filter_length_le.
Qed.

Lemma linked_weaken prev l : linked prev l → linked None l.
Proof. destruct l; simpl; tauto. Qed.

Lemma linked_app prev l1 l2 :
  linked prev (l1 ++ l2) ↔
  linked prev l1 ∧ linked (match last l1 with Some e => Some (te_hash e) | None => prev end) l2.
Proof.
  revert prev. induction l1 as [|e l1 IH]; intros prev; simpl; [tauto|].
  rewrite IH. destruct l1 as [|x l1]; simpl; [tauto|]. destruct (last (x :: l1)) eqn:H; [tauto|].
  by apply last_None in H.
Qed.

Lemma trail_ok_drop l n : trail_ok l → trail_ok (drop n l).
Proof.
  rewrite <-(take_drop n l) at 1. intros [Hs Hl]. apply seq_sorted_app in Hs as (_ & Hs & _).
  apply linked_app in Hl as [_ Hl]. split; [done|]. by eapply linked_weaken.
Qed.

Lemma trail_ok_take l n : trail_ok l → trail_ok (take n l).
Proof.
  rewrite <-(take_drop n l) at 1. intros [Hs Hl]. apply seq_sorted_app in Hs as (Hs & _ & _).
  by apply linked_app in Hl as [Hl _].
Qed.

(** On a sorted list an upward closed filter keeps a suffix, a downward closed one
    a prefix. *)
Lemma filter_suffix (p : TraceEntry → bool) l :
  seq_sorted l → (∀ a b, a ∈ l → b ∈ l → te_sequence a < te_sequence b → p a = true → p b = true) →
  ∃ n, filter (λ e, p e = true) l = drop n l.
Proof.
  induction 1 as [|x l Hl IH Hx]; intros Hup; [by exists 0|]. rewrite filter_cons.
  rewrite Forall_forall in Hx. case_decide as Hp.
  - exists 0. simpl. f_equal. apply filter_all_iff. intros y Hy.
    apply (Hup x y); [left|by right|by apply Hx|done].
  - destruct IH as [n Hn]; [|by exists (S n)]. intros a b Ha Hb. apply Hup; by right.
Qed.

Lemma filter_prefix (p : TraceEntry → bool) l :
  seq_sorted l → (∀ a b, a ∈ l → b ∈ l → te_sequence a < te_sequence b → p b = true → p a = true) →
  ∃ n, filter (λ e, p e = true) l = take n l.
Proof.
  induction 1 as [|x l Hl IH Hx]; intros Hdown; [by exists 0|]. rewrite filter_cons.
  rewrite Forall_forall in Hx. case_decide as Hp.
  - destruct IH as [n Hn]; [|exists (S n); simpl; by rewrite Hn]. intros a b Ha Hb. apply Hdown; by right.
  - exists 0. simpl. apply filter_nil_iff. intros y Hy Hpy. apply Hp.
    apply (Hdown x y); [left|by right|by apply Hx|done].
Qed.

(** Every range of an intact trail verifies. *)
Lemma range_ok l from to :
  trail_ok l → trail_ok (filter (λ e, in_range from to e = true) l).
Proof.
  intros Hok.
  assert (Hsplit : filter (λ e, in_range from to e = true) l =
    filter (λ e, match to with None => true | Some t => te_sequence e <=? t end = true)
      (filter (λ e, (from <=? te_sequence e) = true) l)).
  { rewrite list_filter_filter. apply list_filter_iff. intros e. unfold in_range.
    rewrite andb_true_iff. tauto. }
  rewrite Hsplit. destruct (filter_suffix (λ e, from <=? te_sequence e) l (proj1 Hok)) as [n ->].
  { intros a b _ _ ? ?%Nat.leb_le. apply Nat.leb_le. lia. }
  pose proof (trail_ok_drop l n Hok) as Hok'.
  destruct (filter_prefix (λ e, match to with None => true | Some t => te_sequence e <=? t end)
    (drop n l) (proj1 Hok')) as [m ->]; [|by apply trail_ok_take].
  destruct to as [t|]; [|done]. intros a b _ _ ? ?%Nat.leb_le. apply Nat.leb_le. lia.
Qed.

(** ** What the hash does not cover *)

(** The columns the hash covers, and the hash columns, agree. *)
Definition same_hashed (a b : TraceEntry) : Prop :=
  te_id a = te_id b ∧ te_sequence a = te_sequence b ∧ te_actor a = te_actor b ∧
  te_action a = te_action b ∧ te_target_type a = te_target_type b ∧
  te_target_id a = te_target_id b ∧ te_timestamp a = te_timestamp b ∧
  te_hash a = te_hash b ∧ te_previous_hash a = te_previous_hash b.

Lemma same_hashed_fits w a b : same_hashed a b →
  entry_fits w a = entry_fits w b ∧ step w a = step w b ∧ broken w a = broken w b.
Proof.
  intros (H1 & H2 & H3 & H4 & H5 & H6 & H7 & H8 & H9).
  unfold entry_fits, expected_hash, step, broken. rewrite H1, H2, H3, H4, H5, H6, H7, H8, H9. done.
Qed.

Lemma same_hashed_walk w l k : Forall2 same_hashed l k → walk_chunk w l = walk_chunk w k.
Proof.
  intros H. revert w. induction H as [|a b l k Hab _ IH]; intros w; [done|]. cbn [walk_chunk].
  destruct (same_hashed_fits w a b Hab) as (-> & -> & ->). by destruct (entry_fits w b).
Qed.

Lemma same_hashed_filter (p : TraceEntry → bool) l k :
  (∀ a b, same_hashed a b → p a = p b) → Forall2 same_hashed l k →
  Forall2 same_hashed (filter (λ e, p e = true) l) (filter (λ e, p e = true) k).
Proof.
  intros Hp. induction 1 as [|a b l k Hab Hall IH]; [constructor|]. rewrite !filter_cons.
  rewrite (Hp a b Hab). case_decide; [by constructor|done].
Qed.

Lemma same_hashed_in_range from to a b :
  same_hashed a b → in_range from to a = in_range from to b.
Proof. intros (_ & H & _). unfold in_range. by rewrite H. Qed.

Lemma same_hashed_sorted l k : Forall2 same_hashed l k → seq_sorted l → seq_sorted k.
Proof.
  induction 1 as [|a b l k Hab Hall IH]; [done|]. intros Hl. inversion Hl as [|?? Hl' Ha]; subst.
  constructor; [by apply IH|]. clear -Ha Hab Hall. destruct Hab as (_ & Hseq & _).
  induction Hall as [|x y l k Hxy _ IH]; [done|]. inversion Ha as [|?? Hx Hl]; subst.
  constructor; [|by apply IH]. destruct Hxy as (_ & Hxy & _). unfold seq_lt in *. lia.
Qed.
End VerifyTheory.

(** ** Lemmas: the writer *)

(** What the audit trail does to the rest of the process: nothing, but for ids. *)
Definition quiet : relation store := λ s s',
  set_trail [] (st_db s') = set_trail [] (st_db s) ∧ st_now s' = st_now s ∧
  st_cache s' = st_cache s ∧ st_next s ≤ st_next s'.

#[export] Instance quiet_preorder : PreOrder quiet.
Proof.
  split; [by intros s|]. intros s1 s2 s3 (H1 & H2 & H3 & H4) (H5 & H6 & H7 & H8).
  split_and!; [congruence..|lia].
Qed.

Lemma quiet_db s s' : quiet s s' →
  t_rules (st_db s') = t_rules (st_db s) ∧ t_versions (st_db s') = t_versions (st_db s) ∧
  t_bindings (st_db s') = t_bindings (st_db s) ∧ t_scopes (st_db s') = t_scopes (st_db s) ∧
  t_members (st_db s') = t_members (st_db s) ∧ t_projections (st_db s') = t_projections (st_db s) ∧
  t_objects (st_db s') = t_objects (st_db s) ∧
  t_object_versions (st_db s') = t_object_versions (st_db s) ∧
  t_tombstones (st_db s') = t_tombstones (st_db s) ∧
  t_settings (st_db s') = t_settings (st_db s) ∧ t_vault (st_db s') = t_vault (st_db s) ∧
  t_layers (st_db s') = t_layers (st_db s).
Proof. intros (H & _). injection H. auto 14. Qed.

Section WriterTheory.
Context `{host : !Host}.

(** The writer's memory agrees with the trail, or is behind it. *)
Definition coherent (s : store) : Prop :=
  trail_ok (t_trail (st_db s)) ∧
  match last (t_trail (st_db s)) with
  | None => True
  | Some e => st_sequence s ≤ te_sequence e ∧
      (st_sequence s = te_sequence e → st_last_hash s = te_hash e)
  end.

Lemma seed_chain_run s :
  seq_sorted (t_trail (st_db s)) →
  _seed_chain s = (Ok match last (t_trail (st_db s)) with
                      | None => (0, "") | Some e => (te_sequence e, te_hash e) end, s).
Proof.
  intros Hs. unfold _seed_chain. rewrite (run_bind_ok _ _ _ _ _ (select_trail_desc _ Hs)).
  rewrite <-head_reverse. by destruct (reverse _).
Qed.

(** After reseeding the memory is the last entry's. *)
Lemma reseed_run s :
  coherent s →
  ∃ seq h, _reseed_if_stale s = (Ok tt, put_chain seq h s) ∧
    match last (t_trail (st_db s)) with
    | None => seq = st_sequence s ∧ h = st_last_hash s
    | Some e => seq = te_sequence e ∧ h = te_hash e
    end.
Proof.
  intros [[Hs _] Hmem]. unfold _reseed_if_stale.
  rewrite (run_bind_ok _ _ _ _ _ (seed_chain_run s Hs)). unfold gets. rewrite run_bind.
  destruct (last (t_trail (st_db s))) as [e|].
  - cbn [fst snd]. destruct (Nat.ltb_spec (st_sequence s) (te_sequence e)) as [Hlt|Hge].
    + by exists (te_sequence e), (te_hash e).
    + destruct Hmem as [Hle Heq]. assert (Hse : st_sequence s = te_sequence e) by lia.
      exists (st_sequence s), (st_last_hash s). split; [by destruct s|]. auto.
  - exists (st_sequence s), (st_last_hash s). by destruct s.
Qed.

Definition fresh_ids (n : nat) (l : list TraceEntry) : Prop :=
  ∀ m x, n ≤ m → x ∈ l → te_id x ≠ id_of m.

Definition parent_known (q : trace_request) (l : list TraceEntry) : Prop :=
  match q_parent q with None => True | Some p => ∃ x, x ∈ l ∧ te_id x = p end.

Definition below (n : nat) (l : list TraceEntry) : Prop := ∀ x, x ∈ l → te_sequence x < n.

Lemma persist_run e s :
  below (te_sequence e) (t_trail (st_db s)) →
  (∀ x, x ∈ t_trail (st_db s) → te_id x ≠ te_id e) →
  match te_parent e with None => True | Some p => ∃ x, x ∈ t_trail (st_db s) ∧ te_id x = p end →
  _persist_in_txn e s = (Ok tt, put_db (set_trail (t_trail (st_db s) ++ [e]) (st_db s)) s).
Proof.
  intros Hseq Hid Hpar. unfold _persist_in_txn, gets. rewrite run_bind.
  replace (existsb (λ x, te_sequence x =? te_sequence e) (t_trail (st_db s))) with false; last first.
  { symmetry. apply not_true_iff_false. intros (x & Hx & Heq%Nat.eqb_eq)%existsb_exists.
    apply list_elem_of_In in Hx. specialize (Hseq x Hx). lia. }
  replace (existsb (λ x, bool_decide (te_id x = te_id e)) (t_trail (st_db s))) with false; last first.
  { symmetry. apply not_true_iff_false. intros (x & Hx & Heq%bool_decide_eq_true_1)%existsb_exists.
    apply list_elem_of_In in Hx. by apply (Hid x). }
  destruct (te_parent e) as [p|]; [|done].
  replace (existsb (λ x, bool_decide (te_id x = p)) (t_trail (st_db s) ++ [e])) with true; [done|].
  symmetry. apply existsb_exists. destruct Hpar as (x & Hx & Heq). exists x. split.
  - apply list_elem_of_In, elem_of_app. by left.
  - by apply bool_decide_eq_true_2.
Qed.

Lemma persist_collides e s x :
  x ∈ t_trail (st_db s) → te_sequence x = te_sequence e →
  _persist_in_txn e s = (Raise sequence_collision, s).
Proof.
  intros Hx Heq. unfold _persist_in_txn, gets. rewrite run_bind.
  replace (existsb (λ x, te_sequence x =? te_sequence e) (t_trail (st_db s))) with true; [done|].
  symmetry. apply existsb_exists. exists x. split; [by apply list_elem_of_In|by apply Nat.eqb_eq].
Qed.

Lemma below_last l n :
  seq_sorted l → match last l with None => True | Some e => te_sequence e < n end → below n l.
Proof.
  intros Hs Hlast x Hx. destruct (last l) as [e|] eqn:He; last first.
  { apply last_None in He. subst. by apply not_elem_of_nil in Hx. }
  apply last_Some in He as [k ->]. apply seq_sorted_app in Hs as (_ & _ & Hs).
  apply elem_of_app in Hx as [Hx|Hx%list_elem_of_singleton]; [|by subst].
  specialize (Hs x e Hx ltac:(by apply list_elem_of_singleton)). lia.
Qed.

Lemma trail_ok_snoc l e :
  trail_ok l → te_hash e = expected_hash e →
  match last l with None => True | Some x => te_sequence x < te_sequence e ∧ te_previous_hash e = te_hash x end →
  trail_ok (l ++ [e]).
Proof.
  intros [Hs Hl] Hh Hlast. split.
  - apply seq_sorted_app. split_and!; [done|by repeat constructor|].
    intros a b Ha ->%list_elem_of_singleton. apply (below_last l); [done| |done].
    destruct (last l); tauto.
  - apply linked_app. split; [done|]. simpl. split_and!; [done| |done].
    destruct (last l); [tauto|done].
Qed.

Lemma new_entry_hash q id seq ts prev :
  te_hash (new_entry q id seq ts prev) = expected_hash (new_entry q id seq ts prev).
Proof. reflexivity. Qed.

(** What other processes commit, batch by batch, on top of [l]: continuations of
    the chain by the same protocol ([m]: the memory to use on an empty trail). *)
Fixpoint continues (m : nat) (l : list TraceEntry) (bs : list (list TraceEntry)) : Prop :=
  match bs with
  | [] => True
  | b :: bs' =>
      match b with
      | [] => False
      | e :: _ => te_sequence e = S (match last l with Some x => te_sequence x | None => m end)
      end ∧ trail_ok (l ++ b) ∧ continues m (l ++ b) bs'
  end.

(** The store after one attempt's rivals have committed. *)
Definition after_rivals (b : list TraceEntry) (rest : list (list TraceEntry)) (s : store) : store :=
  put_rivals rest (put_db (set_trail (t_trail (st_db s) ++ b) (st_db s)) s).

(** One attempt without interference stores its entry and remembers it. *)
Lemma attempt_succeeds left q s :
  coherent s → (st_rivals s = [] ∨ head (st_rivals s) = Some []) →
  fresh_ids (st_next s) (t_trail (st_db s)) → parent_known q (t_trail (st_db s)) →
  ∃ e s', record_attempts (S left) q s = (Ok e, s') ∧
    t_trail (st_db s') = t_trail (st_db s) ++ [e] ∧ coherent s' ∧
    (∃ id seq prev, e = new_entry q id seq (st_now s) prev) ∧ st_sequence s' = te_sequence e ∧
    st_last_hash s' = te_hash e.
Proof.
  intros Hc Hr Hid Hpar. destruct (reseed_run s Hc) as (seq & h & Hrun & Hlast).
  cbn [record_attempts]. rewrite (run_bind_ok _ _ _ _ _ Hrun).
  unfold generate_id, now_utc, gets, modify, mbind, prog_bind, mret, prog_ret. simpl.
  set (e := new_entry q (id_of (st_next s)) (S seq) (st_now s) h).
  match goal with |- context [try _ ?x] => set (s1 := x) end.
  assert (Hdb : st_db s1 = st_db s).
  { unfold s1. destruct Hr as [->|Hr]; [done|].
    destruct (st_rivals s) as [|b rest]; [done|]. injection Hr as ->. simpl. rewrite app_nil_r.
    by destruct (st_db s). }
  destruct Hc as [[Hs Hl] Hmem].
  assert (Hbelow : below (S seq) (t_trail (st_db s))).
  { apply below_last; [done|]. destruct (last _); [|done]. destruct Hlast. lia. }
  assert (Hp : _persist_in_txn e s1 =
      (Ok tt, put_db (set_trail (t_trail (st_db s1) ++ [e]) (st_db s1)) s1)).
  { apply persist_run; rewrite Hdb; simpl; [done| |done]. intros x Hx. by apply Hid. }
  unfold try, transaction. rewrite Hp. eexists e, _. split; [reflexivity|]. simpl. rewrite Hdb.
  split_and!; [done| |by eexists _, _, _|done|done].
  split; simpl.
  - apply trail_ok_snoc; [done|done|]. destruct (last _); [|done]. simpl. destruct Hlast as [-> ->].
    split; [lia|done].
  - rewrite last_snoc. done.
Qed.

(** An attempt that loses the race sees a collision and is tried again. *)
Lemma attempt_retries left q s b rest :
  coherent s → st_rivals s = b :: rest →
  continues (st_sequence s) (t_trail (st_db s)) [b] →
  ∃ s', record_attempts (S (S left)) q s = record_attempts (S left) q s' ∧
    coherent s' ∧ st_rivals s' = rest ∧ t_trail (st_db s') = t_trail (st_db s) ++ b ∧
    st_now s' = st_now s ∧ st_next s' = S (st_next s).
Proof.
  intros Hc Hr (Hb & Hok & _). destruct (reseed_run s Hc) as (seq & h & Hrun & Hlast).
  destruct b as [|x b]; [done|].
  assert (Hx : te_sequence x = S seq).
  { rewrite Hb. f_equal. destruct (last (t_trail (st_db s))); by destruct Hlast. }
  exists (after_rivals (x :: b) rest (put_next (S (st_next s)) (put_chain seq h s))).
  split.
  - remember (S left) as left'. cbn [record_attempts]. rewrite (run_bind_ok _ _ _ _ _ Hrun).
    unfold generate_id, now_utc, gets, modify, mbind, prog_bind, mret, prog_ret. simpl.
    unfold rivals_commit, modify. simpl. rewrite Hr.
    unfold try, transaction. erewrite persist_collides; [|simpl; apply elem_of_app; right; left|done].
    subst left'. reflexivity.
  - split_and!; try done. split; [done|]. simpl.
    assert (Hlastb : ∃ y, last (t_trail (st_db s) ++ x :: b) = Some y ∧ te_sequence x ≤ te_sequence y).
    { rewrite last_app_cons. destruct (last (x :: b)) as [y|] eqn:Hy; [|by apply last_None in Hy].
      exists y. split; [done|]. apply last_Some_elem_of in Hy.
      destruct Hok as [Hs _]. apply seq_sorted_app in Hs as (_ & Hs & _).
      inversion Hs as [|?? _ Hall]; subst. apply elem_of_cons in Hy as [->|Hy]; [done|].
      rewrite Forall_forall in Hall. specialize (Hall _ Hy). unfold seq_lt in Hall. lia. }
    destruct Hlastb as (y & -> & Hy). simpl. split; lia.
Qed.

Lemma record_attempts_ok left q bs rest s :
  coherent s → length bs ≤ left → st_rivals s = bs ++ rest → (rest = [] ∨ head rest = Some []) →
  continues (st_sequence s) (t_trail (st_db s)) bs →
  fresh_ids (st_next s) (t_trail (st_db s) ++ mjoin bs) →
  parent_known q (t_trail (st_db s)) →
  ∃ e s', record_attempts (S left) q s = (Ok e, s') ∧
    t_trail (st_db s') = t_trail (st_db s) ++ mjoin bs ++ [e] ∧ coherent s' ∧
    (∃ id seq prev, e = new_entry q id seq (st_now s) prev) ∧ st_sequence s' = te_sequence e ∧
    st_last_hash s' = te_hash e.
Proof.
  revert left s. induction bs as [|b bs IH]; intros left s Hc Hlen Hr Hrest Hcont Hid Hpar.
  { simpl in *. rewrite app_nil_r in Hid. apply attempt_succeeds; [done| |done..]. by rewrite Hr. }
  simpl in Hlen. destruct left as [|left]; [lia|].
  destruct Hcont as (Hb & Hok & Hcont).
  destruct (attempt_retries left q s b (bs ++ rest)) as (s1 & -> & Hc1 & Hr1 & Ht1 & Hn1 & Hx1);
    [done|done|by split|].
  destruct (IH left s1) as (e & s' & Hrun & Ht & Hc' & Hnew & Hseq & Hh); try done; [lia| | | |].
  - rewrite Ht1. revert Hcont. destruct b as [|x b]; [done|]. clear.
    assert (Hlast : ∀ l, ∃ y, last (l ++ x :: b) = Some y).
    { intros l. rewrite last_app_cons. destruct (last (x :: b)) eqn:H; [by eexists|].
      by apply last_None in H. }
    revert Hlast. generalize (st_sequence s1) (st_sequence s). intros m n Hlast.
    destruct (Hlast (t_trail (st_db s))) as [y Hy]. revert y Hy.
    generalize (t_trail (st_db s) ++ x :: b) as l. clear.
    induction bs as [|b bs IH]; intros l y Hy; [done|]. simpl. rewrite Hy.
    intros (Hb & Hok & Hcont). split_and!; [done|done|].
    destruct b as [|z b]; [done|]. destruct (last (l ++ z :: b)) as [y'|] eqn:Hy'.
    + by eapply IH.
    + apply last_None in Hy'. by destruct l.
  - rewrite Hx1, Ht1. intros m x Hm Hx. apply Hid; [lia|]. simpl. by rewrite app_assoc.
  - rewrite Ht1. unfold parent_known in *. destruct (q_parent q); [|done].
    destruct Hpar as (x & Hx & ?). exists x. split; [|done]. apply elem_of_app. by left.
  - exists e, s'. rewrite Ht1 in Ht. rewrite Hn1 in Hnew. split_and!; try done.
    rewrite Ht. simpl. by rewrite <-!app_assoc.
Qed.
End WriterTheory.

(** ** Lemmas: frames and retention *)

Section RetentionTheory.
Context `{host : !Host}.

Lemma quiet_modify (f : store → store) : (∀ s, quiet s (f s)) → respects quiet (modify f).
Proof. intros H s. apply H. Qed.

Lemma quiet_transaction {R} (m : lp R) : respects quiet m → respects quiet (transaction m).
Proof.
  intros Hm s. unfold transaction. specialize (Hm s). destruct (m s) as [[a|e] s']; [done|].
  destruct Hm as (_ & ? & ? & ?). by split_and!.
Qed.

Lemma quiet_try {R} (m : lp R) : respects quiet m → respects quiet (try m).
Proof. intros Hm s. unfold try. specialize (Hm s). by destruct (m s). Qed.


Lemma generate_id_quiet : respects quiet generate_id.
Proof. intros s. unfold generate_id, gets, modify, mbind, prog_bind, mret, prog_ret. split_and!; simpl; auto. Qed.

Lemma seed_chain_quiet : respects quiet _seed_chain.
Proof. unfold _seed_chain, select_sorted. repeat respects_step. Qed.

Lemma reseed_quiet : respects quiet _reseed_if_stale.
Proof.
  unfold _reseed_if_stale. respects_step; [apply seed_chain_quiet|]. respects_step; [respects_step|].
  respects_step; [|respects_step]. apply quiet_modify. by intros s.
Qed.

Lemma persist_quiet e : respects quiet (_persist_in_txn e).
Proof.
  unfold _persist_in_txn. repeat (respects_step; [respects_step|]).
  apply quiet_modify. by intros s.
Qed.

Lemma rivals_quiet : respects quiet rivals_commit.
Proof. apply quiet_modify. intros s. by destruct (st_rivals s). Qed.

Lemma record_attempts_quiet left q : respects quiet (record_attempts left q).
Proof.
  induction left as [|left IH]; cbn [record_attempts]; [respects_step|].
  respects_step; [apply reseed_quiet|]. respects_step; [apply generate_id_quiet|].
  unfold now_utc. do 3 (respects_step; [respects_step|]).
  respects_step; [apply rivals_quiet|].
  respects_step; [apply quiet_try, quiet_transaction, persist_quiet|].
  respects_step; [|respects_step; [done|respects_step]].
  respects_step; [|respects_step]. apply quiet_modify. by intros s.
Qed.

(** A returning record appended one entry, of the request, after whatever other
    processes committed. *)
Lemma record_attempts_last left q s e s' :
  record_attempts left q s = (Ok e, s') →
  ∃ l, t_trail (st_db s') = (t_trail (st_db s) ++ l) ++ [e] ∧
    (∀ x, x ∈ t_trail (st_db s) ++ l → te_id x ≠ te_id e ∧ te_sequence x ≠ te_sequence e) ∧
    ∃ id seq prev, e = new_entry q id seq (st_now s) prev.
Proof.
  revert s. induction left as [|left IH]; intros s H; [done|]. cbn [record_attempts] in H.
  apply bind_ok_inv in H as ([] & s1 & H1 & H).
  assert (Hs1 : st_db s1 = st_db s ∧ st_now s1 = st_now s).
  { revert H1. unfold _reseed_if_stale, _seed_chain, select_sorted, gets, modify, mbind, prog_bind, mret, prog_ret.
    simpl. case_match; by intros [= <-]. }
  destruct Hs1 as [Hdb Hnow]. apply bind_ok_inv in H as (id & s2 & [-> ->]%generate_id_ok & H).
  apply bind_ok_inv in H as (ts & s2 & [-> ->]%now_utc_ok & H).
  do 2 (apply bind_ok_inv in H as (? & s2 & [-> ->]%gets_ok & H)). cbv zeta in H.
  set (e0 := new_entry _ _ _ _ _) in H.
  apply bind_ok_inv in H as ([] & s2 & Hr%modify_ok & H).
  assert (Hs2 : ∃ l, t_trail (st_db s2) = t_trail (st_db s) ++ l ∧ st_now s2 = st_now s).
  { subst s2. cbn [put_next st_rivals]. destruct (st_rivals s1) as [|b rest]; simpl.
    - exists []. by rewrite app_nil_r, Hdb.
    - exists b. by rewrite Hdb. }
  destruct Hs2 as (l & Hl & Hnow2). clear Hr.
  apply bind_ok_inv in H as (r & s3 & Htry & H). unfold try in Htry.
  destruct (transaction (_persist_in_txn e0) s2) as [[u|ex] s4] eqn:Ht; injection Htry as <- <-.
  - apply transaction_ok in Ht. unfold _persist_in_txn in Ht. repeat run_stmt.
    exists l. simpl. rewrite Hl. split; [done|]. split.
    + intros z Hz. rewrite Hl in *. split; intros Heq.
      * match goal with Hf : existsb (λ y, bool_decide (te_id y = _)) _ = false |- _ =>
          apply not_true_iff_false in Hf; apply Hf, existsb_exists; exists z;
          rewrite <-list_elem_of_In, bool_decide_eq_true; done end.
      * match goal with Hf : existsb (λ y, te_sequence y =? _) _ = false |- _ =>
          apply not_true_iff_false in Hf; apply Hf, existsb_exists; exists z;
          rewrite <-list_elem_of_In, Nat.eqb_eq; done end.
    + unfold e0. cbn [put_next st_now st_next]. rewrite Hnow. by eexists _, _, _.
  - destruct (_is_sequence_collision ex && (0 <? left)); [|done].
    assert (H4 : st_db s4 = st_db s2 ∧ st_now s4 = st_now s2).
    { split; [by apply transaction_raise in Ht|].
      pose proof (quiet_transaction _ (persist_quiet e0) s2) as Hq. rewrite Ht in Hq. apply Hq. }
    destruct H4 as [Hdb4 Hnow4]. apply IH in H as (k & Hk & Hfresh & id & seq & prev & ->).
    rewrite Hdb4, Hl, <-(app_assoc (t_trail (st_db s))) in Hk. rewrite Hdb4, Hl, <-(app_assoc (t_trail (st_db s))) in Hfresh.
    exists (l ++ k). split; [done|]. split; [done|]. rewrite Hnow4, Hnow2. by eexists _, _, _.
Qed.

Lemma chain_quiet n h : respects quiet (modify (put_chain n h)).
Proof. apply quiet_modify. by intros s. Qed.

Lemma batch_attempts_quiet left qs : respects quiet (batch_attempts left qs).
Proof.
  induction left as [|left IH]; cbn [batch_attempts]; [respects_step|].
  respects_step; [apply reseed_quiet|]. unfold now_utc. do 3 (respects_step; [respects_step|]).
  respects_step; [apply rivals_quiet|]. respects_step.
  - apply quiet_try, quiet_transaction. respects_step. unfold batch_entry.
    respects_step; [apply generate_id_quiet|]. do 2 (respects_step; [respects_step|]).
    respects_step; [apply persist_quiet|]. respects_step; [apply chain_quiet|respects_step].
  - respects_step; [respects_step|]. respects_step; [apply chain_quiet|].
    respects_step; [done|respects_step].
Qed.

(** Deleting from an intact trail by age, when later entries are not older, and by
    count, keeps a suffix. *)
Definition time_sorted (l : list TraceEntry) : Prop :=
  ∀ a b, a ∈ l → b ∈ l → te_sequence a < te_sequence b → (te_timestamp a ≤ te_timestamp b)%Z.

Lemma delete_entries_ok p s s' :
  delete_entries p s = (Ok tt, s') →
  s' = put_db (set_trail (filter (λ e, p e = false) (t_trail (st_db s))) (st_db s)) s.
Proof.
  unfold delete_entries. intros H. apply bind_ok_inv in H as (l & s1 & H1 & H).
  apply gets_ok in H1 as [-> ->]. apply bind_ok_inv in H as ([] & s1 & H1 & H).
  apply raise_if_ok in H1 as [_ ->]. by apply modify_ok in H.
Qed.

Lemma filter_negb {X} (p : X → bool) (l : list X) :
  filter (λ e, p e = false) l = filter (λ e, negb (p e) = true) l.
Proof. apply list_filter_iff. intros x. by destruct (p x). Qed.

Lemma delete_old_suffix l cutoff :
  seq_sorted l → time_sorted l →
  filter (λ e, older cutoff e = false) l = drop (length (filter (λ e, older cutoff e = true) l)) l.
Proof.
  intros Hs Ht. rewrite filter_negb.
  assert (Hdown : ∀ a b, a ∈ l → b ∈ l → te_sequence a < te_sequence b →
    older cutoff b = true → older cutoff a = true).
  { intros a b Ha Hb Hab. unfold older. destruct cutoff as [c|]; [|done].
    rewrite !Z.ltb_lt. specialize (Ht a b Ha Hb Hab). lia. }
  clear Ht. induction Hs as [|x l Hs IH Hx]; [done|]. rewrite Forall_forall in Hx.
  rewrite !filter_cons. destruct (older cutoff x) eqn:Hold; simpl.
  - apply IH. intros a b Ha Hb. apply Hdown; by right.
  - rewrite (proj2 (filter_nil_iff (λ e, older cutoff e = true) l)).
    + simpl. f_equal. apply filter_all_iff. intros y Hy. destruct (older cutoff y) eqn:Hy'; [|done].
      rewrite (Hdown x y) in Hold; [done|left|by right|by apply Hx|done].
    + intros y Hy Hy'. rewrite (Hdown x y) in Hold; [done|left|by right|by apply Hx|done].
Qed.

Lemma delete_excess_ok m s s' :
  seq_sorted (t_trail (st_db s)) → delete_excess m s = (Ok tt, s') →
  s' = put_db (set_trail (drop (length (t_trail (st_db s)) - m) (t_trail (st_db s))) (st_db s)) s.
Proof.
  intros Hs. unfold delete_excess. rewrite (run_bind_ok _ _ _ _ _ (select_trail_desc s Hs)).
  set (l := t_trail (st_db s)) in *. destruct (drop m (reverse l)) as [|e rest] eqn:Hd.
  - intros [_ ->]%mret_ok. apply (f_equal length) in Hd. rewrite length_drop, length_reverse in Hd.
    simpl in Hd. rewrite Hd. rewrite drop_0. unfold l. by destruct s as [[] ???? ?].
  - intros ->%delete_entries_ok. do 2 f_equal. fold l.
    assert (Hl : l = reverse rest ++ e :: reverse (take m (reverse l))).
    { rewrite <-(reverse_involutive l) at 1. rewrite <-(take_drop m (reverse l)) at 1.
      rewrite Hd, reverse_app, reverse_cons. by rewrite <-app_assoc. }
    assert (Hlen : length l - m = length (reverse rest ++ [e])).
    { apply (f_equal length) in Hd. rewrite length_drop, length_reverse in Hd.
      rewrite length_app, length_reverse. simpl in *. lia. }
    rewrite Hlen. set (k := reverse (take m (reverse l))) in Hl. clearbody k. clear Hd Hlen m.
    rewrite Hl in Hs |- *. rewrite (cons_middle e), app_assoc in Hs |- *.
    rewrite drop_app_length. apply seq_sorted_app in Hs as (Hs1 & _ & Hs2).
    rewrite filter_app. rewrite (proj2 (filter_nil_iff _ (reverse rest ++ [e]))).
    + apply filter_all_iff. intros x Hx. apply Nat.leb_gt. apply Hs2; [|done].
      apply elem_of_app. right. by apply list_elem_of_singleton.
    + intros x Hx. apply seq_sorted_app in Hs1 as (_ & _ & Hs1).
      apply elem_of_app in Hx as [Hx|Hx%list_elem_of_singleton].
      * specialize (Hs1 x e Hx ltac:(by apply list_elem_of_singleton)).
        rewrite (proj2 (Nat.leb_le _ _)); [done|lia].
      * subst. by rewrite Nat.leb_refl.
Qed.
End RetentionTheory.

(** ** Theorems *)

Section TrailTheorems.
Context `{host : !Host}.

Lemma same_hashed_linked prev l k : Forall2 same_hashed l k → linked prev l → linked prev k.
Proof.
  intros Hall Hl. set (w := {| total_checked := 0; first_seq := None; last_seq := 0; prev_hash := prev |}).
  destruct (proj1 (walk_chunk_linked w l) Hl) as [w' Hw]. apply (walk_chunk_linked w). exists w'.
  by rewrite <-(same_hashed_walk w _ _ Hall).
Qed.

Lemma same_hashed_strip b a e : same_hashed e (strip_state b a e).
Proof. by split_and!. Qed.

Lemma strip_absent b a e : state_present b a e = false → strip_state b a e = e.
Proof.
  unfold state_present, strip_state. rewrite orb_false_iff, !andb_false_iff.
  destruct e as [??????????[?|] [?|] ??], b, a; simpl; intros [[H1|H1] [H2|H2]]; try done;
    try (apply bool_decide_eq_false_1 in H1; by destruct H1);
    try (apply bool_decide_eq_false_1 in H2; by destruct H2).
Qed.

Lemma compact_ok b a s n s' :
  compact None b a s = (Ok n, s') →
  t_trail (st_db s') = strip_state b a <$> t_trail (st_db s).
Proof.
  assert (Hid : ∀ l : list TraceEntry, (∀ e, e ∈ l → state_present b a e = false) →
    strip_state b a <$> l = l).
  { induction l as [|e l IH]; intros H; [done|]. rewrite fmap_cons, strip_absent by (apply H; left).
    rewrite IH; [done|]. intros x Hx. apply H. by right. }
  unfold compact. destruct (negb b && negb a) eqn:Hnone.
  { intros [_ ->]%mret_ok. symmetry. apply Hid. intros e _. by destruct b, a. }
  intros H. apply bind_ok_inv in H as (k & s1 & H1 & H). apply gets_ok in H1 as [-> ->].
  destruct (Nat.eqb_spec (length (filter (λ e, state_present b a e && true = true) (t_trail (st_db s)))) 0)
    as [Hz|Hz].
  - apply mret_ok in H as [_ ->]. symmetry. apply Hid. intros e He.
    apply length_zero_iff_nil in Hz. apply filter_nil_iff with (x := e) in Hz; [|done].
    rewrite andb_true_r in Hz. by apply not_true_is_false.
  - apply bind_ok_inv in H as ([] & s1 & H1 & H). apply modify_ok in H1 as ->.
    apply mret_ok in H as [_ ->]. simpl. apply list_fmap_ext. intros _ e _.
    rewrite andb_true_r. destruct (state_present b a e) eqn:He; [done|]. by rewrite strip_absent.
Qed.

Lemma estimate_run p s :
  estimate p s = (Ok (
    let by_age := length (filter (λ e, older ((λ d, st_now s - d * microseconds_per_day)%Z <$> max_age_days p) e = true)
                    (t_trail (st_db s))) in
    match max_entries p with
    | None => by_age
    | Some m => Nat.max by_age (length (t_trail (st_db s)) - m)
    end), s).
Proof.
  unfold estimate, _age_cutoff, now_utc, select_count, gets, mbind, prog_bind, mret, prog_ret.
  destruct (max_age_days p) as [d|]; simpl.
  - destruct (max_entries p) as [m|]; [|done]. by rewrite filter_true.
  - rewrite (proj2 (filter_nil_iff _ _)) by done. destruct (max_entries p) as [m|]; [|done].
    by rewrite filter_true.
Qed.

(** One run of [apply]: what is deleted by age, what by count, and the report. *)
Lemma apply_ok p s r s' :
  trail_ok (t_trail (st_db s)) → time_sorted (t_trail (st_db s)) →
  apply p s = (Ok r, s') →
  let l := t_trail (st_db s) in
  let cut := (λ d, st_now s - d * microseconds_per_day)%Z <$> max_age_days p in
  let k := length (filter (λ e, older cut e = true) l) in
  let j := match max_entries p with None => 0 | Some m => (length l - k) - m end in
  t_trail (st_db s') =
    (if compact_before_state p || compact_after_state p
     then strip_state (compact_before_state p) (compact_after_state p) else id) <$> drop (k + j) l ∧
  deleted r = k + j.
Proof.
  intros [Hs _] Ht H l cut k j. unfold apply in H.
  apply bind_ok_inv in H as (total & s1 & H1 & H). apply gets_ok in H1 as [-> ->].
  apply bind_ok_inv in H as (c & s1 & H1 & H).
  assert (c = cut ∧ s1 = s) as [-> ->].
  { unfold _age_cutoff, now_utc, gets, mbind, prog_bind, mret, prog_ret in H1. unfold cut.
    destruct (max_age_days p); by simplify_eq. }
  clear H1. apply bind_ok_inv in H as ([] & s1 & H1 & H).
  assert (Hl1 : t_trail (st_db s1) = drop k l).
  { destruct cut as [c|] eqn:Hcut.
    - apply delete_entries_ok in H1 as ->. exact (delete_old_suffix l (Some c) Hs Ht).
    - apply mret_ok in H1 as [_ ->]. assert (Hk : k = 0); [|by rewrite Hk].
      unfold k. by rewrite (proj2 (filter_nil_iff _ _)). }
  assert (Hs1 : seq_sorted (drop k l)).
  { change (seq_sorted l) in Hs. rewrite <-(take_drop k l) in Hs. by apply seq_sorted_app in Hs as (_ & ? & _). }
  apply bind_ok_inv in H as ([] & s2 & H2 & H).
  assert (Hl2 : t_trail (st_db s2) = drop (k + j) l).
  { unfold j. destruct (max_entries p) as [m|].
    - apply delete_excess_ok in H2 as ->; [|by rewrite Hl1]. simpl. rewrite Hl1.
      by rewrite drop_drop, length_drop.
    - apply mret_ok in H2 as [_ ->]. by rewrite Nat.add_0_r. }
  apply bind_ok_inv in H as (n & s3 & H3 & H).
  apply bind_ok_inv in H as (remaining & s4 & H4 & H). apply gets_ok in H4 as [-> ->].
  apply mret_ok in H as [-> ->].
  assert (Hl3 : t_trail (st_db s3) = (if compact_before_state p || compact_after_state p
     then strip_state (compact_before_state p) (compact_after_state p) else id) <$> drop (k + j) l).
  { rewrite <-Hl2. destruct (_ || _); [by eapply compact_ok|]. apply mret_ok in H3 as [_ ->].
    by rewrite list_fmap_id. }
  split; [done|]. simpl. rewrite !filter_true, Hl3, length_fmap, length_drop. fold l.
  pose proof (filter_length_le (λ e, older cut e = true) l) as Hk. fold k in Hk.
  unfold j. destruct (max_entries p); lia.
Qed.

(** C40: Recording extends the chain, also under contention: if the trail is intact
    and up to three batches of entries by other processes win the race for the
    next sequence, the record still returns, its entry (the request's fields,
    the next sequence, the hash link) is last, everything before it is kept,
    and trail and writer are intact again. *)
Theorem record_extends_trail q bs rest s :
  coherent s → st_rivals s = bs ++ rest → (rest = [] ∨ head rest = Some []) →
  length bs ≤ _MAX_SEQUENCE_RETRIES → continues (st_sequence s) (t_trail (st_db s)) bs →
  fresh_ids (st_next s) (t_trail (st_db s) ++ mjoin bs) → parent_known q (t_trail (st_db s)) →
  ∃ e s', record q s = (Ok e, s') ∧
    t_trail (st_db s') = t_trail (st_db s) ++ mjoin bs ++ [e] ∧
    trail_ok (t_trail (st_db s')) ∧ coherent s' ∧ quiet s s' ∧
    te_actor e = q_actor q ∧ te_action e = q_action q ∧ te_target_id e = q_target_id q ∧
    te_before e = q_before q ∧ te_after e = q_after q ∧ te_hash e = expected_hash e.
Proof.
  intros Hc Hr Hrest Hlen Hcont Hid Hpar.
  destruct (record_attempts_ok _MAX_SEQUENCE_RETRIES q bs rest s)
    as (e & s' & Hrun & Ht & Hc' & (id & seq & prev & ->) & _); try done.
  eexists _, s'. split; [exact Hrun|]. split; [exact Ht|]. split; [apply Hc'|]. split; [done|].
  split; [|by split_and!].
  pose proof (record_attempts_quiet (S _MAX_SEQUENCE_RETRIES) q s) as Hq. by rewrite Hrun in Hq.
Qed.

(** The retry loop never ends in AuditSequenceCollisionError: the last failing
    attempt raises the database's own error instead. *)
Theorem collision_error_unreachable q s e s' :
  record q s = (Raise e, s') → ∀ msg, e ≠ SequenceCollision msg.
Proof.
  unfold record. generalize _MAX_SEQUENCE_RETRIES as left. intros left. revert s.
  induction left as [left IH] using lt_wf_ind. intros s H msg ->.
  cbn [record_attempts] in H.
  assert (Hseed : ∀ s1, ∃ s2, _reseed_if_stale s1 = (Ok tt, s2)).
  { intros s1. unfold _reseed_if_stale, _seed_chain, select_sorted, gets, mbind, prog_bind, mret, prog_ret.
    case_match; by eexists. }
  destruct (Hseed s) as [s2 Hs2]. rewrite (run_bind_ok _ _ _ _ _ Hs2) in H.
  unfold generate_id, now_utc, gets, modify, mbind, prog_bind, mret, prog_ret in H. simpl in H.
  unfold try in H. destruct (transaction _ _) as [[u|e'] s3] eqn:Ht; [done|].
  assert (He' : ∀ m, e' ≠ SequenceCollision m).
  { intros m ->. unfold transaction in Ht. destruct (_persist_in_txn _ _) as [[?|e'] s4] eqn:Hp; [done|].
    injection Ht as -> _. unfold _persist_in_txn, gets in Hp. rewrite run_bind in Hp.
    unfold raise_if in Hp. unfold mbind, prog_bind in Hp. repeat case_match; simplify_eq; done. }
  destruct (_is_sequence_collision e' && (0 <? left)) eqn:Hb.
  - apply andb_true_iff in Hb as [_ Hl%Nat.ltb_lt]. destruct left as [|left]; [lia|].
    exact (IH left ltac:(lia) _ H msg eq_refl).
  - unfold raise in H. injection H as -> _. by eapply He'.
Qed.

(** Verification in chunks is verification: for every chunk size it returns
    (one chunk more than entries suffices), reads without writing, and its
    verdict is that of one pass over the requested range, so it accepts exactly
    the linked ranges and, on an intact trail, every range, with all its
    entries checked. *)
Theorem verify_chain_exact from to n s :
  seq_sorted (t_trail (st_db s)) → 0 < n →
  let l := filter (λ e, in_range from to e = true) (t_trail (st_db s)) in
  ∃ v, verify_chain from to n s = (Ok (Some v), s) ∧ v = pass start_walk l ∧
    (cv_valid v = true ↔ linked None l) ∧
    (trail_ok (t_trail (st_db s)) → cv_valid v = true ∧ entries_checked v = length l).
Proof.
  intros Hs Hn l. exists (pass start_walk l). split_and!.
  - by apply verify_chain_pass.
  - done.
  - apply pass_valid.
  - intros Hok. pose proof (range_ok _ from to Hok) as [_ Hlink]. fold l in Hlink.
    split; [by apply pass_valid|].
    destruct (proj1 (walk_chunk_linked start_walk l) Hlink) as [w' Hw].
    unfold pass. rewrite Hw. apply walk_chunk_final in Hw as (Ht & Hf & _). simpl in Ht, Hf.
    unfold walk_result. rewrite Hf. destruct l as [|e l']; [done|]. simpl. by rewrite Ht.
Qed.

(** The chain does not cover an entry's state: rewriting the before and after
    states, the metadata, the scope or the parent of any entries changes no
    verdict, so compaction keeps the trail verifiable and tampering with those
    columns goes unnoticed. *)
Theorem verify_ignores_state from to n s s' :
  seq_sorted (t_trail (st_db s)) → 0 < n →
  Forall2 same_hashed (t_trail (st_db s)) (t_trail (st_db s')) →
  (verify_chain from to n s').1 = (verify_chain from to n s).1.
Proof.
  intros Hs Hn Hall. rewrite !verify_chain_pass by eauto using same_hashed_sorted. simpl.
  unfold pass. by rewrite (same_hashed_walk start_walk _ _
    (same_hashed_filter _ _ _ (same_hashed_in_range from to) Hall)).
Qed.

(** Retention keeps a verifiable suffix: on an intact trail whose timestamps
    follow the sequence, applying a policy that returns deletes exactly the
    oldest entries, as many as it reports and as [estimate] announced, leaves
    none older than the cutoff and at most max_entries, empties the state
    columns it was told to, and the rest still verifies. *)
Theorem retention_keeps_suffix p s r s' :
  trail_ok (t_trail (st_db s)) → time_sorted (t_trail (st_db s)) →
  apply p s = (Ok r, s') →
  let strip := if compact_before_state p || compact_after_state p
               then strip_state (compact_before_state p) (compact_after_state p) else id in
  t_trail (st_db s') = strip <$> drop (deleted r) (t_trail (st_db s)) ∧
  trail_ok (t_trail (st_db s')) ∧ (estimate p s).1 = Ok (deleted r) ∧
  (∀ m, max_entries p = Some m → length (t_trail (st_db s')) ≤ m) ∧
  (∀ d e, max_age_days p = Some d → e ∈ t_trail (st_db s') →
    (st_now s - d * microseconds_per_day ≤ te_timestamp e)%Z).
Proof.
  intros Hok Ht H strip.
  apply apply_ok in H as [Htrail Hdel]; [|done..]. rewrite <-Hdel in Htrail. fold strip in Htrail.
  set (l := t_trail (st_db s)) in *.
  assert (Hok' : trail_ok (t_trail (st_db s'))).
  { rewrite Htrail. assert (Hall : ∀ k, Forall2 same_hashed k (strip <$> k)).
    { intros k. apply Forall2_fmap_r, Forall_Forall2_diag, Forall_forall. intros e _. unfold strip.
      destruct (_ || _); [apply same_hashed_strip|by split_and!]. }
    destruct (trail_ok_drop l (deleted r) Hok) as [Hs Hlk].
    split; [by eapply same_hashed_sorted|by eapply same_hashed_linked]. }
  set (cut := (λ d, st_now s - d * microseconds_per_day)%Z <$> max_age_days p) in *.
  set (k := length (filter (λ e, older cut e = true) l)) in *.
  pose proof (filter_length_le (λ e, older cut e = true) l) as Hk. fold k in Hk.
  split_and!; [done|done| | |].
  - rewrite estimate_run. cbv zeta. fold l cut k. cbn [fst]. f_equal. rewrite Hdel.
    destruct (max_entries p); lia.
  - intros m Hm. rewrite Htrail, length_fmap, length_drop, Hdel, Hm. lia.
  - intros d e Hd He. rewrite Htrail in He. apply list_elem_of_fmap in He as (x & -> & Hx).
    rewrite Hdel, <-drop_drop in Hx.
    assert (Hx' : x ∈ drop k l).
    { rewrite <-(take_drop (match max_entries p with None => 0 | Some m => length l - k - m end) (drop k l)).
      apply elem_of_app. by right. }
    unfold k in Hx'. rewrite <-(delete_old_suffix l cut (proj1 Hok) Ht) in Hx'.
    apply list_elem_of_filter in Hx' as [Hold _]. unfold cut in Hold. rewrite Hd in Hold.
    simpl in Hold. apply Z.ltb_ge in Hold. unfold strip. by destruct (_ || _).
Qed.
End TrailTheorems.

(** ** The interface to the other layers

    What the layers rely on in their [audit_writer]: recording touches nothing
    but the trail (and may fail).  A layer built without a writer records
    nothing. *)

Class AuditSink := {
  audit : trace_request → lp unit;
  audit_batch : list trace_request → lp unit;
  audit_quiet : ∀ q, respects quiet (audit q);
  audit_batch_quiet : ∀ qs, respects quiet (audit_batch qs);
}.

Lemma writer_quiet `{host : !Host} (q : trace_request) : respects quiet (record q ;; mret tt).
Proof. respects_step; [apply record_attempts_quiet|respects_step]. Qed.

Lemma writer_batch_quiet `{host : !Host} (qs : list trace_request) :
  respects quiet (record_batch qs ;; mret tt).
Proof. respects_step; [apply batch_attempts_quiet|respects_step]. Qed.

Definition writer_sink `{host : !Host} : AuditSink :=
  {| audit q := record q ;; mret tt; audit_batch qs := record_batch qs ;; mret tt;
     audit_quiet := writer_quiet; audit_batch_quiet := writer_batch_quiet |}.

Lemma no_audit_quiet (q : trace_request) : respects quiet (mret tt : lp unit).
Proof. respects_step. Qed.

Lemma no_audit_batch_quiet (qs : list trace_request) : respects quiet (mret tt : lp unit).
Proof. respects_step. Qed.

Definition no_audit : AuditSink :=
  {| audit _ := mret tt; audit_batch _ := mret tt; audit_quiet := no_audit_quiet;
     audit_batch_quiet := no_audit_batch_quiet |}.

(** All tables but the trail, and the clock, stay. *)
Definition off_trail : relation store := λ s s',
  set_trail [] (st_db s') = set_trail [] (st_db s) ∧ st_now s' = st_now s.

#[export] Instance off_trail_preorder : PreOrder off_trail.
Proof. split; [by intros s|]. intros s1 s2 s3 [H1 H2] [H3 H4]. split; congruence. Qed.

Lemma quiet_off_trail s s' : quiet s s' → off_trail s s'.
Proof. by intros (H1 & H2 & _). Qed.

Lemma audit_off_trail `{sink : !AuditSink} q : respects off_trail (audit q).
Proof. intros s. apply quiet_off_trail, audit_quiet. Qed.

Lemma audit_batch_off_trail `{sink : !AuditSink} qs : respects off_trail (audit_batch qs).
Proof. intros s. apply quiet_off_trail, audit_batch_quiet. Qed.

Lemma off_trail_run {R} (m : lp R) s r s' : respects off_trail m → m s = (r, s') → off_trail s s'.
Proof. intros H Hrun. pose proof (H s) as Ho. by rewrite Hrun in Ho. Qed.

(** A request with only the fields every caller gives. *)
Definition request (actor : string) (a : ActionType.t) (ttype tid : string) : trace_request := {|
  q_actor := actor; q_action := a; q_target_type := ttype; q_target_id := tid; q_scope := None;
  q_before := None; q_after := None; q_metadata := []; q_parent := None |}.

Definition in_scope_req (sc : option string) (q : trace_request) : trace_request := {|
  q_actor := q_actor q; q_action := q_action q; q_target_type := q_target_type q;
  q_target_id := q_target_id q; q_scope := sc; q_before := q_before q; q_after := q_after q;
  q_metadata := q_metadata q; q_parent := q_parent q |}.

Definition states_req (before after : option jdict) (q : trace_request) : trace_request := {|
  q_actor := q_actor q; q_action := q_action q; q_target_type := q_target_type q;
  q_target_id := q_target_id q; q_scope := q_scope q; q_before := before; q_after := after;
  q_metadata := q_metadata q; q_parent := q_parent q |}.

Definition metadata_req (m : jdict) (q : trace_request) : trace_request := {|
  q_actor := q_actor q; q_action := q_action q; q_target_type := q_target_type q;
  q_target_id := q_target_id q; q_scope := q_scope q; q_before := q_before q;
  q_after := q_after q; q_metadata := m; q_parent := q_parent q |}.

Lemma audit_ok `{sink : !AuditSink} q s u s' : audit q s = (Ok u, s') → quiet s s'.
Proof. intros H. pose proof (audit_quiet q s) as Hq. by rewrite H in Hq. Qed.

(** The tables of the layers above the objects as they were. *)
Definition same_layers : relation store := λ s s', t_layers (st_db s') = t_layers (st_db s).

#[export] Instance same_layers_preorder : PreOrder same_layers.
Proof. split; [by intros s|]. intros s1 s2 s3 H1 H2. unfold same_layers in *. congruence. Qed.

Lemma off_trail_layers s s' : off_trail s s' → t_layers (st_db s') = t_layers (st_db s).
Proof. intros [H _]. by injection H. Qed.

Lemma respects_layers {R} (m : lp R) : respects off_trail m → respects same_layers m.
Proof. intros H s. apply off_trail_layers, H. Qed.

Lemma audit_layers `{sink : !AuditSink} q : respects same_layers (audit q).
Proof. apply respects_layers, audit_off_trail. Qed.

Lemma update_layers {R} (tbl : tables → list R) put p f :
  (∀ l t, t_layers (put l t) = t_layers t) → respects same_layers (sql_update tbl put p f).
Proof. intros H s. apply H. Qed.

Lemma insert_layers {R} (tbl : tables → list R) put clash c (r : R) :
  (∀ l t, t_layers (put l t) = t_layers t) → respects same_layers (sql_insert tbl put clash c r).
Proof. intros H. unfold sql_insert. repeat respects_step. intros s. apply H. Qed.

Lemma transaction_layers {R} (m : lp R) : respects same_layers m → respects same_layers (transaction m).
Proof. intros H s. specialize (H s). unfold transaction. by destruct (m s) as [[a|e] s1]. Qed.

#[export] Hint Resolve audit_layers transaction_layers : respects.
#[export] Hint Extern 1 (respects same_layers (sql_update _ _ _ _)) => apply update_layers; done : respects.
#[export] Hint Extern 1 (respects same_layers (sql_insert _ _ _ _ _)) => apply insert_layers; done : respects.

(** A computation whose statements write the tables of the lower layers only. *)
Ltac solve_layers :=
  repeat (respects_step || (intros ?s; done) || apply transaction_layers || (progress eauto with respects)).
