(* ===== verification/Rules.v ===== *)
(** * Legacy v1: the rule engine (rules/models.py, engine.py, compiler.py, cache.py)

    Versioned rules and their bindings, the deny-overrides decision with its
    explanation, the compiled rule set and the TTL cache. *)

From S2P Require Import Prelude LegacyTypes Schema Trail.

(** ** Snapshots and predicates of the models *)

Definition rule_active (r : Rule) : bool := bool_decide (rl_lifecycle r = ACTIVE).
Definition binding_active (b : RuleBinding) : bool := bool_decide (rb_lifecycle b = ACTIVE).

Section Rules.
Context `{host : !Host} `{sink : !AuditSink}.

Definition rule_snapshot (r : Rule) : jdict := [
  ("id", JVstr (rl_id r)); ("name", JVstr (rl_name r)); ("description", JVstr (rl_description r));
  ("rule_type", JVstr (rule_type_value (rl_type r))); ("effect", JVstr (effect_value (rl_effect r)));
  ("priority", JVint (rl_priority r)); ("conditions", JVdict (rl_conditions r));
  ("created_at", JVstr (isoformat (rl_created_at r))); ("created_by", JVstr (rl_created_by r));
  ("current_version", JVint (Z.of_nat (rl_version r)));
  ("lifecycle", JVstr (lifecycle_name (rl_lifecycle r)))].

Definition version_snapshot (v : RuleVersion) : jdict := [
  ("id", JVstr (rv_id v)); ("rule_id", JVstr (rv_rule v));
  ("version", JVint (Z.of_nat (rv_version v))); ("conditions", JVdict (rv_conditions v));
  ("effect", JVstr (effect_value (rv_effect v))); ("priority", JVint (rv_priority v));
  ("created_at", JVstr (isoformat (rv_created_at v))); ("created_by", JVstr (rv_created_by v));
  ("change_reason", JVstr (rv_reason v))].

Definition binding_snapshot (b : RuleBinding) : jdict := [
  ("id", JVstr (rb_id b)); ("rule_id", JVstr (rb_rule b));
  ("target_type", JVstr (target_type_value (rb_target_type b)));
  ("target_id", JVstr (rb_target b)); ("bound_at", JVstr (isoformat (rb_bound_at b)));
  ("bound_by", JVstr (rb_bound_by b)); ("lifecycle", JVstr (lifecycle_name (rb_lifecycle b)))].

(** ** The cache

    A key that is [None] in [cache] means the engine was built without one; the
    lookup counters are not modelled. *)

Definition cache_drop (key : string) : lp unit :=
  modify (λ s, put_cache (filter (λ x, x.1 ≠ key) (st_cache s)) s).

Definition cache_get (key : string) : lp (option (list Rule)) :=
  entry ← gets (λ s, find (λ x, bool_decide (x.1 = key)) (st_cache s));
  match entry with
  | None => mret None
  | Some (_, (expires_at, value)) =>
      now ← now_utc;
      if (expires_at <? now)%Z then cache_drop key ;; mret None else mret (Some value)
  end.

Definition cache_put (ttl : Z) (key : string) (value : list Rule) : lp unit :=
  now ← now_utc;
  modify (λ s, put_cache ((key, ((now + ttl)%Z, value)) :: filter (λ x, x.1 ≠ key) (st_cache s)) s).

(** [invalidate()], or [invalidate(key)]. *)
Definition cache_invalidate (key : option string) : lp unit :=
  match key with None => modify (put_cache []) | Some k => cache_drop k end.

(** [shared]: whether [set_cache] wired the engine's cache into the store. *)
Definition invalidate_shared (shared : bool) : lp unit :=
  if shared then cache_invalidate None else mret tt.

(** ** RuleStore *)

Definition by_rule (id : string) (r : Rule) : bool := bool_decide (rl_id r = id).

Definition insert_rule (r : Rule) : lp unit :=
  sql_insert t_rules set_rules (λ a b, bool_decide (rl_id a = rl_id b)) "rules.id" r.

Definition require_rule (id constraint : string) : lp unit :=
  l ← gets (λ s, t_rules (st_db s));
  raise_if (negb (existsb (by_rule id) l)) (IntegrityError constraint).

Definition insert_version (v : RuleVersion) : lp unit :=
  require_rule (rv_rule v) "rule_versions.rule_id" ;;
  sql_insert t_versions set_versions
    (λ a b, bool_decide (rv_id a = rv_id b) ||
            (bool_decide (rv_rule a = rv_rule b) && (rv_version a =? rv_version b)))
    "rule_versions" v.

Definition insert_binding (b : RuleBinding) : lp unit :=
  require_rule (rb_rule b) "rule_bindings.rule_id" ;;
  sql_insert t_bindings set_bindings
    (λ a b, bool_decide (rb_id a = rb_id b) ||
            (bool_decide (rb_rule a = rb_rule b) && bool_decide (rb_target_type a = rb_target_type b) &&
             bool_decide (rb_target a = rb_target b)))
    "rule_bindings" b.

Definition _create_version (r : Rule) (reason : string) (created_by : option string)
  : lp RuleVersion :=
  ts ← now_utc;
  ver_id ← generate_id;
  let author := match created_by with
                | None => rl_created_by r
                | Some a => if bool_decide (a = "") then rl_created_by r else a
                end in
  let ver := {| rv_id := ver_id; rv_rule := rl_id r; rv_version := rl_version r;
    rv_conditions := rl_conditions r; rv_effect := rl_effect r; rv_priority := rl_priority r;
    rv_created_at := ts; rv_created_by := author; rv_reason := reason |} in
  insert_version ver ;;
  mret ver.

Definition create_rule (shared : bool) (name : string) (type : RuleType) (effect : RuleEffect)
  (conditions : option jdict) (priority : Z) (description created_by : string) : lp Rule :=
  ts ← now_utc;
  rule_id ← generate_id;
  let rule := {| rl_id := rule_id; rl_name := name; rl_type := type; rl_effect := effect;
    rl_priority := priority; rl_conditions := default [] conditions; rl_created_at := ts;
    rl_created_by := created_by; rl_version := 1; rl_description := description;
    rl_lifecycle := ACTIVE |} in
  insert_rule rule ;;
  _create_version rule "created" None ;;
  audit (states_req None (Some (rule_snapshot rule))
    (request created_by ActionType.RULE_CHANGE "Rule" rule_id)) ;;
  invalidate_shared shared ;;
  mret rule.

Definition get_rule (id : string) : lp (option Rule) := fetch_one t_rules (by_rule id).

Definition by_priority (a b : Rule) : bool := (rl_priority b <=? rl_priority a)%Z.

Definition list_rules (type : option RuleType) (effect : option RuleEffect) (active_only : bool)
  : lp (list Rule) :=
  select_sorted t_rules (λ r, filter_opt type (rl_type r) && filter_opt effect (rl_effect r) &&
    (negb active_only || rule_active r)) by_priority.

Definition change_rule (conditions : jdict) (effect : RuleEffect) (priority : Z) (version : nat)
  (lifecycle : Lifecycle) (r : Rule) : Rule := {|
  rl_id := rl_id r; rl_name := rl_name r; rl_type := rl_type r; rl_effect := effect;
  rl_priority := priority; rl_conditions := conditions; rl_created_at := rl_created_at r;
  rl_created_by := rl_created_by r; rl_version := version; rl_description := rl_description r;
  rl_lifecycle := lifecycle |}.

Definition rule_or_raise (id : string) : lp Rule :=
  found ← get_rule id;
  match found with
  | Some r => mret r
  | None => raise (ValueError ("Rule " +:+ id +:+ " not found"))
  end.

Definition update_rule (shared : bool) (id updated_by : string) (conditions : option jdict)
  (effect : option RuleEffect) (priority : option Z) (reason : string) : lp Rule :=
  rule ← rule_or_raise id;
  let new := change_rule (default (rl_conditions rule) conditions) (default (rl_effect rule) effect)
    (default (rl_priority rule) priority) (S (rl_version rule)) (rl_lifecycle rule) rule in
  sql_update t_rules set_rules (by_rule id) (λ r,
    change_rule (rl_conditions new) (rl_effect new) (rl_priority new) (rl_version new)
      (rl_lifecycle r) r) ;;
  _create_version new reason (Some updated_by) ;;
  audit (states_req (Some (rule_snapshot rule)) (Some (rule_snapshot new))
    (request updated_by ActionType.RULE_CHANGE "Rule" id)) ;;
  invalidate_shared shared ;;
  mret new.

Definition archived_rule (r : Rule) : Rule :=
  change_rule (rl_conditions r) (rl_effect r) (rl_priority r) (rl_version r) ARCHIVED r.

Definition archived_binding (b : RuleBinding) : RuleBinding := {|
  rb_id := rb_id b; rb_rule := rb_rule b; rb_target_type := rb_target_type b;
  rb_target := rb_target b; rb_bound_at := rb_bound_at b; rb_bound_by := rb_bound_by b;
  rb_lifecycle := ARCHIVED |}.

Definition archive_rule (shared : bool) (id archived_by : string) : lp Rule :=
  rule ← rule_or_raise id;
  sql_update t_rules set_rules (by_rule id) archived_rule ;;
  sql_update t_bindings set_bindings (λ b, bool_decide (rb_rule b = id) && binding_active b)
    archived_binding ;;
  audit (states_req None (Some [("lifecycle", JVstr "ARCHIVED")])
    (request archived_by ActionType.LIFECYCLE_CHANGE "Rule" id)) ;;
  invalidate_shared shared ;;
  mret (archived_rule rule).

Definition by_version (a b : RuleVersion) : bool := rv_version a <=? rv_version b.

Definition get_versions (id : string) : lp (list RuleVersion) :=
  select_sorted t_versions (λ v, bool_decide (rv_rule v = id)) by_version.

Definition bind_rule (shared : bool) (id : string) (type : BindingTargetType) (target bound_by : string)
  : lp RuleBinding :=
  ts ← now_utc;
  binding_id ← generate_id;
  let binding := {| rb_id := binding_id; rb_rule := id; rb_target_type := type;
    rb_target := target; rb_bound_at := ts; rb_bound_by := bound_by; rb_lifecycle := ACTIVE |} in
  insert_binding binding ;;
  invalidate_shared shared ;;
  mret binding.

(** An active binding of the rule to the target. *)
Definition binds (id : string) (type : BindingTargetType) (target : string) (b : RuleBinding) : bool :=
  bool_decide (rb_rule b = id) && bool_decide (rb_target_type b = type) &&
  bool_decide (rb_target b = target) && binding_active b.

Definition unbind_rule (shared : bool) (id : string) (type : BindingTargetType) (target : string)
  : lp bool :=
  row ← fetch_one t_bindings (binds id type target);
  match row with
  | None => mret false
  | Some _ =>
      sql_update t_bindings set_bindings (binds id type target) archived_binding ;;
      invalidate_shared shared ;;
      mret true
  end.

Definition get_bindings (id : string) (active_only : bool) : lp (list RuleBinding) :=
  select t_bindings (λ b, bool_decide (rb_rule b = id) && (negb active_only || binding_active b)).

Definition get_target_bindings (type : BindingTargetType) (target : string) (active_only : bool)
  : lp (list RuleBinding) :=
  select t_bindings (λ b, bool_decide (rb_target_type b = type) && bool_decide (rb_target b = target) &&
    (negb active_only || binding_active b)).
End Rules.

(** ** RuleEngine *)

(** The arguments of [evaluate]. *)
Record access_request := {
  a_action : string; a_principal_id : option string; a_principal_kind : option string;
  a_object_type : option string; a_object_id : option string; a_scope_id : option string;
  a_environment_id : option string;
}.

Record EvaluationResult := {
  allowed : bool; matching_rules : list Rule; deny_rules : list Rule; allow_rules : list Rule;
}.

Definition is_jstr (s : string) (v : jval) : bool :=
  match v with JVstr t => bool_decide (t = s) | _ => false end.

(** [actual in expected] for a list, [actual == expected] otherwise. *)
Definition expects (expected : jval) (actual : string) : bool :=
  match expected with
  | JVlist l => existsb (is_jstr actual) l
  | v => is_jstr actual v
  end.

(** One condition of [_matches_conditions]: an argument that was not given passes. *)
Definition condition_holds (conds : jdict) (key : string) (actual : option string) : bool :=
  match jget conds key, actual with
  | Some expected, Some a => expects expected a
  | _, _ => true
  end.

Definition _matches_conditions (r : Rule) (q : access_request) : bool :=
  match rl_conditions r with
  | [] => true
  | conds =>
      condition_holds conds "action" (Some (a_action q)) &&
      condition_holds conds "principal_kind" (a_principal_kind q) &&
      condition_holds conds "object_type" (a_object_type q) &&
      condition_holds conds "scope_id" (a_scope_id q)
  end.

(** Keep the first of each id. *)
Fixpoint unique_rules (seen : list string) (l : list Rule) : list Rule :=
  match l with
  | [] => []
  | r :: l' =>
      if bool_decide (rl_id r ∈ seen) then unique_rules seen l'
      else r :: unique_rules (rl_id r :: seen) l'
  end.

(** Deny overrides; no rule means deny. *)
Definition decide_access (matching : list Rule) : EvaluationResult :=
  let denies := filter (λ r, rl_effect r = DENY) matching in
  let allows := filter (λ r, rl_effect r = ALLOW) matching in
  {| allowed := match denies, allows with
                | _ :: _, _ => false
                | [], _ :: _ => true
                | [], [] => false
                end;
     matching_rules := matching; deny_rules := denies; allow_rules := allows |}.

Section Engine.
Context `{host : !Host} `{sink : !AuditSink}.
(** [cache_ttl]: None when the engine has no cache. *)
Context (cache_ttl : option Z).

Definition cache_key (type : BindingTargetType) (target : string) : string :=
  target_type_value type +:+ ":" +:+ target.

(** An active binding to the target. *)
Definition targets (type : BindingTargetType) (target : string) (b : RuleBinding) : bool :=
  bool_decide (rb_target_type b = type) && bool_decide (rb_target b = target) && binding_active b.

(** SELECT rules.* FROM rules JOIN rule_bindings: a rule per matching binding. *)
Definition bound_rules (t : tables) (type : BindingTargetType) (target : string) : list Rule :=
  r ← filter (λ r, rule_active r = true) (t_rules t);
  (λ _, r) <$> filter (λ b, rb_rule b = rl_id r ∧ targets type target b = true) (t_bindings t).

Definition _rules_for_target (type : BindingTargetType) (target : string) : lp (list Rule) :=
  let key := cache_key type target in
  cached ← match cache_ttl with None => mret None | Some _ => cache_get key end;
  match cached with
  | Some rules => mret rules
  | None =>
      result ← gets (λ s, scan (bound_rules (st_db s) type target));
      match cache_ttl with None => mret tt | Some ttl => cache_put ttl key result end ;;
      mret result
  end.

(** The targets [evaluate] looks at, in order; empty ids count as not given. *)
Definition given (type : BindingTargetType) (o : option string)
  : list (BindingTargetType * string) :=
  match o with Some s => if bool_decide (s = "") then [] else [(type, s)] | None => [] end.

Definition request_targets (q : access_request) : list (BindingTargetType * string) :=
  given BT_SCOPE (a_scope_id q) ++ given BT_PRINCIPAL (a_principal_id q) ++
  given BT_OBJECT_TYPE (a_object_type q) ++ given BT_OBJECT (a_object_id q).

Definition evaluate_targets (q : access_request) : list (BindingTargetType * string) :=
  request_targets q ++ given BT_ENVIRONMENT (a_environment_id q).

Definition collect (l : list (BindingTargetType * string))
  : lp (list (Rule * (BindingTargetType * string))) :=
  for_fold l [] (λ acc t,
    rules ← _rules_for_target t.1 t.2; mret (acc ++ ((λ r, (r, t)) <$> rules))).

Definition or_str (o : option string) (d : string) : string :=
  match o with Some s => if bool_decide (s = "") then d else s | None => d end.

(** What [evaluate] records. *)
Definition access_check (q : access_request) (result : EvaluationResult) : trace_request :=
  metadata_req
    [("action_checked", JVstr (a_action q));
     ("result", JVstr (if allowed result then "allowed" else "denied"));
     ("rules_matched", JVint (Z.of_nat (length (matching_rules result))))]
    (in_scope_req (a_scope_id q)
      (request (or_str (a_principal_id q) "system") ActionType.ACCESS_CHECK
        (or_str (a_object_type q) "unknown") (or_str (a_object_id q) "unknown"))).

Definition evaluate (q : access_request) : lp EvaluationResult :=
  candidates ← collect (evaluate_targets q);
  let unique := unique_rules [] candidates.*1 in
  let matching := sort_by by_priority (filter (λ r, _matches_conditions r q = true) unique) in
  let result := decide_access matching in
  audit (access_check q result) ;;
  mret result.

(** *** Explanations *)

Record ConditionMatch := {
  condition_key : string; cm_matched : bool; cm_expected : jval; cm_actual : option string;
}.

Record RuleExplanation := {
  re_rule : Rule; re_matched : bool; re_binding : BindingTargetType * string;
  condition_matches : list ConditionMatch; re_reason : string;
}.

Record EvaluationExplanation := {
  ex_result : EvaluationResult; explanations : list RuleExplanation; summary : string;
}.

Definition _value_matches (expected : jval) (actual : option string) : bool :=
  match actual with None => true | Some a => expects expected a end.

(** The condition keys a request is matched on, with the values it gives. *)
Definition request_values (q : access_request) : list (string * option string) :=
  [("action", Some (a_action q)); ("principal_kind", a_principal_kind q);
   ("object_type", a_object_type q); ("scope_id", a_scope_id q)].

Definition condition_match (conds : jdict) (kv : string * option string) : option ConditionMatch :=
  (λ expected, {| condition_key := kv.1; cm_matched := _value_matches expected kv.2;
                  cm_expected := expected; cm_actual := kv.2 |}) <$> jget conds kv.1.

Fixpoint join_comma (l : list string) : string :=
  match l with [] => "" | [x] => x | x :: l' => x +:+ ", " +:+ join_comma l' end.

Definition _explain_match (r : Rule) (q : access_request) (binding : BindingTargetType * string)
  : RuleExplanation :=
  let matches := omap (condition_match (rl_conditions r)) (request_values q) in
  let all_matched := match rl_conditions r with [] => true | _ => forallb cm_matched matches end in
  {| re_rule := r; re_matched := all_matched; re_binding := binding; condition_matches := matches;
     re_reason :=
       if all_matched
       then "Rule '" +:+ rl_name r +:+ "' (" +:+ effect_value (rl_effect r) +:+
            ") matched — all conditions satisfied"
       else "Rule '" +:+ rl_name r +:+ "' did not match — failed on: " +:+
            join_comma (condition_key <$> filter (λ m, cm_matched m = false) matches) |}.

Fixpoint unique_candidates (seen : list string) (l : list (Rule * (BindingTargetType * string)))
  : list (Rule * (BindingTargetType * string)) :=
  match l with
  | [] => []
  | x :: l' =>
      if bool_decide (rl_id x.1 ∈ seen) then unique_candidates seen l'
      else x :: unique_candidates (rl_id x.1 :: seen) l'
  end.

Definition evaluate_with_explanation (q : access_request) : lp EvaluationExplanation :=
  candidates ← collect (request_targets q);
  let exps := (λ x, _explain_match x.1 q x.2) <$> unique_candidates [] candidates in
  let matching := sort_by by_priority (re_rule <$> filter (λ e, re_matched e = true) exps) in
  let result := decide_access matching in
  mret {| ex_result := result; explanations := exps;
          summary := match deny_rules result, allow_rules result with
                     | top :: _, _ => "Denied by rule '" +:+ rl_name top +:+ "' (priority " +:+
                                      pretty (rl_priority top) +:+ ")"
                     | [], _ :: _ => "Allowed by " +:+ pretty (length (allow_rules result)) +:+
                                     " rule(s), no DENY rules matched"
                     | [], [] => "Denied — no matching rules (default-deny)"
                     end |}.
End Engine.

(** ** Compiled rule sets *)

(** [_index] with [_all_rules]: the entries of each target, in insertion order. *)
Record CompiledRuleSet := {
  _index : list (string * list (string * list (Rule * RuleBinding)));
  _all_rules : list Rule;
}.

Definition empty_ruleset : CompiledRuleSet := {| _index := []; _all_rules := [] |}.

(** dict.setdefault(k, d) then an update of that value. *)
Fixpoint upsert {V} (k : string) (d : V) (f : V → V) (l : list (string * V)) : list (string * V) :=
  match l with
  | [] => [(k, f d)]
  | (k', v) :: l' => if bool_decide (k' = k) then (k', f v) :: l' else (k', v) :: upsert k d f l'
  end.

Definition dict_get {V} (k : string) (d : V) (l : list (string * V)) : V :=
  match find (λ x, bool_decide (x.1 = k)) l with Some x => x.2 | None => d end.

Definition add_rule (rs : CompiledRuleSet) (r : Rule) (b : RuleBinding) : CompiledRuleSet := {|
  _index := upsert (target_type_value (rb_target_type b)) []
              (upsert (rb_target b) [] (λ entries, entries ++ [(r, b)])) (_index rs);
  _all_rules := _all_rules rs ++ [r] |}.

Definition lookup (rs : CompiledRuleSet) (type : BindingTargetType) (target : string) : list Rule :=
  sort_by by_priority (dict_get target [] (dict_get (target_type_value type) [] (_index rs))).*1.

Definition all_rules (rs : CompiledRuleSet) : list Rule := _all_rules rs.
Definition ruleset_size (rs : CompiledRuleSet) : nat := length (_all_rules rs).

Section Compiler.
Context `{host : !Host}.

(** [RuleCompiler.compile]. *)
Definition compile_rules (type : option string) (scope_id : option string) : lp CompiledRuleSet :=
  rows ← select_sorted t_rules (λ r, rule_active r && filter_opt type (rule_type_value (rl_type r))) by_priority;
  match rows with
  | [] => mret empty_ruleset
  | _ =>
      bindings ← select t_bindings (λ b,
        bool_decide (rb_rule b ∈ (rl_id <$> rows)) && binding_active b &&
        match scope_id with
        | None => true
        | Some sc => bool_decide (rb_target_type b = BT_SCOPE) && bool_decide (rb_target b = sc)
        end);
      mret (foldl (λ rs b, match find (by_rule (rb_rule b)) rows with
                           | Some r => add_rule rs r b
                           | None => rs
                           end) empty_ruleset bindings)
  end.
End Compiler.

(** ** Lemmas *)

#[export] Instance cache_key_inj : Inj2 (=) (=) (=) cache_key.
Proof.
  intros t1 x1 t2 x2. unfold cache_key.
  destruct t1, t2; simpl; intros H; (split; [done || (exfalso; congruence)|]); by injection H.
Qed.

Section EngineTheory.
Context `{host : !Host} `{sink : !AuditSink} (ttl : option Z).

(** Whatever the cache holds is what the database would answer. *)
Definition cache_ok (s : store) : Prop :=
  ∀ type target e l, (cache_key type target, (e, l)) ∈ st_cache s →
    l ≡ₚ bound_rules (st_db s) type target.

Lemma cache_ok_sub s c :
  cache_ok s → (∀ x, x ∈ c → x ∈ st_cache s) → cache_ok (put_cache c s).
Proof. intros H Hc type target e l Hin. apply (H type target e l), Hc, Hin. Qed.

Lemma cache_ok_quiet s s' :
  quiet s s' → cache_ok s → cache_ok s'.
Proof.
  intros Hq H type target e l. pose proof (quiet_db s s' Hq) as (Hr & _ & Hb & _).
  destruct Hq as (_ & _ & -> & _). intros Hin. specialize (H type target e l Hin).
  unfold bound_rules in *. by rewrite Hr, Hb.
Qed.

(** Looking up a target always answers, with the database's rules in some order. *)
Lemma rules_for_target_run type target s :
  cache_ok s →
  ∃ l c, _rules_for_target ttl type target s = (Ok l, put_cache c s) ∧
    l ≡ₚ bound_rules (st_db s) type target ∧ cache_ok (put_cache c s).
Proof.
  intros Hok. unfold _rules_for_target.
  set (fresh := scan (bound_rules (st_db s) type target)).
  assert (Hfresh : fresh ≡ₚ bound_rules (st_db s) type target) by apply scan_perm.
  destruct ttl as [t|]; [|exists fresh, (st_cache s); by destruct s].
  assert (Hput : ∀ c, cache_ok (put_cache c s) →
    cache_ok (put_cache ((cache_key type target, ((st_now s + t)%Z, fresh))
      :: filter (λ x, x.1 ≠ cache_key type target) c) s)).
  { intros c Hc ty tg e l. cbn [st_cache put_cache]. rewrite elem_of_cons. intros [Heq|Hin].
    - injection Heq as Hk _ ->. apply (inj2 cache_key) in Hk as [-> ->]. done.
    - apply list_elem_of_filter in Hin as [_ Hin]. by apply (Hc ty tg e l). }
  assert (Hself : cache_ok (put_cache (st_cache s) s)) by (by destruct s).
  unfold cache_get, gets, mbind, prog_bind, mret, prog_ret.
  destruct (find _ (st_cache s)) as [[k [e l]]|] eqn:Hfind.
  - apply find_Some_elem in Hfind as [Hin Hk%bool_decide_eq_true_1]. simpl in Hk. subst k.
    unfold now_utc, gets. simpl. destruct (e <? st_now s)%Z.
    + eexists fresh, _. split; [reflexivity|]. split; [done|].
      simpl. apply Hput. apply cache_ok_sub; [done|]. by intros x [_ Hx]%list_elem_of_filter.
    + exists l, (st_cache s). split; [by destruct s|]. split; [by eapply Hok|done].
  - eexists fresh, _. split; [reflexivity|]. split; [done|]. simpl. by apply Hput.
Qed.

(** The candidates are the rules bound to the targets. *)
Lemma collect_run l acc s :
  cache_ok s →
  ∃ out c, for_fold l acc (λ acc t,
      rules ← _rules_for_target ttl t.1 t.2; mret (acc ++ ((λ r, (r, t)) <$> rules))) s
    = (Ok (acc ++ out), put_cache c s) ∧ cache_ok (put_cache c s) ∧
    ∀ r t, (r, t) ∈ out ↔ t ∈ l ∧ r ∈ bound_rules (st_db s) t.1 t.2.
Proof.
  revert acc s. induction l as [|t l IH]; intros acc s Hok; cbn [for_fold].
  { exists [], (st_cache s). rewrite app_nil_r. split; [by destruct s|]. split; [by destruct s|].
    intros r t. rewrite !elem_of_nil. tauto. }
  destruct (rules_for_target_run t.1 t.2 s Hok) as (rules & c & Hrun & Hperm & Hok1).
  assert (Hb : (rules ← _rules_for_target ttl t.1 t.2; mret (acc ++ ((λ r, (r, t)) <$> rules))) s
    = (Ok (acc ++ ((λ r, (r, t)) <$> rules)), put_cache c s))
    by by rewrite (run_bind_ok _ _ _ _ _ Hrun).
  rewrite (run_bind_ok _ _ _ _ _ Hb).
  destruct (IH (acc ++ ((λ r, (r, t)) <$> rules)) _ Hok1) as (out & c' & -> & Hok2 & Hout).
  exists (((λ r, (r, t)) <$> rules) ++ out), c'. split; [by rewrite app_assoc|]. split; [done|].
  intros r t'. rewrite elem_of_app, Hout, list_elem_of_fmap. simpl. split.
  - intros [(r' & [= -> ->] & Hr)|[? ?]]; [|split; [by right|done]].
    split; [left|]. by rewrite <-Hperm.
  - intros [[->|Ht]%elem_of_cons Hr]; [left|right; done]. exists r. split; [done|]. by rewrite Hperm.
Qed.

Lemma unique_rules_spec seen l :
  NoDup (rl_id <$> unique_rules seen l) ∧
  (∀ r, r ∈ unique_rules seen l → r ∈ l ∧ rl_id r ∉ seen) ∧
  (∀ r, r ∈ l → rl_id r ∉ seen → ∃ r', r' ∈ unique_rules seen l ∧ rl_id r' = rl_id r).
Proof.
  revert seen. induction l as [|x l IH]; intros seen; simpl.
  { split_and!; [constructor|by intros r ?%not_elem_of_nil|by intros r ?%not_elem_of_nil]. }
  case_bool_decide as Hx.
  - destruct (IH seen) as (H1 & H2 & H3). split_and!; [done| |].
    + intros r Hr. destruct (H2 r Hr). split; [by right|done].
    + intros r [->|Hr]%elem_of_cons Hs; [done|by apply H3].
  - destruct (IH (rl_id x :: seen)) as (H1 & H2 & H3). split_and!.
    + rewrite fmap_cons. apply NoDup_cons. split; [|done].
      intros (r & Heq & Hr)%list_elem_of_fmap. destruct (H2 r Hr) as [_ Hs].
      apply Hs. rewrite Heq. left.
    + intros r [->|Hr]%elem_of_cons; [split; [left|done]|].
      destruct (H2 r Hr) as [? Hs]. split; [by right|]. intros ?. apply Hs. by right.
    + intros r [->|Hr]%elem_of_cons Hs; [exists x; split; [left|done]|].
      destruct (decide (rl_id r = rl_id x)) as [Heq|Hne]; [exists x; split; [left|done]|].
      destruct (H3 r Hr) as (r' & ? & ?); [|exists r'; split; [by right|done]].
      by intros [?|?]%elem_of_cons.
Qed.

Lemma by_priority_total x y : by_priority x y = true ∨ by_priority y x = true.
Proof. unfold by_priority. rewrite !Z.leb_le. lia. Qed.
Lemma by_priority_trans x y z : by_priority x y = true → by_priority y z = true → by_priority x z = true.
Proof. unfold by_priority. rewrite !Z.leb_le. lia. Qed.

(** A rule the request meets: active, bound to one of its targets, conditions
    satisfied. *)
Definition eligible (t : tables) (q : access_request) (l : list (BindingTargetType * string))
  (r : Rule) : Prop :=
  r ∈ t_rules t ∧ rl_lifecycle r = ACTIVE ∧ _matches_conditions r q = true ∧
  ∃ b, b ∈ t_bindings t ∧ rb_rule b = rl_id r ∧ rb_lifecycle b = ACTIVE ∧
    (rb_target_type b, rb_target b) ∈ l.

Lemma bound_rules_elem t type target r :
  r ∈ bound_rules t type target ↔
  r ∈ t_rules t ∧ rl_lifecycle r = ACTIVE ∧
  ∃ b, b ∈ t_bindings t ∧ rb_rule b = rl_id r ∧ rb_lifecycle b = ACTIVE ∧
    rb_target_type b = type ∧ rb_target b = target.
Proof.
  unfold bound_rules. rewrite list_elem_of_bind. split.
  - intros (x & Hx & [Ha Hr]%list_elem_of_filter).
    apply list_elem_of_fmap in Hx as (b & -> & [[Hb Ht] Hin]%list_elem_of_filter).
    apply bool_decide_eq_true_1 in Ha. unfold targets, binding_active in Ht.
    rewrite !andb_true_iff, !bool_decide_eq_true in Ht. destruct Ht as [[? ?] ?].
    split_and!; [done..|]. exists b. by split_and!.
  - intros (Hr & Ha & b & Hb & Hid & Hact & <- & <-). exists r. split.
    + apply list_elem_of_fmap. exists b. split; [done|]. apply list_elem_of_filter. split; [|done].
      split; [done|]. unfold targets, binding_active. rewrite !andb_true_iff, !bool_decide_eq_true. done.
    + apply list_elem_of_filter. split; [by apply bool_decide_eq_true_2|done].
Qed.

Definition rules_keyed (t : tables) : Prop := NoDup (rl_id <$> t_rules t).

Lemma rules_keyed_eq t a b :
  rules_keyed t → a ∈ t_rules t → b ∈ t_rules t → rl_id a = rl_id b → a = b.
Proof. apply NoDup_fmap_inj_in. Qed.

Lemma matching_spec t q l out m :
  rules_keyed t → (∀ r x, (r, x) ∈ out ↔ x ∈ l ∧ r ∈ bound_rules t x.1 x.2) →
  m = sort_by by_priority (filter (λ r, _matches_conditions r q = true) (unique_rules [] out.*1)) →
  (∀ r, r ∈ m ↔ eligible t q l r) ∧ NoDup m ∧ StronglySorted (leb_rel by_priority) m.
Proof.
  intros Hkey Hout ->. destruct (unique_rules_spec [] out.*1) as (Hnd & Hin & Hall).
  assert (Hout' : ∀ r, r ∈ out.*1 ↔ ∃ x, x ∈ l ∧ r ∈ bound_rules t x.1 x.2).
  { intros r. rewrite list_elem_of_fmap. split.
    - intros ([r' x] & -> & H%Hout). by exists x.
    - intros (x & Hx & Hr). exists (r, x). split; [done|]. by apply Hout. }
  split_and!.
  - intros r. rewrite elem_of_sort_by, list_elem_of_filter. split.
    + intros [Hm Hr]. apply Hin in Hr as [Hr _]. apply Hout' in Hr as ([ty tg] & Hx & Hr).
      apply bound_rules_elem in Hr as (? & ? & b & ? & ? & ? & Ht & Hg). simpl in Ht, Hg. subst.
      split_and!; [done..|]. by exists b.
    + intros (Hr & Ha & Hm & b & Hb & Hid & Hact & Hx). split; [done|].
      destruct (Hall r) as (r' & Hr' & Heq); [|by apply not_elem_of_nil|].
      { apply Hout'. eexists. split; [exact Hx|]. apply bound_rules_elem. split_and!; [done..|].
        by exists b. }
      assert (r' = r) as ->; [|done]. apply (rules_keyed_eq t); [done| |done|done].
      apply Hin in Hr' as [Hr' _]. apply Hout' in Hr' as (x & _ & Hr').
      by apply bound_rules_elem in Hr' as [? _].
  - rewrite sort_by_perm. apply NoDup_filter. by eapply NoDup_fmap_1.
  - apply sort_by_sorted; [apply by_priority_total|apply by_priority_trans].
Qed.

Lemma decide_access_spec m :
  (allowed (decide_access m) = true ↔
    (∃ r, r ∈ m ∧ rl_effect r = ALLOW) ∧ (∀ r, r ∈ m → rl_effect r ≠ DENY)).
Proof.
  unfold decide_access. simpl. destruct (filter (λ r, rl_effect r = DENY) m) as [|d ds] eqn:Hd.
  - pose proof (proj1 (filter_nil_iff _ m) Hd) as Hnone.
    destruct (filter (λ r, rl_effect r = ALLOW) m) as [|a l] eqn:Ha.
    + pose proof (proj1 (filter_nil_iff _ m) Ha) as Hno. split; [done|].
      intros [(r & Hr & He) _]. by destruct (Hno r Hr).
    + split; [|done]. intros _. split; [|done]. exists a.
      assert (Hin : a ∈ filter (λ r, rl_effect r = ALLOW) m) by (rewrite Ha; left).
      by apply list_elem_of_filter in Hin as [? ?].
  - split; [done|]. intros [_ Hno].
    assert (Hin : d ∈ filter (λ r, rl_effect r = DENY) m) by (rewrite Hd; left).
    apply list_elem_of_filter in Hin as [He Hin]. by destruct (Hno d Hin).
Qed.

(** An evaluation touches the cache and the trail only. *)
Lemma cache_off_trail (f : store → list (string * (Z * list Rule))) :
  respects off_trail (modify (λ s, put_cache (f s) s)).
Proof. by intros s. Qed.

Lemma rules_for_target_off_trail type target : respects off_trail (_rules_for_target ttl type target).
Proof.
  unfold _rules_for_target, cache_get, cache_put, cache_drop, now_utc.
  repeat (respects_step || apply cache_off_trail).
Qed.

Lemma evaluate_off_trail q : respects off_trail (evaluate ttl q).
Proof.
  unfold evaluate, collect. respects_step.
  - respects_step. respects_step; [apply rules_for_target_off_trail|respects_step].
  - respects_step; [apply audit_off_trail|respects_step].
Qed.

(** [evaluate] up to its audit record. *)
Lemma evaluate_run q s :
  cache_ok s → rules_keyed (st_db s) →
  ∃ m c, evaluate ttl q s
    = (audit (access_check q (decide_access m)) ;; mret (decide_access m)) (put_cache c s) ∧
    cache_ok (put_cache c s) ∧
    (∀ x, x ∈ m ↔ eligible (st_db s) q (evaluate_targets q) x) ∧
    NoDup m ∧ StronglySorted (leb_rel by_priority) m.
Proof.
  intros Hok Hkey.
  destruct (collect_run (evaluate_targets q) [] s Hok) as (out & c & Hrun & Hok1 & Hout).
  set (m := sort_by by_priority
    (filter (λ r, _matches_conditions r q = true) (unique_rules [] out.*1))).
  exists m, c. split; [|split; [done|]].
  - unfold evaluate, collect. by rewrite (run_bind_ok _ _ _ _ _ Hrun).
  - by apply (matching_spec (st_db s) q (evaluate_targets q) out).
Qed.

Lemma unique_candidates_fst seen l : (unique_candidates seen l).*1 = unique_rules seen l.*1.
Proof.
  revert seen. induction l as [|x l IH]; intros seen; simpl; [done|].
  case_bool_decide; [done|]. by rewrite fmap_cons, IH.
Qed.

Lemma unique_candidates_sub seen l x : x ∈ unique_candidates seen l → x ∈ l.
Proof.
  revert seen. induction l as [|y l IH]; intros seen; simpl; [done|]. case_bool_decide.
  - intros Hx. right. by eapply IH.
  - intros [->|Hx]%elem_of_cons; [left|right; by eapply IH].
Qed.

(** A condition that is there is matched like [_matches_conditions] does. *)
Lemma condition_holds_matched conds k o :
  condition_holds conds k o = true ↔
    (∀ m, condition_match conds (k, o) = Some m → cm_matched m = true).
Proof.
  unfold condition_holds, condition_match, _value_matches. simpl.
  destruct (jget conds k) as [e|]; simpl; [|naive_solver].
  destruct o; naive_solver.
Qed.

Lemma explain_matched r q b : re_matched (_explain_match r q b) = _matches_conditions r q.
Proof.
  unfold _explain_match, _matches_conditions. cbn [re_matched].
  destruct (rl_conditions r) as [|x l]; [done|]. apply eq_true_iff_eq.
  rewrite forallb_forall, !andb_true_iff.
  rewrite !condition_holds_matched.
  setoid_rewrite <-list_elem_of_In. setoid_rewrite list_elem_of_omap. split.
  - intros H. split_and!; intros m Hm; apply H; eexists; (split; [|exact Hm]);
      unfold request_values; rewrite !elem_of_cons; auto.
  - intros [[[H1 H2] H3] H4] m (kv & Hkv & Hm). unfold request_values in Hkv.
    rewrite !elem_of_cons, elem_of_nil in Hkv.
    destruct Hkv as [->|[->|[->|[->|[]]]]]; eauto.
Qed.

Lemma explained_rules q l :
  re_rule <$> filter (λ e, re_matched e = true) ((λ x, _explain_match x.1 q x.2) <$> l) =
    filter (λ r, _matches_conditions r q = true) l.*1.
Proof.
  induction l as [|x l IH]; [done|]. rewrite !fmap_cons.
  rewrite (filter_cons (λ e, re_matched e = true)), (filter_cons (λ r, _matches_conditions r q = true)).
  rewrite explain_matched. case_decide; [|done]. rewrite fmap_cons. by f_equal.
Qed.

(** Not matching is always explained. *)
Lemma explained_failure r q b :
  re_matched (_explain_match r q b) = false →
  ∃ m, m ∈ condition_matches (_explain_match r q b) ∧ cm_matched m = false.
Proof.
  unfold _explain_match. cbn [re_matched condition_matches].
  destruct (rl_conditions r) as [|x l]; [done|]. generalize (omap (condition_match (x :: l)) (request_values q)).
  intros ms. induction ms as [|m ms IH]; simpl; [done|]. destruct (cm_matched m) eqn:Hm; simpl.
  - intros H%IH. destruct H as (m' & ? & ?). exists m'. split; [by right|done].
  - intros _. exists m. split; [left|done].
Qed.

(** The explanation explains the decision: for a request without an
    environment, evaluate_with_explanation answers exactly what evaluate
    answers, records nothing, and explains once every rule bound to a target of
    the request, under a target that binds it, as matched exactly when its
    conditions are met, listing the conditions that failed when they are not. *)
Theorem explanation_agrees q s :
  cache_ok s → rules_keyed (st_db s) → or_str (a_environment_id q) "" = "" →
  ∃ ex c, evaluate_with_explanation ttl q s = (Ok ex, put_cache c s) ∧
    evaluate ttl q s =
      (audit (access_check q (ex_result ex)) ;; mret (ex_result ex)) (put_cache c s) ∧
    NoDup (rl_id ∘ re_rule <$> explanations ex) ∧
    (∀ t r, t ∈ request_targets q → r ∈ bound_rules (st_db s) t.1 t.2 →
      r ∈ re_rule <$> explanations ex) ∧
    (∀ e, e ∈ explanations ex →
      re_binding e ∈ request_targets q ∧
      re_rule e ∈ bound_rules (st_db s) (re_binding e).1 (re_binding e).2 ∧
      re_matched e = _matches_conditions (re_rule e) q ∧
      (re_matched e = false → ∃ m, m ∈ condition_matches e ∧ cm_matched m = false)).
Proof.
  intros Hok Hkey Henv.
  assert (Ht : evaluate_targets q = request_targets q).
  { unfold evaluate_targets. destruct (a_environment_id q) as [v|]; simpl in *; [|apply app_nil_r].
    case_bool_decide; [apply app_nil_r|done]. }
  destruct (collect_run (request_targets q) [] s Hok) as (out & c & Hrun & Hok1 & Hout).
  cbn [app] in Hrun. eexists _, c. unfold evaluate_with_explanation, evaluate. rewrite Ht.
  unfold collect. rewrite !(run_bind_ok _ _ _ _ _ Hrun).
  split; [reflexivity|]. cbn [ex_result explanations].
  rewrite explained_rules, unique_candidates_fst. split; [done|].
  destruct (unique_rules_spec [] out.*1) as (Hnd & Hin & Hall).
  assert (Hrules : re_rule <$> ((λ x, _explain_match x.1 q x.2) <$> unique_candidates [] out)
    = unique_rules [] out.*1).
  { rewrite <-list_fmap_compose, <-unique_candidates_fst. by apply list_fmap_ext. }
  split_and!.
  - by rewrite list_fmap_compose, Hrules.
  - intros t r Hin' Hr. rewrite Hrules. assert (Hro : r ∈ out.*1).
    { apply list_elem_of_fmap. exists (r, t). split; [done|]. by apply Hout. }
    destruct (Hall r Hro) as (r' & Hr' & Heq); [by apply not_elem_of_nil|].
    assert (r' = r) as ->; [|done]. apply Hin in Hr' as [Hr' _].
    apply list_elem_of_fmap in Hr' as ([x y] & -> & Hx%Hout). destruct Hx as [_ Hx].
    apply bound_rules_elem in Hx as [Hx _]. apply bound_rules_elem in Hr as [Hr _].
    by apply (rules_keyed_eq (st_db s)).
  - intros e (x & -> & Hx)%list_elem_of_fmap. apply unique_candidates_sub in Hx.
    destruct x as [r t]. apply Hout in Hx as [Htg Hr]. split; [done|]. split; [done|].
    split; [apply explain_matched|]. apply explained_failure.
Qed.

End EngineTheory.

(** ** What the store's operations do *)

Section StoreTheory.
Context `{host : !Host} `{sink : !AuditSink}.

(** The rule tables and the cache of two states. *)
Definition same_rules (s s' : store) : Prop :=
  t_rules (st_db s') = t_rules (st_db s) ∧ t_versions (st_db s') = t_versions (st_db s) ∧
  t_bindings (st_db s') = t_bindings (st_db s) ∧ st_cache s' = st_cache s.

#[export] Instance same_rules_preorder : PreOrder same_rules.
Proof.
  split; [by intros s|]. intros s1 s2 s3 (H1 & H2 & H3 & H4) (H5 & H6 & H7 & H8).
  split_and!; congruence.
Qed.

Lemma quiet_same_rules s s' : quiet s s' → same_rules s s'.
Proof.
  intros Hq. pose proof (quiet_db s s' Hq) as (Hr & Hv & Hb & _).
  destruct Hq as (_ & _ & Hc & _). by split_and!.
Qed.

(** The cache after an operation of the store: cleared when it is shared. *)
Definition cleared (shared : bool) (s s' : store) : Prop :=
  st_cache s' = if shared then [] else st_cache s.

Lemma invalidate_ok shared s u s' :
  invalidate_shared shared s = (Ok u, s') →
  st_db s' = st_db s ∧ cleared shared s s'.
Proof. unfold invalidate_shared, cache_invalidate, cleared. by destruct shared; intros [= _ <-]. Qed.

Lemma require_rule_ok id c s u s' :
  require_rule id c s = (Ok u, s') → s' = s ∧ ∃ r, r ∈ t_rules (st_db s) ∧ rl_id r = id.
Proof.
  unfold require_rule. intros H. repeat run_stmt. split; [done|].
  match goal with H : negb _ = false |- _ => apply negb_false_iff, existsb_exists in H as (r & Hr & Hi) end.
  exists r. split; [by apply list_elem_of_In|]. by apply bool_decide_eq_true_1 in Hi.
Qed.

(** The version row of a rule. *)
Definition records_version (r : Rule) (v : RuleVersion) : Prop :=
  rv_rule v = rl_id r ∧ rv_version v = rl_version r ∧ rv_conditions v = rl_conditions r ∧
  rv_effect v = rl_effect r ∧ rv_priority v = rl_priority r.

Lemma create_version_ok r reason by_ s v s' :
  _create_version r reason by_ s = (Ok v, s') →
  records_version r v ∧ rv_reason v = reason ∧
  t_versions (st_db s') = t_versions (st_db s) ++ [v] ∧
  t_rules (st_db s') = t_rules (st_db s) ∧ t_bindings (st_db s') = t_bindings (st_db s) ∧
  st_cache s' = st_cache s.
Proof.
  unfold _create_version, insert_version. intros H. repeat run_stmt.
  match goal with H : require_rule _ _ _ = _ |- _ => apply require_rule_ok in H as [-> _] end.
  repeat run_stmt. by split_and!.
Qed.

Lemma create_rule_ok shared name type effect conds prio desc by_ s r s' :
  create_rule shared name type effect conds prio desc by_ s = (Ok r, s') →
  (∀ x, x ∈ t_rules (st_db s) → rl_id x ≠ rl_id r) ∧ rl_version r = 1 ∧
  t_rules (st_db s') = t_rules (st_db s) ++ [r] ∧
  (∃ v, records_version r v ∧ t_versions (st_db s') = t_versions (st_db s) ++ [v]) ∧
  t_bindings (st_db s') = t_bindings (st_db s) ∧ cleared shared s s'.
Proof.
  unfold create_rule, insert_rule. intros H. repeat run_stmt.
  match goal with H : _create_version _ _ _ _ = _ |- _ =>
    apply create_version_ok in H as (Hv & _ & Hvs & Hrs & Hbs & Hc) end.
  match goal with H : audit _ _ = _ |- _ => apply audit_ok, quiet_same_rules in H as (Ha1 & Ha2 & Ha3 & Ha4) end.
  match goal with H : invalidate_shared _ _ = _ |- _ => apply invalidate_ok in H as [Hdb Hcl] end.
  rewrite Hdb, Ha1, Ha2, Ha3. cbn [st_db put_db t_rules set_rules t_versions t_bindings put_next] in *.
  split_and!; [|done|done|by eexists|done|].
  - intros x Hx. simpl in *. match goal with H : ∀ x, _ → bool_decide _ = false |- _ =>
      specialize (H x Hx); apply bool_decide_eq_false_1 in H end. congruence.
  - unfold cleared in *. destruct shared; [done|]. rewrite Hcl, Ha4, Hc. done.
Qed.

Lemma rule_or_raise_ok id s r s' :
  rule_or_raise id s = (Ok r, s') → s' = s ∧ r ∈ t_rules (st_db s) ∧ rl_id r = id.
Proof.
  unfold rule_or_raise, get_rule. intros H. run_stmt.
  match goal with H : fetch_one _ _ _ = _ |- _ => apply fetch_one_ok in H as [-> Hf] end.
  destruct x as [x|]; [|run_stmt]. run_stmt. destruct Hf as [? Hi].
  by apply bool_decide_eq_true_1 in Hi.
Qed.

(** The row an update leaves of a rule. *)
Definition updated_row (id : string) (new r : Rule) : Rule :=
  if by_rule id r
  then change_rule (rl_conditions new) (rl_effect new) (rl_priority new) (rl_version new) (rl_lifecycle r) r
  else r.

Lemma update_rule_ok shared id by_ conds effect prio reason s new s' :
  update_rule shared id by_ conds effect prio reason s = (Ok new, s') →
  ∃ r v, r ∈ t_rules (st_db s) ∧ rl_id r = id ∧
    new = change_rule (default (rl_conditions r) conds) (default (rl_effect r) effect)
      (default (rl_priority r) prio) (S (rl_version r)) (rl_lifecycle r) r ∧
    records_version new v ∧ rv_reason v = reason ∧
    t_rules (st_db s') = updated_row id new <$> t_rules (st_db s) ∧
    t_versions (st_db s') = t_versions (st_db s) ++ [v] ∧
    t_bindings (st_db s') = t_bindings (st_db s) ∧ cleared shared s s'.
Proof.
  unfold update_rule. intros H. run_stmt.
  match goal with H : rule_or_raise _ _ = _ |- _ => apply rule_or_raise_ok in H as (-> & Hr & Hid) end.
  cbv zeta in H. repeat run_stmt.
  match goal with H : _create_version _ _ _ _ = _ |- _ =>
    apply create_version_ok in H as (Hv & Hrs' & Hvs & Hrs & Hbs & Hc) end.
  match goal with H : audit _ _ = _ |- _ => apply audit_ok, quiet_same_rules in H as (Ha1 & Ha2 & Ha3 & Ha4) end.
  match goal with H : invalidate_shared _ _ = _ |- _ => apply invalidate_ok in H as [Hdb Hcl] end.
  eexists _, _. rewrite Hdb, Ha1, Ha2, Ha3, Hrs, Hvs, Hbs. split_and!; [done|done|done|exact Hv|done..|].
  unfold cleared in *. destruct shared; [done|]. by rewrite Hcl, Ha4, Hc.
Qed.

Lemma archive_rule_ok shared id by_ s r s' :
  archive_rule shared id by_ s = (Ok r, s') →
  t_rules (st_db s') = (λ r, if by_rule id r then archived_rule r else r) <$> t_rules (st_db s) ∧
  t_versions (st_db s') = t_versions (st_db s) ∧
  t_bindings (st_db s') =
    (λ b, if bool_decide (rb_rule b = id) && binding_active b then archived_binding b else b)
      <$> t_bindings (st_db s) ∧
  (∃ r0, r0 ∈ t_rules (st_db s) ∧ rl_id r0 = id ∧ r = archived_rule r0) ∧ cleared shared s s'.
Proof.
  unfold archive_rule. intros H. run_stmt.
  match goal with H : rule_or_raise _ _ = _ |- _ => apply rule_or_raise_ok in H as (-> & Hr & Hid) end.
  repeat run_stmt.
  match goal with H : audit _ _ = _ |- _ => apply audit_ok, quiet_same_rules in H as (Ha1 & Ha2 & Ha3 & Ha4) end.
  match goal with H : invalidate_shared _ _ = _ |- _ => apply invalidate_ok in H as [Hdb Hcl] end.
  rewrite Hdb, Ha1, Ha2, Ha3. split_and!; [done..|by eexists|].
  unfold cleared in *. destruct shared; [done|]. by rewrite Hcl, Ha4.
Qed.

Lemma bind_rule_ok shared id type target by_ s b s' :
  bind_rule shared id type target by_ s = (Ok b, s') →
  (∃ r, r ∈ t_rules (st_db s) ∧ rl_id r = id) ∧
  rb_rule b = id ∧ rb_target_type b = type ∧ rb_target b = target ∧ rb_lifecycle b = ACTIVE ∧
  (∀ x, x ∈ t_bindings (st_db s) →
    ¬ (rb_rule x = id ∧ rb_target_type x = type ∧ rb_target x = target)) ∧
  t_rules (st_db s') = t_rules (st_db s) ∧ t_versions (st_db s') = t_versions (st_db s) ∧
  t_bindings (st_db s') = t_bindings (st_db s) ++ [b] ∧ cleared shared s s'.
Proof.
  unfold bind_rule, insert_binding. intros H. repeat run_stmt.
  match goal with H : require_rule _ _ _ = _ |- _ => apply require_rule_ok in H as [-> Hr] end.
  repeat run_stmt. match goal with H : invalidate_shared _ _ = _ |- _ => apply invalidate_ok in H as [Hdb Hcl] end.
  rewrite Hdb. split_and!; [exact Hr|done..| |done|done|done|done].
  intros x Hx (<- & <- & <-). match goal with H : ∀ x, _ → _ = false |- _ => specialize (H x Hx) end.
  match goal with H : _ || _ = false |- _ => apply orb_false_iff in H as [_ H];
    by rewrite !bool_decide_eq_true_2 in H end.
Qed.

Lemma unbind_rule_ok shared id type target s u s' :
  unbind_rule shared id type target s = (Ok u, s') →
  (u = true ↔ ∃ b, b ∈ t_bindings (st_db s) ∧ binds id type target b = true) ∧
  t_rules (st_db s') = t_rules (st_db s) ∧ t_versions (st_db s') = t_versions (st_db s) ∧
  t_bindings (st_db s') =
    (λ b, if binds id type target b then archived_binding b else b) <$> t_bindings (st_db s) ∧
  (cleared shared s s' ∨ u = false ∧ s' = s).
Proof.
  unfold unbind_rule. intros H. run_stmt.
  match goal with H : fetch_one _ _ _ = _ |- _ => apply fetch_one_ok in H as [-> Hf] end.
  destruct x as [b|]; repeat run_stmt.
  - match goal with H : invalidate_shared _ _ = _ |- _ => apply invalidate_ok in H as [Hdb Hcl] end.
    rewrite Hdb. split; [split; [by eexists|done]|]. split_and!; [done..|by left].
  - split; [split; [done|intros (b & Hb & Ht); by rewrite (Hf b Hb) in Ht]|]. split_and!; [done|done| |by right].
    symmetry. by apply fmap_unchanged.
Qed.
End StoreTheory.

(** ** The rule tables' invariant *)

Definition versions_of (t : tables) (id : string) : list RuleVersion :=
  filter (λ v, rv_rule v = id) (t_versions t).

(** The versions of a rule are 1, 2, ..., its current one, which records what
    the rule says now. *)
Definition versions_ok (t : tables) : Prop :=
  (∀ v, v ∈ t_versions t → ∃ r, r ∈ t_rules t ∧ rl_id r = rv_rule v) ∧
  ∀ r, r ∈ t_rules t →
    rv_version <$> versions_of t (rl_id r) = seq 1 (rl_version r) ∧
    ∃ v, v ∈ t_versions t ∧ records_version r v.

Definition binding_key (b : RuleBinding) : string * BindingTargetType * string :=
  (rb_rule b, rb_target_type b, rb_target b).

Definition bindings_ok (t : tables) : Prop :=
  NoDup (binding_key <$> t_bindings t) ∧
  ∀ b, b ∈ t_bindings t → ∃ r, r ∈ t_rules t ∧ rl_id r = rb_rule b.

Lemma versions_of_snoc t t' id v :
  t_versions t' = t_versions t ++ [v] →
  versions_of t' id = versions_of t id ++ (if decide (rv_rule v = id) then [v] else []).
Proof. intros Ht. unfold versions_of. rewrite Ht, filter_app, filter_cons, filter_nil. done. Qed.

Lemma ids_fmap (f : Rule → Rule) (l : list Rule) : (∀ r, rl_id (f r) = rl_id r) → rl_id <$> (f <$> l) = rl_id <$> l.
Proof. intros Hf. rewrite <-list_fmap_compose. apply list_fmap_ext. intros. apply Hf. Qed.

Lemma versions_ok_create t t' r v :
  versions_ok t → (∀ x, x ∈ t_rules t → rl_id x ≠ rl_id r) → rl_version r = 1 →
  records_version r v → t_rules t' = t_rules t ++ [r] → t_versions t' = t_versions t ++ [v] →
  versions_ok t'.
Proof.
  intros [Hfk Hv] Hnew H1 Hrec Hr Hvs. pose proof Hrec as (Hvr & Hvv & _). split.
  - intros x. rewrite Hvs, Hr, elem_of_app. intros [Hx| ->%list_elem_of_singleton].
    + destruct (Hfk x Hx) as (r' & ? & ?). exists r'. split; [apply elem_of_app; by left|done].
    + exists r. split; [apply elem_of_app; right; left|done].
  - intros x. rewrite Hr, elem_of_app. intros [Hx| ->%list_elem_of_singleton].
    + destruct (Hv x Hx) as (Hseq & v' & Hv' & Hrec'). split.
      * rewrite (versions_of_snoc t t' _ v Hvs), decide_False, app_nil_r; [done|].
        rewrite Hvr. intros Heq. by apply (Hnew x Hx).
      * exists v'. split; [rewrite Hvs; apply elem_of_app; by left|done].
    + split.
      * rewrite (versions_of_snoc t t' _ v Hvs), decide_True by done.
        assert (versions_of t (rl_id r) = []) as ->; [|simpl; by rewrite Hvv, H1].
        apply filter_nil_iff. intros x Hx Heq. destruct (Hfk x Hx) as (r' & Hr' & Hid).
        apply (Hnew r' Hr'). congruence.
      * exists v. split; [rewrite Hvs; apply elem_of_app; right; left|done].
Qed.

Lemma versions_ok_update t t' r new v :
  versions_ok t → rules_keyed t → r ∈ t_rules t →
  rl_id new = rl_id r → rl_version new = S (rl_version r) → records_version new v →
  t_rules t' = updated_row (rl_id r) new <$> t_rules t → t_versions t' = t_versions t ++ [v] →
  versions_ok t'.
Proof.
  intros [Hfk Hv] Hkey Hrin Hid Hver Hrec Hr Hvs. pose proof Hrec as (Hvr & Hvv & Hvc & Hve & Hvp).
  assert (Hrow : ∀ x, rl_id (updated_row (rl_id r) new x) = rl_id x)
    by (intros x; unfold updated_row; by case_match). split.
  - intros x. rewrite Hvs, Hr, elem_of_app.
    intros [Hx| ->%list_elem_of_singleton].
    + destruct (Hfk x Hx) as (r' & ? & ?). exists (updated_row (rl_id r) new r').
      rewrite Hrow. split; [by apply list_elem_of_fmap_2|done].
    + exists (updated_row (rl_id r) new r). rewrite Hrow. split; [by apply list_elem_of_fmap_2|congruence].
  - intros x'. rewrite Hr. intros (x & -> & Hx)%list_elem_of_fmap.
    destruct (Hv x Hx) as (Hseq & v' & Hv' & Hrec').
    rewrite Hrow, (versions_of_snoc t t' _ v Hvs), fmap_app, Hseq.
    unfold updated_row, by_rule. case_bool_decide as Hxr.
    + assert (x = r) as -> by by apply (rules_keyed_eq t). split.
      * rewrite decide_True by congruence. cbn [rl_version change_rule]. rewrite Hver, seq_S. simpl. by rewrite Hvv, Hver.
      * exists v. split; [rewrite Hvs; apply elem_of_app; right; left|]. unfold records_version. cbn. split_and!; congruence.
    + split; [rewrite decide_False by congruence; apply app_nil_r|].
      exists v'. split; [rewrite Hvs; apply elem_of_app; by left|done].
Qed.

Lemma versions_ok_map (f : Rule → Rule) t t' :
  (∀ r v, rl_id (f r) = rl_id r ∧ rl_version (f r) = rl_version r ∧
    (records_version r v → records_version (f r) v)) →
  versions_ok t → t_rules t' = f <$> t_rules t → t_versions t' = t_versions t → versions_ok t'.
Proof.
  intros Hf [Hfk Hv] Hr Hvs. split.
  - intros v. rewrite Hvs, Hr. intros Hin. destruct (Hfk v Hin) as (r & Hrin & Hid).
    exists (f r). split; [by apply list_elem_of_fmap_2|]. destruct (Hf r v) as [-> _]. done.
  - intros r'. rewrite Hr. intros (r & -> & Hrin)%list_elem_of_fmap.
    destruct (Hv r Hrin) as (Hseq & v & Hvin & Hrec). destruct (Hf r v) as (-> & -> & Hr').
    unfold versions_of. rewrite Hvs. split; [exact Hseq|]. exists v. split; [done|by apply Hr'].
Qed.

Lemma bindings_ok_map (f : RuleBinding → RuleBinding) t t' :
  (∀ b, binding_key (f b) = binding_key b) → bindings_ok t →
  (∀ r, r ∈ t_rules t → ∃ r', r' ∈ t_rules t' ∧ rl_id r' = rl_id r) →
  t_bindings t' = f <$> t_bindings t → bindings_ok t'.
Proof.
  intros Hf [Hnd Hfk] Hr Hb. split.
  - rewrite Hb, <-list_fmap_compose.
    rewrite (list_fmap_ext (binding_key ∘ f) binding_key (t_bindings t)); [done|]. intros. apply Hf.
  - intros b'. rewrite Hb. intros (b & -> & Hin)%list_elem_of_fmap.
    destruct (Hfk b Hin) as (r & Hrin & Hid). destruct (Hr r Hrin) as (r' & Hr' & Hid').
    exists r'. split; [done|]. specialize (Hf b). injection Hf as -> _ _. congruence.
Qed.

Lemma bindings_ok_snoc t t' b :
  bindings_ok t → (∃ r, r ∈ t_rules t ∧ rl_id r = rb_rule b) →
  (∀ x, x ∈ t_bindings t →
    ¬ (rb_rule x = rb_rule b ∧ rb_target_type x = rb_target_type b ∧ rb_target x = rb_target b)) →
  t_rules t' = t_rules t → t_bindings t' = t_bindings t ++ [b] → bindings_ok t'.
Proof.
  intros [Hnd Hfk] Hrule Hnew Hr Hb. unfold bindings_ok. rewrite Hr, Hb, fmap_app. split.
  - apply NoDup_app. split; [done|]. split; [|apply NoDup_singleton].
    intros k (x & -> & Hx)%list_elem_of_fmap [= H1 H2 H3]%list_elem_of_singleton. by apply (Hnew x Hx).
  - intros x [Hx| ->%list_elem_of_singleton]%elem_of_app; [by apply Hfk|done].
Qed.

(** ** The rules' state machine *)

Inductive rule_op :=
  | OpCreate (name : string) (type : RuleType) (effect : RuleEffect) (conditions : option jdict)
      (priority : Z) (description created_by : string)
  | OpUpdate (id updated_by : string) (conditions : option jdict) (effect : option RuleEffect)
      (priority : option Z) (reason : string)
  | OpArchive (id archived_by : string)
  | OpBind (id : string) (type : BindingTargetType) (target bound_by : string)
  | OpUnbind (id : string) (type : BindingTargetType) (target : string)
  | OpEvaluate (q : access_request)
  | OpExplain (q : access_request).

Section Machine.
Context `{host : !Host} `{sink : !AuditSink} (ttl : option Z).

(** A store wired to the engine's cache, when it has one. *)
Definition run_rule_op (op : rule_op) : lp unit :=
  match op with
  | OpCreate name type effect conds prio desc by_ =>
      create_rule true name type effect conds prio desc by_ ;; mret tt
  | OpUpdate id by_ conds effect prio reason =>
      update_rule true id by_ conds effect prio reason ;; mret tt
  | OpArchive id by_ => archive_rule true id by_ ;; mret tt
  | OpBind id type target by_ => bind_rule true id type target by_ ;; mret tt
  | OpUnbind id type target => unbind_rule true id type target ;; mret tt
  | OpEvaluate q => evaluate ttl q ;; mret tt
  | OpExplain q => evaluate_with_explanation ttl q ;; mret tt
  end.

(** An operation, returning or raising, or anything that leaves the rules alone. *)
Inductive rule_step : relation store :=
  | step_op op s : rule_step s (run_rule_op op s).2
  | step_other s s' : same_rules s s' → rule_step s s'.

(** Only operations that return: none of the statements after the first write failed. *)
Inductive rule_step_returned : relation store :=
  | returned_op op s s' : run_rule_op op s = (Ok tt, s') → rule_step_returned s s'
  | returned_other s s' : same_rules s s' → rule_step_returned s s'.

(** The operations that change the rules. *)
Definition changes_rules (op : rule_op) : bool :=
  match op with OpCreate _ _ _ _ _ _ _ | OpUpdate _ _ _ _ _ _ | OpArchive _ _ | OpBind _ _ _ _ => true | _ => false end.

Record rules_ok (s : store) : Prop := {
  rules_ok_keyed : rules_keyed (st_db s);
  rules_ok_versions : versions_ok (st_db s);
  rules_ok_bindings : bindings_ok (st_db s);
  rules_ok_cache : cache_ok s;
}.

Lemma cache_ok_cleared s s' : cleared true s s' → cache_ok s'.
Proof. unfold cleared. intros Hc ty tg e l. rewrite Hc. by intros ?%not_elem_of_nil. Qed.

Lemma rules_ok_same s s' : same_rules s s' → rules_ok s → rules_ok s'.
Proof.
  intros (Hr & Hv & Hb & Hc) [H1 H2 H3 H4].
  unfold rules_keyed, versions_ok, versions_of, bindings_ok, cache_ok, bound_rules in *.
  split; unfold rules_keyed, versions_ok, versions_of, bindings_ok, cache_ok, bound_rules;
    by rewrite ?Hr, ?Hv, ?Hb, ?Hc.
Qed.

Lemma create_keeps name type effect conds prio desc by_ s r s' :
  create_rule true name type effect conds prio desc by_ s = (Ok r, s') → rules_ok s →
  rules_ok s' ∧ t_versions (st_db s) `prefix_of` t_versions (st_db s').
Proof.
  intros (Hnew & H1 & Hr & (v & Hrec & Hv) & Hb & Hc)%create_rule_ok [Hk Hvs [Hnd Hfk] Ho].
  split; [split|by exists [v]].
  - unfold rules_keyed. rewrite Hr, fmap_app. apply NoDup_app.
    split; [done|]. split; [|apply NoDup_singleton].
    intros i (x & -> & Hx)%list_elem_of_fmap Hi%list_elem_of_singleton. by apply (Hnew x Hx).
  - by eapply versions_ok_create.
  - unfold bindings_ok. rewrite Hb, Hr. split; [done|]. intros b Hbin.
    destruct (Hfk b Hbin) as (x & ? & ?). exists x. split; [apply elem_of_app; by left|done].
  - by eapply cache_ok_cleared.
Qed.

Lemma update_keeps id by_ conds effect prio reason s new s' :
  update_rule true id by_ conds effect prio reason s = (Ok new, s') → rules_ok s →
  rules_ok s' ∧ t_versions (st_db s) `prefix_of` t_versions (st_db s').
Proof.
  intros (r & v & Hin & <- & Hnew & Hrec & _ & Hr & Hv & Hb & Hc)%update_rule_ok [Hk Hvs Hbs Ho].
  assert (Hrow : ∀ x, rl_id (updated_row (rl_id r) new x) = rl_id x)
    by (intros x; unfold updated_row; by case_match).
  split; [split|by exists [v]].
  - unfold rules_keyed. by rewrite Hr, ids_fmap.
  - apply (versions_ok_update (st_db s) _ r new v); [done|done|done|by rewrite Hnew|by rewrite Hnew|done..].
  - apply (bindings_ok_map id (st_db s)); [done|done| |by rewrite Hb, list_fmap_id].
    intros x Hx. exists (updated_row (rl_id r) new x). rewrite Hr. split; [by apply list_elem_of_fmap_2|done].
  - by eapply cache_ok_cleared.
Qed.

Lemma archive_keeps id by_ s r s' :
  archive_rule true id by_ s = (Ok r, s') → rules_ok s →
  rules_ok s' ∧ t_versions (st_db s) `prefix_of` t_versions (st_db s').
Proof.
  intros (Hr & Hv & Hb & _ & Hc)%archive_rule_ok [Hk Hvs Hbs Ho].
  assert (Hrow : ∀ x, rl_id (if by_rule id x then archived_rule x else x) = rl_id x)
    by (intros x; by case_match).
  split; [split|by rewrite Hv].
  - unfold rules_keyed. by rewrite Hr, ids_fmap.
  - eapply versions_ok_map; [|exact Hvs|exact Hr|exact Hv]. intros x v. simpl. by case_match.
  - eapply bindings_ok_map; [|exact Hbs| |exact Hb]; [intros b; simpl; by case_match|].
    intros x Hx. exists (if by_rule id x then archived_rule x else x). rewrite Hr.
    split; [by apply (list_elem_of_fmap_2 (λ x, if by_rule id x then archived_rule x else x))|done].
  - by eapply cache_ok_cleared.
Qed.

Lemma bind_keeps id type target by_ s b s' :
  bind_rule true id type target by_ s = (Ok b, s') → rules_ok s →
  rules_ok s' ∧ t_versions (st_db s) `prefix_of` t_versions (st_db s').
Proof.
  intros (Hrule & Hb1 & Hb2 & Hb3 & _ & Hnew & Hr & Hv & Hb & Hc)%bind_rule_ok [Hk Hvs Hbs Ho].
  split; [split|by rewrite Hv].
  - unfold rules_keyed. by rewrite Hr.
  - unfold versions_ok, versions_of. by rewrite Hr, Hv.
  - apply (bindings_ok_snoc (st_db s) _ b); [done|by rewrite Hb1| |done..]. by rewrite Hb1, Hb2, Hb3.
  - by eapply cache_ok_cleared.
Qed.

Lemma unbind_keeps id type target s u s' :
  unbind_rule true id type target s = (Ok u, s') → rules_ok s →
  rules_ok s' ∧ t_versions (st_db s) `prefix_of` t_versions (st_db s').
Proof.
  intros (_ & Hr & Hv & Hb & Hc)%unbind_rule_ok [Hk Hvs Hbs Ho].
  split; [split|by rewrite Hv].
  - unfold rules_keyed. by rewrite Hr.
  - unfold versions_ok, versions_of. by rewrite Hr, Hv.
  - eapply bindings_ok_map; [|exact Hbs| |exact Hb]; [intros b; simpl; by case_match|].
    intros x Hx. exists x. by rewrite Hr.
  - destruct Hc as [Hc|[_ ->]]; [by eapply cache_ok_cleared|done].
Qed.

(** Reading with a cache: only the cache changes. *)
Lemma collect_keeps l s out s' :
  collect ttl l s = (Ok out, s') → rules_ok s → rules_ok s' ∧ t_versions (st_db s') = t_versions (st_db s).
Proof.
  intros H [Hk Hvs Hbs Ho]. destruct (collect_run ttl l [] s Ho) as (o & c & Hrun & Hc & _).
  unfold collect in H. rewrite Hrun in H. injection H as <- <-. by repeat split; try apply Hvs; try apply Hbs.
Qed.

Lemma rule_op_keeps op s s' :
  run_rule_op op s = (Ok tt, s') → rules_ok s →
  rules_ok s' ∧ t_versions (st_db s) `prefix_of` t_versions (st_db s').
Proof.
  intros H Hok. destruct op; simpl in H; apply bind_ok_inv in H as (r & s1 & H & Hr);
    apply mret_ok in Hr as [_ ->].
  - by eapply create_keeps.
  - by eapply update_keeps.
  - by eapply archive_keeps.
  - by eapply bind_keeps.
  - by eapply unbind_keeps.
  - unfold evaluate in H. run_stmt.
    match goal with H : collect _ _ _ = _ |- _ => apply collect_keeps in H as [Hok1 Hv]; [|done] end.
    cbv zeta in H. repeat run_stmt.
    match goal with H : audit _ _ = _ |- _ => apply audit_ok, quiet_same_rules in H as Hs end.
    split; [by eapply rules_ok_same|]. destruct Hs as (_ & -> & _). by rewrite Hv.
  - unfold evaluate_with_explanation in H. run_stmt.
    match goal with H : collect _ _ _ = _ |- _ => apply collect_keeps in H as [Hok1 Hv]; [|done] end.
    cbv zeta in H. repeat run_stmt. split; [done|]. by rewrite Hv.
Qed.

(** *** Operations that raise

    Nothing rolls back what an operation wrote before it raised. *)

(** What holds after any exit. *)
Record rules_sound (t : tables) : Prop := {
  rs_keyed : rules_keyed t;
  rs_named : ∀ v, v ∈ t_versions t → ∃ r, r ∈ t_rules t ∧ rl_id r = rv_rule v ∧ 1 ≤ rv_version v ≤ rl_version r;
  rs_rising : ∀ id, StronglySorted lt (rv_version <$> versions_of t id);
  rs_current : ∀ r v, r ∈ t_rules t → v ∈ t_versions t → rv_rule v = rl_id r → rv_version v = rl_version r →
    records_version r v;
  rs_bindings : bindings_ok t;
}.

Definition versions_kept : relation tables := λ t t', t_versions t `prefix_of` t_versions t'.

#[local] Instance versions_kept_preorder : PreOrder versions_kept.
Proof. split; [intros t; by exists []; rewrite app_nil_r|]. intros t1 t2 t3 H1 H2. unfold versions_kept in *. by etrans. Qed.

#[local] Abbreviation rkeeps := (keeps rules_sound versions_kept).

Lemma rkeeps_same {R} (m : lp R) s : same_rules s (m s).2 → rkeeps m s.
Proof.
  intros (Hr & Hv & Hb & _) [A1 A2 A3 A4 A5]. unfold versions_kept. rewrite Hv. split; [|done].
  split; unfold rules_keyed, versions_of, bindings_ok in *; by rewrite ?Hr, ?Hv, ?Hb.
Qed.

Lemma rkeeps_reads {R} (m : lp R) s : reads m → rkeeps m s.
Proof. intros H. apply rkeeps_same. by rewrite H. Qed.

Lemma rkeeps_audit q s : rkeeps (audit q) s.
Proof. apply rkeeps_same, quiet_same_rules, audit_quiet. Qed.

Lemma rkeeps_cache {R} (m : lp R) s : st_db (m s).2 = st_db s → rkeeps m s.
Proof. intros H. by apply (keeps_same rules_sound versions_kept m s). Qed.

Lemma require_rule_reads id c : reads (require_rule id c).
Proof. unfold require_rule. apply reads_bind; [apply reads_gets|intros; apply reads_raise_if]. Qed.

Lemma rkeeps_insert_rule r s : rl_version r = 1 → rkeeps (insert_rule r) s.
Proof.
  intros Hone. unfold insert_rule.
  destruct (sql_insert_cases t_rules set_rules (λ a b, bool_decide (rl_id a = rl_id b)) "rules.id" r s) as [Hrun|[Hnew Hrun]].
  { apply rkeeps_cache. by rewrite Hrun. }
  intros [A1 A2 A3 A4 [A5 A6]]. rewrite Hrun. split; [|by exists []; rewrite app_nil_r].
  assert (Hfresh : ∀ x, x ∈ t_rules (st_db s) → rl_id x ≠ rl_id r)
    by (intros x Hx; specialize (Hnew x Hx); apply bool_decide_eq_false_1 in Hnew; congruence).
  split; cbn; try done.
  - unfold rules_keyed. cbn. rewrite fmap_app. apply NoDup_app. split_and!; [done| |apply NoDup_singleton].
    intros i (x & -> & Hx)%list_elem_of_fmap Hi%list_elem_of_singleton. by apply (Hfresh x Hx).
  - intros v Hv. destruct (A2 v Hv) as (x & Hx & ?). exists x. split; [apply elem_of_app; by left|done].
  - intros x v [Hx| ->%list_elem_of_singleton]%elem_of_app Hv Hid Hn; [by apply A4|].
    destruct (A2 v Hv) as (y & Hy & Hyid & _). exfalso. apply (Hfresh y Hy). congruence.
  - split; [done|]. intros b Hb. destruct (A6 b Hb) as (x & Hx & ?). exists x. split; [apply elem_of_app; by left|done].
Qed.

(** The version of a rule's present number, when there is none of it yet. *)
Lemma rkeeps_create_version r r0 reason by_ s :
  r0 ∈ t_rules (st_db s) → rl_id r = rl_id r0 → rl_version r = rl_version r0 → 1 ≤ rl_version r0 →
  rl_conditions r = rl_conditions r0 → rl_effect r = rl_effect r0 → rl_priority r = rl_priority r0 →
  (∀ v, v ∈ t_versions (st_db s) → rv_rule v = rl_id r0 → rv_version v < rl_version r0) →
  rkeeps (_create_version r reason by_) s.
Proof.
  intros Hr Hid Hver Hone Hcond Heff Hprio Hless. unfold _create_version.
  apply keeps_bind; [exact _|by apply rkeeps_cache|]. intros ts s1 [-> ->]%now_utc_ok.
  apply keeps_bind; [exact _|by apply rkeeps_cache|]. intros ver_id s1 [= <- <-]. cbv zeta.
  apply keeps_bind; [exact _| |intros; by apply rkeeps_cache]. unfold insert_version.
  apply keeps_bind; [exact _|apply rkeeps_reads, require_rule_reads|]. intros u s1 [-> _]%require_rule_ok.
  match goal with |- context [sql_insert t_versions set_versions ?cl ?c ?v] =>
    set (x := v); destruct (sql_insert_cases t_versions set_versions cl c x (put_next (S (st_next s)) s)) as [Hrun|[_ Hrun]] end;
    [apply rkeeps_cache; by rewrite Hrun|].
  intros [A1 A2 A3 A4 A5]. rewrite Hrun. split; [|by exists [x]]. split; [exact A1| | | |exact A5].
  - intros v [Hv| ->%list_elem_of_singleton]%elem_of_app; [by apply A2|]. exists r0. cbn. split_and!; [done|congruence|lia|lia].
  - intros id. match goal with |- context [versions_of ?t' id] => rewrite (versions_of_snoc (st_db s) t' id x eq_refl) end.
    rewrite fmap_app. case_decide as Heq; [|rewrite app_nil_r; apply A3].
    apply StronglySorted_app_2; [|apply A3|repeat constructor]. intros n m Hn ->%list_elem_of_singleton.
    apply list_elem_of_fmap in Hn as (v & -> & [Hvid Hv]%list_elem_of_filter). cbn. rewrite Hver. apply Hless; [done|].
    cbn in Heq. congruence.
  - intros y v Hy [Hv| ->%list_elem_of_singleton]%elem_of_app Hvid Hn; [by apply A4|].
    assert (y = r0) as -> by (apply (rules_keyed_eq (st_db s)); [done..|cbn in Hvid; congruence]).
    unfold records_version. cbn. by split_and!.
Qed.

(** Rows of rules change: what they say only with a greater number. *)
Lemma rkeeps_update_rules (p : Rule → bool) f s :
  (∀ r, r ∈ t_rules (st_db s) → p r = true → rl_id (f r) = rl_id r ∧
    (rl_version r < rl_version (f r) ∨
     rl_version (f r) = rl_version r ∧ rl_conditions (f r) = rl_conditions r ∧ rl_effect (f r) = rl_effect r ∧
     rl_priority (f r) = rl_priority r)) →
  rkeeps (sql_update t_rules set_rules p f) s.
Proof.
  intros Hf [A1 A2 A3 A4 [A5 A6]]. split; [|by exists []; rewrite app_nil_r]. set (g := λ r, if p r then f r else r).
  assert (Hg : ∀ r, r ∈ t_rules (st_db s) → rl_id (g r) = rl_id r ∧
    (rl_version r < rl_version (g r) ∨
     rl_version (g r) = rl_version r ∧ rl_conditions (g r) = rl_conditions r ∧ rl_effect (g r) = rl_effect r ∧
     rl_priority (g r) = rl_priority r)).
  { intros r Hr. unfold g. destruct (p r) eqn:Hp; [by apply Hf|]. split; [done|by right]. }
  assert (Hin : ∀ r, r ∈ t_rules (st_db s) → g r ∈ g <$> t_rules (st_db s)) by (intros; by apply list_elem_of_fmap_2).
  split; cbn; fold g.
  - unfold rules_keyed. cbn. fold g. rewrite <-list_fmap_compose.
    assert (rl_id ∘ g <$> t_rules (st_db s) = rl_id <$> t_rules (st_db s)) as ->; [|done].
    apply list_fmap_ext. intros i r Hr%list_elem_of_lookup_2. by apply Hg.
  - intros v Hv. destruct (A2 v Hv) as (r & Hr & Hid & Hn). exists (g r). destruct (Hg r Hr) as [Hgid Hgv].
    split_and!; [by apply Hin|congruence|lia|]. destruct Hgv as [?|[-> _]]; lia.
  - exact A3.
  - intros r' v (r & -> & Hr)%list_elem_of_fmap Hv Hid Hn. destruct (Hg r Hr) as [Hgid Hgv]. rewrite Hgid in Hid.
    destruct (A2 v Hv) as (y & Hy & Hyid & Hbound).
    assert (y = r) as -> by (apply (rules_keyed_eq (st_db s)); [done..|congruence]).
    destruct Hgv as [Hlt|(Hver & Hc & He & Hp)]; [lia|]. rewrite Hver in Hn.
    destruct (A4 r v Hr Hv Hid Hn) as (B1 & B2 & B3 & B4 & B5). unfold records_version. rewrite Hgid, Hver, Hc, He, Hp. done.
  - split; [done|]. intros b Hb. destruct (A6 b Hb) as (r & Hr & Hid). exists (g r). split; [by apply Hin|].
    destruct (Hg r Hr) as [-> _]. done.
Qed.

Lemma rkeeps_update_bindings (p : RuleBinding → bool) s : rkeeps (sql_update t_bindings set_bindings p archived_binding) s.
Proof.
  intros [A1 A2 A3 A4 A5]. split; [|by exists []; rewrite app_nil_r]. split; try done.
  eapply (bindings_ok_map (λ b, if p b then archived_binding b else b) (st_db s)); [|done| |done].
  - intros b. by destruct (p b).
  - intros r Hr. by exists r.
Qed.

Lemma rkeeps_insert_binding b s : rkeeps (insert_binding b) s.
Proof.
  unfold insert_binding. apply keeps_bind; [exact _|apply rkeeps_reads, require_rule_reads|].
  intros u s1 [-> Hrule]%require_rule_ok.
  match goal with |- context [sql_insert t_bindings set_bindings ?cl ?c b] =>
    destruct (sql_insert_cases t_bindings set_bindings cl c b s) as [Hrun|[Hnew Hrun]] end;
    [apply rkeeps_cache; by rewrite Hrun|].
  intros [A1 A2 A3 A4 A5]. rewrite Hrun. split; [|by exists []; rewrite app_nil_r]. split; try done.
  eapply (bindings_ok_snoc (st_db s) _ b); [done|done| |done|done].
  intros x Hx (Hx1 & Hx2 & Hx3). specialize (Hnew x Hx). apply orb_false_iff in Hnew as [_ Hnew].
  by rewrite !bool_decide_eq_true_2 in Hnew.
Qed.

Lemma rkeeps_invalidate shared s : rkeeps (invalidate_shared shared) s.
Proof. apply rkeeps_cache. by destruct shared. Qed.

(** What is left of an operation once its rows are written. *)
Lemma rkeeps_finish {R} q shared (x : R) s : rkeeps (audit q ;; invalidate_shared shared ;; mret x) s.
Proof.
  apply keeps_bind; [exact _|apply rkeeps_audit|]. intros _ s1 _.
  apply keeps_bind; [exact _|apply rkeeps_invalidate|]. intros _ s2 _. by apply rkeeps_cache.
Qed.

Lemma rule_or_raise_reads id : reads (rule_or_raise id).
Proof. unfold rule_or_raise. apply reads_bind; [apply fetch_one_reads|]. intros [r|]; [apply reads_ret|apply reads_raise]. Qed.

Lemma rkeeps_assuming {R} (m : lp R) s : (rules_sound (st_db s) → rkeeps m s) → rkeeps m s.
Proof. intros H Hs. by apply H. Qed.

Lemma rkeeps_create shared name type effect conds prio desc by_ s :
  rkeeps (create_rule shared name type effect conds prio desc by_) s.
Proof.
  unfold create_rule. apply keeps_bind; [exact _|by apply rkeeps_cache|]. intros ts s1 [-> ->]%now_utc_ok.
  apply keeps_bind; [exact _|by apply rkeeps_cache|]. intros rid s1 [= <- <-]. cbv zeta. set (r := Build_Rule _ _ _ _ _ _ _ _ _ _ _).
  apply rkeeps_assuming. intros Hs. apply keeps_bind; [exact _|by apply rkeeps_insert_rule|].
  intros u s1 [Hnew ->]%sql_insert_ok. cbn [put_db put_next st_db] in *.
  apply keeps_bind; [exact _| |intros v s2 _; apply rkeeps_finish].
  apply (rkeeps_create_version r r); try done.
  - cbn. apply elem_of_app. right. left.
  - intros v Hv Hid. destruct (rs_named _ Hs v Hv) as (x & Hx & Hxid & _). specialize (Hnew x Hx).
    apply bool_decide_eq_false_1 in Hnew. congruence.
Qed.

Lemma rkeeps_update shared id by_ conds effect prio reason s : rkeeps (update_rule shared id by_ conds effect prio reason) s.
Proof.
  unfold update_rule. apply rkeeps_assuming. intros Hs.
  apply keeps_bind; [exact _|apply rkeeps_reads, rule_or_raise_reads|]. intros r s1 (-> & Hr & Hid)%rule_or_raise_ok.
  cbv zeta. cbn [rl_conditions rl_effect rl_priority rl_version rl_lifecycle change_rule].
  assert (Honly : ∀ x, x ∈ t_rules (st_db s) → by_rule id x = true → x = r).
  { intros x Hx Hb%bool_decide_eq_true_1. apply (rules_keyed_eq (st_db s)); [apply Hs|done..|congruence]. }
  apply keeps_bind; [exact _| |].
  { apply rkeeps_update_rules. intros x Hx Hp. rewrite (Honly x Hx Hp). cbn. split; [done|left; lia]. }
  intros u s1 [= _ <-]. apply keeps_bind; [exact _| |intros v s2 _; apply rkeeps_finish].
  set (f := λ x : Rule, change_rule (default (rl_conditions r) conds) (default (rl_effect r) effect)
    (default (rl_priority r) prio) (S (rl_version r)) (rl_lifecycle x) x).
  apply (rkeeps_create_version _ (f r)); try done.
  - cbn. apply list_elem_of_fmap. exists r. fold f. unfold by_rule. by rewrite bool_decide_eq_true_2.
  - cbn. lia.
  - cbn. intros v Hv Hvid. destruct (rs_named _ Hs v Hv) as (x & Hx & Hxid & Hn).
    assert (x = r) as -> by (apply (rules_keyed_eq (st_db s)); [apply Hs|done..|congruence]). lia.
Qed.

Lemma rkeeps_archive shared id by_ s : rkeeps (archive_rule shared id by_) s.
Proof.
  unfold archive_rule. apply keeps_bind; [exact _|apply rkeeps_reads, rule_or_raise_reads|]. intros r s1 _.
  apply keeps_bind; [exact _| |intros _ s2 _].
  { apply rkeeps_update_rules. intros x _ _. split; [done|by right]. }
  apply keeps_bind; [exact _|apply rkeeps_update_bindings|intros _ s3 _; apply rkeeps_finish].
Qed.

Lemma rkeeps_bind_rule shared id type target by_ s : rkeeps (bind_rule shared id type target by_) s.
Proof.
  unfold bind_rule. apply keeps_bind; [exact _|by apply rkeeps_cache|]. intros ts s1 _.
  apply keeps_bind; [exact _|by apply rkeeps_cache|]. intros bid s2 _. cbv zeta.
  apply keeps_bind; [exact _|apply rkeeps_insert_binding|]. intros _ s3 _.
  apply keeps_bind; [exact _|apply rkeeps_invalidate|]. intros _ s4 _. by apply rkeeps_cache.
Qed.

Lemma rkeeps_unbind shared id type target s : rkeeps (unbind_rule shared id type target) s.
Proof.
  unfold unbind_rule. apply keeps_bind; [exact _|apply rkeeps_reads, fetch_one_reads|]. intros [b|] s1 _; [|by apply rkeeps_cache].
  apply keeps_bind; [exact _|apply rkeeps_update_bindings|]. intros _ s2 _.
  apply keeps_bind; [exact _|apply rkeeps_invalidate|]. intros _ s3 _. by apply rkeeps_cache.
Qed.

Lemma rkeeps_off_trail {R} (m : lp R) s : respects off_trail m → rkeeps m s.
Proof.
  intros H [A1 A2 A3 A4 A5]. destruct (H s) as [Hdb _].
  assert (Hr : t_rules (st_db (m s).2) = t_rules (st_db s)) by exact (f_equal t_rules Hdb).
  assert (Hv : t_versions (st_db (m s).2) = t_versions (st_db s)) by exact (f_equal t_versions Hdb).
  assert (Hb : t_bindings (st_db (m s).2) = t_bindings (st_db s)) by exact (f_equal t_bindings Hdb).
  unfold versions_kept. rewrite Hv. split; [|done].
  split; unfold rules_keyed, versions_of, bindings_ok in *; by rewrite ?Hr, ?Hv, ?Hb.
Qed.

Lemma collect_off_trail l : respects off_trail (collect ttl l).
Proof. unfold collect. respects_step. respects_step; [apply rules_for_target_off_trail|respects_step]. Qed.

Lemma rule_op_sound op s : rkeeps (run_rule_op op) s.
Proof.
  destruct op; cbn [run_rule_op]; (apply keeps_bind; [exact _| |intros; by apply rkeeps_cache]).
  - apply rkeeps_create.
  - apply rkeeps_update.
  - apply rkeeps_archive.
  - apply rkeeps_bind_rule.
  - apply rkeeps_unbind.
  - unfold evaluate. apply keeps_bind; [exact _|apply rkeeps_off_trail, collect_off_trail|]. intros l s1 _. cbv zeta.
    apply keeps_bind; [exact _|apply rkeeps_audit|]. intros _ s2 _. by apply rkeeps_cache.
  - unfold evaluate_with_explanation. apply keeps_bind; [exact _|apply rkeeps_off_trail, collect_off_trail|]. intros l s1 _. cbv zeta.
    by apply rkeeps_cache.
Qed.

Lemma seq_sorted_lt a n : StronglySorted lt (seq a n).
Proof.
  revert a. induction n as [|n IH]; intros a; constructor; [apply IH|]. apply Forall_forall. intros x Hx%elem_of_seq. lia.
Qed.

Lemma rules_ok_sound s : rules_ok s → rules_sound (st_db s).
Proof.
  intros [Hk [Hfk Hv] Hb _]. split; [done| | | |done].
  - intros v Hvin. destruct (Hfk v Hvin) as (r & Hr & Hid). exists r. split_and!; [done|done|..];
      destruct (Hv r Hr) as [Hseq _]; assert (Hin : rv_version v ∈ rv_version <$> versions_of (st_db s) (rl_id r))
        by (apply list_elem_of_fmap_2, list_elem_of_filter; by split);
      rewrite Hseq in Hin; apply elem_of_seq in Hin; lia.
  - intros id. destruct (decide (id ∈ rl_id <$> t_rules (st_db s))) as [Hin|Hout].
    + apply list_elem_of_fmap in Hin as (r & -> & Hr). destruct (Hv r Hr) as [-> _]. apply seq_sorted_lt.
    + assert (versions_of (st_db s) id = []) as ->; [|constructor]. apply filter_nil_iff. intros v Hvin Hid. apply Hout.
      destruct (Hfk v Hvin) as (r & Hr & Hrid). rewrite <-Hid, <-Hrid. by apply list_elem_of_fmap_2.
  - intros r v Hr Hvin Hid Hn. destruct (Hv r Hr) as (Hseq & w & Hw & Hrec).
    assert (v = w) as ->; [|done].
    apply (NoDup_fmap_inj_in rv_version (versions_of (st_db s) (rl_id r))); [rewrite Hseq; apply NoDup_seq|..].
    + by apply list_elem_of_filter.
    + apply list_elem_of_filter. split; [apply Hrec|done].
    + destruct Hrec as (_ & -> & _). done.
Qed.

Lemma changed_cache op s u s' : changes_rules op = true → run_rule_op op s = (Ok u, s') → cache_ok s'.
Proof.
  intros Hop H. destruct op; try done; cbn [run_rule_op] in H; apply bind_ok_inv in H as (r & s1 & H & Hr);
    apply mret_ok in Hr as [_ ->]; apply cache_ok_cleared with s.
  - by apply create_rule_ok in H as (_ & _ & _ & _ & _ & H).
  - by apply update_rule_ok in H as (r0 & v & _ & _ & _ & _ & _ & _ & _ & _ & H).
  - by apply archive_rule_ok in H as (_ & _ & _ & _ & H).
  - by apply bind_rule_ok in H as (_ & _ & _ & _ & _ & _ & _ & _ & _ & H).
Qed.

(** C12: What the rule layer's states keep, over every sequence of its operations.
    (1) However the operations end: rule ids are unique; a version names an existing
    rule and has a number between 1 and the rule's current one; the versions of a rule
    come with rising numbers, and one with the current number says what the rule says;
    no version is ever changed or dropped; a rule is bound to a target at most once and
    bindings name existing rules. (2) As long as the operations return: the versions of
    a rule are moreover 1, 2, ... without gap up to the current one, and a cache shared
    with the store never holds stale rules. (3) An operation that raised after its first
    write may leave a rule without its version, or a stale cache; whatever came before,
    the next change of the rules that returns leaves a cache that is not stale. *)
Theorem rules_reachable_ok s s' :
  (rtc rule_step s s' → rules_sound (st_db s) →
    rules_sound (st_db s') ∧ t_versions (st_db s) `prefix_of` t_versions (st_db s')) ∧
  (rtc rule_step_returned s s' → rules_ok s → rules_ok s') ∧
  (∀ op s'', changes_rules op = true → run_rule_op op s' = (Ok tt, s'') → cache_ok s'').
Proof.
  split_and!.
  - induction 1 as [s|s s1 s2 Hstep _ IH]; intros Hs; [done|].
    assert (rules_sound (st_db s1) ∧ versions_kept (st_db s) (st_db s1)) as [Hs1 Hpre].
    { destruct Hstep as [op s|s s1 Hsame]; [by apply rule_op_sound|].
      by apply (rkeeps_same (λ _, (Ok tt, s1)) s Hsame). }
    destruct (IH Hs1) as [Hs2 Hpre2]. split; [done|]. by etrans.
  - induction 1 as [s|s s1 s2 Hstep _ IH]; intros Hok; [done|]. apply IH.
    destruct Hstep as [op s s1 Hrun|s s1 Hsame]; [by eapply rule_op_keeps|by eapply rules_ok_same].
  - intros op s'' Hop H. by eapply changed_cache.
Qed.

(** Updating a rule appends a version and rewrites nothing else: a returning
    update gives the old rule with exactly the given parts replaced and its
    version number incremented, makes that the row of this rule alone, and adds
    one version row that records it with the reason given. *)
Theorem update_rule_versioned shared id by_ conds effect prio reason s new s' :
  rules_keyed (st_db s) →
  update_rule shared id by_ conds effect prio reason s = (Ok new, s') →
  ∃ old v, old ∈ t_rules (st_db s) ∧ rl_id old = id ∧
    rl_conditions new = default (rl_conditions old) conds ∧
    rl_effect new = default (rl_effect old) effect ∧
    rl_priority new = default (rl_priority old) prio ∧
    rl_version new = S (rl_version old) ∧
    (∀ r, r ∈ t_rules (st_db s') ↔ r = new ∨ r ∈ t_rules (st_db s) ∧ rl_id r ≠ id) ∧
    t_versions (st_db s') = t_versions (st_db s) ++ [v] ∧ records_version new v ∧
    rv_reason v = reason ∧ t_bindings (st_db s') = t_bindings (st_db s).
Proof.
  intros Hk (r & v & Hin & <- & Hnew & Hrec & Hre & Hr & Hv & Hb & _)%update_rule_ok.
  assert (Hself : updated_row (rl_id r) new r = new).
  { unfold updated_row, by_rule. rewrite bool_decide_eq_true_2, Hnew by done. by destruct r. }
  exists r, v. rewrite Hnew at 1 2 3 4. split_and!; [done..| |done|done|done|done].
  intros x. rewrite Hr, list_elem_of_fmap. split.
  - intros (y & -> & Hy). destruct (decide (rl_id y = rl_id r)) as [Heq|Hne].
    + left. by rewrite (rules_keyed_eq _ _ _ Hk Hy Hin Heq).
    + right. unfold updated_row, by_rule. by rewrite bool_decide_eq_false_2.
  - intros [->|[Hx Hne]]; [by exists r|]. exists x. split; [|done].
    unfold updated_row, by_rule. by rewrite bool_decide_eq_false_2.
Qed.

(** A binding that was removed can never come back: unbind_rule archives the
    row, the unique key still holds it, and every later bind_rule of the same
    rule to the same target raises IntegrityError and writes nothing. *)
Theorem rebind_after_unbind_fails shared id type target s s' :
  unbind_rule shared id type target s = (Ok true, s') →
  ∀ by_, (∃ r, r ∈ t_rules (st_db s) ∧ rl_id r = id) →
  ∃ s'', bind_rule shared id type target by_ s' = (Raise (IntegrityError "rule_bindings"), s'') ∧
    st_db s'' = st_db s'.
Proof.
  intros (Hu & Hr & _ & Hb & _)%unbind_rule_ok by_ (r & Hrin & Hid).
  destruct (proj1 Hu eq_refl) as (b & Hbin & Hbt).
  exists (put_next (S (st_next s')) s'). split; [|done].
  unfold bind_rule, insert_binding, require_rule, sql_insert, now_utc, generate_id, gets, modify,
    mbind, prog_bind, mret, prog_ret.
  cbn [st_db put_next st_next rb_rule].
  assert (existsb (by_rule id) (t_rules (st_db s')) = true) as ->.
  { apply existsb_exists. exists r. rewrite Hr, <-list_elem_of_In. split; [done|].
    by apply bool_decide_eq_true_2. }
  cbn [negb raise_if mret prog_ret]. match goal with |- context [existsb ?f ?l] => assert (existsb f l = true) as -> end; [|done].
  apply existsb_exists. exists (archived_binding b). rewrite <-list_elem_of_In. cbn [st_db put_next]. rewrite Hb. split.
  - apply list_elem_of_fmap. exists b. by rewrite Hbt.
  - unfold binds in Hbt. rewrite !andb_true_iff in Hbt. destruct Hbt as [[[H1 H2] H3] _].
    apply bool_decide_eq_true_1 in H1, H2, H3. subst.
    apply orb_true_iff. right. by rewrite !bool_decide_eq_true_2.
Qed.
End Machine.

(** ** Compiled rule sets *)

Section CompilerTheory.
Context `{host : !Host}.

Definition entries_of (rs : CompiledRuleSet) (type : BindingTargetType) (target : string)
  : list (Rule * RuleBinding) :=
  dict_get target [] (dict_get (target_type_value type) [] (_index rs)).

Lemma dict_get_upsert {V} k k' (d : V) f l :
  dict_get k d (upsert k' d f l) = if decide (k = k') then f (dict_get k d l) else dict_get k d l.
Proof.
  induction l as [|[k1 v] l IH]; unfold dict_get in *; simpl.
  - case_bool_decide; case_decide; simpl; congruence.
  - destruct (decide (k1 = k')) as [->|Hne].
    + rewrite bool_decide_eq_true_2 by done. simpl. case_bool_decide; case_decide; simpl; congruence.
    + rewrite bool_decide_eq_false_2 by done. simpl. case_bool_decide; [|done].
      case_decide; congruence.
Qed.

#[local] Instance target_type_value_inj : Inj (=) (=) target_type_value.
Proof. by intros [] []. Qed.

Definition targeted (type : BindingTargetType) (target : string) (b : RuleBinding) : bool :=
  bool_decide (rb_target_type b = type) && bool_decide (rb_target b = target).

Lemma entries_add rs r b type target :
  entries_of (add_rule rs r b) type target =
    entries_of rs type target ++ (if targeted type target b then [(r, b)] else []).
Proof.
  unfold entries_of, add_rule, targeted. cbn [_index]. rewrite dict_get_upsert.
  destruct (decide (rb_target_type b = type)) as [<-|Hne].
  - rewrite decide_True, dict_get_upsert, (bool_decide_eq_true_2 (_ = rb_target_type b)) by done.
    simpl. case_decide; case_bool_decide; try congruence. by rewrite app_nil_r.
  - rewrite decide_False by (intros ?%(inj target_type_value); congruence).
    rewrite bool_decide_eq_false_2 by done. by rewrite app_nil_r.
Qed.

(** The rules a list of bindings brings to a target. *)
Definition brought (rows : list Rule) (type : BindingTargetType) (target : string)
  (b : RuleBinding) : option Rule :=
  if targeted type target b then find (by_rule (rb_rule b)) rows else None.

Lemma compile_entries rows bs type target rs :
  (entries_of (foldl (λ rs b, match find (by_rule (rb_rule b)) rows with
                              | Some r => add_rule rs r b
                              | None => rs
                              end) rs bs) type target).*1
  = (entries_of rs type target).*1 ++ omap (brought rows type target) bs.
Proof.
  revert rs. induction bs as [|b bs IH]; intros rs; simpl; [by rewrite app_nil_r|].
  rewrite IH. unfold brought at 2. destruct (find (by_rule (rb_rule b)) rows) as [r|] eqn:Hf.
  - rewrite entries_add, fmap_app, <-app_assoc. f_equal. by destruct (targeted type target b).
  - by destruct (targeted type target b).
Qed.

Lemma find_none_ids id (rows : list Rule) :
  id ∉ rl_id <$> rows → find (by_rule id) rows = None.
Proof.
  induction rows as [|r rows IH]; [done|]. rewrite fmap_cons, not_elem_of_cons. intros [Hne Hin].
  simpl. unfold by_rule at 1. rewrite bool_decide_eq_false_2 by congruence. by apply IH.
Qed.

(** Equal lists are permutations. *)
Ltac perm_eq := match goal with |- ?a ≡ₚ ?b => cut (a = b); [by intros ->|] end.

(** A nested loop over rules and their bindings, turned inside out. *)
Lemma join_perm (rows : list Rule) (P : RuleBinding → Prop) `{∀ b, Decision (P b)} bs :
  NoDup (rl_id <$> rows) →
  (r ← rows; (λ _, r) <$> filter (λ b, rb_rule b = rl_id r ∧ P b) bs) ≡ₚ
    omap (λ b, if decide (P b) then find (by_rule (rb_rule b)) rows else None) bs.
Proof.
  intros Hnd. induction bs as [|b bs IH].
  { simpl. induction rows; [done|]. simpl in *. apply IHrows. by inversion Hnd. }
  trans (option_list (if decide (P b) then find (by_rule (rb_rule b)) rows else None) ++
    (r ← rows; (λ _, r) <$> filter (λ b, rb_rule b = rl_id r ∧ P b) bs)).
  - clear IH. induction rows as [|r rows IH]; [by case_decide|].
    rewrite fmap_cons in Hnd. apply NoDup_cons in Hnd as [Hr Hnd]. specialize (IH Hnd).
    rewrite !bind_cons, filter_cons. cbn [find]. unfold by_rule at 1.
    destruct (decide (P b)) as [HP|HP].
    + destruct (decide (rb_rule b = rl_id r)) as [Heq|Hne].
      * rewrite decide_True, bool_decide_eq_true_2 by auto. simpl. constructor.
        apply Permutation_app_head. etrans; [exact IH|].
        rewrite find_none_ids; [done|]. congruence.
      * rewrite decide_False, bool_decide_eq_false_2 by naive_solver.
        etrans; [apply Permutation_app_head, IH|]. apply Permutation_app_swap_app.
    + rewrite decide_False by naive_solver.
      etrans; [apply Permutation_app_head, IH|]. apply Permutation_app_swap_app.
  - rewrite IH. simpl. case_decide; [|done]. by destruct (find _ rows).
Qed.


Definition in_filter (scope_id : option string) (b : RuleBinding) : bool :=
  match scope_id with
  | None => true
  | Some sc => bool_decide (rb_target_type b = BT_SCOPE) && bool_decide (rb_target b = sc)
  end.

Definition compiled_set (rows : list Rule) (bs : list RuleBinding) : CompiledRuleSet :=
  foldl (λ rs b, match find (by_rule (rb_rule b)) rows with
                 | Some r => add_rule rs r b
                 | None => rs
                 end) empty_ruleset bs.

Lemma compile_run type scope_id s :
  let rows := sort_by by_priority
    (scan (filter (λ r, rule_active r && filter_opt type (rule_type_value (rl_type r)) = true)
      (t_rules (st_db s)))) in
  let bs := filter (λ b, bool_decide (rb_rule b ∈ (rl_id <$> rows)) && binding_active b &&
    in_filter scope_id b = true) (t_bindings (st_db s)) in
  ∃ l, l ≡ₚ bs ∧ compile_rules type scope_id s = (Ok (compiled_set rows l), s).
Proof.
  intros rows bs. destruct rows as [|r rows'] eqn:Hrows.
  - exists []. split.
    + assert (bs = []) as ->; [|done]. apply filter_nil_iff. intros b _.
      rewrite bool_decide_eq_false_2 by apply not_elem_of_nil. done.
    + unfold compile_rules, select_sorted, gets, mbind, prog_bind. subst rows. by rewrite Hrows.
  - exists (scan bs). split; [apply scan_perm|].
    unfold compile_rules, select_sorted, gets, mbind, prog_bind. subst rows. by rewrite Hrows.
Qed.

Definition compiled_rule (type : option string) (r : Rule) : Prop :=
  filter_opt type (rule_type_value (rl_type r)) = true.
#[local] Instance compiled_rule_dec type r : Decision (compiled_rule type r) := ltac:(unfold compiled_rule; apply _).

(** The bindings a compiled set was built from, seen from one target. *)
Definition selected (scope_id : option string) (t : BindingTargetType) (g : string) (b : RuleBinding)
  : Prop := targeted t g b = true ∧ binding_active b = true ∧ in_filter scope_id b = true.
#[local] Instance selected_dec sc t g b : Decision (selected sc t g b) := ltac:(unfold selected; apply _).

Lemma omap_cons_eq {A B} (f : A → option B) x (l : list A) :
  omap f (x :: l) = match f x with Some y => y :: omap f l | None => omap f l end.
Proof. reflexivity. Qed.

Lemma brought_selected (rows : list Rule) sc t g (bs : list RuleBinding) :
  omap (brought rows t g) (filter (λ b, bool_decide (rb_rule b ∈ (rl_id <$> rows)) &&
    binding_active b && in_filter sc b = true) bs) =
  omap (λ b, if decide (selected sc t g b) then find (by_rule (rb_rule b)) rows else None) bs.
Proof.
  induction bs as [|b bs IH]; [done|]. rewrite filter_cons, (omap_cons_eq _ b bs).
  case_decide as Hb.
  - rewrite omap_cons_eq, IH. rewrite !andb_true_iff in Hb. destruct Hb as [[_ Ha] Hf].
    unfold brought at 1. destruct (targeted t g b) eqn:Ht.
    + by rewrite decide_True.
    + rewrite decide_False; [done|]. intros (? & _). congruence.
  - destruct (decide (selected sc t g b)) as [Hs|Hs]; [|exact IH]. rewrite IH.
    rewrite find_none_ids; [done|]. intros Hin. apply Hb. destruct Hs as (_ & -> & ->).
    by rewrite bool_decide_eq_true_2.
Qed.

Lemma filter_bind_const {Y} (Q : Rule → Prop) `{∀ r, Decision (Q r)} (F : Rule → list Y) (l : list Rule) :
  filter Q (r ← l; (λ _, r) <$> F r) = (r ← filter Q l; (λ _, r) <$> F r).
Proof.
  induction l as [|r l IH]; [done|]. rewrite bind_cons, filter_app, IH, filter_cons.
  case_decide as Hr; [rewrite bind_cons; f_equal|rewrite <-(app_nil_l (_ ≫= _)) at 2; f_equal].
  - apply filter_all_iff. by intros x (y & -> & _)%list_elem_of_fmap.
  - apply filter_nil_iff. by intros x (y & -> & _)%list_elem_of_fmap.
Qed.

(** C13: The compiled index answers like the database: compiling never fails or
    writes, and looking a target up in the compiled set gives, highest priority
    first, exactly the rules that are bound to it, each as often as it is bound,
    of the rule type asked for; with a scope filter only that scope's targets
    have rules. *)
Theorem compiled_lookup_exact type scope_id s :
  rules_keyed (st_db s) →
  ∃ rs, compile_rules type scope_id s = (Ok rs, s) ∧
    ∀ t g,
      StronglySorted (leb_rel by_priority) (lookup rs t g) ∧
      lookup rs t g ≡ₚ
        (if decide (scope_id = None ∨ (t = BT_SCOPE ∧ scope_id = Some g))
         then filter (compiled_rule type) (bound_rules (st_db s) t g) else []).
Proof.
  intros Hkey. destruct (compile_run type scope_id s) as (l & Hl & Hrun).
  set (rows := sort_by by_priority _) in *. exists (compiled_set rows l). split; [exact Hrun|].
  intros t g. unfold lookup. fold (entries_of (compiled_set rows l) t g).
  split; [apply sort_by_sorted; [apply by_priority_total|apply by_priority_trans]|].
  assert (Hrows : rows ≡ₚ filter (compiled_rule type) (filter (λ r, rule_active r = true) (t_rules (st_db s)))).
  { unfold rows. rewrite sort_by_perm, scan_perm, list_filter_filter. perm_eq. apply list_filter_iff.
    intros r. unfold compiled_rule. rewrite andb_true_iff. tauto. }
  rewrite sort_by_perm. unfold compiled_set. rewrite compile_entries.
  change ((entries_of empty_ruleset t g).*1) with (@nil Rule). rewrite app_nil_l.
  rewrite Hl, brought_selected, <-join_perm.
  2: { rewrite Hrows. by do 2 apply NoDup_fmap_filter. }
  rewrite Hrows. unfold bound_rules. case_decide as Hs.
  - perm_eq. rewrite <-filter_bind_const. f_equal. apply list_bind_ext; [|done]. intros r. f_equal.
    apply list_filter_iff. intros b. unfold selected, targets, targeted, in_filter.
    rewrite !andb_true_iff. destruct scope_id as [sc|]; [|tauto].
    rewrite !andb_true_iff, !bool_decide_eq_true. naive_solver.
  - perm_eq. rewrite <-filter_bind_const. apply filter_nil_iff. intros x (r & Hx & _)%list_elem_of_bind.
    apply list_elem_of_fmap in Hx as (b & _ & [[_ Hb] _]%list_elem_of_filter).
    exfalso. apply Hs. unfold selected, targeted, in_filter in Hb. destruct scope_id as [sc|]; [|by left].
    rewrite !andb_true_iff, !bool_decide_eq_true in Hb. right. destruct Hb as ([<- <-] & _ & -> & ->). done.
Qed.
End CompilerTheory.
