(* ===== verification/RuleClients.v ===== *)
(** * Legacy v1: the clients of rules (rules/quotas.py, rate_limit.py, features.py, redaction.py)

    Checkers built over a list of rules: quotas on row counts, rate limits over
    the audit trail, feature flags with a deterministic rollout, and the masking
    of fields.  A configuration value whose JSON type is not the one
    conditions.py validates raises here. *)

From Stdlib Require Import Ascii.
From S2P Require Import Prelude LegacyTypes Schema Json Trail Rules.

(** ** Reading configurations *)

Definition no_type {X} (k : string) : outcome X := Raise (TypeError k).

(** d[k] and d.get(k, default), for the type that is expected. *)
Definition get_int (d : jdict) (k : string) : outcome Z :=
  match jget d k with Some (JVint z) => Ok z | Some _ => no_type k | None => Raise (KeyError k) end.
Definition get_str (d : jdict) (k : string) : outcome string :=
  match jget d k with Some (JVstr s) => Ok s | Some _ => no_type k | None => Raise (KeyError k) end.
Definition get_int_or (d : jdict) (k : string) (dflt : Z) : outcome Z :=
  match jget d k with Some (JVint z) => Ok z | Some _ => no_type k | None => Ok dflt end.
Definition get_str_or (d : jdict) (k dflt : string) : outcome string :=
  match jget d k with Some (JVstr s) => Ok s | Some _ => no_type k | None => Ok dflt end.
Definition get_bool_or (d : jdict) (k : string) (dflt : bool) : outcome bool :=
  match jget d k with Some (JVbool b) => Ok b | Some _ => no_type k | None => Ok dflt end.
Definition get_str_opt (d : jdict) (k : string) : outcome (option string) :=
  match jget d k with
  | Some (JVstr s) => Ok (Some s) | Some JVnull | None => Ok None | Some _ => no_type k
  end.

(** [rule.conditions.get(k)]: the nested dict, None when there is none. *)
Definition section (conds : jdict) (k : string) : outcome (option jdict) :=
  match jget conds k with
  | Some (JVdict d) => Ok (Some d) | Some JVnull | None => Ok None | Some _ => Raise (AttributeError "get")
  end.

(** The rules a checker keeps. *)
Definition of_type (t : RuleType) (rules : list Rule) : list Rule :=
  filter (λ r, rl_type r = t ∧ rule_active r = true) rules.

(** The condition [k] of a rule, when there is one, accepts the value. *)
Definition admits (conds : jdict) (k v : string) : bool :=
  match jget conds k with Some expected => expects expected v | None => true end.

(** ** Quotas *)

Record QuotaConfig := {
  max_count : Z; count_table : string; count_column : string; count_value : string;
  scope_column : option string;
}.

Definition _ALLOWED_TABLES : list string := [
  "scoped_objects"; "scopes"; "environments"; "secrets"; "contracts"; "rules"; "integrations"; "plugins"].

Definition _ALLOWED_COLUMNS : list string := [
  "id"; "object_type"; "owner_id"; "registry_entry_id"; "current_version"; "created_at"; "lifecycle";
  "name"; "description"; "parent_scope_id"; "scope_id"; "classification"; "state"; "ephemeral"; "kind";
  "integration_type"; "role"].

(** The object type a quota counts by default: the condition's, or its first. *)
Definition default_value (conds : jdict) : outcome string :=
  match jget conds "object_type" with
  | Some (JVlist (JVstr s :: _)) | Some (JVstr s) => Ok s
  | Some (JVlist []) | Some JVnull | None => Ok ""
  | Some _ => no_type "object_type"
  end.

Definition quota_from_rule (r : Rule) : outcome (option QuotaConfig) :=
  match section (rl_conditions r) "quota" with
  | Raise e => Raise e
  | Ok None => Ok None
  | Ok (Some cfg) =>
      table ← get_str_or cfg "count_table" "scoped_objects";
      column ← get_str_or cfg "count_column" "object_type";
      scope_col ← get_str_opt cfg "scope_column";
      if negb (bool_decide (table ∈ _ALLOWED_TABLES)) || negb (bool_decide (column ∈ _ALLOWED_COLUMNS))
         || match scope_col with Some c => negb (bool_decide (c ∈ _ALLOWED_COLUMNS)) | None => false end
      then Ok None
      else
        m ← get_int cfg "max_count";
        dflt ← default_value (rl_conditions r);
        value ← get_str_or cfg "count_value" dflt;
        Ok (Some {| max_count := m; count_table := table; count_column := column; count_value := value;
                    scope_column := scope_col |})
  end.

Record QuotaResult := {
  qr_allowed : bool; qr_current : nat; qr_max : Z; qr_rule : string; qr_type : string;
}.

Definition _type_matches (r : Rule) (object_type : string) : bool :=
  admits (rl_conditions r) "object_type" object_type.

Section Quotas.
Context `{host : !Host}.
(** The tables of the other layers: COUNT(-) WHERE column = value AND ... *)
Context (other_count : tables → string → list (string * string) → outcome nat).

(** The text of a column of a row; None for a column the table does not have,
    NULL for one that nothing sets. *)
Definition object_column (col : string) : option (ScopedObject → option string) :=
  if bool_decide (col = "id") then Some (λ o, Some (so_id o))
  else if bool_decide (col = "object_type") then Some (λ o, Some (so_type o))
  else if bool_decide (col = "owner_id") then Some (λ o, Some (so_owner o))
  else if bool_decide (col = "registry_entry_id") then Some so_registry
  else if bool_decide (col = "current_version") then Some (λ o, Some (pretty (so_version o)))
  else if bool_decide (col = "created_at") then Some (λ o, Some (isoformat (so_created_at o)))
  else if bool_decide (col = "lifecycle") then Some (λ o, Some (lifecycle_name (so_lifecycle o)))
  else None.

Definition scope_text_column (col : string) : option (Scope → option string) :=
  if bool_decide (col = "id") then Some (λ o, Some (sc_id o))
  else if bool_decide (col = "name") then Some (λ o, Some (sc_name o))
  else if bool_decide (col = "description") then Some (λ o, Some (sc_description o))
  else if bool_decide (col = "owner_id") then Some (λ o, Some (sc_owner o))
  else if bool_decide (col = "parent_scope_id") then Some sc_parent
  else if bool_decide (col = "registry_entry_id") then Some (λ _, None)
  else if bool_decide (col = "created_at") then Some (λ o, Some (isoformat (sc_created_at o)))
  else if bool_decide (col = "lifecycle")
  then Some (λ o, Some (if bool_decide (sc_lifecycle o = DEPRECATED) then "FROZEN" else lifecycle_name (sc_lifecycle o)))
  else None.

Definition rule_column (col : string) : option (Rule → option string) :=
  if bool_decide (col = "id") then Some (λ o, Some (rl_id o))
  else if bool_decide (col = "name") then Some (λ o, Some (rl_name o))
  else if bool_decide (col = "description") then Some (λ o, Some (rl_description o))
  else if bool_decide (col = "registry_entry_id") then Some (λ _, None)
  else if bool_decide (col = "created_at") then Some (λ o, Some (isoformat (rl_created_at o)))
  else if bool_decide (col = "lifecycle") then Some (λ o, Some (lifecycle_name (rl_lifecycle o)))
  else if bool_decide (col = "current_version") then Some (λ o, Some (pretty (rl_version o)))
  else None.

(** WHERE a = x AND b = y ... *)
Fixpoint where_clauses {R} (column : string → option (R → option string)) (cl : list (string * string))
  : outcome (R → bool) :=
  match cl with
  | [] => Ok (λ _, true)
  | (c, v) :: cl' =>
      match column c with
      | None => Raise (StorageError ("no such column: " +:+ c))
      | Some f => p ← where_clauses column cl'; Ok (λ r, bool_decide (f r = Some v) && p r)
      end
  end.

Definition count_where {R} (column : string → option (R → option string)) (rows : list R)
  (cl : list (string * string)) : outcome nat :=
  p ← where_clauses column cl; Ok (length (filter (λ r, p r = true) rows)).

(** The clauses of [_build_count_query]; None when a name is not allowed. *)
Definition _build_count_query (c : QuotaConfig) (scope_id : option string) : option (list (string * string)) :=
  if negb (bool_decide (count_table c ∈ _ALLOWED_TABLES)) then None
  else if negb (bool_decide (count_column c ∈ _ALLOWED_COLUMNS)) then None
  else
    let scoped (extra : list (string * string)) :=
      Some ([(count_column c, count_value c)] ++ extra ++ [("lifecycle", "ACTIVE")]) in
    match scope_id with
    | None => scoped []
    | Some sc =>
        match scope_column c with
        | Some col =>
            if bool_decide (col = "")
            then if bool_decide (count_table c = "scoped_objects") then scoped [("scope_id", sc)] else scoped []
            else if negb (bool_decide (col ∈ _ALLOWED_COLUMNS)) then None else scoped [(col, sc)]
        | None =>
            if bool_decide (count_table c = "scoped_objects") then scoped [("scope_id", sc)] else scoped []
        end
    end.

Definition _count_resources (c : QuotaConfig) (scope_id : option string) : lp nat :=
  match _build_count_query c scope_id with
  | None => mret 0
  | Some cl =>
      t ← gets st_db;
      lift (if bool_decide (count_table c = "scoped_objects") then count_where object_column (t_objects t) cl
            else if bool_decide (count_table c = "scopes") then count_where scope_text_column (t_scopes t) cl
            else if bool_decide (count_table c = "rules") then count_where rule_column (t_rules t) cl
            else other_count t (count_table c) cl)
  end.

(** [QuotaChecker.check], and [check_in_txn]: the statements are the same. *)
Fixpoint quota_check_rules (rules : list Rule) (object_type : string) (scope_id : option string)
  : lp (option QuotaResult) :=
  match rules with
  | [] => mret None
  | r :: rules' =>
      if negb (_type_matches r object_type) then quota_check_rules rules' object_type scope_id
      else
        config ← lift (quota_from_rule r);
        match config with
        | None => quota_check_rules rules' object_type scope_id
        | Some c =>
            count ← _count_resources c scope_id;
            if (max_count c <=? Z.of_nat count)%Z
            then mret (Some {| qr_allowed := false; qr_current := count; qr_max := max_count c;
                               qr_rule := rl_id r; qr_type := object_type |})
            else quota_check_rules rules' object_type scope_id
        end
  end.

Definition quota_check (rules : list Rule) : string → option string → lp (option QuotaResult) :=
  quota_check_rules (of_type RT_QUOTA rules).

Definition quota_message (object_type : string) (q : QuotaResult) : string :=
  "Quota exceeded for " +:+ object_type +:+ ": " +:+ pretty (qr_current q) +:+ "/" +:+ pretty (qr_max q).

Definition quota_check_or_raise (rules : list Rule) (object_type : string) (scope_id : option string) : lp unit :=
  result ← quota_check rules object_type scope_id;
  match result with
  | Some q => raise_if (negb (qr_allowed q)) (QuotaExceeded (quota_message object_type q))
  | None => mret tt
  end.

(** [get_usage]: rule id to (current, max, remaining). *)
Definition quota_usage (rules : list Rule) (object_type : string) (scope_id : option string)
  : lp (list (string * (nat * Z * Z))) :=
  for_fold (of_type RT_QUOTA rules) [] (λ usage r,
    if negb (_type_matches r object_type) then mret usage
    else
      config ← lift (quota_from_rule r);
      match config with
      | None => mret usage
      | Some c =>
          count ← _count_resources c scope_id;
          let entry := (count, max_count c, Z.max 0 (max_count c - Z.of_nat count)) in
          mret (upsert (rl_id r) entry (λ _, entry) usage)
      end).
End Quotas.

(** ** Rate limits *)

Record RateLimitConfig := { rate_max : Z; window_seconds : Z }.

Definition rate_from_rule (r : Rule) : outcome (option RateLimitConfig) :=
  cfg ← section (rl_conditions r) "rate_limit";
  match cfg with
  | None => Ok None
  | Some d =>
      m ← get_int d "max_count";
      w ← get_int d "window_seconds";
      Ok (Some {| rate_max := m; window_seconds := w |})
  end.

Record RateLimitResult := {
  rr_allowed : bool; rr_current : nat; rr_max : Z; rr_window : Z; rr_rule : string;
  retry_after_seconds : option Z;
}.

Definition _action_matches (r : Rule) (action : string) : bool := admits (rl_conditions r) "action" action.

Definition microseconds : Z := 1000000.

(** An entry the limit counts: the action, from the cutoff on, by the actor and
    in the scope that are given. *)
Definition counted (action : string) (principal_id scope_id : option string) (cutoff : Z) (e : TraceEntry) : bool :=
  bool_decide (ActionType.value (te_action e) = action) && (cutoff <=? te_timestamp e)%Z &&
  filter_opt principal_id (te_actor e) &&
  match scope_id with Some sc => bool_decide (te_scope e = Some sc) | None => true end.

Section RateLimits.
Context `{host : !Host}.

Definition _count_actions (action : string) (principal_id scope_id : option string) (window : Z) : lp nat :=
  now ← now_utc;
  select_count t_trail (counted action principal_id scope_id (now - window * microseconds)%Z).

Fixpoint rate_check_rules (rules : list Rule) (action : string) (principal_id scope_id : option string)
  : lp (option RateLimitResult) :=
  match rules with
  | [] => mret None
  | r :: rules' =>
      if negb (_action_matches r action) then rate_check_rules rules' action principal_id scope_id
      else
        config ← lift (rate_from_rule r);
        match config with
        | None => rate_check_rules rules' action principal_id scope_id
        | Some c =>
            count ← _count_actions action principal_id scope_id (window_seconds c);
            if (rate_max c <=? Z.of_nat count)%Z
            then mret (Some {| rr_allowed := false; rr_current := count; rr_max := rate_max c;
                               rr_window := window_seconds c; rr_rule := rl_id r;
                               retry_after_seconds := Some (window_seconds c) |})
            else rate_check_rules rules' action principal_id scope_id
        end
  end.

Definition rate_check (rules : list Rule) : string → option string → option string → lp (option RateLimitResult) :=
  rate_check_rules (of_type RT_RATE_LIMIT rules).

Definition rate_message (q : RateLimitResult) : string :=
  "Rate limit exceeded: " +:+ pretty (rr_current q) +:+ "/" +:+ pretty (rr_max q) +:+ " in " +:+
  pretty (rr_window q) +:+ "s window".

Definition rate_check_or_raise (rules : list Rule) (action : string) (principal_id scope_id : option string)
  : lp unit :=
  result ← rate_check rules action principal_id scope_id;
  match result with
  | Some q => raise_if (negb (rr_allowed q)) (RateLimitExceeded (rate_message q))
  | None => mret tt
  end.
End RateLimits.

(** ** Feature flags *)

Record FeatureFlagConfig := { feature_name : string; fc_enabled : bool; fc_rollout : Z }.

Definition flag_from_rule (r : Rule) : outcome (option FeatureFlagConfig) :=
  cfg ← section (rl_conditions r) "feature_flag";
  match cfg with
  | None => Ok None
  | Some d =>
      name ← get_str d "feature_name";
      enabled ← get_bool_or d "enabled" true;
      rollout ← get_int_or d "rollout_percentage" 100;
      Ok (Some {| feature_name := name; fc_enabled := enabled; fc_rollout := rollout |})
  end.

Record FeatureFlagResult := {
  ff_enabled : bool; ff_name : string; ff_rule : option string; ff_rollout : Z;
}.

(** A condition of the rule on an argument that may not be given. *)
Definition admits_opt (conds : jdict) (k : string) (v : option string) : bool :=
  match v with Some x => admits conds k x | None => true end.

(** [_find_matching]. *)
Fixpoint matching_flags (rules : list Rule) (feature : string) (scope_id : option string)
  : outcome (list Rule) :=
  match rules with
  | [] => Ok []
  | r :: rules' =>
      config ← flag_from_rule r;
      rest ← matching_flags rules' feature scope_id;
      Ok (match config with
          | Some c =>
              if bool_decide (feature_name c = feature) && admits_opt (rl_conditions r) "scope_id" scope_id
              then r :: rest else rest
          | None => rest
          end)
  end.

Section Flags.
Context `{host : !Host}.

(** The first eight hex digits of the digest, modulo 100. *)
Definition bucket (feature principal_id : string) : outcome Z :=
  match hex_int (String.substring 0 8 (hexdigest (principal_id +:+ ":" +:+ feature))) 0 with
  | Some n => Ok (n mod 100)%Z
  | None => Raise (ValueError "invalid literal for int() with base 16")
  end.

Definition _in_rollout (feature principal_id : string) (percentage : Z) : outcome bool :=
  b ← bucket feature principal_id; Ok (b <? percentage)%Z.

Definition no_flag (feature : string) (rule : option string) : FeatureFlagResult :=
  {| ff_enabled := false; ff_name := feature; ff_rule := rule; ff_rollout := 0 |}.

Definition is_enabled (rules : list Rule) (feature : string) (principal_id scope_id : option string)
  : outcome FeatureFlagResult :=
  matching ← matching_flags (of_type RT_FEATURE_FLAG rules) feature scope_id;
  match sort_by by_priority matching with
  | [] => Ok (no_flag feature None)
  | winner :: _ =>
      config ← flag_from_rule winner;
      match config with
      | None => Ok (no_flag feature (Some (rl_id winner)))
      | Some c =>
          enabled ← match principal_id with
                    | Some p =>
                        if fc_enabled c && (fc_rollout c <? 100)%Z && negb (bool_decide (p = ""))
                        then _in_rollout feature p (fc_rollout c) else Ok (fc_enabled c)
                    | None => Ok (fc_enabled c)
                    end;
          Ok {| ff_enabled := enabled; ff_name := feature; ff_rule := Some (rl_id winner);
                ff_rollout := fc_rollout c |}
      end
  end.
End Flags.

Fixpoint flags_of (seen : list string) (rules : list Rule) : outcome (list FeatureFlagConfig) :=
  match rules with
  | [] => Ok []
  | r :: rules' =>
      config ← flag_from_rule r;
      match config with
      | Some c =>
          if bool_decide (feature_name c ∈ seen) then flags_of seen rules'
          else rest ← flags_of (feature_name c :: seen) rules'; Ok (c :: rest)
      | None => flags_of seen rules'
      end
  end.

Definition list_flags (rules : list Rule) : outcome (list FeatureFlagConfig) :=
  flags_of [] (of_type RT_FEATURE_FLAG rules).

(** ** Redaction *)

Inductive RedactionStrategy := MASK | REPLACE | OMIT.

#[export] Instance RedactionStrategy_eq_dec : EqDecision RedactionStrategy.
Proof. solve_decision. Defined.

Definition strategy_of_value (s : string) : option RedactionStrategy :=
  if bool_decide (s = "mask") then Some MASK
  else if bool_decide (s = "replace") then Some REPLACE
  else if bool_decide (s = "omit") then Some OMIT else None.

Record FieldRedaction := {
  field_name : string; strategy : RedactionStrategy; mask_char : string; visible_chars : Z;
  replacement : jval;
}.

(** [FieldRedaction.from_dict]. *)
Definition redaction_from_dict (name : string) (config : jval) : outcome FieldRedaction :=
  match config with
  | JVdict d =>
      st ← get_str_or d "strategy" "replace";
      match strategy_of_value st with
      | None => Raise (ValueError (py_repr_str st +:+ " is not a valid RedactionStrategy"))
      | Some strat =>
          mask ← get_str_or d "mask_char" "*";
          visible ← get_int_or d "visible_chars" 0;
          Ok {| field_name := name; strategy := strat; mask_char := mask; visible_chars := visible;
                replacement := default (JVstr "[REDACTED]") (jget d "replacement") |}
      end
  | _ => Raise (AttributeError "get")
  end.

Record RedactionResult := {
  rd_data : jdict; redacted_fields : list string; rules_applied : list string;
}.

(** [text * n]. *)
Fixpoint repeat_str (s : string) (n : nat) : string :=
  match n with 0 => "" | S n' => s +:+ repeat_str s n' end.

Fixpoint drop_str (n : nat) (s : string) : string :=
  match n, s with S n', String _ s' => drop_str n' s' | _, _ => s end.

Definition _redact_value (value : jval) (fr : FieldRedaction) : jval :=
  match strategy fr with
  | REPLACE => replacement fr
  | MASK =>
      let s := py_str_value value in
      let n := String.length s in
      JVstr (if (0 <? visible_chars fr)%Z && (visible_chars fr <? Z.of_nat n)%Z
             then let hidden := n - Z.to_nat (visible_chars fr) in
                  repeat_str (mask_char fr) hidden +:+ drop_str hidden s
             else repeat_str (mask_char fr) n)
  | OMIT => value
  end.

(** [_matches]: object type, principal kind and scope, where given. *)
Definition redaction_matches (r : Rule) (object_type principal_kind scope_id : option string) : bool :=
  admits_opt (rl_conditions r) "object_type" object_type &&
  admits_opt (rl_conditions r) "principal_kind" principal_kind &&
  admits_opt (rl_conditions r) "scope_id" scope_id.

(** [rule.conditions.get("redactions", {})]; a false value counts as empty. *)
Definition redactions_of (r : Rule) : outcome jdict :=
  match jget (rl_conditions r) "redactions" with
  | None | Some JVnull | Some (JVbool false) | Some (JVlist []) => Ok []
  | Some (JVdict d) => Ok d
  | Some (JVint 0) => Ok []
  | Some (JVstr "") => Ok []
  | Some _ => Raise (AttributeError "items")
  end.

Definition without (k : string) (d : jdict) : jdict := filter (λ x, x.1 ≠ k) d.
Definition add_once (k : string) (l : list string) : list string :=
  if bool_decide (k ∈ l) then l else l ++ [k].

(** The result dict and the list of redacted fields, after one field redaction. *)
Definition redact_field (fr : FieldRedaction) (state : jdict * list string) : jdict * list string :=
  let '(result, redacted) := state in
  match jget result (field_name fr) with
  | None => state
  | Some value =>
      (match strategy fr with
       | OMIT => without (field_name fr) result
       | _ => jset result (field_name fr) (_redact_value value fr)
       end, add_once (field_name fr) redacted)
  end.

Fixpoint redact_fields (cfg : jdict) (state : jdict * list string) : outcome (jdict * list string) :=
  match cfg with
  | [] => Ok state
  | (name, config) :: cfg' =>
      fr ← redaction_from_dict name config;
      redact_fields cfg' (redact_field fr state)
  end.

Fixpoint redact_rules (rules : list Rule) (object_type principal_kind scope_id : option string)
  (state : jdict * list string) (applied : list string) : outcome RedactionResult :=
  match rules with
  | [] => Ok {| rd_data := state.1; redacted_fields := state.2; rules_applied := applied |}
  | r :: rules' =>
      if negb (redaction_matches r object_type principal_kind scope_id)
      then redact_rules rules' object_type principal_kind scope_id state applied
      else
        cfg ← redactions_of r;
        match cfg with
        | [] => redact_rules rules' object_type principal_kind scope_id state applied
        | _ =>
            state' ← redact_fields cfg state;
            redact_rules rules' object_type principal_kind scope_id state' (applied ++ [rl_id r])
        end
  end.

(** [RedactionEngine.apply]. *)
Definition redact (rules : list Rule) (data : jdict) (object_type principal_kind scope_id : option string)
  : outcome RedactionResult :=
  redact_rules (of_type RT_REDACTION rules) object_type principal_kind scope_id (data, []) [].

(** ** Dicts *)

Section Dicts.
Implicit Types (d : jdict).

Lemma jget_cons k v d x : jget ((k, v) :: d) x = if decide (k = x) then Some v else jget d x.
Proof. unfold jget. simpl. by repeat case_decide || case_bool_decide. Qed.

Lemma jget_none d k : jget d k = None ↔ k ∉ d.*1.
Proof.
  induction d as [|[a v] d IH]; [split; [intros _; apply not_elem_of_nil|done]|].
  rewrite jget_cons, fmap_cons, not_elem_of_cons. simpl. case_decide as Heq; [|rewrite IH; naive_solver].
  split; [done|]. intros [Hne _]. by destruct Hne.
Qed.

Lemma jget_elem d k v : jget d k = Some v → (k, v) ∈ d.
Proof.
  unfold jget. destruct (find _ d) as [[k' w]|] eqn:Hf; [|done]. intros [= ->].
  apply find_some in Hf as [Hin Hk%bool_decide_eq_true_1]. simpl in Hk. subst. by apply list_elem_of_In.
Qed.

Lemma jget_without d k x : jget (without k d) x = if decide (x = k) then None else jget d x.
Proof.
  unfold without. induction d as [|[a v] d IH]; [by case_decide|]. rewrite filter_cons.
  destruct (decide ((a, v).1 ≠ k)) as [Ha|Ha]; simpl in Ha; rewrite !jget_cons, IH;
    repeat case_decide; try congruence. exfalso. apply Ha. congruence.
Qed.

(** Setting a key that is there. *)
Lemma jset_present d k v :
  is_Some (jget d k) →
  jset d k v = (λ x, if bool_decide (x.1 = k) then (k, v) else x) <$> d.
Proof.
  intros [w Hw]. unfold jset. assert (existsb (λ x, bool_decide (x.1 = k)) d = true) as ->; [|done].
  apply existsb_exists. unfold jget in Hw.
  destruct (find (λ x, bool_decide (x.1 = k)) d) as [x|] eqn:Hf; [|done].
  apply find_some in Hf as [Hin Hx]. by exists x.
Qed.

Lemma jget_jset d k v x : jget (jset d k v) x = if decide (x = k) then Some v else jget d x.
Proof.
  unfold jset. destruct (existsb (λ x, bool_decide (x.1 = k)) d) eqn:Hex.
  - revert Hex. induction d as [|[a w] d IH]; [done|]. rewrite fmap_cons. simpl.
    case_bool_decide as Ha; simpl; rewrite !jget_cons.
    + intros _. subst. repeat case_decide; try congruence.
      clear -H. induction d as [|[b w'] d IH]; [done|]. rewrite fmap_cons. simpl.
      case_bool_decide as Hb; simpl in *; rewrite !jget_cons, IH; repeat case_decide; congruence.
    + intros H. rewrite IH by done. repeat case_decide; congruence.
  - induction d as [|[a w] d IH]; [cbn [app]; rewrite jget_cons; by repeat case_decide|].
    cbn [existsb fst] in Hex. apply orb_false_iff in Hex as [Ha%bool_decide_eq_false_1 Hex]. simpl in Ha.
    cbn [app]. rewrite !jget_cons, IH by done. repeat case_decide; congruence.
Qed.

Lemma jset_keys d k v : is_Some (jget d k) → (jset d k v).*1 = d.*1.
Proof.
  intros H. rewrite jset_present, <-list_fmap_compose by done. apply list_fmap_ext. intros _ [a w] _.
  simpl. by case_bool_decide.
Qed.
End Dicts.

(** ** Redaction, field by field *)

(** The field redactions that apply to a request, in order. *)
Definition rule_redactions (r : Rule) : outcome (list FieldRedaction) :=
  cfg ← redactions_of r; mapM (λ x, redaction_from_dict x.1 x.2) cfg.

Definition redaction_plan (rules : list Rule) (object_type principal_kind scope_id : option string)
  : outcome (list FieldRedaction) :=
  plans ← mapM rule_redactions (filter (λ r, redaction_matches r object_type principal_kind scope_id = true)
    (of_type RT_REDACTION rules));
  Ok (mjoin plans).

Definition has_redactions (r : Rule) : bool :=
  match redactions_of r with Ok (_ :: _) => true | _ => false end.

(** What one redaction makes of one value; None is an absent field. *)
Definition redacted (v : option jval) (fr : FieldRedaction) : option jval :=
  match strategy fr with OMIT => None | _ => (λ x, _redact_value x fr) <$> v end.

Section RedactionTheory.

Lemma mapM_cons_ok {A B} (f : A → outcome B) x l :
  mapM f (x :: l) = match f x with
                    | Ok y => match mapM f l with Ok k => Ok (y :: k) | Raise e => Raise e end
                    | Raise e => Raise e
                    end.
Proof. reflexivity. Qed.

Lemma redact_fields_plan cfg st :
  redact_fields cfg st =
    (frs ← mapM (λ x, redaction_from_dict x.1 x.2) cfg; Ok (foldl (λ st fr, redact_field fr st) st frs)).
Proof.
  revert st. induction cfg as [|[name config] cfg IH]; intros st; [done|]. cbn [redact_fields].
  rewrite mapM_cons_ok. unfold mbind, outcome_bind. cbn [fst snd].
  destruct (redaction_from_dict name config) as [fr|e]; [|done].
  rewrite IH. unfold mbind, outcome_bind. by destruct (mapM _ cfg).
Qed.

Lemma redact_rules_plan rules ot pk sc st applied :
  redact_rules rules ot pk sc st applied =
    (plans ← mapM rule_redactions (filter (λ r, redaction_matches r ot pk sc = true) rules);
     let st' := foldl (λ st fr, redact_field fr st) st (mjoin plans) in
     Ok {| rd_data := st'.1; redacted_fields := st'.2;
           rules_applied := applied ++ (rl_id <$>
             filter (λ r, redaction_matches r ot pk sc && has_redactions r = true) rules) |}).
Proof.
  revert st applied. induction rules as [|r rules IH]; intros st applied.
  { simpl. by rewrite app_nil_r. }
  cbn [redact_rules]. rewrite !filter_cons.
  destruct (redaction_matches r ot pk sc) eqn:Hm; cbn [negb andb]; [|by rewrite IH].
  rewrite (decide_True (P := true = true)) by done. rewrite mapM_cons_ok.
  unfold rule_redactions at 1. unfold mbind, outcome_bind.
  destruct (has_redactions r) eqn:Hh; unfold has_redactions in Hh;
    destruct (redactions_of r) as [[|x cfg]|e]; try done.
  - rewrite redact_fields_plan. unfold mbind, outcome_bind.
    destruct (mapM _ (x :: cfg)) as [frs|e]; [|done]. rewrite IH. unfold mbind, outcome_bind.
    destruct (mapM _ (filter _ rules)) as [plans|e]; [|done]. simpl.
    by rewrite foldl_app, <-app_assoc.
  - rewrite IH. unfold mbind, outcome_bind. simpl. by destruct (mapM _ (filter _ rules)).
Qed.

(** One field redaction touches one field. *)
Lemma redact_field_get fr st f :
  jget (redact_field fr st).1 f =
    if decide (field_name fr = f) then redacted (jget st.1 f) fr else jget st.1 f.
Proof.
  destruct st as [d l]. unfold redact_field, redacted. simpl.
  destruct (jget d (field_name fr)) as [v|] eqn:Hv; simpl.
  - destruct (strategy fr); rewrite ?jget_jset, ?jget_without; repeat case_decide; subst;
      rewrite ?Hv; simpl; congruence.
  - case_decide; [|done]. subst. rewrite Hv. by destruct (strategy fr).
Qed.

Lemma redact_field_keys fr st : (redact_field fr st).1.*1 `sublist_of` st.1.*1.
Proof.
  destruct st as [d l]. unfold redact_field. destruct (jget d (field_name fr)) as [v|] eqn:Hv; [|done].
  assert (Hs : is_Some (jget d (field_name fr))) by eauto.
  destruct (strategy fr); cbn [fst]; rewrite ?jset_keys by done; try done.
  unfold without. clear. induction d as [|[a w] d IH]; [done|]. rewrite filter_cons.
  case_decide; rewrite ?fmap_cons; by constructor.
Qed.

Lemma redact_field_list fr st f :
  f ∈ (redact_field fr st).2 ↔ f ∈ st.2 ∨ f = field_name fr ∧ is_Some (jget st.1 f).
Proof.
  destruct st as [d l]. unfold redact_field, add_once. simpl.
  destruct (jget d (field_name fr)) as [v|] eqn:Hv; simpl.
  - case_bool_decide as Hin; rewrite ?elem_of_app, ?list_elem_of_singleton; naive_solver.
  - split; [by left|]. intros [?|[-> Hs]]; [done|]. rewrite Hv in Hs. by destruct Hs.
Qed.

Lemma redact_field_nodup fr st : NoDup st.2 → NoDup (redact_field fr st).2.
Proof.
  destruct st as [d l]. unfold redact_field, add_once. simpl. intros Hl.
  destruct (jget d (field_name fr)); simpl; [|done]. case_bool_decide; [done|].
  apply NoDup_app. split_and!; [done| |apply NoDup_singleton].
  intros x Hx ->%list_elem_of_singleton. done.
Qed.

Lemma redact_fold frs st :
  let st' := foldl (λ st fr, redact_field fr st) st frs in
  (∀ f, jget st'.1 f = foldl redacted (jget st.1 f) (filter (λ fr, field_name fr = f) frs)) ∧
  (∀ f, f ∈ st'.2 ↔ f ∈ st.2 ∨ is_Some (jget st.1 f) ∧ f ∈ field_name <$> frs) ∧
  (NoDup st.2 → NoDup st'.2) ∧ st'.1.*1 `sublist_of` st.1.*1.
Proof.
  revert st. induction frs as [|fr frs IH]; intros st; simpl.
  { split_and!; try done. intros f. rewrite elem_of_nil. tauto. }
  destruct (IH (redact_field fr st)) as (Hget & Hin & Hnd & Hsub). split_and!.
  - intros f. rewrite Hget, redact_field_get, filter_cons. by case_decide.
  - intros f. rewrite Hin, redact_field_list, redact_field_get, elem_of_cons.
    destruct (decide (field_name fr = f)) as [<-|Hne]; [|naive_solver].
    unfold redacted. destruct (jget st.1 _); destruct (strategy fr); simpl; unfold is_Some; naive_solver.
  - auto using redact_field_nodup.
  - etrans; [exact Hsub|apply redact_field_keys].
Qed.

(** A mask shows the last [visible_chars] characters, and nothing of a text
    that is not longer than that. *)
Lemma repeat_str_length m n : String.length m = 1 → String.length (repeat_str m n) = n.
Proof. intros Hm. induction n as [|n IH]; [done|]. cbn [repeat_str]. rewrite string_app_length. lia. Qed.

Lemma drop_str_split n s :
  n ≤ String.length s → ∃ pre, s = pre +:+ drop_str n s ∧ String.length pre = n.
Proof.
  revert s. induction n as [|n IH]; intros s Hn; [by exists ""|].
  destruct s as [|c s]; simpl in Hn; [lia|]. destruct (IH s) as (pre & Heq & Hlen); [lia|].
  exists (String c pre). split; [|simpl; by rewrite Hlen]. simpl. unfold String.append in *. simpl. by rewrite <-Heq.
Qed.

Lemma mask_hides v fr :
  strategy fr = MASK → String.length (mask_char fr) = 1 →
  ∃ hidden shown, py_str_value v = hidden +:+ shown ∧
    _redact_value v fr = JVstr (repeat_str (mask_char fr) (String.length hidden) +:+ shown) ∧
    (Z.of_nat (String.length shown) ≤ Z.max 0 (visible_chars fr))%Z ∧
    ((Z.of_nat (String.length (py_str_value v)) ≤ visible_chars fr)%Z → shown = "").
Proof.
  intros Hs Hm. unfold _redact_value. rewrite Hs. set (s := py_str_value v).
  destruct (_ && _) eqn:Hb.
  - apply andb_true_iff in Hb as [H1%Z.ltb_lt H2%Z.ltb_lt].
    destruct (drop_str_split (String.length s - Z.to_nat (visible_chars fr)) s) as (pre & Heq & Hlen); [lia|].
    exists pre, (drop_str (String.length s - Z.to_nat (visible_chars fr)) s). rewrite Hlen.
    apply (f_equal String.length) in Heq as Hl. rewrite string_app_length, Hlen in Hl.
    split_and!; [done|done|lia|lia].
  - exists s, "". split_and!; [| |simpl; lia|done].
    + clear. induction s as [|c s IH]; [done|]. change (String c s = String c (s +:+ "")). by rewrite <-IH.
    + f_equal. clear. generalize (repeat_str (mask_char fr) (String.length s)) as t.
      induction t as [|c t IH]; [done|]. change (String c t = String c (t +:+ "")). by rewrite <-IH.
Qed.
End RedactionTheory.

(** Redaction acts field by field: it raises exactly when an applicable
    field's configuration does not parse; otherwise every field of the result
    is the field of the data under its applicable redactions in order (omitted
    fields are gone, others unchanged), the fields reported are exactly the
    fields of the data with an applicable redaction, each once, no field is
    added or reordered, and a masked text keeps its length and shows at most
    its last visible_chars characters. *)
Theorem redaction_exact rules data ot pk sc :
  match redaction_plan rules ot pk sc with
  | Raise e => redact rules data ot pk sc = Raise e
  | Ok frs =>
      ∃ r, redact rules data ot pk sc = Ok r ∧
        (∀ f, jget (rd_data r) f = foldl redacted (jget data f) (filter (λ fr, field_name fr = f) frs)) ∧
        (∀ f, f ∈ redacted_fields r ↔ f ∈ data.*1 ∧ f ∈ field_name <$> frs) ∧
        NoDup (redacted_fields r) ∧ (rd_data r).*1 `sublist_of` data.*1
  end ∧
  (∀ v fr, strategy fr = MASK → String.length (mask_char fr) = 1 →
    ∃ hidden shown, py_str_value v = hidden +:+ shown ∧
      redacted (Some v) fr = Some (JVstr (repeat_str (mask_char fr) (String.length hidden) +:+ shown)) ∧
      (Z.of_nat (String.length shown) ≤ Z.max 0 (visible_chars fr))%Z).
Proof.
  split.
  - unfold redaction_plan, redact. rewrite redact_rules_plan. unfold mbind, outcome_bind.
    destruct (mapM _ _) as [plans|e]; [|done]. eexists. split; [reflexivity|]. simpl.
    destruct (redact_fold (mjoin plans) (data, [])) as (Hget & Hin & Hnd & Hsub). simpl in *.
    split_and!; [done| |apply Hnd, NoDup_nil_2|done].
    intros f. rewrite Hin, elem_of_nil. pose proof (jget_none data f) as Hn.
    destruct (jget data f) eqn:Hf.
    + split; [intros [[]|[_ ?]]|intros [_ ?]; right; split; [by eexists|done]]. split; [|done].
      destruct (decide (f ∈ data.*1)); [done|]. by apply Hn in n.
    + split; [intros [[]|[[? [=]] ?]]|]. intros [H _]. by apply Hn in H.
  - intros v fr Hs Hm. destruct (mask_hides v fr Hs Hm) as (hidden & shown & H1 & H2 & H3 & _).
    exists hidden, shown. unfold redacted. rewrite Hs. simpl. by rewrite H2.
Qed.

(** ** First violations

    Quotas and rate limits are the same loop: the first rule of the list that
    applies, has a configuration, and whose count has reached its limit. *)

Section Limits.
Context {C : Type} (applies : Rule → bool) (config : Rule → outcome (option C))
  (measure : C → outcome nat) (limit : C → Z).

(** The rule is over its limit, with this configuration and count. *)
Definition over (r : Rule) (c : C) (n : nat) : Prop :=
  applies r = true ∧ config r = Ok (Some c) ∧ measure c = Ok n ∧ (limit c ≤ Z.of_nat n)%Z.

(** The rule does not stop the loop. *)
Definition passes (r : Rule) : Prop :=
  applies r = true → ∃ o, config r = Ok o ∧
    ∀ c, o = Some c → ∃ n, measure c = Ok n ∧ (Z.of_nat n < limit c)%Z.

(** Checking the rule raises. *)
Definition breaks (r : Rule) (e : exn) : Prop :=
  applies r = true ∧ (config r = Raise e ∨ ∃ c, config r = Ok (Some c) ∧ measure c = Raise e).

(** The first rule that does not pass decides. *)
Definition first_over {Q} (rules : list Rule) (report : Rule → C → nat → Q) (o : outcome (option Q)) : Prop :=
  match o with
  | Ok None => ∀ r, r ∈ rules → passes r
  | Ok (Some q) => ∃ pre r post c n, rules = pre ++ r :: post ∧ (∀ x, x ∈ pre → passes x) ∧
      over r c n ∧ q = report r c n
  | Raise e => ∃ pre r post, rules = pre ++ r :: post ∧ (∀ x, x ∈ pre → passes x) ∧ breaks r e
  end.

Lemma first_over_cons {Q} r rules (report : Rule → C → nat → Q) o :
  passes r → first_over rules report o → first_over (r :: rules) report o.
Proof.
  intros Hr. destruct o as [[q|]|e]; simpl.
  - intros (pre & x & post & c & n & -> & Hpre & H). exists (r :: pre), x, post, c, n. split; [done|].
    split; [|done]. intros y [->|Hy]%elem_of_cons; auto.
  - intros H y [->|Hy]%elem_of_cons; auto.
  - intros (pre & x & post & -> & Hpre & H). exists (r :: pre), x, post. split; [done|].
    split; [|done]. intros y [->|Hy]%elem_of_cons; auto.
Qed.

Lemma first_over_here {Q} r rules (report : Rule → C → nat → Q) c n :
  over r c n → first_over (r :: rules) report (Ok (Some (report r c n))).
Proof. intros H. exists [], r, rules, c, n. split_and!; [done| |done|done]. by intros x ?%elem_of_nil. Qed.

Lemma first_over_breaks {Q} r rules (report : Rule → C → nat → Q) e :
  breaks r e → first_over (r :: rules) report (Raise e).
Proof. intros H. exists [], r, rules. split_and!; [done| |done]. by intros x ?%elem_of_nil. Qed.
End Limits.

Section RateTheory.
Context `{host : !Host}.

Definition actions_in_window (action : string) (principal_id scope_id : option string) (s : store)
  (c : RateLimitConfig) : nat :=
  length (filter (λ e, counted action principal_id scope_id
    (st_now s - window_seconds c * microseconds) e = true) (t_trail (st_db s))).

Definition rate_report (r : Rule) (c : RateLimitConfig) (n : nat) : RateLimitResult :=
  {| rr_allowed := false; rr_current := n; rr_max := rate_max c; rr_window := window_seconds c;
     rr_rule := rl_id r; retry_after_seconds := Some (window_seconds c) |}.

Lemma rate_check_rules_run rules action p sc s :
  ∃ o, rate_check_rules rules action p sc s = (o, s) ∧
    first_over (λ r, _action_matches r action) rate_from_rule
      (λ c, Ok (actions_in_window action p sc s c)) rate_max rules rate_report o.
Proof.
  induction rules as [|r rules (o & Hrun & Ho)]; simpl.
  { exists (Ok None). split; [done|]. by intros r ?%elem_of_nil. }
  destruct (_action_matches r action) eqn:Hm; simpl.
  2:{ exists o. split; [exact Hrun|]. apply first_over_cons; [|done]. intros Ht. simpl in Ht. congruence. }
  rewrite run_bind. unfold lift at 1. destruct (rate_from_rule r) as [[c|]|e] eqn:Hc.
  - rewrite run_bind. unfold _count_actions. rewrite run_bind. unfold now_utc at 1, gets at 1.
    unfold select_count, gets. cbv beta.
    fold (actions_in_window action p sc s c). set (n := actions_in_window action p sc s c).
    destruct (Z.leb_spec (rate_max c) (Z.of_nat n)) as [Hle|Hlt].
    + eexists. split; [reflexivity|]. apply (first_over_here _ _ _ _ r rules rate_report c n). by split_and!.
    + exists o. split; [exact Hrun|]. apply first_over_cons; [|done]. intros _. exists (Some c). split; [done|].
      intros ? [= <-]. by exists n.
  - exists o. split; [exact Hrun|]. apply first_over_cons; [|done]. intros _. exists None. split; [done|]. done.
  - exists (Raise e). split; [done|]. apply first_over_breaks. split; [done|]. by left.
Qed.

(** The rate limiter counts the trail: checking reads without writing and
    returns no violation exactly when every active limit of the action has
    fewer matching entries in its window than its maximum; a violation is that
    of the first limit reached, with the count and a retry after its window;
    and [check_or_raise] raises exactly on a violation (a malformed rule
    raises its own error). *)
Theorem rate_check_exact rules action p sc s :
  ∃ o, rate_check rules action p sc s = (o, s) ∧
    first_over (λ r, _action_matches r action) rate_from_rule
      (λ c, Ok (actions_in_window action p sc s c)) rate_max (of_type RT_RATE_LIMIT rules) rate_report o ∧
    rate_check_or_raise rules action p sc s =
      (match o with
       | Ok None => Ok tt
       | Ok (Some q) => Raise (RateLimitExceeded (rate_message q))
       | Raise e => Raise e
       end, s).
Proof.
  destruct (rate_check_rules_run (of_type RT_RATE_LIMIT rules) action p sc s) as (o & Hrun & Ho).
  exists o. split; [exact Hrun|]. split; [exact Ho|]. unfold rate_check_or_raise, rate_check.
  rewrite run_bind, Hrun. destruct o as [[q|]|e]; [|done|done].
  destruct Ho as (pre & r & post & c & n & _ & _ & _ & ->). done.
Qed.
End RateTheory.

Section QuotaTheory.
Context `{host : !Host} (other_count : tables → string → list (string * string) → outcome nat).

(** What a quota's COUNT gives in a state. *)
Definition resources (scope_id : option string) (s : store) (c : QuotaConfig) : outcome nat :=
  (_count_resources other_count c scope_id s).1.

Definition quota_report (object_type : string) (r : Rule) (c : QuotaConfig) (n : nat) : QuotaResult :=
  {| qr_allowed := false; qr_current := n; qr_max := max_count c; qr_rule := rl_id r;
     qr_type := object_type |}.

Lemma count_resources_run c sc s : _count_resources other_count c sc s = (resources sc s c, s).
Proof.
  unfold resources, _count_resources. destruct (_build_count_query c sc); [|done]. rewrite run_bind. simpl. done.
Qed.

Lemma quota_check_rules_run rules object_type sc s :
  ∃ o, quota_check_rules other_count rules object_type sc s = (o, s) ∧
    first_over (λ r, _type_matches r object_type) quota_from_rule (resources sc s) max_count
      rules (quota_report object_type) o.
Proof.
  induction rules as [|r rules (o & Hrun & Ho)]; simpl.
  { exists (Ok None). split; [done|]. by intros r ?%elem_of_nil. }
  destruct (_type_matches r object_type) eqn:Hm; simpl.
  2:{ exists o. split; [exact Hrun|]. apply first_over_cons; [|done]. intros Ht. simpl in Ht. congruence. }
  rewrite run_bind. unfold lift at 1. destruct (quota_from_rule r) as [[c|]|e] eqn:Hc.
  - rewrite run_bind, count_resources_run. destruct (resources sc s c) as [n|e] eqn:Hn.
    + destruct (Z.leb_spec (max_count c) (Z.of_nat n)) as [Hle|Hlt].
      * eexists. split; [reflexivity|]. apply (first_over_here _ _ _ _ r rules (quota_report object_type) c n).
        by split_and!.
      * exists o. split; [exact Hrun|]. apply first_over_cons; [|done]. intros _. exists (Some c). split; [done|].
        intros ? [= <-]. by exists n.
    + exists (Raise e). split; [done|]. apply first_over_breaks. split; [done|]. right. by exists c.
  - exists o. split; [exact Hrun|]. apply first_over_cons; [|done]. intros _. exists None. split; [done|]. done.
  - exists (Raise e). split; [done|]. apply first_over_breaks. split; [done|]. by left.
Qed.

(** A quota on objects without a scope column cannot be checked in a scope: the
    table has no column of that name. *)
Lemma scoped_quota_fails c sc s :
  count_table c = "scoped_objects" → count_column c = "object_type" → scope_column c = None →
  resources (Some sc) s c = Raise (StorageError "no such column: scope_id").
Proof.
  intros Ht Hc Hs. unfold resources, _count_resources, _build_count_query. rewrite Ht, Hc, Hs. reflexivity.
Qed.

(** Passing the check: every active quota on the type still has room. *)
Definition quota_room (rules : list Rule) (object_type : string) (sc : option string) (s : store) : Prop :=
  ∀ r, r ∈ of_type RT_QUOTA rules →
    passes (λ r, _type_matches r object_type) quota_from_rule (resources sc s) max_count r.

Lemma quota_check_or_raise_ok rules object_type sc s u s' :
  quota_check_or_raise other_count rules object_type sc s = (Ok u, s') →
  s' = s ∧ quota_room rules object_type sc s.
Proof.
  unfold quota_check_or_raise, quota_check.
  destruct (quota_check_rules_run (of_type RT_QUOTA rules) object_type sc s) as (o & Hrun & Ho).
  rewrite run_bind, Hrun. destruct o as [[q|]|e]; [| |done].
  - destruct Ho as (pre & r & post & c & n & _ & _ & _ & ->). done.
  - intros [= _ <-]. done.
Qed.
End QuotaTheory.

(** ** Feature flags *)

Section FlagTheory.
Context `{host : !Host}.

(** An element of a filtered list splits the list itself. *)
Lemma filter_app_split {X} (P : X → Prop) `{∀ x, Decision (P x)} (l pre post : list X) w :
  filter P l = pre ++ w :: post →
  ∃ pre' post', l = pre' ++ w :: post' ∧ filter P pre' = pre ∧ filter P post' = post.
Proof.
  revert pre. induction l as [|x l IH]; intros pre; [by destruct pre|]. rewrite filter_cons.
  case_decide as Hx.
  - destruct pre as [|y pre]; intros [= -> Hl]; [by exists [], l|].
    destruct (IH _ Hl) as (pre' & post' & -> & <- & <-). exists (y :: pre'), post'. split; [done|].
    by rewrite filter_cons, decide_True.
  - intros Hl. destruct (IH _ Hl) as (pre' & post' & -> & <- & <-). exists (x :: pre'), post'. split; [done|].
    by rewrite filter_cons, decide_False.
Qed.

(** A rule that configures the feature for the scope. *)
Definition flags (feature : string) (sc : option string) (r : Rule) (c : FeatureFlagConfig) : Prop :=
  flag_from_rule r = Ok (Some c) ∧ feature_name c = feature ∧ admits_opt (rl_conditions r) "scope_id" sc = true.

Lemma matching_flags_ok rules feature sc l :
  matching_flags rules feature sc = Ok l →
  ∃ keep : Rule → bool, l = filter (λ r, keep r = true) rules ∧
    ∀ r, r ∈ rules → keep r = true ↔ ∃ c, flags feature sc r c.
Proof.
  intros H. exists (λ r, match flag_from_rule r with
    | Ok (Some c) => bool_decide (feature_name c = feature) && admits_opt (rl_conditions r) "scope_id" sc
    | _ => false end). split; last first.
  { intros r _. unfold flags. destruct (flag_from_rule r) as [[c|]|e].
    - rewrite andb_true_iff, bool_decide_eq_true. naive_solver.
    - split; [done|]. by intros (c & [=] & _).
    - split; [done|]. by intros (c & [=] & _). }
  revert l H. induction rules as [|r rules IH]; intros l; simpl; [by intros [= <-]|].
  unfold mbind, outcome_bind. destruct (flag_from_rule r) as [o|e] eqn:Hr; [|done].
  destruct (matching_flags rules feature sc) as [rest|e]; [|done]. intros [= <-]. rewrite (IH _ eq_refl).
  rewrite filter_cons. rewrite Hr. destruct o as [c|]; [|done]. by destruct (_ && _).
Qed.

(** The head of a stable sort by priority: the first of the highest. *)
Lemma by_priority_head (l : list Rule) :
  match sort_by by_priority l with
  | [] => l = []
  | w :: _ => ∃ pre post, l = pre ++ w :: post ∧
      (∀ x, x ∈ pre → (rl_priority x < rl_priority w)%Z) ∧
      (∀ x, x ∈ post → (rl_priority x ≤ rl_priority w)%Z)
  end.
Proof.
  induction l as [|r l IH]; [done|]. simpl. fold (sort_by by_priority l).
  destruct (sort_by by_priority l) as [|w tl]; simpl.
  - subst. exists [], []. split_and!; [done|..]; by intros x ?%elem_of_nil.
  - destruct IH as (pre & post & -> & Hpre & Hpost). unfold by_priority.
    destruct (Z.leb_spec (rl_priority w) (rl_priority r)).
    + exists [], (pre ++ w :: post). split_and!; [done|by intros x ?%elem_of_nil|].
      intros x. rewrite elem_of_app, elem_of_cons. intros [Hx|[->|Hx]]; [|lia|].
      * specialize (Hpre _ Hx). lia.
      * specialize (Hpost _ Hx). lia.
    + exists (r :: pre), post. split_and!; [done| |done]. intros x [->|Hx]%elem_of_cons; auto.
Qed.

Lemma bucket_ok feature p : ∃ b, bucket feature p = Ok b ∧ (0 ≤ b < 100)%Z.
Proof.
  unfold bucket. destruct (hexdigest_hex (p +:+ ":" +:+ feature)) as [Hh _].
  destruct (hex_int_total _ 0 (all_hex_substring 0 8 _ Hh) ltac:(lia)) as (n & -> & Hn).
  exists (n mod 100)%Z. split; [done|]. apply Z.mod_pos_bound. lia.
Qed.

(** Whether a configuration turns the feature on for a principal. *)
Definition turned_on (feature : string) (principal_id : option string) (c : FeatureFlagConfig) : Prop :=
  fc_enabled c = true ∧
  ∀ p b, principal_id = Some p → p ≠ "" → bucket feature p = Ok b → (b < fc_rollout c ∨ 100 ≤ fc_rollout c)%Z.

Lemma turned_on_run feature pid c :
  ∃ b, match pid with
       | Some p => if fc_enabled c && (fc_rollout c <? 100)%Z && negb (bool_decide (p = ""))
                   then _in_rollout feature p (fc_rollout c) else Ok (fc_enabled c)
       | None => Ok (fc_enabled c)
       end = Ok b ∧ (b = true ↔ turned_on feature pid c).
Proof.
  unfold turned_on. destruct pid as [p|]; [|eexists; split; [done|]; naive_solver].
  destruct (fc_enabled c) eqn:He; simpl; [|eexists; split; [done|]; naive_solver].
  destruct (bucket_ok feature p) as (b & Hb & Hrange).
  destruct (Z.ltb_spec (fc_rollout c) 100) as [Hlt|Hge]; simpl.
  2:{ eexists. split; [done|]. split; [|done]. intros _. split; [done|]. intros. by right. }
  case_bool_decide as Hp; simpl.
  - eexists. split; [done|]. split; [|done]. intros _. split; [done|]. intros ? ? [= <-]. done.
  - unfold _in_rollout, mbind, outcome_bind. rewrite Hb. eexists. split; [done|]. rewrite Z.ltb_lt. split.
    + intros Hlt'. split; [done|]. intros ? ? [= <-] _. rewrite Hb. intros [= <-]. by left.
    + intros [_ H]. destruct (H p b eq_refl Hp Hb); [done|lia].
Qed.

(** A feature flag is decided by the first rule of the highest priority that
    configures it for the scope, and by its rollout: with no such rule the
    feature is off; otherwise it is on exactly when that rule enables it and
    the principal, if one is given, falls in the rollout, whose bucket of 0 to
    99 depends on nothing but principal and feature (so raising a percentage
    never turns the feature off for anyone, 0 excludes and 100 includes all). *)
Theorem flag_decision rules feature pid sc r :
  is_enabled rules feature pid sc = Ok r →
  ((∀ x c, x ∈ of_type RT_FEATURE_FLAG rules → ¬ flags feature sc x c) ∧ r = no_flag feature None) ∨
  (∃ pre w post c, of_type RT_FEATURE_FLAG rules = pre ++ w :: post ∧ flags feature sc w c ∧
    (∀ x c', x ∈ pre → flags feature sc x c' → (rl_priority x < rl_priority w)%Z) ∧
    (∀ x c', x ∈ post → flags feature sc x c' → (rl_priority x ≤ rl_priority w)%Z) ∧
    ff_rule r = Some (rl_id w) ∧ ff_rollout r = fc_rollout c ∧
    (ff_enabled r = true ↔ turned_on feature pid c)) ∧
  (∀ p, pid = Some p → ∃ b, bucket feature p = Ok b ∧ (0 ≤ b < 100)%Z).
Proof.
  unfold is_enabled, mbind, outcome_bind.
  destruct (matching_flags _ feature sc) as [l|e] eqn:Hl; [|done].
  apply matching_flags_ok in Hl as (keep & -> & Hkeep).
  set (rs := of_type RT_FEATURE_FLAG rules) in *. pose proof (by_priority_head (filter (λ r, keep r = true) rs)) as Hh.
  destruct (sort_by by_priority _) as [|w tl].
  - intros [= <-]. left. split; [|done]. intros x c Hx Hf. apply filter_nil_iff with (x := x) in Hh; [|done].
    apply Hh. apply Hkeep; [done|by exists c].
  - destruct Hh as (pre & post & Heq & Hpre & Hpost). intros H. right. split; [|intros p _; apply bucket_ok].
    assert (Hw : w ∈ filter (λ r, keep r = true) rs) by (rewrite Heq; set_solver).
    apply list_elem_of_filter in Hw as [Hkw Hw]. destruct (proj1 (Hkeep w Hw) Hkw) as [c Hc].
    pose proof Hc as (Hcfg & _). rewrite Hcfg in H.
    destruct (turned_on_run feature pid c) as (b & Hb & Hon). rewrite Hb in H. injection H as <-.
    destruct (filter_app_split _ _ _ _ _ Heq) as (pre' & post' & Hrs & Hpre' & Hpost').
    exists pre', w, post', c. split_and!; [done|done| | |done|done|exact Hon].
    + intros x c' Hx Hf. apply Hpre. rewrite <-Hpre', list_elem_of_filter. split; [|done].
      apply Hkeep; [rewrite Hrs; set_solver|by exists c'].
    + intros x c' Hx Hf. apply Hpost. rewrite <-Hpost', list_elem_of_filter. split; [|done].
      apply Hkeep; [rewrite Hrs; set_solver|by exists c'].
Qed.
End FlagTheory.
