(* ===== verification/Builtins.v ===== *)
(** * Legacy v1: rule factories (rules/builtins.py)

    Each factory stores one rule and binds it to a scope.  The theorems say
    what the access engine makes of such a rule, whatever its type. *)

From S2P Require Import Prelude LegacyTypes Schema Json Trail Rules RuleClients.

Section Factories.
Context `{host : !Host} `{sink : !AuditSink}.
(** Whether [set_cache] wired the engine's cache into the store. *)
Context (shared : bool).

(** [store.create_rule(...)] then [store.bind_rule(...)] to the scope. *)
Definition scoped_rule (name : string) (type : RuleType) (effect : RuleEffect) (conditions : jdict)
  (priority : Z) (scope created_by : string) : lp Rule :=
  rule ← create_rule shared name type effect (Some conditions) priority "" created_by;
  bind_rule shared (rl_id rule) BT_SCOPE scope created_by ;;
  mret rule.

Definition jstrs (l : list string) : jval := JVlist (JVstr <$> l).

(** An optional argument that is not given, or empty, adds no condition. *)
Definition given_string (k : string) (o : option string) : jdict :=
  match o with Some s => if bool_decide (s = "") then [] else [(k, JVstr s)] | None => [] end.

Definition allow_crud_in_scope (scope created_by : string) (object_type : option string)
  (actions : option (list string)) (name : string) (priority : Z) : lp Rule :=
  let acts := match actions with Some (a :: l) => a :: l | _ => ["create"; "read"; "update"; "delete"] end in
  scoped_rule name RT_ACCESS ALLOW ([("action", jstrs acts)] ++ given_string "object_type" object_type)
    priority scope created_by.

Definition deny_action_in_scope (scope action created_by : string) (object_type : option string)
  (name : string) (priority : Z) : lp Rule :=
  scoped_rule name RT_ACCESS DENY ([("action", JVstr action)] ++ given_string "object_type" object_type)
    priority scope created_by.

Definition deny_sharing_outside_scope (scope created_by name : string) (priority : Z) : lp Rule :=
  scoped_rule name RT_SHARING DENY [("action", JVstr "projection")] priority scope created_by.

Definition restrict_to_principal_kind (principal_kind action scope created_by name : string) (priority : Z)
  : lp Rule :=
  scoped_rule name RT_CONSTRAINT DENY [("action", JVstr action); ("principal_kind", JVstr principal_kind)]
    priority scope created_by.

Definition redact_fields_for_kind (object_type principal_kind : string) (redactions : jdict)
  (scope created_by name : string) (priority : Z) : lp Rule :=
  scoped_rule name RT_REDACTION DENY
    [("object_type", JVstr object_type); ("principal_kind", JVstr principal_kind);
     ("redactions", JVdict redactions)] priority scope created_by.

Definition rate_limit_action (actions : list string) (max_count window_seconds : Z)
  (scope created_by name : string) (priority : Z) : lp Rule :=
  scoped_rule name RT_RATE_LIMIT DENY
    [("action", jstrs actions);
     ("rate_limit", JVdict [("max_count", JVint max_count); ("window_seconds", JVint window_seconds)])]
    priority scope created_by.

Definition quota_for_object_type (object_type : string) (max_count : Z) (scope created_by name : string)
  (priority : Z) : lp Rule :=
  scoped_rule name RT_QUOTA DENY
    [("object_type", JVstr object_type); ("quota", JVdict [("max_count", JVint max_count)])]
    priority scope created_by.

Definition feature_flag (feature : string) (enabled : bool) (rollout_percentage : Z) (scope : option string)
  (created_by : string) (name : option string) (priority : Z) : lp Rule :=
  let conditions := [("feature_flag", JVdict [("feature_name", JVstr feature); ("enabled", JVbool enabled);
                        ("rollout_percentage", JVint rollout_percentage)])]
                    ++ given_string "scope_id" scope in
  rule ← create_rule shared (or_str name ("Feature flag: " +:+ feature)) RT_FEATURE_FLAG
    (if enabled then ALLOW else DENY) (Some conditions) priority "" created_by;
  match given BT_SCOPE scope with
  | (type, sc) :: _ => bind_rule shared (rl_id rule) type sc created_by ;; mret tt
  | [] => mret tt
  end ;;
  mret rule.
End Factories.

(** ** What the engine makes of them *)

Section FactoryTheory.
Context `{host : !Host} `{sink : !AuditSink} (ttl : option Z).

Lemma create_rule_fields shared name type effect conds prio desc by_ s r s' :
  create_rule shared name type effect conds prio desc by_ s = (Ok r, s') →
  rl_type r = type ∧ rl_effect r = effect ∧ rl_conditions r = default [] conds ∧ rl_lifecycle r = ACTIVE ∧
  rl_priority r = prio.
Proof.
  unfold create_rule. intros H. run_inv H. apply mret_ok in H as [-> _]. done.
Qed.

(** A rule just stored and bound to a scope is eligible for every request on that
    scope that its conditions accept. *)
Lemma bound_eligible name type effect conds prio by_ scope r s s1 b s' q :
  rules_ok s →
  create_rule true name type effect (Some conds) prio "" by_ s = (Ok r, s1) →
  bind_rule true (rl_id r) BT_SCOPE scope by_ s1 = (Ok b, s') →
  a_scope_id q = Some scope → scope ≠ "" →
  rules_ok s' ∧ rl_effect r = effect ∧ rl_conditions r = conds ∧
  (_matches_conditions r q = true → eligible (st_db s') q (evaluate_targets q) r) ∧
  (∀ x, eligible (st_db s') q (evaluate_targets q) x →
    x = r ∨ eligible (st_db s) q (evaluate_targets q) x).
Proof.
  intros Hok Hc Hb Hq Hne. destruct (create_keeps _ _ _ _ _ _ _ _ _ _ Hc Hok) as [Hok1 _].
  destruct (bind_keeps _ _ _ _ _ _ _ Hb Hok1) as [Hok2 _].
  pose proof (create_rule_fields _ _ _ _ _ _ _ _ _ _ _ Hc) as (_ & He & Hcond & Hact & _).
  apply create_rule_ok in Hc as (Hnew & _ & Hr1 & _ & Hbs1 & _).
  apply bind_rule_ok in Hb as (_ & Hb1 & Hb2 & Hb3 & Hb4 & _ & Hr2 & _ & Hbs2 & _).
  split_and!; [done..| |].
  - intros Hm. split_and!; [rewrite Hr2, Hr1, elem_of_app; right; left|done|done|].
    exists b. split_and!; [rewrite Hbs2, elem_of_app; right; left|done|done|].
    rewrite Hb2, Hb3. unfold evaluate_targets, request_targets, given. rewrite Hq.
    rewrite bool_decide_eq_false_2 by done. left.
  - intros x (Hx & Hxa & Hxm & b' & Hb' & Hbr & Hba & Hbt). rewrite Hr2, Hr1 in Hx.
    apply elem_of_app in Hx as [Hx| ->%list_elem_of_singleton]; [right|by left].
    split_and!; [done..|]. rewrite Hbs2, Hbs1 in Hb'.
    apply elem_of_app in Hb' as [Hb'| ->%list_elem_of_singleton]; [by exists b'|].
    exfalso. apply (Hnew x Hx). congruence.
Qed.

Lemma evaluate_decides q s res s' :
  rules_ok s → evaluate ttl q s = (Ok res, s') →
  (allowed res = true ↔
    (∃ r, eligible (st_db s) q (evaluate_targets q) r ∧ rl_effect r = ALLOW) ∧
    ∀ r, eligible (st_db s) q (evaluate_targets q) r → rl_effect r ≠ DENY).
Proof.
  intros Hok Hrun. destruct (evaluate_run ttl q s (rules_ok_cache s Hok) (rules_ok_keyed s Hok))
    as (m & c & Heq & _ & Hm & _). rewrite Heq in Hrun. run_inv Hrun. apply mret_ok in Hrun as [-> _].
  rewrite decide_access_spec. setoid_rewrite Hm. done.
Qed.

(** The access engine reads every bound rule as an access rule, whatever its
    type.  A quota stored by its factory denies every later access to objects of
    its type in the scope, of any action and principal, below the quota or not;
    and a feature flag enabled for a scope allows every access of any action,
    principal and type in that scope that no rule denies, where before the
    flag the default was to deny. *)
Theorem factories_change_access q scope s r s' :
  rules_ok s → scope ≠ "" → a_scope_id q = Some scope →
  (∀ type max by_ name prio res s2,
    quota_for_object_type true type max scope by_ name prio s = (Ok r, s') → a_object_type q = Some type →
    evaluate ttl q s' = (Ok res, s2) → allowed res = false) ∧
  (∀ feature rollout by_ name prio res s2,
    feature_flag true feature true rollout (Some scope) by_ name prio s = (Ok r, s') →
    evaluate ttl q s' = (Ok res, s2) →
    (∀ x, eligible (st_db s) q (evaluate_targets q) x → rl_effect x ≠ DENY) → allowed res = true).
Proof.
  intros Hok Hne Hq. split.
  - intros type max by_ name prio res s2 Hrun Ht Hev. unfold quota_for_object_type, scoped_rule in Hrun.
    apply bind_ok_inv in Hrun as (r1 & s1 & Hc & Hrun). apply bind_ok_inv in Hrun as (b & s3 & Hb & Hrun).
    apply mret_ok in Hrun as [-> ->].
    destruct (bound_eligible _ _ _ _ _ _ _ _ _ _ _ _ q Hok Hc Hb Hq Hne) as (Hok' & He & Hcond & Hel & _).
    pose proof (evaluate_decides q _ _ _ Hok' Hev) as Hdec. apply not_true_is_false. intros Hall.
    apply Hdec in Hall as [_ Hno]. apply (Hno r1); [apply Hel|done].
    unfold _matches_conditions. rewrite Hcond. unfold condition_holds, jget. simpl. rewrite Ht. simpl.
    by rewrite bool_decide_eq_true_2.
  - intros feature rollout by_ name prio res s2 Hrun Hev Hbefore. unfold feature_flag in Hrun.
    apply bind_ok_inv in Hrun as (r1 & s1 & Hc & Hrun).
    unfold given in Hrun. rewrite bool_decide_eq_false_2 in Hrun by done.
    apply bind_ok_inv in Hrun as ([] & s3 & Hb & Hrun). apply mret_ok in Hrun as [-> ->].
    apply bind_ok_inv in Hb as (b & s4 & Hb & Hret). apply mret_ok in Hret as [_ ->].
    destruct (bound_eligible _ _ _ _ _ _ _ _ _ _ _ _ q Hok Hc Hb Hq Hne) as (Hok' & He & Hcond & Hel & Hback).
    apply (evaluate_decides q _ _ _ Hok' Hev). split.
    + exists r1. split; [apply Hel|done]. unfold _matches_conditions. rewrite Hcond.
      unfold condition_holds, given_string, jget. rewrite bool_decide_eq_false_2 by done. simpl.
      rewrite Hq. simpl. by rewrite bool_decide_eq_true_2.
    + intros x [->|Hx]%Hback; [by rewrite He|by apply Hbefore].
Qed.
End FactoryTheory.
