(* ===== verification/Versioned.v ===== *)
(** * Legacy v1: rows with numbered versions

    Contracts and templates are rows with a version counter and a table of
    immutable versions that refer to them; what keeps such a pair of tables
    sound is proved here once. *)

From S2P Require Import Prelude LegacyTypes Schema.

Section Versioned.
Context {P V : Type} (pid : P → string) (cur : P → nat).
Context (vid : V → string) (vof : V → string) (num : V → nat).

(** Ids and version numbers are unique, and a version belongs to a row whose
    counter has reached it. *)
Record versioned (ps : list P) (vs : list V) : Prop := {
  vd_parents : NoDup (pid <$> ps);
  vd_versions : NoDup (vid <$> vs);
  vd_keys : NoDup ((λ v, (vof v, num v)) <$> vs);
  vd_counter : ∀ p, p ∈ ps → 1 ≤ cur p;
  vd_bound : ∀ v, v ∈ vs → ∃ p, p ∈ ps ∧ pid p = vof v ∧ 1 ≤ num v ≤ cur p;
}.

Lemma versioned_nil : versioned [] [].
Proof. split; try apply NoDup_nil_2; by intros v ?%elem_of_nil. Qed.

Lemma versioned_parent ps vs p :
  versioned ps vs → 1 ≤ cur p → (∀ q, q ∈ ps → pid p ≠ pid q) → versioned (ps ++ [p]) vs.
Proof.
  intros [H1 H2 H3 H0 H4] Hc Hp. split; [by apply fresh_snoc|done|done| |].
  { intros q [Hq|Hq%list_elem_of_singleton]%elem_of_app; [by apply H0|by subst]. }
  intros v Hv. destruct (H4 v Hv) as (q & Hq & Hr). exists q. split; [apply elem_of_app; by left|done].
Qed.

(** A row changes, its counter does not go back. *)
Lemma versioned_update ps vs (q : P → bool) (f : P → P) :
  (∀ p, pid (f p) = pid p) → (∀ p, p ∈ ps → q p = true → cur p ≤ cur (f p)) →
  versioned ps vs → versioned ((λ p, if q p then f p else p) <$> ps) vs.
Proof.
  intros Hid Hcur [H1 H2 H3 H0 H4]. split; [by rewrite update_column|done|done| |].
  { intros p (p' & -> & Hp)%list_elem_of_fmap. specialize (H0 p' Hp). destruct (q p') eqn:Hq; [|done].
    specialize (Hcur p' Hp Hq). lia. }
  intros v Hv. destruct (H4 v Hv) as (p & Hp & Hpv & Hn). exists (if q p then f p else p).
  split; [apply list_elem_of_fmap; by exists p|]. destruct (q p) eqn:Hq; [|done].
  specialize (Hcur p Hp Hq). rewrite Hid. split; [done|lia].
Qed.

Lemma versioned_snoc ps vs v :
  (∀ w, w ∈ vs → vid v ≠ vid w ∧ (vof v, num v) ≠ (vof w, num w)) →
  (∃ p, p ∈ ps ∧ pid p = vof v ∧ 1 ≤ num v ≤ cur p) → versioned ps vs → versioned ps (vs ++ [v]).
Proof.
  intros Hfresh Hv [H1 H2 H3 H0 H4]. split; [done| | |done|].
  - apply fresh_snoc; [done|]. intros w Hw. by apply Hfresh.
  - rewrite fmap_app. apply NoDup_app. split; [done|]. split; [|apply NoDup_singleton].
    intros k (w & -> & Hw)%list_elem_of_fmap Hk%list_elem_of_singleton. by destruct (Hfresh w Hw) as [_ []].
  - intros w [Hw|Hw%list_elem_of_singleton]%elem_of_app; [by apply H4|by subst].
Qed.

Lemma versioned_parent_eq ps vs p q : versioned ps vs → p ∈ ps → q ∈ ps → pid p = pid q → p = q.
Proof. intros H Hp Hq. by apply (NoDup_fmap_inj_in _ _ _ _ (vd_parents _ _ H)). Qed.

Lemma versioned_key_eq ps vs v w :
  versioned ps vs → v ∈ vs → w ∈ vs → vof v = vof w → num v = num w → v = w.
Proof.
  intros H Hv Hw Hof Hnum. apply (NoDup_fmap_inj_in (λ v, (vof v, num v)) vs v w (vd_keys _ _ H) Hv Hw).
  simpl. congruence.
Qed.

(** A version of a number above the counter is new. *)
Lemma versioned_fresh ps vs v p :
  versioned ps vs → p ∈ ps → pid p = vof v → cur p < num v → ∀ w, w ∈ vs → (vof v, num v) ≠ (vof w, num w).
Proof.
  intros H Hp Hpv Hn w Hw [= Hof Hnum]. destruct (vd_bound _ _ H w Hw) as (q & Hq & Hqw & Hle).
  assert (p = q) as -> by (apply (versioned_parent_eq ps vs p q H Hp Hq); congruence). lia.
Qed.

Lemma versioned_append ps vs p v (q : P → bool) (f : P → P) :
  versioned ps vs → p ∈ ps → pid p = vof v → num v = S (cur p) → (∀ w, w ∈ vs → vid v ≠ vid w) →
  (∀ x, q x = true ↔ pid x = pid p) → (∀ x, pid (f x) = pid x) → cur (f p) = num v →
  versioned ((λ x, if q x then f x else x) <$> ps) (vs ++ [v]).
Proof.
  intros H Hp Hpv Hn Hid Hq Hfid Hfc. apply versioned_snoc.
  - intros w Hw. split; [by apply Hid|]. apply (versioned_fresh ps vs v p H Hp Hpv); [lia|done].
  - exists (f p). split; [|rewrite Hfid; split; [done|lia]]. apply list_elem_of_fmap. exists p. split; [|done].
    by rewrite (proj2 (Hq p) eq_refl).
  - apply versioned_update; [done| |done]. intros x Hx Hqx%Hq.
    rewrite (versioned_parent_eq ps vs x p H Hx Hp Hqx). lia.
Qed.

(** The first of the versions sorted by falling number. *)
Definition newest_number (a b : V) : bool := num b <=? num a.

Lemma newest_sorted l : StronglySorted (leb_rel newest_number) (sort_by newest_number l).
Proof.
  apply sort_by_sorted; unfold newest_number.
  - intros x y. rewrite !Nat.leb_le. lia.
  - intros x y z. rewrite !Nat.leb_le. lia.
Qed.

Lemma head_newest l v :
  v ∈ l → (∀ w, w ∈ l → w = v ∨ num w < num v) → head (sort_by newest_number l) = Some v.
Proof.
  intros Hv Hmax. pose proof (newest_sorted l) as Hsorted. assert (Hin := proj2 (elem_of_sort_by newest_number v l) Hv).
  destruct (sort_by newest_number l) as [|x k] eqn:Hs; [by apply elem_of_nil in Hin|]. cbn.
  assert (Hxl : x ∈ l) by (apply (elem_of_sort_by newest_number); rewrite Hs; left).
  destruct (Hmax x Hxl) as [->|Hlt]; [done|]. apply elem_of_cons in Hin as [->|Hin]; [done|].
  apply StronglySorted_inv in Hsorted as [_ Hx]. rewrite Forall_forall in Hx. specialize (Hx v Hin).
  unfold leb_rel, newest_number in Hx. apply Nat.leb_le in Hx. lia.
Qed.
End Versioned.
