(* ===== verification/Tenancy.v ===== *)
(** * Legacy v1: scopes, memberships and projections (tenancy/lifecycle.py, projection.py)

    The scope lifecycle (create, freeze, archive), its members and the objects
    projected into it, with the walks over the scope hierarchy. *)

From S2P Require Import Prelude LegacyTypes Schema Trail.

(** ** Predicates and snapshots of the models *)

Definition is_active (sc : Scope) : bool := bool_decide (sc_lifecycle sc = ACTIVE).
Definition is_frozen (sc : Scope) : bool := bool_decide (sc_lifecycle sc = DEPRECATED).
Definition is_archived (sc : Scope) : bool := bool_decide (sc_lifecycle sc = ARCHIVED).

Definition SCOPE_LIFECYCLE_FROZEN : string := "FROZEN".
Definition _lifecycle_to_db (l : Lifecycle) : string :=
  if bool_decide (l = DEPRECATED) then SCOPE_LIFECYCLE_FROZEN else lifecycle_name l.
Definition _lifecycle_from_db (s : string) : option Lifecycle :=
  if bool_decide (s = SCOPE_LIFECYCLE_FROZEN) then Some DEPRECATED else lifecycle_of_name s.
Definition lifecycle_display (sc : Scope) : string := _lifecycle_to_db (sc_lifecycle sc).

Definition is_expired (now : Z) (m : ScopeMembership) : bool :=
  match sm_expires m with None => false | Some e => (e <? now)%Z end.

(** [active_membership_condition] at the instant [now]. *)
Definition active_membership (now : Z) (m : ScopeMembership) : bool :=
  bool_decide (sm_lifecycle m = ACTIVE) &&
  match sm_expires m with None => true | Some e => (now <? e)%Z end.

Definition active_projection (p : ScopeProjection) : bool := bool_decide (sp_lifecycle p = ACTIVE).

(** LIMIT n OFFSET k; without a limit the statement has neither. *)
Definition page {R} (limit : option nat) (offset : nat) (l : list R) : list R :=
  match limit with None => l | Some n => take n (drop offset l) end.

Section Tenancy.
Context `{host : !Host} `{sink : !AuditSink}.

Definition scope_snapshot (sc : Scope) : jdict := [
  ("id", JVstr (sc_id sc)); ("name", JVstr (sc_name sc)); ("description", JVstr (sc_description sc));
  ("owner_id", JVstr (sc_owner sc)); ("parent_scope_id", jopt (sc_parent sc));
  ("registry_entry_id", JVnull); ("created_at", JVstr (isoformat (sc_created_at sc)));
  ("lifecycle", JVstr (lifecycle_name (sc_lifecycle sc))); ("metadata", JVdict (sc_metadata sc))].

Definition membership_snapshot (m : ScopeMembership) : jdict := [
  ("id", JVstr (sm_id m)); ("scope_id", JVstr (sm_scope m)); ("principal_id", JVstr (sm_principal m));
  ("role", JVstr (role_value (sm_role m))); ("granted_at", JVstr (isoformat (sm_granted_at m)));
  ("granted_by", JVstr (sm_granted_by m)); ("expires_at", jopt (isoformat <$> sm_expires m));
  ("lifecycle", JVstr (lifecycle_name (sm_lifecycle m)))].

Definition projection_snapshot (p : ScopeProjection) : jdict := [
  ("id", JVstr (sp_id p)); ("scope_id", JVstr (sp_scope p)); ("object_id", JVstr (sp_object p));
  ("projected_at", JVstr (isoformat (sp_projected_at p))); ("projected_by", JVstr (sp_projected_by p));
  ("access_level", JVstr (level_value (sp_level p)));
  ("lifecycle", JVstr (lifecycle_name (sp_lifecycle p)))].

(** ** Rows *)

Definition by_scope (id : string) (sc : Scope) : bool := bool_decide (sc_id sc = id).

(** A foreign key: some row of [tbl] satisfies [p]. *)
Definition require_row {R} (tbl : tables → list R) (p : R → bool) (constraint : string) : lp unit :=
  l ← gets (λ s, tbl (st_db s));
  raise_if (negb (existsb p l)) (IntegrityError constraint).

Definition insert_scope (sc : Scope) : lp unit :=
  match sc_parent sc with
  | None => mret tt
  | Some p => require_row t_scopes (by_scope p) "scopes.parent_scope_id"
  end ;;
  sql_insert t_scopes set_scopes_table (λ a b, bool_decide (sc_id a = sc_id b)) "scopes.id" sc.

(** The row of a principal's role in a scope. *)
Definition of_grant (sc principal : string) (role : ScopeRole) (m : ScopeMembership) : bool :=
  bool_decide (sm_scope m = sc) && bool_decide (sm_principal m = principal) &&
  bool_decide (sm_role m = role).

Definition insert_membership (m : ScopeMembership) : lp unit :=
  require_row t_scopes (by_scope (sm_scope m)) "scope_memberships.scope_id" ;;
  sql_insert t_members set_members
    (λ a b, bool_decide (sm_id a = sm_id b) ||
            of_grant (sm_scope a) (sm_principal a) (sm_role a) b)
    "scope_memberships" m.

Definition of_share (sc object : string) (p : ScopeProjection) : bool :=
  bool_decide (sp_scope p = sc) && bool_decide (sp_object p = object).

Definition by_object (id : string) (o : ScopedObject) : bool := bool_decide (so_id o = id).

Definition insert_projection (p : ScopeProjection) : lp unit :=
  require_row t_scopes (by_scope (sp_scope p)) "scope_projections.scope_id" ;;
  require_row t_objects (by_object (sp_object p)) "scope_projections.object_id" ;;
  sql_insert t_projections set_projections
    (λ a b, bool_decide (sp_id a = sp_id b) || of_share (sp_scope a) (sp_object a) b)
    "scope_projections" p.

(** The UPDATEs of the layer, as functions of the row. *)
Definition set_scope (name description : string) (metadata : jdict) (l : Lifecycle) (sc : Scope) : Scope := {|
  sc_id := sc_id sc; sc_name := name; sc_owner := sc_owner sc; sc_created_at := sc_created_at sc;
  sc_description := description; sc_parent := sc_parent sc; sc_lifecycle := l; sc_metadata := metadata |}.

Definition scope_to (l : Lifecycle) (sc : Scope) : Scope :=
  set_scope (sc_name sc) (sc_description sc) (sc_metadata sc) l sc.

Definition set_member (l : Lifecycle) (at_ : Z) (by_ : string) (expires : option Z) (m : ScopeMembership)
  : ScopeMembership := {|
  sm_id := sm_id m; sm_scope := sm_scope m; sm_principal := sm_principal m; sm_role := sm_role m;
  sm_granted_at := at_; sm_granted_by := by_; sm_expires := expires; sm_lifecycle := l |}.

Definition archived_member (m : ScopeMembership) : ScopeMembership :=
  set_member ARCHIVED (sm_granted_at m) (sm_granted_by m) (sm_expires m) m.

Definition set_projection (l : Lifecycle) (at_ : Z) (by_ : string) (level : AccessLevel)
  (p : ScopeProjection) : ScopeProjection := {|
  sp_id := sp_id p; sp_scope := sp_scope p; sp_object := sp_object p; sp_projected_at := at_;
  sp_projected_by := by_; sp_level := level; sp_lifecycle := l |}.

Definition archived_projection (p : ScopeProjection) : ScopeProjection :=
  set_projection ARCHIVED (sp_projected_at p) (sp_projected_by p) (sp_level p) p.

(** ** ScopeLifecycle *)

Definition get_scope (id : string) : lp (option Scope) := fetch_one t_scopes (by_scope id).

Definition get_scope_or_raise (id : string) : lp Scope :=
  found ← get_scope id;
  match found with
  | Some sc => mret sc
  | None => raise (NotFound ("Scope " +:+ id +:+ " not found"))
  end.

Definition _require_mutable (sc : Scope) : lp unit :=
  raise_if (is_frozen sc) (ScopeFrozen ("Scope " +:+ sc_id sc +:+ " is frozen")) ;;
  raise_if (is_archived sc) (ScopeFrozen ("Scope " +:+ sc_id sc +:+ " is archived")).

(** What [_add_membership] does in its transaction: the membership, and whether
    it was already active. *)
Definition grant_membership (sc principal : string) (role : ScopeRole) (granted_by : string)
  (expires_at : option Z) (ts : Z) : lp (ScopeMembership * bool) :=
  existing ← fetch_one t_members (of_grant sc principal role);
  match existing with
  | Some m =>
      if bool_decide (sm_lifecycle m = ACTIVE) then mret (m, true)
      else
        sql_update t_members set_members (of_grant sc principal role)
          (set_member ACTIVE ts granted_by expires_at) ;;
        mret ({| sm_id := sm_id m; sm_scope := sc; sm_principal := principal; sm_role := role;
                 sm_granted_at := ts; sm_granted_by := granted_by; sm_expires := expires_at;
                 sm_lifecycle := ACTIVE |}, false)
  | None =>
      mem_id ← generate_id;
      let mem := {| sm_id := mem_id; sm_scope := sc; sm_principal := principal; sm_role := role;
        sm_granted_at := ts; sm_granted_by := granted_by; sm_expires := expires_at;
        sm_lifecycle := ACTIVE |} in
      insert_membership mem ;;
      mret (mem, false)
  end.

Definition _add_membership (sc principal : string) (role : ScopeRole) (granted_by : string)
  (expires_at : option Z) : lp ScopeMembership :=
  ts ← now_utc;
  '(mem, already) ← transaction (grant_membership sc principal role granted_by expires_at ts);
  if already : bool then mret mem
  else
    audit (in_scope_req (Some sc) (states_req None (Some (membership_snapshot mem))
      (request granted_by ActionType.MEMBERSHIP_CHANGE "Scope" sc))) ;;
    mret mem.

Definition create_scope (name owner_id description : string) (parent : option string)
  (metadata : option jdict) : lp Scope :=
  ts ← now_utc;
  scope_id ← generate_id;
  let sc := {| sc_id := scope_id; sc_name := name; sc_owner := owner_id; sc_created_at := ts;
    sc_description := description; sc_parent := parent; sc_lifecycle := ACTIVE;
    sc_metadata := default [] metadata |} in
  insert_scope sc ;;
  _add_membership scope_id owner_id OWNER owner_id None ;;
  audit (states_req None (Some (scope_snapshot sc))
    (request owner_id ActionType.SCOPE_CREATE "Scope" scope_id)) ;;
  mret sc.

Definition by_created (a b : Scope) : bool := (sc_created_at a <=? sc_created_at b)%Z.
Definition by_name (a b : Scope) : bool := String.leb (sc_name a) (sc_name b).

(** The order of [list_scopes]: "-" for descending, created_at by default. *)
Definition scope_order (order_by : string) : Scope → Scope → bool :=
  let asc := if bool_decide (strip_dashes order_by = "name") then by_name else by_created in
  if is_desc order_by then flip asc else asc.

Definition scope_filter (owner parent : option string) (include_archived : bool) (sc : Scope) : bool :=
  filter_opt owner (sc_owner sc) && opt_filter_opt parent (sc_parent sc) &&
  (include_archived || negb (is_archived sc)).

Definition list_scopes (owner parent : option string) (include_archived : bool) (order_by : string)
  (limit : option nat) (offset : nat) : lp (list Scope) :=
  l ← select_sorted t_scopes (scope_filter owner parent include_archived) (scope_order order_by);
  mret (page limit offset l).

Definition count_scopes (owner parent : option string) (include_archived : bool) : lp nat :=
  select_count t_scopes (scope_filter owner parent include_archived).

Definition rename_scope (id new_name renamed_by : string) : lp Scope :=
  sc ← get_scope_or_raise id;
  _require_mutable sc ;;
  if bool_decide (sc_name sc = new_name) then mret sc
  else
    sql_update t_scopes set_scopes_table (by_scope id) (λ r,
      set_scope new_name (sc_description r) (sc_metadata r) (sc_lifecycle r) r) ;;
    audit (in_scope_req (Some id) (states_req (Some [("name", JVstr (sc_name sc))])
      (Some [("name", JVstr new_name)]) (request renamed_by ActionType.SCOPE_MODIFY "Scope" id))) ;;
    get_scope_or_raise id.

(** The values [update_scope] writes, when they differ. *)
Definition new_description (sc : Scope) (description : option string) : option string :=
  match description with
  | Some d => if bool_decide (d = sc_description sc) then None else Some d
  | None => None
  end.

Definition update_scope (id : string) (description : option string) (metadata : option jdict)
  (updated_by : string) : lp Scope :=
  sc ← get_scope_or_raise id;
  _require_mutable sc ;;
  let desc := new_description sc description in
  let merged := jmerge (sc_metadata sc) <$> metadata in
  match desc, merged with
  | None, None => mret sc
  | _, _ =>
      sql_update t_scopes set_scopes_table (by_scope id) (λ r,
        set_scope (sc_name r) (default (sc_description r) desc) (default (sc_metadata r) merged)
          (sc_lifecycle r) r) ;;
      audit (in_scope_req (Some id) (states_req
        (Some (from_option (λ _, [("description", JVstr (sc_description sc))]) [] desc ++
               from_option (λ _, [("metadata", JVdict (sc_metadata sc))]) [] merged))
        (Some (from_option (λ d, [("description", JVstr d)]) [] desc ++
               from_option (λ m, [("metadata", JVdict m)]) [] merged))
        (request updated_by ActionType.SCOPE_MODIFY "Scope" id))) ;;
      get_scope_or_raise id
  end.

(** *** Members *)

Definition add_member (sc principal : string) (role : ScopeRole) (granted_by : string)
  (expires_at : option Z) : lp ScopeMembership :=
  scope ← get_scope_or_raise sc;
  _require_mutable scope ;;
  _add_membership sc principal role granted_by expires_at.

(** [ScopeRole(value)]. *)
Definition role_of_value (s : string) : outcome ScopeRole :=
  match find (λ r, bool_decide (role_value r = s)) [VIEWER; EDITOR; ADMIN_ROLE; OWNER] with
  | Some r => Ok r
  | None => Raise (ValueError ("'" +:+ s +:+ "' is not a valid ScopeRole"))
  end.

(** A member dict: its principal_id and its role, when given. *)
Definition add_members (sc : string) (members : list (string * option string)) (granted_by : string)
  : lp (list ScopeMembership) :=
  scope ← get_scope_or_raise sc;
  _require_mutable scope ;;
  for_fold members [] (λ results m,
    role ← lift (role_of_value (default "viewer" m.2));
    mem ← _add_membership sc m.1 role granted_by None;
    mret (results ++ [mem])).

Definition revocable (sc principal : string) (role : option ScopeRole) (m : ScopeMembership) : bool :=
  bool_decide (sm_scope m = sc) && bool_decide (sm_principal m = principal) &&
  bool_decide (sm_lifecycle m = ACTIVE) && filter_opt role (sm_role m).

Definition revoke_member (sc principal revoked_by : string) (role : option ScopeRole) : lp nat :=
  scope ← get_scope_or_raise sc;
  _require_mutable scope ;;
  rows ← select t_members (revocable sc principal role);
  match rows with
  | [] => mret 0
  | _ =>
      sql_update t_members set_members (revocable sc principal role) archived_member ;;
      for_each rows (λ row,
        audit (in_scope_req (Some sc) (states_req (Some (membership_snapshot row)) None
          (request revoked_by ActionType.REVOKE "Scope" sc)))) ;;
      mret (length rows)
  end.

Definition by_granted (a b : ScopeMembership) : bool := (sm_granted_at a <=? sm_granted_at b)%Z.

Definition get_memberships (sc : string) (active_only : bool) (limit : option nat) (offset : nat)
  : lp (list ScopeMembership) :=
  now ← now_utc;
  l ← select_sorted t_members (λ m, bool_decide (sm_scope m = sc) &&
    (negb active_only || active_membership now m)) by_granted;
  mret (page limit offset l).

Definition get_principal_scopes (principal : string) (active_only : bool) (limit : option nat)
  (offset : nat) : lp (list ScopeMembership) :=
  now ← now_utc;
  l ← select t_members (λ m, bool_decide (sm_principal m = principal) &&
    (negb active_only || active_membership now m));
  mret (page limit offset l).

Definition member_of (sc principal : string) (m : ScopeMembership) : bool :=
  bool_decide (sm_scope m = sc) && bool_decide (sm_principal m = principal).

(** lifecycle = ACTIVE and expires_at <= now. *)
Definition lapsed (now : Z) (m : ScopeMembership) : bool :=
  bool_decide (sm_lifecycle m = ACTIVE) &&
  match sm_expires m with None => false | Some e => (e <=? now)%Z end.

(** Expired memberships are archived on the way. *)
Definition is_member (sc principal : string) : lp bool :=
  now ← now_utc;
  row ← fetch_one t_members (λ m, member_of sc principal m && active_membership now m);
  match row with
  | Some _ => mret true
  | None =>
      expired ← fetch_one t_members (λ m, member_of sc principal m && lapsed now m);
      match expired with
      | Some _ => sql_update t_members set_members (λ m, member_of sc principal m && lapsed now m)
                    archived_member
      | None => mret tt
      end ;;
      mret false
  end.

(** *** Transitions *)

Definition freeze_scope (id frozen_by : string) : lp Scope :=
  sc ← get_scope_or_raise id;
  raise_if (negb (is_active sc)) (ScopeFrozen ("Scope " +:+ id +:+ " is not active (current: " +:+
    lifecycle_name (sc_lifecycle sc) +:+ ")")) ;;
  transaction (sql_update t_scopes set_scopes_table (by_scope id) (scope_to DEPRECATED)) ;;
  audit (in_scope_req (Some id) (states_req (Some [("lifecycle", JVstr "ACTIVE")])
    (Some [("lifecycle", JVstr SCOPE_LIFECYCLE_FROZEN)])
    (request frozen_by ActionType.LIFECYCLE_CHANGE "Scope" id))) ;;
  get_scope_or_raise id.

Definition archive_scope (id archived_by : string) : lp Scope :=
  sc ← get_scope_or_raise id;
  raise_if (is_archived sc) (ScopeFrozen ("Scope " +:+ id +:+ " is already archived")) ;;
  transaction (
    sql_update t_members set_members
      (λ m, bool_decide (sm_scope m = id) && bool_decide (sm_lifecycle m = ACTIVE)) archived_member ;;
    sql_update t_projections set_projections
      (λ p, bool_decide (sp_scope p = id) && active_projection p) archived_projection ;;
    sql_update t_scopes set_scopes_table (by_scope id) (scope_to ARCHIVED)) ;;
  audit (in_scope_req (Some id) (states_req
    (Some [("lifecycle", JVstr (_lifecycle_to_db (sc_lifecycle sc)))])
    (Some [("lifecycle", JVstr "ARCHIVED")])
    (request archived_by ActionType.SCOPE_DISSOLVE "Scope" id))) ;;
  get_scope_or_raise id.
End Tenancy.

(** ** The scope hierarchy *)

Section Hierarchy.
Context `{host : !Host}.

Definition live_child (id : string) (sc : Scope) : bool :=
  bool_decide (sc_parent sc = Some id) && negb (is_archived sc).

Definition children (id : string) (limit : nat) : lp (list Scope) :=
  l ← select t_scopes (live_child id); mret (take limit l).

(** [while current_id]: None and the empty string end the walk; None is the
    result when the fuel runs out. *)
Fixpoint ancestors_loop (fuel : nat) (start : string) (current : option string) (seen : list string)
  (result : list Scope) : lp (option (list Scope)) :=
  match fuel with
  | 0 => mret None
  | S fuel' =>
      match current with
      | None => mret (Some result)
      | Some id =>
          if bool_decide (id = "") then mret (Some result)
          else if bool_decide (id ∈ seen) then mret (Some result)
          else
            found ← get_scope id;
            match found with
            | None => mret (Some result)
            | Some sc =>
                ancestors_loop fuel' start (sc_parent sc) (id :: seen)
                  (if bool_decide (id = start) then result else result ++ [sc])
            end
      end
  end.

(** Every turn but the last sees a new row: two more turns than rows are enough. *)
Definition ancestors (id : string) : lp (option (list Scope)) :=
  n ← gets (λ s, length (t_scopes (st_db s)));
  ancestors_loop (S (S n)) id (Some id) [] [].

(** The inner loop of [descendants] over the children of one scope. *)
Fixpoint visit_kids (depth max_total : nat) (kids : list Scope) (result : list Scope)
  (queue : list (string * nat)) (seen : list string)
  : list Scope * list (string * nat) * list string :=
  match kids with
  | [] => (result, queue, seen)
  | c :: kids' =>
      if bool_decide (sc_id c ∈ seen) then visit_kids depth max_total kids' result queue seen
      else
        let result' := result ++ [c] in
        if max_total <=? length result' then (result', queue, sc_id c :: seen)
        else visit_kids depth max_total kids' result' (queue ++ [(sc_id c, S depth)]) (sc_id c :: seen)
  end.

Fixpoint descendants_loop (fuel max_depth max_total : nat) (result : list Scope)
  (queue : list (string * nat)) (seen : list string) : lp (option (list Scope)) :=
  match fuel with
  | 0 => mret None
  | S fuel' =>
      match queue with
      | [] => mret (Some result)
      | (id, depth) :: queue' =>
          if max_total <=? length result then mret (Some result)
          else if max_depth <=? depth
          then descendants_loop fuel' max_depth max_total result queue' seen
          else
            kids ← children id 1000;
            let '(result', queue'', seen') := visit_kids depth max_total kids result queue' seen in
            descendants_loop fuel' max_depth max_total result' queue'' seen'
      end
  end.

(** Every turn pops one scope, and a scope is queued at most once. *)
Definition descendants (id : string) (max_depth max_total : nat) : lp (option (list Scope)) :=
  n ← gets (λ s, length (t_scopes (st_db s)));
  descendants_loop (S (S n)) max_depth max_total [] [(id, 0)] [id].

Definition path (id : string) : lp (option (list Scope)) :=
  up ← ancestors id;
  self ← get_scope id;
  mret ((λ l, reverse l ++ option_list self) <$> up).
End Hierarchy.

(** ** ProjectionManager *)

Section Projections.
Context `{host : !Host} `{sink : !AuditSink}.

Definition owner_message : string := "Only the object owner can project objects into scopes".

Definition project (sc object projected_by : string) (level : AccessLevel) : lp ScopeProjection :=
  scope_row ← fetch_one t_scopes (by_scope sc);
  match scope_row with
  | None => raise (NotFound ("Scope " +:+ sc +:+ " not found"))
  | Some scope => raise_if (is_frozen scope || is_archived scope)
                    (ScopeFrozen ("Scope " +:+ sc +:+ " is not mutable"))
  end ;;
  obj_row ← fetch_one t_objects (by_object object);
  match obj_row with
  | None => raise (AccessDenied ("Object " +:+ object +:+ " not found"))
  | Some o => raise_if (negb (bool_decide (so_owner o = projected_by))) (AccessDenied owner_message)
  end ;;
  ts ← now_utc;
  existing ← fetch_one t_projections (of_share sc object);
  match existing with
  | Some p =>
      if active_projection p then mret p
      else
        sql_update t_projections set_projections (of_share sc object)
          (set_projection ACTIVE ts projected_by level) ;;
        let proj := {| sp_id := sp_id p; sp_scope := sc; sp_object := object; sp_projected_at := ts;
          sp_projected_by := projected_by; sp_level := level; sp_lifecycle := ACTIVE |} in
        audit (in_scope_req (Some sc) (states_req None (Some (projection_snapshot proj))
          (request projected_by ActionType.PROJECTION "ScopeProjection" object))) ;;
        mret proj
  | None =>
      proj_id ← generate_id;
      let proj := {| sp_id := proj_id; sp_scope := sc; sp_object := object; sp_projected_at := ts;
        sp_projected_by := projected_by; sp_level := level; sp_lifecycle := ACTIVE |} in
      insert_projection proj ;;
      audit (in_scope_req (Some sc) (states_req None (Some (projection_snapshot proj))
        (request projected_by ActionType.PROJECTION "ScopeProjection" object))) ;;
      mret proj
  end.

Definition shared_now (sc object : string) (p : ScopeProjection) : bool :=
  of_share sc object p && active_projection p.

Definition revoke_projection (sc object revoked_by : string) : lp bool :=
  row ← fetch_one t_projections (shared_now sc object);
  match row with
  | None => mret false
  | Some p =>
      sql_update t_projections set_projections (shared_now sc object) archived_projection ;;
      audit (in_scope_req (Some sc) (states_req (Some (projection_snapshot p)) None
        (request revoked_by ActionType.REVOKE "ScopeProjection" object))) ;;
      mret true
  end.

Definition by_projected (a b : ScopeProjection) : bool := (sp_projected_at a <=? sp_projected_at b)%Z.

Definition get_projections (sc : string) (active_only : bool) (limit : option nat) (offset : nat)
  : lp (list ScopeProjection) :=
  l ← select_sorted t_projections (λ p, bool_decide (sp_scope p = sc) &&
    (negb active_only || active_projection p)) by_projected;
  mret (page limit offset l).

Definition get_object_projections (object : string) (active_only : bool) : lp (list ScopeProjection) :=
  select t_projections (λ p, bool_decide (sp_object p = object) &&
    (negb active_only || active_projection p)).

Definition is_projected (sc object : string) : lp bool :=
  row ← fetch_one t_projections (shared_now sc object);
  mret (match row with Some _ => true | None => false end).
End Projections.

(** ** What the layer leaves alone *)

Section Layers.
Context `{host : !Host} `{sink : !AuditSink}.

Lemma add_membership_layers sc p role by_ ex : respects same_layers (_add_membership sc p role by_ ex).
Proof.
  unfold _add_membership, grant_membership, insert_membership, require_row, generate_id, now_utc, fetch_one, select.
  solve_layers.
Qed.

Lemma create_scope_layers name owner description parent metadata :
  respects same_layers (create_scope name owner description parent metadata).
Proof.
  unfold create_scope, insert_scope, require_row, generate_id, now_utc.
  pose proof add_membership_layers. solve_layers.
Qed.

Lemma archive_scope_layers id by_ : respects same_layers (archive_scope id by_).
Proof.
  unfold archive_scope, get_scope_or_raise, get_scope, fetch_one, select. solve_layers.
Qed.

Lemma project_layers sc object by_ level : respects same_layers (project sc object by_ level).
Proof. unfold project, insert_projection, require_row, generate_id, now_utc, fetch_one, select. solve_layers. Qed.
End Layers.

(** ** The tenancy invariant *)

Definition grant_key (m : ScopeMembership) : string * string * ScopeRole :=
  (sm_scope m, sm_principal m, sm_role m).
Definition share_key (p : ScopeProjection) : string * string := (sp_scope p, sp_object p).

Definition is_mutable (sc : Scope) : bool := negb (is_frozen sc || is_archived sc).

(** Ids are unique, a principal holds a role in a scope by one row and an object
    is shared into a scope by one row, and a dissolved scope has no active
    member and no active projection. *)
Record tenancy_ok (t : tables) : Prop := {
  ok_scopes : NoDup (sc_id <$> t_scopes t);
  ok_grants : NoDup (grant_key <$> t_members t);
  ok_shares : NoDup (share_key <$> t_projections t);
  ok_members : ∀ sc m, sc ∈ t_scopes t → m ∈ t_members t → sm_scope m = sc_id sc →
    sc_lifecycle sc = ARCHIVED → sm_lifecycle m ≠ ACTIVE;
  ok_projections : ∀ sc p, sc ∈ t_scopes t → p ∈ t_projections t → sp_scope p = sc_id sc →
    sc_lifecycle sc = ARCHIVED → sp_lifecycle p ≠ ACTIVE;
}.

(** How far a scope is: open, frozen, dissolved. *)
Definition stage (l : Lifecycle) : nat :=
  match l with DRAFT | ACTIVE => 0 | DEPRECATED => 1 | ARCHIVED => 2 end.

(** The later state [sc'] of the scope [sc]. *)
Definition later (sc sc' : Scope) : Prop :=
  sc_id sc' = sc_id sc ∧ sc_owner sc' = sc_owner sc ∧ sc_parent sc' = sc_parent sc ∧
  sc_created_at sc' = sc_created_at sc ∧ stage (sc_lifecycle sc) ≤ stage (sc_lifecycle sc') ∧
  (is_mutable sc = true ∨ sc_name sc' = sc_name sc ∧ sc_description sc' = sc_description sc ∧
    sc_metadata sc' = sc_metadata sc).

(** Scopes stay and only move forward; a scope that is frozen or dissolved keeps
    its name, description and metadata, and gains no active member and no
    active projection. *)
Record advances (t t' : tables) : Prop := {
  adv_scopes : ∀ sc, sc ∈ t_scopes t → ∃ sc', sc' ∈ t_scopes t' ∧ later sc sc';
  adv_members : ∀ sc m, sc ∈ t_scopes t → is_mutable sc = false → m ∈ t_members t' →
    sm_scope m = sc_id sc → sm_lifecycle m = ACTIVE → m ∈ t_members t;
  adv_projections : ∀ sc p, sc ∈ t_scopes t → is_mutable sc = false → p ∈ t_projections t' →
    sp_scope p = sc_id sc → sp_lifecycle p = ACTIVE → p ∈ t_projections t;
}.

Lemma mutable_stage sc : is_mutable sc = true ↔ stage (sc_lifecycle sc) = 0.
Proof. unfold is_mutable, is_frozen, is_archived. by destruct (sc_lifecycle sc). Qed.

Lemma later_refl sc : later sc sc.
Proof. split_and!; [done..|by right]. Qed.

Lemma later_immutable sc sc' : later sc sc' → is_mutable sc = false → is_mutable sc' = false.
Proof.
  intros (_ & _ & _ & _ & Hs & _). rewrite <-!not_true_iff_false, !mutable_stage. lia.
Qed.

#[export] Instance advances_preorder : PreOrder advances.
Proof.
  split; [split; eauto using later_refl|].
  intros t1 t2 t3 [A1 A2 A3] [B1 B2 B3]. split.
  - intros sc Hsc. destruct (A1 sc Hsc) as (sc' & Hsc' & Hl). destruct (B1 sc' Hsc') as (sc'' & ? & Hl').
    exists sc''. split; [done|]. destruct Hl as (?&?&?&?&?&Hn), Hl' as (?&?&?&?&?&Hn').
    split_and!; [congruence..|lia|]. destruct (is_mutable sc) eqn:Hm; [by left|right].
    destruct Hn as [?|(?&?&?)]; [done|].
    assert (is_mutable sc' = false) as Hm'.
    { rewrite <-not_true_iff_false, mutable_stage in *. lia. }
    destruct Hn' as [?|(?&?&?)]; [congruence|]. split_and!; congruence.
  - intros sc m Hsc Him Hm Hs Ha. destruct (A1 sc Hsc) as (sc' & Hsc' & Hl).
    apply (A2 sc); [done..| |done|done]. apply (B2 sc'); [done|by eapply later_immutable|done| |done].
    destruct Hl as [-> _]. done.
  - intros sc p Hsc Him Hp Hs Ha. destruct (A1 sc Hsc) as (sc' & Hsc' & Hl).
    apply (A3 sc); [done..| |done|done]. apply (B3 sc'); [done|by eapply later_immutable|done| |done].
    destruct Hl as [-> _]. done.
Qed.

(** Running [m] from [s] keeps the invariant and only moves forward, whether it
    returns or raises. *)
Definition stays {R} (m : lp R) (s : store) : Prop :=
  tenancy_ok (st_db s) → tenancy_ok (st_db (m s).2) ∧ advances (st_db s) (st_db (m s).2).

Lemma stays_bind {R R'} (m : lp R) (f : R → lp R') s :
  stays m s → (∀ a s1, m s = (Ok a, s1) → stays (f a) s1) → stays (m ≫= f) s.
Proof.
  intros Hm Hf Hok. rewrite run_bind. destruct (Hm Hok) as [H1 H2].
  destruct (m s) as [[a|e] s1]; [|done]. destruct (Hf a s1 eq_refl H1) as [H3 H4].
  split; [done|]. by etrans.
Qed.

Lemma stays_same {R} (m : lp R) s :
  t_scopes (st_db (m s).2) = t_scopes (st_db s) → t_members (st_db (m s).2) = t_members (st_db s) →
  t_projections (st_db (m s).2) = t_projections (st_db s) → stays m s.
Proof.
  intros H1 H2 H3 [A1 A2 A3 A4 A5]. split; [split; by rewrite ?H1, ?H2, ?H3|].
  split; rewrite ?H1, ?H2, ?H3; eauto using later_refl.
Qed.

Lemma stays_pure {R} (m : lp R) s : (m s).2 = s → stays m s.
Proof. intros H. by apply stays_same; rewrite H. Qed.

Lemma stays_audit `{sink : !AuditSink} q s : stays (audit q) s.
Proof.
  pose proof (quiet_db s _ (audit_quiet q s)) as (_ & _ & _ & H1 & H2 & H3 & _). by apply stays_same.
Qed.

Lemma stays_transaction {R} (m : lp R) s : stays m s → stays (transaction m) s.
Proof.
  intros Hm Hok. unfold transaction. specialize (Hm Hok). destruct (m s) as [[a|e] s1]; [done|].
  simpl. by split.
Qed.

Lemma stays_for_each {X} (l : list X) (body : X → lp unit) s :
  (∀ x s, x ∈ l → stays (body x) s) → stays (for_each l body) s.
Proof.
  revert s. induction l as [|x l IH]; intros s H; simpl; [by apply stays_pure|].
  apply stays_bind; [apply H; left|]. intros _ s1 _. apply IH. intros y s' Hy. apply H. by right.
Qed.

(** *** The statements *)

Section Statements.
Context `{host : !Host} `{sink : !AuditSink}.

(** Archiving members or projections. *)
Lemma stays_archive_members p s : stays (sql_update t_members set_members p archived_member) s.
Proof.
  intros [A1 A2 A3 A4 A5]. cbn. split.
  - split; cbn; [done| |done| |done].
    + rewrite <-list_fmap_compose. rewrite (list_fmap_ext _ grant_key); [done|].
      intros i m _. simpl. by destruct (p m).
    + intros sc m' Hsc (m & -> & Hm)%list_elem_of_fmap Hs Har. destruct (p m); [done|by apply (A4 sc m)].
  - split; cbn; [eauto using later_refl| |done].
    intros sc m' Hsc Him (m & -> & Hm)%list_elem_of_fmap Hs Ha. by destruct (p m).
Qed.

Lemma stays_archive_projections p s :
  stays (sql_update t_projections set_projections p archived_projection) s.
Proof.
  intros [A1 A2 A3 A4 A5]. cbn. split.
  - split; cbn; [done|done| |done|].
    + rewrite <-list_fmap_compose. rewrite (list_fmap_ext _ share_key); [done|].
      intros i m _. simpl. by destruct (p m).
    + intros sc m' Hsc (m & -> & Hm)%list_elem_of_fmap Hs Har. destruct (p m); [done|by apply (A5 sc m)].
  - split; cbn; [eauto using later_refl|done|].
    intros sc m' Hsc Him (m & -> & Hm)%list_elem_of_fmap Hs Ha. by destruct (p m).
Qed.

Lemma scopes_keyed t a b :
  tenancy_ok t → a ∈ t_scopes t → b ∈ t_scopes t → sc_id a = sc_id b → a = b.
Proof. intros Hok. apply (NoDup_fmap_inj_in _ _ _ _ (ok_scopes _ Hok)). Qed.

(** Updating the scope [id] by [f]: [f] moves its row forward, and dissolves it
    only when nothing active is left in it. *)
Lemma stays_update_scope id f sc s :
  sc ∈ t_scopes (st_db s) → sc_id sc = id → later sc (f sc) →
  (sc_lifecycle (f sc) = ARCHIVED →
    (∀ m, m ∈ t_members (st_db s) → sm_scope m = id → sm_lifecycle m ≠ ACTIVE) ∧
    (∀ p, p ∈ t_projections (st_db s) → sp_scope p = id → sp_lifecycle p ≠ ACTIVE)) →
  stays (sql_update t_scopes set_scopes_table (by_scope id) f) s.
Proof.
  intros Hsc Hid Hl Har Hok. set (g := λ x, if by_scope id x then f x else x).
  assert (Hg : ∀ x, x ∈ t_scopes (st_db s) → g x = x ∨ x = sc ∧ g x = f sc).
  { intros x Hx. unfold g, by_scope. case_bool_decide as Hi; [|by left]. right.
    assert (x = sc) as -> by (apply (scopes_keyed (st_db s)); [done..|congruence]). done. }
  assert (Hlater : ∀ x, x ∈ t_scopes (st_db s) → later x (g x))
    by (intros x Hx; destruct (Hg x Hx) as [->|[-> ->]]; [apply later_refl|done]).
  cbn. fold g. split.
  - pose proof Hok as [A1 A2 A3 A4 A5]. split; cbn; [|done|done| |].
    + fold g. rewrite <-list_fmap_compose. rewrite (list_fmap_ext _ sc_id); [done|].
      intros i x Hx%list_elem_of_lookup_2. by destruct (Hlater x Hx) as [? _].
    + fold g. intros x' m (x & -> & Hx)%list_elem_of_fmap Hm Hs Hla.
      destruct (Hlater x Hx) as [Hi _]. destruct (Hg x Hx) as [Heq|[-> Heq]]; rewrite Heq in *.
      * by apply (A4 x m).
      * apply Har; [done|done|congruence].
    + fold g. intros x' p (x & -> & Hx)%list_elem_of_fmap Hp Hs Hla.
      destruct (Hlater x Hx) as [Hi _]. destruct (Hg x Hx) as [Heq|[-> Heq]]; rewrite Heq in *.
      * by apply (A5 x p).
      * apply Har; [done|done|congruence].
  - split; cbn; [|done|done]. intros x Hx. exists (g x). fold g.
    split; [by apply list_elem_of_fmap_2|by apply Hlater].
Qed.

(** Adding a scope under a new id. *)
Lemma stays_insert_scope sc s : is_mutable sc = true → stays (insert_scope sc) s.
Proof.
  intros Hmut. unfold insert_scope. apply stays_bind.
  { apply stays_pure. destruct (sc_parent sc); [|done]. unfold require_row, gets, mbind, prog_bind, raise_if.
    by destruct (negb _). }
  intros _ s1 _ Hok. destruct (sql_insert _ _ _ _ sc s1) as [[u|e] s2] eqn:Hrun.
  - apply sql_insert_ok in Hrun as [Hnew ->]. cbn. pose proof Hok as [A1 A2 A3 A4 A5].
    assert (Hfresh : ∀ x, x ∈ t_scopes (st_db s1) → sc_id x ≠ sc_id sc).
    { intros x Hx Heq. specialize (Hnew x Hx). by apply bool_decide_eq_false_1 in Hnew. }
    assert (Hnot : sc_lifecycle sc ≠ ARCHIVED) by (intros Ha; apply mutable_stage in Hmut; by rewrite Ha in Hmut).
    split.
    + split; cbn; [|done|done| |].
      * rewrite fmap_app. apply NoDup_app. split; [done|]. split; [|apply NoDup_singleton].
        intros i (x & -> & Hx)%list_elem_of_fmap Hi%list_elem_of_singleton. by apply (Hfresh x).
      * intros x m [Hx|Hx%list_elem_of_singleton]%elem_of_app; [by apply A4|by subst x].
      * intros x p [Hx|Hx%list_elem_of_singleton]%elem_of_app; [by apply A5|by subst x].
    + split; cbn; [|done|done]. intros x Hx. exists x. split; [apply elem_of_app; by left|apply later_refl].
  - assert (s2 = s1) as ->; [|by split]. revert Hrun. unfold sql_insert, gets, mbind, prog_bind, raise_if, modify.
    by destruct (existsb _ _); intros [= _ <-].
Qed.

Lemma sql_insert_raise {R} (tbl : tables → list R) put clash c (r : R) s e s' :
  sql_insert tbl put clash c r s = (Raise e, s') → s' = s.
Proof.
  unfold sql_insert, gets, mbind, prog_bind, raise_if, modify. by destruct (existsb _ _); intros [= _ <-].
Qed.

Lemma stays_require {R} (tbl : tables → list R) p c s : stays (require_row tbl p c) s.
Proof. apply stays_pure. unfold require_row, gets, mbind, prog_bind, raise_if. by destruct (negb _). Qed.

Lemma require_row_reads {R} (tbl : tables → list R) p c s : (require_row tbl p c s).2 = s.
Proof. unfold require_row. rewrite run_bind. cbn. by destruct (negb _). Qed.

Lemma require_row_cases {R} (tbl : tables → list R) p c s :
  require_row tbl p c s = (Ok tt, s) ∨ require_row tbl p c s = (Raise (IntegrityError c), s).
Proof. unfold require_row. rewrite run_bind. cbn. destruct (negb _); [by right|by left]. Qed.

Lemma require_row_ok {R} (tbl : tables → list R) p c s u s' :
  require_row tbl p c s = (Ok u, s') → s' = s ∧ ∃ r, r ∈ tbl (st_db s) ∧ p r = true.
Proof.
  unfold require_row. intros H. repeat run_stmt. split; [done|].
  match goal with H : negb _ = false |- _ => apply negb_false_iff, existsb_exists in H as (r & Hr & Hp) end.
  exists r. by rewrite list_elem_of_In.
Qed.

(** The scope [id] accepts changes. *)
Definition open_scope (id : string) (s : store) : Prop :=
  ∀ sc, sc ∈ t_scopes (st_db s) → sc_id sc = id → is_mutable sc = true.

Lemma open_not_archived id s sc :
  open_scope id s → sc ∈ t_scopes (st_db s) → sc_id sc = id → sc_lifecycle sc ≠ ARCHIVED.
Proof. intros Ho Hsc Hid Ha. specialize (Ho sc Hsc Hid). apply mutable_stage in Ho. by rewrite Ha in Ho. Qed.

Lemma stays_insert_membership m s : open_scope (sm_scope m) s → stays (insert_membership m) s.
Proof.
  intros Ho. unfold insert_membership. apply stays_bind; [apply stays_require|].
  intros u' s1 Hreq Hok. apply require_row_ok in Hreq as [-> _].
  destruct (sql_insert _ _ _ _ m s) as [[u|e] s2] eqn:Hrun;
    [|apply sql_insert_raise in Hrun as ->; by split].
  apply sql_insert_ok in Hrun as [Hnew ->]. cbn. pose proof Hok as [A1 A2 A3 A4 A5]. split.
  - split; cbn; [done| |done| |done].
    + rewrite fmap_app. apply NoDup_app. split; [done|]. split; [|apply NoDup_singleton].
      intros k (x & -> & Hx)%list_elem_of_fmap [= H1 H2 H3]%list_elem_of_singleton.
      specialize (Hnew x Hx). apply orb_false_iff in Hnew as [_ Hnew]. unfold of_grant in Hnew.
      by rewrite !bool_decide_eq_true_2 in Hnew.
    + intros sc x Hsc [Hx|Hx%list_elem_of_singleton]%elem_of_app Hs Ha; [by apply (A4 sc)|subst x].
      exfalso. by apply (open_not_archived (sm_scope m) s sc).
  - split; cbn; [eauto using later_refl| |done].
    intros sc x Hsc Him [Hx|Hx%list_elem_of_singleton]%elem_of_app Hs _; [done|subst x].
    specialize (Ho sc Hsc). rewrite Him in Ho. by discriminate Ho.
Qed.

Lemma stays_regrant sc pr role at_ by_ e s :
  open_scope sc s → stays (sql_update t_members set_members (of_grant sc pr role) (set_member ACTIVE at_ by_ e)) s.
Proof.
  intros Ho [A1 A2 A3 A4 A5]. cbn.
  assert (Hg : ∀ m, of_grant sc pr role m = true → sm_scope m = sc).
  { intros m Hm. unfold of_grant in Hm. rewrite !andb_true_iff, !bool_decide_eq_true in Hm. tauto. }
  split.
  - split; cbn; [done| |done| |done].
    + rewrite <-list_fmap_compose. rewrite (list_fmap_ext _ grant_key); [done|].
      intros i m _. simpl. by destruct (of_grant sc pr role m).
    + intros x m' Hx (m & -> & Hm)%list_elem_of_fmap Hs Ha.
      destruct (of_grant sc pr role m) eqn:Hof; [|by apply (A4 x m)].
      exfalso. apply (open_not_archived sc s x); [done|done| |done]. rewrite <-(Hg m Hof). done.
  - split; cbn; [eauto using later_refl| |done].
    intros x m' Hx Him (m & -> & Hm)%list_elem_of_fmap Hs Ha.
    destruct (of_grant sc pr role m) eqn:Hof; [|done].
    specialize (Ho x Hx). rewrite Him in Ho. discriminate Ho. rewrite <-(Hg m Hof). done.
Qed.

Lemma stays_insert_projection p s : open_scope (sp_scope p) s → stays (insert_projection p) s.
Proof.
  intros Ho. unfold insert_projection. apply stays_bind; [apply stays_require|].
  intros u' s1 Hreq. apply require_row_ok in Hreq as [-> _].
  apply stays_bind; [apply stays_require|]. intros u'' s1 Hreq Hok. apply require_row_ok in Hreq as [-> _].
  destruct (sql_insert _ _ _ _ p s) as [[u|e] s2] eqn:Hrun;
    [|apply sql_insert_raise in Hrun as ->; by split].
  apply sql_insert_ok in Hrun as [Hnew ->]. cbn. pose proof Hok as [A1 A2 A3 A4 A5]. split.
  - split; cbn; [done|done| |done|].
    + rewrite fmap_app. apply NoDup_app. split; [done|]. split; [|apply NoDup_singleton].
      intros k (x & -> & Hx)%list_elem_of_fmap [= H1 H2]%list_elem_of_singleton.
      specialize (Hnew x Hx). apply orb_false_iff in Hnew as [_ Hnew]. unfold of_share in Hnew.
      by rewrite !bool_decide_eq_true_2 in Hnew.
    + intros sc x Hsc [Hx|Hx%list_elem_of_singleton]%elem_of_app Hs Ha; [by apply (A5 sc)|subst x].
      exfalso. by apply (open_not_archived (sp_scope p) s sc).
  - split; cbn; [eauto using later_refl|done|].
    intros sc x Hsc Him [Hx|Hx%list_elem_of_singleton]%elem_of_app Hs _; [done|subst x].
    specialize (Ho sc Hsc). rewrite Him in Ho. by discriminate Ho.
Qed.

Lemma stays_reshare sc object at_ by_ l s :
  open_scope sc s →
  stays (sql_update t_projections set_projections (of_share sc object) (set_projection ACTIVE at_ by_ l)) s.
Proof.
  intros Ho [A1 A2 A3 A4 A5]. cbn.
  assert (Hg : ∀ p, of_share sc object p = true → sp_scope p = sc).
  { intros p Hp. unfold of_share in Hp. rewrite !andb_true_iff, !bool_decide_eq_true in Hp. tauto. }
  split.
  - split; cbn; [done|done| |done|].
    + rewrite <-list_fmap_compose. rewrite (list_fmap_ext _ share_key); [done|].
      intros i p _. simpl. by destruct (of_share sc object p).
    + intros x p' Hx (p & -> & Hp)%list_elem_of_fmap Hs Ha.
      destruct (of_share sc object p) eqn:Hof; [|by apply (A5 x p)].
      exfalso. apply (open_not_archived sc s x); [done|done| |done]. rewrite <-(Hg p Hof). done.
  - split; cbn; [eauto using later_refl|done|].
    intros x p' Hx Him (p & -> & Hp)%list_elem_of_fmap Hs Ha.
    destruct (of_share sc object p) eqn:Hof; [|done].
    specialize (Ho x Hx). rewrite Him in Ho. discriminate Ho. rewrite <-(Hg p Hof). done.
Qed.
End Statements.

(** *** The operations *)

Section Operations.
Context `{host : !Host} `{sink : !AuditSink}.

Lemma get_scope_or_raise_ok id s sc s' :
  get_scope_or_raise id s = (Ok sc, s') → s' = s ∧ sc ∈ t_scopes (st_db s) ∧ sc_id sc = id.
Proof.
  unfold get_scope_or_raise, get_scope. intros H. run_stmt.
  match goal with H : fetch_one _ _ _ = _ |- _ => apply fetch_one_ok in H as [-> Hf] end.
  destruct x as [x|]; [|run_stmt]. run_stmt. destruct Hf as [? Hi]. by apply bool_decide_eq_true_1 in Hi.
Qed.

Lemma get_scope_pure id s : (get_scope_or_raise id s).2 = s.
Proof.
  unfold get_scope_or_raise, get_scope, fetch_one, select, gets, mbind, prog_bind, mret, prog_ret.
  by destruct (head _).
Qed.

Lemma require_mutable_ok sc s u s' : _require_mutable sc s = (Ok u, s') → s' = s ∧ is_mutable sc = true.
Proof.
  unfold _require_mutable, is_mutable. intros H. repeat run_stmt. split; [done|].
  match goal with H1 : is_frozen _ = false, H2 : is_archived _ = false |- _ => by rewrite H1, H2 end.
Qed.

Lemma require_mutable_pure sc s : (_require_mutable sc s).2 = s.
Proof. unfold _require_mutable, raise_if, mbind, prog_bind. by destruct (is_frozen sc), (is_archived sc). Qed.

Lemma stays_get_scope id s : stays (get_scope_or_raise id) s.
Proof. apply stays_pure, get_scope_pure. Qed.

(** What the guard of the changing operations gives the rest of them. *)
Lemma stays_guarded {R} id (k : Scope → lp R) s :
  (∀ sc, sc ∈ t_scopes (st_db s) → sc_id sc = id → is_mutable sc = true → open_scope id s → stays (k sc) s) →
  stays (sc ← get_scope_or_raise id; _require_mutable sc ;; k sc) s.
Proof.
  intros Hk Hok. revert Hok. apply stays_bind; [apply stays_get_scope|].
  intros sc s1 (-> & Hin & Hid)%get_scope_or_raise_ok Hok. revert Hok.
  apply stays_bind; [apply stays_pure, require_mutable_pure|].
  intros u s1 (-> & Hmut)%require_mutable_ok Hok. apply Hk; [done..| |done].
  intros x Hx Hxid. by rewrite (scopes_keyed (st_db s) x sc Hok Hx Hin) by congruence.
Qed.

Lemma stays_fetch {X} (tbl : tables → list X) p s : stays (fetch_one tbl p) s.
Proof. by apply stays_pure. Qed.
Lemma stays_now s : stays now_utc s.
Proof. by apply stays_pure. Qed.
Lemma stays_new_id s : stays generate_id s.
Proof. by apply stays_same. Qed.
Lemma stays_ret {R} (a : R) s : stays (mret a) s.
Proof. by apply stays_pure. Qed.
Lemma stays_raise {R} e s : stays (raise e : lp R) s.
Proof. by apply stays_pure. Qed.
Lemma stays_raise_if b e s : stays (raise_if b e) s.
Proof. apply stays_pure. by destruct b. Qed.

Lemma stays_grant sc pr role by_ e ts s :
  open_scope sc s → stays (grant_membership sc pr role by_ e ts) s.
Proof.
  intros Ho. unfold grant_membership. apply stays_bind; [apply stays_fetch|].
  intros o s1 [-> Hf]%fetch_one_ok. destruct o as [m|].
  - case_bool_decide; [apply stays_ret|]. apply stays_bind; [by apply stays_regrant|].
    intros. apply stays_ret.
  - apply stays_bind; [apply stays_new_id|]. intros i s1 [-> ->]%generate_id_ok.
    apply stays_bind; [by apply stays_insert_membership|]. intros. apply stays_ret.
Qed.

Lemma stays_add_membership sc pr role by_ e s : open_scope sc s → stays (_add_membership sc pr role by_ e) s.
Proof.
  intros Ho. unfold _add_membership. apply stays_bind; [apply stays_now|].
  intros ts s1 [-> ->]%now_utc_ok. apply stays_bind; [by apply stays_transaction, stays_grant|].
  intros [m b] s1 _. destruct b; [apply stays_ret|].
  apply stays_bind; [apply stays_audit|]. intros. apply stays_ret.
Qed.

(** Granting leaves the scopes alone. *)
Definition same_scopes : relation store := λ s s', t_scopes (st_db s') = t_scopes (st_db s).
#[local] Instance same_scopes_preorder : PreOrder same_scopes.
Proof. split; unfold same_scopes; [by intros s|congruence]. Qed.

Lemma audit_scopes q : respects same_scopes (audit q).
Proof. intros s. by pose proof (quiet_db s _ (audit_quiet q s)) as (_ & _ & _ & ? & _). Qed.

Lemma add_membership_scopes sc pr role by_ e : respects same_scopes (_add_membership sc pr role by_ e).
Proof.
  assert (Hreq : ∀ X (tbl : tables → list X) p c, respects same_scopes (require_row tbl p c)).
  { intros X tbl p c. unfold require_row. repeat respects_step. }
  assert (Hgrant : ∀ ts, respects same_scopes (grant_membership sc pr role by_ e ts)).
  { intros ts. unfold grant_membership, fetch_one, select, insert_membership, sql_insert, generate_id, sql_update.
    repeat (respects_step || apply Hreq || (intros s'; unfold same_scopes; reflexivity)). }
  unfold _add_membership. respects_step; [apply respects_pure; [exact _|done]|]. respects_step.
  - intros s. unfold transaction, same_scopes. specialize (Hgrant a s).
    by destruct (grant_membership _ _ _ _ _ _ s) as [[]].
  - destruct a0 as [m []]; [respects_step|]. respects_step; [|respects_step].
    apply audit_scopes.
Qed.

Lemma open_same id s s' : same_scopes s s' → open_scope id s → open_scope id s'.
Proof. unfold same_scopes, open_scope. by intros ->. Qed.

Lemma stays_create_scope name owner desc parent meta s :
  stays (create_scope name owner desc parent meta) s.
Proof.
  unfold create_scope. apply stays_bind; [apply stays_now|]. intros ts s1 [-> ->]%now_utc_ok.
  apply stays_bind; [apply stays_new_id|]. intros i s1 [-> ->]%generate_id_ok. cbv zeta.
  set (sc := {| sc_id := _ |}). apply stays_bind; [by apply stays_insert_scope|].
  intros u s1 Hins. apply stays_bind.
  - apply stays_add_membership. unfold insert_scope in Hins. run_stmt.
    apply sql_insert_ok in Hins as [Hnew ->].
    assert (x0 = put_next (S (st_next s)) s) as -> by
      (destruct (sc_parent sc); [by match goal with H : require_row _ _ _ _ = _ |- _ => apply require_row_ok in H as [-> _] end|by repeat run_stmt]).
    intros x' [Hx|Hx%list_elem_of_singleton]%elem_of_app Hid; [|by subst x'].
    exfalso. specialize (Hnew x' Hx). apply bool_decide_eq_false_1 in Hnew. by apply Hnew.
  - intros m s2 _. apply stays_bind; [apply stays_audit|]. intros. apply stays_ret.
Qed.

Lemma stays_add_member sc pr role by_ e s : stays (add_member sc pr role by_ e) s.
Proof. apply stays_guarded. intros. by apply stays_add_membership. Qed.

Lemma stays_add_members sc members by_ s : stays (add_members sc members by_) s.
Proof.
  apply stays_guarded. intros scope _ _ _ Ho.
  match goal with |- stays (for_fold _ _ ?b) _ => set (body := b) end.
  generalize (@nil ScopeMembership). revert s Ho. induction members as [|m l IH]; intros s Ho acc; cbn [for_fold]; [apply stays_ret|].
  unfold body at 1. apply stays_bind.
  - apply stays_bind; [by apply stays_pure|]. intros role s1 [_ ->]%lift_ok.
    apply stays_bind; [by apply stays_add_membership|]. intros. apply stays_ret.
  - intros acc' s1 Hrun. apply IH. unfold body in Hrun. repeat run_stmt.
    match goal with H : lift _ _ = _ |- _ => apply lift_ok in H as [_ ->] end.
    match goal with H : _add_membership ?a ?b ?c ?d ?e ?s = _ |- _ =>
      pose proof (add_membership_scopes a b c d e s) as Hs; rewrite H in Hs end.
    by eapply open_same.
Qed.

(** Changing the texts of an open scope. *)
Lemma later_edit sc name desc meta :
  is_mutable sc = true → later sc (set_scope name desc meta (sc_lifecycle sc) sc).
Proof. intros H. split_and!; [done..|by left]. Qed.

Lemma not_archived_mutable sc : is_mutable sc = true → sc_lifecycle sc ≠ ARCHIVED.
Proof. intros H%mutable_stage Ha. by rewrite Ha in H. Qed.

Lemma stays_rename id name by_ s : stays (rename_scope id name by_) s.
Proof.
  apply stays_guarded. intros sc Hin Hid Hmut _. case_bool_decide; [apply stays_ret|].
  apply stays_bind.
  - apply (stays_update_scope id _ sc); [done|done|by apply later_edit|].
    intros Ha. by destruct (not_archived_mutable sc).
  - intros u s1 _. apply stays_bind; [apply stays_audit|]. intros u' s2 _. apply stays_get_scope.
Qed.

Lemma stays_update id desc meta by_ s : stays (update_scope id desc meta by_) s.
Proof.
  apply stays_guarded. intros sc Hin Hid Hmut _. cbv zeta.
  assert (Hwrite : ∀ d m q, stays
    (sql_update t_scopes set_scopes_table (by_scope id) (λ r,
        set_scope (sc_name r) (default (sc_description r) d) (default (sc_metadata r) m)
          (sc_lifecycle r) r) ;; audit q ;; get_scope_or_raise id) s).
  { intros d m q. apply stays_bind.
    - apply (stays_update_scope id _ sc); [done|done|by apply later_edit|].
      intros Ha. by destruct (not_archived_mutable sc).
    - intros u s1 _. apply stays_bind; [apply stays_audit|]. intros u' s2 _. apply stays_get_scope. }
  destruct (new_description sc desc), (jmerge (sc_metadata sc) <$> meta);
    [apply Hwrite..|apply stays_ret].
Qed.

Lemma stays_revoke_member sc pr by_ role s : stays (revoke_member sc pr by_ role) s.
Proof.
  apply stays_guarded. intros x _ _ _ _. apply stays_bind; [by apply stays_pure|].
  intros rows s1 _. destruct rows as [|r l]; [apply stays_ret|].
  apply stays_bind; [apply stays_archive_members|]. intros u s2 _.
  apply stays_bind; [apply stays_for_each; intros; apply stays_audit|]. intros u' s3 _. apply stays_ret.
Qed.

Lemma stays_is_member sc pr s : stays (is_member sc pr) s.
Proof.
  unfold is_member. apply stays_bind; [apply stays_now|]. intros now s1 _.
  apply stays_bind; [apply stays_fetch|]. intros row s2 _. destruct row; [apply stays_ret|].
  apply stays_bind; [apply stays_fetch|]. intros e s3 _.
  apply stays_bind; [destruct e; [apply stays_archive_members|apply stays_ret]|]. intros. apply stays_ret.
Qed.

Lemma stays_freeze id by_ s : stays (freeze_scope id by_) s.
Proof.
  unfold freeze_scope. apply stays_bind; [apply stays_get_scope|].
  intros sc s1 (-> & Hin & Hid)%get_scope_or_raise_ok. apply stays_bind; [apply stays_raise_if|].
  intros [] s1 [Hact ->]%raise_if_ok. apply negb_false_iff, bool_decide_eq_true_1 in Hact.
  apply stays_bind.
  - apply stays_transaction, (stays_update_scope id _ sc); [done|done| |done].
    split_and!; [done..|rewrite Hact; simpl; lia|by right].
  - intros u s2 _. apply stays_bind; [apply stays_audit|]. intros u' s3 _. apply stays_get_scope.
Qed.

Lemma stays_archive id by_ s : stays (archive_scope id by_) s.
Proof.
  unfold archive_scope. apply stays_bind; [apply stays_get_scope|].
  intros sc s1 (-> & Hin & Hid)%get_scope_or_raise_ok. apply stays_bind; [apply stays_raise_if|].
  intros [] s1 [Hna ->]%raise_if_ok. apply stays_bind.
  - apply stays_transaction. apply stays_bind; [apply stays_archive_members|].
    intros u s1 Hm%sql_update_ok. apply stays_bind; [apply stays_archive_projections|].
    intros u' s2 Hp%sql_update_ok. subst s1 s2.
    apply (stays_update_scope id _ sc); [done|done| |].
    + split_and!; [done..| |by right]. simpl. by destruct (sc_lifecycle sc); simpl; lia.
    + intros _. cbn. split.
      * intros m' (m & -> & Hmin)%list_elem_of_fmap.
        destruct (bool_decide (sm_scope m = id) && bool_decide (sm_lifecycle m = ACTIVE)) eqn:E; [done|].
        intros Hs Ha. by rewrite Hs, Ha, !bool_decide_eq_true_2 in E.
      * intros p' (p & -> & Hpin)%list_elem_of_fmap.
        destruct (bool_decide (sp_scope p = id) && active_projection p) eqn:E; [done|].
        intros Hs Ha. unfold active_projection in E. by rewrite Hs, Ha, !bool_decide_eq_true_2 in E.
  - intros u s2 _. apply stays_bind; [apply stays_audit|]. intros u' s3 _. apply stays_get_scope.
Qed.

Lemma stays_project sc object by_ level s : stays (project sc object by_ level) s.
Proof.
  unfold project. intros Hok. revert Hok. apply stays_bind; [apply stays_fetch|].
  intros row s1 [-> Hf]%fetch_one_ok Hok. revert Hok. destruct row as [scope|].
  2: { intros Hok. revert Hok. apply stays_bind; [apply stays_raise|]. intros. discriminate. }
  destruct Hf as [Hin Hid%bool_decide_eq_true_1]. intros Hok. revert Hok.
  apply stays_bind; [apply stays_raise_if|]. intros [] s1 [Hmut ->]%raise_if_ok Hok.
  assert (Hopen : open_scope sc s).
  { intros x Hx Hxid. rewrite (scopes_keyed (st_db s) x scope Hok Hx Hin) by congruence.
    unfold is_mutable. by rewrite Hmut. }
  revert Hok. apply stays_bind; [apply stays_fetch|]. intros orow s1 [-> _]%fetch_one_ok.
  apply stays_bind; [destruct orow; [apply stays_raise_if|apply stays_raise]|]. intros u s1 Ho.
  assert (s1 = s) as -> by (destruct orow; [destruct u; by apply raise_if_ok in Ho as [_ ->]|discriminate Ho]).
  apply stays_bind; [apply stays_now|]. intros ts s1 [-> ->]%now_utc_ok.
  apply stays_bind; [apply stays_fetch|]. intros prow s1 [-> _]%fetch_one_ok. destruct prow as [p|].
  - destruct (active_projection p); [apply stays_ret|].
    apply stays_bind; [by apply stays_reshare|]. intros. cbv zeta.
    apply stays_bind; [apply stays_audit|]. intros. apply stays_ret.
  - apply stays_bind; [apply stays_new_id|]. intros i s1 [-> ->]%generate_id_ok. cbv zeta.
    apply stays_bind; [by apply stays_insert_projection|]. intros.
    apply stays_bind; [apply stays_audit|]. intros. apply stays_ret.
Qed.

Lemma stays_revoke_projection sc object by_ s : stays (revoke_projection sc object by_) s.
Proof.
  unfold revoke_projection. apply stays_bind; [apply stays_fetch|]. intros row s1 _.
  destruct row as [p|]; [|apply stays_ret]. apply stays_bind; [apply stays_archive_projections|].
  intros u s2 _. apply stays_bind; [apply stays_audit|]. intros. apply stays_ret.
Qed.
End Operations.

(** ** The tenancy state machine *)

Inductive tenancy_op :=
  | CreateScope (name owner description : string) (parent : option string) (metadata : option jdict)
  | RenameScope (id name by_ : string)
  | UpdateScope (id : string) (description : option string) (metadata : option jdict) (by_ : string)
  | AddMember (sc principal : string) (role : ScopeRole) (by_ : string) (expires_at : option Z)
  | AddMembers (sc : string) (members : list (string * option string)) (by_ : string)
  | RevokeMember (sc principal by_ : string) (role : option ScopeRole)
  | IsMember (sc principal : string)
  | FreezeScope (id by_ : string)
  | ArchiveScope (id by_ : string)
  | Project (sc object by_ : string) (level : AccessLevel)
  | RevokeProjection (sc object by_ : string).

Section TenancyMachine.
Context `{host : !Host} `{sink : !AuditSink}.

Definition run_tenancy_op (op : tenancy_op) : lp unit :=
  match op with
  | CreateScope name owner desc parent meta => create_scope name owner desc parent meta ;; mret tt
  | RenameScope id name by_ => rename_scope id name by_ ;; mret tt
  | UpdateScope id desc meta by_ => update_scope id desc meta by_ ;; mret tt
  | AddMember sc pr role by_ e => add_member sc pr role by_ e ;; mret tt
  | AddMembers sc members by_ => add_members sc members by_ ;; mret tt
  | RevokeMember sc pr by_ role => revoke_member sc pr by_ role ;; mret tt
  | IsMember sc pr => is_member sc pr ;; mret tt
  | FreezeScope id by_ => freeze_scope id by_ ;; mret tt
  | ArchiveScope id by_ => archive_scope id by_ ;; mret tt
  | Project sc object by_ level => project sc object by_ level ;; mret tt
  | RevokeProjection sc object by_ => revoke_projection sc object by_ ;; mret tt
  end.

(** An operation, whether it returns or raises, or anything that leaves the
    scopes, members and projections alone. *)
Inductive tenancy_step : relation store :=
  | tenancy_step_op op s : tenancy_step s (run_tenancy_op op s).2
  | tenancy_step_other s s' :
      t_scopes (st_db s') = t_scopes (st_db s) → t_members (st_db s') = t_members (st_db s) →
      t_projections (st_db s') = t_projections (st_db s) → tenancy_step s s'.

Lemma stays_op op s : stays (run_tenancy_op op) s.
Proof.
  destruct op; (apply stays_bind; [|intros; apply stays_ret]).
  - apply stays_create_scope.
  - apply stays_rename.
  - apply stays_update.
  - apply stays_add_member.
  - apply stays_add_members.
  - apply stays_revoke_member.
  - apply stays_is_member.
  - apply stays_freeze.
  - apply stays_archive.
  - apply stays_project.
  - apply stays_revoke_projection.
Qed.

(** C38: Whatever sequence of tenancy operations runs, returning or raising at any
    point: scope ids, grants and shares stay unique and a dissolved scope never
    has an active member or projection; no scope disappears, changes its owner or
    parent or goes back from frozen or dissolved; and once it is frozen or
    dissolved it keeps its name, description and metadata and gains no active
    member and no active projection. *)
Theorem tenancy_reachable_ok s s' :
  rtc tenancy_step s s' → tenancy_ok (st_db s) →
  tenancy_ok (st_db s') ∧ advances (st_db s) (st_db s').
Proof.
  induction 1 as [s|s s1 s2 Hstep _ IH]; intros Hok; [done|].
  assert (tenancy_ok (st_db s1) ∧ advances (st_db s) (st_db s1)) as [Hok1 Hadv].
  { destruct Hstep as [op s|s s1 H1 H2 H3]; [by apply stays_op|].
    by apply (stays_same (λ _ : store, (Ok tt, s1)) s). }
  destruct (IH Hok1) as [Hok2 Hadv2]. split; [done|]. by etrans.
Qed.
End TenancyMachine.

(** ** Theorems: members and transitions *)

Section TenancyTheorems.
Context `{host : !Host} `{sink : !AuditSink}.

(** Scopes with distinct ids: reading one finds it. *)
Lemma get_scope_keyed sc s :
  NoDup (sc_id <$> t_scopes (st_db s)) → sc ∈ t_scopes (st_db s) →
  get_scope_or_raise (sc_id sc) s = (Ok sc, s).
Proof.
  intros Hnd Hin. unfold get_scope_or_raise, get_scope.
  destruct (fetch_one t_scopes (by_scope (sc_id sc)) s) as [[o|e] s'] eqn:Hrun; [|discriminate Hrun].
  rewrite (run_bind_ok _ _ _ _ _ Hrun). apply fetch_one_ok in Hrun as [-> Ho]. destruct o as [x|].
  - destruct Ho as [Hx Hi%bool_decide_eq_true_1]. by rewrite (NoDup_fmap_inj_in _ _ _ _ Hnd Hx Hin Hi).
  - specialize (Ho sc Hin). by apply bool_decide_eq_false_1 in Ho.
Qed.

Lemma get_scope_run t sc s :
  st_db s = t → tenancy_ok t → sc ∈ t_scopes t →
  fetch_one t_scopes (by_scope (sc_id sc)) s = (Ok (Some sc), s) ∧
  get_scope_or_raise (sc_id sc) s = (Ok sc, s).
Proof.
  intros <- Hok Hin.
  assert (Hf : fetch_one t_scopes (by_scope (sc_id sc)) s = (Ok (Some sc), s)).
  { destruct (fetch_one t_scopes (by_scope (sc_id sc)) s) as [[o|e] s'] eqn:Hrun; [|discriminate Hrun].
    apply fetch_one_ok in Hrun as [-> Ho]. destruct o as [x|].
    - destruct Ho as [Hx Hi%bool_decide_eq_true_1].
      by rewrite (scopes_keyed (st_db s) x sc Hok Hx Hin Hi).
    - specialize (Ho sc Hin). by apply bool_decide_eq_false_1 in Ho. }
  split; [done|]. unfold get_scope_or_raise, get_scope. by rewrite (run_bind_ok _ _ _ _ _ Hf).
Qed.

(** The message of [_require_mutable]. *)
Definition refusal (sc : Scope) : exn :=
  ScopeFrozen ("Scope " +:+ sc_id sc +:+ (if is_frozen sc then " is frozen" else " is archived")).

Lemma guard_refuses {R} sc (k : Scope → lp R) s :
  tenancy_ok (st_db s) → sc ∈ t_scopes (st_db s) → is_mutable sc = false →
  (x ← get_scope_or_raise (sc_id sc); _require_mutable x ;; k x) s = (Raise (refusal sc), s).
Proof.
  intros Hok Hin Him. destruct (get_scope_run _ sc s eq_refl Hok Hin) as [_ Hget].
  rewrite (run_bind_ok _ _ _ _ _ Hget). apply negb_false_iff in Him.
  unfold _require_mutable, refusal. unfold raise_if, raise, mbind, prog_bind, mret, prog_ret.
  destruct (is_frozen sc); [done|]. simpl in Him. by rewrite Him.
Qed.

(** A frozen or dissolved scope refuses every change that goes through its
    guard: renaming, updating, adding members one by one or in bulk, revoking
    them and projecting an object into it all raise ScopeFrozenError and change
    nothing, and so does freezing it. *)
Theorem frozen_scope_refuses sc s :
  tenancy_ok (st_db s) → sc ∈ t_scopes (st_db s) → is_mutable sc = false →
  (∀ name by_, rename_scope (sc_id sc) name by_ s = (Raise (refusal sc), s)) ∧
  (∀ desc meta by_, update_scope (sc_id sc) desc meta by_ s = (Raise (refusal sc), s)) ∧
  (∀ pr role by_ e, add_member (sc_id sc) pr role by_ e s = (Raise (refusal sc), s)) ∧
  (∀ members by_, add_members (sc_id sc) members by_ s = (Raise (refusal sc), s)) ∧
  (∀ pr by_ role, revoke_member (sc_id sc) pr by_ role s = (Raise (refusal sc), s)) ∧
  (∀ object by_ level, project (sc_id sc) object by_ level s =
    (Raise (ScopeFrozen ("Scope " +:+ sc_id sc +:+ " is not mutable")), s)) ∧
  (∀ by_, ∃ msg, freeze_scope (sc_id sc) by_ s = (Raise (ScopeFrozen msg), s)).
Proof.
  intros Hok Hin Him. split_and!; try (intros; by apply guard_refuses).
  - intros object by_ level. destruct (get_scope_run _ sc s eq_refl Hok Hin) as [Hget _].
    unfold project. rewrite (run_bind_ok _ _ _ _ _ Hget). apply negb_false_iff in Him.
    unfold raise_if. by rewrite Him.
  - intros by_. destruct (get_scope_run _ sc s eq_refl Hok Hin) as [_ Hget]. eexists.
    unfold freeze_scope. rewrite (run_bind_ok _ _ _ _ _ Hget).
    assert (is_active sc = false) as ->; [|reflexivity].
    apply bool_decide_eq_false_2. intros Ha. rewrite <-not_true_iff_false, mutable_stage, Ha in Him. by apply Him.
Qed.

(** Revoking a projection has no such guard. *)
Theorem frozen_scope_loses_projection sc p by_ s u s' :
  tenancy_ok (st_db s) → sc ∈ t_scopes (st_db s) → is_frozen sc = true →
  p ∈ t_projections (st_db s) → sp_scope p = sc_id sc → sp_lifecycle p = ACTIVE →
  revoke_projection (sc_id sc) (sp_object p) by_ s = (Ok u, s') →
  u = true ∧ archived_projection p ∈ t_projections (st_db s').
Proof.
  intros Hok Hsc _ Hp Hs Ha H. unfold revoke_projection in H. run_stmt.
  match goal with H : fetch_one _ _ _ = _ |- _ => apply fetch_one_ok in H as [-> Hf] end.
  assert (Hp' : shared_now (sc_id sc) (sp_object p) p = true).
  { unfold shared_now, of_share, active_projection. by rewrite !bool_decide_eq_true_2. }
  destruct x as [q|]; [|by rewrite (Hf p Hp) in Hp'].
  repeat run_stmt. match goal with H : audit _ _ = _ |- _ => apply audit_ok, quiet_db in H end.
  destruct_and!. split; [done|].
  match goal with H : t_projections _ = _ |- _ => rewrite H end.
  cbn. apply list_elem_of_fmap. exists p. by rewrite Hp'.
Qed.

(** Dissolving a scope takes everything in it down in one step: when
    archive_scope returns, the scope's row is ARCHIVED and otherwise as it was,
    every membership and projection that was active in it is archived, and every
    row of any other scope is untouched; for a scope that is missing or already
    dissolved it changes nothing. *)
Theorem archive_scope_dissolves id by_ s r s' :
  tenancy_ok (st_db s) → archive_scope id by_ s = (r, s') →
  match r with
  | Ok sc' =>
      ∃ sc, sc ∈ t_scopes (st_db s) ∧ sc_id sc = id ∧ sc_lifecycle sc ≠ ARCHIVED ∧
        sc' = scope_to ARCHIVED sc ∧
        (∀ x, x ∈ t_scopes (st_db s') ↔ x = sc' ∨ x ∈ t_scopes (st_db s) ∧ sc_id x ≠ id) ∧
        t_members (st_db s') = (λ m, if bool_decide (sm_scope m = id) && bool_decide (sm_lifecycle m = ACTIVE)
          then archived_member m else m) <$> t_members (st_db s) ∧
        t_projections (st_db s') = (λ p, if bool_decide (sp_scope p = id) && active_projection p
          then archived_projection p else p) <$> t_projections (st_db s)
  | Raise e =>
      (∀ sc, sc ∈ t_scopes (st_db s) → sc_id sc = id → sc_lifecycle sc = ARCHIVED) → s' = s
  end.
Proof.
  intros Hok H. destruct r as [sc'|e].
  - unfold archive_scope in H. run_stmt.
    match goal with H : get_scope_or_raise _ _ = _ |- _ => apply get_scope_or_raise_ok in H as (-> & Hin & Hid) end.
    rename x into sc. repeat run_stmt.
    match goal with H : is_archived _ = false |- _ => apply bool_decide_eq_false_1 in H as Hna end.
    match goal with H : transaction _ _ = _ |- _ => injection H as _ <- end.
    match goal with H : audit _ _ = _ |- _ => apply audit_ok, quiet_db in H as (_ & _ & _ & Hs & Hm & Hp & _) end.
    match goal with H : get_scope_or_raise _ _ = _ |- _ => apply get_scope_or_raise_ok in H as (-> & Hin' & Hid') end.
    cbn in Hs, Hm, Hp. rewrite Hs, Hm, Hp.
    assert (Hiff : ∀ x : Scope,
      x ∈ (λ r, if by_scope (sc_id sc) r then scope_to ARCHIVED r else r) <$> t_scopes (st_db s) ↔
      x = scope_to ARCHIVED sc ∨ x ∈ t_scopes (st_db s) ∧ sc_id x ≠ sc_id sc).
    { intros x. rewrite list_elem_of_fmap. split.
      - intros (y & -> & Hy). unfold by_scope. case_bool_decide as Hyi; [left|by right].
        by rewrite (scopes_keyed (st_db s) y sc Hok Hy Hin) by congruence.
      - intros [->|[Hx Hne]]; [exists sc|exists x]; unfold by_scope.
        + by rewrite bool_decide_eq_true_2.
        + by rewrite bool_decide_eq_false_2. }
    assert (Hsc' : sc' = scope_to ARCHIVED sc).
    { rewrite Hs, Hiff in Hin'. by destruct Hin' as [?|[_ ?]]. }
    exists sc. rewrite Hsc'. by split_and!.
  - intros Hall. unfold archive_scope in H. rewrite run_bind in H.
    pose proof (get_scope_pure id s) as Hpure.
    destruct (get_scope_or_raise id s) as [[sc|e'] s1] eqn:Hget; simpl in Hpure; subst s1.
    + apply get_scope_or_raise_ok in Hget as (_ & Hin & Hid).
      assert (is_archived sc = true) as Har by (apply bool_decide_eq_true_2; by apply Hall).
      rewrite Har in H. by injection H as _ <-.
    + by injection H as _ <-.
Qed.
End TenancyTheorems.

(** ** Theorems: members *)

Section MemberTheorems.
Context `{host : !Host} `{sink : !AuditSink}.

Lemma grants_keyed t a b :
  tenancy_ok t → a ∈ t_members t → b ∈ t_members t → grant_key a = grant_key b → a = b.
Proof. intros Hok. apply (NoDup_fmap_inj_in _ _ _ _ (ok_grants _ Hok)). Qed.

Lemma of_grant_key sc pr role m : of_grant sc pr role m = true ↔ grant_key m = (sc, pr, role).
Proof.
  unfold of_grant, grant_key. rewrite !andb_true_iff, !bool_decide_eq_true. split.
  - by intros [[-> ->] ->].
  - by intros [= -> -> ->].
Qed.

(** Reviving the row of a role. *)
Lemma regrant_members sc pr role by_ e s old :
  tenancy_ok (st_db s) → old ∈ t_members (st_db s) → grant_key old = (sc, pr, role) →
  ∀ y : ScopeMembership,
    y ∈ (λ r, if of_grant sc pr role r then set_member ACTIVE (st_now s) by_ e r else r)
      <$> t_members (st_db s) ↔
    y = {| sm_id := sm_id old; sm_scope := sc; sm_principal := pr; sm_role := role;
           sm_granted_at := st_now s; sm_granted_by := by_; sm_expires := e; sm_lifecycle := ACTIVE |} ∨
    y ∈ t_members (st_db s) ∧ grant_key y ≠ (sc, pr, role).
Proof.
  intros Hok Hold Hkey y. rewrite list_elem_of_fmap.
  assert (Hmem : set_member ACTIVE (st_now s) by_ e old =
    {| sm_id := sm_id old; sm_scope := sc; sm_principal := pr; sm_role := role;
       sm_granted_at := st_now s; sm_granted_by := by_; sm_expires := e; sm_lifecycle := ACTIVE |})
    by (unfold set_member; injection Hkey as -> -> ->; done).
  rewrite <-Hmem. split.
  - intros (z & -> & Hz). destruct (of_grant sc pr role z) eqn:Hof.
    + left. apply of_grant_key in Hof. by rewrite (grants_keyed (st_db s) z old) by (done || congruence).
    + right. split; [done|]. rewrite <-of_grant_key. congruence.
  - intros [->|[Hy Hne]]; [exists old|exists y].
    + by rewrite (proj2 (of_grant_key sc pr role old) Hkey).
    + rewrite <-of_grant_key, not_true_iff_false in Hne. by rewrite Hne.
Qed.

(** What granting a role writes. *)
Lemma grant_ok sc pr role by_ e s m already s' :
  tenancy_ok (st_db s) → grant_membership sc pr role by_ e (st_now s) s = (Ok (m, already), s') →
  grant_key m = (sc, pr, role) ∧ sm_lifecycle m = ACTIVE ∧
  if already then m ∈ t_members (st_db s) ∧ s' = s
  else
    (∀ x, x ∈ t_members (st_db s) → grant_key x = (sc, pr, role) → sm_lifecycle x ≠ ACTIVE ∧ sm_id x = sm_id m) ∧
    sm_granted_by m = by_ ∧ sm_granted_at m = st_now s ∧ sm_expires m = e ∧
    (∀ x, x ∈ t_members (st_db s') ↔ x = m ∨ x ∈ t_members (st_db s) ∧ grant_key x ≠ (sc, pr, role)).
Proof.
  intros Hok Hg. unfold grant_membership in Hg.
  apply bind_ok_inv in Hg as (row & s2 & Hrow & Hg). apply fetch_one_ok in Hrow as [-> Hf].
  destruct row as [old|].
  - destruct Hf as [Hold Hkey%of_grant_key].
    destruct (bool_decide_reflect (sm_lifecycle old = ACTIVE)) as [Hact|Hna].
    { by apply mret_ok in Hg as [[= -> ->] ->]. }
    run_stmt. apply mret_ok in Hg as [[= -> ->] ->].
    match goal with H : sql_update _ _ _ _ _ = _ |- _ => apply sql_update_ok in H as -> end.
    split_and!; [done|done| |done..|by apply regrant_members].
    intros y Hy Hk. rewrite (grants_keyed (st_db s) y old) by (done || congruence). done.
  - assert (Hnone : ∀ y, y ∈ t_members (st_db s) → grant_key y ≠ (sc, pr, role)).
    { intros y Hy Hk%of_grant_key. by rewrite (Hf y Hy) in Hk. }
    run_stmt. cbv zeta in Hg. run_stmt. apply mret_ok in Hg as [[= -> ->] ->].
    match goal with H : insert_membership _ _ = _ |- _ => unfold insert_membership in H end.
    repeat run_stmt. match goal with H : require_row _ _ _ _ = _ |- _ => apply require_row_ok in H as [-> _] end.
    split_and!; [done|done|intros y Hy Hk; by destruct (Hnone y Hy)|done..|].
    intros y. cbn. rewrite elem_of_app, list_elem_of_singleton. naive_solver.
Qed.

(** Adding a member gives exactly one active row for that role: when
    add_member returns, the scope accepts changes and the membership is an active
    row of it. If the row was already active it comes back as it is, whatever
    expiry was asked for, and nothing is written or recorded; otherwise it
    carries the given author, instant and expiry, an archived row of the same
    role being revived under its old id, and every other row is untouched. *)
Theorem add_member_grants sc pr role by_ e s m s' :
  tenancy_ok (st_db s) → add_member sc pr role by_ e s = (Ok m, s') →
  grant_key m = (sc, pr, role) ∧ sm_lifecycle m = ACTIVE ∧ m ∈ t_members (st_db s') ∧ open_scope sc s ∧
  ((m ∈ t_members (st_db s) ∧ s' = s) ∨
   (∀ x, x ∈ t_members (st_db s) → grant_key x = (sc, pr, role) →
      sm_lifecycle x ≠ ACTIVE ∧ sm_id x = sm_id m) ∧
   sm_granted_by m = by_ ∧ sm_granted_at m = st_now s ∧ sm_expires m = e ∧
   (∀ x, x ∈ t_members (st_db s') ↔ x = m ∨ x ∈ t_members (st_db s) ∧ grant_key x ≠ (sc, pr, role))).
Proof.
  intros Hok H. unfold add_member in H.
  apply bind_ok_inv in H as (scope & s1 & Hget & H). apply get_scope_or_raise_ok in Hget as (-> & Hin & Hid).
  apply bind_ok_inv in H as (u & s1 & Hreq & H). apply require_mutable_ok in Hreq as [-> Hmut].
  assert (Hopen : open_scope sc s).
  { intros y Hy Hyid. by rewrite (scopes_keyed (st_db s) y scope Hok Hy Hin) by congruence. }
  unfold _add_membership in H.
  apply bind_ok_inv in H as (ts & s0 & Hts & H). apply now_utc_ok in Hts as [-> ->].
  apply bind_ok_inv in H as ([mem already] & s0 & Ht & H). cbv beta iota in H. unfold transaction in Ht.
  destruct (grant_membership sc pr role by_ e (st_now s) s) as [[r|?] s1] eqn:Hg; [|discriminate Ht].
  injection Ht as -> <-. apply grant_ok in Hg as (Hkey & Hact & Hg); [|done]. destruct already.
  - destruct Hg as [Hm ->]. apply mret_ok in H as [-> ->]. split_and!; [done..|by left].
  - apply bind_ok_inv in H as (v & s2 & Ha & H). apply mret_ok in H as [-> ->].
    apply audit_ok, quiet_db in Ha as (_&_&_&_&Hm&_&_). rewrite Hm.
    destruct Hg as (Hold & Hby & Hat & He & Hiff).
    split_and!; [done|done|apply Hiff; by left|done|]. right. by split_and!.
Qed.

(** A member whose access ran out but was not archived yet is not let back in. *)
Theorem expired_member_not_renewed sc pr role by_ e s m s' old t0 :
  tenancy_ok (st_db s) → old ∈ t_members (st_db s) → grant_key old = (sc, pr, role) →
  sm_lifecycle old = ACTIVE → sm_expires old = Some t0 → (t0 < st_now s)%Z →
  add_member sc pr role by_ e s = (Ok m, s') → m = old ∧ s' = s ∧ active_membership (st_now s) m = false.
Proof.
  intros Hok Hold Hkey Hact He Hlt H. unfold add_member in H. run_stmt.
  match goal with H : get_scope_or_raise _ _ = _ |- _ => apply get_scope_or_raise_ok in H as (-> & _) end.
  run_stmt. match goal with H : _require_mutable _ _ = _ |- _ => apply require_mutable_ok in H as [-> _] end.
  unfold _add_membership in H.
  apply bind_ok_inv in H as (ts & s0 & Hts & H). apply now_utc_ok in Hts as [-> ->].
  apply bind_ok_inv in H as ([mem already] & s0 & Ht & H). cbv beta iota in H. unfold transaction in Ht.
  destruct (grant_membership sc pr role by_ e (st_now s) s) as [[r|?] s1] eqn:Hg; [|discriminate Ht].
  injection Ht as -> <-. unfold grant_membership in Hg.
  apply bind_ok_inv in Hg as (row & s2 & Hrow & Hg). apply fetch_one_ok in Hrow as [-> Hf].
  destruct row as [o|]; [|specialize (Hf old Hold); by rewrite (proj2 (of_grant_key sc pr role old) Hkey) in Hf].
  destruct Hf as [Ho Hk%of_grant_key].
  assert (o = old) as -> by (apply (grants_keyed (st_db s)); [done..|congruence]).
  rewrite bool_decide_eq_true_2 in Hg by done. apply mret_ok in Hg as [[= -> ->] ->].
  apply mret_ok in H as [-> ->]. split_and!; [done..|]. unfold active_membership. rewrite He.
  rewrite (proj2 (Z.ltb_ge _ _)) by lia. apply andb_false_r.
Qed.
End MemberTheorems.

(** ** Theorems: the hierarchy *)

Section HierarchyTheorems.
Context `{host : !Host}.

Lemma get_scope_ok id s o s' :
  get_scope id s = (Ok o, s') →
  s' = s ∧ match o with
           | Some sc => sc ∈ t_scopes (st_db s) ∧ sc_id sc = id
           | None => ∀ x, x ∈ t_scopes (st_db s) → sc_id x ≠ id
           end.
Proof.
  intros [-> Ho]%fetch_one_ok. split; [done|]. destruct o as [sc|].
  - by destruct Ho as [? ?%bool_decide_eq_true_1].
  - intros x Hx. specialize (Ho x Hx). by apply bool_decide_eq_false_1 in Ho.
Qed.

Lemma get_scope_total id s : ∃ o, get_scope id s = (Ok o, s).
Proof. by eexists. Qed.

(** [l] goes up from [cur], parent by parent, over scopes not yet visited, as far
    as it gets. *)
Fixpoint rises (t : tables) (visited : list string) (cur : option string) (l : list Scope) : Prop :=
  match l with
  | [] =>
      match cur with
      | None => True
      | Some p => p = "" ∨ p ∈ visited ∨ (∀ x, x ∈ t_scopes t → sc_id x ≠ p)
      end
  | sc :: l' =>
      cur = Some (sc_id sc) ∧ sc ∈ t_scopes t ∧ sc_id sc ≠ "" ∧ (sc_id sc ∉ visited) ∧
      rises t (sc_id sc :: visited) (sc_parent sc) l'
  end.

(** Distinct ids of rows are no more than the rows. *)
Lemma ids_bound (ids : list string) t :
  NoDup ids → (∀ i, i ∈ ids → ∃ sc, sc ∈ t_scopes t ∧ sc_id sc = i) → length ids ≤ length (t_scopes t).
Proof.
  intros Hnd Hsub. rewrite <-(length_fmap sc_id). apply submseteq_length, NoDup_submseteq; [done|].
  intros i Hi. destruct (Hsub i Hi) as (sc & Hsc & <-). by apply list_elem_of_fmap_2.
Qed.

Lemma ancestors_loop_run fuel start cur seen acc s :
  start ∈ seen → NoDup seen → (∀ i, i ∈ seen → ∃ sc, sc ∈ t_scopes (st_db s) ∧ sc_id sc = i) →
  length (t_scopes (st_db s)) < fuel + length seen →
  ∃ l, ancestors_loop fuel start cur seen acc s = (Ok (Some (acc ++ l)), s) ∧ rises (st_db s) seen cur l.
Proof.
  revert cur seen acc. induction fuel as [|fuel IH]; intros cur seen acc Hstart Hnd Hsub Hfuel.
  { pose proof (ids_bound seen (st_db s) Hnd Hsub). simpl in *. lia. }
  assert (Hstop : rises (st_db s) seen cur [] → ∃ l,
    (mret (Some acc) : lp (option (list Scope))) s = (Ok (Some (acc ++ l)), s) ∧ rises (st_db s) seen cur l)
    by (intros Hr; exists []; by rewrite app_nil_r).
  cbn [ancestors_loop]. destruct cur as [id|]; [|by apply Hstop].
  case_bool_decide as Hempty; [apply Hstop; by left|].
  case_bool_decide as Hseen; [apply Hstop; right; by left|].
  destruct (get_scope_total id s) as (o & Hget). rewrite (run_bind_ok _ _ _ _ _ Hget).
  apply get_scope_ok in Hget as [_ Ho]. destruct o as [sc|]; [|apply Hstop; by do 2 right].
  destruct Ho as [Hin Hid]. case_bool_decide as Hne; [congruence|].
  destruct (IH (sc_parent sc) (id :: seen) (acc ++ [sc])) as (l & Hl & Hr).
  - by right.
  - by constructor.
  - intros i [->|Hi]%elem_of_cons; [by exists sc|by apply Hsub].
  - simpl. lia.
  - exists (sc :: l). rewrite Hl, <-app_assoc. split; [done|]. simpl. subst id. by split_and!.
Qed.

(** Walking up the hierarchy always ends, also in a hierarchy with a cycle:
    ancestors returns, changing nothing, exactly the chain of parents of the
    scope, nearest first, each once and never the scope itself, up to the first
    scope whose parent is none, missing or already on the way; of a scope that
    does not exist it returns none. *)
Theorem ancestors_walk id s :
  tenancy_ok (st_db s) →
  ∃ l, ancestors id s = (Ok (Some l), s) ∧
    (∀ sc, sc ∈ t_scopes (st_db s) → sc_id sc = id → id ≠ "" → rises (st_db s) [id] (sc_parent sc) l) ∧
    ((∀ x, x ∈ t_scopes (st_db s) → sc_id x ≠ id) → l = []).
Proof.
  intros Hok. unfold ancestors. rewrite (run_bind_ok (gets _) _ s (length (t_scopes (st_db s))) s) by done.
  cbn [ancestors_loop]. case_bool_decide as Hempty; [exists []; by split_and!|].
  case_bool_decide as Hnil; [by apply not_elem_of_nil in Hnil|].
  destruct (get_scope_total id s) as (o & Hget). rewrite (run_bind_ok _ _ _ _ _ Hget).
  apply get_scope_ok in Hget as [_ Ho]. destruct o as [sc|].
  - destruct Ho as [Hin Hid]. rewrite bool_decide_eq_true_2 by done.
    destruct (ancestors_loop_run (S (length (t_scopes (st_db s)))) id (sc_parent sc) [id] [] s)
      as (l & Hl & Hr); [left|apply NoDup_singleton| |simpl; lia|].
    { intros i ->%list_elem_of_singleton. by exists sc. }
    exists l. split; [exact Hl|]. split; [|intros Hno; by destruct (Hno sc Hin)].
    intros x Hx Hxid _. by rewrite (scopes_keyed (st_db s) x sc Hok Hx Hin) by congruence.
  - exists []. split_and!; [done| |done]. intros x Hx Hid. by destruct (Ho x Hx).
Qed.

(** [c] is below [a], [n] live children away. *)
Definition below (t : tables) : nat → string → string → Prop :=
  nsteps (λ a c, ∃ sc, sc ∈ t_scopes t ∧ sc_id sc = c ∧ live_child a sc = true).

Lemma children_run id limit s :
  ∃ l, children id limit s = (Ok l, s) ∧
    ∀ sc, sc ∈ l → sc ∈ t_scopes (st_db s) ∧ live_child id sc = true.
Proof.
  eexists. split; [reflexivity|]. intros sc Hsc%elem_of_take. destruct Hsc as (i & Hi%list_elem_of_lookup_2 & _).
  rewrite scan_perm in Hi. by apply list_elem_of_filter in Hi as [? ?].
Qed.

(** What [descendants] has collected: distinct live scopes below the start, and
    queued ones at their depth. *)
Record collected (t : tables) (start : string) (max_depth max_total : nat) (result : list Scope)
  (queue : list (string * nat)) (seen : list string) : Prop := {
  col_seen : ∀ i, i ∈ seen ↔ i = start ∨ i ∈ sc_id <$> result;
  col_nodup : NoDup (sc_id <$> result);
  col_start : start ∉ sc_id <$> result;
  col_rows : ∀ sc, sc ∈ result → sc ∈ t_scopes t ∧ is_archived sc = false ∧
    ∃ n, 0 < n ≤ max_depth ∧ below t n start (sc_id sc);
  col_queue : ∀ i d, (i, d) ∈ queue → below t d start i;
  col_total : length result ≤ max_total;
}.

Lemma live_child_live a sc : live_child a sc = true → is_archived sc = false.
Proof. unfold live_child. rewrite andb_true_iff, negb_true_iff. tauto. Qed.

Lemma visit_kids_ok t start md mt id depth kids result queue seen :
  below t depth start id → depth < md → length result < mt →
  (∀ c, c ∈ kids → c ∈ t_scopes t ∧ live_child id c = true) →
  collected t start md mt result queue seen →
  let '(result', queue', seen') := visit_kids depth mt kids result queue seen in
  collected t start md mt result' queue' seen' ∧
  length queue' + length result ≤ length queue + length result'.
Proof.
  intros Hbelow Hd. revert result queue seen.
  induction kids as [|c kids IH]; intros result queue seen Hlt Hkids Hcol; simpl; [by split|].
  case_bool_decide as Hseen; [apply IH; [done| |done]; intros; apply Hkids; by right|].
  destruct (Hkids c ltac:(left)) as [Hc Hlive]. pose proof Hcol as [C1 C2 C3 C4 C5 C6].
  assert (Hnew : sc_id c ≠ start ∧ (sc_id c ∉ sc_id <$> result))
    by (split; intros Hx; apply Hseen, C1; [by left|by right]).
  assert (Hstep : below t (S depth) start (sc_id c)).
  { unfold below. eapply nsteps_r; [exact Hbelow|]. by exists c. }
  assert (Hext : ∀ q, (∀ i d, (i, d) ∈ q → (i, d) ∈ queue ∨ i = sc_id c ∧ d = S depth) →
    collected t start md mt (result ++ [c]) q (sc_id c :: seen)).
  { intros q Hq. split; rewrite ?fmap_app, ?length_app; simpl.
    - intros i. rewrite elem_of_cons, C1, elem_of_app, list_elem_of_singleton. tauto.
    - apply NoDup_app. split_and!; [done| |apply NoDup_singleton].
      intros i Hi ->%list_elem_of_singleton. by destruct Hnew as [_ Hn].
    - rewrite elem_of_app, list_elem_of_singleton. intros [?|Heq]; [done|].
      destruct Hnew as [Hn _]. by apply Hn.
    - intros x [Hx| ->%list_elem_of_singleton]%elem_of_app; [by apply C4|].
      split_and!; [done|by eapply live_child_live|]. exists (S depth). split; [lia|done].
    - intros i d [?|[-> ->]]%Hq; [by apply C5|done].
    - lia. }
  destruct (mt <=? length (result ++ [c])) eqn:Hmt.
  - split; [apply Hext; by left|]. rewrite length_app. simpl. lia.
  - apply Nat.leb_gt in Hmt.
    specialize (IH (result ++ [c]) (queue ++ [(sc_id c, S depth)]) (sc_id c :: seen) Hmt).
    destruct (visit_kids depth mt kids (result ++ [c]) _ _) as [[r' q'] s'].
    destruct IH as [Hok Hle].
    + intros; apply Hkids; by right.
    + apply Hext. intros i d [?|[= -> ->]%list_elem_of_singleton]%elem_of_app; [by left|by right].
    + split; [done|]. rewrite !length_app in Hle. simpl in Hle. lia.
Qed.

Lemma descendants_loop_ok fuel start md mt result queue seen s :
  collected (st_db s) start md mt result queue seen →
  length queue + length (t_scopes (st_db s)) < fuel + length result →
  ∃ l q sn, descendants_loop fuel md mt result queue seen s = (Ok (Some l), s) ∧
    collected (st_db s) start md mt l q sn.
Proof.
  revert result queue seen. induction fuel as [|fuel IH]; intros result queue seen Hcol Hfuel.
  { exfalso. assert (length (sc_id <$> result) ≤ length (t_scopes (st_db s))) as Hb.
    { apply ids_bound; [apply Hcol|]. intros i (sc & -> & Hsc)%list_elem_of_fmap.
      exists sc. split; [|done]. by apply Hcol. }
    rewrite length_fmap in Hb. lia. }
  cbn [descendants_loop]. destruct queue as [|[id depth] queue]; [by exists result, [], seen|].
  destruct (mt <=? length result) eqn:Hmt; [by exists result, ((id, depth) :: queue), seen|].
  apply Nat.leb_gt in Hmt.
  assert (Hcol' : collected (st_db s) start md mt result queue seen).
  { destruct Hcol. split; [done..| |done]. intros i d Hi. apply col_queue0. by right. }
  simpl in Hfuel. destruct (md <=? depth) eqn:Hmd; [by apply IH; [|lia]|]. apply Nat.leb_gt in Hmd.
  destruct (children_run id 1000 s) as (kids & Hkids & Hin). rewrite (run_bind_ok _ _ _ _ _ Hkids).
  assert (Hb : below (st_db s) depth start id) by (apply Hcol; left).
  pose proof (visit_kids_ok _ start md mt id depth kids result queue seen Hb Hmd Hmt Hin Hcol') as Hv.
  destruct (visit_kids depth mt kids result queue seen) as [[r' q'] s'].
  destruct Hv as [Hok Hle]. apply IH; [done|lia].
Qed.

(** Walking down the hierarchy always ends and stays within its bounds:
    descendants returns, changing nothing, at most max_total scopes, each once,
    never the start itself and none that is archived, and every one of them is
    below the start by at most max_depth parent links through live scopes, also
    in a hierarchy with cycles. *)
Theorem descendants_bounded id max_depth max_total s :
  ∃ l, descendants id max_depth max_total s = (Ok (Some l), s) ∧
    length l ≤ max_total ∧ NoDup (sc_id <$> l) ∧ (id ∉ sc_id <$> l) ∧
    ∀ sc, sc ∈ l → sc ∈ t_scopes (st_db s) ∧ is_archived sc = false ∧
      ∃ n, 0 < n ≤ max_depth ∧ below (st_db s) n id (sc_id sc).
Proof.
  unfold descendants. rewrite (run_bind_ok (gets _) _ s (length (t_scopes (st_db s))) s) by done.
  destruct (descendants_loop_ok (S (S (length (t_scopes (st_db s))))) id max_depth max_total [] [(id, 0)] [id] s)
    as (l & q & sn & Hl & [C1 C2 C3 C4 C5 C6]); [|simpl; lia|].
  - split; simpl; [|constructor|apply not_elem_of_nil|by intros sc ?%not_elem_of_nil| |lia].
    + intros i. rewrite list_elem_of_singleton, elem_of_nil. tauto.
    + intros i d [= -> ->]%list_elem_of_singleton. constructor.
  - exists l. by split_and!.
Qed.
End HierarchyTheorems.
