(* ===== verification/Constructs.v ===== *)
(** * Legacy v1: the construct registry (registry/)

    The kinds of constructs, the registry in memory with its indexes and its
    listeners, and the stores it is saved to and loaded from.  An entry is an
    object that several indexes refer to: the model keeps the objects in a heap
    and the indexes hold references. *)

From S2P Require Import Prelude LegacyTypes Schema.

(** ** kinds.py *)

Module RegistryKind.

Inductive t :=
  | MODEL | FIELD | RELATIONSHIP | INSTANCE
  | FUNCTION | CLASS | METHOD | SIGNAL | TASK
  | VIEW | SERIALIZER | MIDDLEWARE
  | PRINCIPAL | SCOPE | RULE | ENVIRONMENT | PIPELINE | STAGE | FLOW_CHANNEL | DEPLOYMENT | SECRET | SECRET_REF
  | INTEGRATION | PLUGIN | PLUGIN_HOOK | CONNECTOR | MARKETPLACE_LISTING
  | EVENT_SUBSCRIPTION | WEBHOOK_ENDPOINT | NOTIFICATION_RULE | SCHEDULE | SCHEDULED_ACTION
  | TEMPLATE | APP_CONFIG | MANIFEST | CUSTOM.

Definition name (k : t) : string :=
  match k with
  | MODEL => "MODEL" | FIELD => "FIELD" | RELATIONSHIP => "RELATIONSHIP" | INSTANCE => "INSTANCE"
  | FUNCTION => "FUNCTION" | CLASS => "CLASS" | METHOD => "METHOD" | SIGNAL => "SIGNAL" | TASK => "TASK"
  | VIEW => "VIEW" | SERIALIZER => "SERIALIZER" | MIDDLEWARE => "MIDDLEWARE"
  | PRINCIPAL => "PRINCIPAL" | SCOPE => "SCOPE" | RULE => "RULE" | ENVIRONMENT => "ENVIRONMENT"
  | PIPELINE => "PIPELINE" | STAGE => "STAGE" | FLOW_CHANNEL => "FLOW_CHANNEL" | DEPLOYMENT => "DEPLOYMENT"
  | SECRET => "SECRET" | SECRET_REF => "SECRET_REF" | INTEGRATION => "INTEGRATION" | PLUGIN => "PLUGIN"
  | PLUGIN_HOOK => "PLUGIN_HOOK" | CONNECTOR => "CONNECTOR" | MARKETPLACE_LISTING => "MARKETPLACE_LISTING"
  | EVENT_SUBSCRIPTION => "EVENT_SUBSCRIPTION" | WEBHOOK_ENDPOINT => "WEBHOOK_ENDPOINT"
  | NOTIFICATION_RULE => "NOTIFICATION_RULE" | SCHEDULE => "SCHEDULE" | SCHEDULED_ACTION => "SCHEDULED_ACTION"
  | TEMPLATE => "TEMPLATE" | APP_CONFIG => "APP_CONFIG" | MANIFEST => "MANIFEST" | CUSTOM => "CUSTOM"
  end.

(** The members in order. *)
Definition members : list t := [
  MODEL; FIELD; RELATIONSHIP; INSTANCE; FUNCTION; CLASS; METHOD; SIGNAL; TASK; VIEW; SERIALIZER; MIDDLEWARE;
  PRINCIPAL; SCOPE; RULE; ENVIRONMENT; PIPELINE; STAGE; FLOW_CHANNEL; DEPLOYMENT; SECRET; SECRET_REF;
  INTEGRATION; PLUGIN; PLUGIN_HOOK; CONNECTOR; MARKETPLACE_LISTING;
  EVENT_SUBSCRIPTION; WEBHOOK_ENDPOINT; NOTIFICATION_RULE; SCHEDULE; SCHEDULED_ACTION;
  TEMPLATE; APP_CONFIG; MANIFEST; CUSTOM].

(** [RegistryKind[name]], None for the KeyError. *)
Definition of_name (s : string) : option t := find (λ k, bool_decide (name k = s)) members.

End RegistryKind.

Record CustomKind := { ck_name : string; ck_description : string }.

Inductive EntryKind := Builtin (k : RegistryKind.t) | Custom (k : CustomKind).

Definition kind_name (k : EntryKind) : string :=
  match k with Builtin k => RegistryKind.name k | Custom k => ck_name k end.

(** ** base.py: the entries *)

(** A target is an object of the application: its identity. *)
Record RegistryEntry := {
  re_id : string; re_urn : URN; re_kind : EntryKind; re_lifecycle : Lifecycle; re_at : Z; re_by : string;
  re_target : option nat; re_metadata : jdict; re_namespace : string; re_tags : gset string;
  re_version : Z; re_previous : option string;
}.

Definition entry_active (e : RegistryEntry) : bool := bool_decide (re_lifecycle e = ACTIVE).

(** What [snapshot] holds, which is also what a stored entry is read back from. *)
Record raw_entry := {
  raw_id : string; raw_urn : string; raw_kind : string; raw_lifecycle : Lifecycle; raw_at : Z; raw_by : string;
  raw_namespace : string; raw_tags : list string; raw_version : Z; raw_metadata : jdict;
  raw_previous : option string;
}.

Definition entry_snapshot (e : RegistryEntry) : raw_entry := {|
  raw_id := re_id e; raw_urn := URN_str (re_urn e); raw_kind := kind_name (re_kind e);
  raw_lifecycle := re_lifecycle e; raw_at := re_at e; raw_by := re_by e; raw_namespace := re_namespace e;
  raw_tags := sort_by String.leb (elements (re_tags e)); raw_version := re_version e;
  raw_metadata := re_metadata e; raw_previous := None |}.

(** Everything but the link to the previous version. *)
Definition unlinked (r : raw_entry) : raw_entry := {|
  raw_id := raw_id r; raw_urn := raw_urn r; raw_kind := raw_kind r; raw_lifecycle := raw_lifecycle r;
  raw_at := raw_at r; raw_by := raw_by r; raw_namespace := raw_namespace r; raw_tags := raw_tags r;
  raw_version := raw_version r; raw_metadata := raw_metadata r; raw_previous := None |}.

(** [transition] and [archive] change these in place. *)
Definition moved_entry (l : Lifecycle) (e : RegistryEntry) : RegistryEntry := {|
  re_id := re_id e; re_urn := re_urn e; re_kind := re_kind e; re_lifecycle := l; re_at := re_at e;
  re_by := re_by e; re_target := re_target e; re_metadata := re_metadata e; re_namespace := re_namespace e;
  re_tags := re_tags e; re_version := (re_version e + 1)%Z; re_previous := None |}.

Definition paginate {A} (items : list A) (limit : option nat) (offset : nat) : list A :=
  let items := drop offset items in
  match limit with Some n => take n items | None => items end.

(** [d[k] = v] on a dict: in place, or at the end. *)
Fixpoint dict_put {V} (k : string) (v : V) (d : list (string * V)) : list (string * V) :=
  match d with
  | [] => [(k, v)]
  | (k', v') :: d => if bool_decide (k' = k) then (k, v) :: d else (k', v') :: dict_put k v d
  end.

Fixpoint dict_find {V} (k : string) (d : list (string * V)) : option V :=
  match d with
  | [] => None
  | (k', v) :: d => if bool_decide (k' = k) then Some v else dict_find k d
  end.

(** ** The registry, and the process around it *)

Record registry := MkRegistry {
  _objects : list RegistryEntry;
  _entries : list (string * nat);
  _by_urn : gmap string nat;
  _by_kind : gmap string (list string);
  _by_namespace : gmap string (list string);
  _by_target : gmap nat string;
  _frozen : bool;
  _listeners : list nat;
}.

Definition new_registry : registry := MkRegistry [] [] ∅ ∅ ∅ ∅ false [].

(** The registry, [CustomKind._registered], the data of an InMemoryRegistryStore,
    and the database. *)
Record process := Process {
  pr_registry : registry;
  pr_custom : gmap string CustomKind;
  pr_memory : list (string * raw_entry);
  pr_store : store;
}.

Definition put_registry (r : registry) (p : process) : process :=
  Process r (pr_custom p) (pr_memory p) (pr_store p).
Definition put_custom (c : gmap string CustomKind) (p : process) : process :=
  Process (pr_registry p) c (pr_memory p) (pr_store p).
Definition put_memory (m : list (string * raw_entry)) (p : process) : process :=
  Process (pr_registry p) (pr_custom p) m (pr_store p).
Definition put_store (s : store) (p : process) : process :=
  Process (pr_registry p) (pr_custom p) (pr_memory p) s.

Abbreviation pp := (prog process).

Definition on_store {R} (m : lp R) : pp R := λ p,
  let '(r, s) := m (pr_store p) in (r, put_store s p).

Definition reg {R} (f : registry → R) : pp R := gets (λ p, f (pr_registry p)).
Definition set_reg (f : registry → registry) : pp unit := modify (λ p, put_registry (f (pr_registry p)) p).

(** CustomKind. *)
Definition define_kind (name description : string) : pp CustomKind :=
  known ← gets (λ p, pr_custom p !! name);
  match known with
  | Some k => mret k
  | None =>
      let k := {| ck_name := name; ck_description := description |} in
      modify (λ p, put_custom (<[name := k]> (pr_custom p)) p) ;;
      mret k
  end.

Definition get_kind (name : string) : pp (option CustomKind) := gets (λ p, pr_custom p !! name).
Definition reset_kinds : pp unit := modify (put_custom ∅).

(** ** The indexes *)

Definition set_entry_objects (l : list RegistryEntry) (r : registry) : registry :=
  MkRegistry l (_entries r) (_by_urn r) (_by_kind r) (_by_namespace r) (_by_target r) (_frozen r) (_listeners r).
Definition set_frozen (b : bool) (r : registry) : registry :=
  MkRegistry (_objects r) (_entries r) (_by_urn r) (_by_kind r) (_by_namespace r) (_by_target r) b (_listeners r).
Definition set_registry_listeners (l : list nat) (r : registry) : registry :=
  MkRegistry (_objects r) (_entries r) (_by_urn r) (_by_kind r) (_by_namespace r) (_by_target r) (_frozen r) l.

Definition add_id (id : string) (l : list string) : list string := if bool_decide (id ∈ l) then l else l ++ [id].
Definition ids_at (k : string) (index : gmap string (list string)) : list string := default [] (index !! k).

Definition index_object (ref : nat) (e : RegistryEntry) (r : registry) : registry := {|
  _objects := _objects r;
  _entries := dict_put (re_id e) ref (_entries r);
  _by_urn := <[URN_str (re_urn e) := ref]> (_by_urn r);
  _by_kind := <[kind_name (re_kind e) := add_id (re_id e) (ids_at (kind_name (re_kind e)) (_by_kind r))]> (_by_kind r);
  _by_namespace := <[re_namespace e := add_id (re_id e) (ids_at (re_namespace e) (_by_namespace r))]> (_by_namespace r);
  _by_target := match re_target e with Some t => <[t := re_id e]> (_by_target r) | None => _by_target r end;
  _frozen := _frozen r;
  _listeners := _listeners r |}.

(** A new entry object, indexed. *)
Definition _index_entry (e : RegistryEntry) : pp nat :=
  ref ← reg (λ r, length (_objects r));
  set_reg (λ r, index_object ref e (set_entry_objects (_objects r ++ [e]) r)) ;;
  mret ref.

Definition unindex_object (e : RegistryEntry) (id : string) (r : registry) : registry := {|
  _objects := _objects r;
  _entries := _entries r;
  _by_urn := delete (URN_str (re_urn e)) (_by_urn r);
  _by_kind := <[kind_name (re_kind e) := filter (λ i, i ≠ id) (ids_at (kind_name (re_kind e)) (_by_kind r))]> (_by_kind r);
  _by_namespace := <[re_namespace e := filter (λ i, i ≠ id) (ids_at (re_namespace e) (_by_namespace r))]> (_by_namespace r);
  _by_target := _by_target r;
  _frozen := _frozen r;
  _listeners := _listeners r |}.

(** Read an object; the invariant below shows that no reference dangles. *)
Definition deref (ref : nat) : pp RegistryEntry :=
  e ← reg (λ r, _objects r !! ref);
  match e with Some e => mret e | None => raise (RuntimeError "dangling reference") end.

Definition assign (ref : nat) (f : RegistryEntry → RegistryEntry) : pp unit :=
  set_reg (λ r, set_entry_objects (alter f ref (_objects r)) r).

Definition not_registered (id : string) : exn := NotRegistered ("No registry entry with id: " +:+ id).

Section Registry.
Context `{host : !Host}.
(** Calling a listener with an event and an entry. *)
Context (call_listener : nat → string → nat → pp unit).

Definition freeze : pp unit := set_reg (set_frozen true).
Definition unfreeze : pp unit := set_reg (set_frozen false).

Definition on_change (listener : nat) : pp unit :=
  set_reg (λ r, set_registry_listeners (_listeners r ++ [listener]) r).

Definition _notify (event : string) (ref : nat) : pp unit :=
  listeners ← reg _listeners;
  for_each listeners (λ l, call_listener l event ref).

Definition register (kind : EntryKind) (namespace name registered_by : string) (target : option nat)
  (metadata : option jdict) (tags : option (gset string)) (version : Z) (lifecycle : Lifecycle) : pp nat :=
  frozen ← reg _frozen;
  raise_if frozen (RegistryFrozen "Registry is frozen — cannot register new constructs") ;;
  urn ← lift (new_URN (kind_name kind) namespace name version);
  taken ← reg (λ r, _by_urn r !! URN_str urn);
  raise_if (bool_decide (is_Some taken)) (AlreadyRegistered ("Construct already registered: " +:+ URN_str urn)) ;;
  id ← on_store generate_id;
  ts ← on_store now_utc;
  ref ← _index_entry {| re_id := id; re_urn := urn; re_kind := kind; re_lifecycle := lifecycle; re_at := ts;
    re_by := registered_by; re_target := target; re_metadata := default [] metadata; re_namespace := namespace;
    re_tags := default ∅ tags; re_version := 1; re_previous := None |};
  _notify "register" ref ;;
  mret ref.

(** ** Lookup *)

Definition get_entry (id : string) : pp nat :=
  found ← reg (λ r, dict_find id (_entries r));
  match found with Some ref => mret ref | None => raise (not_registered id) end.

Definition find_by_urn (urn : string) : pp (option nat) := reg (λ r, _by_urn r !! urn).

Definition get_by_urn (urn : string) : pp nat :=
  found ← find_by_urn urn;
  match found with Some ref => mret ref | None => raise (NotRegistered ("No registry entry with URN: " +:+ urn)) end.

Definition get_by_target (target : nat) : pp nat :=
  known ← reg (λ r, _by_target r !! target);
  match known with
  | None => raise (NotRegistered "Target object is not registered")
  | Some id =>
      found ← reg (λ r, dict_find id (_entries r));
      match found with Some ref => mret ref | None => raise (KeyError id) end
  end.

Definition find_by_target (target : nat) : pp (option nat) :=
  known ← reg (λ r, _by_target r !! target);
  match known with
  | None | Some EmptyString => mret None
  | Some id => reg (λ r, dict_find id (_entries r))
  end.

(** [[self._entries[eid] for eid in ids]]. *)
Definition entries_at (ids : list string) : pp (list nat) :=
  for_fold ids [] (λ acc id,
    found ← reg (λ r, dict_find id (_entries r));
    match found with Some ref => mret (acc ++ [ref]) | None => raise (KeyError id) end).

Definition by_kind (kind : EntryKind) (limit : option nat) (offset : nat) : pp (list nat) :=
  ids ← reg (λ r, ids_at (kind_name kind) (_by_kind r));
  entries ← entries_at ids;
  mret (paginate entries limit offset).

Definition by_namespace (namespace : string) (limit : option nat) (offset : nat) : pp (list nat) :=
  ids ← reg (λ r, ids_at namespace (_by_namespace r));
  entries ← entries_at ids;
  mret (paginate entries limit offset).

(** The entries in order, those that satisfy a test. *)
Definition entries_where (test : RegistryEntry → bool) (limit : option nat) (offset : nat) : pp (list nat) :=
  all ← reg _entries;
  entries ← for_fold (all.*2) [] (λ acc ref,
    e ← deref ref;
    mret (if test e then acc ++ [ref] else acc));
  mret (paginate entries limit offset).

Definition by_tag (tag : string) : option nat → nat → pp (list nat) :=
  entries_where (λ e, bool_decide (tag ∈ re_tags e)).
Definition by_lifecycle (l : Lifecycle) : option nat → nat → pp (list nat) :=
  entries_where (λ e, bool_decide (re_lifecycle e = l)).

(** A filter that is not given holds of everything. *)
Definition unless_given {A} (o : option A) (test : A → bool) : bool := match o with Some a => test a | None => true end.

Definition query (kind : option EntryKind) (namespace tag : option string) (lifecycle : option Lifecycle)
  (predicate : option (RegistryEntry → bool)) : option nat → nat → pp (list nat) :=
  entries_where (λ e,
    unless_given kind (λ k, bool_decide (kind_name (re_kind e) = kind_name k)) &&
    unless_given namespace (λ n, bool_decide (re_namespace e = n)) &&
    unless_given tag (λ t, bool_decide (t ∈ re_tags e)) &&
    unless_given lifecycle (λ l, bool_decide (re_lifecycle e = l)) &&
    unless_given predicate (λ f, f e)).

Definition all_entries (limit : option nat) (offset : nat) : pp (list nat) :=
  all ← reg _entries; mret (paginate (all.*2) limit offset).
Definition count : pp nat := reg (λ r, length (_entries r)).
Definition contains_urn (urn : string) : pp bool := reg (λ r, bool_decide (is_Some (_by_urn r !! urn))).
Definition contains_target (target : nat) : pp bool := reg (λ r, bool_decide (is_Some (_by_target r !! target))).

(** ** Lifecycle *)

Definition transition (id : string) (l : Lifecycle) : pp nat :=
  ref ← get_entry id;
  assign ref (moved_entry l) ;;
  _notify "lifecycle_change" ref ;;
  mret ref.

Definition archive (id : string) : pp nat :=
  ref ← get_entry id;
  e ← deref ref;
  assign ref (moved_entry ARCHIVED) ;;
  set_reg (unindex_object e id) ;;
  _notify "lifecycle_change" ref ;;
  mret ref.

Definition clear : pp unit :=
  set_reg (λ r, MkRegistry (_objects r) [] ∅ ∅ ∅ ∅ false (_listeners r)).
End Registry.

(** ** What the registry keeps *)

Definition holds (r : registry) (id : string) (ref : nat) (e : RegistryEntry) : Prop :=
  (id, ref) ∈ _entries r ∧ _objects r !! ref = Some e.

(** An index of ids by a key of the entries. *)
Record index_ok (key : RegistryEntry → string) (index : gmap string (list string)) (r : registry) : Prop := {
  ix_nodup : ∀ k, NoDup (ids_at k index);
  ix_sound : ∀ k id, id ∈ ids_at k index → ∃ ref e, holds r id ref e ∧ key e = k;
}.

Definition kind_key (e : RegistryEntry) : string := kind_name (re_kind e).

Record registry_ok (r : registry) : Prop := {
  ro_ids : NoDup ((_entries r).*1);
  ro_entries : ∀ id ref, (id, ref) ∈ _entries r → ∃ e, _objects r !! ref = Some e ∧ re_id e = id;
  ro_urns : ∀ u ref, _by_urn r !! u = Some ref →
    ∃ e, holds r (re_id e) ref e ∧ URN_str (re_urn e) = u ∧
      re_id e ∈ ids_at (kind_key e) (_by_kind r) ∧ re_id e ∈ ids_at (re_namespace e) (_by_namespace r);
  ro_kinds : index_ok kind_key (_by_kind r) r;
  ro_namespaces : index_ok re_namespace (_by_namespace r) r;
  ro_together : ∀ id ref e, holds r id ref e →
    id ∈ ids_at (kind_key e) (_by_kind r) ↔ id ∈ ids_at (re_namespace e) (_by_namespace r);
  ro_targets : ∀ t id, _by_target r !! t = Some id → ∃ ref e, holds r id ref e ∧ re_target e = Some t;
}.

(** The ids in use were generated. *)
Record process_ok (p : process) : Prop := {
  po_registry : registry_ok (pr_registry p);
  po_ids : ∀ id, id ∈ (_entries (pr_registry p)).*1 → ∃ n, n < st_next (pr_store p) ∧ id = id_of n;
}.

(** What an entry object keeps: all but its lifecycle, whose changes are counted. *)
Definition same_construct (a b : RegistryEntry) : Prop :=
  re_id b = re_id a ∧ re_urn b = re_urn a ∧ re_kind b = re_kind a ∧ re_namespace b = re_namespace a ∧
  re_target b = re_target a ∧ re_tags b = re_tags a ∧ re_metadata b = re_metadata a ∧ re_at b = re_at a ∧
  re_by b = re_by a ∧ (re_version a = re_version b ∧ re_lifecycle b = re_lifecycle a ∨ re_version a < re_version b)%Z.

Record process_later (p p' : process) : Prop := {
  pl_objects : grown same_construct (_objects (pr_registry p)) (_objects (pr_registry p'));
  pl_entries : _entries (pr_registry p) `prefix_of` _entries (pr_registry p');
  pl_next : st_next (pr_store p) ≤ st_next (pr_store p');
}.

#[export] Instance same_construct_preorder : PreOrder same_construct.
Proof.
  split; [intros e; unfold same_construct; by repeat split; left|].
  intros a b c (?&?&?&?&?&?&?&?&?&Hv) (?&?&?&?&?&?&?&?&?&Hw). unfold same_construct.
  split_and!; try congruence. destruct Hv as [[Hv Hl]|Hv], Hw as [[Hw Hm]|Hw]; [left; by rewrite Hv, Hm|right; lia..].
Qed.

#[export] Instance process_later_preorder : PreOrder process_later.
Proof.
  split; [intros p; by split|]. intros a b c [A1 A2 A3] [B1 B2 B3]. split; [by etrans|by etrans|lia].
Qed.

(** ** Dicts *)

Lemma dict_put_fresh {V} k (v : V) d : k ∉ d.*1 → dict_put k v d = d ++ [(k, v)].
Proof.
  induction d as [|[k' v'] d IH]; [done|]. cbn. rewrite not_elem_of_cons. intros [Hne Hk].
  rewrite bool_decide_eq_false_2 by congruence. by rewrite IH.
Qed.

Lemma dict_find_Some {V} k (v : V) d : dict_find k d = Some v → (k, v) ∈ d.
Proof.
  induction d as [|[k' v'] d IH]; [done|]. cbn. case_bool_decide as H; [intros [= ->]; subst; left|right; auto].
Qed.

Lemma dict_find_None {V} k (d : list (string * V)) : dict_find k d = None ↔ k ∉ d.*1.
Proof.
  induction d as [|[k' v'] d IH]; [cbn; split; [intros _; apply not_elem_of_nil|done]|]. cbn.
  rewrite not_elem_of_cons, <-IH. case_bool_decide; naive_solver.
Qed.

Lemma dict_find_elem {V} k (v : V) d : NoDup (d.*1) → (k, v) ∈ d → dict_find k d = Some v.
Proof.
  induction d as [|[k' v'] d IH]; [by intros _ ?%elem_of_nil|]. cbn. rewrite NoDup_cons. intros [Hk Hd].
  intros [[= <- <-]|H]%elem_of_cons; [by rewrite bool_decide_eq_true_2|].
  rewrite bool_decide_eq_false_2; [by apply IH|]. intros ->. apply Hk. by apply (list_elem_of_fmap_2 fst) in H.
Qed.

Lemma holds_unique r id ref ref' e e' : registry_ok r → holds r id ref e → holds r id ref' e' → ref = ref' ∧ e = e'.
Proof.
  intros Hok [H1 H2] [H3 H4]. apply (dict_find_elem _ _ _ (ro_ids r Hok)) in H1, H3.
  assert (ref = ref') as <- by congruence. split; [done|congruence].
Qed.

Lemma holds_id r id ref e : registry_ok r → holds r id ref e → re_id e = id.
Proof. intros Hok [H1 H2]. destruct (ro_entries r Hok id ref H1) as (e' & ? & ?). congruence. Qed.

(** ** Indexing a new entry *)

Lemma ids_at_insert k k' l index : ids_at k (<[k' := l]> index) = if bool_decide (k' = k) then l else ids_at k index.
Proof.
  unfold ids_at. case_bool_decide as H; [subst; by rewrite lookup_insert_eq|by rewrite lookup_insert_ne].
Qed.

Lemma elem_of_add_id i id l : i ∈ add_id id l ↔ i = id ∨ i ∈ l.
Proof. unfold add_id. case_bool_decide; [set_solver|rewrite elem_of_app, list_elem_of_singleton; tauto]. Qed.

Lemma NoDup_add_id id l : NoDup l → NoDup (add_id id l).
Proof.
  intros Hl. unfold add_id. case_bool_decide as H; [done|]. apply NoDup_app. split_and!; [done|set_solver|apply NoDup_singleton].
Qed.

Section Indexing.
Context (r : registry) (e : RegistryEntry) (Hok : registry_ok r) (Hfresh : re_id e ∉ (_entries r).*1).

Definition grown_registry : registry := index_object (length (_objects r)) e (set_entry_objects (_objects r ++ [e]) r).

Lemma grown_entries : _entries grown_registry = _entries r ++ [(re_id e, length (_objects r))].
Proof using Hok Hfresh. by apply dict_put_fresh. Qed.

Lemma holds_grown id ref e' : holds r id ref e' → holds grown_registry id ref e'.
Proof using Hok Hfresh.
  intros [H1 H2]. split; [rewrite grown_entries; set_solver|]. cbn. by apply lookup_app_l_Some.
Qed.

Lemma holds_new : holds grown_registry (re_id e) (length (_objects r)) e.
Proof using Hok Hfresh. split; [rewrite grown_entries; set_solver|]. cbn. by rewrite lookup_app_r, Nat.sub_diag by lia. Qed.

Lemma holds_grown_inv id ref e' :
  holds grown_registry id ref e' → holds r id ref e' ∨ id = re_id e ∧ ref = length (_objects r) ∧ e' = e.
Proof using Hok Hfresh.
  intros [H1 H2]. rewrite grown_entries in H1. apply elem_of_app in H1 as [H1|[= -> ->]%list_elem_of_singleton].
  - left. split; [done|]. destruct (ro_entries r Hok id ref H1) as (e1 & He1 & _). cbn in H2.
    rewrite lookup_app_l in H2 by (by eapply lookup_lt_Some). done.
  - right. cbn in H2. rewrite lookup_app_r, Nat.sub_diag in H2 by lia. by injection H2 as ->.
Qed.

Lemma fresh_not_held ref e' : holds r (re_id e) ref e' → False.
Proof using Hok Hfresh. intros [H _]. apply Hfresh. by apply (list_elem_of_fmap_2 fst) in H. Qed.

Lemma index_grown key index :
  index_ok key index r → index_ok key (<[key e := add_id (re_id e) (ids_at (key e) index)]> index) grown_registry.
Proof using Hok Hfresh.
  intros [Hnd Hs]. split.
  - intros k. rewrite ids_at_insert. case_bool_decide; [apply NoDup_add_id|]; apply Hnd.
  - intros k id. rewrite ids_at_insert. intros Hid.
    assert (id = re_id e ∧ key e = k ∨ id ∈ ids_at k index) as [[-> Hk]|Hin].
    { case_bool_decide as Hk; [subst k; apply elem_of_add_id in Hid; tauto|by right]. }
    + exists (length (_objects r)), e. split; [apply holds_new|done].
    + destruct (Hs k id Hin) as (ref & e' & Hh & Hk). exists ref, e'. split; [by apply holds_grown|done].
Qed.

Lemma listed_grown key index k id :
  id ∈ ids_at k index → id ∈ ids_at k (<[key e := add_id (re_id e) (ids_at (key e) index)]> index).
Proof using Type*.
  intros H. rewrite ids_at_insert. case_bool_decide as Hk; [|done]. subst k. apply elem_of_add_id. by right.
Qed.

Lemma listed_new (key : RegistryEntry → string) index :
  re_id e ∈ ids_at (key e) (<[key e := add_id (re_id e) (ids_at (key e) index)]> index).
Proof using Type*. rewrite ids_at_insert, bool_decide_eq_true_2 by done. apply elem_of_add_id. by left. Qed.

Lemma listed_other (key : RegistryEntry → string) index k id :
  id ≠ re_id e → id ∈ ids_at k (<[key e := add_id (re_id e) (ids_at (key e) index)]> index) ↔ id ∈ ids_at k index.
Proof using Type*.
  intros Hne. rewrite ids_at_insert. case_bool_decide as Hk; [|done]. subst k. rewrite elem_of_add_id. tauto.
Qed.

Lemma registry_grown_ok : registry_ok grown_registry.
Proof using Hok Hfresh.
  destruct Hok as [R1 R2 R3 R4 R5 R6 R7]. split.
  - rewrite grown_entries, fmap_app. apply NoDup_app. split_and!; [done|set_solver|apply NoDup_singleton].
  - intros id ref. rewrite grown_entries. intros [H|[= -> ->]%list_elem_of_singleton]%elem_of_app.
    + destruct (R2 id ref H) as (e' & He' & Hid). exists e'. split; [|done]. cbn. by apply lookup_app_l_Some.
    + exists e. split; [apply holds_new|done].
  - intros u ref Hu. cbn in Hu. apply lookup_insert_Some in Hu as [[<- <-]|[_ Hu]].
    + exists e. split_and!; [apply holds_new|done|apply (listed_new kind_key)|apply (listed_new re_namespace)].
    + destruct (R3 u ref Hu) as (e' & Hh & Heq & Hk & Hn). exists e'.
      split_and!; [by apply holds_grown|done|by apply (listed_grown kind_key)|by apply (listed_grown re_namespace)].
  - by apply (index_grown kind_key).
  - by apply (index_grown re_namespace).
  - intros id ref e' [Hh|(-> & -> & ->)]%holds_grown_inv.
    + cbn. assert (id ≠ re_id e) as Hne by (intros ->; by eapply fresh_not_held).
      rewrite (listed_other kind_key), (listed_other re_namespace) by done. by eapply R6.
    + cbn. split; intros _; [apply (listed_new re_namespace)|apply (listed_new kind_key)].
  - intros t id. cbn. destruct (re_target e) as [t'|] eqn:Ht.
    + intros [[<- <-]|[_ H]]%lookup_insert_Some; [by exists (length (_objects r)), e; split; [apply holds_new|]|].
      destruct (R7 t id H) as (ref & e' & Hh & ?). exists ref, e'. split; [by apply holds_grown|done].
    + intros H. destruct (R7 t id H) as (ref & e' & Hh & ?). exists ref, e'. split; [by apply holds_grown|done].
Qed.
End Indexing.

(** ** Changing an entry in place *)

Lemma index_change key index r r' :
  (∀ id ref e, holds r id ref e → ∃ e', holds r' id ref e' ∧ key e' = key e) →
  index_ok key index r → index_ok key index r'.
Proof.
  intros Hh [Hnd Hs]. split; [done|]. intros k id Hid. destruct (Hs k id Hid) as (ref & e & H & <-).
  destruct (Hh _ _ _ H) as (e' & ? & ?). by exists ref, e'.
Qed.

Lemma assign_holds r ref l id ref' e :
  holds r id ref' e →
  holds (set_entry_objects (alter (moved_entry l) ref (_objects r)) r) id ref' (if bool_decide (ref' = ref) then moved_entry l e else e).
Proof.
  intros [H1 H2]. split; [done|]. cbn. case_bool_decide as H; [subst; by rewrite list_lookup_alter_eq, H2|].
  by rewrite list_lookup_alter_ne.
Qed.

Lemma assign_holds_inv r ref l id ref' e :
  holds (set_entry_objects (alter (moved_entry l) ref (_objects r)) r) id ref' e →
  ∃ e0, holds r id ref' e0 ∧ e = (if bool_decide (ref' = ref) then moved_entry l e0 else e0).
Proof.
  intros [H1 H2]. cbn in H2. case_bool_decide as H.
  - subst. rewrite list_lookup_alter_eq in H2. destruct (_objects r !! ref) as [e0|] eqn:He; [|done].
    injection H2 as <-. by exists e0.
  - rewrite list_lookup_alter_ne in H2 by done. by exists e.
Qed.

Lemma moved_if_keeps (b : bool) l e :
  let e' := if b then moved_entry l e else e in
  re_id e' = re_id e ∧ re_urn e' = re_urn e ∧ kind_key e' = kind_key e ∧ re_namespace e' = re_namespace e ∧
  re_target e' = re_target e.
Proof. by destruct b. Qed.

Lemma registry_assign_ok r ref l : registry_ok r → registry_ok (set_entry_objects (alter (moved_entry l) ref (_objects r)) r).
Proof.
  intros Hok. pose proof Hok as [R1 R2 R3 R4 R5 R6 R7]. split; try done.
  - intros id ref' H. destruct (R2 id ref' H) as (e & He & Hid).
    destruct (assign_holds r ref l id ref' e (conj H He)) as [_ H']. eexists. split; [exact H'|].
    by destruct (moved_if_keeps (bool_decide (ref' = ref)) l e) as (-> & _).
  - intros u ref' Hu. destruct (R3 u ref' Hu) as (e & Hh & Hurn & Hk & Hn).
    destruct (moved_if_keeps (bool_decide (ref' = ref)) l e) as (E1 & E2 & E3 & E4 & _).
    eexists. rewrite E1, E2, E3, E4. split_and!; [by apply assign_holds|done..].
  - eapply index_change; [|done]. intros id ref' e Hh. eexists. split; [by apply assign_holds|]. by case_bool_decide.
  - eapply index_change; [|done]. intros id ref' e Hh. eexists. split; [by apply assign_holds|]. by case_bool_decide.
  - intros id ref' e (e0 & Hh & ->)%assign_holds_inv.
    destruct (moved_if_keeps (bool_decide (ref' = ref)) l e0) as (_ & _ & -> & -> & _). by eapply R6.
  - intros t id H. destruct (R7 t id H) as (ref' & e & Hh & Ht). exists ref'. eexists. split; [by apply assign_holds|].
    by destruct (moved_if_keeps (bool_decide (ref' = ref)) l e) as (_ & _ & _ & _ & ->).
Qed.

Lemma elem_of_unlisted k key id i index :
  i ∈ ids_at k (<[key := filter (λ j, j ≠ id) (ids_at key index)]> index) ↔ i ∈ ids_at k index ∧ (key = k → i ≠ id).
Proof. rewrite ids_at_insert. case_bool_decide as H; [subst; rewrite list_elem_of_filter; naive_solver|naive_solver]. Qed.

Lemma index_unlisted f key id index r : index_ok f index r → index_ok f (<[key := filter (λ j, j ≠ id) (ids_at key index)]> index) r.
Proof.
  intros [Hnd Hs]. split.
  - intros k. rewrite ids_at_insert. case_bool_decide; [apply NoDup_filter|]; apply Hnd.
  - intros k i [Hi _]%elem_of_unlisted. by apply Hs.
Qed.

Lemma registry_unindex_ok r id ref e : registry_ok r → holds r id ref e → registry_ok (unindex_object e id r).
Proof.
  intros Hok Hh. pose proof Hok as [R1 R2 R3 R4 R5 R6 R7]. split; try done.
  - intros u ref' Hu. cbn in Hu. apply lookup_delete_Some in Hu as [Hne Hu].
    destruct (R3 u ref' Hu) as (e' & Hh' & Hurn & Hk & Hn). exists e'. split_and!; [done..| |]; cbn;
      rewrite elem_of_unlisted; (split; [done|]); intros _ Heq; rewrite Heq in Hh';
      destruct (holds_unique _ _ _ _ _ _ Hok Hh Hh') as [-> ->]; done.
  - eapply (index_change _ _ r); [intros i ref' e' H; by exists e'|]. by apply (index_unlisted kind_key).
  - eapply (index_change _ _ r); [intros i ref' e' H; by exists e'|]. by apply (index_unlisted re_namespace).
  - intros i ref' e' Hh'. cbn. rewrite !elem_of_unlisted. specialize (R6 i ref' e' Hh').
    destruct (decide (i = id)) as [->|Hne]; [|naive_solver].
    destruct (holds_unique _ _ _ _ _ _ Hok Hh Hh') as [-> ->]. unfold kind_key. naive_solver.
Qed.

(** ** The operations *)

Section Invariant.
Context `{host : !Host} (call_listener : nat → string → nat → pp unit).

(** Sound, and later than a given process. *)
Definition since (p0 p : process) : Prop := process_ok p ∧ process_later p0 p.

(** The listeners may use the registry themselves, and raise. *)
Context (listener_keeps : ∀ p0 l event ref, preserves (since p0) (call_listener l event ref)).

Lemma preserves_notify p0 event ref : preserves (since p0) (_notify call_listener event ref).
Proof using listener_keeps.
  unfold _notify. apply preserves_bind; [apply preserves_gets|]. intros. apply preserves_for_each. intros. apply listener_keeps.
Qed.

(** Registering either fails and changes nothing, or indexes a new entry and
    tells the listeners. *)
Lemma register_cases kind namespace name by_ target metadata tags version l p :
  let urn := new_URN (kind_name kind) namespace name version in
  (∃ e, register call_listener kind namespace name by_ target metadata tags version l p = (Raise e, p) ∧
    (_frozen (pr_registry p) = true ∨ (∃ e', urn = Raise e') ∨ (∃ u, urn = Ok u ∧ is_Some (_by_urn (pr_registry p) !! URN_str u)))) ∨
  ∃ u e, urn = Ok u ∧ _frozen (pr_registry p) = false ∧ _by_urn (pr_registry p) !! URN_str u = None ∧
    e = {| re_id := id_of (st_next (pr_store p)); re_urn := u; re_kind := kind; re_lifecycle := l;
      re_at := st_now (pr_store p); re_by := by_; re_target := target; re_metadata := default [] metadata;
      re_namespace := namespace; re_tags := default ∅ tags; re_version := 1; re_previous := None |} ∧
    register call_listener kind namespace name by_ target metadata tags version l p =
      (_notify call_listener "register" (length (_objects (pr_registry p))) ;; mret (length (_objects (pr_registry p))))
        (put_registry (grown_registry (pr_registry p) e) (put_store (put_next (S (st_next (pr_store p))) (pr_store p)) p)).
Proof.
  cbv zeta. unfold register. rewrite run_bind. cbn [reg gets]. rewrite run_bind. unfold raise_if at 1.
  destruct (_frozen (pr_registry p)) eqn:Hf; [left; eexists; split; [reflexivity|by left]|].
  cbn [mret prog_ret]. rewrite run_bind. cbn [lift].
  destruct (new_URN _ _ _ _) as [u|e] eqn:Hu; [|left; exists e; split; [done|right; left; by exists e]].
  rewrite run_bind. cbn [reg gets]. rewrite run_bind. unfold raise_if. case_bool_decide as Ht.
  - left. eexists. split; [reflexivity|]. right; right. by exists u.
  - right. exists u. eexists. split_and!; [done|done|by apply eq_None_not_Some|reflexivity|].
    unfold mbind at 1 2 3, prog_bind at 1 2 3. cbn [lift reg gets mret prog_ret]. by rewrite bool_decide_eq_false_2.
Qed.

Lemma id_of_fresh p : process_ok p → id_of (st_next (pr_store p)) ∉ (_entries (pr_registry p)).*1.
Proof.
  intros [_ Hids] Hin. destruct (Hids _ Hin) as (n & Hn & Heq). unfold id_of in Heq.
  apply (inj (String.append "id-")), (inj pretty) in Heq. lia.
Qed.

Lemma grown_process p e :
  process_ok p → re_id e = id_of (st_next (pr_store p)) →
  let p' := put_registry (grown_registry (pr_registry p) e) (put_store (put_next (S (st_next (pr_store p))) (pr_store p)) p) in
  process_ok p' ∧ process_later p p'.
Proof.
  intros Hok Hid. pose proof (id_of_fresh p Hok) as Hfresh. rewrite <-Hid in Hfresh. destruct Hok as [Hreg Hids].
  cbv zeta. split; split.
  - by apply registry_grown_ok.
  - intros id. cbn [put_registry pr_registry]. rewrite grown_entries, fmap_app by done.
    intros [Hin|Hin%list_elem_of_singleton]%elem_of_app.
    + destruct (Hids id Hin) as (n & Hn & ->). exists n. split; [cbn; lia|done].
    + exists (st_next (pr_store p)). split; [cbn; lia|]. by rewrite Hin.
  - cbn. apply grown_app. exact _.
  - cbn [put_registry pr_registry]. rewrite grown_entries by done. by apply prefix_app_r.
  - cbn. lia.
Qed.

Lemma register_keeps p0 kind namespace name by_ target metadata tags version l :
  preserves (since p0) (register call_listener kind namespace name by_ target metadata tags version l).
Proof using listener_keeps.
  intros p [Hok Hlater].
  destruct (register_cases kind namespace name by_ target metadata tags version l p)
    as [(e & -> & _)|(u & e & _ & _ & _ & He & ->)]; [done|].
  assert (Hid : re_id e = id_of (st_next (pr_store p))) by by rewrite He.
  destruct (grown_process p e Hok Hid) as [H1 H2].
  apply (preserves_bind (since p0)); [apply preserves_notify|intros; apply preserves_ret|]. split; [done|by etrans].
Qed.

Lemma get_entry_cases id p :
  process_ok p →
  get_entry id p = (Raise (not_registered id), p) ∨
  ∃ ref e, holds (pr_registry p) id ref e ∧ get_entry id p = (Ok ref, p).
Proof.
  intros [Hok _]. unfold get_entry. rewrite run_bind. cbn [reg gets].
  destruct (dict_find id _) as [ref|] eqn:Hf; [|by left]. right. apply dict_find_Some in Hf.
  destruct (ro_entries _ Hok id ref Hf) as (e & He & _). by exists ref, e.
Qed.

Lemma same_construct_moved l e : same_construct e (moved_entry l e).
Proof. unfold same_construct. split_and!; try done. right. cbn. lia. Qed.

Lemma assigned_process l ref p :
  process_ok p →
  let p' := put_registry (set_entry_objects (alter (moved_entry l) ref (_objects (pr_registry p))) (pr_registry p)) p in
  process_ok p' ∧ process_later p p'.
Proof.
  intros [Hreg Hids]. cbv zeta. split; split; try done; [by apply registry_assign_ok|]. cbn.
  exists (alter (moved_entry l) ref (_objects (pr_registry p))). split; [|done]. apply Forall2_same_length_lookup_2;
    [by rewrite length_alter|].
  intros i x y Hx Hy. destruct (decide (i = ref)) as [->|Hne].
  - rewrite list_lookup_alter_eq, Hx in Hy. injection Hy as <-. apply same_construct_moved.
  - rewrite list_lookup_alter_ne, Hx in Hy by done. by injection Hy as <-.
Qed.

Lemma transition_entry_keeps p0 id l : preserves (since p0) (transition call_listener id l).
Proof using listener_keeps.
  intros p [Hok Hlater]. unfold transition. rewrite run_bind.
  destruct (get_entry_cases id p Hok) as [->|(ref & e & _ & ->)]; [done|].
  rewrite run_bind. cbn [assign set_reg modify]. destruct (assigned_process l ref p Hok) as [H1 H2].
  apply (preserves_bind (since p0)); [apply preserves_notify|intros; apply preserves_ret|]. split; [done|by etrans].
Qed.

Lemma archive_entry_keeps p0 id : preserves (since p0) (archive call_listener id).
Proof using listener_keeps.
  intros p [Hok Hlater]. unfold archive. rewrite run_bind.
  destruct (get_entry_cases id p Hok) as [->|(ref & e & Hh & ->)]; [done|].
  rewrite run_bind. assert (deref ref p = (Ok e, p)) as ->.
  { unfold deref. rewrite run_bind. cbn [reg gets]. by rewrite (proj2 Hh). }
  rewrite run_bind. cbn [assign set_reg modify]. rewrite run_bind. cbn [set_reg modify].
  destruct (assigned_process ARCHIVED ref p Hok) as [H1 H2].
  apply (preserves_bind (since p0)); [apply preserves_notify|intros; apply preserves_ret|].
  split; [|etrans; [exact Hlater|]; destruct H2; by split]. destruct H1 as [H1 H3]. split; [|exact H3].
  cbn [put_registry pr_registry].
  assert (unindex_object e id = unindex_object (moved_entry ARCHIVED e) id) as -> by done.
  eapply registry_unindex_ok; [done|]. pose proof (assign_holds _ ref ARCHIVED _ _ _ Hh) as H.
  rewrite bool_decide_eq_true_2 in H by done. exact H.
Qed.
End Invariant.

(** ** Every sequence of operations *)

Section Reachable.
Context `{host : !Host} (call_listener : nat → string → nat → pp unit).
Context (listener_keeps : ∀ p0 l event ref, preserves (since p0) (call_listener l event ref)).

Inductive construct_op :=
  | CRegister (kind : EntryKind) (namespace name by_ : string) (target : option nat) (metadata : option jdict)
      (tags : option (gset string)) (version : Z) (l : Lifecycle)
  | CTransition (id : string) (l : Lifecycle)
  | CArchive (id : string)
  | CFreeze | CUnfreeze
  | COnChange (listener : nat)
  | CDefineKind (name description : string)
  | CResetKinds.

Definition run_construct_op (op : construct_op) : pp unit :=
  match op with
  | CRegister kind namespace name by_ target metadata tags version l =>
      register call_listener kind namespace name by_ target metadata tags version l ;; mret tt
  | CTransition id l => transition call_listener id l ;; mret tt
  | CArchive id => archive call_listener id ;; mret tt
  | CFreeze => freeze
  | CUnfreeze => unfreeze
  | COnChange l => on_change l
  | CDefineKind name description => define_kind name description ;; mret tt
  | CResetKinds => reset_kinds
  end.

(** Changes that leave the entries and their indexes alone. *)
Lemma preserves_flags p0 (f : process → process) :
  (∀ p, _objects (pr_registry (f p)) = _objects (pr_registry p) ∧ _entries (pr_registry (f p)) = _entries (pr_registry p) ∧
    _by_urn (pr_registry (f p)) = _by_urn (pr_registry p) ∧ _by_kind (pr_registry (f p)) = _by_kind (pr_registry p) ∧
    _by_namespace (pr_registry (f p)) = _by_namespace (pr_registry p) ∧
    _by_target (pr_registry (f p)) = _by_target (pr_registry p) ∧ st_next (pr_store (f p)) = st_next (pr_store p)) →
  preserves (since p0) (modify f).
Proof using.
  intros Hf p [[Hreg Hids] Hlater]. cbn. destruct (Hf p) as (E1 & E2 & E3 & E4 & E5 & E6 & E7).
  assert (Hholds : ∀ id ref e, holds (pr_registry p) id ref e → holds (pr_registry (f p)) id ref e)
    by (unfold holds; by rewrite E1, E2).
  split; [split; [|by rewrite E2, E7]|etrans; [exact Hlater|split; by rewrite ?E1, ?E2, ?E7]].
  destruct Hreg as [R1 R2 R3 R4 R5 R6 R7]. unfold holds in *. split; unfold holds; rewrite ?E1, ?E2, ?E3, ?E4, ?E5, ?E6; try done.
  - eapply index_change; [|done]. intros id ref e H. exists e. split; [by apply Hholds|done].
  - eapply index_change; [|done]. intros id ref e H. exists e. split; [by apply Hholds|done].
Qed.

Lemma preserves_define p0 name description : preserves (since p0) (define_kind name description).
Proof using.
  unfold define_kind. apply preserves_bind; [apply preserves_gets|]. intros [k|]; [apply preserves_ret|].
  apply preserves_bind; [by apply preserves_flags|intros; apply preserves_ret].
Qed.

Lemma run_construct_op_keeps p0 op : preserves (since p0) (run_construct_op op).
Proof using listener_keeps.
  destruct op; cbn [run_construct_op]; unfold freeze, unfreeze, on_change, reset_kinds, set_reg;
    try by apply preserves_flags.
  - apply preserves_bind; [by apply register_keeps|intros; apply preserves_ret].
  - apply preserves_bind; [by apply transition_entry_keeps|intros; apply preserves_ret].
  - apply preserves_bind; [by apply archive_entry_keeps|intros; apply preserves_ret].
  - apply preserves_bind; [apply preserves_define|intros; apply preserves_ret].
Qed.

Definition construct_step (p p' : process) : Prop := ∃ op, p' = (run_construct_op op p).2.

(** The registry stays sound whatever is called and whatever the listeners
    do with it, on every exit: the indexes refer to entries they describe and list
    nothing twice, what has a URN is listed by kind and by namespace, and what is
    listed by one is listed by the other; entries are never lost and stay what they
    were but for their lifecycle, whose changes are counted. *)
Theorem constructs_reachable_ok p p' :
  process_ok p → rtc construct_step p p' → process_ok p' ∧ process_later p p'.
Proof using listener_keeps.
  intros Hok Hsteps.
  assert (Hsince : ∀ q q', rtc construct_step q q' → since p q → since p q').
  { induction 1 as [|q1 q2 q3 [op ->] _ IH]; [done|]. intros Hs. apply IH. by apply run_construct_op_keeps. }
  apply (Hsince _ _ Hsteps). by split.
Qed.
End Reachable.

(** An entry that was returned is found by its id and by its URN, and in the lists
    of its kind and its namespace; registering its URN again fails, with nothing
    changed. *)
Lemma register_exact `{host : !Host} (quiet_listener : nat → string → nat → pp unit)
  kind namespace name by_ target metadata tags version l p ref p' :
  (∀ i ev r q, quiet_listener i ev r q = (Ok tt, q)) → process_ok p →
  register quiet_listener kind namespace name by_ target metadata tags version l p = (Ok ref, p') →
  ∃ e u, new_URN (kind_name kind) namespace name version = Ok u ∧ re_urn e = u ∧ re_version e = 1%Z ∧ re_lifecycle e = l ∧
    holds (pr_registry p') (re_id e) ref e ∧
    find_by_urn (URN_str u) p' = (Ok (Some ref), p') ∧ get_entry (re_id e) p' = (Ok ref, p') ∧
    re_id e ∈ ids_at (kind_name kind) (_by_kind (pr_registry p')) ∧
    re_id e ∈ ids_at namespace (_by_namespace (pr_registry p')) ∧
    ∀ kind' by' target' metadata' tags' l', kind_name kind' = kind_name kind →
      ∃ x, register quiet_listener kind' namespace name by' target' metadata' tags' version l' p' = (Raise x, p').
Proof.
  intros Hquiet Hok H.
  assert (Hnotify : ∀ ev r q, _notify quiet_listener ev r q = (Ok tt, q)).
  { intros ev r q. unfold _notify. rewrite run_bind. cbn [reg gets]. generalize (_listeners (pr_registry q)).
    intros ls. induction ls as [|i ls IH]; [done|]. cbn. rewrite run_bind, Hquiet. exact IH. }
  destruct (register_cases quiet_listener kind namespace name by_ target metadata tags version l p)
    as [(e & Hr & _)|(u & e & Hu & Hf & _ & He & Hr)]; rewrite Hr in H; [done|].
  rewrite run_bind, Hnotify in H. apply mret_ok in H as [-> ->].
  assert (Hid : re_id e = id_of (st_next (pr_store p))) by by rewrite He.
  pose proof (id_of_fresh p Hok) as Hfresh. rewrite <-Hid in Hfresh.
  destruct (grown_process p e Hok Hid) as [Hok' _]. pose proof (holds_new _ e (po_registry p Hok) Hfresh) as Hnew.
  assert (Hurn : re_urn e = u) by by rewrite He. exists e, u.
  assert (Htaken : _by_urn (grown_registry (pr_registry p) e) !! URN_str u = Some (length (_objects (pr_registry p)))).
  { cbn. rewrite Hurn. apply lookup_insert_eq. }
  split_and!; try done; try (by rewrite He).
  - unfold find_by_urn, reg, gets. cbn [put_registry pr_registry]. by rewrite Htaken.
  - pose proof (dict_find_elem _ _ _ (ro_ids _ (po_registry _ Hok')) (proj1 Hnew)) as Hfind.
    unfold get_entry, reg, gets, mbind, prog_bind. cbn [put_registry pr_registry] in Hfind |- *. by rewrite Hfind.
  - pose proof (listed_new (pr_registry p) e (po_registry p Hok) Hfresh kind_key (_by_kind (pr_registry p))) as Hk.
    by rewrite He in Hk |- *.
  - pose proof (listed_new (pr_registry p) e (po_registry p Hok) Hfresh re_namespace (_by_namespace (pr_registry p))) as Hk.
    by rewrite He in Hk |- *.
  - intros kind' by' target' metadata' tags' l' Hk.
    match goal with |- ∃ x, _ ?q = _ => 
      destruct (register_cases quiet_listener kind' namespace name by' target' metadata' tags' version l' q)
        as [(x & -> & _)|(u' & e' & Hu' & _ & Hnone & _)] end; [by exists x|].
    exfalso. rewrite Hk, Hu in Hu'. injection Hu' as <-. cbn [put_registry pr_registry] in Hnone. congruence.
Qed.
