(* ===== verification/ConstructStore.v ===== *)
(** * Legacy v1: saving and loading the construct registry (registry/store.py,
    registry/sqlite_store.py)

    A RegistryStore is an interface with two implementations, the table
    registry_entries and a dict in memory.  What is proved of loading a saved
    registry is proved against the interface. *)

From S2P Require Import Prelude LegacyTypes Schema Constructs.

(** ** RegistryStore *)

(** Another process (a restart) that finds what was stored. *)
Definition same_data (p q : process) : Prop :=
  pr_memory q = pr_memory p ∧ st_db (pr_store q) = st_db (pr_store p).

(** The entries that a list of references stands for. *)
Definition stands_for (p : process) (refs : list nat) (es : list RegistryEntry) : Prop :=
  Forall2 (λ ref e, _objects (pr_registry p) !! ref = Some e) refs es.

Class RegistryStore := {
  save_entry : nat → pp unit;
  save_all : list nat → pp unit;
  load_all : pp (list raw_entry);
  delete_entry : string → pp unit;
  clear_store : pp unit;
  stored_nothing : process → Prop;
  (** What was saved into an empty store is what is loaded, in some order. *)
  saved_all : ∀ refs es p u p', stored_nothing p → stands_for p refs es → NoDup (re_id <$> es) →
    save_all refs p = (Ok u, p') →
    ∃ raws, unlinked <$> raws ≡ₚ entry_snapshot <$> es ∧ ∀ q, same_data p' q → load_all q = (Ok raws, q);
}.

Definition _resolve_kind (name : string) : pp EntryKind :=
  match RegistryKind.of_name name with
  | Some k => mret (Builtin k)
  | None =>
      custom ← get_kind name;
      match custom with
      | Some k => mret (Custom k)
      | None => k ← define_kind name ""; mret (Custom k)
      end
  end.

Definition _hydrate_entry (raw : raw_entry) : pp nat :=
  urn ← lift (URN_parse (raw_urn raw));
  kind ← _resolve_kind (raw_kind raw);
  _index_entry {| re_id := raw_id raw; re_urn := urn; re_kind := kind; re_lifecycle := raw_lifecycle raw;
    re_at := raw_at raw; re_by := raw_by raw; re_target := None; re_metadata := raw_metadata raw;
    re_namespace := raw_namespace raw; re_tags := list_to_set (raw_tags raw); re_version := raw_version raw;
    re_previous := raw_previous raw |}.

Definition hydrate_registry `{RegistryStore} : pp nat :=
  raws ← load_all;
  for_fold raws 0 (λ n raw, _hydrate_entry raw ;; mret (S n)).

Definition persist_registry `{RegistryStore} : pp nat :=
  refs ← all_entries None 0;
  save_all refs ;;
  mret (length refs).

(** ** SQLiteRegistryStore (sqlite_store.py) *)

Definition row_of (e : RegistryEntry) : RegistryRow := {|
  rr_id := re_id e; rr_urn := URN_str (re_urn e); rr_kind := kind_name (re_kind e); rr_namespace := re_namespace e;
  rr_name := urn_name (re_urn e); rr_lifecycle := re_lifecycle e; rr_at := re_at e; rr_by := re_by e;
  rr_version := re_version e; rr_previous := re_previous e; rr_metadata := re_metadata e;
  rr_tags := raw_tags (entry_snapshot e) |}.

Definition raw_of_row (x : RegistryRow) : raw_entry := {|
  raw_id := rr_id x; raw_urn := rr_urn x; raw_kind := rr_kind x; raw_lifecycle := rr_lifecycle x; raw_at := rr_at x;
  raw_by := rr_by x; raw_namespace := rr_namespace x; raw_tags := rr_tags x; raw_version := rr_version x;
  raw_metadata := rr_metadata x; raw_previous := rr_previous x |}.

Definition t_registry (t : tables) : list RegistryRow := i_entries (principal_graph t).

(** INSERT ... ON CONFLICT (id) DO UPDATE; the column urn is unique. *)
Definition upsert_entry (x : RegistryRow) : lp unit :=
  rows ← gets (λ s, t_registry (st_db s));
  raise_if (existsb (λ y, bool_decide (rr_urn y = rr_urn x) && negb (bool_decide (rr_id y = rr_id x))) rows)
    (IntegrityError "registry_entries.urn") ;;
  modify (λ s, put_db (set_registry_entries
    (if existsb (λ y, bool_decide (rr_id y = rr_id x)) rows
     then (λ y, if bool_decide (rr_id y = rr_id x) then x else y) <$> rows else rows ++ [x]) (st_db s)) s).

(** The objects of a list of references. *)
Definition deref_all (refs : list nat) : pp (list RegistryEntry) :=
  for_fold refs [] (λ acc ref, e ← deref ref; mret (acc ++ [e])).

Section Stores.
Context `{host : !Host}.

Definition sql_save_entry (ref : nat) : pp unit := e ← deref ref; on_store (upsert_entry (row_of e)).

Definition sql_save_all (refs : list nat) : pp unit :=
  entries ← deref_all refs;
  on_store (transaction (for_each entries (λ e, upsert_entry (row_of e)))).

Definition sql_load_all : pp (list raw_entry) :=
  rows ← on_store (select t_registry (λ _, true));
  mret (raw_of_row <$> rows).

Definition sql_delete_entry (id : string) : pp unit :=
  on_store (sql_delete t_registry set_registry_entries (λ x, bool_decide (rr_id x = id))).

Definition sql_clear : pp unit := on_store (sql_delete t_registry set_registry_entries (λ _, true)).

(** ** InMemoryRegistryStore (store.py) *)

Definition memory_save_entry (ref : nat) : pp unit :=
  e ← deref ref;
  modify (λ p, put_memory (dict_put (re_id e) (entry_snapshot e) (pr_memory p)) p).

Definition memory_save_all (refs : list nat) : pp unit := for_each refs memory_save_entry.
Definition memory_load_all : pp (list raw_entry) := gets (λ p, (pr_memory p).*2).
Definition memory_delete_entry (id : string) : pp unit :=
  modify (λ p, put_memory (filter (λ x, x.1 ≠ id) (pr_memory p)) p).
Definition memory_clear : pp unit := modify (put_memory []).

(** ** Both keep what is saved *)

Lemma deref_run ref e p : _objects (pr_registry p) !! ref = Some e → deref ref p = (Ok e, p).
Proof. intros H. unfold deref, reg, gets, mbind, prog_bind. by rewrite H. Qed.

Lemma deref_all_run refs es p : stands_for p refs es → deref_all refs p = (Ok es, p).
Proof.
  intros H. unfold deref_all.
  assert (Hall : ∀ acc, for_fold refs acc (λ acc ref, e ← deref ref; mret (acc ++ [e])) p = (Ok (acc ++ es), p)); [|apply Hall].
  induction H as [|ref e refs es He _ IH]; intros acc; [by rewrite app_nil_r|]. cbn.
  rewrite run_bind, run_bind, (deref_run _ _ _ He). cbn. rewrite IH. by rewrite <-app_assoc.
Qed.

Lemma upsert_new x s s' :
  rr_id x ∉ (rr_id <$> t_registry (st_db s)) → upsert_entry x s = (Ok tt, s') →
  s' = put_db (set_registry_entries (t_registry (st_db s) ++ [x]) (st_db s)) s ∧
  rr_urn x ∉ (rr_urn <$> t_registry (st_db s)).
Proof.
  intros Hid H. unfold upsert_entry in H.
  apply bind_ok_inv in H as (rows & s1 & [-> ->]%gets_ok & H).
  apply bind_ok_inv in H as ([] & s2 & [Hc ->]%raise_if_ok & H). apply modify_ok in H as ->.
  assert (Hno : ∀ y, y ∈ t_registry (st_db s) → rr_id y ≠ rr_id x).
  { intros y Hy Heq. apply Hid. rewrite <-Heq. by apply list_elem_of_fmap_2. }
  split.
  - destruct (existsb (λ y, bool_decide (rr_id y = rr_id x)) _) eqn:He; [|done].
    apply existsb_exists in He as (y & Hy%list_elem_of_In & Heq%bool_decide_eq_true_1). by apply Hno in Hy.
  - intros (y & Heq & Hy)%list_elem_of_fmap. apply not_true_iff_false in Hc. apply Hc, existsb_exists. exists y.
    rewrite <-list_elem_of_In. split; [done|].
    by rewrite bool_decide_eq_true_2, bool_decide_eq_false_2 by (try apply Hno; done).
Qed.

(** Saving entries with new ids appends their rows, whose URNs are new. *)
Lemma upsert_each es s u s' :
  NoDup (re_id <$> es) → (∀ e, e ∈ es → re_id e ∉ (rr_id <$> t_registry (st_db s))) →
  NoDup (rr_urn <$> t_registry (st_db s)) →
  for_each es (λ e, upsert_entry (row_of e)) s = (Ok u, s') →
  t_registry (st_db s') = t_registry (st_db s) ++ (row_of <$> es) ∧ NoDup (rr_urn <$> t_registry (st_db s')).
Proof.
  revert s. induction es as [|e es IH]; intros s Hnd Hnew Hurns H.
  { apply mret_ok in H as [_ ->]. by rewrite app_nil_r. }
  cbn in Hnd. apply NoDup_cons in Hnd as [He Hnd].
  cbn in H. apply bind_ok_inv in H as ([] & s1 & H1 & H).
  apply upsert_new in H1 as [-> Hurn]; [|apply Hnew; left].
  apply IH in H as [Hrows Hdup]; [split; [|done]|done| |].
  - rewrite Hrows. cbn. by rewrite <-app_assoc.
  - intros e' He'. change (t_registry _) with (t_registry (st_db s) ++ [row_of e]). rewrite fmap_app, not_elem_of_app.
    split; [apply Hnew; by right|]. cbn. intros Heq%list_elem_of_singleton. apply He. rewrite <-Heq.
    by apply list_elem_of_fmap_2.
  - change (t_registry _) with (t_registry (st_db s) ++ [row_of e]). rewrite fmap_app. apply NoDup_app.
    split_and!; [done| |apply NoDup_singleton]. intros y Hy ->%list_elem_of_singleton. by apply Hurn.
Qed.

Definition sql_stored_nothing (p : process) : Prop := t_registry (st_db (pr_store p)) = [].

Lemma sql_saved refs es p u p' :
  sql_stored_nothing p → stands_for p refs es → NoDup (re_id <$> es) → sql_save_all refs p = (Ok u, p') →
  t_registry (st_db (pr_store p')) = row_of <$> es ∧ NoDup (URN_str ∘ re_urn <$> es).
Proof.
  intros Hnone Hrefs Hnd H. unfold sql_save_all in H. rewrite run_bind, (deref_all_run _ _ _ Hrefs) in H.
  unfold on_store in H. destruct (transaction _ (pr_store p)) as [[v|x] s'] eqn:Ht; [|done]. injection H as _ <-.
  apply transaction_ok, upsert_each in Ht as [Hrows Hurns]; [|done| |].
  - rewrite Hnone in Hrows. cbn [app] in Hrows. split; [done|]. rewrite Hrows, <-list_fmap_compose in Hurns. exact Hurns.
  - intros e _. rewrite Hnone. apply not_elem_of_nil.
  - rewrite Hnone. constructor.
Qed.

Lemma sql_saved_all refs es p u p' :
  sql_stored_nothing p → stands_for p refs es → NoDup (re_id <$> es) → sql_save_all refs p = (Ok u, p') →
  ∃ raws, unlinked <$> raws ≡ₚ entry_snapshot <$> es ∧ ∀ q, same_data p' q → sql_load_all q = (Ok raws, q).
Proof.
  intros Hnone Hrefs Hnd H. apply (sql_saved refs es) in H as [Hrows _]; [|done..].
  exists (raw_of_row <$> scan (filter (λ r, (λ _ : RegistryRow, true) r = true) (t_registry (st_db (pr_store p'))))). split.
  - rewrite scan_perm, Hrows, <-!list_fmap_compose.
    assert (filter (λ _, true = true) (row_of <$> es) = row_of <$> es) as ->
      by (by apply filter_all_iff).
    rewrite <-list_fmap_compose. apply Permutation_refl'. apply list_fmap_ext. by intros i e _.
  - intros q [_ Hdb]. unfold sql_load_all, on_store, select, gets, mbind, prog_bind. cbn. rewrite Hdb. by destruct q.
Qed.

Definition memory_stored_nothing (p : process) : Prop := pr_memory p = [].

Lemma memory_saved refs es p u p' :
  stands_for p refs es → NoDup (re_id <$> es) → (∀ e, e ∈ es → re_id e ∉ (pr_memory p).*1) →
  memory_save_all refs p = (Ok u, p') →
  pr_memory p' = pr_memory p ++ ((λ e, (re_id e, entry_snapshot e)) <$> es).
Proof.
  intros H. unfold memory_save_all, stands_for in *. revert es p H.
  induction refs as [|ref refs IH]; intros es p H; destruct es as [|e es]; inversion H; subst; cbn [fmap]; intros Hnd Hnew Hrun.
  { apply mret_ok in Hrun as [_ ->]. by rewrite app_nil_r. }
  apply NoDup_cons in Hnd as [He Hnd]. cbn in Hrun. rewrite run_bind in Hrun. unfold memory_save_entry at 1 in Hrun.
  rewrite run_bind, (deref_run _ e) in Hrun by done. cbn in Hrun. apply (IH es) in Hrun as ->; [|done|done|].
  - cbn. rewrite dict_put_fresh by (apply Hnew; left). by rewrite <-app_assoc.
  - intros e' He'. cbn. rewrite dict_put_fresh, fmap_app, not_elem_of_app by (apply Hnew; left).
    split; [apply Hnew; by right|]. cbn. intros Heq%list_elem_of_singleton. apply He. rewrite <-Heq.
    by apply list_elem_of_fmap_2.
Qed.

Lemma memory_saved_all refs es p u p' :
  memory_stored_nothing p → stands_for p refs es → NoDup (re_id <$> es) → memory_save_all refs p = (Ok u, p') →
  ∃ raws, unlinked <$> raws ≡ₚ entry_snapshot <$> es ∧ ∀ q, same_data p' q → memory_load_all q = (Ok raws, q).
Proof.
  intros Hnone Hrefs Hnd H. unfold memory_stored_nothing in Hnone.
  apply (memory_saved refs es) in H; [|done|done|rewrite Hnone; intros; apply not_elem_of_nil].
  rewrite Hnone in H. exists ((pr_memory p').*2). split.
  - rewrite H. cbn. rewrite <-!list_fmap_compose. apply Permutation_refl'. apply list_fmap_ext. by intros i e _.
  - intros q [Hm _]. unfold memory_load_all, gets. by rewrite Hm.
Qed.

Definition SQLiteRegistryStore : RegistryStore := {|
  save_entry := sql_save_entry; save_all := sql_save_all; load_all := sql_load_all;
  delete_entry := sql_delete_entry; clear_store := sql_clear; stored_nothing := sql_stored_nothing;
  saved_all := sql_saved_all |}.

Definition InMemoryRegistryStore : RegistryStore := {|
  save_entry := memory_save_entry; save_all := memory_save_all; load_all := memory_load_all;
  delete_entry := memory_delete_entry; clear_store := memory_clear; stored_nothing := memory_stored_nothing;
  saved_all := memory_saved_all |}.
End Stores.

(** ** Loading *)

(** The entries of a registry in order, as they are saved. *)
Definition entries_of (r : registry) : list RegistryEntry := omap (λ x, _objects r !! x.2) (_entries r).

Definition customs_ok (c : gmap string CustomKind) : Prop := ∀ n k, c !! n = Some k → ck_name k = n.

Lemma resolve_kind_run name p :
  customs_ok (pr_custom p) →
  ∃ k c, _resolve_kind name p = (Ok k, put_custom c p) ∧ kind_name k = name ∧ customs_ok c.
Proof.
  intros Hc. unfold _resolve_kind. destruct (RegistryKind.of_name name) as [k|] eqn:Hk.
  { exists (Builtin k), (pr_custom p). split_and!; [by destruct p| |done]. unfold RegistryKind.of_name in Hk.
    apply find_Some_elem in Hk as [_ Hk%bool_decide_eq_true_1]. done. }
  unfold get_kind, define_kind, gets, mbind, prog_bind.
  destruct (pr_custom p !! name) as [k|] eqn:Hl.
  - exists (Custom k), (pr_custom p). split_and!; [by destruct p|by apply Hc|done].
  - eexists (Custom _), _. split_and!; [by rewrite Hl|done|]. intros n k.
    intros [[<- <-]|[_ H]]%lookup_insert_Some; [done|by apply Hc].
Qed.

(** Text that a saved entry can be read back from. *)
Definition reads_back (raw : raw_entry) : Prop :=
  ∃ e, unlinked raw = entry_snapshot e ∧ URN_parse (URN_str (re_urn e)) = Ok (re_urn e).

Lemma tags_read_back (x : gset string) : list_to_set (sort_by String.leb (elements x)) =@{gset string} x.
Proof. apply set_eq. intros t. by rewrite elem_of_list_to_set, elem_of_sort_by, elem_of_elements. Qed.

Lemma entries_of_grown r e :
  registry_ok r → re_id e ∉ (_entries r).*1 → entries_of (grown_registry r e) = entries_of r ++ [e].
Proof.
  intros Hok Hfresh. unfold entries_of. rewrite grown_entries, omap_app by done. f_equal.
  - apply list_omap_ext, Forall2_same_length_lookup_2; [done|]. intros i x y Hx Hy. assert (x = y) as <- by congruence.
    destruct x as [id ref]. destruct (ro_entries r Hok id ref) as (e' & He' & _); [by apply list_elem_of_lookup_2 in Hx|].
    cbn. rewrite He'. by apply lookup_app_l_Some.
  - cbn. by rewrite lookup_app_r, Nat.sub_diag by lia.
Qed.

Lemma hydrate_run raw p :
  registry_ok (pr_registry p) → customs_ok (pr_custom p) → reads_back raw → raw_id raw ∉ (_entries (pr_registry p)).*1 →
  ∃ e p', _hydrate_entry raw p = (Ok (length (_objects (pr_registry p))), p') ∧ entry_snapshot e = unlinked raw ∧
    pr_registry p' = grown_registry (pr_registry p) e ∧ customs_ok (pr_custom p').
Proof.
  intros Hok Hc (e0 & Hraw & Hparse) Hid. unfold _hydrate_entry.
  assert (Hurn : raw_urn raw = URN_str (re_urn e0)) by by injection Hraw.
  rewrite Hurn, Hparse, run_bind. cbn [lift]. rewrite run_bind.
  destruct (resolve_kind_run (raw_kind raw) p Hc) as (k & c & -> & Hk & Hc').
  eexists _, _. split_and!; [reflexivity| |reflexivity|exact Hc'].
  destruct raw. unfold unlinked, entry_snapshot in *. cbn in *. injection Hraw as -> _ -> -> -> -> -> -> -> ->.
  by rewrite tags_read_back, Hk, Hurn.
Qed.

Lemma snapshot_id e raw : entry_snapshot e = unlinked raw → re_id e = raw_id raw.
Proof. by intros [= ->]. Qed.

Lemma hydrate_all raws p n :
  registry_ok (pr_registry p) → customs_ok (pr_custom p) → Forall reads_back raws → NoDup (raw_id <$> raws) →
  (∀ raw, raw ∈ raws → raw_id raw ∉ (_entries (pr_registry p)).*1) →
  ∃ p', for_fold raws n (λ n raw, _hydrate_entry raw ;; mret (S n)) p = (Ok (n + length raws), p') ∧
    registry_ok (pr_registry p') ∧
    (entry_snapshot <$> entries_of (pr_registry p')) =
      (entry_snapshot <$> entries_of (pr_registry p)) ++ (unlinked <$> raws).
Proof.
  revert p n. induction raws as [|raw raws IH]; intros p n Hok Hc Hraws Hnd Hnew.
  { exists p. cbn. by rewrite Nat.add_0_r, app_nil_r. }
  apply Forall_cons in Hraws as [Hraw Hraws]. cbn [fmap list_fmap] in Hnd. apply NoDup_cons in Hnd as [Hid Hnd].
  assert (Hfresh : raw_id raw ∉ (_entries (pr_registry p)).*1) by (apply Hnew; left).
  destruct (hydrate_run raw p Hok Hc Hraw Hfresh) as (e & p1 & Hrun & He & Hreg & Hc1).
  assert (Heid : re_id e ∉ (_entries (pr_registry p)).*1) by by rewrite (snapshot_id _ _ He).
  cbn [for_fold]. rewrite run_bind, run_bind, Hrun. cbn [mret prog_ret].
  destruct (IH p1 (S n)) as (p' & Hrest & Hok' & Hsnap); [by rewrite Hreg; apply registry_grown_ok|done..| |].
  - intros raw' Hin. rewrite Hreg, grown_entries, fmap_app, not_elem_of_app by done.
    split; [apply Hnew; by right|]. cbn. intros Heq%list_elem_of_singleton. apply Hid.
    rewrite <-(snapshot_id _ _ He), <-Heq. by apply list_elem_of_fmap_2.
  - exists p'. split_and!; [by rewrite Hrest; cbn; rewrite Nat.add_succ_r|done|]. rewrite Hsnap, Hreg, entries_of_grown by done.
    rewrite fmap_app. cbn. by rewrite He, <-app_assoc.
Qed.

(** The references of a sound registry stand for its entries. *)
Lemma all_stand_for p :
  registry_ok (pr_registry p) → stands_for p ((_entries (pr_registry p)).*2) (entries_of (pr_registry p)) ∧
  re_id <$> entries_of (pr_registry p) = (_entries (pr_registry p)).*1.
Proof.
  intros Hok. pose proof (ro_entries _ Hok) as Hall. unfold stands_for, entries_of.
  induction (_entries (pr_registry p)) as [|[id ref] l IH]; [by split; [constructor|]|].
  destruct (Hall id ref) as (e & He & Hid); [left|]. destruct IH as [H1 H2]; [intros; apply Hall; by right|].
  cbn. rewrite He. split; [by constructor|]. cbn. by rewrite Hid, H2.
Qed.

Lemma new_registry_ok : registry_ok new_registry.
Proof.
  split; try done; try (by intros ? ? ?%elem_of_nil); try (by intros ? ? ? [?%elem_of_nil _]).
  - constructor.
  - split; [intros k; constructor|by intros k id ?%elem_of_nil].
  - split; [intros k; constructor|by intros k id ?%elem_of_nil].
Qed.

(** C20: A registry that was saved into an empty store, of either kind, is what a new
    process loads: every entry with its id, URN, kind, lifecycle, version, times,
    metadata and tags (the target, an object of the old process, is gone), provided
    the URNs read back, which those without colons in kind and namespace do. *)
Theorem persist_hydrate `{St : !RegistryStore} p n p' q :
  registry_ok (pr_registry p) → stored_nothing p →
  (∀ e, e ∈ entries_of (pr_registry p) → URN_parse (URN_str (re_urn e)) = Ok (re_urn e)) →
  persist_registry p = (Ok n, p') →
  same_data p' q → pr_registry q = new_registry → customs_ok (pr_custom q) →
  ∃ q', hydrate_registry q = (Ok n, q') ∧ n = length (_entries (pr_registry p)) ∧ registry_ok (pr_registry q') ∧
    (entry_snapshot <$> entries_of (pr_registry q')) ≡ₚ (entry_snapshot <$> entries_of (pr_registry p)).
Proof.
  intros Hok Hnone Hurns H Hdata Hnew Hc. destruct (all_stand_for p Hok) as [Hstand Hids].
  unfold persist_registry in H. apply bind_ok_inv in H as (refs & p1 & Hall & H).
  apply bind_ok_inv in Hall as (l & p2 & [-> ->]%gets_ok & Hall). apply mret_ok in Hall as [-> ->].
  apply bind_ok_inv in H as (u & p3 & Hsave & H). apply mret_ok in H as [-> ->]. cbn [paginate drop] in *.
  assert (Hnd : NoDup (re_id <$> entries_of (pr_registry p))) by (rewrite Hids; apply Hok).
  destruct (saved_all _ _ _ _ _ Hnone Hstand Hnd Hsave) as (raws & Hperm & Hload).
  assert (Hback : Forall reads_back raws).
  { apply Forall_forall. intros raw Hraw. apply (list_elem_of_fmap_2 unlinked) in Hraw. rewrite Hperm in Hraw.
    apply list_elem_of_fmap in Hraw as (e & He & Hin). exists e. split; [done|by apply Hurns]. }
  assert (Hrawids : NoDup (raw_id <$> raws)).
  { assert (raw_id <$> raws ≡ₚ re_id <$> entries_of (pr_registry p)) as ->; [|done].
    transitivity (raw_id <$> (unlinked <$> raws)); [by rewrite <-list_fmap_compose|].
    rewrite Hperm, <-list_fmap_compose. done. }
  unfold hydrate_registry. rewrite run_bind, (Hload q Hdata).
  destruct (hydrate_all raws q 0) as (q' & -> & Hok' & Hsnap); rewrite ?Hnew in *.
  - apply new_registry_ok.
  - done.
  - done.
  - done.
  - intros raw _. apply not_elem_of_nil.
  - exists q'. apply Permutation_length in Hperm as Hlen. rewrite !length_fmap in Hlen.
    apply Forall2_length in Hstand. split_and!; [|apply length_fmap|done|by rewrite Hsnap].
    by rewrite Nat.add_0_l, Hlen, <-Hstand.
Qed.

(** Two entries with one URN, which archiving allows, cannot be saved to the
    database. *)
Lemma shared_urn_unpersistable `{host : !Host} p :
  let _ := SQLiteRegistryStore in
  registry_ok (pr_registry p) → stored_nothing p → ¬ NoDup (URN_str ∘ re_urn <$> entries_of (pr_registry p)) →
  ∃ x p', persist_registry p = (Raise x, p').
Proof.
  intros st Hok Hnone Hdup. destruct (persist_registry p) as [[n|x] p'] eqn:H; [|by exists x, p'].
  exfalso. apply Hdup. destruct (all_stand_for p Hok) as [Hstand Hids]. unfold persist_registry in H.
  apply bind_ok_inv in H as (refs & p1 & Hall & H).
  apply bind_ok_inv in Hall as (l & p2 & [-> ->]%gets_ok & Hall). apply mret_ok in Hall as [-> ->].
  apply bind_ok_inv in H as (u & p3 & Hsave & _). cbn [paginate drop] in Hsave.
  eapply (sql_saved _ _ _ _ _ Hnone Hstand); [rewrite Hids; apply Hok|exact Hsave].
Qed.
