(* ===== verification/Identity.v ===== *)
(** * Legacy v1: principals and the acting context (identity/principal.py,
    identity/context.py)

    The store of principals and of the labelled edges between them, and the
    context variable that says who is acting. *)

From S2P Require Import Prelude LegacyTypes Schema Trail Tenancy Constructs ConstructStore.

Definition principals (t : tables) : list Principal := i_principals (principal_graph t).
Definition relationships (t : tables) : list PrincipalRelationship := i_relationships (principal_graph t).

Definition principal_active (x : Principal) : bool := bool_decide (pc_lifecycle x = ACTIVE).

Definition principal_snapshot `{host : !Host} (x : Principal) : jdict := [
  ("id", JVstr (pc_id x)); ("kind", JVstr (pc_kind x)); ("display_name", JVstr (pc_name x));
  ("registry_entry_id", JVstr (pc_entry x)); ("created_at", JVstr (isoformat (pc_created_at x)));
  ("created_by", JVstr (pc_created_by x)); ("lifecycle", JVstr (lifecycle_name (pc_lifecycle x)));
  ("metadata", JVdict (pc_metadata x))].

Definition relationship_snapshot `{host : !Host} (x : PrincipalRelationship) : jdict := [
  ("id", JVstr (pe_id x)); ("parent_id", JVstr (pe_parent x)); ("child_id", JVstr (pe_child x));
  ("relationship", JVstr (pe_label x)); ("created_at", JVstr (isoformat (pe_created_at x)));
  ("created_by", JVstr (pe_created_by x)); ("metadata", JVdict (pe_metadata x))].

Definition by_principal (id : string) (x : Principal) : bool := bool_decide (pc_id x = id).
Definition by_relationship (id : string) (x : PrincipalRelationship) : bool := bool_decide (pe_id x = id).

Definition set_principal (name : string) (l : Lifecycle) (metadata : jdict) (x : Principal) : Principal := {|
  pc_id := pc_id x; pc_kind := pc_kind x; pc_name := name; pc_entry := pc_entry x; pc_created_at := pc_created_at x;
  pc_created_by := pc_created_by x; pc_lifecycle := l; pc_metadata := metadata |}.

(** [{**old, **new}]. *)
Definition merged (old new : jdict) : jdict := foldl (λ d kv, dict_put kv.1 kv.2 d) old new.

(** [a or b] on a text that may be missing. *)
Definition given_id (o : option string) : option string :=
  match o with Some EmptyString | None => None | Some s => Some s end.

(** ** PrincipalStore *)

Section Store.
Context `{host : !Host} `{sink : !AuditSink}.

Definition insert_principal (x : Principal) : lp unit :=
  require_row t_registry (λ y, bool_decide (rr_id y = pc_entry x)) "principals.registry_entry_id" ;;
  sql_insert principals set_principals (λ a b, bool_decide (pc_id a = pc_id b)) "principals.id" x.

(** UNIQUE(parent_id, child_id, relationship). *)
Definition relationship_clash (a b : PrincipalRelationship) : bool :=
  bool_decide (pe_id a = pe_id b) ||
  bool_decide (pe_parent a = pe_parent b) && bool_decide (pe_child a = pe_child b) && bool_decide (pe_label a = pe_label b).

Definition insert_relationship (x : PrincipalRelationship) : lp unit :=
  require_row principals (by_principal (pe_parent x)) "principal_relationships.parent_id" ;;
  require_row principals (by_principal (pe_child x)) "principal_relationships.child_id" ;;
  sql_insert relationships set_relationships relationship_clash "principal_relationships" x.

(** An audit record whose failure is passed over. *)
Definition audit_if_possible (q : trace_request) : lp unit := try (audit q) ;; mret tt.

Definition get_principal (id : string) : lp Principal :=
  row ← fetch_one principals (by_principal id);
  match row with Some x => mret x | None => raise (PrincipalNotFound ("Principal not found: " +:+ id)) end.

Definition find_principal (id : string) : lp (option Principal) := fetch_one principals (by_principal id).

(** The offset counts only when there is a limit. *)
Definition list_principals (kind : option string) (l : option Lifecycle) (limit : option nat) (offset : nat)
  : lp (list Principal) :=
  rows ← select principals (λ x, filter_opt kind (pc_kind x) && filter_opt l (pc_lifecycle x));
  mret (match limit with Some n => take n (drop offset rows) | None => rows end).

Definition update_lifecycle (id : string) (l : Lifecycle) : lp Principal :=
  principal ← get_principal id;
  sql_update principals set_principals (by_principal id) (λ x, set_principal (pc_name x) l (pc_metadata x) x) ;;
  audit_if_possible (states_req (Some [("lifecycle", JVstr (lifecycle_name (pc_lifecycle principal)))])
    (Some [("lifecycle", JVstr (lifecycle_name l))]) (request "system" ActionType.LIFECYCLE_CHANGE "principal" id)) ;;
  mret (set_principal (pc_name principal) l (pc_metadata principal) principal).

Definition update_principal (id : string) (display_name : option string) (metadata : option jdict) (updated_by : string)
  : lp Principal :=
  principal ← get_principal id;
  let name' := match display_name with Some n => if bool_decide (n = pc_name principal) then None else Some n | None => None end in
  let metadata' := merged (pc_metadata principal) <$> metadata in
  match name', metadata' with
  | None, None => mret principal
  | _, _ =>
      sql_update principals set_principals (by_principal id)
        (λ x, set_principal (default (pc_name x) name') (pc_lifecycle x) (default (pc_metadata x) metadata') x) ;;
      let state := λ (n : option string) (m : option jdict),
        from_option (λ n, [("display_name", JVstr n)]) [] n ++ from_option (λ m, [("metadata", JVdict m)]) [] m in
      audit_if_possible (states_req
        (Some (state ((λ _, pc_name principal) <$> name') ((λ _, pc_metadata principal) <$> metadata')))
        (Some (state name' metadata')) (request updated_by ActionType.UPDATE "principal" id)) ;;
      get_principal id
  end.

Definition add_relationship (parent child label created_by : string) (metadata : option jdict) : lp PrincipalRelationship :=
  get_principal parent ;;
  get_principal child ;;
  rid ← generate_id;
  ts ← now_utc;
  let rel := {| pe_id := rid; pe_parent := parent; pe_child := child; pe_label := label; pe_created_at := ts;
    pe_created_by := created_by; pe_metadata := default [] metadata |} in
  insert_relationship rel ;;
  mret rel.

Definition remove_relationship (id : string) : lp unit := sql_delete relationships set_relationships (by_relationship id).

(** An empty label filters nothing. *)
Definition labelled (label : option string) (x : PrincipalRelationship) : bool := filter_opt (given_id label) (pe_label x).

Definition get_relationships (id direction : string) (label : option string) : lp (list PrincipalRelationship) :=
  up ← (if bool_decide (direction = "parent") || bool_decide (direction = "both")
        then select relationships (λ x, bool_decide (pe_child x = id) && labelled label x) else mret []);
  down ← (if bool_decide (direction = "child") || bool_decide (direction = "both")
          then select relationships (λ x, bool_decide (pe_parent x = id) && labelled label x) else mret []);
  mret (up ++ down).

(** The registry and its row come before the principal. *)
Context (call_listener : nat → string → nat → pp unit).

Definition create_principal (kind display_name created_by : string) (metadata : option jdict) (principal_id : option string)
  : pp Principal :=
  pid ← match given_id principal_id with Some id => mret id | None => on_store generate_id end;
  ts ← on_store now_utc;
  ref ← register call_listener (Builtin RegistryKind.PRINCIPAL) "identity" (kind +:+ ":" +:+ pid) created_by None
    (Some [("principal_id", JVstr pid); ("principal_kind", JVstr kind)]) None 1 ACTIVE;
  sql_save_entry ref ;;
  entry ← deref ref;
  let principal := {| pc_id := pid; pc_kind := kind; pc_name := display_name; pc_entry := re_id entry; pc_created_at := ts;
    pc_created_by := created_by; pc_lifecycle := ACTIVE; pc_metadata := default [] metadata |} in
  on_store (insert_principal principal) ;;
  on_store (audit_if_possible (states_req None
    (Some [("kind", JVstr kind); ("display_name", JVstr display_name)])
    (request created_by ActionType.CREATE "principal" pid))) ;;
  mret principal.
End Store.

(** ** ScopedContext (context.py) *)

(** A context object; its token holds the value that the variable had. *)
Record ScopedContext := { ctx_principal : Principal; ctx_extras : jdict; ctx_token : option (option nat) }.

(** The context variable and the objects it refers to. *)
Record contexts := Contexts { cx_current : option nat; cx_objects : gmap nat ScopedContext }.

Abbreviation cxp := (prog contexts).

Definition with_token (t : option (option nat)) (c : ScopedContext) : ScopedContext :=
  {| ctx_principal := ctx_principal c; ctx_extras := ctx_extras c; ctx_token := t |}.

Definition context_object (i : nat) : cxp ScopedContext :=
  o ← gets (λ w, cx_objects w !! i);
  match o with Some c => mret c | None => raise (RuntimeError "dangling reference") end.

Definition new_context (principal : Principal) (extras : jdict) : cxp nat :=
  i ← gets (λ w, fresh (dom (cx_objects w)));
  modify (λ w, Contexts (cx_current w)
    (<[i := {| ctx_principal := principal; ctx_extras := extras; ctx_token := None |}]> (cx_objects w))) ;;
  mret i.

Definition context_enter (i : nat) : cxp nat :=
  c ← context_object i;
  modify (λ w, Contexts (Some i) (<[i := with_token (Some (cx_current w)) c]> (cx_objects w))) ;;
  mret i.

Definition context_exit (i : nat) : cxp unit :=
  c ← context_object i;
  match ctx_token c with
  | Some old => modify (λ w, Contexts old (<[i := with_token None c]> (cx_objects w)))
  | None => mret tt
  end.

(** [with ScopedContext(...): body]. *)
Definition within_context {R} (i : nat) (body : cxp R) : cxp R :=
  context_enter i ;; finally body (context_exit i).

Definition current_or_none : cxp (option nat) := gets cx_current.

Definition current_context : cxp nat :=
  c ← current_or_none;
  match c with
  | Some i => mret i
  | None => raise (NoContextError "No ScopedContext is active — every operation requires a principal")
  end.

Definition require_context : cxp nat := current_context.

Definition current_principal : cxp Principal := i ← current_context; c ← context_object i; mret (ctx_principal c).
Definition principal_id_of (c : ScopedContext) : string := pc_id (ctx_principal c).
Definition principal_kind_of (c : ScopedContext) : string := pc_kind (ctx_principal c).

(** ** What the store keeps *)

Definition edge_key (x : PrincipalRelationship) : string * string * string := (pe_parent x, pe_child x, pe_label x).

Record identity_ok (t : tables) : Prop := {
  io_principals : NoDup (pc_id <$> principals t);
  io_edges : NoDup (pe_id <$> relationships t);
  io_keys : NoDup (edge_key <$> relationships t);
  io_ends : ∀ x, x ∈ relationships t → pe_parent x ∈ pc_id <$> principals t ∧ pe_child x ∈ pc_id <$> principals t;
  io_entries : ∀ x, x ∈ principals t → pc_entry x ∈ rr_id <$> t_registry t;
  io_rows : NoDup (rr_id <$> t_registry t);
  io_urns : NoDup (rr_urn <$> t_registry t);
}.

(** What a principal keeps. *)
Definition same_principal (a b : Principal) : Prop :=
  pc_id b = pc_id a ∧ pc_kind b = pc_kind a ∧ pc_entry b = pc_entry a ∧ pc_created_at b = pc_created_at a ∧
  pc_created_by b = pc_created_by a.

#[export] Instance same_principal_preorder : PreOrder same_principal.
Proof. split; [by intros x|]. intros a b c (?&?&?&?&?) (?&?&?&?&?). unfold same_principal. split_and!; congruence. Qed.

Record identity_later (t t' : tables) : Prop := {
  il_principals : grown same_principal (principals t) (principals t');
  il_rows : (rr_id <$> t_registry t) `prefix_of` (rr_id <$> t_registry t');
}.

#[export] Instance identity_later_preorder : PreOrder identity_later.
Proof. split; [intros t; by split|]. intros a b c [A1 A2] [B1 B2]. split; by etrans. Qed.

Definition ikeeps {R} (m : lp R) (s : store) : Prop := keeps identity_ok identity_later m s.

(** Only the identity tables matter. *)
Lemma identity_apart s s' :
  same_layers s s' → identity_ok (st_db s) → identity_ok (st_db s') ∧ identity_later (st_db s) (st_db s').
Proof.
  unfold same_layers. intros H [A1 A2 A3 A4 A5 A6 A7].
  assert (principal_graph (st_db s') = principal_graph (st_db s)) as E by (unfold principal_graph; by rewrite H).
  unfold principals, relationships, t_registry in *.
  split; split; unfold principals, relationships, t_registry; by rewrite E.
Qed.

Lemma ikeeps_apart {R} (m : lp R) s : respects same_layers m → ikeeps m s.
Proof. intros H. exact (identity_apart s (m s).2 (H s)). Qed.

Lemma ikeeps_reads {R} (m : lp R) s : reads m → ikeeps m s.
Proof. apply keeps_reading, _. Qed.

Lemma pc_update_elem f (p : Principal → bool) (l : list Principal) :
  (∀ x, same_principal x (f x)) → pc_id <$> ((λ x, if p x then f x else x) <$> l) = pc_id <$> l.
Proof. intros Hf. apply update_column. intros x. apply Hf. Qed.

Lemma ikeeps_update p f s : (∀ x, same_principal x (f x)) → ikeeps (sql_update principals set_principals p f) s.
Proof.
  intros Hf [A1 A2 A3 A4 A5 A6 A7]. cbn.
  assert (Hids : pc_id <$> principals (set_principals ((λ x, if p x then f x else x) <$> principals (st_db s)) (st_db s)) =
    pc_id <$> principals (st_db s)) by by apply pc_update_elem.
  split; [split; try done|split; [|done]].
  - by rewrite Hids.
  - intros x Hx. rewrite Hids. by apply A4.
  - intros x Hx. unfold principals in Hx. cbn in Hx. apply list_elem_of_fmap in Hx as (y & -> & Hy).
    specialize (A5 y Hy). destruct (p y); [|done]. by destruct (Hf y) as (_ & _ & -> & _).
  - apply grown_fmap. intros x _. destruct (p x); [apply Hf|reflexivity].
Qed.

Lemma set_principal_same n l m x : same_principal x (set_principal n l m x).
Proof. by repeat split. Qed.

Section Invariant.
Context `{host : !Host} `{sink : !AuditSink}.

Lemma ikeeps_insert_principal x s : ikeeps (insert_principal x) s.
Proof.
  unfold insert_principal. intros Hok. rewrite run_bind.
  destruct (require_row t_registry (λ y, bool_decide (rr_id y = pc_entry x)) "principals.registry_entry_id" s)
    as [[[]|e] s1] eqn:Hrow; cbn [fst snd].
  2:{ pose proof (require_row_reads t_registry (λ y, bool_decide (rr_id y = pc_entry x)) "principals.registry_entry_id" s) as H.
      rewrite Hrow in H. cbn in H. by subst s1. }
  apply require_row_ok in Hrow as [-> (y & Hy & Hid%bool_decide_eq_true_1)].
  destruct (sql_insert_cases principals set_principals (λ a b, bool_decide (pc_id a = pc_id b)) "principals.id" x s)
    as [->|[Hc ->]]; [done|]. destruct Hok as [A1 A2 A3 A4 A5 A6 A7]. split; [split; try done|split; [|done]].
  - apply fresh_snoc; [done|]. intros z Hz. specialize (Hc z Hz). by apply bool_decide_eq_false_1 in Hc.
  - intros z Hz. destruct (A4 z Hz). unfold principals. cbn. rewrite fmap_app. set_solver.
  - intros z [Hz|Hz%list_elem_of_singleton]%elem_of_app; [by apply A5|]. subst z. rewrite <-Hid.
    by apply list_elem_of_fmap_2.
  - apply grown_app. exact _.
Qed.

Lemma ikeeps_insert_relationship x s : ikeeps (insert_relationship x) s.
Proof.
  unfold insert_relationship. apply keeps_bind; [exact _|apply keeps_same; [exact _|by rewrite require_row_reads]|].
  intros [] s1 [-> (a & Ha & Haid%bool_decide_eq_true_1)]%require_row_ok.
  apply keeps_bind; [exact _|apply keeps_same; [exact _|by rewrite require_row_reads]|].
  intros [] s2 [-> (b & Hb & Hbid%bool_decide_eq_true_1)]%require_row_ok.
  intros Hok. destruct (sql_insert_cases relationships set_relationships relationship_clash "principal_relationships" x s)
    as [->|[Hc ->]]; [done|]. destruct Hok as [A1 A2 A3 A4 A5 A6 A7].
  assert (Hfresh : ∀ y, y ∈ relationships (st_db s) → pe_id x ≠ pe_id y ∧ edge_key x ≠ edge_key y).
  { intros y Hy. specialize (Hc y Hy). apply orb_false_iff in Hc as [H1%bool_decide_eq_false_1 H2]. split; [done|].
    intros [= E1 E2 E3]. by rewrite !bool_decide_eq_true_2 in H2. }
  split; [split; try done|by split].
  - apply fresh_snoc; [done|]. intros y Hy. by apply Hfresh.
  - unfold relationships. cbn. rewrite fmap_app. apply NoDup_app. split_and!; [done| |apply NoDup_singleton].
    intros k (y & -> & Hy)%list_elem_of_fmap Hk%list_elem_of_singleton. by destruct (Hfresh y Hy) as [_ []].
  - intros y [Hy|Hy%list_elem_of_singleton]%elem_of_app; [by apply A4|]. subst y. rewrite <-Haid, <-Hbid.
    split; by apply list_elem_of_fmap_2.
Qed.

Lemma ikeeps_delete p s : ikeeps (sql_delete relationships set_relationships p) s.
Proof.
  intros [A1 A2 A3 A4 A5 A6 A7]. cbn. split; [split; try done|by split].
  - by apply NoDup_fmap_filter.
  - by apply NoDup_fmap_filter.
  - intros x [_ Hx]%list_elem_of_filter. by apply A4.
Qed.

Definition same_entry_row (x y : RegistryRow) : RegistryRow := if bool_decide (rr_id y = rr_id x) then x else y.

Lemma replace_row_ids x (rows : list RegistryRow) : rr_id <$> (same_entry_row x <$> rows) = rr_id <$> rows.
Proof.
  rewrite <-list_fmap_compose. apply list_fmap_ext. intros _ y _. unfold same_entry_row. cbn. by case_bool_decide.
Qed.

Lemma replace_row_urns x (rows : list RegistryRow) :
  NoDup (rr_id <$> rows) → NoDup (rr_urn <$> rows) → (∀ y, y ∈ rows → rr_urn y = rr_urn x → rr_id y = rr_id x) →
  NoDup (rr_urn <$> (same_entry_row x <$> rows)).
Proof.
  intros Hids Hurns Hx. apply (NoDup_fmap_2_strong rr_urn); [|apply NoDup_fmap_2_strong; [|by eapply NoDup_fmap_1]].
  - intros a b (y & -> & Hy)%list_elem_of_fmap (z & -> & Hz)%list_elem_of_fmap. unfold same_entry_row.
    repeat case_bool_decide; intros Heq; try done.
    + exfalso. match goal with H : rr_id z ≠ _ |- _ => apply H, Hx end; done.
    + exfalso. match goal with H : rr_id y ≠ _ |- _ => apply H, Hx end; done.
    + by apply (NoDup_fmap_inj_in rr_urn rows).
  - intros y z Hy Hz. unfold same_entry_row. repeat case_bool_decide; intros Heq; try subst.
    + apply (NoDup_fmap_inj_in rr_id rows); [done..|congruence].
    + done.
    + done.
    + done.
Qed.

Lemma ikeeps_upsert x s : ikeeps (upsert_entry x) s.
Proof.
  unfold upsert_entry. apply keeps_bind; [exact _|by apply keeps_same; [exact _|]|]. intros rows s1 [-> ->]%gets_ok.
  apply keeps_bind; [exact _|apply ikeeps_reads, reads_raise_if|]. intros [] s2 [Hc ->]%raise_if_ok.
  intros [A1 A2 A3 A4 A5 A6 A7]. cbn.
  assert (Hx : ∀ y, y ∈ t_registry (st_db s) → rr_urn y = rr_urn x → rr_id y = rr_id x).
  { intros y Hy Hurn. destruct (decide (rr_id y = rr_id x)) as [|Hne]; [done|]. exfalso. apply not_true_iff_false in Hc.
    apply Hc, existsb_exists. exists y. rewrite <-list_elem_of_In. split; [done|].
    by rewrite bool_decide_eq_true_2, bool_decide_eq_false_2. }
  destruct (existsb (λ y, bool_decide (rr_id y = rr_id x)) (t_registry (st_db s))) eqn:He.
  - split; [split; try done|split; [done|]].
    + intros y Hy. unfold t_registry. cbn. rewrite (replace_row_ids x). by apply A5.
    + unfold t_registry. cbn. by rewrite (replace_row_ids x).
    + by apply (replace_row_urns x).
    + unfold t_registry at 2. cbn. by rewrite (replace_row_ids x).
  - assert (Hnew : ∀ y, y ∈ t_registry (st_db s) → rr_id x ≠ rr_id y).
    { intros y Hy Heq. apply not_true_iff_false in He. apply He, existsb_exists. exists y. rewrite <-list_elem_of_In.
      by rewrite bool_decide_eq_true_2. }
    split; [split; try done|split; [done|]].
    + intros y Hy. unfold t_registry. cbn. rewrite fmap_app. specialize (A5 y Hy). set_solver.
    + by apply fresh_snoc.
    + apply fresh_snoc; [done|]. intros y Hy Heq. by apply (Hnew y Hy); rewrite (Hx y Hy).
    + unfold t_registry at 2. cbn. rewrite fmap_app. by apply prefix_app_r.
Qed.
End Invariant.

Section Operations.
Context `{host : !Host} `{sink : !AuditSink}.

Lemma try_layers {R} (m : lp R) : respects same_layers m → respects same_layers (try m).
Proof. intros H s. specialize (H s). unfold try. by destruct (m s) as [r s1]. Qed.

Lemma audit_if_possible_layers q : respects same_layers (audit_if_possible q).
Proof. apply respects_bind; [exact _|apply try_layers, audit_layers|]. intros. by apply reads_respects; [exact _|]. Qed.

Lemma ikeeps_audited {R} q (x : R) s : ikeeps (audit_if_possible q ;; mret x) s.
Proof.
  apply ikeeps_apart, respects_bind; [exact _|apply audit_if_possible_layers|]. intros. by apply reads_respects; [exact _|].
Qed.

Lemma get_principal_reads id : reads (get_principal id).
Proof. apply reads_bind; [apply fetch_one_reads|]. intros [x|]; [apply reads_ret|apply reads_raise]. Qed.

Lemma ikeeps_audit_then {R} q (m : lp R) s : reads m → ikeeps (audit_if_possible q ;; m) s.
Proof.
  intros Hm. apply ikeeps_apart, respects_bind; [exact _|apply audit_if_possible_layers|].
  intros. by apply reads_respects; [exact _|].
Qed.

Lemma ikeeps_update_lifecycle id l s : ikeeps (update_lifecycle id l) s.
Proof.
  unfold update_lifecycle. apply keeps_bind; [exact _|apply ikeeps_reads, get_principal_reads|]. intros x s1 _.
  apply keeps_bind; [exact _|apply ikeeps_update; intros; apply set_principal_same|intros; apply ikeeps_audited].
Qed.

Lemma ikeeps_update_principal id name metadata by_ s : ikeeps (update_principal id name metadata by_) s.
Proof.
  unfold update_principal. apply keeps_bind; [exact _|apply ikeeps_reads, get_principal_reads|]. intros x s1 _. cbv zeta.
  destruct (match name with Some n => _ | None => None end) as [n|], (merged (pc_metadata x) <$> metadata) as [m|];
    try (by apply keeps_same; [exact _|]).
  all: apply keeps_bind; [exact _|apply ikeeps_update; intros; apply set_principal_same|].
  all: intros; apply ikeeps_audit_then, get_principal_reads.
Qed.

Lemma ikeeps_add_relationship parent child label by_ metadata s : ikeeps (add_relationship parent child label by_ metadata) s.
Proof.
  unfold add_relationship. apply keeps_bind; [exact _|apply ikeeps_reads, get_principal_reads|]. intros _ s1 _.
  apply keeps_bind; [exact _|apply ikeeps_reads, get_principal_reads|]. intros _ s2 _.
  apply keeps_bind; [exact _|by apply ikeeps_apart|]. intros rid s3 _.
  apply keeps_bind; [exact _|by apply ikeeps_apart|]. intros ts s4 _. cbv zeta.
  apply keeps_bind; [exact _|apply ikeeps_insert_relationship|]. intros _ s5 _. by apply keeps_same; [exact _|].
Qed.

(** ** The process *)

Definition identified (t0 : tables) (p : process) : Prop :=
  identity_ok (st_db (pr_store p)) ∧ identity_later t0 (st_db (pr_store p)).

Lemma identified_store {R} t0 (m : lp R) : (∀ s, ikeeps m s) → preserves (identified t0) (on_store m).
Proof.
  intros Hm p [Hok Hlater]. unfold on_store. destruct (Hm (pr_store p) Hok) as [H1 H2].
  destruct (m (pr_store p)) as [r s]. split; [done|by etrans].
Qed.

Lemma identified_registry t0 f : preserves (identified t0) (set_reg f).
Proof. by intros p. Qed.

Context (call_listener : nat → string → nat → pp unit).
Context (listener_keeps : ∀ t0 l event ref, preserves (identified t0) (call_listener l event ref)).

Lemma identified_deref t0 ref : preserves (identified t0) (deref ref).
Proof using. unfold deref. apply preserves_bind; [apply preserves_gets|]. intros [e|]; [apply preserves_ret|apply preserves_raise]. Qed.

Lemma identified_notify t0 event ref : preserves (identified t0) (_notify call_listener event ref).
Proof using listener_keeps.
  apply preserves_bind; [apply preserves_gets|]. intros. apply preserves_for_each. intros. apply listener_keeps.
Qed.

Lemma identified_register t0 kind namespace name by_ target metadata tags version l :
  preserves (identified t0) (register call_listener kind namespace name by_ target metadata tags version l).
Proof using listener_keeps.
  unfold register. apply preserves_bind; [apply preserves_gets|intros frozen].
  apply preserves_bind; [apply preserves_raise_if|intros _]. apply preserves_bind; [apply preserves_lift|intros urn].
  apply preserves_bind; [apply preserves_gets|intros taken]. apply preserves_bind; [apply preserves_raise_if|intros _].
  apply preserves_bind; [apply identified_store; intros; by apply ikeeps_apart|intros id].
  apply preserves_bind; [apply identified_store; intros; by apply ikeeps_apart|intros ts].
  apply preserves_bind; [|intros ref; apply preserves_bind; [apply identified_notify|intros; apply preserves_ret]].
  apply preserves_bind; [apply preserves_gets|]. intros ref.
  apply preserves_bind; [apply identified_registry|intros; apply preserves_ret].
Qed.

Lemma identified_create t0 kind name by_ metadata id :
  preserves (identified t0) (create_principal call_listener kind name by_ metadata id).
Proof using listener_keeps.
  unfold create_principal. apply preserves_bind.
  { destruct (given_id id); [apply preserves_ret|apply identified_store; intros; by apply ikeeps_apart]. }
  intros pid. apply preserves_bind; [apply identified_store; intros; by apply ikeeps_apart|intros ts].
  apply preserves_bind; [apply identified_register|intros ref]. apply preserves_bind.
  { apply preserves_bind; [apply identified_deref|intros e]. apply identified_store, ikeeps_upsert. }
  intros _. apply preserves_bind; [apply identified_deref|intros e]. cbv zeta.
  apply preserves_bind; [apply identified_store, ikeeps_insert_principal|intros _].
  apply preserves_bind; [|intros; apply preserves_ret]. apply identified_store. intros s.
  apply ikeeps_apart, audit_if_possible_layers.
Qed.

(** ** Every sequence of operations *)

Inductive identity_op :=
  | ICreate (kind name by_ : string) (metadata : option jdict) (id : option string)
  | ILifecycle (id : string) (l : Lifecycle)
  | IUpdate (id : string) (name : option string) (metadata : option jdict) (by_ : string)
  | IRelate (parent child label by_ : string) (metadata : option jdict)
  | IUnrelate (id : string).

Definition run_identity_op (op : identity_op) : pp unit :=
  match op with
  | ICreate kind name by_ metadata id => create_principal call_listener kind name by_ metadata id ;; mret tt
  | ILifecycle id l => on_store (update_lifecycle id l) ;; mret tt
  | IUpdate id name metadata by_ => on_store (update_principal id name metadata by_) ;; mret tt
  | IRelate parent child label by_ metadata => on_store (add_relationship parent child label by_ metadata) ;; mret tt
  | IUnrelate id => on_store (remove_relationship id)
  end.

(** An operation, or one of the registry. *)
Inductive identity_step : relation process :=
  | identity_step_op op p : identity_step p (run_identity_op op p).2
  | identity_step_register kind namespace name by_ target metadata tags version l p :
      identity_step p (register call_listener kind namespace name by_ target metadata tags version l p).2
  | identity_step_save ref p : identity_step p (sql_save_entry ref p).2
  | identity_step_other p p' : same_layers (pr_store p) (pr_store p') → identity_step p p'.

Lemma run_identity_op_keeps t0 op : preserves (identified t0) (run_identity_op op).
Proof using listener_keeps.
  destruct op; cbn [run_identity_op]; try (apply preserves_bind; [|intros; apply preserves_ret]).
  - apply identified_create.
  - apply identified_store, ikeeps_update_lifecycle.
  - apply identified_store, ikeeps_update_principal.
  - apply identified_store, ikeeps_add_relationship.
  - apply identified_store. intros. apply ikeeps_delete.
Qed.

Lemma identity_step_keeps t0 p p' : identity_step p p' → identified t0 p → identified t0 p'.
Proof using listener_keeps.
  intros [op q|kind namespace name by_ target metadata tags version l q|ref q|q q' Hsame].
  - apply run_identity_op_keeps.
  - apply identified_register.
  - apply preserves_bind; [apply identified_deref|intros e]. apply identified_store, ikeeps_upsert.
  - intros [Hok Hlater]. destruct (identity_apart _ _ Hsame Hok) as [H1 H2]. split; [done|by etrans].
Qed.

(** Whatever is called, on every exit, and whatever the registry's listeners do
    within it: ids of principals are unique, edges join principals that exist and no
    edge is there twice with one label, every principal has its row in the registry,
    whose ids and URNs are unique; no principal is ever lost, and its kind, its
    registry entry and its origin never change. *)
Theorem identity_reachable_ok p p' :
  identity_ok (st_db (pr_store p)) → rtc identity_step p p' →
  identity_ok (st_db (pr_store p')) ∧ identity_later (st_db (pr_store p)) (st_db (pr_store p')).
Proof using listener_keeps.
  intros Hok Hsteps.
  assert (Hall : ∀ t0 q q', rtc identity_step q q' → identified t0 q → identified t0 q').
  { intros t0. induction 1 as [|q1 q2 q3 Hstep _ IH]; [done|]. intros Hq. apply IH. by eapply identity_step_keeps. }
  apply (Hall (st_db (pr_store p)) _ _ Hsteps). by split.
Qed.
End Operations.

(** ** Nested contexts *)

(** [body] may enter other contexts, but not this one. *)
Definition leaves_token {R} (i : nat) (body : cxp R) : Prop :=
  ∀ w, (ctx_token <$> cx_objects (body w).2 !! i) = (ctx_token <$> cx_objects w !! i).

Lemma context_object_run i c w : cx_objects w !! i = Some c → context_object i w = (Ok c, w).
Proof. intros H. unfold context_object, gets, mbind, prog_bind. by rewrite H. Qed.

Lemma context_object_reads i : reads (context_object i).
Proof. apply reads_bind; [apply reads_gets|]. intros [c|]; [apply reads_ret|apply reads_raise]. Qed.

Lemma within_run {R} i (body : cxp R) c w :
  cx_objects w !! i = Some c →
  within_context i body w =
    finally body (context_exit i) (Contexts (Some i) (<[i := with_token (Some (cx_current w)) c]> (cx_objects w))).
Proof.
  intros Hc. unfold within_context, context_enter. rewrite run_bind, run_bind, (context_object_run _ _ _ Hc). reflexivity.
Qed.

(** Leaving a context that the body did not enter again. *)
Lemma within_exit {R} i (body : cxp R) c w :
  cx_objects w !! i = Some c → leaves_token i body →
  let w1 := Contexts (Some i) (<[i := with_token (Some (cx_current w)) c]> (cx_objects w)) in
  ∃ c', cx_objects (body w1).2 !! i = Some c' ∧
    within_context i body w =
      ((body w1).1, Contexts (cx_current w) (<[i := with_token None c']> (cx_objects (body w1).2))).
Proof.
  intros Hc Hbody w1. specialize (Hbody w1). unfold w1 in Hbody at 2. cbn in Hbody. rewrite lookup_insert_eq in Hbody.
  destruct (cx_objects (body w1).2 !! i) as [c'|] eqn:Hc'; [|done]. cbn in Hbody. injection Hbody as Htoken.
  exists c'. split; [done|]. rewrite (within_run _ _ _ _ Hc). fold w1. unfold finally.
  destruct (body w1) as [r w2]. cbn in Hc' |- *. unfold context_exit.
  rewrite run_bind, (context_object_run _ _ _ Hc'). rewrite Htoken. cbn. by destruct r.
Qed.

(** Entering other contexts inside leaves this one's token alone. *)
Lemma within_leaves {R} i j (body : cxp R) : i ≠ j → leaves_token i body → leaves_token j body → leaves_token i (within_context j body).
Proof.
  intros Hne Hi Hj w. destruct (cx_objects w !! j) as [c|] eqn:Hc.
  - destruct (within_exit j body c w Hc Hj) as (c' & _ & ->). cbn. rewrite lookup_insert_ne by done. rewrite Hi. cbn.
    by rewrite lookup_insert_ne.
  - unfold within_context, context_enter, context_object, gets, mbind, prog_bind. by rewrite Hc.
Qed.

(** A context that the body does not enter again is left as it was entered: what
    was current before is current after it, whether the body returns or raises, and
    the body's outcome passes through; but an object that is entered again inside
    itself stays current for good. *)
Theorem context_brackets {R} i (body : cxp R) c w :
  cx_objects w !! i = Some c → leaves_token i body →
  (let r := within_context i body w in
   r.1 = (body (Contexts (Some i) (<[i := with_token (Some (cx_current w)) c]> (cx_objects w)))).1 ∧
   cx_current r.2 = cx_current w) ∧
  cx_current (within_context i (within_context i body) w).2 = Some i.
Proof.
  intros Hc Hbody. split.
  - destruct (within_exit i body c w Hc Hbody) as (c' & _ & ->). done.
  - rewrite (within_run _ _ _ _ Hc).
    set (w1 := Contexts (Some i) (<[i := with_token (Some (cx_current w)) c]> (cx_objects w))).
    destruct (within_exit i body (with_token (Some (cx_current w)) c) w1) as (c' & _ & Hrun); [apply lookup_insert_eq|done|].
    unfold finally. rewrite Hrun. unfold context_exit. rewrite run_bind, (context_object_run _ (with_token None c')).
    + cbn. by destruct (body _).1.
    + apply lookup_insert_eq.
Qed.
