(* ===== verification/Resolver.v ===== *)
(** * Legacy v1: walking the graph of principals (identity/resolver.py)

    Breadth-first walks, bounded in depth, over the labelled edges between
    principals; the collections they return, exactly; paths. *)

From S2P Require Import Prelude LegacyTypes Schema Trail Tenancy Constructs ConstructStore Identity.

Definition DEFAULT_MAX_DEPTH : Z := 20.

(** [max_depth or self.DEFAULT_MAX_DEPTH]: zero is the default too. *)
Definition depth_of (max_depth : option Z) : Z :=
  match max_depth with Some d => if (d =? 0)%Z then DEFAULT_MAX_DEPTH else d | None => DEFAULT_MAX_DEPTH end.

Record ResolutionPath := { rp_principals : list string; rp_relationships : list string }.
Definition path_length (p : ResolutionPath) : nat := length (rp_relationships p).

(** The queue with the depths, what was seen, and the result. *)
Record walk_state := Walk { wk_queue : list (string * nat); wk_visited : gset string; wk_result : list Principal }.

Section Resolver.
Context `{host : !Host}.

(** [direction] is which edges of a principal are asked for, [next] their other end. *)
Definition visit_edge (next : PrincipalRelationship → string) (d : nat) (w : walk_state) (rel : PrincipalRelationship)
  : lp walk_state :=
  if bool_decide (next rel ∈ wk_visited w) then mret w
  else
    found ← find_principal (next rel);
    mret (match found with
          | Some x => Walk (wk_queue w ++ [(next rel, S d)]) ({[next rel]} ∪ wk_visited w) (wk_result w ++ [x])
          | None => Walk (wk_queue w) ({[next rel]} ∪ wk_visited w) (wk_result w)
          end).

Fixpoint walk_loop (fuel : nat) (direction : string) (next : PrincipalRelationship → string) (label : option string)
  (depth : Z) (w : walk_state) : lp (option (list Principal)) :=
  match fuel, wk_queue w with
  | _, [] => mret (Some (wk_result w))
  | O, _ => mret None
  | S fuel, (pid, d) :: queue =>
      let w := Walk queue (wk_visited w) (wk_result w) in
      if (depth <=? Z.of_nat d)%Z then walk_loop fuel direction next label depth w
      else
        rels ← get_relationships pid direction label;
        w ← for_fold rels w (visit_edge next d);
        walk_loop fuel direction next label depth w
  end.

(** A turn for each principal and one for the start. *)
Definition walk (direction : string) (next : PrincipalRelationship → string) (id : string) (label : option string)
  (max_depth : option Z) : lp (option (list Principal)) :=
  fuel ← gets (λ s, S (length (principals (st_db s))));
  walk_loop fuel direction next label (depth_of max_depth) (Walk [(id, 0)] ∅ []).

Definition ancestors : string → option string → option Z → lp (option (list Principal)) := walk "parent" pe_parent.
Definition descendants : string → option string → option Z → lp (option (list Principal)) := walk "child" pe_child.
Definition parents (id : string) (label : option string) : lp (option (list Principal)) := ancestors id label (Some 1%Z).
Definition children (id : string) (label : option string) : lp (option (list Principal)) := descendants id label (Some 1%Z).

Definition all_related_ids (id : string) (label : option string) (max_depth : option Z) : lp (option (gset string)) :=
  up ← ancestors id label max_depth;
  down ← descendants id label max_depth;
  mret (up ← up; down ← down;
        Some ({[id]} ∪ list_to_set (pc_id <$> up) ∪ list_to_set (pc_id <$> down))).

(** ** Paths *)

Record path_item := PathItem { pi_current : string; pi_ids : list string; pi_labels : list string }.

Definition neighbour (current : string) (rel : PrincipalRelationship) : string :=
  if bool_decide (pe_child rel = current) then pe_parent rel else pe_child rel.

(** The edges of one principal: a path, or what is queued and visited. *)
Fixpoint try_edges (to : string) (x : path_item) (rels : list PrincipalRelationship) (queue : list path_item)
  (visited : gset string) : ResolutionPath + (list path_item * gset string) :=
  match rels with
  | [] => inr (queue, visited)
  | rel :: rels =>
      let n := neighbour (pi_current x) rel in
      if bool_decide (n = to)
      then inl {| rp_principals := pi_ids x ++ [n]; rp_relationships := pi_labels x ++ [pe_label rel] |}
      else if bool_decide (n ∈ visited) then try_edges to x rels queue visited
      else try_edges to x rels (queue ++ [PathItem n (pi_ids x ++ [n]) (pi_labels x ++ [pe_label rel])]) ({[n]} ∪ visited)
  end.

Fixpoint path_loop (fuel : nat) (to : string) (label : option string) (depth : Z) (queue : list path_item)
  (visited : gset string) : lp (option (option ResolutionPath)) :=
  match fuel, queue with
  | _, [] => mret (Some None)
  | O, _ => mret None
  | S fuel, x :: queue =>
      if (depth <? Z.of_nat (length (pi_labels x)))%Z then path_loop fuel to label depth queue visited
      else
        rels ← get_relationships (pi_current x) "both" label;
        match try_edges to x rels queue visited with
        | inl p => mret (Some (Some p))
        | inr (queue, visited) => path_loop fuel to label depth queue visited
        end
  end.

(** A turn for each end of an edge and one for the start. *)
Definition find_path (from to : string) (label : option string) (max_depth : option Z) : lp (option (option ResolutionPath)) :=
  fuel ← gets (λ s, S (2 * length (relationships (st_db s))));
  path_loop fuel to label (depth_of max_depth) [PathItem from [from] []] {[from]}.

Definition is_related (id target : string) (label : option string) (max_depth : option Z) : lp (option bool) :=
  path ← find_path id target label max_depth;
  mret ((λ p, bool_decide (is_Some p)) <$> path).
End Resolver.

Section Walks.
Context `{host : !Host} (s : store) (label : option string).

(** [v] is an existing principal one edge away from [u]. *)
Definition edge (here next : PrincipalRelationship → string) (u v : string) : Prop :=
  ∃ rel, rel ∈ relationships (st_db s) ∧ labelled label rel = true ∧ here rel = u ∧ next rel = v ∧
    v ∈ pc_id <$> principals (st_db s).

(** [k] edges. *)
Definition steps (here next : PrincipalRelationship → string) : nat → string → string → Prop := nsteps (edge here next).

Context (here next : PrincipalRelationship → string) (id : string) (depth : Z).

(** Asking in a direction for the edges of [u] gives those that have it at their
    [here] end. *)
Definition asks_for (direction : string) : Prop :=
  ∀ u, ∃ rels, get_relationships u direction label s = (Ok rels, s) ∧
    ∀ rel, rel ∈ rels ↔ rel ∈ relationships (st_db s) ∧ here rel = u ∧ labelled label rel = true.

Definition exists_principal (v : string) : Prop := v ∈ pc_id <$> principals (st_db s).

(** What was queued so far: the start, and a principal for each result. *)
Record walk_ok (popped : list (string * nat)) (w : walk_state) (H : list (string * nat)) : Prop := {
  wo_history : popped ++ wk_queue w = (id, 0) :: H;
  wo_result : pc_id <$> wk_result w = H.*1;
  wo_nodup : NoDup (H.*1);
  wo_known : ∀ x, x ∈ wk_result w → x ∈ principals (st_db s);
  wo_visited : ∀ v, v ∈ H.*1 → v ∈ wk_visited w;
  wo_missing : ∀ v, v ∈ wk_visited w → exists_principal v → v ∈ H.*1;
  wo_sound : ∀ v k, (v, k) ∈ H → 1 ≤ k ∧ (Z.of_nat k ≤ depth)%Z ∧ steps here next k id v;
}.

Definition shallower (a b : string * nat) : Prop := a.2 ≤ b.2.

(** Expanding a principal of depth [d]: the queue is in order, between [d] and [d + 1]. *)
Record depths_ok (d : nat) (w : walk_state) (H : list (string * nat)) : Prop := {
  do_sorted : StronglySorted shallower (wk_queue w);
  do_queue : ∀ a, a ∈ wk_queue w → d ≤ a.2;
  do_all : ∀ x, x ∈ H → x.2 ≤ S d;
}.

(** Between two expansions. *)
Record bounded (w : walk_state) (H : list (string * nat)) : Prop := {
  bd_sorted : StronglySorted shallower (wk_queue w);
  bd_all : ∀ a x, a ∈ wk_queue w → x ∈ H → x.2 ≤ S a.2;
}.

(** The edges of what was popped before the depth limit have been followed. *)
Definition followed (popped H : list (string * nat)) : Prop :=
  ∀ u k v, (u, k) ∈ popped → (Z.of_nat k < depth)%Z → edge here next u v → ∃ j, j ≤ S k ∧ (v, j) ∈ H.

Lemma walk_sorted_snoc l (x : string * nat) :
  StronglySorted shallower l → (∀ a, a ∈ l → a.2 ≤ x.2) → StronglySorted shallower (l ++ [x]).
Proof using.
  induction l as [|y l IH]; intros Hl Hx; [by repeat constructor|]. cbn.
  apply StronglySorted_inv in Hl as [Hl Hy]. constructor.
  - apply IH; [done|]. intros a Ha. apply Hx. by right.
  - apply Forall_app. split; [done|]. constructor; [|done]. apply Hx. left.
Qed.

Lemma find_principal_run v :
  (∃ x, find_principal v s = (Ok (Some x), s) ∧ x ∈ principals (st_db s) ∧ pc_id x = v) ∨
  find_principal v s = (Ok None, s) ∧ ¬ exists_principal v.
Proof using.
  unfold find_principal. destruct (fetch_one principals (by_principal v) s) as [[o|e] s1] eqn:H; [|done].
  apply fetch_one_ok in H as [-> H]. destruct o as [x|].
  - destruct H as [Hx Hid%bool_decide_eq_true_1]. left. by exists x.
  - right. split; [done|]. intros (x & -> & Hx)%list_elem_of_fmap. specialize (H x Hx). by apply bool_decide_eq_false_1 in H.
Qed.

Lemma visit_edge_ok popped w H u d rel :
  walk_ok popped w H → depths_ok d w H → steps here next d id u → (Z.of_nat d < depth)%Z →
  rel ∈ relationships (st_db s) → here rel = u → labelled label rel = true →
  ∃ w' H', visit_edge next d w rel s = (Ok w', s) ∧ walk_ok popped w' H' ∧ depths_ok d w' H' ∧ H `prefix_of` H' ∧
    (exists_principal (next rel) → ∃ j, j ≤ S d ∧ (next rel, j) ∈ H').
Proof using.
  intros [W1 W2 W3 W4 W5 W6 W7] [D1 D2 D3] Hu Hd Hrel Hhere Hlab. unfold visit_edge.
  case_bool_decide as Hv.
  { exists w, H. split_and!; [done|by split|by split|done|]. intros Hex. specialize (W6 _ Hv Hex).
    apply list_elem_of_fmap in W6 as ([v j] & Heq & Hin). cbn in Heq. subst v. exists j. split; [by apply (D3 _ Hin)|done]. }
  assert (Hnew : next rel ∉ H.*1) by (intros Hin; by apply Hv, W5).
  rewrite run_bind. destruct (find_principal_run (next rel)) as [(x & -> & Hx & Hid)|[-> Hno]].
  - eexists _, (H ++ [(next rel, S d)]). split; [reflexivity|]. split_and!.
    + split; cbn [wk_queue wk_visited wk_result].
      * by rewrite app_assoc, W1.
      * rewrite !fmap_app, W2. cbn. by rewrite Hid.
      * rewrite fmap_app. apply NoDup_app. split_and!; [done|set_solver|apply NoDup_singleton].
      * intros y [Hy|Hy%list_elem_of_singleton]%elem_of_app; [by apply W4|by subst].
      * intros v. rewrite fmap_app. set_solver.
      * intros v [->%elem_of_singleton|Hin]%elem_of_union Hex; rewrite fmap_app; [set_solver|]. apply elem_of_app. left. by apply W6.
      * intros v k [Hin|[= -> ->]%list_elem_of_singleton]%elem_of_app; [by apply W7|]. split_and!; [lia|lia|].
        eapply nsteps_r; [exact Hu|]. exists rel. split_and!; try done. rewrite <-Hid. by apply list_elem_of_fmap_2.
    + split; cbn [wk_queue].
      * apply walk_sorted_snoc; [done|]. intros a Ha.
        assert (a ∈ popped ++ wk_queue w) as Hin by (apply elem_of_app; by right). rewrite W1 in Hin.
        apply elem_of_cons in Hin as [->|Hin]; [cbn; lia|by apply D3].
      * intros a [Ha|Ha%list_elem_of_singleton]%elem_of_app; [by apply D2|]. subst a. cbn. lia.
      * intros y [Hy|Hy%list_elem_of_singleton]%elem_of_app; [by apply D3|]. subst y. cbn. lia.
    + by apply prefix_app_r.
    + intros _. exists (S d). split; [done|]. apply elem_of_app. right. by apply list_elem_of_singleton.
  - eexists _, H. split; [reflexivity|]. split_and!; try done.
    + split; try done; cbn [wk_visited].
      * intros v Hin. apply elem_of_union. right. by apply W5.
      * intros v [->%elem_of_singleton|Hin]%elem_of_union Hex; [done|by apply W6].
Qed.

Lemma visit_edges_ok popped w H u d rels :
  walk_ok popped w H → depths_ok d w H → steps here next d id u → (Z.of_nat d < depth)%Z →
  (∀ rel, rel ∈ rels → rel ∈ relationships (st_db s) ∧ here rel = u ∧ labelled label rel = true) →
  ∃ w' H', for_fold rels w (visit_edge next d) s = (Ok w', s) ∧ walk_ok popped w' H' ∧ depths_ok d w' H' ∧ H `prefix_of` H' ∧
    (∀ rel, rel ∈ rels → exists_principal (next rel) → ∃ j, j ≤ S d ∧ (next rel, j) ∈ H').
Proof using.
  revert w H. induction rels as [|rel rels IH]; intros w H Hw Hdep Hu Hd Hall.
  { exists w, H. split_and!; try done. by intros rel ?%elem_of_nil. }
  destruct (Hall rel) as (Hrel & Hhere & Hlab); [left|].
  destruct (visit_edge_ok popped w H u d rel) as (w1 & H1 & Hrun & Hw1 & Hdep1 & Hpre1 & Hfound); [done..|].
  destruct (IH w1 H1) as (w2 & H2 & Hrun2 & Hw2 & Hdep2 & Hpre2 & Hfound2); [done..|intros r Hr; apply Hall; by right|].
  exists w2, H2. cbn. rewrite run_bind, Hrun. split_and!; [done..|by etrans|].
  intros r [->|Hr]%elem_of_cons Hex; [|by apply Hfound2]. destruct (Hfound Hex) as (j & Hj & Hin). exists j. split; [done|].
  destruct Hpre2 as [k ->]. apply elem_of_app. by left.
Qed.

(** No more is queued than there are principals. *)
Lemma history_bounded popped w H : walk_ok popped w H → length popped + length (wk_queue w) ≤ S (length (principals (st_db s))).
Proof using.
  intros [W1 W2 W3 W4 _ _ _]. rewrite <-length_app, W1. cbn. apply le_n_S.
  rewrite <-(length_fmap fst H), <-(length_fmap pc_id (principals (st_db s))). apply submseteq_length, NoDup_submseteq; [done|].
  intros v Hv. rewrite <-W2 in Hv. apply list_elem_of_fmap in Hv as (x & -> & Hx). apply list_elem_of_fmap_2. by apply W4.
Qed.

Lemma pop_popped popped a queue visited result H :
  walk_ok popped (Walk (a :: queue) visited result) H → walk_ok (popped ++ [a]) (Walk queue visited result) H.
Proof using. intros [W1 W2 W3 W4 W5 W6 W7]. split; try done. cbn in *. by rewrite <-app_assoc. Qed.

Lemma popped_steps popped w H u d : walk_ok popped w H → (u, d) ∈ wk_queue w → steps here next d id u.
Proof using.
  intros Hw Hin. assert (Hin' : (u, d) ∈ popped ++ wk_queue w) by (apply elem_of_app; by right).
  rewrite (wo_history _ _ _ Hw) in Hin'. apply elem_of_cons in Hin' as [[= -> ->]|Hin']; [constructor|].
  by destruct (wo_sound _ _ _ Hw u d Hin') as (_ & _ & ?).
Qed.

Lemma expand_next popped u d H w H' :
  walk_ok (popped ++ [(u, d)]) w H' → depths_ok d w H' → H `prefix_of` H' → followed popped H →
  ((Z.of_nat d < depth)%Z → ∀ v, edge here next u v → ∃ j, j ≤ S d ∧ (v, j) ∈ H') →
  bounded w H' ∧ followed (popped ++ [(u, d)]) H'.
Proof using.
  intros Hw [D1 D2 D3] Hpre Hf Hnew. split.
  - split; [done|]. intros a x Ha Hx. specialize (D2 a Ha). specialize (D3 x Hx). lia.
  - intros v k t [Hin|[= -> ->]%list_elem_of_singleton]%elem_of_app Hk Hedge; [|by apply Hnew].
    destruct (Hf v k t Hin Hk Hedge) as (j & Hj & Hjin). exists j. split; [done|]. destruct Hpre as [m ->].
    apply elem_of_app. by left.
Qed.

Lemma walk_loop_ok direction fuel popped w H :
  asks_for direction →
  walk_ok popped w H → bounded w H → followed popped H →
  S (length (principals (st_db s))) ≤ fuel + length popped →
  ∃ l v H', walk_loop fuel direction next label depth w s = (Ok (Some l), s) ∧
    walk_ok ((id, 0) :: H') (Walk [] v l) H' ∧ followed ((id, 0) :: H') H'.
Proof using.
  intros Hrels. revert popped w H. induction fuel as [|fuel IH]; intros popped w H Hw Hb Hf Hfuel.
  { pose proof (history_bounded _ _ _ Hw) as Hbound. destruct w as [[|a queue] visited result]; [|cbn in *; lia].
    assert (popped = (id, 0) :: H) as -> by (rewrite <-(wo_history _ _ _ Hw); by rewrite app_nil_r).
    by exists result, visited, H. }
  destruct w as [[|[u d] queue] visited result].
  { assert (popped = (id, 0) :: H) as -> by (rewrite <-(wo_history _ _ _ Hw); by rewrite app_nil_r).
    by exists result, visited, H. }
  pose proof (popped_steps _ _ _ u d Hw (list_elem_of_here _ _)) as Hu. pose proof (pop_popped _ _ _ _ _ _ Hw) as Hw'.
  destruct Hb as [Hsort Hall]. cbn in Hsort. apply StronglySorted_inv in Hsort as [Hsort Hhead].
  rewrite Forall_forall in Hhead.
  assert (Hdep : depths_ok d (Walk queue visited result) H).
  { split; [done|exact Hhead|]. intros x Hx. apply (Hall (u, d) x); [left|done]. }
  assert (Hfuel' : S (length (principals (st_db s))) ≤ fuel + length (popped ++ [(u, d)])) by (rewrite length_app; cbn; lia).
  cbn [walk_loop wk_queue wk_visited wk_result]. destruct (Z.leb_spec depth (Z.of_nat d)) as [Hd|Hd].
  - destruct (expand_next popped u d H (Walk queue visited result) H) as [Hb' Hf']; [done..|lia|].
    by apply (IH (popped ++ [(u, d)]) _ H).
  - destruct (Hrels u) as (rels & Hrun & Hin).
    destruct (visit_edges_ok _ _ _ u d rels Hw' Hdep Hu Hd) as (w1 & H1 & Hrun1 & Hw1 & Hdep1 & Hpre1 & Hfound).
    { intros rel Hrel. apply Hin in Hrel. tauto. }
    rewrite run_bind, Hrun, run_bind, Hrun1.
    destruct (expand_next popped u d H w1 H1) as [Hb' Hf']; [done..| |by apply (IH (popped ++ [(u, d)]) _ H1)].
    intros _ v (rel & Hrel & Hlab & Hhere & <- & Hex). apply Hfound; [by apply Hin|done].
Qed.

(** The walk returns, with every principal that is at most [depth] edges away, once. *)
Lemma walk_from direction fuel :
  asks_for direction → S (length (principals (st_db s))) ≤ fuel →
  ∃ l, walk_loop fuel direction next label depth (Walk [(id, 0)] ∅ []) s = (Ok (Some l), s) ∧
    NoDup (pc_id <$> l) ∧ (∀ x, x ∈ l → x ∈ principals (st_db s)) ∧
    ∀ v, v ∈ pc_id <$> l ↔ ∃ k, 1 ≤ k ∧ (Z.of_nat k ≤ depth)%Z ∧ steps here next k id v.
Proof using.
  intros Hrels Hfuel.
  destruct (walk_loop_ok direction fuel [] (Walk [(id, 0)] ∅ []) []) as (l & vs & H & Hrun & Hw & Hf).
  - done.
  - split; cbn; try done; [constructor|by intros x ?%elem_of_nil|by intros v ?%elem_of_nil|by intros v k ?%elem_of_nil].
  - split; cbn; [by repeat constructor|by intros a x _ ?%elem_of_nil].
  - by intros u k v ?%elem_of_nil.
  - cbn. lia.
  - exists l. destruct Hw as [W1 W2 W3 W4 W5 W6 W7]. cbn in W2. rewrite W2. split_and!; [done..|]. intros v. split.
    + intros ([v' k] & -> & Hin)%list_elem_of_fmap. exists k. by apply W7.
    + intros (k & Hk & Hkd & Hsteps).
      assert (∃ j, j ≤ k ∧ (v, j) ∈ H) as (j & _ & Hin); [|by apply (list_elem_of_fmap_2 fst) in Hin].
      destruct k as [|k]; [lia|]. clear Hk. revert v Hkd Hsteps. induction k as [|k IHk]; intros v Hkd Hsteps.
      * apply nsteps_once_inv in Hsteps. apply (Hf id 0 v); [left|lia|done].
      * apply nsteps_inv_r in Hsteps as (u & Hu & Hedge). destruct (IHk u) as (j & Hj & Hin); [lia|done|].
        destruct (Hf u j v) as (i & Hi & Hiin); [by right|lia|done|]. exists i. split; [lia|done].
Qed.
End Walks.

Section Exact.
Context `{host : !Host}.

Lemma labelled_select (p : PrincipalRelationship → bool) s :
  ∃ l, select relationships p s = (Ok l, s) ∧ ∀ x, x ∈ l ↔ x ∈ relationships (st_db s) ∧ p x = true.
Proof.
  destruct (select relationships p s) as [[l|e] s1] eqn:H; [|done]. apply select_elem in H as [-> H]. by exists l.
Qed.

Definition at_child (label : option string) (u : string) (x : PrincipalRelationship) : bool :=
  bool_decide (pe_child x = u) && labelled label x.
Definition at_parent (label : option string) (u : string) (x : PrincipalRelationship) : bool :=
  bool_decide (pe_parent x = u) && labelled label x.

Lemma get_relationships_eq label u :
  get_relationships u "parent" label = (l ← select relationships (at_child label u); m ← mret []; mret (l ++ m)) ∧
  get_relationships u "child" label = (l ← mret []; m ← select relationships (at_parent label u); mret (l ++ m)) ∧
  get_relationships u "both" label =
    (l ← select relationships (at_child label u); m ← select relationships (at_parent label u); mret (l ++ m)).
Proof. by split_and!. Qed.

Lemma asks_parent s label : asks_for s label pe_child "parent".
Proof.
  intros u. destruct (labelled_select (at_child label u) s) as (l & Hl & Hin). exists (l ++ []). split.
  - rewrite (proj1 (get_relationships_eq label u)). by rewrite run_bind, Hl.
  - intros rel. rewrite app_nil_r, Hin. unfold at_child. rewrite andb_true_iff, bool_decide_eq_true. tauto.
Qed.

Lemma asks_child s label : asks_for s label pe_parent "child".
Proof.
  intros u. destruct (labelled_select (at_parent label u) s) as (l & Hl & Hin). exists l. split.
  - rewrite (proj1 (proj2 (get_relationships_eq label u))), run_bind. cbn [mret prog_ret]. by rewrite run_bind, Hl.
  - intros rel. rewrite Hin. unfold at_parent. rewrite andb_true_iff, bool_decide_eq_true. tauto.
Qed.

(** Within the depth that [max_depth] stands for. *)
Definition within (s : store) (label : option string) (here next : PrincipalRelationship → string)
  (max_depth : option Z) (u v : string) : Prop :=
  ∃ k, 1 ≤ k ∧ (Z.of_nat k ≤ depth_of max_depth)%Z ∧ steps s label here next k u v.

(** C30: The walks always return, with each principal that is reached by at least one
    and at most [max_depth] edges of the label, against their direction for the
    ancestors and along it for the descendants, and with each of them once; cycles
    do no harm, and the set of related ids is those and the start. *)
Theorem related_exact id label max_depth s :
  ∃ up down ids,
    ancestors id label max_depth s = (Ok (Some up), s) ∧
    descendants id label max_depth s = (Ok (Some down), s) ∧
    all_related_ids id label max_depth s = (Ok (Some ids), s) ∧
    NoDup (pc_id <$> up) ∧ NoDup (pc_id <$> down) ∧
    (∀ x, x ∈ up ∨ x ∈ down → x ∈ principals (st_db s)) ∧
    (∀ v, v ∈ pc_id <$> up ↔ within s label pe_child pe_parent max_depth id v) ∧
    (∀ v, v ∈ pc_id <$> down ↔ within s label pe_parent pe_child max_depth id v) ∧
    ∀ v, v ∈ ids ↔ v = id ∨ within s label pe_child pe_parent max_depth id v ∨ within s label pe_parent pe_child max_depth id v.
Proof.
  destruct (walk_from s label pe_child pe_parent id (depth_of max_depth) "parent" (S (length (principals (st_db s)))))
    as (up & Hup & Hnd1 & Hin1 & Hex1); [apply asks_parent|done|].
  destruct (walk_from s label pe_parent pe_child id (depth_of max_depth) "child" (S (length (principals (st_db s)))))
    as (down & Hdown & Hnd2 & Hin2 & Hex2); [apply asks_child|done|].
  assert (Ha : ancestors id label max_depth s = (Ok (Some up), s)) by (unfold ancestors, walk; by rewrite run_bind; cbn [gets]).
  assert (Hd : descendants id label max_depth s = (Ok (Some down), s)) by (unfold descendants, walk; by rewrite run_bind; cbn [gets]).
  eexists up, down, _. split_and!; [done..| | | | | | |].
  - unfold all_related_ids. by rewrite run_bind, Ha, run_bind, Hd.
  - done.
  - done.
  - intros x [Hx|Hx]; auto.
  - exact Hex1.
  - exact Hex2.
  - intros v. rewrite !elem_of_union, elem_of_singleton, !elem_of_list_to_set, Hex1, Hex2. unfold within. tauto.
Qed.
End Exact.

(** ** Paths *)

Section Paths.
Context `{host : !Host} (s : store) (label : option string) (from to : string) (depth : Z).

(** An edge in either direction, by its label. *)
Definition near (u l v : string) : Prop :=
  ∃ rel, rel ∈ relationships (st_db s) ∧ labelled label rel = true ∧ pe_label rel = l ∧
    (pe_child rel = u ∧ pe_parent rel = v ∨ pe_parent rel = u ∧ pe_child rel = v).

(** A route from [from]: the principals on it, the labels between them, its end. *)
Inductive route : list string → list string → string → Prop :=
  | route_start : route [from] [] from
  | route_step ids labels u l v : route ids labels u → near u l v → route (ids ++ [v]) (labels ++ [l]) v.

Lemma both_run u :
  ∃ rels, get_relationships u "both" label s = (Ok rels, s) ∧
    ∀ rel, rel ∈ rels ↔ rel ∈ relationships (st_db s) ∧ labelled label rel = true ∧ (pe_child rel = u ∨ pe_parent rel = u).
Proof.
  destruct (labelled_select (at_child label u) s) as (l1 & H1 & Hin1).
  destruct (labelled_select (at_parent label u) s) as (l2 & H2 & Hin2).
  exists (l1 ++ l2). split; [rewrite (proj2 (proj2 (get_relationships_eq label u))); by rewrite run_bind, H1, run_bind, H2|].
  intros rel. rewrite elem_of_app, Hin1, Hin2. unfold at_child, at_parent. rewrite !andb_true_iff, !bool_decide_eq_true. tauto.
Qed.

Lemma neighbour_near u rel :
  rel ∈ relationships (st_db s) → labelled label rel = true → pe_child rel = u ∨ pe_parent rel = u →
  near u (pe_label rel) (neighbour u rel).
Proof.
  intros Hrel Hlab Hend. exists rel. split_and!; [done..|]. unfold neighbour. case_bool_decide; [by left|]. right. naive_solver.
Qed.

Definition item_depth (x : path_item) : nat := length (pi_labels x).

(** What was popped and what is queued: routes, one to each principal visited. *)
Record paths_ok (popped queue : list path_item) (visited : gset string) : Prop := {
  pt_routes : ∀ x, x ∈ popped ++ queue → route (pi_ids x) (pi_labels x) (pi_current x);
  pt_nodup : NoDup (pi_current <$> popped ++ queue);
  pt_visited : ∀ v, v ∈ visited ↔ v ∈ pi_current <$> popped ++ queue;
  pt_depths : ∀ x, x ∈ popped ++ queue → (Z.of_nat (item_depth x) ≤ Z.max 0 (depth + 1))%Z;
}.

(** A principal with a route of [k] edges has an item at most as deep. *)
Definition reached (items : list path_item) (k : nat) (v : string) : Prop :=
  ∃ y, y ∈ items ∧ pi_current y = v ∧ item_depth y ≤ k.

Definition expanded (popped queue : list path_item) : Prop :=
  ∀ x l v, x ∈ popped → (Z.of_nat (item_depth x) ≤ depth)%Z → near (pi_current x) l v →
    v ≠ to ∧ reached (popped ++ queue) (S (item_depth x)) v.

Definition items_sorted : list path_item → Prop := StronglySorted (λ a b, item_depth a ≤ item_depth b).

Record ordered (d : nat) (popped queue : list path_item) : Prop := {
  or_sorted : items_sorted queue;
  or_queue : ∀ a, a ∈ queue → d ≤ item_depth a;
  or_all : ∀ x, x ∈ popped ++ queue → item_depth x ≤ S d;
}.
Definition linked (u v : string) : Prop := ∃ l, near u l v.

Lemma route_linked ids labels v : route ids labels v → nsteps linked (length labels) from v.
Proof using.
  induction 1 as [|ids labels u l v _ IH Hnear]; [constructor|]. rewrite length_app, Nat.add_1_r.
  eapply nsteps_r; [exact IH|]. by exists l.
Qed.

Lemma items_bounded popped queue visited :
  paths_ok popped queue visited → length (popped ++ queue) ≤ S (2 * length (relationships (st_db s))).
Proof using.
  intros [P1 P2 _ _]. set (rels := relationships (st_db s)).
  transitivity (length (from :: (pe_parent <$> rels) ++ (pe_child <$> rels))).
  - rewrite <-(length_fmap pi_current (popped ++ queue)). apply submseteq_length, NoDup_submseteq; [done|].
    intros v (x & -> & Hx)%list_elem_of_fmap. specialize (P1 x Hx). revert P1. generalize (pi_ids x), (pi_labels x), (pi_current x).
    intros ids labels v Hroute. inversion Hroute as [|ids' labels' u l v' _ (rel & Hrel & _ & _ & Hends)]; subst; [left|right].
    apply elem_of_app. destruct Hends as [[_ <-]|[_ <-]]; [left|right]; by apply list_elem_of_fmap_2.
  - cbn. rewrite length_app, !length_fmap. lia.
Qed.

Lemma pop_item popped x queue visited : paths_ok popped (x :: queue) visited → paths_ok (popped ++ [x]) queue visited.
Proof using. intros [P1 P2 P3 P4]. by split; rewrite <-app_assoc. Qed.

Lemma items_sorted_snoc l x : items_sorted l → (∀ a, a ∈ l → item_depth a ≤ item_depth x) → items_sorted (l ++ [x]).
Proof using.
  induction l as [|y l IH]; intros Hl Hx; [by repeat constructor|]. cbn.
  apply StronglySorted_inv in Hl as [Hl Hy]. constructor.
  - apply IH; [done|]. intros a Ha. apply Hx. by right.
  - apply Forall_app. split; [done|]. constructor; [|done]. apply Hx. left.
Qed.

Lemma queue_item popped queue visited d x :
  paths_ok popped queue visited → ordered d popped queue → pi_current x ∉ visited →
  route (pi_ids x) (pi_labels x) (pi_current x) → item_depth x = S d → (Z.of_nat d ≤ depth)%Z →
  paths_ok popped (queue ++ [x]) ({[pi_current x]} ∪ visited) ∧ ordered d popped (queue ++ [x]).
Proof using.
  intros [P1 P2 P3 P4] [O1 O2 O3] Hnew Hroute Hx Hd. split; split.
  - rewrite app_assoc. intros y [Hy|Hy%list_elem_of_singleton]%elem_of_app; [by apply P1|by subst].
  - rewrite app_assoc, fmap_app. apply NoDup_app. split_and!; [done| |apply NoDup_singleton].
    intros v Hv Heq%list_elem_of_singleton. subst v. by apply Hnew, P3.
  - intros v. rewrite app_assoc, fmap_app, elem_of_app, elem_of_union, P3. cbn.
    rewrite elem_of_singleton, list_elem_of_singleton. tauto.
  - rewrite app_assoc. intros y [Hy|Hy%list_elem_of_singleton]%elem_of_app; [by apply P4|]. subst. lia.
  - apply items_sorted_snoc; [done|]. intros a Ha. rewrite Hx. apply O3, elem_of_app. by right.
  - intros a [Ha|Ha%list_elem_of_singleton]%elem_of_app; [by apply O2|]. subst. lia.
  - rewrite app_assoc. intros y [Hy|Hy%list_elem_of_singleton]%elem_of_app; [by apply O3|]. subst. lia.
Qed.

Lemma try_edges_ok popped x rels queue visited :
  paths_ok popped queue visited → ordered (item_depth x) popped queue → x ∈ popped →
  (Z.of_nat (item_depth x) ≤ depth)%Z →
  (∀ rel, rel ∈ rels → rel ∈ relationships (st_db s) ∧ labelled label rel = true ∧
    (pe_child rel = pi_current x ∨ pe_parent rel = pi_current x)) →
  match try_edges to x rels queue visited with
  | inl p => route (rp_principals p) (rp_relationships p) to ∧ path_length p = S (item_depth x)
  | inr (queue', visited') =>
      paths_ok popped queue' visited' ∧ ordered (item_depth x) popped queue' ∧ queue `prefix_of` queue' ∧
      ∀ rel, rel ∈ rels → neighbour (pi_current x) rel ≠ to ∧
        reached (popped ++ queue') (S (item_depth x)) (neighbour (pi_current x) rel)
  end.
Proof using.
  revert queue visited. induction rels as [|rel rels IH]; intros queue visited Hp Ho Hx Hd Hall.
  { cbn. split_and!; [done..|]. by intros rel ?%elem_of_nil. }
  destruct (Hall rel) as (Hrel & Hlab & Hend); [left|]. pose proof (neighbour_near _ _ Hrel Hlab Hend) as Hnear.
  pose proof (λ r Hr, Hall r (list_elem_of_further _ _ _ Hr)) as Hrest. destruct Hp as [P1 P2 P3 P4]. destruct Ho as [O1 O2 O3].
  assert (Hroute : route (pi_ids x ++ [neighbour (pi_current x) rel]) (pi_labels x ++ [pe_label rel]) (neighbour (pi_current x) rel)).
  { eapply route_step; [|exact Hnear]. apply P1, elem_of_app. by left. }
  cbn [try_edges]. case_bool_decide as Hto.
  { cbn. rewrite Hto in Hroute |- *. split; [done|]. unfold path_length. cbn. rewrite length_app, Nat.add_1_r. done. }
  case_bool_decide as Hv.
  - specialize (IH queue visited). destruct (try_edges to x rels queue visited) as [p|[queue' visited']]; [by apply IH|].
    destruct IH as (H1 & H2 & H3 & H4); [done..|]. split_and!; [done..|]. intros r [->|Hr]%elem_of_cons; [|by apply H4].
    split; [done|]. apply P3 in Hv. apply list_elem_of_fmap in Hv as (y & Hy & Hin). exists y. split_and!; [|done|by apply O3].
    destruct H3 as [k ->]. set_solver.
  - set (new := PathItem _ _ _). assert (Hnew : item_depth new = S (item_depth x)).
    { unfold new, item_depth. cbn. by rewrite length_app, Nat.add_1_r. }
    destruct (queue_item popped queue visited (item_depth x) new) as [Hp' Ho']; [by split|by split|done..|].
    specialize (IH (queue ++ [new]) ({[neighbour (pi_current x) rel]} ∪ visited) Hp' Ho' Hx Hd Hrest).
    destruct (try_edges to x rels _ _) as [p|[queue' visited']]; [exact IH|]. destruct IH as (H1 & H2 & [k ->] & H4).
    split_and!; [done..|exists ([new] ++ k); by rewrite <-app_assoc|].
    intros r [->|Hr]%elem_of_cons; [|by apply H4]. split; [done|]. exists new. split_and!; [set_solver|done|lia].
Qed.

(** The routes of [k] edges are known, if everything that shallow was expanded. *)
Lemma reach_items popped queue L :
  expanded popped queue → (∀ y, y ∈ popped ++ queue → item_depth y < L → y ∈ popped) → (Z.of_nat L ≤ depth + 1)%Z →
  reached (popped ++ queue) 0 from → ∀ k v, k ≤ L → nsteps linked k from v → reached (popped ++ queue) k v.
Proof using.
  intros Hexp Hpop HL Hstart k. induction k as [|k IH]; intros v Hk Hsteps.
  { inversion Hsteps; subst. done. }
  apply nsteps_inv_r in Hsteps as (u & Hu & l & Hnear). destruct (IH u) as (y & Hy & Hcur & Hdepth); [lia|done|]. subst u.
  destruct (Hexp y l v) as [_ (z & Hz & Hzv & Hzd)]; [apply Hpop; [done|lia]|lia|done|]. exists z. split_and!; [done..|lia].
Qed.

Lemma nothing_shorter popped queue L k :
  expanded popped queue → (∀ y, y ∈ popped ++ queue → item_depth y < L → y ∈ popped) → (Z.of_nat L ≤ depth + 1)%Z →
  reached (popped ++ queue) 0 from → 1 ≤ k ≤ L → ¬ nsteps linked k from to.
Proof using.
  intros Hexp Hpop HL Hstart [Hk HkL] Hsteps. destruct k as [|k]; [lia|].
  apply nsteps_inv_r in Hsteps as (u & Hu & l & Hnear).
  destruct (reach_items popped queue L Hexp Hpop HL Hstart k u) as (y & Hy & Hcur & Hdepth); [lia|done|]. subst u.
  destruct (Hexp y l to) as [[] _]; [apply Hpop; [done|lia]|lia|done|done].
Qed.

(** A shortest route, within the depth and one edge more; None when there is none. *)
Definition path_answer (r : option ResolutionPath) : Prop :=
  match r with
  | Some p => route (rp_principals p) (rp_relationships p) to ∧ 1 ≤ path_length p ∧
      (Z.of_nat (path_length p) ≤ depth + 1)%Z ∧ ∀ k, 1 ≤ k → nsteps linked k from to → path_length p ≤ k
  | None => ∀ k, 1 ≤ k → (Z.of_nat k ≤ depth + 1)%Z → ¬ nsteps linked k from to
  end.

Lemma path_loop_end popped visited :
  expanded popped [] → reached (popped ++ []) 0 from → paths_ok popped [] visited → path_answer None.
Proof using.
  intros Hexp Hstart _ k Hk Hkd. apply (nothing_shorter popped [] (Z.to_nat (depth + 1))); [done| |lia|done|lia].
  intros y Hy _. by rewrite app_nil_r in Hy.
Qed.

Lemma path_loop_ok fuel popped queue visited :
  paths_ok popped queue visited → items_sorted queue →
  (∀ a x, a ∈ queue → x ∈ popped ++ queue → item_depth x ≤ S (item_depth a)) →
  expanded popped queue → reached (popped ++ queue) 0 from →
  (∀ y, y ∈ popped → ∀ a, a ∈ queue → item_depth y ≤ item_depth a) →
  S (2 * length (relationships (st_db s))) ≤ fuel + length popped →
  ∃ r, path_loop fuel to label depth queue visited s = (Ok (Some r), s) ∧ path_answer r.
Proof using.
  revert popped queue visited. induction fuel as [|fuel IH]; intros popped queue visited Hp Hs Hall Hexp Hstart Hord Hfuel.
  { pose proof (items_bounded _ _ _ Hp) as Hb. rewrite length_app in Hb. destruct queue as [|x queue]; [|cbn in *; lia].
    exists None. split; [done|by eapply path_loop_end]. }
  destruct queue as [|x queue]; [exists None; split; [done|by eapply path_loop_end]|].
  pose proof (pop_item _ _ _ _ Hp) as Hp'. apply StronglySorted_inv in Hs as [Hs Hhead]. rewrite Forall_forall in Hhead.
  assert (Hassoc : popped ++ x :: queue = (popped ++ [x]) ++ queue) by by rewrite <-app_assoc.
  assert (Hfuel' : S (2 * length (relationships (st_db s))) ≤ fuel + length (popped ++ [x])) by (rewrite length_app; cbn; lia).
  assert (Hx : x ∈ popped ++ [x]) by set_solver.
  assert (Hord' : ∀ y, y ∈ popped ++ [x] → ∀ a, item_depth x ≤ item_depth a → item_depth y ≤ item_depth a).
  { intros y [Hy|Hy%list_elem_of_singleton]%elem_of_app a Ha; [|by subst].
    specialize (Hord y Hy x (list_elem_of_here _ _)). lia. }
  assert (Hdep : ordered (item_depth x) (popped ++ [x]) queue).
  { split; [done|exact Hhead|]. intros y Hy. apply Hall; [left|]. by rewrite Hassoc. }
  cbn [path_loop]. destruct (Z.ltb_spec depth (Z.of_nat (length (pi_labels x)))) as [Hd|Hd].
  - apply (IH (popped ++ [x])); try done.
    + intros a y Ha Hy. rewrite <-Hassoc in Hy. apply Hall; [by right|done].
    + intros y l v [Hy|Hy%list_elem_of_singleton]%elem_of_app Hyd Hnear.
      * rewrite <-Hassoc. by apply (Hexp y l).
      * subst y. unfold item_depth in Hyd. lia.
    + by rewrite <-Hassoc.
    + intros y Hy a Ha. apply Hord'; [done|by apply Hhead].
  - destruct (both_run (pi_current x)) as (rels & Hrun & Hin). rewrite run_bind, Hrun.
    pose proof (try_edges_ok (popped ++ [x]) x rels queue visited Hp' Hdep Hx Hd (λ rel Hr, proj1 (Hin rel) Hr)) as Htry.
    destruct (try_edges to x rels queue visited) as [p|[queue' visited']].
    + exists (Some p). split; [done|]. destruct Htry as [Hroute Hlen]. cbn. unfold item_depth in Hlen. split_and!; [done|lia|lia|].
      intros k Hk Hsteps. destruct (le_lt_dec k (length (pi_labels x))) as [Hle|]; [|lia]. exfalso.
      apply (nothing_shorter popped (x :: queue) (length (pi_labels x)) k); [done| |lia|done|done|done].
      intros y [Hy|[->|Hy]%elem_of_cons]%elem_of_app Hyd; [done|unfold item_depth in Hyd; lia|].
      specialize (Hhead y Hy). unfold item_depth in *. lia.
    + destruct Htry as (Hp1 & [O1 O2 O3] & [k ->] & Hfound). apply (IH (popped ++ [x])); try done.
      * intros a y Ha Hy. specialize (O2 a Ha). specialize (O3 y Hy). lia.
      * intros y l v [Hy|Hy%list_elem_of_singleton]%elem_of_app Hyd Hnear.
        -- destruct (Hexp y l v Hy Hyd Hnear) as [Hto (z & Hz & Hzv & Hzd)]. split; [done|]. exists z. split_and!; [|done..]. set_solver.
        -- subst y. destruct Hnear as (rel & Hrel & Hlab & Hl & Hends).
           assert (neighbour (pi_current x) rel = v) as <-.
           { unfold neighbour. destruct Hends as [[Hc Hp2]|[Hp2 Hc]]; case_bool_decide; congruence. }
           apply Hfound, Hin. split_and!; [done..|]. destruct Hends as [[Hc _]|[Hc _]]; [by left|by right].
      * destruct Hstart as (z & Hz & Hzv & Hzd). exists z. split_and!; [set_solver|done..].
      * intros y Hy a Ha. apply Hord'; [done|by apply O2].
Qed.
End Paths.

(** C37: Looking for a path always returns: with a shortest route between the two over
    edges of the label in either direction, if one of at most [max_depth] and one
    more edges exists, and with None exactly if there is none; and the two are
    related by the same measure. *)
Theorem find_path_exact `{host : !Host} from to label max_depth s :
  ∃ r, find_path from to label max_depth s = (Ok (Some r), s) ∧
    is_related from to label max_depth s = (Ok (Some (bool_decide (is_Some r))), s) ∧
    path_answer s label from to (depth_of max_depth) r.
Proof.
  destruct (path_loop_ok s label from to (depth_of max_depth) (S (2 * length (relationships (st_db s)))) []
    [PathItem from [from] []] {[from]}) as (r & Hrun & Hr).
  - split; cbn.
    + intros x Hx%list_elem_of_singleton. subst x. constructor.
    + apply NoDup_singleton.
    + intros v. by rewrite elem_of_singleton, list_elem_of_singleton.
    + intros x Hx%list_elem_of_singleton. subst x. unfold item_depth. cbn. lia.
  - by repeat constructor.
  - intros a x _ Hx%list_elem_of_singleton. subst x. unfold item_depth. cbn. lia.
  - by intros x l v ?%elem_of_nil.
  - exists (PathItem from [from] []). split_and!; [by apply list_elem_of_singleton|done|]. unfold item_depth. cbn. lia.
  - by intros y ?%elem_of_nil.
  - cbn. lia.
  - exists r. assert (Hfind : find_path from to label max_depth s = (Ok (Some r), s)) by (unfold find_path; by rewrite run_bind; cbn [gets]).
    split_and!; [done| |done]. unfold is_related. by rewrite run_bind, Hfind.
Qed.
