(* ===== verification/Settings.v ===== *)
(** * Legacy v1: settings of scopes with inheritance (tenancy/config.py)

    Key-value settings bound to scopes, and their resolution up the scope
    hierarchy.  The store's guards are those of Tenancy, word for word. *)

From S2P Require Import Prelude LegacyTypes Schema Json Trail Rules RuleClients Tenancy.

Definition setting_active (x : ScopedSetting) : bool := bool_decide (ss_lifecycle x = ACTIVE).

(** The active row of a key in a scope. *)
Definition of_key (scope key : string) (x : ScopedSetting) : bool :=
  bool_decide (ss_scope x = scope) && bool_decide (ss_key x = key) && setting_active x.

Definition by_setting (id : string) (x : ScopedSetting) : bool := bool_decide (ss_id x = id).

Definition revalued (v : jval) (at_ : Z) (by_ description : string) (x : ScopedSetting) : ScopedSetting := {|
  ss_id := ss_id x; ss_scope := ss_scope x; ss_key := ss_key x; ss_value := v;
  ss_created_at := ss_created_at x; ss_created_by := ss_created_by x; ss_updated_at := Some at_;
  ss_updated_by := Some by_; ss_description := description; ss_lifecycle := ss_lifecycle x |}.

Definition archived_setting (x : ScopedSetting) : ScopedSetting := {|
  ss_id := ss_id x; ss_scope := ss_scope x; ss_key := ss_key x; ss_value := ss_value x;
  ss_created_at := ss_created_at x; ss_created_by := ss_created_by x; ss_updated_at := ss_updated_at x;
  ss_updated_by := ss_updated_by x; ss_description := ss_description x; ss_lifecycle := ARCHIVED |}.

Record ResolvedSetting := {
  rs_key : string; rs_value : jval; source_scope_id : string; inherited : bool;
  resolution_chain : list (string * jval);
}.

Section Settings.
Context `{host : !Host} `{sink : !AuditSink}.

Definition setting_snapshot (x : ScopedSetting) : jdict := [
  ("id", JVstr (ss_id x)); ("scope_id", JVstr (ss_scope x)); ("key", JVstr (ss_key x));
  ("value", ss_value x); ("created_at", JVstr (isoformat (ss_created_at x)));
  ("created_by", JVstr (ss_created_by x));
  ("updated_at", from_option (λ z, JVstr (isoformat z)) JVnull (ss_updated_at x));
  ("updated_by", jopt (ss_updated_by x)); ("description", JVstr (ss_description x));
  ("lifecycle", JVstr (lifecycle_name (ss_lifecycle x)))].

Definition _require_owner (sc : Scope) (principal : string) : lp unit :=
  raise_if (negb (bool_decide (sc_owner sc = principal)))
    (AccessDenied ("Principal " +:+ principal +:+ " is not the owner of scope " +:+ sc_id sc)).

Definition insert_setting (x : ScopedSetting) : lp unit :=
  require_row t_scopes (by_scope (ss_scope x)) "scope_settings.scope_id" ;;
  sql_insert t_settings set_settings
    (λ a b, bool_decide (ss_id a = ss_id b) ||
            (bool_decide (ss_scope a = ss_scope b) && bool_decide (ss_key a = ss_key b)))
    "scope_settings" x.

(** ** ConfigStore *)

Definition config_get (scope key : string) : lp (option ScopedSetting) := fetch_one t_settings (of_key scope key).

Definition config_request (scope principal : string) (a : ActionType.t) (x : ScopedSetting)
  (before after : option jdict) : trace_request :=
  in_scope_req (Some scope) (states_req before after (request principal a "ScopedSetting" (ss_id x))).

Definition config_set (scope key : string) (value : jval) (principal description : string)
  : lp ScopedSetting :=
  sc ← get_scope_or_raise scope;
  _require_mutable sc ;;
  _require_owner sc principal ;;
  ts ← now_utc;
  existing ← config_get scope key;
  match existing with
  | Some before =>
      sql_update t_settings set_settings (by_setting (ss_id before)) (revalued value ts principal description) ;;
      let setting := revalued value ts principal description before in
      audit (config_request scope principal ActionType.CONFIG_SET setting
        (Some (setting_snapshot before)) (Some (setting_snapshot setting))) ;;
      mret setting
  | None =>
      setting_id ← generate_id;
      let setting := {| ss_id := setting_id; ss_scope := scope; ss_key := key; ss_value := value;
        ss_created_at := ts; ss_created_by := principal; ss_updated_at := None; ss_updated_by := None;
        ss_description := description; ss_lifecycle := ACTIVE |} in
      insert_setting setting ;;
      audit (config_request scope principal ActionType.CONFIG_SET setting None (Some (setting_snapshot setting))) ;;
      mret setting
  end.

Definition config_delete (scope key principal : string) : lp bool :=
  sc ← get_scope_or_raise scope;
  _require_mutable sc ;;
  _require_owner sc principal ;;
  existing ← config_get scope key;
  match existing with
  | None => mret false
  | Some x =>
      sql_update t_settings set_settings (by_setting (ss_id x)) archived_setting ;;
      audit (config_request scope principal ActionType.CONFIG_DELETE x (Some (setting_snapshot x)) None) ;;
      mret true
  end.

Definition by_setting_key (a b : ScopedSetting) : bool := String.leb (ss_key a) (ss_key b).

Definition list_settings (scope : string) (include_archived : bool) : lp (list ScopedSetting) :=
  select_sorted t_settings (λ x, bool_decide (ss_scope x = scope) && (include_archived || setting_active x))
    by_setting_key.

(** ** ConfigResolver *)

(** The scope and its ancestors: at most [n] of them. *)
Fixpoint scope_chain (n : nat) (current : string) : lp (list string) :=
  match n with
  | 0 => mret []
  | S n' =>
      row ← get_scope current;
      rest ← match row with
             | Some sc => match sc_parent sc with Some p => scope_chain n' p | None => mret [] end
             | None => mret []
             end;
      mret (current :: rest)
  end.

Definition resolved_setting (scope key : string) (chain : list (string * jval)) : option ResolvedSetting :=
  match last chain with
  | None => None
  | Some (winner, v) =>
      Some {| rs_key := key; rs_value := v; source_scope_id := winner;
              inherited := negb (bool_decide (winner = scope)); resolution_chain := chain |}
  end.

Definition resolve_setting (max_depth : nat) (scope key : string) : lp (option ResolvedSetting) :=
  chain_ids ← scope_chain (S max_depth) scope;
  chain ← for_fold (reverse chain_ids) [] (λ acc sid,
    found ← config_get sid key;
    mret (match found with Some x => acc ++ [(sid, ss_value x)] | None => acc end));
  mret (resolved_setting scope key chain).

(** dict.get(k). *)
Definition assoc {V} (k : string) (l : list (string * V)) : option V :=
  snd <$> find (λ x, bool_decide (x.1 = k)) l.

(** The dicts [chains] and [result] after one setting of a scope. *)
Definition add_setting (scope sid : string)
  (acc : list (string * list (string * jval)) * list (string * ResolvedSetting)) (x : ScopedSetting)
  : list (string * list (string * jval)) * list (string * ResolvedSetting) :=
  let chains := upsert (ss_key x) [] (λ c, c ++ [(sid, ss_value x)]) acc.1 in
  let r := {| rs_key := ss_key x; rs_value := ss_value x; source_scope_id := sid;
              inherited := negb (bool_decide (sid = scope));
              resolution_chain := default [] (assoc (ss_key x) chains) |} in
  (chains, upsert (ss_key x) r (λ _, r) acc.2).

Definition resolve_all (max_depth : nat) (scope : string) : lp (list (string * ResolvedSetting)) :=
  chain ← scope_chain (S max_depth) scope;
  acc ← for_fold (reverse chain) ([], []) (λ acc sid,
    settings ← list_settings sid false;
    mret (foldl (add_setting scope sid) acc settings));
  mret acc.2.

Definition effective_value (max_depth : nat) (scope key : string) (dflt : jval) : lp jval :=
  r ← resolve_setting max_depth scope key;
  mret (match r with None => dflt | Some x => rs_value x end).
End Settings.

(** ** The invariant: a key has one row per scope, an id one row *)

Definition setting_key (x : ScopedSetting) : string * string := (ss_scope x, ss_key x).

Record settings_ok (t : tables) : Prop := {
  settings_ids : NoDup (ss_id <$> t_settings t);
  settings_keys : NoDup (setting_key <$> t_settings t);
}.

(** The value a scope itself gives a key. *)
Definition setting_of (t : tables) (scope key : string) : option jval :=
  ss_value <$> head (filter (λ x, of_key scope key x = true) (t_settings t)).

Section SettingsTheory.
Context `{host : !Host} `{sink : !AuditSink}.

Lemma of_key_elem scope key x : of_key scope key x = true ↔ setting_key x = (scope, key) ∧ ss_lifecycle x = ACTIVE.
Proof.
  unfold of_key, setting_active, setting_key. rewrite !andb_true_iff, !bool_decide_eq_true. naive_solver.
Qed.

(** With one row per key, any row order finds the same row. *)
Lemma config_get_run scope key s :
  settings_ok (st_db s) →
  ∃ r, config_get scope key s = (Ok r, s) ∧ ss_value <$> r = setting_of (st_db s) scope key ∧
    match r with
    | Some x => x ∈ t_settings (st_db s) ∧ setting_key x = (scope, key) ∧ ss_lifecycle x = ACTIVE
    | None => ∀ x, x ∈ t_settings (st_db s) → setting_key x = (scope, key) → ss_lifecycle x ≠ ACTIVE
    end.
Proof.
  intros [_ Hk]. assert (∃ r, config_get scope key s = (Ok r, s)) as [r Hr] by (eexists; reflexivity).
  exists r. split; [done|]. pose proof Hr as [_ Hf]%fetch_one_ok. unfold setting_of.
  set (l := filter (λ x, of_key scope key x = true) (t_settings (st_db s))).
  assert (Hl : ∀ x, x ∈ l ↔ x ∈ t_settings (st_db s) ∧ of_key scope key x = true)
    by (intros x; unfold l; rewrite list_elem_of_filter; tauto).
  destruct r as [x|].
  - destruct Hf as [Hx Hkx]. pose proof (proj1 (of_key_elem _ _ _) Hkx) as [Hkey Hact]. split; [|done].
    assert (Hxl : x ∈ l) by by apply Hl.
    destruct l as [|y l']; [by apply elem_of_nil in Hxl|]. simpl. do 2 f_equal.
    assert (y ∈ y :: l') as [Hy Hky]%Hl by left. apply of_key_elem in Hky as [Hky _].
    apply (NoDup_fmap_inj_in _ _ _ _ Hk Hx Hy). congruence.
  - split.
    + destruct l as [|y l']; [done|]. assert (y ∈ y :: l') as [Hy Hky]%Hl by left.
      by rewrite (Hf y Hy) in Hky.
    + intros x Hx Hkey Hact. assert (of_key scope key x = true) as Hk' by by apply of_key_elem.
      by rewrite (Hf x Hx) in Hk'.
Qed.

Lemma require_owner_ok sc p s u s' : _require_owner sc p s = (Ok u, s') → s' = s ∧ sc_owner sc = p.
Proof.
  unfold _require_owner. destruct u. intros [H%negb_false_iff ->]%raise_if_ok. split; [done|].
  by apply bool_decide_eq_true_1 in H.
Qed.

(** The guard of both writes. *)
Lemma config_guard_ok {R} (k : Scope → lp R) scope p s r s' :
  (sc ← get_scope_or_raise scope; _require_mutable sc ;; _require_owner sc p ;; k sc) s = (Ok r, s') →
  ∃ sc, sc ∈ t_scopes (st_db s) ∧ sc_id sc = scope ∧ is_mutable sc = true ∧ sc_owner sc = p ∧ k sc s = (Ok r, s').
Proof.
  intros H. apply bind_ok_inv in H as (sc & s1 & (-> & Hsc & Hid)%get_scope_or_raise_ok & H).
  apply bind_ok_inv in H as (? & s1 & [-> Hm]%require_mutable_ok & H).
  apply bind_ok_inv in H as (? & s1 & [-> Ho]%require_owner_ok & H). by exists sc.
Qed.

Lemma config_guard_run {R} (k : Scope → lp R) sc s :
  NoDup (sc_id <$> t_scopes (st_db s)) → sc ∈ t_scopes (st_db s) → is_mutable sc = true →
  (sc' ← get_scope_or_raise (sc_id sc); _require_mutable sc' ;; _require_owner sc' (sc_owner sc) ;; k sc') s = k sc s.
Proof.
  intros Hnd Hin [Hfr Har]%negb_true_iff%orb_false_iff. rewrite (run_bind_ok _ _ _ _ _ (get_scope_keyed _ _ Hnd Hin)).
  assert (Hm : _require_mutable sc s = (Ok tt, s)) by (unfold _require_mutable; by rewrite Hfr, Har).
  assert (Ho : _require_owner sc (sc_owner sc) s = (Ok tt, s))
    by (unfold _require_owner; by rewrite bool_decide_eq_true_2).
  by rewrite (run_bind_ok _ _ _ _ _ Hm), (run_bind_ok _ _ _ _ _ Ho).
Qed.

Lemma setting_of_spec t scope key v :
  settings_ok t →
  setting_of t scope key = Some v ↔
    ∃ x, x ∈ t_settings t ∧ setting_key x = (scope, key) ∧ ss_lifecycle x = ACTIVE ∧ ss_value x = v.
Proof.
  intros [_ Hk]. unfold setting_of. set (l := filter _ _).
  assert (Hl : ∀ x, x ∈ l ↔ x ∈ t_settings t ∧ setting_key x = (scope, key) ∧ ss_lifecycle x = ACTIVE)
    by (intros x; unfold l; rewrite list_elem_of_filter, of_key_elem; tauto).
  destruct l as [|y l']; simpl.
  - split; [done|]. intros (x & Hx & Hkx & Hax & _). exfalso.
    by apply (not_elem_of_nil x), Hl.
  - assert (y ∈ y :: l') as (Hy & Hky & Hay)%Hl by left. split; [intros [= <-]; by exists y|].
    intros (x & Hx & Hkx & _ & <-). do 2 f_equal. apply (NoDup_fmap_inj_in _ _ _ _ Hk Hy Hx). congruence.
Qed.

(** Rows that agree on what is active under a key give it the same value. *)
Lemma setting_of_same t t' scope key :
  settings_ok t → settings_ok t' →
  (∀ x, x ∈ t_settings t' ∧ setting_key x = (scope, key) ∧ ss_lifecycle x = ACTIVE ↔
        x ∈ t_settings t ∧ setting_key x = (scope, key) ∧ ss_lifecycle x = ACTIVE) →
  setting_of t' scope key = setting_of t scope key.
Proof.
  intros Hok Hok' Hsame. apply option_eq. intros v. rewrite !setting_of_spec by done. split.
  - intros (x & Hx & Hk & Ha & Hv). destruct (proj1 (Hsame x)) as (? & _ & _); [done|]. by exists x.
  - intros (x & Hx & Hk & Ha & Hv). destruct (proj2 (Hsame x)) as (? & _ & _); [done|]. by exists x.
Qed.

(** An UPDATE of one row that keeps ids and keys. *)
Definition updated_settings (id : string) (f : ScopedSetting → ScopedSetting) (l : list ScopedSetting) :=
  (λ r, if by_setting id r then f r else r) <$> l.

Lemma updated_settings_map {K} (g : ScopedSetting → K) id f l :
  (∀ r, g (f r) = g r) → g <$> updated_settings id f l = g <$> l.
Proof.
  intros Hf. unfold updated_settings. rewrite <-list_fmap_compose. apply list_fmap_ext. intros _ r _. simpl.
  by destruct (by_setting id r).
Qed.

Lemma updated_settings_ok id f t :
  (∀ r, ss_id (f r) = ss_id r) → (∀ r, setting_key (f r) = setting_key r) →
  settings_ok t → settings_ok (set_settings (updated_settings id f (t_settings t)) t).
Proof. intros H1 H2 [A B]. split; simpl; by rewrite updated_settings_map. Qed.

Lemma updated_settings_elem x f l y :
  NoDup (ss_id <$> l) → x ∈ l →
  y ∈ updated_settings (ss_id x) f l ↔ y = f x ∨ y ∈ l ∧ ss_id y ≠ ss_id x.
Proof.
  intros Hnd Hx. unfold updated_settings, by_setting. rewrite list_elem_of_fmap. split.
  - intros (r & -> & Hr). case_bool_decide as Hid; [left|by right].
    by rewrite (NoDup_fmap_inj_in _ _ _ _ Hnd Hr Hx Hid).
  - intros [->|[Hy Hne]]; [exists x; by rewrite bool_decide_eq_true_2|].
    exists y. by rewrite bool_decide_eq_false_2.
Qed.

(** Changing one row changes what is active under its own key only. *)
Lemma updated_settings_other x f t scope key :
  (∀ r, ss_id (f r) = ss_id r) → (∀ r, setting_key (f r) = setting_key r) →
  settings_ok t → x ∈ t_settings t → setting_key x ≠ (scope, key) →
  setting_of (set_settings (updated_settings (ss_id x) f (t_settings t)) t) scope key = setting_of t scope key.
Proof.
  intros H1 H2 Hok Hx Hne. apply setting_of_same; [done|by apply updated_settings_ok|]. intros y. simpl.
  rewrite updated_settings_elem by (done || apply Hok). split.
  - intros ([->|[Hy _]] & Hk & Ha); [|done]. by rewrite H2 in Hk.
  - intros (Hy & Hk & Ha). split_and!; [|done..]. right. split; [done|]. intros Hid.
    by rewrite (NoDup_fmap_inj_in _ _ _ _ (settings_ids _ Hok) Hy Hx Hid) in Hk.
Qed.

Lemma audit_settings q s u s' :
  audit q s = (Ok u, s') → t_settings (st_db s') = t_settings (st_db s) ∧ t_scopes (st_db s') = t_scopes (st_db s).
Proof. intros Hq%audit_ok%quiet_db. by destruct Hq as (_ & _ & _ & ? & _ & _ & _ & _ & _ & ? & _). Qed.

Lemma setting_of_rows t t' scope key :
  t_settings t' = t_settings t → setting_of t' scope key = setting_of t scope key.
Proof. intros H. unfold setting_of. by rewrite H. Qed.

Lemma settings_ok_rows t t' : t_settings t' = t_settings t → settings_ok t → settings_ok t'.
Proof. intros H [A B]. split; by rewrite H. Qed.

(** Setting a value sets that value and no other: a returning set was asked by
    the owner of a live, unfrozen scope; afterwards the scope's value for the key
    is the one given, every other key of every scope has the value it had, and
    each key still has one row per scope. *)
Theorem config_set_get scope key v principal description s x s' :
  settings_ok (st_db s) →
  config_set scope key v principal description s = (Ok x, s') →
  (∃ sc, sc ∈ t_scopes (st_db s) ∧ sc_id sc = scope ∧ is_mutable sc = true ∧ sc_owner sc = principal) ∧
  settings_ok (st_db s') ∧ t_scopes (st_db s') = t_scopes (st_db s) ∧
  setting_of (st_db s') scope key = Some v ∧ ss_value x = v ∧
  ∀ scope' key', (scope', key') ≠ (scope, key) →
    setting_of (st_db s') scope' key' = setting_of (st_db s) scope' key'.
Proof.
  intros Hok H. apply config_guard_ok in H as (sc & Hsc & Hid & Hmut & Hown & H).
  split; [by exists sc|]. apply bind_ok_inv in H as (ts & s1 & [-> ->]%now_utc_ok & H).
  destruct (config_get_run scope key s Hok) as (r & Hr & _ & Hspec).
  rewrite (run_bind_ok _ _ _ _ _ Hr) in H. destruct r as [b|].
  - destruct Hspec as (Hb & Hkey & Hact). set (f := revalued v (st_now s) principal description) in *.
    apply bind_ok_inv in H as (? & s1 & ->%sql_update_ok & H). cbv zeta in H.
    apply bind_ok_inv in H as (? & s1 & [Hrows Hscs]%audit_settings & H). apply mret_ok in H as [-> ->].
    simpl in Hrows, Hscs. fold (updated_settings (ss_id b) f (t_settings (st_db s))) in Hrows.
    set (t1 := set_settings (updated_settings (ss_id b) f (t_settings (st_db s))) (st_db s)).
    assert (Hok1 : settings_ok t1) by by apply updated_settings_ok.
    split_and!; [by apply (settings_ok_rows t1)|done| |done|].
    + rewrite (setting_of_rows t1) by done. apply setting_of_spec; [done|]. exists (f b).
      split_and!; [|done..]. simpl. apply updated_settings_elem; [apply Hok|done|]. by left.
    + intros scope' key' Hne. rewrite (setting_of_rows t1) by done.
      apply updated_settings_other; [done..|congruence].
  - apply bind_ok_inv in H as (i & s1 & [-> ->]%generate_id_ok & H). cbv zeta in H.
    apply bind_ok_inv in H as (? & s1 & Hins & H). unfold insert_setting in Hins.
    apply bind_ok_inv in Hins as (? & s2 & [-> _]%require_row_ok & Hins).
    apply sql_insert_ok in Hins as [Hclash ->].
    apply bind_ok_inv in H as (? & s1 & [Hrows Hscs]%audit_settings & H). apply mret_ok in H as [-> ->].
    simpl in Hrows, Hscs, Hclash.
    match type of Hrows with _ = _ ++ [?y] => set (z := y) in * end.
    assert (Hfresh : ∀ y, y ∈ t_settings (st_db s) → ss_id y ≠ ss_id z ∧ setting_key y ≠ setting_key z).
    { intros y Hy. specialize (Hclash y Hy). rewrite orb_false_iff, andb_false_iff, !bool_decide_eq_false in Hclash.
      unfold setting_key. simpl. split; [naive_solver|]. intros [= ??]. naive_solver. }
    set (t1 := set_settings (t_settings (st_db s) ++ [z]) (st_db s)).
    assert (Hok1 : settings_ok t1).
    { destruct Hok as [A B]. split; simpl; rewrite fmap_app; apply NoDup_app;
        (split_and!; [done| |apply NoDup_singleton]); intros q (y & -> & Hy)%list_elem_of_fmap
        Hq%list_elem_of_singleton; destruct (Hfresh y Hy); done. }
    assert (Hz : ∀ q, q ∈ t_settings t1 ↔ q ∈ t_settings (st_db s) ∨ q = z)
      by (intros q; simpl; rewrite elem_of_app, list_elem_of_singleton; done).
    split_and!; [by apply (settings_ok_rows t1)|done| |done|].
    + rewrite (setting_of_rows t1) by done. apply setting_of_spec; [done|]. exists z.
      split_and!; [apply Hz; by right|done..].
    + intros scope' key' Hne. rewrite (setting_of_rows t1) by done. apply setting_of_same; [done..|].
      intros q. rewrite Hz. split; [|tauto]. intros ([?| ->] & Hk & Ha); [done|].
      unfold setting_key in Hk. simpl in Hk. congruence.
Qed.
(** An archived row keeps its key: no other row can take it. *)
Lemma insert_setting_stuck x y s :
  y ∈ t_settings (st_db s) → setting_key y = setting_key x →
  (∃ sc, sc ∈ t_scopes (st_db s) ∧ sc_id sc = ss_scope x) →
  insert_setting x s = (Raise (IntegrityError "scope_settings"), s).
Proof.
  intros Hy Hk (sc & Hsc & Hid). unfold insert_setting.
  assert (Hreq : require_row t_scopes (by_scope (ss_scope x)) "scope_settings.scope_id" s = (Ok tt, s)).
  { unfold require_row. rewrite (run_bind_ok (gets _) _ _ _ _ eq_refl). unfold raise_if.
    by rewrite (proj2 (existsb_exists _ _)) by
      (exists sc; rewrite <-list_elem_of_In; split; [done|]; by apply bool_decide_eq_true_2). }
  rewrite (run_bind_ok _ _ _ _ _ Hreq). unfold sql_insert, gets. rewrite run_bind.
  rewrite (proj2 (existsb_exists _ _)); [done|]. exists y. rewrite <-list_elem_of_In. split; [done|].
  injection Hk as Hs Hk. rewrite (bool_decide_eq_true_2 (ss_scope x = ss_scope y)) by done.
  by rewrite (bool_decide_eq_true_2 (ss_key x = ss_key y)), orb_true_r by done.
Qed.

(** Deleting a setting is for good: after a delete that found one, the scope
    has no value for the key and all other values are as before, but the archived
    row still holds the key, so every later set of it by the owner fails on the
    table's unique constraint, and leaves the database as it is. *)
Theorem deleted_setting_stuck scope key principal s s' :
  settings_ok (st_db s) → NoDup (sc_id <$> t_scopes (st_db s)) →
  config_delete scope key principal s = (Ok true, s') →
  settings_ok (st_db s') ∧ setting_of (st_db s') scope key = None ∧
  (∀ scope' key', (scope', key') ≠ (scope, key) →
    setting_of (st_db s') scope' key' = setting_of (st_db s) scope' key') ∧
  ∀ v description, ∃ s2, st_db s2 = st_db s' ∧
    config_set scope key v principal description s' = (Raise (IntegrityError "scope_settings"), s2).
Proof.
  intros Hok Hids H. apply config_guard_ok in H as (sc & Hsc & Hid & Hmut & Hown & H).
  destruct (config_get_run scope key s Hok) as (r & Hr & _ & Hspec).
  rewrite (run_bind_ok _ _ _ _ _ Hr) in H. destruct r as [b|]; [|done].
  destruct Hspec as (Hb & Hkey & Hact). apply bind_ok_inv in H as (? & s1 & ->%sql_update_ok & H).
  apply bind_ok_inv in H as (? & s1 & [Hrows Hscs]%audit_settings & H). apply mret_ok in H as [_ ->].
  simpl in Hrows, Hscs. fold (updated_settings (ss_id b) archived_setting (t_settings (st_db s))) in Hrows.
  set (t1 := set_settings (updated_settings (ss_id b) archived_setting (t_settings (st_db s))) (st_db s)).
  assert (Hok1 : settings_ok t1) by by apply updated_settings_ok.
  assert (Hok' : settings_ok (st_db s1)) by by apply (settings_ok_rows t1).
  assert (Hba : archived_setting b ∈ t_settings (st_db s1))
    by (rewrite Hrows; apply updated_settings_elem; [apply Hok|done|by left]).
  assert (Hnone : ∀ x, x ∈ t_settings (st_db s1) → setting_key x = (scope, key) → ss_lifecycle x ≠ ACTIVE).
  { intros y Hx Hk Ha. assert (Heq : y = archived_setting b); [|by rewrite Heq in Ha].
    apply (NoDup_fmap_inj_in _ _ _ _ (settings_keys _ Hok') Hx Hba). by rewrite Hk, <-Hkey. }
  split_and!; [done| | |].
  - destruct (setting_of (st_db s1) scope key) as [v|] eqn:Hv; [|done].
    apply setting_of_spec in Hv as (y & Hy & Hk & Ha & _); [|done]. by destruct (Hnone y Hy Hk).
  - intros scope' key' Hne. rewrite (setting_of_rows t1) by done.
    apply updated_settings_other; [done..|congruence].
  - intros v description. rewrite <-Hscs in Hsc, Hids.
    unfold config_set. rewrite <-Hid, <-Hown, config_guard_run, Hid by done.
    rewrite (run_bind_ok now_utc _ s1 (st_now s1) s1 eq_refl).
    destruct (config_get_run scope key s1 Hok') as (r & Hr1 & _ & Hspec1).
    assert (r = None) as -> by (destruct r as [y|]; [|done]; destruct Hspec1 as (Hy & Hk & Ha); by destruct (Hnone y Hy Hk)).
    rewrite (run_bind_ok _ _ _ _ _ Hr1).
    rewrite (run_bind_ok _ _ _ _ _ (eq_refl : generate_id s1 = (Ok (id_of (st_next s1)), put_next (S (st_next s1)) s1))).
    cbv zeta. exists (put_next (S (st_next s1)) s1). split; [done|].
    apply run_bind_raise. apply (insert_setting_stuck _ (archived_setting b)); [done..|]. by exists sc.
Qed.
(** ** Resolution *)

(** [l] is [id] and its ancestors, cut after [n] scopes. *)
Inductive lineage (t : tables) : nat → string → list string → Prop :=
  | lineage_cut id : lineage t 0 id []
  | lineage_root n id :
      (∀ sc, sc ∈ t_scopes t → sc_id sc = id → sc_parent sc = None) → lineage t (S n) id [id]
  | lineage_up n sc p l :
      sc ∈ t_scopes t → sc_parent sc = Some p → lineage t n p l → lineage t (S n) (sc_id sc) (sc_id sc :: l).

Lemma scope_chain_run n id s :
  NoDup (sc_id <$> t_scopes (st_db s)) → ∃ l, scope_chain n id s = (Ok l, s) ∧ lineage (st_db s) n id l.
Proof.
  intros Hnd. revert id. induction n as [|n IH]; intros id; cbn [scope_chain].
  { exists []. split; [done|constructor]. }
  destruct (get_scope_total id s) as (o & Hget). rewrite (run_bind_ok _ _ _ _ _ Hget).
  apply get_scope_ok in Hget as [_ Ho]. destruct o as [sc|].
  - destruct Ho as [Hsc <-]. destruct (sc_parent sc) as [p|] eqn:Hp.
    + destruct (IH p) as (l & Hl & Hlin). rewrite (run_bind_ok _ _ _ _ _ Hl).
      eexists. split; [done|]. by eapply lineage_up.
    + eexists. split; [done|]. constructor. intros x Hx Hid.
      by rewrite (NoDup_fmap_inj_in _ _ _ _ Hnd Hx Hsc Hid).
  - eexists. split; [done|]. constructor. intros x Hx Hid. by destruct (Ho x Hx).
Qed.

(** The value a scope gives the key, with the scope. *)
Definition value_given (t : tables) (key sid : string) : option (string * jval) :=
  (λ v, (sid, v)) <$> setting_of t sid key.

Definition found (k : string) (l : list ScopedSetting) : option jval :=
  ss_value <$> find (λ x, bool_decide (ss_key x = k)) l.

Definition chain_of (k : string) {V} (chains : list (string * list V)) : list V := default [] (assoc k chains).

Lemma assoc_upsert {V} k k' (d : V) f l :
  assoc k (upsert k' d f l) = if decide (k = k') then Some (f (default d (assoc k l))) else assoc k l.
Proof.
  unfold assoc. induction l as [|[k1 v] l IH]; simpl.
  - case_bool_decide; case_decide; simpl; congruence.
  - destruct (decide (k1 = k')) as [->|Hne].
    + rewrite (bool_decide_eq_true_2 (k' = k')) by done. simpl. case_bool_decide; case_decide; simpl; congruence.
    + rewrite (bool_decide_eq_false_2 (k1 = k')) by done. simpl. case_bool_decide; [|done].
      by rewrite decide_False by congruence.
Qed.

(** One scope's settings add each key's value to its chain, and leave [result]
    with the last value of each chain. *)
Lemma add_settings_spec scope sid rows chains result k :
  NoDup (ss_key <$> rows) → (∀ k, assoc k result = resolved_setting scope k (chain_of k chains)) →
  let '(chains', result') := foldl (add_setting scope sid) (chains, result) rows in
  chain_of k chains' = chain_of k chains ++ option_list ((λ v, (sid, v)) <$> found k rows) ∧
  ∀ k, assoc k result' = resolved_setting scope k (chain_of k chains').
Proof.
  revert chains result. induction rows as [|x rows IH]; intros chains result; cbn [foldl].
  { intros _ H. split; [by rewrite app_nil_r|done]. }
  rewrite fmap_cons. intros [Hx Hnd]%NoDup_cons Hinv. unfold add_setting at 2. cbn [fst snd].
  set (chains1 := upsert (ss_key x) [] (λ c, c ++ [(sid, ss_value x)]) chains).
  assert (Hc1 : ∀ k, chain_of k chains1 =
    if decide (k = ss_key x) then chain_of k chains ++ [(sid, ss_value x)] else chain_of k chains)
    by (intros k'; unfold chain_of, chains1; rewrite assoc_upsert; by destruct (decide (k' = ss_key x))).
  match goal with |- context [foldl _ (_, ?r) _] => specialize (IH chains1 r Hnd) end.
  destruct (foldl _ _ rows) as [chains' result']. destruct IH as [IHc IHr].
  { intros k'. rewrite assoc_upsert, Hc1. destruct (decide (k' = ss_key x)) as [->|_]; [|apply Hinv].
    fold (chain_of (ss_key x) chains1). rewrite Hc1, decide_True by done.
    unfold resolved_setting. by rewrite last_snoc. }
  split; [|exact IHr]. rewrite IHc, Hc1. unfold found. simpl.
  destruct (decide (k = ss_key x)) as [->|Hne].
  - rewrite bool_decide_eq_true_2 by done. destruct (find _ rows) as [y|] eqn:Hf; [|by rewrite app_nil_r].
    apply find_Some_elem in Hf as [Hy Hk%bool_decide_eq_true_1]. destruct Hx. rewrite <-Hk.
    by apply list_elem_of_fmap_2.
  - by rewrite bool_decide_eq_false_2.
Qed.
Lemma active_settings_run sid s :
  settings_ok (st_db s) →
  ∃ rows, list_settings sid false s = (Ok rows, s) ∧ NoDup (ss_key <$> rows) ∧
    ∀ k, found k rows = setting_of (st_db s) sid k.
Proof.
  intros Hok. unfold list_settings, select_sorted. eexists. split; [reflexivity|].
  set (p := λ x, bool_decide (ss_scope x = sid) && (false || setting_active x)).
  set (rows := sort_by _ _).
  assert (Hperm : rows ≡ₚ filter (λ r, p r = true) (t_settings (st_db s)))
    by (unfold rows; by rewrite sort_by_perm, scan_perm).
  assert (Hrows : ∀ x, x ∈ rows ↔ x ∈ t_settings (st_db s) ∧ ss_scope x = sid ∧ ss_lifecycle x = ACTIVE).
  { intros x. rewrite Hperm, list_elem_of_filter. unfold p, setting_active. simpl.
    rewrite andb_true_iff, !bool_decide_eq_true. tauto. }
  assert (Hkeys : NoDup (setting_key <$> rows))
    by (rewrite Hperm; apply NoDup_fmap_filter, Hok).
  assert (Hnd : NoDup (ss_key <$> rows)).
  { apply NoDup_fmap_1 with (f := pair sid). rewrite <-list_fmap_compose.
    assert (Heq : setting_key <$> rows = compose (pair sid) ss_key <$> rows); [|by rewrite <-Heq].
    apply list_fmap_ext. intros j x Hx%list_elem_of_lookup_2. apply Hrows in Hx as (_ & <- & _). done. }
  split; [done|]. intros k. apply option_eq. intros v. rewrite setting_of_spec by done.
  unfold found. rewrite fmap_Some. split.
  - intros (x & [Hx Hk%bool_decide_eq_true_1]%find_Some_elem & ->). apply Hrows in Hx as (Hx & Hs & Ha).
    exists x. unfold setting_key. by rewrite Hs, Hk.
  - intros (x & Hx & [= Hs Hk] & Ha & <-). assert (Hr : x ∈ rows) by by apply Hrows.
    destruct (find _ rows) as [y|] eqn:Hf.
    + apply find_Some_elem in Hf as [Hy Hky%bool_decide_eq_true_1]. exists y. split; [done|].
      by rewrite (NoDup_fmap_inj_in _ _ _ _ Hnd Hr Hy) by congruence.
    + exfalso. pose proof (find_None_elem _ _ _ Hf Hr) as Hn%bool_decide_eq_false_1. done.
Qed.

Lemma chain_fold_run key ids acc s :
  settings_ok (st_db s) →
  for_fold ids acc (λ acc sid,
    found ← config_get sid key;
    mret (match found with Some x => acc ++ [(sid, ss_value x)] | None => acc end)) s =
  (Ok (acc ++ omap (value_given (st_db s) key) ids), s).
Proof.
  intros Hok. revert acc. induction ids as [|i ids IH]; intros acc; cbn [for_fold omap list_omap].
  { by rewrite app_nil_r. }
  destruct (config_get_run i key s Hok) as (r & Hr & Hv & _).
  rewrite run_bind, (run_bind_ok _ _ _ _ _ Hr). unfold mret, prog_ret. rewrite IH. unfold value_given at 2.
  rewrite <-Hv. destruct r; [|done]. by rewrite <-app_assoc.
Qed.

Lemma all_fold_run scope ids chains result s :
  settings_ok (st_db s) → (∀ k, assoc k result = resolved_setting scope k (chain_of k chains)) →
  ∃ acc, for_fold ids (chains, result) (λ acc sid,
    settings ← list_settings sid false;
    mret (foldl (add_setting scope sid) acc settings)) s = (Ok acc, s) ∧
  ∀ k, assoc k acc.2 = resolved_setting scope k (chain_of k chains ++ omap (value_given (st_db s) k) ids).
Proof.
  intros Hok. revert chains result. induction ids as [|i ids IH]; intros chains result Hinv; cbn [for_fold omap list_omap].
  { eexists. split; [done|]. intros k. by rewrite app_nil_r. }
  destruct (active_settings_run i s Hok) as (rows & Hr & Hnd & Hf).
  rewrite run_bind, (run_bind_ok _ _ _ _ _ Hr). unfold mret, prog_ret.
  pose proof (λ k, add_settings_spec scope i rows chains result k Hnd Hinv) as Hadd.
  destruct (foldl _ _ rows) as [chains' result'].
  destruct (IH chains' result') as (acc & Hacc & Hks); [apply (Hadd ""%string)|].
  exists acc. split; [done|]. intros k. rewrite Hks. destruct (Hadd k) as [-> _].
  rewrite <-app_assoc, Hf. unfold value_given at 2. by destruct (setting_of (st_db s) i k).
Qed.
Lemma omap_reverse {X Y} (f : X → option Y) (l : list X) : omap f (reverse l) = reverse (omap f l).
Proof.
  induction l as [|x l IH]; [done|]. rewrite reverse_cons, omap_app, IH. simpl.
  destruct (f x); [by rewrite reverse_cons|by rewrite app_nil_r].
Qed.

(** The first scope of the line that gives the key a value. *)
Lemma head_omap {X Y} (f : X → option Y) (l : list X) :
  match head (omap f l) with
  | None => ∀ x, x ∈ l → f x = None
  | Some y => ∃ pre x post, l = pre ++ x :: post ∧ (∀ z, z ∈ pre → f z = None) ∧ f x = Some y
  end.
Proof.
  induction l as [|x l IH]; cbn [omap list_omap head]; [by intros x ?%elem_of_nil|]. destruct (f x) as [y|] eqn:Hf; simpl.
  - exists [], x, l. split_and!; [done|by intros z ?%elem_of_nil|done].
  - change (list_omap _ _ f l) with (omap f l). destruct (head (omap f l)) as [y|].
    + destruct IH as (pre & x' & post & -> & Hpre & Hx'). exists (x :: pre), x', post. split_and!; [done| |done].
      intros z [->|Hz]%elem_of_cons; auto.
    + intros z [->|Hz]%elem_of_cons; auto.
Qed.

(** What a line of scopes, nearest first, resolves the key to. *)
Definition nearest (t : tables) (scope key : string) (ids : list string) (o : option ResolvedSetting) : Prop :=
  match o with
  | None => ∀ i, i ∈ ids → setting_of t i key = None
  | Some r => rs_key r = key ∧ inherited r = negb (bool_decide (source_scope_id r = scope)) ∧
      resolution_chain r = omap (value_given t key) (reverse ids) ∧
      ∃ pre post, ids = pre ++ source_scope_id r :: post ∧ (∀ i, i ∈ pre → setting_of t i key = None) ∧
        setting_of t (source_scope_id r) key = Some (rs_value r)
  end.

Lemma resolved_nearest t scope key ids :
  nearest t scope key ids (resolved_setting scope key (omap (value_given t key) (reverse ids))).
Proof.
  pose proof (head_omap (value_given t key) ids) as H. unfold resolved_setting.
  rewrite omap_reverse, last_reverse. destruct (head (omap (value_given t key) ids)) as [[w v]|]; simpl.
  - destruct H as (pre & x & post & Hids & Hpre & Hx). split_and!; [done..|by rewrite omap_reverse|].
    unfold value_given in Hx. destruct (setting_of t x key) as [v'|] eqn:Hv; [|done]. injection Hx as <- <-.
    exists pre, post. split_and!; [done| |done]. intros i Hi. specialize (Hpre i Hi). unfold value_given in Hpre.
    by destruct (setting_of t i key).
  - intros i Hi. specialize (H i Hi). unfold value_given in H. by destruct (setting_of t i key).
Qed.

(** Resolution inherits: over the scope and its ancestors (at most max_depth of
    them) resolve changes nothing and gives exactly the value of the nearest one
    that has the key, with the values of all of them root first as its chain and
    the inherited flag saying whether it is the scope's own; none has it when it
    returns None.  resolve_all gives for every key what resolve gives, and
    effective_value its value or the default. *)
Theorem resolve_nearest max_depth scope s :
  settings_ok (st_db s) → NoDup (sc_id <$> t_scopes (st_db s)) →
  ∃ ids all, lineage (st_db s) (S max_depth) scope ids ∧ resolve_all max_depth scope s = (Ok all, s) ∧
    ∀ key, ∃ o, resolve_setting max_depth scope key s = (Ok o, s) ∧ nearest (st_db s) scope key ids o ∧
      assoc key all = o ∧
      ∀ d, effective_value max_depth scope key d s = (Ok (from_option rs_value d o), s).
Proof.
  intros Hok Hnd. destruct (scope_chain_run (S max_depth) scope s Hnd) as (ids & Hids & Hlin).
  destruct (all_fold_run scope (reverse ids) [] [] s Hok) as (acc & Hacc & Hall); [done|].
  exists ids, acc.2. split_and!; [done| |].
  { unfold resolve_all. by rewrite (run_bind_ok _ _ _ _ _ Hids), (run_bind_ok _ _ _ _ _ Hacc). }
  intros key. assert (Hres : resolve_setting max_depth scope key s =
    (Ok (resolved_setting scope key (omap (value_given (st_db s) key) (reverse ids))), s)).
  { unfold resolve_setting. rewrite (run_bind_ok _ _ _ _ _ Hids).
    by rewrite (run_bind_ok _ _ _ _ _ (chain_fold_run key (reverse ids) [] s Hok)). }
  eexists. split_and!; [exact Hres|apply resolved_nearest|apply Hall|]. intros d.
  unfold effective_value. rewrite (run_bind_ok _ _ _ _ _ Hres). by destruct (resolved_setting _ _ _).
Qed.
End SettingsTheory.
