(* ===== verification/Visibility.v ===== *)
(** * Legacy v1: what a principal sees (tenancy/engine.py)

    Ownership, projections into the scopes a principal is a member of, and
    inheritance from ancestor scopes, as the engine's recursive queries compute
    them. *)

From S2P Require Import Prelude LegacyTypes Schema Trail Tenancy.

(** ** Recursive queries

    WITH RECURSIVE cte AS (base UNION ALL step): the rows of each level come
    from those of the level before; [levels n base] has the rows of the first
    [n] recursive steps after the base, with their depth. *)

Fixpoint levels {R} (n depth : nat) (step : R → list R) (rows : list R) : list (R * nat) :=
  ((λ r, (r, depth)) <$> rows) ++
  match n with
  | 0 => []
  | S n' => levels n' (S depth) step (r ← rows; step r)
  end.

Section Visibility.
Context `{host : !Host}.

(** The scopes the principal is an active, non-expired member of. *)
Definition member_scopes (t : tables) (now : Z) (principal : string) : list string :=
  sm_scope <$> filter (λ m, sm_principal m = principal ∧ active_membership now m = true) (t_members t).

(** JOIN scopes ON id, WHERE parent_scope_id IS NOT NULL. *)
Definition parent_step (t : tables) (id : string) : list string :=
  omap sc_parent (filter (λ sc, sc_id sc = id) (t_scopes t)).

Definition max_levels : nat := 20.

(** The member scopes and their ancestors, each with its depth. *)
Definition visible_scopes (t : tables) (now : Z) (principal : string) : list (string * nat) :=
  levels max_levels 0 (parent_step t) (member_scopes t now principal).

Definition given_type (o : option string) : option string :=
  match o with Some s => if bool_decide (s = "") then None else Some s | None => None end.

Definition owned_object (principal : string) (type : option string) (o : ScopedObject) : bool :=
  bool_decide (so_owner o = principal) && negb (bool_decide (so_lifecycle o = ARCHIVED)) &&
  filter_opt (given_type type) (so_type o).

Definition _owned_object_ids (principal : string) (type : option string) : lp (list string) :=
  l ← select t_objects (owned_object principal type); mret (so_id <$> l).

(** JOIN scoped_objects when a type is given: the object's type is that one. *)
Definition typed (t : tables) (type : option string) (p : ScopeProjection) : Prop :=
  match given_type type with
  | None => True
  | Some ty => Exists (λ o, so_id o = sp_object p ∧ so_type o = ty) (t_objects t)
  end.
#[export] Instance typed_dec t type p : Decision (typed t type p).
Proof. unfold typed. destruct (given_type type); apply _. Defined.

(** SELECT DISTINCT object_id. *)
Definition _projected_object_ids (principal : string) (type : option string) : lp (list string) :=
  now ← now_utc;
  gets (λ s, let t := st_db s in
    scan (remove_dups (sp_object <$> filter (λ p,
      active_projection p = true ∧ sp_scope p ∈ (visible_scopes t now principal).*1 ∧
      typed t type p) (t_projections t)))).

(** The merge of [visible_object_ids]. *)
Fixpoint merge_ids (limit : nat) (l seen : list string) : list string :=
  match l with
  | [] => seen
  | oid :: l' =>
      let seen' := if bool_decide (oid ∈ seen) then seen else seen ++ [oid] in
      if limit <=? length seen' then seen' else merge_ids limit l' seen'
  end.

Definition visible_object_ids (principal : string) (type : option string) (limit : nat)
  : lp (list string) :=
  owned ← _owned_object_ids principal type;
  projected ← _projected_object_ids principal type;
  mret (merge_ids limit (owned ++ projected) []).

(** scope_projections JOIN scope_memberships ON scope_id, for one object and
    principal. *)
Definition direct_shares (t : tables) (now : Z) (principal object : string) : list ScopeProjection :=
  p ← filter (λ p, sp_object p = object ∧ active_projection p = true) (t_projections t);
  (λ _, p) <$> filter (λ m, sm_scope m = sp_scope p ∧ sm_principal m = principal ∧
                            active_membership now m = true) (t_members t).

Definition _visible_via_hierarchy (principal object : string) : lp bool :=
  now ← now_utc;
  gets (λ s, let t := st_db s in
    existsb (λ p, bool_decide (sp_object p = object) && active_projection p &&
      bool_decide (sp_scope p ∈
        (filter (λ x, 0 < x.2) (visible_scopes t now principal)).*1)) (t_projections t)).

Definition can_see (principal object : string) : lp bool :=
  row ← fetch_one t_objects (λ o, bool_decide (so_id o = object) && owned_object principal None o);
  match row with
  | Some _ => mret true
  | None =>
      now ← now_utc;
      shares ← gets (λ s, direct_shares (st_db s) now principal object);
      match shares with
      | _ :: _ => mret true
      | [] => _visible_via_hierarchy principal object
      end
  end.

(** max(levels, key=priority): the first of the highest. *)
Definition level_priority (l : AccessLevel) : nat :=
  match l with READ_LEVEL => 0 | WRITE_LEVEL => 1 | ADMIN_LEVEL => 2 end.
Definition max_level (l : AccessLevel) (ls : list AccessLevel) : AccessLevel :=
  foldl (λ a b, if level_priority a <? level_priority b then b else a) l ls.

Definition get_access_level (principal object : string) : lp (option AccessLevel) :=
  row ← fetch_one t_objects (λ o, bool_decide (so_id o = object) && bool_decide (so_owner o = principal));
  match row with
  | Some _ => mret (Some ADMIN_LEVEL)
  | None =>
      now ← now_utc;
      rows ← gets (λ s, scan (direct_shares (st_db s) now principal object));
      match rows with
      | [] => mret None
      | p :: ps => mret (Some (max_level (sp_level p) (sp_level <$> ps)))
      end
  end.

(** SELECT DISTINCT principal_id. *)
Definition scope_member_ids (sc : string) : lp (list string) :=
  now ← now_utc;
  gets (λ s, scan (remove_dups (sm_principal <$> filter (λ m,
    sm_scope m = sc ∧ active_membership now m = true) (t_members (st_db s))))).

(** ** Walks over the hierarchy by recursive query

    ORDER BY depth: the levels in order; the rows of one level in some order. *)

Definition up_step (t : tables) (r : Scope) : list Scope :=
  match sc_parent r with
  | None => []
  | Some p => filter (λ sc, sc_id sc = p) (t_scopes t)
  end.

Definition by_depth (a b : Scope * nat) : bool := a.2 <=? b.2.

Definition ancestor_scope_ids (id : string) (max_depth : nat) : lp (list string) :=
  gets (λ s, let t := st_db s in
    (λ x, sc_id x.1) <$> sort_by by_depth (scan (filter (λ x, 0 < x.2)
      (levels max_depth 0 (up_step t) (filter (λ sc, sc_id sc = id) (t_scopes t)))))).

Definition down_step (t : tables) (r : Scope) : list Scope :=
  filter (λ sc, live_child (sc_id r) sc = true) (t_scopes t).

Definition descendant_scope_ids (id : string) (max_depth : nat) : lp (list string) :=
  gets (λ s, let t := st_db s in
    (λ x, sc_id x.1) <$> sort_by by_depth (scan (filter (λ x, 0 < x.2)
      (levels max_depth 0 (down_step t) (filter (λ sc, sc_id sc = id) (t_scopes t)))))).
End Visibility.

(** ** What the queries compute *)

Lemma levels_elem {R} (step : R → list R) n d rows r k :
  (r, k) ∈ levels n d step rows ↔
    ∃ j r0, j ≤ n ∧ k = d + j ∧ r0 ∈ rows ∧ nsteps (λ a b, b ∈ step a) j r0 r.
Proof.
  revert d rows. induction n as [|n IH]; intros d rows; cbn [levels]; rewrite elem_of_app, list_elem_of_fmap.
  - rewrite elem_of_nil. split.
    + intros [(x & [= -> ->] & Hx)|[]]. exists 0, x. split_and!; [lia|lia|done|constructor].
    + intros (j & r0 & Hj & -> & Hr & Hs). assert (j = 0) as -> by lia. inversion Hs; subst.
      left. exists r. by rewrite Nat.add_0_r.
  - rewrite IH. split.
    + intros [(x & [= -> ->] & Hx)|(j & r0 & Hj & -> & Hr & Hs)].
      * exists 0, x. split_and!; [lia|lia|done|constructor].
      * apply list_elem_of_bind in Hr as (r1 & Hr1 & Hin). exists (S j), r1.
        split_and!; [lia|lia|done|]. by econstructor.
    + intros (j & r0 & Hj & -> & Hr & Hs). destruct j as [|j].
      * inversion Hs; subst. left. exists r. by rewrite Nat.add_0_r.
      * inversion Hs as [|? ? y ? Hy Hys]; subst. right. exists j, y.
        split_and!; [lia|lia| |done]. apply list_elem_of_bind. by exists r0.
Qed.

Lemma merge_ids_spec limit l seen :
  NoDup seen → (length seen < limit ∨ seen = []) →
  let out := merge_ids limit l seen in
  NoDup out ∧ (∀ x, x ∈ out → x ∈ seen ∨ x ∈ l) ∧ length out ≤ Nat.max 1 limit ∧
  (length out < limit → ∀ x, x ∈ seen ∨ x ∈ l → x ∈ out).
Proof.
  revert seen. induction l as [|a l IH]; intros seen Hnd Hlen; simpl.
  { split_and!; [done|by left| |by intros _ x [?|?%not_elem_of_nil]].
    destruct Hlen as [?| ->]; simpl; lia. }
  set (seen' := if bool_decide (a ∈ seen) then seen else seen ++ [a]).
  assert (Hs : NoDup seen' ∧ (∀ x, x ∈ seen' ↔ x ∈ seen ∨ x = a) ∧ length seen' ≤ Nat.max 1 limit).
  { unfold seen'. case_bool_decide as Ha; split_and!; [done|naive_solver| | | |].
    - destruct Hlen as [?| ->]; simpl; lia.
    - apply NoDup_app. split_and!; [done|by intros x Hx ->%list_elem_of_singleton|apply NoDup_singleton].
    - intros x. rewrite elem_of_app, list_elem_of_singleton. done.
    - rewrite length_app. simpl. destruct Hlen as [?| ->]; simpl; lia. }
  destruct Hs as (Hnd' & Hin & Hle). destruct (limit <=? length seen') eqn:Hl.
  - apply Nat.leb_le in Hl. split_and!; [done| |done|lia].
    intros x [?| ->]%Hin; [by left|right; left].
  - apply Nat.leb_gt in Hl. destruct (IH seen' Hnd' (or_introl Hl)) as (H1 & H2 & H3 & H4).
    split_and!; [done| |done|].
    + intros x [[?| ->]%Hin|?]%H2; [by left|right; left|right; by right].
    + intros Hlt x Hx. apply H4; [done|]. rewrite Hin.
      destruct Hx as [?|[->|?]%elem_of_cons]; tauto.
Qed.

Section Specification.
Context `{host : !Host}.

(** [c] is the scope [a] or an ancestor of it, [n] parents away. *)
Definition inherits (t : tables) : nat → string → string → Prop :=
  nsteps (λ a b, ∃ sc, sc ∈ t_scopes t ∧ sc_id sc = a ∧ sc_parent sc = Some b).

(** The object is the principal's own and not archived, or is shared into a
    scope the principal is a current member of or, up to twenty levels, into an
    ancestor of one. *)
Definition owns (t : tables) (principal : string) (type : option string) (object : string) : Prop :=
  ∃ o, o ∈ t_objects t ∧ so_id o = object ∧ owned_object principal type o = true.

Definition shared_at (t : tables) (now : Z) (principal object : string) (n : nat) (p : ScopeProjection)
  : Prop :=
  p ∈ t_projections t ∧ sp_object p = object ∧ sp_lifecycle p = ACTIVE ∧
  ∃ m, m ∈ t_members t ∧ sm_principal m = principal ∧ active_membership now m = true ∧
    inherits t n (sm_scope m) (sp_scope p).

Definition sees (t : tables) (now : Z) (principal : string) (type : option string) (object : string)
  : Prop :=
  owns t principal type object ∨
  ∃ n p, n ≤ max_levels ∧ shared_at t now principal object n p ∧ typed t type p.

Lemma parent_step_elem t a b :
  b ∈ parent_step t a ↔ ∃ sc, sc ∈ t_scopes t ∧ sc_id sc = a ∧ sc_parent sc = Some b.
Proof.
  unfold parent_step. rewrite list_elem_of_omap. setoid_rewrite list_elem_of_filter. naive_solver.
Qed.

Lemma visible_scopes_elem t now principal c k :
  (c, k) ∈ visible_scopes t now principal ↔
    k ≤ max_levels ∧ ∃ m, m ∈ t_members t ∧ sm_principal m = principal ∧
      active_membership now m = true ∧ inherits t k (sm_scope m) c.
Proof.
  unfold visible_scopes. rewrite levels_elem. unfold member_scopes. split.
  - intros (j & r0 & Hj & -> & Hr & Hs). simpl. split; [done|].
    apply list_elem_of_fmap in Hr as (m & -> & [[Hp Ha] Hm]%list_elem_of_filter).
    exists m. split_and!; [done..|]. unfold inherits. eapply nsteps_congruence with (f := id); [|exact Hs].
    intros a b Hb. by apply parent_step_elem.
  - intros (Hk & m & Hm & Hp & Ha & Hs). exists k, (sm_scope m). split_and!; [done|done| |].
    + apply list_elem_of_fmap. exists m. split; [done|]. by apply list_elem_of_filter.
    + eapply nsteps_congruence with (f := id); [|exact Hs]. intros a b Hb. by apply parent_step_elem.
Qed.

Lemma direct_shares_elem t now principal object p :
  p ∈ direct_shares t now principal object ↔ shared_at t now principal object 0 p.
Proof.
  unfold direct_shares, shared_at. rewrite list_elem_of_bind. unfold active_projection. split.
  - intros (x & Hx & [[Ho Ha] Hp]%list_elem_of_filter).
    apply list_elem_of_fmap in Hx as (m & -> & [(Hs & Hpr & Hm) Hin]%list_elem_of_filter).
    apply bool_decide_eq_true_1 in Ha. split_and!; [done..|]. exists m. split_and!; [done..|].
    rewrite Hs. constructor.
  - intros (Hp & Ho & Ha & m & Hm & Hpr & Hact & Hi). inversion Hi as [x Heq|]; subst.
    exists p. split.
    + apply list_elem_of_fmap. exists m. split; [done|]. apply list_elem_of_filter. done.
    + apply list_elem_of_filter. split; [split; [done|by apply bool_decide_eq_true_2]|done].
Qed.
End Specification.

(** ** Theorems *)

Section VisibilityTheory.
Context `{host : !Host}.

Lemma owned_ids_run principal type s :
  ∃ l, _owned_object_ids principal type s = (Ok l, s) ∧
    ∀ o, o ∈ l ↔ owns (st_db s) principal type o.
Proof.
  eexists. split; [reflexivity|]. intros o. rewrite list_elem_of_fmap. unfold owns.
  setoid_rewrite scan_perm. setoid_rewrite list_elem_of_filter. naive_solver.
Qed.

Lemma projected_ids_run principal type s :
  ∃ l, _projected_object_ids principal type s = (Ok l, s) ∧
    ∀ o, o ∈ l ↔ ∃ n p, n ≤ max_levels ∧
      shared_at (st_db s) (st_now s) principal o n p ∧ typed (st_db s) type p.
Proof.
  eexists. split; [reflexivity|]. intros o. cbv zeta. rewrite scan_perm, elem_of_remove_dups, list_elem_of_fmap.
  unfold shared_at. split.
  - intros (p & -> & [(Ha & Hs & Ht) Hp]%list_elem_of_filter).
    apply list_elem_of_fmap in Hs as ([c k] & Hc & Hk). simpl in Hc. subst c.
    apply visible_scopes_elem in Hk as (Hk & m & ?). apply bool_decide_eq_true_1 in Ha.
    exists k, p. split_and!; [done..| |done]. by exists m; split_and!; try apply H.
  - intros (n & p & Hn & (Hp & <- & Ha & m & Hm) & Ht). exists p. split; [done|].
    apply list_elem_of_filter. split; [|done]. split_and!; [by apply bool_decide_eq_true_2| |done].
    apply list_elem_of_fmap. exists (sp_scope p, n). split; [done|]. apply visible_scopes_elem.
    split; [done|]. by exists m.
Qed.

Lemma can_see_run principal object s :
  ∃ b, can_see principal object s = (Ok b, s) ∧
    (b = true ↔ sees (st_db s) (st_now s) principal None object).
Proof.
  set (own := λ o, bool_decide (so_id o = object) && owned_object principal None o).
  set (t := st_db s). set (now := st_now s).
  assert (Hown : ∀ o, own o = true ↔ so_id o = object ∧ owned_object principal None o = true)
    by (intros o; unfold own; by rewrite andb_true_iff, bool_decide_eq_true).
  assert (Hrow : fetch_one t_objects own s = (Ok (head (scan (filter (λ r, own r = true) (t_objects t)))), s))
    by reflexivity.
  pose proof (fetch_one_ok _ _ _ _ _ Hrow) as [_ Hf].
  unfold can_see. fold own. rewrite (run_bind_ok _ _ _ _ _ Hrow).
  destruct (head _) as [o|].
  { exists true. split; [done|]. split; [|done]. intros _. left. exists o. rewrite Hown in Hf. naive_solver. }
  assert (Hno : ¬ owns t principal None object).
  { intros (o & Ho & Hid & Hw). specialize (Hf o Ho). assert (own o = true) by by apply Hown. congruence. }
  rewrite (run_bind_ok now_utc _ s (st_now s) s) by done.
  rewrite (run_bind_ok (gets _) _ s (direct_shares t now principal object) s) by done.
  destruct (direct_shares t now principal object) as [|p l] eqn:Hd.
  - eexists. split; [reflexivity|]. cbv zeta. rewrite existsb_exists.
    setoid_rewrite <-list_elem_of_In. setoid_rewrite andb_true_iff. setoid_rewrite andb_true_iff.
    unfold active_projection. setoid_rewrite bool_decide_eq_true. split.
    + intros (p & Hp & (Ho & Ha) & Hs). right. apply list_elem_of_fmap in Hs as ([c k] & Hc & Hk).
      simpl in Hc. subst c. apply list_elem_of_filter in Hk as [_ Hk].
      apply visible_scopes_elem in Hk as (Hk & Hm). exists k, p. split_and!; [done| |done]. by split_and!.
    + intros [?|(n & p & Hn & Hsh & _)]; [done|]. destruct n as [|n].
      { apply direct_shares_elem in Hsh. rewrite Hd in Hsh. by apply not_elem_of_nil in Hsh. }
      destruct Hsh as (Hp & Ho & Ha & Hm). exists p. split_and!; [done..|].
      apply list_elem_of_fmap. exists (sp_scope p, S n). split; [done|]. apply list_elem_of_filter.
      split; [simpl; lia|]. by apply visible_scopes_elem.
  - exists true. split; [done|]. split; [|done]. intros _. right. exists 0, p.
    split_and!; [unfold max_levels; lia| |done]. apply direct_shares_elem. rewrite Hd. left.
Qed.


Lemma access_level_run principal object s : ∃ r, get_access_level principal object s = (Ok r, s).
Proof.
  unfold get_access_level, fetch_one, select, now_utc, gets, mbind, prog_bind, mret, prog_ret.
  destruct (head _); [by eexists|]. destruct (scan _); by eexists.
Qed.

Lemma max_level_spec l ls :
  max_level l ls ∈ l :: ls ∧ ∀ x, x ∈ l :: ls → level_priority x ≤ level_priority (max_level l ls).
Proof.
  revert l. induction ls as [|a ls IH]; intros l; simpl.
  - split; [left|]. by intros x ->%list_elem_of_singleton.
  - destruct (IH (if level_priority l <? level_priority a then a else l)) as [H1 H2].
    set (b := if level_priority l <? level_priority a then a else l) in *.
    assert (Hb : level_priority l ≤ level_priority b ∧ level_priority a ≤ level_priority b ∧ (b = l ∨ b = a)).
    { unfold b. destruct (level_priority l <? level_priority a) eqn:E;
        [apply Nat.ltb_lt in E|apply Nat.ltb_ge in E]; split_and!; auto; lia. }
    destruct Hb as (Hl & Ha & Hor). pose proof (H2 b ltac:(left)) as Hbm.
    unfold max_level in *. split.
    + apply elem_of_cons in H1 as [->|?]; [|by do 2 right]. destruct Hor as [->| ->]; [left|right; left].
    + intros x [->|[->|Hx]%elem_of_cons]%elem_of_cons; [lia|lia|]. apply H2. by right.
Qed.

(** The access level is the highest one: the owner of an object, archived or
    not, has ADMIN; anyone else has the greatest level under which the object is
    actively projected into a scope where they hold a current membership, and
    none at all when there is no such projection, even if can_see finds the
    object through an ancestor scope. *)
Theorem access_level_highest principal object s :
  ∃ r, get_access_level principal object s = (Ok r, s) ∧
    ((∃ o, o ∈ t_objects (st_db s) ∧ so_id o = object ∧ so_owner o = principal) → r = Some ADMIN_LEVEL) ∧
    ((∀ o, o ∈ t_objects (st_db s) → so_id o = object → so_owner o ≠ principal) →
      match r with
      | Some l =>
          (∃ p, shared_at (st_db s) (st_now s) principal object 0 p ∧ sp_level p = l) ∧
          ∀ p, shared_at (st_db s) (st_now s) principal object 0 p → level_priority (sp_level p) ≤ level_priority l
      | None => ∀ p, ¬ shared_at (st_db s) (st_now s) principal object 0 p
      end).
Proof.
  set (own := λ o, bool_decide (so_id o = object) && bool_decide (so_owner o = principal)).
  assert (Hown : ∀ o, own o = true ↔ so_id o = object ∧ so_owner o = principal)
    by (intros o; unfold own; by rewrite andb_true_iff, !bool_decide_eq_true).
  assert (Hrow : fetch_one t_objects own s =
    (Ok (head (scan (filter (λ r, own r = true) (t_objects (st_db s))))), s)) by reflexivity.
  pose proof (fetch_one_ok _ _ _ _ _ Hrow) as [_ Hf].
  unfold get_access_level. fold own. rewrite (run_bind_ok _ _ _ _ _ Hrow).
  destruct (head _) as [o|].
  { exists (Some ADMIN_LEVEL). split_and!; [done|done|]. intros Hno. rewrite Hown in Hf.
    destruct Hf as (Ho & Hid & Hw). by destruct (Hno o Ho Hid). }
  rewrite (run_bind_ok now_utc _ s (st_now s) s) by done.
  set (rows := scan (direct_shares (st_db s) (st_now s) principal object)).
  assert (Hrows : ∀ p, p ∈ rows ↔ shared_at (st_db s) (st_now s) principal object 0 p)
    by (intros p; unfold rows; by rewrite scan_perm, direct_shares_elem).
  rewrite (run_bind_ok (gets _) _ s rows s) by done.
  exists (match rows with [] => None | p :: ps => Some (max_level (sp_level p) (sp_level <$> ps)) end).
  split; [by destruct rows|]. split.
  { intros (o & Ho & Hid & Hw). assert (own o = true) as Ht by by apply Hown. by rewrite (Hf o Ho) in Ht. }
  intros _. destruct rows as [|p ps].
  - intros p Hp%Hrows. by apply not_elem_of_nil in Hp.
  - destruct (max_level_spec (sp_level p) (sp_level <$> ps)) as [Hin Hmax].
    rewrite <-fmap_cons in Hin, Hmax. split.
    + apply list_elem_of_fmap in Hin as (x & Hx & Hxin). exists x. split; [by apply Hrows|done].
    + intros x Hx%Hrows. apply Hmax. by apply list_elem_of_fmap_2.
Qed.
End VisibilityTheory.
