(* ===== verification/Objects.v ===== *)
(** * Legacy v1: versioned objects and their manager (objects/)

    Objects are envelopes; their data are versions that are only ever appended.
    The manager checks rules, limits and visibility, and writes an object and
    its version in one transaction.  [data] is a dict; the serialisation of
    registered types is not modelled. *)

From Stdlib Require Import Ascii.
From S2P Require Import Prelude LegacyTypes PyFloat Schema Json Trail Rules RuleClients Tenancy Visibility.

(** ** models.py, isolation.py, versioning.py *)

Definition object_active (o : ScopedObject) : bool := bool_decide (so_lifecycle o = ACTIVE).
Definition is_tombstoned (o : ScopedObject) : bool := bool_decide (so_lifecycle o = ARCHIVED).

Definition can_access (object_owner_id principal_id : string) : bool :=
  bool_decide (object_owner_id = principal_id).

(** The diff of two dicts: added, removed, changed with old and new value. *)
Record VersionDiff := {
  added : jdict; removed : jdict; changed : list (string * (jval * jval));
}.

Fixpoint jval_eqb (a b : jval) {struct a} : bool :=
  match a, b with
  | JVnull, JVnull => true
  | JVbool x, JVbool y => bool_decide (x = y)
  | JVint x, JVint y => bool_decide (x = y)
  | JVbool x, JVint y | JVint y, JVbool x => bool_decide (y = if x then 1%Z else 0%Z)
  | JVfloat x, JVfloat y => num_eqb (NFloat x) (NFloat y)
  | JVfloat x, JVint y | JVint y, JVfloat x => num_eqb (NFloat x) (NInt y)
  | JVfloat x, JVbool y | JVbool y, JVfloat x => num_eqb (NFloat x) (NInt (if y then 1 else 0))
  | JVstr x, JVstr y => bool_decide (x = y)
  | JVlist l, JVlist k =>
      (fix go l k := match l, k with
       | [], [] => true
       | x :: l', y :: k' => jval_eqb x y && go l' k'
       | _, _ => false
       end) l k
  | JVdict d, JVdict e =>
      (length d =? length e) &&
      (fix go d := match d with
       | [] => true
       | (k, x) :: d' => match jget e k with Some y => jval_eqb x y | None => false end && go d'
       end) d
  | _, _ => false
  end.

(** The keys of both dicts, each once; the set's own order is not modelled. *)
Definition all_keys (a b : jdict) : list string := a.*1 ++ filter (λ k, jget a k = None) b.*1.

Definition diff_versions (old new : ObjectVersion) : VersionDiff :=
  let a := ov_data old in
  let b := ov_data new in
  foldl (λ d k,
    match jget a k, jget b k with
    | None, Some y => {| added := added d ++ [(k, y)]; removed := removed d; changed := changed d |}
    | Some x, None => {| added := added d; removed := removed d ++ [(k, x)]; changed := changed d |}
    | Some x, Some y =>
        if jval_eqb x y then d
        else {| added := added d; removed := removed d; changed := changed d ++ [(k, (x, y))] |}
    | None, None => d
    end) {| added := []; removed := []; changed := [] |} (all_keys a b).

(** ** ScopedManager *)

(** What a manager was built with: a rule engine (and its cache's lifetime), the
    rules of its quota and rate-limit checkers, a visibility engine. *)
Record ScopedManager := {
  mg_rules : option (option Z); mg_quota : option (list Rule); mg_rate : option (list Rule);
  mg_visibility : bool;
}.

Section Manager.
Context `{host : !Host} `{sink : !AuditSink}.
Context (other_count : tables → string → list (string * string) → outcome nat).
(** The rows of the principals table, of the identity layer. *)
Context (known_principal : string → bool).

Definition object_snapshot (o : ScopedObject) : jdict := [
  ("id", JVstr (so_id o)); ("object_type", JVstr (so_type o)); ("owner_id", JVstr (so_owner o));
  ("current_version", JVint (Z.of_nat (so_version o)));
  ("created_at", JVstr (isoformat (so_created_at o)));
  ("lifecycle", JVstr (lifecycle_name (so_lifecycle o))); ("registry_entry_id", jopt (so_registry o))].

Definition object_version_snapshot (v : ObjectVersion) : jdict := [
  ("id", JVstr (ov_id v)); ("object_id", JVstr (ov_object v));
  ("version", JVint (Z.of_nat (ov_version v))); ("data", JVdict (ov_data v));
  ("created_at", JVstr (isoformat (ov_created_at v))); ("created_by", JVstr (ov_created_by v));
  ("change_reason", JVstr (ov_reason v)); ("checksum", JVstr (ov_checksum v))].

Definition compute_checksum (data : jdict) : string := hexdigest (json_dumps (JVdict data)).

Definition of_object (id : string) (o : ScopedObject) : bool := bool_decide (so_id o = id).

(** *** Checks *)

Definition _check_rules (mg : ScopedManager) (action principal : string) (type object : option string)
  : lp unit :=
  match mg_rules mg with
  | None => mret tt
  | Some ttl =>
      result ← evaluate ttl {| a_action := action; a_principal_id := Some principal;
        a_principal_kind := None; a_object_type := type; a_object_id := object; a_scope_id := None;
        a_environment_id := None |};
      let denies := deny_rules result in
      raise_if (negb (allowed result) && (negb (bool_decide (length denies = 0)) ||
                negb (bool_decide (length (matching_rules result) = 0))))
        (AccessDenied ("Action '" +:+ action +:+ "' denied by rule(s): " +:+
          py_repr (JVlist ((λ r, JVstr (rl_name r)) <$> denies))))
  end.

Definition _load_object (id : string) : lp (option ScopedObject) := fetch_one t_objects (of_object id).

(** [required_levels]: the levels that satisfy a requirement. *)
Definition suffices (required : AccessLevel) (level : option AccessLevel) : bool :=
  match level with Some l => level_priority required <=? level_priority l | None => false end.

Definition _check_access_level (mg : ScopedManager) (object principal : string) (required : AccessLevel)
  : lp unit :=
  if negb (mg_visibility mg) then mret tt
  else
    found ← _load_object object;
    match found with
    | None => mret tt
    | Some o =>
        if can_access (so_owner o) principal then mret tt
        else
          level ← get_access_level principal object;
          raise_if (negb (suffices required level))
            (AccessDenied ("Principal " +:+ principal +:+ " has " +:+
              from_option level_value "no" level +:+ " access on object " +:+ object +:+
              ", but " +:+ level_value required +:+ " is required"))
    end.

(** *** Persistence *)

Definition _persist_object_in_txn (o : ScopedObject) : lp unit :=
  raise_if (negb (known_principal (so_owner o))) (IntegrityError "scoped_objects.owner_id") ;;
  sql_insert t_objects set_objects (λ a b, bool_decide (so_id a = so_id b)) "scoped_objects.id" o.

Definition _persist_version_in_txn (v : ObjectVersion) : lp unit :=
  l ← gets (λ s, t_objects (st_db s));
  raise_if (negb (existsb (of_object (ov_object v)) l)) (IntegrityError "object_versions.object_id") ;;
  sql_insert t_object_versions set_object_versions
    (λ a b, bool_decide (ov_id a = ov_id b) ||
            (bool_decide (ov_object a = ov_object b) && (ov_version a =? ov_version b)))
    "object_versions" v.

Definition insert_tombstone (x : Tombstone) : lp unit :=
  l ← gets (λ s, t_objects (st_db s));
  raise_if (negb (existsb (of_object (tb_object x)) l)) (IntegrityError "tombstones.object_id") ;;
  sql_insert t_tombstones set_tombstones
    (λ a b, bool_decide (tb_id a = tb_id b) || bool_decide (tb_object a = tb_object b)) "tombstones" x.

(** *** Create *)

Definition rate_gate (mg : ScopedManager) (principal : string) (scope : option string) : lp unit :=
  match mg_rate mg with
  | None => mret tt
  | Some rules =>
      result ← rate_check rules "create" (Some principal) scope;
      match result with
      | Some q => raise_if (negb (rr_allowed q))
          (RateLimitExceeded ("Rate limit exceeded for create: " +:+ pretty (rr_current q) +:+ "/" +:+
            pretty (rr_max q)))
      | None => mret tt
      end
  end.

Definition quota_gate (mg : ScopedManager) (type : string) (scope : option string) : lp unit :=
  match mg_quota mg with
  | None => mret tt
  | Some rules => quota_check_or_raise other_count rules type scope
  end.

Definition new_object (id type owner : string) (ts : Z) (registry : option string) : ScopedObject := {|
  so_id := id; so_type := type; so_owner := owner; so_version := 1; so_created_at := ts;
  so_lifecycle := ACTIVE; so_registry := registry |}.

Definition new_version (id object : string) (n : nat) (data : jdict) (ts : Z) (by_ reason : string)
  : ObjectVersion := {|
  ov_id := id; ov_object := object; ov_version := n; ov_data := data; ov_created_at := ts;
  ov_created_by := by_; ov_reason := reason; ov_checksum := compute_checksum data |}.

Definition creation_request (owner : string) (o : ScopedObject) (v : ObjectVersion) : trace_request :=
  metadata_req [("after_version", JVint 1)]
    (states_req None (Some (ov_data v)) (request owner ActionType.CREATE (so_type o) (so_id o))).

Definition create_object (mg : ScopedManager) (type owner : string) (data : jdict)
  (registry : option string) (reason : string) (scope : option string)
  : lp (ScopedObject * ObjectVersion) :=
  _check_rules mg "create" owner (Some type) None ;;
  rate_gate mg owner scope ;;
  ts ← now_utc;
  obj_id ← generate_id;
  ver_id ← generate_id;
  let obj := new_object obj_id type owner ts registry in
  let ver := new_version ver_id obj_id 1 data ts owner reason in
  transaction (
    quota_gate mg type scope ;;
    _persist_object_in_txn obj ;;
    _persist_version_in_txn ver) ;;
  audit (creation_request owner obj ver) ;;
  mret (obj, ver).

(** An item of [create_many]: the type, the data and the reason, if given. *)
Definition create_item (owner : string) (ts : Z) (acc : list (ScopedObject * ObjectVersion))
  (item : string * jdict * option string) : lp (list (ScopedObject * ObjectVersion)) :=
  let '(type, data, reason) := item in
  obj_id ← generate_id;
  ver_id ← generate_id;
  let obj := new_object obj_id type owner ts None in
  let ver := new_version ver_id obj_id 1 data ts owner (default "created" reason) in
  _persist_object_in_txn obj ;;
  _persist_version_in_txn ver ;;
  mret (acc ++ [(obj, ver)]).

Definition create_many (items : list (string * jdict * option string)) (owner : string)
  : lp (list (ScopedObject * ObjectVersion)) :=
  ts ← now_utc;
  results ← transaction (for_fold items [] (create_item owner ts));
  audit_batch ((λ x, creation_request owner x.1 x.2) <$> results) ;;
  mret results.

(** *** Read *)

Definition get_object (mg : ScopedManager) (id principal : string) : lp (option ScopedObject) :=
  found ← _load_object id;
  match found with
  | None => mret None
  | Some o =>
      if can_access (so_owner o) principal then mret (Some o)
      else if mg_visibility mg
      then seen ← can_see principal id; mret (if (seen : bool) then Some o else None)
      else mret None
  end.

Definition get_or_raise (mg : ScopedManager) (id principal : string) : lp ScopedObject :=
  found ← _load_object id;
  match found with
  | None => raise (AccessDenied ("Object " +:+ id +:+ " not found or access denied"))
  | Some o =>
      let denied := AccessDenied ("Principal " +:+ principal +:+ " cannot access object " +:+ id) in
      if can_access (so_owner o) principal then mret o
      else if mg_visibility mg
      then seen ← can_see principal id; if (seen : bool) then mret o else raise denied
      else raise denied
  end.

Definition visible_limit : nat := 10 * 1000.

(** [_visibility_filtered_select]: the WHERE clause. *)
Definition visibility_clause (mg : ScopedManager) (principal : string) (type : option string)
  : lp (ScopedObject → bool) :=
  if negb (mg_visibility mg)
  then mret (λ o, bool_decide (so_owner o = principal) && filter_opt type (so_type o))
  else
    ids ← visible_object_ids principal type visible_limit;
    mret (match ids with
          | [] => λ _, false
          | _ => λ o, bool_decide (so_id o ∈ ids) && filter_opt type (so_type o)
          end).

Definition live_clause (include_tombstoned : bool) (o : ScopedObject) : bool :=
  include_tombstoned || negb (bool_decide (so_lifecycle o = ARCHIVED)).

(** [order_by]: descending after a dash, by creation unless by type. *)
Fixpoint lstrip_dash (s : string) : string :=
  match s with String "-" s' => lstrip_dash s' | _ => s end.

Definition starts_dash (s : string) : bool := match s with String "-" _ => true | _ => false end.

Definition object_order (order_by : string) (a b : ScopedObject) : bool :=
  let '(x, y) := if starts_dash order_by then (b, a) else (a, b) in
  if bool_decide (lstrip_dash order_by = "object_type") then String.leb (so_type x) (so_type y)
  else (so_created_at x <=? so_created_at y)%Z.

Definition list_objects (mg : ScopedManager) (principal : string) (type : option string)
  (include_tombstoned : bool) (order_by : string) (limit offset : nat) : lp (list ScopedObject) :=
  p ← visibility_clause mg principal type;
  l ← select_sorted t_objects (λ o, p o && live_clause include_tombstoned o) (object_order order_by);
  mret (take limit (drop offset l)).

Definition count_objects (mg : ScopedManager) (principal : string) (type : option string)
  (include_tombstoned : bool) : lp nat :=
  p ← visibility_clause mg principal type;
  select_count t_objects (λ o, p o && live_clause include_tombstoned o).

(** *** Versions *)

Definition get_version (id : string) (n : nat) : lp (option ObjectVersion) :=
  fetch_one t_object_versions (λ v, bool_decide (ov_object v = id) && (ov_version v =? n)).

Definition get_current_version (mg : ScopedManager) (id principal : string) : lp (option ObjectVersion) :=
  found ← get_object mg id principal;
  match found with None => mret None | Some o => get_version id (so_version o) end.

Definition by_object_version (a b : ObjectVersion) : bool := ov_version a <=? ov_version b.

(** LIMIT and OFFSET apply together, or not at all. *)
Definition list_versions (mg : ScopedManager) (id principal : string) (limit : option nat) (offset : nat)
  : lp (list ObjectVersion) :=
  found ← get_object mg id principal;
  match found with
  | None => mret []
  | Some _ =>
      l ← select_sorted t_object_versions (λ v, bool_decide (ov_object v = id)) by_object_version;
      mret (match limit with None => l | Some n => take n (drop offset l) end)
  end.

Definition diff (mg : ScopedManager) (id : string) (version_a version_b : nat) (principal : string)
  : lp (option VersionDiff) :=
  found ← get_object mg id principal;
  match found with
  | None => mret None
  | Some _ =>
      va ← get_version id version_a;
      vb ← get_version id version_b;
      mret (match va, vb with Some a, Some b => Some (diff_versions a b) | _, _ => None end)
  end.

Definition get_tombstone (id : string) : lp (option Tombstone) :=
  fetch_one t_tombstones (λ x, bool_decide (tb_object x = id)).

(** *** Update and tombstone *)

Definition with_version (n : nat) (o : ScopedObject) : ScopedObject := {|
  so_id := so_id o; so_type := so_type o; so_owner := so_owner o; so_version := n;
  so_created_at := so_created_at o; so_lifecycle := so_lifecycle o; so_registry := so_registry o |}.

Definition archived_object (o : ScopedObject) : ScopedObject := {|
  so_id := so_id o; so_type := so_type o; so_owner := so_owner o; so_version := so_version o;
  so_created_at := so_created_at o; so_lifecycle := ARCHIVED; so_registry := so_registry o |}.

Definition update_object (mg : ScopedManager) (id principal : string) (data : jdict) (reason : string)
  : lp (ScopedObject * ObjectVersion) :=
  obj ← get_or_raise mg id principal;
  _check_access_level mg id principal WRITE_LEVEL ;;
  _check_rules mg "update" principal (Some (so_type obj)) (Some id) ;;
  raise_if (is_tombstoned obj) (IsolationViolation ("Cannot update tombstoned object " +:+ id)) ;;
  prev ← get_version id (so_version obj);
  ts ← now_utc;
  let n := S (so_version obj) in
  ver_id ← generate_id;
  let ver := new_version ver_id id n data ts principal reason in
  transaction (
    _persist_version_in_txn ver ;;
    sql_update t_objects set_objects (of_object id) (with_version n)) ;;
  audit (metadata_req [("before_version", JVint (Z.of_nat (so_version obj)));
                       ("after_version", JVint (Z.of_nat n))]
    (states_req (ov_data <$> prev) (Some data) (request principal ActionType.UPDATE (so_type obj) id))) ;;
  mret (with_version n obj, ver).

Definition tombstone_object (mg : ScopedManager) (id principal reason : string) : lp Tombstone :=
  obj ← get_or_raise mg id principal;
  _check_access_level mg id principal ADMIN_LEVEL ;;
  _check_rules mg "delete" principal (Some (so_type obj)) (Some id) ;;
  raise_if (is_tombstoned obj) (IsolationViolation ("Object " +:+ id +:+ " is already tombstoned")) ;;
  ts ← now_utc;
  tomb_id ← generate_id;
  let tomb := {| tb_id := tomb_id; tb_object := id; tb_at := ts; tb_by := principal; tb_reason := reason |} in
  cur ← get_version id (so_version obj);
  transaction (
    sql_update t_objects set_objects (of_object id) archived_object ;;
    insert_tombstone tomb) ;;
  audit (metadata_req [("before_version", JVint (Z.of_nat (so_version obj)))]
    (states_req (ov_data <$> cur) None (request principal ActionType.DELETE (so_type obj) id))) ;;
  mret tomb.
End Manager.

(** ** The invariant *)

Definition object_tables (t : tables) := (t_objects t, t_object_versions t, t_tombstones t).

Definition versions_of_object (t : tables) (id : string) : list ObjectVersion :=
  filter (λ v, ov_object v = id) (t_object_versions t).

Section Invariant.
Context `{host : !Host}.

Record objects_ok (t : tables) : Prop := {
  ok_ids : NoDup (so_id <$> t_objects t);
  ok_versions : ∀ o, o ∈ t_objects t → ov_version <$> versions_of_object t (so_id o) = seq 1 (so_version o);
  ok_owner : ∀ v, v ∈ t_object_versions t → ov_object v ∈ so_id <$> t_objects t;
  ok_checksum : ∀ v, v ∈ t_object_versions t → ov_checksum v = compute_checksum (ov_data v);
  ok_tombs : NoDup (tb_object <$> t_tombstones t);
  ok_dead : ∀ o, o ∈ t_objects t → so_lifecycle o = ARCHIVED ↔ so_id o ∈ tb_object <$> t_tombstones t;
  ok_tomb_owner : ∀ x, x ∈ tb_object <$> t_tombstones t → x ∈ so_id <$> t_objects t;
}.

(** [o'] is [o] some operations later. *)
Definition later_object (o o' : ScopedObject) : Prop :=
  so_id o' = so_id o ∧ so_type o' = so_type o ∧ so_owner o' = so_owner o ∧
  so_created_at o' = so_created_at o ∧ so_registry o' = so_registry o ∧ so_version o ≤ so_version o' ∧
  (so_lifecycle o = ARCHIVED → o' = o).

#[export] Instance later_object_preorder : PreOrder later_object.
Proof.
  split; [by intros o; split_and!|]. intros a b c (?&?&?&?&?&?&Hab) (?&?&?&?&?&?&Hbc).
  split_and!; try congruence; [lia|]. intros Ha. specialize (Hab Ha). subst. by apply Hbc.
Qed.

(** Versions and tombstones are only appended, objects keep who they are and
    an archived one does not change. *)
Record evolves (t t' : tables) : Prop := {
  ev_versions : t_object_versions t `prefix_of` t_object_versions t';
  ev_tombs : t_tombstones t `prefix_of` t_tombstones t';
  ev_objects : ∀ o, o ∈ t_objects t → ∃ o', o' ∈ t_objects t' ∧ later_object o o';
}.

#[export] Instance evolves_preorder : PreOrder evolves.
Proof.
  split.
  - intros t. split; [done|done|]. intros o Ho. by exists o.
  - intros a b c [H1 H2 H3] [H4 H5 H6]. split; [by etrans|by etrans|].
    intros o (o1 & Ho1 & Hl1)%H3. destruct (H6 o1 Ho1) as (o2 & Ho2 & Hl2). exists o2. split; [done|]. by etrans.
Qed.

Abbreviation okeeps := (keeps objects_ok evolves).

Lemma same_objects t t' :
  object_tables t' = object_tables t → objects_ok t → objects_ok t' ∧ evolves t t'.
Proof.
  intros [= H1 H2 H3] [A1 A2 A3 A4 A5 A6 A7]. split.
  - split; unfold versions_of_object in *; rewrite ?H1, ?H2, ?H3; done.
  - split; rewrite ?H1, ?H2, ?H3; [done|done|]. intros o Ho. by exists o.
Qed.

Lemma off_trail_objects s s' : off_trail s s' → object_tables (st_db s') = object_tables (st_db s).
Proof. intros [H _]. injection H as. unfold object_tables. congruence. Qed.

Lemma off_trail_rows s s' : off_trail s s' → t_objects (st_db s') = t_objects (st_db s).
Proof. intros H%off_trail_objects. by injection H. Qed.

Lemma okeeps_off_trail {R} (m : lp R) s : respects off_trail m → okeeps m s.
Proof. intros Hm Hok. apply same_objects; [|done]. apply off_trail_objects, Hm. Qed.

Lemma okeeps_txn {R} (m : lp R) s :
  (∀ a s', m s = (Ok a, s') → objects_ok (st_db s) → objects_ok (st_db s') ∧ evolves (st_db s) (st_db s')) →
  okeeps (transaction m) s.
Proof.
  intros H Hok. unfold transaction. destruct (m s) as [[a|e] s'] eqn:Hm; simpl; [by eapply H|done].
Qed.

Lemma objects_keyed t o o' :
  objects_ok t → o ∈ t_objects t → o' ∈ t_objects t → so_id o = so_id o' → o = o'.
Proof.
  intros [Hnd _ _ _ _ _ _]. revert Hnd. generalize (t_objects t). intros l.
  induction l as [|x l IH]; [by intros _ ?%elem_of_nil|]. rewrite fmap_cons, NoDup_cons.
  intros [Hx Hnd] [->|Ho]%elem_of_cons [->|Ho']%elem_of_cons Heq; [done| | |by apply IH].
  - destruct Hx. rewrite Heq. by apply list_elem_of_fmap_2.
  - destruct Hx. rewrite <-Heq. by apply list_elem_of_fmap_2.
Qed.

(** A new object with its first version. *)
Lemma objects_ok_create t o v :
  objects_ok t → so_id o ∉ so_id <$> t_objects t → so_version o = 1 → so_lifecycle o = ACTIVE →
  ov_object v = so_id o → ov_version v = 1 → ov_checksum v = compute_checksum (ov_data v) →
  let t' := set_object_versions (t_object_versions t ++ [v]) (set_objects (t_objects t ++ [o]) t) in
  objects_ok t' ∧ evolves t t'.
Proof.
  intros Hok Hnew Hv1 Hact Hov Hv Hsum t'. destruct Hok as [A1 A2 A3 A4 A5 A6 A7].
  assert (Hnone : versions_of_object t (so_id o) = []).
  { apply filter_nil_iff. intros x Hx Heq. apply Hnew. rewrite <-Heq. by apply A3. }
  split; [split|split]; simpl.
  - rewrite fmap_app. apply NoDup_app. split_and!; [done| |apply NoDup_singleton].
    intros x Hx ->%list_elem_of_singleton. done.
  - intros x. unfold versions_of_object in *. simpl. rewrite elem_of_app, filter_app, fmap_app.
    intros [Hx| ->%list_elem_of_singleton].
    + rewrite A2, filter_cons, decide_False, app_nil_r; [done| |done]. intros Heq. apply Hnew.
      rewrite <-Hov, Heq. by apply list_elem_of_fmap_2.
    + by rewrite Hnone, filter_cons, decide_True, Hv1; simpl; rewrite ?Hv.
  - intros x. rewrite elem_of_app, list_elem_of_singleton, fmap_app, elem_of_app.
    intros [Hx| ->]; [left; by apply A3|right]. rewrite Hov. left.
  - intros x. rewrite elem_of_app, list_elem_of_singleton. intros [Hx| ->]; auto.
  - done.
  - intros x. rewrite elem_of_app, list_elem_of_singleton. intros [Hx| ->]; [by apply A6|].
    rewrite Hact. split; [done|]. intros Hin. by apply A7 in Hin.
  - intros x Hx. rewrite fmap_app, elem_of_app. left. by apply A7.
  - by apply prefix_app_r.
  - done.
  - intros x Hx. exists x. split; [|done]. apply elem_of_app. by left.
Qed.

(** The rows of an UPDATE of one object. *)
Definition updated_objects (id : string) (f : ScopedObject → ScopedObject) (l : list ScopedObject) :=
  (λ r, if of_object id r then f r else r) <$> l.

Lemma updated_ids id f l : (∀ r, so_id (f r) = so_id r) → so_id <$> updated_objects id f l = so_id <$> l.
Proof.
  intros Hf. unfold updated_objects. rewrite <-list_fmap_compose. apply list_fmap_ext. intros _ r _. simpl.
  by destruct (of_object id r).
Qed.

Lemma updated_elem id f l x :
  x ∈ updated_objects id f l ↔
    (∃ r, r ∈ l ∧ so_id r = id ∧ x = f r) ∨ x ∈ l ∧ so_id x ≠ id.
Proof.
  unfold updated_objects, of_object. rewrite list_elem_of_fmap. split.
  - intros (r & -> & Hr). case_bool_decide; [left; by exists r|by right].
  - intros [(r & Hr & Hid & ->)|[Hx Hne]]; [exists r; by rewrite bool_decide_eq_true_2|].
    exists x. by rewrite bool_decide_eq_false_2.
Qed.

(** The next version of a live object. *)
Lemma objects_ok_update t o v :
  objects_ok t → o ∈ t_objects t → so_lifecycle o ≠ ARCHIVED →
  ov_object v = so_id o → ov_version v = S (so_version o) → ov_checksum v = compute_checksum (ov_data v) →
  let t' := set_objects (updated_objects (so_id o) (with_version (S (so_version o))) (t_objects t))
              (set_object_versions (t_object_versions t ++ [v]) t) in
  objects_ok t' ∧ evolves t t'.
Proof.
  intros Hok Ho Hlive Hov Hv Hsum t'. pose proof (objects_keyed t) as Hkey.
  pose proof Hok as [A1 A2 A3 A4 A5 A6 A7].
  split; [split|split]; simpl.
  - by rewrite updated_ids.
  - intros x Hx. unfold versions_of_object in *. simpl. rewrite filter_app, fmap_app.
    apply updated_elem in Hx as [(r & Hr & Hid & ->)|[Hx Hne]].
    + assert (r = o) as -> by by apply (Hkey r o). simpl. rewrite A2, filter_cons, decide_True by done.
      change (ov_version <$> v :: filter (λ v, ov_object v = so_id o) []) with [ov_version v].
      rewrite Hv. change (1 :: seq 2 (so_version o)) with (seq 1 (S (so_version o))). by rewrite seq_S.
    + rewrite A2, filter_cons, decide_False, app_nil_r; [done|congruence|done].
  - intros x. rewrite elem_of_app, list_elem_of_singleton, updated_ids by done.
    intros [Hx| ->]; [by apply A3|]. rewrite Hov. by apply list_elem_of_fmap_2.
  - intros x. rewrite elem_of_app, list_elem_of_singleton. intros [Hx| ->]; auto.
  - done.
  - intros x Hx. apply updated_elem in Hx as [(r & Hr & Hid & ->)|[Hx Hne]]; [exact (A6 r Hr)|exact (A6 x Hx)].
  - intros x Hx. rewrite updated_ids by done. by apply A7.
  - by apply prefix_app_r.
  - done.
  - intros x Hx. destruct (decide (so_id x = so_id o)) as [Heq|Hne].
    + assert (x = o) as -> by by apply (Hkey x o). exists (with_version (S (so_version o)) o).
      split; [apply updated_elem; left; by exists o|]. unfold later_object. simpl. split_and!; try done. lia.
    + exists x. split; [|done]. apply updated_elem. by right.
Qed.

Lemma objects_ok_tombstone t o x :
  objects_ok t → o ∈ t_objects t → tb_object x = so_id o → so_id o ∉ tb_object <$> t_tombstones t →
  let t' := set_tombstones (t_tombstones t ++ [x])
              (set_objects (updated_objects (so_id o) archived_object (t_objects t)) t) in
  objects_ok t' ∧ evolves t t'.
Proof.
  intros Hok Ho Hx Hno t'. pose proof (objects_keyed t) as Hkey. pose proof Hok as [A1 A2 A3 A4 A5 A6 A7].
  split; [split|split]; simpl.
  - by rewrite updated_ids.
  - intros y Hy. apply updated_elem in Hy as [(r & Hr & Hid & ->)|[Hy Hne]]; [exact (A2 r Hr)|exact (A2 y Hy)].
  - intros y Hy. rewrite updated_ids by done. by apply A3.
  - done.
  - rewrite fmap_app. apply NoDup_app. split_and!; [done| |apply NoDup_singleton].
    intros y Hy ->%list_elem_of_singleton. by rewrite Hx in Hy.
  - intros y Hy. rewrite fmap_app, elem_of_app. change (tb_object <$> [x]) with [tb_object x].
    rewrite list_elem_of_singleton, Hx.
    apply updated_elem in Hy as [(r & Hr & Hid & ->)|[Hy Hne]]; simpl.
    + split; [|done]. intros _. by right.
    + rewrite (A6 y Hy). naive_solver.
  - intros y. rewrite updated_ids, fmap_app, elem_of_app by done.
    change (tb_object <$> [x]) with [tb_object x]. rewrite list_elem_of_singleton.
    intros [?| ->]; [by apply A7|]. rewrite Hx. by apply list_elem_of_fmap_2.
  - done.
  - by apply prefix_app_r.
  - intros y Hy. destruct (decide (so_id y = so_id o)) as [Heq|Hne].
    + assert (y = o) as -> by by apply (Hkey y o). exists (archived_object o).
      split; [apply updated_elem; left; by exists o|]. unfold later_object. simpl. split_and!; try done.
      intros Har. destruct o; simpl in *. by rewrite Har.
    + exists y. split; [|done]. apply updated_elem. by right.
Qed.
End Invariant.

(** ** The operations, step by step *)

Section Operations.
Context `{host : !Host} `{sink : !AuditSink}.
Context (other_count : tables → string → list (string * string) → outcome nat).
Context (known_principal : string → bool).

Abbreviation okeeps := (keeps objects_ok evolves).

Lemma check_rules_off_trail mg action principal type object :
  respects off_trail (_check_rules mg action principal type object).
Proof.
  unfold _check_rules. destruct (mg_rules mg) as [ttl|]; [|respects_step].
  respects_step; [apply evaluate_off_trail|respects_step].
Qed.

Lemma get_access_level_off_trail principal object : respects off_trail (get_access_level principal object).
Proof. unfold get_access_level, fetch_one, select, now_utc. repeat respects_step. Qed.

Lemma check_access_level_ok mg object principal required s u s' :
  _check_access_level mg object principal required s = (Ok u, s') →
  s' = s ∧ (mg_visibility mg = true → ∀ o, o ∈ t_objects (st_db s) → so_id o = object →
    (∀ x, x ∈ t_objects (st_db s) → so_id x = object → x = o) → so_owner o ≠ principal →
    ∃ l, get_access_level principal object s = (Ok (Some l), s) ∧ level_priority required ≤ level_priority l).
Proof.
  unfold _check_access_level. destruct (mg_visibility mg); simpl; [|intros [_ ->]%mret_ok; done].
  intros H. repeat run_stmt. apply fetch_one_ok in Hrun as [-> Hf]. destruct x as [o|].
  - destruct Hf as [Ho Hid]. unfold of_object in Hid. apply bool_decide_eq_true_1 in Hid.
    unfold can_access in H. case_bool_decide as Hown.
    + apply mret_ok in H as [_ ->]. split; [done|]. intros _ o' Ho' Hid' Huniq Hne.
      by rewrite (Huniq o Ho Hid) in Hown.
    + destruct (access_level_run principal object s) as [r Hr]. rewrite (run_bind_ok _ _ _ _ _ Hr) in H.
      destruct u. apply raise_if_ok in H as [Hs%negb_false_iff ->]. split; [done|]. intros _ _ _ _ _ _.
      destruct r as [l|]; [|done]. exists l. split; [done|]. by apply Nat.leb_le in Hs.
  - apply mret_ok in H as [_ ->]. split; [done|]. intros _ o Ho Hid. specialize (Hf o Ho).
    unfold of_object in Hf. apply bool_decide_eq_false_1 in Hf. done.
Qed.

Lemma check_access_level_off_trail mg object principal required :
  respects off_trail (_check_access_level mg object principal required).
Proof.
  unfold _check_access_level, _load_object, fetch_one, select.
  repeat (respects_step || apply get_access_level_off_trail).
Qed.

Lemma can_see_off_trail principal object : respects off_trail (can_see principal object).
Proof. unfold can_see, _visible_via_hierarchy, fetch_one, select, now_utc. repeat respects_step. Qed.

Lemma get_or_raise_off_trail mg id principal : respects off_trail (get_or_raise mg id principal).
Proof.
  unfold get_or_raise, _load_object, fetch_one, select. repeat (respects_step || apply can_see_off_trail).
Qed.

(** What the principal may read. *)
Definition readable (mg : ScopedManager) (t : tables) (now : Z) (principal : string) (o : ScopedObject) : Prop :=
  so_owner o = principal ∨ mg_visibility mg = true ∧ sees t now principal None (so_id o).

Lemma get_or_raise_ok mg id principal s o s' :
  get_or_raise mg id principal s = (Ok o, s') →
  s' = s ∧ o ∈ t_objects (st_db s) ∧ so_id o = id ∧ readable mg (st_db s) (st_now s) principal o.
Proof.
  unfold get_or_raise. intros H. repeat run_stmt. apply fetch_one_ok in Hrun as [-> Hf].
  destruct x as [x|]; [|done]. destruct Hf as [Hx Hid]. unfold of_object in Hid.
  apply bool_decide_eq_true_1 in Hid. unfold can_access in H. case_bool_decide as Hown.
  { apply mret_ok in H as [-> ->]. split_and!; [done..|]. by left. }
  destruct (mg_visibility mg) eqn:Hv; [|done].
  destruct (can_see_run principal id s) as (b & Hb & Hsees). rewrite (run_bind_ok _ _ _ _ _ Hb) in H.
  destruct b; [|done]. apply mret_ok in H as [-> ->]. split_and!; [done..|]. right. split; [done|].
  rewrite Hid. by apply Hsees.
Qed.

Lemma get_version_ok id n s r s' :
  get_version id n s = (Ok r, s') →
  s' = s ∧ match r with
           | Some v => v ∈ t_object_versions (st_db s) ∧ ov_object v = id ∧ ov_version v = n
           | None => ∀ v, v ∈ t_object_versions (st_db s) → ov_object v = id → ov_version v ≠ n
           end.
Proof.
  unfold get_version. intros [-> H]%fetch_one_ok. split; [done|]. destruct r as [v|].
  - destruct H as [Hv [Hid Hn]%andb_true_iff]. apply bool_decide_eq_true_1 in Hid. apply Nat.eqb_eq in Hn. done.
  - intros v Hv Hid Hn. specialize (H v Hv). rewrite bool_decide_eq_true_2, Hn, Nat.eqb_refl in H by done. done.
Qed.

Lemma persist_pair_ok o v s u s' :
  (mbind (λ _, _persist_version_in_txn v) (_persist_object_in_txn known_principal o)) s = (Ok u, s') →
  ¬ (so_id o ∈ so_id <$> t_objects (st_db s)) ∧ known_principal (so_owner o) = true ∧
  s' = put_db (set_object_versions (t_object_versions (st_db s) ++ [v])
         (set_objects (t_objects (st_db s) ++ [o]) (st_db s))) s.
Proof.
  unfold _persist_object_in_txn, _persist_version_in_txn. intros H. repeat run_stmt.
  repeat match goal with H : negb _ = false |- _ => apply negb_false_iff in H end.
  split_and!; [|done|done].
  intros (y & Hy & Hyin)%list_elem_of_fmap.
  match goal with Hc : ∀ x, x ∈ t_objects _ → _ = false |- _ => specialize (Hc y Hyin);
    apply bool_decide_eq_false_1 in Hc; by destruct Hc end.
Qed.

Lemma okeeps_quota_gate mg type scope s u s' :
  quota_gate other_count mg type scope s = (Ok u, s') →
  s' = s ∧ ∀ rules, mg_quota mg = Some rules → quota_room other_count rules type scope s.
Proof.
  unfold quota_gate. destruct (mg_quota mg) as [rules|].
  - intros [-> Hq]%quota_check_or_raise_ok. split; [done|]. by intros ? [= <-].
  - intros [_ ->]%mret_ok. done.
Qed.

Lemma rate_gate_run mg principal scope s : (rate_gate mg principal scope s).2 = s.
Proof.
  unfold rate_gate. destruct (mg_rate mg) as [rules|]; [|done]. rewrite run_bind. unfold rate_check.
  destruct (rate_check_rules_run (of_type RT_RATE_LIMIT rules) "create" (Some principal) scope s) as (o & -> & _).
  destruct o as [[q|]|e]; [|done|done]. by destruct (negb (rr_allowed q)).
Qed.

Lemma rate_gate_off_trail mg principal scope : respects off_trail (rate_gate mg principal scope).
Proof. intros s. by rewrite rate_gate_run. Qed.

Lemma new_id_off_trail : respects off_trail generate_id.
Proof. by intros s. Qed.

Lemma now_off_trail : respects off_trail now_utc.
Proof. by intros s. Qed.

Lemma new_pair_keeps oid type owner ts registry vid data reason s u s' :
  let o := new_object oid type owner ts registry in
  let v := new_version vid oid 1 data ts owner reason in
  (mbind (λ _, _persist_version_in_txn v) (_persist_object_in_txn known_principal o)) s = (Ok u, s') →
  objects_ok (st_db s) → objects_ok (st_db s') ∧ evolves (st_db s) (st_db s').
Proof. intros o v (Hnew & _ & ->)%persist_pair_ok Hok. by apply objects_ok_create. Qed.

Lemma create_object_keeps mg type owner data registry reason scope s :
  okeeps (create_object other_count known_principal mg type owner data registry reason scope) s.
Proof.
  unfold create_object.
  apply keeps_bind; [exact _|apply okeeps_off_trail, check_rules_off_trail|intros _ s1 _].
  apply keeps_bind; [exact _|apply okeeps_off_trail, rate_gate_off_trail|intros _ s2 _].
  apply keeps_bind; [exact _|apply okeeps_off_trail, now_off_trail|intros ts s3 _].
  apply keeps_bind; [exact _|apply okeeps_off_trail, new_id_off_trail|intros oid s4 _].
  apply keeps_bind; [exact _|apply okeeps_off_trail, new_id_off_trail|intros vid s5 _]. cbv zeta.
  apply keeps_bind; [exact _| |intros _ s6 _].
  - apply okeeps_txn. intros [] s6 H. apply bind_ok_inv in H as (? & s7 & [-> _]%okeeps_quota_gate & H).
    by eapply new_pair_keeps.
  - apply keeps_bind; [exact _|apply okeeps_off_trail, audit_off_trail|intros _ s7 _].
    apply keeps_same; [exact _|done].
Qed.

Lemma create_item_ok owner ts acc item s r s' :
  create_item known_principal owner ts acc item s = (Ok r, s') →
  objects_ok (st_db s) → objects_ok (st_db s') ∧ evolves (st_db s) (st_db s').
Proof.
  destruct item as [[type data] reason]. unfold create_item. intros H Hok.
  apply bind_ok_inv in H as (oid & s1 & [-> ->]%generate_id_ok & H).
  apply bind_ok_inv in H as (vid & s1 & [-> ->]%generate_id_ok & H). cbv zeta in H.
  apply bind_ok_inv in H as (u & s1 & H1 & H). apply bind_ok_inv in H as (u' & s2 & H2 & H).
  apply mret_ok in H as [_ ->].
  assert (Hpair := new_pair_keeps _ _ _ _ _ _ _ _ _ u' s2 ltac:(rewrite run_bind, H1; exact H2)). by apply Hpair.
Qed.

Lemma create_items_ok owner ts items acc s r s' :
  for_fold items acc (create_item known_principal owner ts) s = (Ok r, s') →
  objects_ok (st_db s) → objects_ok (st_db s') ∧ evolves (st_db s) (st_db s').
Proof.
  revert acc s. induction items as [|item items IH]; intros acc s; simpl.
  { intros [_ ->]%mret_ok Hok. done. }
  intros H Hok. apply bind_ok_inv in H as (acc' & s1 & H1 & H).
  apply create_item_ok in H1 as [Hok1 He1]; [|done]. apply IH in H as [Hok2 He2]; [|done].
  split; [done|]. by etrans.
Qed.

Lemma create_many_keeps items owner s : okeeps (create_many known_principal items owner) s.
Proof.
  unfold create_many. apply keeps_bind; [exact _|apply okeeps_off_trail, now_off_trail|intros ts s1 _].
  apply keeps_bind; [exact _|apply okeeps_txn; intros; by eapply create_items_ok|intros l s2 _].
  apply keeps_bind; [exact _|apply okeeps_off_trail, audit_batch_off_trail|intros _ s3 _]. apply keeps_same; [exact _|done].
Qed.

(** The transaction of an update, on the object that was read before. *)
Lemma update_txn_ok id v n s u s' :
  transaction (mbind (λ _, sql_update t_objects set_objects (of_object id) (with_version n))
    (_persist_version_in_txn v)) s = (Ok u, s') →
  s' = put_db (set_objects (updated_objects id (with_version n) (t_objects (st_db s)))
         (set_object_versions (t_object_versions (st_db s) ++ [v]) (st_db s))) s.
Proof.
  intros Hrun%transaction_ok. unfold _persist_version_in_txn in Hrun. repeat run_stmt. done.
Qed.

Lemma tombstone_txn_ok id x s u s' :
  transaction (mbind (λ _, insert_tombstone x) (sql_update t_objects set_objects (of_object id) archived_object)) s
    = (Ok u, s') →
  ¬ (tb_object x ∈ tb_object <$> t_tombstones (st_db s)) ∧
  s' = put_db (set_tombstones (t_tombstones (st_db s) ++ [x])
         (set_objects (updated_objects id archived_object (t_objects (st_db s))) (st_db s))) s.
Proof.
  intros Hrun%transaction_ok. unfold insert_tombstone in Hrun. repeat run_stmt. split; [|done].
  intros (y & Hy & Hyin)%list_elem_of_fmap.
  match goal with Hc : ∀ x, x ∈ t_tombstones _ → _ = false |- _ => specialize (Hc y Hyin) end.
  simplify_eq. rewrite orb_false_iff, !bool_decide_eq_false in *. naive_solver.
Qed.

(** Everything an update or a tombstone does before its transaction. *)
Lemma gate_off_trail mg id principal required action :
  respects off_trail (obj ← get_or_raise mg id principal;
    _check_access_level mg id principal required ;;
    _check_rules mg action principal (Some (so_type obj)) (Some id) ;; mret obj).
Proof.
  respects_step; [apply get_or_raise_off_trail|]. respects_step; [apply check_access_level_off_trail|].
  respects_step; [apply check_rules_off_trail|respects_step].
Qed.

Lemma get_version_off_trail id n : respects off_trail (get_version id n).
Proof. unfold get_version, fetch_one, select. repeat respects_step. Qed.

(** A returning update: who, what it was, and what became of the tables. *)
Lemma update_object_ok mg id principal data reason s o' v s' :
  update_object mg id principal data reason s = (Ok (o', v), s') →
  ∃ o s1, off_trail s s1 ∧ o ∈ t_objects (st_db s) ∧ so_id o = id ∧
    readable mg (st_db s) (st_now s) principal o ∧
    (_check_access_level mg id principal WRITE_LEVEL s = (Ok tt, s)) ∧
    so_lifecycle o ≠ ARCHIVED ∧ o' = with_version (S (so_version o)) o ∧
    v = new_version (ov_id v) id (S (so_version o)) data (st_now s) principal reason ∧
    object_tables (st_db s') = (updated_objects id (with_version (S (so_version o))) (t_objects (st_db s)),
      t_object_versions (st_db s) ++ [v], t_tombstones (st_db s)).
Proof.
  unfold update_object. intros H.
  apply bind_ok_inv in H as (o & s1 & (-> & Ho & Hid & Hread)%get_or_raise_ok & H).
  apply bind_ok_inv in H as ([] & s1 & Hlevel & H). pose proof Hlevel as [-> _]%check_access_level_ok.
  apply bind_ok_inv in H as (? & s1 & Hoff%(off_trail_run _ _ _ _ (check_rules_off_trail _ _ _ _ _)) & H).
  apply bind_ok_inv in H as ([] & s2 & [Hlive%bool_decide_eq_false_1 ->]%raise_if_ok & H).
  apply bind_ok_inv in H as (prev & s2 & [-> _]%get_version_ok & H).
  apply bind_ok_inv in H as (ts & s2 & [-> ->]%now_utc_ok & H).
  apply bind_ok_inv in H as (vid & s2 & [-> ->]%generate_id_ok & H). cbv zeta in H.
  apply bind_ok_inv in H as (? & s2 & Htxn & H). apply update_txn_ok in Htxn as ->.
  apply bind_ok_inv in H as (? & s2 & Haud & H). apply mret_ok in H as [[= -> ->] ->].
  apply audit_ok, quiet_off_trail, off_trail_objects in Haud.
  exists o, s1. split_and!; try done.
  - destruct Hoff as [_ Hnow]. simpl. by rewrite Hnow.
  - rewrite Haud. apply off_trail_objects in Hoff. unfold object_tables in *. simpl. by injection Hoff as -> -> ->.
Qed.

Lemma update_object_keeps mg id principal data reason s :
  okeeps (update_object mg id principal data reason) s.
Proof.
  unfold update_object.
  apply keeps_bind; [exact _|apply okeeps_off_trail, get_or_raise_off_trail|].
  intros o s1 (-> & Ho & Hid & _)%get_or_raise_ok.
  apply keeps_bind; [exact _|apply okeeps_off_trail, check_access_level_off_trail|].
  intros _ s1 H1%(off_trail_run _ _ _ _ (check_access_level_off_trail _ _ _ _)).
  apply keeps_bind; [exact _|apply okeeps_off_trail, check_rules_off_trail|].
  intros _ s2 H2%(off_trail_run _ _ _ _ (check_rules_off_trail _ _ _ _ _)).
  apply keeps_bind; [exact _|by apply okeeps_off_trail, respects_raise_if; exact _|].
  intros [] s3 [Hlive%bool_decide_eq_false_1 ->]%raise_if_ok.
  apply keeps_bind; [exact _|apply okeeps_off_trail, get_version_off_trail|intros prev s3 [-> _]%get_version_ok].
  apply keeps_bind; [exact _|apply okeeps_off_trail, now_off_trail|intros ts s3 [-> ->]%now_utc_ok].
  apply keeps_bind; [exact _|apply okeeps_off_trail, new_id_off_trail|intros vid s3 [-> ->]%generate_id_ok].
  cbv zeta. apply keeps_bind; [exact _| |intros _ s4 _].
  - assert (Hin : o ∈ t_objects (st_db s2)).
    { by rewrite (off_trail_rows _ _ H2), (off_trail_rows _ _ H1). }
    intros Hok. match goal with |- context [transaction ?m ?st] => destruct (transaction m st) as [[a|e] s4] eqn:Ht end.
    + apply update_txn_ok in Ht as ->. subst id. by apply objects_ok_update.
    + apply transaction_raise in Ht. simpl. by rewrite Ht.
  - apply keeps_bind; [exact _|apply okeeps_off_trail, audit_off_trail|intros _ s5 _].
    apply keeps_same; [exact _|done].
Qed.

Lemma tombstone_object_ok mg id principal reason s x s' :
  tombstone_object mg id principal reason s = (Ok x, s') →
  ∃ o s1, off_trail s s1 ∧ o ∈ t_objects (st_db s) ∧ so_id o = id ∧
    readable mg (st_db s) (st_now s) principal o ∧
    _check_access_level mg id principal ADMIN_LEVEL s = (Ok tt, s) ∧
    so_lifecycle o ≠ ARCHIVED ∧ ¬ (id ∈ tb_object <$> t_tombstones (st_db s)) ∧
    tb_object x = id ∧ tb_by x = principal ∧ tb_reason x = reason ∧ tb_at x = st_now s ∧
    object_tables (st_db s') = (updated_objects id archived_object (t_objects (st_db s)),
      t_object_versions (st_db s), t_tombstones (st_db s) ++ [x]).
Proof.
  unfold tombstone_object. intros H.
  apply bind_ok_inv in H as (o & s1 & (-> & Ho & Hid & Hread)%get_or_raise_ok & H).
  apply bind_ok_inv in H as ([] & s1 & Hlevel & H). pose proof Hlevel as [-> _]%check_access_level_ok.
  apply bind_ok_inv in H as (? & s1 & Hoff%(off_trail_run _ _ _ _ (check_rules_off_trail _ _ _ _ _)) & H).
  apply bind_ok_inv in H as ([] & s2 & [Hlive%bool_decide_eq_false_1 ->]%raise_if_ok & H).
  apply bind_ok_inv in H as (ts & s2 & [-> ->]%now_utc_ok & H).
  apply bind_ok_inv in H as (tid & s2 & [-> ->]%generate_id_ok & H). cbv zeta in H.
  apply bind_ok_inv in H as (cur & s2 & [-> _]%get_version_ok & H).
  apply bind_ok_inv in H as (? & s2 & Htxn & H). apply tombstone_txn_ok in Htxn as [Hno ->].
  apply bind_ok_inv in H as (? & s2 & Haud & H). apply mret_ok in H as [-> ->].
  apply audit_ok, quiet_off_trail, off_trail_objects in Haud.
  pose proof (off_trail_objects _ _ Hoff) as Htabs. injection Htabs as Ht1 Ht2 Ht3. simpl in Hno.
  exists o, s1. split_and!; try done.
  - by rewrite <-Ht3.
  - by destruct Hoff as [_ Hnow].
  - rewrite Haud. unfold object_tables. simpl. by rewrite Ht1, Ht2, Ht3.
Qed.

Lemma tombstone_object_keeps mg id principal reason s :
  okeeps (tombstone_object mg id principal reason) s.
Proof.
  unfold tombstone_object.
  apply keeps_bind; [exact _|apply okeeps_off_trail, get_or_raise_off_trail|].
  intros o s1 (-> & Ho & Hid & _)%get_or_raise_ok.
  apply keeps_bind; [exact _|apply okeeps_off_trail, check_access_level_off_trail|].
  intros _ s1 H1%(off_trail_run _ _ _ _ (check_access_level_off_trail _ _ _ _)).
  apply keeps_bind; [exact _|apply okeeps_off_trail, check_rules_off_trail|].
  intros _ s2 H2%(off_trail_run _ _ _ _ (check_rules_off_trail _ _ _ _ _)).
  apply keeps_bind; [exact _|by apply okeeps_off_trail, respects_raise_if; exact _|].
  intros [] s3 [Hlive%bool_decide_eq_false_1 ->]%raise_if_ok.
  apply keeps_bind; [exact _|apply okeeps_off_trail, now_off_trail|intros ts s3 [-> ->]%now_utc_ok].
  apply keeps_bind; [exact _|apply okeeps_off_trail, new_id_off_trail|intros tid s3 [-> ->]%generate_id_ok].
  cbv zeta.
  apply keeps_bind; [exact _|apply okeeps_off_trail, get_version_off_trail|intros cur s3 [-> _]%get_version_ok].
  apply keeps_bind; [exact _| |intros _ s4 _].
  - assert (Hin : o ∈ t_objects (st_db s2)).
    { by rewrite (off_trail_rows _ _ H2), (off_trail_rows _ _ H1). }
    intros Hok. match goal with |- context [transaction ?m ?st] => destruct (transaction m st) as [[a|e] s4] eqn:Ht end.
    + apply tombstone_txn_ok in Ht as [Hno ->]. subst id. simpl. by apply objects_ok_tombstone.
    + apply transaction_raise in Ht. simpl. by rewrite Ht.
  - apply keeps_bind; [exact _|apply okeeps_off_trail, audit_off_trail|intros _ s5 _].
    apply keeps_same; [exact _|done].
Qed.

(** *** Creation *)

Lemma create_object_ok mg type owner data registry reason scope s o v s' :
  create_object other_count known_principal mg type owner data registry reason scope s = (Ok (o, v), s') →
  ∃ s1, off_trail s s1 ∧ ¬ (so_id o ∈ so_id <$> t_objects (st_db s)) ∧
    o = new_object (so_id o) type owner (st_now s) registry ∧
    v = new_version (ov_id v) (so_id o) 1 data (st_now s) owner reason ∧
    (∀ rules, mg_quota mg = Some rules → quota_room other_count rules type scope s1) ∧
    object_tables (st_db s') =
      (t_objects (st_db s) ++ [o], t_object_versions (st_db s) ++ [v], t_tombstones (st_db s)).
Proof.
  unfold create_object. intros H.
  apply bind_ok_inv in H as (? & s1 & H1%(off_trail_run _ _ _ _ (check_rules_off_trail _ _ _ _ _)) & H).
  apply bind_ok_inv in H as (? & s2 & H2%(off_trail_run _ _ _ _ (rate_gate_off_trail _ _ _)) & H).
  apply bind_ok_inv in H as (ts & s3 & [-> ->]%now_utc_ok & H).
  apply bind_ok_inv in H as (oid & s3 & [-> ->]%generate_id_ok & H).
  apply bind_ok_inv in H as (vid & s3 & [-> ->]%generate_id_ok & H). cbv zeta in H.
  apply bind_ok_inv in H as (? & s3 & Htxn%transaction_ok & H).
  apply bind_ok_inv in Htxn as (? & s4 & [-> Hroom]%okeeps_quota_gate & Hins).
  apply persist_pair_ok in Hins as (Hnew & _ & ->).
  apply bind_ok_inv in H as (? & s5 & Haud & H). apply mret_ok in H as [[= -> ->] ->].
  apply audit_ok, quiet_off_trail, off_trail_objects in Haud.
  assert (Hoff : off_trail s s2) by by etrans.
  pose proof (off_trail_objects _ _ Hoff) as Htabs. injection Htabs as Ht1 Ht2 Ht3.
  eexists. split; [|split; [|split; [|split; [|split; [exact Hroom|]]]]].
  - destruct Hoff as [Ha Hb]. split; [exact Ha|exact Hb].
  - simpl in Hnew. by rewrite <-Ht1.
  - destruct Hoff as [_ Hb]. simpl. by rewrite Hb.
  - destruct Hoff as [_ Hb]. simpl. by rewrite Hb.
  - rewrite Haud. unfold object_tables. simpl. by rewrite Ht1, Ht2, Ht3.
Qed.
End Operations.

(** ** Theorems *)

Section ObjectTheorems.
Context `{host : !Host} `{sink : !AuditSink}.
Context (other_count : tables → string → list (string * string) → outcome nat).
Context (known_principal : string → bool).

(** Any manager runs any operation, with any outcome; between operations the
    other layers and the clock move. *)
Inductive object_step : relation store :=
  | step_create mg type owner data registry reason scope s :
      object_step s (create_object other_count known_principal mg type owner data registry reason scope s).2
  | step_create_many items owner s : object_step s (create_many known_principal items owner s).2
  | step_update mg id principal data reason s : object_step s (update_object mg id principal data reason s).2
  | step_tombstone mg id principal reason s : object_step s (tombstone_object mg id principal reason s).2
  | step_elsewhere s s' : object_tables (st_db s') = object_tables (st_db s) → object_step s s'.

Lemma objects_reachable s s' :
  rtc object_step s s' → objects_ok (st_db s) →
  objects_ok (st_db s') ∧ evolves (st_db s) (st_db s').
Proof.
  induction 1 as [s|s s1 s2 Hstep _ IH]; intros Hok; [done|].
  assert (objects_ok (st_db s1) ∧ evolves (st_db s) (st_db s1)) as [Hok1 He1].
  { destruct Hstep; [by apply create_object_keeps|by apply create_many_keeps|by apply update_object_keeps
      |by apply tombstone_object_keeps|by apply same_objects]. }
  destruct (IH Hok1) as [Hok2 He2]. split; [done|]. by etrans.
Qed.

Lemma version_unique t v w :
  objects_ok t → v ∈ t_object_versions t → w ∈ t_object_versions t →
  ov_object v = ov_object w → ov_version v = ov_version w → v = w.
Proof.
  intros Hok Hv Hw Hid Hn. pose proof (ok_owner t Hok v Hv) as (o & Ho & Hin)%list_elem_of_fmap.
  pose proof (ok_versions t Hok o Hin) as Hseq.
  assert (Hnd : NoDup (ov_version <$> versions_of_object t (so_id o))) by (rewrite Hseq; apply NoDup_seq).
  assert (Hvin : v ∈ versions_of_object t (so_id o)) by by apply list_elem_of_filter.
  assert (Hwin : w ∈ versions_of_object t (so_id o)) by (apply list_elem_of_filter; split; [congruence|done]).
  revert Hnd Hvin Hwin. generalize (versions_of_object t (so_id o)). intros l. clear -Hn.
  induction l as [|x l IH]; [by intros _ ?%elem_of_nil|]. rewrite fmap_cons, NoDup_cons.
  intros [Hx Hnd] [->|Hv]%elem_of_cons [->|Hw]%elem_of_cons; [done| | |by apply IH].
  - destruct Hx. rewrite Hn. by apply list_elem_of_fmap_2.
  - destruct Hx. rewrite <-Hn. by apply list_elem_of_fmap_2.
Qed.

Lemma get_version_found s v :
  objects_ok (st_db s) → v ∈ t_object_versions (st_db s) →
  get_version (ov_object v) (ov_version v) s = (Ok (Some v), s).
Proof.
  intros Hok Hv. assert (∃ r, get_version (ov_object v) (ov_version v) s = (Ok r, s)) as [r Hr]
    by (eexists; reflexivity).
  rewrite Hr. apply get_version_ok in Hr as [_ Hr]. destruct r as [w|].
  - destruct Hr as (Hw & Hid & Hn). by rewrite (version_unique _ w v Hok Hw Hv Hid Hn).
  - by destruct (Hr v Hv eq_refl).
Qed.

(** C14: Every state the object layer reaches is well formed, however operations
    end: versions and tombstones are only ever appended; an object keeps its id,
    type, owner and creation, its version never goes back, and once archived it
    never changes; and every object's versions 1, 2, ... up to its current one,
    and no others, can be read, each with the checksum of its data, with a
    tombstone exactly when the object is archived. *)
Theorem objects_reachable_ok s s' :
  rtc object_step s s' → objects_ok (st_db s) →
  objects_ok (st_db s') ∧ evolves (st_db s) (st_db s') ∧
  ∀ o, o ∈ t_objects (st_db s') →
    (∀ n, 1 ≤ n ≤ so_version o → ∃ v, get_version (so_id o) n s' = (Ok (Some v), s') ∧
      ov_checksum v = compute_checksum (ov_data v)) ∧
    (∀ n, so_version o < n → get_version (so_id o) n s' = (Ok None, s')) ∧
    (∃ t, get_tombstone (so_id o) s' = (Ok t, s') ∧ (is_Some t ↔ so_lifecycle o = ARCHIVED)).
Proof.
  intros Hsteps Hstart. destruct (objects_reachable s s' Hsteps Hstart) as [Hok He].
  split_and!; [done..|]. intros o Ho. pose proof (ok_versions _ Hok o Ho) as Hseq.
  assert (Hnum : ∀ n, (∃ v, v ∈ t_object_versions (st_db s') ∧ ov_object v = so_id o ∧ ov_version v = n) ↔
    1 ≤ n ≤ so_version o).
  { intros n. transitivity (n ∈ ov_version <$> versions_of_object (st_db s') (so_id o)).
    - rewrite list_elem_of_fmap. unfold versions_of_object. setoid_rewrite list_elem_of_filter. naive_solver.
    - rewrite Hseq, elem_of_seq. lia. }
  split_and!.
  - intros n (v & Hv & Hid & <-)%Hnum. exists v. rewrite <-Hid. split; [by apply get_version_found|].
    by apply (ok_checksum _ Hok).
  - intros n Hn. assert (∃ r, get_version (so_id o) n s' = (Ok r, s')) as [r Hr] by (eexists; reflexivity).
    rewrite Hr. apply get_version_ok in Hr as [_ Hr]. destruct r as [v|]; [|done].
    assert (1 ≤ n ≤ so_version o) by (apply Hnum; by exists v). lia.
  - assert (∃ t, get_tombstone (so_id o) s' = (Ok t, s')) as [t Ht] by (eexists; reflexivity).
    exists t. split; [done|]. rewrite (ok_dead _ Hok o Ho), list_elem_of_fmap.
    unfold get_tombstone in Ht. apply fetch_one_ok in Ht as [_ Ht]. destruct t as [x|].
    + destruct Ht as [Hx Hid%bool_decide_eq_true_1]. split; [intros _; by exists x|done].
    + split; [by intros [? [=]]|]. intros (x & Hid & Hx). specialize (Ht x Hx).
      by apply bool_decide_eq_false_1 in Ht.
Qed.

(** Everything that could be read is read the same in a later state. *)
Lemma get_version_later s s' id n v :
  objects_ok (st_db s') → evolves (st_db s) (st_db s') →
  get_version id n s = (Ok (Some v), s) → get_version id n s' = (Ok (Some v), s').
Proof.
  intros Hok [Hpre _ _] (_ & Hv & <- & <-)%get_version_ok. apply get_version_found; [done|].
  destruct Hpre as [l ->]. apply elem_of_app. by left.
Qed.

(** The level [_check_access_level] asks of a principal. *)
Definition may_change (mg : ScopedManager) (s : store) (principal : string) (o : ScopedObject)
  (required : AccessLevel) : Prop :=
  so_owner o = principal ∨ mg_visibility mg = true ∧
    ∃ l, get_access_level principal (so_id o) s = (Ok (Some l), s) ∧ level_priority required ≤ level_priority l.

Lemma may_change_ok mg o principal required s :
  objects_ok (st_db s) → o ∈ t_objects (st_db s) → readable mg (st_db s) (st_now s) principal o →
  _check_access_level mg (so_id o) principal required s = (Ok tt, s) → may_change mg s principal o required.
Proof.
  intros Hok Ho Hread [_ Hlevel]%check_access_level_ok.
  destruct (decide (so_owner o = principal)) as [Hown|Hown]; [by left|right].
  destruct Hread as [?|[Hv _]]; [done|]. split; [done|]. apply (Hlevel Hv o); [done|done| |done].
  intros x Hx Hid. by apply (objects_keyed _ _ _ Hok).
Qed.

(** Updating appends and nothing else: a returning update was asked by the owner
    or, through a visibility engine, by a principal whose highest access level on
    a live object is at least write; it adds one version, numbered after the
    object's current one and holding exactly the data, author, reason and
    checksum, advances the version of that object alone, and every version that
    could be read before reads the same after. *)
Theorem update_appends_version mg id principal data reason s o' v s' :
  objects_ok (st_db s) →
  update_object mg id principal data reason s = (Ok (o', v), s') →
  ∃ o, o ∈ t_objects (st_db s) ∧ so_id o = id ∧ so_lifecycle o ≠ ARCHIVED ∧
    may_change mg s principal o WRITE_LEVEL ∧ o' = with_version (S (so_version o)) o ∧
    v = new_version (ov_id v) id (S (so_version o)) data (st_now s) principal reason ∧
    t_object_versions (st_db s') = t_object_versions (st_db s) ++ [v] ∧
    (∀ x, x ∈ t_objects (st_db s') ↔ x = o' ∨ x ∈ t_objects (st_db s) ∧ so_id x ≠ id) ∧
    get_version id (so_version o') s' = (Ok (Some v), s') ∧
    ∀ i n w, get_version i n s = (Ok (Some w), s) → get_version i n s' = (Ok (Some w), s').
Proof.
  intros Hok Hrun. pose proof (update_object_keeps mg id principal data reason s Hok) as [Hok' He].
  rewrite Hrun in Hok', He. simpl in Hok', He.
  apply update_object_ok in Hrun as (o & s1 & _ & Ho & <- & Hread & Hlevel & Hlive & -> & Hv & Htabs).
  injection Htabs as Hobj Hver _. exists o. split_and!; try done.
  - by apply may_change_ok.
  - intros x. rewrite Hobj, updated_elem. split.
    + intros [(r & Hr & Hid & ->)|?]; [|by right]. left. by rewrite (objects_keyed _ _ _ Hok Hr Ho Hid).
    + intros [->|?]; [|by right]. left. by exists o.
  - assert (Hin : v ∈ t_object_versions (st_db s')) by (rewrite Hver, elem_of_app; right; left).
    pose proof (get_version_found s' v Hok' Hin) as Hg. by rewrite Hv in Hg at 1 2.
  - intros i n w. by apply get_version_later.
Qed.

(** A tombstone is final: a returning tombstone was asked by the owner or a
    principal with admin level on a live object; it archives that object alone
    and records one tombstone with its author and reason, its versions stay
    readable, and from then on, whatever else happens, every update and every
    second tombstone of it raises, whoever asks through whatever manager. *)
Theorem tombstone_final mg id principal reason s x s' :
  objects_ok (st_db s) →
  tombstone_object mg id principal reason s = (Ok x, s') →
  (∃ o, o ∈ t_objects (st_db s) ∧ so_id o = id ∧ so_lifecycle o ≠ ARCHIVED ∧
    may_change mg s principal o ADMIN_LEVEL ∧
    (∀ y, y ∈ t_objects (st_db s') ↔ y = archived_object o ∨ y ∈ t_objects (st_db s) ∧ so_id y ≠ id)) ∧
  t_tombstones (st_db s') = t_tombstones (st_db s) ++ [x] ∧ tb_object x = id ∧ tb_by x = principal ∧
  tb_reason x = reason ∧ t_object_versions (st_db s') = t_object_versions (st_db s) ∧
  ∀ s2, rtc object_step s' s2 → ∀ mg' p,
    (∀ data r, is_ok (update_object mg' id p data r s2).1 = false) ∧
    (∀ r, is_ok (tombstone_object mg' id p r s2).1 = false) ∧
    ∀ n v, get_version id n s = (Ok (Some v), s) → get_version id n s2 = (Ok (Some v), s2).
Proof.
  intros Hok Hrun. pose proof (tombstone_object_keeps mg id principal reason s Hok) as [Hok' He].
  rewrite Hrun in Hok', He. simpl in Hok', He.
  apply tombstone_object_ok in Hrun
    as (o & s1 & _ & Ho & <- & Hread & Hlevel & Hlive & _ & Hx & Hby & Hre & _ & Htabs).
  injection Htabs as Hobj Hver Htomb.
  assert (Harch : archived_object o ∈ t_objects (st_db s'))
    by (rewrite Hobj; apply updated_elem; left; by exists o).
  split_and!; try done.
  - exists o. split_and!; try done; [by apply may_change_ok|]. intros y. rewrite Hobj, updated_elem. split.
    + intros [(r & Hr & Hid & ->)|?]; [|by right]. left. by rewrite (objects_keyed _ _ _ Hok Hr Ho Hid).
    + intros [->|?]; [|by right]. left. by exists o.
  - intros s2 Hreach mg' p. apply objects_reachable in Hreach as [Hok2 He2]; [|done].
    destruct (ev_objects _ _ He2 _ Harch) as (a & Ha & Hla).
    assert (a = archived_object o) as -> by by apply Hla.
    split_and!.
    + intros data r. destruct (update_object mg' (so_id o) p data r s2) as [[[o2 v2]|e] s3] eqn:Hup; [|done].
      apply update_object_ok in Hup as (z & _ & _ & Hz & Hzid & _ & _ & Hzlive & _).
      rewrite (objects_keyed _ _ _ Hok2 Hz Ha Hzid) in Hzlive. done.
    + intros r. destruct (tombstone_object mg' (so_id o) p r s2) as [[y|e] s3] eqn:Hup; [|done].
      apply tombstone_object_ok in Hup as (z & _ & _ & Hz & Hzid & _ & _ & Hzlive & _).
      rewrite (objects_keyed _ _ _ Hok2 Hz Ha Hzid) in Hzlive. done.
    + intros n v. apply get_version_later; [done|]. by etrans.
Qed.

End ObjectTheorems.

(** *** Reads *)

Section ReadTheorems.
Context `{host : !Host}.

Lemma eq_reflexivity {X} (l k : list X) : l = k → l ≡ₚ k.
Proof. by intros ->. Qed.

Lemma seq_strongly_sorted a n : StronglySorted le (seq a n).
Proof.
  revert a. induction n as [|n IH]; intros a; simpl; constructor; [done|].
  apply Forall_forall. intros x. rewrite elem_of_seq. lia.
Qed.

(** Sorted rows whose numbers are a range come out in its order. *)
Lemma sorted_numbers (l : list ObjectVersion) n :
  StronglySorted (leb_rel by_object_version) l → ov_version <$> l ≡ₚ seq 1 n → ov_version <$> l = seq 1 n.
Proof.
  intros Hs Hp. eapply (StronglySorted_unique le); [|apply seq_strongly_sorted|done].
  clear Hp. induction Hs as [|v l Hs IH Hv]; simpl; constructor; [done|].
  apply Forall_fmap. eapply Forall_impl; [exact Hv|]. intros w Hw. by apply Nat.leb_le in Hw.
Qed.

Lemma load_object_run id s :
  objects_ok (st_db s) →
  ∃ r, _load_object id s = (Ok r, s) ∧ ∀ o, r = Some o ↔ o ∈ t_objects (st_db s) ∧ so_id o = id.
Proof.
  intros Hok. assert (∃ r, _load_object id s = (Ok r, s)) as [r Hr] by (eexists; reflexivity).
  exists r. split; [done|]. pose proof Hr as [_ Hf]%fetch_one_ok. unfold of_object in Hf.
  destruct r as [x|]; intros o.
  - destruct Hf as [Hx Hid%bool_decide_eq_true_1]. split; [by intros [= <-]|]. intros [Ho Hoid].
    f_equal. apply (objects_keyed _ _ _ Hok); [done..|congruence].
  - split; [done|]. intros [Ho Hid]. specialize (Hf o Ho). by apply bool_decide_eq_false_1 in Hf.
Qed.

Lemma get_object_run mg id principal s :
  objects_ok (st_db s) →
  ∃ r, get_object mg id principal s = (Ok r, s) ∧
    (∀ o, r = Some o ↔ o ∈ t_objects (st_db s) ∧ so_id o = id ∧ readable mg (st_db s) (st_now s) principal o) ∧
    match r with
    | Some o => get_or_raise mg id principal s = (Ok o, s)
    | None => ∃ msg, get_or_raise mg id principal s = (Raise (AccessDenied msg), s)
    end.
Proof.
  intros Hok. destruct (load_object_run id s Hok) as (f & Hf & Hspec).
  unfold get_object, get_or_raise. rewrite !(run_bind_ok _ _ _ _ _ Hf).
  destruct f as [o|].
  2:{ eexists. split; [reflexivity|]. split; [|by eexists]. intros o. split; [done|]. intros (Ho & Hid & _).
      by apply Hspec. }
  destruct (proj1 (Hspec o) eq_refl) as [Ho Hid].
  assert (Hone : ∀ x, x ∈ t_objects (st_db s) → so_id x = id → x = o).
  { intros x Hx Hxid. assert (Some o = Some x) by by apply Hspec. congruence. }
  unfold can_access, readable. case_bool_decide as Hown.
  { exists (Some o). split; [done|]. split; [|done]. intros x. split; [intros [= <-]; by eauto|].
    intros (Hx & Hxid & _). by rewrite (Hone x Hx Hxid). }
  destruct (mg_visibility mg).
  - destruct (can_see_run principal id s) as (b & Hb & Hsees). rewrite !(run_bind_ok _ _ _ _ _ Hb).
    destruct b.
    + exists (Some o). split; [done|]. split; [|done]. intros x. split.
      * intros [= <-]. split_and!; [done..|]. right. split; [done|]. rewrite Hid. by apply Hsees.
      * intros (Hx & Hxid & _). by rewrite (Hone x Hx Hxid).
    + exists None. split; [done|]. split; [|by eexists]. intros x. split; [done|].
      intros (Hx & Hxid & Hread). rewrite (Hone x Hx Hxid), Hid in Hread.
      destruct Hread as [?|[_ Hs]]; [done|]. by apply Hsees in Hs.
  - exists None. split; [done|]. split; [|by eexists]. intros x. split; [done|].
    intros (Hx & Hxid & Hread). rewrite (Hone x Hx Hxid) in Hread. by destruct Hread as [?|[? _]].
Qed.

(** ** Diffs *)

Definition diff_step (a b : jdict) (d : VersionDiff) (k : string) : VersionDiff :=
  match jget a k, jget b k with
  | None, Some y => {| added := added d ++ [(k, y)]; removed := removed d; changed := changed d |}
  | Some x, None => {| added := added d; removed := removed d ++ [(k, x)]; changed := changed d |}
  | Some x, Some y =>
      if jval_eqb x y then d
      else {| added := added d; removed := removed d; changed := changed d ++ [(k, (x, y))] |}
  | None, None => d
  end.

(** What applying a diff makes of one field. *)
Definition patch (d : VersionDiff) (old : option jval) (k : string) : option jval :=
  if bool_decide (k ∈ (removed d).*1) then None
  else match find (λ x, bool_decide (x.1 = k)) (changed d), jget (added d) k with
       | Some (_, (_, y)), _ => Some y
       | None, Some y => Some y
       | None, None => old
       end.

Lemma diff_fold a b ks d :
  let d' := foldl (diff_step a b) d ks in
  added d' = added d ++ omap (λ k, match jget a k, jget b k with None, Some y => Some (k, y) | _, _ => None end) ks ∧
  removed d' = removed d ++ omap (λ k, match jget a k, jget b k with Some x, None => Some (k, x) | _, _ => None end) ks ∧
  changed d' = changed d ++ omap (λ k, match jget a k, jget b k with
    | Some x, Some y => if jval_eqb x y then None else Some (k, (x, y)) | _, _ => None end) ks.
Proof.
  revert d. induction ks as [|k ks IH]; intros d; simpl; [by rewrite !app_nil_r|].
  destruct (IH (diff_step a b d k)) as (-> & -> & ->). unfold diff_step.
  destruct (jget a k), (jget b k); simpl; try destruct (jval_eqb _ _); simpl; by rewrite <-?app_assoc.
Qed.

Lemma all_keys_elem a b k : k ∈ all_keys a b ↔ is_Some (jget a k) ∨ is_Some (jget b k).
Proof.
  assert (Hk : ∀ d, k ∈ d.*1 ↔ is_Some (jget d k)).
  { intros d. pose proof (jget_none d k) as Hn. destruct (decide (k ∈ d.*1)) as [Hin|Hin].
    - split; [|done]. intros _. destruct (jget d k) eqn:He; [by eexists|]. by destruct (proj1 Hn eq_refl).
    - rewrite (proj2 Hn Hin). split; [done|]. by intros [? [=]]. }
  unfold all_keys. rewrite elem_of_app, list_elem_of_filter, !Hk. destruct (jget a k); naive_solver.
Qed.

(** Patching one field, from what the parts of the diff list. *)
Lemma patch_field (a b : jdict) d k :
  (∀ k y, (k, y) ∈ added d ↔ jget a k = None ∧ jget b k = Some y) →
  (∀ k x, (k, x) ∈ removed d ↔ jget a k = Some x ∧ jget b k = None) →
  (∀ k x y, (k, (x, y)) ∈ changed d ↔ jget a k = Some x ∧ jget b k = Some y ∧ jval_eqb x y = false) →
  patch d (jget a k) k = jget b k ∨
    ∃ x y, patch d (jget a k) k = Some x ∧ jget b k = Some y ∧ jval_eqb x y = true.
Proof.
  intros HA HR HC. unfold patch.
  assert (Hrem : k ∈ (removed d).*1 ↔ is_Some (jget a k) ∧ jget b k = None).
  { rewrite list_elem_of_fmap. split.
    - intros ([k' x] & -> & [H1 H2]%HR). split; [by eexists|done].
    - intros [[x H1] H2]. exists (k, x). split; [done|]. by apply HR. }
  case_bool_decide as Hk; [left; symmetry; by apply Hrem|].
  destruct (find (λ x, bool_decide (x.1 = k)) (changed d)) as [[k' [x y]]|] eqn:Hf.
  - apply find_some in Hf as [Hin Heq%bool_decide_eq_true_1]. simpl in Heq. subst k'. left.
    apply list_elem_of_In, HC in Hin as (_ & -> & _). done.
  - destruct (jget (added d) k) as [y|] eqn:Hg.
    + left. apply jget_elem, HA in Hg as [_ ->]. done.
    + destruct (jget a k) as [x|] eqn:H1, (jget b k) as [y|] eqn:H2; try (by left).
      * right. exists x, y. split_and!; [done..|]. destruct (jval_eqb x y) eqn:He; [done|].
        exfalso. assert (Hin : (k, (x, y)) ∈ changed d) by by apply HC.
        apply list_elem_of_In in Hin. eapply find_none in Hin; [|exact Hf]. simpl in Hin.
        by rewrite bool_decide_eq_true_2 in Hin.
      * exfalso. apply Hk, Hrem. split; [by eexists|done].
      * exfalso. assert (Hin : (k, y) ∈ added d) by by apply HA.
        apply jget_none in Hg. apply Hg. apply list_elem_of_fmap. by exists (k, y).
Qed.

(** A diff is exact and complete: its three parts list exactly the keys only the new
    dict has with their values, the keys only the old one has with theirs, and the keys
    of both whose values differ with both values; and applying it to the old dict gives
    the new one, up to values Python compares equal. *)
Record exact_diff (a b : jdict) (d : VersionDiff) : Prop := {
  xd_added : ∀ k y, (k, y) ∈ added d ↔ jget a k = None ∧ jget b k = Some y;
  xd_removed : ∀ k x, (k, x) ∈ removed d ↔ jget a k = Some x ∧ jget b k = None;
  xd_changed : ∀ k x y, (k, (x, y)) ∈ changed d ↔ jget a k = Some x ∧ jget b k = Some y ∧ jval_eqb x y = false;
  xd_patch : ∀ k, patch d (jget a k) k = jget b k ∨
    ∃ x y, patch d (jget a k) k = Some x ∧ jget b k = Some y ∧ jval_eqb x y = true;
}.

Lemma diff_exact old new : exact_diff (ov_data old) (ov_data new) (diff_versions old new).
Proof.
  set (a := ov_data old). set (b := ov_data new). set (d := diff_versions old new).
  destruct (diff_fold a b (all_keys a b) {| added := []; removed := []; changed := [] |}) as (Ha & Hr & Hc).
  change (foldl _ _ _) with d in Ha, Hr, Hc. simpl in Ha, Hr, Hc.
  assert (HA : ∀ k y, (k, y) ∈ added d ↔ jget a k = None ∧ jget b k = Some y).
  { intros k y. rewrite Ha, list_elem_of_omap. split.
    - intros (k' & _ & Hk). destruct (jget a k') eqn:H1, (jget b k') eqn:H2; by simplify_eq.
    - intros [H1 H2]. exists k. rewrite all_keys_elem, H1, H2. split; [right; by eexists|done]. }
  assert (HR : ∀ k x, (k, x) ∈ removed d ↔ jget a k = Some x ∧ jget b k = None).
  { intros k x. rewrite Hr, list_elem_of_omap. split.
    - intros (k' & _ & Hk). destruct (jget a k') eqn:H1, (jget b k') eqn:H2; by simplify_eq.
    - intros [H1 H2]. exists k. rewrite all_keys_elem, H1, H2. split; [left; by eexists|done]. }
  assert (HC : ∀ k x y, (k, (x, y)) ∈ changed d ↔ jget a k = Some x ∧ jget b k = Some y ∧ jval_eqb x y = false).
  { intros k x y. rewrite Hc, list_elem_of_omap. split.
    - intros (k' & _ & Hk). destruct (jget a k') eqn:H1, (jget b k') eqn:H2; try done.
      destruct (jval_eqb _ _) eqn:He; by simplify_eq.
    - intros (H1 & H2 & H3). exists k. rewrite all_keys_elem, H1, H2, H3. split; [left; by eexists|done]. }
  split; [done..|]. intros k. apply patch_field; done.
Qed.

(** The numbered versions of an object, each found under its number, and nothing else. *)
Lemma numbered_versions s o :
  objects_ok (st_db s) → o ∈ t_objects (st_db s) →
  (∀ n, 1 ≤ n ≤ so_version o → ∃ v, v ∈ t_object_versions (st_db s) ∧ ov_object v = so_id o ∧ ov_version v = n ∧
    get_version (so_id o) n s = (Ok (Some v), s)) ∧
  ∀ n, ¬ (1 ≤ n ≤ so_version o) → get_version (so_id o) n s = (Ok None, s).
Proof.
  intros Hok Ho.
  assert (Hnum : ∀ n, 1 ≤ n ≤ so_version o ↔ ∃ v, v ∈ t_object_versions (st_db s) ∧ ov_object v = so_id o ∧ ov_version v = n).
  { intros n. assert (n ∈ ov_version <$> versions_of_object (st_db s) (so_id o) ↔ 1 ≤ n ≤ so_version o) as <-
      by (rewrite (ok_versions _ Hok o Ho), elem_of_seq; lia).
    rewrite list_elem_of_fmap. unfold versions_of_object. setoid_rewrite list_elem_of_filter. naive_solver. }
  split.
  - intros n (v & Hv & Hid & <-)%Hnum. exists v. split_and!; [done..|]. rewrite <-Hid. by apply get_version_found.
  - intros n Hn. assert (∃ r, get_version (so_id o) n s = (Ok r, s)) as [r Hr] by (eexists; reflexivity).
    rewrite Hr. apply get_version_ok in Hr as [_ Hr]. destruct r as [v|]; [|done].
    destruct Hn. apply Hnum. exists v. naive_solver.
Qed.


Lemma object_order_total order a b : object_order order a b = true ∨ object_order order b a = true.
Proof.
  unfold object_order. destruct (starts_dash order); case_bool_decide;
    first [apply String.leb_total|rewrite !Z.leb_le; lia].
Qed.

Lemma object_order_trans order a b c :
  object_order order a b = true → object_order order b c = true → object_order order a c = true.
Proof.
  unfold object_order. destruct (starts_dash order); case_bool_decide;
    first [intros H1 H2; by eapply string_leb_trans; eauto|rewrite !Z.leb_le; lia].
Qed.

Lemma sees_any t now principal type id : sees t now principal type id → sees t now principal None id.
Proof.
  intros [(o & Ho & Hid & Hown)|(n & p & Hn & Hsh & _)].
  - left. exists o. split_and!; [done..|]. unfold owned_object in *. rewrite !andb_true_iff in *. tauto.
  - right. by exists n, p.
Qed.

(** The WHERE clause of the lists: what it lets through is readable. *)
Lemma visibility_clause_run mg principal type s :
  ∃ p, visibility_clause mg principal type s = (Ok p, s) ∧
    (∀ o, p o = true → readable mg (st_db s) (st_now s) principal o ∧ filter_opt type (so_type o) = true) ∧
    (mg_visibility mg = false → ∀ o, so_owner o = principal → filter_opt type (so_type o) = true → p o = true) ∧
    (mg_visibility mg = true → ∀ o, p o = true → sees (st_db s) (st_now s) principal type (so_id o)).
Proof.
  unfold visibility_clause, readable. destruct (mg_visibility mg) eqn:Hv; simpl.
  - destruct (owned_ids_run principal type s) as (l1 & Hr1 & H1).
    destruct (projected_ids_run principal type s) as (l2 & Hr2 & H2).
    destruct (merge_ids_spec visible_limit (l1 ++ l2) [] (@NoDup_nil_2 string) (or_intror eq_refl)) as (_ & Hin & _).
    set (ids := merge_ids visible_limit (l1 ++ l2) []) in *.
    assert (Hrun : visible_object_ids principal type visible_limit s = (Ok ids, s)).
    { unfold visible_object_ids. by rewrite (run_bind_ok _ _ _ _ _ Hr1), (run_bind_ok _ _ _ _ _ Hr2). }
    assert (Hsees : ∀ x, x ∈ ids → sees (st_db s) (st_now s) principal type x).
    { intros x [?%not_elem_of_nil|[?|?]%elem_of_app]%Hin; [done|left; by apply H1|right; by apply H2]. }
    rewrite (run_bind_ok _ _ _ _ _ Hrun).
    assert (Hp : ∀ o, match ids with
                      | [] => λ _, false
                      | _ => λ o, bool_decide (so_id o ∈ ids) && filter_opt type (so_type o)
                      end o = true → so_id o ∈ ids ∧ filter_opt type (so_type o) = true).
    { intros o. destruct ids; [done|]. rewrite andb_true_iff, bool_decide_eq_true. done. }
    eexists. split; [reflexivity|]. split_and!; [|done|].
    + intros o [Ho Ht]%Hp. split; [|done]. right. split; [done|]. by eapply sees_any, Hsees.
    + intros _ o [Ho _]%Hp. by apply Hsees.
  - eexists. split; [reflexivity|]. split_and!; [|intros _ o Hown Ht; by rewrite bool_decide_eq_true_2|done].
    intros o [Hown%bool_decide_eq_true_1 Ht]%andb_true_iff. split; [by left|done].
Qed.

(** Lists are isolated: the pages of list_objects are consecutive pieces of one
    sorted list without duplicates, which counts what count_objects counts and
    holds only objects the principal may read, of the type asked for and not
    archived unless asked for; without a visibility engine it is all the
    principal's own such objects, and with one it never shows the principal's
    own archived objects unless they are shared with them, asked for or not. *)
Theorem lists_isolated mg principal type incl order s :
  objects_ok (st_db s) →
  ∃ l, (∀ limit offset, list_objects mg principal type incl order limit offset s
          = (Ok (take limit (drop offset l)), s)) ∧
    count_objects mg principal type incl s = (Ok (length l), s) ∧
    NoDup l ∧ StronglySorted (leb_rel (object_order order)) l ∧
    (∀ o, o ∈ l → o ∈ t_objects (st_db s) ∧ readable mg (st_db s) (st_now s) principal o ∧
      filter_opt type (so_type o) = true ∧ live_clause incl o = true) ∧
    (mg_visibility mg = false → ∀ o, o ∈ t_objects (st_db s) → so_owner o = principal →
      filter_opt type (so_type o) = true → live_clause incl o = true → o ∈ l) ∧
    (mg_visibility mg = true → ∀ o, o ∈ l → so_owner o = principal → so_lifecycle o = ARCHIVED →
      ∃ n p, n ≤ max_levels ∧ shared_at (st_db s) (st_now s) principal (so_id o) n p).
Proof.
  intros Hok. destruct (visibility_clause_run mg principal type s) as (p & Hp & Hread & Hown & Hsees).
  set (q := λ o, p o && live_clause incl o).
  set (rows := filter (λ o, q o = true) (t_objects (st_db s))).
  exists (sort_by (object_order order) (scan rows)).
  assert (Hin : ∀ o, o ∈ sort_by (object_order order) (scan rows) ↔
    o ∈ t_objects (st_db s) ∧ p o = true ∧ live_clause incl o = true).
  { intros o. rewrite elem_of_sort_by, scan_perm. unfold rows, q. rewrite list_elem_of_filter, andb_true_iff. tauto. }
  split_and!.
  - intros limit offset. unfold list_objects. by rewrite (run_bind_ok _ _ _ _ _ Hp).
  - unfold count_objects. rewrite (run_bind_ok _ _ _ _ _ Hp). unfold select_count, gets. fold q. fold rows.
    by rewrite sort_by_perm, scan_perm.
  - rewrite sort_by_perm, scan_perm. unfold rows. apply (NoDup_fmap_1 so_id), NoDup_fmap_filter, (ok_ids _ Hok).
  - apply sort_by_sorted; [apply object_order_total|apply object_order_trans].
  - intros o (Ho & Hpo & Hl)%Hin. destruct (Hread o Hpo). done.
  - intros Hv o Ho Hw Ht Hl. apply Hin. split_and!; [done|by apply Hown|done].
  - intros Hv o (Ho & Hpo & _)%Hin Hw Har.
    destruct (Hsees Hv o Hpo) as [(x & Hx & Hid & Hlive)|(n & pr & Hn & Hsh & _)]; [|by exists n, pr].
    rewrite (objects_keyed _ _ _ Hok Hx Ho Hid) in Hlive. unfold owned_object in Hlive.
    by rewrite Har, bool_decide_eq_true_2, (bool_decide_eq_true_2 (ARCHIVED = ARCHIVED)) in Hlive.
Qed.

End ReadTheorems.

(** *** Quotas *)

Section QuotaTheorem.
Context `{host : !Host} `{sink : !AuditSink}.
Context (other_count : tables → string → list (string * string) → outcome nat).
Context (known_principal : string → bool).

(** C16: A quota holds after every create it allowed: when a manager with a quota
    checker returns from a create, every active quota on the type that counts
    objects (counted in the scope it was asked for) is still within its
    maximum in the state the create leaves, since the check and the insert are
    one transaction that adds at most one row to the count. *)
Theorem quota_respected mg rules type owner data registry reason scope s o v s' :
  mg_quota mg = Some rules →
  create_object other_count known_principal mg type owner data registry reason scope s = (Ok (o, v), s') →
  ∀ r c, r ∈ of_type RT_QUOTA rules → _type_matches r type = true → quota_from_rule r = Ok (Some c) →
    count_table c = "scoped_objects" →
    ∃ n, resources other_count scope s' c = Ok n ∧ (Z.of_nat n ≤ max_count c)%Z.
Proof.
  intros Hq Hrun r c Hr Hm Hc Htab.
  apply create_object_ok in Hrun as (s1 & Hoff & _ & _ & _ & Hroom & Htabs).
  destruct (Hroom rules Hq r Hr Hm) as (c' & Hc' & Hn). rewrite Hc in Hc'. injection Hc' as <-.
  destruct (Hn c eq_refl) as (n & Hcount & Hlt).
  assert (Ht : t_objects (st_db s') = t_objects (st_db s1) ++ [o]).
  { rewrite (off_trail_rows _ _ Hoff). by injection Htabs as -> _ _. }
  unfold resources, _count_resources in Hcount |- *.
  destruct (_build_count_query c scope) as [cl|].
  2:{ exists 0. split; [done|]. injection Hcount as <-. lia. }
  rewrite run_bind in Hcount |- *. unfold gets, lift in Hcount |- *. cbv beta in Hcount |- *.
  rewrite Htab, bool_decide_eq_true_2 in Hcount |- * by done. cbn [fst] in Hcount |- *.
  unfold count_where in Hcount |- *. unfold mbind, outcome_bind in Hcount |- *.
  destruct (where_clauses object_column cl) as [p|e]; [|done]. injection Hcount as Hcount.
  eexists. split; [reflexivity|]. rewrite Ht, filter_app, length_app, Hcount.
  rewrite filter_cons, filter_nil. case_decide; simpl; lia.
Qed.
End QuotaTheorem.
