(* ===== verification/Secrets.v ===== *)
(** * Legacy v1: the secrets layer (secrets/)

    The encryption interface with its two backends, the rows' snapshots, the
    policy manager and the vault: secrets with encrypted versions, rotation,
    reference tokens and their resolution, and the access log. *)

From S2P Require Import Prelude LegacyTypes Schema Json Trail Rules RuleClients Tenancy Visibility Objects.

(** ** Encryption backends (backend.py)

    A backend after its keys are set up; no operation of the vault changes them
    any more.  Encryption may draw on entropy and may refuse a key. *)
Class SecretBackend := {
  algorithm : string;
  encrypt : nat → string → string → outcome string;
  decrypt : string → string → outcome string;
  decrypt_encrypt : ∀ n plaintext key c, encrypt n plaintext key = Ok c → decrypt c key = Ok plaintext;
}.

Definition unknown_key (key : string) : exn := ValueError ("Unknown key_id: " +:+ key).

(** The dict of keys. *)
Definition key_material (keys : list (string * string)) (key : string) : option string :=
  snd <$> find (λ x, bool_decide (x.1 = key)) keys.

(** [InMemoryBackend]. *)
Definition memory_prefix (key : string) : string := "ENC:" +:+ key +:+ ":".

Definition memory_encrypt (keys : list (string * string)) (plaintext key : string) : outcome string :=
  match key_material keys key with
  | None => Raise (unknown_key key)
  | Some _ => Ok (memory_prefix key +:+ plaintext)
  end.

Definition memory_decrypt (keys : list (string * string)) (ciphertext key : string) : outcome string :=
  match key_material keys key with
  | None => Raise (unknown_key key)
  | Some _ =>
      let prefix := memory_prefix key in
      if String.prefix prefix ciphertext
      then Ok (String.substring (String.length prefix) (String.length ciphertext - String.length prefix) ciphertext)
      else Raise (ValueError "Invalid ciphertext for this key")
  end.

Lemma prefix_app a b : String.prefix a (a +:+ b) = true.
Proof. induction a as [|c a IH]; simpl; [by destruct b|]. by destruct (Ascii.ascii_dec c c). Qed.

Lemma substring_all s : String.substring 0 (String.length s) s = s.
Proof. induction s as [|c s IH]; simpl; [done|]. by rewrite IH. Qed.

Lemma substring_suffix a b : String.substring (String.length a) (String.length b) (a +:+ b) = b.
Proof. induction a as [|c a IH]; simpl; [apply substring_all|done]. Qed.

Lemma memory_roundtrip keys plaintext key c :
  memory_encrypt keys plaintext key = Ok c → memory_decrypt keys c key = Ok plaintext.
Proof.
  unfold memory_encrypt, memory_decrypt. destruct (key_material keys key); [|done]. intros [= <-].
  rewrite prefix_app, string_app_length, Nat.add_comm, Nat.add_sub. by rewrite substring_suffix.
Qed.

Definition InMemoryBackend (keys : list (string * string)) : SecretBackend := {|
  algorithm := "plaintext-test";
  encrypt := λ _, memory_encrypt keys;
  decrypt := memory_decrypt keys;
  decrypt_encrypt := λ _, memory_roundtrip keys;
|}.

(** [FernetBackend], over the cryptography package's Fernet: encryption under a
    key draws fresh entropy, and decryption with the same key inverts it. *)
Class Fernet := {
  fernet_encrypt : string → nat → string → string;
  fernet_decrypt : string → string → outcome string;
  fernet_inverse : ∀ key n plaintext, fernet_decrypt key (fernet_encrypt key n plaintext) = Ok plaintext;
}.

Section FernetBackend.
Context `{fernet : !Fernet}.

Definition key_encrypt (keys : list (string * string)) (n : nat) (plaintext key : string) : outcome string :=
  match key_material keys key with
  | None => Raise (unknown_key key)
  | Some k => Ok (fernet_encrypt k n plaintext)
  end.

Definition key_decrypt (keys : list (string * string)) (ciphertext key : string) : outcome string :=
  match key_material keys key with
  | None => Raise (unknown_key key)
  | Some k => fernet_decrypt k ciphertext
  end.

Lemma key_roundtrip keys n plaintext key c :
  key_encrypt keys n plaintext key = Ok c → key_decrypt keys c key = Ok plaintext.
Proof.
  unfold key_encrypt, key_decrypt. destruct (key_material keys key); [|done]. intros [= <-].
  apply fernet_inverse.
Qed.

Definition FernetBackend (keys : list (string * string)) : SecretBackend := {|
  algorithm := "fernet";
  encrypt := key_encrypt keys;
  decrypt := key_decrypt keys;
  decrypt_encrypt := key_roundtrip keys;
|}.
End FernetBackend.

(** ** Models (models.py) *)

Definition classification_value (c : SecretClassification) : string :=
  match c with STANDARD => "standard" | SENSITIVE => "sensitive" | CRITICAL => "critical" end.

Definition coerce_classification (s : string) : outcome SecretClassification :=
  match find (λ c, bool_decide (classification_value c = s)) [STANDARD; SENSITIVE; CRITICAL] with
  | Some c => Ok c
  | None => Raise (ValueError "classification must be one of: standard, sensitive, critical")
  end.

Definition secret_active (x : Secret) : bool := bool_decide (se_lifecycle x = ACTIVE).
Definition ref_active (r : SecretRef) : bool := bool_decide (sr_lifecycle r = ACTIVE).

(** [expires_at is not None and now >= expires_at]. *)
Definition past (now : Z) (expires : option Z) : bool :=
  match expires with None => false | Some e => (e <=? now)%Z end.

Definition ref_expired (now : Z) (r : SecretRef) : bool := past now (sr_expires r).

Definition by_secret (id : string) (x : Secret) : bool := bool_decide (se_id x = id).
Definition by_token (token : string) (r : SecretRef) : bool := bool_decide (sr_token r = token).
Definition of_secret (id : string) (r : SecretRef) : bool := bool_decide (sr_secret r = id).
Definition version_of (id : string) (n : nat) (v : SecretVersion) : bool :=
  bool_decide (sv_secret v = id) && (sv_version v =? n).

Section Snapshots.
Context `{host : !Host}.

Definition jtime (o : option Z) : jval := from_option (λ z, JVstr (isoformat z)) JVnull o.

Definition secret_snapshot (x : Secret) : jdict := [
  ("id", JVstr (se_id x)); ("name", JVstr (se_name x)); ("owner_id", JVstr (se_owner x));
  ("object_id", JVstr (se_object x)); ("current_version", JVint (Z.of_nat (se_version x)));
  ("classification", JVstr (classification_value (se_classification x)));
  ("description", JVstr (se_description x)); ("expires_at", jtime (se_expires x));
  ("last_rotated_at", jtime (se_rotated_at x)); ("lifecycle", JVstr (lifecycle_name (se_lifecycle x)));
  ("created_at", JVstr (isoformat (se_created_at x)))].

Definition secret_version_snapshot (v : SecretVersion) : jdict := [
  ("id", JVstr (sv_id v)); ("secret_id", JVstr (sv_secret v)); ("version", JVint (Z.of_nat (sv_version v)));
  ("encryption_algo", JVstr (sv_algo v)); ("key_id", JVstr (sv_key v));
  ("created_at", JVstr (isoformat (sv_created_at v))); ("created_by", JVstr (sv_created_by v));
  ("reason", JVstr (sv_reason v))].

Definition ref_snapshot (r : SecretRef) : jdict := [
  ("id", JVstr (sr_id r)); ("secret_id", JVstr (sr_secret r)); ("ref_token", JVstr (sr_token r));
  ("granted_to", JVstr (sr_granted_to r)); ("scope_id", jopt (sr_scope r));
  ("environment_id", jopt (sr_env r)); ("granted_at", JVstr (isoformat (sr_granted_at r)));
  ("granted_by", JVstr (sr_granted_by r)); ("expires_at", jtime (sr_expires r));
  ("lifecycle", JVstr (lifecycle_name (sr_lifecycle r)))].
End Snapshots.

(** ** Row edits *)

Definition rotated (n : nat) (ts : Z) (x : Secret) : Secret := {|
  se_id := se_id x; se_name := se_name x; se_owner := se_owner x; se_object := se_object x;
  se_created_at := se_created_at x; se_version := n; se_classification := se_classification x;
  se_description := se_description x; se_expires := se_expires x; se_rotated_at := Some ts;
  se_lifecycle := se_lifecycle x |}.

Definition archived_secret (x : Secret) : Secret := {|
  se_id := se_id x; se_name := se_name x; se_owner := se_owner x; se_object := se_object x;
  se_created_at := se_created_at x; se_version := se_version x; se_classification := se_classification x;
  se_description := se_description x; se_expires := se_expires x; se_rotated_at := se_rotated_at x;
  se_lifecycle := ARCHIVED |}.

Definition revoked (r : SecretRef) : SecretRef := {|
  sr_id := sr_id r; sr_secret := sr_secret r; sr_token := sr_token r; sr_granted_to := sr_granted_to r;
  sr_granted_at := sr_granted_at r; sr_granted_by := sr_granted_by r; sr_scope := sr_scope r;
  sr_env := sr_env r; sr_expires := sr_expires r; sr_lifecycle := ARCHIVED |}.

(** ** SecretPolicyManager (policy.py) *)

Section Policies.
Context `{host : !Host}.

Definition v_table {R} (f : vault_tables → list R) (t : tables) : list R := f (t_vault t).

Definition valid_ids (field : string) (values : list string) : lp unit :=
  raise_if (existsb (λ v, bool_decide (v = "")) values)
    (ValueError (field +:+ " entries must be non-empty strings")).

Definition coerce_opt (c : option string) : outcome (option SecretClassification) :=
  match c with None => Ok None | Some s => Some <$> coerce_classification s end.

Definition insert_policy (p : SecretPolicy) : lp unit :=
  match pl_secret p with
  | None => mret tt
  | Some id => require_row (v_table v_secrets) (by_secret id) "secret_policies.secret_id"
  end ;;
  sql_insert (v_table v_policies) set_secret_policies (λ a b, bool_decide (pl_id a = pl_id b))
    "secret_policies.id" p.

Definition create_policy (created_by : string) (secret classification : option string) (max_age : option Z)
  (auto_rotate : bool) (allowed_scopes allowed_envs : option (list string)) : lp SecretPolicy :=
  raise_if (bool_decide (secret = None) && bool_decide (classification = None))
    (ValueError "policy must target a secret_id or classification") ;;
  raise_if (from_option (λ z, (z <? 0)%Z) false max_age) (ValueError "max_age_seconds must be >= 0") ;;
  normalized ← lift (coerce_opt classification);
  valid_ids "allowed_scopes" (default [] allowed_scopes) ;;
  valid_ids "allowed_envs" (default [] allowed_envs) ;;
  match secret with
  | None => mret tt
  | Some id =>
      row ← fetch_one (v_table v_secrets) (by_secret id);
      match row with
      | Some _ => mret tt
      | None => raise (ValueError ("secret_id does not exist: " +:+ id))
      end
  end ;;
  ts ← now_utc;
  pid ← generate_id;
  let policy := {| pl_id := pid; pl_created_at := ts; pl_created_by := created_by; pl_secret := secret;
    pl_classification := normalized; pl_max_age := max_age; pl_auto := auto_rotate;
    pl_scopes := default [] allowed_scopes; pl_envs := default [] allowed_envs |} in
  insert_policy policy ;;
  mret policy.

Definition get_policy (id : string) : lp (option SecretPolicy) :=
  fetch_one (v_table v_policies) (λ p, bool_decide (pl_id p = id)).

Definition by_policy_created (a b : SecretPolicy) : bool := (pl_created_at a <=? pl_created_at b)%Z.

(** A policy on the secret itself or on its classification. *)
Definition governs (x : Secret) (p : SecretPolicy) : bool :=
  bool_decide (pl_secret p = Some (se_id x)) || bool_decide (pl_classification p = Some (se_classification x)).

Definition get_policies_for_secret (id : string) : lp (list SecretPolicy) :=
  row ← fetch_one (v_table v_secrets) (by_secret id);
  match row with
  | None => mret []
  | Some x => select_sorted (v_table v_policies) (governs x) by_policy_created
  end.

(** [if allowed and value not in allowed: return False]. *)
Definition list_admits (value : string) (allowed : list string) : bool :=
  bool_decide (allowed = []) || bool_decide (value ∈ allowed).

Definition check_scope_allowed (id scope : string) : lp bool :=
  policies ← get_policies_for_secret id;
  mret (forallb (λ p, list_admits scope (pl_scopes p)) policies).

Definition check_env_allowed (id env : string) : lp bool :=
  policies ← get_policies_for_secret id;
  mret (forallb (λ p, list_admits env (pl_envs p)) policies).

(** Instants are microseconds, ages seconds. *)
Definition overdue (now : Z) (x : Secret) (p : SecretPolicy) : bool :=
  match pl_max_age p with
  | None => false
  | Some m => (m * 1000000 <? now - default (se_created_at x) (se_rotated_at x))%Z
  end.

Definition needs_rotation (id : string) : lp bool :=
  row ← fetch_one (v_table v_secrets) (by_secret id);
  match row with
  | None => mret false
  | Some x =>
      policies ← get_policies_for_secret id;
      now ← now_utc;
      mret (existsb (overdue now x) policies)
  end.

Definition list_policies (classification : option string) (limit : nat) : lp (list SecretPolicy) :=
  l ← select_sorted (v_table v_policies) (λ p, match classification with
        | None => true
        | Some c => bool_decide (classification_value <$> pl_classification p = Some c)
        end) by_policy_created;
  mret (take limit l).
End Policies.

(** ** SecretVault (vault.py) *)

Section Vault.
Context `{host : !Host} `{sink : !AuditSink} `{enc : !SecretBackend}.
Context (other_count : tables → string → list (string * string) → outcome nat).
Context (known_principal : string → bool).
(** The key made when the vault was, the object manager, and whether the vault has
    a policy manager. *)
Context (default_key : string) (objects : option ScopedManager) (has_policies : bool).

(** [key_id or self._default_key_id]. *)
Definition use_key (key : option string) : string :=
  match key with Some k => if bool_decide (k = "") then default_key else k | None => default_key end.

(** Encryption draws on entropy that differs from call to call. *)
Definition encrypt_value (plaintext key : string) : lp string :=
  n ← gets st_next;
  lift (encrypt n plaintext key).

Definition insert_secret (x : Secret) : lp unit :=
  raise_if (negb (known_principal (se_owner x))) (IntegrityError "secrets.owner_id") ;;
  require_row t_objects (of_object (se_object x)) "secrets.object_id" ;;
  sql_insert (v_table v_secrets) set_secrets (λ a b, bool_decide (se_id a = se_id b)) "secrets.id" x.

Definition insert_secret_version (v : SecretVersion) : lp unit :=
  require_row (v_table v_secrets) (by_secret (sv_secret v)) "secret_versions.secret_id" ;;
  sql_insert (v_table v_versions) set_secret_versions
    (λ a b, bool_decide (sv_id a = sv_id b) ||
            (bool_decide (sv_secret a = sv_secret b) && (sv_version a =? sv_version b)))
    "secret_versions" v.

Definition insert_ref (r : SecretRef) : lp unit :=
  require_row (v_table v_secrets) (by_secret (sr_secret r)) "secret_refs.secret_id" ;;
  raise_if (negb (known_principal (sr_granted_to r))) (IntegrityError "secret_refs.granted_to") ;;
  sql_insert (v_table v_refs) set_secret_refs
    (λ a b, bool_decide (sr_id a = sr_id b) || bool_decide (sr_token a = sr_token b)) "secret_refs" r.

Definition insert_access (e : SecretAccessEntry) : lp unit :=
  require_row (v_table v_secrets) (by_secret (sl_secret e)) "secret_access_log.secret_id" ;;
  raise_if (negb (known_principal (sl_accessor e))) (IntegrityError "secret_access_log.accessor_id") ;;
  sql_insert (v_table v_log) set_secret_log (λ a b, bool_decide (sl_id a = sl_id b)) "secret_access_log.id" e.

(** *** Secrets *)

Definition new_secret_version (id secret : string) (n : nat) (value key : string) (ts : Z) (by_ reason : string)
  : SecretVersion := {|
  sv_id := id; sv_secret := secret; sv_version := n; sv_value := value; sv_algo := algorithm; sv_key := key;
  sv_created_at := ts; sv_created_by := by_; sv_reason := reason |}.

Definition no_manager : exn := ValueError
  "SecretVault requires object_manager for create_secret() so secrets.object_id can reference a real scoped object".

Definition create_secret (name plaintext owner description classification : string) (expires : option Z)
  (key : option string) : lp (Secret * SecretVersion) :=
  match objects with
  | None => raise no_manager
  | Some mg =>
      ts ← now_utc;
      sid ← generate_id;
      cls ← lift (coerce_classification classification);
      created ← create_object other_count known_principal mg "secret" owner
        [("name", JVstr name); ("classification", JVstr classification)] None "created" None;
      encrypted ← encrypt_value plaintext (use_key key);
      let secret := {| se_id := sid; se_name := name; se_owner := owner; se_object := so_id created.1;
        se_created_at := ts; se_version := 1; se_classification := cls; se_description := description;
        se_expires := expires; se_rotated_at := None; se_lifecycle := ACTIVE |} in
      insert_secret secret ;;
      vid ← generate_id;
      let version := new_secret_version vid sid 1 encrypted (use_key key) ts owner "initial" in
      insert_secret_version version ;;
      audit (states_req None (Some (secret_snapshot secret)) (request owner ActionType.SECRET_CREATE "secret" sid)) ;;
      mret (secret, version)
  end.

Definition get_secret (id : string) : lp (option Secret) := fetch_one (v_table v_secrets) (by_secret id).

Definition get_secret_or_raise (id : string) : lp Secret :=
  row ← get_secret id;
  match row with
  | Some x => mret x
  | None => raise (SecretNotFound ("Secret " +:+ id +:+ " not found"))
  end.

Definition newest_secret (a b : Secret) : bool := (se_created_at b <=? se_created_at a)%Z.

Definition list_secrets (owner classification : option string) (active_only : bool) (limit : nat)
  : lp (list Secret) :=
  l ← select_sorted (v_table v_secrets) (λ x,
        from_option (λ o, bool_decide (se_owner x = o)) true owner &&
        from_option (λ c, bool_decide (classification_value (se_classification x) = c)) true classification &&
        (negb active_only || secret_active x)) newest_secret;
  mret (take limit l).

Definition archive_secret (id actor : string) : lp unit :=
  secret ← get_secret_or_raise id;
  sql_update (v_table v_secrets) set_secrets (by_secret id) archived_secret ;;
  sql_update (v_table v_refs) set_secret_refs (of_secret id) revoked ;;
  audit (states_req (Some (secret_snapshot secret)) None (request actor ActionType.SECRET_REVOKE "secret" id)).

Definition _require_active_secret (id : string) (allow_expired : bool) : lp Secret :=
  secret ← get_secret_or_raise id;
  raise_if (negb (secret_active secret)) (SecretAccessDenied "Secret is archived") ;;
  now ← now_utc;
  raise_if (negb allow_expired && past now (se_expires secret)) (SecretAccessDenied "Secret has expired") ;;
  mret secret.

(** *** Rotation *)

Definition rotate (id new_value rotated_by reason : string) (key : option string) : lp SecretVersion :=
  secret ← _require_active_secret id false;
  ts ← now_utc;
  let n := S (se_version secret) in
  encrypted ← encrypt_value new_value (use_key key);
  vid ← generate_id;
  let version := new_secret_version vid id n encrypted (use_key key) ts rotated_by reason in
  insert_secret_version version ;;
  sql_update (v_table v_secrets) set_secrets (by_secret id) (rotated n ts) ;;
  audit (states_req None (Some (secret_version_snapshot version))
           (request rotated_by ActionType.SECRET_ROTATE "secret" id)) ;;
  mret version.

Definition latest_first (a b : SecretVersion) : bool := sv_version b <=? sv_version a.

Definition get_secret_versions (id : string) : lp (list SecretVersion) :=
  select_sorted (v_table v_versions) (λ v, bool_decide (sv_secret v = id)) latest_first.

Definition get_secret_version (id : string) (n : nat) : lp (option SecretVersion) :=
  fetch_one (v_table v_versions) (version_of id n).

(** *** Policies on references *)

Definition restricted (f : SecretPolicy → list string) (policies : list SecretPolicy) : bool :=
  existsb (λ p, negb (bool_decide (f p = []))) policies.

(** One kind of restriction on a grant: the value must be given and admitted. *)
Definition grant_check (id : string) (f : SecretPolicy → list string) (check : string → string → lp bool)
  (policies : list SecretPolicy) (value : option string) (missing denied : string) : lp unit :=
  if restricted f policies then
    match value with
    | None => raise (SecretAccessDenied missing)
    | Some v => b ← check id v; raise_if (negb b) (SecretAccessDenied denied)
    end
  else mret tt.

Definition _enforce_policy_restrictions_on_grant (id : string) (scope env : option string) : lp unit :=
  if has_policies then
    policies ← get_policies_for_secret id;
    grant_check id pl_scopes check_scope_allowed policies scope
      "Policy-restricted secret refs must specify scope_id" "Secret policy denies the requested scope" ;;
    grant_check id pl_envs check_env_allowed policies env
      "Policy-restricted secret refs must specify environment_id" "Secret policy denies the requested environment"
  else mret tt.

Definition scope_denied : exn := SecretAccessDenied "Secret policy denies access from this scope".
Definition env_denied : exn := SecretAccessDenied "Secret policy denies access from this environment".

(** One kind of restriction on a resolution. *)
Definition resolve_check (id : string) (f : SecretPolicy → list string) (check : string → string → lp bool)
  (policies : list SecretPolicy) (value : option string) (e : exn) : lp unit :=
  if restricted f policies then
    ok ← match value with None => mret false | Some v => check id v end;
    raise_if (negb ok) e
  else mret tt.

Definition _enforce_policy_restrictions_on_resolve (id : string) (scope env : option string) : lp unit :=
  if has_policies then
    policies ← get_policies_for_secret id;
    resolve_check id pl_scopes check_scope_allowed policies scope scope_denied ;;
    resolve_check id pl_envs check_env_allowed policies env env_denied
  else mret tt.

(** *** References *)

Definition grant_ref (id granted_to granted_by : string) (scope env : option string) (expires : option Z)
  : lp SecretRef :=
  _require_active_secret id false ;;
  _enforce_policy_restrictions_on_grant id scope env ;;
  ts ← now_utc;
  rid ← generate_id;
  ref_token ← generate_id;
  let ref := {| sr_id := rid; sr_secret := id; sr_token := ref_token; sr_granted_to := granted_to;
    sr_granted_at := ts; sr_granted_by := granted_by; sr_scope := scope; sr_env := env;
    sr_expires := expires; sr_lifecycle := ACTIVE |} in
  insert_ref ref ;;
  audit (states_req None (Some (ref_snapshot ref)) (request granted_by ActionType.SECRET_REF_GRANT "secret_ref" rid)) ;;
  mret ref.

Definition revoke_ref (ref_id revoked_by : string) : lp unit :=
  sql_update (v_table v_refs) set_secret_refs (λ r, bool_decide (sr_id r = ref_id)) revoked ;;
  audit (request revoked_by ActionType.SECRET_REVOKE "secret_ref" ref_id).

Definition get_ref (ref_id : string) : lp (option SecretRef) :=
  fetch_one (v_table v_refs) (λ r, bool_decide (sr_id r = ref_id)).

Definition get_ref_by_token (token : string) : lp (option SecretRef) := fetch_one (v_table v_refs) (by_token token).

Definition list_refs (id : string) (active_only : bool) : lp (list SecretRef) :=
  select (v_table v_refs) (λ r, of_secret id r && (negb active_only || ref_active r)).

(** *** The access log *)

Definition _log_access (secret : string) (ref : option string) (accessor type : string) (result : AccessResult)
  (scope env : option string) : lp unit :=
  ts ← now_utc;
  aid ← generate_id;
  insert_access {| sl_id := aid; sl_secret := secret; sl_ref := ref; sl_accessor := accessor; sl_type := type;
    sl_at := ts; sl_env := env; sl_scope := scope; sl_result := result |}.

Definition newest_access (a b : SecretAccessEntry) : bool := (sl_at b <=? sl_at a)%Z.

Definition get_access_log (id : string) (limit : nat) : lp (list SecretAccessEntry) :=
  l ← select_sorted (v_table v_log) (λ e, bool_decide (sl_secret e = id)) newest_access;
  mret (take limit l).

(** *** Resolution *)

Definition invalid_token : exn := SecretAccessDenied "Invalid ref token".

(** The checks of the reference; each refusal is logged first. *)
Definition check_ref (ref : SecretRef) (accessor : string) (scope env : option string) : lp unit :=
  let refuse (result : AccessResult) (e : exn) : lp unit :=
    _log_access (sr_secret ref) (Some (sr_id ref)) accessor "resolve" result scope env ;; raise e in
  (if negb (ref_active ref) then refuse DENIED (SecretAccessDenied "Ref has been revoked") else mret tt) ;;
  now ← now_utc;
  (if ref_expired now ref then refuse EXPIRED (SecretRefExpired "Ref has expired") else mret tt) ;;
  (if negb (bool_decide (sr_granted_to ref = accessor))
   then refuse DENIED (SecretAccessDenied "Accessor does not match ref grant") else mret tt) ;;
  (if bool_decide (sr_scope ref ≠ None) && negb (bool_decide (scope = sr_scope ref))
   then refuse DENIED (SecretAccessDenied "Ref is restricted to a different scope") else mret tt) ;;
  (if bool_decide (sr_env ref ≠ None) && negb (bool_decide (env = sr_env ref))
   then refuse DENIED (SecretAccessDenied "Ref is restricted to a different environment") else mret tt).

(** ... and the value behind it, read and decrypted. *)
Definition read_secret (id : string) (scope env : option string) : lp string :=
  secret ← _require_active_secret id false;
  _enforce_policy_restrictions_on_resolve id scope env ;;
  ver ← get_secret_version id (se_version secret);
  match ver with
  | None => raise (SecretNotFound
      ("Version " +:+ pretty (se_version secret) +:+ " not found for secret " +:+ id))
  | Some v => lift (decrypt (sv_value v) (sv_key v))
  end.

Definition resolve_token (token accessor : string) (scope env : option string) : lp string :=
  found ← get_ref_by_token token;
  match found with
  | None => raise invalid_token
  | Some ref =>
      check_ref ref accessor scope env ;;
      plaintext ← read_secret (sr_secret ref) scope env;
      _log_access (sr_secret ref) (Some (sr_id ref)) accessor "resolve" SUCCESS scope env ;;
      audit (request accessor ActionType.SECRET_REF_RESOLVE "secret" (sr_secret ref)) ;;
      mret plaintext
  end.
End Vault.

(** ** The invariant of the vault *)

Record vault_ok (t : tables) : Prop := {
  vo_ids : NoDup (se_id <$> v_table v_secrets t);
  vo_tokens : NoDup (sr_token <$> v_table v_refs t);
  vo_numbers : NoDup ((λ v, (sv_secret v, sv_version v)) <$> v_table v_versions t);
  vo_versions : ∀ v, v ∈ v_table v_versions t →
    ∃ x, x ∈ v_table v_secrets t ∧ se_id x = sv_secret v ∧ 1 ≤ sv_version v ≤ se_version x;
  vo_current : ∀ x, x ∈ v_table v_secrets t →
    (∃ v, v ∈ v_table v_versions t ∧ sv_secret v = se_id x) →
    ∃ v, v ∈ v_table v_versions t ∧ sv_secret v = se_id x ∧ sv_version v = se_version x;
  vo_refs : ∀ r, r ∈ v_table v_refs t → ∃ x, x ∈ v_table v_secrets t ∧ se_id x = sr_secret r;
  vo_archived : ∀ x r, x ∈ v_table v_secrets t → r ∈ v_table v_refs t → sr_secret r = se_id x →
    secret_active x = false → ref_active r = false;
}.

(** How a secret and a reference may change. *)
Definition later_secret (x x' : Secret) : Prop :=
  se_id x' = se_id x ∧ se_name x' = se_name x ∧ se_owner x' = se_owner x ∧ se_object x' = se_object x ∧
  se_created_at x' = se_created_at x ∧ se_classification x' = se_classification x ∧
  se_expires x' = se_expires x ∧ se_version x ≤ se_version x' ∧
  (secret_active x = false → secret_active x' = false).

Definition later_ref (r r' : SecretRef) : Prop := r' = r ∨ r' = revoked r.

Record vault_later (t t' : tables) : Prop := {
  vl_secrets : ∀ x, x ∈ v_table v_secrets t → ∃ x', x' ∈ v_table v_secrets t' ∧ later_secret x x';
  vl_versions : v_table v_versions t `prefix_of` v_table v_versions t';
  vl_refs : ∀ r, r ∈ v_table v_refs t → ∃ r', r' ∈ v_table v_refs t' ∧ later_ref r r';
  vl_log : v_table v_log t `prefix_of` v_table v_log t';
}.

Lemma later_secret_refl x : later_secret x x.
Proof. by unfold later_secret. Qed.

Lemma later_secret_trans x y z : later_secret x y → later_secret y z → later_secret x z.
Proof. unfold later_secret. intros. destruct_and!. split_and!; try congruence; [lia|auto]. Qed.

Lemma later_ref_trans r r' r'' : later_ref r r' → later_ref r' r'' → later_ref r r''.
Proof. intros [->| ->] [->| ->]; unfold later_ref; auto. Qed.

#[export] Instance vault_later_preorder : PreOrder vault_later.
Proof.
  split.
  - intros t. split; [|done| |done].
    + intros x Hx. exists x. split; [done|apply later_secret_refl].
    + intros r Hr. exists r. split; [done|by left].
  - intros t1 t2 t3 [A1 A2 A3 A4] [B1 B2 B3 B4]. split; [|by etrans| |by etrans].
    + intros x Hx. destruct (A1 x Hx) as (y & Hy & H1). destruct (B1 y Hy) as (z & Hz & H2).
      exists z. split; [done|by eapply later_secret_trans].
    + intros r Hr. destruct (A3 r Hr) as (y & Hy & H1). destruct (B3 y Hy) as (z & Hz & H2).
      exists z. split; [done|by eapply later_ref_trans].
Qed.

(** The vault's tables are all the invariant looks at. *)
Lemma same_vault_ok t t' :
  t_vault t' = t_vault t → vault_ok t → vault_ok t' ∧ vault_later t t'.
Proof.
  intros H [A1 A2 A3 A4 A5 A6 A7]. split.
  - split; unfold v_table in *; by rewrite H.
  - assert (Hr : vault_later t t) by done. destruct Hr as [B1 B2 B3 B4].
    split; unfold v_table in *; by rewrite H.
Qed.

Definition same_vault : relation store := λ s s', t_vault (st_db s') = t_vault (st_db s).

#[export] Instance same_vault_preorder : PreOrder same_vault.
Proof. split; [by intros s|]. intros s1 s2 s3 H1 H2. unfold same_vault in *. congruence. Qed.

Section VaultRows.
Context (t : tables).

Lemma secret_unique x y :
  vault_ok t → x ∈ v_table v_secrets t → y ∈ v_table v_secrets t → se_id x = se_id y → x = y.
Proof. intros Hok. apply NoDup_fmap_inj_in, Hok. Qed.

(** *** Inserting rows *)

Lemma vault_insert_secret x :
  vault_ok t → (∀ y, y ∈ v_table v_secrets t → se_id y ≠ se_id x) → secret_active x = true →
  vault_ok (set_secrets (v_table v_secrets t ++ [x]) t) ∧
  vault_later t (set_secrets (v_table v_secrets t ++ [x]) t).
Proof.
  intros [A1 A2 A3 A4 A5 A6 A7] Hnew Hact.
  assert (Hin : ∀ y, y ∈ v_table v_secrets (set_secrets (v_table v_secrets t ++ [x]) t) ↔
    y ∈ v_table v_secrets t ∨ y = x) by (intros y; unfold v_table; simpl; by rewrite elem_of_app, list_elem_of_singleton).
  split.
  - split; [|exact A2|exact A3| | | |].
    + unfold v_table. simpl. rewrite fmap_app. apply NoDup_app. split_and!; [exact A1| |apply NoDup_singleton].
      intros i (y & -> & Hy)%list_elem_of_fmap Hi%list_elem_of_singleton.
      by destruct (Hnew y Hy).
    + intros v Hv. destruct (A4 v Hv) as (y & Hy & ?). exists y. split; [apply Hin; by left|done].
    + intros y [Hy| ->]%Hin Hv; [by apply A5|]. exfalso. destruct Hv as (v & Hv & Hid).
      destruct (A4 v Hv) as (z & Hz & Hzid & _). apply (Hnew z Hz). congruence.
    + intros r Hr. destruct (A6 r Hr) as (y & Hy & ?). exists y. split; [apply Hin; by left|done].
    + intros y r [Hy| ->]%Hin Hr Hid Hina; [by eapply A7|congruence].
  - split; [|done| |done].
    + intros y Hy. exists y. split; [apply Hin; by left|apply later_secret_refl].
    + intros r Hr. exists r. split; [done|by left].
Qed.
(** A new version of the secret [sv_secret v], the secret's row keeping up. *)
Lemma vault_insert_version v g t' :
  t_vault t' = VaultTables (g <$> v_table v_secrets t) (v_table v_versions t ++ [v]) (v_table v_refs t)
                 (v_table v_log t) (v_table v_policies t) →
  (∃ x, x ∈ v_table v_secrets t ∧ se_id x = sv_secret v) →
  (∀ w, w ∈ v_table v_versions t → sv_secret w = sv_secret v → sv_version w ≠ sv_version v) →
  (∀ y, y ∈ v_table v_secrets t → later_secret y (g y) ∧ secret_active (g y) = secret_active y ∧
        if decide (se_id y = sv_secret v) then se_version (g y) = sv_version v else se_version (g y) = se_version y) →
  1 ≤ sv_version v → vault_ok t → vault_ok t' ∧ vault_later t t'.
Proof.
  intros Ht' (x & Hx & Hid) Hnew Hg Hpos [A1 A2 A3 A4 A5 A6 A7].
  assert (Hgid : ∀ y, y ∈ v_table v_secrets t → se_id (g y) = se_id y) by (intros y Hy; apply (Hg y Hy)).
  assert (Hgle : ∀ y, y ∈ v_table v_secrets t → se_version y ≤ se_version (g y)) by (intros y Hy; apply (Hg y Hy)).
  split.
  - split; unfold v_table in *; rewrite Ht'; simpl.
    + rewrite <-list_fmap_compose. by rewrite (list_fmap_ext _ se_id) by (intros ? y Hy%list_elem_of_lookup_2; by apply Hgid).
    + exact A2.
    + rewrite fmap_app. apply NoDup_app. split_and!; [exact A3| |apply NoDup_singleton].
      intros i (w & -> & Hw)%list_elem_of_fmap [= Hs Hn]%list_elem_of_singleton. by apply (Hnew w).
    + intros w [Hw| ->%list_elem_of_singleton]%elem_of_app.
      * destruct (A4 w Hw) as (y & Hy & Hyid & Hle). exists (g y). rewrite Hgid by done.
        split_and!; [by apply list_elem_of_fmap_2|done|lia|specialize (Hgle y Hy); lia].
      * exists (g x). rewrite Hgid by done. split_and!; [by apply list_elem_of_fmap_2|done|done|].
        destruct (Hg x Hx) as (_ & _ & Hv). rewrite decide_True in Hv by done. lia.
    + intros z (y & -> & Hy)%list_elem_of_fmap (w & Hw & Hwid). rewrite Hgid in * by done.
      destruct (Hg y Hy) as (_ & _ & Hv). destruct (decide (se_id y = sv_secret v)) as [Heq|Hne].
      * exists v. split_and!; [apply elem_of_app; right; by apply list_elem_of_singleton|done|done].
      * destruct (A5 y Hy) as (u & Hu & Huid & Hun).
        { exists w. apply elem_of_app in Hw as [Hw| ->%list_elem_of_singleton]; [done|congruence]. }
        exists u. split_and!; [apply elem_of_app; by left|done|congruence].
    + intros r Hr. destruct (A6 r Hr) as (y & Hy & Hyr). exists (g y). rewrite Hgid by done.
      split; [by apply list_elem_of_fmap_2|done].
    + intros z r (y & -> & Hy)%list_elem_of_fmap Hr. rewrite Hgid by done. destruct (Hg y Hy) as (_ & -> & _). by apply A7.
  - split; unfold v_table in *; rewrite Ht'; simpl; [|by eexists| |done].
    + intros y Hy. exists (g y). split; [by apply list_elem_of_fmap_2|apply (Hg y Hy)].
    + intros r Hr. exists r. split; [done|by left].
Qed.

(** Secrets and references retired together. *)
Lemma vault_retire g h t' :
  t_vault t' = VaultTables (g <$> v_table v_secrets t) (v_table v_versions t) (h <$> v_table v_refs t)
                 (v_table v_log t) (v_table v_policies t) →
  (∀ y, later_secret y (g y) ∧ se_version (g y) = se_version y) →
  (∀ r, later_ref r (h r)) →
  (∀ y r, secret_active (g y) = false → secret_active y = true → sr_secret r = se_id y → ref_active (h r) = false) →
  vault_ok t → vault_ok t' ∧ vault_later t t'.
Proof.
  intros Ht' Hg Hh Hret [A1 A2 A3 A4 A5 A6 A7].
  assert (Hgid : ∀ y, se_id (g y) = se_id y) by (intros y; apply (Hg y)).
  assert (Hrev : ∀ r, sr_token (h r) = sr_token r ∧ sr_secret (h r) = sr_secret r ∧
                      (ref_active r = false → ref_active (h r) = false))
    by (intros r; by destruct (Hh r) as [-> | ->]).
  split.
  - split; unfold v_table in *; rewrite Ht'; simpl.
    + rewrite <-list_fmap_compose. by rewrite (list_fmap_ext _ se_id) by (intros; apply Hgid).
    + rewrite <-list_fmap_compose. by rewrite (list_fmap_ext _ sr_token) by (intros; apply (Hrev _)).
    + exact A3.
    + intros w Hw. destruct (A4 w Hw) as (y & Hy & Hyid & Hle). exists (g y). destruct (Hg y) as [_ ->].
      rewrite Hgid. split_and!; [by apply list_elem_of_fmap_2|done|lia|lia].
    + intros z (y & -> & Hy)%list_elem_of_fmap. destruct (Hg y) as [_ ->]. rewrite Hgid. by apply A5.
    + intros q (r & -> & Hr)%list_elem_of_fmap. destruct (A6 r Hr) as (y & Hy & Hyr). exists (g y).
      destruct (Hrev r) as (_ & -> & _). rewrite Hgid. split; [by apply list_elem_of_fmap_2|done].
    + intros z q (y & -> & Hy)%list_elem_of_fmap (r & -> & Hr)%list_elem_of_fmap. rewrite Hgid.
      destruct (Hrev r) as (_ & -> & Hr'). intros Hid Hina. destruct (secret_active y) eqn:Hact.
      * by eapply Hret.
      * apply Hr'. by eapply A7.
  - split; unfold v_table in *; rewrite Ht'; simpl; [|done| |done].
    + intros y Hy. exists (g y). split; [by apply list_elem_of_fmap_2|apply (Hg y)].
    + intros r Hr. exists (h r). split; [by apply list_elem_of_fmap_2|apply Hh].
Qed.

Lemma vault_insert_ref r x :
  vault_ok t → x ∈ v_table v_secrets t → se_id x = sr_secret r → secret_active x = true →
  (∀ q, q ∈ v_table v_refs t → sr_token q ≠ sr_token r) →
  vault_ok (set_secret_refs (v_table v_refs t ++ [r]) t) ∧
  vault_later t (set_secret_refs (v_table v_refs t ++ [r]) t).
Proof.
  intros Hok Hx Hid Hact Hnew. pose proof Hok as [A1 A2 A3 A4 A5 A6 A7].
  assert (Hin : ∀ q, q ∈ v_table v_refs (set_secret_refs (v_table v_refs t ++ [r]) t) ↔
    q ∈ v_table v_refs t ∨ q = r) by (intros q; unfold v_table; simpl; by rewrite elem_of_app, list_elem_of_singleton).
  split.
  - split; [exact A1| |exact A3|exact A4|exact A5| |].
    + unfold v_table. simpl. rewrite fmap_app. apply NoDup_app. split_and!; [exact A2| |apply NoDup_singleton].
      intros i (q & -> & Hq)%list_elem_of_fmap Hi%list_elem_of_singleton. by destruct (Hnew q Hq).
    + intros q [Hq| ->]%Hin; [by apply A6|]. by exists x.
    + intros y q Hy [Hq| ->]%Hin Hs Hina; [by eapply A7|].
      rewrite (secret_unique x y Hok Hx Hy) in Hact by congruence. congruence.
  - split; [|done| |done].
    + intros y Hy. exists y. split; [done|apply later_secret_refl].
    + intros q Hq. exists q. split; [apply Hin; by left|by left].
Qed.

Lemma vault_insert_log e :
  vault_ok t →
  vault_ok (set_secret_log (v_table v_log t ++ [e]) t) ∧ vault_later t (set_secret_log (v_table v_log t ++ [e]) t).
Proof.
  intros [A1 A2 A3 A4 A5 A6 A7]. split; [by split|]. split; [|done| |by eexists].
  - intros y Hy. exists y. split; [done|apply later_secret_refl].
  - intros q Hq. exists q. split; [done|by left].
Qed.
End VaultRows.

(** ** The operations keep the invariant *)

Section VaultOps.
Context `{host : !Host} `{sink : !AuditSink} `{enc : !SecretBackend}.
Context (other_count : tables → string → list (string * string) → outcome nat).
Context (known_principal : string → bool) (default_key : string) (objects : option ScopedManager).
Context (has_policies : bool).

Abbreviation vkeeps := (keeps vault_ok vault_later).

Lemma vkeeps_same {R} (m : lp R) s : same_vault s (m s).2 → vkeeps m s.
Proof. intros H Hok. by apply same_vault_ok. Qed.

Lemma off_trail_vault s s' : off_trail s s' → same_vault s s'.
Proof. intros [H _]. by injection H. Qed.

Lemma respects_vault {R} (m : lp R) : respects off_trail m → respects same_vault m.
Proof. intros H s. apply off_trail_vault, H. Qed.

Lemma transaction_vault {R} (m : lp R) s :
  (∀ r s', m s = (Ok r, s') → same_vault s s') → same_vault s (transaction m s).2.
Proof.
  intros H. unfold transaction. destruct (m s) as [[r|e] s'] eqn:Hm; [|done]. by apply (H r).
Qed.

(** Creating the backing object does not touch the vault. *)
Lemma create_object_vault mg type owner data registry reason scope :
  respects same_vault (create_object other_count known_principal mg type owner data registry reason scope).
Proof.
  unfold create_object. respects_step; [apply respects_vault, check_rules_off_trail|].
  respects_step; [apply respects_vault, rate_gate_off_trail|].
  respects_step; [apply respects_vault, now_off_trail|].
  respects_step; [apply respects_vault, new_id_off_trail|].
  respects_step; [apply respects_vault, new_id_off_trail|]. cbv zeta. respects_step.
  - intros s. apply transaction_vault. intros [] s' H.
    apply bind_ok_inv in H as (? & s1 & [-> _]%okeeps_quota_gate & H).
    apply persist_pair_ok in H as (_ & _ & ->). done.
  - respects_step; [apply respects_vault, audit_off_trail|respects_step].
Qed.

Lemma vkeeps_audit {R} q (k : unit → lp R) s : (∀ s1, vkeeps (k tt) s1) → vkeeps (audit q ≫= k) s.
Proof.
  intros Hk. apply keeps_bind; [exact _|apply vkeeps_same, off_trail_vault, audit_off_trail|].
  intros [] s1 _. apply Hk.
Qed.

Lemma vkeeps_ret {R} (a : R) s : vkeeps (mret a) s.
Proof. by apply vkeeps_same. Qed.

Lemma get_secret_or_raise_ok id s x s' :
  get_secret_or_raise id s = (Ok x, s') → s' = s ∧ x ∈ v_table v_secrets (st_db s) ∧ se_id x = id.
Proof.
  unfold get_secret_or_raise. intros H. apply bind_ok_inv in H as (o & s1 & [-> Ho]%fetch_one_ok & H).
  destruct o as [y|]; [|done]. apply mret_ok in H as [-> ->]. by destruct Ho as [? ?%bool_decide_eq_true_1].
Qed.

Lemma require_active_ok id s x s' :
  _require_active_secret id false s = (Ok x, s') →
  s' = s ∧ x ∈ v_table v_secrets (st_db s) ∧ se_id x = id ∧ secret_active x = true ∧
  past (st_now s) (se_expires x) = false.
Proof.
  unfold _require_active_secret. intros H.
  apply bind_ok_inv in H as (y & s1 & (-> & Hy & Hid)%get_secret_or_raise_ok & H).
  apply bind_ok_inv in H as ([] & s1 & [Ha%negb_false_iff ->]%raise_if_ok & H).
  apply bind_ok_inv in H as (n & s1 & [-> ->]%now_utc_ok & H).
  apply bind_ok_inv in H as ([] & s1 & [Hp ->]%raise_if_ok & H). by apply mret_ok in H as [-> ->].
Qed.

Lemma require_active_vault id b s : same_vault s (_require_active_secret id b s).2.
Proof.
  revert s. change (respects same_vault (_require_active_secret id b)).
  unfold _require_active_secret, get_secret_or_raise, get_secret, fetch_one, select, now_utc.
  repeat respects_step.
Qed.

Lemma insert_secret_ok x s u s' :
  insert_secret known_principal x s = (Ok u, s') →
  s' = put_db (set_secrets (v_table v_secrets (st_db s) ++ [x]) (st_db s)) s ∧
  ∀ y, y ∈ v_table v_secrets (st_db s) → se_id y ≠ se_id x.
Proof.
  unfold insert_secret. intros H. apply bind_ok_inv in H as ([] & s1 & [_ ->]%raise_if_ok & H).
  apply bind_ok_inv in H as (? & s1 & [-> _]%require_row_ok & H). apply sql_insert_ok in H as [Hc ->].
  split; [done|]. intros y Hy. specialize (Hc y Hy). apply bool_decide_eq_false_1 in Hc. congruence.
Qed.

Lemma insert_secret_version_ok v s u s' :
  insert_secret_version v s = (Ok u, s') →
  s' = put_db (set_secret_versions (v_table v_versions (st_db s) ++ [v]) (st_db s)) s ∧
  (∃ x, x ∈ v_table v_secrets (st_db s) ∧ se_id x = sv_secret v) ∧
  ∀ w, w ∈ v_table v_versions (st_db s) → sv_secret w = sv_secret v → sv_version w ≠ sv_version v.
Proof.
  unfold insert_secret_version. intros H.
  apply bind_ok_inv in H as (? & s1 & (-> & x & Hx & Hid%bool_decide_eq_true_1)%require_row_ok & H).
  apply sql_insert_ok in H as [Hc ->]. split_and!; [done|by exists x|]. intros w Hw Hs Hn.
  specialize (Hc w Hw). rewrite orb_false_iff, Hs, Hn, (bool_decide_eq_true_2 (sv_secret v = _)), Nat.eqb_refl in Hc by done.
  by destruct Hc.
Qed.

Lemma insert_ref_ok r s u s' :
  insert_ref known_principal r s = (Ok u, s') →
  s' = put_db (set_secret_refs (v_table v_refs (st_db s) ++ [r]) (st_db s)) s ∧
  ∀ q, q ∈ v_table v_refs (st_db s) → sr_token q ≠ sr_token r.
Proof.
  unfold insert_ref. intros H. apply bind_ok_inv in H as (? & s1 & [-> _]%require_row_ok & H).
  apply bind_ok_inv in H as ([] & s1 & [_ ->]%raise_if_ok & H). apply sql_insert_ok in H as [Hc ->].
  split; [done|]. intros q Hq. specialize (Hc q Hq).
  rewrite orb_false_iff, !bool_decide_eq_false in Hc. destruct Hc as [_ Hc]. congruence.
Qed.

Lemma insert_access_ok e s u s' :
  insert_access known_principal e s = (Ok u, s') →
  s' = put_db (set_secret_log (v_table v_log (st_db s) ++ [e]) (st_db s)) s.
Proof.
  unfold insert_access. intros H. apply bind_ok_inv in H as (? & s1 & [-> _]%require_row_ok & H).
  apply bind_ok_inv in H as ([] & s1 & [_ ->]%raise_if_ok & H). by apply sql_insert_ok in H as [_ ->].
Qed.
(** A statement that raises changes nothing. *)
Definition atomic {R} (m : lp R) : Prop := ∀ s e s', m s = (Raise e, s') → s' = s.

Lemma atomic_bind {R R'} (m : lp R) (f : R → lp R') :
  (∀ s, (m s).2 = s) → (∀ a, atomic (f a)) → atomic (m ≫= f).
Proof.
  intros Hm Hf s e s'. rewrite run_bind. specialize (Hm s). destruct (m s) as [[a|e'] s1]; simpl in Hm; subst.
  - apply Hf.
  - by intros [= _ <-].
Qed.

Lemma sql_insert_atomic {R} (tbl : tables → list R) put clash c (r : R) : atomic (sql_insert tbl put clash c r).
Proof. intros s e s' H. by eapply sql_insert_raise. Qed.

Lemma raise_if_pure b e (s : store) : (raise_if b e s).2 = s.
Proof. by destruct b. Qed.

Lemma pure_atomic {R} (m : lp R) : (∀ s, (m s).2 = s) → atomic m.
Proof. intros H s e s' Hm. specialize (H s). by rewrite Hm in H. Qed.
Lemma inserts_atomic :
  (∀ x, atomic (insert_secret known_principal x)) ∧ (∀ v, atomic (insert_secret_version v)) ∧
  (∀ r, atomic (insert_ref known_principal r)) ∧ (∀ e, atomic (insert_access known_principal e)).
Proof.
  split_and!; intros x; repeat (apply sql_insert_atomic || (apply atomic_bind; [|intros _])
    || apply require_row_reads || apply raise_if_pure).
Qed.

(** An atomic statement followed by more. *)
Lemma vkeeps_atomic {R R'} (m : lp R) (f : R → lp R') s :
  atomic m →
  (∀ a s1, m s = (Ok a, s1) → vault_ok (st_db s) →
     vault_ok (st_db (f a s1).2) ∧ vault_later (st_db s) (st_db (f a s1).2)) →
  vkeeps (m ≫= f) s.
Proof.
  intros Hm Hf Hok. rewrite run_bind. destruct (m s) as [[a|e] s1] eqn:Hrun; [by apply Hf|].
  by rewrite (Hm _ _ _ Hrun).
Qed.

(** ... by way of a state that keeps the invariant. *)
Lemma vault_via {R} t (m : lp R) s :
  vault_ok (st_db s) ∧ vault_later t (st_db s) → vkeeps m s →
  vault_ok (st_db (m s).2) ∧ vault_later t (st_db (m s).2).
Proof. intros [Hok Hl] Hm. destruct (Hm Hok) as [H1 H2]. split; [done|]. by etrans. Qed.

Lemma vkeeps_encrypt plaintext key s : vkeeps (encrypt_value plaintext key) s.
Proof. by apply vkeeps_same. Qed.

Lemma vkeeps_log secret ref accessor type result scope env s :
  vkeeps (_log_access known_principal secret ref accessor type result scope env) s.
Proof.
  unfold _log_access. apply keeps_bind; [exact _|by apply vkeeps_same|intros ts s1 _].
  apply keeps_bind; [exact _|by apply vkeeps_same|intros aid s2 _]. intros Hok.
  destruct (insert_access _ _ s2) as [[u|e] s3] eqn:Hrun.
  - apply insert_access_ok in Hrun as ->. by apply vault_insert_log.
  - destruct inserts_atomic as (_ & _ & _ & Ha). by rewrite (Ha _ _ _ _ Hrun).
Qed.

Lemma create_secret_keeps name plaintext owner description classification expires key s :
  vkeeps (create_secret other_count known_principal default_key objects
            name plaintext owner description classification expires key) s.
Proof.
  unfold create_secret. destruct objects as [mg|]; [|by apply vkeeps_same].
  apply keeps_bind; [exact _|by apply vkeeps_same|intros ts s1 _].
  apply keeps_bind; [exact _|by apply vkeeps_same|intros sid s2 _].
  apply keeps_bind; [exact _|by apply vkeeps_same|intros cls s3 _].
  apply keeps_bind; [exact _|apply vkeeps_same, create_object_vault|intros created s4 _].
  apply keeps_bind; [exact _|apply vkeeps_encrypt|intros encrypted s5 _]. cbv zeta.
  destruct inserts_atomic as (Hsec & Hver & _). apply vkeeps_atomic; [apply Hsec|].
  intros u s6 [-> Hnew]%insert_secret_ok Hok5.
  match type of Hnew with ∀ y, _ → _ ≠ se_id ?x => set (secret := x) in * end.
  assert (Hgood := vault_insert_secret (st_db s5) secret Hok5 Hnew eq_refl). apply vault_via; [exact Hgood|].
  apply keeps_bind; [exact _|by apply vkeeps_same|intros vid s6 [-> ->]%generate_id_ok].
  apply vkeeps_atomic; [apply Hver|]. intros u1 s6 (-> & Hex & Hnum)%insert_secret_version_ok Hok6.
  apply vault_via; [|apply vkeeps_audit; intros; apply vkeeps_ret].
  eapply (vault_insert_version _ _ id); [simpl; by rewrite list_fmap_id|exact Hex|exact Hnum| |done|done].
  intros y Hy. split_and!; [apply later_secret_refl|done|]. case_decide as Hid; [|done].
  rewrite (secret_unique _ y secret Hok6 Hy); [done| |done].
  unfold v_table. simpl. apply elem_of_app. right. by apply list_elem_of_singleton.
Qed.

Lemma rotate_keeps id new_value by_ reason key s :
  vkeeps (rotate default_key id new_value by_ reason key) s.
Proof.
  unfold rotate. apply keeps_bind; [exact _|apply vkeeps_same, require_active_vault|].
  intros x s1 (-> & Hx & Hid & _)%require_active_ok.
  apply keeps_bind; [exact _|by apply vkeeps_same|intros ts s1 [-> ->]%now_utc_ok]. cbv zeta.
  apply keeps_bind; [exact _|apply vkeeps_encrypt|intros encrypted s1 Henc].
  assert (Hs1 : st_db s1 = st_db s)
    by (unfold encrypt_value, gets, lift in Henc; rewrite run_bind in Henc; by injection Henc as _ <-).
  apply keeps_bind; [exact _|by apply vkeeps_same|intros vid s2 [-> ->]%generate_id_ok].
  destruct inserts_atomic as (_ & Hver & _). apply vkeeps_atomic; [apply Hver|].
  intros u s2 (-> & Hex & Hnum)%insert_secret_version_ok Hok.
  rewrite run_bind. cbn [sql_update modify]. apply vault_via; [|apply vkeeps_audit; intros; apply vkeeps_ret].
  eapply vault_insert_version; [reflexivity|exact Hex|exact Hnum| |simpl; lia|done].
  intros y Hy. simpl in *. rewrite Hs1 in Hy. rewrite Hs1 in Hok. unfold by_secret. case_decide as Hyid.
  - rewrite (secret_unique _ y x Hok Hy Hx) by congruence. rewrite bool_decide_eq_true_2 by done.
    split_and!; [|done|done]. unfold later_secret. simpl. split_and!; by (lia || auto).
  - rewrite bool_decide_eq_false_2 by done. split_and!; [apply later_secret_refl|done|done].
Qed.
Lemma reads_vault :
  (∀ id, respects same_vault (get_policies_for_secret id)) ∧
  (∀ id v, respects same_vault (check_scope_allowed id v)) ∧
  (∀ id v, respects same_vault (check_env_allowed id v)) ∧
  (∀ id scope env, respects same_vault (_enforce_policy_restrictions_on_grant has_policies id scope env)) ∧
  (∀ id scope env, respects same_vault (_enforce_policy_restrictions_on_resolve has_policies id scope env)).
Proof.
  assert (Hp : ∀ id, respects same_vault (get_policies_for_secret id))
    by (intros; unfold get_policies_for_secret, fetch_one, select, select_sorted; repeat respects_step).
  assert (Hs : ∀ id v, respects same_vault (check_scope_allowed id v))
    by (intros; unfold check_scope_allowed; repeat (respects_step || apply Hp)).
  assert (He : ∀ id v, respects same_vault (check_env_allowed id v))
    by (intros; unfold check_env_allowed; repeat (respects_step || apply Hp)).
  split_and!; [done..| |]; intros;
    unfold _enforce_policy_restrictions_on_grant, _enforce_policy_restrictions_on_resolve, grant_check, resolve_check;
    repeat (respects_step || apply Hp || apply Hs || apply He).
Qed.

Lemma vkeeps_last q s : vkeeps (audit q) s.
Proof. apply vkeeps_same, off_trail_vault, audit_off_trail. Qed.

Lemma get_secret_pure id s : (get_secret_or_raise id s).2 = s.
Proof.
  unfold get_secret_or_raise. destruct (get_secret id s) as [[o|e] s1] eqn:Hget; [|discriminate Hget].
  rewrite (run_bind_ok _ _ _ _ _ Hget). apply fetch_one_ok in Hget as [-> _]. by destruct o.
Qed.

Lemma archive_secret_keeps id actor s : vkeeps (archive_secret id actor) s.
Proof.
  unfold archive_secret. apply keeps_bind; [exact _| |].
  { apply vkeeps_same. unfold same_vault. by rewrite get_secret_pure. }
  intros x s1 (-> & Hx & Hid)%get_secret_or_raise_ok Hok.
  apply (vault_via (st_db s) (audit _) (put_db _ _)); [|apply vkeeps_last].
  eapply vault_retire; [reflexivity| | | |exact Hok]; unfold by_secret, of_secret.
  - intros y. case_bool_decide; [|split; [apply later_secret_refl|done]].
    split; [|done]. unfold later_secret. simpl. by split_and!.
  - intros r. case_bool_decide; [by right|by left].
  - intros y r Hret Hact Hr. case_bool_decide as Hy; [|congruence].
    by rewrite bool_decide_eq_true_2 by congruence.
Qed.

Lemma revoke_ref_keeps id by_ s : vkeeps (revoke_ref id by_) s.
Proof.
  unfold revoke_ref. intros Hok. apply (vault_via (st_db s) (audit _) (put_db _ _)); [|apply vkeeps_last].
  eapply (vault_retire _ (λ y, y)); [simpl; by rewrite list_fmap_id| | | |exact Hok].
  - intros y. split; [apply later_secret_refl|done].
  - intros r. simpl. case_bool_decide; [by right|by left].
  - intros y r Hret Hact. simpl in Hret. congruence.
Qed.

Lemma grant_ref_keeps id granted_to granted_by scope env expires s :
  vkeeps (grant_ref known_principal has_policies id granted_to granted_by scope env expires) s.
Proof.
  unfold grant_ref. destruct reads_vault as (_ & _ & _ & Hgrant & _).
  apply keeps_bind; [exact _|apply vkeeps_same, require_active_vault|].
  intros x s1 (-> & Hx & Hid & Hact & _)%require_active_ok.
  apply keeps_bind; [exact _|apply vkeeps_same, Hgrant|intros u s1 Hrun].
  assert (Hs1 : same_vault s s1).
  { specialize (Hgrant id scope env s). by rewrite Hrun in Hgrant. }
  apply keeps_bind; [exact _|by apply vkeeps_same|intros ts s2 [-> ->]%now_utc_ok].
  apply keeps_bind; [exact _|by apply vkeeps_same|intros rid s2 [-> ->]%generate_id_ok].
  apply keeps_bind; [exact _|by apply vkeeps_same|intros tok s2 [-> ->]%generate_id_ok]. cbv zeta.
  destruct inserts_atomic as (_ & _ & Href & _). apply vkeeps_atomic; [apply Href|].
  intros u1 s2 [-> Hnew]%insert_ref_ok Hok. apply vault_via; [|apply vkeeps_audit; intros; apply vkeeps_ret].
  apply (vault_insert_ref _ _ x); [done| |done|done|done].
  simpl. unfold v_table. by rewrite Hs1.
Qed.

(** Every way out of [resolve_token] goes through at most one log row. *)
Lemma resolve_token_keeps token accessor scope env s :
  vkeeps (resolve_token known_principal has_policies token accessor scope env) s.
Proof.
  unfold resolve_token. destruct reads_vault as (_ & _ & _ & _ & Hres).
  apply keeps_bind; [exact _|by apply vkeeps_same|intros o s1 _]. destruct o as [r|]; [|by apply vkeeps_same].
  assert (Hgate : ∀ (b : bool) result e s, vkeeps (if b then mbind (λ _ : unit, raise e : lp unit)
    (_log_access known_principal (sr_secret r) (Some (sr_id r)) accessor "resolve" result scope env) else mret tt) s).
  { intros [] result e s2; [|apply vkeeps_ret].
    apply keeps_bind; [exact _|apply vkeeps_log|intros; by apply vkeeps_same]. }
  apply keeps_bind; [exact _| |intros _ s2 _].
  { unfold check_ref. apply keeps_bind; [exact _|apply Hgate|intros _ s2 _].
    apply keeps_bind; [exact _|by apply vkeeps_same|intros now s3 _].
    do 3 (apply keeps_bind; [exact _|apply Hgate|intros _ ? _]). apply Hgate. }
  apply keeps_bind; [exact _| |intros p s3 _].
  { unfold read_secret. apply keeps_bind; [exact _|apply vkeeps_same, require_active_vault|intros x s3 _].
    apply keeps_bind; [exact _|apply vkeeps_same, Hres|intros _ s4 _].
    apply keeps_bind; [exact _|by apply vkeeps_same|intros v s5 _]. destruct v as [v|]; by apply vkeeps_same. }
  apply keeps_bind; [exact _|apply vkeeps_log|intros _ s4 _]. apply vkeeps_audit. intros. apply vkeeps_ret.
Qed.

Lemma create_policy_keeps by_ secret classification max_age auto scopes envs s :
  vkeeps (create_policy by_ secret classification max_age auto scopes envs) s.
Proof.
  assert (Hstay : ∀ (p : SecretPolicy) s, vkeeps (sql_insert (v_table v_policies) set_secret_policies
    (λ a b, bool_decide (pl_id a = pl_id b)) "secret_policies.id" p) s).
  { intros p s0 Hok. destruct (sql_insert _ _ _ _ p s0) as [[u|e] s1] eqn:Hrun.
    - apply sql_insert_ok in Hrun as [_ ->]. destruct Hok. split; [by split|]. split; [|done| |done].
      + intros y Hy. exists y. split; [done|apply later_secret_refl].
      + intros q Hq. exists q. split; [done|by left].
    - by rewrite (sql_insert_raise _ _ _ _ _ _ _ _ Hrun). }
  assert (Hif : ∀ b e s, vkeeps (raise_if b e) s)
    by (intros; apply vkeeps_same; unfold same_vault; by rewrite raise_if_pure).
  unfold create_policy, valid_ids. do 2 (apply keeps_bind; [exact _|apply Hif|intros _ ? _]).
  apply keeps_bind; [exact _|by apply vkeeps_same|intros c s3 _].
  do 2 (apply keeps_bind; [exact _|apply Hif|intros _ ? _]).
  apply keeps_bind; [exact _| |intros _ s6 _].
  { destruct secret as [id|]; [|apply vkeeps_ret]. apply keeps_bind; [exact _|by apply vkeeps_same|].
    intros [x|] s6 _; [apply vkeeps_ret|by apply vkeeps_same]. }
  apply keeps_bind; [exact _|by apply vkeeps_same|intros ts s7 _].
  apply keeps_bind; [exact _|by apply vkeeps_same|intros pid s8 _]. cbv zeta.
  apply keeps_bind; [exact _| |intros; apply vkeeps_ret]. unfold insert_policy. cbn [pl_secret].
  apply keeps_bind; [exact _| |intros _ s9 _; apply Hstay]. destruct secret as [id|]; [|apply vkeeps_ret].
  apply vkeeps_same. unfold same_vault. by rewrite require_row_reads.
Qed.

Inductive vault_op :=
  | CreateSecret (name plaintext owner description classification : string) (expires : option Z) (key : option string)
  | ArchiveSecret (id actor : string)
  | RotateSecret (id new_value by_ reason : string) (key : option string)
  | GrantRef (id granted_to granted_by : string) (scope env : option string) (expires : option Z)
  | RevokeRef (id by_ : string)
  | ResolveToken (token accessor : string) (scope env : option string)
  | CreatePolicy (by_ : string) (secret classification : option string) (max_age : option Z) (auto : bool)
      (scopes envs : option (list string)).

Definition run_vault_op (op : vault_op) : lp unit :=
  match op with
  | CreateSecret n p o d c e k =>
      create_secret other_count known_principal default_key objects n p o d c e k ;; mret tt
  | ArchiveSecret i a => archive_secret i a
  | RotateSecret i v b r k => rotate default_key i v b r k ;; mret tt
  | GrantRef i t b s e x => grant_ref known_principal has_policies i t b s e x ;; mret tt
  | RevokeRef i b => revoke_ref i b
  | ResolveToken t a s e => resolve_token known_principal has_policies t a s e ;; mret tt
  | CreatePolicy b s c m a x e => create_policy b s c m a x e ;; mret tt
  end.

(** Operations of the vault, finished or failed, and whatever else the process
    does outside its tables. *)
Inductive vault_step : relation store :=
  | vault_step_op op s : vault_step s (run_vault_op op s).2
  | vault_step_other s s' : same_vault s s' → vault_step s s'.

Lemma vkeeps_op op s : vkeeps (run_vault_op op) s.
Proof.
  destruct op; cbn [run_vault_op]; first
    [ apply keeps_bind; [exact _| |intros; apply vkeeps_ret] | idtac ].
  - apply create_secret_keeps.
  - apply archive_secret_keeps.
  - apply rotate_keeps.
  - apply grant_ref_keeps.
  - apply revoke_ref_keeps.
  - apply resolve_token_keeps.
  - apply create_policy_keeps.
Qed.
End VaultOps.

(** ** What a resolution gives *)

(** Why the reference itself refuses, in the order of the checks. *)
Definition verdict (now : Z) (r : SecretRef) (accessor : string) (scope env : option string)
  : option (AccessResult * exn) :=
  if negb (ref_active r) then Some (DENIED, SecretAccessDenied "Ref has been revoked")
  else if ref_expired now r then Some (EXPIRED, SecretRefExpired "Ref has expired")
  else if negb (bool_decide (sr_granted_to r = accessor))
  then Some (DENIED, SecretAccessDenied "Accessor does not match ref grant")
  else if bool_decide (sr_scope r ≠ None) && negb (bool_decide (scope = sr_scope r))
  then Some (DENIED, SecretAccessDenied "Ref is restricted to a different scope")
  else if bool_decide (sr_env r ≠ None) && negb (bool_decide (env = sr_env r))
  then Some (DENIED, SecretAccessDenied "Ref is restricted to a different environment")
  else None.

(** A policy's list of ids list_admits a value: an empty list list_admits all. *)
Definition allows (value : option string) (ids : list string) : Prop :=
  ids = [] ∨ ∃ v, value = Some v ∧ v ∈ ids.

Definition admitted (has_policies : bool) (t : tables) (x : Secret) (scope env : option string) : Prop :=
  has_policies = true → ∀ p, p ∈ v_table v_policies t → governs x p = true →
    allows scope (pl_scopes p) ∧ allows env (pl_envs p).

(** The plaintext of the current version. *)
Definition current_value `{enc : !SecretBackend} (t : tables) (x : Secret) (plaintext : string) : Prop :=
  ∃ v, v ∈ v_table v_versions t ∧ sv_secret v = se_id x ∧ sv_version v = se_version x ∧
    decrypt (sv_value v) (sv_key v) = Ok plaintext.

(** The secret behind a reference gives [plaintext]. *)
Definition released `{enc : !SecretBackend} (has_policies : bool) (t : tables) (now : Z) (r : SecretRef)
  (scope env : option string) (plaintext : string) : Prop :=
  ∃ x, x ∈ v_table v_secrets t ∧ se_id x = sr_secret r ∧ secret_active x = true ∧
    past now (se_expires x) = false ∧ admitted has_policies t x scope env ∧ current_value t x plaintext.

Definition fresh_log `{host : !Host} (s : store) : Prop :=
  ∀ e, e ∈ v_table v_log (st_db s) → sl_id e ≠ id_of (st_next s).

(** The state with one more row of the access log. *)
Definition with_log_row `{host : !Host} (result : AccessResult) (r : SecretRef) (accessor : string)
  (scope env : option string) (s : store) : store :=
  put_db (set_secret_log (v_table v_log (st_db s) ++ [{|
    sl_id := id_of (st_next s); sl_secret := sr_secret r; sl_ref := Some (sr_id r); sl_accessor := accessor;
    sl_type := "resolve"; sl_at := st_now s; sl_env := env; sl_scope := scope; sl_result := result |}])
    (st_db s)) (put_next (S (st_next s)) s).

Section Checks.
Context `{host : !Host}.
Context (known_principal : string → bool).

Lemma require_row_run {R} (tbl : tables → list R) p c x s :
  x ∈ tbl (st_db s) → p x = true → require_row tbl p c s = (Ok tt, s).
Proof.
  intros Hx Hp. unfold require_row. rewrite (run_bind_ok (gets _) _ _ _ _ eq_refl).
  by rewrite (proj2 (existsb_exists _ _)) by (exists x; rewrite <-list_elem_of_In; done).
Qed.

Lemma log_access_run r accessor result scope env s :
  vault_ok (st_db s) → r ∈ v_table v_refs (st_db s) → known_principal accessor = true → fresh_log s →
  _log_access known_principal (sr_secret r) (Some (sr_id r)) accessor "resolve" result scope env s =
    (Ok tt, with_log_row result r accessor scope env s).
Proof.
  intros Hok Hr Hknown Hfresh. destruct (vo_refs _ Hok r Hr) as (x & Hx & Hid).
  unfold _log_access. rewrite (run_bind_ok now_utc _ s (st_now s) s eq_refl).
  rewrite (run_bind_ok generate_id _ s (id_of (st_next s)) (put_next (S (st_next s)) s) eq_refl).
  unfold insert_access. cbn [sl_secret].
  rewrite (run_bind_ok _ _ _ _ _ (require_row_run (v_table v_secrets) _ _ x
    (put_next (S (st_next s)) s) Hx (bool_decide_eq_true_2 _ Hid))).
  cbn [sl_accessor]. rewrite Hknown. rewrite (run_bind_ok (raise_if (negb true) _) _ _ tt (put_next (S (st_next s)) s)) by done.
  etrans; [apply (sql_insert_run (v_table v_log) _ _ _ _ (put_next (S (st_next s)) s))|done]. intros e He. apply bool_decide_eq_false_2.
  intros Heq. by destruct (Hfresh e He).
Qed.

Lemma check_ref_run r accessor scope env s :
  vault_ok (st_db s) → r ∈ v_table v_refs (st_db s) → known_principal accessor = true → fresh_log s →
  check_ref known_principal r accessor scope env s =
    match verdict (st_now s) r accessor scope env with
    | Some (result, e) => (Raise e, with_log_row result r accessor scope env s)
    | None => (Ok tt, s)
    end.
Proof.
  intros Hok Hr Hknown Hfresh.
  assert (Hrefuse : ∀ result e, (mbind (λ _ : unit, raise e : lp unit)
    (_log_access known_principal (sr_secret r) (Some (sr_id r)) accessor "resolve" result scope env)) s =
    (Raise e, with_log_row result r accessor scope env s))
    by (intros; by rewrite (run_bind_ok _ _ _ _ _ (log_access_run r accessor _ scope env s Hok Hr Hknown Hfresh))).
  unfold check_ref, verdict. cbv zeta.
  destruct (negb (ref_active r)); [by rewrite (run_bind_raise _ _ _ _ _ (Hrefuse _ _))|].
  rewrite (run_bind_ok (mret tt) _ s tt s eq_refl), (run_bind_ok now_utc _ s (st_now s) s eq_refl).
  destruct (ref_expired (st_now s) r); [by rewrite (run_bind_raise _ _ _ _ _ (Hrefuse _ _))|].
  rewrite (run_bind_ok (mret tt) _ s tt s eq_refl).
  destruct (negb (bool_decide (sr_granted_to r = accessor))); [by rewrite (run_bind_raise _ _ _ _ _ (Hrefuse _ _))|].
  rewrite (run_bind_ok (mret tt) _ s tt s eq_refl).
  destruct (bool_decide (sr_scope r ≠ None) && _); [by rewrite (run_bind_raise _ _ _ _ _ (Hrefuse _ _))|].
  rewrite (run_bind_ok (mret tt) _ s tt s eq_refl).
  destruct (bool_decide (sr_env r ≠ None) && _); [apply Hrefuse|done].
Qed.
End Checks.

Section Resolution.
Context `{host : !Host} `{enc : !SecretBackend}.
Context (has_policies : bool).

Lemma secret_run x s :
  vault_ok (st_db s) → x ∈ v_table v_secrets (st_db s) → get_secret (se_id x) s = (Ok (Some x), s).
Proof.
  intros Hok Hx. destruct (get_secret (se_id x) s) as [[o|e] s'] eqn:Hrun; [|discriminate Hrun].
  apply fetch_one_ok in Hrun as [-> Ho]. destruct o as [y|].
  - destruct Ho as [Hy Hid%bool_decide_eq_true_1]. by rewrite (secret_unique _ y x Hok Hy Hx Hid).
  - specialize (Ho x Hx). by apply bool_decide_eq_false_1 in Ho.
Qed.

Lemma policies_run x s :
  vault_ok (st_db s) → x ∈ v_table v_secrets (st_db s) →
  ∃ l, get_policies_for_secret (se_id x) s = (Ok l, s) ∧
    ∀ p, p ∈ l ↔ p ∈ v_table v_policies (st_db s) ∧ governs x p = true.
Proof.
  intros Hok Hx. pose proof (secret_run x s Hok Hx) as Hrun. unfold get_secret in Hrun.
  eexists. split; [unfold get_policies_for_secret; rewrite (run_bind_ok _ _ _ _ _ Hrun); reflexivity|].
  intros p. rewrite elem_of_sort_by, scan_perm, list_elem_of_filter. tauto.
Qed.

Lemma admits_spec v ids : list_admits v ids = true ↔ allows (Some v) ids.
Proof.
  unfold list_admits, allows. rewrite orb_true_iff, !bool_decide_eq_true. naive_solver.
Qed.

Lemma check_run f x v l s :
  get_policies_for_secret (se_id x) s = (Ok l, s) →
  (policies ← get_policies_for_secret (se_id x); mret (forallb (λ p, list_admits v (f p)) policies)) s =
    (Ok (forallb (λ p, list_admits v (f p)) l), s).
Proof. intros H. by rewrite (run_bind_ok _ _ _ _ _ H). Qed.

Lemma restricted_spec f l : restricted f l = false → ∀ p, p ∈ l → f p = [].
Proof.
  unfold restricted. intros H p Hp. destruct (decide (f p = [])) as [|Hne]; [done|].
  rewrite (proj2 (existsb_exists _ _)) in H; [done|]. exists p. rewrite <-list_elem_of_In. split; [done|].
  by rewrite bool_decide_eq_false_2.
Qed.

Lemma resolve_check_run id f check l value e s :
  (∀ v, check id v s = (Ok (forallb (λ p, list_admits v (f p)) l), s)) →
  (resolve_check id f check l value e s = (Ok tt, s) ∧ ∀ p, p ∈ l → allows value (f p)) ∨
  (resolve_check id f check l value e s = (Raise e, s) ∧ ¬ ∀ p, p ∈ l → allows value (f p)).
Proof.
  intros Hcheck. unfold resolve_check. destruct (restricted f l) eqn:Hres.
  - destruct value as [v|].
    + rewrite (run_bind_ok _ _ _ _ _ (Hcheck v)). destruct (forallb _ l) eqn:Hall; [left|right]; (split; [done|]).
      * intros p Hp. apply admits_spec. rewrite forallb_forall in Hall. apply Hall. by rewrite <-list_elem_of_In.
      * intros H. rewrite <-not_true_iff_false, forallb_forall in Hall. apply Hall. intros p Hp.
        apply admits_spec, H. by rewrite list_elem_of_In.
    + right. split; [done|]. intros H. apply existsb_exists in Hres as (p & Hp & Hne).
      rewrite <-list_elem_of_In in Hp. destruct (H p Hp) as [Heq|(v & ? & _)]; [|done].
      by rewrite bool_decide_eq_true_2 in Hne.
  - left. split; [done|]. intros p Hp. left. by apply (restricted_spec f l).
Qed.

Lemma enforce_run x scope env s :
  vault_ok (st_db s) → x ∈ v_table v_secrets (st_db s) →
  (_enforce_policy_restrictions_on_resolve has_policies (se_id x) scope env s = (Ok tt, s) ∧
   admitted has_policies (st_db s) x scope env) ∨
  ((∃ e, _enforce_policy_restrictions_on_resolve has_policies (se_id x) scope env s = (Raise e, s)) ∧
   ¬ admitted has_policies (st_db s) x scope env).
Proof.
  intros Hok Hx. unfold _enforce_policy_restrictions_on_resolve, admitted.
  destruct has_policies; [|by left]. destruct (policies_run x s Hok Hx) as (l & Hl & Hin).
  rewrite (run_bind_ok _ _ _ _ _ Hl).
  pose proof (resolve_check_run (se_id x) pl_scopes check_scope_allowed l scope scope_denied s
    (λ v, check_run pl_scopes x v l s Hl)) as [[Hr1 H1]|[Hr1 H1]].
  - rewrite (run_bind_ok _ _ _ _ _ Hr1).
    pose proof (resolve_check_run (se_id x) pl_envs check_env_allowed l env env_denied s
      (λ v, check_run pl_envs x v l s Hl)) as [[-> H2]|[-> H2]]; [left|right].
    + split; [done|]. intros _ p Hp Hg. assert (p ∈ l) by by apply Hin. auto.
    + split; [by eexists|]. intros H. apply H2. intros p [Hp Hg]%Hin. by apply H.
  - right. rewrite (run_bind_raise _ _ _ _ _ Hr1). split; [by eexists|].
    intros H. apply H1. intros p [Hp Hg]%Hin. by apply H.
Qed.
Lemma require_active_run x s :
  vault_ok (st_db s) → x ∈ v_table v_secrets (st_db s) →
  _require_active_secret (se_id x) false s =
    (if negb (secret_active x) then Raise (SecretAccessDenied "Secret is archived")
     else if past (st_now s) (se_expires x) then Raise (SecretAccessDenied "Secret has expired")
     else Ok x, s).
Proof.
  intros Hok Hx. unfold _require_active_secret.
  assert (Hget : get_secret_or_raise (se_id x) s = (Ok x, s)).
  { unfold get_secret_or_raise. by rewrite (run_bind_ok _ _ _ _ _ (secret_run x s Hok Hx)). }
  rewrite (run_bind_ok _ _ _ _ _ Hget). destruct (secret_active x); cbn [negb]; [|done].
  rewrite (run_bind_ok (raise_if false _) _ s tt s eq_refl), (run_bind_ok now_utc _ s (st_now s) s eq_refl).
  cbn [andb negb]. by destruct (past (st_now s) (se_expires x)).
Qed.

(** Reading and decrypting gives exactly what the secret releases. *)
Lemma read_secret_run r scope env s :
  vault_ok (st_db s) → r ∈ v_table v_refs (st_db s) →
  (∃ p, read_secret has_policies (sr_secret r) scope env s = (Ok p, s) ∧
        ∀ q, released has_policies (st_db s) (st_now s) r scope env q ↔ q = p) ∨
  (∃ e, read_secret has_policies (sr_secret r) scope env s = (Raise e, s) ∧
        ∀ q, ¬ released has_policies (st_db s) (st_now s) r scope env q).
Proof.
  intros Hok Hr. destruct (vo_refs _ Hok r Hr) as (x & Hx & Hid). rewrite <-Hid.
  assert (Hrel : ∀ q, released has_policies (st_db s) (st_now s) r scope env q ↔
    secret_active x = true ∧ past (st_now s) (se_expires x) = false ∧
    admitted has_policies (st_db s) x scope env ∧ current_value (st_db s) x q).
  { intros q. split; [|intros ?; by exists x]. intros (y & Hy & Hyid & H).
    by rewrite (secret_unique _ y x Hok Hy Hx) in H by congruence. }
  assert (Hout : ∀ e, read_secret has_policies (se_id x) scope env s = (Raise e, s) →
    (∀ q, ¬ released has_policies (st_db s) (st_now s) r scope env q) →
    ∃ e, read_secret has_policies (se_id x) scope env s = (Raise e, s) ∧
         ∀ q, ¬ released has_policies (st_db s) (st_now s) r scope env q) by (intros e; by exists e).
  pose proof (require_active_run x s Hok Hx) as Hact.
  destruct (secret_active x) eqn:Ha, (past (st_now s) (se_expires x)) eqn:Hp; cbn [andb negb] in Hact;
    try (right; eapply Hout; [exact (run_bind_raise _ _ _ _ _ Hact)|intros q Hq%Hrel; by destruct_and!]).
  unfold read_secret. rewrite (run_bind_ok _ _ _ _ _ Hact).
  destruct (enforce_run x scope env s Hok Hx) as [[Hen Hadm]|[[e Hen] Hadm]].
  2: { right. exists e. split; [exact (run_bind_raise _ _ _ _ _ Hen)|]. intros q Hq%Hrel. by destruct_and!. }
  rewrite (run_bind_ok _ _ _ _ _ Hen).
  destruct (get_secret_version (se_id x) (se_version x) s) as [[o|e] s'] eqn:Hv; [|discriminate Hv].
  pose proof Hv as [-> Ho]%fetch_one_ok. rewrite (run_bind_ok _ _ _ _ _ Hv). destruct o as [v|].
  - destruct Ho as [Hin [Hvid%bool_decide_eq_true_1 Hvn%Nat.eqb_eq]%andb_true_iff].
    assert (Hcur : ∀ q, current_value (st_db s) x q ↔ decrypt (sv_value v) (sv_key v) = Ok q).
    { intros q. split; [|intros ?; by exists v]. intros (w & Hw & Hwid & Hwn & Hd).
      by rewrite (NoDup_fmap_inj_in _ _ v w (vo_numbers _ Hok) Hin Hw) by congruence. }
    destruct (decrypt (sv_value v) (sv_key v)) as [p|e] eqn:Hd; [left; exists p|right; exists e]; (split; [done|]).
    + intros q. rewrite Hrel, Hcur. naive_solver.
    + intros q Hq%Hrel. destruct Hq as (_ & _ & _ & Hq%Hcur). done.
  - right. eexists. split; [done|]. intros q Hq%Hrel. destruct Hq as (_ & _ & _ & w & Hw & Hwid & Hwn & _).
    specialize (Ho w Hw). unfold version_of in Ho.
    by rewrite bool_decide_eq_true_2, Hwn, Nat.eqb_refl in Ho by done.
Qed.
Lemma grant_check_ok id f check l value missing denied s u s' :
  (∀ v, check id v s = (Ok (forallb (λ p, list_admits v (f p)) l), s)) →
  grant_check id f check l value missing denied s = (Ok u, s') → s' = s ∧ ∀ p, p ∈ l → allows value (f p).
Proof.
  intros Hcheck. unfold grant_check. destruct u, (restricted f l) eqn:Hres.
  - destruct value as [v|]; [|done]. rewrite (run_bind_ok _ _ _ _ _ (Hcheck v)).
    intros [Hall%negb_false_iff ->]%raise_if_ok. split; [done|]. intros p Hp. apply admits_spec.
    rewrite forallb_forall in Hall. apply Hall. by rewrite <-list_elem_of_In.
  - intros [_ ->]%mret_ok. split; [done|]. intros p Hp. left. by apply (restricted_spec f l).
Qed.

(** What a grant lets through, a resolution from the same place lets through. *)
Lemma enforce_grant_ok x scope env s u s' :
  vault_ok (st_db s) → x ∈ v_table v_secrets (st_db s) →
  _enforce_policy_restrictions_on_grant has_policies (se_id x) scope env s = (Ok u, s') →
  s' = s ∧ admitted has_policies (st_db s) x scope env.
Proof.
  intros Hok Hx. unfold _enforce_policy_restrictions_on_grant, admitted. destruct has_policies.
  - destruct (policies_run x s Hok Hx) as (l & Hl & Hin). rewrite (run_bind_ok _ _ _ _ _ Hl). intros H.
    apply bind_ok_inv in H as (? & s1 & H1 & H).
    apply (grant_check_ok _ _ _ l) in H1 as [-> H1]; [|intros v; by apply check_run].
    apply (grant_check_ok _ _ _ l) in H as [-> H2]; [|intros v; by apply check_run].
    split; [done|]. intros _ p Hp Hg. assert (p ∈ l) by by apply Hin. auto.
  - by intros [_ ->]%mret_ok.
Qed.
End Resolution.

Section VaultTheorems.
Context `{host : !Host} `{sink : !AuditSink} `{enc : !SecretBackend}.
Context (other_count : tables → string → list (string * string) → outcome nat).
Context (known_principal : string → bool) (default_key : string) (objects : option ScopedManager).
Context (has_policies : bool).

Lemma vault_reachable s s' :
  rtc (vault_step other_count known_principal default_key objects has_policies) s s' →
  vault_ok (st_db s) → vault_ok (st_db s') ∧ vault_later (st_db s) (st_db s').
Proof.
  induction 1 as [s|s1 s2 s3 Hstep _ IH]; [by intros|]. intros Hok.
  assert (vault_ok (st_db s2) ∧ vault_later (st_db s1) (st_db s2)) as [Hok2 H12].
  { inversion Hstep; subst; [by apply vkeeps_op|by apply same_vault_ok]. }
  destruct (IH Hok2) as [H3 H23]. split; [done|]. by etrans.
Qed.

(** C18: However the vault is used, finished and failed operations alike: secret ids
    and reference tokens stay unique, a secret with versions has its current one
    and none above it, and an archived secret has no active reference; encrypted
    versions and the access log only grow, secrets keep their identity and their
    version number never falls, what is archived or revoked stays so. *)
Theorem vault_reachable_ok s s' :
  rtc (vault_step other_count known_principal default_key objects has_policies) s s' →
  vault_ok (st_db s) →
  vault_ok (st_db s') ∧
  v_table v_versions (st_db s) `prefix_of` v_table v_versions (st_db s') ∧
  v_table v_log (st_db s) `prefix_of` v_table v_log (st_db s') ∧
  (∀ x, x ∈ v_table v_secrets (st_db s) → ∃ x', x' ∈ v_table v_secrets (st_db s') ∧ later_secret x x') ∧
  (∀ r, r ∈ v_table v_refs (st_db s) → ∃ r', r' ∈ v_table v_refs (st_db s') ∧ later_ref r r') ∧
  (∀ x r', x ∈ v_table v_secrets (st_db s) → secret_active x = false →
     r' ∈ v_table v_refs (st_db s') → sr_secret r' = se_id x → ref_active r' = false).
Proof.
  intros Hsteps Hok. destruct (vault_reachable s s' Hsteps Hok) as [Hok' [H1 H2 H3 H4]]. split_and!; [done..|].
  intros x r' Hx Hina Hr' Hs. destruct (H1 x Hx) as (x' & Hx' & Hlater). unfold later_secret in Hlater.
  destruct_and!. apply (vo_archived _ Hok' x' r'); [done|done|congruence|auto].
Qed.

Lemma token_run r s :
  vault_ok (st_db s) → r ∈ v_table v_refs (st_db s) → get_ref_by_token (sr_token r) s = (Ok (Some r), s).
Proof.
  intros Hok Hr. destruct (get_ref_by_token (sr_token r) s) as [[o|e] s'] eqn:Hrun; [|discriminate Hrun].
  apply fetch_one_ok in Hrun as [-> Ho]. destruct o as [q|].
  - destruct Ho as [Hq Ht%bool_decide_eq_true_1].
    by rewrite (NoDup_fmap_inj_in _ _ q r (vo_tokens _ Hok) Hq Hr Ht).
  - specialize (Ho r Hr). by apply bool_decide_eq_false_1 in Ho.
Qed.

Lemma resolve_run r accessor scope env s :
  vault_ok (st_db s) → known_principal accessor = true → fresh_log s → r ∈ v_table v_refs (st_db s) →
  let run := resolve_token known_principal has_policies (sr_token r) accessor scope env s in
  match verdict (st_now s) r accessor scope env with
  | Some (result, e) => run = (Raise e, with_log_row result r accessor scope env s)
  | None =>
      (∀ p, released has_policies (st_db s) (st_now s) r scope env p →
         run = (audit (request accessor ActionType.SECRET_REF_RESOLVE "secret" (sr_secret r)) ;; mret p)
                 (with_log_row SUCCESS r accessor scope env s)) ∧
      ((∀ p, ¬ released has_policies (st_db s) (st_now s) r scope env p) → ∃ e, run = (Raise e, s))
  end.
Proof.
  intros Hok Hknown Hfresh Hr run. unfold run, resolve_token.
  rewrite (run_bind_ok _ _ _ _ _ (token_run r s Hok Hr)).
  pose proof (check_ref_run known_principal r accessor scope env s Hok Hr Hknown Hfresh) as Hcheck.
  destruct (verdict (st_now s) r accessor scope env) as [[result e]|]; [exact (run_bind_raise _ _ _ _ _ Hcheck)|].
  rewrite (run_bind_ok _ _ _ _ _ Hcheck).
  destruct (read_secret_run has_policies r scope env s Hok Hr) as [(p & Hrun & Hrel)|(e & Hrun & Hrel)].
  - rewrite (run_bind_ok _ _ _ _ _ Hrun).
    rewrite (run_bind_ok _ _ _ _ _ (log_access_run known_principal r accessor SUCCESS scope env s Hok Hr Hknown Hfresh)).
    split; [by intros q ->%Hrel|]. intros Hno. destruct (Hno p). by apply Hrel.
  - rewrite (run_bind_raise _ _ _ _ _ Hrun). split; [intros p Hp; by destruct (Hrel p)|]. intros _. by exists e.
Qed.

(** C17: Resolving a token, on every way out, for a known accessor: an unknown token
    raises and changes nothing; a revoked, expired, foreign or out-of-scope
    reference raises after exactly one row of the access log; otherwise the
    plaintext of the current version comes back, logged as a success and audited,
    exactly if the secret is active and unexpired, every policy on it list_admits the
    given scope and environment, and the value decrypts.  In the last case the
    refusal raises with nothing logged. *)
Theorem resolve_exact token accessor scope env s :
  vault_ok (st_db s) → known_principal accessor = true → fresh_log s →
  let run := resolve_token known_principal has_policies token accessor scope env s in
  ((∀ r, r ∈ v_table v_refs (st_db s) → sr_token r ≠ token) → run = (Raise invalid_token, s)) ∧
  ∀ r, r ∈ v_table v_refs (st_db s) → sr_token r = token →
    match verdict (st_now s) r accessor scope env with
    | Some (result, e) => run = (Raise e, with_log_row result r accessor scope env s)
    | None =>
        (∀ p, released has_policies (st_db s) (st_now s) r scope env p →
           run = (audit (request accessor ActionType.SECRET_REF_RESOLVE "secret" (sr_secret r)) ;; mret p)
                   (with_log_row SUCCESS r accessor scope env s)) ∧
        ((∀ p, ¬ released has_policies (st_db s) (st_now s) r scope env p) → ∃ e, run = (Raise e, s))
    end.
Proof.
  intros Hok Hknown Hfresh run. split.
  - intros Hno. unfold run, resolve_token.
    destruct (get_ref_by_token token s) as [[o|e] s'] eqn:Hrun; [|discriminate Hrun].
    rewrite (run_bind_ok _ _ _ _ _ Hrun). apply fetch_one_ok in Hrun as [-> Ho]. destruct o as [q|]; [|done].
    destruct Ho as [Hq Ht%bool_decide_eq_true_1]. by destruct (Hno q Hq).
  - intros r Hr <-. by apply resolve_run.
Qed.
Lemma encrypt_value_ok plaintext key s c s' :
  encrypt_value plaintext key s = (Ok c, s') → s' = s ∧ decrypt c key = Ok plaintext.
Proof.
  unfold encrypt_value, gets. rewrite run_bind. intros [Henc ->]%lift_ok. split; [done|].
  by eapply decrypt_encrypt.
Qed.

Lemma audit_vault q s u s' : audit q s = (Ok u, s') → same_vault s s' ∧ st_now s' = st_now s.
Proof.
  intros H. pose proof (off_trail_run _ _ _ _ (audit_off_trail q) H) as [Hdb Hnow].
  split; [|done]. by apply off_trail_vault.
Qed.

(** The tables after a rotation of [x] to [v]. *)
Definition rotated_vault (t : tables) (x : Secret) (v : SecretVersion) (ts : Z) : vault_tables := {|
  v_secrets := (λ y, if by_secret (se_id x) y then rotated (sv_version v) ts y else y) <$> v_table v_secrets t;
  v_versions := v_table v_versions t ++ [v]; v_refs := v_table v_refs t; v_log := v_table v_log t;
  v_policies := v_table v_policies t |}.

Lemma rotate_ok id new_value by_ reason key s v s' :
  vault_ok (st_db s) → rotate default_key id new_value by_ reason key s = (Ok v, s') →
  ∃ x, x ∈ v_table v_secrets (st_db s) ∧ se_id x = id ∧ secret_active x = true ∧
    past (st_now s) (se_expires x) = false ∧
    sv_secret v = id ∧ sv_version v = S (se_version x) ∧ decrypt (sv_value v) (sv_key v) = Ok new_value ∧
    t_vault (st_db s') = rotated_vault (st_db s) x v (st_now s) ∧ st_now s' = st_now s.
Proof.
  intros Hok H. unfold rotate in H.
  apply bind_ok_inv in H as (x & s1 & (-> & Hx & Hid & Hact & Hexp)%require_active_ok & H).
  apply bind_ok_inv in H as (ts & s1 & [-> ->]%now_utc_ok & H). cbv zeta in H.
  apply bind_ok_inv in H as (c & s1 & [-> Hdec]%encrypt_value_ok & H).
  apply bind_ok_inv in H as (vid & s1 & [-> ->]%generate_id_ok & H).
  apply bind_ok_inv in H as (? & s1 & (-> & _ & _)%insert_secret_version_ok & H).
  apply bind_ok_inv in H as (? & s1 & ->%sql_update_ok & H).
  apply bind_ok_inv in H as (? & s1 & [Hv Hnow]%audit_vault & H). apply mret_ok in H as [-> ->].
  exists x. split_and!; try done. rewrite Hv. unfold rotated_vault. by rewrite Hid.
Qed.

(** A rotation takes effect at once and for every reference: it appends one
    version, one above the current, and touches no reference and no log row; from
    then on the secret releases the new value and nothing else, to the scopes and
    environments it was released to before. *)
Theorem rotation_takes_effect id new_value by_ reason key s v s' :
  vault_ok (st_db s) → rotate default_key id new_value by_ reason key s = (Ok v, s') →
  v_table v_versions (st_db s') = v_table v_versions (st_db s) ++ [v] ∧
  v_table v_refs (st_db s') = v_table v_refs (st_db s) ∧ v_table v_log (st_db s') = v_table v_log (st_db s) ∧
  ∃ x, x ∈ v_table v_secrets (st_db s) ∧ se_id x = id ∧ sv_version v = S (se_version x) ∧
    ∀ r now scope env p, sr_secret r = id →
      released has_policies (st_db s') now r scope env p ↔
      p = new_value ∧ past now (se_expires x) = false ∧ admitted has_policies (st_db s) x scope env.
Proof.
  intros Hok H. destruct (rotate_ok _ _ _ _ _ _ _ _ Hok H) as (x & Hx & Hid & Hact & _ & Hvs & Hvn & Hdec & Hv & _).
  unfold v_table at 1 3 5. rewrite Hv. split_and!; [done..|]. exists x. split_and!; [done..|].
  intros r now scope env p Hr. set (x' := rotated (sv_version v) (st_now s) x).
  assert (Hok' : vault_ok (st_db s')).
  { pose proof (rotate_keeps known_principal default_key id new_value by_ reason key s Hok) as [Hk _]. by rewrite H in Hk. }
  assert (Hx' : x' ∈ v_table v_secrets (st_db s')).
  { unfold v_table. rewrite Hv. apply list_elem_of_fmap. exists x. split; [|done]. unfold by_secret.
    by rewrite bool_decide_eq_true_2. }
  assert (Hcur : ∀ q, current_value (st_db s') x' q ↔ q = new_value).
  { assert (Hin : v ∈ v_table v_versions (st_db s'))
      by (unfold v_table; rewrite Hv; apply elem_of_app; right; by apply list_elem_of_singleton).
    intros q. split; [|intros ->; exists v; split_and!; [done|simpl; congruence|done|done]].
    intros (w & Hw & Hwid & Hwn & Hd). simpl in Hwid, Hwn.
    assert (Heq : w = v); [|congruence].
    apply (NoDup_fmap_inj_in _ _ w v (vo_numbers _ Hok') Hw Hin). congruence. }
  assert (Hadm : admitted has_policies (st_db s') x' scope env ↔ admitted has_policies (st_db s) x scope env).
  { unfold admitted. assert (v_table v_policies (st_db s') = v_table v_policies (st_db s)) as ->; [|done].
    unfold v_table. by rewrite Hv. }
  rewrite <-Hcur, <-Hadm. split.
  - intros (y & Hy & Hyid & _ & Hp & Ha & Hc).
    by rewrite (secret_unique _ y x' Hok' Hy Hx') in Hp, Ha, Hc by (simpl; congruence).
  - intros (Hc & Hp & Ha). exists x'. split_and!; try done. simpl. congruence.
Qed.
Lemma grant_ref_ok x granted_to granted_by scope env expires s r s' :
  vault_ok (st_db s) → x ∈ v_table v_secrets (st_db s) →
  grant_ref known_principal has_policies (se_id x) granted_to granted_by scope env expires s = (Ok r, s') →
  secret_active x = true ∧ past (st_now s) (se_expires x) = false ∧ admitted has_policies (st_db s) x scope env ∧
  sr_secret r = se_id x ∧ sr_granted_to r = granted_to ∧ sr_scope r = scope ∧ sr_env r = env ∧
  sr_expires r = expires ∧ sr_lifecycle r = ACTIVE ∧ st_now s' = st_now s ∧
  t_vault (st_db s') = VaultTables (v_table v_secrets (st_db s)) (v_table v_versions (st_db s))
    (v_table v_refs (st_db s) ++ [r]) (v_table v_log (st_db s)) (v_table v_policies (st_db s)).
Proof.
  intros Hok Hx H. unfold grant_ref in H.
  apply bind_ok_inv in H as (y & s1 & (-> & Hy & Hid & Hact & Hexp)%require_active_ok & H).
  rewrite (secret_unique _ y x Hok Hy Hx Hid) in Hact, Hexp. clear y Hy Hid.
  apply bind_ok_inv in H as (? & s1 & Hgrant & H).
  apply (enforce_grant_ok has_policies x) in Hgrant as [-> Hadm]; [|done..].
  apply bind_ok_inv in H as (ts & s1 & [-> ->]%now_utc_ok & H).
  apply bind_ok_inv in H as (rid & s1 & [-> ->]%generate_id_ok & H).
  apply bind_ok_inv in H as (tok & s1 & [-> ->]%generate_id_ok & H). cbv zeta in H.
  apply bind_ok_inv in H as (? & s1 & [-> _]%insert_ref_ok & H).
  apply bind_ok_inv in H as (? & s1 & [Hv Hnow]%audit_vault & H). apply mret_ok in H as [-> ->].
  split_and!; try done; try apply Hv; apply Hnow.
Qed.

Lemma create_secret_ok name plaintext owner description classification expires key s x v s' :
  vault_ok (st_db s) →
  create_secret other_count known_principal default_key objects
    name plaintext owner description classification expires key s = (Ok (x, v), s') →
  vault_ok (st_db s') ∧ x ∈ v_table v_secrets (st_db s') ∧ current_value (st_db s') x plaintext.
Proof.
  intros Hok H. pose proof (create_secret_keeps other_count known_principal default_key objects
    name plaintext owner description classification expires key s Hok) as [Hok' _]. rewrite H in Hok'.
  split; [done|]. unfold create_secret in H. destruct objects as [mg|]; [|done].
  apply bind_ok_inv in H as (ts & s1 & [-> ->]%now_utc_ok & H).
  apply bind_ok_inv in H as (sid & s1 & [-> ->]%generate_id_ok & H).
  apply bind_ok_inv in H as (cls & s1 & [_ ->]%lift_ok & H).
  apply bind_ok_inv in H as (created & s1 & _ & H).
  apply bind_ok_inv in H as (c & s2 & [-> Hdec]%encrypt_value_ok & H). cbv zeta in H.
  apply bind_ok_inv in H as (? & s2 & [-> _]%insert_secret_ok & H).
  apply bind_ok_inv in H as (vid & s2 & [-> ->]%generate_id_ok & H).
  apply bind_ok_inv in H as (? & s2 & (-> & _ & _)%insert_secret_version_ok & H).
  apply bind_ok_inv in H as (? & s2 & [Hv _]%audit_vault & H). apply mret_ok in H as [[= -> ->] ->].
  unfold current_value, v_table. rewrite Hv. simpl. split.
  - apply elem_of_app. right. by apply list_elem_of_singleton.
  - eexists. split; [apply elem_of_app; right; by apply list_elem_of_singleton|done].
Qed.

(** What is stored can be read back: a secret just created and granted to a
    principal, with any scope, environment and expiry the policies let through,
    resolves for that principal, from there and before the reference expires, to
    the plaintext it was created with, and the access is logged and audited. *)
Theorem create_grant_resolve name plaintext owner description classification expires key
    granted_to granted_by scope env ref_expires s x v s1 r s2 :
  vault_ok (st_db s) → known_principal granted_to = true →
  create_secret other_count known_principal default_key objects
    name plaintext owner description classification expires key s = (Ok (x, v), s1) →
  grant_ref known_principal has_policies (se_id x) granted_to granted_by scope env ref_expires s1 = (Ok r, s2) →
  past (st_now s1) ref_expires = false → fresh_log s2 →
  resolve_token known_principal has_policies (sr_token r) granted_to scope env s2 =
    (audit (request granted_to ActionType.SECRET_REF_RESOLVE "secret" (se_id x)) ;; mret plaintext)
      (with_log_row SUCCESS r granted_to scope env s2).
Proof.
  intros Hok Hknown Hcreate Hgrant Hexp Hfresh.
  destruct (create_secret_ok _ _ _ _ _ _ _ _ _ _ _ Hok Hcreate) as (Hok1 & Hx & Hcur).
  destruct (grant_ref_ok _ _ _ _ _ _ _ _ _ Hok1 Hx Hgrant)
    as (Hact & Hxe & Hadm & Hsec & Hto & Hsc & Hen & Hre & Hlife & Hnow & Hv).
  assert (Hok2 : vault_ok (st_db s2)).
  { pose proof (grant_ref_keeps known_principal has_policies (se_id x) granted_to granted_by scope env ref_expires s1
      Hok1) as [Hk _]. by rewrite Hgrant in Hk. }
  assert (Hr : r ∈ v_table v_refs (st_db s2))
    by (unfold v_table; rewrite Hv; apply elem_of_app; right; by apply list_elem_of_singleton).
  pose proof (resolve_run r granted_to scope env s2 Hok2 Hknown Hfresh Hr) as Hrun. cbv zeta in Hrun.
  assert (verdict (st_now s2) r granted_to scope env = None) as Hverdict.
  { unfold verdict, ref_active, ref_expired. rewrite Hlife, Hto, Hsc, Hen, Hre, Hnow, Hexp.
    rewrite !(bool_decide_eq_true_2 (_ = _)) by done. cbn. by rewrite !andb_false_r. }
  rewrite Hverdict, Hsec in Hrun. apply (proj1 Hrun). exists x.
  unfold current_value, admitted, v_table in *. rewrite Hv, Hnow. split_and!; done.
Qed.
End VaultTheorems.
