(* ===== verification/Leaks.v ===== *)
(** * Legacy v1: leak detection (secrets/leak_detection.py)

    Looks for the plaintext of secrets in data that should not hold it. *)

From S2P Require Import Prelude LegacyTypes Schema Json Trail Rules RuleClients Tenancy Visibility Objects Secrets.

(** [a in b] on strings. *)
Fixpoint contains (a b : string) : bool :=
  String.prefix a b || match b with EmptyString => false | String _ b' => contains a b' end.

Definition key_path (prefix key : string) : string :=
  if bool_decide (prefix = "") then key else prefix +:+ "." +:+ key.

Definition index_path (prefix : string) (i : nat) : string := prefix +:+ "[" +:+ pretty i +:+ "]".

Definition leaks (known : list string) (s : string) : bool :=
  existsb (λ v, negb (bool_decide (v = "")) && contains v s) known.

Fixpoint _scan_recursive (known : list string) (prefix : string) (obj : jval) : list string :=
  match obj with
  | JVstr s => if leaks known s then [if bool_decide (prefix = "") then "<root>" else prefix] else []
  | JVdict d =>
      (fix items (d : list (string * jval)) : list string :=
         match d with
         | [] => []
         | (k, v) :: d' => _scan_recursive known (key_path prefix k) v ++ items d'
         end) d
  | JVlist l =>
      (fix items (i : nat) (l : list jval) : list string :=
         match l with
         | [] => []
         | v :: l' => _scan_recursive known (index_path prefix i) v ++ items (S i) l'
         end) 0 l
  | _ => []
  end.

Section Detector.
Context `{host : !Host} `{enc : !SecretBackend}.

(** The current plaintexts of the active secrets; what does not decrypt is left out. *)
Definition get_known_values : lp (list string) :=
  secrets ← gets (λ s, v_table v_secrets (st_db s));
  rows ← select (v_table v_versions) (λ v, existsb (λ x,
    by_secret (sv_secret v) x && (sv_version v =? se_version x) && secret_active x) secrets);
  mret (omap (λ v, match decrypt (sv_value v) (sv_key v) with Ok p => Some p | Raise _ => None end) rows).

Definition scan_data (data : jdict) (known : option (list string)) : lp (list string) :=
  values ← match known with Some l => mret l | None => get_known_values end;
  mret (if bool_decide (values = []) then [] else _scan_recursive values "" (JVdict data)).

Definition scan_or_raise (data : jdict) (context : string) (known : option (list string)) : lp unit :=
  found ← scan_data data known;
  raise_if (negb (bool_decide (found = [])))
    (SecretLeakDetected ("Secret value detected in " +:+ (if bool_decide (context = "") then "data" else context) +:+
       " at: " +:+ join_with ", " found)).
End Detector.

(** ** What a scan reports *)

(** A string in nested data, with its path. *)
Inductive leaf : string → jval → string → string → Prop :=
  | leaf_str prefix s : leaf prefix (JVstr s) prefix s
  | leaf_dict prefix d k v path s : (k, v) ∈ d → leaf (key_path prefix k) v path s → leaf prefix (JVdict d) path s
  | leaf_list prefix l i v path s :
      l !! i = Some v → leaf (index_path prefix i) v path s → leaf prefix (JVlist l) path s.

Definition shown (path : string) : string := if bool_decide (path = "") then "<root>" else path.

Lemma contains_spec a b : contains a b = true ↔ ∃ u w, b = u +:+ a +:+ w.
Proof.
  assert (Hprefix : ∀ a b, String.prefix a b = true ↔ ∃ w, b = a +:+ w).
  { clear. intros a. induction a as [|c a IH]; intros b; [split; [intros _; by exists b|]; by destruct b|].
    destruct b as [|c' b]; simpl; [split; [done|]; by intros [w ?]|]. destruct (Ascii.ascii_dec c c') as [->|Hne].
    - rewrite IH. split; intros [w Hw]; exists w; [by rewrite Hw|by injection Hw].
    - split; [done|]. intros [w [= ??]]. done. }
  induction b as [|c b IH]; cbn [contains]; rewrite orb_true_iff, Hprefix.
  - split; [intros [[w Hw]|?]; [by exists "", w|done]|]. intros (u & w & H). left. exists w. by destruct u.
  - rewrite IH. split.
    + intros [[w Hw]|(u & w & ->)]; [by exists "", w|]. by exists (String c u), w.
    + intros (u & w & H). destruct u as [|c' u]; [left; by exists w|right]. injection H as _ ->. by exists u, w.
Qed.

Lemma scan_spec known obj : ∀ prefix path,
  path ∈ _scan_recursive known prefix obj ↔ ∃ q s, leaf prefix obj q s ∧ leaks known s = true ∧ path = shown q.
Proof.
  revert obj. fix IH 1. intros [| | | |s|l|d] prefix path; cbn [_scan_recursive];
    try (split; [by intros ?%elem_of_nil|]; intros (q & t & Hl & _); by inversion Hl).
  - split.
    + destruct (leaks known s) eqn:Hs; [|by intros ?%elem_of_nil].
      intros ->%list_elem_of_singleton. exists prefix, s. split_and!; [constructor|done|done].
    + intros (q & t & Hl & Hs & ->). inversion Hl; subst. rewrite Hs. by apply list_elem_of_singleton.
  - assert (Hitems : ∀ i, path ∈ (fix items (i : nat) (l : list jval) : list string :=
         match l with [] => [] | v :: l' => _scan_recursive known (index_path prefix i) v ++ items (S i) l' end) i l ↔
       ∃ j v q s, l !! j = Some v ∧ leaf (index_path prefix (i + j)) v q s ∧ leaks known s = true ∧ path = shown q).
    { induction l as [|v l IHl]; intros i; [split; [by intros ?%elem_of_nil|]; by intros (j & ? & ? & ? & ? & _)|].
      rewrite elem_of_app, IHl, (IH v). split.
      - intros [(q & s & H)|(j & w & q & s & Hj & H)].
        + exists 0, v, q, s. rewrite Nat.add_0_r. by split.
        + exists (S j), w, q, s. rewrite Nat.add_succ_r. by split.
      - intros (j & w & q & s & Hj & H). destruct j as [|j]; [left|right].
        + injection Hj as ->. exists q, s. by rewrite Nat.add_0_r in H.
        + exists j, w, q, s. by rewrite Nat.add_succ_r in H. }
    rewrite Hitems. simpl. split.
    + intros (j & v & q & s & Hj & Hl & Hs & Hp). exists q, s. split_and!; [by eapply leaf_list|done..].
    + intros (q & s & Hl & Hs & Hp). inversion Hl; subst. by do 4 eexists.
  - assert (Hitems : path ∈ (fix items (d : list (string * jval)) : list string :=
         match d with [] => [] | (k, v) :: d' => _scan_recursive known (key_path prefix k) v ++ items d' end) d ↔
       ∃ k v q s, (k, v) ∈ d ∧ leaf (key_path prefix k) v q s ∧ leaks known s = true ∧ path = shown q).
    { induction d as [|[k v] d IHd]; [split; [by intros ?%elem_of_nil|]; by intros (? & ? & ? & ? & ?%elem_of_nil & _)|].
      rewrite elem_of_app, IHd, (IH v). split.
      - intros [(q & s & H)|(k' & w & q & s & Hj & H)].
        + exists k, v, q, s. split; [by left|done].
        + exists k', w, q, s. split; [by right|done].
      - intros (k' & w & q & s & [[= -> ->]|Hin]%elem_of_cons & H); [left; by exists q, s|right].
        by exists k', w, q, s. }
    rewrite Hitems. split.
    + intros (k & v & q & s & Hin & Hl & Hs & Hp). exists q, s. split_and!; [by eapply leaf_dict|done..].
    + intros (q & s & Hl & Hs & Hp). inversion Hl; subst. by do 4 eexists.
Qed.

Lemma leaks_spec known s : leaks known s = true ↔ ∃ v u w, v ∈ known ∧ v ≠ "" ∧ s = u +:+ v +:+ w.
Proof.
  unfold leaks. rewrite existsb_exists. split.
  - intros (v & Hv & [Hne Hc]%andb_true_iff). rewrite <-list_elem_of_In in Hv.
    apply contains_spec in Hc as (u & w & ->). apply negb_true_iff, bool_decide_eq_false_1 in Hne. by exists v, u, w.
  - intros (v & u & w & Hv & Hne & ->). exists v. rewrite <-list_elem_of_In. split; [done|].
    rewrite bool_decide_eq_false_2 by done. apply contains_spec. by exists u, w.
Qed.

Section DetectorTheory.
Context `{host : !Host} `{enc : !SecretBackend}.

(** A current plaintext of an active secret. *)
Definition live_plaintext (t : tables) (p : string) : Prop :=
  ∃ x, x ∈ v_table v_secrets t ∧ secret_active x = true ∧ current_value t x p.

Lemma known_values_run s :
  ∃ l, get_known_values s = (Ok l, s) ∧ ∀ p, p ∈ l ↔ live_plaintext (st_db s) p.
Proof.
  eexists. split; [reflexivity|]. intros p. rewrite list_elem_of_omap. unfold live_plaintext, current_value. split.
  - intros (v & Hv & Hd). rewrite scan_perm, list_elem_of_filter in Hv. destruct Hv as [Hx Hv].
    apply existsb_exists in Hx as (x & Hx & [[Hid Hn%Nat.eqb_eq]%andb_true_iff Ha]%andb_true_iff).
    rewrite <-list_elem_of_In in Hx. apply bool_decide_eq_true_1 in Hid.
    exists x. split_and!; [done..|]. exists v. split_and!; [done..|].
    by destruct (decrypt _ _) as [q|]; simplify_eq.
  - intros (x & Hx & Ha & v & Hv & Hid & Hn & Hd). exists v. rewrite Hd. split; [|done].
    rewrite scan_perm, list_elem_of_filter. split; [|done]. apply existsb_exists. exists x.
    rewrite <-list_elem_of_In. split; [done|]. unfold by_secret.
    by rewrite bool_decide_eq_true_2, Hn, Nat.eqb_refl, Ha by done.
Qed.

(** The leak detector misses nothing and reports nothing else: scanning data
    gives, changing nothing, exactly the paths of the strings, at any depth of
    dicts and lists, that contain the current, non-empty plaintext of an active
    secret, and scan_or_raise returns exactly if there is none. *)
Theorem scan_exact data context s :
  ∃ found, scan_data data None s = (Ok found, s) ∧
    (∀ path, path ∈ found ↔ ∃ q str p u w, leaf "" (JVdict data) q str ∧ path = shown q ∧
       live_plaintext (st_db s) p ∧ p ≠ "" ∧ str = u +:+ p +:+ w) ∧
    (found = [] → scan_or_raise data context None s = (Ok tt, s)) ∧
    (found ≠ [] → ∃ msg, scan_or_raise data context None s = (Raise (SecretLeakDetected msg), s)).
Proof.
  destruct (known_values_run s) as (known & Hrun & Hknown).
  set (found := if bool_decide (known = []) then [] else _scan_recursive known "" (JVdict data)).
  assert (Hscan : scan_data data None s = (Ok found, s)) by (unfold scan_data; by rewrite (run_bind_ok _ _ _ _ _ Hrun)).
  exists found. split_and!; [done| | |].
  - intros path. assert (Hfound : path ∈ found ↔ path ∈ _scan_recursive known "" (JVdict data)).
    { unfold found. case_bool_decide as Hnil; [|done]. rewrite scan_spec, Hnil. split; [by intros ?%elem_of_nil|].
      by intros (q & str & _ & ? & _). }
    rewrite Hfound, scan_spec. setoid_rewrite leaks_spec. setoid_rewrite Hknown. naive_solver.
  - intros Hnil. unfold scan_or_raise. rewrite (run_bind_ok _ _ _ _ _ Hscan). by rewrite bool_decide_eq_true_2.
  - intros Hne. unfold scan_or_raise. rewrite (run_bind_ok _ _ _ _ _ Hscan).
    rewrite bool_decide_eq_false_2 by done. by eexists.
Qed.
End DetectorTheory.
