(* ===== verification/Scheduling.v ===== *)
(** * Legacy v1: scheduled actions and the job queue (scheduling/)

    Recurring schedules, scheduled actions and their due dates, and the queue that
    runs jobs through an executor. *)

From S2P Require Import Prelude LegacyTypes Schema Json Trail Rules RuleClients Tenancy.

Definition d_table {R} (f : sched_tables → list R) (t : tables) : list R := f (sched t).

Definition by_schedule (id : string) (x : RecurringSchedule) : bool := bool_decide (rc_id x = id).
Definition by_action (id : string) (x : ScheduledAction) : bool := bool_decide (ac_id x = id).
Definition by_job (id : string) (x : Job) : bool := bool_decide (jb_id x = id).
Definition in_state (st : JobState) (x : Job) : bool := bool_decide (jb_state x = st).

Definition action_active (x : ScheduledAction) : bool := bool_decide (ac_lifecycle x = ACTIVE).

(** ** Row edits *)

Definition archived_schedule (x : RecurringSchedule) : RecurringSchedule := {|
  rc_id := rc_id x; rc_name := rc_name x; rc_owner := rc_owner x; rc_cron := rc_cron x;
  rc_interval := rc_interval x; rc_created_at := rc_created_at x; rc_lifecycle := ARCHIVED |}.

Definition edit_action (next : Z) (l : Lifecycle) (x : ScheduledAction) : ScheduledAction := {|
  ac_id := ac_id x; ac_name := ac_name x; ac_owner := ac_owner x; ac_type := ac_type x;
  ac_config := ac_config x; ac_next := next; ac_schedule := ac_schedule x; ac_scope := ac_scope x;
  ac_created_at := ac_created_at x; ac_lifecycle := l |}.

Definition advanced (next : Z) (x : ScheduledAction) : ScheduledAction := edit_action next (ac_lifecycle x) x.
Definition archived_action (x : ScheduledAction) : ScheduledAction := edit_action (ac_next x) ARCHIVED x.

Definition set_job (st : JobState) (started completed : option Z) (result : jdict) (error : option string)
  (x : Job) : Job := {|
  jb_id := jb_id x; jb_name := jb_name x; jb_type := jb_type x; jb_config := jb_config x;
  jb_owner := jb_owner x; jb_state := st; jb_created_at := jb_created_at x; jb_started_at := started;
  jb_completed_at := completed; jb_result := result; jb_error := error; jb_action := jb_action x;
  jb_scope := jb_scope x; jb_lifecycle := jb_lifecycle x |}.

Definition job_started (at_ : Z) (x : Job) : Job :=
  set_job JOB_RUNNING (Some at_) (jb_completed_at x) (jb_result x) (jb_error x) x.
Definition job_completed (at_ : Z) (result : jdict) (x : Job) : Job :=
  set_job JOB_COMPLETED (jb_started_at x) (Some at_) result (jb_error x) x.
Definition job_failed (at_ : Z) (error : string) (x : Job) : Job :=
  set_job JOB_FAILED (jb_started_at x) (Some at_) (jb_result x) (Some error) x.
Definition job_cancelled (x : Job) : Job :=
  set_job JOB_CANCELLED (jb_started_at x) (jb_completed_at x) (jb_result x) (jb_error x) x.

(** [try: m except Exception: pass]. *)
Definition swallow (m : lp unit) : lp unit := λ s, (Ok tt, (m s).2).

(** ** JobQueue (queue.py) *)

(** The work itself: what an executor may do is any computation on the process. *)
Definition job_executor : Type := string → jdict → lp jdict.

Section Queue.
Context `{host : !Host}.
Context (known_principal : string → bool).

(** An exception's text, [str(exc)]. *)
Context (exc_text : exn → string).

Definition insert_job (x : Job) : lp unit :=
  raise_if (negb (known_principal (jb_owner x))) (IntegrityError "jobs.owner_id") ;;
  match jb_action x with
  | None => mret tt
  | Some a => require_row (d_table d_actions) (by_action a) "jobs.scheduled_action_id"
  end ;;
  sql_insert (d_table d_jobs) set_jobs (λ a b, bool_decide (jb_id a = jb_id b)) "jobs.id" x.

Definition queued_job (id name type : string) (config : jdict) (owner : string) (ts : Z)
  (action scope : option string) : Job := {|
  jb_id := id; jb_name := name; jb_type := type; jb_config := config; jb_owner := owner;
  jb_state := JOB_QUEUED; jb_created_at := ts; jb_started_at := None; jb_completed_at := None;
  jb_result := []; jb_error := None; jb_action := action; jb_scope := scope; jb_lifecycle := ACTIVE |}.

Definition enqueue (name type : string) (config : option jdict) (owner : string) (action scope : option string)
  : lp Job :=
  jid ← generate_id;
  ts ← now_utc;
  let job := queued_job jid name type (default [] config) owner ts action scope in
  insert_job job ;;
  mret job.

Definition get_job (id : string) : lp (option Job) := fetch_one (d_table d_jobs) (by_job id).

(** [job_from_row(fetch_one(...))]. *)
Definition job_after (id : string) : lp Job :=
  row ← get_job id;
  match row with
  | Some j => mret j
  | None => raise (TypeError "'NoneType' object is not subscriptable")
  end.

Definition _run_job (executor : job_executor) (row : Job) : lp Job :=
  let job_id := jb_id row in
  started ← now_utc;
  sql_update (d_table d_jobs) set_jobs (by_job job_id) (job_started started) ;;
  r ← try (
    result ← executor (jb_type row) (jb_config row);
    completed ← now_utc;
    sql_update (d_table d_jobs) set_jobs (by_job job_id) (job_completed completed result) ;;
    job_after job_id);
  match r with
  | Ok job => mret job
  | Raise exc =>
      completed ← now_utc;
      sql_update (d_table d_jobs) set_jobs (by_job job_id) (job_failed completed (exc_text exc)) ;;
      job_after job_id
  end.

Definition oldest_job (a b : Job) : bool := (jb_created_at a <=? jb_created_at b)%Z.
Definition newest_job (a b : Job) : bool := (jb_created_at b <=? jb_created_at a)%Z.

Definition run_next (executor : job_executor) : lp (option Job) :=
  rows ← select_sorted (d_table d_jobs) (in_state JOB_QUEUED) oldest_job;
  match rows with
  | [] => mret None
  | row :: _ => j ← _run_job executor row; mret (Some j)
  end.

Definition run_all (executor : job_executor) : lp (list Job) :=
  rows ← select_sorted (d_table d_jobs) (in_state JOB_QUEUED) oldest_job;
  for_fold rows [] (λ acc row, j ← _run_job executor row; mret (acc ++ [j])).

Definition job_filter (owner : option string) (st : option JobState) (x : Job) : bool :=
  from_option (λ o, bool_decide (jb_owner x = o)) true owner && from_option (λ q, in_state q x) true st.

Definition list_jobs (owner : option string) (st : option JobState) (limit : nat) : lp (list Job) :=
  l ← select_sorted (d_table d_jobs) (job_filter owner st) newest_job;
  mret (take limit l).

Definition count_jobs (st : option JobState) : lp nat := select_count (d_table d_jobs) (job_filter None st).

Definition cancel_job (id : string) : lp unit :=
  sql_update (d_table d_jobs) set_jobs (λ x, by_job id x && in_state JOB_QUEUED x) job_cancelled.

Definition _default_executor : job_executor := λ type _,
  mret [("status", JVstr "ok"); ("action_type", JVstr type)].
End Queue.

(** ** Scheduler (scheduler.py) *)

(** What the scheduler uses of the construct registry: registering a schedule,
    which touches none of the modelled tables. *)
Class AutoRegister := {
  auto_register : string → string → lp unit;
  auto_register_off : ∀ name by_, respects off_trail (auto_register name by_);
}.

Section Scheduler.
Context `{host : !Host} `{sink : !AuditSink} `{registry : !AutoRegister}.
Context (known_principal : string → bool).
Context (cron_parser : option (string → Z → outcome Z)).

(** Audit records of this layer are best effort. *)
Definition audit_quietly (q : trace_request) : lp unit := swallow (audit q).

Definition insert_schedule (x : RecurringSchedule) : lp unit :=
  raise_if (negb (known_principal (rc_owner x))) (IntegrityError "recurring_schedules.owner_id") ;;
  sql_insert (d_table d_schedules) set_schedules (λ a b, bool_decide (rc_id a = rc_id b)) "recurring_schedules.id" x.

Definition create_schedule (name owner : string) (cron : option string) (interval : option Z)
  : lp RecurringSchedule :=
  raise_if (negb (given_str cron) && negb (given_int interval))
    (ValueError "Either cron_expression or interval_seconds must be provided") ;;
  raise_if (given_str cron && given_int interval)
    (ValueError "Only one of cron_expression or interval_seconds may be provided") ;;
  id ← generate_id;
  ts ← now_utc;
  let schedule := {| rc_id := id; rc_name := name; rc_owner := owner; rc_cron := cron; rc_interval := interval;
    rc_created_at := ts; rc_lifecycle := ACTIVE |} in
  insert_schedule schedule ;;
  swallow (auto_register ("schedule:" +:+ id) owner) ;;
  audit_quietly (states_req None (Some [("name", JVstr name)])
    (request owner ActionType.SCHEDULE_CREATE "recurring_schedule" id)) ;;
  mret schedule.

Definition get_schedule (id : string) : lp (option RecurringSchedule) :=
  fetch_one (d_table d_schedules) (by_schedule id).

Definition newest_schedule (a b : RecurringSchedule) : bool := (rc_created_at b <=? rc_created_at a)%Z.

Definition list_schedules (owner : option string) (active_only : bool) : lp (list RecurringSchedule) :=
  select_sorted (d_table d_schedules) (λ x,
    (negb active_only || bool_decide (rc_lifecycle x = ACTIVE)) &&
    from_option (λ o, bool_decide (rc_owner x = o)) true owner) newest_schedule.

Definition lifecycle_states (q : trace_request) : trace_request :=
  states_req (Some [("lifecycle", JVstr "ACTIVE")]) (Some [("lifecycle", JVstr "ARCHIVED")]) q.

Definition archive_schedule (id : string) : lp unit :=
  sql_update (d_table d_schedules) set_schedules (by_schedule id) archived_schedule ;;
  audit_quietly (lifecycle_states (request "system" ActionType.SCHEDULE_ARCHIVE "recurring_schedule" id)).

Definition insert_action (x : ScheduledAction) : lp unit :=
  raise_if (negb (known_principal (ac_owner x))) (IntegrityError "scheduled_actions.owner_id") ;;
  match ac_schedule x with
  | None => mret tt
  | Some id => require_row (d_table d_schedules) (by_schedule id) "scheduled_actions.schedule_id"
  end ;;
  sql_insert (d_table d_actions) set_actions (λ a b, bool_decide (ac_id a = ac_id b)) "scheduled_actions.id" x.

Definition create_action (name owner type : string) (config : option jdict) (next : Z)
  (schedule scope : option string) : lp ScheduledAction :=
  id ← generate_id;
  ts ← now_utc;
  let action := {| ac_id := id; ac_name := name; ac_owner := owner; ac_type := type;
    ac_config := default [] config; ac_next := next; ac_schedule := schedule; ac_scope := scope;
    ac_created_at := ts; ac_lifecycle := ACTIVE |} in
  insert_action action ;;
  audit_quietly (states_req None (Some [("name", JVstr name); ("action_type", JVstr type)])
    (request owner ActionType.CREATE "scheduled_action" id)) ;;
  mret action.

Definition get_action (id : string) : lp (option ScheduledAction) := fetch_one (d_table d_actions) (by_action id).

Definition soonest (a b : ScheduledAction) : bool := (ac_next a <=? ac_next b)%Z.

Definition list_actions (owner : option string) (active_only : bool) : lp (list ScheduledAction) :=
  select_sorted (d_table d_actions) (λ x,
    (negb active_only || action_active x) && from_option (λ o, bool_decide (ac_owner x = o)) true owner) soonest.

Definition due (ts : Z) (x : ScheduledAction) : bool := action_active x && (ac_next x <=? ts)%Z.

Definition get_due_actions (as_of : option Z) : lp (list ScheduledAction) :=
  now ← now_utc;
  select_sorted (d_table d_actions) (due (default now as_of)) soonest.

Definition advance_action (id : string) (next : Z) : lp unit :=
  sql_update (d_table d_actions) set_actions (by_action id) (advanced next).

Definition archive_action (id : string) : lp unit :=
  sql_update (d_table d_actions) set_actions (by_action id) archived_action ;;
  audit_quietly (lifecycle_states (request "system" ActionType.LIFECYCLE_CHANGE "scheduled_action" id)).

Definition micros (seconds : Z) : Z := (seconds * 1000000)%Z.

(** When the action runs next by its schedule, if it does. *)
Definition next_run (action : ScheduledAction) (schedule : option RecurringSchedule) : outcome (option Z) :=
  match schedule with
  | None => Ok None
  | Some r =>
      if given_int (rc_interval r) then Ok (Some (ac_next action + micros (default 0 (rc_interval r)))%Z)
      else if given_str (rc_cron r) then
        match cron_parser with
        | Some parse => Some <$> parse (default "" (rc_cron r)) (ac_next action)
        | None => Ok (Some (ac_next action + micros 3600)%Z)
        end
      else Ok None
  end.

Definition advance_or_archive (action : ScheduledAction) : lp unit :=
  if given_str (ac_schedule action) then
    schedule ← get_schedule (default "" (ac_schedule action));
    next ← lift (next_run action schedule);
    match next with
    | Some n => advance_action (ac_id action) n
    | None => archive_action (ac_id action)
    end
  else archive_action (ac_id action).

Definition process_action (jobs : list Job) (action : ScheduledAction) : lp (list Job) :=
  job ← enqueue known_principal (ac_name action) (ac_type action) (Some (ac_config action)) (ac_owner action)
          (Some (ac_id action)) (ac_scope action);
  advance_or_archive action ;;
  audit_quietly (states_req None (Some [("action_type", JVstr (ac_type action));
      ("scheduled_action_id", JVstr (ac_id action))])
    (request "system" ActionType.JOB_ENQUEUE "job" (jb_id job))) ;;
  mret (jobs ++ [job]).

Definition process_due_actions (as_of : option Z) : lp (list Job) :=
  due ← get_due_actions as_of;
  for_fold due [] process_action.
End Scheduler.

(** ** The queue's theory *)

Definition jobs_of (s : store) : list Job := d_table d_jobs (st_db s).

Definition same_jobs : relation store := λ s s', jobs_of s' = jobs_of s.

#[export] Instance same_jobs_preorder : PreOrder same_jobs.
Proof. split; [by intros s|]. intros s1 s2 s3 H1 H2. unfold same_jobs in *. congruence. Qed.

Lemma off_trail_jobs s s' : off_trail s s' → same_jobs s s'.
Proof. intros H. unfold same_jobs, jobs_of, d_table, sched. by rewrite (off_trail_layers _ _ H). Qed.

Lemma respects_jobs {R} (m : lp R) : respects off_trail m → respects same_jobs m.
Proof. intros H s. apply off_trail_jobs, H. Qed.

Lemma respects_swallow (Rel : relation store) m : respects Rel m → respects Rel (swallow m).
Proof. intros H s. apply H. Qed.

Lemma keeps_swallow (I : tables → Prop) (A : relation tables) m s : keeps I A m s → keeps I A (swallow m) s.
Proof. done. Qed.

(** An executor that leaves the queue alone. *)
Definition executor_apart (executor : job_executor) : Prop :=
  ∀ type config, respects same_jobs (executor type config).

(** The one job [id] replaced by [f] of it. *)
Definition on_job (id : string) (f : Job → Job) (l : list Job) : list Job :=
  (λ x, if by_job id x then f x else x) <$> l.

Lemma on_job_ids id f l : (∀ x, jb_id (f x) = jb_id x) → jb_id <$> on_job id f l = jb_id <$> l.
Proof.
  intros Hf. unfold on_job. rewrite <-list_fmap_compose. apply list_fmap_ext. intros _ x _. simpl.
  by destruct (by_job id x).
Qed.

Lemma on_job_twice id f g l : (∀ x, jb_id (f x) = jb_id x) → on_job id g (on_job id f l) = on_job id (g ∘ f) l.
Proof.
  intros Hf. unfold on_job. rewrite <-list_fmap_compose. apply list_fmap_ext. intros _ x _. simpl. unfold by_job.
  destruct (bool_decide (jb_id x = id)) eqn:Hx; [|by rewrite Hx]. by rewrite Hf, Hx.
Qed.

Lemma on_job_elem x f l y :
  NoDup (jb_id <$> l) → x ∈ l → y ∈ on_job (jb_id x) f l ↔ y = f x ∨ y ∈ l ∧ jb_id y ≠ jb_id x.
Proof.
  intros Hnd Hx. unfold on_job, by_job. rewrite list_elem_of_fmap. split.
  - intros (r & -> & Hr). case_bool_decide as Hid; [left|by right].
    by rewrite (NoDup_fmap_inj_in _ _ _ _ Hnd Hr Hx Hid).
  - intros [->|[Hy Hne]]; [exists x; by rewrite bool_decide_eq_true_2|].
    exists y. by rewrite bool_decide_eq_false_2.
Qed.

Section QueueTheory.
Context `{host : !Host}.
Context (exc_text : exn → string).

Lemma job_after_run x s :
  NoDup (jb_id <$> jobs_of s) → x ∈ jobs_of s → job_after (jb_id x) s = (Ok x, s).
Proof.
  intros Hnd Hx. unfold job_after, get_job.
  destruct (fetch_one (d_table d_jobs) (by_job (jb_id x)) s) as [[o|e] s'] eqn:Hrun; [|discriminate Hrun].
  rewrite (run_bind_ok _ _ _ _ _ Hrun). apply fetch_one_ok in Hrun as [-> Ho]. destruct o as [y|].
  - destruct Ho as [Hy Hid%bool_decide_eq_true_1]. by rewrite (NoDup_fmap_inj_in _ _ _ _ Hnd Hy Hx Hid).
  - specialize (Ho x Hx). by apply bool_decide_eq_false_1 in Ho.
Qed.

(** The job after a run that began at [started] and ended at [ended]. *)
Definition job_outcome (started ended : Z) (r : outcome jdict) (x : Job) : Job :=
  match r with
  | Ok result => job_completed ended result (job_started started x)
  | Raise e => job_failed ended (exc_text e) (job_started started x)
  end.

Definition put_jobs (l : list Job) (s : store) : store := put_db (set_jobs l (st_db s)) s.

Lemma update_job_run id f s :
  sql_update (d_table d_jobs) set_jobs (by_job id) f s = (Ok tt, put_jobs (on_job id f (jobs_of s)) s).
Proof. reflexivity. Qed.

(** Running a job never raises: the executor's outcome ends up in its row, and
    no other job changes. *)
Lemma run_job_run executor row x s :
  executor_apart executor → NoDup (jb_id <$> jobs_of s) → x ∈ jobs_of s → jb_id x = jb_id row →
  let s1 := put_jobs (on_job (jb_id x) (job_started (st_now s)) (jobs_of s)) s in
  ∃ r s', executor (jb_type row) (jb_config row) s1 = (r, s') ∧
    _run_job exc_text executor row s =
      (Ok (job_outcome (st_now s) (st_now s') r x),
       put_jobs (on_job (jb_id x) (job_outcome (st_now s) (st_now s') r) (jobs_of s)) s').
Proof.
  intros Hapart Hnd Hx Hid. cbv zeta. rewrite Hid.
  set (s1 := put_jobs (on_job (jb_id row) (job_started (st_now s)) (jobs_of s)) s).
  destruct (executor (jb_type row) (jb_config row) s1) as [r s'] eqn:Hexec.
  exists r, s'. split; [done|].
  pose proof (Hapart (jb_type row) (jb_config row) s1) as Hsame. rewrite Hexec in Hsame.
  change (jobs_of s' = on_job (jb_id row) (job_started (st_now s)) (jobs_of s)) in Hsame.
  set (s2 := put_jobs (on_job (jb_id row) (job_outcome (st_now s) (st_now s') r) (jobs_of s)) s').
  assert (Hend : ∀ f, (∀ y, jb_id (f y) = jb_id y) → (∀ y, f (job_started (st_now s) y) = job_outcome (st_now s) (st_now s') r y) →
    sql_update (d_table d_jobs) set_jobs (by_job (jb_id row)) f s' = (Ok tt, s2)).
  { intros f Hf Hout. rewrite update_job_run, Hsame, on_job_twice by done. unfold s2, on_job. do 2 f_equal.
    apply list_fmap_ext. intros _ y _. simpl. by rewrite Hout. }
  assert (Hrow : job_after (jb_id row) s2 = (Ok (job_outcome (st_now s) (st_now s') r x), s2)).
  { rewrite <-Hid. assert (Hj : ∀ y, jb_id (job_outcome (st_now s) (st_now s') r y) = jb_id y) by (by destruct r).
    rewrite <-(Hj x). apply job_after_run; change (jobs_of s2) with
      (on_job (jb_id row) (job_outcome (st_now s) (st_now s') r) (jobs_of s)).
    - by rewrite on_job_ids.
    - rewrite <-Hid. apply on_job_elem; [done|done|by left]. }
  fold s2. unfold _run_job. cbv zeta.
  rewrite (run_bind_ok now_utc _ s (st_now s) s eq_refl), (run_bind_ok _ _ _ _ _ (update_job_run _ _ _)). fold s1.
  destruct r as [result|e].
  - rewrite (run_bind_ok (try _) _ s1 (Ok (job_outcome (st_now s) (st_now s') (Ok result) x)) s2); [done|].
    unfold try. rewrite (run_bind_ok _ _ _ _ _ Hexec), (run_bind_ok now_utc _ s' (st_now s') s' eq_refl).
    rewrite (run_bind_ok _ _ _ _ _ (Hend (job_completed (st_now s') result) (λ _, eq_refl) (λ _, eq_refl))).
    by rewrite Hrow.
  - rewrite (run_bind_ok (try _) _ s1 (Raise e) s') by (unfold try; by rewrite (run_bind_raise _ _ _ _ _ Hexec)).
    rewrite (run_bind_ok now_utc _ s' (st_now s') s' eq_refl).
    by rewrite (run_bind_ok _ _ _ _ _ (Hend (job_failed (st_now s') (exc_text e)) (λ _, eq_refl) (λ _, eq_refl))).
Qed.
(** A queued job that has been run. *)
Definition ran (x j : Job) : Prop := ∃ started ended r, j = job_outcome started ended r x.

Lemma ran_id x j : ran x j → jb_id j = jb_id x.
Proof. by intros (t0 & t1 & [a|e] & ->). Qed.

Lemma ran_state x j : ran x j → jb_state j = JOB_COMPLETED ∨ jb_state j = JOB_FAILED.
Proof. intros (t0 & t1 & [a|e] & ->); [by left|by right]. Qed.

(** The executions of a batch: job by job, the executor called once on the job's
    type and configuration, in the store where that job is marked running; what it
    returned or raised is written to the job's row, in the store the executor left,
    before the next job. *)
Inductive executions (executor : job_executor) : list Job → list Job → store → store → Prop :=
  | executed_none s : executions executor [] [] s s
  | executed_job x rows js s r s' s'' :
      executor (jb_type x) (jb_config x) (put_jobs (on_job (jb_id x) (job_started (st_now s)) (jobs_of s)) s) = (r, s') →
      executions executor rows js
        (put_jobs (on_job (jb_id x) (job_outcome (st_now s) (st_now s') r) (jobs_of s)) s') s'' →
      executions executor (x :: rows) (job_outcome (st_now s) (st_now s') r x :: js) s s''.

Lemma executions_ran executor rows js s s' : executions executor rows js s s' → Forall2 ran rows js.
Proof. induction 1; constructor; [by do 3 eexists|done]. Qed.

(** Running a batch of distinct queued jobs, read beforehand. *)
Lemma run_rows_run executor rows acc s :
  executor_apart executor → NoDup (jb_id <$> jobs_of s) → NoDup (jb_id <$> rows) →
  (∀ x, x ∈ rows → x ∈ jobs_of s) →
  ∃ js s', for_fold rows acc (λ acc row, j ← _run_job exc_text executor row; mret (acc ++ [j])) s = (Ok (acc ++ js), s') ∧
    executions executor rows js s s' ∧ jb_id <$> jobs_of s' = jb_id <$> jobs_of s ∧
    ∀ y, y ∈ jobs_of s' ↔ y ∈ js ∨ y ∈ jobs_of s ∧ (jb_id y ∉ jb_id <$> rows).
Proof.
  intros Hapart. revert acc s. induction rows as [|x rows IH]; intros acc s Hnd Hrows Hin; cbn [for_fold].
  { exists [], s. rewrite app_nil_r. split_and!; [done|constructor|done|]. intros y.
    split; [intros Hy; right; split; [done|apply not_elem_of_nil]|]. by intros [?%elem_of_nil|[? _]]. }
  rewrite fmap_cons in Hrows. apply NoDup_cons in Hrows as [Hx Hrows].
  destruct (run_job_run executor x x s Hapart Hnd (Hin x ltac:(left)) eq_refl)
    as (r & s' & Hexec & Hrun).
  set (j := job_outcome (st_now s) (st_now s') r x) in *. set (s2 := put_jobs _ s') in *.
  assert (Hjobs : jobs_of s2 = on_job (jb_id x) (job_outcome (st_now s) (st_now s') r) (jobs_of s)) by done.
  assert (Hids : jb_id <$> jobs_of s2 = jb_id <$> jobs_of s) by (rewrite Hjobs; apply on_job_ids; by destruct r).
  assert (Hj : ran x j) by by do 3 eexists.
  destruct (IH (acc ++ [j]) s2) as (js & s3 & Hloop & Hran & Hids' & Helem); [by rewrite Hids|done| |].
  { intros y Hy. rewrite Hjobs. apply on_job_elem; [done|apply Hin; by left|]. right.
    split; [apply Hin; by right|]. intros Heq. apply Hx. rewrite <-Heq. by apply list_elem_of_fmap_2. }
  exists (j :: js), s3. rewrite run_bind, (run_bind_ok _ _ _ _ _ Hrun). unfold mret at 1, prog_ret at 1.
  rewrite Hloop, <-app_assoc. split_and!; [done|by eapply executed_job|congruence|]. intros y.
  rewrite Helem, Hjobs, (on_job_elem x) by (done || apply Hin; by left). fold j.
  rewrite elem_of_cons, fmap_cons, not_elem_of_cons. split.
  - intros [?|[[->|[Hy Hne]] Hnot]]; [by left; right|by left; left|right; by split_and!].
  - intros [[->|?]|(Hy & Hne & Hnot)]; [right|by left|right].
    + split; [by left|]. by rewrite (ran_id x j Hj).
    + split; [right; by split|done].
Qed.

(** A finished or waiting job carries exactly its part of the record; none is
    left running. *)
Definition job_wf (x : Job) : Prop :=
  match jb_state x with
  | JOB_QUEUED | JOB_CANCELLED => jb_started_at x = None ∧ jb_completed_at x = None ∧ jb_error x = None
  | JOB_RUNNING => False
  | JOB_COMPLETED => is_Some (jb_started_at x) ∧ is_Some (jb_completed_at x) ∧ jb_error x = None
  | JOB_FAILED => is_Some (jb_started_at x) ∧ is_Some (jb_completed_at x) ∧ is_Some (jb_error x)
  end.

Definition jobs_ok (t : tables) : Prop := NoDup (jb_id <$> d_table d_jobs t) ∧ ∀ x, x ∈ d_table d_jobs t → job_wf x.

(** What no step changes of a job, and that a final state is final. *)
Definition later_job (x x' : Job) : Prop :=
  jb_id x' = jb_id x ∧ jb_name x' = jb_name x ∧ jb_type x' = jb_type x ∧ jb_config x' = jb_config x ∧
  jb_owner x' = jb_owner x ∧ jb_created_at x' = jb_created_at x ∧ jb_action x' = jb_action x ∧
  jb_scope x' = jb_scope x ∧ (jb_state x ≠ JOB_QUEUED → x' = x).

Definition jobs_later (t t' : tables) : Prop :=
  ∀ x, x ∈ d_table d_jobs t → ∃ x', x' ∈ d_table d_jobs t' ∧ later_job x x'.

Lemma later_job_refl x : later_job x x.
Proof. by unfold later_job. Qed.

#[export] Instance jobs_later_preorder : PreOrder jobs_later.
Proof.
  split.
  - intros t x Hx. exists x. split; [done|apply later_job_refl].
  - intros t1 t2 t3 H12 H23 x Hx. destruct (H12 x Hx) as (y & Hy & Hxy). destruct (H23 y Hy) as (z & Hz & Hyz).
    exists z. split; [done|]. unfold later_job in *. destruct_and!. split_and!; try congruence.
    intros Hq. assert (y = x) as -> by auto. auto.
Qed.

Lemma ran_later x j : jb_state x = JOB_QUEUED → job_wf x → ran x j → later_job x j ∧ job_wf j.
Proof.
  intros Hq Hwf (t0 & t1 & r & ->). unfold job_wf in Hwf. rewrite Hq in Hwf. destruct Hwf as (_ & _ & Herr).
  split; [unfold later_job; destruct r; by split_and!|]. destruct r; unfold job_wf; simpl; split_and!; by (eexists || done).
Qed.

Lemma run_queued_ok executor rows acc s :
  executor_apart executor → jobs_ok (st_db s) → NoDup (jb_id <$> rows) →
  (∀ x, x ∈ rows → x ∈ jobs_of s ∧ jb_state x = JOB_QUEUED) →
  ∃ js s', for_fold rows acc (λ acc row, j ← _run_job exc_text executor row; mret (acc ++ [j])) s = (Ok (acc ++ js), s') ∧
    executions executor rows js s s' ∧ jobs_ok (st_db s') ∧ jobs_later (st_db s) (st_db s') ∧
    ∀ y, y ∈ jobs_of s' ↔ y ∈ js ∨ y ∈ jobs_of s ∧ (jb_id y ∉ jb_id <$> rows).
Proof.
  intros Hapart [Hnd Hwf] Hrows Hq.
  destruct (run_rows_run executor rows acc s Hapart Hnd Hrows) as (js & s' & Hrun & Hexec & Hids & Helem).
  { intros x Hx. by apply Hq. }
  pose proof (executions_ran _ _ _ _ _ Hexec) as Hran.
  exists js, s'. split_and!; [done|done| | |done].
  - split; [fold (jobs_of s'); by rewrite Hids|]. intros y [Hy|[Hy _]]%Helem; [|by apply Hwf].
    apply list_elem_of_lookup in Hy as [i Hi]. destruct (Forall2_lookup_r _ _ _ _ _ Hran Hi) as (x & Hx & Hxy).
    apply list_elem_of_lookup_2 in Hx. destruct (Hq x Hx) as [Hin Hqx].
    by apply (ran_later x y Hqx (Hwf x Hin)).
  - intros x Hx. destruct (decide (jb_id x ∈ jb_id <$> rows)) as [Hid|Hid].
    + apply list_elem_of_fmap in Hid as (y & Hid & Hy). destruct (Hq y Hy) as [Hin Hqy].
      assert (x = y) as -> by by apply (NoDup_fmap_inj_in _ _ _ _ Hnd Hx Hin).
      apply list_elem_of_lookup in Hy as [i Hi]. destruct (Forall2_lookup_l _ _ _ _ _ Hran Hi) as (j & Hj & Hyj).
      exists j. split; [apply Helem; left; by eapply list_elem_of_lookup_2|].
      by apply (ran_later y j Hqy (Hwf y Hx)).
    + exists x. split; [apply Helem; by right|apply later_job_refl].
Qed.
Lemma queued_rows s :
  NoDup (jb_id <$> jobs_of s) →
  ∃ rows, select_sorted (d_table d_jobs) (in_state JOB_QUEUED) oldest_job s = (Ok rows, s) ∧
    NoDup (jb_id <$> rows) ∧ (∀ x, x ∈ rows ↔ x ∈ jobs_of s ∧ jb_state x = JOB_QUEUED) ∧
    StronglySorted (λ a b, (jb_created_at a ≤ jb_created_at b)%Z) rows.
Proof.
  intros Hnd. eexists. split; [reflexivity|]. set (l := filter _ (d_table d_jobs (st_db s))). split_and!.
  - rewrite sort_by_perm, scan_perm. unfold l. by apply NoDup_fmap_filter.
  - intros x. rewrite elem_of_sort_by, scan_perm. unfold l. rewrite list_elem_of_filter.
    unfold in_state. rewrite bool_decide_eq_true. tauto.
  - assert (Hs : StronglySorted (leb_rel oldest_job) (sort_by oldest_job (scan l))).
    { apply sort_by_sorted; unfold oldest_job; [intros; lia|]. intros a b c. lia. }
    revert Hs. generalize (sort_by oldest_job (scan l)). induction 1 as [|a k _ IH Ha]; constructor; [done|].
    eapply Forall_impl; [exact Ha|]. intros b. unfold leb_rel, oldest_job. lia.
Qed.

(** C19: Running the queue drains it. With an executor that leaves the queue's own
    rows alone, and whatever it returns, raises or does to the rest of the store,
    run_all returns. The queued jobs are taken oldest first, and for each the
    executor is called exactly once, on the job's type and configuration and with
    the job marked running, the next call starting from the store this one left:
    the job is completed with the result, or failed with the exception's text. No
    job is left queued or running, and every job that was not queued is as it was. *)
Theorem run_all_drains executor s :
  executor_apart executor → jobs_ok (st_db s) →
  ∃ rows js s', run_all exc_text executor s = (Ok js, s') ∧
    (∀ x, x ∈ rows ↔ x ∈ jobs_of s ∧ jb_state x = JOB_QUEUED) ∧ NoDup (jb_id <$> rows) ∧
    StronglySorted (λ a b, (jb_created_at a ≤ jb_created_at b)%Z) rows ∧
    executions executor rows js s s' ∧ jobs_ok (st_db s') ∧
    (∀ y, y ∈ jobs_of s' ↔ y ∈ js ∨ y ∈ jobs_of s ∧ jb_state y ≠ JOB_QUEUED) ∧
    ∀ y, y ∈ jobs_of s' → jb_state y ≠ JOB_QUEUED ∧ jb_state y ≠ JOB_RUNNING.
Proof.
  intros Hapart Hok. pose proof Hok as [Hnd Hwf].
  destruct (queued_rows s Hnd) as (rows & Hsel & Hrows & Hin & Hsort).
  destruct (run_queued_ok executor rows [] s Hapart Hok Hrows) as (js & s' & Hrun & Hexec & Hok' & _ & Helem).
  { intros x. apply Hin. }
  pose proof (executions_ran _ _ _ _ _ Hexec) as Hran.
  assert (Hiff : ∀ y, y ∈ jobs_of s' ↔ y ∈ js ∨ y ∈ jobs_of s ∧ jb_state y ≠ JOB_QUEUED).
  { intros y. rewrite Helem. split; (intros [?|[Hy Hn]]; [by left|right]); (split; [done|]).
    - intros Hq. apply Hn. apply list_elem_of_fmap_2, Hin. done.
    - intros (x & Hid & Hx)%list_elem_of_fmap. apply Hin in Hx as [Hx Hq].
      by rewrite (NoDup_fmap_inj_in _ _ _ _ Hnd Hy Hx Hid) in Hn. }
  exists rows, js, s'. split_and!; try done.
  - unfold run_all. by rewrite (run_bind_ok _ _ _ _ _ Hsel).
  - intros y Hy. pose proof (proj2 Hok' y Hy) as Hw. split; [|intros Hr; unfold job_wf in Hw; by rewrite Hr in Hw].
    apply Hiff in Hy as [Hy|[_ Hy]]; [|done]. apply list_elem_of_lookup in Hy as [i Hi].
    destruct (Forall2_lookup_r _ _ _ _ _ Hran Hi) as (x & _ & Hx). destruct (ran_state x y Hx) as [->| ->]; done.
Qed.
End QueueTheory.

(** *** The queue over time *)

Section QueueSteps.
Context `{host : !Host}.
Context (known_principal : string → bool) (exc_text : exn → string).

Inductive queue_op :=
  | Enqueue (name type : string) (config : option jdict) (owner : string) (action scope : option string)
  | RunNext (executor : job_executor)
  | RunAll (executor : job_executor)
  | CancelJob (id : string).

Definition run_queue_op (op : queue_op) : lp unit :=
  match op with
  | Enqueue n t c o a sc => enqueue known_principal n t c o a sc ;; mret tt
  | RunNext ex => run_next exc_text ex ;; mret tt
  | RunAll ex => run_all exc_text ex ;; mret tt
  | CancelJob id => cancel_job id
  end.

Definition op_apart (op : queue_op) : Prop :=
  match op with RunNext ex | RunAll ex => executor_apart ex | _ => True end.

(** Operations of the queue, returning or raising, with executors that leave it
    alone, and whatever else the process does outside it. *)
Inductive queue_step : relation store :=
  | queue_step_op op s : op_apart op → queue_step s (run_queue_op op s).2
  | queue_step_other s s' : same_jobs s s' → queue_step s s'.

Lemma same_jobs_ok s s' : same_jobs s s' → jobs_ok (st_db s) → jobs_ok (st_db s') ∧ jobs_later (st_db s) (st_db s').
Proof.
  intros H. unfold same_jobs, jobs_of in H. unfold jobs_ok, jobs_later. rewrite H. intros Hok. split; [done|].
  intros x Hx. exists x. split; [done|apply later_job_refl].
Qed.

Lemma keeps_then {R} (m : lp R) s :
  keeps jobs_ok jobs_later m s → keeps jobs_ok jobs_later (mbind (λ _ : R, mret tt : lp unit) m) s.
Proof. intros H. apply keeps_bind; [exact _|exact H|intros]. by apply keeps_same; [exact _|]. Qed.

Lemma enqueue_keeps name type config owner action scope s :
  keeps jobs_ok jobs_later (enqueue known_principal name type config owner action scope) s.
Proof.
  unfold enqueue. apply keeps_bind; [exact _|by apply keeps_same; [exact _|]|intros jid s1 _].
  apply keeps_bind; [exact _|by apply keeps_same; [exact _|]|intros ts s2 _]. cbv zeta.
  apply keeps_bind; [exact _| |intros; by apply keeps_same; [exact _|]].
  unfold insert_job. apply keeps_bind; [exact _|apply keeps_same; [exact _|by destruct (negb _)]|intros _ s3 _].
  apply keeps_bind; [exact _| |intros _ s4 _].
  { apply keeps_same; [exact _|]. cbn [jb_action queued_job]. destruct action as [a|]; [|done].
    unfold require_row, gets. rewrite run_bind. by destruct (negb _). }
  intros [Hnd Hwf]. set (j := queued_job _ _ _ _ _ _ _ _). destruct (sql_insert _ _ _ _ j s4) as [[u|e] s5] eqn:Hins.
  - apply sql_insert_ok in Hins as [Hclash ->].
    assert (Hin : ∀ x, x ∈ d_table d_jobs (set_jobs (d_table d_jobs (st_db s4) ++ [j]) (st_db s4)) ↔
      x ∈ d_table d_jobs (st_db s4) ∨ x = j)
      by (intros x; change (x ∈ d_table d_jobs (st_db s4) ++ [j] ↔ x ∈ d_table d_jobs (st_db s4) ∨ x = j);
          by rewrite elem_of_app, list_elem_of_singleton).
    split; [split|].
    + change (NoDup (jb_id <$> d_table d_jobs (st_db s4) ++ [j])). rewrite fmap_app. apply NoDup_app.
      split_and!; [done| |apply NoDup_singleton]. intros i (x & -> & Hx)%list_elem_of_fmap Hi%list_elem_of_singleton.
      specialize (Hclash x Hx). apply bool_decide_eq_false_1 in Hclash. congruence.
    + intros x [Hx| ->]%Hin; [by apply Hwf|done].
    + intros x Hx. exists x. split; [apply Hin; by left|apply later_job_refl].
  - by rewrite (sql_insert_raise _ _ _ _ _ _ _ _ Hins).
Qed.

Lemma cancel_keeps id s : keeps jobs_ok jobs_later (cancel_job id) s.
Proof.
  intros [Hnd Hwf]. change (jobs_ok (st_db (put_jobs ((λ x, if by_job id x && in_state JOB_QUEUED x then job_cancelled x else x)
    <$> jobs_of s) s)) ∧ jobs_later (st_db s) (st_db (put_jobs ((λ x, if by_job id x && in_state JOB_QUEUED x
    then job_cancelled x else x) <$> jobs_of s) s))).
  set (f := λ x, _). assert (Hf : ∀ x, jb_id (f x) = jb_id x) by (intros x; unfold f; by destruct (_ && _)).
  unfold jobs_ok, jobs_later. change (d_table d_jobs (st_db (put_jobs (f <$> jobs_of s) s))) with (f <$> jobs_of s).
  split; [split|].
  - rewrite <-list_fmap_compose. by rewrite (list_fmap_ext _ jb_id) by (intros; apply Hf).
  - intros y (x & -> & Hx)%list_elem_of_fmap. specialize (Hwf x Hx). unfold f.
    destruct (by_job id x && in_state JOB_QUEUED x) eqn:Hb; [|done]. apply andb_true_iff in Hb as [_ Hq%bool_decide_eq_true_1].
    unfold job_wf in *. by rewrite Hq in Hwf.
  - intros x Hx. exists (f x). split; [by apply list_elem_of_fmap_2|]. unfold f.
    destruct (by_job id x && in_state JOB_QUEUED x) eqn:Hb; [|apply later_job_refl].
    apply andb_true_iff in Hb as [_ Hq%bool_decide_eq_true_1]. by unfold later_job.
Qed.

Lemma run_queue_op_keeps op s : op_apart op → keeps jobs_ok jobs_later (run_queue_op op) s.
Proof.
  destruct op as [n t c o a sc|ex|ex|id]; intros Hapart; cbn [run_queue_op].
  - apply keeps_then, enqueue_keeps.
  - apply keeps_then. intros Hok. destruct (queued_rows s (proj1 Hok)) as (rows & Hsel & Hrows & Hin & _).
    unfold run_next. rewrite (run_bind_ok _ _ _ _ _ Hsel). destruct rows as [|x rows]; [by split|].
    destruct (run_queued_ok exc_text ex [x] [] s Hapart Hok) as (js & s' & Hrun & _ & Hok' & Hl & _).
    { apply NoDup_singleton. }
    { intros y ->%list_elem_of_singleton. apply Hin. by left. }
    cbn [for_fold] in Hrun. rewrite run_bind in Hrun. rewrite run_bind.
    unfold mbind, prog_bind in Hrun. destruct (_run_job exc_text ex x s) as [[j|e] s1]; [|done].
    cbn in Hrun |- *. injection Hrun as _ <-. by split.
  - apply keeps_then. intros Hok. destruct (queued_rows s (proj1 Hok)) as (rows & Hsel & Hrows & Hin & _).
    unfold run_all. rewrite (run_bind_ok _ _ _ _ _ Hsel).
    destruct (run_queued_ok exc_text ex rows [] s Hapart Hok Hrows) as (js & s' & -> & _ & Hok' & Hl & _); [|done].
    intros x. apply Hin.
  - apply cancel_keeps.
Qed.

(** The job state machine, over every sequence of queue operations whose
    executors leave the queue alone: job ids stay unique, a job's record fits its
    state and none is left running; what a job is does not change, and completed,
    failed and cancelled are final. *)
Theorem jobs_reachable_ok s s' :
  rtc queue_step s s' → jobs_ok (st_db s) →
  jobs_ok (st_db s') ∧
  (∀ x, x ∈ jobs_of s → ∃ x', x' ∈ jobs_of s' ∧ later_job x x') ∧
  (∀ x, x ∈ jobs_of s → jb_state x ≠ JOB_QUEUED → x ∈ jobs_of s').
Proof.
  intros Hsteps Hok. assert (Hboth : jobs_ok (st_db s') ∧ jobs_later (st_db s) (st_db s')).
  { induction Hsteps as [s|s1 s2 s3 Hstep _ IH]; [by split|].
    assert (jobs_ok (st_db s2) ∧ jobs_later (st_db s1) (st_db s2)) as [Hok2 H12]
      by (inversion Hstep; subst; [by apply run_queue_op_keeps|by apply same_jobs_ok]).
    destruct (IH Hok2) as [H3 H23]. split; [done|]. by etrans. }
  destruct Hboth as [Hok' Hl]. split_and!; [done|exact Hl|]. intros x Hx Hq.
  destruct (Hl x Hx) as (x' & Hx' & H). assert (x' = x) as <- by (unfold later_job in H; destruct_and!; auto). done.
Qed.
End QueueSteps.

(** ** Due actions *)

Definition actions_of (s : store) : list ScheduledAction := d_table d_actions (st_db s).
Definition schedules_of (s : store) : list RecurringSchedule := d_table d_schedules (st_db s).

Definition schedule_of (l : list RecurringSchedule) (id : string) : option RecurringSchedule :=
  find (by_schedule id) l.

Section DueTheory.
Context `{host : !Host} `{sink : !AuditSink}.
Context (known_principal : string → bool) (cron_parser : option (string → Z → outcome Z)).

(** What becomes of an action once its job is queued. *)
Definition settle_action (schedules : list RecurringSchedule) (a : ScheduledAction) : ScheduledAction :=
  if given_str (ac_schedule a) then
    match next_run cron_parser a (schedule_of schedules (default "" (ac_schedule a))) with
    | Ok (Some n) => advanced n a
    | _ => archived_action a
    end
  else archived_action a.

Lemma settle_action_id schedules a : ac_id (settle_action schedules a) = ac_id a.
Proof. unfold settle_action. repeat case_match; done. Qed.

Lemma get_schedule_run id s :
  NoDup (rc_id <$> schedules_of s) → get_schedule id s = (Ok (schedule_of (schedules_of s) id), s).
Proof.
  intros Hnd. unfold get_schedule.
  destruct (fetch_one (d_table d_schedules) (by_schedule id) s) as [[o|e] s'] eqn:Hrun; [|discriminate Hrun].
  apply fetch_one_ok in Hrun as [-> Ho]. do 2 f_equal. unfold schedule_of.
  destruct (find (by_schedule id) (schedules_of s)) as [y|] eqn:Hf.
  - apply find_Some_elem in Hf as [Hy Hid]. destruct o as [x|]; [|by rewrite (Ho y Hy) in Hid].
    destruct Ho as [Hx Hxid]. apply bool_decide_eq_true_1 in Hid, Hxid.
    rewrite (NoDup_fmap_inj_in _ _ x y Hnd Hx Hy) by congruence. done.
  - destruct o as [x|]; [|done]. destruct Ho as [Hx Hid]. by rewrite (find_None_elem _ _ x Hf Hx) in Hid.
Qed.

Definition put_actions (l : list ScheduledAction) (s : store) : store := put_db (set_actions l (st_db s)) s.

Definition on_action (id : string) (f : ScheduledAction → ScheduledAction) (l : list ScheduledAction) :=
  (λ x, if by_action id x then f x else x) <$> l.

(** Everything of the layer but the trail as it was. *)
Definition same_sched : relation store := λ s s', t_layers (st_db s') = t_layers (st_db s).

Lemma audit_quietly_ok q s u s' : audit_quietly q s = (Ok u, s') → same_sched s s'.
Proof. intros [= _ <-]. apply off_trail_layers, audit_off_trail. Qed.

Lemma same_sched_rows s s' :
  same_sched s s' → actions_of s' = actions_of s ∧ schedules_of s' = schedules_of s ∧ jobs_of s' = jobs_of s.
Proof. intros H. unfold actions_of, schedules_of, jobs_of, d_table, sched. by rewrite H. Qed.

Lemma archive_action_ok id s u s' :
  archive_action id s = (Ok u, s') →
  actions_of s' = on_action id archived_action (actions_of s) ∧ schedules_of s' = schedules_of s ∧ jobs_of s' = jobs_of s.
Proof.
  intros H. unfold archive_action in H. apply bind_ok_inv in H as (? & s1 & ->%sql_update_ok & H).
  apply audit_quietly_ok, same_sched_rows in H as (-> & -> & ->). done.
Qed.

Lemma settle_ok a s u s' :
  NoDup (rc_id <$> schedules_of s) → NoDup (ac_id <$> actions_of s) → a ∈ actions_of s →
  advance_or_archive cron_parser a s = (Ok u, s') →
  actions_of s' = on_action (ac_id a) (settle_action (schedules_of s)) (actions_of s) ∧
  schedules_of s' = schedules_of s ∧ jobs_of s' = jobs_of s.
Proof.
  intros Hsched Hnd Ha H.
  assert (Hon : ∀ f, f a = settle_action (schedules_of s) a →
    on_action (ac_id a) f (actions_of s) = on_action (ac_id a) (settle_action (schedules_of s)) (actions_of s)).
  { intros f Hf. unfold on_action. apply list_fmap_ext. intros _ x Hx%list_elem_of_lookup_2. unfold by_action.
    case_bool_decide as Hid; [|done]. by rewrite (NoDup_fmap_inj_in _ _ x a Hnd Hx Ha Hid). }
  assert (Hset : settle_action (schedules_of s) a =
    (if given_str (ac_schedule a) then
       match next_run cron_parser a (schedule_of (schedules_of s) (default "" (ac_schedule a))) with
       | Ok (Some n) => advanced n a
       | _ => archived_action a
       end
     else archived_action a)) by done.
  unfold advance_or_archive in H. destruct (given_str (ac_schedule a)).
  2: { apply archive_action_ok in H as (-> & -> & ->). by rewrite Hon. }
  rewrite (run_bind_ok _ _ _ _ _ (get_schedule_run _ s Hsched)) in H.
  apply bind_ok_inv in H as (n & s1 & [Hn ->]%lift_ok & H). rewrite Hn in Hset. destruct n as [n|].
  - apply sql_update_ok in H as ->. split_and!; [|done|done]. by rewrite <-(Hon (advanced n)).
  - apply archive_action_ok in H as (-> & -> & ->). by rewrite Hon.
Qed.
Lemma enqueue_ok name type config owner action scope s j s' :
  enqueue known_principal name type config owner action scope s = (Ok j, s') →
  ∃ id ts, j = queued_job id name type (default [] config) owner ts action scope ∧
    jobs_of s' = jobs_of s ++ [j] ∧ actions_of s' = actions_of s ∧ schedules_of s' = schedules_of s.
Proof.
  unfold enqueue. intros H. apply bind_ok_inv in H as (id & s1 & [-> ->]%generate_id_ok & H).
  apply bind_ok_inv in H as (ts & s1 & [-> ->]%now_utc_ok & H). cbv zeta in H.
  apply bind_ok_inv in H as (? & s1 & Hins & H). apply mret_ok in H as [-> ->]. unfold insert_job in Hins.
  apply bind_ok_inv in Hins as ([] & s2 & [_ ->]%raise_if_ok & Hins).
  apply bind_ok_inv in Hins as (? & s2 & Hreq & Hins).
  assert (s2 = put_next (S (st_next s)) s) as ->.
  { cbn [jb_action queued_job] in Hreq. destruct action as [a|]; [by apply require_row_ok in Hreq as [-> _]|].
    by apply mret_ok in Hreq as [_ ->]. }
  apply sql_insert_ok in Hins as [_ ->]. by do 2 eexists.
Qed.

(** The job queued for an action. *)
Definition job_for (a : ScheduledAction) (j : Job) : Prop :=
  ∃ id ts, j = queued_job id (ac_name a) (ac_type a) (ac_config a) (ac_owner a) ts (Some (ac_id a)) (ac_scope a).

Definition settle_among (schedules : list RecurringSchedule) (dues : list ScheduledAction) (a : ScheduledAction)
  : ScheduledAction :=
  if existsb (λ d, bool_decide (ac_id d = ac_id a)) dues then settle_action schedules a else a.

Lemma process_loop_ok schedules dues acc s r s' :
  NoDup (rc_id <$> schedules) → schedules_of s = schedules → NoDup (ac_id <$> actions_of s) →
  NoDup (ac_id <$> dues) → (∀ d, d ∈ dues → d ∈ actions_of s) →
  for_fold dues acc (process_action known_principal cron_parser) s = (Ok r, s') →
  ∃ js, r = acc ++ js ∧ Forall2 job_for dues js ∧ jobs_of s' = jobs_of s ++ js ∧
    actions_of s' = settle_among schedules dues <$> actions_of s ∧ schedules_of s' = schedules.
Proof.
  intros Hsch. revert acc s. induction dues as [|d dues IH]; intros acc s Hs Hnd Hdues Hin H; cbn [for_fold] in H.
  { apply mret_ok in H as [-> ->]. exists []. rewrite !app_nil_r. split_and!; try done.
    symmetry. apply list_fmap_id. }
  rewrite fmap_cons in Hdues. apply NoDup_cons in Hdues as [Hd Hdues].
  apply bind_ok_inv in H as (acc' & s1 & Hstep & H). unfold process_action in Hstep.
  apply bind_ok_inv in Hstep as (j & s2 & Henq & Hstep).
  apply enqueue_ok in Henq as (jid & ts & Hj & Hj2 & Ha2 & Hs2).
  apply bind_ok_inv in Hstep as (? & s3 & Hset & Hstep).
  apply settle_ok in Hset as (Ha3 & Hs3 & Hj3); [|by rewrite Hs2, Hs|by rewrite Ha2|rewrite Ha2; apply Hin; by left].
  apply bind_ok_inv in Hstep as (? & s4 & Haud%audit_quietly_ok%same_sched_rows & Hstep).
  apply mret_ok in Hstep as [-> ->]. destruct Haud as (Ha4 & Hs4 & Hj4).
  assert (Hact : actions_of s4 = on_action (ac_id d) (settle_action schedules) (actions_of s)) by congruence.
  destruct (IH (acc ++ [j]) s4) as (js & Hr & Hf & Hjobs & Hacts & Hsched'); try done; try congruence.
  - rewrite Hact. unfold on_action. rewrite <-list_fmap_compose.
    rewrite (list_fmap_ext _ ac_id); [done|]. intros _ y _. simpl. destruct (by_action _ y); [apply settle_action_id|done].
  - intros y Hy. rewrite Hact. unfold on_action. apply list_elem_of_fmap. exists y.
    split; [|apply Hin; by right]. unfold by_action. rewrite bool_decide_eq_false_2; [done|].
    intros Heq. apply Hd. rewrite <-Heq. by apply list_elem_of_fmap_2.
  - exists (j :: js). split_and!.
    + by rewrite Hr, <-app_assoc.
    + constructor; [|done]. exists jid, ts. by rewrite Hj.
    + rewrite Hjobs, Hj4, Hj3, Hj2, <-app_assoc. done.
    + rewrite Hacts, Hact. unfold on_action. rewrite <-list_fmap_compose. apply list_fmap_ext.
      intros _ z _. simpl. unfold settle_among, by_action. simpl.
      destruct (decide (ac_id d = ac_id z)) as [Heq|Hne].
      * rewrite (bool_decide_eq_true_2 (ac_id z = ac_id d)), (bool_decide_eq_true_2 (ac_id d = ac_id z)) by done.
        simpl. rewrite settle_action_id. destruct (existsb _ dues) eqn:He; [|done].
        apply existsb_exists in He as (y & Hy & Hyid%bool_decide_eq_true_1). exfalso. apply Hd.
        rewrite <-list_elem_of_In in Hy. rewrite Heq, <-Hyid. by apply list_elem_of_fmap_2.
      * rewrite (bool_decide_eq_false_2 (ac_id z = ac_id d)), (bool_decide_eq_false_2 (ac_id d = ac_id z)) by congruence.
        done.
    + done.
Qed.

(** Processing what is due: when it returns, every active action whose time has
    come by [ts], and no other, got exactly one job carrying its work, soonest
    first, at the end of the queue; a one-shot action is archived, an action on an
    interval moves by exactly one interval, one on a cron expression to what the
    parser says or by an hour; all other actions and jobs are as they were. *)
Theorem process_due_exact as_of s jobs s' :
  NoDup (rc_id <$> schedules_of s) → NoDup (ac_id <$> actions_of s) →
  process_due_actions known_principal cron_parser as_of s = (Ok jobs, s') →
  let ts := default (st_now s) as_of in
  ∃ dues, (∀ a, a ∈ dues ↔ a ∈ actions_of s ∧ due ts a = true) ∧ NoDup dues ∧
    StronglySorted (λ a b, (ac_next a ≤ ac_next b)%Z) dues ∧ Forall2 job_for dues jobs ∧
    jobs_of s' = jobs_of s ++ jobs ∧ schedules_of s' = schedules_of s ∧
    actions_of s' = (λ a, if due ts a then settle_action (schedules_of s) a else a) <$> actions_of s.
Proof.
  intros Hsch Hnd H ts. unfold process_due_actions in H. apply bind_ok_inv in H as (dues & s1 & Hdue & H).
  unfold get_due_actions in Hdue. apply bind_ok_inv in Hdue as (now & s2 & [-> ->]%now_utc_ok & Hdue).
  fold ts in Hdue. injection Hdue as <- <-. set (dues := sort_by _ _) in *.
  assert (Hin : ∀ a, a ∈ dues ↔ a ∈ actions_of s ∧ due ts a = true).
  { intros a. unfold dues. rewrite elem_of_sort_by, scan_perm, list_elem_of_filter. tauto. }
  assert (Hids : NoDup (ac_id <$> dues)).
  { unfold dues. rewrite sort_by_perm, scan_perm. by apply NoDup_fmap_filter. }
  destruct (process_loop_ok (schedules_of s) dues [] s jobs s') as (js & Hr & Hf & Hj & Ha & Hs); try done.
  { intros d Hd. by apply Hin. }
  simpl in Hr. subst js. exists dues. split_and!; [exact Hin|by eapply NoDup_fmap_1| |done|done|done|].
  - assert (Hsort : StronglySorted (leb_rel soonest) dues).
    { apply sort_by_sorted; unfold soonest; [intros; lia|]. intros a b c. lia. }
    revert Hsort. generalize dues. induction 1 as [|a k _ IH Hall]; constructor; [done|].
    eapply Forall_impl; [exact Hall|]. intros b. unfold leb_rel, soonest. lia.
  - rewrite Ha. apply list_fmap_ext. intros _ a Hain%list_elem_of_lookup_2. unfold settle_among.
    destruct (due ts a) eqn:Hd.
    + rewrite (proj2 (existsb_exists _ _)); [done|]. exists a. rewrite <-list_elem_of_In.
      split; [by apply Hin|by apply bool_decide_eq_true_2].
    + destruct (existsb _ dues) eqn:He; [|done]. apply existsb_exists in He as (d & Hdin & Hid%bool_decide_eq_true_1).
      rewrite <-list_elem_of_In in Hdin. apply Hin in Hdin as [Hdin Hdue].
      by rewrite (NoDup_fmap_inj_in _ _ d a Hnd Hdin Hain Hid), Hd in Hdue.
Qed.
End DueTheory.
