(* ===== verification/Rotation.v ===== *)
(** * Legacy v1: automatic rotation of secrets (secrets/rotation.py)

    The executor that rotates secrets whose policies say so, the scheduled actions
    that ask for it, and the loop that runs them: where policies, vault, scheduler
    and queue meet. *)

From S2P Require Import Prelude LegacyTypes PyFloat Schema Json Trail Rules RuleClients Tenancy Visibility Objects Secrets Scheduling.

Definition ROTATION_ACTION_TYPE : string := "secret_auto_rotate".

(** A value bound to a text column; the database's digits of a float may differ in
    length, and no identifier is one. *)
Definition text_param (v : jval) : outcome string :=
  match v with
  | JVstr s => Ok s
  | JVint z => Ok (pretty z)
  | JVfloat f => Ok (float_repr f)
  | JVbool b => Ok (if b then "1" else "0")
  | JVnull | JVlist _ | JVdict _ => Raise (StorageError "type not supported")
  end.

Section Rotation.
Context `{host : !Host} `{sink : !AuditSink} `{enc : !SecretBackend}.
Context (known_principal : string → bool) (default_key : string) (exc_text : exn → string).

(** [make_rotation_executor]: the generator of new values may be any callable. *)
Definition rotation_executor (value_generator : string → lp string) : job_executor := λ type config,
  if negb (bool_decide (type = ROTATION_ACTION_TYPE)) then
    mret [("skipped", JVbool true); ("reason", JVstr ("unknown action_type: " +:+ type))]
  else
    match jget config "secret_id" with
    | None => mret [("rotated", JVbool false); ("reason", JVstr "missing secret_id in config")]
    | Some v =>
        if negb (jtruthy v) then mret [("rotated", JVbool false); ("reason", JVstr "missing secret_id in config")]
        else
          secret_id ← lift (text_param v);
          b ← needs_rotation secret_id;
          if negb b then mret [("rotated", JVbool false); ("secret_id", v); ("reason", JVstr "not_due")]
          else
            new_value ← value_generator secret_id;
            version ← rotate default_key secret_id new_value "system:auto-rotation" "auto-rotation policy" None;
            mret [("rotated", JVbool true); ("secret_id", v); ("new_version", JVint (Z.of_nat (sv_version version)))]
    end.

(** The secrets that active rotation actions are about. *)
Definition rotation_action (x : ScheduledAction) : bool :=
  bool_decide (ac_type x = ROTATION_ACTION_TYPE) && action_active x.

Definition hashable (v : jval) : bool := match v with JVlist _ | JVdict _ => false | _ => true end.

Definition note_secret (acc : list jval) (x : ScheduledAction) : lp (list jval) :=
  match jget (ac_config x) "secret_id" with
  | Some v =>
      if jtruthy v then raise_if (negb (hashable v)) (TypeError "unhashable type") ;; mret (v :: acc) else mret acc
  | None => mret acc
  end.

Definition scheduled_secrets (actions : list ScheduledAction) : lp (list jval) := for_fold actions [] note_secret.

(** One policy of [schedule_auto_rotations]: the secrets scheduled so far and the
    actions created. *)
Definition schedule_policy (owner : string) (acc : list jval * list ScheduledAction) (p : SecretPolicy)
  : lp (list jval * list ScheduledAction) :=
  match pl_secret p, pl_max_age p with
  | Some id, Some max_age =>
      if bool_decide (id = "") || existsb (jval_eqb (JVstr id)) acc.1 then mret acc
      else
        row ← fetch_one (v_table v_secrets) (by_secret id);
        match row with
        | None => mret acc
        | Some secret =>
            now ← now_utc;
            let next := (default (se_created_at secret) (se_rotated_at secret) + micros max_age)%Z in
            action ← create_action known_principal ("auto-rotate-" +:+ String.substring 0 8 id) owner
              ROTATION_ACTION_TYPE (Some [("secret_id", JVstr id); ("policy_id", JVstr (pl_id p))])
              (Z.max next now) None None;
            mret (JVstr id :: acc.1, acc.2 ++ [action])
        end
  | _, _ => mret acc
  end.

Definition schedule_auto_rotations (owner : string) : lp (list ScheduledAction) :=
  rows ← select (v_table v_policies) pl_auto;
  match rows with
  | [] => mret []
  | _ :: _ =>
      existing ← select (d_table d_actions) rotation_action;
      already ← scheduled_secrets existing;
      acc ← for_fold rows (already, []) (schedule_policy owner);
      mret acc.2
  end.

(** [config.get('secret_id', 'unknown')[:8]] in the job's name. *)
Definition short_secret (config : jdict) : outcome string :=
  match jget config "secret_id" with
  | None => Ok "unknown"
  | Some (JVstr s) => Ok (String.substring 0 8 s)
  | Some (JVlist l) => Ok (py_repr (JVlist (take 8 l)))
  | Some _ => Raise (TypeError "object is not subscriptable")
  end.

(** When a rotation action runs next. *)
Definition next_rotation (config : jdict) (now : Z) : outcome Z :=
  match jget config "max_age_seconds" with
  | Some v =>
      if jtruthy v then
        match v with
        | JVint z => Ok (now + micros z)%Z
        | JVbool _ => Ok (now + micros 1)%Z
        | JVfloat f => us ← float_micros f; Ok (now + us)%Z
        | _ => Raise (TypeError "unsupported type for timedelta seconds component")
        end
      else Ok (now + micros (24 * 3600))%Z
  | None => Ok (now + micros (24 * 3600))%Z
  end.

Definition run_rotation (executor : job_executor) (completed : list Job) (action : ScheduledAction)
  : lp (list Job) :=
  short ← lift (short_secret (ac_config action));
  enqueue known_principal ("rotate-" +:+ short) (ac_type action) (Some (ac_config action)) (ac_owner action)
    (Some (ac_id action)) None ;;
  result ← run_next exc_text executor;
  now ← now_utc;
  next ← lift (next_rotation (ac_config action) now);
  advance_action (ac_id action) next ;;
  mret (match result with Some j => completed ++ [j] | None => completed end).

Definition run_pending_rotations (executor : job_executor) : lp (list Job) :=
  due ← get_due_actions None;
  for_fold (filter (λ a, ac_type a = ROTATION_ACTION_TYPE) due) [] (run_rotation executor).
End Rotation.

(** ** When a secret is due *)

Section RotationTheory.
Context `{host : !Host} `{sink : !AuditSink} `{enc : !SecretBackend}.
Context (default_key : string).

(** Some policy on the secret is older than it allows. *)
Definition due_for_rotation (t : tables) (now : Z) (id : string) : Prop :=
  ∃ x p m, x ∈ v_table v_secrets t ∧ se_id x = id ∧ p ∈ v_table v_policies t ∧ governs x p = true ∧
    pl_max_age p = Some m ∧ (micros m < now - default (se_created_at x) (se_rotated_at x))%Z.

Lemma needs_rotation_run id s :
  vault_ok (st_db s) →
  ∃ b, needs_rotation id s = (Ok b, s) ∧ (b = true ↔ due_for_rotation (st_db s) (st_now s) id).
Proof.
  intros Hok. unfold needs_rotation.
  destruct (fetch_one (v_table v_secrets) (by_secret id) s) as [[o|e] s'] eqn:Hrun; [|discriminate Hrun].
  rewrite (run_bind_ok _ _ _ _ _ Hrun). apply fetch_one_ok in Hrun as [-> Ho]. destruct o as [x|].
  - destruct Ho as [Hx Hid%bool_decide_eq_true_1]. subst id.
    destruct (policies_run x s Hok Hx) as (l & Hl & Hin). rewrite (run_bind_ok _ _ _ _ _ Hl).
    eexists. split; [reflexivity|]. rewrite existsb_exists. unfold due_for_rotation, overdue, micros. split.
    + intros (p & Hp & Hover). rewrite <-list_elem_of_In in Hp. apply Hin in Hp as [Hp Hg].
      destruct (pl_max_age p) as [m|] eqn:Hm; [|done]. exists x, p, m. split_and!; try done. lia.
    + intros (y & p & m & Hy & Hyid & Hp & Hg & Hm & Hover).
      rewrite (secret_unique _ y x Hok Hy Hx Hyid) in Hg, Hover.
      exists p. rewrite <-list_elem_of_In, Hm. split; [by apply Hin|lia].
  - exists false. split; [done|]. split; [done|]. intros (x & p & m & Hx & Hid & _). specialize (Ho x Hx).
    unfold by_secret in Ho. by rewrite bool_decide_eq_true_2 in Ho.
Qed.

(** A generator that touches neither the vault nor the clock. *)
Definition generator_apart (gen : string → lp string) : Prop :=
  ∀ id s, t_vault (st_db (gen id s).2) = t_vault (st_db s) ∧ st_now (gen id s).2 = st_now s.

Lemma vault_ok_same t t' : t_vault t' = t_vault t → vault_ok t → vault_ok t'.
Proof. intros H Hok. by apply (same_vault_ok t t'). Qed.

(** Automatic rotation acts exactly when it is due, and settles it: the executor
    leaves everything alone and reports not_due unless some policy on the secret is
    exceeded by its age; when it is and the executor returns, the secret has one
    version more, and the same secret is not due any more, so that running the
    executor again at once rotates nothing. *)
Theorem rotation_settles gen id config s :
  vault_ok (st_db s) → generator_apart gen →
  (∀ p m, p ∈ v_table v_policies (st_db s) → pl_max_age p = Some m → (0 ≤ m)%Z) →
  jget config "secret_id" = Some (JVstr id) → id ≠ "" →
  let not_due := [("rotated", JVbool false); ("secret_id", JVstr id); ("reason", JVstr "not_due")] in
  (¬ due_for_rotation (st_db s) (st_now s) id →
     rotation_executor default_key gen ROTATION_ACTION_TYPE config s = (Ok not_due, s)) ∧
  ∀ r s', due_for_rotation (st_db s) (st_now s) id →
     rotation_executor default_key gen ROTATION_ACTION_TYPE config s = (Ok r, s') →
     (∃ v, sv_secret v = id ∧ v_table v_versions (st_db s') = v_table v_versions (st_db s) ++ [v]) ∧
     ¬ due_for_rotation (st_db s') (st_now s') id ∧
     rotation_executor default_key gen ROTATION_ACTION_TYPE config s' = (Ok not_due, s').
Proof.
  intros Hok Hgen Hages Hcfg Hne not_due.
  assert (Hidle : ∀ s, vault_ok (st_db s) → ¬ due_for_rotation (st_db s) (st_now s) id →
    rotation_executor default_key gen ROTATION_ACTION_TYPE config s = (Ok not_due, s)).
  { intros s0 Hok0 Hnot. unfold rotation_executor. rewrite bool_decide_eq_true_2 by done. cbn [negb]. rewrite Hcfg.
    cbn [jtruthy]. rewrite bool_decide_eq_false_2 by done. cbn [negb text_param].
    rewrite (run_bind_ok (lift _) _ s0 id s0 eq_refl). destruct (needs_rotation_run id s0 Hok0) as (b & Hb & Hiff).
    rewrite (run_bind_ok _ _ _ _ _ Hb). destruct b; [|done]. destruct Hnot. by apply Hiff. }
  split; [by apply Hidle|]. intros r s' Hdue H. unfold rotation_executor in H.
  rewrite bool_decide_eq_true_2 in H by done. cbn [negb] in H. rewrite Hcfg in H. cbn [jtruthy] in H.
  rewrite bool_decide_eq_false_2 in H by done. cbn [negb text_param] in H.
  rewrite (run_bind_ok (lift _) _ s id s eq_refl) in H. destruct (needs_rotation_run id s Hok) as (b & Hb & Hiff).
  rewrite (run_bind_ok _ _ _ _ _ Hb) in H. rewrite (proj2 Hiff Hdue) in H. cbn [negb] in H.
  apply bind_ok_inv in H as (nv & s1 & Hnv & H). destruct (Hgen id s) as [Hv1 Hn1]. rewrite Hnv in Hv1, Hn1. simpl in Hv1, Hn1.
  apply bind_ok_inv in H as (v & s2 & Hrot & H). apply mret_ok in H as [_ ->].
  assert (Hok1 : vault_ok (st_db s1)) by by eapply vault_ok_same.
  destruct (rotate_ok _ _ _ _ _ _ _ _ _ Hok1 Hrot) as (x & Hx & Hid & _ & _ & Hvs & _ & _ & Hv & Hn).
  assert (Hok2 : vault_ok (st_db s2)).
  { pose proof (rotate_keeps (λ _, true) default_key id nv "system:auto-rotation" "auto-rotation policy" None s1 Hok1)
      as [Hk _]. by rewrite Hrot in Hk. }
  assert (Hdone : ¬ due_for_rotation (st_db s2) (st_now s2) id).
  { intros (y & p & m & Hy & Hyid & Hp & _ & Hm & Hover). unfold v_table in Hy, Hp. rewrite Hv in Hy, Hp. simpl in Hy, Hp.
    unfold v_table in Hp. rewrite Hv1 in Hp. specialize (Hages p m Hp Hm).
    apply list_elem_of_fmap in Hy as (z & -> & Hz). unfold by_secret in Hyid, Hover.
    destruct (bool_decide (se_id z = se_id x)) eqn:Hzx.
    - simpl in Hover. rewrite Hn in Hover. unfold micros in Hover. lia.
    - apply bool_decide_eq_false_1 in Hzx. congruence. }
  split_and!; [|done|by apply Hidle].
  exists v. split; [done|]. unfold v_table at 1. rewrite Hv. simpl. unfold v_table. by rewrite Hv1.
Qed.
End RotationTheory.

(** The queue accepts the rotation executor: nothing it does touches a job. *)
Section Apart.
Context `{host : !Host} `{sink : !AuditSink} `{enc : !SecretBackend}.

Lemma vault_write_jobs {R} (tbl : tables → list R) put p f :
  (∀ l t, t_layers (put l t) = t_layers t) → respects same_jobs (sql_update tbl put p f).
Proof. intros H s. unfold same_jobs, jobs_of, d_table, sched. simpl. by rewrite H. Qed.

Lemma vault_insert_jobs {R} (tbl : tables → list R) put clash c (r : R) :
  (∀ l t, t_layers (put l t) = t_layers t) → respects same_jobs (sql_insert tbl put clash c r).
Proof.
  intros H. unfold sql_insert. repeat respects_step. intros s. unfold same_jobs, jobs_of, d_table, sched.
  simpl. by rewrite H.
Qed.

Lemma rotation_executor_apart default_key gen :
  (∀ id, respects same_jobs (gen id)) → executor_apart (rotation_executor default_key gen).
Proof.
  intros Hgen type config.
  unfold rotation_executor, needs_rotation, get_policies_for_secret, rotate, _require_active_secret,
    get_secret_or_raise, get_secret, encrypt_value, insert_secret_version, require_row, fetch_one, select,
    select_sorted, now_utc, generate_id.
  repeat (respects_step || apply Hgen || (apply vault_insert_jobs; done) || (apply vault_write_jobs; done)
    || apply respects_jobs, audit_off_trail || (intros s; done)).
Qed.
End Apart.

(** ** Scheduling the rotations *)

Section ScheduleTheory.
Context `{host : !Host} `{sink : !AuditSink}.
Context (known_principal : string → bool).

Lemma create_action_ok name owner type config next schedule scope s a s' :
  create_action known_principal name owner type config next schedule scope s = (Ok a, s') →
  ac_type a = type ∧ ac_config a = default [] config ∧ ac_next a = next ∧ action_active a = true ∧
  actions_of s' = actions_of s ++ [a] ∧ same_vault s s' ∧ st_now s' = st_now s.
Proof.
  unfold create_action. intros H. apply bind_ok_inv in H as (id & s1 & [-> ->]%generate_id_ok & H).
  apply bind_ok_inv in H as (ts & s1 & [-> ->]%now_utc_ok & H). cbv zeta in H.
  apply bind_ok_inv in H as (? & s1 & Hins & H). unfold insert_action in Hins.
  apply bind_ok_inv in Hins as ([] & s2 & [_ ->]%raise_if_ok & Hins).
  apply bind_ok_inv in Hins as (? & s2 & Hreq & Hins).
  assert (s2 = put_next (S (st_next s)) s) as ->.
  { cbn [ac_schedule] in Hreq. destruct schedule as [q|]; [by apply require_row_ok in Hreq as [-> _]|].
    by apply mret_ok in Hreq as [_ ->]. }
  apply sql_insert_ok in Hins as [_ ->].
  apply bind_ok_inv in H as (? & s2 & Haud & H). apply mret_ok in H as [-> ->].
  injection Haud as _ Haud. match type of Haud with (audit ?q ?s0).2 = _ => pose proof (audit_off_trail q s0) as Hoff end.
  rewrite Haud in Hoff. pose proof (off_trail_vault _ _ Hoff) as Hv. pose proof (off_trail_layers _ _ Hoff) as Hl.
  destruct Hoff as [_ Hn]. split_and!; try done.
  unfold actions_of, d_table, sched. by rewrite Hl.
Qed.

(** The secret an action is about. *)
Definition about (a : ScheduledAction) : option jval := jget (ac_config a) "secret_id".

Lemma scheduled_secrets_run l acc s :
  (∀ a v, a ∈ l → about a = Some v → jtruthy v = true → hashable v = true) →
  ∃ r, for_fold l acc note_secret s = (Ok r, s) ∧ ∀ v, v ∈ r ↔ v ∈ acc ∨ ∃ a, a ∈ l ∧ about a = Some v ∧ jtruthy v = true.
Proof.
  revert acc. induction l as [|a l IH]; intros acc Hh; cbn [for_fold].
  { exists acc. split; [done|]. intros v. split; [by left|]. by intros [?|(a & ?%elem_of_nil & _)]. }
  assert (Hl : ∀ b v, b ∈ l → about b = Some v → jtruthy v = true → hashable v = true)
    by (intros b v Hb; apply Hh; by right).
  assert (Hskip : (∀ v, about a = Some v → jtruthy v = false) →
    ∃ r, for_fold l acc note_secret s = (Ok r, s) ∧ ∀ v, v ∈ r ↔ v ∈ acc ∨ ∃ b, b ∈ a :: l ∧ about b = Some v ∧ jtruthy v = true).
  { intros Hno. destruct (IH acc Hl) as (r & Hr & Hin). exists r. split; [done|]. intros v. rewrite Hin.
    split; (intros [?|(b & Hb & Hab & Ht)]; [by left|]); [right; exists b; split; [by right|done]|].
    apply elem_of_cons in Hb as [->|Hb]; [by rewrite (Hno v Hab) in Ht|right; by exists b]. }
  rewrite run_bind. unfold about in Hskip. unfold note_secret at 1.
  destruct (jget (ac_config a) "secret_id") as [v|] eqn:Hv.
  - destruct (jtruthy v) eqn:Ht.
    + pose proof (Hh a v ltac:(left) Hv Ht) as Hhash. rewrite Hhash. cbn [negb].
      destruct (IH (v :: acc) Hl) as (r & Hr & Hin). exists r. split; [exact Hr|]. intros w.
      rewrite Hin, elem_of_cons. split.
      * intros [[->|?]|(b & Hb & H)]; [right; exists a; split; [by left|done]|by left|right; exists b; split; [by right|done]].
      * intros [?|(b & [->|Hb]%elem_of_cons & Hab & Hw)]; [left; by right| |right; by exists b].
        unfold about in Hab. rewrite Hv in Hab. injection Hab as ->. left. by left.
    + apply Hskip. by intros w [= <-].
  - by apply Hskip.
Qed.

(** What returns had only hashable ids. *)
Lemma scheduled_secrets_ok l acc s r s' :
  for_fold l acc note_secret s = (Ok r, s') →
  s' = s ∧ ∀ a v, a ∈ l → about a = Some v → jtruthy v = true → hashable v = true.
Proof.
  revert acc. induction l as [|a l IH]; intros acc; cbn [for_fold].
  { intros [_ ->]%mret_ok. split; [done|]. by intros a v ?%elem_of_nil. }
  intros H. apply bind_ok_inv in H as (acc' & s1 & H1 & H).
  assert (s1 = s ∧ ∀ v, about a = Some v → jtruthy v = true → hashable v = true) as [-> Ha].
  { unfold about, note_secret in *. destruct (jget (ac_config a) "secret_id") as [v|]; [|by apply mret_ok in H1 as [_ ->]].
    destruct (jtruthy v) eqn:Ht.
    - apply bind_ok_inv in H1 as ([] & s2 & [Hh%negb_false_iff ->]%raise_if_ok & H1).
      apply mret_ok in H1 as [_ ->]. split; [done|]. by intros w [= <-] _.
    - apply mret_ok in H1 as [_ ->]. split; [done|]. intros w [= <-]. by rewrite Ht. }
  destruct (IH _ H) as [-> Hl]. split; [done|]. intros b v [->|Hb]%elem_of_cons; [apply Ha|by apply Hl].
Qed.
Lemma jval_eqb_str id v : jval_eqb (JVstr id) v = true ↔ v = JVstr id.
Proof. destruct v; simpl; rewrite ?bool_decide_eq_true; split; congruence. Qed.

Lemma seen_spec id (l : list jval) : existsb (jval_eqb (JVstr id)) l = true ↔ JVstr id ∈ l.
Proof.
  rewrite existsb_exists. split.
  - intros (v & Hv & ->%jval_eqb_str). by rewrite list_elem_of_In.
  - intros H. exists (JVstr id). rewrite <-list_elem_of_In. split; [done|]. by apply jval_eqb_str.
Qed.

(** A policy that calls for a rotation action on the secret [id]. *)
Definition calls_for (t : tables) (p : SecretPolicy) (id : string) : Prop :=
  pl_secret p = Some id ∧ id ≠ "" ∧ is_Some (pl_max_age p) ∧ ∃ x, x ∈ v_table v_secrets t ∧ se_id x = id.

(** A rotation action on a secret. *)
Definition rotates (id : string) (a : ScheduledAction) : Prop :=
  rotation_action a = true ∧ about a = Some (JVstr id).

(** A policy whose secret is taken care of creates nothing. *)
Lemma schedule_idle owner seen out p s :
  (∀ id, calls_for (st_db s) p id → JVstr id ∈ seen) →
  schedule_policy known_principal owner (seen, out) p s = (Ok (seen, out), s).
Proof.
  intros Hseen. unfold schedule_policy. destruct (pl_secret p) as [id|] eqn:Hs; [|done].
  destruct (pl_max_age p) as [m|] eqn:Hm; [|done]. case_bool_decide as Hid; [done|]. cbn [orb fst].
  destruct (existsb (jval_eqb (JVstr id)) seen) eqn:Hin; [done|].
  destruct (fetch_one (v_table v_secrets) (by_secret id) s) as [[o|e] s'] eqn:Hrun; [|discriminate Hrun].
  rewrite (run_bind_ok _ _ _ _ _ Hrun). apply fetch_one_ok in Hrun as [-> Ho]. destruct o as [x|]; [|done].
  destruct Ho as [Hx Hxid%bool_decide_eq_true_1]. rewrite <-not_true_iff_false, seen_spec in Hin. destruct Hin.
  apply Hseen. split_and!; [done|done|by rewrite Hm|by exists x].
Qed.

Lemma schedule_policy_ok owner seen out p s acc s' :
  schedule_policy known_principal owner (seen, out) p s = (Ok acc, s') →
  (acc = (seen, out) ∧ s' = s ∧ ∀ id, calls_for (st_db s) p id → JVstr id ∈ seen) ∨
  ∃ id a, calls_for (st_db s) p id ∧ (JVstr id ∉ seen) ∧ acc = (JVstr id :: seen, out ++ [a]) ∧ rotates id a ∧
    actions_of s' = actions_of s ++ [a] ∧ same_vault s s'.
Proof.
  unfold schedule_policy. destruct (pl_secret p) as [id|] eqn:Hs.
  2: { intros [-> ->]%mret_ok. left. split_and!; [done..|]. by intros i (Hi & _); rewrite Hs in Hi. }
  destruct (pl_max_age p) as [m|] eqn:Hm.
  2: { intros [-> ->]%mret_ok. left. split_and!; [done..|]. intros i (_ & _ & [? ?] & _). congruence. }
  case_bool_decide as Hid; cbn [orb fst].
  { intros [-> ->]%mret_ok. left. split_and!; [done..|]. intros i (Hi & Hne & _). congruence. }
  destruct (existsb (jval_eqb (JVstr id)) seen) eqn:Hin.
  { apply seen_spec in Hin. intros [-> ->]%mret_ok. left. split_and!; [done..|].
    intros i (Hi & _). by rewrite Hs in Hi; injection Hi as <-. }
  rewrite <-not_true_iff_false, seen_spec in Hin. intros H.
  apply bind_ok_inv in H as (o & s1 & [-> Ho]%fetch_one_ok & H). destruct o as [x|].
  - destruct Ho as [Hx Hxid%bool_decide_eq_true_1]. right.
    apply bind_ok_inv in H as (now & s1 & [-> ->]%now_utc_ok & H). cbv zeta in H.
    apply bind_ok_inv in H as (a & s1 & Hcreate & H). cbn [fst snd] in H. apply mret_ok in H as [-> ->].
    apply create_action_ok in Hcreate as (Ht & Hc & _ & Hact & Ha & Hv & _). exists id, a.
    assert (Hcalls : calls_for (st_db s) p id) by (split_and!; [done|done|by rewrite Hm|by exists x]).
    assert (Hrot : rotates id a)
      by (unfold rotates, rotation_action, about; by rewrite Ht, Hact, Hc, bool_decide_eq_true_2).
    done.
  - apply mret_ok in H as [-> ->]. left. split_and!; [done..|]. intros i (Hi & _ & _ & x & Hx & Hxid).
    rewrite Hs in Hi. injection Hi as <-. specialize (Ho x Hx). unfold by_secret in Ho.
    by rewrite bool_decide_eq_true_2 in Ho.
Qed.

Lemma calls_for_same s s' p id : same_vault s s' → calls_for (st_db s') p id ↔ calls_for (st_db s) p id.
Proof. intros H. unfold calls_for, v_table. by rewrite H. Qed.

Lemma schedule_loop_ok owner rows seen out s acc s' :
  for_fold rows (seen, out) (schedule_policy known_principal owner) s = (Ok acc, s') →
  ∃ new, acc.2 = out ++ new ∧ actions_of s' = actions_of s ++ new ∧ same_vault s s' ∧
    (∀ v, v ∈ acc.1 ↔ v ∈ seen ∨ ∃ a, a ∈ new ∧ about a = Some v) ∧
    (∀ a, a ∈ new → ∃ p id, p ∈ rows ∧ calls_for (st_db s) p id ∧ rotates id a ∧ (JVstr id ∉ seen)) ∧
    NoDup (about <$> new) ∧ ∀ p id, p ∈ rows → calls_for (st_db s) p id → JVstr id ∈ acc.1.
Proof.
  revert seen out s. induction rows as [|p rows IH]; intros seen out s H; cbn [for_fold] in H.
  { apply mret_ok in H as [-> ->]. exists []. rewrite !app_nil_r. split_and!; try done.
    - intros v. split; [by left|]. by intros [?|(a & ?%elem_of_nil & _)].
    - by intros a ?%elem_of_nil.
    - apply NoDup_nil_2.
    - by intros q id ?%elem_of_nil. }
  apply bind_ok_inv in H as ([seen1 out1] & s1 & Hp & H).
  apply schedule_policy_ok in Hp as [([= -> ->] & -> & Hskip)|(id & a & Hcalls & Hnew & [= -> ->] & Hrot & Hact & Hv)].
  - destruct (IH _ _ _ H) as (new & Hout & Hacts & Hsv & Hseen & Hall & Hnd & Hcov). exists new.
    split_and!; try done.
    + intros b Hb. destruct (Hall b Hb) as (q & i & Hq & ?). exists q, i. split; [by right|done].
    + intros q i [->|Hq]%elem_of_cons Hc; [apply Hseen; left; by apply Hskip|by eapply Hcov].
  - destruct (IH _ _ _ H) as (new & Hout & Hacts & Hsv & Hseen & Hall & Hnd & Hcov). exists (a :: new).
    assert (Habout : about a = Some (JVstr id)) by apply Hrot. split_and!.
    + by rewrite Hout, <-app_assoc.
    + by rewrite Hacts, Hact, <-app_assoc.
    + by etrans.
    + intros v. rewrite Hseen, elem_of_cons. split.
      * intros [[->|?]|(b & Hb & ?)]; [right; exists a; split; [by left|done]|by left|right; exists b; split; [by right|done]].
      * intros [?|(b & [->|Hb]%elem_of_cons & Hab)]; [by left; right|left; left; congruence|right; by exists b].
    + intros b [->|Hb]%elem_of_cons; [exists p, id; split_and!; [by left|done..]|].
      destruct (Hall b Hb) as (q & i & Hq & Hc & Hr & Hn). exists q, i. rewrite (calls_for_same s s1) in Hc by done.
      split_and!; [by right|done|done|]. intros Hi. apply Hn. by right.
    + rewrite fmap_cons. apply NoDup_cons. split; [|done]. intros (b & Hab & Hb)%list_elem_of_fmap.
      destruct (Hall b Hb) as (q & i & _ & _ & [_ Hi] & Hn). apply Hn. rewrite <-Hab, Habout in Hi.
      injection Hi as ->. by left.
    + intros q i [->|Hq]%elem_of_cons Hc.
      * apply Hseen. left. destruct Hc as (Hi & _), Hcalls as (Hi' & _). rewrite Hi in Hi'. injection Hi' as ->. by left.
      * apply (Hcov q i Hq). by rewrite (calls_for_same s s1).
Qed.

Lemma schedule_loop_idle owner rows seen out s :
  (∀ p id, p ∈ rows → calls_for (st_db s) p id → JVstr id ∈ seen) →
  for_fold rows (seen, out) (schedule_policy known_principal owner) s = (Ok (seen, out), s).
Proof.
  induction rows as [|p rows IH]; intros H; cbn [for_fold]; [done|].
  rewrite (run_bind_ok _ _ _ _ _ (schedule_idle owner seen out p s (λ id Hc, H p id ltac:(left) Hc))).
  apply IH. intros q id Hq. apply H. by right.
Qed.

(** With an action for every secret that needs one, nothing is created. *)
Lemma schedule_again owner s :
  (∀ a v, a ∈ actions_of s → rotation_action a = true → about a = Some v → jtruthy v = true → hashable v = true) →
  (∀ p id, p ∈ v_table v_policies (st_db s) → pl_auto p = true → calls_for (st_db s) p id →
     ∃ a, a ∈ actions_of s ∧ rotates id a) →
  schedule_auto_rotations known_principal owner s = (Ok [], s).
Proof.
  intros Hhash Hdone. unfold schedule_auto_rotations.
  destruct (select (v_table v_policies) pl_auto s) as [[rows|e] s2] eqn:Hsel; [|discriminate Hsel].
  rewrite (run_bind_ok _ _ _ _ _ Hsel). apply select_elem in Hsel as [-> Hrows].
  destruct rows as [|q rows]; [done|]. set (all := q :: rows) in *.
  destruct (select (d_table d_actions) rotation_action s) as [[ex|e] s2] eqn:Hsel; [|discriminate Hsel].
  rewrite (run_bind_ok _ _ _ _ _ Hsel). apply select_elem in Hsel as [-> Hex].
  destruct (scheduled_secrets_run ex [] s) as (r & Hr & Hin).
  { intros a v [Ha Hrot]%Hex. by apply Hhash. }
  unfold scheduled_secrets. rewrite (run_bind_ok _ _ _ _ _ Hr).
  assert (Hidle : ∀ p id, p ∈ all → calls_for (st_db s) p id → JVstr id ∈ r).
  { intros p id [Hp Hauto]%Hrows Hc. destruct (Hdone p id Hp Hauto Hc) as (a & Ha & Hrot & Hab).
    apply Hin. right. exists a. split_and!; [by apply Hex|done|]. simpl. by rewrite bool_decide_eq_false_2 by apply Hc. }
  by rewrite (run_bind_ok _ _ _ _ _ (schedule_loop_idle owner all r [] s Hidle)).
Qed.

(** Scheduling the automatic rotations is complete and idempotent: when it
    returns, it created one action for each secret that an auto-rotating policy
    with a maximal age names and no active rotation action was about yet, no two
    for one secret, and changed nothing of the vault; every such secret now has an
    action, and running it again creates none. *)
Theorem schedule_idempotent owner s created s' :
  schedule_auto_rotations known_principal owner s = (Ok created, s') →
  actions_of s' = actions_of s ++ created ∧ same_vault s s' ∧ NoDup (about <$> created) ∧
  (∀ a, a ∈ created → ∃ p id, p ∈ v_table v_policies (st_db s) ∧ pl_auto p = true ∧ calls_for (st_db s) p id ∧
     rotates id a ∧ ∀ b, b ∈ actions_of s → ¬ rotates id b) ∧
  (∀ p id, p ∈ v_table v_policies (st_db s) → pl_auto p = true → calls_for (st_db s) p id →
     ∃ a, a ∈ actions_of s' ∧ rotates id a) ∧
  schedule_auto_rotations known_principal owner s' = (Ok [], s').
Proof.
  intros H. pose proof H as Hrun. unfold schedule_auto_rotations in H.
  apply bind_ok_inv in H as (rows & s1 & [-> Hrows]%select_elem & H). destruct rows as [|p0 rows].
  { apply mret_ok in H as [-> ->]. rewrite app_nil_r. split_and!; try done.
    - apply NoDup_nil_2.
    - by intros a ?%elem_of_nil.
    - intros p id Hp Hauto _. exfalso. by apply (not_elem_of_nil p), Hrows. }
  set (all := p0 :: rows) in *. apply bind_ok_inv in H as (existing & s1 & [-> Hex]%select_elem & H).
  apply bind_ok_inv in H as (already & s1 & Halready & H). unfold scheduled_secrets in Halready.
  pose proof Halready as [-> Hhash]%scheduled_secrets_ok.
  destruct (scheduled_secrets_run existing [] s Hhash) as (r & Hr & Hr'). rewrite Hr in Halready.
  injection Halready as ->. apply bind_ok_inv in H as (acc & s1 & Hloop & H). apply mret_ok in H as [-> ->].
  apply schedule_loop_ok in Hloop as (new & Hout & Hacts & Hsv & Hseen & Hall & Hnd & Hcov). simpl in Hout.
  rewrite Hout.
  assert (Hdone : ∀ p id, p ∈ v_table v_policies (st_db s) → pl_auto p = true → calls_for (st_db s) p id →
     ∃ a, a ∈ actions_of s1 ∧ rotates id a).
  { intros p id Hp Hauto Hc. assert (Hin : p ∈ all) by by apply Hrows. pose proof (Hcov p id Hin Hc) as Hs.
    rewrite Hacts. apply Hseen in Hs as [Hs|(a & Ha & Hab)].
    - apply Hr' in Hs as [?%elem_of_nil|(a & Ha & Hab & _)]; [done|]. apply Hex in Ha as [Ha Hrot].
      exists a. split; [apply elem_of_app; by left|done].
    - destruct (Hall a Ha) as (_ & i & _ & _ & [Hrot _] & _). exists a. split; [apply elem_of_app; by right|done]. }
  split_and!; [done|done|done| |done|].
  - intros a Ha. destruct (Hall a Ha) as (p & id & Hp & Hc & Hrot & Hnot). apply Hrows in Hp as [Hp Hauto].
    exists p, id. split_and!; [done..|]. intros b Hb [Hbr Hba]. apply Hnot, Hr'. right. exists b.
    split_and!; [by apply Hex|done|]. simpl. by rewrite bool_decide_eq_false_2 by apply Hc.
  - apply schedule_again.
    + intros a v Ha Hrot Hab Ht. rewrite Hacts in Ha. apply elem_of_app in Ha as [Ha|Ha].
      * apply (Hhash a v); [by apply Hex|done|done].
      * destruct (Hall a Ha) as (_ & i & _ & _ & [_ Hi] & _). rewrite Hab in Hi. by injection Hi as ->.
    + intros p id Hp Hauto Hc. apply (calls_for_same s s1) in Hc; [|done]. unfold v_table in Hp. rewrite Hsv in Hp.
      by apply (Hdone p id).
Qed.
End ScheduleTheory.

(** The interval of a policy is never used after the first rotation: the actions
    scheduled above carry no max_age_seconds, so they move on by a day. *)
Lemma next_rotation_in_a_day id policy now :
  next_rotation [("secret_id", JVstr id); ("policy_id", JVstr policy)] now = Ok (now + micros (24 * 3600))%Z.
Proof. reflexivity. Qed.
