(* ===== verification/Environments.v ===== *)
(** * Legacy v1: environments (environments/)

    Isolated workspaces: their life from spawn to discard, the objects in them,
    and the snapshots that are taken of them and restored. *)

From S2P Require Import Prelude LegacyTypes Schema Json Trail Rules Tenancy.

Definition e_table {R} (f : env_tables → list R) (t : tables) : list R := f (envs t).

(** ** models.py *)

Definition env_state_value (st : EnvironmentState) : string :=
  match st with
  | SPAWNING => "spawning" | ENV_ACTIVE => "active" | SUSPENDED => "suspended"
  | COMPLETED => "completed" | DISCARDED => "discarded" | PROMOTED => "promoted"
  end.

Definition origin_value (o : ObjectOrigin) : string :=
  match o with CREATED => "created" | PROJECTED => "projected" end.

Definition VALID_TRANSITIONS (st : EnvironmentState) : list EnvironmentState :=
  match st with
  | SPAWNING => [ENV_ACTIVE]
  | ENV_ACTIVE => [SUSPENDED; COMPLETED]
  | SUSPENDED => [ENV_ACTIVE]
  | COMPLETED => [DISCARDED; PROMOTED]
  | DISCARDED => []
  | PROMOTED => [DISCARDED]
  end.

Definition env_active (e : Environment) : bool := bool_decide (en_state e = ENV_ACTIVE).
Definition is_terminal (e : Environment) : bool := bool_decide (en_state e = DISCARDED).
Definition can_transition_to (e : Environment) (target : EnvironmentState) : bool :=
  bool_decide (target ∈ VALID_TRANSITIONS (en_state e)).

Definition set_environment (st : EnvironmentState) (completed : option Z) (e : Environment) : Environment := {|
  en_id := en_id e; en_name := en_name e; en_owner := en_owner e; en_created_at := en_created_at e;
  en_state := st; en_description := en_description e; en_template := en_template e; en_scope := en_scope e;
  en_ephemeral := en_ephemeral e; en_completed_at := completed; en_metadata := en_metadata e |}.

Definition in_environment_state (st : EnvironmentState) (e : Environment) : Environment :=
  set_environment st (en_completed_at e) e.
Definition completed_at (ts : Z) (e : Environment) : Environment := set_environment (en_state e) (Some ts) e.

Definition by_env (id : string) (e : Environment) : bool := bool_decide (en_id e = id).
Definition by_template (id : string) (x : EnvironmentTemplate) : bool := bool_decide (et_id x = id).
Definition by_snapshot (id : string) (x : EnvironmentSnapshot) : bool := bool_decide (es_id x = id).
Definition of_env (id : string) (x : EnvironmentObject) : bool := bool_decide (eo_env x = id).
Definition env_member (env object : string) (x : EnvironmentObject) : bool :=
  of_env env x && bool_decide (eo_object x = object).
Definition of_origin (o : ObjectOrigin) (x : EnvironmentObject) : bool := bool_decide (eo_origin x = o).
Definition snapshot_of (id : string) (x : EnvironmentSnapshot) : bool := bool_decide (es_env x = id).

(** The environments layer's rows as they were. *)
Definition same_envs : relation store := λ s s', envs (st_db s') = envs (st_db s).

(** What an environment relies on in its [promotion_manager]: promoting one
    object leaves the rows of the environments alone (and may fail). *)
Class Promoter := {
  promote_object : string → string → string → string → option string → option AccessLevel → lp unit;
  promote_object_apart : ∀ object env scope by_ stage level,
    respects same_envs (promote_object object env scope by_ stage level);
}.

(** ** Rows as JSON *)

Section Rows.
Context `{host : !Host}.

Definition env_snapshot (e : Environment) : jdict := [
  ("id", JVstr (en_id e)); ("name", JVstr (en_name e)); ("owner_id", JVstr (en_owner e));
  ("state", JVstr (env_state_value (en_state e))); ("description", JVstr (en_description e));
  ("template_id", jopt (en_template e)); ("scope_id", jopt (en_scope e));
  ("ephemeral", JVbool (en_ephemeral e)); ("created_at", JVstr (isoformat (en_created_at e)));
  ("completed_at", jopt (isoformat <$> en_completed_at e)); ("metadata", JVdict (en_metadata e))].

Definition env_object_snapshot (x : EnvironmentObject) : jdict := [
  ("id", JVstr (eo_id x)); ("environment_id", JVstr (eo_env x)); ("object_id", JVstr (eo_object x));
  ("origin", JVstr (origin_value (eo_origin x))); ("added_at", JVstr (isoformat (eo_added_at x)))].

Definition snapshot_snapshot (x : EnvironmentSnapshot) : jdict := [
  ("id", JVstr (es_id x)); ("environment_id", JVstr (es_env x)); ("name", JVstr (es_name x));
  ("created_at", JVstr (isoformat (es_created_at x))); ("created_by", JVstr (es_created_by x));
  ("checksum", JVstr (es_checksum x))].

(** [dict(row)]: the columns of a row. *)
Definition env_columns (e : Environment) : jdict := [
  ("id", JVstr (en_id e)); ("name", JVstr (en_name e)); ("description", JVstr (en_description e));
  ("owner_id", JVstr (en_owner e)); ("template_id", jopt (en_template e)); ("scope_id", jopt (en_scope e));
  ("state", JVstr (env_state_value (en_state e))); ("ephemeral", JVint (if en_ephemeral e then 1 else 0));
  ("created_at", JVstr (isoformat (en_created_at e))); ("completed_at", jopt (isoformat <$> en_completed_at e));
  ("metadata_json", JVstr (json_text (JVdict (en_metadata e))))].

Definition version_columns (v : ObjectVersion) : jdict := [
  ("id", JVstr (ov_id v)); ("object_id", JVstr (ov_object v)); ("version", JVint (Z.of_nat (ov_version v)));
  ("data_json", JVstr (json_dumps (JVdict (ov_data v)))); ("created_at", JVstr (isoformat (ov_created_at v)));
  ("created_by", JVstr (ov_created_by v)); ("change_reason", JVstr (ov_reason v));
  ("checksum", JVstr (ov_checksum v))].

Definition membership_columns (m : ScopeMembership) : jdict := [
  ("id", JVstr (sm_id m)); ("scope_id", JVstr (sm_scope m)); ("principal_id", JVstr (sm_principal m));
  ("role", JVstr (role_value (sm_role m))); ("granted_at", JVstr (isoformat (sm_granted_at m)));
  ("granted_by", JVstr (sm_granted_by m)); ("expires_at", jopt (isoformat <$> sm_expires m));
  ("lifecycle", JVstr (lifecycle_name (sm_lifecycle m)))].

(** The dict that [_collect_state] returns. *)
Definition snapshot_json (d : snapshot_state) : jdict :=
  let objects := JVlist ((λ x, JVdict (env_object_snapshot x)) <$> snap_objects d) in
  let versions := JVlist ((λ v, JVdict (version_columns v)) <$> snap_versions d) in
  match snap_env d with
  | None => [("environment", JVnull); ("objects", objects); ("versions", versions)]
  | Some e => [("environment", JVdict (env_columns e)); ("objects", objects); ("versions", versions);
               ("memberships", JVlist ((λ m, JVdict (membership_columns m)) <$> snap_members d))]
  end.

Definition compute_snapshot_checksum (d : snapshot_state) : string :=
  hexdigest (json_dumps (JVdict (snapshot_json d))).
End Rows.

(** ** EnvironmentLifecycle (lifecycle.py) *)

Section Lifecycle.
Context `{host : !Host} `{sink : !AuditSink}.
Context (known_principal : string → bool).

Definition insert_env (e : Environment) : lp unit :=
  raise_if (negb (known_principal (en_owner e))) (IntegrityError "environments.owner_id") ;;
  match en_template e with
  | None => mret tt
  | Some t => require_row (e_table e_templates) (by_template t) "environments.template_id"
  end ;;
  match en_scope e with
  | None => mret tt
  | Some sc => require_row t_scopes (by_scope sc) "environments.scope_id"
  end ;;
  sql_insert (e_table e_envs) set_envs (λ a b, bool_decide (en_id a = en_id b)) "environments.id" e.

Definition trace_env (actor : string) (a : ActionType.t) (e : Environment) (before after : option jdict) : lp unit :=
  audit (in_scope_req (en_scope e) (states_req before after (request actor a "environment" (en_id e)))).

Definition new_environment (id name owner description : string) (template : option string) (scope : string)
  (ephemeral : bool) (ts : Z) (metadata : jdict) : Environment := {|
  en_id := id; en_name := name; en_owner := owner; en_created_at := ts; en_state := SPAWNING;
  en_description := description; en_template := template; en_scope := Some scope; en_ephemeral := ephemeral;
  en_completed_at := None; en_metadata := metadata |}.

Definition spawn (name owner description : string) (template : option string) (ephemeral : bool)
  (metadata : option jdict) : lp Environment :=
  ts ← now_utc;
  env_id ← generate_id;
  scope ← create_scope ("env:" +:+ name) owner ("Auto-created scope for environment " +:+ env_id) None None;
  let env := new_environment env_id name owner description template (sc_id scope) ephemeral ts (default [] metadata) in
  r ← try (insert_env env);
  match r with
  | Ok _ => mret tt
  | Raise exc => archive_scope (sc_id scope) owner ;; raise exc
  end ;;
  trace_env owner ActionType.ENV_SPAWN env None (Some (env_snapshot env)) ;;
  mret env.

Definition get_env (id : string) : lp (option Environment) := fetch_one (e_table e_envs) (by_env id).

Definition get_env_or_raise (id : string) : lp Environment :=
  found ← get_env id;
  match found with
  | Some e => mret e
  | None => raise (EnvironmentNotFound ("Environment '" +:+ id +:+ "' not found"))
  end.

Definition not_owner (env_id actor : string) : exn :=
  AccessDenied ("Principal '" +:+ actor +:+ "' is not the owner of environment '" +:+ env_id +:+ "'").

Definition require_env_owner (e : Environment) (actor : string) : lp unit :=
  raise_if (negb (bool_decide (en_owner e = actor))) (not_owner (en_id e) actor).

Definition action_map (target : EnvironmentState) : ActionType.t :=
  match target with
  | SPAWNING => ActionType.LIFECYCLE_CHANGE
  | ENV_ACTIVE => ActionType.ENV_RESUME
  | SUSPENDED => ActionType.ENV_SUSPEND
  | COMPLETED => ActionType.ENV_COMPLETE
  | DISCARDED => ActionType.ENV_DISCARD
  | PROMOTED => ActionType.ENV_PROMOTE
  end.

Definition put_state (id : string) (st : EnvironmentState) : lp unit :=
  sql_update (e_table e_envs) set_envs (by_env id) (in_environment_state st).

Definition _transition (id : string) (target : EnvironmentState) (actor : string) : lp Environment :=
  env ← get_env_or_raise id;
  require_env_owner env actor ;;
  let before := env_snapshot env in
  raise_if (negb (can_transition_to env target))
    (EnvironmentStateError ("Cannot transition from '" +:+ env_state_value (en_state env) +:+ "' to '" +:+
      env_state_value target +:+ "'")) ;;
  let env := in_environment_state target env in
  put_state id target ;;
  trace_env actor (action_map target) env (Some before) (Some (env_snapshot env)) ;;
  mret env.

Definition activate (id actor : string) : lp Environment := _transition id ENV_ACTIVE actor.
Definition suspend (id actor : string) : lp Environment := _transition id SUSPENDED actor.
Definition resume (id actor : string) : lp Environment := _transition id ENV_ACTIVE actor.

Definition complete (id actor : string) : lp Environment :=
  env ← _transition id COMPLETED actor;
  ts ← now_utc;
  sql_update (e_table e_envs) set_envs (by_env id) (completed_at ts) ;;
  ts ← now_utc;
  mret (completed_at ts env).

(** An object's row, archived. *)
Definition archived_row (o : ScopedObject) : ScopedObject := {|
  so_id := so_id o; so_type := so_type o; so_owner := so_owner o; so_version := so_version o;
  so_created_at := so_created_at o; so_lifecycle := ARCHIVED; so_registry := so_registry o |}.

Definition live_object (id : string) (o : ScopedObject) : bool :=
  by_object id o && negb (bool_decide (so_lifecycle o = ARCHIVED)).

Definition archive_object_row (x : EnvironmentObject) : lp unit :=
  sql_update t_objects set_objects (live_object (eo_object x)) archived_row.

Definition _tombstone_created_objects (id : string) : lp unit :=
  rows ← select (e_table e_objects) (λ x, of_env id x && of_origin CREATED x);
  for_each rows archive_object_row.

(** What [discard] does after the transition. *)
Definition dissolve_env (id : string) (env : Environment) (actor : string) : lp unit :=
  _tombstone_created_objects id ;;
  if given_str (en_scope env) then archive_scope (default "" (en_scope env)) actor ;; mret tt else mret tt.

Definition discard (id actor : string) : lp Environment :=
  prev ← get_env_or_raise id;
  env ← _transition id DISCARDED actor;
  r ← try (dissolve_env id env actor);
  match r with
  | Ok _ => mret env
  | Raise exc => put_state id (en_state prev) ;; raise exc
  end.

(** [promotion] is the container and the promotion manager that the lifecycle
    was built with; without both an object cannot be promoted. *)
Definition promote_created (promotion : option Promoter) (id actor scope : string) (stage : option string)
  (level : option AccessLevel) : lp unit :=
  match promotion with
  | None => raise (EnvironmentStateError ("target_scope_id requires EnvironmentLifecycle to be " +:+
      "constructed with both a container and a promotion_manager."))
  | Some p =>
      env ← get_env_or_raise id;
      require_env_owner env actor ;;
      created ← select (e_table e_objects) (λ x, of_env id x && of_origin CREATED x);
      for_each created (λ x, promote_object (Promoter := p) (eo_object x) id scope actor stage level)
  end.

Definition promote (promotion : option Promoter) (id actor : string) (target_scope : option string)
  (stage : option string) (level : option AccessLevel) : lp Environment :=
  match target_scope with
  | None => mret tt
  | Some scope => promote_created promotion id actor scope stage level
  end ;;
  _transition id PROMOTED actor.

Definition newest_env (a b : Environment) : bool := (en_created_at b <=? en_created_at a)%Z.

Definition env_filter (owner : option string) (st : option EnvironmentState) (ephemeral : option bool)
  (e : Environment) : bool :=
  filter_opt owner (en_owner e) && filter_opt st (en_state e) && filter_opt ephemeral (en_ephemeral e).

Definition list_environments (owner : option string) (st : option EnvironmentState) (ephemeral : option bool)
  (limit offset : nat) : lp (list Environment) :=
  l ← select_sorted (e_table e_envs) (env_filter owner st ephemeral) newest_env;
  mret (page (Some limit) offset l).

Definition insert_template (x : EnvironmentTemplate) : lp unit :=
  raise_if (negb (known_principal (et_owner x))) (IntegrityError "environment_templates.owner_id") ;;
  sql_insert (e_table e_templates) set_templates (λ a b, bool_decide (et_id a = et_id b)) "environment_templates.id" x.

Definition create_template (name owner description : string) (config : option jdict) : lp EnvironmentTemplate :=
  ts ← now_utc;
  id ← generate_id;
  let tmpl := {| et_id := id; et_name := name; et_owner := owner; et_created_at := ts;
    et_description := description; et_config := default [] config; et_lifecycle := ACTIVE |} in
  insert_template tmpl ;;
  mret tmpl.

Definition get_template (id : string) : lp (option EnvironmentTemplate) :=
  fetch_one (e_table e_templates) (by_template id).

Definition newest_template (a b : EnvironmentTemplate) : bool := (et_created_at b <=? et_created_at a)%Z.

Definition list_templates (owner : option string) (limit : nat) : lp (list EnvironmentTemplate) :=
  l ← select_sorted (e_table e_templates) (λ x, bool_decide (et_lifecycle x = ACTIVE) &&
    (negb (given_str owner) || filter_opt owner (et_owner x))) newest_template;
  mret (take limit l).

Definition spawn_from_template (id owner : string) (name : option string) : lp Environment :=
  found ← get_template id;
  match found with
  | None => raise (EnvironmentNotFound ("Template '" +:+ id +:+ "' not found"))
  | Some tmpl =>
      spawn (if given_str name then default "" name else et_name tmpl +:+ " instance") owner
        (et_description tmpl) (Some id) true (Some [("template_config", JVdict (et_config tmpl))])
  end.
End Lifecycle.

(** ** EnvironmentContainer (container.py) *)

Section Container.
Context `{host : !Host} `{sink : !AuditSink}.
(** The container's rule engine, if it has one: its cache's lifetime. *)
Context (rule_engine : option (option Z)).

Definition _require_active (id : string) : lp Environment :=
  env ← get_env_or_raise id;
  raise_if (negb (env_active env))
    (EnvironmentStateError ("Environment is '" +:+ env_state_value (en_state env) +:+
      "', must be 'active' to add objects")) ;;
  mret env.

Definition owner_gate (env : Environment) (actor : option string) : lp unit :=
  match actor with Some a => require_env_owner env a | None => mret tt end.

Definition rule_gate (env : Environment) (actor : option string) : lp unit :=
  match rule_engine, actor with
  | Some ttl, Some a =>
      result ← evaluate ttl {| a_action := "add_object"; a_principal_id := Some a; a_principal_kind := None;
        a_object_type := None; a_object_id := None; a_scope_id := en_scope env;
        a_environment_id := Some (en_id env) |};
      let denies := deny_rules result in
      raise_if (negb (allowed result) && (negb (bool_decide (length denies = 0)) ||
                negb (bool_decide (length (matching_rules result) = 0))))
        (AccessDenied ("Action 'add_object' denied by rule(s): " +:+
          py_repr (JVlist ((λ r, JVstr (rl_name r)) <$> denies))))
  | _, _ => mret tt
  end.

Definition insert_env_object (x : EnvironmentObject) : lp unit :=
  require_row (e_table e_envs) (by_env (eo_env x)) "environment_objects.environment_id" ;;
  require_row t_objects (by_object (eo_object x)) "environment_objects.object_id" ;;
  sql_insert (e_table e_objects) set_env_objects
    (λ a b, bool_decide (eo_id a = eo_id b) || env_member (eo_env a) (eo_object a) b)
    "environment_objects" x.

Definition add_object (env_id object : string) (actor : option string) (origin : ObjectOrigin)
  : lp EnvironmentObject :=
  env ← _require_active env_id;
  owner_gate env actor ;;
  rule_gate env actor ;;
  ts ← now_utc;
  id ← generate_id;
  let eo := {| eo_id := id; eo_env := env_id; eo_object := object; eo_origin := origin; eo_added_at := ts |} in
  insert_env_object eo ;;
  (if given_str actor then
    audit (metadata_req [("origin", JVstr (origin_value origin))] (in_scope_req (en_scope env)
      (states_req None (Some (env_object_snapshot eo))
        (request (default "" actor) ActionType.LIFECYCLE_CHANGE "environment_object" id))))
  else mret tt) ;;
  mret eo.

Definition project_in (env_id object : string) (actor : option string) : lp EnvironmentObject :=
  add_object env_id object actor PROJECTED.

Definition remove_object (env_id object : string) (actor : option string) : lp bool :=
  match actor with
  | None => mret tt
  | Some a =>
      env ← get_env env_id;
      match env with Some e => require_env_owner e a | None => mret tt end
  end ;;
  found ← fetch_one (e_table e_objects) (env_member env_id object);
  match found with
  | None => mret false
  | Some row =>
      sql_delete (e_table e_objects) set_env_objects (env_member env_id object) ;;
      (if given_str actor then
        env ← get_env env_id;
        audit (in_scope_req (env ≫= en_scope) (states_req (Some (env_object_snapshot row)) None
          (request (default "" actor) ActionType.LIFECYCLE_CHANGE "environment_object" (eo_id row))))
      else mret tt) ;;
      mret true
  end.

Definition oldest_added (a b : EnvironmentObject) : bool := (eo_added_at a <=? eo_added_at b)%Z.

Definition list_env_objects (env_id : string) (origin : option ObjectOrigin) (limit : nat)
  : lp (list EnvironmentObject) :=
  l ← select_sorted (e_table e_objects) (λ x, of_env env_id x && filter_opt origin (eo_origin x)) oldest_added;
  mret (take limit l).

Definition get_created_object_ids (env_id : string) : lp (list string) :=
  l ← select (e_table e_objects) (λ x, of_env env_id x && of_origin CREATED x); mret (eo_object <$> l).
Definition get_projected_object_ids (env_id : string) : lp (list string) :=
  l ← select (e_table e_objects) (λ x, of_env env_id x && of_origin PROJECTED x); mret (eo_object <$> l).

Definition env_contains (env_id object : string) : lp bool :=
  row ← fetch_one (e_table e_objects) (env_member env_id object);
  mret (match row with Some _ => true | None => false end).

Definition count_env_objects (env_id : string) : lp nat := select_count (e_table e_objects) (of_env env_id).
End Container.

(** ** SnapshotManager (snapshot.py) *)

Section Snapshots.
Context `{host : !Host} `{sink : !AuditSink}.

(** The join of an object's versions with its current version. *)
Definition current_row (objects : list ScopedObject) (object : string) (v : ObjectVersion) : bool :=
  bool_decide (ov_object v = object) &&
  existsb (λ o, bool_decide (so_id o = ov_object v) && bool_decide (so_version o = ov_version v)) objects.

Definition collect_version (acc : list ObjectVersion) (x : EnvironmentObject) : lp (list ObjectVersion) :=
  objects ← gets (λ s, t_objects (st_db s));
  row ← fetch_one t_object_versions (current_row objects (eo_object x));
  mret (acc ++ option_list row).

Definition active_member_of (sc : string) (m : ScopeMembership) : bool :=
  bool_decide (sm_scope m = sc) && bool_decide (sm_lifecycle m = ACTIVE).

Definition _collect_state (env_id : string) : lp snapshot_state :=
  found ← get_env env_id;
  match found with
  | None => mret {| snap_env := None; snap_objects := []; snap_versions := []; snap_members := [] |}
  | Some env =>
      objects ← select (e_table e_objects) (of_env env_id);
      versions ← for_fold objects [] collect_version;
      members ← (if given_str (en_scope env) then select t_members (active_member_of (default "" (en_scope env)))
                 else mret []);
      mret {| snap_env := Some env; snap_objects := objects; snap_versions := versions; snap_members := members |}
  end.

Definition snapshot_gate (env : option Environment) (env_id actor : string) : lp unit :=
  match env with
  | Some e => raise_if (negb (bool_decide (en_owner e = actor))) (not_owner env_id actor)
  | None => mret tt
  end.

Definition insert_snapshot (x : EnvironmentSnapshot) : lp unit :=
  require_row (e_table e_envs) (by_env (es_env x)) "environment_snapshots.environment_id" ;;
  sql_insert (e_table e_snapshots) set_snapshots (λ a b, bool_decide (es_id a = es_id b)) "environment_snapshots.id" x.

Definition capture (env_id created_by name : string) : lp EnvironmentSnapshot :=
  env ← get_env env_id;
  snapshot_gate env env_id created_by ;;
  ts ← now_utc;
  id ← generate_id;
  data ← _collect_state env_id;
  let snap := {| es_id := id; es_env := env_id; es_name := name; es_data := data; es_created_at := ts;
    es_created_by := created_by; es_checksum := compute_snapshot_checksum data |} in
  insert_snapshot snap ;;
  audit (in_scope_req (env ≫= en_scope) (states_req None (Some (snapshot_snapshot snap))
    (request created_by ActionType.LIFECYCLE_CHANGE "environment_snapshot" id))) ;;
  mret snap.

Definition get_snapshot (id : string) : lp (option EnvironmentSnapshot) :=
  fetch_one (e_table e_snapshots) (by_snapshot id).

Definition newest_snapshot (a b : EnvironmentSnapshot) : bool := (es_created_at b <=? es_created_at a)%Z.

Definition list_snapshots (env_id : string) (limit : nat) : lp (list EnvironmentSnapshot) :=
  l ← select_sorted (e_table e_snapshots) (snapshot_of env_id) newest_snapshot; mret (take limit l).

Definition verify_snapshot (id : string) : lp bool :=
  found ← get_snapshot id;
  mret (match found with
        | None => false
        | Some snap => bool_decide (es_checksum snap = compute_snapshot_checksum (es_data snap))
        end).

Definition at_version (n : nat) (o : ScopedObject) : ScopedObject := {|
  so_id := so_id o; so_type := so_type o; so_owner := so_owner o; so_version := n;
  so_created_at := so_created_at o; so_lifecycle := so_lifecycle o; so_registry := so_registry o |}.

Definition restore_pointer (v : ObjectVersion) : lp unit :=
  sql_update t_objects set_objects (by_object (ov_object v)) (at_version (ov_version v)).

Definition remove_row (x : EnvironmentObject) : lp unit :=
  sql_delete (e_table e_objects) set_env_objects (λ y, bool_decide (eo_id y = eo_id x)).

(** [snap_objs_by_id[id]]: the last entry of the id. *)
Definition snap_object (d : snapshot_state) (id : string) : option EnvironmentObject :=
  find (λ x, bool_decide (eo_object x = id)) (reverse (snap_objects d)).

Definition add_back (d : snapshot_state) (env_id object : string) : lp unit :=
  match snap_object d object with
  | None => raise (KeyError object)
  | Some x =>
      id ← generate_id;
      insert_env_object {| eo_id := id; eo_env := env_id; eo_object := object; eo_origin := eo_origin x;
        eo_added_at := eo_added_at x |}
  end.

(** A Python set of the ids, in its own order. *)
Definition id_set (l : list EnvironmentObject) : list string := scan (remove_dups (eo_object <$> l)).

(** The three loops of [restore]: pointers, rows to remove, rows to add. *)
Definition restore_state (env_id : string) (d : snapshot_state) : lp unit :=
  for_each (snap_versions d) restore_pointer ;;
  current ← select (e_table e_objects) (of_env env_id);
  for_each (filter (λ x, eo_object x ∉ id_set (snap_objects d)) current) remove_row ;;
  for_each (filter (λ id, id ∉ eo_object <$> current) (id_set (snap_objects d))) (add_back d env_id).

Definition restore_snapshot (id restored_by : string) : lp EnvironmentSnapshot :=
  found ← get_snapshot id;
  match found with
  | None => raise (ValueError ("Snapshot '" +:+ id +:+ "' not found"))
  | Some snap =>
      valid ← verify_snapshot id;
      raise_if (negb valid) (ValueError ("Snapshot '" +:+ id +:+ "' has a corrupted checksum")) ;;
      env ← get_env (es_env snap);
      snapshot_gate env (es_env snap) restored_by ;;
      restore_state (es_env snap) (es_data snap) ;;
      audit (metadata_req [("restored_snapshot_id", JVstr (es_id snap))] (in_scope_req (env ≫= en_scope)
        (states_req None (Some (snapshot_snapshot snap))
          (request restored_by ActionType.ROLLBACK "environment_snapshot" (es_id snap))))) ;;
      mret snap
  end.

(** *** Retention *)

Definition delete_old_snapshots (env_id : string) (max_age_days : option Z) : lp unit :=
  match max_age_days with
  | None => mret tt
  | Some days =>
      now ← now_utc;
      sql_delete (e_table e_snapshots) set_snapshots
        (λ x, snapshot_of env_id x && (es_created_at x <? now - days * microseconds_per_day)%Z)
  end.

Definition delete_excess_snapshots (env_id : string) (max_snapshots : option nat) : lp unit :=
  match max_snapshots with
  | None => mret tt
  | Some n =>
      sorted ← select_sorted (e_table e_snapshots) (snapshot_of env_id) newest_snapshot;
      match drop n sorted with
      | [] => mret tt
      | _ :: _ =>
          sorted ← select_sorted (e_table e_snapshots) (snapshot_of env_id) newest_snapshot;
          let keep_ids := es_id <$> take n sorted in
          all_rows ← select (e_table e_snapshots) (snapshot_of env_id);
          for_each (filter (λ x, es_id x ∉ keep_ids) all_rows) (λ x,
            sql_delete (e_table e_snapshots) set_snapshots (by_snapshot (es_id x)))
      end
  end.

Definition apply_snapshot_retention (env_id : string) (max_age_days : option Z) (max_snapshots : option nat)
  : lp nat :=
  before ← select_count (e_table e_snapshots) (snapshot_of env_id);
  delete_old_snapshots env_id max_age_days ;;
  delete_excess_snapshots env_id max_snapshots ;;
  after ← select_count (e_table e_snapshots) (snapshot_of env_id);
  mret (before - after).
End Snapshots.

(** ** The invariant of the environments *)

#[export] Instance same_envs_preorder : PreOrder same_envs.
Proof. split; [by intros s|]. intros s1 s2 s3 H1 H2. unfold same_envs in *. congruence. Qed.

Lemma layers_envs {R} (m : lp R) : respects same_layers m → respects same_envs m.
Proof. intros H s. unfold same_envs, envs. by rewrite (H s). Qed.

Lemma off_trail_envs {R} (m : lp R) : respects off_trail m → respects same_envs m.
Proof. intros H. by apply layers_envs, respects_layers. Qed.

Definition envs_of (s : store) : list Environment := e_table e_envs (st_db s).
Definition members_of (s : store) : list EnvironmentObject := e_table e_objects (st_db s).
Definition snapshots_of (s : store) : list EnvironmentSnapshot := e_table e_snapshots (st_db s).

Definition member_key (x : EnvironmentObject) : string * string := (eo_env x, eo_object x).

(** One transition of the table. *)
Definition edge (a b : EnvironmentState) : Prop := b ∈ VALID_TRANSITIONS a.

(** The later row [e'] of the environment [e]: only its state, along the
    transitions, and its completion time have changed. *)
Definition follows (e e' : Environment) : Prop :=
  set_environment SPAWNING None e' = set_environment SPAWNING None e ∧ rtc edge (en_state e) (en_state e').

(** Environments stay, and their states only move along the transitions. *)
Definition env_later (t t' : tables) : Prop :=
  ∀ e, e ∈ e_table e_envs t → ∃ e', e' ∈ e_table e_envs t' ∧ follows e e'.

Lemma follows_refl e : follows e e.
Proof. by split. Qed.

Lemma follows_id e e' : follows e e' → en_id e' = en_id e.
Proof. intros [H _]. by injection H. Qed.

#[export] Instance env_later_preorder : PreOrder env_later.
Proof.
  split; [intros t e He; exists e; split; [done|apply follows_refl]|].
  intros t1 t2 t3 H1 H2 e He. destruct (H1 e He) as (e' & He' & [F1 R1]).
  destruct (H2 e' He') as (e'' & He'' & [F2 R2]). exists e''. split; [done|]. split; [congruence|by etrans].
Qed.

Lemma discarded_final a b : rtc edge a b → a = DISCARDED → b = DISCARDED.
Proof. intros H ->. inversion H as [|x y z Hxy]; [done|]. by apply elem_of_nil in Hxy. Qed.

Section Invariant.
Context `{host : !Host}.

(** Ids are unique, an object is in an environment by one row, the rows of the
    container and the snapshots belong to environments, and every snapshot has
    the checksum of its data. *)
Record env_ok (t : tables) : Prop := {
  ok_envs : NoDup (en_id <$> e_table e_envs t);
  ok_env_members : NoDup (member_key <$> e_table e_objects t);
  ok_member_ids : NoDup (eo_id <$> e_table e_objects t);
  ok_member_env : ∀ x, x ∈ e_table e_objects t → ∃ e, e ∈ e_table e_envs t ∧ en_id e = eo_env x;
  ok_snapshots : NoDup (es_id <$> e_table e_snapshots t);
  ok_snapshot_env : ∀ x, x ∈ e_table e_snapshots t → ∃ e, e ∈ e_table e_envs t ∧ en_id e = es_env x;
  ok_checksums : ∀ x, x ∈ e_table e_snapshots t → es_checksum x = compute_snapshot_checksum (es_data x);
}.

Abbreviation safe := (keeps env_ok env_later).

Lemma keeps_apart {R} (m : lp R) s : respects same_envs m → safe m s.
Proof.
  intros H [A1 A2 A7 A3 A4 A5 A6]. specialize (H s). unfold same_envs in H.
  split; [by split; unfold e_table in *; rewrite H|]. intros e He. exists e. unfold e_table in *. rewrite H.
  split; [done|apply follows_refl].
Qed.

(** The three tables after [m], when the environments' ids stay. *)
Lemma keeps_change {R} (m : lp R) s :
  (env_ok (st_db s) → en_id <$> envs_of (m s).2 = en_id <$> envs_of s ∧ env_later (st_db s) (st_db (m s).2) ∧
    NoDup (member_key <$> members_of (m s).2) ∧ NoDup (eo_id <$> members_of (m s).2) ∧
    (∀ x, x ∈ members_of (m s).2 → x ∈ members_of s ∨ eo_env x ∈ en_id <$> envs_of s) ∧
    NoDup (es_id <$> snapshots_of (m s).2) ∧
    (∀ x, x ∈ snapshots_of (m s).2 → x ∈ snapshots_of s ∨
      es_env x ∈ en_id <$> envs_of s ∧ es_checksum x = compute_snapshot_checksum (es_data x))) → safe m s.
Proof.
  intros H Hok. destruct (H Hok) as (Hids & Hl & H1 & H1' & H2 & H3 & H4). clear H. destruct Hok as [A1 A2 A7 A3 A4 A5 A6].
  assert (Hback : ∀ k, k ∈ en_id <$> envs_of s → ∃ e, e ∈ e_table e_envs (st_db (m s).2) ∧ en_id e = k).
  { intros k. rewrite <-Hids. intros (e & -> & He)%list_elem_of_fmap. by exists e. }
  assert (Hfront : ∀ e : Environment, e ∈ envs_of s → en_id e ∈ en_id <$> envs_of s).
  { intros e He. by apply list_elem_of_fmap_2. }
  split; [|done]. split; [by unfold envs_of in Hids; rewrite Hids|done|done| |done| |].
  - intros x [Hx|Hx]%H2; apply Hback; [|done]. destruct (A3 x Hx) as (e & He & <-). by apply Hfront.
  - intros x [Hx|[Hx _]]%H4; apply Hback; [|done]. destruct (A5 x Hx) as (e & He & <-). by apply Hfront.
  - by intros x [Hx|[_ Hx]]%H4; [apply A6|].
Qed.

(** The one environment [id] replaced by [f] of it. *)
Definition on_env (id : string) (f : Environment → Environment) (l : list Environment) : list Environment :=
  (λ e, if by_env id e then f e else e) <$> l.

Lemma on_env_ids id f l : (∀ e, en_id (f e) = en_id e) → en_id <$> on_env id f l = en_id <$> l.
Proof.
  intros Hf. unfold on_env. rewrite <-list_fmap_compose. apply list_fmap_ext. intros _ e _. simpl.
  by destruct (by_env id e).
Qed.

Lemma keeps_update_env id f s :
  (∀ e, en_id (f e) = en_id e) → (env_ok (st_db s) → ∀ e, e ∈ envs_of s → en_id e = id → follows e (f e)) →
  safe (sql_update (e_table e_envs) set_envs (by_env id) f) s.
Proof.
  intros Hid Hf. apply keeps_change. intros Hok. specialize (Hf Hok). destruct Hok as [A1 A2 A7 A3 A4 A5 A6].
  split; [by apply on_env_ids|]. split; [|split_and!; [done|done|by left|done|by left]].
  intros e He. exists (if by_env id e then f e else e). split.
  - apply list_elem_of_fmap. by exists e.
  - destruct (by_env id e) eqn:Hb; [|apply follows_refl]. apply Hf; [done|]. by apply bool_decide_eq_true_1 in Hb.
Qed.
End Invariant.

(** ** Runs *)

(** A row that is unique: the database's order does not matter. *)
Lemma fetch_unique `{host : !Host} {R} (tbl : tables → list R) p s :
  (∀ x y, x ∈ tbl (st_db s) → y ∈ tbl (st_db s) → p x = true → p y = true → x = y) →
  fetch_one tbl p s = (Ok (find p (tbl (st_db s))), s).
Proof.
  intros Hu. destruct (fetch_one tbl p s) as [[o|e] s'] eqn:Hrun; [|discriminate Hrun].
  apply fetch_one_ok in Hrun as [-> Ho]. do 2 f_equal.
  destruct (find p (tbl (st_db s))) as [y|] eqn:Hf.
  - apply find_Some_elem in Hf as [Hy Hpy]. destruct o as [x|]; [|by rewrite (Ho y Hy) in Hpy].
    destruct Ho as [Hx Hpx]. by rewrite (Hu x y).
  - destruct o as [x|]; [|done]. destruct Ho as [Hx Hpx]. by rewrite (find_None_elem _ _ x Hf Hx) in Hpx.
Qed.

Lemma find_unique {R} (p : R → bool) (l : list R) x :
  (∀ y, y ∈ l → p y = true → y = x) → x ∈ l → p x = true → find p l = Some x.
Proof.
  intros Hu Hx Hp. destruct (find p l) as [y|] eqn:Hf.
  - apply find_Some_elem in Hf as [Hy Hpy]. by rewrite (Hu y Hy Hpy).
  - by rewrite (find_None_elem _ _ x Hf Hx) in Hp.
Qed.

Section Runs.
Context `{host : !Host} `{sink : !AuditSink}.

Lemma env_keyed t e e' :
  env_ok t → e ∈ e_table e_envs t → e' ∈ e_table e_envs t → en_id e = en_id e' → e = e'.
Proof. intros Hok He He' Heq. exact (NoDup_fmap_inj_in _ _ _ _ (ok_envs t Hok) He He' Heq). Qed.

Lemma get_env_run e s : env_ok (st_db s) → e ∈ envs_of s → get_env (en_id e) s = (Ok (Some e), s).
Proof.
  intros Hok He. unfold get_env. rewrite fetch_unique.
  - do 2 f_equal. apply find_unique; [|done|by apply bool_decide_eq_true_2].
    intros y Hy Hp%bool_decide_eq_true_1. by apply (env_keyed (st_db s)).
  - intros x y Hx Hy Hpx%bool_decide_eq_true_1 Hpy%bool_decide_eq_true_1. apply (env_keyed (st_db s)); [done..|congruence].
Qed.

Lemma get_env_or_raise_run e s :
  env_ok (st_db s) → e ∈ envs_of s → get_env_or_raise (en_id e) s = (Ok e, s).
Proof. intros Hok He. unfold get_env_or_raise. by rewrite run_bind, (get_env_run e s). Qed.

Lemma get_env_or_raise_pure id s : (get_env_or_raise id s).2 = s.
Proof. unfold get_env_or_raise. rewrite run_bind. by destruct (get_env id s) as [[[e|]|e] s1] eqn:H; inversion H. Qed.

Lemma get_env_or_raise_ok id s e s' :
  get_env_or_raise id s = (Ok e, s') → s' = s ∧ e ∈ envs_of s ∧ en_id e = id.
Proof.
  intros H. unfold get_env_or_raise in H. apply bind_ok_inv in H as (o & s1 & Hget & H).
  apply fetch_one_ok in Hget as [-> Ho]. destruct o as [x|]; [|discriminate H].
  apply mret_ok in H as [-> ->]. destruct Ho as [Hx Hid%bool_decide_eq_true_1]. done.
Qed.

(** The store with the state of the environment [id] changed. *)
Definition moved (id : string) (st : EnvironmentState) (s : store) : store :=
  put_db (set_envs (on_env id (in_environment_state st) (envs_of s)) (st_db s)) s.

Lemma put_state_run id st s : put_state id st s = (Ok tt, moved id st s).
Proof. done. Qed.

(** What [_transition] records. *)
Definition transition_request (e : Environment) (target : EnvironmentState) (actor : string) : trace_request :=
  in_scope_req (en_scope e) (states_req (Some (env_snapshot e))
    (Some (env_snapshot (in_environment_state target e)))
    (request actor (action_map target) "environment" (en_id e))).

Lemma transition_run e target actor s :
  env_ok (st_db s) → e ∈ envs_of s →
  _transition (en_id e) target actor s =
    if negb (bool_decide (en_owner e = actor)) then (Raise (not_owner (en_id e) actor), s)
    else if negb (can_transition_to e target) then
      (Raise (EnvironmentStateError ("Cannot transition from '" +:+ env_state_value (en_state e) +:+ "' to '" +:+
        env_state_value target +:+ "'")), s)
    else (audit (transition_request e target actor) ;; mret (in_environment_state target e))
           (moved (en_id e) target s).
Proof.
  intros Hok He. unfold _transition. rewrite run_bind, (get_env_or_raise_run e s Hok He), !run_bind.
  unfold require_env_owner. destruct (bool_decide (en_owner e = actor)); [|done].
  by destruct (can_transition_to e target).
Qed.

Lemma transition_ok id target actor s e' s' :
  env_ok (st_db s) → _transition id target actor s = (Ok e', s') →
  ∃ e, e ∈ envs_of s ∧ en_id e = id ∧ en_owner e = actor ∧ edge (en_state e) target ∧
    e' = in_environment_state target e ∧ off_trail (moved id target s) s'.
Proof.
  intros Hok H. unfold _transition in H. apply bind_ok_inv in H as (e & s1 & Hget & H).
  apply get_env_or_raise_ok in Hget as (-> & He & Hid). exists e. subst id.
  apply bind_ok_inv in H as ([] & s1 & Hown & H). apply raise_if_ok in Hown as [Hown ->].
  apply negb_false_iff, bool_decide_eq_true_1 in Hown. cbv zeta in H.
  apply bind_ok_inv in H as ([] & s1 & Hcan & H). apply raise_if_ok in Hcan as [Hcan ->].
  apply negb_false_iff, bool_decide_eq_true_1 in Hcan.
  apply bind_ok_inv in H as ([] & s1 & Hput & H). rewrite put_state_run in Hput. injection Hput as <-.
  apply bind_ok_inv in H as ([] & s2 & Haud & H). apply mret_ok in H as [-> ->].
  split_and!; try done. by apply audit_ok, quiet_off_trail in Haud.
Qed.
End Runs.

(** ** Every operation keeps the invariant *)

Section Operations.
Context `{host : !Host} `{sink : !AuditSink}.
Context (known_principal : string → bool).

#[local] Abbreviation safe := (keeps env_ok env_later).

Ltac apart := apply keeps_apart, layers_envs.

Lemma keeps_env_audit q s : safe (audit q) s.
Proof. apart. apply audit_layers. Qed.

Lemma keeps_env_reads {R} (m : lp R) s : (m s).2 = s → safe m s.
Proof. intros H. apply keeps_same; [exact _|]. by rewrite H. Qed.

Lemma keeps_env_ret {R} (x : R) s : safe (mret x : lp R) s.
Proof. by apply keeps_env_reads. Qed.

Lemma keeps_trace a t id env b s : safe (trace_env a t id env b) s.
Proof. apply keeps_env_audit. Qed.

Lemma keeps_transition id target actor s : safe (_transition id target actor) s.
Proof.
  intros Hok. revert Hok. unfold _transition. apply keeps_bind; [exact _|apply keeps_env_reads, get_env_or_raise_pure|].
  intros e s1 (-> & He & Hid)%get_env_or_raise_ok Hok. revert Hok. subst id.
  apply keeps_bind; [exact _|apply keeps_env_reads; unfold require_env_owner; by destruct (negb _)|].
  intros [] s1 [_ ->]%raise_if_ok. cbv zeta. apply keeps_bind; [exact _|apply keeps_env_reads; by destruct (negb _)|].
  intros [] s1 [Hcan ->]%raise_if_ok. apply negb_false_iff, bool_decide_eq_true_1 in Hcan.
  apply keeps_bind; [exact _| |].
  - apply keeps_update_env; [done|]. intros Hok e' He' Hid'. rewrite (env_keyed _ _ _ Hok He' He Hid').
    split; [done|by apply rtc_once].
  - intros [] s1 _. apply keeps_bind; [exact _|apply keeps_trace|]. intros. apply keeps_env_ret.
Qed.

Lemma keeps_complete id actor s : safe (complete id actor) s.
Proof.
  unfold complete. apply keeps_bind; [exact _|apply keeps_transition|]. intros env s1 _.
  apply keeps_bind; [exact _|by apply keeps_env_reads|]. intros ts s2 _. apply keeps_bind; [exact _| |].
  - apply keeps_update_env; [done|]. intros _ e _ _. by split.
  - intros [] s3 _. apply keeps_bind; [exact _|by apply keeps_env_reads|]. intros. apply keeps_env_ret.
Qed.

Lemma keeps_insert_env e s : safe (insert_env known_principal e) s.
Proof.
  unfold insert_env. apply keeps_bind; [exact _|apply keeps_env_reads; by destruct (negb _)|]. intros u1 s1 _.
  apply keeps_bind; [exact _| |].
  { destruct (en_template e); [|apply keeps_env_ret]. apply keeps_apart. unfold require_row. repeat respects_step. }
  intros u2 s2 _. apply keeps_bind; [exact _| |].
  { destruct (en_scope e); [|apply keeps_env_ret]. apply keeps_apart. unfold require_row. repeat respects_step. }
  intros u3 s3 _. clear u1 u2 u3. intros Hok.
  destruct (sql_insert_cases (e_table e_envs) set_envs (λ a b, bool_decide (en_id a = en_id b))
    "environments.id" e s3) as [->|[Hfresh ->]]; [done|]. destruct Hok as [A1 A2 A7 A3 A4 A5 A6].
  assert (Hold : ∀ x, x ∈ e_table e_envs (st_db s3) → x ∈ e_table e_envs (st_db s3) ++ [e])
    by (intros x Hx; apply elem_of_app; by left).
  split; [split|]; try done; simpl.
  - change (NoDup (en_id <$> (e_table e_envs (st_db s3) ++ [e]))). rewrite fmap_app, NoDup_app.
    split_and!; [done| |apply NoDup_singleton].
    intros k (x & -> & Hx)%list_elem_of_fmap Hin. apply list_elem_of_singleton in Hin.
    specialize (Hfresh x Hx). apply bool_decide_eq_false_1 in Hfresh. congruence.
  - intros x Hx. destruct (A3 x Hx) as (y & Hy & Hk). exists y. split; [by apply Hold|done].
  - intros x Hx. destruct (A5 x Hx) as (y & Hy & Hk). exists y. split; [by apply Hold|done].
  - intros x Hx. exists x. split; [by apply Hold|apply follows_refl].
Qed.

Lemma keeps_spawn name owner description template ephemeral metadata s :
  safe (spawn known_principal name owner description template ephemeral metadata) s.
Proof.
  unfold spawn. apply keeps_bind; [exact _|by apply keeps_env_reads|]. intros ts s1 _.
  apply keeps_bind; [exact _|by apply keeps_apart|]. intros id s2 _.
  apply keeps_bind; [exact _|apart; apply create_scope_layers|]. intros scope s3 _. cbv zeta.
  apply keeps_bind; [exact _|apply keeps_try, keeps_insert_env|]. intros r s4 _.
  apply keeps_bind; [exact _| |].
  { destruct r; [apply keeps_env_ret|]. apply keeps_bind; [exact _|apart; apply archive_scope_layers|].
    intros. by apply keeps_env_reads. }
  intros u s5 _. apply keeps_bind; [exact _|apply keeps_trace|]. intros. apply keeps_env_ret.
Qed.

Lemma tombstone_layers id : respects same_layers (_tombstone_created_objects id).
Proof. unfold _tombstone_created_objects, archive_object_row, select. solve_layers. Qed.

Lemma dissolve_layers id env actor : respects same_layers (dissolve_env id env actor).
Proof.
  unfold dissolve_env. pose proof tombstone_layers. pose proof archive_scope_layers. solve_layers.
Qed.

Lemma on_env_moved e st l :
  NoDup (en_id <$> l) → e ∈ l →
  on_env (en_id e) (in_environment_state (en_state e)) (on_env (en_id e) (in_environment_state st) l) = l.
Proof.
  intros Hnd He. unfold on_env. rewrite <-list_fmap_compose. rewrite <-(list_fmap_id l) at 2. apply list_fmap_ext.
  intros i x Hx%list_elem_of_lookup_2. simpl. unfold by_env.
  destruct (bool_decide (en_id x = en_id e)) eqn:Hid; [|by rewrite Hid]. cbn. rewrite Hid.
  apply bool_decide_eq_true_1 in Hid. rewrite (NoDup_fmap_inj_in _ _ x e Hnd Hx He Hid). by destruct e.
Qed.

(** The ways out of [discard]: refused, its transition not recorded, dissolved,
    or reverted. *)
Inductive discard_exit (e : Environment) (actor : string) (s : store) : outcome Environment → store → Prop :=
  | discard_refused exc : discard_exit e actor s (Raise exc) s
  | discard_unrecorded exc s' :
      edge (en_state e) DISCARDED → audit (transition_request e DISCARDED actor) (moved (en_id e) DISCARDED s) = (Raise exc, s') →
      discard_exit e actor s (Raise exc) s'
  | discard_done s1 s' u :
      edge (en_state e) DISCARDED → en_owner e = actor → off_trail (moved (en_id e) DISCARDED s) s1 →
      dissolve_env (en_id e) (in_environment_state DISCARDED e) actor s1 = (Ok u, s') →
      discard_exit e actor s (Ok (in_environment_state DISCARDED e)) s'
  | discard_reverted s1 s' exc :
      edge (en_state e) DISCARDED → off_trail (moved (en_id e) DISCARDED s) s1 →
      dissolve_env (en_id e) (in_environment_state DISCARDED e) actor s1 = (Raise exc, s') →
      discard_exit e actor s (Raise exc) (moved (en_id e) (en_state e) s').

Lemma discard_exits e actor s :
  env_ok (st_db s) → e ∈ envs_of s → discard_exit e actor s (discard (en_id e) actor s).1 (discard (en_id e) actor s).2.
Proof.
  intros Hok He. unfold discard. rewrite run_bind, (get_env_or_raise_run e s Hok He), run_bind.
  rewrite (transition_run e DISCARDED actor s Hok He).
  destruct (bool_decide (en_owner e = actor)) eqn:Hown; [|apply discard_refused].
  destruct (can_transition_to e DISCARDED) eqn:Hcan; [|apply discard_refused].
  apply bool_decide_eq_true_1 in Hown, Hcan. cbn [negb]. rewrite run_bind.
  destruct (audit _ _) as [[u|exc] s1] eqn:Haud; [|by eapply discard_unrecorded].
  apply audit_ok, quiet_off_trail in Haud. cbn [mret prog_ret]. rewrite run_bind. unfold try.
  destruct (dissolve_env (en_id e) (in_environment_state DISCARDED e) actor s1) as [[v|exc] s2] eqn:Hd.
  - by eapply discard_done.
  - rewrite run_bind, put_state_run. by eapply discard_reverted.
Qed.

Lemma envs_of_layers s s' : same_layers s s' → envs_of s' = envs_of s ∧ members_of s' = members_of s ∧ snapshots_of s' = snapshots_of s.
Proof. intros H. unfold envs_of, members_of, snapshots_of, e_table, envs. by rewrite H. Qed.

Lemma envs_of_off_trail s s' : off_trail s s' → envs_of s' = envs_of s ∧ members_of s' = members_of s ∧ snapshots_of s' = snapshots_of s.
Proof. intros H. by apply envs_of_layers, off_trail_layers. Qed.

Definition safely (s s' : store) : Prop :=
  env_ok (st_db s) → env_ok (st_db s') ∧ env_later (st_db s) (st_db s').

Lemma safely_rows s s' :
  envs_of s' = envs_of s → members_of s' = members_of s → snapshots_of s' = snapshots_of s → safely s s'.
Proof.
  unfold envs_of, members_of, snapshots_of. intros H1 H2 H3 [A1 A2 A7 A3 A4 A5 A6].
  split; [split; by rewrite ?H1, ?H2, ?H3|]. intros e He. exists e. rewrite H1. split; [done|apply follows_refl].
Qed.

Lemma safely_trans s1 s2 s3 : safely s1 s2 → safely s2 s3 → safely s1 s3.
Proof. intros H1 H2 Hok. destruct (H1 Hok) as [Hok2 L1]. destruct (H2 Hok2) as [Hok3 L2]. split; [done|by etrans]. Qed.

Lemma safely_off_trail s s' : off_trail s s' → safely s s'.
Proof. intros (H1 & H2 & H3)%envs_of_off_trail. by apply safely_rows. Qed.

Lemma safely_moved e st s : e ∈ envs_of s → edge (en_state e) st → safely s (moved (en_id e) st s).
Proof.
  intros He Hedge Hok. assert (H : safe (put_state (en_id e) st) s); [|exact (H Hok)].
  apply keeps_update_env; [done|]. intros _ e' He' Hid'. rewrite (env_keyed _ _ _ Hok He' He Hid').
  split; [done|by apply rtc_once].
Qed.

Lemma discard_exit_safely e actor s r s' :
  env_ok (st_db s) → e ∈ envs_of s → discard_exit e actor s r s' → safely s s'.
Proof.
  intros Hok He [exc|exc s1 Hedge Haud|s1 s2 u Hedge Hown Hoff Hd|s1 s2 exc Hedge Hoff Hd].
  - by apply safely_rows.
  - eapply safely_trans; [by eapply safely_moved|]. apply safely_off_trail, quiet_off_trail.
    pose proof (audit_quiet (transition_request e DISCARDED actor) (moved (en_id e) DISCARDED s)) as Hq. by rewrite Haud in Hq.
  - eapply safely_trans; [by eapply safely_moved|]. eapply safely_trans; [by apply safely_off_trail|].
    pose proof (dissolve_layers (en_id e) (in_environment_state DISCARDED e) actor s1) as Hl. rewrite Hd in Hl. cbn [snd] in Hl.
    apply envs_of_layers in Hl as (H1 & H2 & H3). by apply safely_rows.
  - pose proof (dissolve_layers (en_id e) (in_environment_state DISCARDED e) actor s1) as Hl. rewrite Hd in Hl. cbn [snd] in Hl.
    apply envs_of_layers in Hl as (H1 & H2 & H3). apply envs_of_off_trail in Hoff as (O1 & O2 & O3).
    apply safely_rows.
    + change (on_env (en_id e) (in_environment_state (en_state e)) (envs_of s2) = envs_of s). rewrite H1, O1.
      apply on_env_moved; [apply Hok|done].
    + etrans; [exact H2|exact O2].
    + etrans; [exact H3|exact O3].
Qed.

Lemma keeps_discard id actor s : safe (discard id actor) s.
Proof.
  intros Hok. destruct (get_env_or_raise id s) as [[e|exc] s0] eqn:Hget.
  - apply get_env_or_raise_ok in Hget as (_ & He & <-). pose proof (discard_exits e actor s Hok He) as Hx.
    by apply (discard_exit_safely _ _ _ _ _ Hok He) in Hx; [apply Hx|..].
  - unfold discard. rewrite run_bind, Hget. pose proof (get_env_or_raise_pure id s) as Hp. rewrite Hget in Hp.
    simpl in Hp. subst s0. by split.
Qed.

Lemma keeps_promote promotion id actor scope stage level s : safe (promote promotion id actor scope stage level) s.
Proof.
  unfold promote. apply keeps_bind; [exact _| |intros; apply keeps_transition].
  destruct scope as [sc|]; [|apply keeps_env_ret]. unfold promote_created. destruct promotion as [p|]; [|by apply keeps_env_reads].
  apply keeps_bind; [exact _|apply keeps_env_reads, get_env_or_raise_pure|]. intros env s1 _.
  apply keeps_bind; [exact _|apply keeps_env_reads; unfold require_env_owner; by destruct (negb _)|]. intros u s2 _.
  apply keeps_bind; [exact _|by apply keeps_env_reads|]. intros rows s3 _.
  apply keeps_for_each; [exact _|]. intros x s4 _. apply keeps_apart, promote_object_apart.
Qed.

Lemma keeps_create_template name owner description config s :
  safe (create_template known_principal name owner description config) s.
Proof.
  unfold create_template, insert_template. apply keeps_bind; [exact _|by apply keeps_env_reads|]. intros ts s1 _.
  apply keeps_bind; [exact _|by apply keeps_apart|]. intros id s2 _. cbv zeta.
  apply keeps_bind; [exact _| |intros; apply keeps_env_ret].
  apply keeps_bind; [exact _|apply keeps_env_reads; by destruct (negb _)|]. intros u s3 _ Hok.
  destruct (sql_insert_cases (e_table e_templates) set_templates (λ a b, bool_decide (et_id a = et_id b))
    "environment_templates.id" {| et_id := id; et_name := name; et_owner := owner; et_created_at := ts;
      et_description := description; et_config := default [] config; et_lifecycle := ACTIVE |} s3)
    as [->|[_ ->]]; [done|]. revert Hok. by apply safely_rows.
Qed.

Lemma keeps_spawn_from_template id owner name s : safe (spawn_from_template known_principal id owner name) s.
Proof.
  unfold spawn_from_template. apply keeps_bind; [exact _|by apply keeps_env_reads|].
  intros [t|] s1 _; [apply keeps_spawn|by apply keeps_env_reads].
Qed.

(** A subset of the members, the environments and the snapshots as they were. *)
Lemma keeps_drop_members (p : EnvironmentObject → bool) s :
  safe (sql_delete (e_table e_objects) set_env_objects p) s.
Proof.
  apply keeps_change. intros [A1 A2 A7 A3 A4 A5 A6]. split; [done|]. split; [intros e He; exists e; split; [done|apply follows_refl]|].
  split; [|split; [|split; [|split; [done|by left]]]].
  - by apply NoDup_fmap_filter.
  - by apply NoDup_fmap_filter.
  - intros x [_ Hx]%list_elem_of_filter. by left.
Qed.

Lemma keeps_drop_snapshots (p : EnvironmentSnapshot → bool) s :
  safe (sql_delete (e_table e_snapshots) set_snapshots p) s.
Proof.
  apply keeps_change. intros [A1 A2 A7 A3 A4 A5 A6]. split; [done|]. split; [intros e He; exists e; split; [done|apply follows_refl]|].
  split; [done|split; [done|split; [by left|split]]].
  - by apply NoDup_fmap_filter.
  - intros x [_ Hx]%list_elem_of_filter. by left.
Qed.

Lemma env_exists id c s u s' :
  require_row (e_table e_envs) (by_env id) c s = (Ok u, s') → id ∈ en_id <$> envs_of s.
Proof.
  intros (_ & e & He & Hid%bool_decide_eq_true_1)%require_row_ok. subst id. by apply list_elem_of_fmap_2.
Qed.

Lemma keeps_insert_member x s : safe (insert_env_object x) s.
Proof.
  unfold insert_env_object. apply keeps_bind; [exact _|apply keeps_env_reads, require_row_reads|].
  intros u s1 Hreq. pose proof (env_exists _ _ _ _ _ Hreq) as Henv. apply require_row_ok in Hreq as [-> _].
  apply keeps_bind; [exact _|apply keeps_env_reads, require_row_reads|].
  intros v s1 [-> _]%require_row_ok. apply keeps_change. intros [A1 A2 A7 A3 A4 A5 A6].
  destruct (sql_insert_cases (e_table e_objects) set_env_objects (λ a b, bool_decide (eo_id a = eo_id b) ||
    env_member (eo_env a) (eo_object a) b) "environment_objects" x s) as [->|[Hfresh ->]];
    (split; [done|]; split; [intros e He; exists e; split; [done|apply follows_refl]|]);
    [split_and!; [done|done|by left|done|by left]|].
  split; [|split; [|split; [|split; [done|by left]]]].
  - change (NoDup (member_key <$> (members_of s ++ [x]))). rewrite fmap_app, NoDup_app.
    split_and!; [done| |apply NoDup_singleton].
    intros k (y & -> & Hy)%list_elem_of_fmap Hin. apply list_elem_of_singleton in Hin. injection Hin as He Ho.
    specialize (Hfresh y Hy). apply orb_false_iff in Hfresh as [_ Hm]. unfold env_member, of_env in Hm.
    by rewrite He, Ho, !bool_decide_eq_true_2 in Hm.
  - change (NoDup (eo_id <$> (members_of s ++ [x]))). rewrite fmap_app, NoDup_app.
    split_and!; [done| |apply NoDup_singleton].
    intros k (y & -> & Hy)%list_elem_of_fmap Hin. apply list_elem_of_singleton in Hin.
    specialize (Hfresh y Hy). apply orb_false_iff in Hfresh as [Hm%bool_decide_eq_false_1 _]. congruence.
  - intros y [Hy|Hy%list_elem_of_singleton]%elem_of_app; [by left|right]. by subst y.
Qed.

Lemma keeps_insert_snapshot x s :
  es_checksum x = compute_snapshot_checksum (es_data x) → safe (insert_snapshot x) s.
Proof.
  intros Hsum. unfold insert_snapshot. apply keeps_bind; [exact _|apply keeps_env_reads, require_row_reads|].
  intros u s1 Hreq. pose proof (env_exists _ _ _ _ _ Hreq) as Henv. apply require_row_ok in Hreq as [-> _].
  apply keeps_change. intros [A1 A2 A7 A3 A4 A5 A6].
  destruct (sql_insert_cases (e_table e_snapshots) set_snapshots (λ a b, bool_decide (es_id a = es_id b))
    "environment_snapshots.id" x s) as [->|[Hfresh ->]];
    (split; [done|]; split; [intros e He; exists e; split; [done|apply follows_refl]|]);
    [split_and!; [done|done|by left|done|by left]|].
  split; [done|split; [done|split; [by left|split]]].
  - change (NoDup (es_id <$> (snapshots_of s ++ [x]))). rewrite fmap_app, NoDup_app.
    split_and!; [done| |apply NoDup_singleton].
    intros k (y & -> & Hy)%list_elem_of_fmap Hin. apply list_elem_of_singleton in Hin.
    specialize (Hfresh y Hy). apply bool_decide_eq_false_1 in Hfresh. congruence.
  - intros y [Hy|Hy%list_elem_of_singleton]%elem_of_app; [by left|right]. by subst y.
Qed.

Lemma keeps_add_object rules env object actor origin s : safe (add_object rules env object actor origin) s.
Proof.
  unfold add_object. apply keeps_bind; [exact _| |].
  { apply keeps_env_reads. unfold _require_active. rewrite run_bind. pose proof (get_env_or_raise_pure env s) as Hp.
    destruct (get_env_or_raise env s) as [[e|exc] s1]; simpl in Hp; subst s1; [|done].
    rewrite run_bind. by destruct (negb (env_active e)). }
  intros e s1 _. apply keeps_bind; [exact _| |].
  { apply keeps_env_reads. unfold owner_gate, require_env_owner. destruct actor; [|done]. by destruct (negb _). }
  intros u1 s2 _. apply keeps_bind; [exact _| |].
  { apply keeps_apart. unfold rule_gate. destruct rules as [ttl|]; [|by intros s0]. destruct actor; [|by intros s0].
    respects_step; [apply off_trail_envs, evaluate_off_trail|respects_step]. }
  intros u2 s3 _. apply keeps_bind; [exact _|by apply keeps_env_reads|]. intros ts s4 _.
  apply keeps_bind; [exact _|by apply keeps_apart|]. intros id s5 _. cbv zeta.
  apply keeps_bind; [exact _|apply keeps_insert_member|]. intros u3 s6 _. apply keeps_bind; [exact _| |].
  { destruct (given_str actor); [apply keeps_env_audit|apply keeps_env_ret]. }
  intros. apply keeps_env_ret.
Qed.

Lemma keeps_remove_object env object actor s : safe (remove_object env object actor) s.
Proof.
  unfold remove_object. apply keeps_bind; [exact _| |].
  { destruct actor; [|apply keeps_env_ret]. apply keeps_bind; [exact _|by apply keeps_env_reads|].
    intros [e|] s1 _; [|apply keeps_env_ret]. apply keeps_env_reads. unfold require_env_owner. by destruct (negb _). }
  intros u s1 _. apply keeps_bind; [exact _|by apply keeps_env_reads|]. intros [row|] s2 _; [|apply keeps_env_ret].
  apply keeps_bind; [exact _|apply keeps_drop_members|]. intros u2 s3 _. apply keeps_bind; [exact _| |].
  { destruct (given_str actor); [|apply keeps_env_ret]. apply keeps_bind; [exact _|by apply keeps_env_reads|].
    intros. apply keeps_env_audit. }
  intros. apply keeps_env_ret.
Qed.

Lemma collect_state_reads env : reads (_collect_state env).
Proof.
  unfold _collect_state. apply reads_bind; [apply fetch_one_reads|]. intros [e|]; [|apply reads_ret].
  apply reads_bind; [by intros s|]. intros objects. apply reads_bind.
  - apply reads_for_fold. intros acc x _. unfold collect_version. apply reads_bind; [apply reads_gets|].
    intros os. apply reads_bind; [apply fetch_one_reads|]. intros. apply reads_ret.
  - intros vs. apply reads_bind; [destruct (given_str _); [by intros s|apply reads_ret]|]. intros. apply reads_ret.
Qed.

Lemma snapshot_gate_reads env id actor : reads (snapshot_gate env id actor).
Proof. destruct env; [apply reads_raise_if|apply reads_ret]. Qed.

Lemma verify_reads id : reads (verify_snapshot id).
Proof. apply reads_bind; [apply fetch_one_reads|]. intros. apply reads_ret. Qed.

Lemma keeps_reads {R} (m : lp R) s : reads m → safe m s.
Proof. intros H. apply keeps_env_reads, H. Qed.

Lemma keeps_capture env by_ name s : safe (capture env by_ name) s.
Proof.
  unfold capture. apply keeps_bind; [exact _|apply keeps_reads, fetch_one_reads|]. intros e s1 _.
  apply keeps_bind; [exact _|apply keeps_reads, snapshot_gate_reads|]. intros u s2 _.
  apply keeps_bind; [exact _|by apply keeps_env_reads|]. intros ts s3 _.
  apply keeps_bind; [exact _|by apply keeps_apart|]. intros id s4 _.
  apply keeps_bind; [exact _|apply keeps_reads, collect_state_reads|]. intros data s5 _. cbv zeta.
  apply keeps_bind; [exact _|by apply keeps_insert_snapshot|]. intros u2 s6 _.
  apply keeps_bind; [exact _|apply keeps_env_audit|]. intros. apply keeps_env_ret.
Qed.

Lemma keeps_restore_state env d s : safe (restore_state env d) s.
Proof.
  unfold restore_state. apply keeps_bind; [exact _| |].
  { apply keeps_for_each; [exact _|]. intros v s1 _. apply keeps_apart, layers_envs, update_layers. done. }
  intros u s1 _. apply keeps_bind; [exact _|by apply keeps_env_reads|]. intros current s2 _.
  apply keeps_bind; [exact _| |].
  { apply keeps_for_each; [exact _|]. intros x s3 _. apply keeps_drop_members. }
  intros u2 s3 _. apply keeps_for_each; [exact _|]. intros object s4 _. unfold add_back.
  destruct (snap_object d object) as [x|]; [|by apply keeps_env_reads].
  apply keeps_bind; [exact _|by apply keeps_apart|]. intros id s5 _. apply keeps_insert_member.
Qed.

Lemma keeps_restore id by_ s : safe (restore_snapshot id by_) s.
Proof.
  unfold restore_snapshot. apply keeps_bind; [exact _|apply keeps_reads, fetch_one_reads|].
  intros [snap|] s1 _; [|by apply keeps_env_reads].
  apply keeps_bind; [exact _|apply keeps_reads, verify_reads|]. intros valid s2 _.
  apply keeps_bind; [exact _|apply keeps_env_reads; by destruct valid|]. intros u s3 _.
  apply keeps_bind; [exact _|apply keeps_reads, fetch_one_reads|]. intros env s4 _.
  apply keeps_bind; [exact _|apply keeps_reads, snapshot_gate_reads|]. intros u2 s5 _.
  apply keeps_bind; [exact _|apply keeps_restore_state|]. intros u3 s6 _.
  apply keeps_bind; [exact _|apply keeps_env_audit|]. intros. apply keeps_env_ret.
Qed.

Lemma keeps_retention env age n s : safe (apply_snapshot_retention env age n) s.
Proof.
  unfold apply_snapshot_retention. apply keeps_bind; [exact _|by apply keeps_env_reads|]. intros before s1 _.
  apply keeps_bind; [exact _| |].
  { destruct age; [|apply keeps_env_ret]. apply keeps_bind; [exact _|by apply keeps_env_reads|].
    intros. apply keeps_drop_snapshots. }
  intros u s2 _. apply keeps_bind; [exact _| |].
  { destruct n as [n|]; [|apply keeps_env_ret]. apply keeps_bind; [exact _|by apply keeps_env_reads|].
    intros sorted s3 _. destruct (drop n sorted); [apply keeps_env_ret|].
    apply keeps_bind; [exact _|by apply keeps_env_reads|]. intros sorted2 s4 _. cbv zeta.
    apply keeps_bind; [exact _|by apply keeps_env_reads|]. intros rows s5 _.
    apply keeps_for_each; [exact _|]. intros x s6 _. apply keeps_drop_snapshots. }
  intros u2 s3 _. apply keeps_bind; [exact _|by apply keeps_env_reads|]. intros. apply keeps_env_ret.
Qed.
End Operations.

(** ** The environments' state machine *)

Inductive env_op :=
  | OpSpawn (name owner description : string) (template : option string) (ephemeral : bool) (metadata : option jdict)
  | OpSpawnTemplate (id owner : string) (name : option string)
  | OpCreateTemplate (name owner description : string) (config : option jdict)
  | OpActivate (id actor : string) | OpSuspend (id actor : string) | OpResume (id actor : string)
  | OpComplete (id actor : string) | OpDiscard (id actor : string)
  | OpPromote (promotion : option Promoter) (id actor : string) (scope stage : option string) (level : option AccessLevel)
  | OpAddObject (rules : option (option Z)) (env object : string) (actor : option string) (origin : ObjectOrigin)
  | OpRemoveObject (env object : string) (actor : option string)
  | OpCapture (env by_ name : string) | OpRestore (id by_ : string)
  | OpRetention (env : string) (age : option Z) (max : option nat).

Section StateMachine.
Context `{host : !Host} `{sink : !AuditSink}.
Context (known_principal : string → bool).

Definition run_env_op (op : env_op) : lp unit :=
  match op with
  | OpSpawn name owner description template ephemeral metadata =>
      spawn known_principal name owner description template ephemeral metadata ;; mret tt
  | OpSpawnTemplate id owner name => spawn_from_template known_principal id owner name ;; mret tt
  | OpCreateTemplate name owner description config => create_template known_principal name owner description config ;; mret tt
  | OpActivate id actor => activate id actor ;; mret tt
  | OpSuspend id actor => suspend id actor ;; mret tt
  | OpResume id actor => resume id actor ;; mret tt
  | OpComplete id actor => complete id actor ;; mret tt
  | OpDiscard id actor => discard id actor ;; mret tt
  | OpPromote promotion id actor scope stage level => promote promotion id actor scope stage level ;; mret tt
  | OpAddObject rules env object actor origin => add_object rules env object actor origin ;; mret tt
  | OpRemoveObject env object actor => remove_object env object actor ;; mret tt
  | OpCapture env by_ name => capture env by_ name ;; mret tt
  | OpRestore id by_ => restore_snapshot id by_ ;; mret tt
  | OpRetention env age max => apply_snapshot_retention env age max ;; mret tt
  end.

(** A call of the layer, whatever its exit, or a step of the rest of the program. *)
Inductive env_step : relation store :=
  | env_step_op op s : env_step s (run_env_op op s).2
  | env_step_other s s' : same_envs s s' → env_step s s'.

Lemma run_env_op_keeps op s : keeps env_ok env_later (run_env_op op) s.
Proof.
  destruct op; cbn [run_env_op]; (apply keeps_bind; [exact _| |intros; apply keeps_env_ret]).
  - apply keeps_spawn. - apply keeps_spawn_from_template. - apply keeps_create_template.
  - apply keeps_transition. - apply keeps_transition. - apply keeps_transition.
  - apply keeps_complete. - apply keeps_discard. - apply keeps_promote.
  - apply keeps_add_object. - apply keeps_remove_object. - apply keeps_capture.
  - apply keeps_restore. - apply keeps_retention.
Qed.

(** The state machine of environments.  From a well-formed store, every
    sequence of calls of the layer (whether they return or raise) interleaved
    with anything the rest of the program does reaches a well-formed store: ids
    unique, an object in an environment by one row, every container row and
    every snapshot of an environment that exists, every snapshot with the
    checksum of its data.  No environment disappears, nothing of it changes but
    its completion time and its state, the state only moves along
    VALID_TRANSITIONS, and a discarded environment stays discarded. *)
Theorem env_reachable_ok s s' :
  env_ok (st_db s) → rtc env_step s s' →
  env_ok (st_db s') ∧
  ∀ e, e ∈ envs_of s → ∃ e', e' ∈ envs_of s' ∧ follows e e' ∧ (en_state e = DISCARDED → en_state e' = DISCARDED).
Proof.
  intros Hok Hsteps.
  assert (H : env_ok (st_db s') ∧ env_later (st_db s) (st_db s')).
  { induction Hsteps as [s|s1 s2 s3 Hstep Hrest IH]; [by split|].
    assert (Hsafe : safely s1 s2).
    { destruct Hstep as [op s1|s1 s2 Hsame]; [apply run_env_op_keeps|].
      unfold same_envs in Hsame. apply safely_rows; unfold envs_of, members_of, snapshots_of, e_table; by rewrite Hsame. }
    destruct (Hsafe Hok) as [Hok2 Hl]. destruct (IH Hok2) as [Hok3 Hl']. split; [done|by etrans]. }
  destruct H as [Hok' Hl]. split; [done|]. intros e He. destruct (Hl e He) as (e' & He' & Hf).
  exists e'. split_and!; [done..|]. destruct Hf as [_ Hr]. by apply discarded_final.
Qed.
End StateMachine.
