(* ===== verification/EnvBehaviour.v ===== *)
(** * Legacy v1: what environments do (environments/)

    The functional behaviour of the environments layer: discarding, promoting,
    the round trip of a snapshot, and the retention of snapshots. *)

From S2P Require Import Prelude LegacyTypes Schema Json Trail Rules Tenancy Environments.

(** ** Discarding *)

(** The objects that were created in the environment [id]. *)
Definition created_in (id : string) (l : list EnvironmentObject) : list string :=
  eo_object <$> filter (λ x, of_env id x && of_origin CREATED x = true) l.

Definition archived_among (ids : list string) (o : ScopedObject) : ScopedObject :=
  if bool_decide (so_id o ∈ ids) then archived_row o else o.

Definition with_objects (l : list ScopedObject) (s : store) : store := put_db (set_objects l (st_db s)) s.

Lemma archived_row_id o : so_lifecycle o = ARCHIVED → archived_row o = o.
Proof. destruct o; cbn. by intros ->. Qed.

Lemma archived_among_cons x ids o :
  archived_among ids (if live_object x o then archived_row o else o) = archived_among (x :: ids) o.
Proof.
  unfold archived_among, live_object, by_object. destruct (bool_decide (so_id o = x)) eqn:Hx; cbn [andb].
  - apply bool_decide_eq_true_1 in Hx as <-. rewrite (bool_decide_eq_true_2 (so_id o ∈ so_id o :: ids)) by left.
    destruct (bool_decide (so_lifecycle o = ARCHIVED)) eqn:Hl; cbn [negb].
    + apply bool_decide_eq_true_1 in Hl. rewrite (archived_row_id o Hl). by destruct (bool_decide _).
    + by destruct (bool_decide (_ ∈ ids)).
  - apply bool_decide_eq_false_1 in Hx. erewrite bool_decide_ext; [reflexivity|]. rewrite elem_of_cons. naive_solver.
Qed.

Lemma store_with_objects s : with_objects (t_objects (st_db s)) s = s.
Proof. destruct s as [[] ? ? ? ? ? ?]. done. Qed.

Lemma for_each_archive rows s :
  for_each rows archive_object_row s =
    (Ok tt, with_objects (archived_among (eo_object <$> rows) <$> t_objects (st_db s)) s).
Proof.
  revert s. induction rows as [|x rows IH]; intros s; cbn [for_each].
  - rewrite (list_fmap_ext _ id), list_fmap_id; [by rewrite store_with_objects|done].
  - rewrite run_bind. unfold archive_object_row at 1, sql_update, modify. cbv beta iota. rewrite IH. cbn [st_db put_db].
    apply (f_equal (λ l, (Ok tt, with_objects l s))). cbn. rewrite <-list_fmap_compose. apply list_fmap_ext.
    intros i o _. apply archived_among_cons.
Qed.

Section Discard.
Context `{host : !Host} `{sink : !AuditSink}.

Lemma tombstone_run id s :
  _tombstone_created_objects id s =
    (Ok tt, with_objects (archived_among (created_in id (members_of s)) <$> t_objects (st_db s)) s).
Proof.
  unfold _tombstone_created_objects. rewrite run_bind. cbn [select gets]. rewrite for_each_archive. do 2 f_equal.
  apply list_fmap_ext. intros i o _. unfold archived_among. erewrite bool_decide_ext; [reflexivity|].
  unfold created_in, members_of. rewrite !list_elem_of_fmap. setoid_rewrite scan_perm. done.
Qed.

Lemma layers_off_trail (s s' : store) : off_trail s s' → t_objects (st_db s') = t_objects (st_db s) ∧
  t_scopes (st_db s') = t_scopes (st_db s) ∧ t_members (st_db s') = t_members (st_db s) ∧
  t_projections (st_db s') = t_projections (st_db s).
Proof. intros [H _]. by injection H. Qed.

(** Dissolving a scope touches no object. *)
Definition same_objects : relation store := λ s s', t_objects (st_db s') = t_objects (st_db s).

#[export] Instance same_objects_preorder : PreOrder same_objects.
Proof. split; [by intros s|]. intros s1 s2 s3 H1 H2. unfold same_objects in *. congruence. Qed.

Lemma archive_scope_objects id by_ : respects same_objects (archive_scope id by_).
Proof.
  unfold archive_scope, get_scope_or_raise, get_scope, fetch_one, select.
  repeat (respects_step || (intros ?s; done)).
  intros s0. apply layers_off_trail, audit_off_trail.
Qed.

(** The scope [sc] is dissolved: archived, without active members and projections. *)
Definition dissolved_scope (sc : string) (t : tables) : Prop :=
  (∀ x, x ∈ t_scopes t → sc_id x = sc → sc_lifecycle x = ARCHIVED) ∧
  (∀ m, m ∈ t_members t → sm_scope m = sc → sm_lifecycle m ≠ ACTIVE) ∧
  (∀ p, p ∈ t_projections t → sp_scope p = sc → sp_lifecycle p ≠ ACTIVE).

Lemma archive_scope_dissolved id by_ s sc s' :
  tenancy_ok (st_db s) → archive_scope id by_ s = (Ok sc, s') → dissolved_scope id (st_db s').
Proof.
  intros Hok H. pose proof (stays_archive id by_ s Hok) as [Hok' _]. rewrite H in Hok'. cbn [snd] in Hok'.
  destruct (archive_scope_dissolves id by_ s (Ok sc) s' Hok H) as (x & Hx & Hid & _ & Hsc & Hscopes & _).
  assert (Har : ∀ y, y ∈ t_scopes (st_db s') → sc_id y = id → sc_lifecycle y = ARCHIVED).
  { intros y Hy Hyid. apply Hscopes in Hy as [->|[_ Hne]]; [by rewrite Hsc|done]. }
  assert (Hin : sc ∈ t_scopes (st_db s')) by (apply Hscopes; by left).
  assert (Hscid : sc_id sc = id) by by rewrite Hsc.
  split_and!; [done| |].
  - intros m Hm Hms. apply (ok_members _ Hok' sc m Hin Hm); [congruence|by apply Har].
  - intros p Hp Hps. apply (ok_projections _ Hok' sc p Hin Hp); [congruence|by apply Har].
Qed.

Lemma tenancy_rows t t' :
  t_scopes t' = t_scopes t → t_members t' = t_members t → t_projections t' = t_projections t →
  tenancy_ok t → tenancy_ok t'.
Proof. intros H1 H2 H3 [T1 T2 T3 T4 T5]. split; by rewrite ?H1, ?H2, ?H3. Qed.

(** *** The whole of a discard *)

(** C21: Discarding an environment.  When discard returns, the caller owned the
    environment, which was COMPLETED or PROMOTED; its row is DISCARDED and all
    other environments are as they were, the container's rows stay, exactly the
    objects created in it are archived (projected ones and all others are
    untouched), and its scope is dissolved: archived, with no active member and
    no active projection left.  When it raises, every environment's row is as
    it was; the one exception is a transition that could not be recorded, which
    leaves the environment DISCARDED with its objects and scopes untouched. *)
Theorem discard_exact e actor s r s' :
  env_ok (st_db s) → tenancy_ok (st_db s) → e ∈ envs_of s → discard (en_id e) actor s = (r, s') →
  match r with
  | Ok e' =>
      e' = in_environment_state DISCARDED e ∧ en_owner e = actor ∧
      (en_state e = COMPLETED ∨ en_state e = PROMOTED) ∧
      envs_of s' = on_env (en_id e) (in_environment_state DISCARDED) (envs_of s) ∧
      members_of s' = members_of s ∧
      t_objects (st_db s') = archived_among (created_in (en_id e) (members_of s)) <$> t_objects (st_db s) ∧
      (∀ sc, en_scope e = Some sc → sc ≠ "" → dissolved_scope sc (st_db s'))
  | Raise _ =>
      envs_of s' = envs_of s ∨
      envs_of s' = on_env (en_id e) (in_environment_state DISCARDED) (envs_of s) ∧
        t_objects (st_db s') = t_objects (st_db s) ∧ t_scopes (st_db s') = t_scopes (st_db s)
  end.
Proof.
  intros Hok Hten He H. pose proof (discard_exits e actor s Hok He) as Hx. rewrite H in Hx. cbn [fst snd] in Hx.
  destruct Hx as [exc|exc s1 Hedge Haud|s1 s2 u Hedge Hown Hoff Hd|s1 s2 exc Hedge Hoff Hd]; clear H.
  - by left.
  - right. pose proof (audit_off_trail (transition_request e DISCARDED actor) (moved (en_id e) DISCARDED s)) as Hoff.
    rewrite Haud in Hoff. cbn [snd] in Hoff. destruct (envs_of_off_trail _ _ Hoff) as (-> & _).
    by destruct (layers_off_trail _ _ Hoff) as (-> & -> & _).
  - split; [done|]. split; [done|]. split.
    { unfold edge in Hedge. destruct (en_state e); cbn in Hedge; set_solver. }
    pose proof (dissolve_layers (en_id e) (in_environment_state DISCARDED e) actor s1) as Hl. rewrite Hd in Hl.
    cbn [snd] in Hl. apply envs_of_layers in Hl as (-> & -> & _).
    destruct (envs_of_off_trail _ _ Hoff) as (He1 & Hm1 & _). destruct (layers_off_trail _ _ Hoff) as (Ho1 & Hs1 & Hme1 & Hp1).
    split; [by rewrite He1|]. split; [by rewrite Hm1|].
    unfold dissolve_env in Hd. rewrite run_bind, tombstone_run, Hm1, Ho1 in Hd. cbn [en_scope in_environment_state set_environment] in Hd.
    assert (Hten1 : tenancy_ok (st_db s1)) by (apply (tenancy_rows (st_db s)); done).
    destruct (given_str (en_scope e)) eqn:Hgiven.
    + apply bind_ok_inv in Hd as (sc & s3 & Harch & Hd). apply mret_ok in Hd as [_ ->].
      pose proof (archive_scope_objects (default "" (en_scope e)) actor
        (with_objects (archived_among (created_in (en_id e) (members_of (moved (en_id e) DISCARDED s))) <$>
           t_objects (st_db (moved (en_id e) DISCARDED s))) s1)) as Hobj. rewrite Harch in Hobj. cbn [snd] in Hobj.
      split; [exact Hobj|]. intros sc' Hsc' _. rewrite Hsc' in Harch. cbn [default from_option] in Harch.
      eapply archive_scope_dissolved; [|exact Harch]. by apply (tenancy_rows (st_db s1)).
    + apply mret_ok in Hd as [_ ->]. split; [done|]. intros sc' Hsc' Hne. rewrite Hsc' in Hgiven. cbn in Hgiven.
      by rewrite bool_decide_eq_false_2 in Hgiven.
  - left. pose proof (dissolve_layers (en_id e) (in_environment_state DISCARDED e) actor s1) as Hl. rewrite Hd in Hl.
    cbn [snd] in Hl. apply envs_of_layers in Hl as (H1 & _). apply envs_of_off_trail in Hoff as (O1 & _).
    change (on_env (en_id e) (in_environment_state (en_state e)) (envs_of s2) = envs_of s). rewrite H1, O1.
    apply on_env_moved; [apply Hok|done].
Qed.
End Discard.

(** ** Promoting *)

Section Promote.
Context `{host : !Host} `{sink : !AuditSink}.

(** The rows that [promote] walks over. *)
Definition candidates (id : string) (s : store) : list EnvironmentObject :=
  scan (filter (λ x, of_env id x && of_origin CREATED x = true) (members_of s)).

Definition promote_all (p : Promoter) (id actor scope : string) (stage : option string) (level : option AccessLevel)
  (l : list EnvironmentObject) : lp unit :=
  for_each l (λ x, promote_object (Promoter := p) (eo_object x) id scope actor stage level).

Lemma promote_all_apart p id actor scope stage level l : respects same_envs (promote_all p id actor scope stage level l).
Proof. unfold promote_all. respects_step. apply promote_object_apart. Qed.

(** Promoting an environment into a scope, on every exit.  A caller who does
    not own it promotes nothing.  For the owner every object created in the
    environment is promoted, in the database's order, up to the first failure,
    which is the result; only when all of them went through is the state of the
    environment looked at: a COMPLETED one becomes PROMOTED, and any other
    raises with its objects promoted all the same. *)
Theorem promote_exact p e actor scope stage level s :
  env_ok (st_db s) → e ∈ envs_of s →
  promote (Some p) (en_id e) actor (Some scope) stage level s =
    if negb (bool_decide (en_owner e = actor)) then (Raise (not_owner (en_id e) actor), s)
    else match promote_all p (en_id e) actor scope stage level (candidates (en_id e) s) s with
         | (Raise exc, s1) => (Raise exc, s1)
         | (Ok _, s1) =>
             if bool_decide (en_state e = COMPLETED)
             then (audit (transition_request e PROMOTED actor) ;; mret (in_environment_state PROMOTED e))
                    (moved (en_id e) PROMOTED s1)
             else (Raise (EnvironmentStateError ("Cannot transition from '" +:+ env_state_value (en_state e) +:+
                     "' to '" +:+ env_state_value PROMOTED +:+ "'")), s1)
         end.
Proof.
  intros Hok He. unfold promote. rewrite run_bind. unfold promote_created.
  rewrite run_bind, (get_env_or_raise_run e s Hok He), run_bind. unfold require_env_owner.
  destruct (bool_decide (en_owner e = actor)) eqn:Hown; [|done]. cbn [negb raise_if mret prog_ret].
  rewrite run_bind. unfold select, gets. pose proof (promote_all_apart p (en_id e) actor scope stage level (candidates (en_id e) s) s) as Hapart.
  change (for_each _ _) with (promote_all p (en_id e) actor scope stage level (candidates (en_id e) s)).
  destruct (promote_all _ _ _ _ _ _ _ s) as [[u|exc] s1]; [|done]. cbn [snd] in Hapart.
  assert (Hok1 : env_ok (st_db s1)).
  { destruct Hok as [A1 A2 A7 A3 A4 A5 A6]. unfold same_envs in Hapart. split; unfold e_table; by rewrite Hapart. }
  assert (He1 : e ∈ envs_of s1) by (unfold envs_of, e_table; by rewrite Hapart).
  rewrite (transition_run e PROMOTED actor s1 Hok1 He1), Hown. cbn [negb]. unfold can_transition_to.
  rewrite (bool_decide_ext (PROMOTED ∈ _) (en_state e = COMPLETED)).
  - by destruct (bool_decide (en_state e = COMPLETED)).
  - destruct (en_state e); cbn; set_solver.
Qed.

(** An environment whose scope was dissolved before cannot be discarded. *)
Theorem discard_needs_open_scope e actor sc s r s' :
  env_ok (st_db s) → e ∈ envs_of s → en_scope e = Some sc → sc ≠ "" →
  (∀ x, x ∈ t_scopes (st_db s) → sc_id x = sc → sc_lifecycle x = ARCHIVED) →
  discard (en_id e) actor s = (r, s') → is_ok r = false.
Proof.
  intros Hok He Hsc Hne Har H. pose proof (discard_exits e actor s Hok He) as Hx. rewrite H in Hx. cbn [fst snd] in Hx.
  destruct Hx as [exc|exc s1 Hedge Haud|s1 s2 u Hedge Hown Hoff Hd|s1 s2 exc Hedge Hoff Hd]; try done.
  destruct (layers_off_trail _ _ Hoff) as (_ & Hs1 & _).
  unfold dissolve_env in Hd. rewrite run_bind, tombstone_run in Hd. cbn [en_scope in_environment_state set_environment] in Hd.
  rewrite Hsc in Hd. cbn [given_str from_option default] in Hd. rewrite bool_decide_eq_false_2 in Hd by done. cbn [negb] in Hd.
  apply bind_ok_inv in Hd as (x & s3 & Harch & _). unfold archive_scope in Harch.
  apply bind_ok_inv in Harch as (y & s4 & Hget & Harch). apply get_scope_or_raise_ok in Hget as (-> & Hy & Hyid).
  apply bind_ok_inv in Harch as ([] & s4 & Hraise & _). apply raise_if_ok in Hraise as [Hraise _].
  cbn in Hy. rewrite Hs1 in Hy. apply bool_decide_eq_false_1 in Hraise. destruct Hraise. by apply Har.
Qed.
End Promote.

(** ** Snapshots: capture and restore *)

Section Capture.
Context `{host : !Host} `{sink : !AuditSink}.

Lemma collect_version_ok acc x s r s' :
  collect_version acc x s = (Ok r, s') →
  s' = s ∧ ∃ o, r = acc ++ option_list o ∧
    match o with
    | Some v => v ∈ t_object_versions (st_db s) ∧ current_row (t_objects (st_db s)) (eo_object x) v = true
    | None => ∀ v, v ∈ t_object_versions (st_db s) → current_row (t_objects (st_db s)) (eo_object x) v = false
    end.
Proof.
  unfold collect_version. intros H. apply bind_ok_inv in H as (os & s1 & [-> ->]%gets_ok & H).
  apply bind_ok_inv in H as (o & s1 & [-> Ho]%fetch_one_ok & H). apply mret_ok in H as [-> ->]. split; [done|]. by exists o.
Qed.

(** The version of an object that its pointer names. *)
Definition is_current (t : tables) (object : string) (v : ObjectVersion) : Prop :=
  v ∈ t_object_versions t ∧ current_row (t_objects t) object v = true.

Lemma collect_versions_ok l acc s r s' :
  for_fold l acc collect_version s = (Ok r, s') →
  s' = s ∧ (∀ v, v ∈ acc → v ∈ r) ∧
  (∀ v, v ∈ r → v ∈ acc ∨ ∃ x, x ∈ l ∧ is_current (st_db s) (eo_object x) v) ∧
  (∀ x v, x ∈ l → is_current (st_db s) (eo_object x) v → ∃ v', v' ∈ r ∧ is_current (st_db s) (eo_object x) v').
Proof.
  revert acc. induction l as [|x l IH]; intros acc H; cbn [for_fold] in H.
  { apply mret_ok in H as [-> ->]. split_and!; [done..|by left|]. by intros x v ?%elem_of_nil. }
  apply bind_ok_inv in H as (acc' & s1 & (-> & o & -> & Ho)%collect_version_ok & H).
  destruct (IH _ H) as (-> & H1 & H2 & H3). split; [done|]. split; [|split].
  - intros v Hv. apply H1, elem_of_app. by left.
  - intros v Hv. destruct (H2 v Hv) as [Ha|(y & Hy & Hc)]; [|right; exists y; split; [by right|done]].
    apply elem_of_app in Ha as [Ha|Ha]; [by left|]. right. exists x. split; [left|].
    destruct o as [w|]; [|by apply elem_of_nil in Ha]. apply list_elem_of_singleton in Ha as ->. done.
  - intros y v Hy Hc. apply elem_of_cons in Hy as [->|Hy]; [|by eapply H3]. destruct o as [w|].
    + exists w. split; [apply H1, elem_of_app; right; by left|done].
    + destruct Hc as [Hv Hc]. by rewrite (Ho v Hv) in Hc.
Qed.

Lemma collect_state_ok e s d s' :
  env_ok (st_db s) → e ∈ envs_of s → _collect_state (en_id e) s = (Ok d, s') →
  snap_env d = Some e ∧
  (∀ x, x ∈ snap_objects d ↔ x ∈ members_of s ∧ eo_env x = en_id e) ∧
  (∀ v, v ∈ snap_versions d → ∃ x, x ∈ snap_objects d ∧ is_current (st_db s) (eo_object x) v) ∧
  (∀ x v, x ∈ snap_objects d → is_current (st_db s) (eo_object x) v →
    ∃ v', v' ∈ snap_versions d ∧ is_current (st_db s) (eo_object x) v').
Proof.
  intros Hok He H. unfold _collect_state in H. rewrite run_bind, (get_env_run e s Hok He) in H.
  apply bind_ok_inv in H as (objects & s1 & [-> Hobj]%select_elem & H).
  apply bind_ok_inv in H as (versions & s1 & (-> & _ & H2 & H3)%collect_versions_ok & H).
  apply bind_ok_inv in H as (ms & s1 & _ & H). apply mret_ok in H as [-> _]. cbn. split; [done|]. split; [|split; [|done]].
  - intros x. rewrite Hobj. unfold of_env. by rewrite bool_decide_eq_true.
  - intros v Hv. destruct (H2 v Hv) as [?%elem_of_nil|?]; [done|done].
Qed.

Lemma capture_ok env by_ name s snap s' :
  env_ok (st_db s) → capture env by_ name s = (Ok snap, s') →
  ∃ e, e ∈ envs_of s ∧ en_id e = env ∧ en_owner e = by_ ∧ es_env snap = env ∧ snap ∈ snapshots_of s' ∧
    members_of s' = members_of s ∧ t_objects (st_db s') = t_objects (st_db s) ∧ snap_env (es_data snap) = Some e ∧
    (∀ x, x ∈ snap_objects (es_data snap) ↔ x ∈ members_of s ∧ eo_env x = env) ∧
    (∀ v, v ∈ snap_versions (es_data snap) → ∃ x, x ∈ snap_objects (es_data snap) ∧ is_current (st_db s) (eo_object x) v) ∧
    (∀ x v, x ∈ snap_objects (es_data snap) → is_current (st_db s) (eo_object x) v →
      ∃ v', v' ∈ snap_versions (es_data snap) ∧ is_current (st_db s) (eo_object x) v').
Proof.
  intros Hok H. unfold capture in H. apply bind_ok_inv in H as (found & s1 & [-> Hfound]%fetch_one_ok & H).
  apply bind_ok_inv in H as (u & s1 & Hgate & H).
  assert (s1 = s) as -> by (pose proof (snapshot_gate_reads found env by_ s) as Hr; by rewrite Hgate in Hr).
  apply bind_ok_inv in H as (ts & s1 & [-> ->]%now_utc_ok & H). apply bind_ok_inv in H as (id & s1 & [-> ->]%generate_id_ok & H).
  apply bind_ok_inv in H as (d & s1 & Hcol & H). cbv zeta in H.
  pose proof (collect_state_reads env (put_next (S (st_next s)) s)) as Hr. rewrite Hcol in Hr. cbn [snd] in Hr. subst s1.
  apply bind_ok_inv in H as (v & s1 & Hins & H). unfold insert_snapshot in Hins.
  apply bind_ok_inv in Hins as (w & s2 & Hreq & Hins). pose proof (env_exists _ _ _ _ _ Hreq) as Hex.
  apply require_row_ok in Hreq as [-> _]. apply sql_insert_ok in Hins as [_ ->].
  apply bind_ok_inv in H as (x & s2 & Haud & H). apply mret_ok in H as [-> ->]. apply audit_ok, quiet_off_trail in Haud.
  cbn [es_env] in Hex. apply list_elem_of_fmap in Hex as (e & -> & He). change (e ∈ envs_of s) in He. exists e.
  destruct found as [e'|]; [|by specialize (Hfound e He); apply bool_decide_eq_false_1 in Hfound].
  destruct Hfound as [He' Hid%bool_decide_eq_true_1]. rewrite (env_keyed (st_db s) e' e Hok He' He Hid) in Hgate.
  destruct u. apply raise_if_ok in Hgate as [Hown%negb_false_iff%bool_decide_eq_true_1 _].
  destruct (envs_of_off_trail _ _ Haud) as (_ & Hm & Hs). destruct (layers_off_trail _ _ Haud) as (Ho & _).
  destruct (collect_state_ok e (put_next (S (st_next s)) s) d _ Hok He Hcol) as (C1 & C2 & C3 & C4).
  split_and!; try done. rewrite Hs. unfold snapshots_of, e_table. cbn. apply elem_of_app. right. by left.
Qed.
End Capture.

Section Restore.
Context `{host : !Host} `{sink : !AuditSink}.

(** An object whose pointer is reset by the versions of a snapshot, in order. *)
Definition repoint1 (o : ScopedObject) (v : ObjectVersion) : ScopedObject :=
  if by_object (ov_object v) o then at_version (ov_version v) o else o.
Definition repoint (vs : list ObjectVersion) (o : ScopedObject) : ScopedObject := foldl repoint1 o vs.

Lemma repoint1_id o v : so_id (repoint1 o v) = so_id o.
Proof. unfold repoint1. by destruct (by_object (ov_object v) o). Qed.

Lemma repoint_cons v vs o : repoint (v :: vs) o = repoint vs (repoint1 o v).
Proof. done. Qed.

Lemma restore_pointers_run vs s :
  for_each vs restore_pointer s = (Ok tt, with_objects (repoint vs <$> t_objects (st_db s)) s).
Proof.
  revert s. induction vs as [|v vs IH]; intros s; cbn [for_each].
  - rewrite (list_fmap_ext _ id), list_fmap_id; [by rewrite store_with_objects|done].
  - rewrite run_bind. unfold restore_pointer at 1, sql_update, modify. cbv beta iota. rewrite IH.
    apply (f_equal (λ l, (Ok tt, with_objects l s))). cbn. by rewrite <-list_fmap_compose.
Qed.

Lemma repoint_id vs o : so_id (repoint vs o) = so_id o.
Proof.
  revert o. induction vs as [|v vs IH]; intros o; [done|]. by rewrite repoint_cons, IH, repoint1_id.
Qed.

Lemma repoint_other vs o : (∀ v, v ∈ vs → ov_object v ≠ so_id o) → repoint vs o = o.
Proof.
  intros H. apply foldl_fixed. intros v Hv. unfold repoint1, by_object. rewrite bool_decide_eq_false_2; [done|].
  intros Heq. by apply (H v Hv).
Qed.

(** All versions of the object name one number: that is where it points. *)
Lemma repoint_version vs n o :
  (∀ v, v ∈ vs → ov_object v = so_id o → ov_version v = n) → (∃ v, v ∈ vs ∧ ov_object v = so_id o) →
  so_version (repoint vs o) = n.
Proof.
  revert o. induction vs as [|v vs IH]; intros o Hall (w & Hw & Hwo); [by apply elem_of_nil in Hw|].
  rewrite repoint_cons. pose proof (repoint1_id o v) as Hid.
  destruct (existsb (λ u, bool_decide (ov_object u = so_id o)) vs) eqn:Hex.
  - apply existsb_exists in Hex as (u & Hu & Huo%bool_decide_eq_true_1). apply IH; rewrite Hid.
    + intros x Hx. apply Hall. by right.
    + exists u. split; [by rewrite list_elem_of_In|done].
  - assert (Hnone : ∀ u, u ∈ vs → ov_object u ≠ so_id o).
    { intros u Hu Huo.
      assert (existsb (λ u, bool_decide (ov_object u = so_id o)) vs = true); [|congruence].
      apply existsb_exists. exists u. rewrite <-list_elem_of_In. split; [done|by apply bool_decide_eq_true_2]. }
    rewrite repoint_other by by rewrite Hid. apply elem_of_cons in Hw as [->|Hw]; [|by destruct (Hnone w Hw)].
    unfold repoint1, by_object. rewrite bool_decide_eq_true_2 by done. apply Hall; [left|done].
Qed.

Definition with_members (l : list EnvironmentObject) (s : store) : store := put_db (set_env_objects l (st_db s)) s.

Lemma store_with_members s : with_members (members_of s) s = s.
Proof. destruct s as [[? ? ? ? ? ? ? ? ? ? ? ? [? [] ?]] ? ? ? ? ? ?]. done. Qed.

Lemma remove_rows_run l s :
  for_each l remove_row s =
    (Ok tt, with_members (filter (λ y, bool_decide (eo_id y ∈ eo_id <$> l) = false) (members_of s)) s).
Proof.
  revert s. induction l as [|x l IH]; intros s; cbn [for_each].
  - rewrite (proj2 (filter_all_iff _ _)), store_with_members; [done|]. intros y _. by apply bool_decide_eq_false_2, not_elem_of_nil.
  - rewrite run_bind. unfold remove_row at 1, sql_delete, modify. cbv beta iota. rewrite IH.
    apply (f_equal (λ l, (Ok tt, with_members l s))). cbn. rewrite list_filter_filter. apply list_filter_iff.
    intros y. rewrite !bool_decide_eq_false, elem_of_cons. naive_solver.
Qed.

Lemma add_back_ok d env ids s u s' :
  for_each ids (add_back d env) s = (Ok u, s') →
  ∃ new, members_of s' = members_of s ++ new ∧ eo_object <$> new = ids ∧
    (∀ y, y ∈ new → eo_env y = env ∧ ∃ x, x ∈ snap_objects d ∧ eo_object x = eo_object y ∧
      eo_origin y = eo_origin x ∧ eo_added_at y = eo_added_at x) ∧
    t_objects (st_db s') = t_objects (st_db s).
Proof.
  revert s. induction ids as [|id ids IH]; intros s H; cbn [for_each] in H.
  { apply mret_ok in H as [_ ->]. exists []. rewrite app_nil_r. split_and!; [done..| |done]. by intros y ?%elem_of_nil. }
  apply bind_ok_inv in H as (v & s1 & Hadd & H). unfold add_back in Hadd.
  destruct (snap_object d id) as [x|] eqn:Hx; [|discriminate Hadd].
  apply find_Some_elem in Hx as [Hx Hxid%bool_decide_eq_true_1]. rewrite elem_of_reverse in Hx.
  apply bind_ok_inv in Hadd as (i & s2 & [-> ->]%generate_id_ok & Hadd). unfold insert_env_object in Hadd.
  apply bind_ok_inv in Hadd as (w1 & s2 & [-> _]%require_row_ok & Hadd).
  apply bind_ok_inv in Hadd as (w2 & s2 & [-> _]%require_row_ok & Hadd). apply sql_insert_ok in Hadd as [_ ->].
  destruct (IH _ H) as (new & Hm & Hids & Hnew & Ho). rewrite Hm, Ho.
  eexists (_ :: new). split; [unfold members_of, e_table; cbn; by rewrite <-app_assoc|].
  split; [by rewrite fmap_cons, Hids|]. split; [|done]. intros y [->|Hy]%elem_of_cons; [|by apply Hnew].
  cbn. split; [done|]. by exists x.
Qed.

(** What the three loops of a restore leave. *)
Lemma restore_state_ok env d s u s' :
  NoDup (eo_id <$> members_of s) → restore_state env d s = (Ok u, s') →
  t_objects (st_db s') = repoint (snap_versions d) <$> t_objects (st_db s) ∧
  (∀ o, (∃ y, y ∈ members_of s' ∧ eo_env y = env ∧ eo_object y = o) ↔ ∃ x, x ∈ snap_objects d ∧ eo_object x = o) ∧
  (∀ y, eo_env y ≠ env → y ∈ members_of s' ↔ y ∈ members_of s) ∧
  (∀ y, y ∈ members_of s' → y ∈ members_of s ∨
    ∃ x, x ∈ snap_objects d ∧ eo_object x = eo_object y ∧ eo_origin y = eo_origin x ∧ eo_added_at y = eo_added_at x).
Proof.
  intros Hnd H. unfold restore_state in H. rewrite run_bind, restore_pointers_run in H. cbn iota in H.
  apply bind_ok_inv in H as (current & s1 & [-> Hcur]%select_elem & H).
  change (e_table e_objects _) with (members_of s) in Hcur.
  rewrite run_bind, remove_rows_run in H. cbn iota in H. apply add_back_ok in H as (new & Hm & Hids & Hnew & Ho).
  set (gone := filter (λ x, eo_object x ∉ id_set (snap_objects d)) current) in *.
  set (fresh := filter (λ id, id ∉ eo_object <$> current) (id_set (snap_objects d))) in *.
  assert (Hset : ∀ o, o ∈ id_set (snap_objects d) ↔ ∃ x, x ∈ snap_objects d ∧ eo_object x = o).
  { intros o. unfold id_set. rewrite scan_perm, elem_of_remove_dups, list_elem_of_fmap. naive_solver. }
  assert (Hgone : ∀ y, y ∈ members_of s → eo_id y ∈ eo_id <$> gone ↔ y ∈ gone).
  { intros y Hy. split; [|by apply list_elem_of_fmap_2]. intros (x & Hid & Hx)%list_elem_of_fmap.
    assert (x ∈ members_of s) as Hxm by (apply list_elem_of_filter in Hx as [_ Hx]; by apply Hcur in Hx as [Hx _]).
    by rewrite (NoDup_fmap_inj_in _ _ y x Hnd Hy Hxm Hid). }
  assert (Hin : ∀ y, y ∈ members_of s' ↔ (y ∈ members_of s ∧ y ∉ gone) ∨ y ∈ new).
  { intros y. rewrite Hm, elem_of_app. unfold with_members, members_of at 1, e_table. cbn.
    rewrite list_elem_of_filter, bool_decide_eq_false. change (e_objects (envs (st_db s))) with (members_of s).
    split; (intros [Hl|?]; [left|by right]).
    - destruct Hl as [Hn Hy]. by rewrite (Hgone y Hy) in Hn.
    - destruct Hl as [Hy Hn]. split; [by rewrite (Hgone y Hy)|done]. }
  assert (Hof : ∀ y, y ∈ current ↔ y ∈ members_of s ∧ eo_env y = env).
  { intros y. rewrite Hcur. unfold of_env. by rewrite bool_decide_eq_true. }
  split; [by rewrite Ho|]. split; [|split].
  - intros o. rewrite <-Hset. split.
    + intros (y & Hy & He & <-). apply Hin in Hy as [[Hy Hn]|Hy].
      * destruct (decide (eo_object y ∈ id_set (snap_objects d))) as [?|Hno]; [done|]. destruct Hn.
        apply list_elem_of_filter. split; [done|by apply Hof].
      * apply (list_elem_of_fmap_2 eo_object) in Hy. rewrite Hids in Hy. by apply list_elem_of_filter in Hy as [_ ?].
    + intros Hos. destruct (decide (o ∈ eo_object <$> current)) as [(y & -> & Hy)%list_elem_of_fmap|Hno].
      * exists y. split; [|by apply Hof in Hy as [_ ?]]. apply Hin. left. split; [by apply Hof in Hy as [? _]|].
        by intros [? _]%list_elem_of_filter.
      * assert (Hof' : o ∈ fresh) by (by apply list_elem_of_filter). rewrite <-Hids in Hof'.
        apply list_elem_of_fmap in Hof' as (y & -> & Hy). exists y. split; [apply Hin; by right|].
        split; [by apply Hnew|done].
  - intros y Hne. rewrite Hin. split; [intros [[? _]|Hy]; [done|by destruct (Hnew y Hy)]|].
    intros Hy. left. split; [done|]. intros [_ Hc]%list_elem_of_filter. by apply Hof in Hc as [_ ?].
  - intros y Hy. apply Hin in Hy as [[? _]|Hy]; [by left|right]. by destruct (Hnew y Hy) as [_ ?].
Qed.

Definition holds (env object : string) (s : store) : Prop :=
  ∃ y, y ∈ members_of s ∧ eo_env y = env ∧ eo_object y = object.

Lemma is_current_version t object v o :
  NoDup (so_id <$> t_objects t) → is_current t object v → o ∈ t_objects t → so_id o = object →
  ov_object v = object ∧ ov_version v = so_version o.
Proof.
  intros Hnd [Hv [Hobj%bool_decide_eq_true_1 Hex]%andb_true_iff] Ho Hid. split; [done|].
  apply existsb_exists in Hex as (x & Hx & [Hxid%bool_decide_eq_true_1 Hxv%bool_decide_eq_true_1]%andb_true_iff).
  rewrite <-list_elem_of_In in Hx. rewrite <-Hxv. by rewrite (NoDup_fmap_inj_in _ _ x o Hnd Hx Ho) by congruence.
Qed.

Lemma restore_snapshot_ok id by_ s snap s' :
  restore_snapshot id by_ s = (Ok snap, s') →
  snap ∈ snapshots_of s ∧ es_id snap = id ∧ es_checksum snap = compute_snapshot_checksum (es_data snap) ∧
  (∀ e, env_ok (st_db s) → e ∈ envs_of s → en_id e = es_env snap → en_owner e = by_) ∧
  ∃ u s1, restore_state (es_env snap) (es_data snap) s = (Ok u, s1) ∧ off_trail s1 s'.
Proof.
  unfold restore_snapshot. intros H. apply bind_ok_inv in H as (found & s1 & Hget & H). pose proof Hget as Hget'.
  apply fetch_one_ok in Hget as [-> Hf]. destruct found as [x|]; [|discriminate H]. destruct Hf as [Hx Hid%bool_decide_eq_true_1].
  apply bind_ok_inv in H as (valid & s1 & Hver & H). unfold verify_snapshot in Hver.
  apply bind_ok_inv in Hver as (o & s2 & Hget2 & Hver). unfold get_snapshot in Hget2, Hget'. rewrite Hget' in Hget2.
  injection Hget2 as <- <-. apply mret_ok in Hver as [-> ->].
  apply bind_ok_inv in H as ([] & s1 & [Hsum%negb_false_iff%bool_decide_eq_true_1 ->]%raise_if_ok & H).
  apply bind_ok_inv in H as (env & s1 & [-> Henv]%fetch_one_ok & H).
  apply bind_ok_inv in H as (u & s1 & Hgate & H).
  assert (s1 = s) as -> by (pose proof (snapshot_gate_reads env (es_env x) by_ s) as Hr; by rewrite Hgate in Hr).
  apply bind_ok_inv in H as (v & s1 & Hrs & H). apply bind_ok_inv in H as (w & s2 & Haud & H). apply mret_ok in H as [-> ->].
  apply audit_ok, quiet_off_trail in Haud. split_and!; try done; [|by exists v, s1].
  intros e Hok He Heid. destruct env as [e'|]; [|by specialize (Henv e He); apply bool_decide_eq_false_1 in Henv].
  destruct Henv as [He' Hid'%bool_decide_eq_true_1]. rewrite (env_keyed (st_db s) e' e Hok He' He) in Hgate by congruence.
  destruct u. by apply raise_if_ok in Hgate as [Hown%negb_false_iff%bool_decide_eq_true_1 _].
Qed.

(** C22: The round trip of a snapshot.  Capture an environment in a store [s],
    let anything happen, and restore that snapshot in a later store [s2] that
    still has it: whatever was added to the environment, removed from it or
    written to its objects in between, the restored environment holds exactly
    the objects it held at the capture, and every one of them that had a current
    version points to that version again.  Other environments' contents, all
    environments' rows and all objects outside the snapshot are as in [s2]. *)
Theorem capture_restore env by_ name s snap s1 s2 by2 snap' s3 :
  env_ok (st_db s) → NoDup (so_id <$> t_objects (st_db s)) → capture env by_ name s = (Ok snap, s1) →
  env_ok (st_db s2) → snap ∈ snapshots_of s2 → restore_snapshot (es_id snap) by2 s2 = (Ok snap', s3) →
  snap' = snap ∧
  (∀ object, holds env object s3 ↔ holds env object s) ∧
  (∀ o v, o ∈ t_objects (st_db s) → holds env (so_id o) s → is_current (st_db s) (so_id o) v →
    ∀ o', o' ∈ t_objects (st_db s3) → so_id o' = so_id o → so_version o' = so_version o) ∧
  (∀ o, o ∈ t_objects (st_db s2) → ¬ holds env (so_id o) s → o ∈ t_objects (st_db s3)) ∧
  (∀ y, eo_env y ≠ env → y ∈ members_of s3 ↔ y ∈ members_of s2).
Proof.
  intros Hok Hnd Hcap Hok2 Hsnap Hres.
  destruct (capture_ok _ _ _ _ _ _ Hok Hcap) as (e & He & Hid & Hown & Hsenv & _ & _ & _ & _ & Hobjs & Hvs & Hall).
  destruct (restore_snapshot_ok _ _ _ _ _ Hres) as (Hin & Hsid & _ & _ & u & s4 & Hstate & Hoff).
  assert (snap' = snap) as -> by (apply (NoDup_fmap_inj_in es_id _ _ _ (ok_snapshots _ Hok2) Hin Hsnap Hsid)).
  destruct (restore_state_ok _ _ _ _ _ (ok_member_ids _ Hok2) Hstate) as (Hptr & Hin3 & Hother & _).
  destruct (envs_of_off_trail _ _ Hoff) as (_ & Hm & _). destruct (layers_off_trail _ _ Hoff) as (Ho & _).
  rewrite Hsenv in Hin3, Hother. unfold holds. rewrite Hm, Ho, Hptr. clear Hm Ho.
  assert (Hver : ∀ o, o ∈ t_objects (st_db s) → ∀ w, w ∈ snap_versions (es_data snap) → ov_object w = so_id o →
    ov_version w = so_version o).
  { intros o Ho w Hw Hwo. destruct (Hvs w Hw) as (x & _ & Hc). pose proof Hc as [_ [Hox%bool_decide_eq_true_1 _]%andb_true_iff].
    by apply (is_current_version _ _ _ o Hnd Hc Ho); congruence. }
  split; [done|]. split; [|split; [|split; [|done]]].
  - intros object. rewrite Hin3. setoid_rewrite Hobjs. naive_solver.
  - intros o v Ho (y & Hy & Hye & Hyo) Hc o' (x & -> & Hx)%list_elem_of_fmap. rewrite repoint_id. intros Hxo.
    apply repoint_version; rewrite Hxo; [by apply Hver|].
    destruct (Hall y v) as (w & Hw & Hcw); [by apply Hobjs|by rewrite Hyo|]. exists w. split; [done|]. rewrite Hyo in Hcw.
    by destruct (is_current_version _ _ _ o Hnd Hcw Ho eq_refl).
  - intros o Ho Hno. apply list_elem_of_fmap. exists o. split; [|done]. symmetry. apply repoint_other.
    intros w Hw Hwo. destruct (Hvs w Hw) as (x & Hx & [_ [Hox%bool_decide_eq_true_1 _]%andb_true_iff]). apply Hno.
    apply Hobjs in Hx as [Hx Hxe]. exists x. split_and!; [done..|congruence].
Qed.
End Restore.

(** ** Retention of snapshots *)

Section Retention.
Context `{host : !Host} `{sink : !AuditSink}.

Definition with_snapshots (l : list EnvironmentSnapshot) (s : store) : store := put_db (set_snapshots l (st_db s)) s.

Lemma store_with_snapshots s : with_snapshots (snapshots_of s) s = s.
Proof. destruct s as [[? ? ? ? ? ? ? ? ? ? ? ? [? [] ?]] ? ? ? ? ? ?]. done. Qed.

Lemma delete_snapshots_run l s :
  for_each l (λ x, sql_delete (e_table e_snapshots) set_snapshots (by_snapshot (es_id x))) s =
    (Ok tt, with_snapshots (filter (λ y, bool_decide (es_id y ∈ es_id <$> l) = false) (snapshots_of s)) s).
Proof.
  revert s. induction l as [|x l IH]; intros s; cbn [for_each].
  - rewrite (proj2 (filter_all_iff _ _)), store_with_snapshots; [done|]. intros y _. by apply bool_decide_eq_false_2, not_elem_of_nil.
  - rewrite run_bind. unfold sql_delete at 1, modify. cbv beta iota. rewrite IH.
    apply (f_equal (λ l, (Ok tt, with_snapshots l s))). cbn. rewrite list_filter_filter. apply list_filter_iff.
    intros y. unfold by_snapshot. rewrite !bool_decide_eq_false, elem_of_cons. naive_solver.
Qed.

(** The snapshots of an environment, newest first. *)
Definition newest_first (env : string) (s : store) : list EnvironmentSnapshot :=
  sort_by newest_snapshot (scan (filter (λ x, snapshot_of env x = true) (snapshots_of s))).

Lemma newest_first_elem env s x : x ∈ newest_first env s ↔ x ∈ snapshots_of s ∧ es_env x = env.
Proof.
  unfold newest_first. rewrite elem_of_sort_by, scan_perm, list_elem_of_filter. unfold snapshot_of.
  rewrite bool_decide_eq_true. naive_solver.
Qed.

Lemma newest_first_sorted env s : StronglySorted (leb_rel newest_snapshot) (newest_first env s).
Proof.
  apply sort_by_sorted; unfold newest_snapshot.
  - intros x y. rewrite !Z.leb_le. lia.
  - intros x y z. rewrite !Z.leb_le. lia.
Qed.

Lemma newest_first_NoDup env s : NoDup (es_id <$> snapshots_of s) → NoDup (newest_first env s).
Proof.
  intros H. unfold newest_first. rewrite sort_by_perm, scan_perm. by apply NoDup_filter, (NoDup_fmap_1 es_id).
Qed.

(** Keep the newest [n] of the environment. *)
Lemma delete_excess_snapshots_ok env n s u s' :
  NoDup (es_id <$> snapshots_of s) → delete_excess_snapshots env (Some n) s = (Ok u, s') →
  (∀ x, x ∈ snapshots_of s' ↔ x ∈ snapshots_of s ∧ (es_env x = env → x ∈ take n (newest_first env s))) ∧
  NoDup (es_id <$> snapshots_of s').
Proof.
  intros Hnd H. unfold delete_excess_snapshots in H. rewrite run_bind in H. cbn [select_sorted gets] in H.
  change (sort_by newest_snapshot _) with (newest_first env s) in H.
  assert (Htd : ∀ x, x ∈ newest_first env s ↔ x ∈ take n (newest_first env s) ∨ x ∈ drop n (newest_first env s)).
  { intros x. rewrite <-(take_drop n (newest_first env s)) at 1. apply elem_of_app. }
  destruct (drop n (newest_first env s)) as [|z zs] eqn:Hdrop.
  - apply mret_ok in H as [_ ->]. split; [|done]. intros x. split; [|by intros [? _]]. intros Hx. split; [done|]. intros He.
    destruct (proj1 (Htd x)) as [?|?%elem_of_nil]; [by apply newest_first_elem|done|done].
  - rewrite run_bind in H. cbn [select_sorted gets] in H. change (sort_by newest_snapshot _) with (newest_first env s) in H.
    apply bind_ok_inv in H as (rows & s1 & [-> Hrows]%select_elem & H). rewrite delete_snapshots_run in H. injection H as _ <-.
    change (e_table e_snapshots (st_db s)) with (snapshots_of s) in Hrows.
    assert (Hkey : ∀ x y, x ∈ snapshots_of s → y ∈ snapshots_of s → es_id x = es_id y → x = y)
      by (intros x y; by apply NoDup_fmap_inj_in).
    assert (Hkeep : ∀ x, x ∈ snapshots_of s → es_id x ∈ es_id <$> take n (newest_first env s) ↔ x ∈ take n (newest_first env s)).
    { intros x Hx. split; [|by apply list_elem_of_fmap_2]. intros (y & Hid & Hy)%list_elem_of_fmap.
      rewrite (Hkey x y Hx); [done| |done]. apply (newest_first_elem env). apply Htd. by left. }
    unfold with_snapshots, snapshots_of at 1 3, e_table. cbn [st_db put_db set_snapshots envs]. cbn.
    change (e_snapshots (y_env (t_layers (st_db s)))) with (snapshots_of s). split; [|by apply NoDup_fmap_filter].
    intros x. rewrite list_elem_of_filter, bool_decide_eq_false. split.
    + intros [Hn Hx]. split; [done|]. intros He. apply Hkeep; [done|].
      destruct (decide (es_id x ∈ es_id <$> take n (newest_first env s))) as [?|Hno]; [done|]. destruct Hn.
      apply list_elem_of_fmap_2, list_elem_of_filter. split; [done|]. apply Hrows. split; [done|by apply bool_decide_eq_true_2].
    + intros [Hx Ht]. split; [|done]. intros (y & Hid & Hy)%list_elem_of_fmap. apply list_elem_of_filter in Hy as [Hn Hy].
      apply Hrows in Hy as [Hy He%bool_decide_eq_true_1]. rewrite (Hkey x y Hx Hy Hid) in *. apply Hn, Hkeep; [done|by apply Ht].
Qed.

Lemma take_drop_sorted {X} (R : X → X → Prop) n (l : list X) x y :
  StronglySorted R l → x ∈ take n l → y ∈ drop n l → R x y.
Proof.
  revert n. induction l as [|z l IH]; intros [|n] Hs Hx Hy; cbn in *; try by apply elem_of_nil in Hx.
  apply StronglySorted_inv in Hs as [Hs Hz]. apply elem_of_cons in Hx as [->|Hx]; [|by eapply IH].
  rewrite Forall_forall in Hz. apply Hz. rewrite <-(take_drop n l). apply elem_of_app. by right.
Qed.

(** Past the age limit, if there is one. *)
Definition aged (age : option Z) (now : Z) (x : EnvironmentSnapshot) : bool :=
  match age with Some days => (es_created_at x <? now - days * microseconds_per_day)%Z | None => false end.

Lemma delete_old_snapshots_ok env age s u s' :
  NoDup (es_id <$> snapshots_of s) → delete_old_snapshots env age s = (Ok u, s') →
  NoDup (es_id <$> snapshots_of s') ∧
  ∀ x, x ∈ snapshots_of s' ↔ x ∈ snapshots_of s ∧ (es_env x = env → aged age (st_now s) x = false).
Proof.
  intros Hnd H. unfold delete_old_snapshots in H. destruct age as [days|].
  - apply bind_ok_inv in H as (now & s3 & [-> ->]%now_utc_ok & H). injection H as _ <-.
    unfold snapshots_of at 1 2, e_table. cbn. change (e_snapshots (y_env (t_layers (st_db s)))) with (snapshots_of s).
    split; [by apply NoDup_fmap_filter|]. intros x. rewrite list_elem_of_filter. unfold snapshot_of.
    destruct (bool_decide (es_env x = env)) eqn:He; cbn.
    + apply bool_decide_eq_true_1 in He. naive_solver.
    + apply bool_decide_eq_false_1 in He. naive_solver.
  - apply mret_ok in H as [_ ->]. split; [done|]. naive_solver.
Qed.

(** The retention of an environment's snapshots.  It returns how many it
    deleted; snapshots of other environments stay; with an age limit no snapshot
    older than it is left; with a count limit [n] at most [n] are left, and they
    are the newest: nothing that was deleted for the count is newer than a
    snapshot that stays. *)
Theorem snapshot_retention_exact env age max s k s' :
  env_ok (st_db s) → apply_snapshot_retention env age max s = (Ok k, s') →
  (∀ x, x ∈ snapshots_of s' → x ∈ snapshots_of s) ∧
  (∀ x, es_env x ≠ env → x ∈ snapshots_of s → x ∈ snapshots_of s') ∧
  (∀ days x, age = Some days → x ∈ snapshots_of s' → es_env x = env →
    (st_now s - days * microseconds_per_day ≤ es_created_at x)%Z) ∧
  (∀ n, max = Some n → length (newest_first env s') ≤ n) ∧
  (∀ x y, x ∈ snapshots_of s → x ∉ snapshots_of s' → y ∈ snapshots_of s' → es_env y = env →
    (es_created_at x ≤ es_created_at y)%Z ∨ ∃ days, age = Some days ∧ (es_created_at x < st_now s - days * microseconds_per_day)%Z) ∧
  k = length (newest_first env s) - length (newest_first env s').
Proof.
  intros Hok H. pose proof (ok_snapshots _ Hok) as Hnd. change (e_table e_snapshots (st_db s)) with (snapshots_of s) in Hnd.
  assert (Hlen : ∀ t, length (newest_first env t) = length (filter (λ x, snapshot_of env x = true) (snapshots_of t))).
  { intros t. unfold newest_first. by rewrite sort_by_perm, scan_perm. }
  unfold apply_snapshot_retention in H. rewrite run_bind in H. cbn [select_count gets] in H.
  apply bind_ok_inv in H as (u & s1 & Hage & H). apply bind_ok_inv in H as (v & s2 & Hmax & H).
  rewrite run_bind in H. cbn [select_count gets] in H. apply mret_ok in H as [-> ->]. rewrite !Hlen.
  destruct (delete_old_snapshots_ok env age s u s1 Hnd Hage) as [Hnd1 H1].
  assert (H2 : ∀ x, x ∈ snapshots_of s2 ↔
    x ∈ snapshots_of s1 ∧ (es_env x = env → ∀ n, max = Some n → x ∈ take n (newest_first env s1))).
  { destruct max as [n|].
    - destruct (delete_excess_snapshots_ok env n s1 v s2 Hnd1 Hmax) as [Hin _]. intros x. rewrite Hin. naive_solver.
    - apply mret_ok in Hmax as [_ ->]. naive_solver. }
  split_and!; try done.
  - intros x Hx. by apply H2 in Hx as [[Hx _]%H1 _].
  - intros x Hne Hx. apply H2. split; [apply H1; split; [done|]|]; by intros ?.
  - intros days x -> [[_ Hx]%H1 _]%H2 He. specialize (Hx He). apply Z.ltb_ge in Hx. lia.
  - intros n ->. destruct (delete_excess_snapshots_ok env n s1 v s2 Hnd1 Hmax) as [Hin Hnd2].
    assert (Hp : newest_first env s2 ⊆+ take n (newest_first env s1)).
    { apply NoDup_submseteq; [by apply newest_first_NoDup|]. intros x [Hx He]%newest_first_elem. by apply Hin in Hx as [_ Hx]; apply Hx. }
    apply submseteq_length in Hp. rewrite <-Hlen. etrans; [exact Hp|]. apply firstn_le_length.
  - intros x y Hx Hnx Hy Hye. destruct (decide (es_env x = env)) as [Hxe|Hne].
    2: { destruct Hnx. apply H2. split; [apply H1; split; [done|]|]; by intros ?. }
    destruct (aged age (st_now s) x) eqn:Hcut.
    + right. unfold aged in Hcut. destruct age as [days|]; [|done]. exists days. split; [done|]. by apply Z.ltb_lt in Hcut.
    + left. destruct max as [n|]; [|destruct Hnx; apply H2; split; [apply H1; by split|done]].
      assert (Hx1 : x ∈ snapshots_of s1) by (apply H1; by split).
      assert (Hxd : x ∈ drop n (newest_first env s1)).
      { assert (Hxs : x ∈ newest_first env s1) by (by apply newest_first_elem). rewrite <-(take_drop n (newest_first env s1)) in Hxs.
        apply elem_of_app in Hxs as [Hxt|?]; [|done]. destruct Hnx. apply H2. split; [done|]. by intros _ m [= <-]. }
      apply H2 in Hy as [Hy1 Hyt]. pose proof (take_drop_sorted _ n _ y x (newest_first_sorted env s1) (Hyt Hye n eq_refl) Hxd) as Hle.
      unfold leb_rel, newest_snapshot in Hle. by apply Z.leb_le in Hle.
Qed.
End Retention.
