(* ===== verification/Flow.v ===== *)
(** * Legacy v1: pipelines, channels and promotion (flow/)

    Stages that objects move through, channels that let objects flow between two
    points, and the promotion of objects from an environment into a scope. *)

From S2P Require Import Prelude LegacyTypes Schema Json Trail Rules Tenancy Environments.

Definition w_table {R} (f : flow_tables → list R) (t : tables) : list R := f (flow t).

(** ** models.py *)

Definition flow_point_value (t : FlowPointType) : string :=
  match t with FP_ENVIRONMENT => "environment" | FP_SCOPE => "scope" | FP_STAGE => "stage" end.

Definition pipeline_active (x : Pipeline) : bool := bool_decide (pp_lifecycle x = ACTIVE).
Definition channel_active (x : FlowChannel) : bool := bool_decide (fc_lifecycle x = ACTIVE).
Definition allows_type (x : FlowChannel) (type : string) : bool :=
  bool_decide (fc_allowed x = []) || bool_decide (type ∈ fc_allowed x).

Definition by_pipeline (id : string) (x : Pipeline) : bool := bool_decide (pp_id x = id).
Definition by_stage (id : string) (x : Stage) : bool := bool_decide (sg_id x = id).
Definition by_channel (id : string) (x : FlowChannel) : bool := bool_decide (fc_id x = id).
Definition by_promotion (id : string) (x : Promotion) : bool := bool_decide (pm_id x = id).
Definition moves (object : string) (x : StageTransition) : bool := bool_decide (tn_object x = object).

Definition archived_pipeline (x : Pipeline) : Pipeline := {|
  pp_id := pp_id x; pp_name := pp_name x; pp_owner := pp_owner x; pp_created_at := pp_created_at x;
  pp_description := pp_description x; pp_lifecycle := ARCHIVED |}.

Definition archived_channel (x : FlowChannel) : FlowChannel := {|
  fc_id := fc_id x; fc_name := fc_name x; fc_source_type := fc_source_type x; fc_source := fc_source x;
  fc_target_type := fc_target_type x; fc_target := fc_target x; fc_owner := fc_owner x;
  fc_created_at := fc_created_at x; fc_allowed := fc_allowed x; fc_lifecycle := ARCHIVED |}.

Definition lifecycle_flip (q : trace_request) : trace_request :=
  states_req (Some [("lifecycle", JVstr "ACTIVE")]) (Some [("lifecycle", JVstr "ARCHIVED")]) q.

(** ** PipelineManager (pipeline.py) *)

Section Pipelines.
Context `{host : !Host} `{sink : !AuditSink}.
Context (known_principal : string → bool).
(** The manager's rule engine, if it has one: its cache's lifetime. *)
Context (rule_engine : option (option Z)).

Definition insert_pipeline (x : Pipeline) : lp unit :=
  raise_if (negb (known_principal (pp_owner x))) (IntegrityError "pipelines.owner_id") ;;
  sql_insert (w_table w_pipelines) set_pipelines (λ a b, bool_decide (pp_id a = pp_id b)) "pipelines.id" x.

Definition create_pipeline (name owner description : string) : lp Pipeline :=
  ts ← now_utc;
  id ← generate_id;
  let pipeline := {| pp_id := id; pp_name := name; pp_owner := owner; pp_created_at := ts;
    pp_description := description; pp_lifecycle := ACTIVE |} in
  insert_pipeline pipeline ;;
  audit (states_req None (Some [("name", JVstr name); ("description", JVstr description)])
    (request owner ActionType.CREATE "pipeline" id)) ;;
  mret pipeline.

Definition get_pipeline (id : string) : lp (option Pipeline) := fetch_one (w_table w_pipelines) (by_pipeline id).

Definition newest_pipeline (a b : Pipeline) : bool := (pp_created_at b <=? pp_created_at a)%Z.

Definition list_pipelines (owner : option string) (active_only : bool) (limit : nat) : lp (list Pipeline) :=
  l ← select_sorted (w_table w_pipelines) (λ x, (negb (given_str owner) || filter_opt owner (pp_owner x)) &&
    (negb active_only || pipeline_active x)) newest_pipeline;
  mret (take limit l).

Definition archive_pipeline (id archived_by : string) : lp unit :=
  sql_update (w_table w_pipelines) set_pipelines (by_pipeline id) archived_pipeline ;;
  audit (lifecycle_flip (request archived_by ActionType.LIFECYCLE_CHANGE "pipeline" id)).

(** The stages table has no foreign key to the pipelines. *)
Definition insert_stage (x : Stage) : lp unit :=
  sql_insert (w_table w_stages) set_stages
    (λ a b, bool_decide (sg_id a = sg_id b) ||
            (bool_decide (sg_pipeline a = sg_pipeline b) && bool_decide (sg_name a = sg_name b))) "stages" x.

Definition add_stage (pipeline name : string) (ordinal : Z) (metadata : option jdict) : lp Stage :=
  id ← generate_id;
  let stage := {| sg_id := id; sg_pipeline := pipeline; sg_name := name; sg_ordinal := ordinal;
    sg_metadata := default [] metadata |} in
  insert_stage stage ;;
  found ← get_pipeline pipeline;
  match found with
  | Some p =>
      audit (states_req None
        (Some [("name", JVstr name); ("ordinal", JVint ordinal); ("pipeline_id", JVstr pipeline)])
        (request (pp_owner p) ActionType.CREATE "stage" id))
  | None => mret tt
  end ;;
  mret stage.

Definition get_stage (id : string) : lp (option Stage) := fetch_one (w_table w_stages) (by_stage id).

Definition by_ordinal (a b : Stage) : bool := (sg_ordinal a <=? sg_ordinal b)%Z.

Definition get_stages (pipeline : string) : lp (list Stage) :=
  select_sorted (w_table w_stages) (λ x, bool_decide (sg_pipeline x = pipeline)) by_ordinal.

Definition get_stage_by_name (pipeline name : string) : lp (option Stage) :=
  fetch_one (w_table w_stages) (λ x, bool_decide (sg_pipeline x = pipeline) && bool_decide (sg_name x = name)).

Definition newest_move (a b : StageTransition) : bool := (tn_at b <=? tn_at a)%Z.

Definition get_current_stage (object : string) : lp (option StageTransition) :=
  l ← select_sorted (w_table w_transitions) (moves object) newest_move; mret (head l).

Definition get_transition_history (object : string) (limit : nat) : lp (list StageTransition) :=
  l ← select_sorted (w_table w_transitions) (moves object) newest_move; mret (take limit l).

Definition _get_object_owner (object : string) : lp (option string) :=
  row ← fetch_one t_objects (by_object object); mret (so_owner <$> row).
Definition _get_object_type (object : string) : lp (option string) :=
  row ← fetch_one t_objects (by_object object); mret (so_type <$> row).

(** A denial by the rules: [not result.allowed and (deny_rules or matching_rules)]. *)
Definition denied_by_rules (result : EvaluationResult) : bool :=
  negb (allowed result) && (negb (bool_decide (length (deny_rules result) = 0)) ||
                            negb (bool_decide (length (matching_rules result) = 0))).

Definition deny_names (result : EvaluationResult) : string :=
  py_repr (JVlist ((λ r, JVstr (rl_name r)) <$> deny_rules result)).

Definition _check_transition_rules (object : string) (type : option string) (principal pipeline : string) : lp unit :=
  match rule_engine with
  | None => mret tt
  | Some ttl =>
      result ← evaluate ttl {| a_action := "stage_transition"; a_principal_id := Some principal;
        a_principal_kind := None; a_object_type := type; a_object_id := Some object; a_scope_id := Some pipeline;
        a_environment_id := None |};
      raise_if (denied_by_rules result)
        (StageTransitionDenied ("Stage transition denied by rule(s): " +:+ deny_names result))
  end.

(** A foreign key to a stage. *)
Definition require_stage (id constraint : string) : lp unit :=
  require_row (w_table w_stages) (by_stage id) constraint.

Definition require_stage_opt (id : option string) (constraint : string) : lp unit :=
  match id with None => mret tt | Some st => require_stage st constraint end.

Definition insert_transition (x : StageTransition) : lp unit :=
  require_row t_objects (by_object (tn_object x)) "stage_transitions.object_id" ;;
  require_stage_opt (tn_from x) "stage_transitions.from_stage_id" ;;
  require_stage (tn_to x) "stage_transitions.to_stage_id" ;;
  sql_insert (w_table w_transitions) set_transitions (λ a b, bool_decide (tn_id a = tn_id b)) "stage_transitions.id" x.

(** The source stage, when one is given, is a stage of the same pipeline. *)
Definition check_source (from : option string) (to : Stage) : lp unit :=
  match from with
  | None => mret tt
  | Some id =>
      found ← get_stage id;
      match found with
      | None => raise (FlowError ("Source stage '" +:+ id +:+ "' not found"))
      | Some st => raise_if (negb (bool_decide (sg_pipeline st = sg_pipeline to)))
          (StageTransitionDenied ("Stages belong to different pipelines — transitions must " +:+
            "stay within a single pipeline."))
      end
  end.

Definition check_pipeline (to : Stage) : lp unit :=
  found ← get_pipeline (sg_pipeline to);
  match found with
  | Some p => raise_if (negb (pipeline_active p))
      (StageTransitionDenied ("Pipeline '" +:+ pp_name p +:+ "' is archived; transitions denied."))
  | None => mret tt
  end.

Definition check_mover (object by_ : string) : lp unit :=
  owner ← _get_object_owner object;
  match owner with
  | None => raise (FlowError ("Object '" +:+ object +:+ "' not found"))
  | Some o => raise_if (negb (bool_decide (o = by_))) (AccessDenied "Only the object owner can transition its stage.")
  end.

(** The current stage against the source stage of the call. *)
Definition check_current (object : string) (from : option string) : lp unit :=
  current ← get_current_stage object;
  let current_stage := tn_to <$> current in
  match from with
  | None => raise_if (negb (bool_decide (current_stage = None)))
      (StageTransitionDenied ("Object already has a current stage; pass from_stage_id " +:+
        "to move it or use an explicit transition."))
  | Some f => raise_if (negb (bool_decide (current_stage = Some f)))
      (StageTransitionDenied "from_stage_id does not match the object's current stage.")
  end.

(** What [transition] does once the guards have passed. *)
Definition record_move (object to by_ : string) (from : option string) (reason : string) : lp StageTransition :=
  ts ← now_utc;
  id ← generate_id;
  let trans := {| tn_id := id; tn_object := object; tn_to := to; tn_at := ts; tn_by := by_; tn_from := from;
    tn_reason := reason |} in
  insert_transition trans ;;
  audit (states_req (if given_str from then Some [("stage_id", jopt from)] else None)
    (Some [("stage_id", JVstr to); ("object_id", JVstr object)])
    (request by_ ActionType.STAGE_TRANSITION "stage_transition" id)) ;;
  mret trans.

Definition transition (object to by_ : string) (from : option string) (reason : string) : lp StageTransition :=
  found ← get_stage to;
  match found with
  | None => raise (FlowError ("Target stage '" +:+ to +:+ "' not found"))
  | Some to_stage =>
      check_source from to_stage ;;
      check_pipeline to_stage ;;
      check_mover object by_ ;;
      type ← _get_object_type object;
      _check_transition_rules object type by_ (sg_pipeline to_stage) ;;
      check_current object from ;;
      record_move object to by_ from reason
  end.
End Pipelines.

(** ** FlowEngine (engine.py) *)

Record FlowResolution := { fl_allowed : bool; fl_channel : option FlowChannel; fl_reason : string }.

Section Channels.
Context `{host : !Host} `{sink : !AuditSink}.
Context (known_principal : string → bool).

Definition insert_channel (x : FlowChannel) : lp unit :=
  raise_if (negb (known_principal (fc_owner x))) (IntegrityError "flow_channels.owner_id") ;;
  sql_insert (w_table w_channels) set_channels (λ a b, bool_decide (fc_id a = fc_id b)) "flow_channels.id" x.

Definition create_channel (name : string) (source_type : FlowPointType) (source : string)
  (target_type : FlowPointType) (target owner : string) (allowed_types : option (list string)) : lp FlowChannel :=
  ts ← now_utc;
  id ← generate_id;
  let channel := {| fc_id := id; fc_name := name; fc_source_type := source_type; fc_source := source;
    fc_target_type := target_type; fc_target := target; fc_owner := owner; fc_created_at := ts;
    fc_allowed := default [] allowed_types; fc_lifecycle := ACTIVE |} in
  insert_channel channel ;;
  audit (states_req None (Some [("name", JVstr name); ("source_id", JVstr source); ("target_id", JVstr target)])
    (request owner ActionType.CREATE "flow_channel" id)) ;;
  mret channel.

Definition get_channel (id : string) : lp (option FlowChannel) := fetch_one (w_table w_channels) (by_channel id).

Definition newest_channel (a b : FlowChannel) : bool := (fc_created_at b <=? fc_created_at a)%Z.

Definition channel_filter (source_type : option FlowPointType) (source : option string)
  (target_type : option FlowPointType) (target : option string) (active_only : bool) (x : FlowChannel) : bool :=
  filter_opt source_type (fc_source_type x) && filter_opt source (fc_source x) &&
  filter_opt target_type (fc_target_type x) && filter_opt target (fc_target x) &&
  (negb active_only || channel_active x).

Definition list_channels (source_type : option FlowPointType) (source : option string)
  (target_type : option FlowPointType) (target : option string) (active_only : bool) (limit : nat)
  : lp (list FlowChannel) :=
  l ← select_sorted (w_table w_channels) (channel_filter source_type source target_type target active_only)
        newest_channel;
  mret (take limit l).

Definition archive_channel (id archived_by : string) : lp unit :=
  sql_update (w_table w_channels) set_channels (by_channel id) archived_channel ;;
  audit (lifecycle_flip (request archived_by ActionType.LIFECYCLE_CHANGE "flow_channel" id)).

Definition permits (type : option string) (x : FlowChannel) : bool :=
  match type with None => true | Some t => allows_type x t end.

Definition channel_limit : nat := 100.

Definition no_channel : FlowResolution :=
  {| fl_allowed := false; fl_channel := None; fl_reason := "No active flow channel found for this route" |}.

Definition py_opt (o : option string) : string := default "None" o.

(** The first channel that permits the type, newest first. *)
Definition resolve_flow (type : option string) (channels : list FlowChannel) : FlowResolution :=
  match channels with
  | [] => no_channel
  | _ :: _ =>
      match find (permits type) channels with
      | Some ch => {| fl_allowed := true; fl_channel := Some ch; fl_reason := "" |}
      | None => {| fl_allowed := false; fl_channel := None;
                   fl_reason := "No channel permits object type '" +:+ py_opt type +:+ "'" |}
      end
  end.

Definition can_flow (source_type : FlowPointType) (source : string) (target_type : FlowPointType) (target : string)
  (type : option string) : lp FlowResolution :=
  channels ← list_channels (Some source_type) (Some source) (Some target_type) (Some target) true channel_limit;
  mret (resolve_flow type channels).

Definition can_flow_or_raise (source_type : FlowPointType) (source : string) (target_type : FlowPointType)
  (target : string) (type : option string) : lp FlowResolution :=
  result ← can_flow source_type source target_type target type;
  raise_if (negb (fl_allowed result)) (FlowBlocked (fl_reason result)) ;;
  mret result.

Definition find_routes (source_type : FlowPointType) (source : string) (type : option string)
  : lp (list FlowChannel) :=
  channels ← list_channels (Some source_type) (Some source) None None true channel_limit;
  mret (match type with None => channels | Some t => filter (λ ch, allows_type ch t = true) channels end).
End Channels.

(** ** PromotionManager (promotion.py) *)

(** What a manager was built with: a flow engine, a projection manager, a rule
    engine (its cache's lifetime). *)
Record PromotionManager := {
  pr_flow : bool; pr_projections : bool; pr_rules : option (option Z);
}.

Section Promotions.
Context `{host : !Host} `{sink : !AuditSink}.

Definition promotion_snapshot (x : Promotion) : jdict := [
  ("id", JVstr (pm_id x)); ("object_id", JVstr (pm_object x)); ("source_env_id", JVstr (pm_env x));
  ("target_scope_id", JVstr (pm_scope x)); ("target_stage_id", jopt (pm_stage x));
  ("promoted_at", JVstr (isoformat (pm_at x))); ("promoted_by", JVstr (pm_by x))].

(** SELECT id ... and an exception when there is no row. *)
Definition require_found {R} (tbl : tables → list R) (p : R → bool) (e : exn) : lp unit :=
  found ← fetch_one tbl p;
  match found with Some _ => mret tt | None => raise e end.

Definition channel_gate (mg : PromotionManager) (env scope : string) (type : option string) : lp unit :=
  if pr_flow mg then
    resolution ← can_flow FP_ENVIRONMENT env FP_SCOPE scope type;
    raise_if (negb (fl_allowed resolution))
      (PromotionDenied ("No flow channel permits this promotion: " +:+ fl_reason resolution))
  else mret tt.

Definition _check_promotion_rules (mg : PromotionManager) (object : string) (type : option string)
  (principal env scope : string) : lp unit :=
  match pr_rules mg with
  | None => mret tt
  | Some ttl =>
      result ← evaluate ttl {| a_action := "promotion"; a_principal_id := Some principal; a_principal_kind := None;
        a_object_type := type; a_object_id := Some object; a_scope_id := Some scope;
        a_environment_id := Some env |};
      raise_if (denied_by_rules result) (PromotionDenied ("Promotion denied by rule(s): " +:+ deny_names result))
  end.

Definition insert_promotion (x : Promotion) : lp unit :=
  require_row t_objects (by_object (pm_object x)) "promotions.object_id" ;;
  require_row (e_table e_envs) (by_env (pm_env x)) "promotions.source_env_id" ;;
  require_row t_scopes (by_scope (pm_scope x)) "promotions.target_scope_id" ;;
  require_stage_opt (pm_stage x) "promotions.target_stage_id" ;;
  sql_insert (w_table w_promotions) set_promotions (λ a b, bool_decide (pm_id a = pm_id b)) "promotions.id" x.

(** The existence checks of [promote]. *)
Definition promotion_checks (object env scope : string) (stage : option string) : lp unit :=
  require_found (e_table e_envs) (by_env env) (EnvironmentNotFound ("Environment " +:+ env +:+ " not found")) ;;
  require_found t_scopes (by_scope scope) (NotFound ("Scope " +:+ scope +:+ " not found")) ;;
  require_found t_objects (by_object object) (PromotionDenied ("Object " +:+ object +:+ " not found")) ;;
  match stage with
  | None => mret tt
  | Some st => require_found (w_table w_stages) (by_stage st) (PromotionDenied ("Stage " +:+ st +:+ " not found"))
  end.

Definition promote_to_scope (mg : PromotionManager) (object env scope by_ : string) (stage type : option string)
  (level : AccessLevel) : lp Promotion :=
  promotion_checks object env scope stage ;;
  channel_gate mg env scope type ;;
  own_type ← (if given_str type then mret type else _get_object_type object);
  _check_promotion_rules mg object own_type by_ env scope ;;
  (if pr_projections mg then project scope object by_ level ;; mret tt else mret tt) ;;
  ts ← now_utc;
  id ← generate_id;
  let promo := {| pm_id := id; pm_object := object; pm_env := env; pm_scope := scope; pm_at := ts; pm_by := by_;
    pm_stage := stage |} in
  insert_promotion promo ;;
  audit (in_scope_req (Some scope) (states_req None (Some (promotion_snapshot promo))
    (request by_ ActionType.PROMOTION "promotion" id))) ;;
  mret promo.

Definition get_promotion (id : string) : lp (option Promotion) := fetch_one (w_table w_promotions) (by_promotion id).

Definition newest_promotion (a b : Promotion) : bool := (pm_at b <=? pm_at a)%Z.

Definition list_promotions (env scope object : option string) (limit : nat) : lp (list Promotion) :=
  l ← select_sorted (w_table w_promotions) (λ x, filter_opt env (pm_env x) && filter_opt scope (pm_scope x) &&
    filter_opt object (pm_object x)) newest_promotion;
  mret (take limit l).

Definition count_promotions (env : string) : lp nat :=
  select_count (w_table w_promotions) (λ x, bool_decide (pm_env x = env)).

(** What an environment's [promote] calls for one object: no object type is
    passed, and READ unless a level is given. *)
Definition promote_one (mg : PromotionManager) (object env scope by_ : string) (stage : option string)
  (level : option AccessLevel) : lp unit :=
  promote_to_scope mg object env scope by_ stage None (default READ_LEVEL level) ;; mret tt.
End Promotions.

(** ** What the operations leave alone *)

(** The flow layer's rows as they were. *)
Definition same_flow : relation store := λ s s', flow (st_db s') = flow (st_db s).

#[export] Instance same_flow_preorder : PreOrder same_flow.
Proof. split; [by intros s|]. intros s1 s2 s3 H1 H2. unfold same_flow in *. congruence. Qed.

Lemma layers_flow {R} (m : lp R) : respects same_layers m → respects same_flow m.
Proof. intros H s. unfold same_flow, flow. by rewrite (H s). Qed.

Lemma off_trail_flow {R} (m : lp R) : respects off_trail m → respects same_flow m.
Proof. intros H. by apply layers_flow, respects_layers. Qed.

Definition pipelines_of (s : store) : list Pipeline := w_table w_pipelines (st_db s).
Definition stages_of (s : store) : list Stage := w_table w_stages (st_db s).
Definition transitions_of (s : store) : list StageTransition := w_table w_transitions (st_db s).
Definition channels_of (s : store) : list FlowChannel := w_table w_channels (st_db s).
Definition promotions_of (s : store) : list Promotion := w_table w_promotions (st_db s).

(** ** Stages *)

(** The moves of an object, in the order they were recorded. *)
Definition moves_of (object : string) (l : list StageTransition) : list StageTransition :=
  filter (λ x, moves object x = true) l.

(** Every move starts where the one before it ended. *)
Fixpoint chained (at_ : option string) (l : list StageTransition) : Prop :=
  match l with
  | [] => True
  | x :: l' => tn_from x = at_ ∧ chained (Some (tn_to x)) l'
  end.

Definition earlier (a b : StageTransition) : Prop := (tn_at a < tn_at b)%Z.

(** Where a chain ends. *)
Definition end_of (at_ : option string) (l : list StageTransition) : option string :=
  match last l with Some x => Some (tn_to x) | None => at_ end.

Lemma chained_snoc at_ l x : chained at_ (l ++ [x]) ↔ chained at_ l ∧ tn_from x = end_of at_ l.
Proof.
  revert at_. induction l as [|y l IH]; intros at_; cbn [app chained]; [unfold end_of; naive_solver|].
  rewrite IH. assert (end_of (Some (tn_to y)) l = end_of at_ (y :: l)) as ->; [|naive_solver].
  unfold end_of. rewrite last_cons. by destruct (last l).
Qed.

Lemma sorted_snoc (l : list StageTransition) x :
  StronglySorted earlier l → (∀ y, y ∈ l → earlier y x) → StronglySorted earlier (l ++ [x]).
Proof.
  induction l as [|y l IH]; intros Hs Hx; cbn; [repeat constructor|].
  apply StronglySorted_inv in Hs as [Hs Hy]. constructor.
  - apply IH; [done|]. intros z Hz. apply Hx. by right.
  - apply Forall_app. split; [done|]. constructor; [|constructor]. apply Hx. by left.
Qed.

(** Stages and pipelines have unique ids, a move stays within one pipeline, and
    the moves of every object are one chain, in time order. *)
Record flow_ok (t : tables) : Prop := {
  fw_stages : NoDup (sg_id <$> w_table w_stages t);
  fw_pipelines : NoDup (pp_id <$> w_table w_pipelines t);
  fw_target : ∀ x, x ∈ w_table w_transitions t → ∃ b, b ∈ w_table w_stages t ∧ sg_id b = tn_to x ∧
    ∀ f, tn_from x = Some f → ∃ a, a ∈ w_table w_stages t ∧ sg_id a = f ∧ sg_pipeline a = sg_pipeline b;
  fw_chain : ∀ object, chained None (moves_of object (w_table w_transitions t));
  fw_times : ∀ object, StronglySorted earlier (moves_of object (w_table w_transitions t));
}.

(** Stages, moves and promotions are only ever appended; pipelines and channels
    stay, and an archived one stays archived. *)
Record flow_later (t t' : tables) : Prop := {
  fl_stages : w_table w_stages t `prefix_of` w_table w_stages t';
  fl_transitions : w_table w_transitions t `prefix_of` w_table w_transitions t';
  fl_promotions : w_table w_promotions t `prefix_of` w_table w_promotions t';
  fl_pipelines : ∀ x, x ∈ w_table w_pipelines t → x ∈ w_table w_pipelines t' ∨ archived_pipeline x ∈ w_table w_pipelines t';
  fl_channels : ∀ x, x ∈ w_table w_channels t → x ∈ w_table w_channels t' ∨ archived_channel x ∈ w_table w_channels t';
}.

#[export] Instance flow_later_preorder : PreOrder flow_later.
Proof.
  split; [split; [done..|by left|by left]|]. intros t1 t2 t3 [A1 A2 A3 A4 A5] [B1 B2 B3 B4 B5].
  split; [by etrans|by etrans|by etrans| |].
  - intros x [Hx|Hx]%A4; destruct (B4 _ Hx) as [?|?]; auto.
  - intros x [Hx|Hx]%A5; destruct (B5 _ Hx) as [?|?]; auto.
Qed.

Lemma head_min {X} (leb : X → X → bool) (l : list X) h x :
  StronglySorted (leb_rel leb) l → head l = Some h → x ∈ l → x = h ∨ leb h x = true.
Proof.
  destruct l as [|y l]; [done|]. intros [_ Hy]%StronglySorted_inv [= ->] [->|Hx]%elem_of_cons; [by left|right].
  rewrite Forall_forall in Hy. by apply Hy.
Qed.

Section Current.
Context `{host : !Host}.

Definition current_move (object : string) (s : store) : option StageTransition :=
  head (sort_by newest_move (scan (moves_of object (transitions_of s)))).

Lemma get_current_stage_run object s : get_current_stage object s = (Ok (current_move object s), s).
Proof. done. Qed.

(** With the moves in time order, the current stage is the end of the chain. *)
Lemma current_move_last object s :
  StronglySorted earlier (moves_of object (transitions_of s)) →
  current_move object s = last (moves_of object (transitions_of s)).
Proof.
  unfold current_move. set (l := moves_of object (transitions_of s)). intros Hs.
  assert (Hsort : StronglySorted (leb_rel newest_move) (sort_by newest_move (scan l))).
  { apply sort_by_sorted; unfold newest_move; [intros x y|intros x y z]; rewrite !Z.leb_le; lia. }
  destruct (last l) as [z|] eqn:Hlast.
  - apply last_Some in Hlast as [k Hk].
    assert (Hz : z ∈ sort_by newest_move (scan l)).
    { rewrite elem_of_sort_by, scan_perm, Hk. apply elem_of_app. right. by left. }
    destruct (head (sort_by newest_move (scan l))) as [h|] eqn:Hh.
    + destruct (head_min newest_move _ h z Hsort Hh Hz) as [->|Hle]; [done|].
      assert (Hhl : h ∈ l).
      { rewrite <-(scan_perm l), <-(elem_of_sort_by newest_move). destruct (sort_by newest_move (scan l)); [done|].
        injection Hh as ->. by left. }
      rewrite Hk in Hhl. apply elem_of_app in Hhl as [Hhk|Hhz%list_elem_of_singleton]; [|by subst].
      exfalso. unfold newest_move in Hle. apply Z.leb_le in Hle.
      assert (Hlt : earlier h z); [|unfold earlier in Hlt; lia].
      rewrite Hk in Hs. clear -Hs Hhk. induction k as [|y k IH]; [by apply elem_of_nil in Hhk|].
      apply StronglySorted_inv in Hs as [Hs Hy]. apply elem_of_cons in Hhk as [->|Hhk]; [|by apply IH].
      rewrite Forall_forall in Hy. apply Hy, elem_of_app. right. by left.
    + destruct (sort_by newest_move (scan l)); [by apply elem_of_nil in Hz|done].
  - apply last_None in Hlast. assert (Hp : sort_by newest_move (scan l) ≡ₚ []).
    { by rewrite sort_by_perm, scan_perm, Hlast. }
    symmetry in Hp. by apply Permutation_nil in Hp as ->.
Qed.
End Current.

(** ** What the operations do *)

Section Effects.
Context `{host : !Host} `{sink : !AuditSink}.
Context (known_principal : string → bool).

Lemma gate_reads {R} (tbl : tables → list R) p (f : option R → lp unit) :
  (∀ o, reads (f o)) → reads (fetch_one tbl p ≫= f).
Proof. intros H. apply reads_bind; [apply fetch_one_reads|done]. Qed.

Lemma check_source_reads from to : reads (check_source from to).
Proof.
  unfold check_source. destruct from as [id|]; [|apply reads_ret]. apply gate_reads.
  intros [st|]; [apply reads_raise_if|apply reads_raise].
Qed.

Lemma check_pipeline_reads to : reads (check_pipeline to).
Proof. apply gate_reads. intros [p|]; [apply reads_raise_if|apply reads_ret]. Qed.

Lemma check_mover_reads object by_ : reads (check_mover object by_).
Proof.
  unfold check_mover, _get_object_owner. apply reads_bind.
  - apply reads_bind; [apply fetch_one_reads|]. intros. apply reads_ret.
  - intros [o|]; [apply reads_raise_if|apply reads_raise].
Qed.

Lemma check_current_reads object from : reads (check_current object from).
Proof.
  unfold check_current. apply reads_bind; [by intros s|]. intros cur. cbv zeta.
  destruct from; apply reads_raise_if.
Qed.

Lemma transition_rules_off rules object type principal pipeline :
  respects off_trail (_check_transition_rules rules object type principal pipeline).
Proof.
  unfold _check_transition_rules. destruct rules as [ttl|]; [|by intros s].
  respects_step; [apply evaluate_off_trail|respects_step].
Qed.

Lemma check_source_ok from to s u s' :
  check_source from to s = (Ok u, s') →
  ∀ f, from = Some f → ∃ a, a ∈ stages_of s ∧ sg_id a = f ∧ sg_pipeline a = sg_pipeline to.
Proof.
  intros H f ->. unfold check_source in H. apply bind_ok_inv in H as (found & s1 & [-> Hf]%fetch_one_ok & H).
  destruct found as [a|]; [|discriminate H]. destruct Hf as [Ha Hid%bool_decide_eq_true_1]. destruct u.
  apply raise_if_ok in H as [H%negb_false_iff%bool_decide_eq_true_1 _]. by exists a.
Qed.

Lemma check_pipeline_ok to s u s' :
  NoDup (pp_id <$> pipelines_of s) → check_pipeline to s = (Ok u, s') →
  ∀ p, p ∈ pipelines_of s → pp_id p = sg_pipeline to → pipeline_active p = true.
Proof.
  intros Hnd H p Hp Hid. unfold check_pipeline in H. apply bind_ok_inv in H as (found & s1 & [-> Hf]%fetch_one_ok & H).
  destruct found as [q|].
  - destruct Hf as [Hq Hqid%bool_decide_eq_true_1]. rewrite (NoDup_fmap_inj_in _ _ p q Hnd Hp Hq) by congruence.
    destruct u. by apply raise_if_ok in H as [H%negb_false_iff _].
  - specialize (Hf p Hp). by apply bool_decide_eq_false_1 in Hf.
Qed.

Lemma check_mover_ok object by_ s u s' :
  check_mover object by_ s = (Ok u, s') →
  ∃ o, o ∈ t_objects (st_db s) ∧ so_id o = object ∧ so_owner o = by_.
Proof.
  intros H. unfold check_mover, _get_object_owner in H. apply bind_ok_inv in H as (owner & s1 & Hrow & H).
  apply bind_ok_inv in Hrow as (row & s2 & [-> Hf]%fetch_one_ok & Hrow). apply mret_ok in Hrow as [-> ->].
  destruct row as [o|]; [|discriminate H]. destruct Hf as [Ho Hid%bool_decide_eq_true_1]. destruct u. cbn in H.
  apply raise_if_ok in H as [H%negb_false_iff%bool_decide_eq_true_1 _]. by exists o.
Qed.

Lemma check_current_ok object from s u s' :
  check_current object from s = (Ok u, s') → tn_to <$> current_move object s = from.
Proof.
  unfold check_current. intros H. rewrite run_bind, get_current_stage_run in H. cbn zeta in H. destruct u.
  destruct from as [f|]; by apply raise_if_ok in H as [H%negb_false_iff%bool_decide_eq_true_1 _].
Qed.

(** The new row of a move. *)
Definition move_row (n : nat) (object to : string) (ts : Z) (by_ : string) (from : option string) (reason : string)
  : StageTransition := {|
  tn_id := id_of n; tn_object := object; tn_to := to; tn_at := ts; tn_by := by_; tn_from := from; tn_reason := reason |}.

Definition with_transitions (l : list StageTransition) (s : store) : store := put_db (set_transitions l (st_db s)) s.

(** A move that was allowed: its guards, read in the store [s]. *)
Record move_allowed (object to by_ : string) (from : option string) (s : store) (t : Stage) : Prop := {
  mv_target : t ∈ stages_of s ∧ sg_id t = to;
  mv_source : ∀ f, from = Some f → ∃ a, a ∈ stages_of s ∧ sg_id a = f ∧ sg_pipeline a = sg_pipeline t;
  mv_pipeline : NoDup (pp_id <$> pipelines_of s) → ∀ p, p ∈ pipelines_of s → pp_id p = sg_pipeline t → pipeline_active p = true;
  mv_owner : ∃ o, o ∈ t_objects (st_db s) ∧ so_id o = object ∧ so_owner o = by_;
  mv_current : tn_to <$> current_move object s = from;
}.

Lemma same_layers_current object s s' : same_layers s s' → current_move object s' = current_move object s.
Proof. intros H. unfold current_move, transitions_of, w_table, flow. by rewrite H. Qed.

(** Either nothing of the layer changed, or the move was allowed and exactly its
    row was appended. *)
Inductive moved_by (object to by_ : string) (from : option string) (reason : string) (s s' : store) : Prop :=
  | not_moved : same_flow s s' → moved_by object to by_ from reason s s'
  | moved_once n t :
      move_allowed object to by_ from s t →
      transitions_of s' = transitions_of s ++ [move_row n object to (st_now s) by_ from reason] →
      same_flow (with_transitions (transitions_of s') s) s' → moved_by object to by_ from reason s s'.

Lemma require_stage_opt_cases id c s :
  require_stage_opt id c s = (Ok tt, s) ∨ require_stage_opt id c s = (Raise (IntegrityError c), s).
Proof. destruct id; [apply require_row_cases|by left]. Qed.

Lemma insert_transition_cases x s :
  (∃ e, insert_transition x s = (Raise e, s)) ∨
  insert_transition x s = (Ok tt, with_transitions (transitions_of s ++ [x]) s).
Proof.
  unfold insert_transition. rewrite run_bind.
  destruct (require_row_cases t_objects (by_object (tn_object x)) "stage_transitions.object_id" s) as [->| ->]; [|left; by eexists].
  rewrite run_bind. destruct (require_stage_opt_cases (tn_from x) "stage_transitions.from_stage_id" s) as [->| ->]; [|left; by eexists].
  rewrite run_bind. unfold require_stage.
  destruct (require_row_cases (w_table w_stages) (by_stage (tn_to x)) "stage_transitions.to_stage_id" s) as [->| ->]; [|left; by eexists].
  destruct (sql_insert_cases (w_table w_transitions) set_transitions (λ a b, bool_decide (tn_id a = tn_id b))
    "stage_transitions.id" x s) as [->|[_ ->]]; [left; by eexists|by right].
Qed.

Lemma record_move_cases object to by_ from reason s r s' :
  record_move object to by_ from reason s = (r, s') →
  (same_flow s s' ∧ is_ok r = false) ∨
  ∃ n, transitions_of s' = transitions_of s ++ [move_row n object to (st_now s) by_ from reason] ∧
    same_flow (with_transitions (transitions_of s') s) s' ∧
    ∀ t, r = Ok t → t = move_row n object to (st_now s) by_ from reason.
Proof.
  intros H. unfold record_move in H.
  set (s0 := put_next (S (st_next s)) s). set (x := move_row (st_next s) object to (st_now s) by_ from reason).
  change (((insert_transition x ;; audit (states_req (if given_str from then Some [("stage_id", jopt from)] else None)
    (Some [("stage_id", JVstr to); ("object_id", JVstr object)])
    (request by_ ActionType.STAGE_TRANSITION "stage_transition" (tn_id x))) ;; mret x) : lp StageTransition) s0 = (r, s')) in H.
  rewrite run_bind in H. destruct (insert_transition_cases x s0) as [[e Hins]|Hins]; rewrite Hins in H.
  - injection H as <- <-. by left.
  - right. exists (st_next s). rewrite run_bind in H. match type of H with context [audit ?q ?s1] =>
      pose proof (audit_off_trail q s1) as Hoff; destruct (audit q s1) as [[u|e] s2] end; cbn [snd] in Hoff;
      injection H as <- <-; apply off_trail_layers in Hoff.
    all: assert (Hf : flow (st_db s2) = flow (st_db (with_transitions (transitions_of s0 ++ [x]) s0))) by (unfold flow; by rewrite Hoff).
    all: assert (Ht : transitions_of s2 = transitions_of s ++ [x]) by (unfold transitions_of, w_table; by rewrite Hf).
    all: split; [done|]; split; [unfold same_flow; by rewrite Hf, Ht|].
    + by intros t [= <-].
    + done.
Qed.

Lemma transition_moved rules object to by_ from reason s r s' :
  transition rules object to by_ from reason s = (r, s') →
  moved_by object to by_ from reason s s' ∧
  ∀ t, r = Ok t → ∃ n, t = move_row n object to (st_now s) by_ from reason ∧ transitions_of s' = transitions_of s ++ [t].
Proof.
  intros H. unfold transition in H. rewrite run_bind in H.
  destruct (get_stage to s) as [[found|e] s0] eqn:Hget; [|discriminate Hget].
  apply fetch_one_ok in Hget as [-> Hf]. destruct found as [st|]; [|injection H as <- <-; split; [by apply not_moved|done]].
  destruct Hf as [Hst Hstid%bool_decide_eq_true_1].
  assert (Hrefuse : ∀ e, r = Raise e → s' = s → moved_by object to by_ from reason s s' ∧
    ∀ t, r = Ok t → ∃ n, t = move_row n object to (st_now s) by_ from reason ∧ transitions_of s' = transitions_of s ++ [t])
    by (intros e -> ->; split; [by apply not_moved|done]).
  rewrite run_bind in H. pose proof (check_source_reads from st s) as H1.
  destruct (check_source from st s) as [[u1|e] s1] eqn:Hsrc; cbn [snd] in H1; subst s1; [|injection H as <- <-; by eapply Hrefuse].
  rewrite run_bind in H. pose proof (check_pipeline_reads st s) as H1.
  destruct (check_pipeline st s) as [[u2|e] s1] eqn:Hpip; cbn [snd] in H1; subst s1; [|injection H as <- <-; by eapply Hrefuse].
  rewrite run_bind in H. pose proof (check_mover_reads object by_ s) as H1.
  destruct (check_mover object by_ s) as [[u3|e] s1] eqn:Hown; cbn [snd] in H1; subst s1; [|injection H as <- <-; by eapply Hrefuse].
  rewrite run_bind in H. destruct (_get_object_type object s) as [[type|e] s1] eqn:Htype; [|discriminate Htype].
  assert (s1 = s) as -> by (unfold _get_object_type in Htype; rewrite run_bind in Htype; by injection Htype).
  rewrite run_bind in H. pose proof (transition_rules_off rules object type by_ (sg_pipeline st) s) as Hoff.
  destruct (_check_transition_rules rules object type by_ (sg_pipeline st) s) as [[u4|e] s1]; cbn [snd] in Hoff;
    pose proof (off_trail_layers _ _ Hoff) as Hl; assert (Hfl : same_flow s s1) by (unfold same_flow, flow; by rewrite Hl).
  2: { injection H as <- <-. split; [by apply not_moved|done]. }
  rewrite run_bind in H. pose proof (check_current_reads object from s1) as H1.
  destruct (check_current object from s1) as [[u5|e] s2] eqn:Hcur; cbn [snd] in H1; subst s2.
  2: { injection H as <- <-. split; [by apply not_moved|done]. }
  apply check_current_ok in Hcur. rewrite (same_layers_current object s s1 Hl) in Hcur.
  assert (Hnow : st_now s1 = st_now s) by apply Hoff.
  assert (Htr : transitions_of s1 = transitions_of s) by (unfold transitions_of, w_table; by rewrite Hfl).
  apply record_move_cases in H as [[Hsame Hraise]|(n & Hrow & Hrest & Hres)]; rewrite ?Hnow, ?Htr in *.
  - split; [apply not_moved; by etrans|]. intros t ->. discriminate Hraise.
  - split; [|intros t Ht; exists n; split; [by apply Hres|]; by rewrite (Hres t Ht)].
    apply (moved_once _ _ _ _ _ _ _ n st); [|done|].
    + split; [done| | | |done].
      * intros f Hf. by eapply check_source_ok.
      * intros Hnd p Hp Hpid. by eapply check_pipeline_ok.
      * by eapply check_mover_ok.
    + unfold same_flow in *. rewrite Hrest. cbn. by rewrite Hfl.
Qed.
End Effects.

(** ** The invariant of the stages *)

Section FlowInvariant.
Context `{host : !Host} `{sink : !AuditSink}.
Context (known_principal : string → bool).

#[local] Abbreviation flow_safe := (keeps flow_ok flow_later).

Lemma flow_keeps_same {R} (m : lp R) s : same_flow s (m s).2 → flow_safe m s.
Proof.
  intros H [A1 A2 A3 A4 A5]. unfold same_flow in H. split; [by split; unfold w_table in *; rewrite H|].
  split; unfold w_table; rewrite H; [done..|by left|by left].
Qed.

Lemma flow_keeps_apart {R} (m : lp R) s : respects same_flow m → flow_safe m s.
Proof. intros H. apply flow_keeps_same, H. Qed.

Lemma flow_keeps_reads {R} (m : lp R) s : reads m → flow_safe m s.
Proof. intros H. apply flow_keeps_same. by rewrite (H s). Qed.

Lemma flow_keeps_audit q s : flow_safe (audit q) s.
Proof. apply flow_keeps_apart, layers_flow, audit_layers. Qed.

Lemma flow_keeps_ret {R} (x : R) s : flow_safe (mret x : lp R) s.
Proof. apply flow_keeps_reads, reads_ret. Qed.

(** The moves as they were, the other tables only grown or archived. *)
Lemma flow_keeps_rows {R} (m : lp R) s :
  (flow_ok (st_db s) →
    transitions_of (m s).2 = transitions_of s ∧ promotions_of s `prefix_of` promotions_of (m s).2 ∧
    (stages_of s `prefix_of` stages_of (m s).2 ∧ NoDup (sg_id <$> stages_of (m s).2)) ∧
    (NoDup (pp_id <$> pipelines_of (m s).2) ∧
     ∀ x, x ∈ pipelines_of s → x ∈ pipelines_of (m s).2 ∨ archived_pipeline x ∈ pipelines_of (m s).2) ∧
    ∀ x, x ∈ channels_of s → x ∈ channels_of (m s).2 ∨ archived_channel x ∈ channels_of (m s).2) → flow_safe m s.
Proof.
  intros H Hok. destruct (H Hok) as (Ht & Hpm & (Hst & Hnds) & (Hndp & Hp) & Hc). clear H. destruct Hok as [A1 A2 A3 A4 A5].
  change (w_table w_transitions (st_db s)) with (transitions_of s) in *.
  split; [split|split]; change (w_table w_transitions (st_db (m s).2)) with (transitions_of (m s).2); rewrite ?Ht; try done.
  intros x Hx. assert (Hin : ∀ a, a ∈ stages_of s → a ∈ stages_of (m s).2) by (intros a Ha; by eapply elem_of_prefix).
  destruct (A3 x Hx) as (b & Hb & Hid & Hfrom). exists b. split; [by apply Hin|]. split; [done|].
  intros f Hf. destruct (Hfrom f Hf) as (a & Ha & ?). exists a. split; [by apply Hin|done].
Qed.

Lemma keeps_move rules object to by_ from reason s :
  (∀ x, x ∈ transitions_of s → tn_object x = object → (tn_at x < st_now s)%Z) →
  flow_safe (transition rules object to by_ from reason) s.
Proof.
  intros Hahead Hok. destruct (transition rules object to by_ from reason s) as [r s'] eqn:Hrun. cbn [snd].
  apply transition_moved in Hrun as [[Hsame|n t Hallow Hrow Hrest] _]; [by apply (flow_keeps_same (λ _, (r, s')) s)|].
  destruct Hallow as [[Ht Htid] Hsrc _ _ Hcur]. pose proof Hok as [A1 A2 A3 A4 A5].
  set (x := move_row n object to (st_now s) by_ from reason) in *.
  rewrite (current_move_last object s (A5 object)) in Hcur.
  assert (Hw : w_table w_stages (st_db s') = stages_of s ∧ w_table w_pipelines (st_db s') = pipelines_of s ∧
    w_table w_channels (st_db s') = channels_of s ∧ w_table w_promotions (st_db s') = promotions_of s)
    by (unfold w_table; rewrite Hrest; done).
  destruct Hw as (Hws & Hwp & Hwc & Hwm).
  assert (Hmoves : ∀ o, moves_of o (transitions_of s') = moves_of o (transitions_of s) ++ if decide (o = object) then [x] else []).
  { intros o. rewrite Hrow. unfold moves_of. rewrite filter_app. f_equal. rewrite filter_cons, filter_nil. unfold moves. cbn.
    destruct (decide (o = object)) as [->|Hne]; [by rewrite decide_True by by apply bool_decide_eq_true_2|].
    rewrite decide_False; [done|]. by intros ?%bool_decide_eq_true_1. }
  split; [split|split]; rewrite ?Hws, ?Hwp, ?Hwc, ?Hwm; try done.
  - intros y Hy. change (y ∈ transitions_of s') in Hy. rewrite Hrow in Hy.
    apply elem_of_app in Hy as [Hy| ->%list_elem_of_singleton]; [by apply A3|]. exists t. split; [done|]. split; [done|exact Hsrc].
  - intros o. change (chained None (moves_of o (transitions_of s'))). rewrite Hmoves.
    destruct (decide (o = object)) as [->|_]; [|rewrite app_nil_r; apply A4]. apply chained_snoc. split; [apply A4|].
    cbn. rewrite <-Hcur. unfold end_of. by destruct (last _).
  - intros o. change (StronglySorted earlier (moves_of o (transitions_of s'))). rewrite Hmoves.
    destruct (decide (o = object)) as [->|_]; [|rewrite app_nil_r; apply A5]. apply sorted_snoc; [apply A5|].
    intros y [Hyo%bool_decide_eq_true_1 Hy]%list_elem_of_filter. by apply Hahead.
  - change (transitions_of s `prefix_of` transitions_of s'). rewrite Hrow. by eexists.
  - by left.
  - by left.
Qed.

(** An INSERT into one of the tables that only need unique ids. *)
Lemma fresh_NoDup {R} (key : R → string) (l : list R) x :
  NoDup (key <$> l) → (∀ y, y ∈ l → key x ≠ key y) → NoDup (key <$> (l ++ [x])).
Proof.
  intros Hnd Hx. rewrite fmap_app, NoDup_app. split_and!; [done| |apply NoDup_singleton].
  intros k (y & -> & Hy)%list_elem_of_fmap Hk%list_elem_of_singleton. by apply (Hx y Hy).
Qed.

Lemma keeps_create_pipeline name owner description s : flow_safe (create_pipeline known_principal name owner description) s.
Proof.
  unfold create_pipeline, insert_pipeline. apply keeps_bind; [exact _|by apply flow_keeps_reads|]. intros ts s1 _.
  apply keeps_bind; [exact _|by apply flow_keeps_apart|]. intros id s2 _. cbv zeta. apply keeps_bind; [exact _| |].
  2: { intros. apply keeps_bind; [exact _|apply flow_keeps_audit|]. intros. apply flow_keeps_ret. }
  apply keeps_bind; [exact _|apply flow_keeps_reads, reads_raise_if|]. intros u s3 _.
  match goal with |- context [sql_insert ?a ?b ?c ?d ?e] => destruct (sql_insert_cases a b c d e s3) as [Hr|[Hf Hr]] end;
    [apply flow_keeps_same; by rewrite Hr|]. apply flow_keeps_rows. rewrite Hr. intros [A1 A2 A3 A4 A5]. split_and!; try done.
  - apply fresh_NoDup; [done|]. intros y Hy. specialize (Hf y Hy). by apply bool_decide_eq_false_1 in Hf.
  - intros x Hx. left. apply elem_of_app. by left.
  - by left.
Qed.

Lemma keeps_archive_pipeline id by_ s : flow_safe (archive_pipeline id by_) s.
Proof.
  unfold archive_pipeline. apply keeps_bind; [exact _| |intros; apply flow_keeps_audit].
  apply flow_keeps_rows. intros [A1 A2 A3 A4 A5]. split_and!; try done; [|intros x Hx|by left].
  - change (NoDup (pp_id <$> ((λ r, if by_pipeline id r then archived_pipeline r else r) <$> pipelines_of s))).
    rewrite <-list_fmap_compose, (list_fmap_ext _ pp_id); [done|]. intros i x _. cbn. by destruct (by_pipeline id x).
  - change (x ∈ ((λ r, if by_pipeline id r then archived_pipeline r else r) <$> pipelines_of s) ∨
      archived_pipeline x ∈ ((λ r, if by_pipeline id r then archived_pipeline r else r) <$> pipelines_of s)).
    rewrite !list_elem_of_fmap. destruct (by_pipeline id x) eqn:Hb; [right|left]; exists x; by rewrite Hb.
Qed.

Lemma keeps_add_stage pipeline name ordinal metadata s : flow_safe (add_stage pipeline name ordinal metadata) s.
Proof.
  unfold add_stage, insert_stage. apply keeps_bind; [exact _|by apply flow_keeps_apart|]. intros id s2 _. cbv zeta.
  apply keeps_bind; [exact _| |].
  2: { intros. apply keeps_bind; [exact _|apply flow_keeps_reads, fetch_one_reads|]. intros [p|] s4 _.
    - apply keeps_bind; [exact _|apply flow_keeps_audit|]. intros. apply flow_keeps_ret.
    - apply keeps_bind; [exact _|apply flow_keeps_ret|]. intros. apply flow_keeps_ret. }
  match goal with |- context [sql_insert ?a ?b ?c ?d ?e] => destruct (sql_insert_cases a b c d e s2) as [Hr|[Hf Hr]] end;
    [apply flow_keeps_same; by rewrite Hr|]. apply flow_keeps_rows. rewrite Hr. intros [A1 A2 A3 A4 A5]. split_and!; try done.
  - by eexists.
  - apply fresh_NoDup; [done|]. intros y Hy. specialize (Hf y Hy). apply orb_false_iff in Hf as [Hf _].
    by apply bool_decide_eq_false_1 in Hf.
  - by left.
  - by left.
Qed.

Lemma keeps_create_channel name st src tt_ tgt owner allowed s :
  flow_safe (create_channel known_principal name st src tt_ tgt owner allowed) s.
Proof.
  unfold create_channel, insert_channel. apply keeps_bind; [exact _|by apply flow_keeps_reads|]. intros ts s1 _.
  apply keeps_bind; [exact _|by apply flow_keeps_apart|]. intros id s2 _. cbv zeta. apply keeps_bind; [exact _| |].
  2: { intros. apply keeps_bind; [exact _|apply flow_keeps_audit|]. intros. apply flow_keeps_ret. }
  apply keeps_bind; [exact _|apply flow_keeps_reads, reads_raise_if|]. intros u s3 _.
  match goal with |- context [sql_insert ?a ?b ?c ?d ?e] => destruct (sql_insert_cases a b c d e s3) as [Hr|[Hf Hr]] end;
    [apply flow_keeps_same; by rewrite Hr|]. apply flow_keeps_rows. rewrite Hr. intros [A1 A2 A3 A4 A5]. split_and!; try done.
  - by left.
  - intros x Hx. left. apply elem_of_app. by left.
Qed.

Lemma keeps_archive_channel id by_ s : flow_safe (archive_channel id by_) s.
Proof.
  unfold archive_channel. apply keeps_bind; [exact _| |intros; apply flow_keeps_audit].
  apply flow_keeps_rows. intros [A1 A2 A3 A4 A5]. split_and!; try done; [by left|intros x Hx].
  change (x ∈ ((λ r, if by_channel id r then archived_channel r else r) <$> channels_of s) ∨
    archived_channel x ∈ ((λ r, if by_channel id r then archived_channel r else r) <$> channels_of s)).
  rewrite !list_elem_of_fmap. destruct (by_channel id x) eqn:Hb; [right|left]; exists x; by rewrite Hb.
Qed.

Lemma promotion_checks_reads object env scope stage : reads (promotion_checks object env scope stage).
Proof.
  assert (Hr : ∀ R (tbl : tables → list R) p e, reads (require_found tbl p e)).
  { intros R tbl p e. apply gate_reads. intros [x|]; [apply reads_ret|apply reads_raise]. }
  unfold promotion_checks. repeat (apply reads_bind; [apply Hr|intros _]). destruct stage; [apply Hr|apply reads_ret].
Qed.

Lemma can_flow_reads st src tt_ tgt type : reads (can_flow st src tt_ tgt type).
Proof. apply reads_bind; [by intros s|]. intros. apply reads_ret. Qed.

Lemma channel_gate_reads mg env scope type : reads (channel_gate mg env scope type).
Proof.
  unfold channel_gate. destruct (pr_flow mg); [|apply reads_ret].
  apply reads_bind; [apply can_flow_reads|]. intros. apply reads_raise_if.
Qed.

Lemma promotion_rules_off mg object type principal env scope :
  respects off_trail (_check_promotion_rules mg object type principal env scope).
Proof.
  unfold _check_promotion_rules. destruct (pr_rules mg) as [ttl|]; [|by intros s].
  respects_step; [apply evaluate_off_trail|respects_step].
Qed.

Lemma own_type_reads object type : reads (if given_str type then mret type else _get_object_type object).
Proof.
  destruct (given_str type); [apply reads_ret|]. unfold _get_object_type. apply reads_bind; [apply fetch_one_reads|].
  intros. apply reads_ret.
Qed.

Lemma keeps_insert_promotion x s : flow_safe (insert_promotion x) s.
Proof.
  unfold insert_promotion. repeat (apply keeps_bind; [exact _|apply flow_keeps_same; by rewrite require_row_reads|intros ? ? _]).
  apply keeps_bind; [exact _| |intros u s4 _].
  { apply flow_keeps_same. destruct (require_stage_opt_cases (pm_stage x) "promotions.target_stage_id" s2) as [->| ->]; done. }
  match goal with |- context [sql_insert ?a ?b ?c ?d ?e] => destruct (sql_insert_cases a b c d e s4) as [Hr|[Hf Hr]] end;
    [apply flow_keeps_same; by rewrite Hr|]. apply flow_keeps_rows. rewrite Hr. intros [A1 A2 A3 A4 A5]. split_and!; try done.
  - by eexists.
  - by left.
  - by left.
Qed.

Lemma keeps_promote_to_scope mg object env scope by_ stage type level s :
  flow_safe (promote_to_scope mg object env scope by_ stage type level) s.
Proof.
  unfold promote_to_scope. apply keeps_bind; [exact _|apply flow_keeps_reads, promotion_checks_reads|]. intros u1 s1 _.
  apply keeps_bind; [exact _|apply flow_keeps_reads, channel_gate_reads|]. intros u2 s2 _.
  apply keeps_bind; [exact _|apply flow_keeps_reads, own_type_reads|]. intros t s3 _.
  apply keeps_bind; [exact _|apply flow_keeps_apart, off_trail_flow, promotion_rules_off|]. intros u4 s4 _.
  apply keeps_bind; [exact _| |].
  { destruct (pr_projections mg); [|apply flow_keeps_ret]. apply keeps_bind; [exact _| |intros; apply flow_keeps_ret].
    apply flow_keeps_apart, layers_flow, project_layers. }
  intros u5 s5 _. apply keeps_bind; [exact _|by apply flow_keeps_reads|]. intros ts s6 _.
  apply keeps_bind; [exact _|by apply flow_keeps_apart|]. intros id s7 _. cbv zeta.
  apply keeps_bind; [exact _|apply keeps_insert_promotion|]. intros u8 s8 _.
  apply keeps_bind; [exact _|apply flow_keeps_audit|]. intros. apply flow_keeps_ret.
Qed.
End FlowInvariant.

(** ** The flow layer's state machine *)

Inductive flow_op :=
  | FCreatePipeline (name owner description : string)
  | FArchivePipeline (id by_ : string)
  | FAddStage (pipeline name : string) (ordinal : Z) (metadata : option jdict)
  | FTransition (rules : option (option Z)) (object to by_ : string) (from : option string) (reason : string)
  | FCreateChannel (name : string) (source_type : FlowPointType) (source : string) (target_type : FlowPointType)
      (target owner : string) (allowed : option (list string))
  | FArchiveChannel (id by_ : string)
  | FPromote (mg : PromotionManager) (object env scope by_ : string) (stage type : option string) (level : AccessLevel).

Section FlowMachine.
Context `{host : !Host} `{sink : !AuditSink}.
Context (known_principal : string → bool).

Definition run_flow_op (op : flow_op) : lp unit :=
  match op with
  | FCreatePipeline name owner description => create_pipeline known_principal name owner description ;; mret tt
  | FArchivePipeline id by_ => archive_pipeline id by_
  | FAddStage pipeline name ordinal metadata => add_stage pipeline name ordinal metadata ;; mret tt
  | FTransition rules object to by_ from reason => transition rules object to by_ from reason ;; mret tt
  | FCreateChannel name st src tt_ tgt owner allowed =>
      create_channel known_principal name st src tt_ tgt owner allowed ;; mret tt
  | FArchiveChannel id by_ => archive_channel id by_
  | FPromote mg object env scope by_ stage type level => promote_to_scope mg object env scope by_ stage type level ;; mret tt
  end.

(** The clock has moved on since the object's last move: two moves of one object
    in the same microsecond have no order. *)
Definition clock_ahead (op : flow_op) (s : store) : Prop :=
  match op with
  | FTransition _ object _ _ _ _ => ∀ x, x ∈ transitions_of s → tn_object x = object → (tn_at x < st_now s)%Z
  | _ => True
  end.

Inductive flow_step : relation store :=
  | flow_step_op op s : clock_ahead op s → flow_step s (run_flow_op op s).2
  | flow_step_other s s' : same_flow s s' → flow_step s s'.

Lemma run_flow_op_keeps op s : clock_ahead op s → keeps flow_ok flow_later (run_flow_op op) s.
Proof.
  intros Hahead. destruct op; cbn [run_flow_op];
    try (apply keeps_bind; [exact _| |intros; apply flow_keeps_ret]).
  - apply keeps_create_pipeline. - apply keeps_archive_pipeline. - apply keeps_add_stage. - by apply keeps_move.
  - apply keeps_create_channel. - apply keeps_archive_channel. - apply keeps_promote_to_scope.
Qed.

(** The state machine of pipelines.  From a well-formed store, every sequence
    of calls of the flow layer (whether they return or raise, with the clock
    moving between two moves of one object) interleaved with anything the rest
    of the program does reaches a well-formed store: every move goes to a stage
    that exists, from a stage of the same pipeline, and the moves of an object
    are one chain in time order, so that its current stage is where its last
    move ended.  Stages, moves and promotions are only ever appended. *)
Theorem flow_reachable_ok s s' :
  flow_ok (st_db s) → rtc flow_step s s' →
  flow_ok (st_db s') ∧ flow_later (st_db s) (st_db s') ∧
  ∀ object, current_move object s' = last (moves_of object (transitions_of s')).
Proof.
  intros Hok Hsteps.
  assert (H : flow_ok (st_db s') ∧ flow_later (st_db s) (st_db s')).
  { induction Hsteps as [s|s1 s2 s3 Hstep Hrest IH]; [by split|].
    assert (Hsafe : flow_ok (st_db s2) ∧ flow_later (st_db s1) (st_db s2)).
    { destruct Hstep as [op s1 Hahead|s1 s2 Hsame]; [by apply run_flow_op_keeps|].
      by apply (flow_keeps_same (λ _, (Ok tt, s2)) s1). }
    destruct Hsafe as [Hok2 Hl]. destruct (IH Hok2) as [Hok3 Hl']. split; [done|by etrans]. }
  destruct H as [Hok' Hl]. split_and!; [done..|]. intros object. apply current_move_last, (fw_times _ Hok').
Qed.

(** Moving an object to a stage.  A move that returns was made by the
    object's owner, to a stage that exists in a pipeline that is not archived,
    from the stage the object is in (none for a first placement), which is a
    stage of the same pipeline; exactly one move is appended, with the caller's
    data and the time, and with the clock ahead it becomes the object's current
    one.  A call that raises appends nothing, or the one allowed move whose
    audit record failed. *)
Theorem stage_transition_exact rules object to by_ from reason s r s' :
  flow_ok (st_db s) → transition rules object to by_ from reason s = (r, s') →
  match r with
  | Ok t =>
      (∃ st, move_allowed object to by_ from s st ∧
        ∀ p, p ∈ pipelines_of s → pp_id p = sg_pipeline st → pipeline_active p = true) ∧
      tn_object t = object ∧ tn_to t = to ∧ tn_from t = from ∧ tn_by t = by_ ∧ tn_at t = st_now s ∧ tn_reason t = reason ∧
      transitions_of s' = transitions_of s ++ [t] ∧
      (clock_ahead (FTransition rules object to by_ from reason) s → current_move object s' = Some t)
  | Raise _ =>
      transitions_of s' = transitions_of s ∨
      ∃ n st, move_allowed object to by_ from s st ∧
        transitions_of s' = transitions_of s ++ [move_row n object to (st_now s) by_ from reason]
  end.
Proof.
  intros Hok H. pose proof (transition_moved _ _ _ _ _ _ _ _ _ H) as [Hmoved Hres]. destruct r as [t|e].
  - destruct (Hres t eq_refl) as (n & Ht & Hrow). destruct Hmoved as [Hsame|n' st Hallow Hrow' Hrest].
    { exfalso. assert (transitions_of s' = transitions_of s) as Heq by (unfold transitions_of, w_table; by rewrite Hsame).
      rewrite Heq in Hrow. apply (f_equal length) in Hrow. rewrite length_app in Hrow. cbn in Hrow. lia. }
    split; [exists st; split; [done|]; by apply (mv_pipeline _ _ _ _ _ _ Hallow), fw_pipelines|].
    rewrite Ht. split_and!; try done; [by rewrite <-Ht|]. intros Hahead.
    destruct (keeps_move rules object to by_ from reason s Hahead Hok) as [Hok' _]. rewrite H in Hok'. cbn [snd] in Hok'.
    rewrite (current_move_last object s' (fw_times _ Hok' object)), Hrow. unfold moves_of. rewrite filter_app.
    rewrite (filter_cons_True _ t) by (apply bool_decide_eq_true_2; by rewrite Ht). rewrite filter_nil, last_snoc. by rewrite Ht.
  - destruct Hmoved as [Hsame|n st Hallow Hrow _]; [left; unfold transitions_of, w_table; by rewrite Hsame|].
    right. by exists n, st.
Qed.
End FlowMachine.

(** ** Channels *)

Section ChannelTheory.
Context `{host : !Host} `{sink : !AuditSink}.

(** The active channels of a route. *)
Definition route (source_type : FlowPointType) (source : string) (target_type : FlowPointType) (target : string)
  (s : store) : list FlowChannel :=
  filter (λ x, channel_filter (Some source_type) (Some source) (Some target_type) (Some target) true x = true)
    (channels_of s).

Lemma route_elem st src tt_ tgt s x :
  x ∈ route st src tt_ tgt s ↔ x ∈ channels_of s ∧ fc_lifecycle x = ACTIVE ∧ fc_source_type x = st ∧ fc_source x = src ∧
    fc_target_type x = tt_ ∧ fc_target x = tgt.
Proof.
  unfold route. rewrite list_elem_of_filter. unfold channel_filter, filter_opt, channel_active. cbn.
  rewrite !andb_true_iff, !bool_decide_eq_true. naive_solver.
Qed.

(** The channels [can_flow] looks at. *)
Definition candidates_of (st : FlowPointType) (src : string) (tt_ : FlowPointType) (tgt : string) (s : store)
  : list FlowChannel := take channel_limit (sort_by newest_channel (scan (route st src tt_ tgt s))).

Lemma candidates_elem st src tt_ tgt s c : c ∈ candidates_of st src tt_ tgt s → c ∈ route st src tt_ tgt s.
Proof.
  intros Hc. rewrite <-(scan_perm (route st src tt_ tgt s)), <-(elem_of_sort_by newest_channel).
  rewrite <-(take_drop channel_limit (sort_by _ _)). apply elem_of_app. by left.
Qed.

Lemma can_flow_run st src tt_ tgt type s :
  can_flow st src tt_ tgt type s = (Ok (resolve_flow type (candidates_of st src tt_ tgt s)), s).
Proof. done. Qed.

Lemma resolve_flow_found type l :
  fl_allowed (resolve_flow type l) = true → ∃ c, fl_channel (resolve_flow type l) = Some c ∧ c ∈ l ∧ permits type c = true.
Proof.
  unfold resolve_flow. destruct l as [|c0 l]; [done|]. destruct (find (permits type) (c0 :: l)) as [c|] eqn:Hf; [|done].
  intros _. apply find_Some_elem in Hf as [Hc Hp]. by exists c.
Qed.

Lemma resolve_flow_finds type l c : c ∈ l → permits type c = true → fl_allowed (resolve_flow type l) = true.
Proof.
  intros Hc Hp. unfold resolve_flow. destruct l as [|c0 l]; [by apply elem_of_nil in Hc|].
  destruct (find (permits type) (c0 :: l)) as [d|] eqn:Hf; [done|]. by rewrite (find_None_elem _ _ c Hf Hc) in Hp.
Qed.

(** Flow resolution against its specification.  What can_flow allows has an
    active channel of exactly that route that permits the type.  Conversely
    such a channel is found whenever the route has at most 100 channels, and an
    untyped request is allowed by any channel of the route, whatever types the
    channel is restricted to. *)
Theorem can_flow_exact st src tt_ tgt type s :
  ∃ r, can_flow st src tt_ tgt type s = (Ok r, s) ∧
    (fl_allowed r = true → ∃ c, fl_channel r = Some c ∧ c ∈ route st src tt_ tgt s ∧ permits type c = true) ∧
    (length (route st src tt_ tgt s) ≤ channel_limit ∨ type = None →
     (∃ c, c ∈ route st src tt_ tgt s ∧ permits type c = true) → fl_allowed r = true).
Proof.
  exists (resolve_flow type (candidates_of st src tt_ tgt s)). split; [apply can_flow_run|]. split.
  - intros (c & Hch & Hc & Hp)%resolve_flow_found. exists c. split_and!; [done|by apply candidates_elem|done].
  - intros Hsmall (c & Hc & Hp). assert (Hsorted : c ∈ sort_by newest_channel (scan (route st src tt_ tgt s)))
      by by rewrite elem_of_sort_by, scan_perm.
    destruct Hsmall as [Hle| ->].
    + apply (resolve_flow_finds _ _ c); [|done]. unfold candidates_of. rewrite take_ge; [done|].
      by rewrite sort_by_perm, scan_perm.
    + unfold candidates_of. destruct (sort_by _ _) as [|c0 l]; [by apply elem_of_nil in Hsorted|].
      apply (resolve_flow_finds _ _ c0); [by left|done].
Qed.
End ChannelTheory.

(** ** Promotion *)

Section PromotionTheory.
Context `{host : !Host} `{sink : !AuditSink}.

(** [object] is visible in the scope [sc]: it has an active projection there. *)
Definition projected_in (sc object : string) (s : store) : Prop :=
  ∃ p, p ∈ t_projections (st_db s) ∧ of_share sc object p = true ∧ sp_lifecycle p = ACTIVE.

Lemma projected_off_trail sc object s s' : off_trail s s' → projected_in sc object s → projected_in sc object s'.
Proof. intros [H _] (p & Hp & ?). exists p. injection H as _ _ _ _ _ Heq _ _ _ _ _ _. by rewrite Heq. Qed.

Lemma project_ok sc object by_ level s p s' :
  project sc object by_ level s = (Ok p, s') →
  projected_in sc object s' ∧ (∃ o, o ∈ t_objects (st_db s) ∧ so_id o = object ∧ so_owner o = by_) ∧
  ∃ scope, scope ∈ t_scopes (st_db s) ∧ sc_id scope = sc ∧ is_mutable scope = true.
Proof.
  intros H. unfold project in H. apply bind_ok_inv in H as (row & s1 & [-> Hrow]%fetch_one_ok & H).
  apply bind_ok_inv in H as (u & s1 & Hmut & H). destruct row as [scope|]; [|discriminate Hmut].
  destruct Hrow as [Hsc Hscid%bool_decide_eq_true_1]. destruct u. apply raise_if_ok in Hmut as [Hmut ->].
  apply bind_ok_inv in H as (orow & s1 & [-> Ho]%fetch_one_ok & H).
  apply bind_ok_inv in H as (u & s1 & Hown & H). destruct orow as [o|]; [|discriminate Hown].
  destruct Ho as [Ho Hoid%bool_decide_eq_true_1]. destruct u.
  apply raise_if_ok in Hown as [Hown%negb_false_iff%bool_decide_eq_true_1 ->].
  assert (Hrest : (∃ o, o ∈ t_objects (st_db s) ∧ so_id o = object ∧ so_owner o = by_) ∧
    ∃ scope, scope ∈ t_scopes (st_db s) ∧ sc_id scope = sc ∧ is_mutable scope = true).
  { split; [by exists o|]. exists scope. split_and!; [done..|]. unfold is_mutable. by rewrite Hmut. }
  split; [|exact Hrest]. clear Hrest. apply bind_ok_inv in H as (ts & s1 & [-> ->]%now_utc_ok & H).
  apply bind_ok_inv in H as (prow & s1 & [-> Hp]%fetch_one_ok & H). destruct prow as [q|].
  - destruct Hp as [Hq Hshare]. destruct (active_projection q) eqn:Hact.
    + apply mret_ok in H as [-> ->]. exists q. split_and!; [done..|]. by apply bool_decide_eq_true_1 in Hact.
    + apply bind_ok_inv in H as (v & s1 & ->%sql_update_ok & H). cbv zeta in H.
      apply bind_ok_inv in H as (w & s2 & Haud & H). apply mret_ok in H as [_ ->].
      apply audit_ok, quiet_off_trail in Haud. eapply projected_off_trail; [exact Haud|].
      exists (set_projection ACTIVE (st_now s) by_ level q). split; [|done].
      apply list_elem_of_fmap. exists q. by rewrite Hshare.
  - apply bind_ok_inv in H as (i & s1 & [-> ->]%generate_id_ok & H). cbv zeta in H.
    apply bind_ok_inv in H as (v & s1 & Hins & H). unfold insert_projection in Hins.
    apply bind_ok_inv in Hins as (w1 & s2 & [-> _]%require_row_ok & Hins).
    apply bind_ok_inv in Hins as (w2 & s2 & [-> _]%require_row_ok & Hins). apply sql_insert_ok in Hins as [_ ->].
    apply bind_ok_inv in H as (w & s2 & Haud & H). apply mret_ok in H as [-> ->].
    apply audit_ok, quiet_off_trail in Haud. eapply projected_off_trail; [exact Haud|].
    eexists. split; [apply elem_of_app; right; by left|]. unfold of_share. cbn. by rewrite !bool_decide_eq_true_2.
Qed.

Lemma require_found_ok {R} (tbl : tables → list R) p e s u s' :
  require_found tbl p e s = (Ok u, s') → s' = s ∧ ∃ x, x ∈ tbl (st_db s) ∧ p x = true.
Proof.
  intros H. unfold require_found in H. apply bind_ok_inv in H as (x & s1 & [-> Hx]%fetch_one_ok & H).
  destruct x as [x|]; [|discriminate H]. apply mret_ok in H as [_ ->]. split; [done|]. by exists x.
Qed.

(** What a promotion needs to exist. *)
Record promotable (object env scope : string) (stage : option string) (s : store) : Prop := {
  pb_env : ∃ e, e ∈ envs_of s ∧ en_id e = env;
  pb_scope : ∃ sc, sc ∈ t_scopes (st_db s) ∧ sc_id sc = scope;
  pb_object : ∃ o, o ∈ t_objects (st_db s) ∧ so_id o = object;
  pb_stage : ∀ st, stage = Some st → ∃ x, x ∈ stages_of s ∧ sg_id x = st;
}.

Lemma promotion_checks_ok object env scope stage s u s' :
  promotion_checks object env scope stage s = (Ok u, s') → promotable object env scope stage s.
Proof.
  unfold promotion_checks. intros H.
  apply bind_ok_inv in H as (u1 & s1 & [-> (e & He & Heid%bool_decide_eq_true_1)]%require_found_ok & H).
  apply bind_ok_inv in H as (u2 & s1 & [-> (sc & Hsc & Hscid%bool_decide_eq_true_1)]%require_found_ok & H).
  apply bind_ok_inv in H as (u3 & s1 & [-> (o & Ho & Hoid%bool_decide_eq_true_1)]%require_found_ok & H).
  split; [by exists e|by exists sc|by exists o|]. intros st ->.
  apply require_found_ok in H as [-> (x & Hx & Hxid%bool_decide_eq_true_1)]. by exists x.
Qed.

Lemma channel_gate_ok mg env scope type s u s' :
  channel_gate mg env scope type s = (Ok u, s') → pr_flow mg = true →
  ∃ c, c ∈ route FP_ENVIRONMENT env FP_SCOPE scope s ∧ permits type c = true.
Proof.
  intros H Hf. unfold channel_gate in H. rewrite Hf in H. rewrite run_bind in H.
  rewrite can_flow_run in H. destruct u. apply raise_if_ok in H as [H%negb_false_iff _].
  apply resolve_flow_found in H as (c & _ & Hc%candidates_elem & Hp). by exists c.
Qed.

Definition with_promotions (l : list Promotion) (s : store) : store := put_db (set_promotions l (st_db s)) s.

Lemma insert_promotion_cases x s :
  (∃ e, insert_promotion x s = (Raise e, s)) ∨
  insert_promotion x s = (Ok tt, with_promotions (promotions_of s ++ [x]) s).
Proof.
  unfold insert_promotion. rewrite run_bind.
  destruct (require_row_cases t_objects (by_object (pm_object x)) "promotions.object_id" s) as [->| ->]; [|left; by eexists].
  rewrite run_bind.
  destruct (require_row_cases (e_table e_envs) (by_env (pm_env x)) "promotions.source_env_id" s) as [->| ->]; [|left; by eexists].
  rewrite run_bind.
  destruct (require_row_cases t_scopes (by_scope (pm_scope x)) "promotions.target_scope_id" s) as [->| ->]; [|left; by eexists].
  rewrite run_bind. destruct (require_stage_opt_cases (pm_stage x) "promotions.target_stage_id" s) as [->| ->]; [|left; by eexists].
  destruct (sql_insert_cases (w_table w_promotions) set_promotions (λ a b, bool_decide (pm_id a = pm_id b))
    "promotions.id" x s) as [->|[_ ->]]; [left; by eexists|by right].
Qed.

Lemma insert_promotion_ok x s u s' :
  insert_promotion x s = (Ok u, s') → s' = with_promotions (promotions_of s ++ [x]) s.
Proof. destruct (insert_promotion_cases x s) as [[e ->]| ->]; [done|]. by intros [= _ <-]. Qed.

Lemma layers_of_trail s s' : off_trail s s' → t_objects (st_db s') = t_objects (st_db s) ∧ t_scopes (st_db s') = t_scopes (st_db s).
Proof. intros [H _]. by injection H. Qed.

(** Promoting one object.  A promotion that returns names an environment, a
    scope, an object and (when given) a stage that exist; with a flow engine
    some active channel leads from the environment to the scope and permits the
    type that was passed (any channel, when none was); with a projection
    manager the caller owns the object, the scope was open, and the object now
    has an active projection in it.  Exactly one promotion is recorded, with
    the caller's data, and no move between stages: the stage is only noted. *)
Theorem promotion_exact mg object env scope by_ stage type level s p s' :
  promote_to_scope mg object env scope by_ stage type level s = (Ok p, s') →
  promotable object env scope stage s ∧
  (pr_flow mg = true → ∃ c, c ∈ route FP_ENVIRONMENT env FP_SCOPE scope s ∧ permits type c = true) ∧
  (pr_projections mg = true → projected_in scope object s' ∧
    (∃ o, o ∈ t_objects (st_db s) ∧ so_id o = object ∧ so_owner o = by_) ∧
    ∃ sc, sc ∈ t_scopes (st_db s) ∧ sc_id sc = scope ∧ is_mutable sc = true) ∧
  pm_object p = object ∧ pm_env p = env ∧ pm_scope p = scope ∧ pm_by p = by_ ∧ pm_stage p = stage ∧
  promotions_of s' = promotions_of s ++ [p] ∧ transitions_of s' = transitions_of s.
Proof.
  intros H. unfold promote_to_scope in H. apply bind_ok_inv in H as (u1 & s1 & Hchk & H).
  pose proof (promotion_checks_reads object env scope stage s) as Hr. rewrite Hchk in Hr. cbn [snd] in Hr. subst s1.
  apply promotion_checks_ok in Hchk. split; [done|]. apply bind_ok_inv in H as (u2 & s1 & Hgate & H).
  pose proof (channel_gate_reads mg env scope type s) as Hr. rewrite Hgate in Hr. cbn [snd] in Hr. subst s1.
  split; [intros Hf; by eapply channel_gate_ok|].
  apply bind_ok_inv in H as (t & s1 & Htype & H). pose proof (own_type_reads object type s) as Hr. rewrite Htype in Hr.
  cbn [snd] in Hr. subst s1. apply bind_ok_inv in H as (u3 & s1 & Hrules & H).
  apply (off_trail_run _ _ _ _ (promotion_rules_off mg object t by_ env scope)) in Hrules as Hoff1.
  apply bind_ok_inv in H as (u4 & s2 & Hproj & H). apply bind_ok_inv in H as (ts & s3 & [-> ->]%now_utc_ok & H).
  apply bind_ok_inv in H as (id & s3 & [-> ->]%generate_id_ok & H). cbv zeta in H.
  apply bind_ok_inv in H as (u5 & s3 & Hins & H). apply insert_promotion_ok in Hins as ->.
  apply bind_ok_inv in H as (u6 & s4 & Haud & H). apply mret_ok in H as [-> ->].
  apply audit_ok, quiet_off_trail in Haud as Hoff2.
  assert (Hlay : same_layers s1 s2).
  { destruct (pr_projections mg); [|by apply mret_ok in Hproj as [_ ->]].
    apply bind_ok_inv in Hproj as (q & s5 & Hproj & Hq). apply mret_ok in Hq as [_ ->].
    pose proof (project_layers scope object by_ level s1) as Hl. by rewrite Hproj in Hl. }
  assert (Hflow : flow (st_db s2) = flow (st_db s)) by (unfold flow; by rewrite Hlay, (off_trail_layers _ _ Hoff1)).
  split.
  - intros Hpm. rewrite Hpm in Hproj. apply bind_ok_inv in Hproj as (q & s5 & Hproj & Hq). apply mret_ok in Hq as [_ ->].
    destruct (project_ok _ _ _ _ _ _ _ Hproj) as (Hin & Hown & Hopen).
    destruct (layers_of_trail _ _ Hoff1) as (Ho & Hs). rewrite Ho in Hown. rewrite Hs in Hopen.
    split_and!; [|done..]. by eapply projected_off_trail.
  - assert (Hend : flow (st_db s4) = flow (st_db (with_promotions (promotions_of s2 ++ [{| pm_id := id_of (st_next s2);
      pm_object := object; pm_env := env; pm_scope := scope; pm_at := st_now s2; pm_by := by_; pm_stage := stage |}]) s2)))
      by (unfold flow; by rewrite (off_trail_layers _ _ Hoff2)).
    split_and!; try done; unfold promotions_of, transitions_of, w_table in *; rewrite Hend; cbn; by rewrite Hflow.
Qed.

(** *** The interface of the environments *)

Lemma promote_one_apart mg object env scope by_ stage level :
  respects same_envs (promote_one mg object env scope by_ stage level).
Proof.
  unfold promote_one, promote_to_scope. respects_step; [|respects_step].
  respects_step; [apply reads_respects; [exact _|apply promotion_checks_reads]|].
  respects_step; [apply reads_respects; [exact _|apply channel_gate_reads]|].
  respects_step; [apply reads_respects; [exact _|apply (own_type_reads object None)]|].
  respects_step; [apply off_trail_envs, promotion_rules_off|].
  respects_step; [destruct (pr_projections mg); [respects_step; [apply layers_envs, project_layers|respects_step]|respects_step]|].
  respects_step; [by intros s|]. respects_step; [by intros s|]. cbv zeta.
  respects_step; [|respects_step; [apply layers_envs, audit_layers|respects_step]].
  intros s. destruct (insert_promotion_cases {| pm_id := a5; pm_object := object; pm_env := env; pm_scope := scope;
    pm_at := a4; pm_by := by_; pm_stage := stage |} s) as [[e ->]| ->]; done.
Qed.

#[export] Instance flow_promoter (mg : PromotionManager) : Promoter := {
  promote_object := promote_one mg;
  promote_object_apart := promote_one_apart mg;
}.
End PromotionTheory.
