(* ===== verification/RuleGate.v ===== *)
(** * Legacy v1: what the layers at the edge share

    The rule gate of integrations, connectors and the marketplace
    ([_check_rule] of each of their managers), and the text of a driver's exception
    that they look into. *)

From Stdlib Require Import Ascii.
From S2P Require Import Prelude LegacyTypes Schema Json Trail Rules Tenancy Leaks Flow.

(** [str.lower], on code points up to 255. *)
Definition lower_char (c : ascii) : ascii :=
  let n := nat_of_ascii c in
  if (65 <=? n) && (n <=? 90) || (192 <=? n) && (n <=? 222) && negb (n =? 215) then ascii_of_nat (n + 32) else c.

Fixpoint py_lower (s : string) : string :=
  match s with EmptyString => EmptyString | String c s' => String (lower_char c) (py_lower s') end.

(** One of the words occurs in the lower-cased text. *)
Definition mentions (words : list string) (text : string) : bool :=
  existsb (λ w, contains w (py_lower text)) words.

(** An execute whose failure is turned into [err] when its text mentions a word. *)
Definition translating (exc_text : exn → string) (words : list string) (err : exn) (m : lp unit) : lp unit :=
  r ← try m;
  match r with
  | Ok _ => mret tt
  | Raise exc => raise (if mentions words (exc_text exc) then err else exc)
  end.

Section Gate.
Context `{host : !Host} `{sink : !AuditSink}.
(** The rule engine, if one is wired, by the lifetime of its cache. *)
Context (rule_engine : option (option Z)).

Definition access (action : string) (principal : option string) (object_type : string) (object scope : option string)
  : access_request := {|
  a_action := action; a_principal_id := principal; a_principal_kind := None; a_object_type := Some object_type;
  a_object_id := object; a_scope_id := scope; a_environment_id := None |}.

Definition _check_rule (q : access_request) : lp unit :=
  match rule_engine with
  | None => mret tt
  | Some ttl =>
      result ← evaluate ttl q;
      raise_if (denied_by_rules result) (AccessDenied (a_action q +:+ " denied by rule(s): " +:+ deny_names result))
  end.

Lemma check_rule_off q : respects off_trail (_check_rule q).
Proof.
  unfold _check_rule. destruct rule_engine as [ttl|]; [|by intros s].
  respects_step; [apply evaluate_off_trail|respects_step].
Qed.

(** The gate returns only when the engine did not deny. *)
Lemma check_rule_ok q s u s' :
  _check_rule q s = (Ok u, s') →
  ∀ ttl, rule_engine = Some ttl → ∃ result, evaluate ttl q s = (Ok result, s') ∧ denied_by_rules result = false.
Proof.
  unfold _check_rule. intros H ttl ->. apply bind_ok_inv in H as (result & s1 & Heval & H). destruct u.
  apply raise_if_ok in H as [Hd ->]. by exists result.
Qed.
End Gate.

Lemma translating_cases exc_text words err (m : lp unit) s :
  (∃ s', m s = (Ok tt, s') ∧ translating exc_text words err m s = (Ok tt, s')) ∨
  (∃ e e' s', m s = (Raise e, s') ∧ translating exc_text words err m s = (Raise e', s') ∧ (e' = err ∨ e' = e)).
Proof.
  unfold translating, try. rewrite run_bind. destruct (m s) as [[[]|e] s']; [left; by exists s'|right].
  exists e, (if mentions words (exc_text e) then err else e), s'. split; [done|]. split; [done|]. destruct (mentions _ _); auto.
Qed.
