(* ===== verification/Temporal.v ===== *)
(** * Legacy v1: rollback and reconstruction (temporal/)

    What the trail remembers is put back: one action, everything after an
    instant, or an action with all that depends on it; and the state of a target
    at an instant is read off the trail. *)

From S2P Require Import Prelude LegacyTypes Schema Trail Rules Objects Environments.

(** ** constraints.py *)

Record ConstraintCheck := {
  ck_permitted : bool; ck_reason : string; ck_entry : TraceEntry; ck_deny_rules : list Rule;
}.

Definition IMMUTABLE_TARGET_TYPES : list string := ["audit"; "trace"].

(** ** rollback.py: the results *)

Record RollbackResult := {
  rb_success : bool; rolled_back : list string; rollback_trace_ids : list string;
  rb_skipped : list string; rb_denied : list string;
}.

Record RollbackPreview := {
  would_rollback : list string; would_skip : list string; would_deny : list string; entry_count : nat;
}.

Definition not_null (v : option jval) : option jval :=
  match v with Some JVnull => None | _ => v end.

(** The version an entry leads back to: from its metadata, or, for older entries,
    from the state it recorded. *)
Definition before_version (e : TraceEntry) : option jval :=
  match not_null (jget (te_metadata e) "before_version") with
  | Some v => Some v
  | None => match te_before e with Some st => not_null (jget st "current_version") | None => None end
  end.

Definition after_version (e : TraceEntry) : option jval := not_null (jget (te_metadata e) "after_version").

Definition after_time (at_ : Z) (e : TraceEntry) : bool := (at_ <? te_timestamp e)%Z.

(** Keep the first entry of each id. *)
Fixpoint unique_entries (seen : list string) (l : list TraceEntry) : list TraceEntry :=
  match l with
  | [] => []
  | e :: l' => if bool_decide (te_id e ∈ seen) then unique_entries seen l'
               else e :: unique_entries (te_id e :: seen) l'
  end.

(** [reason or default]. *)
Definition or_reason (reason default : string) : string := if bool_decide (reason = "") then default else reason.

Section Temporal.
Context `{host : !Host} `{sink : !AuditSink}.

(** *** RollbackConstraintChecker

    [engine]: the rule engine the checker was built with (its cache's lifetime). *)

Definition rollback_question (e : TraceEntry) (actor : string) (kind : option string) : access_request := {|
  a_action := "rollback"; a_principal_id := Some actor; a_principal_kind := kind;
  a_object_type := Some (te_target_type e); a_object_id := Some (te_target_id e);
  a_scope_id := te_scope e; a_environment_id := None |}.

Definition check (engine : option (option Z)) (e : TraceEntry) (actor : string) (kind : option string)
  : lp ConstraintCheck :=
  if bool_decide (te_target_type e ∈ IMMUTABLE_TARGET_TYPES)
  then mret {| ck_permitted := false;
    ck_reason := "Target type '" +:+ te_target_type e +:+ "' is immutable and cannot be rolled back";
    ck_entry := e; ck_deny_rules := [] |}
  else
    let permitted := {| ck_permitted := true; ck_reason := "Rollback permitted"; ck_entry := e;
                        ck_deny_rules := [] |} in
    match engine with
    | None => mret permitted
    | Some ttl =>
        result ← evaluate ttl (rollback_question e actor kind);
        mret (if negb (allowed result) && negb (bool_decide (deny_rules result = []))
              then {| ck_permitted := false; ck_reason := "Rollback denied by rule engine"; ck_entry := e;
                      ck_deny_rules := deny_rules result |}
              else permitted)
    end.

Definition check_or_raise (engine : option (option Z)) (e : TraceEntry) (actor : string) (kind : option string)
  : lp ConstraintCheck :=
  result ← check engine e actor kind;
  raise_if (negb (ck_permitted result)) (RollbackDenied (ck_reason result)) ;;
  mret result.

Definition check_many (engine : option (option Z)) (l : list TraceEntry) (actor : string) (kind : option string)
  : lp (list ConstraintCheck) :=
  for_fold l [] (λ acc e, c ← check engine e actor kind; mret (acc ++ [c])).

(** *** RollbackExecutor

    [constraints]: the checker the executor was built with, if any. *)
Context (constraints : option (option (option Z))).

Definition _check_constraints (e : TraceEntry) (actor : string) (kind : option string) : lp unit :=
  match constraints with
  | None => mret tt
  | Some engine => check_or_raise engine e actor kind ;; mret tt
  end.

(** The tables of the model hold natural numbers as versions and the six states of
    an environment, which is all that the entries written by the code carry; with
    any other value, which the database would store as it is, the model stops. *)
Definition as_version (v : jval) : lp nat :=
  match v with
  | JVint z => if (0 <=? z)%Z then mret (Z.to_nat z) else raise (IntegrityError "scoped_objects.current_version")
  | _ => raise (IntegrityError "scoped_objects.current_version")
  end.

Definition as_state (v : jval) : lp EnvironmentState :=
  match find (λ st, is_jstr (env_state_value st) v)
          [SPAWNING; ENV_ACTIVE; SUSPENDED; COMPLETED; DISCARDED; PROMOTED] with
  | Some st => mret st
  | None => raise (IntegrityError "environments.state")
  end.

Definition as_dict (v : jval) : lp jdict :=
  match v with JVdict d => mret d | _ => raise (IntegrityError "environments.metadata_json") end.

Definition with_env_values (st : option EnvironmentState) (meta : option jdict) (e : Environment) : Environment := {|
  en_id := en_id e; en_name := en_name e; en_owner := en_owner e; en_created_at := en_created_at e;
  en_state := default (en_state e) st; en_description := en_description e; en_template := en_template e;
  en_scope := en_scope e; en_ephemeral := en_ephemeral e; en_completed_at := en_completed_at e;
  en_metadata := default (en_metadata e) meta |}.

(** The object's row was found. *)
Definition restore_object (e : TraceEntry) : lp unit :=
  match before_version e with
  | Some v =>
      n ← as_version v;
      sql_update t_objects set_objects (of_object (te_target_id e)) (with_version n) ;;
      match after_version e with
      | None => mret tt
      | Some w =>
          if jval_eqb w v then mret tt
          else
            m ← as_version w;
            sql_delete t_object_versions set_object_versions
              (λ x, bool_decide (ov_object x = te_target_id e) && (ov_version x =? m))
      end
  | None =>
      match te_before e with
      | None => sql_update t_objects set_objects (of_object (te_target_id e)) archived_object
      | Some _ => mret tt
      end
  end.

(** The environment's row was found. *)
Definition restore_environment (e : TraceEntry) : lp unit :=
  match te_before e with
  | Some st =>
      state ← match jget st "state" with None => mret None | Some v => x ← as_state v; mret (Some x) end;
      meta ← match jget st "metadata" with None => mret None | Some v => x ← as_dict v; mret (Some x) end;
      match state, meta with
      | None, None => mret tt
      | _, _ => sql_update (e_table e_envs) set_envs (by_env (te_target_id e)) (with_env_values state meta)
      end
  | None =>
      sql_update (e_table e_envs) set_envs (by_env (te_target_id e)) (in_environment_state DISCARDED)
  end.

Definition _apply_rollback_state (e : TraceEntry) : lp unit :=
  obj_row ← fetch_one t_objects (of_object (te_target_id e));
  match obj_row with
  | Some _ => restore_object e
  | None =>
      env_row ← fetch_one (e_table e_envs) (by_env (te_target_id e));
      match env_row with Some _ => restore_environment e | None => mret tt end
  end.

Definition rollback_request (e : TraceEntry) (actor reason : string) (parent : option string) : trace_request := {|
  q_actor := actor; q_action := ActionType.ROLLBACK; q_target_type := te_target_type e;
  q_target_id := te_target_id e; q_scope := te_scope e; q_before := te_after e; q_after := te_before e;
  q_metadata := [("rolled_back_trace_id", JVstr (te_id e));
                 ("rolled_back_action", JVstr (ActionType.value (te_action e))); ("reason", JVstr reason)];
  q_parent := parent |}.

(** The statements commit one by one. *)
Definition _execute_single_rollback (e : TraceEntry) (actor reason : string) (parent : option string)
  : lp TraceEntry :=
  _apply_rollback_state e ;;
  record (rollback_request e actor reason parent).

Definition rollback_action (trace_id actor : string) (kind : option string) (reason : string) (dry_run : bool)
  : lp (RollbackResult + RollbackPreview) :=
  found ← get trace_id;
  match found with
  | None => raise (RollbackFailed ("Trace entry '" +:+ trace_id +:+ "' not found"))
  | Some e =>
      _check_constraints e actor kind ;;
      if dry_run
      then mret (inr {| would_rollback := [te_id e]; would_skip := []; would_deny := []; entry_count := 1 |})
      else
        rollback_entry ← _execute_single_rollback e actor reason None;
        mret (inl {| rb_success := true; rolled_back := [te_id e]; rollback_trace_ids := [te_id rollback_entry];
                     rb_skipped := []; rb_denied := [] |})
  end.

(** The loop that sorts out what may be rolled back: the permitted entries and the
    ids of the denied ones. *)
Definition sort_out (exempt : TraceEntry → bool) (l : list TraceEntry) (actor : string) (kind : option string)
  : lp (list TraceEntry * list string) :=
  for_fold l ([], []) (λ acc e,
    match constraints with
    | Some engine =>
        if exempt e then mret (acc.1 ++ [e], acc.2)
        else
          c ← check engine e actor kind;
          mret (if ck_permitted c then (acc.1 ++ [e], acc.2) else (acc.1, acc.2 ++ [te_id e]))
    | None => mret (acc.1 ++ [e], acc.2)
    end).

(** The loop that rolls entries back: their ids and those of the traces. *)
Definition roll_all (actor reason : string) (parent : TraceEntry → option string) (l : list TraceEntry)
  : lp (list string * list string) :=
  for_fold l ([], []) (λ acc e,
    rb ← _execute_single_rollback e actor reason (parent e);
    mret (acc.1 ++ [te_id e], acc.2 ++ [te_id rb])).

Definition since_filter (target_type target_id : string) (at_ : Z) : trail_filter := {|
  f_actor := None; f_action := None; f_target_type := Some target_type; f_target_id := Some target_id;
  f_scope := None; f_parent := None; f_since := Some at_; f_until := None |}.

Definition rollback_limit : nat := 100 * 100.

Definition rollback_to_timestamp (target_type target_id : string) (at_ : Z) (actor : string) (kind : option string)
  (reason : string) (dry_run : bool) : lp (RollbackResult + RollbackPreview) :=
  found ← query (since_filter target_type target_id at_) "sequence" rollback_limit 0;
  let entries := filter (λ e, after_time at_ e = true) found in
  match entries with
  | [] => mret (inl {| rb_success := true; rolled_back := []; rollback_trace_ids := []; rb_skipped := [];
                       rb_denied := [] |})
  | _ =>
      sorted ← sort_out (λ _, false) (sort_by by_sequence_desc entries) actor kind;
      let '(permitted, denied) := sorted in
      raise_if (negb (bool_decide (denied = [])) && bool_decide (permitted = []))
        (RollbackDenied "All actions in the rollback range are denied by constraints") ;;
      if dry_run
      then mret (inr {| would_rollback := te_id <$> permitted; would_skip := []; would_deny := denied;
                        entry_count := length entries |})
      else
        done ← roll_all actor (or_reason reason ("Point-in-time rollback to " +:+ isoformat at_)) (λ _, None) permitted;
        mret (inl {| rb_success := true; rolled_back := done.1; rollback_trace_ids := done.2; rb_skipped := [];
                     rb_denied := denied |})
  end.

Definition max_depth : nat := 100.

(** The queue of [_collect_descendants]; [fuel] bounds the number of pops. *)
Fixpoint collect_loop (fuel : nat) (queue : list (string * nat)) (descendants : list TraceEntry)
  : lp (option (list TraceEntry)) :=
  match queue with
  | [] => mret (Some descendants)
  | (current, depth) :: rest =>
      match fuel with
      | O => mret None
      | S fuel' =>
          if max_depth <=? depth then collect_loop fuel' rest descendants
          else
            kids ← children current;
            collect_loop fuel' (rest ++ ((λ c, (te_id c, S depth)) <$> kids)) (descendants ++ kids)
      end
  end.

Definition _collect_descendants (parent : string) : lp (option (list TraceEntry)) :=
  fuel ← gets (λ s, S (max_depth * length (t_trail (st_db s))));
  collect_loop fuel [(parent, 0)] [].

Definition rollback_cascade (trace_id actor : string) (kind : option string) (reason : string) (dry_run : bool)
  : lp (option (RollbackResult + RollbackPreview)) :=
  found ← get trace_id;
  match found with
  | None => raise (RollbackFailed ("Trace entry '" +:+ trace_id +:+ "' not found"))
  | Some root =>
      _check_constraints root actor kind ;;
      collected ← _collect_descendants trace_id;
      match collected with
      | None => mret None
      | Some below =>
          let entries := unique_entries [] (sort_by by_sequence_desc (below ++ [root])) in
          sorted ← sort_out (λ e, bool_decide (te_id e = te_id root)) entries actor kind;
          let '(permitted, denied) := sorted in
          if dry_run
          then mret (Some (inr {| would_rollback := te_id <$> permitted; would_skip := []; would_deny := denied;
                                  entry_count := length entries |}))
          else
            done ← roll_all actor (or_reason reason ("Cascade rollback from " +:+ trace_id))
                     (λ e, if bool_decide (te_id e = te_id root) then None else Some trace_id) permitted;
            mret (Some (inl {| rb_success := true; rolled_back := done.1; rollback_trace_ids := done.2;
                               rb_skipped := []; rb_denied := denied |}))
      end
  end.

(** *** StateReconstructor (reconstruction.py) *)

Record ReconstructedState := {
  rs_target_type : string; rs_target_id : string; rs_timestamp : Z; rs_state : option jdict;
  rs_trace : option string; rs_found : bool;
}.

Definition recorded_by (target_type target_id : string) (at_ : Z) (e : TraceEntry) : bool :=
  bool_decide (te_target_type e = target_type) && bool_decide (te_target_id e = target_id) &&
  (te_timestamp e <=? at_)%Z && bool_decide (is_Some (te_after e)).

Definition reconstruct (target_type target_id : string) (at_ : Z) : lp ReconstructedState :=
  rows ← select_sorted t_trail (recorded_by target_type target_id at_) by_sequence_desc;
  mret (match rows with
        | [] => {| rs_target_type := target_type; rs_target_id := target_id; rs_timestamp := at_; rs_state := None;
                   rs_trace := None; rs_found := false |}
        | e :: _ => {| rs_target_type := target_type; rs_target_id := target_id; rs_timestamp := at_;
                       rs_state := te_after e; rs_trace := Some (te_id e); rs_found := true |}
        end).

Definition reconstruct_many (targets : list (string * string)) (at_ : Z) : lp (list ReconstructedState) :=
  for_fold targets [] (λ acc x, r ← reconstruct x.1 x.2 at_; mret (acc ++ [r])).

Definition history_at (target_type target_id : string) (timestamps : list Z) : lp (list ReconstructedState) :=
  for_fold timestamps [] (λ acc at_, r ← reconstruct target_type target_id at_; mret (acc ++ [r])).

Definition reconstructed_snapshot (r : ReconstructedState) : jdict := [
  ("target_type", JVstr (rs_target_type r)); ("target_id", JVstr (rs_target_id r));
  ("timestamp", JVstr (isoformat (rs_timestamp r))); ("state", from_option JVdict JVnull (rs_state r));
  ("trace_id", jopt (rs_trace r)); ("found", JVbool (rs_found r))].
End Temporal.

(** ** Lemmas: what a rollback touches *)

Section TemporalTheory.
Context `{host : !Host} `{sink : !AuditSink}.

Lemma record_off_trail q : respects off_trail (record q).
Proof. intros s. apply quiet_off_trail, record_attempts_quiet. Qed.

Lemma check_off_trail engine e actor kind : respects off_trail (check engine e actor kind).
Proof.
  unfold check. respects_step; [respects_step|]. respects_step; [|respects_step].
  respects_step; [apply evaluate_off_trail|respects_step].
Qed.

Lemma check_constraints_off_trail constraints e actor kind :
  respects off_trail (_check_constraints constraints e actor kind).
Proof.
  unfold _check_constraints, check_or_raise. repeat (respects_step || apply check_off_trail).
Qed.

Lemma sort_out_off_trail constraints exempt l actor kind :
  respects off_trail (sort_out constraints exempt l actor kind).
Proof. unfold sort_out. repeat (respects_step || apply check_off_trail). Qed.

(** Sorting out splits the list in two, in order. *)
Lemma sort_out_ok constraints exempt l actor kind s p d s' :
  sort_out constraints exempt l actor kind s = (Ok (p, d), s') →
  ∃ q, d = te_id <$> q ∧ p ++ q ≡ₚ l ∧ p `sublist_of` l ∧ (d = [] → p = l) ∧ (constraints = None → d = []).
Proof.
  unfold sort_out.
  assert (Hgen : ∀ p0 q0 k, p0 `sublist_of` k → p0 ++ q0 ≡ₚ k → (q0 = [] → p0 = k) →
    (constraints = None → q0 = []) →
    for_fold l (p0, te_id <$> q0) (λ acc e,
      match constraints with
      | Some engine =>
          if exempt e then mret (acc.1 ++ [e], acc.2)
          else
            c ← check engine e actor kind;
            mret (if ck_permitted c then (acc.1 ++ [e], acc.2) else (acc.1, acc.2 ++ [te_id e]))
      | None => mret (acc.1 ++ [e], acc.2)
      end) s = (Ok (p, d), s') →
    ∃ q, d = te_id <$> q ∧ p ++ q ≡ₚ k ++ l ∧ p `sublist_of` k ++ l ∧ (q = [] → p = k ++ l) ∧
      (constraints = None → q = [])).
  { revert s. induction l as [|e l IH]; intros s p0 q0 k Hsub Hperm Hall Hnone.
    { intros [[= -> ->] ->]%mret_ok. exists q0. rewrite app_nil_r. done. }
    cbn [for_fold]. intros H. apply bind_ok_inv in H as ([p1 d1] & s1 & H1 & H).
    assert (Hcase : (p1, d1) = (p0 ++ [e], te_id <$> q0) ∨
      (constraints ≠ None ∧ (p1, d1) = (p0, te_id <$> (q0 ++ [e])))).
    { destruct constraints as [engine|]; [|apply mret_ok in H1 as [-> _]; by left].
      destruct (exempt e); [apply mret_ok in H1 as [-> _]; by left|].
      apply bind_ok_inv in H1 as (c & s2 & _ & H1). apply mret_ok in H1 as [-> _].
      destruct (ck_permitted c); [by left|right]. by rewrite fmap_app. }
    destruct Hcase as [[= -> ->]|[Hc [= -> ->]]].
    - apply (IH s1 (p0 ++ [e]) q0 (k ++ [e])) in H as (q & ? & Hp & Hs & Ha & Hn).
      + exists q. rewrite <-app_assoc in Hp, Hs, Ha. done.
      + by apply sublist_app.
      + rewrite <-Hperm. rewrite <-!app_assoc. apply Permutation_app_head, Permutation_app_comm.
      + intros ->. by rewrite Hall.
      + done.
    - apply (IH s1 p0 (q0 ++ [e]) (k ++ [e])) in H as (q & ? & Hp & Hs & Ha & Hn).
      + exists q. rewrite <-app_assoc in Hp, Hs, Ha. done.
      + by apply sublist_inserts_r.
      + by rewrite app_assoc, Hperm.
      + intros Hnil. by destruct q0.
      + done. }
  intros H. apply (Hgen [] [] []) in H as (q & -> & Hp & Hs & Ha & Hn); [|done..].
  exists q. split_and!; [done..| |].
  - intros Hq%fmap_nil_inv. by apply Ha.
  - intros Hc. by rewrite Hn.
Qed.

Lemma get_entry_ok id s o s' :
  get id s = (Ok o, s') →
  s' = s ∧ match o with
           | Some e => e ∈ t_trail (st_db s) ∧ te_id e = id
           | None => ∀ e, e ∈ t_trail (st_db s) → te_id e ≠ id
           end.
Proof.
  unfold get. intros [-> H]%fetch_one_ok. split; [done|]. destruct o as [e|].
  - destruct H as [He Hid]. by apply bool_decide_eq_true_1 in Hid.
  - intros e He. specialize (H e He). by apply bool_decide_eq_false_1 in H.
Qed.

(** An entry of the trail is found under its id. *)
Lemma get_entry_run e s :
  NoDup (te_id <$> t_trail (st_db s)) → e ∈ t_trail (st_db s) → get (te_id e) s = (Ok (Some e), s).
Proof.
  intros Hnd He. destruct (get (te_id e) s) as [r s1] eqn:Hg.
  assert (Hr : ∃ o, r = Ok o) by (unfold get, fetch_one in Hg; injection Hg as <- _; by eexists).
  destruct Hr as [o ->]. apply get_entry_ok in Hg as [-> Ho]. destruct o as [e'|]; [|by destruct (Ho e He)].
  destruct Ho as [He' Hid]. by rewrite (NoDup_fmap_inj_in te_id _ e' e Hnd He' He Hid).
Qed.

(** *** Entries of updates *)

(** What the manager records of the update from version [n] to the next. *)
Definition update_entry (id : string) (n : nat) (e : TraceEntry) : Prop :=
  te_target_id e = id ∧ jget (te_metadata e) "before_version" = Some (JVint (Z.of_nat n)) ∧
  jget (te_metadata e) "after_version" = Some (JVint (Z.of_nat (S n))).

(** Oldest first: the updates from version [k] up to [n], none left out. *)
Fixpoint steps_up (id : string) (k : nat) (es : list TraceEntry) (n : nat) : Prop :=
  match es with [] => k = n | e :: es' => update_entry id k e ∧ steps_up id (S k) es' n end.

Lemma steps_up_snoc id k es e n :
  steps_up id k (es ++ [e]) n ↔ ∃ m, n = S m ∧ update_entry id m e ∧ steps_up id k es m.
Proof.
  revert k. induction es as [|x es IH]; intros k; simpl.
  - split; [intros [H <-]; by exists k|]. by intros (m & -> & H & ->).
  - rewrite IH. naive_solver.
Qed.

Lemma steps_up_le id k es n : steps_up id k es n → k + length es = n.
Proof. revert k. induction es as [|e es IH]; intros k; simpl; [lia|]. intros [_ H%IH]. lia. Qed.

Lemma as_version_nat n s : as_version (JVint (Z.of_nat n)) s = (Ok n, s).
Proof. unfold as_version. destruct (Z.leb_spec 0 (Z.of_nat n)); [|lia]. by rewrite Nat2Z.id. Qed.

(** The object back at version [n], without the version after it. *)
Definition stepped_back (id : string) (n : nat) (t : tables) : tables :=
  set_object_versions (filter (λ v, (bool_decide (ov_object v = id) && (ov_version v =? S n)) = false)
    (t_object_versions t)) (set_objects (updated_objects id (with_version n) (t_objects t)) t).

Lemma restore_update_run id n e s :
  update_entry id n e → restore_object e s = (Ok tt, put_db (stepped_back id n (st_db s)) s).
Proof.
  intros (<- & Hb & Ha). unfold restore_object, before_version, after_version. rewrite Hb, Ha. cbn [not_null].
  rewrite (run_bind_ok _ _ _ _ _ (as_version_nat n s)). unfold sql_update, modify at 1.
  rewrite run_bind. cbn [jval_eqb]. rewrite bool_decide_eq_false_2 by lia.
  rewrite (run_bind_ok _ _ _ _ _ (as_version_nat (S n) _)). reflexivity.
Qed.

Lemma apply_update_ok id n e s u s' :
  update_entry id n e → id ∈ so_id <$> t_objects (st_db s) → _apply_rollback_state e s = (Ok u, s') →
  s' = put_db (stepped_back id n (st_db s)) s.
Proof.
  intros Hu (o & -> & Ho)%list_elem_of_fmap H. unfold _apply_rollback_state in H.
  apply bind_ok_inv in H as (row & s1 & [-> Hrow]%fetch_one_ok & H). destruct row as [x|].
  - rewrite (restore_update_run _ _ _ _ Hu) in H. by injection H as _ <-.
  - specialize (Hrow o Ho). destruct Hu as [Hid _]. unfold of_object in Hrow. rewrite Hid in Hrow.
    by apply bool_decide_eq_false_1 in Hrow.
Qed.

(** Rolling back writes its record after the state. *)
Lemma execute_ok e actor reason parent s r s' :
  _execute_single_rollback e actor reason parent s = (Ok r, s') →
  ∃ s1, _apply_rollback_state e s = (Ok tt, s1) ∧ off_trail s1 s' ∧
    ∃ l, t_trail (st_db s') = (t_trail (st_db s1) ++ l) ++ [r] ∧
      (∀ x, x ∈ t_trail (st_db s1) ++ l → te_id x ≠ te_id r) ∧
      ∃ id seq prev, r = new_entry (rollback_request e actor reason parent) id seq (st_now s1) prev.
Proof.
  unfold _execute_single_rollback. intros H. apply bind_ok_inv in H as ([] & s1 & H1 & H).
  exists s1. split; [done|]. split; [by eapply off_trail_run, H; apply record_off_trail|].
  apply record_attempts_last in H as (l & Hl & Hfresh & Hr). exists l. split; [done|]. split; [|done].
  intros x Hx. by apply Hfresh.
Qed.

Lemma execute_update_ok id n e actor reason parent s r s' :
  update_entry id n e → id ∈ so_id <$> t_objects (st_db s) →
  _execute_single_rollback e actor reason parent s = (Ok r, s') →
  object_tables (st_db s') = object_tables (stepped_back id n (st_db s)).
Proof.
  intros Hu Ho (s1 & H1 & Hoff & _)%execute_ok. apply (apply_update_ok _ _ _ _ _ _ Hu Ho) in H1 as ->.
  apply off_trail_objects in Hoff. by rewrite Hoff.
Qed.

(** *** Rewinding an object *)

(** The rows of the objects with one of them back at version [k]. *)
Definition rewound (id : string) (k : nat) (t : tables) : tables :=
  set_object_versions (filter (λ v, ov_object v = id → ov_version v ≤ k) (t_object_versions t))
    (set_objects (updated_objects id (with_version k) (t_objects t)) t).

Lemma updated_twice id f g l :
  (∀ r, so_id (f r) = so_id r) → updated_objects id g (updated_objects id f l) = updated_objects id (g ∘ f) l.
Proof.
  intros Hf. unfold updated_objects. rewrite <-list_fmap_compose. apply list_fmap_ext. intros _ r _. simpl.
  destruct (of_object id r) eqn:Hr; [|by rewrite Hr]. unfold of_object in *. by rewrite Hf, Hr.
Qed.

Lemma updated_same id f l : (∀ r, r ∈ l → so_id r = id → f r = r) → updated_objects id f l = l.
Proof.
  intros H. unfold updated_objects. rewrite <-(list_fmap_id l) at 2. apply list_fmap_ext.
  intros i r Hr%list_elem_of_lookup_2. unfold of_object. case_bool_decide; [|done]. by apply H.
Qed.

Lemma rewound_self t o :
  objects_ok t → o ∈ t_objects t → object_tables (rewound (so_id o) (so_version o) t) = object_tables t.
Proof.
  intros Hok Ho. unfold object_tables, rewound. simpl. rewrite updated_same.
  - do 2 f_equal. apply filter_all_iff. intros v Hv Hid.
    assert (Hin : ov_version v ∈ ov_version <$> versions_of_object t (so_id o)).
    { apply list_elem_of_fmap_2, list_elem_of_filter. done. }
    rewrite (ok_versions _ Hok o Ho), elem_of_seq in Hin. lia.
  - intros r Hr Hid. rewrite (objects_keyed t r o Hok Hr Ho Hid). by destruct o.
Qed.

Lemma rewound_step id m t t1 :
  object_tables t1 = object_tables (rewound id (S m) t) →
  object_tables (stepped_back id m t1) = object_tables (rewound id m t).
Proof.
  intros [= H1 H2 H3]. unfold object_tables, stepped_back, rewound. simpl. rewrite H1, H2, H3.
  rewrite updated_twice by done. f_equal. f_equal. rewrite list_filter_filter. apply list_filter_iff. intros v.
  rewrite andb_false_iff, bool_decide_eq_false, Nat.eqb_neq.
  destruct (decide (ov_object v = id)); [|naive_solver]. split; [intros [[?|?] ?]; intros|]; [done| |].
  - assert (ov_version v ≤ S m) by auto. lia.
  - intros Hle. split; [right; specialize (Hle ltac:(done)); lia|]. intros _. specialize (Hle ltac:(done)). lia.
Qed.

Lemma filter_le_seq k n : k ≤ n → filter (λ i, i ≤ k) (seq 1 n) = seq 1 k.
Proof.
  intros Hle. replace n with (k + (n - k)) by lia. rewrite seq_app, filter_app.
  replace (filter (λ i, i ≤ k) (seq (1 + k) (n - k))) with (@nil nat).
  - rewrite app_nil_r. apply filter_all_iff. intros i. rewrite elem_of_seq. lia.
  - symmetry. apply filter_nil_iff. intros i. rewrite elem_of_seq. lia.
Qed.

Lemma versions_filter (P : nat → Prop) `{∀ n, Decision (P n)} `{∀ v, Decision (P (ov_version v))}
  (l : list ObjectVersion) :
  ov_version <$> filter (λ v, P (ov_version v)) l = filter P (ov_version <$> l).
Proof.
  induction l as [|v l IH]; [done|]. rewrite filter_cons, fmap_cons, filter_cons.
  repeat case_decide; [|done..|done]. by rewrite fmap_cons, IH.
Qed.

(** One step back from the rows an update left. *)
Lemma stepped_back_update t t1 o v :
  objects_ok t → o ∈ t_objects t → ov_object v = so_id o → ov_version v = S (so_version o) →
  object_tables t1 = (updated_objects (so_id o) (with_version (S (so_version o))) (t_objects t),
    t_object_versions t ++ [v], t_tombstones t) →
  object_tables (stepped_back (so_id o) (so_version o) t1) = object_tables t.
Proof.
  intros Hok Ho Hvo Hvv [= H1 H2 H3]. unfold object_tables, stepped_back. simpl. rewrite H1, H2, H3.
  rewrite updated_twice by done. rewrite filter_app, filter_cons, decide_False, app_nil_r.
  - f_equal. f_equal.
    + apply updated_same. intros r Hr Hid. rewrite (objects_keyed t r o Hok Hr Ho Hid). by destruct o.
    + apply filter_all_iff. intros x Hx. rewrite andb_false_iff, bool_decide_eq_false, Nat.eqb_neq.
      destruct (decide (ov_object x = so_id o)) as [Hid|]; [right|by left].
      assert (Hin : ov_version x ∈ ov_version <$> versions_of_object t (so_id o)).
      { apply list_elem_of_fmap_2, list_elem_of_filter. done. }
      rewrite (ok_versions _ Hok o Ho), elem_of_seq in Hin. lia.
  - by rewrite Hvo, Hvv, bool_decide_eq_true_2, Nat.eqb_refl.
Qed.

(** Rewinding keeps the invariant of the objects. *)
Lemma rewound_ok t o k :
  objects_ok t → o ∈ t_objects t → k ≤ so_version o → objects_ok (rewound (so_id o) k t).
Proof.
  intros Hok Ho Hk. pose proof (objects_keyed t) as Hkey. pose proof Hok as [A1 A2 A3 A4 A5 A6 A7].
  split; simpl.
  - by rewrite updated_ids.
  - intros x Hx. unfold versions_of_object in *. simpl. rewrite list_filter_filter.
    apply updated_elem in Hx as [(r & Hr & Hid & ->)|[Hx Hne]].
    + assert (r = o) as -> by by apply (Hkey r o). simpl.
      rewrite (list_filter_iff _ (λ v, ov_version v ≤ k ∧ ov_object v = so_id o))
        by (clear; intros v; tauto).
      rewrite <-list_filter_filter.
      etrans; [by apply (versions_filter (λ i, i ≤ k))|]. rewrite (A2 o Ho). by apply filter_le_seq.
    + rewrite <-(A2 x Hx). f_equal. apply list_filter_iff. intros v. clear -Hne. split; [tauto|]. intros Hv. split; [done|].
      intros Heq. congruence.
  - intros v [_ Hv]%list_elem_of_filter. rewrite updated_ids by done. by apply A3.
  - intros v [_ Hv]%list_elem_of_filter. by apply A4.
  - done.
  - intros x Hx. apply updated_elem in Hx as [(r & Hr & Hid & ->)|[Hx Hne]]; [exact (A6 r Hr)|exact (A6 x Hx)].
  - intros x Hx. rewrite updated_ids by done. by apply A7.
Qed.

Lemma roll_all_ids actor reason parent l s r s' :
  roll_all actor reason parent l s = (Ok r, s') → r.1 = te_id <$> l ∧ length r.2 = length l.
Proof.
  unfold roll_all.
  assert (Hgen : ∀ acc, for_fold l acc (λ acc e,
      rb ← _execute_single_rollback e actor reason (parent e);
      mret (acc.1 ++ [te_id e], acc.2 ++ [te_id rb])) s = (Ok r, s') →
    r.1 = acc.1 ++ (te_id <$> l) ∧ length r.2 = length acc.2 + length l).
  { revert s. induction l as [|e l IH]; intros s acc; cbn [for_fold].
    - intros [-> _]%mret_ok. rewrite app_nil_r. simpl. by rewrite Nat.add_0_r.
    - intros H. apply bind_ok_inv in H as (acc1 & s1 & H1 & H).
      apply bind_ok_inv in H1 as (rb & s2 & _ & H1). apply mret_ok in H1 as [-> _].
      apply IH in H as [H2 H3]. simpl in H2, H3. rewrite H2, H3, <-app_assoc, length_app. simpl. split; [done|lia]. }
  intros H%(Hgen ([], [])). done.
Qed.

(** The updates from version [k] on, rolled back newest first. *)
Lemma roll_all_updates actor reason parent id k n es t s r s' :
  steps_up id k es n → id ∈ so_id <$> t_objects t →
  object_tables (st_db s) = object_tables (rewound id n t) →
  roll_all actor reason parent (reverse es) s = (Ok r, s') →
  object_tables (st_db s') = object_tables (rewound id k t).
Proof.
  unfold roll_all. generalize (@nil string, @nil string) as acc. intros acc Hup Hin. revert n s acc Hup.
  induction es as [|e es IH] using rev_ind; intros n s acc Hup Hs.
  - simpl in Hup. subst. by intros [_ ->]%mret_ok.
  - apply steps_up_snoc in Hup as (m & -> & Hu & Hup). rewrite reverse_snoc. cbn [for_fold]. intros H.
    apply bind_ok_inv in H as (acc1 & s1 & H1 & H). apply bind_ok_inv in H1 as (rb & s2 & H1 & H2).
    apply mret_ok in H2 as [-> ->].
    eapply IH; [exact Hup| |exact H]. rewrite <-(rewound_step _ _ _ _ Hs).
    refine (execute_update_ok _ _ _ _ _ _ _ _ _ Hu _ H1).
    injection Hs as Hs _ _. rewrite Hs. simpl. by rewrite updated_ids.
Qed.
End TemporalTheory.

(** ** Properties *)

Section TemporalProperties.
Context `{host : !Host}.

(** An update leaves its trace last, with both versions. *)
Lemma update_recorded mg id principal data reason s o' v s1 :
  @update_object host writer_sink mg id principal data reason s = (Ok (o', v), s1) →
  ∃ o e l, o ∈ t_objects (st_db s) ∧ so_id o = id ∧ t_trail (st_db s1) = l ++ [e] ∧
    update_entry id (so_version o) e ∧ te_action e = ActionType.UPDATE ∧ te_after e = Some data ∧
    object_tables (st_db s1) = (updated_objects id (with_version (S (so_version o))) (t_objects (st_db s)),
      t_object_versions (st_db s) ++ [v], t_tombstones (st_db s)) ∧
    ov_object v = id ∧ ov_version v = S (so_version o).
Proof.
  intros H. pose proof H as Hok.
  apply (update_object_ok (sink := writer_sink)) in Hok
    as (o1 & _ & _ & Ho1 & Hid1 & _ & _ & _ & Ho' & Hv & Htab). subst o'.
  unfold update_object in H.
  apply bind_ok_inv in H as (o & s2 & (-> & Ho & Hid & Hread)%get_or_raise_ok & H).
  apply bind_ok_inv in H as ([] & s2 & _ & H). apply bind_ok_inv in H as ([] & s3 & _ & H).
  apply bind_ok_inv in H as ([] & s4 & _ & H). apply bind_ok_inv in H as (prev & s5 & _ & H).
  apply bind_ok_inv in H as (ts & s6 & _ & H). apply bind_ok_inv in H as (vid & s7 & _ & H). cbv zeta in H.
  apply bind_ok_inv in H as ([] & s8 & _ & H). apply bind_ok_inv in H as ([] & s9 & Haud & H).
  apply mret_ok in H as [[= Hver Hverv] ->]. cbn [audit writer_sink] in Haud.
  apply bind_ok_inv in Haud as (e & s10 & Hrec & Haud). apply mret_ok in Haud as [_ ->].
  apply record_attempts_last in Hrec as (l & Hl & _ & eid & seq & prevh & ->).
  assert (Hsame : so_version o1 = so_version o) by lia.
  eexists o, _, _. split_and!; [done|done|exact Hl| |done|done| | |].
  - done.
  - by rewrite Htab, Hsame.
  - by rewrite Hv.
  - by rewrite Hv, Hsame.
Qed.

Context `{sink : !AuditSink}.

(** C23: Rolling back an update undoes it: the trace that the update leaves in the
    trail, rolled back while the object's rows are still what the update made of
    them, restores exactly the objects, versions and tombstones of before, under
    any constraints that let it pass. *)
Theorem rollback_undoes_update constraints mg id principal data reason s o' v s1 :
  objects_ok (st_db s) →
  @update_object host writer_sink mg id principal data reason s = (Ok (o', v), s1) →
  ∃ e, last (t_trail (st_db s1)) = Some e ∧ te_action e = ActionType.UPDATE ∧ te_target_id e = id ∧
    ∀ actor kind why s2 r s3,
      object_tables (st_db s2) = object_tables (st_db s1) → e ∈ t_trail (st_db s2) →
      NoDup (te_id <$> t_trail (st_db s2)) →
      rollback_action constraints (te_id e) actor kind why false s2 = (Ok r, s3) →
      object_tables (st_db s3) = object_tables (st_db s).
Proof.
  intros Hok (o & e & l & Ho & <- & Hl & Hu & Hact & _ & Htab & Hvo & Hvv)%update_recorded.
  exists e. rewrite Hl, last_snoc. split_and!; [done|done|apply Hu|].
  intros actor kind why s2 r s3 Hs2 He Hnd H. unfold rollback_action in H.
  rewrite (run_bind_ok _ _ _ _ _ (get_entry_run _ _ Hnd He)) in H.
  apply bind_ok_inv in H as ([] & s4 & Hoff%(off_trail_run _ _ _ _ (check_constraints_off_trail _ _ _ _)) & H).
  apply bind_ok_inv in H as (rb & s5 & Hexec & H). apply mret_ok in H as [_ ->].
  apply off_trail_objects in Hoff. rewrite Hs2, Htab in Hoff.
  apply (execute_update_ok (so_id o) (so_version o)) in Hexec; [|done|].
  - rewrite Hexec. by apply (stepped_back_update _ _ o v).
  - injection Hoff as -> _ _. rewrite updated_ids by done. by apply list_elem_of_fmap_2.
Qed.

(** The entries on a target after an instant. *)
Definition entries_after (target_type target_id : string) (at_ : Z) (l : list TraceEntry) : list TraceEntry :=
  filter (λ e, te_target_type e = target_type ∧ te_target_id e = target_id ∧ (at_ < te_timestamp e)%Z) l.

Definition entries_since (target_type target_id : string) (at_ : Z) (l : list TraceEntry) : list TraceEntry :=
  filter (λ e, filter_holds (since_filter target_type target_id at_) e = true) l.

Lemma since_after ty id at_ l :
  filter (λ e, after_time at_ e = true) (entries_since ty id at_ l) = entries_after ty id at_ l.
Proof.
  unfold entries_since, entries_after. rewrite list_filter_filter. apply list_filter_iff. intros e.
  unfold after_time, filter_holds, since_filter. cbn [filter_opt opt_filter_opt f_actor f_action f_target_type
    f_target_id f_scope f_parent f_since f_until].
  rewrite !andb_true_iff, !bool_decide_eq_true, Z.ltb_lt, Z.leb_le. split; [tauto|]. intros (? & ? & ?).
  split_and!; try done. lia.
Qed.

Lemma since_run ty id at_ s :
  seq_sorted (t_trail (st_db s)) → length (entries_since ty id at_ (t_trail (st_db s))) ≤ rollback_limit →
  query (since_filter ty id at_) "sequence" rollback_limit 0 s =
    (Ok (entries_since ty id at_ (t_trail (st_db s))), s).
Proof.
  intros Hs Hlen. unfold query. change (trail_order "sequence") with by_sequence.
  rewrite (run_bind_ok _ _ _ _ _ (select_trail _ _ Hs)), drop_0, take_ge; done.
Qed.

Lemma reverse_sorted l : seq_sorted l → sort_by by_sequence_desc l = reverse l.
Proof. intros Hs. by apply sort_desc_trail. Qed.

Lemma entries_after_sorted ty id at_ l : seq_sorted l → seq_sorted (entries_after ty id at_ l).
Proof.
  intros H. rewrite <-since_after. by apply seq_sorted_filter, seq_sorted_filter.
Qed.

(** Point-in-time rollback restores the version of the instant: when what the
    trail holds of an object after the instant are its updates from version [k]
    to the current one, and no constraint denies one of them, every one is rolled
    back, newest first, each with a trace of its own, and the object is left at
    version [k] with the versions up to [k], the rest of the objects' rows
    untouched and the invariant of the objects kept. *)
Theorem rollback_to_timestamp_exact constraints ty at_ actor kind reason o k s res s' :
  objects_ok (st_db s) → seq_sorted (t_trail (st_db s)) → o ∈ t_objects (st_db s) →
  length (entries_since ty (so_id o) at_ (t_trail (st_db s))) ≤ rollback_limit →
  steps_up (so_id o) k (entries_after ty (so_id o) at_ (t_trail (st_db s))) (so_version o) →
  rollback_to_timestamp constraints ty (so_id o) at_ actor kind reason false s = (Ok (inl res), s') →
  rb_denied res = [] →
  object_tables (st_db s') = object_tables (rewound (so_id o) k (st_db s)) ∧ objects_ok (st_db s') ∧
  rolled_back res = te_id <$> reverse (entries_after ty (so_id o) at_ (t_trail (st_db s))) ∧
  length (rollback_trace_ids res) = length (rolled_back res).
Proof.
  intros Hok Hs Ho Hlen Hup H Hden. unfold rollback_to_timestamp in H.
  rewrite (run_bind_ok _ _ _ _ _ (since_run _ _ _ _ Hs Hlen)) in H. cbv zeta in H. rewrite since_after in H.
  set (es := entries_after ty (so_id o) at_ (t_trail (st_db s))) in *.
  assert (Hle : k ≤ so_version o) by (apply steps_up_le in Hup; lia).
  assert (Hfin : object_tables (st_db s') = object_tables (rewound (so_id o) k (st_db s)) →
    objects_ok (st_db s')).
  { intros Heq. pose proof (rewound_ok _ _ _ Hok Ho Hle) as Hr. by apply (same_objects _ (st_db s')) in Hr as [? _]. }
  destruct es as [|e es0] eqn:Hes.
  - apply mret_ok in H as [[= ->] ->]. simpl in Hup. subst k.
    assert (object_tables (st_db s) = object_tables (rewound (so_id o) (so_version o) (st_db s)))
      by (symmetry; by apply rewound_self).
    split_and!; [done|by apply Hfin|done|done].
  - rewrite <-Hes in *. clear e es0 Hes.
    rewrite (reverse_sorted es) in H by by apply entries_after_sorted.
    apply bind_ok_inv in H as ([p d] & s1 & Hsort & H). cbv beta iota in H.
    apply bind_ok_inv in H as ([] & s2 & [_ ->]%raise_if_ok & H).
    apply bind_ok_inv in H as (done & s2 & Hroll & H). apply mret_ok in H as [[= ->] ->]. cbn [rb_denied] in Hden.
    pose proof Hsort as (q & _ & _ & _ & Hall & _)%sort_out_ok. rewrite (Hall Hden) in Hroll.
    pose proof (sort_out_off_trail constraints (λ _, false) (reverse es) actor kind) as Hoff.
    apply (off_trail_run _ _ _ _ Hoff), off_trail_objects in Hsort. pose proof (roll_all_ids _ _ _ _ _ _ _ Hroll) as [H1 H2].
    apply (roll_all_updates _ _ _ (so_id o) k (so_version o) es (st_db s)) in Hroll;
      [|done|by apply list_elem_of_fmap_2|by rewrite Hsort, rewound_self].
    split_and!; [done|by apply Hfin|done|]. cbn [rollback_trace_ids rolled_back].
    by rewrite H2, H1, length_fmap.
Qed.

(** A DENY rule that the rollback's question meets. *)
Definition denied_by (t : tables) (e : TraceEntry) (actor : string) (kind : option string) (x : Rule) : Prop :=
  eligible t (rollback_question e actor kind) (evaluate_targets (rollback_question e actor kind)) x ∧
  rl_effect x = DENY.

(** The checker permits what is not immutable and meets no DENY rule. *)
Lemma check_ok ttl e actor kind s c s' :
  cache_ok s → rules_keyed (st_db s) → check (Some ttl) e actor kind s = (Ok c, s') →
  (ck_permitted c = true ↔
    (te_target_type e ∉ IMMUTABLE_TARGET_TYPES) ∧ ∀ x, ¬ denied_by (st_db s) e actor kind x).
Proof.
  intros Hc Hk. unfold check. case_bool_decide as Himm; [by intros [-> _]%mret_ok; naive_solver|].
  destruct (evaluate_run ttl (rollback_question e actor kind) s Hc Hk) as (m & ch & Hrun & _ & Hm & _).
  intros H. apply bind_ok_inv in H as (r & s1 & H1 & H). rewrite Hrun in H1.
  apply bind_ok_inv in H1 as ([] & s2 & _ & H1). apply mret_ok in H1 as [-> _]. apply mret_ok in H as [-> _].
  assert (Hno : deny_rules (decide_access m) = [] ↔ ∀ x, ¬ denied_by (st_db s) e actor kind x).
  { unfold decide_access, denied_by. cbn [deny_rules]. rewrite filter_nil_iff. setoid_rewrite <-Hm. naive_solver. }
  rewrite <-Hno. destruct (decide (deny_rules (decide_access m) = [])) as [Hd|Hd].
  - rewrite (bool_decide_eq_true_2 _ Hd), andb_false_r. done.
  - rewrite (bool_decide_eq_false_2 _ Hd), andb_true_r.
    assert (allowed (decide_access m) = false) as ->.
    { apply not_true_iff_false. rewrite decide_access_spec. intros [_ Hall]. apply Hd. cbn [deny_rules decide_access].
      by apply filter_nil_iff. }
    cbn [negb ck_permitted]. naive_solver.
Qed.

(** Rollback asks first: with a checker, an entry on an immutable target (the
    trail's own types), or one that some active DENY rule bound to its scope, its
    type, its target or the actor covers for the action rollback, is never rolled
    back; the attempt raises and leaves every table but the trail as it was. *)
Theorem rollback_needs_permission ttl e actor kind why dry_run s r s' :
  cache_ok s → rules_keyed (st_db s) → NoDup (te_id <$> t_trail (st_db s)) → e ∈ t_trail (st_db s) →
  (te_target_type e ∈ IMMUTABLE_TARGET_TYPES ∨ ∃ x, denied_by (st_db s) e actor kind x) →
  rollback_action (Some (Some ttl)) (te_id e) actor kind why dry_run s = (r, s') →
  (∃ ex, r = Raise ex) ∧ off_trail s s'.
Proof.
  intros Hc Hk Hnd He Hden H. unfold rollback_action in H.
  rewrite (run_bind_ok _ _ _ _ _ (get_entry_run _ _ Hnd He)) in H. rewrite run_bind in H.
  pose proof (check_constraints_off_trail (Some (Some ttl)) e actor kind s) as Hoff.
  destruct (_check_constraints (Some (Some ttl)) e actor kind s) as [[[]|ex] s1] eqn:Hcheck.
  - exfalso. unfold _check_constraints, check_or_raise in Hcheck.
    apply bind_ok_inv in Hcheck as (c & s2 & Hcheck & _). apply bind_ok_inv in Hcheck as (c0 & s3 & Hcheck & H2).
    apply bind_ok_inv in H2 as ([] & s4 & [Hperm%negb_false_iff _]%raise_if_ok & _).
    apply (check_ok ttl) in Hcheck; [|done..]. apply Hcheck in Hperm. naive_solver.
  - injection H as <- <-. split; [by eexists|done].
Qed.

(** The latest record of a target at an instant. *)
Lemma reconstruct_run ty id at_ s :
  seq_sorted (t_trail (st_db s)) →
  reconstruct ty id at_ s = (Ok match last (filter (λ e, recorded_by ty id at_ e = true) (t_trail (st_db s))) with
    | None => {| rs_target_type := ty; rs_target_id := id; rs_timestamp := at_; rs_state := None;
                 rs_trace := None; rs_found := false |}
    | Some e => {| rs_target_type := ty; rs_target_id := id; rs_timestamp := at_; rs_state := te_after e;
                   rs_trace := Some (te_id e); rs_found := true |}
    end, s).
Proof.
  intros Hs. unfold reconstruct, select_sorted, gets. rewrite run_bind. unfold mret, prog_ret. do 2 f_equal.
  set (l := filter _ (t_trail (st_db s))).
  assert (Hl : sort_by by_sequence_desc (scan l) = reverse l).
  { apply sort_desc_trail; [by apply seq_sorted_filter|apply scan_perm]. }
  rewrite Hl. rewrite <-(reverse_involutive l), last_reverse, reverse_involutive. by destruct (reverse l).
Qed.

(** Reconstruction reads the trail's latest word: of the entries on the target up to
    the instant that recorded a state, the one with the highest sequence gives
    state and trace; there is none exactly when nothing is found. *)
Theorem reconstruct_exact ty target at_ s :
  seq_sorted (t_trail (st_db s)) →
  ∃ r, reconstruct ty target at_ s = (Ok r, s) ∧
    (rs_found r = true ↔ ∃ e, e ∈ t_trail (st_db s) ∧ recorded_by ty target at_ e = true) ∧
    ∀ e, e ∈ t_trail (st_db s) → recorded_by ty target at_ e = true →
      (∀ x, x ∈ t_trail (st_db s) → recorded_by ty target at_ x = true → te_sequence x ≤ te_sequence e) →
      rs_trace r = Some (te_id e) ∧ rs_state r = te_after e.
Proof.
  intros Hs. rewrite (reconstruct_run _ _ _ _ Hs). set (p := λ e, recorded_by ty target at_ e = true).
  pose proof (seq_sorted_filter _ (recorded_by ty target at_) Hs) as Hsf. fold p in Hsf.
  destruct (last (filter p (t_trail (st_db s)))) as [m|] eqn:Hlast; (eexists; split; [reflexivity|]); simpl.
  - pose proof (last_Some_elem_of _ _ Hlast) as [Hpm Hm]%list_elem_of_filter. split; [split; [by exists m|done]|].
    intros e He Hpe Hmax. assert (e = m) as ->; [|done].
    apply last_Some in Hlast as [l Hl]. assert (Hin : e ∈ l ++ [m]) by (rewrite <-Hl; by apply list_elem_of_filter).
    apply elem_of_app in Hin as [Hin|Hin%list_elem_of_singleton]; [|done].
    rewrite Hl in Hsf. apply seq_sorted_app in Hsf as (_ & _ & Hlt). specialize (Hlt e m Hin ltac:(left)).
    specialize (Hmax m Hm Hpm). unfold seq_lt in Hlt. lia.
  - apply last_None in Hlast. rewrite filter_nil_iff in Hlast. split.
    + split; [done|]. intros (e & He & Hp). by destruct (Hlast e He).
    + intros e He Hp. by destruct (Hlast e He).
Qed.

(** A rollback is visible to reconstruction: once an entry that recorded the
    state before it has been rolled back, the state of its target at that moment,
    read off the trail, is the state before, whatever the target is; the trace of
    the rollback is the one it is read from. *)
Theorem reconstruct_after_rollback constraints e actor kind why st s res s' :
  NoDup (te_id <$> t_trail (st_db s)) → e ∈ t_trail (st_db s) → te_before e = Some st →
  rollback_action constraints (te_id e) actor kind why false s = (Ok (inl res), s') →
  seq_sorted (t_trail (st_db s')) →
  ∃ t, rollback_trace_ids res = [t] ∧
    reconstruct (te_target_type e) (te_target_id e) (st_now s') s' =
      (Ok {| rs_target_type := te_target_type e; rs_target_id := te_target_id e; rs_timestamp := st_now s';
             rs_state := Some st; rs_trace := Some t; rs_found := true |}, s').
Proof.
  intros Hnd He Hb H Hs. unfold rollback_action in H.
  rewrite (run_bind_ok _ _ _ _ _ (get_entry_run _ _ Hnd He)) in H.
  apply bind_ok_inv in H as ([] & s1 & _ & H). apply bind_ok_inv in H as (rb & s2 & Hexec & H).
  apply mret_ok in H as [[= ->] ->]. exists (te_id rb). split; [done|].
  apply execute_ok in Hexec as (s3 & _ & [_ Hnow] & l & Hl & _ & id & seq & prev & ->).
  rewrite (reconstruct_run _ _ _ _ Hs), Hl, filter_app, filter_cons, decide_True.
  - change (filter _ []) with (@nil TraceEntry). by rewrite last_snoc, <-Hb.
  - unfold recorded_by. simpl. rewrite !bool_decide_eq_true_2, Hnow, Z.leb_refl; [done| |done|done]. by rewrite Hb.
Qed.

(** *** What depends on an entry *)

(** [x] is [n] steps below the entry [id]. *)
Inductive descends (l : list TraceEntry) : nat → string → TraceEntry → Prop :=
  | descends_child id x : x ∈ l → te_parent x = Some id → descends l 1 id x
  | descends_step n id c x :
      c ∈ l → te_parent c = Some id → descends l n (te_id c) x → descends l (S n) id x.

Definition child_limit : nat := 1000.

Definition kids (l : list TraceEntry) (id : string) : list TraceEntry :=
  take child_limit (filter (λ e, te_parent e = Some id) l).

(** The generations below some entries. *)
Fixpoint generations (l : list TraceEntry) (k : nat) (ids : list string) : list TraceEntry :=
  match k with
  | O => []
  | S k' => let ch := ids ≫= kids l in ch ++ generations l k' (te_id <$> ch)
  end.

Lemma trail_children_run id s :
  seq_sorted (t_trail (st_db s)) → children id s = (Ok (kids (t_trail (st_db s)) id), s).
Proof.
  intros Hs. unfold children, query. change (trail_order "sequence") with by_sequence.
  rewrite (run_bind_ok _ _ _ _ _ (select_trail _ _ Hs)), drop_0. unfold mret, prog_ret, kids. do 3 f_equal.
  apply list_filter_iff. intros e. unfold filter_holds. cbn [filter_opt opt_filter_opt f_actor f_action f_target_type
    f_target_id f_scope f_parent f_since f_until andb]. by rewrite !andb_true_r, bool_decide_eq_true.
Qed.

Lemma generations_app l k a b : generations l k (a ++ b) ≡ₚ generations l k a ++ generations l k b.
Proof.
  revert a b. induction k as [|k IH]; intros a b; [done|]. cbn [generations]. rewrite bind_app, fmap_app, IH.
  rewrite <-!app_assoc. apply Permutation_app_head. rewrite !app_assoc. apply Permutation_app_tail, Permutation_app_comm.
Qed.

Lemma generations_nil l k : generations l k [] = [].
Proof. by destruct k as [|[|k]]; [|done|induction k]. Qed.

Lemma generations_each l k ids : generations l k ids ≡ₚ ids ≫= (λ i, generations l k [i]).
Proof.
  induction ids as [|i ids IH]; [by rewrite generations_nil|].
  change (i :: ids) with ([i] ++ ids). by rewrite generations_app, bind_app, <-IH, bind_singleton.
Qed.

Lemma bind_fmap_list {X Y W} (f : X → Y) (g : Y → list W) (m : list X) : (f <$> m) ≫= g = m ≫= (λ x, g (f x)).
Proof. induction m as [|x m IH]; [done|]. by rewrite fmap_cons, !bind_cons, IH. Qed.

Lemma generations_mono l k ids : ∀ x, x ∈ generations l k ids → x ∈ l.
Proof.
  revert ids. induction k as [|k IH]; intros ids x; cbn [generations]; [by intros ?%elem_of_nil|].
  intros [(i & Hx & _)%list_elem_of_bind|Hx]%elem_of_app; [|by eapply IH].
  apply elem_of_take in Hx as (j & Hx & _). apply list_elem_of_lookup_2, list_elem_of_filter in Hx. tauto.
Qed.

(** The loop gathers every generation. *)
Lemma collect_loop_run fuel queue acc s :
  seq_sorted (t_trail (st_db s)) →
  let below := queue ≫= (λ x, generations (t_trail (st_db s)) (max_depth - x.2) [x.1]) in
  length queue + length below ≤ fuel →
  ∃ r, collect_loop fuel queue acc s = (Ok (Some r), s) ∧ r ≡ₚ acc ++ below.
Proof.
  intros Hs. set (l := t_trail (st_db s)). revert queue acc.
  induction fuel as [|fuel IH]; intros [|[i d] q] acc; cbn zeta; intros Hf.
  - exists acc. by rewrite app_nil_r.
  - simpl in Hf. lia.
  - exists acc. by rewrite app_nil_r.
  - rewrite bind_cons in *. cbn [collect_loop fst snd] in *. destruct (Nat.leb_spec max_depth d) as [Hd|Hd].
    + replace (max_depth - d) with 0 in * by lia. cbn [generations app] in *. apply IH. simpl in Hf. lia.
    + rewrite (run_bind_ok _ _ _ _ _ (trail_children_run i s Hs)). fold l.
      destruct (max_depth - d) as [|k] eqn:Hk; [lia|]. cbn [generations] in *. rewrite bind_singleton in *.
      assert (Hnext : ((λ c, (te_id c, S d)) <$> kids l i) ≫= (λ x, generations l (max_depth - x.2) [x.1])
        ≡ₚ generations l k (te_id <$> kids l i)).
      { rewrite generations_each, !bind_fmap_list. cbn [fst snd]. by replace (max_depth - S d) with k by lia. }
      destruct (IH (q ++ ((λ c, (te_id c, S d)) <$> kids l i)) (acc ++ kids l i)) as (r & Hr & Hp).
      { rewrite bind_app, Hnext. revert Hf. rewrite !length_app, length_fmap. cbn [length]. lia. }
      exists r. split; [done|]. rewrite Hp, bind_app, Hnext, <-!app_assoc. do 2 apply Permutation_app_head.
      apply Permutation_app_comm.
Qed.

Lemma kids_elem l i x : x ∈ kids l i → x ∈ l ∧ te_parent x = Some i.
Proof.
  intros (j & Hx & _)%elem_of_take. apply list_elem_of_lookup_2, list_elem_of_filter in Hx. tauto.
Qed.

Lemma kids_NoDup l i : NoDup l → NoDup (kids l i).
Proof.
  intros H. eapply sublist_NoDup; [|apply sublist_take]. by apply NoDup_filter.
Qed.

(** The children of distinct entries are distinct. *)
Lemma bind_kids_NoDup l ids : NoDup l → NoDup ids → NoDup (ids ≫= kids l).
Proof.
  intros Hl. induction 1 as [|i ids Hi _ IH]; [constructor|]. rewrite bind_cons.
  apply NoDup_app. split; [by apply kids_NoDup|]. split; [|done].
  intros x [_ Hx]%kids_elem (j & [_ Hj]%kids_elem & Hin)%list_elem_of_bind. rewrite Hx in Hj. by injection Hj as ->.
Qed.

Lemma ids_NoDup l k :
  NoDup (te_id <$> l) → NoDup k → (∀ x, x ∈ k → x ∈ l) → NoDup (te_id <$> k).
Proof.
  intros Hl Hk Hin. apply NoDup_fmap_2_strong; [|done]. intros x y Hx Hy. apply (NoDup_fmap_inj_in te_id l); auto.
Qed.

(** At most the whole trail per generation. *)
Lemma generations_length l k ids :
  NoDup (te_id <$> l) → NoDup ids → length (generations l k ids) ≤ k * length l.
Proof.
  intros Hl. revert ids. induction k as [|k IH]; intros ids Hids; [simpl; lia|]. cbn [generations].
  set (ch := ids ≫= kids l). assert (Hch : NoDup ch) by (apply bind_kids_NoDup; [by eapply NoDup_fmap_1|done]).
  assert (Hin : ∀ x, x ∈ ch → x ∈ l) by (intros x (i & Hx & _)%list_elem_of_bind; by apply kids_elem in Hx as [? _]).
  rewrite length_app. specialize (IH (te_id <$> ch) (ids_NoDup _ _ Hl Hch Hin)).
  assert (length ch ≤ length l) by by apply submseteq_length, NoDup_submseteq.
  simpl. lia.
Qed.

Lemma generations_elem l k ids x :
  (∀ i, length (filter (λ e, te_parent e = Some i) l) ≤ child_limit) →
  x ∈ generations l k ids ↔ ∃ n i, i ∈ ids ∧ n ≤ k ∧ descends l n i x.
Proof.
  intros Hfew. assert (Hkids : ∀ i y, y ∈ kids l i ↔ y ∈ l ∧ te_parent y = Some i).
  { intros i y. unfold kids. rewrite take_ge, list_elem_of_filter; [tauto|apply Hfew]. }
  assert (Hpos : ∀ n i y, descends l n i y → 1 ≤ n) by (intros n i y []; lia).
  revert ids. induction k as [|k IH]; intros ids; cbn [generations].
  { split; [by intros ?%elem_of_nil|]. intros (n & i & _ & Hn & Hd). specialize (Hpos _ _ _ Hd). lia. }
  rewrite elem_of_app, IH, list_elem_of_bind. setoid_rewrite list_elem_of_fmap. split.
  - intros [(i & [Hx Hp]%Hkids & Hi)|(n & j & (c & -> & Hc) & Hn & Hd)].
    + exists 1, i. split_and!; [done|lia|by constructor].
    + apply list_elem_of_bind in Hc as (i & [Hc Hp]%Hkids & Hi).
      exists (S n), i. split_and!; [done|lia|by eapply descends_step].
  - intros (n & i & Hi & Hn & Hd). destruct Hd as [i x Hx Hp|n i c x Hc Hp Hd].
    + left. exists i. by rewrite Hkids.
    + right. exists n, (te_id c). split_and!; [|lia|done]. exists c. split; [done|].
      apply list_elem_of_bind. exists i. by rewrite Hkids.
Qed.

(** The walk over the dependants always ends. *)
Lemma collect_descendants_run id s :
  seq_sorted (t_trail (st_db s)) → NoDup (te_id <$> t_trail (st_db s)) →
  ∃ r, _collect_descendants id s = (Ok (Some r), s) ∧ r ≡ₚ generations (t_trail (st_db s)) max_depth [id].
Proof.
  intros Hs Hnd. unfold _collect_descendants, gets. rewrite run_bind.
  destruct (collect_loop_run (S (max_depth * length (t_trail (st_db s)))) [(id, 0)] [] s Hs) as (r & Hr & Hp).
  - rewrite bind_singleton. cbn [length fst snd]. rewrite Nat.sub_0_r.
    pose proof (generations_length _ max_depth [id] Hnd (NoDup_singleton _)). lia.
  - exists r. split; [done|]. rewrite Hp, bind_singleton. done.
Qed.

Lemma unique_entries_elem seen l x :
  x ∈ unique_entries seen l → x ∈ l ∧ te_id x ∉ seen.
Proof.
  revert seen. induction l as [|e l IH]; intros seen; cbn [unique_entries]; [by intros ?%elem_of_nil|].
  case_bool_decide as He.
  - intros [Hx Hs]%IH. split; [by right|done].
  - intros [->|[Hx Hs]%IH]%elem_of_cons; [split; [left|done]|]. apply not_elem_of_cons in Hs as [_ Hs].
    split; [by right|done].
Qed.

Lemma unique_entries_all seen l x :
  x ∈ l → te_id x ∉ seen → ∃ y, y ∈ unique_entries seen l ∧ te_id y = te_id x.
Proof.
  revert seen. induction l as [|e l IH]; intros seen; [by intros ?%elem_of_nil|]. cbn [unique_entries].
  intros [->|Hx]%elem_of_cons Hs.
  - rewrite bool_decide_eq_false_2 by done. exists e. split; [left|done].
  - case_bool_decide as He; [by apply IH|]. destruct (decide (te_id x = te_id e)) as [Heq|Hne].
    + exists e. split; [left|done].
    + destruct (IH (te_id e :: seen) Hx) as (y & Hy & Hid); [by apply not_elem_of_cons|]. exists y. split; [by right|done].
Qed.

Lemma unique_entries_sub seen l : unique_entries seen l `sublist_of` l.
Proof.
  revert seen. induction l as [|e l IH]; intros seen; cbn [unique_entries]; [constructor|].
  case_bool_decide; [by apply sublist_cons|by apply sublist_skip].
Qed.

Lemma unique_entries_ids seen l : NoDup (te_id <$> unique_entries seen l).
Proof.
  revert seen. induction l as [|e l IH]; intros seen; cbn [unique_entries]; [constructor|].
  case_bool_decide; [done|]. rewrite fmap_cons. constructor; [|done].
  intros (y & Heq & [_ Hy]%unique_entries_elem)%list_elem_of_fmap. apply Hy. rewrite Heq. left.
Qed.

(** The list that a cascade works through. *)
Definition newest_first (a b : TraceEntry) : Prop := te_sequence b ≤ te_sequence a.

Lemma cascade_list l below root es :
  (∀ x, x ∈ below → x ∈ l) → root ∈ l → NoDup (te_id <$> l) →
  es = unique_entries [] (sort_by by_sequence_desc (below ++ [root])) →
  NoDup (te_id <$> es) ∧ StronglySorted newest_first es ∧ ∀ x, x ∈ es ↔ x = root ∨ x ∈ below.
Proof.
  intros Hin Hroot Hnd ->. split_and!.
  - apply unique_entries_ids.
  - eapply sublist_sorted; [apply unique_entries_sub|].
    assert (Hs : StronglySorted (leb_rel by_sequence_desc) (sort_by by_sequence_desc (below ++ [root]))).
    { apply sort_by_sorted; intros *; unfold by_sequence_desc; rewrite !Nat.leb_le; lia. }
    refine (sorted_mono _ _ _ _ Hs). intros a b Hab. by apply Nat.leb_le in Hab.
  - assert (Hall : ∀ x, x ∈ sort_by by_sequence_desc (below ++ [root]) ↔ x = root ∨ x ∈ below).
    { intros x. rewrite elem_of_sort_by, elem_of_app, list_elem_of_singleton. tauto. }
    intros x. split; [intros [Hx _]%unique_entries_elem; by apply Hall|].
    intros Hx. pose proof Hx as Hx'. apply Hall in Hx' as Hxs.
    destruct (unique_entries_all [] _ x Hxs) as (y & Hy & Hid); [by apply not_elem_of_nil|].
    assert (y = x) as <-; [|done]. pose proof Hy as [[-> |?]%Hall _]%unique_entries_elem;
      apply (NoDup_fmap_inj_in te_id l); try done; destruct Hx as [->|?]; auto.
Qed.

(** A cascade rolls back an entry and what depends on it, newest first: once the
    root has passed its constraints, the walk over the trail ends for every shape
    of the parent links, and, where no entry has more children than a query
    returns, what is rolled back or reported as denied is exactly the entry and
    the entries at most a hundred steps below it, each once; without a checker
    all of them are rolled back, children before parents. *)
Theorem cascade_exact constraints e actor kind why s s1 r s' :
  NoDup (te_id <$> t_trail (st_db s)) → e ∈ t_trail (st_db s) →
  _check_constraints constraints e actor kind s = (Ok tt, s1) →
  seq_sorted (t_trail (st_db s1)) → NoDup (te_id <$> t_trail (st_db s1)) → e ∈ t_trail (st_db s1) →
  (∀ i, length (filter (λ x, te_parent x = Some i) (t_trail (st_db s1))) ≤ child_limit) →
  rollback_cascade constraints (te_id e) actor kind why false s = (Ok r, s') →
  ∃ res es, r = Some (inl res) ∧
    (∀ x, x ∈ es ↔ x = e ∨ ∃ n, n ≤ max_depth ∧ descends (t_trail (st_db s1)) n (te_id e) x) ∧
    NoDup (te_id <$> es) ∧ StronglySorted newest_first es ∧
    rolled_back res `sublist_of` te_id <$> es ∧ rolled_back res ++ rb_denied res ≡ₚ te_id <$> es ∧
    (constraints = None → rolled_back res = te_id <$> es) ∧
    length (rollback_trace_ids res) = length (rolled_back res).
Proof.
  intros Hnd0 He0 Hroot Hs Hnd He Hfew H. unfold rollback_cascade in H.
  rewrite (run_bind_ok _ _ _ _ _ (get_entry_run _ _ Hnd0 He0)) in H.
  rewrite (run_bind_ok _ _ _ _ _ Hroot) in H.
  destruct (collect_descendants_run (te_id e) s1 Hs Hnd) as (below & Hbelow & Hperm).
  rewrite (run_bind_ok _ _ _ _ _ Hbelow) in H. cbv zeta in H.
  remember (unique_entries [] (sort_by by_sequence_desc (below ++ [e]))) as es eqn:Hes.
  apply (cascade_list (t_trail (st_db s1))) in Hes as (Hids & Hsorted & Hmem); [|..|done|done].
  2: { intros x. rewrite Hperm. apply generations_mono. }
  apply bind_ok_inv in H as ([p d] & s2 & Hsort & H). cbv beta iota in H.
  apply bind_ok_inv in H as (done & s3 & Hroll & H). apply mret_ok in H as [-> _].
  apply sort_out_ok in Hsort as (q & -> & Hpq & Hsub & Hall & Hnone).
  apply roll_all_ids in Hroll as [H1 H2].
  eexists _, es. split; [reflexivity|]. cbn [rolled_back rb_denied rollback_trace_ids]. rewrite H1, H2, length_fmap.
  split_and!; [|done|done|by apply fmap_sublist|by rewrite <-fmap_app, Hpq| |done].
  - intros x. rewrite Hmem, Hperm, generations_elem by done. clear. split; (intros [->|H]; [by left|right]).
    + destruct H as (n & i & ->%list_elem_of_singleton & ? & ?). by exists n.
    + destruct H as (n & ? & ?). exists n, (te_id e). by rewrite list_elem_of_singleton.
  - intros Hc. by rewrite (Hall (Hnone Hc)).
Qed.

(** The environment's rows after a rollback. *)
Definition updated_envs (id : string) (f : Environment → Environment) (l : list Environment) : list Environment :=
  (λ r, if by_env id r then f r else r) <$> l.

Lemma as_version_ok v n s s' : as_version v s = (Ok n, s') → v = JVint (Z.of_nat n) ∧ s' = s.
Proof.
  unfold as_version. destruct v; try done. destruct (Z.leb_spec 0 z); [|done]. intros [-> ->]%mret_ok.
  by rewrite Z2Nat.id.
Qed.

Lemma restore_object_ok e s u s' :
  restore_object e s = (Ok u, s') →
  match before_version e, te_before e with
  | Some v, _ => ∃ n, v = JVint (Z.of_nat n) ∧
      t_objects (st_db s') = updated_objects (te_target_id e) (with_version n) (t_objects (st_db s))
  | None, None => s' = put_db (set_objects (updated_objects (te_target_id e) archived_object (t_objects (st_db s))) (st_db s)) s
  | None, Some _ => s' = s
  end ∧ t_tombstones (st_db s') = t_tombstones (st_db s) ∧ t_layers (st_db s') = t_layers (st_db s).
Proof.
  unfold restore_object. destruct (before_version e) as [v|].
  - intros H. apply bind_ok_inv in H as (n & s1 & [-> ->]%as_version_ok & H).
    apply bind_ok_inv in H as (? & s1 & ->%sql_update_ok & H).
    destruct (after_version e) as [w|]; [|apply mret_ok in H as [_ ->]; by eauto].
    destruct (jval_eqb w (JVint (Z.of_nat n))); [apply mret_ok in H as [_ ->]; by eauto|].
    apply bind_ok_inv in H as (m & s1 & [-> ->]%as_version_ok & H). injection H as _ <-. by eauto.
  - destruct (te_before e); [by intros [_ ->]%mret_ok|]. by intros ->%sql_update_ok.
Qed.

Lemma as_state_ok v st s s' : as_state v s = (Ok st, s') → v = JVstr (env_state_value st) ∧ s' = s.
Proof.
  unfold as_state. destruct (find _ _) as [x|] eqn:Hf; [|done]. intros [-> ->]%mret_ok. split; [|done].
  apply find_Some_elem in Hf as [_ Hf]. unfold is_jstr in Hf. destruct v; try done.
  apply bool_decide_eq_true_1 in Hf. by subst.
Qed.

Lemma as_dict_ok v d s s' : as_dict v s = (Ok d, s') → v = JVdict d ∧ s' = s.
Proof. unfold as_dict. destruct v; try done. by intros [-> ->]%mret_ok. Qed.

(** What the record says of a row it is restored to. *)
Definition restored_to (st : jdict) (x y : Environment) : Prop :=
  match jget st "state" with
  | None => en_state y = en_state x
  | Some v => v = JVstr (env_state_value (en_state y))
  end ∧
  match jget st "metadata" with
  | None => en_metadata y = en_metadata x
  | Some v => v = JVdict (en_metadata y)
  end ∧
  en_id y = en_id x ∧ en_owner y = en_owner x ∧ en_scope y = en_scope x ∧ en_template y = en_template x ∧
  en_completed_at y = en_completed_at x.

Lemma updated_envs_same id l : updated_envs id (λ x, x) l = l.
Proof. unfold updated_envs. rewrite <-(list_fmap_id l) at 2. apply list_fmap_ext. intros _ x _. by destruct (by_env id x). Qed.

Lemma set_envs_same t : set_envs (e_envs (envs t)) t = t.
Proof. by destruct t as [???????????? [? [] ????]]. Qed.

(** The optional column of the record, decoded. *)
Lemma optional_ok {X} (decode : jval → lp X) o s r s' :
  (match o with None => mret None | Some v => x ← decode v; mret (Some x) end : lp (option X)) s = (Ok r, s') →
  match o with None => r = None ∧ s' = s | Some v => ∃ x, r = Some x ∧ decode v s = (Ok x, s') end.
Proof.
  destruct o as [v|]; [|by intros [-> ->]%mret_ok]. intros H. apply bind_ok_inv in H as (x & s1 & Hx & H).
  apply mret_ok in H as [-> ->]. by exists x.
Qed.

Lemma restore_environment_ok e s u s' :
  restore_environment e s = (Ok u, s') →
  ∃ f, s' = put_db (set_envs (updated_envs (te_target_id e) f (e_envs (envs (st_db s)))) (st_db s)) s ∧
    match te_before e with
    | None => f = in_environment_state DISCARDED
    | Some st => ∀ x, restored_to st x (f x)
    end.
Proof.
  unfold restore_environment. destruct (te_before e) as [st|].
  2: { intros ->%sql_update_ok. by eexists. }
  intros H. apply bind_ok_inv in H as (state & s1 & H1%optional_ok & H).
  apply bind_ok_inv in H as (meta & s2 & H2%optional_ok & H).
  assert (Hs2 : s2 = s ∧ ∀ x, restored_to st x (with_env_values state meta x)).
  { unfold restored_to. destruct (jget st "state") as [v|], (jget st "metadata") as [w|].
    - destruct H1 as (a & -> & [-> ->]%as_state_ok), H2 as (b & -> & [-> ->]%as_dict_ok). done.
    - destruct H1 as (a & -> & [-> ->]%as_state_ok), H2 as [-> ->]. done.
    - destruct H1 as [-> ->], H2 as (b & -> & [-> ->]%as_dict_ok). done.
    - destruct H1 as [-> ->], H2 as [-> ->]. done. }
  destruct Hs2 as [-> Hf]. destruct state as [a|], meta as [b|]; [apply sql_update_ok in H as ->; by eexists..|].
  apply mret_ok in H as [_ ->]. exists (λ x, x). rewrite updated_envs_same, set_envs_same. split; [by destruct s|].
  intros x. specialize (Hf x). by destruct x.
Qed.

(** What one rollback does to its target. An object goes back to the version the
    entry names, or, when the entry names none, is archived if it recorded no state
    before and left alone otherwise, its tombstone and the layers above untouched;
    an environment takes the recorded state and metadata, or is discarded; any
    other target (a scope, a rule, a membership, a secret) is not restored at
    all, though the rollback reports success. *)
Theorem rollback_target_exact constraints e actor kind why s r s' :
  NoDup (te_id <$> t_trail (st_db s)) → e ∈ t_trail (st_db s) →
  rollback_action constraints (te_id e) actor kind why false s = (Ok r, s') →
  let id := te_target_id e in
  (∃ res, r = inl res ∧ rb_success res = true ∧ rolled_back res = [te_id e]) ∧
  (id ∈ so_id <$> t_objects (st_db s) →
    t_tombstones (st_db s') = t_tombstones (st_db s) ∧ t_layers (st_db s') = t_layers (st_db s) ∧
    match before_version e, te_before e with
    | Some v, _ => ∃ n, v = JVint (Z.of_nat n) ∧
        t_objects (st_db s') = updated_objects id (with_version n) (t_objects (st_db s))
    | None, None => t_objects (st_db s') = updated_objects id archived_object (t_objects (st_db s)) ∧
        t_object_versions (st_db s') = t_object_versions (st_db s)
    | None, Some _ => object_tables (st_db s') = object_tables (st_db s)
    end) ∧
  (id ∉ so_id <$> t_objects (st_db s) → object_tables (st_db s') = object_tables (st_db s) ∧
    (id ∈ en_id <$> e_envs (envs (st_db s)) →
      ∃ f, e_envs (envs (st_db s')) = updated_envs id f (e_envs (envs (st_db s))) ∧
        match te_before e with
        | None => f = in_environment_state DISCARDED
        | Some st => ∀ x, restored_to st x (f x)
        end) ∧
    (id ∉ en_id <$> e_envs (envs (st_db s)) → off_trail s s')).
Proof.
  intros Hnd He H id. unfold rollback_action in H.
  rewrite (run_bind_ok _ _ _ _ _ (get_entry_run _ _ Hnd He)) in H.
  apply bind_ok_inv in H as ([] & s1 & Hoff1%(off_trail_run _ _ _ _ (check_constraints_off_trail _ _ _ _)) & H).
  apply bind_ok_inv in H as (rb & s2 & (s3 & Happly & Hoff2 & _)%execute_ok & H). apply mret_ok in H as [-> ->].
  split; [by eexists|].
  pose proof (off_trail_objects _ _ Hoff1) as Ho1. pose proof (off_trail_objects _ _ Hoff2) as Ho2.
  pose proof (off_trail_layers _ _ Hoff1) as Hl1. pose proof (off_trail_layers _ _ Hoff2) as Hl2.
  pose proof Ho1 as [= Ho1r Ho1v Ho1t]. pose proof Ho2 as [= Ho2r Ho2v Ho2t]. unfold envs.
  unfold _apply_rollback_state in Happly. apply bind_ok_inv in Happly as (row & s4 & [-> Hrow]%fetch_one_ok & Happly).
  split.
  - intros (o & Hid & Ho)%list_elem_of_fmap. destruct row as [x|]; last first.
    { rewrite Ho1r in Hrow. specialize (Hrow o Ho). unfold of_object in Hrow.
      apply bool_decide_eq_false_1 in Hrow. by destruct Hrow. }
    apply restore_object_ok in Happly as (Hcase & Ht & Hl). split; [congruence|]. split; [congruence|].
    destruct (before_version e) as [v|].
    + destruct Hcase as (n & -> & Hn). exists n. split; [done|]. by rewrite Ho2r, Hn, Ho1r.
    + destruct (te_before e); subst s3; [by rewrite Ho2, Ho1|]. rewrite Ho2r, Ho2v. simpl. by rewrite Ho1r, Ho1v.
  - intros Hno. destruct row as [x|].
    { destruct Hrow as [Hx Hid]. destruct Hno. unfold of_object in Hid. apply bool_decide_eq_true_1 in Hid.
      unfold id. rewrite <-Hid, <-Ho1r. by apply list_elem_of_fmap_2. }
    apply bind_ok_inv in Happly as (erow & s4 & [-> Herow]%fetch_one_ok & Happly). unfold e_table, envs in Herow.
    rewrite Hl1 in Herow. destruct erow as [x|].
    + apply restore_environment_ok in Happly as (f & -> & Hf). split; [by rewrite Ho2, <-Ho1|]. split.
      * intros _. exists f. split; [|done]. rewrite Hl2. simpl. unfold envs. by rewrite Hl1.
      * intros Hne. destruct Hne. destruct Herow as [Hx Hid]. unfold by_env in Hid. apply bool_decide_eq_true_1 in Hid.
        unfold id. rewrite <-Hid. by apply list_elem_of_fmap_2.
    + apply mret_ok in Happly as [_ ->]. split; [congruence|]. split; [|intros _; by etrans].
      intros (x & Hid & Hx)%list_elem_of_fmap. specialize (Herow x Hx). unfold by_env in Herow.
      apply bool_decide_eq_false_1 in Herow. by destruct Herow.
Qed.
End TemporalProperties.
