(* ===== verification/Deployments.v ===== *)
(** * Legacy v1: deployments (deployments/)

    Work that leaves for an external target: versioned deployments and their
    states, the gates in front of them, and rollbacks, which are deployments too. *)

From S2P Require Import Prelude LegacyTypes Schema Trail Tenancy Objects Environments.

Definition p_table {R} (f : deploy_tables → list R) (t : tables) : list R := f (deploys t).

(** ** models.py *)

Definition deployment_state_value (st : DeploymentState) : string :=
  match st with
  | DEP_PENDING => "pending" | DEPLOYING => "deploying" | DEPLOYED => "deployed" | DEP_FAILED => "failed"
  | ROLLED_BACK => "rolled_back"
  end.

Definition gate_type_value (g : GateType) : string :=
  match g with
  | STAGE_CHECK => "stage_check" | RULE_CHECK => "rule_check" | APPROVAL => "approval" | CUSTOM_GATE => "custom"
  end.

Definition TERMINAL_STATES : list DeploymentState := [DEPLOYED; DEP_FAILED; ROLLED_BACK].
Definition deployment_terminal (d : Deployment) : bool := bool_decide (dp_state d ∈ TERMINAL_STATES).
Definition target_active (x : DeploymentTarget) : bool := bool_decide (dt_lifecycle x = ACTIVE).

Definition _ALLOWED_TRANSITIONS (st : DeploymentState) : list DeploymentState :=
  match st with
  | DEP_PENDING => [DEPLOYING]
  | DEPLOYING => [DEPLOYED; DEP_FAILED]
  | DEPLOYED => [ROLLED_BACK]
  | DEP_FAILED => []
  | ROLLED_BACK => []
  end.

Definition by_target (id : string) (x : DeploymentTarget) : bool := bool_decide (dt_id x = id).
Definition by_deployment (id : string) (x : Deployment) : bool := bool_decide (dp_id x = id).
Definition on_target (id : string) (x : Deployment) : bool := bool_decide (dp_target x = id).
Definition gate_of (id : string) (g : DeploymentGate) : bool := bool_decide (dg_deployment g = id).
Definition rolls_back (id : string) (x : Deployment) : bool := bool_decide (dp_rollback_of x = Some id).

Definition in_state (st : DeploymentState) (at_ : option Z) (d : Deployment) : Deployment := {|
  dp_id := dp_id d; dp_target := dp_target d; dp_by := dp_by d; dp_version := dp_version d; dp_state := st;
  dp_object := dp_object d; dp_scope := dp_scope d; dp_at := at_; dp_rollback_of := dp_rollback_of d;
  dp_metadata := dp_metadata d |}.

Definition archived_target (x : DeploymentTarget) : DeploymentTarget := {|
  dt_id := dt_id x; dt_name := dt_name x; dt_type := dt_type x; dt_owner := dt_owner x;
  dt_created_at := dt_created_at x; dt_config := dt_config x; dt_lifecycle := ARCHIVED |}.

(** [value or default] of an optional dict. *)
Definition or_dict (d : option jdict) (default : jdict) : jdict :=
  match d with Some (x :: l) => x :: l | _ => default end.

Section Deployments.
Context `{host : !Host} `{sink : !AuditSink}.
(** The rows of the principals table, of the identity layer. *)
Context (known_principal : string → bool).

Definition deployment_snapshot (d : Deployment) : jdict := [
  ("id", JVstr (dp_id d)); ("target_id", JVstr (dp_target d)); ("object_id", jopt (dp_object d));
  ("scope_id", jopt (dp_scope d)); ("version", JVint (Z.of_nat (dp_version d)));
  ("state", JVstr (deployment_state_value (dp_state d))); ("deployed_at", jopt (isoformat <$> dp_at d));
  ("deployed_by", JVstr (dp_by d)); ("rollback_of", jopt (dp_rollback_of d)); ("metadata", JVdict (dp_metadata d))].

Definition gate_snapshot (g : DeploymentGate) : jdict := [
  ("id", JVstr (dg_id g)); ("deployment_id", JVstr (dg_deployment g));
  ("gate_type", JVstr (gate_type_value (dg_type g))); ("passed", JVbool (dg_passed g));
  ("checked_at", JVstr (isoformat (dg_at g))); ("details", JVdict (dg_details g))].

Definition target_snapshot (x : DeploymentTarget) : jdict := [
  ("id", JVstr (dt_id x)); ("name", JVstr (dt_name x)); ("target_type", JVstr (dt_type x));
  ("config", JVdict (dt_config x)); ("owner_id", JVstr (dt_owner x));
  ("lifecycle", JVstr (lifecycle_name (dt_lifecycle x))); ("created_at", JVstr (isoformat (dt_created_at x)))].

(** ** DeploymentExecutor (executor.py)

    A dict of JSON values with string keys always passes [_validate_json_dict]. *)

(** *** Targets *)

Definition insert_target (x : DeploymentTarget) : lp unit :=
  raise_if (negb (known_principal (dt_owner x))) (IntegrityError "deployment_targets.owner_id") ;;
  sql_insert (p_table p_targets) set_targets (λ a b, bool_decide (dt_id a = dt_id b)) "deployment_targets.id" x.

Definition create_target (name type owner : string) (config : option jdict) : lp DeploymentTarget :=
  ts ← now_utc;
  tid ← generate_id;
  let target := {| dt_id := tid; dt_name := name; dt_type := type; dt_owner := owner; dt_created_at := ts;
    dt_config := or_dict config []; dt_lifecycle := ACTIVE |} in
  insert_target target ;;
  audit (states_req None (Some [("name", JVstr name); ("target_type", JVstr type)])
    (request owner ActionType.CREATE "deployment_target" tid)) ;;
  mret target.

Definition get_target (id : string) : lp (option DeploymentTarget) := fetch_one (p_table p_targets) (by_target id).

Definition newest_target (a b : DeploymentTarget) : bool := (dt_created_at b <=? dt_created_at a)%Z.

Definition list_targets (owner : option string) (active_only : bool) (limit : nat) : lp (list DeploymentTarget) :=
  l ← select_sorted (p_table p_targets)
        (λ x, filter_opt owner (dt_owner x) && (negb active_only || target_active x)) newest_target;
  mret (take limit l).

Definition archive_target (id : string) (archived_by : option string) : lp unit :=
  sql_update (p_table p_targets) set_targets (by_target id) archived_target ;;
  match archived_by with
  | None => mret tt
  | Some actor =>
      audit (states_req (Some [("lifecycle", JVstr "ACTIVE")]) (Some [("lifecycle", JVstr "ARCHIVED")])
        (request actor ActionType.LIFECYCLE_CHANGE "deployment_target" id))
  end.

Definition _require_target (id : string) (active_only : bool) : lp DeploymentTarget :=
  found ← get_target id;
  match found with
  | None => raise (DeploymentError ("Deployment target " +:+ id +:+ " not found"))
  | Some target =>
      raise_if (active_only && negb (target_active target))
        (DeploymentError ("Deployment target " +:+ id +:+ " is archived")) ;;
      mret target
  end.

Definition _require_object (id : string) : lp unit :=
  row ← fetch_one t_objects (of_object id);
  raise_if (bool_decide (row = None)) (DeploymentError ("Deployment object " +:+ id +:+ " not found")).

Definition _require_scope (id : string) : lp unit :=
  row ← fetch_one t_scopes (by_scope id);
  raise_if (bool_decide (row = None)) (ScopeNotFound ("Scope " +:+ id +:+ " not found")).

(** *** Deployments *)

Definition get_deployment (id : string) : lp (option Deployment) :=
  fetch_one (p_table p_deployments) (by_deployment id).

(** The foreign keys of a deployment and of a gate. *)
Definition require_optional {R} (tbl : tables → list R) (p : string → R → bool) (o : option string) (c : string)
  : lp unit :=
  match o with None => mret tt | Some id => require_row tbl (p id) c end.

Definition insert_deployment (d : Deployment) : lp unit :=
  require_row (p_table p_targets) (by_target (dp_target d)) "deployments.target_id" ;;
  require_optional t_objects of_object (dp_object d) "deployments.object_id" ;;
  require_optional t_scopes by_scope (dp_scope d) "deployments.scope_id" ;;
  require_optional (p_table p_deployments) by_deployment (dp_rollback_of d) "deployments.rollback_of" ;;
  sql_insert (p_table p_deployments) set_deployments (λ a b, bool_decide (dp_id a = dp_id b)) "deployments.id" d.

Definition require_original (target : string) (rollback_of : option string) : lp unit :=
  match rollback_of with
  | None => mret tt
  | Some r =>
      found ← get_deployment r;
      match found with
      | None => raise (DeploymentError ("Rollback source deployment " +:+ r +:+ " not found"))
      | Some original =>
          raise_if (negb (bool_decide (dp_target original = target)))
            (DeploymentError "Rollback deployment target must match the original deployment")
      end
  end.

(** SELECT COALESCE(MAX(version), 0) ... *)
Definition max_version (l : list Deployment) : nat := foldr (λ d m, Nat.max (dp_version d) m) 0 l.

Definition create_deployment (target_id deployed_by : string) (object scope : option string)
  (metadata : option jdict) (rollback_of : option string) : lp Deployment :=
  _require_target target_id true ;;
  match object with None => mret tt | Some o => _require_object o end ;;
  match scope with None => mret tt | Some sc => _require_scope sc end ;;
  require_original target_id rollback_of ;;
  max_v ← gets (λ s, max_version (filter (λ d, on_target target_id d = true) (p_deployments (deploys (st_db s)))));
  _ ← now_utc;
  did ← generate_id;
  let dep := {| dp_id := did; dp_target := target_id; dp_by := deployed_by; dp_version := S max_v;
    dp_state := DEP_PENDING; dp_object := object; dp_scope := scope; dp_at := None; dp_rollback_of := rollback_of;
    dp_metadata := or_dict metadata [] |} in
  insert_deployment dep ;;
  audit (states_req None (Some (deployment_snapshot dep)) (request deployed_by ActionType.DEPLOY "deployment" did)) ;;
  mret dep.

Definition newest_version (a b : Deployment) : bool := dp_version b <=? dp_version a.
Definition oldest_version (a b : Deployment) : bool := dp_version a <=? dp_version b.

Definition list_deployments (target : option string) (state : option DeploymentState) (limit : nat)
  : lp (list Deployment) :=
  l ← select_sorted (p_table p_deployments)
        (λ d, filter_opt target (dp_target d) && filter_opt state (dp_state d)) newest_version;
  mret (take limit l).

Definition deployment_or_raise (id : string) : lp Deployment :=
  found ← get_deployment id;
  match found with
  | None => raise (DeploymentError ("Deployment " +:+ id +:+ " not found"))
  | Some d => mret d
  end.

(** When it is deployed, the time of that is stored too. *)
Definition moved_to (st : DeploymentState) (now : Z) (d : Deployment) : Deployment :=
  in_state st (if bool_decide (st = DEPLOYED) then Some now else dp_at d) d.

Definition transition_state (id : string) (new_state : DeploymentState) (actor : option string) : lp Deployment :=
  dep ← deployment_or_raise id;
  raise_if (negb (bool_decide (new_state ∈ _ALLOWED_TRANSITIONS (dp_state dep))))
    (DeploymentError ("Invalid deployment transition " +:+ deployment_state_value (dp_state dep) +:+ " -> " +:+
      deployment_state_value new_state)) ;;
  now ← now_utc;
  sql_update (p_table p_deployments) set_deployments (by_deployment id) (moved_to new_state now) ;;
  match actor with
  | None => mret tt
  | Some a =>
      audit (states_req (Some (deployment_snapshot dep)) (Some (deployment_snapshot (moved_to new_state now dep)))
        (request a ActionType.DEPLOY "deployment" id))
  end ;;
  mret (moved_to new_state now dep).

(** The gates that stand in the way. *)
Definition check_gates (id : string) : lp unit :=
  gates ← select (p_table p_gates) (gate_of id);
  let failed := filter (λ g, dg_passed g = false) gates in
  raise_if (negb (bool_decide (failed = [])))
    (DeploymentGateFailed (pretty (length failed) +:+ " gate(s) failed for deployment " +:+ id)).

(** [deploy_fn]: the application's callback; an exception counts as a failure. *)
Definition run_deploy (deploy_fn : option (Deployment → lp bool)) (d : Deployment) : lp bool :=
  match deploy_fn with
  | None => mret true
  | Some f => r ← try (f d); mret (match r with Ok b => b | Raise _ => false end)
  end.

Definition execute_deployment (id actor : string) (deploy_fn : option (Deployment → lp bool)) : lp Deployment :=
  dep ← deployment_or_raise id;
  raise_if (negb (bool_decide (dp_state dep = DEP_PENDING)))
    (DeploymentError ("Deployment must be in PENDING state, got " +:+ deployment_state_value (dp_state dep))) ;;
  _require_target (dp_target dep) true ;;
  check_gates id ;;
  dep ← transition_state id DEPLOYING (Some actor);
  success ← run_deploy deploy_fn dep;
  transition_state id (if (success : bool) then DEPLOYED else DEP_FAILED) (Some actor).

(** ** GateChecker (gates.py) *)

Record GateResult := {
  gr_deployment : string; all_passed : bool; gr_gates : list DeploymentGate; failed_count : nat;
}.

Definition insert_gate (g : DeploymentGate) : lp unit :=
  require_row (p_table p_deployments) (by_deployment (dg_deployment g)) "deployment_gates.deployment_id" ;;
  sql_insert (p_table p_gates) set_gates (λ a b, bool_decide (dg_id a = dg_id b)) "deployment_gates.id" g.

Definition record_gate (deployment : string) (type : GateType) (passed : bool) (details : option jdict)
  (checked_by : option string) : lp DeploymentGate :=
  ts ← now_utc;
  gid ← generate_id;
  let gate := {| dg_id := gid; dg_deployment := deployment; dg_type := type; dg_passed := passed; dg_at := ts;
    dg_details := or_dict details [] |} in
  insert_gate gate ;;
  match checked_by with
  | None => mret tt
  | Some actor =>
      audit (states_req None (Some (gate_snapshot gate)) (request actor ActionType.GATE_CHECK "deployment_gate" gid))
  end ;;
  mret gate.

Definition oldest_gate (a b : DeploymentGate) : bool := (dg_at a <=? dg_at b)%Z.

Definition get_gates (id : string) : lp (list DeploymentGate) :=
  select_sorted (p_table p_gates) (gate_of id) oldest_gate.

Definition check_all_passed (id : string) : lp GateResult :=
  gates ← get_gates id;
  let failed := filter (λ g, dg_passed g = false) gates in
  mret {| gr_deployment := id; all_passed := (length failed =? 0) && (0 <? length gates); gr_gates := gates;
          failed_count := length failed |}.

Definition check_all_passed_or_none (id : string) : lp GateResult :=
  gates ← get_gates id;
  let failed := filter (λ g, dg_passed g = false) gates in
  mret {| gr_deployment := id; all_passed := length failed =? 0; gr_gates := gates; failed_count := length failed |}.

(** ** DeploymentRollbackManager (rollback.py) *)

Definition rollback_deployment (id actor : string) (metadata : option jdict) : lp Deployment :=
  found ← get_deployment id;
  match found with
  | None => raise (DeploymentRollbackError ("Deployment " +:+ id +:+ " not found"))
  | Some original =>
      raise_if (negb (bool_decide (dp_state original = DEPLOYED)))
        (DeploymentRollbackError ("Cannot roll back deployment in state " +:+
          deployment_state_value (dp_state original))) ;;
      rollback_dep ← create_deployment (dp_target original) actor (dp_object original) (dp_scope original)
        (Some (or_dict metadata [("reason", JVstr ("rollback of " +:+ id))])) (Some id);
      transition_state id ROLLED_BACK (Some actor) ;;
      audit (states_req (Some (deployment_snapshot original)) (Some (deployment_snapshot rollback_dep))
        (request actor ActionType.DEPLOY_ROLLBACK "deployment" (dp_id rollback_dep))) ;;
      mret rollback_dep
  end.

(** The deployment that rolled this one back, the oldest first. *)
Definition next_rollback (id : string) : lp (option Deployment) :=
  l ← select_sorted (p_table p_deployments) (rolls_back id) oldest_version; mret (head l).

(** [fuel] bounds the number of rounds. *)
Fixpoint rollback_chain_loop (fuel : nat) (current : option string) (seen : list string) (chain : list Deployment)
  : lp (option (list Deployment)) :=
  match current with
  | None => mret (Some chain)
  | Some id =>
      match fuel with
      | O => mret None
      | S fuel' =>
          raise_if (bool_decide (id ∈ seen))
            (DeploymentRollbackError ("Detected cycle in rollback chain at deployment " +:+ id)) ;;
          found ← get_deployment id;
          match found with
          | None => mret (Some chain)
          | Some dep =>
              row ← next_rollback id;
              rollback_chain_loop fuel' (dp_id <$> row) (id :: seen) (chain ++ [dep])
          end
      end
  end.

Definition get_rollback_chain (id : string) : lp (option (list Deployment)) :=
  fuel ← gets (λ s, S (S (length (p_deployments (deploys (st_db s))))));
  rollback_chain_loop fuel (Some id) [] [].
End Deployments.

(** ** The invariant *)

Definition deployments_of (t : tables) : list Deployment := p_deployments (deploys t).
Definition of_target (target : string) (t : tables) : list Deployment :=
  filter (λ d, dp_target d = target) (deployments_of t).

Record deploy_ok (t : tables) : Prop := {
  dk_targets : NoDup (dt_id <$> p_targets (deploys t));
  dk_ids : NoDup (dp_id <$> deployments_of t);
  dk_versions : ∀ target, dp_version <$> of_target target t = seq 1 (length (of_target target t));
  dk_target : ∀ d, d ∈ deployments_of t → dp_target d ∈ dt_id <$> p_targets (deploys t);
  dk_rollback : ∀ d r, d ∈ deployments_of t → dp_rollback_of d = Some r →
    ∃ o, o ∈ deployments_of t ∧ dp_id o = r ∧ dp_target o = dp_target d ∧ dp_version o < dp_version d;
  dk_at : ∀ d, d ∈ deployments_of t → is_Some (dp_at d) ↔ dp_state d = DEPLOYED ∨ dp_state d = ROLLED_BACK;
  dk_gates : ∀ g, g ∈ p_gates (deploys t) → dg_deployment g ∈ dp_id <$> deployments_of t;
}.

(** [d'] is [d] some transitions later. *)
Definition later_deployment (d d' : Deployment) : Prop :=
  dp_id d' = dp_id d ∧ dp_target d' = dp_target d ∧ dp_by d' = dp_by d ∧ dp_version d' = dp_version d ∧
  dp_object d' = dp_object d ∧ dp_scope d' = dp_scope d ∧ dp_rollback_of d' = dp_rollback_of d ∧
  dp_metadata d' = dp_metadata d ∧ rtc (λ a b, b ∈ _ALLOWED_TRANSITIONS a) (dp_state d) (dp_state d') ∧
  (is_Some (dp_at d) → dp_at d' = dp_at d).

#[export] Instance later_deployment_preorder : PreOrder later_deployment.
Proof.
  split; [intros d; by split_and!|]. intros a b c (?&?&?&?&?&?&?&?&?&Hab) (?&?&?&?&?&?&?&?&?&Hbc).
  split_and!; try congruence; [by etrans|]. intros Ha. pose proof (Hab Ha) as Hb. rewrite <-Hb in Ha.
  rewrite <-Hb. by apply Hbc.
Qed.

Lemma later_diag l : Forall2 later_deployment l l.
Proof. by apply Forall_Forall2_diag, Forall_true. Qed.

(** Nothing is deleted, deployments only move along their states. *)
Record deploy_later (t t' : tables) : Prop := {
  dl_deployments : ∃ l, Forall2 later_deployment (deployments_of t) l ∧ l `prefix_of` deployments_of t';
  dl_gates : p_gates (deploys t) `prefix_of` p_gates (deploys t');
  dl_targets : ∀ x, x ∈ p_targets (deploys t) → x ∈ p_targets (deploys t') ∨ archived_target x ∈ p_targets (deploys t');
}.

Lemma Forall2_prefix {X} (R : relation X) (l k m : list X) :
  l `prefix_of` k → Forall2 R k m → ∃ l', Forall2 R l l' ∧ l' `prefix_of` m.
Proof.
  intros [r ->] H. apply Forall2_app_inv_l in H as (l' & r' & Hl & _ & ->). exists l'. split; [done|]. by apply prefix_app_r.
Qed.

#[export] Instance deploy_later_preorder : PreOrder deploy_later.
Proof.
  split.
  - intros t. split; [|done|by left]. exists (deployments_of t). split; [|done]. apply later_diag.
  - intros a b c [(l1 & Hl1 & Hp1) Hg1 Ht1] [(l2 & Hl2 & Hp2) Hg2 Ht2]. split; [|by etrans|].
    + destruct (Forall2_prefix _ _ _ _ Hp1 Hl2) as (l3 & Hl3 & Hp3). exists l3. split; [|by etrans].
      by etrans.
    + intros x [Hx|Hx]%Ht1; [by apply Ht2|]. right. destruct (Ht2 _ Hx) as [|Hx']; [done|]. exact Hx'.
Qed.

(** The deployments layer's rows as they were. *)
Definition same_deploys : relation store := λ s s', deploys (st_db s') = deploys (st_db s).

#[export] Instance same_deploys_preorder : PreOrder same_deploys.
Proof. split; [by intros s|]. intros s1 s2 s3 H1 H2. unfold same_deploys in *. congruence. Qed.

Lemma layers_deploys {R} (m : lp R) : respects same_layers m → respects same_deploys m.
Proof. intros H s. unfold same_deploys, deploys. by rewrite (H s). Qed.

Section Invariant.
Context `{host : !Host} `{sink : !AuditSink}.
Context (known_principal : string → bool).

#[local] Abbreviation dkeeps := (keeps deploy_ok deploy_later).

Lemma dkeeps_same {R} (m : lp R) s : same_deploys s (m s).2 → dkeeps m s.
Proof.
  intros H [A1 A2 A3 A4 A5 A6 A7]. unfold same_deploys in H.
  split; [by split; unfold of_target, deployments_of in *; rewrite H|].
  split; unfold deployments_of; rewrite H; [|done|by left].
  eexists. split; [|done]. apply later_diag.
Qed.

Lemma dkeeps_reads {R} (m : lp R) s : reads m → dkeeps m s.
Proof. intros H. apply dkeeps_same. by rewrite (H s). Qed.

Lemma dkeeps_audit q s : dkeeps (audit q) s.
Proof. apply dkeeps_same. apply layers_deploys, audit_layers. Qed.

Lemma dkeeps_audit_opt o (f : string → trace_request) s :
  dkeeps (match o with None => mret tt | Some a => audit (f a) end) s.
Proof. destruct o; [apply dkeeps_audit|by apply dkeeps_same]. Qed.

(** The highest version is the number of the target's deployments. *)
Lemma max_version_run target t :
  deploy_ok t →
  max_version (filter (λ d, on_target target d = true) (p_deployments (deploys t))) = length (of_target target t).
Proof.
  intros Hok. assert (Heq : filter (λ d, on_target target d = true) (p_deployments (deploys t)) = of_target target t).
  { apply list_filter_iff. intros d. unfold on_target. by rewrite bool_decide_eq_true. }
  rewrite Heq. pose proof (dk_versions _ Hok target) as Hv. revert Hv. generalize (of_target target t). intros l Hl.
  assert (Hmax : ∀ m k, dp_version <$> m = seq k (length m) → max_version m = match m with [] => 0 | _ => k + length m - 1 end).
  { clear. induction m as [|d m IH]; intros k; [done|]. cbn [length seq]. rewrite fmap_cons. intros [= Hd Hm].
    cbn [max_version foldr]. change (foldr _ 0 m) with (max_version m). rewrite (IH (S k) Hm). destruct m; simpl; lia. }
  rewrite (Hmax l 1 Hl). destruct l; simpl; lia.
Qed.

(** A new deployment, with the next version of its target. *)
Lemma deploy_ok_create t d :
  deploy_ok t → dp_id d ∉ dp_id <$> deployments_of t → dp_target d ∈ dt_id <$> p_targets (deploys t) →
  dp_version d = S (length (of_target (dp_target d) t)) → dp_state d = DEP_PENDING → dp_at d = None →
  (∀ r, dp_rollback_of d = Some r → ∃ o, o ∈ deployments_of t ∧ dp_id o = r ∧ dp_target o = dp_target d) →
  let t' := set_deployments (deployments_of t ++ [d]) t in deploy_ok t' ∧ deploy_later t t'.
Proof.
  intros [A1 A2 A3 A4 A5 A6 A7] Hnew Ht Hv Hst Hat Hroll t'.
  assert (Hin : ∀ x, x ∈ deployments_of t' ↔ x ∈ deployments_of t ∨ x = d).
  { intros x. unfold t', deployments_of. simpl. by rewrite elem_of_app, list_elem_of_singleton. }
  split; [split|split]; try done.
  - unfold deployments_of, t'. simpl. rewrite fmap_app. apply NoDup_app. split; [done|]. split; [|apply NoDup_singleton].
    intros x Hx ->%list_elem_of_singleton. done.
  - intros target. unfold of_target. change (deployments_of t') with (deployments_of t ++ [d]).
    rewrite filter_app, filter_cons. change (filter _ (@nil Deployment)) with (@nil Deployment). case_decide as Hd.
    + rewrite fmap_app, length_app. simpl. rewrite seq_app. fold (of_target target t). rewrite A3. f_equal. simpl.
      by rewrite Hv, Hd.
    + rewrite app_nil_r. apply A3.
  - intros x [Hx| ->]%Hin; [by apply A4|done].
  - intros x r [Hx| ->]%Hin Hr.
    + destruct (A5 x r Hx Hr) as (o & Ho & ?). exists o. rewrite Hin. auto.
    + destruct (Hroll r Hr) as (o & Ho & Hid & Htar). exists o. rewrite Hin. split_and!; [by left|done|done|].
      rewrite Hv, <-Htar. assert (Hvo : dp_version o ∈ dp_version <$> of_target (dp_target o) t).
      { apply list_elem_of_fmap_2, list_elem_of_filter. done. }
      rewrite A3, elem_of_seq in Hvo. lia.
  - intros x [Hx| ->]%Hin; [by apply A6|]. rewrite Hst, Hat. split; [by intros [? ?]|]. by intros [?|?].
  - intros g Hg. unfold deployments_of, t'. simpl. rewrite fmap_app, elem_of_app. left. by apply A7.
  - exists (deployments_of t). split; [apply later_diag|]. by apply prefix_app_r.
  - by left.
Qed.

(** The rows of an UPDATE of one deployment. *)
Definition updated_deployments (id : string) (f : Deployment → Deployment) (l : list Deployment) : list Deployment :=
  (λ r, if by_deployment id r then f r else r) <$> l.

Lemma updated_deployment_elem id f l x :
  x ∈ updated_deployments id f l ↔ (∃ r, r ∈ l ∧ dp_id r = id ∧ x = f r) ∨ x ∈ l ∧ dp_id x ≠ id.
Proof.
  unfold updated_deployments, by_deployment. rewrite list_elem_of_fmap. split.
  - intros (r & -> & Hr). case_bool_decide; [left; by exists r|by right].
  - intros [(r & Hr & Hid & ->)|[Hx Hne]]; [exists r; by rewrite bool_decide_eq_true_2|].
    exists x. by rewrite bool_decide_eq_false_2.
Qed.

(** A column that the update leaves alone. *)
Lemma updated_column {K} (g : Deployment → K) id f l :
  (∀ r, g (f r) = g r) → g <$> updated_deployments id f l = g <$> l.
Proof.
  intros Hg. unfold updated_deployments. rewrite <-list_fmap_compose. apply list_fmap_ext. intros _ r _. simpl.
  by destruct (by_deployment id r).
Qed.

Lemma updated_filter id f l target :
  (∀ r, dp_target (f r) = dp_target r) →
  filter (λ d, dp_target d = target) (updated_deployments id f l) =
    updated_deployments id f (filter (λ d, dp_target d = target) l).
Proof.
  intros Hf. unfold updated_deployments. induction l as [|d l IH]; [done|]. rewrite fmap_cons, !filter_cons.
  assert (Ht : dp_target (if by_deployment id d then f d else d) = dp_target d) by by destruct (by_deployment id d).
  destruct (decide (dp_target d = target)) as [Hd|Hd].
  - rewrite decide_True by by rewrite Ht. by rewrite fmap_cons, IH.
  - rewrite decide_False by by rewrite Ht. done.
Qed.

Lemma moved_later d st now :
  (is_Some (dp_at d) ↔ dp_state d = DEPLOYED ∨ dp_state d = ROLLED_BACK) → st ∈ _ALLOWED_TRANSITIONS (dp_state d) →
  later_deployment d (moved_to st now d).
Proof.
  intros Hat Hst. unfold later_deployment. split_and!; try done; [by apply rtc_once|]. intros Hs. apply Hat in Hs.
  unfold moved_to. simpl. rewrite bool_decide_eq_false_2; [done|]. intros ->.
  by destruct Hs as [Hs|Hs]; rewrite Hs in Hst; simpl in Hst; rewrite ?elem_of_cons, ?elem_of_nil in Hst; naive_solver.
Qed.

Lemma deployments_keyed t d d' :
  deploy_ok t → d ∈ deployments_of t → d' ∈ deployments_of t → dp_id d = dp_id d' → d = d'.
Proof. intros Hok. apply NoDup_fmap_inj_in, (dk_ids _ Hok). Qed.

(** An allowed transition of one deployment. *)
Lemma deploy_ok_move t d st now :
  deploy_ok t → d ∈ deployments_of t → st ∈ _ALLOWED_TRANSITIONS (dp_state d) →
  let t' := set_deployments (updated_deployments (dp_id d) (moved_to st now) (deployments_of t)) t in
  deploy_ok t' ∧ deploy_later t t'.
Proof.
  intros Hok Hd Hst t'. pose proof (deployments_keyed t) as Hkey. pose proof Hok as [A1 A2 A3 A4 A5 A6 A7].
  set (f := moved_to st now). assert (Hf : later_deployment d (f d)) by (apply moved_later; auto).
  assert (Hin : ∀ x, x ∈ deployments_of t' → ∃ r, r ∈ deployments_of t ∧ later_deployment r x ∧ (x = r ∨ r = d ∧ x = f d)).
  { intros x [(r & Hr & Hid & ->)|[Hx _]]%updated_deployment_elem.
    - assert (r = d) as -> by by apply (Hkey r d). exists d. auto.
    - exists x. split; [done|]. split; [reflexivity|by left]. }
  assert (Hback : ∀ r, r ∈ deployments_of t → ∃ x, x ∈ deployments_of t' ∧ later_deployment r x).
  { intros r Hr. destruct (decide (dp_id r = dp_id d)) as [Hid|Hne].
    - assert (r = d) as -> by by apply (Hkey r d). exists (f d). split; [|done]. apply updated_deployment_elem.
      left. by exists d.
    - exists r. split; [|reflexivity]. apply updated_deployment_elem. by right. }
  assert (Hcol : ∀ K (g : Deployment → K), (∀ r, g (f r) = g r) → g <$> deployments_of t' = g <$> deployments_of t).
  { intros K g Hg. by apply updated_column. }
  split; [split|split]; try done.
  - by rewrite Hcol.
  - intros target. unfold of_target. change (deployments_of t') with (updated_deployments (dp_id d) f (deployments_of t)).
    rewrite updated_filter by done. rewrite updated_column by done. unfold updated_deployments. rewrite length_fmap.
    apply A3.
  - intros x (r & Hr & Hl & _)%Hin. destruct Hl as (_ & -> & _). by apply A4.
  - intros x r (y & Hy & Hl & _)%Hin Hr. destruct Hl as (_ & Ht & _ & Hv & _ & _ & Hrb & _). rewrite Hrb in Hr.
    destruct (A5 y r Hy Hr) as (o & Ho & Hid & Htar & Hlt). destruct (Hback o Ho) as (o' & Ho' & Hl').
    destruct Hl' as (Hid' & Ht' & _ & Hv' & _). exists o'. split; [done|]. split; [congruence|]. split; [congruence|lia].
  - intros x (r & Hr & Hl & [->|[-> ->]])%Hin; [by apply A6|]. unfold f, moved_to. simpl. case_bool_decide as Hdep.
    + rewrite Hdep. split; [by left|by eexists].
    + rewrite (A6 d Hd). clear -Hst Hdep. destruct (dp_state d); simpl in Hst;
        rewrite ?elem_of_cons, ?elem_of_nil in Hst; intuition (subst; try done; auto).
  - intros g Hg. rewrite Hcol by done. by apply A7.
  - exists (deployments_of t'). split; [|done]. unfold deployments_of at 2. simpl. unfold updated_deployments.
    rewrite Forall2_fmap_r. apply Forall_Forall2_diag, Forall_forall. intros x Hx. unfold by_deployment.
    unfold compose. case_bool_decide as Hid; [|reflexivity]. by rewrite (Hkey x d Hok Hx Hd Hid).
  - by left.
Qed.
End Invariant.

(** ** The operations keep it *)

Section Operations.
Context `{host : !Host} `{sink : !AuditSink}.
Context (known_principal : string → bool).

#[local] Abbreviation dkeeps := (keeps deploy_ok deploy_later).

Lemma dkeeps_ret {R} (x : R) s : dkeeps (mret x : lp R) s.
Proof. by apply dkeeps_same. Qed.

Lemma get_deployment_ok id s o s' :
  get_deployment id s = (Ok o, s') →
  s' = s ∧ match o with
           | Some d => d ∈ deployments_of (st_db s) ∧ dp_id d = id
           | None => id ∉ dp_id <$> deployments_of (st_db s)
           end.
Proof.
  intros [-> H]%fetch_one_ok. split; [done|]. destruct o as [d|].
  - destruct H as [Hd Hid]. by apply bool_decide_eq_true_1 in Hid.
  - intros (d & -> & Hd)%list_elem_of_fmap. specialize (H d Hd). unfold by_deployment in H.
    by apply bool_decide_eq_false_1 in H.
Qed.

Lemma deployment_or_raise_ok id s d s' :
  deployment_or_raise id s = (Ok d, s') → s' = s ∧ d ∈ deployments_of (st_db s) ∧ dp_id d = id.
Proof.
  unfold deployment_or_raise. intros H. apply bind_ok_inv in H as (o & s1 & [-> Ho]%get_deployment_ok & H).
  destruct o as [x|]; [|done]. apply mret_ok in H as [-> ->]. done.
Qed.

Lemma deployment_or_raise_reads id : reads (deployment_or_raise id).
Proof. apply reads_bind; [apply fetch_one_reads|]. intros [d|]; [apply reads_ret|apply reads_raise]. Qed.

Lemma require_target_ok id active s x s' :
  _require_target id active s = (Ok x, s') →
  s' = s ∧ x ∈ p_targets (deploys (st_db s)) ∧ dt_id x = id ∧ (active = true → dt_lifecycle x = ACTIVE).
Proof.
  unfold _require_target. intros H. apply bind_ok_inv in H as (o & s1 & [-> Ho]%fetch_one_ok & H).
  destruct o as [y|]; [|done]. destruct Ho as [Hy Hid%bool_decide_eq_true_1].
  apply bind_ok_inv in H as ([] & s1 & [Hact ->]%raise_if_ok & H). apply mret_ok in H as [-> ->].
  split_and!; [done..|]. intros ->. simpl in Hact. apply negb_false_iff, bool_decide_eq_true_1 in Hact. done.
Qed.

Lemma require_target_reads id active : reads (_require_target id active).
Proof.
  apply reads_bind; [apply fetch_one_reads|]. intros [x|]; [|apply reads_raise].
  apply reads_bind; [apply reads_raise_if|]. intros. apply reads_ret.
Qed.

Lemma require_original_ok target r s u s' :
  require_original target r s = (Ok u, s') →
  s' = s ∧ ∀ id, r = Some id → ∃ o, o ∈ deployments_of (st_db s) ∧ dp_id o = id ∧ dp_target o = target.
Proof.
  unfold require_original. destruct r as [id|]; [|by intros [_ ->]%mret_ok].
  intros H. apply bind_ok_inv in H as (o & s1 & [-> Ho]%get_deployment_ok & H). destruct o as [d|]; [|done].
  destruct u. apply raise_if_ok in H as [Ht%negb_false_iff%bool_decide_eq_true_1 ->]. destruct Ho as [Hd Hid].
  split; [done|]. intros ? [= <-]. by exists d.
Qed.

Lemma require_original_reads target r : reads (require_original target r).
Proof.
  unfold require_original. destruct r as [id|]; [|apply reads_ret]. apply reads_bind; [apply fetch_one_reads|].
  intros [o|]; [apply reads_raise_if|apply reads_raise].
Qed.

Lemma require_optional_reads {R} (tbl : tables → list R) p o c : reads (require_optional tbl p o c).
Proof. unfold require_optional. destruct o as [id|]; [intros s1; apply require_row_reads|apply reads_ret]. Qed.

Lemma insert_deployment_cases d s :
  (∃ e, insert_deployment d s = (Raise e, s)) ∨
  insert_deployment d s = (Ok tt, put_db (set_deployments (deployments_of (st_db s) ++ [d]) (st_db s)) s) ∧
    dp_target d ∈ dt_id <$> p_targets (deploys (st_db s)) ∧ dp_id d ∉ dp_id <$> deployments_of (st_db s).
Proof.
  unfold insert_deployment. rewrite run_bind.
  destruct (require_row (p_table p_targets) (by_target (dp_target d)) "deployments.target_id" s) as [r s1] eqn:H1.
  pose proof (require_row_reads (p_table p_targets) (by_target (dp_target d)) "deployments.target_id" s) as Hs1.
  rewrite H1 in Hs1. simpl in Hs1. subst s1. destruct r as [u|e]; [|left; by eexists].
  apply require_row_ok in H1 as (_ & x & Hx & Hxid%bool_decide_eq_true_1).
  assert (Hopt : ∀ {R} (tbl : tables → list R) p o c,
    (∃ e, require_optional tbl p o c s = (Raise e, s)) ∨ require_optional tbl p o c s = (Ok tt, s)).
  { intros R tbl p o c. pose proof (require_optional_reads tbl p o c s) as Hs. destruct (require_optional tbl p o c s) as [[[]|e] s1];
      simpl in Hs; subst s1; [by right|left; by eexists]. }
  rewrite run_bind. destruct (Hopt _ t_objects of_object (dp_object d) "deployments.object_id") as [[e ->]| ->]; [left; by eexists|].
  rewrite run_bind. destruct (Hopt _ t_scopes by_scope (dp_scope d) "deployments.scope_id") as [[e ->]| ->]; [left; by eexists|].
  rewrite run_bind. destruct (Hopt _ (p_table p_deployments) by_deployment (dp_rollback_of d) "deployments.rollback_of") as [[e ->]| ->];
    [left; by eexists|].
  destruct (sql_insert_cases (p_table p_deployments) set_deployments (λ a b, bool_decide (dp_id a = dp_id b)) "deployments.id" d s)
    as [->|[Hc ->]]; [left; by eexists|right]. split; [done|]. split.
  - rewrite <-Hxid. by apply list_elem_of_fmap_2.
  - intros (y & Hy & Hin)%list_elem_of_fmap. specialize (Hc y Hin). by apply bool_decide_eq_false_1 in Hc.
Qed.

Lemma optional_step_reads (o : option string) (f : string → lp unit) :
  (∀ x, reads (f x)) → reads (match o with None => mret tt | Some x => f x end).
Proof. intros H. destruct o; [apply H|apply reads_ret]. Qed.

Lemma require_object_reads id : reads (_require_object id).
Proof. apply reads_bind; [apply fetch_one_reads|]. intros. apply reads_raise_if. Qed.
Lemma require_scope_reads id : reads (_require_scope id).
Proof. apply reads_bind; [apply fetch_one_reads|]. intros. apply reads_raise_if. Qed.

(** The checks of a new deployment, and what it looks like. *)
Definition creation_gate (target : string) (object scope rollback_of : option string) : lp unit :=
  _require_target target true ;;
  match object with None => mret tt | Some o => _require_object o end ;;
  match scope with None => mret tt | Some sc => _require_scope sc end ;;
  require_original target rollback_of.

Definition new_deployment (s : store) (target by_ : string) (object scope : option string) (metadata : option jdict)
  (rollback_of : option string) : Deployment := {|
  dp_id := id_of (st_next s); dp_target := target; dp_by := by_;
  dp_version := S (max_version (filter (λ d, on_target target d = true) (p_deployments (deploys (st_db s)))));
  dp_state := DEP_PENDING; dp_object := object; dp_scope := scope; dp_at := None; dp_rollback_of := rollback_of;
  dp_metadata := or_dict metadata [] |}.

Lemma creation_gate_reads target object scope r : reads (creation_gate target object scope r).
Proof.
  unfold creation_gate. apply reads_bind; [apply require_target_reads|intros _].
  apply reads_bind; [apply optional_step_reads, require_object_reads|intros _].
  apply reads_bind; [apply optional_step_reads, require_scope_reads|intros _]. apply require_original_reads.
Qed.

(** Creating a deployment: refused with nothing changed, or one more row. *)
Lemma create_deployment_cases target by_ object scope metadata rollback_of s r s' :
  create_deployment target by_ object scope metadata rollback_of s = (r, s') →
  (is_ok r = false ∧ same_deploys s s') ∨
  let d := new_deployment s target by_ object scope metadata rollback_of in
  creation_gate target object scope rollback_of s = (Ok tt, s) ∧
  dp_target d ∈ dt_id <$> p_targets (deploys (st_db s)) ∧ (dp_id d ∉ dp_id <$> deployments_of (st_db s)) ∧
  deploys (st_db s') = deploys (set_deployments (deployments_of (st_db s) ++ [d]) (st_db s)) ∧
  (∀ x, r = Ok x → x = d) ∧ st_now s' = st_now s.
Proof.
  intros H. set (rest := λ _ : unit,
    max_v ← gets (λ s, max_version (filter (λ d, on_target target d = true) (p_deployments (deploys (st_db s)))));
    _ ← now_utc;
    did ← generate_id;
    let dep := {| dp_id := did; dp_target := target; dp_by := by_; dp_version := S max_v;
      dp_state := DEP_PENDING; dp_object := object; dp_scope := scope; dp_at := None; dp_rollback_of := rollback_of;
      dp_metadata := or_dict metadata [] |} in
    insert_deployment dep ;;
    audit (states_req None (Some (deployment_snapshot dep)) (request by_ ActionType.DEPLOY "deployment" did)) ;;
    mret dep).
  assert (Hsplit : create_deployment target by_ object scope metadata rollback_of s =
    (creation_gate target object scope rollback_of ≫= rest) s).
  { unfold create_deployment, creation_gate, rest. unfold mbind, prog_bind.
    repeat match goal with |- context [match ?m ?x with _ => _ end] => destruct (m x) as [[?|?] ?]; [|reflexivity] end.
    reflexivity. }
  rewrite Hsplit, run_bind in H. clear Hsplit.
  pose proof (creation_gate_reads target object scope rollback_of s) as Hg.
  destruct (creation_gate target object scope rollback_of s) as [[[]|e] s1] eqn:Hgate; simpl in Hg; subst s1.
  2: { injection H as <- <-. by left. }
  set (d := new_deployment s target by_ object scope metadata rollback_of).
  assert (H' : (insert_deployment d ;; audit (states_req None (Some (deployment_snapshot d))
    (request by_ ActionType.DEPLOY "deployment" (dp_id d))) ;; mret d) (put_next (S (st_next s)) s) = (r, s')) by exact H.
  clear H. rewrite run_bind in H'. destruct (insert_deployment_cases d (put_next (S (st_next s)) s)) as [[e Hi]|(Hi & Ht & Hn)];
    rewrite Hi in H'.
  { injection H' as <- <-. by left. }
  right. cbv zeta. fold d. split; [done|]. split; [done|]. split; [done|].
  rewrite run_bind in H'. match type of H' with context [audit ?q ?s1] =>
    pose proof (audit_off_trail q s1) as Hoff; destruct (audit q s1) as [[u|e] s2] end; cbn [snd] in Hoff;
    injection H' as <- <-; pose proof (off_trail_layers _ _ Hoff) as Hl; unfold deploys; rewrite Hl;
    (split; [done|]; split; [|by destruct Hoff]); [by intros x [= <-]|done].
Qed.

Lemma creation_gate_ok target object scope rollback_of s u s' :
  creation_gate target object scope rollback_of s = (Ok u, s') →
  (∃ x, x ∈ p_targets (deploys (st_db s)) ∧ dt_id x = target ∧ dt_lifecycle x = ACTIVE) ∧
  ∀ id, rollback_of = Some id → ∃ o, o ∈ deployments_of (st_db s) ∧ dp_id o = id ∧ dp_target o = target.
Proof.
  unfold creation_gate. intros H. apply bind_ok_inv in H as (x & s1 & H1 & H).
  apply require_target_ok in H1 as (-> & Hx & Hid & Hact).
  apply bind_ok_inv in H as (? & s1 & H1 & H).
  apply (reads_run _ _ _ _ (optional_step_reads object _require_object require_object_reads)) in H1 as ->.
  apply bind_ok_inv in H as (? & s1 & H1 & H).
  apply (reads_run _ _ _ _ (optional_step_reads scope _require_scope require_scope_reads)) in H1 as ->.
  apply require_original_ok in H as [_ Ho]. split; [|done]. exists x. auto.
Qed.

Lemma dkeeps_from t t' s s' :
  deploys (st_db s) = deploys t → deploys (st_db s') = deploys t' → (deploy_ok t → deploy_ok t' ∧ deploy_later t t') →
  deploy_ok (st_db s) → deploy_ok (st_db s') ∧ deploy_later (st_db s) (st_db s').
Proof.
  intros Hs Hs' H Hok. assert (Ht : deploy_ok t).
  { destruct Hok as [A1 A2 A3 A4 A5 A6 A7]. by split; unfold of_target, deployments_of in *; rewrite <-Hs. }
  destruct (H Ht) as [[A1 A2 A3 A4 A5 A6 A7] [B1 B2 B3]].
  split; [by split; unfold of_target, deployments_of in *; rewrite Hs'|].
  by split; unfold deployments_of in *; rewrite Hs, Hs'.
Qed.

Lemma dkeeps_create target by_ object scope metadata rollback_of s :
  dkeeps (create_deployment target by_ object scope metadata rollback_of) s.
Proof.
  intros Hok. destruct (create_deployment _ _ _ _ _ _ s) as [r s'] eqn:Hrun. cbn [snd].
  apply create_deployment_cases in Hrun as [[_ Hsame]|(Hgate & Ht & Hn & Hd & _)].
  { by apply (dkeeps_same (λ _, (Ok tt, s')) s Hsame). }
  revert Hok. eapply dkeeps_from; [reflexivity|exact Hd|]. intros Hok. apply deploy_ok_create; try done.
  - simpl. by rewrite max_version_run.
  - intros id Hid. apply creation_gate_ok in Hgate as [_ Ho]. by apply Ho.
Qed.

(** A transition: refused with nothing changed, or the one row moved. *)
Lemma transition_cases id st actor s r s' :
  transition_state id st actor s = (r, s') →
  (is_ok r = false ∧ s' = s) ∨
  ∃ d, d ∈ deployments_of (st_db s) ∧ dp_id d = id ∧ st ∈ _ALLOWED_TRANSITIONS (dp_state d) ∧
    deploys (st_db s') = deploys (set_deployments (updated_deployments id (moved_to st (st_now s)) (deployments_of (st_db s))) (st_db s)) ∧
    (∀ x, r = Ok x → x = moved_to st (st_now s) d) ∧ st_now s' = st_now s ∧
    (∀ e, r = Raise e → is_Some actor).
Proof.
  unfold transition_state. rewrite run_bind. pose proof (deployment_or_raise_reads id s) as Hg.
  destruct (deployment_or_raise id s) as [[d|e] s1] eqn:Hget; simpl in Hg; subst s1.
  2: { intros [= <- <-]. by left. }
  apply deployment_or_raise_ok in Hget as (_ & Hd & Hid). rewrite run_bind.
  destruct (bool_decide_reflect (st ∈ _ALLOWED_TRANSITIONS (dp_state d))) as [Hst|]; cbn [negb raise_if].
  2: { intros [= <- <-]. by left. }
  intros H. right. exists d. split; [done|]. split; [done|]. split; [done|].
  assert (H' : (match actor with
    | None => mret tt
    | Some a => audit (states_req (Some (deployment_snapshot d)) (Some (deployment_snapshot (moved_to st (st_now s) d)))
        (request a ActionType.DEPLOY "deployment" id))
    end ;; mret (moved_to st (st_now s) d))
    (put_db (set_deployments (updated_deployments id (moved_to st (st_now s)) (deployments_of (st_db s))) (st_db s)) s)
    = (r, s')) by exact H.
  clear H. rename H' into H. destruct actor as [a|]; rewrite run_bind in H.
  - match type of H with context [audit ?q ?s1] =>
      pose proof (audit_off_trail q s1) as Hoff; destruct (audit q s1) as [[u|e] s2] end; cbn [snd] in Hoff;
      injection H as <- <-; pose proof (off_trail_layers _ _ Hoff) as Hl; unfold deploys; rewrite Hl;
      (split; [done|]; split; [|split; [by destruct Hoff|by eexists]]); [by intros x [= <-]|done].
  - injection H as <- <-. split; [done|]. split; [by intros x [= <-]|]. split; [done|]. done.
Qed.

Lemma dkeeps_transition id st actor s : dkeeps (transition_state id st actor) s.
Proof.
  intros Hok. destruct (transition_state id st actor s) as [r s'] eqn:Hrun. cbn [snd].
  apply transition_cases in Hrun as [[_ ->]|(d & Hd & <- & Hst & Hdb & _)]; [done|].
  revert Hok. eapply dkeeps_from; [reflexivity|exact Hdb|]. intros Hok. by apply deploy_ok_move.
Qed.

(** A returning insert of another table of the layer. *)
Lemma dkeeps_step t' s s' :
  deploys (st_db s') = deploys t' → (deploy_ok (st_db s) → deploy_ok t' ∧ deploy_later (st_db s) t') →
  deploy_ok (st_db s) → deploy_ok (st_db s') ∧ deploy_later (st_db s) (st_db s').
Proof. intros H Hstep. eapply dkeeps_from; [reflexivity|exact H|exact Hstep]. Qed.

Lemma dkeeps_create_target name type owner config s : dkeeps (create_target known_principal name type owner config) s.
Proof.
  unfold create_target. apply keeps_bind; [exact _|by apply dkeeps_same|intros ts s1 _].
  apply keeps_bind; [exact _|by apply dkeeps_same|intros id s2 _]. cbv zeta.
  apply keeps_bind; [exact _| |intros _ s3 _; apply keeps_bind; [exact _|apply dkeeps_audit|intros; apply dkeeps_ret]].
  unfold insert_target. apply keeps_bind; [exact _|apply dkeeps_reads, reads_raise_if|intros _ s3 _].
  intros Hok. destruct (sql_insert_cases (p_table p_targets) set_targets (λ a b, bool_decide (dt_id a = dt_id b))
    "deployment_targets.id" {| dt_id := id; dt_name := name; dt_type := type; dt_owner := owner; dt_created_at := ts;
      dt_config := or_dict config []; dt_lifecycle := ACTIVE |} s3) as [->|[Hc ->]]; [done|]. cbn [snd].
  destruct Hok as [A1 A2 A3 A4 A5 A6 A7]. split; [split|split]; try done.
  - simpl. rewrite fmap_app. apply NoDup_app. split; [done|]. split; [|apply NoDup_singleton].
    intros x (y & -> & Hy)%list_elem_of_fmap Hx%list_elem_of_singleton. specialize (Hc y Hy). simpl in Hc, Hx.
    by apply bool_decide_eq_false_1 in Hc.
  - intros d Hd. simpl. rewrite fmap_app, elem_of_app. left. by apply A4.
  - exists (deployments_of (st_db s3)). split; [apply later_diag|done].
  - intros x Hx. left. simpl. apply elem_of_app. by left.
Qed.

Lemma dkeeps_archive_target id by_ s : dkeeps (archive_target id by_) s.
Proof.
  unfold archive_target. apply keeps_bind; [exact _| |intros _ s1 _; apply dkeeps_audit_opt].
  intros Hok. cbn [snd sql_update modify]. destruct Hok as [A1 A2 A3 A4 A5 A6 A7].
  assert (Hids : dt_id <$> ((λ r, if by_target id r then archived_target r else r) <$> p_targets (deploys (st_db s)))
    = dt_id <$> p_targets (deploys (st_db s))).
  { rewrite <-list_fmap_compose. apply list_fmap_ext. intros _ x _. simpl. by destruct (by_target id x). }
  split; [split|split]; try done.
  - simpl. unfold p_table. by rewrite Hids.
  - intros d Hd. simpl. unfold p_table. rewrite Hids. by apply A4.
  - exists (deployments_of (st_db s)). split; [apply later_diag|done].
  - intros x Hx. simpl. unfold p_table. destruct (by_target id x) eqn:Hb; [right|left]; apply list_elem_of_fmap; exists x;
      by rewrite Hb.
Qed.

Lemma dkeeps_gate deployment type passed details by_ s :
  dkeeps (record_gate deployment type passed details by_) s.
Proof.
  unfold record_gate. apply keeps_bind; [exact _|by apply dkeeps_same|intros ts s1 _].
  apply keeps_bind; [exact _|by apply dkeeps_same|intros id s2 _]. cbv zeta.
  apply keeps_bind; [exact _| |intros _ s3 _; apply keeps_bind; [exact _|apply dkeeps_audit_opt|intros; apply dkeeps_ret]].
  unfold insert_gate. apply keeps_bind; [exact _|apply dkeeps_reads; intros s0; apply require_row_reads|intros [] s3 Hreq].
  apply require_row_ok in Hreq as (-> & d & Hd & Hid%bool_decide_eq_true_1). cbn [dg_deployment] in Hid. intros Hok.
  destruct (sql_insert_cases (p_table p_gates) set_gates (λ a b, bool_decide (dg_id a = dg_id b)) "deployment_gates.id"
    {| dg_id := id; dg_deployment := deployment; dg_type := type; dg_passed := passed; dg_at := ts;
       dg_details := or_dict details [] |} s2) as [->|[Hc ->]]; [done|]. cbn [snd].
  destruct Hok as [A1 A2 A3 A4 A5 A6 A7]. split; [split|split]; try done.
  - intros g. simpl. unfold p_table. rewrite elem_of_app, list_elem_of_singleton. intros [Hg| ->]; [by apply A7|].
    simpl. rewrite <-Hid. by apply list_elem_of_fmap_2.
  - exists (deployments_of (st_db s2)). split; [apply later_diag|done].
  - simpl. unfold p_table. by apply prefix_app_r.
  - by left.
Qed.

(** A callback of the application that only works through the layer, or leaves it alone. *)
Definition fair_callback (f : option (Deployment → lp bool)) : Prop :=
  ∀ g, f = Some g → ∀ d s, dkeeps (g d) s.

Lemma dkeeps_run_deploy f d s : fair_callback f → dkeeps (run_deploy f d) s.
Proof.
  intros Hf. unfold run_deploy. destruct f as [g|]; [|apply dkeeps_ret].
  apply keeps_bind; [exact _|by apply keeps_try, Hf|intros r s1 _; apply dkeeps_ret].
Qed.

Lemma check_gates_reads id : reads (check_gates id).
Proof. apply reads_bind; [by intros s|]. intros. apply reads_raise_if. Qed.

Lemma dkeeps_execute id actor f s : fair_callback f → dkeeps (execute_deployment id actor f) s.
Proof.
  intros Hf. unfold execute_deployment. apply keeps_bind; [exact _|apply dkeeps_reads, deployment_or_raise_reads|intros d s1 _].
  apply keeps_bind; [exact _|apply dkeeps_reads, reads_raise_if|intros _ s2 _].
  apply keeps_bind; [exact _|apply dkeeps_reads, require_target_reads|intros _ s3 _].
  apply keeps_bind; [exact _|apply dkeeps_reads, check_gates_reads|intros _ s4 _].
  apply keeps_bind; [exact _|apply dkeeps_transition|intros d' s5 _].
  apply keeps_bind; [exact _|by apply dkeeps_run_deploy|intros b s6 _]. apply dkeeps_transition.
Qed.

Lemma dkeeps_rollback id actor metadata s : dkeeps (rollback_deployment id actor metadata) s.
Proof.
  unfold rollback_deployment. apply keeps_bind; [exact _|apply dkeeps_reads, fetch_one_reads|intros [d|] s1 _].
  2: { by apply dkeeps_same. }
  apply keeps_bind; [exact _|apply dkeeps_reads, reads_raise_if|intros _ s2 _].
  apply keeps_bind; [exact _|apply dkeeps_create|intros d' s3 _].
  apply keeps_bind; [exact _|apply dkeeps_transition|intros d'' s4 _].
  apply keeps_bind; [exact _|apply dkeeps_audit|intros; apply dkeeps_ret].
Qed.

(** The calls that write. *)
Inductive deploy_op :=
  | DCreateTarget (name type owner : string) (config : option jdict)
  | DArchiveTarget (id : string) (by_ : option string)
  | DCreate (target by_ : string) (object scope : option string) (metadata : option jdict) (rollback_of : option string)
  | DTransition (id : string) (st : DeploymentState) (actor : option string)
  | DGate (deployment : string) (type : GateType) (passed : bool) (details : option jdict) (by_ : option string)
  | DExecute (id actor : string) (deploy_fn : option (Deployment → lp bool))
  | DRollback (id actor : string) (metadata : option jdict).

Definition run_deploy_op (op : deploy_op) : lp unit :=
  match op with
  | DCreateTarget name type owner config => create_target known_principal name type owner config ;; mret tt
  | DArchiveTarget id by_ => archive_target id by_
  | DCreate target by_ object scope metadata r => create_deployment target by_ object scope metadata r ;; mret tt
  | DTransition id st actor => transition_state id st actor ;; mret tt
  | DGate deployment type passed details by_ => record_gate deployment type passed details by_ ;; mret tt
  | DExecute id actor f => execute_deployment id actor f ;; mret tt
  | DRollback id actor metadata => rollback_deployment id actor metadata ;; mret tt
  end.

Definition fair_op (op : deploy_op) : Prop := match op with DExecute _ _ f => fair_callback f | _ => True end.

(** Any other work of the process leaves the layer alone. *)
Inductive deploy_step : relation store :=
  | deploy_step_op op s : fair_op op → deploy_step s (run_deploy_op op s).2
  | deploy_step_other s s' : same_deploys s s' → deploy_step s s'.

Lemma run_deploy_op_keeps op s : fair_op op → dkeeps (run_deploy_op op) s.
Proof.
  intros Hf. destruct op; cbn [run_deploy_op];
    try (apply keeps_bind; [exact _| |intros; apply dkeeps_ret]).
  - apply dkeeps_create_target.
  - apply dkeeps_archive_target.
  - apply dkeeps_create.
  - apply dkeeps_transition.
  - apply dkeeps_gate.
  - by apply dkeeps_execute.
  - apply dkeeps_rollback.
Qed.

(** C24: Deployments stay sound whatever is called, also when calls fail or the
    application's callback calls back: each target's deployments are numbered from
    1 without gaps, a rollback points to an older deployment of its own target, a
    deployment time is there exactly for what was deployed, gates belong to
    deployments; no deployment is lost, none changes what it is of, and its state
    only moves along the allowed transitions. *)
Theorem deploy_reachable_ok s s' :
  deploy_ok (st_db s) → rtc deploy_step s s' → deploy_ok (st_db s') ∧ deploy_later (st_db s) (st_db s').
Proof.
  intros Hok Hsteps. induction Hsteps as [s|s1 s2 s3 Hstep _ IH]; [done|].
  assert (H2 : deploy_ok (st_db s2) ∧ deploy_later (st_db s1) (st_db s2)).
  { destruct Hstep as [op s1 Hf|s1 s2 Hsame]; [by apply run_deploy_op_keeps|].
    by apply (dkeeps_same (λ _, (Ok tt, s2)) s1 Hsame). }
  destruct H2 as [Hok2 H12]. destruct (IH Hok2) as [Hok3 H23]. split; [done|]. by etrans.
Qed.
End Operations.

(** ** What the operations do *)

Section DeploymentEffects.
Context `{host : !Host} `{sink : !AuditSink}.

Lemma check_gates_ok id s u s' :
  check_gates id s = (Ok u, s') →
  s' = s ∧ ∀ g, g ∈ p_gates (deploys (st_db s)) → dg_deployment g = id → dg_passed g = true.
Proof.
  unfold check_gates. intros H. apply bind_ok_inv in H as (gates & s1 & [-> Hg]%select_elem & H). cbv zeta in H.
  destruct u. apply raise_if_ok in H as [Hno%negb_false_iff%bool_decide_eq_true_1 ->]. split; [done|].
  intros g Hin Hid. rewrite filter_nil_iff in Hno. destruct (dg_passed g) eqn:Hp; [done|].
  exfalso. refine (Hno g _ Hp). apply Hg. split; [done|]. by apply bool_decide_eq_true_2.
Qed.

(** What a callback answers; an exception is a no. *)
Definition answers (f : option (Deployment → lp bool)) (d : Deployment) (s : store) (b : bool) : Prop :=
  match f with
  | None => b = true
  | Some g => b = match (g d s).1 with Ok x => x | Raise _ => false end
  end.

Lemma run_deploy_run f d s :
  (∀ g, f = Some g → ∀ d s, same_deploys s (g d s).2) →
  ∃ b s', run_deploy f d s = (Ok b, s') ∧ answers f d s b ∧ same_deploys s s'.
Proof.
  intros Hf. unfold run_deploy, answers. destruct f as [g|]; [|by exists true, s].
  specialize (Hf g eq_refl d s). rewrite run_bind. unfold try. destruct (g d s) as [[b|e] s1]; simpl in *; by eauto.
Qed.

Lemma updated_deployments_twice id f g l :
  (∀ r, dp_id (f r) = dp_id r) → updated_deployments id g (updated_deployments id f l) = updated_deployments id (g ∘ f) l.
Proof.
  intros Hf. unfold updated_deployments. rewrite <-list_fmap_compose. apply list_fmap_ext. intros _ r _. simpl.
  destruct (by_deployment id r) eqn:Hr; [|by rewrite Hr]. unfold by_deployment in *. by rewrite Hf, Hr.
Qed.

(** Executing a deployment, with a callback that leaves the layer's rows alone:
    it is refused with nothing changed, unless it is pending, its target active
    and every recorded gate passed; then it is DEPLOYING when the callback sees it,
    and afterwards deployed exactly when the callback answers yes, failed when it
    answers no or raises; no other row changes, and it can stay DEPLOYING only
    when the trail refuses a record. *)
Theorem execute_exact id actor f s r s' :
  deploy_ok (st_db s) → (∀ g, f = Some g → ∀ d s, same_deploys s (g d s).2) →
  execute_deployment id actor f s = (r, s') →
  (is_ok r = false ∧ same_deploys s s') ∨
  ∃ d, d ∈ deployments_of (st_db s) ∧ dp_id d = id ∧ dp_state d = DEP_PENDING ∧
    (∃ x, x ∈ p_targets (deploys (st_db s)) ∧ dt_id x = dp_target d ∧ dt_lifecycle x = ACTIVE) ∧
    (∀ g, g ∈ p_gates (deploys (st_db s)) → dg_deployment g = id → dg_passed g = true) ∧
    ∃ st at_, deployments_of (st_db s') = updated_deployments id (in_state st at_) (deployments_of (st_db s)) ∧
      (st = DEPLOYING → is_ok r = false) ∧
      (st ≠ DEPLOYING → ∃ s1 b, answers f (in_state DEPLOYING (dp_at d) d) s1 b ∧
        in_state DEPLOYING (dp_at d) d ∈ deployments_of (st_db s1) ∧ st = if b then DEPLOYED else DEP_FAILED) ∧
      ∀ x, r = Ok x → x = in_state st at_ d ∧ x ∈ deployments_of (st_db s').
Proof.
  intros Hok Hf H. unfold execute_deployment in H. rewrite run_bind in H. pose proof (deployment_or_raise_reads id s) as Hg.
  destruct (deployment_or_raise id s) as [[d|e] s1] eqn:Hget; simpl in Hg; subst s1; [|injection H as <- <-; by left].
  apply deployment_or_raise_ok in Hget as (_ & Hd & Hid). rewrite run_bind in H.
  destruct (bool_decide_reflect (dp_state d = DEP_PENDING)) as [Hst|]; cbn [negb raise_if] in H;
    [|injection H as <- <-; by left].
  change ((mret tt : lp unit) s) with ((Ok tt, s) : outcome unit * store) in H. cbv iota beta in H. rewrite run_bind in H.
  pose proof (require_target_reads (dp_target d) true s) as Ht.
  destruct (_require_target (dp_target d) true s) as [[x|e] s1] eqn:Htar; simpl in Ht; subst s1; [|injection H as <- <-; by left].
  apply require_target_ok in Htar as (_ & Hx & Hxid & Hact). rewrite run_bind in H. pose proof (check_gates_reads id s) as Hc.
  destruct (check_gates id s) as [[[]|e] s1] eqn:Hgates; simpl in Hc; subst s1; [|injection H as <- <-; by left].
  apply check_gates_ok in Hgates as [_ Hgates]. rewrite run_bind in H.
  destruct (transition_state id DEPLOYING (Some actor) s) as [r1 s1] eqn:H1.
  pose proof H1 as [[Hr1 ->]|(d0 & Hd0 & Hid0 & _ & Hdb1 & Hr1 & _)]%transition_cases;
    [destruct r1; [done|]; injection H as <- <-; by left|].
  assert (d0 = d) as -> by (apply (deployments_keyed (st_db s)); congruence).
  set (f1 := moved_to DEPLOYING (st_now s)) in *. right. exists d. split_and!; [done..|by exists x; auto|done|].
  assert (Hdb1' : deployments_of (st_db s1) = updated_deployments id (in_state DEPLOYING (dp_at d)) (deployments_of (st_db s))).
  { unfold deployments_of at 1. rewrite Hdb1. unfold updated_deployments. apply list_fmap_ext.
    intros i y Hy%list_elem_of_lookup_2. unfold by_deployment. case_bool_decide as Hyid; [|done].
    assert (y = d) as -> by (apply (deployments_keyed (st_db s)); congruence). done. }
  destruct r1 as [d1|e]; last first.
  { injection H as <- <-. exists DEPLOYING, (dp_at d). by split_and!. }
  specialize (Hr1 d1 eq_refl). subst d1. destruct (run_deploy_run f (f1 d) s1 Hf) as (b & s2 & Hrun & Hans & Hsame).
  rewrite (run_bind_ok _ _ _ _ _ Hrun) in H.
  assert (Hin1 : in_state DEPLOYING (dp_at d) d ∈ deployments_of (st_db s1)).
  { rewrite Hdb1'. apply updated_deployment_elem. left. by exists d. }
  set (st := if b then DEPLOYED else DEP_FAILED) in *.
  assert (Hs2 : deployments_of (st_db s2) = deployments_of (st_db s1)) by (unfold deployments_of; by rewrite Hsame).
  apply transition_cases in H as [[Hr ->]|(d2 & Hd2 & Hid2 & _ & Hdb2 & Hr2 & _)].
  - exists DEPLOYING, (dp_at d). rewrite Hs2. split_and!; [done|done|done|]. by intros y ->.
  - exists st, (if bool_decide (st = DEPLOYED) then Some (st_now s2) else dp_at d).
    set (at_ := if bool_decide (st = DEPLOYED) then Some (st_now s2) else dp_at d) in *.
    assert (Hfin : deployments_of (st_db s') = updated_deployments id (in_state st at_) (deployments_of (st_db s))).
    { unfold deployments_of at 1. rewrite Hdb2.
      trans (updated_deployments id (moved_to st (st_now s2)) (deployments_of (st_db s2))); [done|].
      by rewrite Hs2, Hdb1', updated_deployments_twice. }
    rewrite Hs2, Hdb1' in Hd2. apply updated_deployment_elem in Hd2 as [(y & Hy & Hyid & ->)|[_ ?]]; [|done].
    assert (y = d) as -> by (apply (deployments_keyed (st_db s)); congruence).
    split; [done|]. split; [by unfold st; destruct b|]. split; [intros _; by exists s1, b|].
    intros z Hz. specialize (Hr2 z Hz). subst z. split; [done|]. rewrite Hfin. apply updated_deployment_elem.
    left. by exists d.
Qed.

(** A rollback is a deployment of its own: it returns only for a deployment that
    is DEPLOYED on an active target, with a new pending deployment of the same
    object and scope on that target, the next version, pointing to the original,
    which is ROLLED_BACK at once, before the rollback was executed; nothing else
    changes.  For an original in another state nothing happens. *)
Theorem rollback_deployment_exact id actor metadata s r s' :
  deploy_ok (st_db s) → rollback_deployment id actor metadata s = (r, s') →
  (∀ dep, r = Ok dep → ∃ d, d ∈ deployments_of (st_db s) ∧ dp_id d = id ∧ dp_state d = DEPLOYED ∧
    (∃ x, x ∈ p_targets (deploys (st_db s)) ∧ dt_id x = dp_target d ∧ dt_lifecycle x = ACTIVE) ∧
    dp_target dep = dp_target d ∧ dp_object dep = dp_object d ∧ dp_scope dep = dp_scope d ∧
    dp_version dep = S (length (of_target (dp_target d) (st_db s))) ∧ dp_state dep = DEP_PENDING ∧
    dp_rollback_of dep = Some id ∧
    deployments_of (st_db s') =
      updated_deployments id (in_state ROLLED_BACK (dp_at d)) (deployments_of (st_db s)) ++ [dep]) ∧
  ((∀ d, d ∈ deployments_of (st_db s) → dp_id d = id → dp_state d ≠ DEPLOYED) → is_ok r = false ∧ s' = s).
Proof.
  intros Hok H. unfold rollback_deployment in H. rewrite run_bind in H.
  destruct (get_deployment id s) as [[o|e] s1] eqn:Hget; [|discriminate Hget].
  apply get_deployment_ok in Hget as [-> Ho]. destruct o as [d|]; [|injection H as <- <-; split; [done|by intros _]].
  destruct Ho as [Hd Hid]. rewrite run_bind in H.
  destruct (bool_decide_reflect (dp_state d = DEPLOYED)) as [Hst|Hst]; cbn [negb raise_if] in H;
    [|injection H as <- <-; split; [done|by intros _]].
  split; [|intros Hno; by destruct (Hno d Hd Hid)]. intros dep ->.
  change ((mret tt : lp unit) s) with ((Ok tt, s) : outcome unit * store) in H. cbv iota beta in H.
  apply bind_ok_inv in H as (d1 & s1 & H1 & H). apply bind_ok_inv in H as (d2 & s2 & H2 & H).
  apply bind_ok_inv in H as ([] & s3 & Haud & H). apply mret_ok in H as [-> ->].
  apply create_deployment_cases in H1 as [[Hno _]|(Hgate & _ & Hfresh & Hdb1 & Hd1 & _)]; [done|].
  specialize (Hd1 d1 eq_refl). apply creation_gate_ok in Hgate as [Htar _].
  apply transition_cases in H2 as [[Hno _]|(d3 & Hd3 & Hid3 & _ & Hdb2 & _)]; [done|].
  apply audit_ok, quiet_off_trail, off_trail_layers in Haud.
  exists d. subst d1. split_and!; try done. { simpl. by rewrite max_version_run. }
  unfold deployments_of at 1, deploys. rewrite Haud. fold (deploys (st_db s2)). rewrite Hdb2.
  assert (Hs1 : deployments_of (st_db s1) = deployments_of (st_db s) ++
    [new_deployment s (dp_target d) actor (dp_object d) (dp_scope d) (Some (or_dict metadata [("reason", JVstr ("rollback of " +:+ id))])) (Some id)])
    by (unfold deployments_of at 1; by rewrite Hdb1).
  trans (updated_deployments id (moved_to ROLLED_BACK (st_now s1)) (deployments_of (st_db s1))); [done|]. rewrite Hs1.
  unfold updated_deployments. rewrite fmap_app. f_equal.
  - apply list_fmap_ext. intros i y Hy%list_elem_of_lookup_2. unfold by_deployment. case_bool_decide as Hyid; [|done].
    assert (y = d) as -> by (apply (deployments_keyed (st_db s)); congruence). done.
  - simpl. unfold by_deployment. rewrite bool_decide_eq_false_2; [done|]. intros Heq. apply Hfresh. rewrite Heq, <-Hid.
    by apply list_elem_of_fmap_2.
Qed.

(** *** The chain of rollbacks *)

(** The chain from a deployment: each next one is the oldest that rolls it back. *)
Inductive chained (l : list Deployment) : string → list Deployment → Prop :=
  | chained_unknown id : id ∉ dp_id <$> l → chained l id []
  | chained_last d : d ∈ l → (∀ x, x ∈ l → dp_rollback_of x ≠ Some (dp_id d)) → chained l (dp_id d) [d]
  | chained_next d d' k :
      d ∈ l → d' ∈ l → dp_rollback_of d' = Some (dp_id d) →
      (∀ x, x ∈ l → dp_rollback_of x = Some (dp_id d) → dp_version d' ≤ dp_version x) →
      chained l (dp_id d') k → chained l (dp_id d) (d :: k).

Lemma next_rollback_run id s :
  ∃ o, next_rollback id s = (Ok o, s) ∧
    match o with
    | None => ∀ x, x ∈ deployments_of (st_db s) → dp_rollback_of x ≠ Some id
    | Some d => d ∈ deployments_of (st_db s) ∧ dp_rollback_of d = Some id ∧
        ∀ x, x ∈ deployments_of (st_db s) → dp_rollback_of x = Some id → dp_version d ≤ dp_version x
    end.
Proof.
  unfold next_rollback, select_sorted, gets. rewrite run_bind.
  set (l := sort_by oldest_version _). exists (head l). split; [done|].
  assert (Hl : ∀ x, x ∈ l ↔ x ∈ deployments_of (st_db s) ∧ dp_rollback_of x = Some id).
  { intros x. unfold l. rewrite elem_of_sort_by, scan_perm, list_elem_of_filter. unfold rolls_back.
    rewrite bool_decide_eq_true. unfold p_table, deployments_of. tauto. }
  assert (Hs : StronglySorted (leb_rel oldest_version) l).
  { apply sort_by_sorted; unfold oldest_version; intros *; rewrite !Nat.leb_le; lia. }
  destruct l as [|d k]; simpl.
  - intros x Hx Hr. by apply (not_elem_of_nil x), Hl.
  - destruct (proj1 (Hl d) ltac:(left)) as [Hd Hr]. split_and!; [done..|]. intros x Hx Hxr.
    assert (Hin : x ∈ d :: k) by by apply Hl. apply elem_of_cons in Hin as [->|Hin]; [done|].
    apply StronglySorted_inv in Hs as [_ Hs]. rewrite Forall_forall in Hs. specialize (Hs x Hin).
    unfold leb_rel, oldest_version in Hs. by apply Nat.leb_le.
Qed.

(** The ids passed so far are those of older deployments. *)
Definition passed (l : list Deployment) (seen : list string) (id : string) : Prop :=
  ∀ d, d ∈ l → dp_id d = id → ∀ x, x ∈ seen → ∃ o, o ∈ l ∧ dp_id o = x ∧ dp_version o < dp_version d.

Lemma chain_loop_run s fuel id seen chain :
  deploy_ok (st_db s) → NoDup seen → seen ⊆ dp_id <$> deployments_of (st_db s) →
  S (length (deployments_of (st_db s))) ≤ fuel + length seen → passed (deployments_of (st_db s)) seen id →
  (id ∈ dp_id <$> deployments_of (st_db s) ∨ seen = []) →
  ∃ k, rollback_chain_loop fuel (Some id) seen chain s = (Ok (Some (chain ++ k)), s) ∧
    chained (deployments_of (st_db s)) id k.
Proof.
  intros Hok. set (l := deployments_of (st_db s)). revert id seen chain.
  induction fuel as [|fuel IH]; intros id seen chain Hnd Hsub Hfuel Hpass Hknown.
  { assert (Hle : length seen ≤ length (dp_id <$> l)).
    { apply submseteq_length, NoDup_submseteq; [done|]. intros x Hx. by apply Hsub. }
    rewrite length_fmap in Hle. lia. }
  cbn [rollback_chain_loop]. rewrite bool_decide_eq_false_2; cbn [raise_if].
  2: { intros Hin. destruct Hknown as [(d & -> & Hd)%list_elem_of_fmap| ->]; [|by apply not_elem_of_nil in Hin].
       destruct (Hpass d Hd eq_refl _ Hin) as (o & Ho & Hoid & Hlt).
       rewrite (deployments_keyed (st_db s) o d Hok Ho Hd Hoid) in Hlt. lia. }
  rewrite (run_bind_ok (mret tt) _ _ _ _ eq_refl), run_bind.
  destruct (get_deployment id s) as [[o|e] s1] eqn:Hget; [|discriminate Hget].
  apply get_deployment_ok in Hget as [-> Ho]. destruct o as [d|].
  2: { exists []. rewrite app_nil_r. split; [done|]. by apply chained_unknown. }
  destruct Ho as [Hd <-]. destruct (next_rollback_run (dp_id d) s) as (o & Hrun & Hnext).
  rewrite (run_bind_ok _ _ _ _ _ Hrun). destruct o as [d'|].
  2: { exists [d]. split; [by destruct fuel|]. by apply chained_last. }
  destruct Hnext as (Hd' & Hr' & Hmin). cbn [fmap option_fmap option_map].
  destruct (dk_rollback _ Hok d' _ Hd' Hr') as (o & Ho & Hoid & _ & Hlt).
  assert (o = d) as -> by by apply (deployments_keyed (st_db s)).
  assert (Hnew : dp_id d ∉ seen).
  { intros Hin. destruct (Hpass d Hd eq_refl _ Hin) as (o & Ho' & Hoid' & Hlt').
    rewrite (deployments_keyed (st_db s) o d Hok Ho' Hd Hoid') in Hlt'. lia. }
  destruct (IH (dp_id d') (dp_id d :: seen) (chain ++ [d])) as (k & Hk & Hc).
  - by constructor.
  - intros x [->|Hx]%elem_of_cons; [by apply list_elem_of_fmap_2|by apply Hsub].
  - simpl. lia.
  - intros y Hy Hyid x [->|Hx]%elem_of_cons.
    + rewrite (deployments_keyed (st_db s) y d' Hok Hy Hd' Hyid). by exists d.
    + rewrite (deployments_keyed (st_db s) y d' Hok Hy Hd' Hyid). destruct (Hpass d Hd eq_refl x Hx) as (o & ? & ? & ?).
      exists o. split_and!; [done..|lia].
  - left. by apply list_elem_of_fmap_2.
  - exists (d :: k). rewrite Hk, <-app_assoc. split; [done|]. by apply (chained_next _ d d').
Qed.

(** The chain of rollbacks always ends: while the deployments are sound, the walk
    returns, never reports a cycle, changes nothing, and gives the chain in which
    each deployment is followed by the oldest one that rolls it back. *)
Theorem rollback_chain_ends id s :
  deploy_ok (st_db s) →
  ∃ k, get_rollback_chain id s = (Ok (Some k), s) ∧ chained (deployments_of (st_db s)) id k.
Proof.
  intros Hok. unfold get_rollback_chain. rewrite run_bind.
  destruct (chain_loop_run s (S (S (length (p_deployments (deploys (st_db s)))))) id [] []) as (k & Hk & Hc);
    [done|constructor|by intros x ?%not_elem_of_nil|unfold deployments_of; simpl; lia| |by right|].
  - intros d _ _ x Hx. by apply not_elem_of_nil in Hx.
  - by exists k.
Qed.
End DeploymentEffects.
