(* ===== verification/Events.v ===== *)
(** * Legacy v1: events and webhooks (events/)

    The bus that stores events, queues deliveries for subscriptions and calls
    listeners; the subscriptions and endpoints; the encryption of endpoint
    configurations; the delivery of what is queued, with retries. *)

From S2P Require Import Prelude LegacyTypes Schema Json JsonParse Trail Rules RuleClients Tenancy Secrets Scheduling.

Definition n_table {R} (f : event_tables → list R) (t : tables) : list R := f (eventing t).

(** ** models.py *)

Definition event_type_value (t : EventType) : string :=
  match t with
  | OBJECT_CREATED => "object_created" | OBJECT_UPDATED => "object_updated" | OBJECT_DELETED => "object_deleted"
  | SCOPE_CREATED => "scope_created" | SCOPE_MODIFIED => "scope_modified" | SCOPE_DISSOLVED => "scope_dissolved"
  | MEMBERSHIP_CHANGED => "membership_changed" | RULE_CHANGED => "rule_changed"
  | ENVIRONMENT_SPAWNED => "environment_spawned" | ENVIRONMENT_COMPLETED => "environment_completed"
  | ENVIRONMENT_DISCARDED => "environment_discarded" | ENVIRONMENT_PROMOTED => "environment_promoted"
  | DEPLOYMENT_COMPLETED => "deployment_completed" | DEPLOYMENT_ROLLED_BACK => "deployment_rolled_back"
  | SECRET_ROTATED => "secret_rotated" | STAGE_TRANSITIONED => "stage_transitioned"
  | CONNECTOR_SYNCED => "connector_synced" | CUSTOM_EVENT => "custom"
  end.

(** An empty list of types matches all. *)
Definition listed (l : list string) (x : string) : bool := bool_decide (l = []) || bool_decide (x ∈ l).

Definition matches (sub : EventSubscription) (event : Event) : bool :=
  bool_decide (sb_lifecycle sub = ACTIVE) && listed (sb_events sub) (event_type_value (ev_type event)) &&
  listed (sb_targets sub) (ev_target_type event) &&
  from_option (λ sc, bool_decide (ev_scope event = Some sc)) true (sb_scope sub).

Record DeliveryAttempt := {
  da_id : string; da_event : string; da_endpoint : string; da_subscription : string; da_status : DeliveryStatus;
  da_at : Z; da_response : option Z; da_body : option string; da_error : option string; da_number : nat;
}.

Definition by_event (id : string) (x : Event) : bool := bool_decide (ev_id x = id).
Definition by_endpoint (id : string) (x : WebhookEndpoint) : bool := bool_decide (wh_id x = id).
Definition by_subscription (id : string) (x : EventSubscription) : bool := bool_decide (sb_id x = id).
Definition by_delivery (id : string) (x : Delivery) : bool := bool_decide (wd_id x = id).
Definition delivery_in (st : DeliveryStatus) (x : Delivery) : bool := bool_decide (wd_status x = st).

(** ** Row edits *)

Definition archived_endpoint (x : WebhookEndpoint) : WebhookEndpoint := {|
  wh_id := wh_id x; wh_name := wh_name x; wh_owner := wh_owner x; wh_url := wh_url x; wh_config := wh_config x;
  wh_scope := wh_scope x; wh_created_at := wh_created_at x; wh_lifecycle := ARCHIVED |}.

Definition with_config (c : jdict) (x : WebhookEndpoint) : WebhookEndpoint := {|
  wh_id := wh_id x; wh_name := wh_name x; wh_owner := wh_owner x; wh_url := wh_url x; wh_config := c;
  wh_scope := wh_scope x; wh_created_at := wh_created_at x; wh_lifecycle := wh_lifecycle x |}.

Definition archived_subscription (x : EventSubscription) : EventSubscription := {|
  sb_id := sb_id x; sb_name := sb_name x; sb_owner := sb_owner x; sb_events := sb_events x;
  sb_targets := sb_targets x; sb_scope := sb_scope x; sb_endpoint := sb_endpoint x;
  sb_created_at := sb_created_at x; sb_lifecycle := ARCHIVED |}.

Definition set_delivery (st : DeliveryStatus) (n : nat) (response : option Z) (body error : option string)
  (x : Delivery) : Delivery := {|
  wd_id := wd_id x; wd_event := wd_event x; wd_endpoint := wd_endpoint x; wd_subscription := wd_subscription x;
  wd_status := st; wd_at := wd_at x; wd_attempt := n; wd_response := response; wd_body := body; wd_error := error |}.

Definition delivery_missing (n : nat) (x : Delivery) : Delivery :=
  set_delivery DELIVERY_FAILED n (wd_response x) (Some "Event or endpoint not found") (wd_error x) x.
Definition delivery_answered (st : DeliveryStatus) (n : nat) (code : Z) (body : string) (x : Delivery) : Delivery :=
  set_delivery st n (Some code) (Some body) (wd_error x) x.
Definition delivery_failed (n : nat) (error : string) (x : Delivery) : Delivery :=
  set_delivery DELIVERY_FAILED n (wd_response x) (wd_body x) (Some error) x.
Definition delivery_retrying (x : Delivery) : Delivery :=
  set_delivery RETRYING (wd_attempt x) (wd_response x) (wd_body x) (wd_error x) x.

(** ** crypto.py *)

Section Crypto.
Context `{fernet : !Fernet}.

(** The set is iterated in some order; each key is looked at once. *)
Definition _SENSITIVE_KEYS : list string := ["headers"; "auth_token"; "secret"].

(** [seed] numbers the encryptions: each draws entropy of its own. *)
Definition encrypt_field (key : string) (acc : nat * jdict) (k : string) : nat * jdict :=
  match jget acc.2 k with
  | Some v =>
      if jtruthy v then (S acc.1, jset acc.2 k (JVstr (fernet_encrypt key acc.1 (json_text v)))) else acc
  | None => acc
  end.

Definition encrypt_config (seed : nat) (config : jdict) (key : string) : jdict :=
  (foldl (encrypt_field key) (seed, config) _SENSITIVE_KEYS).2.

Definition decrypt_field (key : string) (result : jdict) (k : string) : outcome jdict :=
  match jget result k with
  | Some (JVstr token) =>
      match fernet_decrypt key token with
      | Ok text => match json_loads text with Some v => Ok (jset result k v) | None => Ok result end
      | Raise e => if bool_decide (e = InvalidToken) then Ok result else Raise e
      end
  | _ => Ok result
  end.

Definition decrypt_config (config : jdict) (key : string) : outcome jdict :=
  foldl (λ acc k, result ← acc; decrypt_field key result k) (Ok config) _SENSITIVE_KEYS.
End Crypto.

(** ** EventBus (bus.py) *)

(** A listener is a function with an identity. *)
Record EventListener := { ln_name : string; ln_call : Event → lp unit }.

(** [_listeners], a dict of lists; a listener registered while an event is being
    emitted is not modelled. *)
Definition listeners := list (string * list EventListener).

Definition _WILDCARD : string := "*".

Definition listeners_of (bus : listeners) (key : string) : list EventListener :=
  from_option snd [] (find (λ x, bool_decide (x.1 = key)) bus).

Definition set_listeners (bus : listeners) (key : string) (l : list EventListener) : listeners :=
  if existsb (λ x, bool_decide (x.1 = key)) bus
  then (λ x, if bool_decide (x.1 = key) then (key, l) else x) <$> bus
  else bus ++ [(key, l)].

(** [on] and [on_any]; [off] and [off_any], which drop the first of a name. *)
Definition on (bus : listeners) (key : string) (listener : EventListener) : listeners :=
  set_listeners bus key (listeners_of bus key ++ [listener]).
Definition on_any (bus : listeners) (listener : EventListener) : listeners := on bus _WILDCARD listener.

Fixpoint remove_listener (name : string) (l : list EventListener) : list EventListener :=
  match l with
  | [] => []
  | x :: l' => if bool_decide (ln_name x = name) then l' else x :: remove_listener name l'
  end.

Definition off (bus : listeners) (key : string) (listener : EventListener) : listeners :=
  if existsb (λ x, bool_decide (ln_name x = ln_name listener)) (listeners_of bus key)
  then set_listeners bus key (remove_listener (ln_name listener) (listeners_of bus key))
  else bus.
Definition off_any (bus : listeners) (listener : EventListener) : listeners := off bus _WILDCARD listener.

Section Bus.
Context `{host : !Host} `{sink : !AuditSink}.

Definition _persist_event (event : Event) : lp unit :=
  sql_insert (n_table n_events) set_events (λ a b, bool_decide (ev_id a = ev_id b)) "events.id" event.

Definition _match_subscriptions (event : Event) : lp (list EventSubscription) :=
  subs ← select (n_table n_subscriptions) (λ x, bool_decide (sb_lifecycle x = ACTIVE));
  mret (filter (λ s, matches s event = true) subs).

Definition insert_delivery (d : Delivery) : lp unit :=
  require_row (n_table n_events) (by_event (wd_event d)) "webhook_deliveries.event_id" ;;
  require_row (n_table n_endpoints) (by_endpoint (wd_endpoint d)) "webhook_deliveries.webhook_endpoint_id" ;;
  sql_insert (n_table n_deliveries) set_deliveries (λ a b, bool_decide (wd_id a = wd_id b)) "webhook_deliveries.id" d.

Definition _queue_delivery (event : Event) (sub : EventSubscription) (endpoint : string) : lp unit :=
  did ← generate_id;
  ts ← now_utc;
  insert_delivery {| wd_id := did; wd_event := ev_id event; wd_endpoint := endpoint; wd_subscription := sb_id sub;
    wd_status := DELIVERY_PENDING; wd_at := ts; wd_attempt := 0; wd_response := None; wd_body := None;
    wd_error := None |}.

Definition queue_matched (event : Event) (sub : EventSubscription) : lp unit :=
  if given_str (sb_endpoint sub) then _queue_delivery event sub (default "" (sb_endpoint sub)) else mret tt.

Definition emit (bus : listeners) (type : EventType) (actor target_type target : string) (scope : option string)
  (data : option jdict) (source_trace : option string) : lp Event :=
  eid ← generate_id;
  ts ← now_utc;
  let event := {| ev_id := eid; ev_type := type; ev_actor := actor; ev_target_type := target_type;
    ev_target := target; ev_at := ts; ev_scope := scope; ev_data := default [] data; ev_source := source_trace;
    ev_lifecycle := ACTIVE |} in
  _persist_event event ;;
  matched ← _match_subscriptions event;
  for_each matched (queue_matched event) ;;
  for_each (listeners_of bus (event_type_value type)) (λ l, ln_call l event) ;;
  for_each (listeners_of bus _WILDCARD) (λ l, ln_call l event) ;;
  audit_quietly (states_req None (Some [("event_type", JVstr (event_type_value type));
      ("target_type", JVstr target_type); ("target_id", JVstr target)])
    (request actor ActionType.EVENT_EMIT "event" eid)) ;;
  mret event.

Definition get_event (id : string) : lp (option Event) := fetch_one (n_table n_events) (by_event id).

Definition event_filter (type : option EventType) (actor scope target_type : option string) (x : Event) : bool :=
  filter_opt type (ev_type x) && filter_opt actor (ev_actor x) && opt_filter_opt scope (ev_scope x) &&
  filter_opt target_type (ev_target_type x).

Definition newest_event (a b : Event) : bool := (ev_at b <=? ev_at a)%Z.

Definition list_events (type : option EventType) (actor scope target_type : option string) (limit : nat)
  : lp (list Event) :=
  l ← select_sorted (n_table n_events) (event_filter type actor scope target_type) newest_event;
  mret (take limit l).

Definition count_events (type : option EventType) (scope : option string) : lp nat :=
  select_count (n_table n_events) (event_filter type None scope None).
End Bus.

(** ** SubscriptionManager (subscriptions.py) *)

Section Subscriptions.
Context `{host : !Host} `{sink : !AuditSink} `{registry : !AutoRegister} `{fernet : !Fernet}.
Context (known_principal : string → bool).
(** The manager's key, if it has one. *)
Context (webhook_key : option string).

Definition insert_endpoint (x : WebhookEndpoint) : lp unit :=
  raise_if (negb (known_principal (wh_owner x))) (IntegrityError "webhook_endpoints.owner_id") ;;
  sql_insert (n_table n_endpoints) set_endpoints (λ a b, bool_decide (wh_id a = wh_id b)) "webhook_endpoints.id" x.

(** What is stored; what is returned has the configuration as given. *)
Definition create_webhook (name url owner : string) (config : option jdict) (scope : option string)
  : lp WebhookEndpoint :=
  let raw_config := default [] config in
  seed ← gets st_next;
  let store_config := match webhook_key with Some key => encrypt_config seed raw_config key | None => raw_config end in
  wid ← generate_id;
  ts ← now_utc;
  let wh := {| wh_id := wid; wh_name := name; wh_owner := owner; wh_url := url; wh_config := raw_config;
    wh_scope := scope; wh_created_at := ts; wh_lifecycle := ACTIVE |} in
  insert_endpoint (with_config store_config wh) ;;
  swallow (auto_register ("webhook:" +:+ wid) owner) ;;
  audit_quietly (states_req None (Some [("name", JVstr name); ("url", JVstr url)])
    (request owner ActionType.WEBHOOK_CREATE "webhook_endpoint" wid)) ;;
  mret wh.

Definition decrypted (x : WebhookEndpoint) : lp WebhookEndpoint :=
  match webhook_key with
  | None => mret x
  | Some key => c ← lift (decrypt_config (wh_config x) key); mret (with_config c x)
  end.

Definition get_webhook (id : string) : lp (option WebhookEndpoint) :=
  row ← fetch_one (n_table n_endpoints) (by_endpoint id);
  match row with
  | None => mret None
  | Some x => wh ← decrypted x; mret (Some wh)
  end.

Definition endpoint_filter (owner scope : option string) (x : WebhookEndpoint) : bool :=
  bool_decide (wh_lifecycle x = ACTIVE) && filter_opt owner (wh_owner x) && opt_filter_opt scope (wh_scope x).

Definition newest_endpoint (a b : WebhookEndpoint) : bool := (wh_created_at b <=? wh_created_at a)%Z.

Definition list_webhooks (owner scope : option string) : lp (list WebhookEndpoint) :=
  rows ← select_sorted (n_table n_endpoints) (endpoint_filter owner scope) newest_endpoint;
  for_fold rows [] (λ acc x, wh ← decrypted x; mret (acc ++ [wh])).

Definition delete_webhook (id principal : string) : lp unit :=
  found ← get_webhook id;
  match found with
  | None => raise (ValueError ("Webhook endpoint " +:+ id +:+ " not found"))
  | Some wh =>
      raise_if (negb (bool_decide (wh_owner wh = principal))) (AccessDenied "Only the webhook owner can delete it") ;;
      sql_update (n_table n_endpoints) set_endpoints (by_endpoint id) archived_endpoint
  end.

Definition insert_subscription (x : EventSubscription) : lp unit :=
  raise_if (negb (known_principal (sb_owner x))) (IntegrityError "event_subscriptions.owner_id") ;;
  sql_insert (n_table n_subscriptions) set_subscriptions (λ a b, bool_decide (sb_id a = sb_id b))
    "event_subscriptions.id" x.

Definition create_subscription (name owner : string) (event_types target_types : option (list string))
  (scope endpoint : option string) : lp EventSubscription :=
  sid ← generate_id;
  ts ← now_utc;
  let sub := {| sb_id := sid; sb_name := name; sb_owner := owner; sb_events := default [] event_types;
    sb_targets := default [] target_types; sb_scope := scope; sb_endpoint := endpoint; sb_created_at := ts;
    sb_lifecycle := ACTIVE |} in
  insert_subscription sub ;;
  swallow (auto_register ("subscription:" +:+ sid) owner) ;;
  audit_quietly (states_req None (Some [("name", JVstr name)])
    (request owner ActionType.EVENT_SUBSCRIBE "event_subscription" sid)) ;;
  mret sub.

Definition get_subscription (id : string) : lp (option EventSubscription) :=
  fetch_one (n_table n_subscriptions) (by_subscription id).

Definition newest_subscription (a b : EventSubscription) : bool := (sb_created_at b <=? sb_created_at a)%Z.

Definition list_subscriptions (owner scope : option string) (active_only : bool) : lp (list EventSubscription) :=
  select_sorted (n_table n_subscriptions) (λ x,
    (negb active_only || bool_decide (sb_lifecycle x = ACTIVE)) && filter_opt owner (sb_owner x) &&
    opt_filter_opt scope (sb_scope x)) newest_subscription.

Definition delete_subscription (id principal : string) : lp unit :=
  found ← get_subscription id;
  match found with
  | None => raise (ValueError ("Subscription " +:+ id +:+ " not found"))
  | Some sub =>
      raise_if (negb (bool_decide (sb_owner sub = principal)))
        (AccessDenied "Only the subscription owner can delete it") ;;
      sql_update (n_table n_subscriptions) set_subscriptions (by_subscription id) archived_subscription
  end.
End Subscriptions.

(** ** WebhookDelivery (webhooks.py) *)

(** What the transport does is any computation; it answers a status and a body. *)
Definition DeliveryTransport : Type := WebhookEndpoint → Event → lp (Z * string).

Definition _default_transport : DeliveryTransport := λ _ _, mret (200%Z, "ok").

Section Webhooks.
Context `{host : !Host} `{fernet : !Fernet}.
Context (transport : DeliveryTransport) (max_retries : nat) (webhook_key : option string).

(** An exception's text, [str(exc)]. *)
Context (exc_text : exn → string).

Definition success (code : Z) : bool := (200 <=? code)%Z && (code <? 300)%Z.
Definition status_of (code : Z) : DeliveryStatus := if success code then DELIVERED else DELIVERY_FAILED.

Definition new_attempt (row : Delivery) (st : DeliveryStatus) (response : option Z) (body error : option string)
  : lp DeliveryAttempt :=
  aid ← generate_id;
  ts ← now_utc;
  mret {| da_id := aid; da_event := wd_event row; da_endpoint := wd_endpoint row;
    da_subscription := wd_subscription row; da_status := st; da_at := ts; da_response := response;
    da_body := body; da_error := error; da_number := S (wd_attempt row) |}.

Definition edit_delivery (row : Delivery) (f : Delivery → Delivery) : lp unit :=
  sql_update (n_table n_deliveries) set_deliveries (by_delivery (wd_id row)) f.

(** The try block: the transport, and the row its answer is written to. *)
Definition deliver (row : Delivery) (endpoint : WebhookEndpoint) (event : Event) : lp DeliveryAttempt :=
  answer ← transport endpoint event;
  let st := status_of answer.1 in
  attempt ← new_attempt row st (Some answer.1) (Some answer.2) None;
  edit_delivery row (delivery_answered st (S (wd_attempt row)) answer.1 answer.2) ;;
  mret attempt.

Definition _attempt_delivery (row : Delivery) : lp DeliveryAttempt :=
  event_row ← fetch_one (n_table n_events) (by_event (wd_event row));
  endpoint_row ← fetch_one (n_table n_endpoints) (by_endpoint (wd_endpoint row));
  match event_row, endpoint_row with
  | Some event, Some stored =>
      endpoint ← decrypted webhook_key stored;
      r ← try (deliver row endpoint event);
      match r with
      | Ok attempt => mret attempt
      | Raise exc =>
          attempt ← new_attempt row DELIVERY_FAILED None None (Some (exc_text exc));
          edit_delivery row (delivery_failed (S (wd_attempt row)) (exc_text exc)) ;;
          mret attempt
      end
  | _, _ =>
      attempt ← new_attempt row DELIVERY_FAILED None None (Some "Event or endpoint not found");
      edit_delivery row (delivery_missing (S (wd_attempt row))) ;;
      mret attempt
  end.

Definition oldest_delivery (a b : Delivery) : bool := (wd_at a <=? wd_at b)%Z.
Definition newest_delivery (a b : Delivery) : bool := (wd_at b <=? wd_at a)%Z.

Definition deliver_pending : lp (list DeliveryAttempt) :=
  rows ← select_sorted (n_table n_deliveries) (delivery_in DELIVERY_PENDING) oldest_delivery;
  for_fold rows [] (λ attempts row, attempt ← _attempt_delivery row; mret (attempts ++ [attempt])).

Definition get_deliveries (event endpoint : option string) (st : option DeliveryStatus) (limit : nat)
  : lp (list Delivery) :=
  l ← select_sorted (n_table n_deliveries) (λ x,
    filter_opt event (wd_event x) && filter_opt endpoint (wd_endpoint x) && filter_opt st (wd_status x)) newest_delivery;
  mret (take limit l).

(** Not before the delay, doubled with every attempt, has passed. *)
Definition backed_off (backoff_base : Z) (now : Z) (row : Delivery) : bool :=
  (now - wd_at row <? micros (backoff_base * 2 ^ Z.of_nat (wd_attempt row - 1)))%Z.

Definition may_retry (x : Delivery) : bool := delivery_in DELIVERY_FAILED x && (wd_attempt x <? max_retries).

Definition retry_failed (backoff_base : Z) : lp (list DeliveryAttempt) :=
  now ← now_utc;
  rows ← select_sorted (n_table n_deliveries) may_retry oldest_delivery;
  for_fold rows [] (λ attempts row,
    if backed_off backoff_base now row then mret attempts
    else
      edit_delivery row delivery_retrying ;;
      attempt ← _attempt_delivery (delivery_retrying row);
      mret (attempts ++ [attempt])).
End Webhooks.

(** ** What is encrypted is read back *)

Section CryptoTheory.
Context `{fernet : !Fernet}.
Context (key : string).

(** [w] stands in the row for [v]. *)
Definition sealed_as (v w : jval) : Prop :=
  if jtruthy v then ∃ n, w = JVstr (fernet_encrypt key n (json_text v)) else w = v.

(** [v] is what reading [w] gives. *)
Definition opened_as (w v : jval) : Prop :=
  match w with
  | JVstr token =>
      match fernet_decrypt key token with
      | Ok text => v = default w (json_loads text)
      | Raise e => e = InvalidToken ∧ v = w
      end
  | _ => v = w
  end.

Lemma jdict_ext (d d' : jdict) : NoDup d.*1 → d.*1 = d'.*1 → (∀ k, jget d k = jget d' k) → d = d'.
Proof.
  revert d'. induction d as [|[k v] d IH]; intros [|[k' v'] d']; [done|done|done|].
  rewrite !fmap_cons. intros [Hk Hnd]%NoDup_cons [= <- Hkeys] Hget.
  pose proof (Hget k) as Hv. rewrite !jget_cons, !decide_True in Hv by done. injection Hv as <-. f_equal.
  apply IH; [done..|]. intros x. destruct (decide (k = x)) as [<-|Hne].
  - rewrite (proj2 (jget_none d k)), (proj2 (jget_none d' k)); [done|by rewrite <-Hkeys|done].
  - specialize (Hget x). by rewrite !jget_cons, !decide_False in Hget.
Qed.

(** Changing the fields [ks] of a dict, one after the other. *)
Definition changed_by (R : jval → jval → Prop) (ks : list string) (d d' : jdict) : Prop :=
  d'.*1 = d.*1 ∧
  ∀ k, match jget d k with
       | None => jget d' k = None
       | Some v => if decide (k ∈ ks) then ∃ w, jget d' k = Some w ∧ R v w else jget d' k = Some v
       end.

Lemma changed_refl R d : changed_by R [] d d.
Proof. split; [done|]. intros k. destruct (jget d k); [|done]. by rewrite decide_False by apply not_elem_of_nil. Qed.

Lemma changed_step R k ks d d1 d2 :
  k ∉ ks →
  d1 = d ∧ (jget d k = None ∨ ∃ v, jget d k = Some v ∧ R v v) ∨
    (∃ v w, jget d k = Some v ∧ R v w ∧ d1 = jset d k w) →
  changed_by R ks d1 d2 → changed_by R (k :: ks) d d2.
Proof.
  intros Hk Hstep [Hkeys Hget].
  assert (Hd1 : d1.*1 = d.*1 ∧ (∀ x, x ≠ k → jget d1 x = jget d x) ∧
    match jget d k with None => jget d1 k = None | Some v => ∃ w, jget d1 k = Some w ∧ R v w end).
  { destruct Hstep as [[-> Hn]|(v & w & Hv & Hw & ->)].
    - split; [done|]. split; [done|]. destruct Hn as [->|(v & -> & Hv)]; [done|]. by exists v.
    - split; [apply jset_keys; by rewrite Hv|]. split; [intros x Hx; rewrite jget_jset; by case_decide|].
      rewrite Hv. exists w. by rewrite jget_jset, decide_True. }
  destruct Hd1 as (Hk1 & Hother & Hthis). split; [congruence|]. intros x. specialize (Hget x).
  destruct (decide (x = k)) as [->|Hx].
  - destruct (jget d k) as [v|]; [|by rewrite Hthis in Hget]. destruct Hthis as (w & Hw & HR).
    rewrite Hw, decide_False in Hget by done. rewrite decide_True by left. by exists w.
  - rewrite (Hother x Hx) in Hget. destruct (jget d x) as [v|]; [|done].
    destruct (decide (x ∈ ks)) as [Hin|Hin].
    + by rewrite decide_True by by right.
    + rewrite decide_False; [done|]. by intros [?|?]%elem_of_cons.
Qed.

Lemma encrypt_changed ks acc :
  NoDup ks → changed_by sealed_as ks acc.2 (foldl (encrypt_field key) acc ks).2.
Proof.
  revert acc. induction ks as [|k ks IH]; intros [n d] Hnd; [apply changed_refl|]. apply NoDup_cons in Hnd as [Hk Hnd].
  cbn [foldl]. apply changed_step with (d1 := (encrypt_field key (n, d) k).2); [done| |by apply IH].
  unfold encrypt_field. cbn [fst snd]. destruct (jget d k) as [v|] eqn:Hv; [|by left; auto].
  destruct (jtruthy v) eqn:Ht; cbn [snd].
  - right. eexists v, _. split; [done|]. split; [|done]. unfold sealed_as. rewrite Ht. by eexists.
  - left. split; [done|]. right. exists v. split; [done|]. unfold sealed_as. by rewrite Ht.
Qed.

Lemma decrypt_changed ks d :
  NoDup ks → (∀ k w, k ∈ ks → jget d k = Some w → ∃ v, opened_as w v) →
  ∃ d', foldl (λ acc k, result ← acc; decrypt_field key result k) (Ok d) ks = Ok d' ∧ changed_by opened_as ks d d'.
Proof.
  revert d. induction ks as [|k ks IH]; intros d Hnd Hopen; [exists d; split; [done|apply changed_refl]|].
  apply NoDup_cons in Hnd as [Hk Hnd]. cbn [foldl].
  assert (Hstep : ∃ d1, decrypt_field key d k = Ok d1 ∧
    (d1 = d ∧ (jget d k = None ∨ ∃ v, jget d k = Some v ∧ opened_as v v) ∨
     ∃ v w, jget d k = Some v ∧ opened_as v w ∧ d1 = jset d k w)).
  { unfold decrypt_field. destruct (jget d k) as [w|] eqn:Hw; [|by exists d; auto].
    destruct (Hopen k w ltac:(left) Hw) as [v Hv]. pose proof Hv as Hv'. unfold opened_as in Hv'.
    destruct w as [|b|z|x0|token|l|m]; try (exists d; split; [done|]; left; split; [done|]; right; eexists; by split).
    destruct (fernet_decrypt key token) as [text|e] eqn:Hdec.
    - destruct (json_loads text) as [x|] eqn:Hx; cbn [default from_option] in Hv'.
      + eexists. split; [done|]. right. eexists _, x. split; [done|]. split; [|done]. unfold opened_as. by rewrite Hdec, Hx.
      + exists d. split; [done|]. left. split; [done|]. right. eexists. split; [done|]. unfold opened_as. by rewrite Hdec, Hx.
    - destruct Hv' as [-> ->]. rewrite bool_decide_eq_true_2 by done. exists d. split; [done|]. left. split; [done|].
      right. eexists. split; [done|]. unfold opened_as. by rewrite Hdec. }
  destruct Hstep as (d1 & Hd1 & Hcase). cbn [mbind outcome_bind]. rewrite Hd1.
  assert (Hrest : ∀ x, x ∈ ks → jget d1 x = jget d x).
  { intros x Hx. destruct Hcase as [[-> _]|(v & w & _ & _ & ->)]; [done|]. rewrite jget_jset. case_decide as Heq; [|done]. by subst. }
  destruct (IH d1 Hnd) as (d' & Hd' & Hch).
  { intros x w Hx Hw. rewrite Hrest in Hw by done. by apply (Hopen x); [right|]. }
  exists d'. split; [done|]. by eapply changed_step.
Qed.

Context (empty_invalid : fernet_decrypt key "" = Raise InvalidToken).

Lemma sealed_opens v w : json_ok v = true → sealed_as v w → opened_as w v ∧ ∀ v', opened_as w v' → v' = v.
Proof using empty_invalid.
  intros Hok. unfold sealed_as. destruct (jtruthy v) eqn:Ht.
  - intros [n ->]. unfold opened_as. rewrite fernet_inverse, json_roundtrip by done. cbn. split; [done|]. by intros v' ->.
  - intros ->. unfold opened_as. destruct v as [|b|z|x0|s|l|d]; try by (split; [|by intros v' ->]).
    assert (s = "") as ->. { unfold jtruthy in Ht. by apply negb_false_iff, bool_decide_eq_true_1 in Ht. }
    rewrite empty_invalid. split; [done|]. by intros v' [_ ->].
Qed.

Lemma keys_distinct : NoDup _SENSITIVE_KEYS.
Proof. by apply (bool_decide_unpack _). Qed.

Lemma json_ok_get d k v : json_ok (JVdict d) = true → jget d k = Some v → json_ok v = true.
Proof.
  cbn [json_ok]. intros [_ Hall]%andb_true_iff Hv%jget_elem. rewrite forallb_forall in Hall.
  apply (Hall (k, v)). by apply list_elem_of_In.
Qed.

Lemma decrypt_encrypted seed c :
  json_ok (JVdict c) = true → decrypt_config (encrypt_config seed c key) key = Ok c.
Proof using empty_invalid.
  intros Hok. destruct (encrypt_changed _SENSITIVE_KEYS (seed, c) keys_distinct) as [Hkeys Hget]. cbn [snd] in *.
  unfold decrypt_config, encrypt_config. set (e := (foldl _ _ _).2) in *.
  destruct (decrypt_changed _SENSITIVE_KEYS e keys_distinct) as (d & -> & Hkeys' & Hget').
  { intros k w Hk Hw. specialize (Hget k). destruct (jget c k) as [v|] eqn:Hv; [|congruence].
    rewrite decide_True in Hget by done. destruct Hget as (w' & Hw' & Hseal). simplify_eq.
    exists v. apply sealed_opens; [by eapply json_ok_get|done]. }
  f_equal. symmetry. apply jdict_ext; [|congruence|].
  - cbn [json_ok] in Hok. by apply andb_true_iff in Hok as [Hnd%bool_decide_eq_true_1 _].
  - intros k. specialize (Hget k). specialize (Hget' k). destruct (jget c k) as [v|] eqn:Hv; [|by rewrite Hget in Hget'].
    destruct (decide (k ∈ _SENSITIVE_KEYS)).
    + destruct Hget as (w & Hw & Hseal). rewrite Hw in Hget'. destruct Hget' as (v' & -> & Hopen).
      f_equal. symmetry. eapply sealed_opens; [by eapply json_ok_get|done..].
    + by rewrite Hget in Hget'.
Qed.
End CryptoTheory.
