(* ===== verification/EventBehaviour.v ===== *)
(** * Legacy v1: what the events layer guarantees

    The invariant of events, subscriptions, endpoints and deliveries; what an
    emission queues; what a round of deliveries and a round of retries do; and
    that a configuration comes back from its encrypted row. *)

From S2P Require Import Prelude LegacyTypes Schema Json JsonParse Trail Rules RuleClients Tenancy Secrets Scheduling Environments Events.

Definition events_of (t : tables) : list Event := n_events (eventing t).
Definition endpoints_of (t : tables) : list WebhookEndpoint := n_endpoints (eventing t).
Definition subscriptions_of (t : tables) : list EventSubscription := n_subscriptions (eventing t).
Definition deliveries_of (t : tables) : list Delivery := n_deliveries (eventing t).

(** ** The invariant *)

(** No delivery is attempted more often: once, and then until [max_retries]. *)
Definition attempt_bound (max_retries : nat) : nat := Nat.max 1 max_retries.

(** The status fits the attempts made and the answer. *)
Definition delivery_fits (max_retries : nat) (d : Delivery) : Prop :=
  wd_attempt d ≤ attempt_bound max_retries ∧ (wd_status d = DELIVERY_PENDING ↔ wd_attempt d = 0) ∧
  (wd_status d = RETRYING → wd_attempt d < attempt_bound max_retries) ∧
  (wd_status d = DELIVERED → ∃ code, wd_response d = Some code ∧ success code = true).

Record events_ok (max_retries : nat) (t : tables) : Prop := {
  ek_events : NoDup (ev_id <$> events_of t);
  ek_subscriptions : NoDup (sb_id <$> subscriptions_of t);
  ek_endpoints : NoDup (wh_id <$> endpoints_of t);
  ek_deliveries : NoDup (wd_id <$> deliveries_of t);
  ek_event : ∀ d, d ∈ deliveries_of t → wd_event d ∈ ev_id <$> events_of t;
  ek_endpoint : ∀ d, d ∈ deliveries_of t → wd_endpoint d ∈ wh_id <$> endpoints_of t;
  ek_fits : ∀ d, d ∈ deliveries_of t → delivery_fits max_retries d;
}.

(** [d'] is [d] some attempts later; what was delivered stays as it is. *)
Definition later_delivery (d d' : Delivery) : Prop :=
  wd_id d' = wd_id d ∧ wd_event d' = wd_event d ∧ wd_endpoint d' = wd_endpoint d ∧
  wd_subscription d' = wd_subscription d ∧ wd_at d' = wd_at d ∧ wd_attempt d ≤ wd_attempt d' ∧
  (wd_status d = DELIVERED → d' = d).

Definition later_subscription (x y : EventSubscription) : Prop := y = x ∨ y = archived_subscription x.
Definition later_endpoint (x y : WebhookEndpoint) : Prop := y = x ∨ y = archived_endpoint x.

#[export] Instance later_delivery_preorder : PreOrder later_delivery.
Proof.
  split; [intros d; by split_and!|]. intros a b c (?&?&?&?&?&?&Hab) (?&?&?&?&?&?&Hbc).
  split_and!; try congruence; [lia|]. intros Ha. specialize (Hab Ha) as ->. by apply Hbc.
Qed.

#[export] Instance later_subscription_preorder : PreOrder later_subscription.
Proof. split; [intros a; by left|]. intros a b c [->| ->] [->| ->]; first [by left|by right]. Qed.

#[export] Instance later_endpoint_preorder : PreOrder later_endpoint.
Proof. split; [intros a; by left|]. intros a b c [->| ->] [->| ->]; first [by left|by right]. Qed.

Record events_later (t t' : tables) : Prop := {
  el_events : events_of t `prefix_of` events_of t';
  el_subscriptions : grown later_subscription (subscriptions_of t) (subscriptions_of t');
  el_endpoints : grown later_endpoint (endpoints_of t) (endpoints_of t');
  el_deliveries : grown later_delivery (deliveries_of t) (deliveries_of t');
}.

#[export] Instance events_later_preorder : PreOrder events_later.
Proof. split; [intros t; by split|]. intros a b c [] []. split; by etrans. Qed.

(** The layer's rows as they were. *)
Definition same_events : relation store := λ s s', eventing (st_db s') = eventing (st_db s).

#[export] Instance same_events_preorder : PreOrder same_events.
Proof. split; [by intros s|]. intros s1 s2 s3 H1 H2. unfold same_events in *. congruence. Qed.

Lemma layers_events {R} (m : lp R) : respects same_layers m → respects same_events m.
Proof. intros H s. unfold same_events, eventing. by rewrite (H s). Qed.

Lemma audit_quietly_events `{sink : !AuditSink} q : respects same_events (audit_quietly q).
Proof. intros s. exact (layers_events _ (audit_layers q) s). Qed.

Lemma auto_register_events `{registry : !AutoRegister} name by_ : respects same_events (swallow (auto_register name by_)).
Proof. intros s. exact (layers_events _ (respects_layers _ (auto_register_off name by_)) s). Qed.

Lemma bus_listener (P : EventListener → Prop) bus k x :
  x ∈ listeners_of bus k → (∀ k l x, (k, l) ∈ bus → x ∈ l → P x) → P x.
Proof.
  unfold listeners_of. destruct (find _ bus) as [[k' l]|] eqn:Hfind; [|by intros ?%elem_of_nil].
  apply find_Some_elem in Hfind as [Hin _]. intros Hx H. exact (H k' l x Hin Hx).
Qed.

Section Invariant.
Context `{host : !Host} `{sink : !AuditSink} `{registry : !AutoRegister} `{fernet : !Fernet}.
Context (known_principal : string → bool) (max_retries : nat).

#[local] Abbreviation ok := (events_ok max_retries).
#[local] Abbreviation ekeeps := (keeps ok events_later).

Lemma ekeeps_same {R} (m : lp R) s : same_events s (m s).2 → ekeeps m s.
Proof.
  intros H [A1 A2 A3 A4 A5 A6 A7]. unfold same_events in H.
  split; [by split; unfold events_of, subscriptions_of, endpoints_of, deliveries_of in *; rewrite H|].
  split; unfold events_of, subscriptions_of, endpoints_of, deliveries_of; by rewrite H.
Qed.

Lemma ekeeps_ret {R} (x : R) s : ekeeps (mret x : lp R) s.
Proof. by apply ekeeps_same. Qed.

(** Rows of which nothing else depends but their ids. *)
Lemma ekeeps_persist e s : ekeeps (_persist_event e) s.
Proof.
  intros Hok. unfold _persist_event.
  destruct (sql_insert_cases (n_table n_events) set_events (λ a b, bool_decide (ev_id a = ev_id b)) "events.id" e s)
    as [->|[Hc ->]]; [done|]. destruct Hok as [A1 A2 A3 A4 A5 A6 A7].
  split; [split; try done|split; try done].
  - apply fresh_snoc; [done|]. intros y Hy. specialize (Hc y Hy). by apply bool_decide_eq_false_1 in Hc.
  - intros d Hd. unfold events_of. simpl. rewrite fmap_app, elem_of_app. left. by apply A5.
  - by apply prefix_app_r.
Qed.

Lemma ekeeps_insert_endpoint x s : ekeeps (insert_endpoint known_principal x) s.
Proof.
  apply keeps_bind; [exact _|apply keeps_reading; [exact _|apply reads_raise_if]|]. intros _ s1 _ Hok.
  destruct (sql_insert_cases (n_table n_endpoints) set_endpoints (λ a b, bool_decide (wh_id a = wh_id b))
    "webhook_endpoints.id" x s1) as [->|[Hc ->]]; [done|]. destruct Hok as [A1 A2 A3 A4 A5 A6 A7].
  split; [split; try done|split; try done].
  - apply fresh_snoc; [done|]. intros y Hy. specialize (Hc y Hy). by apply bool_decide_eq_false_1 in Hc.
  - intros d Hd. unfold endpoints_of. simpl. rewrite fmap_app, elem_of_app. left. by apply A6.
  - by apply grown_app; intros y; left.
Qed.

Lemma ekeeps_insert_subscription x s : ekeeps (insert_subscription known_principal x) s.
Proof.
  apply keeps_bind; [exact _|apply keeps_reading; [exact _|apply reads_raise_if]|]. intros _ s1 _ Hok.
  destruct (sql_insert_cases (n_table n_subscriptions) set_subscriptions (λ a b, bool_decide (sb_id a = sb_id b))
    "event_subscriptions.id" x s1) as [->|[Hc ->]]; [done|]. destruct Hok as [A1 A2 A3 A4 A5 A6 A7].
  split; [split; try done|split; try done].
  - apply fresh_snoc; [done|]. intros y Hy. specialize (Hc y Hy). by apply bool_decide_eq_false_1 in Hc.
  - by apply grown_app; intros y; left.
Qed.

Lemma insert_delivery_cases d s :
  (∃ e, insert_delivery d s = (Raise e, s)) ∨
  insert_delivery d s = (Ok tt, put_db (set_deliveries (deliveries_of (st_db s) ++ [d]) (st_db s)) s) ∧
    wd_event d ∈ ev_id <$> events_of (st_db s) ∧ wd_endpoint d ∈ wh_id <$> endpoints_of (st_db s) ∧
    ∀ x, x ∈ deliveries_of (st_db s) → wd_id d ≠ wd_id x.
Proof.
  unfold insert_delivery. rewrite run_bind.
  destruct (require_row (n_table n_events) _ _ s) as [[u|e] s1] eqn:H1; last first.
  { pose proof (require_row_reads (n_table n_events) (by_event (wd_event d)) "webhook_deliveries.event_id" s) as Hs.
    rewrite H1 in Hs. simpl in Hs. subst. left. by eexists. }
  apply require_row_ok in H1 as (-> & x & Hx & Hxid%bool_decide_eq_true_1). rewrite run_bind.
  destruct (require_row (n_table n_endpoints) _ _ s) as [[u'|e] s1] eqn:H1; last first.
  { pose proof (require_row_reads (n_table n_endpoints) (by_endpoint (wd_endpoint d))
      "webhook_deliveries.webhook_endpoint_id" s) as Hs.
    rewrite H1 in Hs. simpl in Hs. subst. left. by eexists. }
  apply require_row_ok in H1 as (-> & y & Hy & Hyid%bool_decide_eq_true_1).
  destruct (sql_insert_cases (n_table n_deliveries) set_deliveries (λ a b, bool_decide (wd_id a = wd_id b))
    "webhook_deliveries.id" d s) as [->|[Hc ->]]; [left; by eexists|right]. split; [done|].
  rewrite <-Hxid, <-Hyid. split; [by apply list_elem_of_fmap_2|]. split; [by apply list_elem_of_fmap_2|].
  intros z Hz. specialize (Hc z Hz). by apply bool_decide_eq_false_1 in Hc.
Qed.

Lemma ekeeps_queue e sub endpoint s : ekeeps (_queue_delivery e sub endpoint) s.
Proof.
  unfold _queue_delivery. apply keeps_bind; [exact _|by apply ekeeps_same|]. intros did s1 _.
  apply keeps_bind; [exact _|by apply ekeeps_same|]. intros ts s2 _ Hok.
  match goal with |- context [insert_delivery ?x s2] => set (d := x) end.
  destruct (insert_delivery_cases d s2) as [[? ->]|(-> & He & Hw & Hid)]; [done|].
  destruct Hok as [A1 A2 A3 A4 A5 A6 A7].
  assert (Hin : ∀ x, x ∈ deliveries_of (st_db s2) ++ [d] ↔ x ∈ deliveries_of (st_db s2) ∨ x = d).
  { intros x. by rewrite elem_of_app, list_elem_of_singleton. }
  split; [split; try done|split; try done].
  - by apply fresh_snoc.
  - intros x [Hx| ->]%Hin; [by apply A5|done].
  - intros x [Hx| ->]%Hin; [by apply A6|done].
  - intros x [Hx| ->]%Hin; [by apply A7|]. unfold delivery_fits, d. simpl. split_and!; [lia|done|done|done].
  - by apply grown_app; intros y; split_and!.
Qed.

(** *** The bus and its subscriptions *)

Definition fair_listener (l : EventListener) : Prop := ∀ e s, ekeeps (ln_call l e) s.
Definition fair_bus (bus : listeners) : Prop := ∀ k l x, (k, l) ∈ bus → x ∈ l → fair_listener x.

Lemma listeners_fair bus k : fair_bus bus → ∀ x, x ∈ listeners_of bus k → fair_listener x.
Proof. intros Hf x Hx. exact (bus_listener fair_listener bus k x Hx Hf). Qed.

Lemma matched_reads e : reads (_match_subscriptions e).
Proof. apply reads_bind; [by intros s|]. intros. apply reads_ret. Qed.

Lemma ekeeps_emit bus type actor tty target scope data source s :
  fair_bus bus → ekeeps (emit bus type actor tty target scope data source) s.
Proof.
  intros Hf. unfold emit. apply keeps_bind; [exact _|by apply ekeeps_same|]. intros eid s1 _.
  apply keeps_bind; [exact _|by apply ekeeps_same|]. intros ts s2 _. cbv zeta.
  apply keeps_bind; [exact _|apply ekeeps_persist|]. intros _ s3 _.
  apply keeps_bind; [exact _|apply keeps_reading; [exact _|apply matched_reads]|]. intros matched s4 _.
  apply keeps_bind; [exact _| |intros _ s5 _].
  { apply keeps_for_each; [exact _|]. intros sub s' _. unfold queue_matched.
    destruct (given_str _); [apply ekeeps_queue|apply ekeeps_ret]. }
  apply keeps_bind; [exact _| |intros _ s6 _].
  { apply keeps_for_each; [exact _|]. intros l s' Hl. exact (listeners_fair bus _ Hf l Hl _ s'). }
  apply keeps_bind; [exact _| |intros _ s7 _].
  { apply keeps_for_each; [exact _|]. intros l s' Hl. exact (listeners_fair bus _ Hf l Hl _ s'). }
  apply keeps_bind; [exact _|apply ekeeps_same, audit_quietly_events|intros; apply ekeeps_ret].
Qed.

Lemma ekeeps_create_webhook key name url owner config scope s :
  ekeeps (create_webhook known_principal key name url owner config scope) s.
Proof.
  unfold create_webhook. cbv zeta. apply keeps_bind; [exact _|by apply ekeeps_same|]. intros seed s1 _.
  apply keeps_bind; [exact _|by apply ekeeps_same|]. intros wid s2 _.
  apply keeps_bind; [exact _|by apply ekeeps_same|]. intros ts s3 _.
  apply keeps_bind; [exact _|apply ekeeps_insert_endpoint|]. intros _ s4 _.
  apply keeps_bind; [exact _|apply ekeeps_same, auto_register_events|]. intros _ s5 _.
  apply keeps_bind; [exact _|apply ekeeps_same, audit_quietly_events|intros; apply ekeeps_ret].
Qed.

Lemma ekeeps_create_subscription name owner types targets scope endpoint s :
  ekeeps (create_subscription known_principal name owner types targets scope endpoint) s.
Proof.
  unfold create_subscription. apply keeps_bind; [exact _|by apply ekeeps_same|]. intros sid s2 _.
  apply keeps_bind; [exact _|by apply ekeeps_same|]. intros ts s3 _. cbv zeta.
  apply keeps_bind; [exact _|apply ekeeps_insert_subscription|]. intros _ s4 _.
  apply keeps_bind; [exact _|apply ekeeps_same, auto_register_events|]. intros _ s5 _.
  apply keeps_bind; [exact _|apply ekeeps_same, audit_quietly_events|intros; apply ekeeps_ret].
Qed.

Lemma decrypted_reads key x : reads (decrypted key x).
Proof. destruct key; [|apply reads_ret]. apply reads_bind; [apply reads_lift|]. intros. apply reads_ret. Qed.

Lemma get_webhook_reads key id : reads (get_webhook key id).
Proof.
  apply reads_bind; [apply fetch_one_reads|]. intros [x|]; [|apply reads_ret].
  apply reads_bind; [apply decrypted_reads|]. intros. apply reads_ret.
Qed.

Lemma ekeeps_delete_webhook key id principal s : ekeeps (delete_webhook key id principal) s.
Proof.
  unfold delete_webhook. apply keeps_bind; [exact _|apply keeps_reading; [exact _|apply get_webhook_reads]|].
  intros [wh|] s1 _; [|by apply ekeeps_same].
  apply keeps_bind; [exact _|apply keeps_reading; [exact _|apply reads_raise_if]|]. intros _ s2 _ [A1 A2 A3 A4 A5 A6 A7].
  split; [split; try done|split; try done].
  - unfold endpoints_of. simpl. by rewrite update_column.
  - intros d Hd. unfold endpoints_of. simpl. rewrite update_column by done. by apply A6.
  - apply grown_fmap. intros x _. destruct (by_endpoint id x); [by right|by left].
Qed.

Lemma ekeeps_delete_subscription id principal s : ekeeps (delete_subscription id principal) s.
Proof.
  unfold delete_subscription. apply keeps_bind; [exact _|apply keeps_reading; [exact _|apply fetch_one_reads]|].
  intros [sub|] s1 _; [|by apply ekeeps_same].
  apply keeps_bind; [exact _|apply keeps_reading; [exact _|apply reads_raise_if]|]. intros _ s2 _ [A1 A2 A3 A4 A5 A6 A7].
  split; [split; try done|split; try done].
  - unfold subscriptions_of. simpl. by rewrite update_column.
  - apply grown_fmap. intros x _. destruct (by_subscription id x); [by right|by left].
Qed.

(** *** Deliveries *)

(** What a transport may do: anything but edit what is queued. *)
Definition fair_transport (transport : DeliveryTransport) : Prop :=
  ∀ w e s, ekeeps (transport w e) s ∧ deliveries_of (st_db s) `prefix_of` deliveries_of (st_db (transport w e s).2).

Definition edited (row : Delivery) (f : Delivery → Delivery) (l : list Delivery) : list Delivery :=
  (λ x, if by_delivery (wd_id row) x then f x else x) <$> l.

Lemma edited_elem row f l x :
  NoDup (wd_id <$> l) → row ∈ l → x ∈ edited row f l ↔ x = f row ∨ x ∈ l ∧ wd_id x ≠ wd_id row.
Proof.
  intros Hnd Hrow. unfold edited, by_delivery. rewrite list_elem_of_fmap. split.
  - intros (y & -> & Hy). case_bool_decide as Hid; [left|by right].
    by rewrite (NoDup_fmap_inj_in _ _ _ _ Hnd Hy Hrow Hid).
  - intros [->|[Hx Hne]]; [exists row; by rewrite bool_decide_eq_true_2|]. exists x. by rewrite bool_decide_eq_false_2.
Qed.

Lemma edit_delivery_run row f s :
  edit_delivery row f s = (Ok tt, put_db (set_deliveries (edited row f (deliveries_of (st_db s))) (st_db s)) s).
Proof. done. Qed.

(** The row may be attempted. *)
Definition attemptable (row : Delivery) (s : store) : Prop :=
  row ∈ deliveries_of (st_db s) ∧ wd_status row ≠ DELIVERED ∧ wd_attempt row < attempt_bound max_retries.

Lemma edit_keeps row f s :
  attemptable row s → later_delivery row (f row) → delivery_fits max_retries (f row) → ok (st_db s) →
  let s' := (edit_delivery row f s).2 in
  ok (st_db s') ∧ events_later (st_db s) (st_db s') ∧
  ∀ d, d ∈ deliveries_of (st_db s) → wd_id d ≠ wd_id row → d ∈ deliveries_of (st_db s').
Proof.
  intros (Hrow & _) Hl Hf [A1 A2 A3 A4 A5 A6 A7]. rewrite edit_delivery_run. cbn zeta.
  assert (Hin : ∀ x, x ∈ edited row f (deliveries_of (st_db s)) ↔
    x = f row ∨ x ∈ deliveries_of (st_db s) ∧ wd_id x ≠ wd_id row) by (intros x; by apply edited_elem).
  pose proof Hl as (Hid & Hev & Hep & _).
  split; [split; try done|split; [split; try done|]].
  - change (NoDup (wd_id <$> edited row f (deliveries_of (st_db s)))). unfold edited. rewrite <-list_fmap_compose.
    rewrite (list_fmap_ext _ wd_id); [done|]. intros _ x Hx%list_elem_of_lookup_2. unfold by_delivery. simpl.
    case_bool_decide as Hx'; [|done]. rewrite (NoDup_fmap_inj_in _ _ _ _ A4 Hx Hrow Hx'). done.
  - intros x [->|[Hx _]]%Hin; [rewrite Hev|]; by apply A5.
  - intros x [->|[Hx _]]%Hin; [rewrite Hep|]; by apply A6.
  - intros x [->|[Hx _]]%Hin; [done|by apply A7].
  - apply grown_fmap. intros x Hx. unfold by_delivery. case_bool_decide as Hx'; [|reflexivity].
    by rewrite (NoDup_fmap_inj_in _ _ _ _ A4 Hx Hrow Hx').
  - intros d Hd Hne. apply Hin. by right.
Qed.

Context (transport : DeliveryTransport) (webhook_key : option string) (exc_text : exn → string).

#[local] Abbreviation attempt := (_attempt_delivery transport webhook_key exc_text).

(** What the answer of the transport makes of the row. *)
Definition answered (row : Delivery) (a : outcome (Z * string)) : Delivery → Delivery :=
  match a with
  | Ok x => delivery_answered (status_of x.1) (S (wd_attempt row)) x.1 x.2
  | Raise e => delivery_failed (S (wd_attempt row)) (exc_text e)
  end.

Definition attempt_status (a : outcome (Z * string)) : DeliveryStatus :=
  match a with Ok x => status_of x.1 | Raise _ => DELIVERY_FAILED end.

(** The record of an attempt on [row]. *)
Definition attempt_of (row : Delivery) (st : DeliveryStatus) (x : DeliveryAttempt) : Prop :=
  da_event x = wd_event row ∧ da_endpoint x = wd_endpoint row ∧ da_subscription x = wd_subscription row ∧
  da_number x = S (wd_attempt row) ∧ da_status x = st.

(** After the transport has answered. *)
Definition settled_in (row : Delivery) (a : outcome (Z * string)) (s : store) : store :=
  put_db (set_deliveries (edited row (answered row a) (deliveries_of (st_db s))) (st_db s)) (put_next (S (st_next s)) s).

Lemma fetch_known {R} (tbl : tables → list R) (p : R → bool) x s :
  x ∈ tbl (st_db s) → p x = true → ∃ y, fetch_one tbl p s = (Ok (Some y), s) ∧ y ∈ tbl (st_db s) ∧ p y = true.
Proof.
  intros Hx Hp. destruct (fetch_one tbl p s) as [r s1] eqn:Hf.
  assert (Hr : ∃ o, r = Ok o) by (unfold fetch_one in Hf; injection Hf as <- _; by eexists). destruct Hr as [o ->].
  apply fetch_one_ok in Hf as [-> Hf]. destruct o as [y|]; [|by rewrite (Hf x Hx) in Hp]. exists y. by destruct Hf.
Qed.

Lemma attempt_run row s :
  wd_event row ∈ ev_id <$> events_of (st_db s) → wd_endpoint row ∈ wh_id <$> endpoints_of (st_db s) →
  ∃ ev stored, ev ∈ events_of (st_db s) ∧ ev_id ev = wd_event row ∧
    stored ∈ endpoints_of (st_db s) ∧ wh_id stored = wd_endpoint row ∧
    match (decrypted webhook_key stored s).1 with
    | Raise e => attempt row s = (Raise e, s)
    | Ok wh => ∃ x, attempt_of row (attempt_status (transport wh ev s).1) x ∧
        attempt row s = (Ok x, settled_in row (transport wh ev s).1 (transport wh ev s).2)
    end.
Proof.
  intros (ev0 & Hev0 & Hevin)%list_elem_of_fmap (w0 & Hw0 & Hwin)%list_elem_of_fmap.
  destruct (fetch_known (n_table n_events) (by_event (wd_event row)) ev0 s) as (ev & Hev & Hein & Heid);
    [done|by apply bool_decide_eq_true_2|].
  destruct (fetch_known (n_table n_endpoints) (by_endpoint (wd_endpoint row)) w0 s) as (stored & Hst & Hsin & Hsid);
    [done|by apply bool_decide_eq_true_2|].
  apply bool_decide_eq_true_1 in Heid, Hsid. exists ev, stored. split_and!; [done..|].
  unfold _attempt_delivery. rewrite !(run_bind_ok _ _ _ _ _ Hev), !(run_bind_ok _ _ _ _ _ Hst).
  pose proof (decrypted_reads webhook_key stored s) as Hreads.
  destruct (decrypted webhook_key stored s) as [[wh|e] s1] eqn:Hdec; simpl in Hreads; subst s1; cbn [fst]; last first.
  { by rewrite run_bind, Hdec. }
  rewrite (run_bind_ok _ _ _ _ _ Hdec), run_bind. unfold try, deliver. rewrite run_bind.
  destruct (transport wh ev s) as [[[code body]|e] s1]; cbn [fst snd]; (eexists; split; [|reflexivity]); by split_and!.
Qed.

Lemma attempt_keeps row s :
  fair_transport transport → attemptable row s → ok (st_db s) →
  let s' := (attempt row s).2 in
  ok (st_db s') ∧ events_later (st_db s) (st_db s') ∧
  ∀ d, d ∈ deliveries_of (st_db s) → wd_id d ≠ wd_id row → d ∈ deliveries_of (st_db s').
Proof.
  intros Hfair Hrow Hok. pose proof Hrow as (Hin & Hnd & Hlt).
  destruct (attempt_run row s (ek_event _ _ Hok row Hin) (ek_endpoint _ _ Hok row Hin)) as (ev & stored & _ & _ & _ & _ & Hrun).
  destruct (decrypted webhook_key stored s).1 as [wh|e]; [|by rewrite Hrun]. destruct Hrun as (x & _ & ->). cbn [snd].
  destruct (Hfair wh ev s) as [Hk Hpre]. destruct (Hk Hok) as [Hok1 Hl1].
  destruct (transport wh ev s) as [a s1]. cbn [fst snd] in *.
  assert (Hsub : ∀ d, d ∈ deliveries_of (st_db s) → d ∈ deliveries_of (st_db s1)).
  { intros d Hd. destruct Hpre as [k ->]. apply elem_of_app. by left. }
  assert (Hl : later_delivery row (answered row a row)).
  { unfold later_delivery. destruct a as [[code body]|e]; simpl; split_and!; try done; lia. }
  assert (Hf : delivery_fits max_retries (answered row a row)).
  { unfold delivery_fits. destruct a as [[code body]|e]; simpl; (split; [lia|]); split_and!; try done.
    - unfold status_of. by destruct (success code).
    - unfold status_of. by destruct (success code).
    - unfold status_of. destruct (success code) eqn:Hsc; [|done]. intros _. by exists code. }
  pose proof (edit_keeps row (answered row a) s1 ltac:(split; auto) Hl Hf Hok1) as (H1 & H2 & H3).
  rewrite edit_delivery_run in *. split; [exact H1|]. split; [by etrans|]. intros d Hd Hne. apply H3; auto.
Qed.

(** A loop over rows that may be attempted: the body edits nothing but its row. *)
Lemma rows_keep {X} (rows : list Delivery) (body : X → Delivery → lp X) acc s :
  (∀ acc row s, row ∈ rows → attemptable row s → ok (st_db s) → let s' := (body acc row s).2 in
    ok (st_db s') ∧ events_later (st_db s) (st_db s') ∧
    ∀ d, d ∈ deliveries_of (st_db s) → wd_id d ≠ wd_id row → d ∈ deliveries_of (st_db s')) →
  NoDup (wd_id <$> rows) → (∀ row, row ∈ rows → attemptable row s) → ekeeps (for_fold rows acc body) s.
Proof.
  revert acc s. induction rows as [|row rows IH]; intros acc s Hbody Hnd Hrows Hok; [done|].
  rewrite fmap_cons in Hnd. apply NoDup_cons in Hnd as [Hnew Hnd]. cbn [for_fold]. rewrite run_bind.
  destruct (Hbody acc row s ltac:(left) (Hrows row ltac:(left)) Hok) as (H1 & H2 & H3).
  destruct (body acc row s) as [[acc'|e] s1]; [|done]. cbn [snd] in *.
  destruct (IH acc' s1) with (4 := H1) as [H4 H5]; [by intros; apply Hbody; [right|..]|done| |split; [done|by etrans]].
  intros r Hr. destruct (Hrows r ltac:(by right)) as (Hin & ?). split; [|done]. apply H3; [done|].
  intros Heq. apply Hnew. rewrite <-Heq. by apply list_elem_of_fmap_2.
Qed.

(** The rows that a round takes. *)
Lemma round_rows p leb (s : store) :
  let rows := sort_by leb (scan (filter (λ r, p r = true) (deliveries_of (st_db s)))) in
  ok (st_db s) → NoDup (wd_id <$> rows) ∧ ∀ row, row ∈ rows ↔ row ∈ deliveries_of (st_db s) ∧ p row = true.
Proof.
  intros rows Hok.
  assert (Hperm : rows ≡ₚ filter (λ r, p r = true) (deliveries_of (st_db s))).
  { unfold rows. by rewrite sort_by_perm, scan_perm. }
  split.
  - rewrite Hperm. apply NoDup_fmap_filter, (ek_deliveries _ _ Hok).
  - intros row. rewrite Hperm, list_elem_of_filter. tauto.
Qed.

Lemma ekeeps_deliver_pending s : fair_transport transport → ekeeps (deliver_pending transport webhook_key exc_text) s.
Proof.
  intros Hfair Hok. unfold deliver_pending, select_sorted. rewrite run_bind. cbn.
  destruct (round_rows (delivery_in DELIVERY_PENDING) oldest_delivery s Hok) as [Hnd Hrows].
  apply rows_keep; [|done| |done].
  - intros acc row s1 _ Hrow Hok1. rewrite run_bind. pose proof (attempt_keeps row s1 Hfair Hrow Hok1) as H.
    destruct (attempt row s1) as [[x|e] s2]; done.
  - intros row [Hin Hst%bool_decide_eq_true_1]%Hrows. split; [done|]. rewrite Hst. split; [done|].
    destruct (ek_fits _ _ Hok row Hin) as (_ & Hz & _). apply Hz in Hst as ->. unfold attempt_bound. lia.
Qed.

Lemma retrying_keeps row s :
  attemptable row s → 1 ≤ wd_attempt row → ok (st_db s) →
  let s' := (edit_delivery row delivery_retrying s).2 in
  ok (st_db s') ∧ events_later (st_db s) (st_db s') ∧ attemptable (delivery_retrying row) s' ∧
  ∀ d, d ∈ deliveries_of (st_db s) → wd_id d ≠ wd_id row → d ∈ deliveries_of (st_db s').
Proof.
  intros Hrow Hge Hok. pose proof Hrow as (Hin & Hst & Hlt).
  destruct (edit_keeps row delivery_retrying s Hrow) as (H1 & H2 & H3); [| |done|].
  { unfold later_delivery. by split_and!. }
  { unfold delivery_fits. simpl. split; [lia|]. split; [|by split]. split; [done|lia]. }
  split; [done|]. split; [done|]. split; [|done]. split; [|done]. rewrite edit_delivery_run.
  apply edited_elem; [apply (ek_deliveries _ _ Hok)|done|by left].
Qed.

Lemma ekeeps_retry_failed backoff s :
  fair_transport transport → ekeeps (retry_failed transport max_retries webhook_key exc_text backoff) s.
Proof.
  intros Hfair Hok. unfold retry_failed, select_sorted. rewrite !run_bind. cbn.
  destruct (round_rows (may_retry max_retries) oldest_delivery s Hok) as [Hnd Hrows].
  assert (Hfailed : ∀ row, row ∈ deliveries_of (st_db s) → may_retry max_retries row = true →
    wd_status row = DELIVERY_FAILED ∧ wd_attempt row < attempt_bound max_retries).
  { intros row _ [Hf%bool_decide_eq_true_1 Hlt%Nat.ltb_lt]%andb_true_iff. split; [done|]. unfold attempt_bound. lia. }
  apply rows_keep; [|done| |done].
  - intros acc row s1 Hin Hrow Hok1. destruct (backed_off _ _ _); [by split_and!|].
    apply Hrows in Hin as [Hin [Hst _]%Hfailed]; [|done].
    assert (Hge : 1 ≤ wd_attempt row).
    { destruct (ek_fits _ _ Hok row Hin) as (_ & Hz & _). destruct (wd_attempt row); [|lia]. by rewrite (proj2 Hz) in Hst. }
    destruct (retrying_keeps row s1 Hrow Hge Hok1) as (H1 & H2 & H3 & H4).
    rewrite run_bind, edit_delivery_run in *. cbn [snd] in *.
    pose proof (attempt_keeps (delivery_retrying row) _ Hfair H3 H1) as (H5 & H6 & H7). rewrite run_bind.
    destruct (attempt (delivery_retrying row) _) as [[x|e] s2]; cbn [snd] in *;
      (split; [done|]; split; [by etrans|]; intros d Hd Hne; apply H7; [by apply H4|done]).
  - intros row [Hin Hm]%Hrows. destruct (Hfailed row Hin Hm) as [Hst Hlt]. split; [done|]. by rewrite Hst.
Qed.


End Invariant.

(** ** Reachability *)

Section Reachable.
Context `{host : !Host} `{sink : !AuditSink} `{registry : !AutoRegister} `{fernet : !Fernet}.
Context (known_principal : string → bool) (max_retries : nat) (webhook_key : option string) (exc_text : exn → string).

Inductive event_op :=
  | EEmit (bus : listeners) (type : EventType) (actor target_type target : string) (scope : option string)
      (data : option jdict) (source : option string)
  | ECreateWebhook (name url owner : string) (config : option jdict) (scope : option string)
  | EDeleteWebhook (id principal : string)
  | ECreateSubscription (name owner : string) (types targets : option (list string)) (scope endpoint : option string)
  | EDeleteSubscription (id principal : string)
  | EDeliver (transport : DeliveryTransport)
  | ERetry (transport : DeliveryTransport) (backoff : Z).

Definition run_event_op (op : event_op) : lp unit :=
  match op with
  | EEmit bus type actor tty target scope data source => emit bus type actor tty target scope data source ;; mret tt
  | ECreateWebhook name url owner config scope =>
      create_webhook known_principal webhook_key name url owner config scope ;; mret tt
  | EDeleteWebhook id principal => delete_webhook webhook_key id principal
  | ECreateSubscription name owner types targets scope endpoint =>
      create_subscription known_principal name owner types targets scope endpoint ;; mret tt
  | EDeleteSubscription id principal => delete_subscription id principal
  | EDeliver transport => deliver_pending transport webhook_key exc_text ;; mret tt
  | ERetry transport backoff => retry_failed transport max_retries webhook_key exc_text backoff ;; mret tt
  end.

(** Listeners may do anything that keeps the layer sound, a transport must not
    edit queued deliveries. *)
Definition fair_event_op (op : event_op) : Prop :=
  match op with
  | EEmit bus _ _ _ _ _ _ _ => fair_bus max_retries bus
  | EDeliver transport | ERetry transport _ => fair_transport max_retries transport
  | _ => True
  end.

Inductive event_step : relation store :=
  | event_step_op op s : fair_event_op op → event_step s (run_event_op op s).2
  | event_step_other s s' : same_events s s' → event_step s s'.

Lemma run_event_op_keeps op s :
  fair_event_op op → keeps (events_ok max_retries) events_later (run_event_op op) s.
Proof.
  intros Hf. destruct op; cbn [run_event_op];
    try (apply keeps_bind; [exact _| |intros; apply ekeeps_ret]).
  - by apply ekeeps_emit.
  - apply ekeeps_create_webhook.
  - apply ekeeps_delete_webhook.
  - apply ekeeps_create_subscription.
  - apply ekeeps_delete_subscription.
  - by apply ekeeps_deliver_pending.
  - by apply ekeeps_retry_failed.
Qed.

(** C26: The events layer stays sound whatever is called, on every exit: ids are
    unique, deliveries belong to stored events and endpoints, one is pending
    exactly before its first attempt, delivered only with a 2xx answer, and never
    attempted more often than the retries allow; events are never changed or
    lost, subscriptions and endpoints only archived, and a delivered row is final. *)
Theorem events_reachable_ok s s' :
  events_ok max_retries (st_db s) → rtc event_step s s' →
  events_ok max_retries (st_db s') ∧ events_later (st_db s) (st_db s').
Proof.
  intros Hok Hsteps. induction Hsteps as [s|s1 s2 s3 Hstep _ IH]; [done|].
  assert (H2 : events_ok max_retries (st_db s2) ∧ events_later (st_db s1) (st_db s2)).
  { destruct Hstep as [op s1 Hf|s1 s2 Hsame]; [by apply run_event_op_keeps|].
    by apply (ekeeps_same max_retries (λ _, (Ok tt, s2)) s1 Hsame). }
  destruct H2 as [Hok2 H12]. destruct (IH Hok2) as [Hok3 H23]. split; [done|]. by etrans.
Qed.
End Reachable.

(** ** Emitting *)

Section Emit.
Context `{host : !Host} `{sink : !AuditSink}.

(** The deliveries that an event needs. *)
Definition wanted (e : Event) (subs : list EventSubscription) : list (string * string) :=
  (λ sb, (sb_id sb, default "" (sb_endpoint sb))) <$>
    filter (λ sb, given_str (sb_endpoint sb) = true) (filter (λ sb, matches sb e = true) subs).

Definition queued_for (e : Event) (s : store) (d : Delivery) : Prop :=
  wd_event d = ev_id e ∧ wd_status d = DELIVERY_PENDING ∧ wd_attempt d = 0 ∧ wd_at d = st_now s.

(** What stays while deliveries are queued. *)
Definition queueing (s s' : store) : Prop :=
  set_deliveries [] (st_db s') = set_deliveries [] (st_db s) ∧ st_now s' = st_now s.

Lemma queue_ok e subs s u s' :
  for_each subs (queue_matched e) s = (Ok u, s') →
  queueing s s' ∧ ∃ ds, deliveries_of (st_db s') = deliveries_of (st_db s) ++ ds ∧
    (λ d, (wd_subscription d, wd_endpoint d)) <$> ds =
      (λ sb, (sb_id sb, default "" (sb_endpoint sb))) <$> filter (λ sb, given_str (sb_endpoint sb) = true) subs ∧
    Forall (queued_for e s) ds.
Proof.
  revert s. induction subs as [|sb subs IH]; intros s; cbn [for_each].
  { intros [_ ->]%mret_ok. split; [done|]. exists []. by rewrite app_nil_r. }
  intros H. apply bind_ok_inv in H as ([] & s1 & H1 & H). apply IH in H as ([Hq Hn] & ds & Hds & Hkeys & Hall).
  unfold queue_matched in H1. rewrite filter_cons. destruct (given_str (sb_endpoint sb)) eqn:Hg.
  - rewrite decide_True by done. unfold _queue_delivery in H1.
    apply bind_ok_inv in H1 as (did & s2 & [-> ->]%generate_id_ok & H1).
    apply bind_ok_inv in H1 as (ts & s3 & [-> ->]%now_utc_ok & H1).
    match type of H1 with insert_delivery ?x _ = _ => set (d := x) in * end.
    destruct (insert_delivery_cases d (put_next (S (st_next s)) s)) as [[ex Hex]|(Hrun & _)]; [congruence|].
    rewrite Hrun in H1. injection H1 as <-. split; [by split|]. exists (d :: ds). split_and!.
    + etrans; [exact Hds|]. exact (eq_sym (app_assoc _ [d] ds)).
    + by rewrite !fmap_cons, Hkeys.
    + by constructor.
  - rewrite decide_False by congruence. apply mret_ok in H1 as [_ ->]. split; [done|]. by exists ds.
Qed.

Lemma queueing_events s s' : queueing s s' →
  events_of (st_db s') = events_of (st_db s) ∧ subscriptions_of (st_db s') = subscriptions_of (st_db s) ∧
  endpoints_of (st_db s') = endpoints_of (st_db s).
Proof.
  intros [H _]. unfold events_of, subscriptions_of, endpoints_of.
  assert (He : eventing (set_deliveries [] (st_db s')) = eventing (set_deliveries [] (st_db s))) by by rewrite H.
  injection He as H1 H2 H3. done.
Qed.

(** A listener that leaves the layer alone. *)
Definition quiet_listener (l : EventListener) : Prop := ∀ e s, same_events s (ln_call l e s).2.

Lemma run_listeners_same ls e s :
  (∀ l, l ∈ ls → quiet_listener l) → same_events s (for_each ls (λ l, ln_call l e) s).2.
Proof.
  intros H. revert s. induction ls as [|l ls IH]; intros s; [done|]. cbn [for_each]. rewrite run_bind.
  pose proof (H l ltac:(left) e s) as H1. destruct (ln_call l e s) as [[[]|ex] s1]; [|done].
  etrans; [exact H1|]. apply IH. intros x Hx. apply H. by right.
Qed.

Lemma for_each_app {X} (l k : list X) (f : X → lp unit) s1 s2 s3 :
  for_each l f s1 = (Ok tt, s2) → for_each k f s2 = (Ok tt, s3) → for_each (l ++ k) f s1 = (Ok tt, s3).
Proof.
  revert s1. induction l as [|x l IH]; intros s1; cbn [for_each app]; [by intros [_ ->]%mret_ok|].
  intros H Hk. apply bind_ok_inv in H as ([] & s4 & Hx & H). rewrite (run_bind_ok _ _ _ _ _ Hx). by apply IH.
Qed.

(** C27: An emission that returns stored the event and queued exactly one pending
    delivery for each active subscription that matches it and names an endpoint,
    before it called the listeners of the type and then the wildcard ones, in
    their order; listeners that leave the layer alone find, and leave, exactly
    these rows. *)
Theorem emit_exact bus type actor tty target scope data source s e s' :
  (∀ k l x, (k, l) ∈ bus → x ∈ l → quiet_listener x) →
  emit bus type actor tty target scope data source s = (Ok e, s') →
  (ev_type e = type ∧ ev_actor e = actor ∧ ev_target_type e = tty ∧ ev_target e = target ∧ ev_scope e = scope ∧
    ev_data e = default [] data ∧ ev_source e = source ∧ ev_at e = st_now s) ∧
  events_of (st_db s') = events_of (st_db s) ++ [e] ∧
  subscriptions_of (st_db s') = subscriptions_of (st_db s) ∧ endpoints_of (st_db s') = endpoints_of (st_db s) ∧
  (∃ ds, deliveries_of (st_db s') = deliveries_of (st_db s) ++ ds ∧ Forall (queued_for e s) ds ∧
    (λ d, (wd_subscription d, wd_endpoint d)) <$> ds ≡ₚ
      wanted e (filter (λ sb, sb_lifecycle sb = ACTIVE) (subscriptions_of (st_db s)))) ∧
  ∃ s1 s2, for_each (listeners_of bus (event_type_value type) ++ listeners_of bus _WILDCARD) (λ l, ln_call l e) s1 =
    (Ok tt, s2) ∧ eventing (st_db s1) = eventing (st_db s').
Proof.
  intros Hbus H. unfold emit in H. apply bind_ok_inv in H as (eid & s1 & [-> ->]%generate_id_ok & H).
  apply bind_ok_inv in H as (ts & s1 & [-> ->]%now_utc_ok & H). cbv zeta in H.
  match type of H with context [_persist_event ?x] => set (ev := x) in * end.
  apply bind_ok_inv in H as (u1 & s1 & [_ ->]%sql_insert_ok & H).
  match type of H with mbind _ _ ?x = _ => set (s1 := x) in * end.
  apply bind_ok_inv in H as (matched & s2 & Hmatched & H).
  apply bind_ok_inv in H as (u2 & s3 & [Hq (ds & Hds & Hkeys & Hall)]%queue_ok & H).
  apply bind_ok_inv in H as ([] & s4 & Htyped & H). apply bind_ok_inv in H as ([] & s5 & Hwild & H).
  apply bind_ok_inv in H as (u3 & s6 & Haudit & H). apply mret_ok in H as [-> ->].
  unfold _match_subscriptions in Hmatched. apply bind_ok_inv in Hmatched as (subs & s7 & Hsubs & Hmatched).
  apply mret_ok in Hmatched as [-> ->]. unfold select in Hsubs. apply gets_ok in Hsubs as [-> ->].
  pose proof (run_listeners_same (listeners_of bus (event_type_value type)) ev s3) as L1.
  pose proof (run_listeners_same (listeners_of bus _WILDCARD) ev s4) as L2.
  rewrite Htyped in L1. rewrite Hwild in L2. cbn [snd] in *.
  assert (L1' : same_events s3 s4) by (apply L1; intros l Hl; exact (bus_listener quiet_listener _ _ _ Hl Hbus)). clear L1.
  assert (L2' : same_events s4 s5) by (apply L2; intros l Hl; exact (bus_listener quiet_listener _ _ _ Hl Hbus)). clear L2.
  assert (L3 : same_events s5 s6).
  { match type of Haudit with audit_quietly ?q _ = _ => pose proof (audit_quietly_events q s5) as L3 end.
    by rewrite Haudit in L3. }
  assert (L : same_events s3 s6) by (etrans; [exact L1'|]; by etrans).
  apply queueing_events in Hq as Hq'. destruct Hq' as (Q1 & Q2 & Q3). unfold same_events in L.
  unfold events_of, subscriptions_of, endpoints_of, deliveries_of in *. rewrite L.
  split; [by split_and!|]. split; [exact Q1|]. split; [exact Q2|]. split; [exact Q3|]. split.
  - exists ds. split; [done|]. split; [done|]. rewrite Hkeys. unfold wanted. apply fmap_Permutation.
    do 2 apply filter_Permutation. rewrite scan_perm. apply reflexive_eq, list_filter_iff. intros sb.
    apply bool_decide_eq_true.
  - exists s3, s5. split; [by eapply for_each_app|done].
Qed.

Lemma new_id_run s : generate_id s = (Ok (id_of (st_next s)), put_next (S (st_next s)) s).
Proof. done. Qed.

Lemma new_time_run s : now_utc s = (Ok (st_now s), s).
Proof. done. Qed.

Lemma queue_one_cases e sb s :
  (∃ ex s', queue_matched e sb s = (Raise ex, s') ∧ queueing s s') ∨
  ∃ s', queue_matched e sb s = (Ok tt, s') ∧ queueing s s' ∧
    (given_str (sb_endpoint sb) = true → default "" (sb_endpoint sb) ∈ wh_id <$> endpoints_of (st_db s)).
Proof.
  unfold queue_matched. destruct (given_str _); [|right; by exists s].
  unfold _queue_delivery. rewrite (run_bind_ok _ _ _ _ _ (new_id_run s)).
  rewrite (run_bind_ok _ _ _ _ _ (new_time_run (put_next (S (st_next s)) s))).
  match goal with |- context [insert_delivery ?x ?t] => destruct (insert_delivery_cases x t) as [[ex ->]|(-> & _ & Hin & _)] end.
  - left. by eexists _, _.
  - right. eexists. split; [done|]. split; [by split|]. done.
Qed.

Lemma queue_unknown e subs sb s :
  sb ∈ subs → given_str (sb_endpoint sb) = true → default "" (sb_endpoint sb) ∉ wh_id <$> endpoints_of (st_db s) →
  ∃ ex s', for_each subs (queue_matched e) s = (Raise ex, s') ∧ queueing s s'.
Proof.
  revert s. induction subs as [|x subs IH]; intros s; [by intros ?%elem_of_nil|]. intros Hin Hg Hno. cbn [for_each].
  rewrite run_bind. destruct (queue_one_cases e x s) as [(ex & s1 & -> & Hq)|(s1 & -> & Hq & Hknown)]; [by eexists _, _|].
  apply elem_of_cons in Hin as [->|Hin]; [by destruct Hno; apply Hknown|].
  apply queueing_events in Hq as Hq'. destruct Hq' as (_ & _ & Hend). rewrite <-Hend in Hno.
  destruct (IH s1 Hin Hg Hno) as (ex & s2 & -> & Hq2). exists ex, s2. split; [done|].
  destruct Hq, Hq2. split; congruence.
Qed.

(** One subscription that names an endpoint which does not exist stops the
    bus: every emission that it matches raises, after the event was stored, and
    before any listener is called or anything is audited. *)
Theorem emit_unknown_endpoint bus type actor tty target scope data source sb s :
  id_of (st_next s) ∉ ev_id <$> events_of (st_db s) → sb ∈ subscriptions_of (st_db s) → sb_lifecycle sb = ACTIVE →
  (∀ e, ev_type e = type → ev_target_type e = tty → ev_scope e = scope → matches sb e = true) →
  given_str (sb_endpoint sb) = true → default "" (sb_endpoint sb) ∉ wh_id <$> endpoints_of (st_db s) →
  ∃ ex s' e, emit bus type actor tty target scope data source s = (Raise ex, s') ∧
    set_deliveries [] (st_db s') = set_deliveries [] (set_events (events_of (st_db s) ++ [e]) (st_db s)).
Proof.
  intros Hfresh Hsb Hact Hm Hg Hno. unfold emit. rewrite (run_bind_ok _ _ _ _ _ (new_id_run s)).
  rewrite (run_bind_ok _ _ _ _ _ (new_time_run (put_next (S (st_next s)) s))). cbv zeta.
  match goal with |- context [_persist_event ?x] => set (ev := x) end. set (s0 := put_next (S (st_next s)) s).
  pose proof (sql_insert_run (n_table n_events) set_events (λ a b, bool_decide (ev_id a = ev_id b)) "events.id" ev s0)
    as Hrun.
  rewrite (run_bind_ok _ _ _ _ _ (Hrun ltac:(intros x Hx; apply bool_decide_eq_false_2; intros Heq; apply Hfresh;
    change (id_of (st_next s)) with (ev_id ev); rewrite Heq; by apply list_elem_of_fmap_2))). clear Hrun.
  match goal with |- context [mbind _ _ ?x] => set (s1 := x) end.
  assert (Hmatch : ∃ subs, _match_subscriptions ev s1 = (Ok subs, s1) ∧ sb ∈ subs).
  { eexists. split; [reflexivity|]. apply list_elem_of_filter. split; [by apply Hm|]. rewrite scan_perm.
    apply list_elem_of_filter. split; [by apply bool_decide_eq_true_2|done]. }
  destruct Hmatch as (subs & Hmatch & Hin). rewrite (run_bind_ok _ _ _ _ _ Hmatch).
  destruct (queue_unknown ev subs sb s1 Hin Hg Hno) as (ex & s2 & Hq & [Htab _]). rewrite run_bind, Hq.
  exists ex, s2, ev. split; [done|exact Htab].
Qed.
End Emit.

(** ** Rounds of deliveries *)

Section Rounds.
Context `{host : !Host} `{fernet : !Fernet}.
Context (transport : DeliveryTransport) (max_retries : nat) (webhook_key : option string) (exc_text : exn → string).

(** Fernet's decryption raises nothing but InvalidToken. *)
Definition only_invalid : Prop := ∀ key token e, fernet_decrypt key token = Raise e → e = InvalidToken.

Definition quiet_transport : Prop := ∀ w e s, same_events s (transport w e s).2.

Lemma decrypted_total x s : only_invalid → ∃ c, decrypted webhook_key x s = (Ok c, s).
Proof.
  intros Hinv. unfold decrypted. destruct webhook_key as [key|]; [|by eexists].
  assert (Hfield : ∀ d k, ∃ d', decrypt_field key d k = Ok d').
  { intros d k. unfold decrypt_field. destruct (jget d k) as [[| | | |token| |]|]; try by eexists.
    destruct (fernet_decrypt key token) as [text|e] eqn:Hd; [destruct (json_loads text); by eexists|].
    rewrite (Hinv _ _ _ Hd). by eexists. }
  assert (Hall : ∀ ks d, ∃ d', foldl (λ acc k, result ← acc; decrypt_field key result k) (Ok d) ks = Ok d').
  { intros ks. induction ks as [|k ks IH]; intros d; [by eexists|]. cbn [foldl mbind outcome_bind].
    destruct (Hfield d k) as [d' ->]. apply IH. }
  destruct (Hall _SENSITIVE_KEYS (wh_config x)) as [c Hc]. exists (with_config c x). unfold decrypt_config. rewrite Hc. done.
Qed.

(** The transport was asked about the row's event and endpoint, and answered [a]. *)
Definition asked (evs : list Event) (eps : list WebhookEndpoint) (row : Delivery) (a : outcome (Z * string)) : Prop :=
  ∃ ev stored wh s, ev ∈ evs ∧ ev_id ev = wd_event row ∧ stored ∈ eps ∧ wh_id stored = wd_endpoint row ∧
    (decrypted webhook_key stored s).1 = Ok wh ∧ a = (transport wh ev s).1.

(** One row: the answer, the record of the attempt, and the row afterwards. *)
Definition one_attempt (row : Delivery) (x : DeliveryAttempt) (a : outcome (Z * string)) (s s' : store) : Prop :=
  asked (events_of (st_db s)) (endpoints_of (st_db s)) row a ∧ attempt_of row (attempt_status a) x ∧
  events_of (st_db s') = events_of (st_db s) ∧ endpoints_of (st_db s') = endpoints_of (st_db s) ∧
  subscriptions_of (st_db s') = subscriptions_of (st_db s) ∧
  deliveries_of (st_db s') = edited row (λ _, answered exc_text row a row) (deliveries_of (st_db s)).

Lemma edited_same row f g l :
  NoDup (wd_id <$> l) → row ∈ l → f row = g row → edited row f l = edited row g l.
Proof.
  intros Hnd Hrow Hfg. unfold edited. apply list_fmap_ext. intros _ x Hx%list_elem_of_lookup_2. unfold by_delivery.
  case_bool_decide as Hid; [|done]. by rewrite (NoDup_fmap_inj_in _ _ _ _ Hnd Hx Hrow Hid).
Qed.

Lemma edited_ids row f l : (∀ x, wd_id x = wd_id row → wd_id (f x) = wd_id row) → wd_id <$> edited row f l = wd_id <$> l.
Proof.
  intros Hf. unfold edited. rewrite <-list_fmap_compose. apply list_fmap_ext. intros _ x _. unfold by_delivery. simpl.
  case_bool_decide as Hid; [|done]. by rewrite Hf.
Qed.

Lemma answered_id row a x : wd_id (answered exc_text row a x) = wd_id x.
Proof. by destruct a as [[]|]. Qed.

Lemma attempt_once row s :
  only_invalid → quiet_transport → NoDup (wd_id <$> deliveries_of (st_db s)) → row ∈ deliveries_of (st_db s) →
  wd_event row ∈ ev_id <$> events_of (st_db s) → wd_endpoint row ∈ wh_id <$> endpoints_of (st_db s) →
  ∃ x a s', _attempt_delivery transport webhook_key exc_text row s = (Ok x, s') ∧ one_attempt row x a s s'.
Proof.
  intros Hinv Hquiet Hnd Hrow He Hw.
  destruct (attempt_run transport webhook_key exc_text row s He Hw) as (ev & stored & Hev & Hevid & Hst & Hstid & Hrun).
  destruct (decrypted_total stored s Hinv) as [wh Hdec]. rewrite Hdec in Hrun. cbn [fst] in Hrun.
  destruct Hrun as (x & Hx & Hrun). exists x, (transport wh ev s).1. eexists. split; [exact Hrun|].
  pose proof (Hquiet wh ev s) as Hsame. destruct (transport wh ev s) as [a s1] eqn:Ht. cbn [fst snd] in *.
  assert (Hd : deliveries_of (st_db s1) = deliveries_of (st_db s)) by (unfold deliveries_of; by rewrite Hsame).
  split; [|split; [done|]].
  - exists ev, stored, wh, s. rewrite Hdec, Ht. by split_and!.
  - unfold events_of, endpoints_of, subscriptions_of. simpl. rewrite Hsame. split_and!; [done..|].
    unfold deliveries_of at 1. simpl. rewrite Hd. by apply edited_same.
Qed.

(** A round over [rows]: each was attempted once, nothing else changed. *)
Record round_over (rows : list Delivery) (round : list (Delivery * outcome (Z * string) * DeliveryAttempt))
    (s s' : store) : Prop := {
  ro_rows : (λ y, y.1.1) <$> round = rows;
  ro_attempts : ∀ row a x, (row, a, x) ∈ round →
    asked (events_of (st_db s)) (endpoints_of (st_db s)) row a ∧ attempt_of row (attempt_status a) x ∧
    answered exc_text row a row ∈ deliveries_of (st_db s');
  ro_others : ∀ d, d ∈ deliveries_of (st_db s) → wd_id d ∉ wd_id <$> rows → d ∈ deliveries_of (st_db s');
  ro_ids : wd_id <$> deliveries_of (st_db s') = wd_id <$> deliveries_of (st_db s);
  ro_events : events_of (st_db s') = events_of (st_db s);
  ro_endpoints : endpoints_of (st_db s') = endpoints_of (st_db s);
  ro_subscriptions : subscriptions_of (st_db s') = subscriptions_of (st_db s);
}.

(** A loop whose body makes one attempt at its row. *)
Lemma round_run (body : list DeliveryAttempt → Delivery → lp (list DeliveryAttempt)) rows acc s :
  (∀ acc row s, row ∈ rows → NoDup (wd_id <$> deliveries_of (st_db s)) → row ∈ deliveries_of (st_db s) →
    wd_event row ∈ ev_id <$> events_of (st_db s) → wd_endpoint row ∈ wh_id <$> endpoints_of (st_db s) →
    ∃ x a s', body acc row s = (Ok (acc ++ [x]), s') ∧ one_attempt row x a s s') →
  NoDup (wd_id <$> rows) → NoDup (wd_id <$> deliveries_of (st_db s)) →
  (∀ row, row ∈ rows → row ∈ deliveries_of (st_db s) ∧ wd_event row ∈ ev_id <$> events_of (st_db s) ∧
    wd_endpoint row ∈ wh_id <$> endpoints_of (st_db s)) →
  ∃ round s', for_fold rows acc body s = (Ok (acc ++ (snd <$> round)), s') ∧ round_over rows round s s'.
Proof.
  revert acc s. induction rows as [|row rows IH]; intros acc s Hbody Hndr Hnd Hrows.
  { exists [], s. cbn. rewrite app_nil_r. split; [done|]. split; try done. by intros ? ? ? ?%elem_of_nil. }
  rewrite fmap_cons in Hndr. apply NoDup_cons in Hndr as [Hnew Hndr].
  destruct (Hrows row ltac:(left)) as (Hin & He & Hw).
  destruct (Hbody acc row s ltac:(left) Hnd Hin He Hw) as (x & a & s1 & Hrun & Hask & Hx & E1 & E2 & E3 & E4).
  assert (Hids : wd_id <$> deliveries_of (st_db s1) = wd_id <$> deliveries_of (st_db s)).
  { rewrite E4. apply edited_ids. intros y Hy. apply answered_id. }
  assert (Hkeep : ∀ d, d ∈ deliveries_of (st_db s) → wd_id d ≠ wd_id row → d ∈ deliveries_of (st_db s1)).
  { intros d Hd Hne. rewrite E4. apply edited_elem; [done|done|by right]. }
  destruct (IH (acc ++ [x]) s1) as (round & s2 & Hloop & [Hr Hround Hrest I1 I2 I3 I4]).
  { intros acc' r s' Hr. apply Hbody. by right. }
  { done. }
  { by rewrite Hids. }
  { intros r Hr. destruct (Hrows r ltac:(by right)) as (H1 & H2 & H3). rewrite E1, E2. split_and!; [|done..].
    apply Hkeep; [done|]. intros Heq. apply Hnew. rewrite <-Heq. by apply list_elem_of_fmap_2. }
  exists ((row, a, x) :: round), s2. cbn [for_fold]. rewrite (run_bind_ok _ _ _ _ _ Hrun), Hloop.
  split; [by rewrite fmap_cons, <-app_assoc|]. rewrite E1, E2 in Hround. split; [by rewrite fmap_cons, Hr| | |congruence..].
  - intros r b y [[= -> -> ->]|Hin']%elem_of_cons; [|by apply Hround]. split; [done|]. split; [done|].
    apply Hrest; [rewrite E4; apply edited_elem; [done|done|by left]|]. by rewrite answered_id.
  - intros d Hd [Hne Hno]%not_elem_of_cons. apply Hrest; [by apply Hkeep|done].
Qed.

Lemma edited_twice row f g l :
  (∀ x, wd_id (f x) = wd_id x) → edited row g (edited row f l) = edited row (λ x, g (f x)) l.
Proof.
  intros Hf. unfold edited. rewrite <-list_fmap_compose. apply list_fmap_ext. intros _ x _. unfold by_delivery. simpl.
  destruct (bool_decide (wd_id x = wd_id row)) eqn:Hx; [by rewrite Hf, Hx|by rewrite Hx].
Qed.

Lemma for_fold_skip {X Y} (b : X → bool) (f : Y → X → lp Y) l y s :
  for_fold l y (λ acc x, if b x then mret acc else f acc x) s = for_fold (filter (λ x, b x = false) l) y f s.
Proof.
  revert y s. induction l as [|x l IH]; intros y s; [done|]. cbn [for_fold]. rewrite filter_cons, run_bind.
  destruct (b x); [rewrite decide_False by done; apply IH|]. rewrite decide_True by done. cbn [for_fold].
  rewrite run_bind. destruct (f y x s) as [[y'|e] s1]; [apply IH|done].
Qed.

(** What a round reads is what the invariant knows. *)
Lemma known_row row s :
  events_ok max_retries (st_db s) → row ∈ deliveries_of (st_db s) →
  row ∈ deliveries_of (st_db s) ∧ wd_event row ∈ ev_id <$> events_of (st_db s) ∧
    wd_endpoint row ∈ wh_id <$> endpoints_of (st_db s).
Proof. intros Hok Hrow. split; [done|]. split; [by apply (ek_event _ _ Hok)|by apply (ek_endpoint _ _ Hok)]. Qed.

Lemma oldest_sorted (l : list Delivery) : StronglySorted (leb_rel oldest_delivery) (sort_by oldest_delivery l).
Proof. apply sort_by_sorted; unfold oldest_delivery; intros *; rewrite !Z.leb_le; lia. Qed.

(** Delivering drains what is pending: with a transport that leaves the layer
    alone the round always returns, attempts every pending delivery exactly once,
    oldest first, and afterwards none is pending: each is delivered, with the
    answer, when that was a 2xx status, and failed when it was another or the
    transport raised; no other row changes. *)
Theorem deliver_pending_exact s :
  events_ok max_retries (st_db s) → only_invalid → quiet_transport →
  ∃ round rows s', deliver_pending transport webhook_key exc_text s = (Ok (snd <$> round), s') ∧
    round_over rows round s s' ∧ StronglySorted (leb_rel oldest_delivery) rows ∧
    (∀ row, row ∈ rows ↔ row ∈ deliveries_of (st_db s) ∧ wd_status row = DELIVERY_PENDING) ∧ NoDup (wd_id <$> rows) ∧
    (∀ d, d ∈ deliveries_of (st_db s') → wd_status d ≠ DELIVERY_PENDING).
Proof.
  intros Hok Hinv Hquiet.
  destruct (round_rows max_retries (delivery_in DELIVERY_PENDING) oldest_delivery s Hok) as [Hnd Hrows].
  set (rows := sort_by oldest_delivery _) in *.
  assert (Hin : ∀ row, row ∈ rows ↔ row ∈ deliveries_of (st_db s) ∧ wd_status row = DELIVERY_PENDING).
  { intros row. rewrite Hrows. unfold delivery_in. by rewrite bool_decide_eq_true. }
  destruct (round_run (λ attempts row,
    attempt ← _attempt_delivery transport webhook_key exc_text row; mret (attempts ++ [attempt])) rows [] s)
    as (round & s' & Hrun & Hround); [|done|apply (ek_deliveries _ _ Hok)| |].
  - intros acc row s1 _ Hnd1 H1 H2 H3. destruct (attempt_once row s1 Hinv Hquiet Hnd1 H1 H2 H3) as (x & a & s2 & Hx & H).
    exists x, a, s2. split; [by rewrite (run_bind_ok _ _ _ _ _ Hx)|done].
  - intros row [Hr _]%Hin. by apply known_row.
  - exists round, rows, s'. split; [exact Hrun|]. split; [done|]. split; [apply oldest_sorted|].
    split; [done|]. split; [done|]. intros d Hd. destruct Hround as [R1 R2 R3 R4 _ _ _].
    assert (Hids : NoDup (wd_id <$> deliveries_of (st_db s'))) by (rewrite R4; apply (ek_deliveries _ _ Hok)).
    assert (Hd0 : wd_id d ∈ wd_id <$> deliveries_of (st_db s)) by (rewrite <-R4; by apply list_elem_of_fmap_2).
    destruct (decide (wd_id d ∈ wd_id <$> rows)) as [Hdr|Hdr].
    + apply list_elem_of_fmap in Hdr as (row & Heq & Hr). rewrite <-R1 in Hr.
      apply list_elem_of_fmap in Hr as ([[row' a] x] & -> & Hr). destruct (R2 row' a x Hr) as (_ & _ & Hans).
      rewrite (NoDup_fmap_inj_in _ _ _ _ Hids Hd Hans); [|by rewrite answered_id].
      destruct a as [[code body]|e]; simpl; [|done]. unfold status_of. by destruct (success code).
    + apply list_elem_of_fmap in Hd0 as (d0 & Heq & Hd0). rewrite Heq in Hdr. pose proof (R3 d0 Hd0 Hdr) as Hd1.
      rewrite (NoDup_fmap_inj_in _ _ _ _ Hids Hd Hd1 Heq). intros Hst. apply Hdr, list_elem_of_fmap_2, Hin. done.
Qed.

(** A failed delivery whose turn has come. *)
Definition due_again (backoff now : Z) (d : Delivery) : Prop :=
  wd_status d = DELIVERY_FAILED ∧ wd_attempt d < max_retries ∧
  (micros (backoff * 2 ^ Z.of_nat (wd_attempt d - 1)) ≤ now - wd_at d)%Z.

(** A round of retries attempts exactly the failed deliveries that have retries
    left and whose delay, doubled with every attempt, has passed since they were
    queued, each once, oldest first; it always returns, and no other row changes. *)
Theorem retry_failed_exact backoff s :
  events_ok max_retries (st_db s) → only_invalid → quiet_transport →
  ∃ round rows s', retry_failed transport max_retries webhook_key exc_text backoff s = (Ok (snd <$> round), s') ∧
    round_over rows round s s' ∧ StronglySorted (leb_rel oldest_delivery) rows ∧ NoDup (wd_id <$> rows) ∧
    (∀ row, row ∈ rows ↔ row ∈ deliveries_of (st_db s) ∧ due_again backoff (st_now s) row).
Proof.
  intros Hok Hinv Hquiet. unfold retry_failed.
  destruct (round_rows max_retries (may_retry max_retries) oldest_delivery s Hok) as [Hnd Hrows].
  set (all := sort_by oldest_delivery _) in *. set (rows := filter (λ x, backed_off backoff (st_now s) x = false) all).
  assert (Hin : ∀ row, row ∈ rows ↔ row ∈ deliveries_of (st_db s) ∧ due_again backoff (st_now s) row).
  { intros row. unfold rows. rewrite list_elem_of_filter, Hrows. unfold may_retry, delivery_in, backed_off, due_again.
    rewrite andb_true_iff, bool_decide_eq_true, Nat.ltb_lt, Z.ltb_ge. tauto. }
  assert (Hsub : rows `sublist_of` all) by apply sublist_filter.
  destruct (round_run (λ attempts row, edit_delivery row delivery_retrying ;;
    attempt ← _attempt_delivery transport webhook_key exc_text (delivery_retrying row); mret (attempts ++ [attempt])) rows [] s)
    as (round & s' & Hrun & Hround).
  - intros acc row s1 _ Hnd1 H1 H2 H3. rewrite (run_bind_ok _ _ _ _ _ (edit_delivery_run row delivery_retrying s1)).
    set (s2 := put_db _ s1).
    assert (Hids : wd_id <$> deliveries_of (st_db s2) = wd_id <$> deliveries_of (st_db s1)) by by apply edited_ids.
    destruct (attempt_once (delivery_retrying row) s2 Hinv Hquiet) as (x & a & s3 & Hx & A1 & A2 & A3 & A4 & A5 & A6);
      [by rewrite Hids|by apply edited_elem; [..|left]|done|done|].
    exists x, a, s3. split; [by rewrite (run_bind_ok _ _ _ _ _ Hx)|]. split; [done|]. split; [done|].
    split; [done|]. split; [done|]. split; [done|]. rewrite A6.
    etrans; [by apply (edited_twice row delivery_retrying)|]. apply edited_same; [done..|]. by destruct a as [[]|].
  - eapply sublist_NoDup; [exact Hnd|]. by apply fmap_sublist.
  - apply (ek_deliveries _ _ Hok).
  - intros row [Hr _]%Hin. by apply known_row.
  - exists round, rows, s'. split; [|split; [done|split; [|split; [|done]]]].
    + etrans; [|exact Hrun]. exact (for_fold_skip (backed_off backoff (st_now s)) _ all [] s).
    + eapply sublist_sorted; [exact Hsub|apply oldest_sorted].
    + eapply sublist_NoDup; [exact Hnd|]. by apply fmap_sublist.
Qed.
End Rounds.

(** ** Configurations *)

Section Configs.
Context `{host : !Host} `{sink : !AuditSink} `{registry : !AutoRegister} `{fernet : !Fernet}.
Context (known_principal : string → bool).

Lemma create_webhook_ok key name url owner config scope s wh s1 :
  create_webhook known_principal (Some key) name url owner config scope s = (Ok wh, s1) →
  wh_config wh = default [] config ∧
  endpoints_of (st_db s1) =
    endpoints_of (st_db s) ++ [with_config (encrypt_config (st_next s) (default [] config) key) wh].
Proof.
  unfold create_webhook. cbv zeta. intros H. apply bind_ok_inv in H as (seed & s2 & [-> ->]%gets_ok & H).
  apply bind_ok_inv in H as (wid & s2 & [-> ->]%generate_id_ok & H).
  apply bind_ok_inv in H as (ts & s2 & [-> ->]%now_utc_ok & H).
  apply bind_ok_inv in H as (u & s2 & Hins & H). unfold insert_endpoint in Hins.
  apply bind_ok_inv in Hins as (u2 & s3 & Hr & [_ ->]%sql_insert_ok). destruct u2. apply raise_if_ok in Hr as [_ ->].
  apply bind_ok_inv in H as (u3 & s3 & Hreg & H). apply bind_ok_inv in H as (u4 & s4 & Haud & H).
  apply mret_ok in H as [-> ->]. split; [done|].
  match type of Hreg with swallow (auto_register ?a ?b) ?t = _ => pose proof (auto_register_events a b t) as L1 end.
  rewrite Hreg in L1. match type of Haud with audit_quietly ?q ?t = _ => pose proof (audit_quietly_events q t) as L2 end.
  rewrite Haud in L2. unfold same_events in *. cbn [snd] in *. unfold endpoints_of. by rewrite L2, L1.
Qed.

(** Endpoint configurations survive their encryption: whatever JSON values they
    hold, what a manager with the same key reads back later is what was given,
    while the stored row holds a Fernet token for every sensitive field that has
    a value. *)
Theorem webhook_config_roundtrip key name url owner config scope s wh s1 s2 :
  json_ok (JVdict (default [] config)) = true → fernet_decrypt key "" = Raise InvalidToken →
  create_webhook known_principal (Some key) name url owner config scope s = (Ok wh, s1) →
  endpoints_of (st_db s2) = endpoints_of (st_db s1) → NoDup (wh_id <$> endpoints_of (st_db s2)) →
  wh_config wh = default [] config ∧ get_webhook (Some key) (wh_id wh) s2 = (Ok (Some wh), s2) ∧
  ∃ row, row ∈ endpoints_of (st_db s1) ∧ wh_id row = wh_id wh ∧
    ∀ k v, k ∈ _SENSITIVE_KEYS → jget (wh_config wh) k = Some v → jtruthy v = true →
      ∃ n, jget (wh_config row) k = Some (JVstr (fernet_encrypt key n (json_text v))).
Proof.
  intros Hok Hempty H Hsame Hnd. apply create_webhook_ok in H as [Hcfg Hrows].
  set (row := with_config _ wh) in *.
  assert (Hrow : row ∈ endpoints_of (st_db s1)) by (rewrite Hrows, elem_of_app; right; left).
  split; [done|]. split; [|exists row; split; [done|]; split; [done|]].
  - unfold get_webhook. rewrite <-Hsame in Hrow.
    destruct (fetch_known (n_table n_endpoints) (by_endpoint (wh_id wh)) row s2) as (y & Hy & Hin & Hid%bool_decide_eq_true_1);
      [done|by apply bool_decide_eq_true_2|].
    rewrite (run_bind_ok _ _ _ _ _ Hy). rewrite (NoDup_fmap_inj_in _ _ _ _ Hnd Hin Hrow Hid).
    assert (Hdec : decrypted (Some key) row s2 = (Ok wh, s2)).
    { unfold decrypted, row. cbn [wh_config with_config]. rewrite (decrypt_encrypted key Hempty _ _ Hok). rewrite <-Hcfg.
      by destruct wh. }
    by rewrite (run_bind_ok _ _ _ _ _ Hdec).
  - intros k v Hk Hv Ht. destruct (encrypt_changed key _SENSITIVE_KEYS (st_next s, default [] config) keys_distinct) as [_ Hget].
    specialize (Hget k). cbn [snd] in Hget. rewrite <-Hcfg, Hv, decide_True in Hget by done.
    destruct Hget as (w & Hw & Hseal). unfold sealed_as in Hseal. rewrite Ht in Hseal. destruct Hseal as [n ->].
    exists n. unfold row, encrypt_config. cbn [wh_config with_config]. rewrite Hcfg in Hw. done.
Qed.
End Configs.
