(* ===== verification/Notifications.v ===== *)
(** * Legacy v1: notifications (notifications/)

    Rules that turn events into messages for principals, the messages and their
    status, preferences for channels, and what waits for delivery. *)

From Stdlib Require Import Ascii.
From S2P Require Import Prelude LegacyTypes Schema Json Trail Rules Tenancy Scheduling Environments Events.

Definition m_table {R} (f : notify_tables → list R) (t : tables) : list R := f (notifying t).

(** ** models.py *)

Definition notification_status_value (st : NotificationStatus) : string :=
  match st with UNREAD => "unread" | READ_STATUS => "read" | DISMISSED => "dismissed" end.

Definition channel_value (c : NotificationChannel) : string :=
  match c with
  | IN_APP => "in_app" | EMAIL => "email" | SMS => "sms" | PUSH => "push" | WEBHOOK_CHANNEL => "webhook"
  end.

Definition by_notification (id : string) (x : Notification) : bool := bool_decide (nt_id x = id).
Definition by_notification_rule (id : string) (x : NotificationRule) : bool := bool_decide (nr_id x = id).

(** [_rule_matches]. *)
Definition _rule_matches (rule : NotificationRule) (event : Event) : bool :=
  listed (nr_events rule) (event_type_value (ev_type event)) && listed (nr_targets rule) (ev_target_type event) &&
  from_option (λ sc, bool_decide (ev_scope event = Some sc)) true (nr_scope rule).

(** ** Row edits *)

Definition archived_notification_rule (x : NotificationRule) : NotificationRule := {|
  nr_id := nr_id x; nr_name := nr_name x; nr_owner := nr_owner x; nr_events := nr_events x;
  nr_targets := nr_targets x; nr_scope := nr_scope x; nr_recipients := nr_recipients x; nr_channel := nr_channel x;
  nr_title := nr_title x; nr_body := nr_body x; nr_created_at := nr_created_at x; nr_lifecycle := ARCHIVED |}.

Definition with_status (st : NotificationStatus) (read dismissed : option Z) (x : Notification) : Notification := {|
  nt_id := nt_id x; nt_recipient := nt_recipient x; nt_title := nt_title x; nt_body := nt_body x;
  nt_channel := nt_channel x; nt_status := st; nt_created_at := nt_created_at x; nt_event := nt_event x;
  nt_rule := nt_rule x; nt_scope := nt_scope x; nt_data := nt_data x; nt_read_at := read;
  nt_dismissed_at := dismissed; nt_lifecycle := nt_lifecycle x |}.

Definition read_at_time (ts : Z) (x : Notification) : Notification :=
  with_status READ_STATUS (Some ts) (nt_dismissed_at x) x.
Definition dismissed_at_time (ts : Z) (x : Notification) : Notification :=
  with_status DISMISSED (nt_read_at x) (Some ts) x.

Definition set_preference_row (enabled : bool) (l : Lifecycle) (x : NotificationPreference) : NotificationPreference := {|
  np_id := np_id x; np_principal := np_principal x; np_channel := np_channel x; np_enabled := enabled;
  np_created_at := np_created_at x; np_lifecycle := l |}.

(** ** str.format

    A template is text with replacement fields; doubled braces stand for
    themselves. *)

Inductive field_scan :=
  | FieldName (name rest : string)
  | FieldOther
  | FieldError (msg : string).

(** A field, after its opening brace. *)
Fixpoint scan_field (s : string) : field_scan :=
  match s with
  | EmptyString => FieldError "expected '}' before end of string"
  | String c s' =>
      if bool_decide (c = "}"%char) then FieldName EmptyString s'
      else if bool_decide (c = "{"%char) then FieldError "unexpected '{' in field name"
      else if bool_decide (c ∈ ["."%char; "["%char; "!"%char; ":"%char]) then FieldOther
      else match scan_field s' with FieldName n r => FieldName (String c n) r | x => x end
  end.

(** The index that an empty or numeric name stands for. *)
Fixpoint field_index (acc : Z) (s : string) : option Z :=
  match s with
  | EmptyString => Some acc
  | String c s' => match digit c with Some d => field_index (10 * acc + d)%Z s' | None => None end
  end.

(** There are no positional arguments. *)
Definition field_value (values : list (string * string)) (name : string) : outcome string :=
  match field_index 0 name with
  | Some n =>
      if (2 ^ 63 - 1 <? n)%Z then Raise (ValueError "Too many decimal digits in format string")
      else Raise (IndexError ("Replacement index " +:+ pretty n +:+ " out of range for positional args tuple"))
  | None =>
      match find (λ x, bool_decide (x.1 = name)) values with
      | Some x => Ok x.2
      | None => Raise (KeyError name)
      end
  end.

Section Format.
Context (values : list (string * string)).
(** A field with an attribute, an index, a conversion or a specification: the
    text it gives, and the rest of the template, which is shorter. *)
Context (format_rest : string → outcome (string * string)).

(** Every turn takes a character at least; [fuel] is the length of the template. *)
Fixpoint format_from (fuel : nat) (s : string) : outcome string :=
  match fuel with
  | O => Ok EmptyString
  | S fuel' =>
      match s with
      | EmptyString => Ok EmptyString
      | String "{" EmptyString => Raise (ValueError "Single '{' encountered in format string")
      | String "{" (String "{" s') => String "{" <$> format_from fuel' s'
      | String "{" s' =>
          match scan_field s' with
          | FieldName n r => t ← field_value values n; String.append t <$> format_from fuel' r
          | FieldOther => x ← format_rest s'; String.append x.1 <$> format_from fuel' x.2
          | FieldError msg => Raise (ValueError msg)
          end
      | String "}" (String "}" s') => String "}" <$> format_from fuel' s'
      | String "}" _ => Raise (ValueError "Single '}' encountered in format string")
      | String c s' => String c <$> format_from fuel' s'
      end
  end.

Definition format (template : string) : outcome string := format_from (String.length template) template.
End Format.

Section Notifications.
Context `{host : !Host} `{sink : !AuditSink} `{registry : !AutoRegister}.
Context (known_principal : string → bool).

(** What a field that is not just a name comes to (str's own attributes and
    format specifications). *)
Context (format_rest : list (string * string) → string → outcome (string * string)).

(** ** NotificationEngine (engine.py) *)

(** *** Rules *)

Definition insert_notification_rule (x : NotificationRule) : lp unit :=
  raise_if (negb (known_principal (nr_owner x))) (IntegrityError "notification_rules.owner_id") ;;
  sql_insert (m_table m_rules) set_notification_rules (λ a b, bool_decide (nr_id a = nr_id b)) "notification_rules.id" x.

Definition create_notification_rule (name owner : string) (event_types target_types : option (list string))
  (scope : option string) (recipients : list string) (channel : NotificationChannel)
  (title_template body_template : string) : lp NotificationRule :=
  rid ← generate_id;
  ts ← now_utc;
  let rule := {| nr_id := rid; nr_name := name; nr_owner := owner; nr_events := default [] event_types;
    nr_targets := default [] target_types; nr_scope := scope; nr_recipients := recipients; nr_channel := channel;
    nr_title := title_template; nr_body := body_template; nr_created_at := ts; nr_lifecycle := ACTIVE |} in
  insert_notification_rule rule ;;
  swallow (auto_register ("notification_rule:" +:+ rid) owner) ;;
  audit_quietly (states_req None (Some [("name", JVstr name); ("channel", JVstr (channel_value channel))])
    (request owner ActionType.NOTIFICATION_RULE_CREATE "notification_rule" rid)) ;;
  mret rule.

Definition get_notification_rule (id : string) : lp (option NotificationRule) :=
  fetch_one (m_table m_rules) (by_notification_rule id).

Definition newest_notification_rule (a b : NotificationRule) : bool := (nr_created_at b <=? nr_created_at a)%Z.

Definition list_notification_rules (owner : option string) (active_only : bool) : lp (list NotificationRule) :=
  select_sorted (m_table m_rules) (λ x,
    (negb active_only || bool_decide (nr_lifecycle x = ACTIVE)) && filter_opt owner (nr_owner x))
    newest_notification_rule.

Definition archive_notification_rule (id : string) : lp unit :=
  sql_update (m_table m_rules) set_notification_rules (by_notification_rule id) archived_notification_rule ;;
  audit_quietly (lifecycle_states (request "system" ActionType.LIFECYCLE_CHANGE "notification_rule" id)).

(** *** Notifications *)

Definition insert_notification (x : Notification) : lp unit :=
  sql_insert (m_table m_notifications) set_notifications (λ a b, bool_decide (nt_id a = nt_id b)) "notifications.id" x.

Definition _create_notification (recipient title body : string) (channel : NotificationChannel)
  (event rule scope : option string) (data : option jdict) : lp Notification :=
  ts ← now_utc;
  nid ← generate_id;
  let notification := {| nt_id := nid; nt_recipient := recipient; nt_title := title; nt_body := body;
    nt_channel := channel; nt_status := UNREAD; nt_created_at := ts; nt_event := event; nt_rule := rule;
    nt_scope := scope; nt_data := default [] data; nt_read_at := None; nt_dismissed_at := None;
    nt_lifecycle := ACTIVE |} in
  insert_notification notification ;;
  mret notification.

Definition _match_rules (event : Event) : lp (list NotificationRule) :=
  rules ← select (m_table m_rules) (λ x, bool_decide (nr_lifecycle x = ACTIVE));
  mret (filter (λ r, _rule_matches r event = true) rules).

Definition template_values (event : Event) : list (string * string) := [
  ("event_type", event_type_value (ev_type event)); ("target_type", ev_target_type event);
  ("target_id", ev_target event); ("actor_id", ev_actor event)].

Definition notify (event : Event) (rule : NotificationRule) (recipient : string) : lp Notification :=
  title ← lift (format (template_values event) (format_rest (template_values event)) (nr_title rule));
  body ← lift (format (template_values event) (format_rest (template_values event)) (nr_body rule));
  _create_notification recipient title body (nr_channel rule) (Some (ev_id event)) (Some (nr_id rule))
    (ev_scope event) (Some (ev_data event)).

Definition process_event (event : Event) : lp (list Notification) :=
  rules ← _match_rules event;
  for_fold rules [] (λ acc rule,
    for_fold (nr_recipients rule) acc (λ acc recipient, n ← notify event rule recipient; mret (acc ++ [n]))).

Definition get_notification (id : string) : lp (option Notification) :=
  fetch_one (m_table m_notifications) (by_notification id).

Definition newest_notification (a b : Notification) : bool := (nt_created_at b <=? nt_created_at a)%Z.
Definition oldest_notification (a b : Notification) : bool := (nt_created_at a <=? nt_created_at b)%Z.
Definition notification_active (x : Notification) : bool := bool_decide (nt_lifecycle x = ACTIVE).

Definition list_notifications (recipient : string) (st : option NotificationStatus) (limit : nat)
  : lp (list Notification) :=
  l ← select_sorted (m_table m_notifications) (λ x,
        bool_decide (nt_recipient x = recipient) && notification_active x && filter_opt st (nt_status x))
        newest_notification;
  mret (take limit l).

Definition mark_read (id : string) : lp unit :=
  ts ← now_utc;
  sql_update (m_table m_notifications) set_notifications (by_notification id) (read_at_time ts).

Definition mark_dismissed (id : string) : lp unit :=
  ts ← now_utc;
  sql_update (m_table m_notifications) set_notifications (by_notification id) (dismissed_at_time ts).

Definition count_unread (recipient : string) : lp nat :=
  select_count (m_table m_notifications) (λ x,
    bool_decide (nt_recipient x = recipient) && bool_decide (nt_status x = UNREAD) && notification_active x).

(** ** PreferenceManager (preferences.py) *)

Definition prefers (principal : string) (channel : NotificationChannel) (x : NotificationPreference) : bool :=
  bool_decide (np_principal x = principal) && bool_decide (np_channel x = channel) &&
  bool_decide (np_lifecycle x = ACTIVE).

(** UNIQUE(principal_id, channel), over all rows. *)
Definition preference_clash (a b : NotificationPreference) : bool :=
  bool_decide (np_id a = np_id b) ||
  bool_decide (np_principal a = np_principal b) && bool_decide (np_channel a = np_channel b).
Definition insert_preference (x : NotificationPreference) : lp unit :=
  sql_insert (m_table m_preferences) set_preferences preference_clash "notification_preferences" x.

Definition set_preference (principal : string) (channel : NotificationChannel) (enabled : bool)
  : lp NotificationPreference :=
  existing ← fetch_one (m_table m_preferences) (prefers principal channel);
  match existing with
  | Some row =>
      sql_update (m_table m_preferences) set_preferences (λ x, bool_decide (np_id x = np_id row))
        (λ x, set_preference_row enabled (np_lifecycle x) x) ;;
      mret {| np_id := np_id row; np_principal := principal; np_channel := channel; np_enabled := enabled;
              np_created_at := np_created_at row; np_lifecycle := ACTIVE |}
  | None =>
      pid ← generate_id;
      ts ← now_utc;
      let pref := {| np_id := pid; np_principal := principal; np_channel := channel; np_enabled := enabled;
        np_created_at := ts; np_lifecycle := ACTIVE |} in
      insert_preference pref ;;
      mret pref
  end.

Definition get_preferences (principal : string) : lp (list NotificationPreference) :=
  select (m_table m_preferences) (λ x, bool_decide (np_principal x = principal) && bool_decide (np_lifecycle x = ACTIVE)).

Definition is_channel_enabled (principal : string) (channel : NotificationChannel) : lp bool :=
  row ← fetch_one (m_table m_preferences) (prefers principal channel);
  mret (from_option np_enabled true row).

Definition delete_preference (principal : string) (channel : NotificationChannel) : lp unit :=
  sql_update (m_table m_preferences) set_preferences (prefers principal channel)
    (λ x, set_preference_row (np_enabled x) ARCHIVED x).

(** ** DeliveryManager (delivery.py) *)

Definition awaiting (channel : option NotificationChannel) (x : Notification) : bool :=
  bool_decide (nt_status x = UNREAD) && notification_active x && filter_opt channel (nt_channel x).

Definition get_pending (channel : option NotificationChannel) (limit : nat) : lp (list Notification) :=
  l ← select_sorted (m_table m_notifications) (awaiting channel) oldest_notification;
  mret (take limit l).

Definition mark_delivered (id : string) : lp unit :=
  ts ← now_utc;
  sql_update (m_table m_notifications) set_notifications (by_notification id) (read_at_time ts).

Definition count_pending (channel : option NotificationChannel) : lp nat :=
  select_count (m_table m_notifications) (awaiting channel).
End Notifications.
Definition notifications_of (t : tables) : list Notification := m_notifications (notifying t).
Definition notification_rules_of (t : tables) : list NotificationRule := m_rules (notifying t).
Definition preferences_of (t : tables) : list NotificationPreference := m_preferences (notifying t).

(** ** The invariant *)

Definition preference_key (p : NotificationPreference) : string * NotificationChannel := (np_principal p, np_channel p).

(** The times fit the status. *)
Definition status_fits (n : Notification) : Prop :=
  match nt_status n with
  | UNREAD => nt_read_at n = None ∧ nt_dismissed_at n = None
  | READ_STATUS => is_Some (nt_read_at n)
  | DISMISSED => is_Some (nt_dismissed_at n)
  end.

Record notify_ok (t : tables) : Prop := {
  mk_ids : NoDup (nt_id <$> notifications_of t);
  mk_rules : NoDup (nr_id <$> notification_rules_of t);
  mk_preferences : NoDup (np_id <$> preferences_of t);
  mk_pairs : NoDup (preference_key <$> preferences_of t);
  mk_status : ∀ n, n ∈ notifications_of t → status_fits n;
}.

(** Only the status and its times change, and never back to unread. *)
Definition later_notification (n n' : Notification) : Prop :=
  n' = with_status (nt_status n') (nt_read_at n') (nt_dismissed_at n') n ∧
  (nt_status n ≠ UNREAD → nt_status n' ≠ UNREAD).
Definition later_rule (r r' : NotificationRule) : Prop := r' = r ∨ r' = archived_notification_rule r.
Definition later_preference (p p' : NotificationPreference) : Prop :=
  np_id p' = np_id p ∧ preference_key p' = preference_key p ∧ np_created_at p' = np_created_at p ∧
  (np_lifecycle p = ARCHIVED → p' = p).

#[export] Instance later_notification_preorder : PreOrder later_notification.
Proof.
  split; [intros n; by destruct n|]. intros a b c [Hab Sab] [Hbc Sbc]. split; [|tauto].
  rewrite Hbc, Hab. done.
Qed.

#[export] Instance later_rule_preorder : PreOrder later_rule.
Proof. split; [intros a; by left|]. intros a b c [->| ->] [->| ->]; first [by left|by right]. Qed.

#[export] Instance later_preference_preorder : PreOrder later_preference.
Proof.
  split; [intros p; by split_and!|]. intros a b c (H1 & H2 & H3 & Hab) (H4 & H5 & H6 & Hbc).
  split_and!; try congruence. intros Ha. specialize (Hab Ha) as ->. by apply Hbc.
Qed.

Record notify_later (t t' : tables) : Prop := {
  ml_notifications : grown later_notification (notifications_of t) (notifications_of t');
  ml_rules : grown later_rule (notification_rules_of t) (notification_rules_of t');
  ml_preferences : grown later_preference (preferences_of t) (preferences_of t');
}.

#[export] Instance notify_later_preorder : PreOrder notify_later.
Proof. split; [intros t; by split|]. intros a b c [] []. split; by etrans. Qed.

(** The layer's rows as they were. *)
Definition same_notify : relation store := λ s s', notifying (st_db s') = notifying (st_db s).

#[export] Instance same_notify_preorder : PreOrder same_notify.
Proof. split; [by intros s|]. intros s1 s2 s3 H1 H2. unfold same_notify in *. congruence. Qed.

Lemma layers_notify {R} (m : lp R) : respects same_layers m → respects same_notify m.
Proof. intros H s. unfold same_notify, notifying. by rewrite (H s). Qed.

Section NotifyInvariant.
Context `{host : !Host} `{sink : !AuditSink} `{registry : !AutoRegister}.
Context (known_principal : string → bool).
Context (format_rest : list (string * string) → string → outcome (string * string)).

#[local] Abbreviation nkeeps := (keeps notify_ok notify_later).

Lemma nkeeps_same {R} (m : lp R) s : same_notify s (m s).2 → nkeeps m s.
Proof.
  intros H [A1 A2 A3 A4 A5]. unfold same_notify in H.
  split; [by split; unfold notifications_of, notification_rules_of, preferences_of in *; rewrite H|].
  split; unfold notifications_of, notification_rules_of, preferences_of; by rewrite H.
Qed.

Lemma nkeeps_ret {R} (x : R) s : nkeeps (mret x : lp R) s.
Proof. by apply nkeeps_same. Qed.

Lemma nkeeps_audit q s : nkeeps (audit_quietly q) s.
Proof. apply nkeeps_same. exact (layers_notify _ (audit_layers q) s). Qed.

Lemma nkeeps_register name by_ s : nkeeps (swallow (auto_register name by_)) s.
Proof. apply nkeeps_same. exact (layers_notify _ (respects_layers _ (auto_register_off name by_)) s). Qed.

Lemma nkeeps_create_rule name owner types targets scope recipients channel title body s :
  nkeeps (create_notification_rule known_principal name owner types targets scope recipients channel title body) s.
Proof.
  unfold create_notification_rule. apply keeps_bind; [exact _|by apply nkeeps_same|]. intros rid s1 _.
  apply keeps_bind; [exact _|by apply nkeeps_same|]. intros ts s2 _. cbv zeta.
  match goal with |- context [insert_notification_rule _ ?x] => set (rule := x) end.
  apply keeps_bind; [exact _| |].
  - apply keeps_bind; [exact _|apply keeps_reading; [exact _|apply reads_raise_if]|]. intros _ s3 _ Hok.
    destruct (sql_insert_cases (m_table m_rules) set_notification_rules (λ a b, bool_decide (nr_id a = nr_id b))
      "notification_rules.id" rule s3) as [->|[Hc ->]]; [done|]. destruct Hok as [A1 A2 A3 A4 A5].
    split; [split; try done|split; try done].
    + apply fresh_snoc; [done|]. intros y Hy. specialize (Hc y Hy). by apply bool_decide_eq_false_1 in Hc.
    + by apply grown_app; intros y; left.
  - intros _ s3 _. apply keeps_bind; [exact _|apply nkeeps_register|]. intros _ s4 _.
    apply keeps_bind; [exact _|apply nkeeps_audit|intros; apply nkeeps_ret].
Qed.

Lemma nkeeps_archive_rule id s : nkeeps (archive_notification_rule id) s.
Proof.
  apply keeps_bind; [exact _| |intros; apply nkeeps_audit]. intros [A1 A2 A3 A4 A5].
  split; [split; try done|split; try done].
  - unfold notification_rules_of. simpl. by rewrite update_column.
  - apply grown_fmap. intros x _. destruct (by_notification_rule id x); [by right|by left].
Qed.

Lemma nkeeps_insert n s : status_fits n → nkeeps (insert_notification n) s.
Proof.
  intros Hn Hok. unfold insert_notification.
  destruct (sql_insert_cases (m_table m_notifications) set_notifications (λ a b, bool_decide (nt_id a = nt_id b))
    "notifications.id" n s) as [->|[Hc ->]]; [done|]. destruct Hok as [A1 A2 A3 A4 A5].
  split; [split; try done|split; try done].
  - apply fresh_snoc; [done|]. intros y Hy. specialize (Hc y Hy). by apply bool_decide_eq_false_1 in Hc.
  - intros x [Hx|Hx%list_elem_of_singleton]%elem_of_app; [by apply A5|by subst].
  - apply grown_app. intros x. reflexivity.
Qed.

Lemma nkeeps_create recipient title body channel event rule scope data s :
  nkeeps (_create_notification recipient title body channel event rule scope data) s.
Proof.
  unfold _create_notification. apply keeps_bind; [exact _|by apply nkeeps_same|]. intros ts s1 _.
  apply keeps_bind; [exact _|by apply nkeeps_same|]. intros nid s2 _. cbv zeta.
  apply keeps_bind; [exact _|by apply nkeeps_insert|intros; apply nkeeps_ret].
Qed.

Lemma nkeeps_process event s : nkeeps (process_event format_rest event) s.
Proof.
  unfold process_event. apply keeps_bind; [exact _|by apply nkeeps_same|]. intros rules s1 _.
  apply keeps_for_fold; [exact _|]. intros acc rule s2 _. apply keeps_for_fold; [exact _|]. intros acc' who s3 _.
  apply keeps_bind; [exact _| |intros; apply nkeeps_ret]. unfold notify.
  apply keeps_bind; [exact _|apply keeps_reading; [exact _|apply reads_lift]|]. intros title s4 _.
  apply keeps_bind; [exact _|apply keeps_reading; [exact _|apply reads_lift]|]. intros body s5 _. apply nkeeps_create.
Qed.

(** A change of the status of one notification. *)
Lemma nkeeps_status id (f : Z → Notification → Notification) s :
  (∀ ts x, status_fits (f ts x) ∧ later_notification x (f ts x)) →
  nkeeps (ts ← now_utc; sql_update (m_table m_notifications) set_notifications (by_notification id) (f ts)) s.
Proof.
  intros Hf. apply keeps_bind; [exact _|by apply nkeeps_same|]. intros ts s1 _ [A1 A2 A3 A4 A5].
  split; [split; try done|split; try done].
  - unfold notifications_of. simpl. rewrite update_column; [done|]. intros x.
    destruct (Hf ts x) as [_ [Heq _]]. rewrite Heq. done.
  - intros n (x & -> & Hx)%list_elem_of_fmap. destruct (by_notification id x); [apply Hf|by apply A5].
  - apply grown_fmap. intros x _. destruct (by_notification id x); [apply Hf|reflexivity].
Qed.

Lemma nkeeps_mark_read id s : nkeeps (mark_read id) s.
Proof. apply nkeeps_status. intros ts x. split; [by eexists|]. split; [done|by intros _]. Qed.

Lemma nkeeps_mark_dismissed id s : nkeeps (mark_dismissed id) s.
Proof. apply nkeeps_status. intros ts x. split; [by eexists|]. split; [done|by intros _]. Qed.

Lemma prefers_true principal channel x :
  prefers principal channel x = true ↔ preference_key x = (principal, channel) ∧ np_lifecycle x = ACTIVE.
Proof.
  unfold prefers, preference_key. rewrite !andb_true_iff, !bool_decide_eq_true. split; [|intros [[= -> ->] ->]; done].
  by intros [[-> ->] ->].
Qed.

(** An update of preferences that leaves ids and pairs alone. *)
Lemma nkeeps_preferences p f s :
  (∀ x, np_id (f x) = np_id x ∧ preference_key (f x) = preference_key x ∧ np_created_at (f x) = np_created_at x) →
  (notify_ok (st_db s) → ∀ x, x ∈ preferences_of (st_db s) → p x = true → np_lifecycle x = ACTIVE) →
  nkeeps (sql_update (m_table m_preferences) set_preferences p f) s.
Proof.
  intros Hf Hp Hok. specialize (Hp Hok). destruct Hok as [A1 A2 A3 A4 A5].
  split; [split; try done|split; try done].
  - unfold preferences_of. simpl. rewrite update_column; [done|apply Hf].
  - unfold preferences_of. simpl. rewrite update_column; [done|apply Hf].
  - apply grown_fmap. intros x Hx. destruct (p x) eqn:Hpx; [|reflexivity]. destruct (Hf x) as (H1 & H2 & H3).
    split_and!; [done..|]. intros Har. specialize (Hp x Hx Hpx). congruence.
Qed.

Lemma nkeeps_set_preference principal channel enabled s : nkeeps (set_preference principal channel enabled) s.
Proof.
  unfold set_preference. apply keeps_bind; [exact _|apply keeps_reading; [exact _|apply fetch_one_reads]|].
  intros [row|] s1 Hrow%fetch_one_ok.
  - destruct Hrow as [-> [Hrow [_ Hact]%prefers_true]].
    apply keeps_bind; [exact _| |intros; apply nkeeps_ret]. apply nkeeps_preferences; [done|].
    intros Hok x Hx Hid%bool_decide_eq_true_1. by rewrite (NoDup_fmap_inj_in _ _ _ _ (mk_preferences _ Hok) Hx Hrow Hid).
  - apply keeps_bind; [exact _|by apply nkeeps_same|]. intros pid s2 _.
    apply keeps_bind; [exact _|by apply nkeeps_same|]. intros ts s3 _. cbv zeta.
    apply keeps_bind; [exact _| |intros; apply nkeeps_ret]. intros Hok. unfold insert_preference.
    match goal with |- context [sql_insert ?a ?b ?c ?d ?e] => set (pref := e); destruct (sql_insert_cases a b c d e s3)
      as [Hr|[Hc Hr]]; fold pref in Hr; rewrite Hr end; [done|]. destruct Hok as [A1 A2 A3 A4 A5].
    split; [split; try done|split; try done].
    + apply fresh_snoc; [done|]. intros y Hy. specialize (Hc y Hy). apply orb_false_iff in Hc as [Hc _].
      by apply bool_decide_eq_false_1 in Hc.
    + unfold preferences_of. simpl. rewrite fmap_app. apply NoDup_app. split; [done|]. split; [|apply NoDup_singleton].
      intros k (y & -> & Hy)%list_elem_of_fmap Hk%list_elem_of_singleton. specialize (Hc y Hy).
      apply orb_false_iff in Hc as [_ Hc]. unfold preference_key in Hk. injection Hk as Hk1 Hk2.
      rewrite Hk1, Hk2, !bool_decide_eq_true_2 in Hc by done. done.
    + apply grown_app. intros x. reflexivity.
Qed.

Lemma nkeeps_delete_preference principal channel s : nkeeps (delete_preference principal channel) s.
Proof. apply nkeeps_preferences; [done|]. by intros _ x _ [_ Hact]%prefers_true. Qed.

(** *** Reachability *)

Inductive notify_op :=
  | NCreateRule (name owner : string) (types targets : option (list string)) (scope : option string)
      (recipients : list string) (channel : NotificationChannel) (title body : string)
  | NArchiveRule (id : string)
  | NProcess (event : Event)
  | NMarkRead (id : string)
  | NMarkDismissed (id : string)
  | NSetPreference (principal : string) (channel : NotificationChannel) (enabled : bool)
  | NDeletePreference (principal : string) (channel : NotificationChannel).

Definition run_notify_op (op : notify_op) : lp unit :=
  match op with
  | NCreateRule name owner types targets scope recipients channel title body =>
      create_notification_rule known_principal name owner types targets scope recipients channel title body ;; mret tt
  | NArchiveRule id => archive_notification_rule id
  | NProcess event => process_event format_rest event ;; mret tt
  | NMarkRead id => mark_read id
  | NMarkDismissed id => mark_dismissed id
  | NSetPreference principal channel enabled => set_preference principal channel enabled ;; mret tt
  | NDeletePreference principal channel => delete_preference principal channel
  end.

Inductive notify_step : relation store :=
  | notify_step_op op s : notify_step s (run_notify_op op s).2
  | notify_step_other s s' : same_notify s s' → notify_step s s'.

Lemma run_notify_op_keeps op s : nkeeps (run_notify_op op) s.
Proof.
  destruct op; cbn [run_notify_op]; try (apply keeps_bind; [exact _| |intros; apply nkeeps_ret]).
  - apply nkeeps_create_rule.
  - apply nkeeps_archive_rule.
  - apply nkeeps_process.
  - apply nkeeps_mark_read.
  - apply nkeeps_mark_dismissed.
  - apply nkeeps_set_preference.
  - apply nkeeps_delete_preference.
Qed.

(** Notifications stay sound whatever is called, on every exit: ids are unique,
    a principal has one preference per channel, the times of a notification fit
    its status; nothing is lost or rewritten, a read or dismissed notification
    never becomes unread again, a deleted preference never comes back. *)
Theorem notify_reachable_ok s s' :
  notify_ok (st_db s) → rtc notify_step s s' → notify_ok (st_db s') ∧ notify_later (st_db s) (st_db s').
Proof.
  intros Hok Hsteps. induction Hsteps as [s|s1 s2 s3 Hstep _ IH]; [done|].
  assert (H2 : notify_ok (st_db s2) ∧ notify_later (st_db s1) (st_db s2)).
  { destruct Hstep as [op s1|s1 s2 Hsame]; [by apply run_notify_op_keeps|].
    by apply (nkeeps_same (λ _, (Ok tt, s2)) s1 Hsame). }
  destruct H2 as [Hok2 H12]. destruct (IH Hok2) as [Hok3 H23]. split; [done|]. by etrans.
Qed.
End NotifyInvariant.

(** ** What processing an event does *)

Section Processing.
Context `{host : !Host}.
Context (format_rest : list (string * string) → string → outcome (string * string)).

(** The messages a rule asks for. *)
Definition messages (rules : list NotificationRule) : list (NotificationRule * string) :=
  rules ≫= λ r, (λ who, (r, who)) <$> nr_recipients r.

Definition filled (event : Event) (template : string) : outcome string :=
  format (template_values event) (format_rest (template_values event)) template.

(** [n] is the notification of a rule to a recipient. *)
Definition message_for (event : Event) (now : Z) (x : NotificationRule * string) (n : Notification) : Prop :=
  filled event (nr_title x.1) = Ok (nt_title n) ∧ filled event (nr_body x.1) = Ok (nt_body n) ∧
  nt_recipient n = x.2 ∧ nt_channel n = nr_channel x.1 ∧ nt_rule n = Some (nr_id x.1) ∧ nt_event n = Some (ev_id event) ∧
  nt_scope n = ev_scope event ∧ nt_data n = ev_data event ∧ nt_status n = UNREAD ∧ nt_created_at n = now ∧
  nt_lifecycle n = ACTIVE.

(** The nested loops are one loop over the messages. *)
Lemma nested_loops {X Y Z} (f : Z → X → Y → lp Z) (g : X → list Y) (l : list X) z s :
  for_fold l z (λ acc x, for_fold (g x) acc (λ acc y, f acc x y)) s =
    for_fold (l ≫= λ x, (λ y, (x, y)) <$> g x) z (λ acc p, f acc p.1 p.2) s.
Proof.
  revert z s. induction l as [|x l IH]; intros z s; [done|]. cbn [for_fold]. rewrite bind_cons.
  assert (Happ : ∀ (k : list Y) z s,
    for_fold (((λ y, (x, y)) <$> k) ++ (l ≫= λ x, (λ y, (x, y)) <$> g x)) z (λ acc p, f acc p.1 p.2) s =
      (z' ← for_fold k z (λ acc y, f acc x y); for_fold (l ≫= λ x, (λ y, (x, y)) <$> g x) z' (λ acc p, f acc p.1 p.2)) s).
  { clear. intros k. induction k as [|y k IHk]; intros z s; [done|]. rewrite fmap_cons. cbn [app for_fold fst snd].
    rewrite !run_bind. destruct (f z x y s) as [[z'|e] s1] eqn:Hf; [|done]. by rewrite IHk, !run_bind. }
  rewrite Happ, !run_bind. destruct (for_fold (g x) z _ s) as [[z'|e] s1]; [apply IH|done].
Qed.

(** Everything but the notifications and the counter of ids. *)
Definition only_notified (s s' : store) : Prop :=
  set_notifications [] (st_db s') = set_notifications [] (st_db s) ∧ st_now s' = st_now s.

#[export] Instance only_notified_preorder : PreOrder only_notified.
Proof. split; [by intros s|]. intros s1 s2 s3 [H1 H2] [H3 H4]. split; congruence. Qed.

(** No notification bears an id that is yet to be given. *)
Definition ids_ahead (s : store) : Prop :=
  ∀ n k, n ∈ notifications_of (st_db s) → st_next s ≤ k → nt_id n ≠ id_of k.

Lemma id_of_eq a b : id_of a = id_of b → a = b.
Proof. unfold id_of. intros H. by simplify_eq. Qed.

Lemma notify_cases event x s :
  ids_ahead s →
  match filled event (nr_title x.1), filled event (nr_body x.1) with
  | Ok _, Ok _ => ∃ n s', notify format_rest event x.1 x.2 s = (Ok n, s') ∧ message_for event (st_now s) x n ∧
      notifications_of (st_db s') = notifications_of (st_db s) ++ [n] ∧ only_notified s s' ∧ ids_ahead s'
  | _, _ => ∃ e, notify format_rest event x.1 x.2 s = (Raise e, s)
  end.
Proof.
  intros Hahead. unfold notify. change (format _ _ (nr_title x.1)) with (filled event (nr_title x.1)).
  change (format _ _ (nr_body x.1)) with (filled event (nr_body x.1)). rewrite run_bind. unfold lift at 1.
  destruct (filled event (nr_title x.1)) as [title|e] eqn:Ht; [|by exists e]. rewrite run_bind. unfold lift.
  destruct (filled event (nr_body x.1)) as [body|e] eqn:Hb; [|by exists e].
  unfold _create_notification. rewrite (run_bind_ok _ _ _ _ _ (eq_refl : now_utc s = (Ok (st_now s), s))).
  rewrite (run_bind_ok _ _ _ _ _ (eq_refl : generate_id s = (Ok (id_of (st_next s)), put_next (S (st_next s)) s))).
  cbv zeta. unfold insert_notification. match goal with |- context [sql_insert ?a ?b ?c ?d ?e] => set (n := e) end.
  assert (Hins : ∀ y, y ∈ m_table m_notifications (st_db (put_next (S (st_next s)) s)) → bool_decide (nt_id n = nt_id y) = false).
  { intros y Hy. apply bool_decide_eq_false_2. intros Heq. exact (Hahead y (st_next s) Hy (le_n _) (eq_sym Heq)). }
  rewrite (run_bind_ok _ _ _ _ _ (sql_insert_run _ set_notifications (λ a b, bool_decide (nt_id a = nt_id b))
    "notifications.id" n _ Hins)).
  eexists n, _. split; [reflexivity|]. split; [by split_and!|]. split; [done|]. split; [done|].
  intros y k [Hy|Hy%list_elem_of_singleton]%elem_of_app Hk; simpl in Hk; [apply Hahead; [done|lia]|].
  subst y. cbn [nt_id]. intros Heq%id_of_eq. lia.
Qed.

Lemma process_loop event msgs acc s :
  ids_ahead s →
  ∃ sent l r s', for_fold msgs acc (λ acc x, n ← notify format_rest event x.1 x.2; mret (acc ++ [n])) s = (r, s') ∧
    Forall2 (message_for event (st_now s)) sent l ∧ notifications_of (st_db s') = notifications_of (st_db s) ++ l ∧
    only_notified s s' ∧
    (r = Ok (acc ++ l) ∧ sent = msgs ∨
     ∃ x rest e, msgs = sent ++ x :: rest ∧ r = Raise e ∧
       (is_ok (filled event (nr_title x.1)) = false ∨ is_ok (filled event (nr_body x.1)) = false)).
Proof.
  revert acc s. induction msgs as [|x msgs IH]; intros acc s Hahead.
  { exists [], [], (Ok acc), s. rewrite !app_nil_r. split_and!; try done. by left. }
  cbn [for_fold]. rewrite run_bind. rewrite run_bind. pose proof (notify_cases event x s Hahead) as Hcase.
  assert (Hfail : (is_ok (filled event (nr_title x.1)) = false ∨ is_ok (filled event (nr_body x.1)) = false) →
    ∃ e, notify format_rest event x.1 x.2 s = (Raise e, s)).
  { intros Hf. destruct (filled event (nr_title x.1)), (filled event (nr_body x.1)); naive_solver. }
  destruct (is_ok (filled event (nr_title x.1)) && is_ok (filled event (nr_body x.1))) eqn:Hok.
  - destruct (filled event (nr_title x.1)), (filled event (nr_body x.1)); try done.
    destruct Hcase as (n & s1 & -> & Hn & Hrows & Honly & Hahead1).
    destruct (IH (acc ++ [n]) s1 Hahead1) as (sent & l & r & s2 & Hrun & Hall & Hrows2 & Honly2 & Hend).
    exists (x :: sent), (n :: l), r, s2. split; [exact Hrun|]. destruct Honly as [Ht Hnow]. rewrite Hnow in Hall.
    split; [by constructor|]. split; [by rewrite Hrows2, Hrows, <-app_assoc|]. split; [etrans; [|exact Honly2]; by split|].
    destruct Hend as [[-> ->]|(y & rest & e & -> & -> & Hbad)].
    + left. split; [by rewrite <-app_assoc|done].
    + right. by exists y, rest, e.
  - apply andb_false_iff in Hok. destruct (Hfail Hok) as [e ->]. exists [], [], (Raise e), s. rewrite app_nil_r.
    split_and!; try done. right. by exists x, msgs, e.
Qed.

(** Processing an event writes one unread notification for each recipient of
    each active rule that matches it, in the rules' order, its texts filled in
    from the templates, and touches nothing else; it returns exactly those, unless
    some template cannot be filled in: then it raises at the first such message,
    and what was written before stays. *)
Theorem process_event_exact event s :
  ids_ahead s →
  ∃ rules sent l r s', process_event format_rest event s = (r, s') ∧
    rules ≡ₚ filter (λ x, nr_lifecycle x = ACTIVE ∧ _rule_matches x event = true) (notification_rules_of (st_db s)) ∧
    Forall2 (message_for event (st_now s)) sent l ∧ notifications_of (st_db s') = notifications_of (st_db s) ++ l ∧
    only_notified s s' ∧
    (r = Ok l ∧ sent = messages rules ∨
     ∃ x rest e, messages rules = sent ++ x :: rest ∧ r = Raise e ∧
       (is_ok (filled event (nr_title x.1)) = false ∨ is_ok (filled event (nr_body x.1)) = false)).
Proof.
  intros Hahead. unfold process_event.
  set (rules := filter (λ r, _rule_matches r event = true)
    (scan (filter (λ r, bool_decide (nr_lifecycle r = ACTIVE) = true) (m_table m_rules (st_db s))))).
  rewrite (run_bind_ok _ _ _ _ _ (eq_refl : _match_rules event s = (Ok rules, s))).
  rewrite (nested_loops (λ acc rule recipient, n ← notify format_rest event rule recipient; mret (acc ++ [n])) nr_recipients rules).
  destruct (process_loop event (messages rules) [] s Hahead) as (sent & l & r & s' & Hrun & Hall & Hrows & Honly & Hend).
  exists rules, sent, l, r, s'. split; [exact Hrun|]. split; [|by split_and!].
  unfold rules. rewrite scan_perm, list_filter_filter. apply reflexive_eq, list_filter_iff. intros x.
  rewrite bool_decide_eq_true. tauto.
Qed.

(** ** Preferences *)

Lemma fetch_preference principal channel s :
  ∃ o, fetch_one (m_table m_preferences) (prefers principal channel) s = (Ok o, s).
Proof. by eexists. Qed.

(** The row that governs a pair, when there is one. *)
Lemma fetch_governing principal channel x s :
  notify_ok (st_db s) → x ∈ preferences_of (st_db s) → prefers principal channel x = true →
  fetch_one (m_table m_preferences) (prefers principal channel) s = (Ok (Some x), s).
Proof.
  intros Hok Hx Hp. destruct (fetch_preference principal channel s) as [o Ho]. rewrite Ho.
  destruct (fetch_one_ok _ _ _ _ _ Ho) as [_ Hf]. destruct o as [y|].
  - destruct Hf as [Hy Hpy]. apply prefers_true in Hp as [Hk _], Hpy as [Hky _].
    by rewrite (NoDup_fmap_inj_in _ _ _ _ (mk_pairs _ Hok) Hy Hx (eq_trans Hky (eq_sym Hk))).
  - specialize (Hf x Hx). congruence.
Qed.

Lemma fetch_none principal channel s :
  (∀ x, x ∈ preferences_of (st_db s) → prefers principal channel x = false) →
  fetch_one (m_table m_preferences) (prefers principal channel) s = (Ok None, s).
Proof.
  intros Hno. destruct (fetch_preference principal channel s) as [o Ho]. rewrite Ho.
  destruct (fetch_one_ok _ _ _ _ _ Ho) as [_ Hf]. destruct o as [y|]; [|done].
  destruct Hf as [Hy Hpy]. by rewrite (Hno y Hy) in Hpy.
Qed.

Lemma enabled_run principal channel x s :
  notify_ok (st_db s) → x ∈ preferences_of (st_db s) → prefers principal channel x = true →
  is_channel_enabled principal channel s = (Ok (np_enabled x), s).
Proof. intros Hok Hx Hp. exact (run_bind_ok _ _ _ _ _ (fetch_governing _ _ _ _ Hok Hx Hp)). Qed.

Lemma enabled_default principal channel s :
  (∀ x, x ∈ preferences_of (st_db s) → prefers principal channel x = false) →
  is_channel_enabled principal channel s = (Ok true, s).
Proof. intros Hno. exact (run_bind_ok _ _ _ _ _ (fetch_none _ _ _ Hno)). Qed.

(** What an answer depends on. *)
Lemma enabled_same principal channel s s' :
  filter (λ x, prefers principal channel x = true) (preferences_of (st_db s')) =
    filter (λ x, prefers principal channel x = true) (preferences_of (st_db s)) →
  (is_channel_enabled principal channel s').1 = (is_channel_enabled principal channel s).1.
Proof.
  intros H. change (Ok (from_option np_enabled true (head (scan (filter (λ x, prefers principal channel x = true)
    (preferences_of (st_db s')))))) = Ok (from_option np_enabled true (head (scan (filter (λ x, prefers principal channel x = true)
    (preferences_of (st_db s))))))). by rewrite H.
Qed.

Lemma filter_update {X} (p q : X → bool) (f : X → X) (l : list X) :
  (∀ x, x ∈ l → q x = true → p x = false ∧ p (f x) = false) →
  filter (λ x, p x = true) ((λ x, if q x then f x else x) <$> l) = filter (λ x, p x = true) l.
Proof.
  induction l as [|x l IH]; [done|]. intros H. rewrite fmap_cons, !filter_cons, IH by (intros y Hy; apply H; by right).
  destruct (q x) eqn:Hq; [|done]. destruct (H x ltac:(left) Hq) as [-> ->]. done.
Qed.

(** Two stores give the same answers, but for one pair. *)
Definition same_answers_but (principal : string) (channel : NotificationChannel) (s s' : store) : Prop :=
  ∀ principal' channel', (principal', channel') ≠ (principal, channel) →
    (is_channel_enabled principal' channel' s').1 = (is_channel_enabled principal' channel' s).1.

#[export] Instance same_answers_but_preorder principal channel : PreOrder (same_answers_but principal channel).
Proof. split; [by intros s|]. intros s1 s2 s3 H1 H2 p c Hpc. by rewrite (H2 p c Hpc), (H1 p c Hpc). Qed.

Lemma same_rows_answers principal channel s s' :
  preferences_of (st_db s') = preferences_of (st_db s) → same_answers_but principal channel s s'.
Proof. intros H p c _. apply enabled_same. by rewrite H. Qed.

Lemma update_answers principal channel q f s :
  (∀ x, preference_key (f x) = preference_key x) →
  (∀ x, x ∈ preferences_of (st_db s) → q x = true → preference_key x = (principal, channel)) →
  same_answers_but principal channel s (sql_update (m_table m_preferences) set_preferences q f s).2.
Proof.
  intros Hf Hq p c Hpc. apply enabled_same. apply (filter_update (prefers p c) q f). intros x Hx Hqx.
  specialize (Hq x Hx Hqx). split; apply not_true_is_false; intros [Hk _]%prefers_true; [|rewrite Hf in Hk]; congruence.
Qed.

(** A row that was archived stands in the way of a new one. *)
Lemma set_preference_blocked principal channel enabled x s :
  notify_ok (st_db s) → x ∈ preferences_of (st_db s) → preference_key x = (principal, channel) →
  np_lifecycle x ≠ ACTIVE →
  ∃ s', set_preference principal channel enabled s = (Raise (IntegrityError "notification_preferences"), s') ∧
    st_db s' = st_db s.
Proof.
  intros Hok Hx Hk Har. unfold set_preference.
  rewrite (run_bind_ok _ _ _ _ _ (fetch_none principal channel s ltac:(
    intros y Hy; apply not_true_is_false; intros [Hky Hact]%prefers_true;
    by rewrite (NoDup_fmap_inj_in _ _ _ _ (mk_pairs _ Hok) Hy Hx (eq_trans Hky (eq_sym Hk))) in Hact))).
  rewrite (run_bind_ok _ _ _ _ _ (eq_refl : generate_id s = (Ok (id_of (st_next s)), put_next (S (st_next s)) s))).
  rewrite (run_bind_ok _ _ _ _ _ (eq_refl : now_utc (put_next _ s) = (Ok _, put_next _ s))).
  cbv zeta. rewrite run_bind. unfold insert_preference.
  match goal with |- context [sql_insert ?a ?b ?c ?d ?e] =>
    destruct (sql_insert_cases a b c d e (put_next (S (st_next s)) s)) as [->|[Hc _]] end; [by eexists|].
  exfalso. specialize (Hc x Hx). cbn [np_id np_principal np_channel] in Hc. unfold preference_key in Hk. injection Hk as Hk1 Hk2.
  apply orb_false_iff in Hc as [_ Hc]. by rewrite Hk1, Hk2, !bool_decide_eq_true_2 in Hc by done.
Qed.

(** The ids to come are new to the preferences. *)
Definition preference_ids_ahead (s : store) : Prop :=
  ∀ x k, x ∈ preferences_of (st_db s) → st_next s ≤ k → np_id x ≠ id_of k.

Lemma preference_fresh pref s :
  (∀ x, x ∈ preferences_of (st_db s) → preference_key x ≠ preference_key pref) →
  (∀ x, x ∈ preferences_of (st_db s) → np_id x ≠ np_id pref) →
  ∀ x, x ∈ preferences_of (st_db s) → preference_clash pref x = false.
Proof.
  intros Hkey Hid x Hx. apply orb_false_iff. split; [apply bool_decide_eq_false_2; intros Heq; by apply (Hid x Hx)|].
  apply not_true_is_false. intros [H1%bool_decide_eq_true_1 H2%bool_decide_eq_true_1]%andb_true_iff.
  apply (Hkey x Hx). unfold preference_key. congruence.
Qed.

Lemma set_preference_cases principal channel enabled s :
  notify_ok (st_db s) → preference_ids_ahead s →
  ∃ r s', set_preference principal channel enabled s = (r, s') ∧ same_answers_but principal channel s s' ∧
    ∃ x, x ∈ preferences_of (st_db s') ∧ preference_key x = (principal, channel) ∧
      (r = Raise (IntegrityError "notification_preferences") ∧ np_lifecycle x ≠ ACTIVE ∧ st_db s' = st_db s ∨
       is_ok r = true ∧ np_lifecycle x = ACTIVE ∧ np_enabled x = enabled).
Proof.
  intros Hok Hahead. destruct (decide (Exists (λ x, preference_key x = (principal, channel)) (preferences_of (st_db s))))
    as [(x & Hx & Hk)%Exists_exists|Hnone].
  - destruct (decide (np_lifecycle x = ACTIVE)) as [Hact|Har].
    + unfold set_preference. assert (Hp : prefers principal channel x = true) by by apply prefers_true.
      rewrite (run_bind_ok _ _ _ _ _ (fetch_governing _ _ _ _ Hok Hx Hp)).
      eexists _, _. split; [reflexivity|]. split.
      * apply (update_answers principal channel (λ y, bool_decide (np_id y = np_id x))); [done|].
        intros y Hy Hid%bool_decide_eq_true_1. by rewrite (NoDup_fmap_inj_in _ _ _ _ (mk_preferences _ Hok) Hy Hx Hid).
      * exists (set_preference_row enabled (np_lifecycle x) x). split; [|split; [done|by right]].
        apply list_elem_of_fmap. exists x. by rewrite bool_decide_eq_true_2.
    + destruct (set_preference_blocked principal channel enabled x s Hok Hx Hk Har) as (s' & Hrun & Hdb).
      eexists _, s'. split; [exact Hrun|]. split; [apply same_rows_answers; by rewrite Hdb|].
      exists x. rewrite Hdb. split_and!; [done..|]. by left.
  - rewrite <-Forall_Exists_neg, Forall_forall in Hnone. unfold set_preference.
    rewrite (run_bind_ok _ _ _ _ _ (fetch_none principal channel s ltac:(
      intros y Hy; apply not_true_is_false; intros [Hky _]%prefers_true; by apply (Hnone y Hy)))).
    rewrite (run_bind_ok _ _ _ _ _ (eq_refl : generate_id s = (Ok (id_of (st_next s)), put_next (S (st_next s)) s))).
    rewrite (run_bind_ok _ _ _ _ _ (eq_refl : now_utc (put_next _ s) = (Ok _, put_next _ s))). cbv zeta.
    unfold insert_preference. match goal with |- context [sql_insert ?a ?b ?c ?d ?e] => set (pref := e) end.
    rewrite (run_bind_ok _ _ _ _ _ (sql_insert_run (m_table m_preferences) set_preferences preference_clash
      "notification_preferences" pref (put_next (S (st_next s)) s) (preference_fresh pref s Hnone (λ y Hy, Hahead y _ Hy (le_n _))))).
    eexists _, _. split; [reflexivity|]. split.
    + intros p c Hpc. apply enabled_same. unfold preferences_of at 1. simpl.
      rewrite filter_app, filter_cons_False, app_nil_r; [done|]. intros [Hk _]%prefers_true. by apply Hpc.
    + exists pref. split; [by apply elem_of_app; right; left|]. split; [done|by right].
Qed.

(** A preference that is set is the answer from then on, for that principal
    and channel and for no other; after [delete_preference] the default answers
    again, and the pair can never be set any more: the archived row keeps its
    place and every attempt raises IntegrityError. *)
Theorem preference_exact principal channel enabled s :
  notify_ok (st_db s) → preference_ids_ahead s →
  ∃ r s1 s2, set_preference principal channel enabled s = (r, s1) ∧
    delete_preference principal channel s1 = (Ok tt, s2) ∧
    (is_ok r = true ∧ is_channel_enabled principal channel s1 = (Ok enabled, s1) ∨
     r = Raise (IntegrityError "notification_preferences") ∧ st_db s1 = st_db s ∧
       ∃ x, x ∈ preferences_of (st_db s) ∧ preference_key x = (principal, channel) ∧ np_lifecycle x ≠ ACTIVE) ∧
    same_answers_but principal channel s s1 ∧ same_answers_but principal channel s1 s2 ∧
    is_channel_enabled principal channel s2 = (Ok true, s2) ∧
    ∀ again, (set_preference principal channel again s2).1 = Raise (IntegrityError "notification_preferences").
Proof.
  intros Hok Hahead.
  destruct (set_preference_cases principal channel enabled s Hok Hahead) as (r & s1 & Hrun & Hsame & x & Hx & Hk & Hend).
  assert (Hok1 : notify_ok (st_db s1)).
  { pose proof (nkeeps_set_preference principal channel enabled s Hok) as [H _]. by rewrite Hrun in H. }
  pose proof (nkeeps_delete_preference principal channel s1 Hok1) as [Hok2 _].
  assert (Hpairs : ∀ y, y ∈ preferences_of (st_db (delete_preference principal channel s1).2) →
    prefers principal channel y = false).
  { intros y (z & -> & Hz)%list_elem_of_fmap. destruct (prefers principal channel z) eqn:Hpz; [|done].
    apply not_true_is_false. intros [_ Har]%prefers_true. done. }
  eexists r, s1, _. split; [exact Hrun|]. split; [reflexivity|]. split; [|split_and!].
  - destruct Hend as [(-> & Har & Hdb)|(Hr & Hact & Hen)]; [right; rewrite Hdb in Hx; by eauto 10|left].
    split; [done|]. rewrite <-Hen. by apply enabled_run, prefers_true.
  - exact Hsame.
  - apply update_answers; [done|]. by intros y _ [Hky _]%prefers_true.
  - by apply enabled_default.
  - intros again. destruct (set_preference_blocked principal channel again
      (if prefers principal channel x then set_preference_row (np_enabled x) ARCHIVED x else x) _ Hok2) as (s3 & Hs3 & _); [| | |exact (f_equal fst Hs3)].
    + apply list_elem_of_fmap. by exists x.
    + by destruct (prefers principal channel x).
    + destruct (prefers principal channel x) eqn:Hpx; [done|]. intros Hact.
      assert (prefers principal channel x = true) by by apply prefers_true. congruence.
Qed.
End Processing.
