(* ===== verification/Contracts.v ===== *)
(** * Legacy v1: contracts (registry/contracts.py)

    The declared shape of an object type, its versions, and the validation of
    data against a version.  What validation accepts is proved to be what a
    declarative typing of dicts allows. *)

From Stdlib Require Import Ascii.
From S2P Require Import Prelude LegacyTypes PyFloat Schema Json Trail Rules RuleClients Tenancy Versioned Objects Leaks Rotation Environments.

Definition k_table {R} (f : blueprint_tables → list R) (t : tables) : list R := f (blueprints t).

(** ** Data models *)

Definition field_type_value (t : FieldType) : string :=
  match t with
  | STRING => "string" | INTEGER => "integer" | FLOAT => "float" | BOOLEAN => "boolean" | DATETIME => "datetime"
  | JSON => "json" | LIST => "list" | REF => "ref" | BLOB => "blob" | ANY => "any"
  end.

Definition field_snapshot (f : ContractField) : jdict := [
  ("name", JVstr (cf_name f)); ("field_type", JVstr (field_type_value (cf_type f)));
  ("required", JVbool (cf_required f)); ("default", cf_default f); ("description", JVstr (cf_description f));
  ("constraints", JVdict (cf_constraints f))].

Definition field_names (cv : ContractVersion) : list string := cf_name <$> kv_fields cv.
Definition required_fields (cv : ContractVersion) : list string :=
  cf_name <$> filter (λ f, cf_required f = true) (kv_fields cv).
Definition get_field (cv : ContractVersion) (name : string) : option ContractField :=
  find (λ f, bool_decide (cf_name f = name)) (kv_fields cv).
Definition contract_active (c : Contract) : bool := bool_decide (kt_lifecycle c = ACTIVE).

Record ValidationResult := { vr_valid : bool; vr_errors : list string }.

Definition raise_if_invalid (r : ValidationResult) : outcome unit :=
  if vr_valid r then Ok tt
  else Raise (ContractValidationError ("Validation failed: " +:+ join_with "; " (vr_errors r))).

(** ** Pure validation *)

(** [type(value).__name__]. *)
Definition type_name (v : jval) : string :=
  match v with
  | JVnull => "NoneType" | JVbool _ => "bool" | JVint _ => "int" | JVfloat _ => "float" | JVstr _ => "str"
  | JVlist _ => "list" | JVdict _ => "dict"
  end.

(** [isinstance(value, _TYPE_VALIDATORS[t])]: a bool is an int. *)
Definition is_instance (t : FieldType) (v : jval) : bool :=
  match t, v with
  | (STRING | DATETIME | REF | BLOB), JVstr _ => true
  | INTEGER, (JVint _ | JVbool _) => true
  | FLOAT, (JVint _ | JVfloat _ | JVbool _) => true
  | BOOLEAN, JVbool _ => true
  | JSON, (JVdict _ | JVlist _) => true
  | LIST, JVlist _ => true
  | ANY, _ => true
  | _, _ => false
  end.

(** [isinstance(value, (int, float))], as a number. *)
Definition number (v : jval) : option py_number :=
  match v with
  | JVint z => Some (NInt z) | JVbool b => Some (NInt (if b then 1 else 0)) | JVfloat f => Some (NFloat f) | _ => None
  end.

Definition text_length (s : string) : Z := Z.of_nat (String.length s).

(** A bound that the field's constraints give: [x op bound] is an error. *)
Definition check_bound (f : ContractField) (key op : string) (fails : py_number → py_number → bool) (x : py_number) (kind shown : string)
  : outcome (list string) :=
  match jget (cf_constraints f) key with
  | None => Ok []
  | Some bound =>
      match number bound with
      | None => Raise (TypeError ("'" +:+ op +:+ "' not supported between instances of '" +:+ kind +:+ "' and '" +:+
                                  type_name bound +:+ "'"))
      | Some b =>
          Ok (if fails x b
              then ["Field '" +:+ cf_name f +:+ "': " +:+ shown +:+ " " +:+ op +:+ " " +:+ key +:+ " " +:+
                    py_str_value bound]
              else [])
      end
  end.

Definition length_bound (f : ContractField) (key op : string) (fails : py_number → py_number → bool) (v : jval)
  : outcome (list string) :=
  match v with
  | JVstr s => check_bound f key op fails (NInt (text_length s)) "int" ("length " +:+ pretty (text_length s))
  | _ => Ok []
  end.

Definition value_bound (f : ContractField) (key op : string) (fails : py_number → py_number → bool) (v : jval)
  : outcome (list string) :=
  match number v with
  | Some z => check_bound f key op fails z (type_name v) (py_str_value v)
  | None => Ok []
  end.

(** [value in container]. *)
Definition py_in (v container : jval) : outcome bool :=
  match container with
  | JVlist l => Ok (existsb (jval_eqb v) l)
  | JVstr s =>
      match v with
      | JVstr a => Ok (contains a s)
      | _ => Raise (TypeError ("'in <string>' requires string as left operand, not " +:+ type_name v))
      end
  | JVdict d =>
      if hashable v then Ok (match v with JVstr k => bool_decide (is_Some (jget d k)) | _ => false end)
      else Raise (TypeError ("unhashable type: '" +:+ type_name v +:+ "'"))
  | _ => Raise (TypeError ("argument of type '" +:+ type_name container +:+ "' is not iterable"))
  end.

(** [data.get(key)]. *)
Definition py_get (data : jdict) (k : jval) : outcome (option jval) :=
  if hashable k then Ok (match k with JVstr s => jget data s | _ => None end)
  else Raise (TypeError ("unhashable type: '" +:+ type_name k +:+ "'")).

(** [iter(value)]. *)
Definition py_iter (v : jval) : outcome (list jval) :=
  match v with
  | JVlist l => Ok l
  | JVstr s => Ok ((λ c, JVstr (String c EmptyString)) <$> String.list_ascii_of_string s)
  | JVdict d => Ok ((λ x, JVstr x.1) <$> d)
  | _ => Raise (TypeError ("'" +:+ type_name v +:+ "' object is not iterable"))
  end.

(** The errors of a loop over [l]. *)
Fixpoint collect {X} (f : X → outcome (list string)) (l : list X) : outcome (list string) :=
  match l with
  | [] => Ok []
  | x :: l' => a ← f x; b ← collect f l'; Ok (a ++ b)
  end.

Section Validation.
(** Python's [re.match] on a pattern. *)
Context (re_match : jval → string → outcome bool).

Definition check_pattern (f : ContractField) (v : jval) : outcome (list string) :=
  match jget (cf_constraints f) "pattern", v with
  | Some p, JVstr s =>
      matched ← re_match p s;
      Ok (if matched : bool then []
          else ["Field '" +:+ cf_name f +:+ "': does not match pattern '" +:+ py_str_value p +:+ "'"])
  | _, _ => Ok []
  end.

Definition check_choices (f : ContractField) (v : jval) : outcome (list string) :=
  match jget (cf_constraints f) "choices" with
  | None => Ok []
  | Some choices =>
      found ← py_in v choices;
      Ok (if found : bool then []
          else ["Field '" +:+ cf_name f +:+ "': " +:+ py_repr v +:+ " not in allowed choices " +:+ py_str_value choices])
  end.

Definition check_constraints (f : ContractField) (v : jval) : outcome (list string) :=
  a ← length_bound f "min_length" "<" num_ltb v;
  b ← length_bound f "max_length" ">" num_gtb v;
  c ← value_bound f "min_value" "<" num_ltb v;
  d ← value_bound f "max_value" ">" num_gtb v;
  e ← check_pattern f v;
  g ← check_choices f v;
  Ok (a ++ b ++ c ++ d ++ e ++ g).

Definition check_field (data : jdict) (f : ContractField) : outcome (list string) :=
  match jget data (cf_name f) with
  | None => Ok []
  | Some v =>
      if is_instance (cf_type f) v then check_constraints f v
      else Ok ["Field '" +:+ cf_name f +:+ "': expected " +:+ field_type_value (cf_type f) +:+ ", got " +:+ type_name v]
  end.

Definition missing (data : jdict) (f : ContractField) : bool :=
  cf_required f && bool_decide (jget data (cf_name f) = None) &&
  match cf_default f with JVnull => true | _ => false end.

(** [any(data.get(f) for f in fields)]. *)
Fixpoint any_given (data : jdict) (fields : list jval) : outcome bool :=
  match fields with
  | [] => Ok false
  | f :: fields' =>
      o ← py_get data f;
      if from_option jtruthy false o then Ok true else any_given data fields'
  end.

(** [[f for f in fields if f in data]]. *)
Fixpoint present_fields (data : jdict) (fields : list jval) : outcome (list jval) :=
  match fields with
  | [] => Ok []
  | f :: fields' =>
      here ← py_in f (JVdict data);
      rest ← present_fields data fields';
      Ok (if here : bool then f :: rest else rest)
  end.

Definition config_of (c : ContractConstraint) (key : string) (otherwise : jval) : jval :=
  default otherwise (jget (cc_config c) key).

Definition _validate_constraint (data : jdict) (c : ContractConstraint) : outcome (list string) :=
  let named (msg : string) := ["Constraint '" +:+ cc_name c +:+ "': " +:+ msg] in
  if bool_decide (cc_type c = "at_least_one") then
    let given := config_of c "fields" (JVlist []) in
    fields ← py_iter given;
    found ← any_given data fields;
    Ok (if found : bool then [] else named ("at least one of " +:+ py_str_value given +:+ " must be provided"))
  else if bool_decide (cc_type c = "depends_on") then
    let field := config_of c "field" (JVstr "") in
    let needed := config_of c "depends_on" (JVstr "") in
    here ← py_in field (JVdict data);
    if here : bool then
      there ← py_in needed (JVdict data);
      Ok (if there : bool then []
          else named ("field '" +:+ py_str_value field +:+ "' requires '" +:+ py_str_value needed +:+ "' to be present"))
    else Ok []
  else if bool_decide (cc_type c = "mutually_exclusive") then
    fields ← py_iter (config_of c "fields" (JVlist []));
    present ← present_fields data fields;
    Ok (if 1 <? length present then named ("fields " +:+ py_repr (JVlist present) +:+ " are mutually exclusive") else [])
  else Ok [].

Definition validate_against_version (data : jdict) (cv : ContractVersion) : outcome ValidationResult :=
  let absent := (λ f, "Missing required field: " +:+ cf_name f) <$> filter (λ f, missing data f = true) (kv_fields cv) in
  typed ← collect (check_field data) (kv_fields cv);
  let unknown := (λ k, "Unknown field: " +:+ k) <$> filter (λ k, k ∉ field_names cv) data.*1 in
  crossed ← collect (_validate_constraint data) (kv_constraints cv);
  let errors := absent ++ typed ++ unknown ++ crossed in
  Ok {| vr_valid := length errors =? 0; vr_errors := errors |}.
End Validation.

(** ** Differences *)

(** [{f.name: f for f in fields}]: names in the order they first occur, the last
    field of a name. *)
Definition fields_by_name (l : list ContractField) : list (string * ContractField) :=
  foldl (λ acc f,
    if existsb (λ x, bool_decide (x.1 = cf_name f)) acc
    then (λ x, if bool_decide (x.1 = cf_name f) then (cf_name f, f) else x) <$> acc
    else acc ++ [(cf_name f, f)]) [] l.

Definition field_named (l : list (string * ContractField)) (n : string) : option ContractField :=
  snd <$> find (λ x, bool_decide (x.1 = n)) l.

Record ContractDiff := {
  added_fields : list string; removed_fields : list string; modified_fields : list string;
  old_version : nat; new_version : nat;
}.

Definition field_changed (old new : list (string * ContractField)) (n : string) : bool :=
  match field_named old n, field_named new n with
  | Some a, Some b => negb (jval_eqb (JVdict (field_snapshot a)) (JVdict (field_snapshot b)))
  | _, _ => false
  end.

Definition diff_contracts (old new : ContractVersion) : ContractDiff :=
  let old_fields := fields_by_name (kv_fields old) in
  let new_fields := fields_by_name (kv_fields new) in
  {| added_fields := filter (λ n, field_named old_fields n = None) (field_names new);
     removed_fields := filter (λ n, field_named new_fields n = None) (field_names old);
     modified_fields := filter (λ n, field_changed old_fields new_fields n = true) old_fields.*1;
     old_version := kv_version old; new_version := kv_version new |}.

(** ** ContractStore *)

Definition by_contract (id : string) (x : Contract) : bool := bool_decide (kt_id x = id).
Definition contract_version_of (id : string) (x : ContractVersion) : bool := bool_decide (kv_contract x = id).

Definition set_contract (version : nat) (l : Lifecycle) (x : Contract) : Contract := {|
  kt_id := kt_id x; kt_name := kt_name x; kt_object_type := kt_object_type x; kt_owner := kt_owner x;
  kt_created_at := kt_created_at x; kt_description := kt_description x; kt_version := version; kt_lifecycle := l;
  kt_metadata := kt_metadata x |}.

Section Store.
Context `{host : !Host}.
Context (known_principal : string → bool).

Definition insert_contract (c : Contract) : lp unit :=
  raise_if (negb (known_principal (kt_owner c))) (IntegrityError "contracts.owner_id") ;;
  sql_insert (k_table k_contracts) set_contracts (λ a b, bool_decide (kt_id a = kt_id b)) "contracts.id" c.

(** UNIQUE(contract_id, version). *)
Definition contract_version_clash (a b : ContractVersion) : bool :=
  bool_decide (kv_id a = kv_id b) ||
  bool_decide (kv_contract a = kv_contract b) && bool_decide (kv_version a = kv_version b).

Definition insert_contract_version (v : ContractVersion) : lp unit :=
  require_row (k_table k_contracts) (by_contract (kv_contract v)) "contract_versions.contract_id" ;;
  sql_insert (k_table k_contract_versions) set_contract_versions contract_version_clash "contract_versions" v.

Definition create_contract (name object_type owner : string) (fields : list ContractField) (description : string)
  (constraints : option (list ContractConstraint)) (metadata : option jdict) : lp Contract :=
  cid ← generate_id;
  ts ← now_utc;
  let contract := {| kt_id := cid; kt_name := name; kt_object_type := object_type; kt_owner := owner;
    kt_created_at := ts; kt_description := description; kt_version := 1; kt_lifecycle := ACTIVE;
    kt_metadata := default [] metadata |} in
  insert_contract contract ;;
  vid ← generate_id;
  insert_contract_version {| kv_id := vid; kv_contract := cid; kv_version := 1; kv_fields := fields;
    kv_created_at := ts; kv_created_by := owner; kv_constraints := default [] constraints;
    kv_reason := "Initial version" |} ;;
  mret contract.

Definition get_contract (id : string) : lp (option Contract) := fetch_one (k_table k_contracts) (by_contract id).

Definition get_contract_or_raise (id : string) : lp Contract :=
  found ← get_contract id;
  match found with
  | Some c => mret c
  | None => raise (ContractNotFound ("Contract " +:+ id +:+ " not found"))
  end.

Definition newest_contract (a b : Contract) : bool := (kt_created_at b <=? kt_created_at a)%Z.

Definition get_contract_for_type (object_type : string) : lp (option Contract) :=
  l ← select_sorted (k_table k_contracts) (λ c, bool_decide (kt_object_type c = object_type) && contract_active c)
        newest_contract;
  mret (head l).

(** [if x:] on an optional string. *)
Definition truthy_filter (f : option string) (v : string) : bool :=
  negb (given_str f) || filter_opt f v.

Definition list_contracts (owner object_type : option string) (active_only : bool) (limit : nat) : lp (list Contract) :=
  l ← select_sorted (k_table k_contracts) (λ c,
        truthy_filter owner (kt_owner c) && truthy_filter object_type (kt_object_type c) &&
        (negb active_only || contract_active c)) newest_contract;
  mret (take limit l).

Definition latest_version : ContractVersion → ContractVersion → bool := newest_number kv_version.
Definition first_version (a b : ContractVersion) : bool := kv_version a <=? kv_version b.

Definition get_contract_version (id : string) (version : option nat) : lp (option ContractVersion) :=
  match version with
  | Some n => fetch_one (k_table k_contract_versions) (λ v, contract_version_of id v && bool_decide (kv_version v = n))
  | None => l ← select_sorted (k_table k_contract_versions) (contract_version_of id) latest_version; mret (head l)
  end.

Definition get_all_versions (id : string) : lp (list ContractVersion) :=
  select_sorted (k_table k_contract_versions) (contract_version_of id) first_version.

Definition update_contract (id : string) (fields : list ContractField) (actor : string)
  (constraints : option (list ContractConstraint)) (reason : string) : lp ContractVersion :=
  contract ← get_contract_or_raise id;
  let new_version := S (kt_version contract) in
  ts ← now_utc;
  vid ← generate_id;
  let v := {| kv_id := vid; kv_contract := id; kv_version := new_version; kv_fields := fields; kv_created_at := ts;
    kv_created_by := actor; kv_constraints := default [] constraints; kv_reason := reason |} in
  insert_contract_version v ;;
  sql_update (k_table k_contracts) set_contracts (by_contract id) (λ c, set_contract new_version (kt_lifecycle c) c) ;;
  mret v.

(** [deprecate] and [archive]. *)
Definition set_contract_lifecycle (l : Lifecycle) (id : string) : lp Contract :=
  contract ← get_contract_or_raise id;
  sql_update (k_table k_contracts) set_contracts (by_contract id) (λ c, set_contract (kt_version c) l c) ;;
  mret (set_contract (kt_version contract) l contract).
Definition deprecate_contract : string → lp Contract := set_contract_lifecycle DEPRECATED.
Definition archive_contract : string → lp Contract := set_contract_lifecycle ARCHIVED.

Context (re_match : jval → string → outcome bool).

Definition validate (data : jdict) (id : string) (version : option nat) : lp ValidationResult :=
  found ← get_contract_version id version;
  match found with
  | None => raise (ContractNotFound "Contract version not found")
  | Some cv => lift (validate_against_version re_match data cv)
  end.

Definition validate_for_type (data : jdict) (object_type : string) : lp ValidationResult :=
  found ← get_contract_for_type object_type;
  match found with
  | None => mret {| vr_valid := true; vr_errors := [] |}
  | Some contract => validate data (kt_id contract) None
  end.
End Store.

(** ** What validation accepts *)

(** The types of values. *)
Inductive has_type : FieldType → jval → Prop :=
  | string_typed s : has_type STRING (JVstr s)
  | datetime_typed s : has_type DATETIME (JVstr s)
  | ref_typed s : has_type REF (JVstr s)
  | blob_typed s : has_type BLOB (JVstr s)
  | integer_int z : has_type INTEGER (JVint z)
  | integer_bool b : has_type INTEGER (JVbool b)
  | float_float x : has_type FLOAT (JVfloat x)
  | float_int z : has_type FLOAT (JVint z)
  | float_bool b : has_type FLOAT (JVbool b)
  | boolean_typed b : has_type BOOLEAN (JVbool b)
  | json_dict d : has_type JSON (JVdict d)
  | json_list l : has_type JSON (JVlist l)
  | list_typed l : has_type LIST (JVlist l)
  | any_typed v : has_type ANY v.

Section Conformance.
Context (re_match : jval → string → outcome bool).

(** A value within the constraints of its field: a number is not below its lower bound and
    not above its upper one, as rationals when both are finite; a NaN is neither. *)
Record within (f : ContractField) (v : jval) : Prop := {
  wi_min_length : ∀ s bound, v = JVstr s → jget (cf_constraints f) "min_length" = Some bound →
    ∃ b, number bound = Some b ∧ ¬ py_lt (NInt (text_length s)) b;
  wi_max_length : ∀ s bound, v = JVstr s → jget (cf_constraints f) "max_length" = Some bound →
    ∃ b, number bound = Some b ∧ ¬ py_lt b (NInt (text_length s));
  wi_min_value : ∀ z bound, number v = Some z → jget (cf_constraints f) "min_value" = Some bound →
    ∃ b, number bound = Some b ∧ ¬ py_lt z b;
  wi_max_value : ∀ z bound, number v = Some z → jget (cf_constraints f) "max_value" = Some bound →
    ∃ b, number bound = Some b ∧ ¬ py_lt b z;
  wi_pattern : ∀ s p, v = JVstr s → jget (cf_constraints f) "pattern" = Some p → re_match p s = Ok true;
  wi_choices : ∀ c, jget (cf_constraints f) "choices" = Some c → py_in v c = Ok true;
}.

(** A cross-field constraint holds. *)
Definition cross_holds (data : jdict) (c : ContractConstraint) : Prop :=
  (cc_type c = "at_least_one" → ∃ fields, py_iter (config_of c "fields" (JVlist [])) = Ok fields ∧
    ∃ n v, JVstr n ∈ fields ∧ jget data n = Some v ∧ jtruthy v = true) ∧
  (cc_type c = "depends_on" → py_in (config_of c "field" (JVstr "")) (JVdict data) = Ok true →
    py_in (config_of c "depends_on" (JVstr "")) (JVdict data) = Ok true) ∧
  (cc_type c = "mutually_exclusive" → ∀ fields, py_iter (config_of c "fields" (JVlist [])) = Ok fields →
    length (filter (λ f, py_in f (JVdict data) = Ok true) fields) ≤ 1).

(** The data has the shape that the version declares. *)
Record conforms (data : jdict) (cv : ContractVersion) : Prop := {
  co_required : ∀ f, f ∈ kv_fields cv → cf_required f = true → cf_default f = JVnull → is_Some (jget data (cf_name f));
  co_typed : ∀ f v, f ∈ kv_fields cv → jget data (cf_name f) = Some v → has_type (cf_type f) v ∧ within f v;
  co_known : ∀ k v, jget data k = Some v → k ∈ field_names cv;
  co_cross : ∀ c, c ∈ kv_constraints cv → cross_holds data c;
}.

(** A version whose constraints can be evaluated: bounds are numbers, choices and
    lists of fields are lists of hashable values, patterns compile. *)
Definition plain_field (f : ContractField) : Prop :=
  (∀ k b, k ∈ ["min_length"; "max_length"; "min_value"; "max_value"] → jget (cf_constraints f) k = Some b → is_Some (number b)) ∧
  (∀ p s, jget (cf_constraints f) "pattern" = Some p → is_ok (re_match p s) = true) ∧
  (∀ c, jget (cf_constraints f) "choices" = Some c → ∃ l, c = JVlist l).

Definition plain_constraint (c : ContractConstraint) : Prop :=
  (∃ l, config_of c "fields" (JVlist []) = JVlist l ∧ Forall (λ v, hashable v = true) l) ∧
  hashable (config_of c "field" (JVstr "")) = true ∧ hashable (config_of c "depends_on" (JVstr "")) = true.

Definition plain_version (cv : ContractVersion) : Prop :=
  Forall plain_field (kv_fields cv) ∧ Forall plain_constraint (kv_constraints cv).
End Conformance.

Lemma is_instance_spec t v : is_instance t v = true ↔ has_type t v.
Proof.
  split; [|by destruct 1]. destruct t, v; try discriminate; intros _; constructor.
Qed.

Lemma ok_bind_inv {A B} (m : outcome A) (k : A → outcome B) b :
  (x ← m; k x) = Ok b → ∃ a, m = Ok a ∧ k a = Ok b.
Proof. destruct m as [a|e]; [by exists a|done]. Qed.

Lemma nil_app {X} (a b : list X) : a ++ b = [] ↔ a = [] ∧ b = [].
Proof. split; [apply app_eq_nil|by intros [-> ->]]. Qed.

(** When every check finds nothing exactly if [P] holds, so does the loop. *)
Lemma collect_nil {X} (f : X → outcome (list string)) (P : X → Prop) l errors :
  (∀ x e, f x = Ok e → e = [] ↔ P x) → collect f l = Ok errors → errors = [] ↔ ∀ x, x ∈ l → P x.
Proof.
  intros HP. revert errors. induction l as [|x l IH]; intros errors; cbn [collect].
  { intros [= <-]. split; [by intros _ y ?%elem_of_nil|done]. }
  intros (a & Ha & (b & Hb & [= <-])%ok_bind_inv)%ok_bind_inv. rewrite nil_app, (IH b Hb), (HP x a Ha). split.
  - intros [Hx Hrest] y [->|Hy]%elem_of_cons; [done|by apply Hrest].
  - intros Hall. split; [apply Hall; left|intros y Hy; apply Hall; by right].
Qed.

Lemma fmap_filter_nil {X Y} (g : X → Y) (P : X → Prop) `{!∀ x, Decision (P x)} (l : list X) :
  g <$> filter P l = [] ↔ ∀ x, x ∈ l → ¬ P x.
Proof.
  split; intros Hnil.
  - intros x Hx HP. apply fmap_nil_inv in Hnil. apply (not_elem_of_nil x). rewrite <-Hnil. by apply list_elem_of_filter.
  - destruct (filter P l) as [|x k] eqn:Hf; [done|]. exfalso. assert (Hx : x ∈ filter P l) by (rewrite Hf; left).
    apply list_elem_of_filter in Hx as [HP Hx]. by apply (Hnil x Hx).
Qed.

Lemma collect_total {X} (f : X → outcome (list string)) l :
  (∀ x, x ∈ l → ∃ a, f x = Ok a) → ∃ errors, collect f l = Ok errors.
Proof.
  induction l as [|x l IH]; intros Hf; [by eexists|]. cbn [collect].
  destruct (Hf x ltac:(left)) as [a ->]. destruct IH as [b Hb]; [intros y Hy; apply Hf; by right|].
  cbn. rewrite Hb. by eexists.
Qed.

Section Exact.
Context (re_match : jval → string → outcome bool).

Lemma bound_nil f key op fails x kind shown errors :
  check_bound f key op fails x kind shown = Ok errors →
  errors = [] ↔ ∀ bound, jget (cf_constraints f) key = Some bound → ∃ b, number bound = Some b ∧ fails x b = false.
Proof.
  unfold check_bound. destruct (jget (cf_constraints f) key) as [bound|]; [|by intros [= <-]].
  destruct (number bound) as [b|] eqn:Hb; [|done]. intros [= <-]. destruct (fails x b) eqn:Hf.
  - split; [done|]. intros H. destruct (H bound eq_refl) as (b' & Hb' & Hf'). congruence.
  - split; [|done]. intros _ bound' [= <-]. by exists b.
Qed.

Lemma length_nil f key op fails v errors :
  length_bound f key op fails v = Ok errors →
  errors = [] ↔ ∀ s bound, v = JVstr s → jget (cf_constraints f) key = Some bound →
    ∃ b, number bound = Some b ∧ fails (NInt (text_length s)) b = false.
Proof.
  destruct v as [|b|z|x|s|l|d]; cbn [length_bound].
  5: { intros H. rewrite (bound_nil _ _ _ _ _ _ _ _ H).
       split; [intros Hb s' bound [= <-]; by apply Hb|intros Hb bound; by apply Hb]. }
  all: intros [= <-]; split; [by intros _ s' bound [=]|done].
Qed.

Lemma value_nil f key op fails v errors :
  value_bound f key op fails v = Ok errors →
  errors = [] ↔ ∀ z bound, number v = Some z → jget (cf_constraints f) key = Some bound →
    ∃ b, number bound = Some b ∧ fails z b = false.
Proof.
  unfold value_bound. destruct (number v) as [z|]; [|intros [= <-]; by split].
  intros H. rewrite (bound_nil _ _ _ _ _ _ _ _ H). split; [intros Hb z' bound [= <-]; by apply Hb|intros Hb bound; by apply Hb].
Qed.

Lemma pattern_nil f v errors :
  check_pattern re_match f v = Ok errors →
  errors = [] ↔ ∀ s p, v = JVstr s → jget (cf_constraints f) "pattern" = Some p → re_match p s = Ok true.
Proof.
  unfold check_pattern. destruct (jget (cf_constraints f) "pattern") as [p|]; [|intros [= <-]; by split].
  destruct v as [|b|z|x|s|l|d].
  5: { intros ([] & Hm & [= <-])%ok_bind_inv; split; try done.
       - by intros _ s' p' [= <-] [= <-].
       - intros H. specialize (H s p eq_refl eq_refl). congruence. }
  all: intros [= <-]; split; [by intros _ s' bound [=]|done].
Qed.

Lemma choices_nil f v errors :
  check_choices f v = Ok errors →
  errors = [] ↔ ∀ c, jget (cf_constraints f) "choices" = Some c → py_in v c = Ok true.
Proof.
  unfold check_choices. destruct (jget (cf_constraints f) "choices") as [c|]; [|intros [= <-]; by split].
  intros ([] & Hm & [= <-])%ok_bind_inv; split; try done.
  - by intros _ c' [= <-].
  - intros H. specialize (H c eq_refl). congruence.
Qed.

Lemma num_ltb_false x y : num_ltb x y = false ↔ ¬ py_lt x y.
Proof. by rewrite <-num_ltb_spec, not_true_iff_false. Qed.

Lemma num_gtb_false x y : num_gtb x y = false ↔ ¬ py_lt y x.
Proof. by rewrite <-num_gtb_spec, not_true_iff_false. Qed.

Lemma not_below x bound :
  (∃ b, number bound = Some b ∧ num_ltb x b = false) ↔ ∃ b, number bound = Some b ∧ ¬ py_lt x b.
Proof. by setoid_rewrite num_ltb_false. Qed.

Lemma not_above x bound :
  (∃ b, number bound = Some b ∧ num_gtb x b = false) ↔ ∃ b, number bound = Some b ∧ ¬ py_lt b x.
Proof. by setoid_rewrite num_gtb_false. Qed.

Lemma constraints_nil f v errors :
  check_constraints re_match f v = Ok errors → errors = [] ↔ within re_match f v.
Proof.
  unfold check_constraints.
  intros (a & Ha & (b & Hb & (c & Hc & (d & Hd & (e & He & (g & Hg & [= <-])%ok_bind_inv)%ok_bind_inv)%ok_bind_inv)%ok_bind_inv)
    %ok_bind_inv)%ok_bind_inv.
  rewrite !nil_app, (length_nil _ _ _ _ _ _ Ha), (length_nil _ _ _ _ _ _ Hb), (value_nil _ _ _ _ _ _ Hc),
    (value_nil _ _ _ _ _ _ Hd), (pattern_nil _ _ _ He), (choices_nil _ _ _ Hg).
  split.
  - intros (H1 & H2 & H3 & H4 & H5 & H6). split; try done; intros; apply not_below || apply not_above; eauto.
  - intros [H1 H2 H3 H4 H5 H6]. split_and!; try done; intros; apply not_below || apply not_above; eauto.
Qed.

Lemma field_nil data f errors :
  check_field re_match data f = Ok errors →
  errors = [] ↔ ∀ v, jget data (cf_name f) = Some v → has_type (cf_type f) v ∧ within re_match f v.
Proof.
  unfold check_field. destruct (jget data (cf_name f)) as [v|]; [|intros [= <-]; by split].
  destruct (is_instance (cf_type f) v) eqn:Ht.
  - intros H. rewrite (constraints_nil _ _ _ H). apply is_instance_spec in Ht.
    split; [by intros Hw v' [= <-]|intros Hw; by apply Hw].
  - intros [= <-]. split; [done|]. intros H. destruct (H v eq_refl) as [H1%is_instance_spec _]. congruence.
Qed.

Lemma any_given_spec data fields b :
  any_given data fields = Ok b →
  b = true ↔ ∃ n v, JVstr n ∈ fields ∧ jget data n = Some v ∧ jtruthy v = true.
Proof.
  revert b. induction fields as [|f fields IH]; intros b; cbn [any_given].
  { intros [= <-]. split; [done|]. by intros (n & v & ?%elem_of_nil & _). }
  intros (o & Ho & Hb)%ok_bind_inv. unfold py_get in Ho. destruct (hashable f) eqn:Hf; [|done].
  assert (Hhere : from_option jtruthy false o = true ↔
    ∃ n v, JVstr n = f ∧ jget data n = Some v ∧ jtruthy v = true).
  { destruct f as [| | | |s| |]; injection Ho as <-; cbn [from_option]; (split; [|intros (n & v & [=] & Hv & Ht)]); try done.
    - destruct (jget data s) as [v|] eqn:Hs; [|done]. intros Ht. by exists s, v.
    - subst n. by rewrite Hv. }
  destruct (from_option jtruthy false o) eqn:Ht.
  - injection Hb as <-. split; [|done]. intros _. destruct Hhere as [(n & v & <- & Hv & Htv) _]; [done|].
    exists n, v. split; [left|done].
  - rewrite (IH b Hb). split; [intros (n & v & Hn & Hv); exists n, v; split; [by right|done]|].
    intros (n & v & [Hn|Hn]%elem_of_cons & Hv & Htv); [|by exists n, v].
    destruct Hhere as [_ Hhere]. discriminate Hhere. by exists n, v.
Qed.

Lemma present_spec data fields l :
  present_fields data fields = Ok l → l = filter (λ f, py_in f (JVdict data) = Ok true) fields.
Proof.
  revert l. induction fields as [|f fields IH]; intros l; cbn [present_fields]; [by intros [= <-]|].
  intros (here & Hh & (rest & Hr & [= <-])%ok_bind_inv)%ok_bind_inv. rewrite filter_cons, Hh, (IH rest Hr).
  by destruct here.
Qed.

Lemma cross_nil data c errors :
  _validate_constraint data c = Ok errors → errors = [] ↔ cross_holds data c.
Proof.
  unfold _validate_constraint, cross_holds. 
  destruct (bool_decide_reflect (cc_type c = "at_least_one")) as [->|H1];
    [|destruct (bool_decide_reflect (cc_type c = "depends_on")) as [->|H2];
      [|destruct (bool_decide_reflect (cc_type c = "mutually_exclusive")) as [->|H3]]].
  - intros (fields & Hf & (found & Hfound & [= <-])%ok_bind_inv)%ok_bind_inv. apply any_given_spec in Hfound.
    rewrite Hf. split.
    + destruct found; [|done]. intros _. split; [|done]. intros _. exists fields. split; [done|]. by apply Hfound.
    + intros [H _]. destruct (H eq_refl) as (fields' & [= <-] & Hex). apply Hfound in Hex. by rewrite Hex.
  - intros (here & Hh & H)%ok_bind_inv. rewrite Hh. destruct here.
    + apply ok_bind_inv in H as (there & -> & [= <-]). destruct there; split; try done.
      intros (_ & H & _). by specialize (H eq_refl eq_refl).
    + injection H as <-. by split_and!.
  - intros (fields & Hf & (present & Hp%present_spec & [= <-])%ok_bind_inv)%ok_bind_inv. rewrite Hf.
    destruct (1 <? length present) eqn:Hl; [apply Nat.ltb_lt in Hl|apply Nat.ltb_ge in Hl]; split; try done.
    + intros (_ & _ & H). specialize (H eq_refl fields eq_refl). rewrite <-Hp in H. lia.
    + intros _. split_and!; [done..|]. intros _ fields' [= <-]. by rewrite <-Hp.
  - intros [= <-]. by split_and!.
Qed.

Lemma bound_total f key op fails x kind shown :
  (∀ b, jget (cf_constraints f) key = Some b → is_Some (number b)) →
  ∃ a, check_bound f key op fails x kind shown = Ok a.
Proof.
  intros Hb. unfold check_bound. destruct (jget (cf_constraints f) key) as [bound|]; [|by eexists].
  destruct (Hb bound eq_refl) as [b ->]. by eexists.
Qed.

Lemma field_total data f : plain_field re_match f → ∃ a, check_field re_match data f = Ok a.
Proof.
  intros (Hb & Hp & Hc). unfold check_field. destruct (jget data (cf_name f)) as [v|]; [|by eexists].
  destruct (is_instance (cf_type f) v); [|by eexists]. unfold check_constraints.
  assert (Hl : ∀ key op fails, key ∈ ["min_length"; "max_length"; "min_value"; "max_value"] →
    ∃ a, length_bound f key op fails v = Ok a).
  { intros key op fails Hk. destruct v; try by eexists. apply bound_total. intros b. by apply Hb. }
  assert (Hv : ∀ key op fails, key ∈ ["min_length"; "max_length"; "min_value"; "max_value"] →
    ∃ a, value_bound f key op fails v = Ok a).
  { intros key op fails Hk. unfold value_bound. destruct (number v); [|by eexists]. apply bound_total. intros b. by apply Hb. }
  destruct (Hl "min_length" "<" num_ltb ltac:(set_solver)) as [a1 ->].
  destruct (Hl "max_length" ">" num_gtb ltac:(set_solver)) as [a2 ->].
  destruct (Hv "min_value" "<" num_ltb ltac:(set_solver)) as [a3 ->].
  destruct (Hv "max_value" ">" num_gtb ltac:(set_solver)) as [a4 ->].
  assert (∃ a5, check_pattern re_match f v = Ok a5) as [a5 ->].
  { unfold check_pattern. destruct (jget (cf_constraints f) "pattern") as [p|]; [|by eexists].
    destruct v as [| | | |s| |]; try by eexists. specialize (Hp p s eq_refl). destruct (re_match p s); [by eexists|done]. }
  assert (∃ a6, check_choices f v = Ok a6) as [a6 ->].
  { unfold check_choices. destruct (jget (cf_constraints f) "choices") as [c|]; [|by eexists].
    destruct (Hc c eq_refl) as [l ->]. by eexists. }
  by eexists.
Qed.

Lemma py_in_total v data : hashable v = true → ∃ b, py_in v (JVdict data) = Ok b.
Proof. intros H. cbn [py_in]. rewrite H. by eexists. Qed.

Lemma cross_total data c : plain_constraint c → ∃ a, _validate_constraint data c = Ok a.
Proof.
  intros ((l & Hl & Hall) & Hf & Hn). unfold _validate_constraint. rewrite Hl. clear Hl. cbn [py_iter mbind outcome_bind].
  destruct (bool_decide (cc_type c = "at_least_one")).
  { assert (∃ b, any_given data l = Ok b) as [b ->]; [|by eexists].
    induction Hall as [|v l Hv _ IH]; [by eexists|]. cbn [any_given]. unfold py_get. rewrite Hv. cbn.
    destruct (from_option jtruthy false _); [by eexists|exact IH]. }
  destruct (bool_decide (cc_type c = "depends_on")).
  { destruct (py_in_total _ data Hf) as [[] ->]; [|by eexists]. destruct (py_in_total _ data Hn) as [b ->]. by eexists. }
  destruct (bool_decide (cc_type c = "mutually_exclusive")); [|by eexists].
  assert (∃ k, present_fields data l = Ok k) as [k ->]; [|by eexists].
  induction Hall as [|v l Hv _ IH]; [by eexists|]. cbn [present_fields]. destruct (py_in_total v data Hv) as [b ->].
  destruct IH as [k ->]. by eexists.
Qed.

Lemma missing_spec data f :
  missing data f = true ↔ cf_required f = true ∧ cf_default f = JVnull ∧ jget data (cf_name f) = None.
Proof.
  unfold missing. rewrite !andb_true_iff, bool_decide_eq_true. destruct (cf_default f); naive_solver.
Qed.

(** C29: Validation types data exactly: it accepts a dict just when every required
    field that has no default is there, every field that is there has its declared
    type (an int or a bool for INTEGER, a float too for FLOAT) and lies within its
    constraints (bounds on lengths and numbers, a NaN passing any of the latter; the
    pattern; the choices), no field is unknown and every cross-field constraint
    holds; it never raises when the version's constraints can be evaluated. *)
Theorem validate_exact data cv :
  (∀ r, validate_against_version re_match data cv = Ok r → (vr_valid r = true ↔ conforms re_match data cv)) ∧
  (plain_version re_match cv → ∃ r, validate_against_version re_match data cv = Ok r).
Proof.
  split.
  - intros r (typed & Ht & (crossed & Hc & [= <-])%ok_bind_inv)%ok_bind_inv. cbn [vr_valid].
    rewrite Nat.eqb_eq, length_zero_iff_nil, !nil_app, !fmap_filter_nil.
    rewrite (collect_nil _ _ _ _ (field_nil data) Ht), (collect_nil _ _ _ _ (cross_nil data) Hc). split.
    + intros (H1 & H2 & H3 & H4). split; [|by intros f v Hf; apply H2| |done].
      * intros f Hf Hr Hd. destruct (jget data (cf_name f)) as [v|] eqn:Hv; [by eexists|].
        destruct (H1 f Hf). by apply missing_spec.
      * intros k v Hv. destruct (decide (k ∈ field_names cv)) as [|Hn]; [done|].
        destruct (H3 k); [|done]. apply list_elem_of_fmap. exists (k, v). split; [done|by apply jget_elem].
    + intros [H1 H2 H3 H4]. split_and!; [|by intros f Hf v; apply H2| |done].
      * intros f Hf (Hr & Hd & Hn)%missing_spec. destruct (H1 f Hf Hr Hd) as [v Hv]. congruence.
      * intros k Hk Hn. apply Hn. destruct (jget data k) as [v|] eqn:Hv; [by apply (H3 k v)|].
        by apply jget_none in Hv.
  - intros [Hfields Hcons]. rewrite Forall_forall in Hfields. rewrite Forall_forall in Hcons. unfold validate_against_version.
    destruct (collect_total (check_field re_match data) (kv_fields cv)) as [typed ->].
    { intros f Hf. by apply field_total, Hfields. }
    destruct (collect_total (_validate_constraint data) (kv_constraints cv)) as [crossed Hc].
    { intros c Hx. by apply cross_total, Hcons. }
    cbn. rewrite Hc. by eexists.
Qed.
End Exact.

(** ** The versions of a contract *)

Definition contracts_of (t : tables) : list Contract := k_contracts (blueprints t).
Definition contract_versions_of (t : tables) : list ContractVersion := k_contract_versions (blueprints t).

Definition contracts_ok (t : tables) : Prop :=
  versioned kt_id kt_version kv_id kv_contract kv_version (contracts_of t) (contract_versions_of t).

(** A contract keeps everything but its lifecycle and its counter, which rises. *)
Definition later_contract (c c' : Contract) : Prop :=
  c' = set_contract (kt_version c') (kt_lifecycle c') c ∧ kt_version c ≤ kt_version c'.

#[export] Instance later_contract_preorder : PreOrder later_contract.
Proof.
  split; [intros c; split; [by destruct c|lia]|]. intros a b c [Hab Nab] [Hbc Nbc]. split; [|lia].
  rewrite Hbc, Hab. done.
Qed.

(** Contracts are never lost, versions neither lost nor changed. *)
Record contracts_later (t t' : tables) : Prop := {
  kl_contracts : grown later_contract (contracts_of t) (contracts_of t');
  kl_versions : contract_versions_of t `prefix_of` contract_versions_of t';
}.

#[export] Instance contracts_later_preorder : PreOrder contracts_later.
Proof. split; [intros t; by split|]. intros a b c [] []. split; by etrans. Qed.

(** The layer's rows as they were. *)
Definition same_contracts : relation store := λ s s',
  contracts_of (st_db s') = contracts_of (st_db s) ∧ contract_versions_of (st_db s') = contract_versions_of (st_db s).

Section StoreTheory.
Context `{host : !Host}.
Context (known_principal : string → bool).

#[local] Abbreviation kkeeps := (keeps contracts_ok contracts_later).

Lemma kkeeps_same {R} (m : lp R) s : same_contracts s (m s).2 → kkeeps m s.
Proof.
  intros [Hc Hv] Hok. split; [unfold contracts_ok; by rewrite Hc, Hv|]. split; [by rewrite Hc|by rewrite Hv].
Qed.

Lemma kkeeps_ret {R} (x : R) s : kkeeps (mret x : lp R) s.
Proof. by apply kkeeps_same. Qed.

Lemma get_contract_or_raise_ok id s c s' :
  get_contract_or_raise id s = (Ok c, s') → s' = s ∧ c ∈ contracts_of (st_db s) ∧ kt_id c = id.
Proof.
  unfold get_contract_or_raise. intros (o & s1 & [-> Ho]%fetch_one_ok & H)%bind_ok_inv.
  destruct o as [x|]; [|done]. apply mret_ok in H as [-> ->].
  destruct Ho as [Hx Hid%bool_decide_eq_true_1]. done.
Qed.

Lemma get_contract_or_raise_reads id : reads (get_contract_or_raise id).
Proof.
  apply reads_bind; [apply fetch_one_reads|]. intros [c|]; [apply reads_ret|apply reads_raise].
Qed.

Lemma clash_fresh v (l : list ContractVersion) :
  (∀ x, x ∈ l → contract_version_clash v x = false) →
  ∀ w, w ∈ l → kv_id v ≠ kv_id w ∧ (kv_contract v, kv_version v) ≠ (kv_contract w, kv_version w).
Proof.
  intros H w Hw. specialize (H w Hw). apply orb_false_iff in H as [H1%bool_decide_eq_false_1 H2]. split; [done|].
  intros [= Hc Hn]. by rewrite !bool_decide_eq_true_2 in H2.
Qed.

(** Inserting a version of a contract whose counter has reached its number. *)
Lemma kkeeps_insert_version v s :
  1 ≤ kv_version v →
  (contracts_ok (st_db s) → ∀ p, p ∈ contracts_of (st_db s) → kt_id p = kv_contract v → kv_version v ≤ kt_version p) →
  kkeeps (insert_contract_version v) s.
Proof.
  intros Hone Hcur Hok. specialize (Hcur Hok). unfold insert_contract_version. rewrite run_bind.
  destruct (require_row_cases (k_table k_contracts) (by_contract (kv_contract v)) "contract_versions.contract_id" s)
    as [Hrow|Hrow]; rewrite Hrow; [|done].
  apply require_row_ok in Hrow as [_ (p & Hp & Hpid%bool_decide_eq_true_1)].
  destruct (sql_insert_cases (k_table k_contract_versions) set_contract_versions contract_version_clash
    "contract_versions" v s) as [->|[Hc ->]]; [done|]. split; [|split; [done|by apply prefix_app_r]].
  apply versioned_snoc; [by apply clash_fresh| |exact Hok]. exists p. split; [done|]. split; [done|].
  split; [done|]. by apply Hcur.
Qed.

(** An update: refused with nothing changed, or one version more. *)
Lemma update_contract_cases id fields actor constraints reason s r s' :
  update_contract id fields actor constraints reason s = (r, s') →
  (is_ok r = false ∧ same_contracts s s') ∨
  ∃ c v, r = Ok v ∧ c ∈ contracts_of (st_db s) ∧ kt_id c = id ∧
    v = {| kv_id := kv_id v; kv_contract := id; kv_version := S (kt_version c); kv_fields := fields;
           kv_created_at := st_now s; kv_created_by := actor; kv_constraints := default [] constraints; kv_reason := reason |} ∧
    (∀ w, w ∈ contract_versions_of (st_db s) →
      kv_id v ≠ kv_id w ∧ (kv_contract v, kv_version v) ≠ (kv_contract w, kv_version w)) ∧
    contracts_of (st_db s') = (λ x, if by_contract id x then set_contract (kv_version v) (kt_lifecycle x) x else x) <$> contracts_of (st_db s) ∧
    contract_versions_of (st_db s') = contract_versions_of (st_db s) ++ [v].
Proof.
  unfold update_contract. rewrite run_bind. pose proof (get_contract_or_raise_reads id s) as Hg.
  destruct (get_contract_or_raise id s) as [[c|e] s1] eqn:Hget; simpl in Hg; subst s1.
  2: { intros [= <- <-]. by left. }
  apply get_contract_or_raise_ok in Hget as (_ & Hc & Hid). cbv zeta.
  rewrite (run_bind_ok _ _ _ _ _ (eq_refl : now_utc s = (Ok (st_now s), s))).
  rewrite (run_bind_ok _ _ _ _ _ (eq_refl : generate_id s = (Ok (id_of (st_next s)), put_next (S (st_next s)) s))).
  match goal with |- context [insert_contract_version ?x] => set (v := x) end.
  rewrite run_bind. unfold insert_contract_version. rewrite run_bind.
  destruct (require_row_cases (k_table k_contracts) (by_contract (kv_contract v)) "contract_versions.contract_id"
    (put_next (S (st_next s)) s)) as [->| ->]; [|intros [= <- <-]; by left].
  destruct (sql_insert_cases (k_table k_contract_versions) set_contract_versions contract_version_clash
    "contract_versions" v (put_next (S (st_next s)) s)) as [->|[Hcl ->]]; [intros [= <- <-]; by left|].
  intros [= <- <-]. right. exists c, v. split_and!; try done. by apply clash_fresh.
Qed.

Lemma kkeeps_create name type owner fields description constraints metadata s :
  kkeeps (create_contract known_principal name type owner fields description constraints metadata) s.
Proof.
  unfold create_contract. apply keeps_bind; [exact _|by apply kkeeps_same|]. intros cid s1 _.
  apply keeps_bind; [exact _|by apply kkeeps_same|]. intros ts s2 _. cbv zeta.
  match goal with |- context [insert_contract _ ?x] => set (c := x) end.
  apply keeps_bind; [exact _| |].
  - apply keeps_bind; [exact _|apply keeps_reading; [exact _|apply reads_raise_if]|]. intros _ s3 _ Hok.
    destruct (sql_insert_cases (k_table k_contracts) set_contracts (λ a b, bool_decide (kt_id a = kt_id b))
      "contracts.id" c s3) as [->|[Hc ->]]; [done|]. split; [|split; [|done]].
    + apply versioned_parent; [exact Hok|done|]. intros q Hq. specialize (Hc q Hq). by apply bool_decide_eq_false_1 in Hc.
    + apply grown_app. intros x. reflexivity.
  - intros _ s3 _. apply keeps_bind; [exact _|by apply kkeeps_same|]. intros vid s4 _.
    apply keeps_bind; [exact _| |intros; apply kkeeps_ret].
    apply kkeeps_insert_version; [done|]. intros Hok p Hp _. apply (vd_counter _ _ _ _ _ _ _ Hok p Hp).
Qed.

Lemma kkeeps_update id fields actor constraints reason s :
  kkeeps (update_contract id fields actor constraints reason) s.
Proof.
  intros Hok. destruct (update_contract id fields actor constraints reason s) as [r s'] eqn:Hrun. cbn [snd].
  apply update_contract_cases in Hrun as [[_ Hsame]|(c & v & -> & Hc & <- & Hn & Hfresh & Hrows & Hversions)].
  { by apply (kkeeps_same (λ _, (Ok tt, s')) s Hsame). }
  unfold contracts_ok. rewrite Hrows, Hversions. split.
  - apply (versioned_append _ _ _ _ _ _ _ c v); [exact Hok|done|by rewrite Hn|by rewrite Hn|by apply Hfresh| |done|done].
    intros x. unfold by_contract. by rewrite bool_decide_eq_true.
  - split; [|rewrite Hversions; by apply prefix_app_r]. rewrite Hrows. apply grown_fmap. intros x Hx.
    unfold by_contract. case_bool_decide as Hid; [|reflexivity]. split; [done|].
    rewrite (versioned_parent_eq _ _ _ _ _ _ _ _ _ Hok Hx Hc Hid), Hn. simpl. lia.
Qed.

Lemma kkeeps_lifecycle l id s : kkeeps (set_contract_lifecycle l id) s.
Proof.
  unfold set_contract_lifecycle. apply keeps_bind; [exact _|apply keeps_reading; [exact _|apply get_contract_or_raise_reads]|].
  intros c s1 _. apply keeps_bind; [exact _| |intros; apply kkeeps_ret]. intros Hok. split; [|split; [|done]].
  - apply versioned_update; [done|done|exact Hok].
  - apply grown_fmap. intros x _. destruct (by_contract id x); [by split|reflexivity].
Qed.

(** *** Reachability *)

Inductive contract_op :=
  | KCreate (name type owner : string) (fields : list ContractField) (description : string)
      (constraints : option (list ContractConstraint)) (metadata : option jdict)
  | KUpdate (id : string) (fields : list ContractField) (actor : string)
      (constraints : option (list ContractConstraint)) (reason : string)
  | KDeprecate (id : string)
  | KArchive (id : string).

Definition run_contract_op (op : contract_op) : lp unit :=
  match op with
  | KCreate name type owner fields description constraints metadata =>
      create_contract known_principal name type owner fields description constraints metadata ;; mret tt
  | KUpdate id fields actor constraints reason => update_contract id fields actor constraints reason ;; mret tt
  | KDeprecate id => deprecate_contract id ;; mret tt
  | KArchive id => archive_contract id ;; mret tt
  end.

Inductive contract_step : relation store :=
  | contract_step_op op s : contract_step s (run_contract_op op s).2
  | contract_step_other s s' : same_contracts s s' → contract_step s s'.

Lemma contract_step_keeps s s' :
  contract_step s s' → contracts_ok (st_db s) → contracts_ok (st_db s') ∧ contracts_later (st_db s) (st_db s').
Proof.
  intros Hstep Hok. destruct Hstep as [op s|s s' Hsame]; [|exact (kkeeps_same (λ _, (Ok tt, s')) s Hsame Hok)].
  revert Hok. destruct op; cbn [run_contract_op]; apply keeps_bind; try exact _; try (intros; apply kkeeps_ret).
  - apply kkeeps_create.
  - apply kkeeps_update.
  - apply kkeeps_lifecycle.
  - apply kkeeps_lifecycle.
Qed.

Lemma contract_steps_keep s s' :
  rtc contract_step s s' → contracts_ok (st_db s) → contracts_ok (st_db s') ∧ contracts_later (st_db s) (st_db s').
Proof.
  induction 1 as [s|s1 s2 s3 H12 _ IH]; intros Hok; [done|].
  destruct (contract_step_keeps _ _ H12 Hok) as [Hok2 Hl12]. destruct (IH Hok2) as [Hok3 Hl23].
  split; [done|]. by etrans.
Qed.

Lemma find_version id n v s :
  contracts_ok (st_db s) → v ∈ contract_versions_of (st_db s) → kv_contract v = id → kv_version v = n →
  get_contract_version id (Some n) s = (Ok (Some v), s).
Proof.
  intros Hok Hv Hid Hn. cbn [get_contract_version].
  destruct (fetch_one (k_table k_contract_versions) _ s) as [[o|e] s1] eqn:Hf; [|done].
  apply fetch_one_ok in Hf as [-> Hf]. destruct o as [w|].
  - destruct Hf as [Hw [Hwid%bool_decide_eq_true_1 Hwn%bool_decide_eq_true_1]%andb_true_iff].
    do 3 f_equal. by apply (versioned_key_eq _ _ _ _ _ _ _ _ _ Hok Hw Hv); congruence.
  - specialize (Hf v Hv). unfold contract_version_of in Hf. by rewrite !bool_decide_eq_true_2 in Hf.
Qed.

Lemma latest_run id v s :
  v ∈ contract_versions_of (st_db s) ∧ kv_contract v = id →
  (∀ w, w ∈ contract_versions_of (st_db s) → kv_contract w = id → w = v ∨ kv_version w < kv_version v) →
  get_contract_version id None s = (Ok (Some v), s).
Proof.
  intros [Hv Hid] Hmax. change (get_contract_version id None s) with
    (@Ok (option ContractVersion) (head (sort_by latest_version (scan (filter (λ x, contract_version_of id x = true)
      (contract_versions_of (st_db s)))))), s). do 2 f_equal. apply head_newest.
  - rewrite scan_perm, list_elem_of_filter. split; [by apply bool_decide_eq_true|done].
  - intros w. rewrite scan_perm, list_elem_of_filter. intros [Hw%bool_decide_eq_true Hin]. by apply Hmax.
Qed.

(** Contract versions are immutable: an update that returns added exactly the
    version numbered one above the contract's counter, which is the latest from
    then on; and whatever is called later, on every exit, each version can be
    fetched by its number as it was written, and data is judged against it as
    then. *)
Theorem update_contract_pins re_match id fields actor constraints reason s v s1 s2 :
  contracts_ok (st_db s) → update_contract id fields actor constraints reason s = (Ok v, s1) → rtc contract_step s1 s2 →
  (∃ c, c ∈ contracts_of (st_db s) ∧ kt_id c = id ∧ kv_version v = S (kt_version c)) ∧
  (kv_contract v = id ∧ kv_fields v = fields ∧ kv_constraints v = default [] constraints ∧ kv_created_by v = actor) ∧
  contract_versions_of (st_db s1) = contract_versions_of (st_db s) ++ [v] ∧
  get_contract_version id None s1 = (Ok (Some v), s1) ∧
  (∀ w, w ∈ contract_versions_of (st_db s1) →
    get_contract_version (kv_contract w) (Some (kv_version w)) s2 = (Ok (Some w), s2) ∧
    ∀ data, validate re_match data (kv_contract w) (Some (kv_version w)) s2 = (validate_against_version re_match data w, s2)) ∧
  contracts_ok (st_db s2).
Proof.
  intros Hok Hrun Hsteps. pose proof (kkeeps_update id fields actor constraints reason s Hok) as [Hok1 _].
  rewrite Hrun in Hok1. cbn [snd] in Hok1. destruct (contract_steps_keep _ _ Hsteps Hok1) as [Hok2 [_ Hversions]].
  apply update_contract_cases in Hrun as [[? _]|(c & v' & [= <-] & Hc & Hid & Hv & Hfresh & Hrows & Hvs)]; [done|].
  assert (Hvid : kv_contract v = id) by by rewrite Hv. split_and!; try by rewrite Hv.
  - exists c. split_and!; [done..|by rewrite Hv].
  - done.
  - apply latest_run.
    + split; [by rewrite Hvs; apply elem_of_app; right; left|done].
    + intros w Hw Hwid. rewrite Hvs in Hw. apply elem_of_app in Hw as [Hw|Hw%list_elem_of_singleton]; [|by left].
      right. destruct (vd_bound _ _ _ _ _ _ _ Hok w Hw) as (p & Hp & Hpid & _ & Hle).
      rewrite (versioned_parent_eq _ _ _ _ _ _ _ p c Hok Hp Hc ltac:(congruence)) in Hle.
      rewrite Hv. cbn [kv_version]. lia.
  - intros w Hw. assert (Hfind : get_contract_version (kv_contract w) (Some (kv_version w)) s2 = (Ok (Some w), s2)).
    { apply find_version; try done. destruct Hversions as [k ->]. apply elem_of_app. by left. }
    split; [exact Hfind|]. intros data. unfold validate. by rewrite (run_bind_ok _ _ _ _ _ Hfind).
  - done.
Qed.
End StoreTheory.
