(* ===== verification/Templates.v ===== *)
(** * Legacy v1: templates (registry/templates.py)

    Versioned blueprints and their instantiation: a deep merge of a schema with
    overrides. *)

From S2P Require Import Prelude LegacyTypes Schema Json Trail Rules RuleClients Tenancy Versioned Environments Contracts.

(** ** The deep merge *)

(** [value] over [base]: dicts are merged key by key, anything else replaces. *)
Fixpoint merge_value (base value : jval) {struct value} : jval :=
  match value, base with
  | JVdict overrides, JVdict b =>
      JVdict ((fix merge_items (result : jdict) (items : jdict) : jdict :=
        match items with
        | [] => result
        | (key, v) :: items' =>
            merge_items (jset result key (match jget result key with Some x => merge_value x v | None => v end)) items'
        end) b overrides)
  | _, _ => value
  end.

Fixpoint _deep_merge (base overrides : jdict) : jdict :=
  match overrides with
  | [] => base
  | (key, value) :: overrides' =>
      _deep_merge (jset base key (match jget base key with Some x => merge_value x value | None => value end)) overrides'
  end.

Lemma merge_value_dict b o : merge_value (JVdict b) (JVdict o) = JVdict (_deep_merge b o).
Proof. reflexivity. Qed.

Lemma merge_value_other b v : (∀ d o, b = JVdict d → v = JVdict o → False) → merge_value b v = v.
Proof. intros H. destruct v as [| | | | | |o]; try done. destruct b as [| | | | | |d]; try done. by destruct (H d o). Qed.

(** What a key holds in [base] with [overrides] over it. *)
Definition merged_at (b o : option jval) : option jval :=
  match o, b with
  | Some v, Some x => Some (merge_value x v)
  | Some v, None => Some v
  | None, _ => b
  end.

Lemma deep_merge_lookup b o k : NoDup o.*1 → jget (_deep_merge b o) k = merged_at (jget b k) (jget o k).
Proof.
  revert b. induction o as [|[k' v] o IH]; intros b Hnd; [done|].
  rewrite fmap_cons in Hnd. apply NoDup_cons in Hnd as [Hk Hnd]. cbn [_deep_merge]. rewrite IH by done.
  rewrite jget_jset, jget_cons. case_decide as He; [subst k'|].
  - rewrite decide_True by done. rewrite (proj2 (jget_none o k) Hk). cbn. by destruct (jget b k).
  - by rewrite decide_False.
Qed.

Lemma deep_merge_keys b o :
  NoDup o.*1 → (_deep_merge b o).*1 = b.*1 ++ filter (λ k, k ∉ b.*1) o.*1.
Proof.
  revert b. induction o as [|[k v] o IH]; intros b Hnd; [by rewrite app_nil_r|].
  rewrite fmap_cons in Hnd. apply NoDup_cons in Hnd as [Hk Hnd]. cbn [_deep_merge]. rewrite IH, fmap_cons, filter_cons by done.
  cbn [fst]. destruct (jget b k) as [x|] eqn:Hx.
  - rewrite jset_keys by (rewrite Hx; by eexists). rewrite decide_False; [done|].
    intros Hn. apply Hn. apply list_elem_of_fmap. exists (k, x). split; [done|by apply jget_elem].
  - assert (Hb : k ∉ b.*1) by by apply jget_none. rewrite decide_True by done.
    assert (Hset : (jset b k v).*1 = b.*1 ++ [k]).
    { unfold jset. destruct (existsb (λ x, bool_decide (x.1 = k)) b) eqn:He; [|by rewrite fmap_app].
      apply existsb_exists in He as (y & Hy & Hyk%bool_decide_eq_true_1). exfalso. apply Hb.
      apply list_elem_of_fmap. exists y. rewrite <-list_elem_of_In in Hy. done. }
    rewrite Hset, <-app_assoc. f_equal. cbn. f_equal. apply filter_ext_in.
    intros y Hy. rewrite not_elem_of_app, list_elem_of_singleton. split; [by intros [? _]|].
    intros Hyb. split; [done|]. by intros ->.
Qed.

(** ** TemplateStore *)

Definition by_template (id : string) (x : Template) : bool := bool_decide (tp_id x = id).
Definition version_of_template (id : string) (n : nat) (x : TemplateVersion) : bool :=
  bool_decide (tv_template x = id) && bool_decide (tv_version x = n).

Definition template_active (x : Template) : bool := bool_decide (tp_lifecycle x = ACTIVE).

Definition set_template (name description : string) (schema : jdict) (version : nat) (l : Lifecycle) (x : Template)
  : Template := {|
  tp_id := tp_id x; tp_name := name; tp_description := description; tp_type := tp_type x; tp_owner := tp_owner x;
  tp_schema := schema; tp_version := version; tp_created_at := tp_created_at x; tp_scope := tp_scope x;
  tp_lifecycle := l |}.

Record InstantiationResult := {
  is_template : string; is_name : string; is_type : string; is_version : nat; is_data : jdict; is_overrides : jdict;
}.

Section Templates.
Context `{host : !Host}.
Context (known_principal : string → bool).

Definition insert_template (x : Template) : lp unit :=
  raise_if (negb (known_principal (tp_owner x))) (IntegrityError "templates.owner_id") ;;
  match tp_scope x with
  | Some sc => require_row t_scopes (λ y, bool_decide (sc_id y = sc)) "templates.scope_id"
  | None => mret tt
  end ;;
  sql_insert (k_table k_templates) set_construct_templates (λ a b, bool_decide (tp_id a = tp_id b)) "templates.id" x.

(** UNIQUE(template_id, version). *)
Definition template_version_clash (a b : TemplateVersion) : bool :=
  bool_decide (tv_id a = tv_id b) ||
  bool_decide (tv_template a = tv_template b) && bool_decide (tv_version a = tv_version b).

Definition insert_template_version (v : TemplateVersion) : lp unit :=
  require_row (k_table k_templates) (by_template (tv_template v)) "template_versions.template_id" ;;
  sql_insert (k_table k_template_versions) set_template_versions template_version_clash "template_versions" v.

Definition create_template (name type owner : string) (schema : jdict) (description : string) (scope : option string)
  : lp Template :=
  ts ← now_utc;
  tid ← generate_id;
  vid ← generate_id;
  let x := {| tp_id := tid; tp_name := name; tp_description := description; tp_type := type; tp_owner := owner;
    tp_schema := schema; tp_version := 1; tp_created_at := ts; tp_scope := scope; tp_lifecycle := ACTIVE |} in
  insert_template x ;;
  insert_template_version {| tv_id := vid; tv_template := tid; tv_version := 1; tv_schema := schema;
    tv_created_at := ts; tv_created_by := owner; tv_reason := "initial" |} ;;
  mret x.

Definition get_template (id : string) : lp Template :=
  found ← fetch_one (k_table k_templates) (by_template id);
  match found with
  | Some x => mret x
  | None => raise (TemplateNotFound ("Template not found: " +:+ id))
  end.

Definition get_template_version (id : string) (n : nat) : lp TemplateVersion :=
  found ← fetch_one (k_table k_template_versions) (version_of_template id n);
  match found with
  | Some v => mret v
  | None => raise (TemplateVersionNotFound ("Template version not found: " +:+ id +:+ " v" +:+ pretty n))
  end.

Definition oldest_template_version (a b : TemplateVersion) : bool := tv_version a <=? tv_version b.

Definition list_template_versions (id : string) : lp (list TemplateVersion) :=
  select_sorted (k_table k_template_versions) (λ v, bool_decide (tv_template v = id)) oldest_template_version.

Definition _require_template_owner (x : Template) (principal : string) : lp unit :=
  raise_if (negb (bool_decide (tp_owner x = principal))) (AccessDenied "Only the template owner can perform this action").

Definition _require_active (x : Template) : lp unit :=
  raise_if (negb (template_active x))
    (TemplateInstantiationError ("Template is not active: " +:+ lifecycle_name (tp_lifecycle x))).

Definition update_template (id principal : string) (schema : jdict) (name description : option string)
  (reason : string) : lp Template :=
  x ← get_template id;
  _require_template_owner x principal ;;
  _require_active x ;;
  ts ← now_utc;
  let new_version := S (tp_version x) in
  vid ← generate_id;
  sql_update (k_table k_templates) set_construct_templates (by_template id) (λ y,
    set_template (default (tp_name y) name) (default (tp_description y) description) schema new_version
      (tp_lifecycle y) y) ;;
  insert_template_version {| tv_id := vid; tv_template := id; tv_version := new_version; tv_schema := schema;
    tv_created_at := ts; tv_created_by := principal; tv_reason := reason |} ;;
  get_template id.

Definition newest_template (a b : Template) : bool := (tp_created_at b <=? tp_created_at a)%Z.

Definition list_templates (owner type scope : option string) (include_archived : bool) : lp (list Template) :=
  select_sorted (k_table k_templates) (λ x,
    filter_opt owner (tp_owner x) && filter_opt type (tp_type x) && opt_filter_opt scope (tp_scope x) &&
    (include_archived || negb (bool_decide (tp_lifecycle x = ARCHIVED)))) newest_template.

Definition archive_template (id principal : string) : lp Template :=
  x ← get_template id;
  _require_template_owner x principal ;;
  sql_update (k_table k_templates) set_construct_templates (by_template id) (λ y,
    set_template (tp_name y) (tp_description y) (tp_schema y) (tp_version y) ARCHIVED y) ;;
  get_template id.

Definition instantiate (id : string) (overrides : option jdict) (version : option nat) : lp InstantiationResult :=
  x ← get_template id;
  raise_if (negb (template_active x)) (TemplateInstantiationError ("Cannot instantiate archived template: " +:+ id)) ;;
  used ← match version with
         | Some n => tv ← get_template_version id n; mret (tv_schema tv, tv_version tv)
         | None => mret (tp_schema x, tp_version x)
         end;
  let o := default [] overrides in
  mret {| is_template := tp_id x; is_name := tp_name x; is_type := tp_type x; is_version := used.2;
          is_data := _deep_merge used.1 o; is_overrides := o |}.
End Templates.

(** ** The versions of a template *)

Definition templates_of (t : tables) : list Template := k_templates (blueprints t).
Definition template_versions_of (t : tables) : list TemplateVersion := k_template_versions (blueprints t).

(** Versions are sound, and the version that the counter names has the
    template's schema. *)
Record templates_ok (t : tables) : Prop := {
  tk_versioned : versioned tp_id tp_version tv_id tv_template tv_version (templates_of t) (template_versions_of t);
  tk_current : ∀ x v, x ∈ templates_of t → v ∈ template_versions_of t → tv_template v = tp_id x →
    tv_version v = tp_version x → tv_schema v = tp_schema x;
}.

Definition later_template (x x' : Template) : Prop :=
  x' = set_template (tp_name x') (tp_description x') (tp_schema x') (tp_version x') (tp_lifecycle x') x ∧
  tp_version x ≤ tp_version x' ∧ (tp_lifecycle x = ARCHIVED → tp_lifecycle x' = ARCHIVED).

#[export] Instance later_template_preorder : PreOrder later_template.
Proof.
  split; [intros x; split; [by destruct x|by split]|]. intros a b c (Hab & Nab & Lab) (Hbc & Nbc & Lbc). split_and!; [|lia|tauto].
  rewrite Hbc, Hab. done.
Qed.

Record templates_later (t t' : tables) : Prop := {
  tl_templates : grown later_template (templates_of t) (templates_of t');
  tl_versions : template_versions_of t `prefix_of` template_versions_of t';
}.

#[export] Instance templates_later_preorder : PreOrder templates_later.
Proof. split; [intros t; by split|]. intros a b c [] []. split; by etrans. Qed.

Definition same_templates : relation store := λ s s',
  templates_of (st_db s') = templates_of (st_db s) ∧ template_versions_of (st_db s') = template_versions_of (st_db s).

Section TemplateTheory.
Context `{host : !Host}.
Context (known_principal : string → bool).

#[local] Abbreviation tkeeps := (keeps templates_ok templates_later).

Lemma tkeeps_same {R} (m : lp R) s : same_templates s (m s).2 → tkeeps m s.
Proof.
  intros [Hc Hv] [H1 H2]. split; [by split; rewrite Hc, Hv|]. split; [by rewrite Hc|by rewrite Hv].
Qed.

Lemma tkeeps_reads {R} (m : lp R) s : reads m → tkeeps m s.
Proof. intros H. apply keeps_reading; [exact _|done]. Qed.

Lemma get_template_reads id : reads (get_template id).
Proof. apply reads_bind; [apply fetch_one_reads|]. intros [x|]; [apply reads_ret|apply reads_raise]. Qed.

Lemma get_template_ok id s x s' : get_template id s = (Ok x, s') → s' = s ∧ x ∈ templates_of (st_db s) ∧ tp_id x = id.
Proof.
  unfold get_template. intros (o & s1 & [-> Ho]%fetch_one_ok & H)%bind_ok_inv.
  destruct o as [y|]; [|done]. apply mret_ok in H as [-> ->]. by destruct Ho as [Hy Hid%bool_decide_eq_true_1].
Qed.

Lemma template_clash_fresh v (l : list TemplateVersion) :
  (∀ x, x ∈ l → template_version_clash v x = false) →
  ∀ w, w ∈ l → tv_id v ≠ tv_id w ∧ (tv_template v, tv_version v) ≠ (tv_template w, tv_version w).
Proof.
  intros H w Hw. specialize (H w Hw). apply orb_false_iff in H as [H1%bool_decide_eq_false_1 H2]. split; [done|].
  intros [= Hc Hn]. by rewrite !bool_decide_eq_true_2 in H2.
Qed.

(** Inserting the version that the counter already names. *)
Lemma tkeeps_insert_version v s :
  1 ≤ tv_version v →
  (templates_ok (st_db s) → ∀ x, x ∈ templates_of (st_db s) → tp_id x = tv_template v →
    tv_version v ≤ tp_version x ∧ (tv_version v = tp_version x → tv_schema v = tp_schema x)) →
  tkeeps (insert_template_version v) s.
Proof.
  intros Hone Hcur Hok. specialize (Hcur Hok). destruct Hok as [Hver Hsch]. unfold insert_template_version. rewrite run_bind.
  destruct (require_row_cases (k_table k_templates) (by_template (tv_template v)) "template_versions.template_id" s)
    as [Hrow|Hrow]; rewrite Hrow; [|by split].
  apply require_row_ok in Hrow as [_ (p & Hp & Hpid%bool_decide_eq_true_1)].
  destruct (sql_insert_cases (k_table k_template_versions) set_template_versions template_version_clash
    "template_versions" v s) as [->|[Hc ->]]; [by split|]. split; [split|split; [done|by apply prefix_app_r]].
  - apply versioned_snoc; [by apply template_clash_fresh| |exact Hver]. exists p. split; [done|]. split; [done|].
    split; [done|]. by apply Hcur.
  - intros x w Hx [Hw|Hw%list_elem_of_singleton]%elem_of_app; [by apply Hsch|]. subst w.
    intros Hof Hn. by apply (Hcur x Hx).
Qed.

(** An update of the rows of one template. *)
Lemma tkeeps_edit id (f : Template → Template) s :
  (∀ x, tp_id (f x) = tp_id x) →
  (∀ x, x ∈ templates_of (st_db s) → tp_id x = id → later_template x (f x) ∧
    (tp_version (f x) = tp_version x ∧ tp_schema (f x) = tp_schema x ∨ tp_version x < tp_version (f x))) →
  tkeeps (sql_update (k_table k_templates) set_construct_templates (by_template id) f) s.
Proof.
  intros Hid Hf [Hver Hsch]. split; [split|split; [|done]].
  - apply versioned_update; [done| |exact Hver]. intros x Hx Hp%bool_decide_eq_true_1.
    destruct (Hf x Hx Hp) as [(_ & Hle & _) _]. done.
  - intros y v (x & -> & Hx)%list_elem_of_fmap Hv Hof Hn. unfold by_template in *. case_bool_decide as Hp; [|by apply Hsch].
    destruct (Hf x Hx Hp) as [_ [[Hn' Hs']|Hlt]]; rewrite Hid in Hof; [rewrite Hs'; apply Hsch; [done..|congruence]|].
    destruct (vd_bound _ _ _ _ _ _ _ Hver v Hv) as (p & Hpin & Hpid & _ & Hle).
    rewrite (versioned_parent_eq _ _ _ _ _ _ _ p x Hver Hpin Hx ltac:(congruence)) in Hle. lia.
  - apply grown_fmap. intros x Hx. unfold by_template. case_bool_decide as Hp; [by apply Hf|reflexivity].
Qed.

Lemma insert_template_gate_reads x :
  reads (match tp_scope x with
         | Some sc => require_row t_scopes (λ y, bool_decide (sc_id y = sc)) "templates.scope_id"
         | None => mret tt
         end : lp unit).
Proof. destruct (tp_scope x); [intros s0; apply require_row_reads|apply reads_ret]. Qed.

Lemma tkeeps_insert x s : 1 ≤ tp_version x → tkeeps (insert_template known_principal x) s.
Proof.
  intros Hone. unfold insert_template. apply keeps_bind; [exact _|apply tkeeps_reads, reads_raise_if|]. intros _ s1 _.
  apply keeps_bind; [exact _|apply tkeeps_reads, insert_template_gate_reads|]. intros _ s2 _ [Hver Hsch].
  destruct (sql_insert_cases (k_table k_templates) set_construct_templates (λ a b, bool_decide (tp_id a = tp_id b))
    "templates.id" x s2) as [->|[Hc ->]]; [done|]. split; [split|split; [|done]].
  - apply versioned_parent; [exact Hver|done|]. intros q Hq. specialize (Hc q Hq). by apply bool_decide_eq_false_1 in Hc.
  - intros y v [Hy|Hy%list_elem_of_singleton]%elem_of_app Hv Hof Hn; [by apply Hsch|]. subst y.
    destruct (vd_bound _ _ _ _ _ _ _ Hver v Hv) as (p & Hp & Hpid & _). specialize (Hc p Hp).
    apply bool_decide_eq_false_1 in Hc. congruence.
  - apply grown_app. intros y. reflexivity.
Qed.

Lemma insert_template_ok x s u s' : insert_template known_principal x s = (Ok u, s') → x ∈ templates_of (st_db s').
Proof.
  unfold insert_template. intros (? & s1 & _ & (? & s2 & _ & H)%bind_ok_inv)%bind_ok_inv.
  destruct (sql_insert_cases (k_table k_templates) set_construct_templates (λ a b, bool_decide (tp_id a = tp_id b))
    "templates.id" x s2) as [Hr|[_ Hr]]; rewrite Hr in H; [done|]. injection H as _ <-. apply elem_of_app. right. left.
Qed.

Lemma tkeeps_create name type owner schema description scope s :
  tkeeps (create_template known_principal name type owner schema description scope) s.
Proof.
  unfold create_template. apply keeps_bind; [exact _|by apply tkeeps_same|]. intros ts s1 _.
  apply keeps_bind; [exact _|by apply tkeeps_same|]. intros tid s2 _.
  apply keeps_bind; [exact _|by apply tkeeps_same|]. intros vid s3 _. cbv zeta.
  apply keeps_bind; [exact _|by apply tkeeps_insert|]. intros [] s4 Hx%insert_template_ok.
  apply keeps_bind; [exact _| |intros; by apply tkeeps_same].
  apply tkeeps_insert_version; [done|]. intros [Hver _] y Hy Hid.
  by rewrite (versioned_parent_eq _ _ _ _ _ _ _ _ _ Hver Hy Hx Hid).
Qed.

Lemma tkeeps_update id principal schema name description reason s :
  tkeeps (update_template id principal schema name description reason) s.
Proof.
  unfold update_template, _require_template_owner, _require_active.
  apply keeps_bind; [exact _|apply tkeeps_reads, get_template_reads|]. intros x s1 (-> & Hx & Hid)%get_template_ok.
  apply keeps_bind; [exact _|apply tkeeps_reads, reads_raise_if|]. intros [] s2 [_ ->]%raise_if_ok.
  apply keeps_bind; [exact _|apply tkeeps_reads, reads_raise_if|]. intros [] s2 [_ ->]%raise_if_ok.
  apply keeps_bind; [exact _|by apply tkeeps_same|]. intros ts s2 [= <- <-]. cbv zeta.
  apply keeps_bind; [exact _|by apply tkeeps_same|]. intros vid s2 [= <- <-] Hok. pose proof Hok as [Hver _]. revert Hok.
  assert (Hsame : ∀ y, y ∈ templates_of (st_db s) → tp_id y = id → y = x).
  { intros y Hy Hyid. apply (versioned_parent_eq _ _ _ _ _ _ _ _ _ Hver Hy Hx). congruence. }
  apply keeps_bind; [exact _| |].
  - apply tkeeps_edit; [done|]. intros y Hy Hyid. rewrite (Hsame y Hy Hyid). split; [|right; simpl; lia].
    split; [done|]. simpl. split; [lia|done].
  - intros [] s2 [= <-]. apply keeps_bind; [exact _| |intros; apply tkeeps_reads, get_template_reads].
    apply tkeeps_insert_version; [simpl; lia|]. intros _ y (z & -> & Hz)%list_elem_of_fmap. cbn [tv_template tv_version tv_schema].
    unfold by_template. case_bool_decide as Hp; [done|]. by intros ?.
Qed.

Lemma tkeeps_archive id principal s : tkeeps (archive_template id principal) s.
Proof.
  unfold archive_template. apply keeps_bind; [exact _|apply tkeeps_reads, get_template_reads|]. intros x s1 _.
  apply keeps_bind; [exact _|apply tkeeps_reads, reads_raise_if|]. intros _ s2 _.
  apply keeps_bind; [exact _| |intros; apply tkeeps_reads, get_template_reads].
  apply tkeeps_edit; [done|]. intros y _ _. split; [|by left]. by split.
Qed.

(** *** Reachability *)

Inductive template_op :=
  | TCreate (name type owner : string) (schema : jdict) (description : string) (scope : option string)
  | TUpdate (id principal : string) (schema : jdict) (name description : option string) (reason : string)
  | TArchive (id principal : string).

Definition run_template_op (op : template_op) : lp unit :=
  match op with
  | TCreate name type owner schema description scope =>
      create_template known_principal name type owner schema description scope ;; mret tt
  | TUpdate id principal schema name description reason =>
      update_template id principal schema name description reason ;; mret tt
  | TArchive id principal => archive_template id principal ;; mret tt
  end.

Inductive template_step : relation store :=
  | template_step_op op s : template_step s (run_template_op op s).2
  | template_step_other s s' : same_templates s s' → template_step s s'.

Lemma template_steps_keep s s' :
  rtc template_step s s' → templates_ok (st_db s) → templates_ok (st_db s') ∧ templates_later (st_db s) (st_db s').
Proof.
  induction 1 as [s|s1 s2 s3 H12 _ IH]; intros Hok; [done|].
  assert (H : templates_ok (st_db s2) ∧ templates_later (st_db s1) (st_db s2)).
  { destruct H12 as [op s1|s1 s2 Hsame]; [|exact (tkeeps_same (λ _, (Ok tt, s2)) s1 Hsame Hok)].
    revert Hok. destruct op; cbn [run_template_op]; apply keeps_bind; try exact _; try (intros; by apply tkeeps_same).
    - apply tkeeps_create.
    - apply tkeeps_update.
    - apply tkeeps_archive. }
  destruct H as [Hok2 Hl12]. destruct (IH Hok2) as [Hok3 Hl23]. split; [done|]. by etrans.
Qed.

Lemma get_template_run x s :
  templates_ok (st_db s) → x ∈ templates_of (st_db s) → get_template (tp_id x) s = (Ok x, s).
Proof.
  intros [Hver _] Hx. unfold get_template. destruct (fetch_one (k_table k_templates) (by_template (tp_id x)) s) as [[o|e] s1] eqn:Hf; [|done].
  rewrite (run_bind_ok _ _ _ _ _ Hf). apply fetch_one_ok in Hf as [-> Hf]. destruct o as [y|].
  - destruct Hf as [Hy Hid%bool_decide_eq_true_1]. by rewrite (versioned_parent_eq _ _ _ _ _ _ _ y x Hver Hy Hx Hid).
  - specialize (Hf x Hx). by apply bool_decide_eq_false_1 in Hf.
Qed.

Lemma get_template_version_run v s :
  templates_ok (st_db s) → v ∈ template_versions_of (st_db s) →
  get_template_version (tv_template v) (tv_version v) s = (Ok v, s).
Proof.
  intros [Hver _] Hv. unfold get_template_version.
  destruct (fetch_one (k_table k_template_versions) (version_of_template (tv_template v) (tv_version v)) s) as [[o|e] s1] eqn:Hf; [|done].
  rewrite (run_bind_ok _ _ _ _ _ Hf). apply fetch_one_ok in Hf as [-> Hf]. destruct o as [w|].
  - destruct Hf as [Hw [Hid%bool_decide_eq_true_1 Hn%bool_decide_eq_true_1]%andb_true_iff].
    by rewrite (versioned_key_eq _ _ _ _ _ _ _ w v Hver Hw Hv Hid Hn).
  - specialize (Hf v Hv). unfold version_of_template in Hf. by rewrite !bool_decide_eq_true_2 in Hf.
Qed.

Lemma get_template_version_ok id n s v s' :
  get_template_version id n s = (Ok v, s') →
  s' = s ∧ v ∈ template_versions_of (st_db s) ∧ tv_template v = id ∧ tv_version v = n.
Proof.
  unfold get_template_version. intros (o & s1 & [-> Ho]%fetch_one_ok & H)%bind_ok_inv.
  destruct o as [w|]; [|done]. apply mret_ok in H as [-> ->].
  by destruct Ho as [Hw [Hid%bool_decide_eq_true_1 Hn%bool_decide_eq_true_1]%andb_true_iff].
Qed.

(** The instance that an active template gives from a schema. *)
Definition instance_of (x : Template) (schema : jdict) (n : nat) (o : jdict) : InstantiationResult := {|
  is_template := tp_id x; is_name := tp_name x; is_type := tp_type x; is_version := n;
  is_data := _deep_merge schema o; is_overrides := o |}.

Lemma instantiate_ok id overrides version s res s' :
  instantiate id overrides version s = (Ok res, s') →
  s' = s ∧ ∃ x schema n, x ∈ templates_of (st_db s) ∧ tp_id x = id ∧ tp_lifecycle x = ACTIVE ∧
    res = instance_of x schema n (default [] overrides) ∧
    match version with
    | None => schema = tp_schema x ∧ n = tp_version x
    | Some m => n = m ∧ ∃ v, v ∈ template_versions_of (st_db s) ∧ tv_template v = id ∧ tv_version v = m ∧ schema = tv_schema v
    end.
Proof.
  unfold instantiate. intros (x & s1 & (-> & Hx & Hid)%get_template_ok & H)%bind_ok_inv.
  apply bind_ok_inv in H as ([] & s1 & [Hact ->]%raise_if_ok & H).
  apply negb_false_iff, bool_decide_eq_true_1 in Hact.
  apply bind_ok_inv in H as ([schema n] & s1 & Hused & [-> ->]%mret_ok). destruct version as [m|].
  - apply bind_ok_inv in Hused as (v & s2 & (-> & Hv & Hof & Hn)%get_template_version_ok & [[= -> ->] ->]%mret_ok).
    split; [done|]. exists x, (tv_schema v), (tv_version v). split_and!; try done. by exists v.
  - apply mret_ok in Hused as [[= -> ->] ->]. split; [done|]. by exists x, (tp_schema x), (tp_version x).
Qed.

Lemma instantiate_run x v overrides s :
  templates_ok (st_db s) → x ∈ templates_of (st_db s) → tp_lifecycle x = ACTIVE →
  v ∈ template_versions_of (st_db s) → tv_template v = tp_id x →
  instantiate (tp_id x) overrides (Some (tv_version v)) s =
    (Ok (instance_of x (tv_schema v) (tv_version v) (default [] overrides)), s).
Proof.
  intros Hok Hx Hact Hv Hof. unfold instantiate. rewrite (run_bind_ok _ _ _ _ _ (get_template_run x s Hok Hx)).
  unfold template_active. rewrite (bool_decide_eq_true_2 _ Hact). rewrite <-Hof.
  rewrite (run_bind_ok _ _ _ _ _ (eq_refl : raise_if false _ s = (Ok tt, s))).
  rewrite (run_bind_ok _ _ s (tv_schema v, tv_version v) s); [by rewrite Hof|].
  by rewrite (run_bind_ok _ _ _ _ _ (get_template_version_run v s Hok Hv)).
Qed.

(** An instance is the deep merge of a schema with the overrides: each key holds
    the override, merged into the default when both are dicts, or the default,
    and the keys keep their order; the schema is that of the version asked for, or
    the template's own, which is that of its current version; and however the
    template is updated later, while it is active the same version gives the same
    instance. *)
Theorem instantiate_exact id overrides version s res s' :
  templates_ok (st_db s) → NoDup (default [] overrides).*1 →
  instantiate id overrides version s = (Ok res, s') →
  s' = s ∧ ∃ x schema, x ∈ templates_of (st_db s) ∧ tp_id x = id ∧ tp_lifecycle x = ACTIVE ∧
    is_version res = default (tp_version x) version ∧
    (version = None → schema = tp_schema x) ∧
    (∀ v, v ∈ template_versions_of (st_db s) → tv_template v = id → tv_version v = is_version res → tv_schema v = schema) ∧
    (∀ k, jget (is_data res) k = merged_at (jget schema k) (jget (default [] overrides) k)) ∧
    (is_data res).*1 = schema.*1 ++ filter (λ k, k ∉ schema.*1) (default [] overrides).*1 ∧
    ∀ n later, version = Some n → rtc template_step s later →
      (∃ y, y ∈ templates_of (st_db later) ∧ tp_id y = id ∧ tp_lifecycle y = ACTIVE) →
      ∃ res', instantiate id overrides version later = (Ok res', later) ∧ is_data res' = is_data res ∧
        is_version res' = is_version res.
Proof.
  intros Hok Hnd (-> & x & schema & n & Hx & Hid & Hact & -> & Hfrom)%instantiate_ok. split; [done|].
  exists x, schema. pose proof Hok as [Hver Hsch]. cbn [instance_of is_data is_version].
  split_and!; [done..| | | |by intros k; apply deep_merge_lookup|by apply deep_merge_keys|].
  - destruct version as [m|]; simpl; [by destruct Hfrom|by destruct Hfrom].
  - intros ->. by destruct Hfrom.
  - intros v Hv Hof Hn. destruct version as [m|].
    + destruct Hfrom as (-> & w & Hw & Hwof & Hwn & ->).
      rewrite (versioned_key_eq _ _ _ _ _ _ _ v w Hver Hv Hw); congruence.
    + destruct Hfrom as [-> ->]. apply (Hsch x v Hx Hv); congruence.
  - intros m later -> Hsteps (y & Hy & Hyid & Hyact). destruct Hfrom as (-> & v & Hv & Hof & <- & ->).
    destruct (template_steps_keep s later Hsteps Hok) as [Hok' [_ [k Hk]]].
    eexists. split; [rewrite <-Hyid; apply instantiate_run; try done; [rewrite Hk; apply elem_of_app; by left|congruence]|done].
Qed.
End TemplateTheory.
