(* ===== verification/Plugins.v ===== *)
(** * Legacy v1: integrations and plugins (integrations/)

    Plugins with their states, permissions and hooks, the sandbox checks, the
    dispatch of hook points to handlers, and the connections to external systems. *)

From S2P Require Import Prelude LegacyTypes Schema Json Trail Rules Tenancy Secrets Scheduling RuleGate.

Definition g_table {R} (f : plugin_tables → list R) (t : tables) : list R := f (plugging t).

(** ** models.py *)

Definition plugin_state_value (x : PluginState) : string :=
  match x with
  | INSTALLED => "installed" | PLUGIN_ACTIVE => "active" | PLUGIN_SUSPENDED => "suspended" | UNINSTALLED => "uninstalled"
  end.

Definition VALID_PLUGIN_TRANSITIONS (x : PluginState) : list PluginState :=
  match x with
  | INSTALLED => [PLUGIN_ACTIVE; UNINSTALLED]
  | PLUGIN_ACTIVE => [PLUGIN_SUSPENDED; UNINSTALLED]
  | PLUGIN_SUSPENDED => [PLUGIN_ACTIVE; UNINSTALLED]
  | UNINSTALLED => []
  end.

Definition plugin_can_transition_to (p : Plugin) (target : PluginState) : bool :=
  bool_decide (target ∈ VALID_PLUGIN_TRANSITIONS (pg_state p)).

Definition by_integration (id : string) (x : Integration) : bool := bool_decide (ig_id x = id).
Definition by_plugin (id : string) (x : Plugin) : bool := bool_decide (pg_id x = id).
Definition by_hook (id : string) (x : PluginHook) : bool := bool_decide (hk_id x = id).
Definition by_permission (id : string) (x : PluginPermission) : bool := bool_decide (pn_id x = id).
Definition hook_of (id : string) (x : PluginHook) : bool := bool_decide (hk_plugin x = id).
Definition permission_of (id : string) (x : PluginPermission) : bool := bool_decide (pn_plugin x = id).
Definition hook_active (x : PluginHook) : bool := bool_decide (hk_lifecycle x = ACTIVE).
Definition permission_active (x : PluginPermission) : bool := bool_decide (pn_lifecycle x = ACTIVE).
Definition integration_active (x : Integration) : bool := bool_decide (ig_lifecycle x = ACTIVE).

(** *** Row edits *)

Definition set_integration (config : jdict) (l : Lifecycle) (x : Integration) : Integration := {|
  ig_id := ig_id x; ig_name := ig_name x; ig_type := ig_type x; ig_owner := ig_owner x;
  ig_created_at := ig_created_at x; ig_description := ig_description x; ig_scope := ig_scope x; ig_config := config;
  ig_credentials := ig_credentials x; ig_lifecycle := l; ig_metadata := ig_metadata x |}.

Definition set_plugin (st : PluginState) (activated : option Z) (x : Plugin) : Plugin := {|
  pg_id := pg_id x; pg_name := pg_name x; pg_owner := pg_owner x; pg_installed_at := pg_installed_at x;
  pg_version := pg_version x; pg_description := pg_description x; pg_scope := pg_scope x;
  pg_manifest := pg_manifest x; pg_state := st; pg_activated_at := activated; pg_metadata := pg_metadata x |}.

Definition archived_hook (x : PluginHook) : PluginHook := {|
  hk_id := hk_id x; hk_plugin := hk_plugin x; hk_point := hk_point x; hk_handler := hk_handler x;
  hk_priority := hk_priority x; hk_lifecycle := ARCHIVED |}.

Definition archived_permission (x : PluginPermission) : PluginPermission := {|
  pn_id := pn_id x; pn_plugin := pn_plugin x; pn_type := pn_type x; pn_target := pn_target x;
  pn_granted_at := pn_granted_at x; pn_granted_by := pn_granted_by x; pn_lifecycle := ARCHIVED |}.

(** *** Snapshots *)

Section Snapshots.
Context `{host : !Host}.

Definition integration_snapshot (x : Integration) : jdict := [
  ("id", JVstr (ig_id x)); ("name", JVstr (ig_name x)); ("description", JVstr (ig_description x));
  ("integration_type", JVstr (ig_type x)); ("owner_id", JVstr (ig_owner x)); ("scope_id", jopt (ig_scope x));
  ("config", JVdict (ig_config x)); ("credentials_ref", jopt (ig_credentials x));
  ("lifecycle", JVstr (lifecycle_name (ig_lifecycle x))); ("metadata", JVdict (ig_metadata x));
  ("created_at", JVstr (isoformat (ig_created_at x)))].

Definition plugin_snapshot (x : Plugin) : jdict := [
  ("id", JVstr (pg_id x)); ("name", JVstr (pg_name x)); ("description", JVstr (pg_description x));
  ("version", JVstr (pg_version x)); ("owner_id", JVstr (pg_owner x)); ("scope_id", jopt (pg_scope x));
  ("state", JVstr (plugin_state_value (pg_state x))); ("manifest", JVdict (pg_manifest x));
  ("metadata", JVdict (pg_metadata x)); ("installed_at", JVstr (isoformat (pg_installed_at x)));
  ("activated_at", jtime (pg_activated_at x))].

Definition hook_snapshot (x : PluginHook) : jdict := [
  ("id", JVstr (hk_id x)); ("plugin_id", JVstr (hk_plugin x)); ("hook_point", JVstr (hk_point x));
  ("handler_ref", JVstr (hk_handler x)); ("priority", JVint (hk_priority x));
  ("lifecycle", JVstr (lifecycle_name (hk_lifecycle x)))].

Definition permission_snapshot (x : PluginPermission) : jdict := [
  ("id", JVstr (pn_id x)); ("plugin_id", JVstr (pn_plugin x)); ("permission_type", JVstr (pn_type x));
  ("target_ref", JVstr (pn_target x)); ("granted_at", JVstr (isoformat (pn_granted_at x)));
  ("granted_by", JVstr (pn_granted_by x)); ("lifecycle", JVstr (lifecycle_name (pn_lifecycle x)))].
End Snapshots.

(** ** PluginLifecycleManager (lifecycle.py) *)

Section Lifecycle.
Context `{host : !Host} `{sink : !AuditSink} `{registry : !AutoRegister}.
Context (known_principal : string → bool) (rule_engine : option (option Z)) (exc_text : exn → string).

(** An optional scope exists. *)
Definition require_scope (c : string) (scope : option string) : lp unit :=
  match scope with
  | Some sc => require_row t_scopes (λ y, bool_decide (sc_id y = sc)) c
  | None => mret tt
  end.

(** UNIQUE(name). *)
Definition plugin_clash (a b : Plugin) : bool :=
  bool_decide (pg_id a = pg_id b) || bool_decide (pg_name a = pg_name b).

Definition insert_plugin (x : Plugin) : lp unit :=
  raise_if (negb (known_principal (pg_owner x))) (IntegrityError "plugins.owner_id") ;;
  require_scope "plugins.scope_id" (pg_scope x) ;;
  sql_insert (g_table g_plugins) set_plugin_rows plugin_clash "plugins" x.

Definition insert_hook (x : PluginHook) : lp unit :=
  require_row (g_table g_plugins) (by_plugin (hk_plugin x)) "plugin_hooks.plugin_id" ;;
  sql_insert (g_table g_hooks) set_hooks (λ a b, bool_decide (hk_id a = hk_id b)) "plugin_hooks.id" x.

Definition insert_permission (x : PluginPermission) : lp unit :=
  require_row (g_table g_plugins) (by_plugin (pn_plugin x)) "plugin_permissions.plugin_id" ;;
  sql_insert (g_table g_permissions) set_permissions (λ a b, bool_decide (pn_id a = pn_id b)) "plugin_permissions.id" x.

Definition install_plugin (name owner version description : string) (scope : option string)
  (manifest metadata : option jdict) : lp Plugin :=
  _check_rule rule_engine (access "plugin_install" (Some owner) "plugin" None scope) ;;
  ts ← now_utc;
  pid ← generate_id;
  let plugin := {| pg_id := pid; pg_name := name; pg_owner := owner; pg_installed_at := ts; pg_version := version;
    pg_description := description; pg_scope := scope; pg_manifest := default [] manifest; pg_state := INSTALLED;
    pg_activated_at := None; pg_metadata := default [] metadata |} in
  translating exc_text ["unique"; "integrity"; "duplicate"] (PluginError ("Plugin name '" +:+ name +:+ "' is already in use"))
    (insert_plugin plugin) ;;
  swallow (auto_register ("plugin:" +:+ pid) owner) ;;
  audit (states_req None (Some (plugin_snapshot plugin)) (request owner ActionType.PLUGIN_INSTALL "plugin" pid)) ;;
  mret plugin.

Definition get_plugin (id : string) : lp (option Plugin) := fetch_one (g_table g_plugins) (by_plugin id).

Definition get_plugin_by_name (name : string) : lp (option Plugin) :=
  fetch_one (g_table g_plugins) (λ p, bool_decide (pg_name p = name)).

Definition get_plugin_or_raise (id : string) : lp Plugin :=
  p ← get_plugin id;
  match p with Some p => mret p | None => raise (PluginError ("Plugin " +:+ id +:+ " not found")) end.

Definition newest_plugin (a b : Plugin) : bool := (pg_installed_at b <=? pg_installed_at a)%Z.

Definition list_plugins (owner : option string) (st : option PluginState) (limit : nat) : lp (list Plugin) :=
  l ← select_sorted (g_table g_plugins) (λ p, filter_opt owner (pg_owner p) && filter_opt st (pg_state p)) newest_plugin;
  mret (take limit l).

Definition require_plugin_owner (p : Plugin) (actor : string) : lp unit :=
  raise_if (negb (bool_decide (pg_owner p = actor)))
    (AccessDenied ("Principal '" +:+ actor +:+ "' is not the owner of plugin '" +:+ pg_id p +:+ "'")).

Definition rule_action_map (a : ActionType.t) : option string :=
  match a with
  | ActionType.PLUGIN_ACTIVATE => Some "plugin_activate"
  | ActionType.PLUGIN_SUSPEND => Some "plugin_suspend"
  | ActionType.PLUGIN_UNINSTALL => Some "plugin_uninstall"
  | _ => None
  end.

(** The row after a transition at [ts]. *)
Definition plugin_moved (target : PluginState) (ts : Z) (x : Plugin) : Plugin :=
  set_plugin target (if bool_decide (target = PLUGIN_ACTIVE) then Some ts else pg_activated_at x) x.

Definition _plugin_transition (id : string) (target : PluginState) (actor : string) (action : ActionType.t) : lp Plugin :=
  plugin ← get_plugin_or_raise id;
  require_plugin_owner plugin actor ;;
  match rule_action_map action with
  | Some a => _check_rule rule_engine (access a (Some actor) "plugin" (Some id) (pg_scope plugin))
  | None => mret tt
  end ;;
  raise_if (negb (plugin_can_transition_to plugin target))
    (PluginError ("Cannot transition plugin from " +:+ plugin_state_value (pg_state plugin) +:+ " to " +:+
      plugin_state_value target)) ;;
  ts ← now_utc;
  sql_update (g_table g_plugins) set_plugin_rows (by_plugin id) (plugin_moved target ts) ;;
  let plugin' := plugin_moved target ts plugin in
  audit (states_req None (Some (plugin_snapshot plugin')) (request actor action "plugin" id)) ;;
  mret plugin'.

Definition activate_plugin (id actor : string) : lp Plugin :=
  _plugin_transition id PLUGIN_ACTIVE actor ActionType.PLUGIN_ACTIVATE.

Definition suspend_plugin (id actor : string) : lp Plugin :=
  plugin ← _plugin_transition id PLUGIN_SUSPENDED actor ActionType.PLUGIN_SUSPEND;
  sql_update (g_table g_hooks) set_hooks (λ h, hook_of id h && hook_active h) archived_hook ;;
  mret plugin.

Definition uninstall_plugin (id actor : string) : lp Plugin :=
  plugin ← _plugin_transition id UNINSTALLED actor ActionType.PLUGIN_UNINSTALL;
  sql_update (g_table g_permissions) set_permissions (permission_of id) archived_permission ;;
  sql_update (g_table g_hooks) set_hooks (hook_of id) archived_hook ;;
  mret plugin.

Definition grant_permission (plugin_id type target granted_by : string) : lp PluginPermission :=
  plugin ← get_plugin_or_raise plugin_id;
  require_plugin_owner plugin granted_by ;;
  ts ← now_utc;
  pid ← generate_id;
  let perm := {| pn_id := pid; pn_plugin := plugin_id; pn_type := type; pn_target := target; pn_granted_at := ts;
    pn_granted_by := granted_by; pn_lifecycle := ACTIVE |} in
  insert_permission perm ;;
  audit (states_req None (Some (permission_snapshot perm))
    (request granted_by ActionType.PLUGIN_PERMISSION_GRANT "plugin_permission" pid)) ;;
  mret perm.

Definition revoke_permission (id actor : string) : lp unit :=
  row ← fetch_one (g_table g_permissions) (by_permission id);
  match row with
  | None => raise (PluginError ("Plugin permission " +:+ id +:+ " not found"))
  | Some perm =>
      plugin ← get_plugin_or_raise (pn_plugin perm);
      require_plugin_owner plugin actor ;;
      sql_update (g_table g_permissions) set_permissions (by_permission id) archived_permission ;;
      audit (states_req (Some (permission_snapshot perm)) None
        (request actor ActionType.PLUGIN_PERMISSION_REVOKE "plugin_permission" id))
  end.

Definition get_permissions (id : string) (active_only : bool) : lp (list PluginPermission) :=
  select (g_table g_permissions) (λ x, permission_of id x && (negb active_only || permission_active x)).

(** An active permission of the plugin for the target. *)
Definition grants (id type target : string) (x : PluginPermission) : bool :=
  permission_of id x && bool_decide (pn_type x = type) && bool_decide (pn_target x = target) && permission_active x.

Definition has_permission (id type target : string) : lp bool :=
  row ← fetch_one (g_table g_permissions) (grants id type target);
  mret (bool_decide (is_Some row)).

(** ** PluginSandbox (sandbox.py) *)

Definition check_permission : string → string → string → lp bool := has_permission.

Definition require_permission (id type target : string) : lp unit :=
  ok ← check_permission id type target;
  raise_if (negb ok) (PluginPermissionError ("Plugin " +:+ id +:+ " lacks permission " +:+ type +:+ " on " +:+ target)).

Definition require_plugin_active (id : string) : lp unit :=
  row ← fetch_one (g_table g_plugins) (by_plugin id);
  match row with
  | None => raise (PluginSandboxError ("Plugin " +:+ id +:+ " not found"))
  | Some p =>
      raise_if (negb (bool_decide (pg_state p = PLUGIN_ACTIVE)))
        (PluginSandboxError ("Plugin " +:+ id +:+ " is not active (state: " +:+ plugin_state_value (pg_state p) +:+ ")"))
  end.

Definition check_scope_access (id scope : string) : lp bool := check_permission id "scope_access" scope.
Definition require_scope_access (id scope : string) : lp unit := require_permission id "scope_access" scope.
Definition check_object_type_access (id type : string) : lp bool := check_permission id "object_type" type.
Definition check_secret_access (id ref : string) : lp bool := check_permission id "secret_access" ref.
Definition require_secret_access (id ref : string) : lp unit := require_permission id "secret_access" ref.
Definition check_hook_access (id point : string) : lp bool := check_permission id "hook" point.

(** The targets a plugin may touch by one type of permission. *)
Definition allowed_targets (type id : string) : lp (list string) :=
  rows ← select (g_table g_permissions) (λ x,
    permission_of id x && bool_decide (pn_type x = type) && permission_active x);
  mret (pn_target <$> rows).

Definition get_allowed_scopes : string → lp (list string) := allowed_targets "scope_access".
Definition get_allowed_object_types : string → lp (list string) := allowed_targets "object_type".

(** ** HookRegistry (hooks.py) *)

(** A handler reads and changes the context it shares with the others, and may do
    anything to the process; it may raise after having changed the context. *)
Definition Handler : Type := jdict → store → (outcome jval * jdict) * store.

Definition handler_table : Type := gmap string Handler.

Definition register_handler (ref : string) (handler : Handler) (handlers : handler_table) : handler_table :=
  <[ref := handler]> handlers.
Definition get_handler (ref : string) (handlers : handler_table) : option Handler := handlers !! ref.

Record HookResult := {
  hr_hook : string; hr_plugin : string; hr_point : string; hr_success : bool; hr_result : jval; hr_error : option string;
}.

Record DispatchResult := {
  dr_point : string; dr_results : list HookResult; dr_all_succeeded : bool; dr_failed : nat;
}.

Definition register_hook (plugin_id point ref actor : string) (priority : Z) : lp PluginHook :=
  plugin ← get_plugin_or_raise plugin_id;
  raise_if (negb (bool_decide (pg_owner plugin = actor)))
    (AccessDenied ("Principal '" +:+ actor +:+ "' is not the owner of plugin '" +:+ plugin_id +:+ "'")) ;;
  raise_if (negb (bool_decide (pg_state plugin ∈ [INSTALLED; PLUGIN_ACTIVE])))
    (PluginError ("Cannot register hooks for plugin in state " +:+ plugin_state_value (pg_state plugin))) ;;
  hid ← generate_id;
  let hook := {| hk_id := hid; hk_plugin := plugin_id; hk_point := point; hk_handler := ref; hk_priority := priority;
    hk_lifecycle := ACTIVE |} in
  insert_hook hook ;;
  audit (states_req None (Some (hook_snapshot hook)) (request actor ActionType.HOOK_REGISTER "hook" hid)) ;;
  mret hook.

Definition deactivate_hook (id actor : string) : lp unit :=
  row ← fetch_one (g_table g_hooks) (by_hook id);
  match row with
  | None => raise (PluginError ("Hook " +:+ id +:+ " not found"))
  | Some hook =>
      plugin ← get_plugin_or_raise (hk_plugin hook);
      require_plugin_owner plugin actor ;;
      sql_update (g_table g_hooks) set_hooks (by_hook id) archived_hook ;;
      audit (states_req (Some (hook_snapshot hook)) None (request actor ActionType.HOOK_DEACTIVATE "hook" id))
  end.

Definition get_hooks_for_plugin (id : string) (active_only : bool) : lp (list PluginHook) :=
  select (g_table g_hooks) (λ x, hook_of id x && (negb active_only || hook_active x)).

Definition at_point (point : string) (x : PluginHook) : bool := bool_decide (hk_point x = point) && hook_active x.
Definition highest_first (a b : PluginHook) : bool := (hk_priority b <=? hk_priority a)%Z.

Definition get_hooks_for_point (point : string) : lp (list PluginHook) :=
  select_sorted (g_table g_hooks) (at_point point) highest_first.

Definition _check_dispatch_rule (point : string) : lp unit :=
  _check_rule rule_engine (access "hook_dispatch" None "hook" (Some point) None).

(** *** Dispatch *)

(** What [dispatch] has gathered, with the context the handlers share. *)
Record gathered := { gd_context : jdict; gd_results : list HookResult; gd_ok : bool; gd_failed : nat }.

Definition hook_succeeded (hook : PluginHook) (point : string) (v : jval) : HookResult := {|
  hr_hook := hk_id hook; hr_plugin := hk_plugin hook; hr_point := point; hr_success := true; hr_result := v;
  hr_error := None |}.

Definition hook_failed (hook : PluginHook) (point error : string) : HookResult := {|
  hr_hook := hk_id hook; hr_plugin := hk_plugin hook; hr_point := point; hr_success := false; hr_result := JVnull;
  hr_error := Some error |}.

Definition note_success (r : HookResult) (ctx : jdict) (acc : gathered) : gathered := {|
  gd_context := ctx; gd_results := gd_results acc ++ [r]; gd_ok := gd_ok acc; gd_failed := gd_failed acc |}.

Definition note_failure (r : HookResult) (ctx : jdict) (acc : gathered) : gathered := {|
  gd_context := ctx; gd_results := gd_results acc ++ [r]; gd_ok := false; gd_failed := S (gd_failed acc) |}.

Definition hook_audit (hook : PluginHook) (after : jdict) : lp unit :=
  audit (states_req None (Some after) (request (hk_plugin hook) ActionType.HOOK_EXECUTE "hook" (hk_id hook))).

(** A failure is recorded; [true] asks the loop to stop. *)
Definition fail_hook (point : string) (stop : bool) (hook : PluginHook) (error : string) (ctx : jdict) (acc : gathered)
  : lp (gathered * bool) :=
  hook_audit hook [("success", JVbool false); ("error", JVstr error)] ;;
  mret (note_failure (hook_failed hook point error) ctx acc, stop).

Definition call (handler : Handler) (ctx : jdict) : lp (outcome jval * jdict) := λ s,
  let '(r, s') := handler ctx s in (Ok r, s').

Definition run_hook (handlers : handler_table) (point : string) (stop : bool) (hook : PluginHook) (acc : gathered)
  : lp (gathered * bool) :=
  match get_handler (hk_handler hook) handlers with
  | None => fail_hook point stop hook ("Handler " +:+ hk_handler hook +:+ " not found") (gd_context acc) acc
  | Some handler =>
      answer ← call handler (gd_context acc);
      let ctx := answer.2 in
      match answer.1 with
      | Raise exc => fail_hook point stop hook (exc_text exc) ctx acc
      | Ok v =>
          let acc' := note_success (hook_succeeded hook point v) ctx acc in
          recorded ← try (hook_audit hook [("success", JVbool true)]);
          match recorded with
          | Ok _ => mret (acc', false)
          | Raise exc => fail_hook point stop hook (exc_text exc) ctx acc'
          end
      end
  end.

(** Whether the sandbox lets a hook run; only its own error is a refusal. *)
Definition hook_admitted (enforce : bool) (point : string) (hook : PluginHook) : lp bool :=
  active ← try (require_plugin_active (hk_plugin hook));
  match active with
  | Raise (PluginSandboxError _) => mret false
  | Raise e => raise e
  | Ok _ => if enforce then check_hook_access (hk_plugin hook) point else mret true
  end.

Fixpoint dispatch_loop (handlers : handler_table) (enforce : bool) (point : string) (stop : bool)
  (hooks : list PluginHook) (acc : gathered) : lp gathered :=
  match hooks with
  | [] => mret acc
  | hook :: hooks' =>
      go ← hook_admitted enforce point hook;
      if go : bool then
        r ← run_hook handlers point stop hook acc;
        if (r : gathered * bool).2 then mret r.1 else dispatch_loop handlers enforce point stop hooks' r.1
      else dispatch_loop handlers enforce point stop hooks' acc
  end.

(** The result and the context as the handlers left it. *)
Definition dispatch (handlers : handler_table) (enforce : bool) (point : string) (context : option jdict) (stop : bool)
  : lp (DispatchResult * jdict) :=
  _check_dispatch_rule point ;;
  hooks ← get_hooks_for_point point;
  acc ← dispatch_loop handlers enforce point stop hooks
          {| gd_context := default [] context; gd_results := []; gd_ok := true; gd_failed := 0 |};
  mret ({| dr_point := point; dr_results := gd_results acc; dr_all_succeeded := gd_ok acc; dr_failed := gd_failed acc |},
        gd_context acc).

(** [r.error or "unknown"]. *)
Definition hook_error (r : HookResult) : string :=
  match hr_error r with Some EmptyString | None => "unknown" | Some e => e end.

Definition dispatch_or_raise (handlers : handler_table) (enforce : bool) (point : string) (context : option jdict)
  : lp (DispatchResult * jdict) :=
  result ← dispatch handlers enforce point context true;
  if dr_all_succeeded result.1 then mret result
  else raise (HookExecutionError ("Hook execution failed at " +:+ point +:+ ": " +:+
    String.concat "; " (hook_error <$> filter (λ r : HookResult, negb (hr_success r) = true) (dr_results result.1)))).

(** ** IntegrationManager (connectors.py) *)

Definition insert_integration (x : Integration) : lp unit :=
  raise_if (negb (known_principal (ig_owner x))) (IntegrityError "integrations.owner_id") ;;
  require_scope "integrations.scope_id" (ig_scope x) ;;
  sql_insert (g_table g_integrations) set_integrations (λ a b, bool_decide (ig_id a = ig_id b)) "integrations.id" x.

Definition create_integration (name type owner description : string) (scope : option string) (config : option jdict)
  (credentials : option string) (metadata : option jdict) : lp Integration :=
  _check_rule rule_engine (access "integration_connect" (Some owner) "integration" None scope) ;;
  ts ← now_utc;
  iid ← generate_id;
  let integration := {| ig_id := iid; ig_name := name; ig_type := type; ig_owner := owner; ig_created_at := ts;
    ig_description := description; ig_scope := scope; ig_config := default [] config; ig_credentials := credentials;
    ig_lifecycle := ACTIVE; ig_metadata := default [] metadata |} in
  insert_integration integration ;;
  audit (states_req None (Some (integration_snapshot integration))
    (request owner ActionType.INTEGRATION_CONNECT "integration" iid)) ;;
  mret integration.

Definition get_integration (id : string) : lp (option Integration) := fetch_one (g_table g_integrations) (by_integration id).

Definition get_integration_or_raise (id : string) : lp Integration :=
  x ← get_integration id;
  match x with Some x => mret x | None => raise (IntegrationError ("Integration " +:+ id +:+ " not found")) end.

Definition newest_integration (a b : Integration) : bool := (ig_created_at b <=? ig_created_at a)%Z.

Definition list_integrations (owner type scope : option string) (active_only : bool) (limit : nat) : lp (list Integration) :=
  l ← select_sorted (g_table g_integrations) (λ x,
    filter_opt owner (ig_owner x) && filter_opt type (ig_type x) && opt_filter_opt scope (ig_scope x) &&
    (negb active_only || integration_active x)) newest_integration;
  mret (take limit l).

Definition require_integration_owner (x : Integration) (actor : string) : lp unit :=
  raise_if (negb (bool_decide (ig_owner x = actor)))
    (AccessDenied ("Principal '" +:+ actor +:+ "' is not the owner of integration '" +:+ ig_id x +:+ "'")).

Definition update_config (id : string) (config : jdict) (actor : string) : lp Integration :=
  integration ← get_integration_or_raise id;
  require_integration_owner integration actor ;;
  sql_update (g_table g_integrations) set_integrations (by_integration id) (λ x, set_integration config (ig_lifecycle x) x) ;;
  let integration' := set_integration config (ig_lifecycle integration) integration in
  audit (states_req None (Some (integration_snapshot integration')) (request actor ActionType.UPDATE "integration" id)) ;;
  mret integration'.

Definition archive_integration (id actor : string) : lp unit :=
  integration ← get_integration_or_raise id;
  require_integration_owner integration actor ;;
  sql_update (g_table g_integrations) set_integrations (by_integration id) (λ x, set_integration (ig_config x) ARCHIVED x) ;;
  audit (request actor ActionType.INTEGRATION_DISCONNECT "integration" id).
End Lifecycle.
