(* ===== verification/PluginBehaviour.v ===== *)
(** * Legacy v1: what plugins keep and what a dispatch does

    The invariant of the plugin layer over every sequence of its operations, the
    exact effect of dispatching a hook point, and what suspending and uninstalling
    leave behind. *)

From S2P Require Import Prelude LegacyTypes Schema Json Trail Rules Tenancy Secrets Scheduling RuleGate Plugins.

(** ** What is kept *)

Definition plugins_of (t : tables) : list Plugin := g_plugins (plugging t).
Definition hooks_of (t : tables) : list PluginHook := g_hooks (plugging t).
Definition permissions_of (t : tables) : list PluginPermission := g_permissions (plugging t).
Definition integrations_of (t : tables) : list Integration := g_integrations (plugging t).

(** When a plugin was last activated is known once it has been. *)
Definition activation_fits (p : Plugin) : Prop :=
  match pg_state p with
  | INSTALLED => pg_activated_at p = None
  | PLUGIN_ACTIVE | PLUGIN_SUSPENDED => is_Some (pg_activated_at p)
  | UNINSTALLED => True
  end.

Record plugins_ok (t : tables) : Prop := {
  pk_plugins : NoDup (pg_id <$> plugins_of t);
  pk_names : NoDup (pg_name <$> plugins_of t);
  pk_hooks : NoDup (hk_id <$> hooks_of t);
  pk_permissions : NoDup (pn_id <$> permissions_of t);
  pk_integrations : NoDup (ig_id <$> integrations_of t);
  pk_hook_plugin : ∀ h, h ∈ hooks_of t → hk_plugin h ∈ pg_id <$> plugins_of t;
  pk_permission_plugin : ∀ x, x ∈ permissions_of t → pn_plugin x ∈ pg_id <$> plugins_of t;
  pk_activation : ∀ p, p ∈ plugins_of t → activation_fits p;
}.

(** One move of the table. *)
Definition plugin_moves : relation PluginState := λ a b, b ∈ VALID_PLUGIN_TRANSITIONS a.

Definition later_plugin (p p' : Plugin) : Prop :=
  p' = set_plugin (pg_state p') (pg_activated_at p') p ∧ rtc plugin_moves (pg_state p) (pg_state p').
Definition later_hook (x x' : PluginHook) : Prop := x' = x ∨ x' = archived_hook x.
Definition later_permission (x x' : PluginPermission) : Prop := x' = x ∨ x' = archived_permission x.
Definition later_integration (x x' : Integration) : Prop :=
  x' = set_integration (ig_config x') (ig_lifecycle x') x ∧ (ig_lifecycle x = ARCHIVED → ig_lifecycle x' = ARCHIVED).

#[export] Instance later_plugin_preorder : PreOrder later_plugin.
Proof.
  split; [intros []; split; [done|reflexivity]|]. intros a b c [Hab Rab] [Hbc Rbc]. split; [|by etrans].
  rewrite Hbc, Hab. done.
Qed.

#[export] Instance later_hook_preorder : PreOrder later_hook.
Proof. split; [intros x; by left|]. intros a b c [->| ->] [->| ->]; [by left|by right|by right|by right]. Qed.

#[export] Instance later_permission_preorder : PreOrder later_permission.
Proof. split; [intros x; by left|]. intros a b c [->| ->] [->| ->]; [by left|by right|by right|by right]. Qed.

#[export] Instance later_integration_preorder : PreOrder later_integration.
Proof.
  split; [intros []; split; done|]. intros a b c [Hab Rab] [Hbc Rbc]. split; [|tauto]. rewrite Hbc, Hab. done.
Qed.

Record plugins_later (t t' : tables) : Prop := {
  pl_plugins : grown later_plugin (plugins_of t) (plugins_of t');
  pl_hooks : grown later_hook (hooks_of t) (hooks_of t');
  pl_permissions : grown later_permission (permissions_of t) (permissions_of t');
  pl_integrations : grown later_integration (integrations_of t) (integrations_of t');
}.

#[export] Instance plugins_later_preorder : PreOrder plugins_later.
Proof. split; [intros t; by split|]. intros a b c [] []. split; by etrans. Qed.

(** The layer's rows as they were. *)
Definition same_plugging : relation store := λ s s', plugging (st_db s') = plugging (st_db s).

#[export] Instance same_plugging_preorder : PreOrder same_plugging.
Proof. split; [by intros s|]. intros s1 s2 s3 H1 H2. unfold same_plugging in *. congruence. Qed.

Lemma layers_plugging {R} (m : lp R) : respects same_layers m → respects same_plugging m.
Proof. intros H s. unfold same_plugging, plugging. by rewrite (H s). Qed.

Lemma audit_plugging `{sink : !AuditSink} q : respects same_plugging (audit q).
Proof. apply layers_plugging, audit_layers. Qed.

Lemma check_rule_plugging `{host : !Host} `{sink : !AuditSink} rule_engine q : respects same_plugging (_check_rule rule_engine q).
Proof. apply layers_plugging, respects_layers, check_rule_off. Qed.

Lemma auto_register_plugging `{registry : !AutoRegister} name by_ : respects same_plugging (swallow (auto_register name by_)).
Proof. intros s. exact (layers_plugging _ (respects_layers _ (auto_register_off name by_)) s). Qed.

Section Invariant.
Context `{host : !Host} `{sink : !AuditSink} `{registry : !AutoRegister}.
Context (known_principal : string → bool) (rule_engine : option (option Z)) (exc_text : exn → string).

#[local] Abbreviation pkeeps := (keeps plugins_ok plugins_later).

Lemma pkeeps_same {R} (m : lp R) s : same_plugging s (m s).2 → pkeeps m s.
Proof.
  intros H [A1 A2 A3 A4 A5 A6 A7 A8]. unfold same_plugging in H.
  split; [by split; unfold plugins_of, hooks_of, permissions_of, integrations_of in *; rewrite H|].
  split; unfold plugins_of, hooks_of, permissions_of, integrations_of; by rewrite H.
Qed.

Lemma pkeeps_reads {R} (m : lp R) s : reads m → pkeeps m s.
Proof. intros H. by apply keeps_reading; [exact _|]. Qed.

Lemma pkeeps_apart {R} (m : lp R) s : respects same_plugging m → pkeeps m s.
Proof. intros H. apply pkeeps_same, H. Qed.

Lemma pkeeps_audited {R} q (x : R) s : pkeeps (audit q ;; mret x) s.
Proof. apply pkeeps_apart. respects_step; [apply audit_plugging|respects_step]. Qed.

Lemma plugin_scope_reads c o : reads (require_scope c o).
Proof. destruct o as [sc|]; [intros s; apply require_row_reads|apply reads_ret]. Qed.

(** A new row only has to have an id of its own. *)
Lemma pkeeps_insert_plugin x s : activation_fits x → pkeeps (insert_plugin known_principal x) s.
Proof.
  intros Hx. apply keeps_bind; [exact _|apply pkeeps_reads, reads_raise_if|]. intros _ s1 _.
  apply keeps_bind; [exact _|apply pkeeps_reads, plugin_scope_reads|]. intros _ s2 _ Hok.
  destruct (sql_insert_cases (g_table g_plugins) set_plugin_rows plugin_clash "plugins" x s2) as [->|[Hc ->]]; [done|].
  assert (Hfresh : ∀ y, y ∈ plugins_of (st_db s2) → pg_id x ≠ pg_id y ∧ pg_name x ≠ pg_name y).
  { intros y Hy. specialize (Hc y Hy). apply orb_false_iff in Hc as [H1%bool_decide_eq_false_1 H2%bool_decide_eq_false_1]. done. }
  destruct Hok as [A1 A2 A3 A4 A5 A6 A7 A8]. split; [split; try done|split; try done; apply grown_app; exact _].
  - apply fresh_snoc; [done|]. intros y Hy. by apply Hfresh.
  - apply fresh_snoc; [done|]. intros y Hy. by apply Hfresh.
  - intros h Hh. unfold plugins_of. simpl. rewrite fmap_app, elem_of_app. left. by apply A6.
  - intros h Hh. unfold plugins_of. simpl. rewrite fmap_app, elem_of_app. left. by apply A7.
  - intros p [Hp|Hp%list_elem_of_singleton]%elem_of_app; [by apply A8|by subst p].
Qed.

Lemma pkeeps_insert_hook x s : pkeeps (insert_hook x) s.
Proof.
  intros Hok. unfold insert_hook. rewrite run_bind.
  destruct (require_row_cases (g_table g_plugins) (by_plugin (hk_plugin x)) "plugin_hooks.plugin_id" s)
    as [Hrow|Hrow]; rewrite Hrow; [|by split].
  apply require_row_ok in Hrow as [_ (p & Hp & Hpid%bool_decide_eq_true_1)].
  destruct (sql_insert_cases (g_table g_hooks) set_hooks (λ a b, bool_decide (hk_id a = hk_id b)) "plugin_hooks.id" x s)
    as [->|[Hc ->]]; [by split|].
  destruct Hok as [A1 A2 A3 A4 A5 A6 A7 A8]. split; [split; try done|split; try done; apply grown_app; exact _].
  - apply fresh_snoc; [done|]. intros y Hy. specialize (Hc y Hy). by apply bool_decide_eq_false_1 in Hc.
  - intros h [Hh|Hh%list_elem_of_singleton]%elem_of_app; [by apply A6|]. subst h. rewrite <-Hpid. by apply list_elem_of_fmap_2.
Qed.

Lemma pkeeps_insert_permission x s : pkeeps (insert_permission x) s.
Proof.
  intros Hok. unfold insert_permission. rewrite run_bind.
  destruct (require_row_cases (g_table g_plugins) (by_plugin (pn_plugin x)) "plugin_permissions.plugin_id" s)
    as [Hrow|Hrow]; rewrite Hrow; [|by split].
  apply require_row_ok in Hrow as [_ (p & Hp & Hpid%bool_decide_eq_true_1)].
  destruct (sql_insert_cases (g_table g_permissions) set_permissions (λ a b, bool_decide (pn_id a = pn_id b))
    "plugin_permissions.id" x s) as [->|[Hc ->]]; [by split|].
  destruct Hok as [A1 A2 A3 A4 A5 A6 A7 A8]. split; [split; try done|split; try done; apply grown_app; exact _].
  - apply fresh_snoc; [done|]. intros y Hy. specialize (Hc y Hy). by apply bool_decide_eq_false_1 in Hc.
  - intros h [Hh|Hh%list_elem_of_singleton]%elem_of_app; [by apply A7|]. subst h. rewrite <-Hpid. by apply list_elem_of_fmap_2.
Qed.

Lemma pkeeps_insert_integration x s : pkeeps (insert_integration known_principal x) s.
Proof.
  apply keeps_bind; [exact _|apply pkeeps_reads, reads_raise_if|]. intros _ s1 _.
  apply keeps_bind; [exact _|apply pkeeps_reads, plugin_scope_reads|]. intros _ s2 _ Hok.
  destruct (sql_insert_cases (g_table g_integrations) set_integrations (λ a b, bool_decide (ig_id a = ig_id b))
    "integrations.id" x s2) as [->|[Hc ->]]; [done|].
  destruct Hok as [A1 A2 A3 A4 A5 A6 A7 A8]. split; [split; try done|split; try done; apply grown_app; exact _].
  apply fresh_snoc; [done|]. intros y Hy. specialize (Hc y Hy). by apply bool_decide_eq_false_1 in Hc.
Qed.

(** Archiving rows. *)
Lemma pkeeps_archive_hooks (p : PluginHook → bool) s : pkeeps (sql_update (g_table g_hooks) set_hooks p archived_hook) s.
Proof.
  intros [A1 A2 A3 A4 A5 A6 A7 A8]. split; [split; try done|split; try done].
  - unfold hooks_of. simpl. by rewrite update_column.
  - intros h (x & -> & Hx)%list_elem_of_fmap. destruct (p x); by apply (A6 x).
  - apply grown_fmap. intros x _. destruct (p x); [by right|by left].
Qed.

Lemma pkeeps_archive_permissions (p : PluginPermission → bool) s :
  pkeeps (sql_update (g_table g_permissions) set_permissions p archived_permission) s.
Proof.
  intros [A1 A2 A3 A4 A5 A6 A7 A8]. split; [split; try done|split; try done].
  - unfold permissions_of. simpl. by rewrite update_column.
  - intros h (x & -> & Hx)%list_elem_of_fmap. destruct (p x); by apply (A7 x).
  - apply grown_fmap. intros x _. destruct (p x); [by right|by left].
Qed.

Lemma pkeeps_edit_integration (p : Integration → bool) f s :
  (∀ x, later_integration x (f x)) → pkeeps (sql_update (g_table g_integrations) set_integrations p f) s.
Proof.
  intros Hf [A1 A2 A3 A4 A5 A6 A7 A8]. split; [split; try done|split; try done].
  - unfold integrations_of. simpl. rewrite update_column; [done|]. intros x. destruct (Hf x) as [-> _]. done.
  - apply grown_fmap. intros x _. destruct (p x); [by apply Hf|reflexivity].
Qed.

(** Moving the one row that was read and checked. *)
Lemma pkeeps_move id target ts p s :
  p ∈ plugins_of (st_db s) → pg_id p = id → plugin_can_transition_to p target = true →
  pkeeps (sql_update (g_table g_plugins) set_plugin_rows (by_plugin id) (plugin_moved target ts)) s.
Proof.
  intros Hp Hid Hto%bool_decide_eq_true_1 [A1 A2 A3 A4 A5 A6 A7 A8].
  assert (Honly : ∀ x, x ∈ plugins_of (st_db s) → by_plugin id x = true → x = p).
  { intros x Hx Hxid%bool_decide_eq_true_1. apply (NoDup_fmap_inj_in pg_id (plugins_of (st_db s))); [done..|congruence]. }
  split; [split; try done|split; try done].
  - unfold plugins_of. simpl. by rewrite update_column.
  - unfold plugins_of. simpl. by rewrite update_column.
  - intros h Hh. unfold plugins_of. simpl. rewrite update_column by done. by apply A6.
  - intros h Hh. unfold plugins_of. simpl. rewrite update_column by done. by apply A7.
  - intros y (x & -> & Hx)%list_elem_of_fmap. destruct (by_plugin id x) eqn:Hb; [|by apply A8].
    pose proof (A8 x Hx) as Hfit. rewrite (Honly x Hx Hb) in *. unfold activation_fits, plugin_moved in *. cbn.
    destruct (pg_state p), target; cbn in Hto; set_solver.
  - apply grown_fmap. intros x Hx. destruct (by_plugin id x) eqn:Hb; [|reflexivity].
    rewrite (Honly x Hx Hb). split; [done|]. by apply rtc_once.
Qed.

Lemma get_plugin_or_raise_reads id : reads (get_plugin_or_raise id).
Proof. apply reads_bind; [apply fetch_one_reads|]. intros [p|]; [apply reads_ret|apply reads_raise]. Qed.

Lemma get_plugin_or_raise_ok id s p s' :
  get_plugin_or_raise id s = (Ok p, s') → s' = s ∧ p ∈ plugins_of (st_db s) ∧ pg_id p = id.
Proof.
  unfold get_plugin_or_raise. intros (o & s1 & [-> Ho]%fetch_one_ok & H)%bind_ok_inv.
  destruct o as [q|]; [|done]. apply mret_ok in H as [-> ->]. by destruct Ho as [Hq Hid%bool_decide_eq_true_1].
Qed.

Lemma transition_gate_apart a actor id sc :
  respects same_plugging (match rule_action_map a with
    | Some act => _check_rule rule_engine (access act (Some actor) "plugin" (Some id) sc) | None => mret tt end).
Proof. destruct (rule_action_map a); [apply check_rule_plugging|respects_step]. Qed.

Lemma pkeeps_transition id target actor action s : pkeeps (_plugin_transition rule_engine id target actor action) s.
Proof.
  unfold _plugin_transition. apply keeps_bind; [exact _|apply pkeeps_reads, get_plugin_or_raise_reads|].
  intros p s1 (-> & Hp & Hid)%get_plugin_or_raise_ok.
  apply keeps_bind; [exact _|apply pkeeps_reads, reads_raise_if|]. intros [] s2 [_ ->]%raise_if_ok.
  pose proof (transition_gate_apart action actor id (pg_scope p) s) as Hgate.
  apply keeps_bind; [exact _|by apply pkeeps_same|]. intros u s3 Hrun. rewrite Hrun in Hgate. cbn in Hgate.
  apply keeps_bind; [exact _|apply pkeeps_reads, reads_raise_if|]. intros [] s4 [Hto%negb_false_iff ->]%raise_if_ok.
  apply keeps_bind; [exact _|by apply pkeeps_same|]. intros ts s5 [-> ->]%now_utc_ok.
  apply keeps_bind; [exact _|apply (pkeeps_move id target _ p); [|done..]|intros _ s6 _; apply pkeeps_audited].
  unfold plugins_of. by rewrite Hgate.
Qed.

Lemma pkeeps_uninstall id actor s : pkeeps (uninstall_plugin rule_engine id actor) s.
Proof.
  apply keeps_bind; [exact _|apply pkeeps_transition|]. intros p s1 _.
  apply keeps_bind; [exact _|apply pkeeps_archive_permissions|]. intros _ s2 _.
  apply keeps_bind; [exact _|apply pkeeps_archive_hooks|intros; by apply pkeeps_same].
Qed.

Lemma pkeeps_suspend id actor s : pkeeps (suspend_plugin rule_engine id actor) s.
Proof.
  apply keeps_bind; [exact _|apply pkeeps_transition|]. intros p s1 _.
  apply keeps_bind; [exact _|apply pkeeps_archive_hooks|intros; by apply pkeeps_same].
Qed.

Lemma translating_keeps words err m s : pkeeps m s → pkeeps (translating exc_text words err m) s.
Proof.
  intros Hm Hok. destruct (translating_cases exc_text words err m s) as [(s' & Hrun & ->)|(e & e' & s' & Hrun & -> & _)];
    specialize (Hm Hok); by rewrite Hrun in Hm.
Qed.

Lemma pkeeps_install name owner version description scope manifest metadata s :
  pkeeps (install_plugin known_principal rule_engine exc_text name owner version description scope manifest metadata) s.
Proof.
  unfold install_plugin. apply keeps_bind; [exact _|apply pkeeps_apart, check_rule_plugging|]. intros _ s1 _.
  apply keeps_bind; [exact _|by apply pkeeps_same|]. intros ts s2 _.
  apply keeps_bind; [exact _|by apply pkeeps_same|]. intros pid s3 _. cbv zeta.
  apply keeps_bind; [exact _|by apply translating_keeps, pkeeps_insert_plugin|]. intros _ s4 _.
  apply keeps_bind; [exact _|apply pkeeps_apart, auto_register_plugging|intros; apply pkeeps_audited].
Qed.

Lemma pkeeps_grant id type target by_ s : pkeeps (grant_permission id type target by_) s.
Proof.
  unfold grant_permission. apply keeps_bind; [exact _|apply pkeeps_reads, get_plugin_or_raise_reads|]. intros p s1 _.
  apply keeps_bind; [exact _|apply pkeeps_reads, reads_raise_if|]. intros _ s2 _.
  apply keeps_bind; [exact _|by apply pkeeps_same|]. intros ts s3 _.
  apply keeps_bind; [exact _|by apply pkeeps_same|]. intros pid s4 _. cbv zeta.
  apply keeps_bind; [exact _|apply pkeeps_insert_permission|intros; apply pkeeps_audited].
Qed.

Lemma pkeeps_register_hook id point ref actor priority s : pkeeps (register_hook id point ref actor priority) s.
Proof.
  unfold register_hook. apply keeps_bind; [exact _|apply pkeeps_reads, get_plugin_or_raise_reads|]. intros p s1 _.
  apply keeps_bind; [exact _|apply pkeeps_reads, reads_raise_if|]. intros _ s2 _.
  apply keeps_bind; [exact _|apply pkeeps_reads, reads_raise_if|]. intros _ s3 _.
  apply keeps_bind; [exact _|by apply pkeeps_same|]. intros hid s4 _. cbv zeta.
  apply keeps_bind; [exact _|apply pkeeps_insert_hook|intros; apply pkeeps_audited].
Qed.

(** Revoking a permission and deactivating a hook: the row, its plugin, its owner. *)
Lemma pkeeps_owned {R} id actor (m : lp R) s :
  (∀ s', pkeeps m s') → pkeeps (plugin ← get_plugin_or_raise id; require_plugin_owner plugin actor ;; m) s.
Proof.
  intros Hm. apply keeps_bind; [exact _|apply pkeeps_reads, get_plugin_or_raise_reads|]. intros p s1 _.
  apply keeps_bind; [exact _|apply pkeeps_reads, reads_raise_if|intros; apply Hm].
Qed.

Lemma pkeeps_revoke id actor s : pkeeps (revoke_permission id actor) s.
Proof.
  apply keeps_bind; [exact _|apply pkeeps_reads, fetch_one_reads|]. intros [x|] s1 _; [|by apply pkeeps_same].
  apply pkeeps_owned. intros s2. apply keeps_bind; [exact _|apply pkeeps_archive_permissions|].
  intros _ s3 _. apply pkeeps_apart, audit_plugging.
Qed.

Lemma pkeeps_deactivate id actor s : pkeeps (deactivate_hook id actor) s.
Proof.
  apply keeps_bind; [exact _|apply pkeeps_reads, fetch_one_reads|]. intros [x|] s1 _; [|by apply pkeeps_same].
  apply pkeeps_owned. intros s2. apply keeps_bind; [exact _|apply pkeeps_archive_hooks|].
  intros _ s3 _. apply pkeeps_apart, audit_plugging.
Qed.

Lemma pkeeps_create_integration name type owner description scope config credentials metadata s :
  pkeeps (create_integration known_principal rule_engine name type owner description scope config credentials metadata) s.
Proof.
  unfold create_integration. apply keeps_bind; [exact _|apply pkeeps_apart, check_rule_plugging|]. intros _ s1 _.
  apply keeps_bind; [exact _|by apply pkeeps_same|]. intros ts s2 _.
  apply keeps_bind; [exact _|by apply pkeeps_same|]. intros iid s3 _. cbv zeta.
  apply keeps_bind; [exact _|apply pkeeps_insert_integration|intros; apply pkeeps_audited].
Qed.

Lemma get_integration_or_raise_reads id : reads (get_integration_or_raise id).
Proof. apply reads_bind; [apply fetch_one_reads|]. intros [p|]; [apply reads_ret|apply reads_raise]. Qed.

Lemma pkeeps_update_config id config actor s : pkeeps (update_config id config actor) s.
Proof.
  unfold update_config. apply keeps_bind; [exact _|apply pkeeps_reads, get_integration_or_raise_reads|]. intros p s1 _.
  apply keeps_bind; [exact _|apply pkeeps_reads, reads_raise_if|]. intros _ s2 _.
  apply keeps_bind; [exact _|by apply pkeeps_edit_integration|intros; apply pkeeps_audited].
Qed.

Lemma pkeeps_archive_integration id actor s : pkeeps (archive_integration id actor) s.
Proof.
  unfold archive_integration. apply keeps_bind; [exact _|apply pkeeps_reads, get_integration_or_raise_reads|]. intros p s1 _.
  apply keeps_bind; [exact _|apply pkeeps_reads, reads_raise_if|]. intros _ s2 _.
  apply keeps_bind; [exact _|by apply pkeeps_edit_integration|intros; apply pkeeps_apart, audit_plugging].
Qed.

(** *** Dispatch *)

(** Handlers may do anything that keeps the layer sound. *)
Definition fair_handlers (handlers : handler_table) : Prop := ∀ ref h ctx s, handlers !! ref = Some h → pkeeps (call h ctx) s.

Lemma hook_admitted_reads enforce point hook : reads (hook_admitted enforce point hook).
Proof.
  unfold hook_admitted. apply reads_bind.
  - assert (H : reads (require_plugin_active (hk_plugin hook))).
    { apply reads_bind; [apply fetch_one_reads|]. intros [p|]; [apply reads_raise_if|apply reads_raise]. }
    intros s. specialize (H s). unfold try. by destruct (require_plugin_active _ s).
  - intros [a|[]]; try apply reads_raise; [|apply reads_ret].
    destruct enforce; [|apply reads_ret]. apply reads_bind; [apply fetch_one_reads|]. intros. apply reads_ret.
Qed.

Lemma pkeeps_fail point stop hook error ctx acc s : pkeeps (fail_hook point stop hook error ctx acc) s.
Proof. apply pkeeps_audited. Qed.

Lemma pkeeps_run_hook handlers point stop hook acc s :
  fair_handlers handlers → pkeeps (run_hook exc_text handlers point stop hook acc) s.
Proof.
  intros Hf. unfold run_hook. destruct (get_handler _ _) as [h|] eqn:Hget; [|apply pkeeps_fail].
  apply keeps_bind; [exact _|by apply (Hf _ _ _ _ Hget)|]. intros [[v|e] ctx] s1 _; [|apply pkeeps_fail].
  cbv zeta. cbn [fst snd]. apply keeps_bind; [exact _| |].
  - apply keeps_try, pkeeps_apart, audit_plugging.
  - intros [u|e] s2 _; [by apply pkeeps_same|apply pkeeps_fail].
Qed.

Lemma pkeeps_dispatch_loop handlers enforce point stop hooks acc s :
  fair_handlers handlers → pkeeps (dispatch_loop exc_text handlers enforce point stop hooks acc) s.
Proof.
  intros Hf. revert acc s. induction hooks as [|hook hooks IH]; intros acc s; [by apply pkeeps_same|].
  apply keeps_bind; [exact _|apply pkeeps_reads, hook_admitted_reads|]. intros [] s1 _; [|apply IH].
  apply keeps_bind; [exact _|by apply pkeeps_run_hook|]. intros [acc' []] s2 _; [by apply pkeeps_same|apply IH].
Qed.

Lemma pkeeps_dispatch handlers enforce point context stop s :
  fair_handlers handlers → pkeeps (dispatch rule_engine exc_text handlers enforce point context stop) s.
Proof.
  intros Hf. apply keeps_bind; [exact _|apply pkeeps_apart, check_rule_plugging|]. intros _ s1 _.
  apply keeps_bind; [exact _|by apply pkeeps_same|]. intros hooks s2 _.
  apply keeps_bind; [exact _|by apply pkeeps_dispatch_loop|intros; by apply pkeeps_same].
Qed.
End Invariant.

(** ** Every sequence of operations *)

Section Reachable.
Context `{host : !Host} `{sink : !AuditSink} `{registry : !AutoRegister}.
Context (known_principal : string → bool) (rule_engine : option (option Z)) (exc_text : exn → string).

Inductive plugin_op :=
  | GInstall (name owner version description : string) (scope : option string) (manifest metadata : option jdict)
  | GActivate (id actor : string)
  | GSuspend (id actor : string)
  | GUninstall (id actor : string)
  | GGrant (id type target by_ : string)
  | GRevoke (id actor : string)
  | GRegisterHook (id point ref actor : string) (priority : Z)
  | GDeactivateHook (id actor : string)
  | GDispatch (handlers : handler_table) (enforce : bool) (point : string) (context : option jdict) (stop : bool)
  | GCreateIntegration (name type owner description : string) (scope : option string) (config : option jdict)
      (credentials : option string) (metadata : option jdict)
  | GUpdateConfig (id : string) (config : jdict) (actor : string)
  | GArchiveIntegration (id actor : string).

Definition run_plugin_op (op : plugin_op) : lp unit :=
  match op with
  | GInstall name owner version description scope manifest metadata =>
      install_plugin known_principal rule_engine exc_text name owner version description scope manifest metadata ;; mret tt
  | GActivate id actor => activate_plugin rule_engine id actor ;; mret tt
  | GSuspend id actor => suspend_plugin rule_engine id actor ;; mret tt
  | GUninstall id actor => uninstall_plugin rule_engine id actor ;; mret tt
  | GGrant id type target by_ => grant_permission id type target by_ ;; mret tt
  | GRevoke id actor => revoke_permission id actor
  | GRegisterHook id point ref actor priority => register_hook id point ref actor priority ;; mret tt
  | GDeactivateHook id actor => deactivate_hook id actor
  | GDispatch handlers enforce point context stop =>
      dispatch rule_engine exc_text handlers enforce point context stop ;; mret tt
  | GCreateIntegration name type owner description scope config credentials metadata =>
      create_integration known_principal rule_engine name type owner description scope config credentials metadata ;; mret tt
  | GUpdateConfig id config actor => update_config id config actor ;; mret tt
  | GArchiveIntegration id actor => archive_integration id actor
  end.

Definition fair_plugin_op (op : plugin_op) : Prop :=
  match op with GDispatch handlers _ _ _ _ => fair_handlers handlers | _ => True end.

(** An operation, or anything that leaves the layer's rows alone. *)
Inductive plugin_step : relation store :=
  | plugin_step_op op s : fair_plugin_op op → plugin_step s (run_plugin_op op s).2
  | plugin_step_other s s' : same_plugging s s' → plugin_step s s'.

Lemma run_plugin_op_keeps op s : fair_plugin_op op → keeps plugins_ok plugins_later (run_plugin_op op) s.
Proof.
  intros Hf. destruct op; cbn [run_plugin_op];
    try (apply keeps_bind; [exact _| |intros; by apply pkeeps_same]).
  - apply pkeeps_install.
  - apply pkeeps_transition.
  - apply pkeeps_suspend.
  - apply pkeeps_uninstall.
  - apply pkeeps_grant.
  - apply pkeeps_revoke.
  - apply pkeeps_register_hook.
  - apply pkeeps_deactivate.
  - by apply pkeeps_dispatch.
  - apply pkeeps_create_integration.
  - apply pkeeps_update_config.
  - apply pkeeps_archive_integration.
Qed.

(** The plugin layer stays sound whatever is called, on every exit: ids and
    plugin names are unique, hooks and permissions belong to installed plugins, the
    time of activation is known exactly from the first activation on; a plugin
    keeps its identity and its state moves along the table only (so uninstalled is
    final), hooks, permissions and integrations are archived but never lost or
    revived. *)
Theorem plugins_reachable_ok s s' :
  plugins_ok (st_db s) → rtc plugin_step s s' → plugins_ok (st_db s') ∧ plugins_later (st_db s) (st_db s').
Proof.
  intros Hok Hsteps. induction Hsteps as [s|s1 s2 s3 Hstep _ IH]; [done|].
  assert (H2 : plugins_ok (st_db s2) ∧ plugins_later (st_db s1) (st_db s2)).
  { destruct Hstep as [op s1 Hf|s1 s2 Hsame]; [by apply run_plugin_op_keeps|].
    by apply (pkeeps_same (λ _, (Ok tt, s2)) s1 Hsame). }
  destruct H2 as [Hok2 H12]. destruct (IH Hok2) as [Hok3 H23]. split; [done|]. by etrans.
Qed.
End Reachable.

(** ** Dispatching a hook point *)

Definition all_good (l : list HookResult) : bool := forallb hr_success l.
Definition failures (l : list HookResult) : nat := length (filter (λ r, hr_success r = false) l).

(** The hook's plugin is active and, if that is asked for, may run at [point]. *)
Definition may_run (t : tables) (enforce : bool) (point : string) (hook : PluginHook) : bool :=
  existsb (λ p, by_plugin (hk_plugin hook) p && bool_decide (pg_state p = PLUGIN_ACTIVE)) (plugins_of t) &&
  (negb enforce || existsb (grants (hk_plugin hook) "hook" point) (permissions_of t)).

Section Dispatch.
Context `{host : !Host} `{sink : !AuditSink}.
Context (rule_engine : option (option Z)) (exc_text : exn → string).
Context (handlers : handler_table) (point : string).

Definition failure_record (hook : PluginHook) (error : string) : lp unit :=
  hook_audit hook [("success", JVbool false); ("error", JVstr error)].

(** One hook, from a context and a state to what it leaves. *)
Inductive hook_ran (hook : PluginHook) (ctx : jdict) (s : store) : list HookResult → jdict → store → Prop :=
  | hook_ran_missing s' :
      let error := "Handler " +:+ hk_handler hook +:+ " not found" in
      handlers !! hk_handler hook = None → failure_record hook error s = (Ok tt, s') →
      hook_ran hook ctx s [hook_failed hook point error] ctx s'
  | hook_ran_raised h e ctx' s1 s' :
      handlers !! hk_handler hook = Some h → h ctx s = ((Raise e, ctx'), s1) →
      failure_record hook (exc_text e) s1 = (Ok tt, s') →
      hook_ran hook ctx s [hook_failed hook point (exc_text e)] ctx' s'
  | hook_ran_returned h v ctx' s1 s' :
      handlers !! hk_handler hook = Some h → h ctx s = ((Ok v, ctx'), s1) →
      hook_audit hook [("success", JVbool true)] s1 = (Ok tt, s') →
      hook_ran hook ctx s [hook_succeeded hook point v] ctx' s'
  | hook_ran_unrecorded h v e ctx' s1 s2 s' :
      handlers !! hk_handler hook = Some h → h ctx s = ((Ok v, ctx'), s1) →
      hook_audit hook [("success", JVbool true)] s1 = (Raise e, s2) →
      failure_record hook (exc_text e) s2 = (Ok tt, s') →
      hook_ran hook ctx s [hook_succeeded hook point v; hook_failed hook point (exc_text e)] ctx' s'.

(** The turns of the hooks that were read, one after the other: a hook that may not
    run as things are when its turn comes is passed over; one that runs gets the
    context and the store that the turns before left; after a failure the loop goes
    on, or ends if that is asked for. *)
Inductive turns_ran (enforce stop : bool) :
  list PluginHook → jdict → store → list HookResult → jdict → store → Prop :=
  | turns_none ctx s : turns_ran enforce stop [] ctx s [] ctx s
  | turn_passed hook hooks ctx s results ctx' s' :
      may_run (st_db s) enforce point hook = false →
      turns_ran enforce stop hooks ctx s results ctx' s' → turns_ran enforce stop (hook :: hooks) ctx s results ctx' s'
  | turn_taken hook hooks ctx s rs ctx1 s1 results ctx' s' :
      may_run (st_db s) enforce point hook = true → hook_ran hook ctx s rs ctx1 s1 →
      stop && negb (all_good rs) = false →
      turns_ran enforce stop hooks ctx1 s1 results ctx' s' →
      turns_ran enforce stop (hook :: hooks) ctx s (rs ++ results) ctx' s'
  | turn_last hook hooks ctx s rs ctx' s' :
      may_run (st_db s) enforce point hook = true → hook_ran hook ctx s rs ctx' s' →
      stop && negb (all_good rs) = true →
      turns_ran enforce stop (hook :: hooks) ctx s rs ctx' s'.

(** The ids of the plugins are a primary key. *)
Definition plugins_keyed (t : tables) : Prop := NoDup (pg_id <$> plugins_of t).

(** Handlers may do anything to the store, but the database keeps its key. *)
Definition keyed_handlers : Prop :=
  ∀ ref h ctx s, handlers !! ref = Some h → plugins_keyed (st_db s) → plugins_keyed (st_db (h ctx s).2).

Lemma same_plugging_keyed s s' : same_plugging s s' → plugins_keyed (st_db s) → plugins_keyed (st_db s').
Proof. unfold same_plugging, plugins_keyed, plugins_of. by intros ->. Qed.

Lemma plugin_active_run id s :
  plugins_keyed (st_db s) →
  if existsb (λ p, by_plugin id p && bool_decide (pg_state p = PLUGIN_ACTIVE)) (plugins_of (st_db s))
  then require_plugin_active id s = (Ok tt, s) else ∃ m, require_plugin_active id s = (Raise (PluginSandboxError m), s).
Proof.
  intros Hnd. unfold require_plugin_active.
  destruct (fetch_one (g_table g_plugins) (by_plugin id) s) as [[o|e] s1] eqn:Hfetch; [|done].
  rewrite (run_bind_ok _ _ _ _ _ Hfetch). apply fetch_one_ok in Hfetch as [-> Ho].
  destruct (existsb _ _) eqn:He.
  - apply existsb_exists in He as (p & Hp%list_elem_of_In & [Hb Ha%bool_decide_eq_true_1]%andb_true_iff).
    destruct o as [q|]; [|by rewrite (Ho p Hp) in Hb]. destruct Ho as [Hq Hqb].
    apply bool_decide_eq_true_1 in Hb, Hqb. rewrite (NoDup_fmap_inj_in pg_id (plugins_of (st_db s)) q p) by (done || congruence).
    by rewrite bool_decide_eq_true_2.
  - destruct o as [q|]; [|by eexists]. destruct Ho as [Hq Hqb]. rewrite bool_decide_eq_false_2; [by eexists|].
    intros Ha. assert (existsb (λ p, by_plugin id p && bool_decide (pg_state p = PLUGIN_ACTIVE)) (plugins_of (st_db s)) = true); [|congruence].
    apply existsb_exists. exists q. rewrite <-list_elem_of_In. split; [done|]. by rewrite Hqb, bool_decide_eq_true_2.
Qed.

Lemma has_permission_run id type target s :
  has_permission id type target s = (Ok (existsb (grants id type target) (permissions_of (st_db s))), s).
Proof.
  unfold has_permission. destruct (fetch_one (g_table g_permissions) (grants id type target) s) as [[o|e] s1] eqn:Hfetch; [|done].
  rewrite (run_bind_ok _ _ _ _ _ Hfetch). apply fetch_one_ok in Hfetch as [-> Ho].
  unfold mret, prog_ret. do 2 f_equal. destruct o as [x|]; cbn; symmetry.
  - apply existsb_exists. exists x. rewrite <-list_elem_of_In. by destruct Ho.
  - apply not_true_iff_false. intros (x & Hx%list_elem_of_In & Hg)%existsb_exists. by rewrite (Ho x Hx) in Hg.
Qed.

Lemma may_run_run enforce hook s :
  plugins_keyed (st_db s) → hook_admitted enforce point hook s = (Ok (may_run (st_db s) enforce point hook), s).
Proof.
  intros Hnd. pose proof (plugin_active_run (hk_plugin hook) s Hnd) as Hact. unfold hook_admitted, may_run. rewrite run_bind.
  unfold try. destruct (existsb _ (plugins_of _)); [rewrite Hact|by destruct Hact as [m ->]].
  destruct enforce; [|done]. apply has_permission_run.
Qed.

Lemma hook_audit_plugging hook after : respects same_plugging (hook_audit hook after).
Proof. apply audit_plugging. Qed.

Lemma run_plugging {R} (m : lp R) s r s' : respects same_plugging m → m s = (r, s') → same_plugging s s'.
Proof. intros H Hrun. pose proof (H s) as Hs. by rewrite Hrun in Hs. Qed.

Lemma failures_app l k : failures (l ++ k) = failures l + failures k.
Proof. unfold failures. by rewrite filter_app, length_app. Qed.

Lemma failures_good hook v : failures [hook_succeeded hook point v] = 0.
Proof. reflexivity. Qed.

Lemma failures_bad hook e : failures [hook_failed hook point e] = 1.
Proof. reflexivity. Qed.

Lemma failures_both hook v e : failures [hook_succeeded hook point v; hook_failed hook point e] = 1.
Proof. reflexivity. Qed.

(** The counters after a turn. *)
Ltac tally :=
  cbn [note_success note_failure gd_context gd_results gd_ok gd_failed all_good forallb hr_success hook_succeeded
       hook_failed andb negb];
  rewrite ?andb_false_r, ?andb_true_r.

(** One turn of the loop. *)
Lemma run_hook_exact stop hook acc s acc' stopped s' :
  keyed_handlers → plugins_keyed (st_db s) → run_hook exc_text handlers point stop hook acc s = (Ok (acc', stopped), s') →
  ∃ rs, hook_ran hook (gd_context acc) s rs (gd_context acc') s' ∧
    gd_results acc' = gd_results acc ++ rs ∧ gd_ok acc' = gd_ok acc && all_good rs ∧
    gd_failed acc' = gd_failed acc + failures rs ∧ stopped = stop && negb (all_good rs) ∧ plugins_keyed (st_db s').
Proof.
  intros Hq Hkey. unfold run_hook, fail_hook, get_handler. destruct (handlers !! hk_handler hook) as [h|] eqn:Hget.
  - intros (answer & s1 & Hcall & H)%bind_ok_inv. unfold call in Hcall.
    pose proof (Hq _ h (gd_context acc) s Hget Hkey) as Hh.
    destruct (h (gd_context acc) s) as [[r ctx'] s1'] eqn:Hrun. injection Hcall as <- <-. cbn [fst snd] in H, Hh.
    destruct r as [v|e].
    + apply bind_ok_inv in H as (recorded & s2 & Haudit & H). unfold try in Haudit.
      destruct (hook_audit hook [("success", JVbool true)] s1') as [[[]|e] s2'] eqn:Ha; injection Haudit as <- <-;
        pose proof (run_plugging _ _ _ _ (hook_audit_plugging _ _) Ha) as H1.
      * injection H as <- <- <-. exists [hook_succeeded hook point v]. split; [by eapply hook_ran_returned|].
        tally. split_and!; [done..| |done|by eauto using same_plugging_keyed]. rewrite ?failures_good, ?failures_bad, ?failures_both; lia.
      * apply bind_ok_inv in H as ([] & s3 & Hf & H). injection H as <- <- <-.
        pose proof (run_plugging _ _ _ _ (hook_audit_plugging _ _) Hf) as H2.
        exists [hook_succeeded hook point v; hook_failed hook point (exc_text e)]. split; [by eapply hook_ran_unrecorded|].
        tally. rewrite <-app_assoc. split_and!; [done..| |done|by eauto using same_plugging_keyed].
        rewrite ?failures_good, ?failures_bad, ?failures_both; lia.
    + apply bind_ok_inv in H as ([] & s3 & Hf & H). injection H as <- <- <-.
      pose proof (run_plugging _ _ _ _ (hook_audit_plugging _ _) Hf) as H2.
      exists [hook_failed hook point (exc_text e)]. split; [by eapply hook_ran_raised|].
      tally. split_and!; [done..| |done|by eauto using same_plugging_keyed]. rewrite ?failures_good, ?failures_bad, ?failures_both; lia.
  - intros ([] & s3 & Hf & H)%bind_ok_inv. injection H as <- <- <-.
    pose proof (run_plugging _ _ _ _ (hook_audit_plugging _ _) Hf) as H2.
    exists [hook_failed hook point ("Handler " +:+ hk_handler hook +:+ " not found")]. split; [by apply hook_ran_missing|].
    tally. split_and!; [done..| |done|by eauto using same_plugging_keyed]. rewrite ?failures_good, ?failures_bad, ?failures_both; lia.
Qed.

Lemma loop_exact enforce stop hooks acc s acc' s' :
  keyed_handlers → plugins_keyed (st_db s) →
  dispatch_loop exc_text handlers enforce point stop hooks acc s = (Ok acc', s') →
  ∃ results, turns_ran enforce stop hooks (gd_context acc) s results (gd_context acc') s' ∧
    gd_results acc' = gd_results acc ++ results ∧ gd_ok acc' = gd_ok acc && all_good results ∧
    gd_failed acc' = gd_failed acc + failures results.
Proof.
  intros Hq. revert acc s. induction hooks as [|hook hooks IH]; intros acc s Hkey.
  { intros [= -> ->]. exists []. split; [constructor|]. by rewrite app_nil_r, andb_true_r, Nat.add_0_r. }
  cbn [dispatch_loop]. rewrite run_bind, may_run_run by done. destruct (may_run (st_db s) enforce point hook) eqn:He.
  2: { intros H. destruct (IH _ _ Hkey H) as (results & Hran & Htally). exists results. split; [by apply turn_passed|done]. }
  intros ([acc1 stopped] & s1 & Hhook & H)%bind_ok_inv. cbn [fst snd] in H.
  apply run_hook_exact in Hhook as (rs & Hran & Hres & Hok & Hfail & Hstop & Hkey1); [|done..].
  destruct stopped.
  - injection H as <- <-. exists rs. split_and!; [by apply turn_last|done..].
  - apply IH in H as (results & Hruns & Hres' & Hok' & Hfail'); [|done]. exists (rs ++ results).
    split; [by eapply turn_taken|]. rewrite Hres', Hres, Hok', Hok, Hfail', Hfail, failures_app.
    unfold all_good. by rewrite forallb_app, <-app_assoc, andb_assoc, Nat.add_assoc.
Qed.

(** An audit that never fails. *)
Definition audit_returns : Prop := ∀ q s, ∃ s', audit q s = (Ok tt, s').

Lemma run_hook_returns stop hook acc s :
  audit_returns → ∃ r s', run_hook exc_text handlers point stop hook acc s = (Ok r, s').
Proof.
  intros Ha. assert (Hfail : ∀ error ctx acc s, ∃ r s', fail_hook point stop hook error ctx acc s = (Ok r, s')).
  { intros error ctx acc1 s1. unfold fail_hook. rewrite run_bind. unfold hook_audit.
    edestruct Ha as [s2 ->]. by do 2 eexists. }
  unfold run_hook. destruct (get_handler _ _) as [h|]; [|apply Hfail]. rewrite run_bind. unfold call.
  destruct (h (gd_context acc) s) as [[[v|e] ctx] s1]; cbn [fst snd]; [|apply Hfail].
  rewrite run_bind. unfold try, hook_audit. edestruct Ha as [s2 ->]. by do 2 eexists.
Qed.

Lemma loop_returns enforce stop hooks acc s :
  audit_returns → keyed_handlers → plugins_keyed (st_db s) →
  ∃ acc' s', dispatch_loop exc_text handlers enforce point stop hooks acc s = (Ok acc', s').
Proof.
  intros Ha Hq. revert acc s. induction hooks as [|hook hooks IH]; intros acc s Hnd; [by do 2 eexists|].
  cbn [dispatch_loop]. rewrite run_bind, may_run_run by done. destruct (may_run _ _ _ _); [|by apply IH].
  destruct (run_hook_returns stop hook acc s Ha) as ([acc1 stopped] & s1 & Hrun). rewrite (run_bind_ok _ _ _ _ _ Hrun).
  cbn [fst snd]. destruct stopped; [by do 2 eexists|]. apply IH.
  by apply run_hook_exact in Hrun as (rs & _ & _ & _ & _ & _ & Hkey).
Qed.

Lemma point_hooks_run s :
  get_hooks_for_point point s =
    (Ok (sort_by highest_first (scan (filter (λ h, at_point point h = true) (hooks_of (st_db s))))), s).
Proof. reflexivity. Qed.

(** C33: Dispatching a hook point reads the hooks that are active there, once, and
    takes them in the order of their priority. A hook runs when its turn comes if its
    plugin is active at that moment (and has a grant for the point, when grants are
    enforced), whatever the handlers before it did to plugins, hooks or grants, and
    is passed over otherwise. It runs once, on the context and the store that the
    turns before left; a missing handler or one that raises becomes a failed result,
    and the loop goes on, or ends there when asked to. As long as the audit accepts
    the records, a dispatch that the rules let pass always returns. (Of the handlers
    it is only assumed that plugin ids stay unique, which the database sees to; the
    table of handlers is fixed during the dispatch.) *)
Theorem dispatch_exact enforce context stop s s1 :
  plugins_ok (st_db s) → keyed_handlers → _check_dispatch_rule rule_engine point s = (Ok tt, s1) →
  (∀ d ctx' s', dispatch rule_engine exc_text handlers enforce point context stop s = (Ok (d, ctx'), s') →
    ∃ hooks,
      hooks ≡ₚ filter (λ h, at_point point h = true) (hooks_of (st_db s)) ∧
      StronglySorted (λ a b, (hk_priority b <= hk_priority a)%Z) hooks ∧
      turns_ran enforce stop hooks (default [] context) s1 (dr_results d) ctx' s' ∧
      dr_point d = point ∧ dr_all_succeeded d = all_good (dr_results d) ∧ dr_failed d = failures (dr_results d)) ∧
  (audit_returns → ∃ r s', dispatch rule_engine exc_text handlers enforce point context stop s = (Ok r, s')).
Proof.
  intros Hok Hq Hgate. pose proof (run_plugging _ _ _ _ (check_rule_plugging _ _) Hgate) as Hsame.
  assert (Hkey : plugins_keyed (st_db s1)) by (eapply same_plugging_keyed; [exact Hsame|apply Hok]).
  unfold dispatch. rewrite (run_bind_ok _ _ _ _ _ Hgate). split.
  - intros d ctx' s' (hooks & s2 & Hhooks & H)%bind_ok_inv. rewrite point_hooks_run in Hhooks. injection Hhooks as <- <-.
    apply bind_ok_inv in H as (acc & s3 & Hloop & H). injection H as <- <- <-.
    apply loop_exact in Hloop as (results & Hran & Hres & Hgood & Hfail); [|done..].
    cbn [gd_results gd_ok gd_failed app andb] in *. eexists. cbn [dr_results dr_all_succeeded dr_failed]. rewrite Hres.
    split_and!; [| |exact Hran|done|exact Hgood|exact Hfail].
    + rewrite sort_by_perm, scan_perm. unfold hooks_of. by rewrite Hsame.
    + eapply sorted_mono, sort_by_sorted; intros a b; unfold leb_rel, highest_first; rewrite ?Z.leb_le; lia.
  - intros Ha. rewrite (run_bind_ok _ _ _ _ _ (point_hooks_run s1)).
    match goal with |- context [dispatch_loop _ _ _ _ _ ?hs ?acc] =>
      destruct (loop_returns enforce stop hs acc s1 Ha Hq Hkey) as (acc' & s3 & Hrun) end.
    rewrite (run_bind_ok _ _ _ _ _ Hrun). by do 2 eexists.
Qed.
End Dispatch.

(** ** What suspending and uninstalling leave *)

Section Withdrawal.
Context `{host : !Host} `{sink : !AuditSink}.
Context (rule_engine : option (option Z)).

Definition same_hooks : relation store := λ s s',
  hooks_of (st_db s') = hooks_of (st_db s) ∧ permissions_of (st_db s') = permissions_of (st_db s).

#[export] Instance same_hooks_preorder : PreOrder same_hooks.
Proof. split; [by intros s|]. intros a b c [] []. split; congruence. Qed.

Lemma plugging_hooks {R} (m : lp R) : respects same_plugging m → respects same_hooks m.
Proof. intros H s. specialize (H s). unfold same_plugging in H. unfold same_hooks, hooks_of, permissions_of. by rewrite H. Qed.

Lemma transition_hooks id target actor action : respects same_hooks (_plugin_transition rule_engine id target actor action).
Proof.
  unfold _plugin_transition. apply respects_bind; [exact _|apply reads_respects; [exact _|apply get_plugin_or_raise_reads]|intros p].
  apply respects_bind; [exact _|apply reads_respects; [exact _|apply reads_raise_if]|intros _].
  apply respects_bind; [exact _|apply plugging_hooks, transition_gate_apart|intros _].
  apply respects_bind; [exact _|apply reads_respects; [exact _|apply reads_raise_if]|intros _].
  apply respects_bind; [exact _|by intros s|intros ts]. apply respects_bind; [exact _|by intros s|intros _].
  apply plugging_hooks. respects_step; [apply audit_plugging|respects_step].
Qed.

Lemma no_active_hooks id s :
  (∀ h, h ∈ hooks_of (st_db s) → hook_of id h = true → hook_active h = false) → get_hooks_for_plugin id true s = (Ok [], s).
Proof.
  intros H. unfold get_hooks_for_plugin. destruct (select (g_table g_hooks) _ s) as [[l|e] s'] eqn:Hsel; [|done].
  apply select_elem in Hsel as [-> Hl]. do 2 f_equal. destruct l as [|x l]; [done|]. exfalso.
  destruct (proj1 (Hl x)) as [Hx [Hof Hact]%andb_true_iff]; [left|]. by rewrite (H x Hx Hof) in Hact.
Qed.

(** A plugin that is suspended and activated again has lost its hooks. *)
Theorem suspension_loses_hooks id actor actor' s p s1 p' s2 :
  suspend_plugin rule_engine id actor s = (Ok p, s1) → activate_plugin rule_engine id actor' s1 = (Ok p', s2) →
  get_hooks_for_plugin id true s2 = (Ok [], s2).
Proof.
  intros (q & t & _ & (u & t' & ->%sql_update_ok & H)%bind_ok_inv)%bind_ok_inv Hact. injection H as _ <-.
  pose proof (transition_hooks id PLUGIN_ACTIVE actor' ActionType.PLUGIN_ACTIVATE
    (put_db (set_hooks ((λ x, if hook_of id x && hook_active x then archived_hook x else x) <$> g_table g_hooks (st_db t)) (st_db t)) t))
    as [Hsame _].
  unfold activate_plugin in Hact. rewrite Hact in Hsame. cbn [snd] in Hsame.
  apply no_active_hooks. rewrite Hsame. intros h (x & -> & _)%list_elem_of_fmap Hof.
  destruct (hook_of id x && hook_active x) eqn:Hx; [done|]. by rewrite Hof in Hx.
Qed.

(** An uninstallation that returned left the plugin uninstalled, without an active
    hook or permission. *)
Theorem uninstall_withdraws id actor s p s1 :
  uninstall_plugin rule_engine id actor s = (Ok p, s1) →
  pg_id p = id ∧ pg_owner p = actor ∧ pg_state p = UNINSTALLED ∧
  get_hooks_for_plugin id true s1 = (Ok [], s1) ∧ get_permissions id true s1 = (Ok [], s1).
Proof.
  intros (q & t & Htrans & (u & t1 & ->%sql_update_ok & (u' & t2 & ->%sql_update_ok & H)%bind_ok_inv)%bind_ok_inv)%bind_ok_inv.
  injection H as -> <-. unfold _plugin_transition in Htrans.
  apply bind_ok_inv in Htrans as (x & s2 & (-> & _ & Hid)%get_plugin_or_raise_ok & Htrans).
  apply bind_ok_inv in Htrans as ([] & s3 & [Hown%negb_false_iff ->]%raise_if_ok & Htrans).
  repeat run_stmt. apply bool_decide_eq_true_1 in Hown. split_and!; try done.
  - apply no_active_hooks. intros h (y & -> & _)%list_elem_of_fmap Hof. destruct (hook_of (pg_id x) y) eqn:Hy; [done|].
    by rewrite Hy in Hof.
  - unfold get_permissions. destruct (select (g_table g_permissions) _ _) as [[l|e] s'] eqn:Hsel; [|done].
    apply select_elem in Hsel as [-> Hl]. do 2 f_equal. destruct l as [|y l]; [done|]. exfalso.
    destruct (proj1 (Hl y)) as [(z & -> & _)%list_elem_of_fmap [Hof Hact]%andb_true_iff]; [left|].
    destruct (permission_of (pg_id x) z) eqn:Hz; [done|]. by rewrite Hz in Hof.
Qed.
End Withdrawal.
