(* ===== verification/Connectors.v ===== *)
(** * Legacy v1: connectors (connector/models.py, bridge.py)

    The bridges between instances: their states, the policies on what flows through
    them, the traffic they record, and [sync_object], which sends an object. *)

From S2P Require Import Prelude LegacyTypes Schema Json Trail Rules Tenancy Secrets Scheduling RuleGate Contracts.

Definition x_table {R} (f : connector_tables → list R) (t : tables) : list R := f (connecting t).

(** ** models.py *)

Definition connector_state_value (x : ConnectorState) : string :=
  match x with
  | PROPOSED => "proposed" | PENDING_APPROVAL => "pending_approval" | CON_ACTIVE => "active"
  | CON_SUSPENDED => "suspended" | REVOKED => "revoked" | REJECTED => "rejected"
  end.

Definition VALID_CONNECTOR_TRANSITIONS (x : ConnectorState) : list ConnectorState :=
  match x with
  | PROPOSED => [PENDING_APPROVAL; REJECTED; REVOKED]
  | PENDING_APPROVAL => [CON_ACTIVE; REJECTED; REVOKED]
  | CON_ACTIVE => [CON_SUSPENDED; REVOKED]
  | CON_SUSPENDED => [CON_ACTIVE; REVOKED]
  | REVOKED => []
  | REJECTED => []
  end.

Definition TERMINAL_CONNECTOR_STATES : list ConnectorState := [REVOKED; REJECTED].

Definition direction_value (d : ConnectorDirection) : string :=
  match d with INBOUND => "inbound" | OUTBOUND => "outbound" | BIDIRECTIONAL => "bidirectional" end.

Definition policy_type_value (p : PolicyType) : string :=
  match p with
  | ALLOW_TYPES => "allow_types" | DENY_TYPES => "deny_types" | POLICY_RATE_LIMIT => "rate_limit"
  | CLASSIFICATION => "classification"
  end.

Definition traffic_status_value (x : TrafficStatus) : string :=
  match x with TRAFFIC_SUCCESS => "success" | TRAFFIC_BLOCKED => "blocked" | TRAFFIC_FAILED => "failed" end.

Definition connector_active (c : Connector) : bool := bool_decide (cn_state c = CON_ACTIVE).
Definition connector_terminal (c : Connector) : bool := bool_decide (cn_state c ∈ TERMINAL_CONNECTOR_STATES).
Definition connector_can_transition_to (c : Connector) (target : ConnectorState) : bool :=
  bool_decide (target ∈ VALID_CONNECTOR_TRANSITIONS (cn_state c)).

Definition by_connector (id : string) (c : Connector) : bool := bool_decide (cn_id c = id).
Definition policy_of (id : string) (p : ConnectorPolicy) : bool := bool_decide (cp_connector p = id).
Definition traffic_of_connector (id : string) (x : ConnectorTraffic) : bool := bool_decide (ct_connector x = id).

Definition set_connector (st : ConnectorState) (at_ : option Z) (by_ : option string) (c : Connector) : Connector := {|
  cn_id := cn_id c; cn_name := cn_name c; cn_local := cn_local c; cn_remote := cn_remote c; cn_endpoint := cn_endpoint c;
  cn_created_at := cn_created_at c; cn_created_by := cn_created_by c; cn_description := cn_description c; cn_state := st;
  cn_direction := cn_direction c; cn_scope := cn_scope c; cn_approved_at := at_; cn_approved_by := by_;
  cn_metadata := cn_metadata c |}.

Section ConnectorSnapshots.
Context `{host : !Host}.

Definition connector_snapshot (c : Connector) : jdict := [
  ("id", JVstr (cn_id c)); ("name", JVstr (cn_name c)); ("description", JVstr (cn_description c));
  ("local_org_id", JVstr (cn_local c)); ("remote_org_id", JVstr (cn_remote c));
  ("remote_endpoint", JVstr (cn_endpoint c)); ("state", JVstr (connector_state_value (cn_state c)));
  ("direction", JVstr (direction_value (cn_direction c))); ("local_scope_id", jopt (cn_scope c));
  ("created_at", JVstr (isoformat (cn_created_at c))); ("created_by", JVstr (cn_created_by c));
  ("approved_at", jtime (cn_approved_at c)); ("approved_by", jopt (cn_approved_by c));
  ("metadata", JVdict (cn_metadata c))].

Definition connector_policy_snapshot (p : ConnectorPolicy) : jdict := [
  ("id", JVstr (cp_id p)); ("connector_id", JVstr (cp_connector p));
  ("policy_type", JVstr (policy_type_value (cp_type p))); ("config", JVdict (cp_config p));
  ("created_at", JVstr (isoformat (cp_created_at p))); ("created_by", JVstr (cp_created_by p))].
End ConnectorSnapshots.

(** ** ConnectorManager (bridge.py) *)

(** Sends a payload to an endpoint; the answer is a status code and a body. *)
Definition ConnectorTransport : Type := string → jdict → lp (Z * jval).

Section Manager.
Context `{host : !Host} `{sink : !AuditSink} `{registry : !AutoRegister}.
Context (known_principal : string → bool) (rule_engine : option (option Z)) (exc_text : exn → string).

Definition insert_connector (c : Connector) : lp unit :=
  raise_if (negb (known_principal (cn_local c))) (IntegrityError "connectors.local_org_id") ;;
  match cn_scope c with
  | Some sc => require_row t_scopes (λ y, bool_decide (sc_id y = sc)) "connectors.local_scope_id"
  | None => mret tt
  end ;;
  sql_insert (x_table x_connectors) set_connectors (λ a b, bool_decide (cn_id a = cn_id b)) "connectors.id" c.

Definition insert_connector_policy (p : ConnectorPolicy) : lp unit :=
  require_row (x_table x_connectors) (by_connector (cp_connector p)) "connector_policies.connector_id" ;;
  sql_insert (x_table x_policies) set_connector_policies (λ a b, bool_decide (cp_id a = cp_id b))
    "connector_policies.id" p.

Definition insert_traffic (x : ConnectorTraffic) : lp unit :=
  require_row (x_table x_connectors) (by_connector (ct_connector x)) "connector_traffic.connector_id" ;;
  sql_insert (x_table x_traffic) set_traffic (λ a b, bool_decide (ct_id a = ct_id b)) "connector_traffic.id" x.

Definition propose (name local_org remote_org endpoint created_by description : string) (direction : ConnectorDirection)
  (metadata : option jdict) : lp Connector :=
  _check_rule rule_engine (access "connector_propose" (Some created_by) "connector" None None) ;;
  ts ← now_utc;
  cid ← generate_id;
  let connector := {| cn_id := cid; cn_name := name; cn_local := local_org; cn_remote := remote_org;
    cn_endpoint := endpoint; cn_created_at := ts; cn_created_by := created_by; cn_description := description;
    cn_state := PROPOSED; cn_direction := direction; cn_scope := None; cn_approved_at := None; cn_approved_by := None;
    cn_metadata := default [] metadata |} in
  insert_connector connector ;;
  swallow (auto_register ("connector:" +:+ cid) created_by) ;;
  audit (states_req None (Some (connector_snapshot connector))
    (request created_by ActionType.CONNECTOR_PROPOSE "connector" cid)) ;;
  mret connector.

Definition get_connector (id : string) : lp (option Connector) := fetch_one (x_table x_connectors) (by_connector id).

Definition get_connector_or_raise (id : string) : lp Connector :=
  c ← get_connector id;
  match c with Some c => mret c | None => raise (ConnectorError ("Connector " +:+ id +:+ " not found")) end.

Definition newest_connector (a b : Connector) : bool := (cn_created_at b <=? cn_created_at a)%Z.

Definition list_connectors (local_org : option string) (st : option ConnectorState) (limit : nat) : lp (list Connector) :=
  l ← select_sorted (x_table x_connectors) (λ c, filter_opt local_org (cn_local c) && filter_opt st (cn_state c))
        newest_connector;
  mret (take limit l).

Definition _require_creator (c : Connector) (actor : string) : lp unit :=
  raise_if (negb (bool_decide (cn_created_by c = actor)))
    (AccessDenied ("Principal '" +:+ actor +:+ "' is not the creator of connector '" +:+ cn_id c +:+ "'")).

Definition connector_rule_action (a : ActionType.t) : option string :=
  match a with
  | ActionType.CONNECTOR_SUBMIT => Some "connector_submit"
  | ActionType.CONNECTOR_APPROVE => Some "connector_approve"
  | ActionType.CONNECTOR_REJECT => Some "connector_reject"
  | ActionType.CONNECTOR_SUSPEND => Some "connector_suspend"
  | ActionType.CONNECTOR_REVOKE => Some "connector_revoke"
  | _ => None
  end.

(** The columns that a transition of [c] writes, on a row. *)
Definition connector_moved (c : Connector) (target : ConnectorState) (ts : Z) (actor : string) (x : Connector) : Connector :=
  if bool_decide (target = CON_ACTIVE) && bool_decide (cn_approved_at c = None)
  then set_connector target (Some ts) (Some actor) x
  else set_connector target (cn_approved_at x) (cn_approved_by x) x.

Definition _connector_transition (id : string) (target : ConnectorState) (actor : string) (action : ActionType.t)
  : lp Connector :=
  connector ← get_connector_or_raise id;
  _require_creator connector actor ;;
  match connector_rule_action action with
  | Some a => _check_rule rule_engine (access a (Some actor) "connector" (Some id) (cn_scope connector))
  | None => mret tt
  end ;;
  raise_if (negb (connector_can_transition_to connector target))
    (ConnectorError ("Cannot transition connector from " +:+ connector_state_value (cn_state connector) +:+ " to " +:+
      connector_state_value target)) ;;
  ts ← now_utc;
  sql_update (x_table x_connectors) set_connectors (by_connector id) (connector_moved connector target ts actor) ;;
  let connector' := connector_moved connector target ts actor connector in
  audit (states_req None (Some (connector_snapshot connector')) (request actor action "connector" id)) ;;
  mret connector'.

Definition submit_for_approval (id actor : string) : lp Connector :=
  _connector_transition id PENDING_APPROVAL actor ActionType.CONNECTOR_SUBMIT.
Definition approve_connector (id actor : string) : lp Connector :=
  _connector_transition id CON_ACTIVE actor ActionType.CONNECTOR_APPROVE.
Definition reject_connector (id actor : string) : lp Connector :=
  _connector_transition id REJECTED actor ActionType.CONNECTOR_REJECT.
Definition suspend_connector (id actor : string) : lp Connector :=
  _connector_transition id CON_SUSPENDED actor ActionType.CONNECTOR_SUSPEND.
Definition reactivate_connector (id actor : string) : lp Connector :=
  _connector_transition id CON_ACTIVE actor ActionType.CONNECTOR_APPROVE.
Definition revoke_connector (id actor : string) : lp Connector :=
  _connector_transition id REVOKED actor ActionType.CONNECTOR_REVOKE.

(** *** Policies *)

Definition add_policy (id : string) (type : PolicyType) (config : jdict) (created_by : string) : lp ConnectorPolicy :=
  connector ← get_connector_or_raise id;
  _require_creator connector created_by ;;
  ts ← now_utc;
  pid ← generate_id;
  let policy := {| cp_id := pid; cp_connector := id; cp_type := type; cp_config := config; cp_created_at := ts;
    cp_created_by := created_by |} in
  insert_connector_policy policy ;;
  audit (states_req None (Some (connector_policy_snapshot policy))
    (request created_by ActionType.CONNECTOR_POLICY_ADD "connector_policy" pid)) ;;
  mret policy.

Definition get_policies (id : string) : lp (list ConnectorPolicy) := select (x_table x_policies) (policy_of id).

Definition _SECRET_LIKE_TYPES : list string := [
  "secret"; "secrets"; "secret_ref"; "secretref"; "secret_version"; "secretversion"; "credential"; "credentials";
  "api_key"; "apikey"; "private_key"; "privatekey"; "password"].

Definition secret_like (type : string) : bool := bool_decide (py_lower type ∈ _SECRET_LIKE_TYPES).

(** One policy's answer; its list may be any JSON value. *)
Definition policy_allows (type : string) (p : ConnectorPolicy) : outcome bool :=
  let types := default (JVlist []) (jget (cp_config p) "types") in
  match cp_type p with
  | ALLOW_TYPES => if jtruthy types then py_in (JVstr type) types else Ok true
  | DENY_TYPES => negb <$> py_in (JVstr type) types
  | _ => Ok true
  end.

Fixpoint policies_allow (type : string) (l : list ConnectorPolicy) : outcome bool :=
  match l with
  | [] => Ok true
  | p :: l' => ok ← policy_allows type p; if ok : bool then policies_allow type l' else Ok false
  end.

Definition check_policy (id type : string) : lp bool :=
  if secret_like type then mret false
  else policies ← get_policies id; lift (policies_allow type policies).

(** *** Traffic *)

Definition record_traffic (id direction type action actor : string) (object : option string) (status : TrafficStatus)
  (size : option Z) (metadata : option jdict) : lp ConnectorTraffic :=
  ts ← now_utc;
  tid ← generate_id;
  let traffic := {| ct_id := tid; ct_connector := id; ct_direction := direction; ct_object_type := type;
    ct_action := action; ct_at := ts; ct_object := object; ct_status := status; ct_size := size;
    ct_metadata := default [] metadata |} in
  insert_traffic traffic ;;
  audit (metadata_req [("connector_id", JVstr id); ("direction", JVstr direction); ("object_type", JVstr type);
    ("status", JVstr (traffic_status_value status))]
    (request actor ActionType.CONNECTOR_SYNC "connector_traffic" tid)) ;;
  mret traffic.

Definition newest_traffic (a b : ConnectorTraffic) : bool := (ct_at b <=? ct_at a)%Z.

Definition get_traffic (id : string) (direction : option string) (limit : nat) : lp (list ConnectorTraffic) :=
  l ← select_sorted (x_table x_traffic) (λ x, traffic_of_connector id x && filter_opt direction (ct_direction x))
        newest_traffic;
  mret (take limit l).

(** *** sync_object *)

Definition check_direction (c : Connector) (direction : string) : lp unit :=
  raise_if (bool_decide (direction = "outbound") && bool_decide (cn_direction c = INBOUND))
    (ConnectorPolicyViolation "Connector only allows inbound traffic") ;;
  raise_if (bool_decide (direction = "inbound") && bool_decide (cn_direction c = OUTBOUND))
    (ConnectorPolicyViolation "Connector only allows outbound traffic").

(** The checks before any traffic. *)
Definition sync_checks (id actor direction : string) : lp Connector :=
  connector ← get_connector_or_raise id;
  raise_if (bool_decide (cn_state connector = REVOKED)) (ConnectorRevoked "Connector has been revoked") ;;
  raise_if (negb (connector_active connector))
    (ConnectorNotApproved ("Connector is not active (state: " +:+ connector_state_value (cn_state connector) +:+ ")")) ;;
  _check_rule rule_engine (access "connector_sync" (Some actor) "connector" (Some id) (cn_scope connector)) ;;
  check_direction connector direction ;;
  mret connector.

Definition sync_payload (id type : string) (object : option string) (direction : string) (ts : Z) : jdict := [
  ("connector_id", JVstr id); ("object_type", JVstr type); ("object_id", jopt object); ("direction", JVstr direction);
  ("timestamp", JVstr (isoformat ts))].

Definition answered_ok (code : Z) : bool := (200 <=? code)%Z && (code <? 300)%Z.

(** What [sync_object] sends; [None] when the answer was a success. *)
Definition push (transport : ConnectorTransport) (c : Connector) (id type actor : string) (object : option string)
  (direction : string) (size : option Z) : lp (option ConnectorTraffic) :=
  ts ← now_utc;
  answer ← transport (cn_endpoint c) (sync_payload id type object direction ts);
  if answered_ok answer.1 then mret None
  else
    t ← record_traffic id direction type "sync" actor object TRAFFIC_FAILED size
          (Some [("status_code", JVint answer.1); ("response", answer.2)]);
    mret (Some t).

Definition sync_object (transport : option ConnectorTransport) (id type actor : string) (object : option string)
  (direction : string) (size : option Z) : lp ConnectorTraffic :=
  connector ← sync_checks id actor direction;
  allowed ← check_policy id type;
  if negb allowed then
    record_traffic id direction type "sync" actor object TRAFFIC_BLOCKED size None ;;
    raise (ConnectorPolicyViolation ("Object type '" +:+ type +:+ "' is blocked by connector policy"))
  else
    failed ← match transport with
      | Some send =>
          if bool_decide (direction = "outbound") then
            r ← try (push send connector id type actor object direction size);
            match r with
            | Ok o => mret o
            | Raise exc =>
                t ← record_traffic id direction type "sync" actor object TRAFFIC_FAILED size
                      (Some [("error", JVstr (exc_text exc))]);
                mret (Some t)
            end
          else mret None
      | None => mret None
      end;
    match failed with
    | Some t => mret t
    | None => record_traffic id direction type "sync" actor object TRAFFIC_SUCCESS size None
    end.
End Manager.
