(* ===== verification/ConnectorBehaviour.v ===== *)
(** * Legacy v1: what connectors keep and what flows through them

    The invariant of connectors, policies and traffic over every sequence of
    operations, and exactly when and how an object is sent. *)

From S2P Require Import Prelude LegacyTypes Schema Json Trail Rules Tenancy Secrets Scheduling RuleGate Contracts Connectors.

(** ** What is kept *)

Definition connectors_of (t : tables) : list Connector := x_connectors (connecting t).
Definition policies_of (t : tables) : list ConnectorPolicy := x_policies (connecting t).
Definition traffic_of (t : tables) : list ConnectorTraffic := x_traffic (connecting t).

(** When and by whom a connector was approved is known exactly from the first
    activation on. *)
Definition approval_fits (c : Connector) : Prop :=
  match cn_state c with
  | PROPOSED | PENDING_APPROVAL | REJECTED => cn_approved_at c = None ∧ cn_approved_by c = None
  | CON_ACTIVE | CON_SUSPENDED => is_Some (cn_approved_at c) ∧ cn_approved_by c = Some (cn_created_by c)
  | REVOKED => True
  end.

Record bridge_ok (t : tables) : Prop := {
  bk_connectors : NoDup (cn_id <$> connectors_of t);
  bk_policies : NoDup (cp_id <$> policies_of t);
  bk_traffic : NoDup (ct_id <$> traffic_of t);
  bk_policy_connector : ∀ p, p ∈ policies_of t → cp_connector p ∈ cn_id <$> connectors_of t;
  bk_traffic_connector : ∀ x, x ∈ traffic_of t → ct_connector x ∈ cn_id <$> connectors_of t;
  bk_approval : ∀ c, c ∈ connectors_of t → approval_fits c;
}.

(** One move of the table. *)
Definition connector_moves : relation ConnectorState := λ a b, b ∈ VALID_CONNECTOR_TRANSITIONS a.

Definition later_connector (c c' : Connector) : Prop :=
  c' = set_connector (cn_state c') (cn_approved_at c') (cn_approved_by c') c ∧
  rtc connector_moves (cn_state c) (cn_state c') ∧
  (is_Some (cn_approved_at c) → cn_approved_at c' = cn_approved_at c ∧ cn_approved_by c' = cn_approved_by c).

#[export] Instance later_connector_preorder : PreOrder later_connector.
Proof.
  split; [intros []; split; [done|split; [reflexivity|done]]|]. intros a b c (Hab & Rab & Aab) (Hbc & Rbc & Abc).
  split; [rewrite Hbc, Hab; done|]. split; [by etrans|]. intros Ha. destruct (Aab Ha) as [H1 H2].
  rewrite <-H1 in Ha. destruct (Abc Ha) as [H3 H4]. split; congruence.
Qed.

(** Policies and traffic are append-only. *)
Record bridge_later (t t' : tables) : Prop := {
  bl_connectors : grown later_connector (connectors_of t) (connectors_of t');
  bl_policies : policies_of t `prefix_of` policies_of t';
  bl_traffic : traffic_of t `prefix_of` traffic_of t';
}.

#[export] Instance bridge_later_preorder : PreOrder bridge_later.
Proof. split; [intros t; by split|]. intros a b c [] []. split; by etrans. Qed.

(** The layer's three tables as they were. *)
Definition same_bridge : relation store := λ s s',
  connectors_of (st_db s') = connectors_of (st_db s) ∧ policies_of (st_db s') = policies_of (st_db s) ∧
  traffic_of (st_db s') = traffic_of (st_db s).

#[export] Instance same_bridge_preorder : PreOrder same_bridge.
Proof. split; [by intros s|]. intros s1 s2 s3 (?&?&?) (?&?&?). split_and!; congruence. Qed.

Lemma layers_bridge {R} (m : lp R) : respects same_layers m → respects same_bridge m.
Proof.
  intros H s. unfold same_bridge, connectors_of, policies_of, traffic_of, connecting. by rewrite (H s).
Qed.

Lemma audit_bridge `{sink : !AuditSink} q : respects same_bridge (audit q).
Proof. apply layers_bridge, audit_layers. Qed.

Lemma check_rule_bridge `{host : !Host} `{sink : !AuditSink} rule_engine q : respects same_bridge (_check_rule rule_engine q).
Proof. apply layers_bridge, respects_layers, check_rule_off. Qed.

Lemma auto_register_bridge `{registry : !AutoRegister} name by_ : respects same_bridge (swallow (auto_register name by_)).
Proof. intros s. exact (layers_bridge _ (respects_layers _ (auto_register_off name by_)) s). Qed.

Section Invariant.
Context `{host : !Host} `{sink : !AuditSink} `{registry : !AutoRegister}.
Context (known_principal : string → bool) (rule_engine : option (option Z)) (exc_text : exn → string).

#[local] Abbreviation bkeeps := (keeps bridge_ok bridge_later).

Lemma bkeeps_same {R} (m : lp R) s : same_bridge s (m s).2 → bkeeps m s.
Proof.
  intros (H1 & H2 & H3) [A1 A2 A3 A4 A5 A6]. split; [by split; rewrite ?H1, ?H2, ?H3|].
  split; by rewrite ?H1, ?H2, ?H3.
Qed.

Lemma bkeeps_reads {R} (m : lp R) s : reads m → bkeeps m s.
Proof. intros H. by apply keeps_reading; [exact _|]. Qed.

Lemma bkeeps_apart {R} (m : lp R) s : respects same_bridge m → bkeeps m s.
Proof. intros H. apply bkeeps_same, H. Qed.

Lemma bkeeps_audited {R} q (x : R) s : bkeeps (audit q ;; mret x) s.
Proof. apply bkeeps_apart. respects_step; [apply audit_bridge|respects_step]. Qed.

Lemma bkeeps_insert_connector c s : approval_fits c → bkeeps (insert_connector known_principal c) s.
Proof.
  intros Hx. apply keeps_bind; [exact _|apply bkeeps_reads, reads_raise_if|]. intros _ s1 _.
  apply keeps_bind; [exact _| |intros _ s2 _ Hok].
  { apply bkeeps_reads. destruct (cn_scope c) as [sc|]; [intros st; apply require_row_reads|apply reads_ret]. }
  destruct (sql_insert_cases (x_table x_connectors) set_connectors (λ a b, bool_decide (cn_id a = cn_id b)) "connectors.id" c s2)
    as [->|[Hc ->]]; [done|].
  destruct Hok as [A1 A2 A3 A4 A5 A6]. split; [split; try done|split; try done; apply grown_app; exact _].
  - apply fresh_snoc; [done|]. intros y Hy. specialize (Hc y Hy). by apply bool_decide_eq_false_1 in Hc.
  - intros p Hp. unfold connectors_of. simpl. rewrite fmap_app, elem_of_app. left. by apply A4.
  - intros x Hxt. unfold connectors_of. simpl. rewrite fmap_app, elem_of_app. left. by apply A5.
  - intros y [Hy|Hy%list_elem_of_singleton]%elem_of_app; [by apply A6|by subst y].
Qed.

Lemma bkeeps_insert_policy p s : bkeeps (insert_connector_policy p) s.
Proof.
  intros Hok. unfold insert_connector_policy. rewrite run_bind.
  destruct (require_row_cases (x_table x_connectors) (by_connector (cp_connector p)) "connector_policies.connector_id" s)
    as [Hrow|Hrow]; rewrite Hrow; [|by split].
  apply require_row_ok in Hrow as [_ (c & Hin & Hid%bool_decide_eq_true_1)].
  destruct (sql_insert_cases (x_table x_policies) set_connector_policies (λ a b, bool_decide (cp_id a = cp_id b))
    "connector_policies.id" p s) as [->|[Hc ->]]; [by split|].
  destruct Hok as [A1 A2 A3 A4 A5 A6]. split; [split; try done|split; try done; by apply prefix_app_r].
  - apply fresh_snoc; [done|]. intros y Hy. specialize (Hc y Hy). by apply bool_decide_eq_false_1 in Hc.
  - intros y [Hy|Hy%list_elem_of_singleton]%elem_of_app; [by apply A4|]. subst y. rewrite <-Hid. by apply list_elem_of_fmap_2.
Qed.

Lemma bkeeps_insert_traffic x s : bkeeps (insert_traffic x) s.
Proof.
  intros Hok. unfold insert_traffic. rewrite run_bind.
  destruct (require_row_cases (x_table x_connectors) (by_connector (ct_connector x)) "connector_traffic.connector_id" s)
    as [Hrow|Hrow]; rewrite Hrow; [|by split].
  apply require_row_ok in Hrow as [_ (c & Hin & Hid%bool_decide_eq_true_1)].
  destruct (sql_insert_cases (x_table x_traffic) set_traffic (λ a b, bool_decide (ct_id a = ct_id b))
    "connector_traffic.id" x s) as [->|[Hc ->]]; [by split|].
  destruct Hok as [A1 A2 A3 A4 A5 A6]. split; [split; try done|split; try done; by apply prefix_app_r].
  - apply fresh_snoc; [done|]. intros y Hy. specialize (Hc y Hy). by apply bool_decide_eq_false_1 in Hc.
  - intros y [Hy|Hy%list_elem_of_singleton]%elem_of_app; [by apply A5|]. subst y. rewrite <-Hid. by apply list_elem_of_fmap_2.
Qed.

(** Moving the one row that was read and checked. *)
Lemma connector_moved_later c target ts :
  approval_fits c → target ∈ VALID_CONNECTOR_TRANSITIONS (cn_state c) →
  approval_fits (connector_moved c target ts (cn_created_by c) c) ∧
  later_connector c (connector_moved c target ts (cn_created_by c) c).
Proof.
  intros Hfit Hto. assert (Hmove : rtc connector_moves (cn_state c) target) by by apply rtc_once.
  unfold connector_moved. destruct c as [i n l r e ca cb d st dir sc aa ab m]. cbn in *.
  destruct st, target; cbn in Hto; try (exfalso; clear -Hto; set_solver); destruct aa as [a|];
    try (by destruct Hfit as [[=] _]); try (by destruct Hfit as [[? [=]] _]);
    repeat case_bool_decide; try done; cbn;
    (split; [first [exact Hfit|exact I|by split; [eexists|]]|split; [done|split; [done|]]]);
    first [by intros [? [=]]|done].
Qed.

Lemma bkeeps_move id target ts actor c s :
  c ∈ connectors_of (st_db s) → cn_id c = id → cn_created_by c = actor → connector_can_transition_to c target = true →
  bkeeps (sql_update (x_table x_connectors) set_connectors (by_connector id) (connector_moved c target ts actor)) s.
Proof.
  intros Hc Hid <- Hto%bool_decide_eq_true_1 [A1 A2 A3 A4 A5 A6].
  assert (Honly : ∀ x, x ∈ connectors_of (st_db s) → by_connector id x = true → x = c).
  { intros x Hx Hxid%bool_decide_eq_true_1. apply (NoDup_fmap_inj_in cn_id (connectors_of (st_db s))); [done..|congruence]. }
  assert (Hids : ∀ x, cn_id (connector_moved c target ts (cn_created_by c) x) = cn_id x).
  { intros x. unfold connector_moved. by destruct (_ && _). }
  destruct (connector_moved_later c target ts (A6 c Hc) Hto) as [Hfit Hlater].
  split; [split; try done|split; try done].
  - unfold connectors_of. simpl. by rewrite update_column.
  - intros p Hp. unfold connectors_of. simpl. rewrite update_column by done. by apply A4.
  - intros p Hp. unfold connectors_of. simpl. rewrite update_column by done. by apply A5.
  - intros y (x & -> & Hx)%list_elem_of_fmap. destruct (by_connector id x) eqn:Hb; [|by apply A6]. by rewrite (Honly x Hx Hb).
  - apply grown_fmap. intros x Hx. destruct (by_connector id x) eqn:Hb; [|reflexivity]. by rewrite (Honly x Hx Hb).
Qed.

Lemma get_connector_or_raise_reads id : reads (get_connector_or_raise id).
Proof. apply reads_bind; [apply fetch_one_reads|]. intros [c|]; [apply reads_ret|apply reads_raise]. Qed.

Lemma get_connector_or_raise_ok id s c s' :
  get_connector_or_raise id s = (Ok c, s') → s' = s ∧ c ∈ connectors_of (st_db s) ∧ cn_id c = id.
Proof.
  unfold get_connector_or_raise. intros (o & s1 & [-> Ho]%fetch_one_ok & H)%bind_ok_inv.
  destruct o as [q|]; [|done]. apply mret_ok in H as [-> ->]. by destruct Ho as [Hq Hid%bool_decide_eq_true_1].
Qed.

Lemma connector_gate_apart a actor id sc :
  respects same_bridge (match connector_rule_action a with
    | Some act => _check_rule rule_engine (access act (Some actor) "connector" (Some id) sc) | None => mret tt end).
Proof. destruct (connector_rule_action a); [apply check_rule_bridge|respects_step]. Qed.

Lemma bkeeps_transition id target actor action s : bkeeps (_connector_transition rule_engine id target actor action) s.
Proof.
  unfold _connector_transition. apply keeps_bind; [exact _|apply bkeeps_reads, get_connector_or_raise_reads|].
  intros c s1 (-> & Hc & Hid)%get_connector_or_raise_ok.
  apply keeps_bind; [exact _|apply bkeeps_reads, reads_raise_if|]. intros [] s2 [Hby%negb_false_iff ->]%raise_if_ok.
  apply bool_decide_eq_true_1 in Hby. pose proof (connector_gate_apart action actor id (cn_scope c) s) as Hgate.
  apply keeps_bind; [exact _|by apply bkeeps_same|]. intros u s3 Hrun. rewrite Hrun in Hgate. cbn in Hgate.
  apply keeps_bind; [exact _|apply bkeeps_reads, reads_raise_if|]. intros [] s4 [Hto%negb_false_iff ->]%raise_if_ok.
  apply keeps_bind; [exact _|by apply bkeeps_same|]. intros ts s5 [-> ->]%now_utc_ok. cbv zeta.
  apply keeps_bind; [exact _|apply (bkeeps_move id target _ actor c); [|done..]|intros _ s6 _; apply bkeeps_audited].
  destruct Hgate as (-> & _). done.
Qed.

Lemma bkeeps_propose name local remote endpoint by_ description direction metadata s :
  bkeeps (propose known_principal rule_engine name local remote endpoint by_ description direction metadata) s.
Proof.
  unfold propose. apply keeps_bind; [exact _|apply bkeeps_apart, check_rule_bridge|]. intros _ s1 _.
  apply keeps_bind; [exact _|by apply bkeeps_same|]. intros ts s2 _.
  apply keeps_bind; [exact _|by apply bkeeps_same|]. intros cid s3 _. cbv zeta.
  apply keeps_bind; [exact _|by apply bkeeps_insert_connector|]. intros _ s4 _.
  apply keeps_bind; [exact _|apply bkeeps_apart, auto_register_bridge|intros; apply bkeeps_audited].
Qed.

Lemma bkeeps_add_policy id type config by_ s : bkeeps (add_policy id type config by_) s.
Proof.
  unfold add_policy. apply keeps_bind; [exact _|apply bkeeps_reads, get_connector_or_raise_reads|]. intros c s1 _.
  apply keeps_bind; [exact _|apply bkeeps_reads, reads_raise_if|]. intros _ s2 _.
  apply keeps_bind; [exact _|by apply bkeeps_same|]. intros ts s3 _.
  apply keeps_bind; [exact _|by apply bkeeps_same|]. intros pid s4 _. cbv zeta.
  apply keeps_bind; [exact _|apply bkeeps_insert_policy|intros; apply bkeeps_audited].
Qed.

Lemma bkeeps_record id direction type action actor object status size metadata s :
  bkeeps (record_traffic id direction type action actor object status size metadata) s.
Proof.
  unfold record_traffic. apply keeps_bind; [exact _|by apply bkeeps_same|]. intros ts s1 _.
  apply keeps_bind; [exact _|by apply bkeeps_same|]. intros tid s2 _. cbv zeta.
  apply keeps_bind; [exact _|apply bkeeps_insert_traffic|intros; apply bkeeps_audited].
Qed.

(** A transport may do anything that keeps the layer sound. *)
Definition fair_connector_transport (send : ConnectorTransport) : Prop := ∀ endpoint payload s, bkeeps (send endpoint payload) s.

Lemma check_direction_reads c direction : reads (check_direction c direction).
Proof. apply reads_bind; [apply reads_raise_if|intros; apply reads_raise_if]. Qed.

Lemma sync_checks_apart id actor direction : respects same_bridge (sync_checks rule_engine id actor direction).
Proof.
  unfold sync_checks. apply respects_bind; [exact _|apply reads_respects; [exact _|apply get_connector_or_raise_reads]|intros c].
  apply respects_bind; [exact _|apply reads_respects; [exact _|apply reads_raise_if]|intros _].
  apply respects_bind; [exact _|apply reads_respects; [exact _|apply reads_raise_if]|intros _].
  apply respects_bind; [exact _|apply check_rule_bridge|intros _].
  apply respects_bind; [exact _|apply reads_respects; [exact _|apply check_direction_reads]|intros _]. respects_step.
Qed.

Lemma check_policy_reads id type : reads (check_policy id type).
Proof.
  unfold check_policy. destruct (secret_like type); [apply reads_ret|].
  apply reads_bind; [by intros s|intros; apply reads_lift].
Qed.

Lemma bkeeps_push send c id type actor object direction size s :
  fair_connector_transport send → bkeeps (push send c id type actor object direction size) s.
Proof.
  intros Hf. apply keeps_bind; [exact _|by apply bkeeps_same|]. intros ts s1 _.
  apply keeps_bind; [exact _|by apply Hf|]. intros answer s2 _. destruct (answered_ok _); [by apply bkeeps_same|].
  apply keeps_bind; [exact _|apply bkeeps_record|intros; by apply bkeeps_same].
Qed.

Lemma bkeeps_sync transport id type actor object direction size s :
  (∀ send, transport = Some send → fair_connector_transport send) →
  bkeeps (sync_object rule_engine exc_text transport id type actor object direction size) s.
Proof.
  intros Hf. unfold sync_object. apply keeps_bind; [exact _|apply bkeeps_apart, sync_checks_apart|]. intros c s1 _.
  apply keeps_bind; [exact _|apply bkeeps_reads, check_policy_reads|]. intros allowed s2 _.
  destruct (negb allowed); [apply keeps_bind; [exact _|apply bkeeps_record|intros; by apply bkeeps_same]|].
  apply keeps_bind; [exact _| |intros [t|] s3 _; [by apply bkeeps_same|apply bkeeps_record]].
  destruct transport as [send|]; [|by apply bkeeps_same]. case_bool_decide; [|by apply bkeeps_same].
  apply keeps_bind; [exact _|by apply keeps_try, bkeeps_push, Hf|]. intros [o|e] s3 _; [by apply bkeeps_same|].
  apply keeps_bind; [exact _|apply bkeeps_record|intros; by apply bkeeps_same].
Qed.
End Invariant.

(** ** Every sequence of operations *)

Section Reachable.
Context `{host : !Host} `{sink : !AuditSink} `{registry : !AutoRegister}.
Context (known_principal : string → bool) (rule_engine : option (option Z)) (exc_text : exn → string).

Inductive connector_op :=
  | CPropose (name local remote endpoint by_ description : string) (direction : ConnectorDirection) (metadata : option jdict)
  | CSubmit (id actor : string)
  | CApprove (id actor : string)
  | CReject (id actor : string)
  | CSuspend (id actor : string)
  | CReactivate (id actor : string)
  | CRevoke (id actor : string)
  | CAddPolicy (id : string) (type : PolicyType) (config : jdict) (by_ : string)
  | CRecordTraffic (id direction type action actor : string) (object : option string) (status : TrafficStatus)
      (size : option Z) (metadata : option jdict)
  | CSync (transport : option ConnectorTransport) (id type actor : string) (object : option string) (direction : string)
      (size : option Z).

Definition run_connector_op (op : connector_op) : lp unit :=
  match op with
  | CPropose name local remote endpoint by_ description direction metadata =>
      propose known_principal rule_engine name local remote endpoint by_ description direction metadata ;; mret tt
  | CSubmit id actor => submit_for_approval rule_engine id actor ;; mret tt
  | CApprove id actor => approve_connector rule_engine id actor ;; mret tt
  | CReject id actor => reject_connector rule_engine id actor ;; mret tt
  | CSuspend id actor => suspend_connector rule_engine id actor ;; mret tt
  | CReactivate id actor => reactivate_connector rule_engine id actor ;; mret tt
  | CRevoke id actor => revoke_connector rule_engine id actor ;; mret tt
  | CAddPolicy id type config by_ => add_policy id type config by_ ;; mret tt
  | CRecordTraffic id direction type action actor object status size metadata =>
      record_traffic id direction type action actor object status size metadata ;; mret tt
  | CSync transport id type actor object direction size =>
      sync_object rule_engine exc_text transport id type actor object direction size ;; mret tt
  end.

Definition fair_connector_op (op : connector_op) : Prop :=
  match op with CSync (Some send) _ _ _ _ _ _ => fair_connector_transport send | _ => True end.

(** An operation, or anything that leaves the layer's rows alone. *)
Inductive connector_step : relation store :=
  | connector_step_op op s : fair_connector_op op → connector_step s (run_connector_op op s).2
  | connector_step_other s s' : same_bridge s s' → connector_step s s'.

Lemma run_connector_op_keeps op s : fair_connector_op op → keeps bridge_ok bridge_later (run_connector_op op) s.
Proof.
  intros Hf. destruct op; cbn [run_connector_op];
    (apply keeps_bind; [exact _| |intros; by apply bkeeps_same]);
    try apply bkeeps_transition.
  - apply bkeeps_propose.
  - apply bkeeps_add_policy.
  - apply bkeeps_record.
  - apply bkeeps_sync. intros send ->. exact Hf.
Qed.

(** The bridge stays sound whatever is called, on every exit: ids are unique,
    policies and traffic belong to stored connectors and are append-only; a
    connector keeps its identity and moves along the table only, so that revoked
    and rejected are final; it is active or suspended only once approved, always by
    its own creator, and the first approval is never overwritten. *)
Theorem connectors_reachable_ok s s' :
  bridge_ok (st_db s) → rtc connector_step s s' → bridge_ok (st_db s') ∧ bridge_later (st_db s) (st_db s').
Proof.
  intros Hok Hsteps. induction Hsteps as [s|s1 s2 s3 Hstep _ IH]; [done|].
  assert (H2 : bridge_ok (st_db s2) ∧ bridge_later (st_db s1) (st_db s2)).
  { destruct Hstep as [op s1 Hf|s1 s2 Hsame]; [by apply run_connector_op_keeps|].
    by apply (bkeeps_same (λ _, (Ok tt, s2)) s1 Hsame). }
  destruct H2 as [Hok2 H12]. destruct (IH Hok2) as [Hok3 H23]. split; [done|]. by etrans.
Qed.
End Reachable.

(** ** Sending an object *)

Definition direction_permits (c : Connector) (direction : string) : bool :=
  negb (bool_decide (direction = "outbound") && bool_decide (cn_direction c = INBOUND)) &&
  negb (bool_decide (direction = "inbound") && bool_decide (cn_direction c = OUTBOUND)).

(** What may flow: through an active connector of that direction, never a secret,
    and past every policy. *)
Definition permitted (t : tables) (id type direction : string) : Prop :=
  (∃ c, c ∈ connectors_of t ∧ cn_id c = id ∧ cn_state c = CON_ACTIVE ∧ direction_permits c direction = true) ∧
  secret_like type = false ∧
  ∀ p, p ∈ policies_of t → cp_connector p = id → policy_allows type p = Ok true.

(** A traffic record of this very call. *)
Definition records_sync (id type : string) (object : option string) (direction : string) (size : option Z)
  (x : ConnectorTraffic) : Prop :=
  ct_connector x = id ∧ ct_object_type x = type ∧ ct_object x = object ∧ ct_direction x = direction ∧
  ct_action x = "sync" ∧ ct_size x = size.

Section Sync.
Context `{host : !Host} `{sink : !AuditSink}.
Context (rule_engine : option (option Z)) (exc_text : exn → string).
Context (id type actor : string) (object : option string) (direction : string) (size : option Z).

#[local] Abbreviation sync transport := (sync_object rule_engine exc_text transport id type actor object direction size).
#[local] Abbreviation record status metadata := (record_traffic id direction type "sync" actor object status size metadata).

(** The transport took the object, if there is one to ask. *)
Definition delivered (transport : option ConnectorTransport) (c : Connector) (s : store) : Prop :=
  match transport with
  | Some send => direction = "outbound" → ∃ code body,
      (send (cn_endpoint c) (sync_payload id type object direction (st_now s)) s).1 = Ok (code, body) ∧ answered_ok code = true
  | None => True
  end.

Definition quiet_transport (transport : option ConnectorTransport) : Prop :=
  ∀ send endpoint payload, transport = Some send → respects same_bridge (send endpoint payload).

(** From [s] to [s'] only traffic of this call with one of the states [ok] was added. *)
Definition added (ok : TrafficStatus → Prop) (rows : list ConnectorTraffic) (s s' : store) : Prop :=
  connectors_of (st_db s') = connectors_of (st_db s) ∧ policies_of (st_db s') = policies_of (st_db s) ∧
  traffic_of (st_db s') = traffic_of (st_db s) ++ rows ∧
  Forall (λ x, records_sync id type object direction size x ∧ ok (ct_status x)) rows.

Lemma added_none ok s s' : same_bridge s s' → added ok [] s s'.
Proof. intros (H1 & H2 & H3). split_and!; try done. by rewrite app_nil_r. Qed.

Lemma added_trans ok rows rows' s1 s2 s3 : added ok rows s1 s2 → added ok rows' s2 s3 → added ok (rows ++ rows') s1 s3.
Proof.
  intros (A1 & A2 & A3 & A4) (B1 & B2 & B3 & B4). split_and!; [congruence|congruence| |by apply Forall_app].
  by rewrite B3, A3, app_assoc.
Qed.

Lemma record_cases status metadata s r s' :
  record status metadata s = (r, s') →
  (∃ e, r = Raise e ∧ same_bridge s s') ∨
  (∃ x, added (λ st, st = status) [x] s s' ∧ (∀ y, r = Ok y → y = x)).
Proof.
  unfold record_traffic. intros H. rewrite (run_bind_ok now_utc _ s (st_now s) s eq_refl) in H.
  rewrite (run_bind_ok generate_id _ s (id_of (st_next s)) (put_next (S (st_next s)) s) eq_refl) in H.
  cbv beta zeta in H. set (s1 := put_next (S (st_next s)) s) in H. rewrite run_bind in H.
  match type of H with context [insert_traffic ?y] => set (x := y) in H end.
  destruct (insert_traffic x s1) as [[u|e] s2] eqn:Hins.
  - right. unfold insert_traffic in Hins. apply bind_ok_inv in Hins as ([] & s3 & Hreq & Hins).
    apply require_row_ok in Hreq as [-> _]. apply sql_insert_ok in Hins as [_ ->]. rewrite run_bind in H.
    exists x. match type of H with context [audit ?q ?t] => destruct (audit q t) as [[[]|e] s4] eqn:Ha;
      pose proof (audit_bridge q t) as Hq; rewrite Ha in Hq; cbn [snd] in Hq end; destruct Hq as (H1 & H2 & H3); injection H as <- <-;
      (split; [split_and!; [by rewrite H1|by rewrite H2|by rewrite H3|by apply list.Forall_singleton]|]); by intros y [=].
  - left. injection H as <- <-. exists e. split; [done|]. unfold insert_traffic in Hins. rewrite run_bind in Hins.
    destruct (require_row_cases (x_table x_connectors) (by_connector (ct_connector x)) "connector_traffic.connector_id" s1)
      as [Hrow|Hrow]; rewrite Hrow in Hins; [|by injection Hins as <- <-].
    destruct (sql_insert_cases (x_table x_traffic) set_traffic (λ a b, bool_decide (ct_id a = ct_id b))
      "connector_traffic.id" x s1) as [Hi|[_ Hi]]; rewrite Hi in Hins; [|done]. by injection Hins as <- <-.
Qed.

Lemma sync_checks_ok s c s1 :
  sync_checks rule_engine id actor direction s = (Ok c, s1) →
  same_bridge s s1 ∧ c ∈ connectors_of (st_db s) ∧ cn_id c = id ∧ cn_state c = CON_ACTIVE ∧ direction_permits c direction = true.
Proof.
  intros H. pose proof (sync_checks_apart rule_engine id actor direction s) as Hsame. rewrite H in Hsame.
  unfold sync_checks in H. apply bind_ok_inv in H as (d & s2 & (-> & Hc & Hid)%get_connector_or_raise_ok & H).
  apply bind_ok_inv in H as ([] & s3 & [_ ->]%raise_if_ok & H).
  apply bind_ok_inv in H as ([] & s4 & [Ha%negb_false_iff%bool_decide_eq_true_1 ->]%raise_if_ok & H).
  apply bind_ok_inv in H as (u & s5 & _ & H). apply bind_ok_inv in H as (u' & s6 & Hdir & H).
  apply mret_ok in H as [-> ->]. split_and!; [exact Hsame|done..|].
  unfold check_direction in Hdir. apply bind_ok_inv in Hdir as ([] & s7 & [Ho ->]%raise_if_ok & Hdir).
  destruct u'. apply raise_if_ok in Hdir as [Hi _]. unfold direction_permits. by rewrite Ho, Hi.
Qed.

Lemma policies_allow_all l : policies_allow type l = Ok true → ∀ p, p ∈ l → policy_allows type p = Ok true.
Proof.
  induction l as [|q l IH]; [by intros _ p ?%elem_of_nil|]. cbn [policies_allow]. intros H p Hp.
  destruct (policy_allows type q) as [[]|e] eqn:Hq; [|done..]. apply elem_of_cons in Hp as [->|Hp]; [done|by apply IH].
Qed.

Lemma check_policy_ok s b s1 :
  check_policy id type s = (Ok b, s1) →
  s1 = s ∧ (b = true → secret_like type = false ∧
    ∀ p, p ∈ policies_of (st_db s) → cp_connector p = id → policy_allows type p = Ok true).
Proof.
  unfold check_policy. destruct (secret_like type); [by intros [= <- <-]|].
  intros (l & s2 & Hsel & Hl)%bind_ok_inv. apply select_elem in Hsel as [-> Hin]. apply lift_ok in Hl as [Hl ->].
  split; [done|]. intros ->. split; [done|]. intros p Hp Hpid. apply (policies_allow_all l Hl), Hin.
  split; [done|by apply bool_decide_eq_true_2].
Qed.

Lemma policies_allow_refused l : policies_allow type l = Ok false → ∃ p, p ∈ l ∧ policy_allows type p = Ok false.
Proof.
  induction l as [|q l IH]; [done|]. cbn [policies_allow]. destruct (policy_allows type q) as [[]|e] eqn:Hq; [|..|done].
  - intros (p & Hp & Hr)%IH. exists p. split; [by right|done].
  - intros _. exists q. split; [left|done].
Qed.

(** Who refuses: the secret-like name, or a policy of the connector. *)
Definition refused (t : tables) : Prop :=
  secret_like type = true ∨ ∃ p, p ∈ policies_of t ∧ cp_connector p = id ∧ policy_allows type p = Ok false.

Lemma check_policy_refused s s1 : check_policy id type s = (Ok false, s1) → refused (st_db s).
Proof.
  unfold check_policy, refused. destruct (secret_like type); [by left|right].
  revert H. intros (l & s2 & Hsel & Hl)%bind_ok_inv. apply select_elem in Hsel as [-> Hin]. apply lift_ok in Hl as [Hl ->].
  apply policies_allow_refused in Hl as (p & Hp & Hr). apply Hin in Hp as [Hp Hpid%bool_decide_eq_true_1]. by exists p.
Qed.

(** One attempt to send. *)
Definition took (send : ConnectorTransport) (c : Connector) (s : store) : Prop := ∃ code body,
  (send (cn_endpoint c) (sync_payload id type object direction (st_now s)) s).1 = Ok (code, body) ∧ answered_ok code = true.

Lemma push_cases send c s r s' :
  quiet_transport (Some send) → push send c id type actor object direction size s = (r, s') →
  ∃ rows, added (λ st, st = TRAFFIC_FAILED) rows s s' ∧
    (r = Ok None ∧ rows = [] ∧ took send c s ∨
     r ≠ Ok None ∧ ¬ took send c s ∧ ∀ x, r = Ok (Some x) → rows = [x]).
Proof.
  intros Hq. unfold push. rewrite (run_bind_ok now_utc _ s (st_now s) s eq_refl), run_bind. unfold took.
  pose proof (Hq send (cn_endpoint c) (sync_payload id type object direction (st_now s)) eq_refl s) as Hsame.
  destruct (send _ _ s) as [[[code body]|e] s1]; cbn [fst snd] in *; intros H.
  - destruct (answered_ok code) eqn:Hcode.
    + injection H as <- <-. exists []. split; [by apply added_none|]. left. split_and!; [done|done|by exists code, body].
    + assert (Hnot : ¬ ∃ code' body', @Ok (Z * jval) (code, body) = Ok (code', body') ∧ answered_ok code' = true).
      { intros (code' & body' & [= <- _] & Ha). congruence. }
      rewrite run_bind in H. destruct (record TRAFFIC_FAILED _ s1) as [[x|e] s2] eqn:Hrec;
        apply record_cases in Hrec as [(e' & He & Hs)|(y & Hy & Heq)]; try done; injection H as <- <-.
      * exists [y]. split; [apply (added_trans _ [] [y] s s1 s2); [by apply added_none|done]|]. right. split_and!; [done|done|].
        intros z [= <-]. by rewrite (Heq x).
      * exists []. split; [apply added_none; by etrans|]. right. split_and!; done.
      * exists [y]. split; [apply (added_trans _ [] [y] s s1 s2); [by apply added_none|done]|]. right. by split_and!.
  - injection H as <- <-. exists []. split; [by apply added_none|]. right. split_and!; [done| |done].
    by intros (code & body & [=] & _).
Qed.

Lemma added_mono (P Q : TrafficStatus → Prop) rows s s' : (∀ st, P st → Q st) → added P rows s s' → added Q rows s s'.
Proof. intros H (H1 & H2 & H3 & H4). split_and!; try done. eapply Forall_impl; [exact H4|]. intros x []. auto. Qed.

(** The part after the checks, of a call that is allowed. *)
Definition sending (transport : option ConnectorTransport) (c : Connector) : lp ConnectorTraffic :=
  failed ← match transport with
    | Some send =>
        if bool_decide (direction = "outbound") then
          r ← try (push send c id type actor object direction size);
          match r with
          | Ok o => mret o
          | Raise exc => t ← record TRAFFIC_FAILED (Some [("error", JVstr (exc_text exc))]); mret (Some t)
          end
        else mret None
    | None => mret None
    end;
  match failed with Some t => mret t | None => record TRAFFIC_SUCCESS None end.

(** What raised is the recording of the call. *)
Definition unrecorded (e : exn) (s' : store) : Prop :=
  ∃ status metadata s1, record status metadata s1 = (Raise e, s').

Lemma finish_success s r s' :
  record TRAFFIC_SUCCESS None s = (r, s') →
  ∃ rows, added (λ st, st ≠ TRAFFIC_BLOCKED) rows s s' ∧
    (∀ x, r = Ok x → last rows = Some x ∧ ct_status x = TRAFFIC_SUCCESS) ∧ ∀ e, r = Raise e → unrecorded e s'.
Proof.
  intros Hrec. assert (Hun : ∀ e, r = Raise e → unrecorded e s') by (intros e ->; by do 3 eexists).
  destruct (record_cases _ _ _ _ _ Hrec) as [(e & -> & Hs)|(y & Hy & Heq)]; [exists []; split_and!; [by apply added_none|done|done]|].
  exists [y]. split_and!; [by eapply added_mono; [|exact Hy]; intros st ->| |done]. intros x Hx. rewrite (Heq x Hx).
  split; [done|]. destruct Hy as (_ & _ & _ & [_ Hst]%list.Forall_singleton). exact Hst.
Qed.

Lemma sending_cases transport c s r s' :
  quiet_transport transport → sending transport c s = (r, s') →
  ∃ rows, added (λ st, st ≠ TRAFFIC_BLOCKED) rows s s' ∧
    (∀ x, r = Ok x → last rows = Some x ∧ (ct_status x = TRAFFIC_SUCCESS ↔ delivered transport c s)) ∧
    ∀ e, r = Raise e → unrecorded e s'.
Proof.
  intros Hq. unfold sending. assert (Hnosend : delivered transport c s → record TRAFFIC_SUCCESS None s = (r, s') →
    ∃ rows, added (λ st, st ≠ TRAFFIC_BLOCKED) rows s s' ∧
      (∀ x, r = Ok x → last rows = Some x ∧ (ct_status x = TRAFFIC_SUCCESS ↔ delivered transport c s)) ∧
      ∀ e, r = Raise e → unrecorded e s').
  { intros Hd (rows & Ha & Hx & Hun)%finish_success. exists rows. split_and!; [done| |done]. intros x Hr. destruct (Hx x Hr). by split. }
  destruct transport as [send|]; [|by apply Hnosend]. case_bool_decide as Hout; [|by apply Hnosend; intros ?].
  rewrite run_bind. unfold try. rewrite run_bind.
  destruct (push send c id type actor object direction size s) as [o s1] eqn:Hpush.
  apply push_cases in Hpush as (rows & Hadd & Hcase); [|done].
  assert (Hadd' : added (λ st, st ≠ TRAFFIC_BLOCKED) rows s s1) by (eapply added_mono; [|exact Hadd]; by intros st ->).
  assert (Hdel : delivered (Some send) c s ↔ took send c s).
  { unfold delivered, took. split; [intros H; by apply H|by intros H _]. }
  destruct Hcase as [(-> & -> & Htook)|(Hne & Hnot & Hrow)].
  - intros (rows & Ha & Hx & Hun)%finish_success. exists rows.
    split_and!; [by apply (added_trans _ [] rows s s1 s')| |done]. intros x Hr. destruct (Hx x Hr). by rewrite Hdel.
  - destruct o as [[x|]|e]; [|done|].
    + intros [= <- <-]. exists rows. split_and!; [done| |done]. intros y [= <-]. rewrite (Hrow x eq_refl), Hdel in *. split; [done|].
      destruct Hadd as (_ & _ & _ & [_ Hst]%list.Forall_singleton). rewrite Hst. by split.
    + rewrite run_bind. destruct (record TRAFFIC_FAILED _ s1) as [[x|e'] s2] eqn:Hrec; intros [= <- <-];
        [|assert (Hun : ∀ x, Raise e' = @Raise ConnectorTraffic x → unrecorded x s2) by (intros x [= <-]; by do 3 eexists)];
        apply record_cases in Hrec as [(e'' & He & Hs)|(y & Hy & Heq)]; try done.
      * exists (rows ++ [y]). split; [apply (added_trans _ rows [y] s s1 s2); [done|by eapply added_mono; [|exact Hy]; intros st ->]|split; [|done]].
        intros z [= <-]. rewrite (Heq x eq_refl), last_snoc, Hdel. split; [done|].
        destruct Hy as (_ & _ & _ & [_ Hst]%list.Forall_singleton). rewrite Hst. by split.
      * exists rows. split; [|by split]. rewrite <-(app_nil_r rows). apply (added_trans _ rows [] s s1 s2); [done|by apply added_none].
      * exists (rows ++ [y]). split; [|by split]. apply (added_trans _ rows [y] s s1 s2); [done|].
        by eapply added_mono; [|exact Hy]; intros st ->.
Qed.

End Sync.
