(* ===== verification/Federation.v ===== *)
(** * Legacy v1: the federation protocol (connector/protocol.py)

    Signed messages between instances, the sender's sequence numbers, the
    receiver's ledger against replays, and the negotiation of a common schema. *)

From Stdlib Require Import Ascii.
From S2P Require Import Prelude LegacyTypes Schema Json JsonParse Trail RuleGate Connectors.

(** HMAC-SHA256 of a text under a key, in hexadecimal digits. *)
Class Hmac := {
  hmac_hexdigest : string → string → string;
  hmac_is_ascii : ∀ key data, Forall (λ c, nat_of_ascii c < 128) (String.list_ascii_of_string (hmac_hexdigest key data));
}.

Record FederationMessage := {
  fm_id : string; fm_sender : string; fm_receiver : string; fm_connector : string; fm_type : string; fm_payload : jdict;
  fm_timestamp : Z; fm_sequence : Z; fm_signature : string;
}.

Definition signed_with (sig : string) (m : FederationMessage) : FederationMessage := {|
  fm_id := fm_id m; fm_sender := fm_sender m; fm_receiver := fm_receiver m; fm_connector := fm_connector m;
  fm_type := fm_type m; fm_payload := fm_payload m; fm_timestamp := fm_timestamp m; fm_sequence := fm_sequence m;
  fm_signature := sig |}.

(** [hmac.compare_digest] takes ASCII strings only. *)
Definition ascii_only (s : string) : bool := forallb (λ c, nat_of_ascii c <? 128) (String.list_ascii_of_string s).

Definition compare_digest (a b : string) : outcome bool :=
  if ascii_only a && ascii_only b then Ok (bool_decide (a = b))
  else Raise (TypeError "comparing strings with non-ASCII characters is not supported").

(** ** Schema capabilities *)

Record SchemaCapability := { sc_types : list string; sc_api : string; sc_features : list string }.

Definition capability_to_dict (c : SchemaCapability) : jdict := [
  ("object_types", JVlist (JVstr <$> sc_types c)); ("api_version", JVstr (sc_api c));
  ("features", JVlist (JVstr <$> sc_features c))].

Record NegotiationResult := {
  nr_compatible : bool; nr_types : list string; nr_features : list string; nr_incompatibilities : list string;
}.

(** [version.split(".", 1)[0]]. *)
Fixpoint before_dot (s : string) : string :=
  match s with
  | EmptyString => EmptyString
  | String c s' => if bool_decide (c = "."%char) then EmptyString else String c (before_dot s')
  end.

Definition _major (version : string) : option Z :=
  match version with EmptyString => None | _ => py_int (before_dot version) end.

(** [tuple(sorted(set(a) & set(b)))]. *)
Definition common (a b : list string) : list string :=
  sort_by String.leb (remove_dups (filter (λ x, x ∈ b) a)).

Definition version_incompatibilities (a b : string) : list string :=
  match _major a, _major b with
  | Some x, Some y =>
      if bool_decide (x = y) then []
      else ["API major version mismatch: local=" +:+ a +:+ ", remote=" +:+ b]
  | _, _ => if bool_decide (a = b) then [] else ["API version mismatch: local=" +:+ a +:+ ", remote=" +:+ b]
  end.

Definition is_nil {X} (l : list X) : bool := match l with [] => true | _ => false end.

Definition negotiate_schema (local remote : SchemaCapability) : NegotiationResult :=
  let types := common (sc_types local) (sc_types remote) in
  let incompatibilities := version_incompatibilities (sc_api local) (sc_api remote) ++
    (if is_nil types && negb (is_nil (sc_types local) && is_nil (sc_types remote)) then ["No common object types"] else []) in
  {| nr_compatible := is_nil incompatibilities; nr_types := types;
     nr_features := common (sc_features local) (sc_features remote); nr_incompatibilities := incompatibilities |}.

(** ** FederationProtocol *)

Definition by_sequence_of (connector : string) (x : FederationSequence) : bool := bool_decide (fq_connector x = connector).

(** PRIMARY KEY (connector_id, sender_org_id, sequence). *)
Definition seen_clash (a b : SeenMessage) : bool :=
  bool_decide (fs_connector a = fs_connector b) && bool_decide (fs_sender a = fs_sender b) &&
  bool_decide (fs_sequence a = fs_sequence b).

Section Protocol.
Context `{host : !Host} `{hmac : !Hmac}.
Context (key : string) (exc_text : exn → string).

Definition message_to_dict (m : FederationMessage) : jdict := [
  ("id", JVstr (fm_id m)); ("sender_org_id", JVstr (fm_sender m)); ("receiver_org_id", JVstr (fm_receiver m));
  ("connector_id", JVstr (fm_connector m)); ("message_type", JVstr (fm_type m)); ("payload", JVdict (fm_payload m));
  ("timestamp", JVstr (isoformat (fm_timestamp m))); ("sequence", JVint (fm_sequence m));
  ("signature", JVstr (fm_signature m))].

Definition _sign (data : string) : string := hmac_hexdigest key data.

Definition _signing_payload (m : FederationMessage) : string :=
  join_with "|" [fm_id m; fm_sender m; fm_receiver m; fm_connector m; fm_type m; json_dumps (JVdict (fm_payload m));
    isoformat (fm_timestamp m); pretty (fm_sequence m)].

Definition _next_sequence (connector : string) : lp Z :=
  row ← fetch_one (x_table x_sequences) (by_sequence_of connector);
  ts ← now_utc;
  match row with
  | None =>
      sql_insert (x_table x_sequences) set_sequences (λ a b, bool_decide (fq_connector a = fq_connector b))
        "federation_sequences.connector_id" {| fq_connector := connector; fq_last := 1; fq_at := ts |} ;;
      mret 1%Z
  | Some x =>
      let seq := (fq_last x + 1)%Z in
      sql_update (x_table x_sequences) set_sequences (by_sequence_of connector) (λ y,
        {| fq_connector := fq_connector y; fq_last := seq; fq_at := ts |}) ;;
      mret seq
  end.

Definition replay_detected : exn := FederationError "Message replay detected".

Definition _record_seen (connector sender : string) (sequence : Z) (message : string) : lp unit :=
  ts ← now_utc;
  translating exc_text ["unique"; "primary"; "integrity"; "duplicate"] replay_detected
    (sql_insert (x_table x_seen) set_seen seen_clash "federation_seen_messages"
      {| fs_connector := connector; fs_sender := sender; fs_sequence := sequence; fs_at := ts; fs_message := message |}).

(** The message with its signature, once its number is drawn. *)
Definition sealed_message (sender receiver connector type : string) (payload : jdict) (seq : Z) : lp FederationMessage :=
  ts ← now_utc;
  mid ← generate_id;
  let unsigned := {| fm_id := mid; fm_sender := sender; fm_receiver := receiver; fm_connector := connector;
    fm_type := type; fm_payload := payload; fm_timestamp := ts; fm_sequence := seq; fm_signature := "" |} in
  mret (signed_with (_sign (_signing_payload unsigned)) unsigned).

Definition create_message (sender receiver connector type : string) (payload : jdict) : lp FederationMessage :=
  seq ← _next_sequence connector;
  sealed_message sender receiver connector type payload seq.

Definition verify_message (m : FederationMessage) : outcome bool :=
  compare_digest (_sign (_signing_payload m)) (fm_signature m).

Definition verify_or_raise (m : FederationMessage) : lp unit :=
  ok ← lift (verify_message m);
  raise_if (negb ok) (FederationError "Message signature verification failed").

Definition mark_seen (m : FederationMessage) : lp unit :=
  _record_seen (fm_connector m) (fm_sender m) (fm_sequence m) (fm_id m).

Definition accept_message (m : FederationMessage) : lp unit := verify_or_raise m ;; mark_seen m.

(** *** Without a backend: the protocol object's own memory *)

Record protocol_memory := {
  _memory_sequences : gmap string Z;
  _memory_seen : gset (string * string * Z);
}.

Definition memory_next_sequence (connector : string) (pm : protocol_memory) : Z * protocol_memory :=
  let seq := (default 0%Z (_memory_sequences pm !! connector) + 1)%Z in
  (seq, {| _memory_sequences := <[connector := seq]> (_memory_sequences pm); _memory_seen := _memory_seen pm |}).

Definition memory_record_seen (m : FederationMessage) (pm : protocol_memory) : outcome protocol_memory :=
  let k := (fm_connector m, fm_sender m, fm_sequence m) in
  if decide (k ∈ _memory_seen pm) then Raise replay_detected
  else Ok {| _memory_sequences := _memory_sequences pm; _memory_seen := {[k]} ∪ _memory_seen pm |}.

Definition memory_create_message (sender receiver connector type : string) (payload : jdict) (pm : protocol_memory)
  : lp (FederationMessage * protocol_memory) :=
  let next := memory_next_sequence connector pm in
  m ← sealed_message sender receiver connector type payload next.1;
  mret (m, next.2).

Definition memory_accept_message (m : FederationMessage) (pm : protocol_memory) : outcome protocol_memory :=
  ok ← verify_message m;
  if ok : bool then memory_record_seen m pm else Raise (FederationError "Message signature verification failed").
End Protocol.

(** ** What is kept *)

Definition sequences_of (t : tables) : list FederationSequence := x_sequences (connecting t).
Definition seen_of (t : tables) : list SeenMessage := x_seen (connecting t).

Definition seen_key (x : SeenMessage) : string * string * Z := (fs_connector x, fs_sender x, fs_sequence x).
Definition message_key (m : FederationMessage) : string * string * Z := (fm_connector m, fm_sender m, fm_sequence m).

Record federation_ok (t : tables) : Prop := {
  fk_sequences : NoDup (fq_connector <$> sequences_of t);
  fk_seen : NoDup (seen_key <$> seen_of t);
  fk_positive : ∀ x, x ∈ sequences_of t → (0 < fq_last x)%Z;
}.

Definition later_sequence (x x' : FederationSequence) : Prop := fq_connector x' = fq_connector x ∧ (fq_last x <= fq_last x')%Z.

#[export] Instance later_sequence_preorder : PreOrder later_sequence.
Proof. split; [intros x; by split|]. intros a b c [] []. split; [congruence|lia]. Qed.

(** Counters only rise, the ledger only grows. *)
Record federation_later (t t' : tables) : Prop := {
  fl_sequences : grown later_sequence (sequences_of t) (sequences_of t');
  fl_seen : seen_of t `prefix_of` seen_of t';
}.

#[export] Instance federation_later_preorder : PreOrder federation_later.
Proof. split; [intros t; by split|]. intros a b c [] []. split; by etrans. Qed.

Definition same_federation : relation store := λ s s',
  sequences_of (st_db s') = sequences_of (st_db s) ∧ seen_of (st_db s') = seen_of (st_db s).

Section FederationTheory.
Context `{host : !Host} `{hmac : !Hmac}.
Context (exc_text : exn → string).

#[local] Abbreviation fkeeps := (keeps federation_ok federation_later).

Lemma fkeeps_same {R} (m : lp R) s : same_federation s (m s).2 → fkeeps m s.
Proof. intros [H1 H2] [A1 A2 A3]. split; [by split; rewrite ?H1, ?H2|]. by split; rewrite ?H1, ?H2. Qed.

Lemma seen_clash_key a b : seen_clash a b = true ↔ seen_key a = seen_key b.
Proof.
  unfold seen_clash, seen_key. rewrite !andb_true_iff, !bool_decide_eq_true.
  split; [by intros [[-> ->] ->]|by intros [= -> -> ->]].
Qed.

(** The next number is one above every number that was given before. *)
Lemma next_sequence_cases connector s r s' :
  federation_ok (st_db s) → _next_sequence connector s = (r, s') →
  ∃ n, r = Ok n ∧ (0 < n)%Z ∧ (∀ x, x ∈ sequences_of (st_db s) → fq_connector x = connector → n = (fq_last x + 1)%Z) ∧
    (∃ x, x ∈ sequences_of (st_db s') ∧ fq_connector x = connector ∧ fq_last x = n) ∧
    seen_of (st_db s') = seen_of (st_db s) ∧ federation_ok (st_db s') ∧ federation_later (st_db s) (st_db s').
Proof.
  intros [A1 A2 A3]. unfold _next_sequence.
  destruct (fetch_one (x_table x_sequences) (by_sequence_of connector) s) as [[o|e] s1] eqn:Hfetch; [|done].
  rewrite (run_bind_ok _ _ _ _ _ Hfetch), (run_bind_ok now_utc _ s1 (st_now s1) s1 eq_refl).
  apply fetch_one_ok in Hfetch as [-> Ho]. destruct o as [x|].
  - destruct Ho as [Hx Hxc%bool_decide_eq_true_1]. cbv zeta. rewrite run_bind. cbn [sql_update modify].
    intros [= <- <-]. set (n := (fq_last x + 1)%Z).
    assert (Honly : ∀ y, y ∈ sequences_of (st_db s) → fq_connector y = connector → y = x).
    { intros y Hy Hyc. apply (NoDup_fmap_inj_in fq_connector (sequences_of (st_db s))); [done..|congruence]. }
    assert (Hnew : ∀ y, y ∈ sequences_of (st_db s) → by_sequence_of connector y = true → later_sequence y
      {| fq_connector := fq_connector y; fq_last := n; fq_at := st_now s |}).
    { intros y Hy Hyc%bool_decide_eq_true_1. rewrite (Honly y Hy Hyc). split; [done|]. cbn. lia. }
    exists n. pose proof (A3 x Hx) as Hpos. split_and!; [done|lia| | |done| |].
    + intros y Hy Hyc. by rewrite (Honly y Hy Hyc).
    + exists {| fq_connector := connector; fq_last := n; fq_at := st_now s |}. split; [|done].
      apply list_elem_of_fmap. exists x. split; [|done]. unfold by_sequence_of. by rewrite bool_decide_eq_true_2, Hxc by done.
    + split; [|done|].
      * unfold sequences_of. simpl. by rewrite update_column.
      * intros y (z & -> & Hz)%list_elem_of_fmap. destruct (by_sequence_of connector z); [cbn; lia|by apply A3].
    + split; [|done]. apply grown_fmap. intros y Hy. destruct (by_sequence_of connector y) eqn:Hy'; [by apply Hnew|reflexivity].
  - rewrite run_bind. rewrite sql_insert_run.
    2:{ intros y Hy. specialize (Ho y Hy). apply bool_decide_eq_false_1 in Ho. by apply bool_decide_eq_false_2. }
    intros [= <- <-]. exists 1%Z. split_and!; [done|done| | |done| |].
    + intros y Hy Hyc. specialize (Ho y Hy). by apply bool_decide_eq_false_1 in Ho.
    + eexists. split; [apply elem_of_app; right; by left|done].
    + split; [|done|].
      * apply fresh_snoc; [done|]. intros y Hy. specialize (Ho y Hy). apply bool_decide_eq_false_1 in Ho. by cbn.
      * intros y [Hy|Hy%list_elem_of_singleton]%elem_of_app; [by apply A3|by subst y].
    + split; [|done]. by apply grown_app; intros y.
Qed.

Lemma fkeeps_create key sender receiver connector type payload s :
  fkeeps (create_message key sender receiver connector type payload) s.
Proof.
  intros Hok. unfold create_message. rewrite run_bind. destruct (_next_sequence connector s) as [r s1] eqn:Hn.
  apply next_sequence_cases in Hn as (n & -> & _ & _ & _ & _ & Hok1 & Hlater); [|done]. by split.
Qed.

Lemma fkeeps_record connector sender seq message s : fkeeps (_record_seen exc_text connector sender seq message) s.
Proof.
  intros [A1 A2 A3]. unfold _record_seen. rewrite (run_bind_ok now_utc _ s (st_now s) s eq_refl).
  set (x := {| fs_connector := connector |}).
  destruct (translating_cases exc_text ["unique"; "primary"; "integrity"; "duplicate"] replay_detected
    (sql_insert (x_table x_seen) set_seen seen_clash "federation_seen_messages" x) s)
    as [(s' & Hrun & ->)|(e & e' & s' & Hrun & -> & _)];
    destruct (sql_insert_cases (x_table x_seen) set_seen seen_clash "federation_seen_messages" x s) as [Hc|[Hc Hc']];
    rewrite Hrun in *; try done.
  - injection Hc' as ->. split; [split; [done| |done]|split; [done|by apply prefix_app_r]].
    unfold seen_of. simpl. rewrite fmap_app. apply NoDup_app. split; [done|]. split; [|by apply NoDup_singleton].
    intros k (y & -> & Hy)%list_elem_of_fmap Hk%list_elem_of_singleton. specialize (Hc y Hy).
    apply not_true_iff_false in Hc. apply Hc, seen_clash_key. by rewrite Hk.
  - by injection Hc as _ ->.
Qed.

Lemma fkeeps_accept key m s : fkeeps (accept_message key exc_text m) s.
Proof.
  unfold accept_message. apply keeps_bind; [exact _| |intros; apply fkeeps_record].
  apply fkeeps_same. unfold verify_or_raise. rewrite run_bind. unfold lift. destruct (verify_message key m) as [[]|e]; by split.
Qed.

(** What both ends do, with any keys; or anything that leaves the two tables alone. *)
Inductive federation_step : relation store :=
  | federation_create key sender receiver connector type payload s :
      federation_step s (create_message key sender receiver connector type payload s).2
  | federation_accept key m s : federation_step s (accept_message key exc_text m s).2
  | federation_mark m s : federation_step s (mark_seen exc_text m s).2
  | federation_other s s' : same_federation s s' → federation_step s s'.

Lemma federation_steps_keep s s' :
  rtc federation_step s s' → federation_ok (st_db s) → federation_ok (st_db s') ∧ federation_later (st_db s) (st_db s').
Proof.
  induction 1 as [s|s1 s2 s3 Hstep _ IH]; intros Hok; [by split|].
  assert (H2 : federation_ok (st_db s2) ∧ federation_later (st_db s1) (st_db s2)).
  { destruct Hstep as [key sender receiver connector type payload s|key m s|m s|s s' Hsame].
    - by apply fkeeps_create.
    - by apply fkeeps_accept.
    - by apply fkeeps_record.
    - by apply (fkeeps_same (λ _, (Ok tt, s')) s Hsame). }
  destruct H2 as [Hok2 H12]. destruct (IH Hok2) as [Hok3 H23]. split; [done|by etrans].
Qed.

Lemma create_run key sender receiver connector type payload s r s' :
  federation_ok (st_db s) → create_message key sender receiver connector type payload s = (r, s') →
  ∃ m s1, r = Ok m ∧ _next_sequence connector s = (Ok (fm_sequence m), s1) ∧ st_db s' = st_db s1 ∧
    fm_connector m = connector ∧ fm_sender m = sender ∧ fm_payload m = payload ∧
    fm_signature m = _sign key (_signing_payload m).
Proof.
  intros Hok. unfold create_message. rewrite run_bind. destruct (_next_sequence connector s) as [o s1] eqn:Hn.
  pose proof Hn as Hcases. apply next_sequence_cases in Hcases as (n & -> & _); [|done].
  intros [= <- <-]. eexists _, s1. split_and!; done.
Qed.

(** The numbers of the messages on a connector strictly increase, whatever
    happens between two of them: creating a message always succeeds, and a later
    one has a greater number. *)
Theorem sequences_increase key key' sender receiver sender' receiver' connector type payload type' payload' s r1 s1 s2 r2 s3 :
  federation_ok (st_db s) → create_message key sender receiver connector type payload s = (r1, s1) →
  rtc federation_step s1 s2 → create_message key' sender' receiver' connector type' payload' s2 = (r2, s3) →
  ∃ m1 m2, r1 = Ok m1 ∧ r2 = Ok m2 ∧ (0 < fm_sequence m1 < fm_sequence m2)%Z.
Proof.
  intros Hok H1 Hsteps H2. pose proof (fkeeps_create key sender receiver connector type payload s Hok) as [Hok1 _].
  rewrite H1 in Hok1. cbn [snd] in Hok1. destruct (federation_steps_keep _ _ Hsteps Hok1) as [Hok2 [Hgrown _]].
  apply create_run in H1 as (m1 & t1 & -> & Hn1 & Hdb1 & _); [|done].
  apply create_run in H2 as (m2 & t2 & -> & Hn2 & _ & _); [|done]. exists m1, m2. split_and!; [done..| |].
  - apply next_sequence_cases in Hn1 as (n & [= ->] & Hpos & _); done.
  - apply next_sequence_cases in Hn1 as (n & [= Hn] & _ & _ & (x & Hx & Hxc & Hxl) & _); [|done].
    rewrite <-Hdb1 in Hx. destruct (grown_elem _ _ _ x Hgrown Hx) as (y & Hy & Hyc & Hyl).
    apply next_sequence_cases in Hn2 as (n2 & [= Hn2] & _ & Hnext & _); [|done].
    rewrite Hn2, (Hnext y Hy) by congruence. lia.
Qed.

Lemma ascii_only_hmac key data : ascii_only (hmac_hexdigest key data) = true.
Proof.
  unfold ascii_only. apply forallb_forall. intros c Hc. pose proof (hmac_is_ascii key data) as H.
  rewrite Forall_forall in H. apply Nat.ltb_lt, H. by apply list_elem_of_In.
Qed.

Lemma verify_exact key m s :
  (fm_signature m = _sign key (_signing_payload m) → verify_or_raise key m s = (Ok tt, s)) ∧
  (fm_signature m ≠ _sign key (_signing_payload m) → ∃ e, verify_or_raise key m s = (Raise e, s)).
Proof.
  unfold verify_or_raise, verify_message, compare_digest, lift, _sign. rewrite !run_bind, ascii_only_hmac.
  split; intros Hsig.
  - rewrite Hsig, ascii_only_hmac. cbn [andb]. by rewrite bool_decide_eq_true_2.
  - destruct (ascii_only (fm_signature m)); cbn [andb]; [|by eexists].
    rewrite bool_decide_eq_false_2 by by apply not_eq_sym. by eexists.
Qed.

Definition ledger_row (m : FederationMessage) (ts : Z) : SeenMessage := {|
  fs_connector := fm_connector m; fs_sender := fm_sender m; fs_sequence := fm_sequence m; fs_at := ts; fs_message := fm_id m |}.

Lemma mark_exact m s :
  (message_key m ∉ seen_key <$> seen_of (st_db s) →
    mark_seen exc_text m s = (Ok tt, put_db (set_seen (seen_of (st_db s) ++ [ledger_row m (st_now s)]) (st_db s)) s)) ∧
  (message_key m ∈ seen_key <$> seen_of (st_db s) → ∃ e, mark_seen exc_text m s = (Raise e, s)).
Proof.
  unfold mark_seen, _record_seen. rewrite (run_bind_ok now_utc _ s (st_now s) s eq_refl). fold (ledger_row m (st_now s)).
  destruct (translating_cases exc_text ["unique"; "primary"; "integrity"; "duplicate"] replay_detected
    (sql_insert (x_table x_seen) set_seen seen_clash "federation_seen_messages" (ledger_row m (st_now s))) s)
    as [(s' & Hrun & ->)|(e & e' & s' & Hrun & -> & _)];
    destruct (sql_insert_cases (x_table x_seen) set_seen seen_clash "federation_seen_messages" (ledger_row m (st_now s)) s)
      as [Hc|[Hc Hc']]; rewrite Hrun in *; try done.
  - injection Hc' as ->. split; [done|]. intros (x & Hk & Hx)%list_elem_of_fmap. exfalso.
    specialize (Hc x Hx). apply not_true_iff_false in Hc. by apply Hc, seen_clash_key.
  - injection Hc as -> ->. split; [|by eexists]. intros Hn. exfalso. apply Hn.
    destruct (existsb (seen_clash (ledger_row m (st_now s))) (seen_of (st_db s))) eqn:He.
    + apply existsb_exists in He as (x & Hx%list_elem_of_In & Hk%seen_clash_key). apply list_elem_of_fmap. by exists x.
    + rewrite sql_insert_run in Hrun; [done|]. intros x Hx. apply not_true_iff_false. intros Hcl.
      apply not_true_iff_false in He. apply He, existsb_exists. exists x. by rewrite <-list_elem_of_In.
Qed.

(** C36: A message is accepted exactly when its signature is that of its contents
    under the key and its number from this sender on this connector is not in the
    ledger; messages made with the key carry that signature; and what was accepted
    is never accepted again, under any key, whatever happens in between. *)
Theorem accept_exact key m s :
  federation_ok (st_db s) →
  ((∃ s1, accept_message key exc_text m s = (Ok tt, s1)) ↔
    fm_signature m = _sign key (_signing_payload m) ∧ message_key m ∉ seen_key <$> seen_of (st_db s)) ∧
  (∀ sender receiver connector type payload s1,
    create_message key sender receiver connector type payload s = (Ok m, s1) → fm_signature m = _sign key (_signing_payload m)) ∧
  (∀ s1 s2 key' m', accept_message key exc_text m s = (Ok tt, s1) → rtc federation_step s1 s2 →
    message_key m' = message_key m → ∃ e, accept_message key' exc_text m' s2 = (Raise e, s2)).
Proof.
  intros Hok. destruct (verify_exact key m s) as [Hgood Hbad]. destruct (mark_exact m s) as [Hfresh Hseen].
  unfold accept_message at 1 2. split_and!.
  - split.
    + intros (s1 & H). rewrite run_bind in H.
      destruct (decide (fm_signature m = _sign key (_signing_payload m))) as [Hs|Hs];
        [|destruct (Hbad Hs) as [e He]; by rewrite He in H].
      rewrite (Hgood Hs) in H. split; [done|]. intros Hin. destruct (Hseen Hin) as [e He]. by rewrite He in H.
    + intros [Hs Hn]. rewrite run_bind, (Hgood Hs), (Hfresh Hn). by eexists.
  - intros sender receiver connector type payload s1 H. destruct (create_run _ _ _ _ _ _ _ _ _ Hok H) as (m' & s2 & Heq & _ & _ & _ & _ & _ & Hsig).
    by injection Heq as ->.
  - intros s1 s2 key' m' H Hsteps Hkey. pose proof (fkeeps_accept key m s Hok) as [Hok1 _].
    unfold accept_message in Hok1. rewrite H in Hok1. cbn [snd] in Hok1.
    destruct (federation_steps_keep _ _ Hsteps Hok1) as [_ [_ Hledger]].
    assert (Hin : message_key m' ∈ seen_key <$> seen_of (st_db s2)).
    { rewrite run_bind in H. destruct (decide (fm_signature m = _sign key (_signing_payload m))) as [Hs|Hs];
        [|destruct (Hbad Hs) as [e He]; by rewrite He in H]. rewrite (Hgood Hs) in H.
      destruct (decide (message_key m ∈ seen_key <$> seen_of (st_db s))) as [Hi|Hi];
        [by destruct (Hseen Hi) as [e He]; rewrite He in H|]. rewrite (Hfresh Hi) in H. injection H as <-.
      destruct Hledger as [k ->]. rewrite Hkey. apply list_elem_of_fmap. exists (ledger_row m (st_now s)). split; [done|].
      apply elem_of_app. left. apply elem_of_app. right. by left. }
    unfold accept_message. rewrite run_bind. destruct (verify_exact key' m' s2) as [Hg Hb].
    destruct (decide (fm_signature m' = _sign key' (_signing_payload m'))) as [Hs|Hs].
    + rewrite (Hg Hs). exact (proj2 (mark_exact m' s2) Hin).
    + destruct (Hb Hs) as [e He]. rewrite He. by eexists.
Qed.

(** The fields are joined without quoting them: when a sender's name holds the
    separator, its signature is also that of another id and another sender. *)
Lemma signature_ambiguous m a b :
  fm_sender m = a +:+ "|" +:+ b →
  _signing_payload {| fm_id := fm_id m +:+ "|" +:+ a; fm_sender := b; fm_receiver := fm_receiver m;
    fm_connector := fm_connector m; fm_type := fm_type m; fm_payload := fm_payload m; fm_timestamp := fm_timestamp m;
    fm_sequence := fm_sequence m; fm_signature := fm_signature m |} = _signing_payload m.
Proof.
  intros Hs. unfold _signing_payload. rewrite Hs.
  cbn [join_with fm_id fm_sender fm_receiver fm_connector fm_type fm_payload fm_timestamp fm_sequence].
  by rewrite !app_assoc_str.
Qed.
End FederationTheory.

(** ** The in-memory fallback, and negotiation *)

Section Fallback.
Context `{host : !Host} `{hmac : !Hmac}.

(** The object's own memory protects as the ledger does. *)
Lemma memory_accept_once key key' m m' pm pm' :
  memory_accept_message key m pm = Ok pm' → message_key m' = message_key m →
  (message_key m ∉ _memory_seen pm) ∧ (∃ e, memory_accept_message key' m' pm' = Raise e).
Proof.
  unfold memory_accept_message, memory_record_seen. intros H Hkey.
  destruct (verify_message key m) as [[]|e]; [|done..]. cbn in H. case_decide as Hn; [done|]. injection H as <-.
  split; [exact Hn|]. destruct (verify_message key' m') as [[]|e]; [|by eexists..]. cbn.
  rewrite decide_True; [by eexists|]. fold (message_key m') (message_key m). rewrite Hkey. set_solver.
Qed.

Lemma memory_sequences_increase connector pm : (∀ n, _memory_sequences pm !! connector = Some n → (0 < n)%Z) →
  let next := memory_next_sequence connector pm in
  (0 < next.1)%Z ∧ (memory_next_sequence connector next.2).1 = (next.1 + 1)%Z.
Proof.
  intros Hpos. cbn. rewrite lookup_insert_eq. cbn. destruct (_memory_sequences pm !! connector) as [n|] eqn:Hn; cbn; [|by split].
  specialize (Hpos n eq_refl). split; lia.
Qed.
End Fallback.

Lemma elem_of_common a b x : x ∈ common a b ↔ x ∈ a ∧ x ∈ b.
Proof. unfold common. rewrite elem_of_sort_by, elem_of_remove_dups, list_elem_of_filter. tauto. Qed.

Lemma is_nil_true {X} (l : list X) : is_nil l = true ↔ l = [].
Proof. by destruct l. Qed.

(** Two instances understand each other when their major versions agree (or their
    versions, where one has none) and they share a type, unless neither has any. *)
Definition versions_agree (a b : string) : Prop :=
  match _major a, _major b with Some x, Some y => x = y | _, _ => a = b end.

Lemma negotiate_exact local remote :
  nr_compatible (negotiate_schema local remote) = true ↔
  versions_agree (sc_api local) (sc_api remote) ∧
  ((∃ x, x ∈ sc_types local ∧ x ∈ sc_types remote) ∨ sc_types local = [] ∧ sc_types remote = []).
Proof.
  unfold negotiate_schema. cbn [nr_compatible]. rewrite is_nil_true, app_nil.
  assert (Hv : version_incompatibilities (sc_api local) (sc_api remote) = [] ↔ versions_agree (sc_api local) (sc_api remote)).
  { unfold version_incompatibilities, versions_agree. destruct (_major (sc_api local)), (_major (sc_api remote)); case_bool_decide; by split. }
  rewrite Hv. apply and_iff_compat_l.
  destruct (common (sc_types local) (sc_types remote)) as [|x l] eqn:Hc; cbn [is_nil andb].
  - destruct (is_nil (sc_types local) && is_nil (sc_types remote)) eqn:Hn; cbn [negb].
    + apply andb_true_iff in Hn as [Hl%is_nil_true Hr%is_nil_true]. split; [by right|done].
    + split; [done|]. intros [(x & Hx)|[Hl Hr]]; [|by rewrite Hl, Hr in Hn].
      apply elem_of_common in Hx. rewrite Hc in Hx. by apply elem_of_nil in Hx.
  - split; [|done]. intros _. left. exists x. apply elem_of_common. rewrite Hc. by left.
Qed.

Lemma negotiate_symmetric local remote :
  nr_compatible (negotiate_schema local remote) = nr_compatible (negotiate_schema remote local).
Proof.
  apply eq_true_iff_eq. rewrite !negotiate_exact. unfold versions_agree.
  destruct (_major (sc_api local)), (_major (sc_api remote)); naive_solver.
Qed.
