(* ===== verification/Marketplace.v ===== *)
(** * Legacy v1: the marketplace (connector/marketplace/)

    Listings with their versions and visibility, reviews, installations, and the
    queries that find them. *)

From Stdlib Require Import Ascii.
From Stdlib Require QArith_base.
From S2P Require Import Prelude LegacyTypes Schema Json Trail Rules Tenancy Secrets RuleGate Connectors.

(** ** models.py *)

Definition listing_type_value (t : ListingType) : string :=
  match t with
  | CONNECTOR_TEMPLATE => "connector_template" | PLUGIN_LISTING => "plugin" | INTEGRATION_LISTING => "integration"
  end.

Definition visibility_value (v : ListingVisibility) : string :=
  match v with PUBLIC => "public" | UNLISTED => "unlisted" | PRIVATE => "private" end.

Definition listing_active (x : MarketplaceListing) : bool := bool_decide (li_lifecycle x = ACTIVE).
Definition listing_public (x : MarketplaceListing) : bool := bool_decide (li_visibility x = PUBLIC).

Definition listing_snapshot `{host : !Host} (x : MarketplaceListing) : jdict := [
  ("id", JVstr (li_id x)); ("name", JVstr (li_name x)); ("description", JVstr (li_description x));
  ("publisher_id", JVstr (li_publisher x)); ("listing_type", JVstr (listing_type_value (li_type x)));
  ("version", JVstr (li_version x)); ("config_template", JVdict (li_template x));
  ("visibility", JVstr (visibility_value (li_visibility x))); ("lifecycle", JVstr (lifecycle_name (li_lifecycle x)));
  ("download_count", JVint (Z.of_nat (li_downloads x))); ("metadata", JVdict (li_metadata x));
  ("published_at", JVstr (isoformat (li_published_at x))); ("updated_at", jtime (li_updated_at x))].

(** The columns that change. *)
Definition set_listing (version : string) (template : jdict) (v : ListingVisibility) (updated : option Z) (l : Lifecycle)
  (downloads : nat) (x : MarketplaceListing) : MarketplaceListing := {|
  li_id := li_id x; li_name := li_name x; li_publisher := li_publisher x; li_type := li_type x;
  li_published_at := li_published_at x; li_description := li_description x; li_version := version;
  li_template := template; li_visibility := v; li_updated_at := updated; li_lifecycle := l; li_downloads := downloads;
  li_metadata := li_metadata x |}.

Definition by_listing (id : string) (x : MarketplaceListing) : bool := bool_decide (li_id x = id).
Definition review_of (id : string) (x : MarketplaceReview) : bool := bool_decide (vw_listing x = id).
Definition install_of (id : string) (x : MarketplaceInstall) : bool := bool_decide (ms_listing x = id).

(** ** _parse_semver *)

(** [s.split(c, 1)[0]]. *)
Fixpoint before_char (c : ascii) (s : string) : string :=
  match s with
  | EmptyString => EmptyString
  | String d s' => if bool_decide (d = c) then EmptyString else String d (before_char c s')
  end.

(** [s.split(".")]. *)
Fixpoint split_dots (s : string) : list string :=
  match s with
  | EmptyString => [EmptyString]
  | String c s' =>
      if bool_decide (c = "."%char) then EmptyString :: split_dots s'
      else match split_dots s' with
           | part :: parts => String c part :: parts
           | [] => [String c EmptyString]
           end
  end.

Definition semver : Type := Z * Z * Z.

Definition not_semver (version : string) : exn :=
  MarketplaceError ("Version '" +:+ version +:+ "' is not a valid semver (X.Y.Z)").

Definition _parse_semver (version : string) : outcome semver :=
  match version with
  | EmptyString => Raise (MarketplaceError "Version must be a non-empty string")
  | _ =>
      let parts := split_dots (before_char "+"%char (before_char "-"%char version)) in
      if 3 <? length parts then Raise (not_semver version)
      else match mapM py_int parts with
           | Some nums => Ok (nth 0 nums 0%Z, nth 1 nums 0%Z, nth 2 nums 0%Z)
           | None => Raise (not_semver version)
           end
  end.

(** [a < b] on tuples. *)
Definition semver_lt (a b : semver) : bool :=
  let '(a1, a2, a3) := a in
  let '(b1, b2, b3) := b in
  (a1 <? b1)%Z || (a1 =? b1)%Z && ((a2 <? b2)%Z || (a2 =? b2)%Z && (a3 <? b3)%Z).

Section Marketplace.
Context `{host : !Host} `{sink : !AuditSink}.
Context (known_principal : string → bool) (rule_engine : option (option Z)) (exc_text : exn → string).

Definition insert_listing (x : MarketplaceListing) : lp unit :=
  raise_if (negb (known_principal (li_publisher x))) (IntegrityError "marketplace_listings.publisher_id") ;;
  sql_insert (x_table x_listings) set_listings (λ a b, bool_decide (li_id a = li_id b)) "marketplace_listings.id" x.

(** UNIQUE(listing_id, reviewer_id). *)
Definition review_clash (a b : MarketplaceReview) : bool :=
  bool_decide (vw_id a = vw_id b) ||
  bool_decide (vw_listing a = vw_listing b) && bool_decide (vw_reviewer a = vw_reviewer b).

Definition insert_review (x : MarketplaceReview) : lp unit :=
  raise_if (negb ((1 <=? vw_rating x)%Z && (vw_rating x <=? 5)%Z)) (IntegrityError "rating >= 1 AND rating <= 5") ;;
  raise_if (negb (known_principal (vw_reviewer x))) (IntegrityError "marketplace_reviews.reviewer_id") ;;
  require_row (x_table x_listings) (by_listing (vw_listing x)) "marketplace_reviews.listing_id" ;;
  sql_insert (x_table x_reviews) set_reviews review_clash "marketplace_reviews" x.

Definition insert_install (x : MarketplaceInstall) : lp unit :=
  raise_if (negb (known_principal (ms_installer x))) (IntegrityError "marketplace_installs.installer_id") ;;
  require_row (x_table x_listings) (by_listing (ms_listing x)) "marketplace_installs.listing_id" ;;
  sql_insert (x_table x_installs) set_installs (λ a b, bool_decide (ms_id a = ms_id b)) "marketplace_installs.id" x.

(** ** MarketplacePublisher (publishing.py) *)

Definition publish (name publisher : string) (type : ListingType) (description version : string) (template : option jdict)
  (visibility : ListingVisibility) (metadata : option jdict) : lp MarketplaceListing :=
  _check_rule rule_engine (access "marketplace_publish" (Some publisher) "marketplace_listing" None None) ;;
  ts ← now_utc;
  lid ← generate_id;
  let listing := {| li_id := lid; li_name := name; li_publisher := publisher; li_type := type; li_published_at := ts;
    li_description := description; li_version := version; li_template := default [] template;
    li_visibility := visibility; li_updated_at := None; li_lifecycle := ACTIVE; li_downloads := 0;
    li_metadata := default [] metadata |} in
  insert_listing listing ;;
  audit (states_req None (Some (listing_snapshot listing))
    (request publisher ActionType.MARKETPLACE_PUBLISH "marketplace_listing" lid)) ;;
  mret listing.

Definition get_listing (id : string) : lp (option MarketplaceListing) := fetch_one (x_table x_listings) (by_listing id).

Definition get_listing_or_raise (id : string) : lp MarketplaceListing :=
  x ← get_listing id;
  match x with Some x => mret x | None => raise (ListingNotFound ("Listing " +:+ id +:+ " not found")) end.

Definition _require_publisher (x : MarketplaceListing) (actor : string) : lp unit :=
  raise_if (negb (bool_decide (li_publisher x = actor)))
    (AccessDenied ("Principal '" +:+ actor +:+ "' is not the publisher of listing '" +:+ li_id x +:+ "'")).

(** Write the columns that [f] changes, record it, and return the listing so. *)
Definition edit_listing (id actor : string) (action : ActionType.t) (metadata : jdict)
  (f : MarketplaceListing → MarketplaceListing) (x : MarketplaceListing) : lp MarketplaceListing :=
  sql_update (x_table x_listings) set_listings (by_listing id) f ;;
  audit (metadata_req metadata (states_req None (Some (listing_snapshot (f x)))
    (request actor action "marketplace_listing" id))) ;;
  mret (f x).

Definition revised_listing (version : string) (template : option jdict) (ts : Z) (x : MarketplaceListing)
  : MarketplaceListing :=
  set_listing version (default (li_template x) template) (li_visibility x) (Some ts) (li_lifecycle x) (li_downloads x) x.

Definition listing_in (l : Lifecycle) (ts : Z) (x : MarketplaceListing) : MarketplaceListing :=
  set_listing (li_version x) (li_template x) (li_visibility x) (Some ts) l (li_downloads x) x.

Definition listing_shown (v : ListingVisibility) (ts : Z) (x : MarketplaceListing) : MarketplaceListing :=
  set_listing (li_version x) (li_template x) v (Some ts) (li_lifecycle x) (li_downloads x) x.

Definition update_version (id new_version : string) (template : option jdict) (actor : string) : lp MarketplaceListing :=
  listing ← get_listing_or_raise id;
  _require_publisher listing actor ;;
  raise_if (negb (listing_active listing))
    (MarketplaceError ("Cannot version-bump listing in lifecycle " +:+ lifecycle_name (li_lifecycle listing))) ;;
  new_parts ← lift (_parse_semver new_version);
  cur_parts ← lift (_parse_semver (li_version listing));
  raise_if (negb (semver_lt cur_parts new_parts))
    (MarketplaceError ("New version '" +:+ new_version +:+ "' must be greater than current version '" +:+
      li_version listing +:+ "'")) ;;
  ts ← now_utc;
  edit_listing id actor ActionType.MARKETPLACE_VERSION_UPDATE
    [("old_version", JVstr (li_version listing)); ("new_version", JVstr new_version)]
    (revised_listing new_version template ts) listing.

(** [deprecate] and [remove]. *)
Definition retire (l : Lifecycle) (action : ActionType.t) (id actor : string) : lp MarketplaceListing :=
  listing ← get_listing_or_raise id;
  _require_publisher listing actor ;;
  ts ← now_utc;
  edit_listing id actor action [] (listing_in l ts) listing.

Definition deprecate_listing : string → string → lp MarketplaceListing := retire DEPRECATED ActionType.MARKETPLACE_DEPRECATE.
Definition remove_listing : string → string → lp MarketplaceListing := retire ARCHIVED ActionType.MARKETPLACE_REMOVE.

Definition update_visibility (id : string) (v : ListingVisibility) (actor : string) : lp MarketplaceListing :=
  listing ← get_listing_or_raise id;
  _require_publisher listing actor ;;
  ts ← now_utc;
  edit_listing id actor ActionType.MARKETPLACE_VISIBILITY_CHANGE
    [("old_visibility", JVstr (visibility_value (li_visibility listing))); ("new_visibility", JVstr (visibility_value v))]
    (listing_shown v ts) listing.

Definition add_review (listing_id reviewer : string) (rating : Z) (text : string) : lp MarketplaceReview :=
  listing ← get_listing_or_raise listing_id;
  raise_if (bool_decide (li_publisher listing = reviewer)) (MarketplaceError "Publishers cannot review their own listing") ;;
  raise_if (negb ((1 <=? rating)%Z && (rating <=? 5)%Z)) (MarketplaceError ("Rating must be 1-5, got " +:+ pretty rating)) ;;
  ts ← now_utc;
  rid ← generate_id;
  let review := {| vw_id := rid; vw_listing := listing_id; vw_reviewer := reviewer; vw_rating := rating; vw_at := ts;
    vw_text := text |} in
  translating exc_text ["unique"; "integrity"; "duplicate"]
    (MarketplaceError ("Reviewer '" +:+ reviewer +:+ "' has already reviewed listing '" +:+ listing_id +:+ "'"))
    (insert_review review) ;;
  audit (metadata_req [("listing_id", JVstr listing_id); ("rating", JVint rating)]
    (request reviewer ActionType.MARKETPLACE_REVIEW "marketplace_review" rid)) ;;
  mret review.

Definition newest_review (a b : MarketplaceReview) : bool := (vw_at b <=? vw_at a)%Z.

Definition get_reviews (id : string) (limit : nat) : lp (list MarketplaceReview) :=
  l ← select_sorted (x_table x_reviews) (review_of id) newest_review;
  mret (take limit l).

(** AVG and COUNT. *)
Definition get_average_rating (id : string) : lp (option QArith_base.Q) :=
  rows ← select (x_table x_reviews) (review_of id);
  mret (match rows with
        | [] => None
        | _ => Some (QArith_base.Qmake (foldr Z.add 0%Z (vw_rating <$> rows)) (Pos.of_nat (length rows)))
        end).

(** ** MarketplaceDiscovery (discovery.py) *)

(** SQL's LIKE: a pattern and a text. *)
Context (sql_like : string → string → bool).

Definition most_downloaded (a b : MarketplaceListing) : bool := li_downloads b <=? li_downloads a.

(** By downloads, then by date, both downwards. *)
Definition browse_order (a b : MarketplaceListing) : bool :=
  (li_downloads b <? li_downloads a) ||
  (li_downloads b =? li_downloads a) && (li_published_at b <=? li_published_at a)%Z.

Definition browse (type : option ListingType) (v : ListingVisibility) (active_only : bool) (limit : nat)
  : lp (list MarketplaceListing) :=
  l ← select_sorted (x_table x_listings) (λ x,
    bool_decide (li_visibility x = v) && filter_opt type (li_type x) && (negb active_only || listing_active x)) browse_order;
  mret (take limit l).

Definition search (query : string) (type : option ListingType) (active_only : bool) (limit : nat)
  : lp (list MarketplaceListing) :=
  let pattern := "%" +:+ query +:+ "%" in
  l ← select_sorted (x_table x_listings) (λ x,
    (sql_like pattern (li_name x) || sql_like pattern (li_description x)) && filter_opt type (li_type x) &&
    (negb active_only || listing_active x) && negb (bool_decide (li_visibility x = PRIVATE))) most_downloaded;
  mret (take limit l).

Definition newest_listing (a b : MarketplaceListing) : bool := (li_published_at b <=? li_published_at a)%Z.

Definition get_by_publisher (publisher : string) (limit : nat) : lp (list MarketplaceListing) :=
  l ← select_sorted (x_table x_listings) (λ x, bool_decide (li_publisher x = publisher)) newest_listing;
  mret (take limit l).

Definition downloaded (x : MarketplaceListing) : MarketplaceListing :=
  set_listing (li_version x) (li_template x) (li_visibility x) (li_updated_at x) (li_lifecycle x) (S (li_downloads x)) x.

Definition install (listing_id installer : string) (config : option jdict) (result result_type : option string)
  : lp MarketplaceInstall :=
  _check_rule rule_engine (access "marketplace_install" (Some installer) "marketplace_listing" (Some listing_id) None) ;;
  row ← fetch_one (x_table x_listings) (by_listing listing_id);
  match row with
  | None => raise (ListingNotFound ("Listing " +:+ listing_id +:+ " not found"))
  | Some listing =>
      raise_if (negb (listing_active listing))
        (MarketplaceError ("Listing " +:+ listing_id +:+ " is not active (lifecycle: " +:+
          lifecycle_name (li_lifecycle listing) +:+ ")")) ;;
      raise_if (bool_decide (li_visibility listing = PRIVATE) && negb (bool_decide (li_publisher listing = installer)))
        (AccessDenied ("Listing '" +:+ listing_id +:+ "' is private and can only be installed by its publisher")) ;;
      ts ← now_utc;
      iid ← generate_id;
      let record := {| ms_id := iid; ms_listing := listing_id; ms_installer := installer; ms_at := ts;
        ms_version := li_version listing; ms_config := default [] config; ms_result := result;
        ms_result_type := result_type |} in
      insert_install record ;;
      sql_update (x_table x_listings) set_listings (by_listing listing_id) downloaded ;;
      audit (metadata_req [("listing_id", JVstr listing_id); ("version", JVstr (li_version listing))]
        (request installer ActionType.MARKETPLACE_INSTALL "marketplace_install" iid)) ;;
      mret record
  end.

Definition newest_install (a b : MarketplaceInstall) : bool := (ms_at b <=? ms_at a)%Z.

Definition get_installs (id : string) (limit : nat) : lp (list MarketplaceInstall) :=
  l ← select_sorted (x_table x_installs) (install_of id) newest_install;
  mret (take limit l).

Definition get_installs_by_user (installer : string) (limit : nat) : lp (list MarketplaceInstall) :=
  l ← select_sorted (x_table x_installs) (λ x, bool_decide (ms_installer x = installer)) newest_install;
  mret (take limit l).
End Marketplace.

(** ** What is kept *)

Definition listings_of (t : tables) : list MarketplaceListing := x_listings (connecting t).
Definition reviews_of (t : tables) : list MarketplaceReview := x_reviews (connecting t).
Definition installs_of (t : tables) : list MarketplaceInstall := x_installs (connecting t).

Definition review_pair (v : MarketplaceReview) : string * string := (vw_listing v, vw_reviewer v).
Definition times_installed (t : tables) (id : string) : nat :=
  length (filter (λ i, install_of id i = true) (installs_of t)).

Record marketplace_ok (t : tables) : Prop := {
  mk_listings : NoDup (li_id <$> listings_of t);
  mk_reviews : NoDup (vw_id <$> reviews_of t);
  mk_pairs : NoDup (review_pair <$> reviews_of t);
  mk_installs : NoDup (ms_id <$> installs_of t);
  mk_review : ∀ v, v ∈ reviews_of t → (1 <= vw_rating v <= 5)%Z ∧
    ∃ x, x ∈ listings_of t ∧ li_id x = vw_listing v ∧ li_publisher x ≠ vw_reviewer v;
  mk_install : ∀ i, i ∈ installs_of t → ms_listing i ∈ li_id <$> listings_of t;
  mk_downloads : ∀ x, x ∈ listings_of t → li_downloads x = times_installed t (li_id x);
}.

(** A version stays or becomes a greater one. *)
Definition version_rises (a b : string) : Prop :=
  b = a ∨ ∃ x y, _parse_semver a = Ok x ∧ _parse_semver b = Ok y ∧ semver_lt x y = true.

Lemma semver_lt_trans a b c : semver_lt a b = true → semver_lt b c = true → semver_lt a c = true.
Proof.
  destruct a as [[a1 a2] a3], b as [[b1 b2] b3], c as [[c1 c2] c3]. cbn.
  rewrite !orb_true_iff, !andb_true_iff, !orb_true_iff, !andb_true_iff, !Z.ltb_lt, !Z.eqb_eq. lia.
Qed.

#[export] Instance version_rises_preorder : PreOrder version_rises.
Proof.
  split; [by left|]. intros a b c [->|(x & y & Ha & Hb & Hab)]; [done|]. intros [->|(y' & z & Hb' & Hc & Hbc)].
  - right. by exists x, y.
  - right. exists x, z. rewrite Hb in Hb'. injection Hb' as <-. split_and!; [done..|]. by eapply semver_lt_trans.
Qed.

Definition later_listing (x x' : MarketplaceListing) : Prop :=
  x' = set_listing (li_version x') (li_template x') (li_visibility x') (li_updated_at x') (li_lifecycle x')
    (li_downloads x') x ∧ version_rises (li_version x) (li_version x') ∧ li_downloads x ≤ li_downloads x'.

#[export] Instance later_listing_preorder : PreOrder later_listing.
Proof.
  split; [intros []; split_and!; [done|by left|done]|]. intros a b c (Hab & Vab & Dab) (Hbc & Vbc & Dbc).
  split_and!; [rewrite Hbc, Hab; done|by etrans|lia].
Qed.

(** Listings are never lost, reviews and installations append-only. *)
Record marketplace_later (t t' : tables) : Prop := {
  ml_listings : grown later_listing (listings_of t) (listings_of t');
  ml_reviews : reviews_of t `prefix_of` reviews_of t';
  ml_installs : installs_of t `prefix_of` installs_of t';
}.

#[export] Instance marketplace_later_preorder : PreOrder marketplace_later.
Proof. split; [intros t; by split|]. intros a b c [] []. split; by etrans. Qed.

Definition same_marketplace : relation store := λ s s',
  listings_of (st_db s') = listings_of (st_db s) ∧ reviews_of (st_db s') = reviews_of (st_db s) ∧
  installs_of (st_db s') = installs_of (st_db s).

#[export] Instance same_marketplace_preorder : PreOrder same_marketplace.
Proof. split; [by intros s|]. intros s1 s2 s3 (?&?&?) (?&?&?). split_and!; congruence. Qed.

Lemma layers_marketplace {R} (m : lp R) : respects same_layers m → respects same_marketplace m.
Proof. intros H s. unfold same_marketplace, listings_of, reviews_of, installs_of, connecting. by rewrite (H s). Qed.

Lemma audit_marketplace `{sink : !AuditSink} q : respects same_marketplace (audit q).
Proof. apply layers_marketplace, audit_layers. Qed.

Lemma check_rule_marketplace `{host : !Host} `{sink : !AuditSink} rule_engine q :
  respects same_marketplace (_check_rule rule_engine q).
Proof. apply layers_marketplace, respects_layers, check_rule_off. Qed.

Section Invariant.
Context `{host : !Host} `{sink : !AuditSink}.
Context (known_principal : string → bool) (rule_engine : option (option Z)) (exc_text : exn → string).

#[local] Abbreviation mkeeps := (keeps marketplace_ok marketplace_later).

Lemma mkeeps_same {R} (m : lp R) s : same_marketplace s (m s).2 → mkeeps m s.
Proof.
  intros (H1 & H2 & H3) [A1 A2 A3 A4 A5 A6 A7].
  split; [split; unfold times_installed; rewrite ?H1, ?H2, ?H3; done|]. by split; rewrite ?H1, ?H2, ?H3.
Qed.

Lemma mkeeps_reads {R} (m : lp R) s : reads m → mkeeps m s.
Proof. intros H. by apply keeps_reading; [exact _|]. Qed.

Lemma mkeeps_apart {R} (m : lp R) s : respects same_marketplace m → mkeeps m s.
Proof. intros H. apply mkeeps_same, H. Qed.

Lemma mkeeps_audited {R} q (x : R) s : mkeeps (audit q ;; mret x) s.
Proof. apply mkeeps_apart. respects_step; [apply audit_marketplace|respects_step]. Qed.

Lemma no_installs t id : marketplace_ok t → id ∉ li_id <$> listings_of t → times_installed t id = 0.
Proof.
  intros Hok Hid. unfold times_installed. apply length_zero_iff_nil. apply (filter_nil_iff (λ i, install_of id i = true)). intros i Hi Hof. apply Hid.
  apply bool_decide_eq_true_1 in Hof. rewrite <-Hof. by apply Hok.
Qed.

Lemma mkeeps_insert_listing x s : li_downloads x = 0 → mkeeps (insert_listing known_principal x) s.
Proof.
  intros Hx. apply keeps_bind; [exact _|apply mkeeps_reads, reads_raise_if|]. intros _ s1 _ Hok.
  destruct (sql_insert_cases (x_table x_listings) set_listings (λ a b, bool_decide (li_id a = li_id b))
    "marketplace_listings.id" x s1) as [->|[Hc ->]]; [done|].
  assert (Hfresh : li_id x ∉ li_id <$> listings_of (st_db s1)).
  { intros (y & Hid & Hy)%list_elem_of_fmap. specialize (Hc y Hy). by apply bool_decide_eq_false_1 in Hc. }
  pose proof (no_installs _ _ Hok Hfresh) as Hnone. destruct Hok as [A1 A2 A3 A4 A5 A6 A7].
  split; [split; try done|split; try done; apply grown_app; exact _].
  - apply fresh_snoc; [done|]. intros y Hy Hid. apply Hfresh. rewrite Hid. by apply list_elem_of_fmap_2.
  - intros v Hv. destruct (A5 v Hv) as [Hr (y & Hy & Hp)]. split; [done|]. exists y. split; [|done].
    apply elem_of_app. by left.
  - intros i Hi. unfold listings_of. simpl. rewrite fmap_app, elem_of_app. left. by apply A6.
  - intros y [Hy|Hy%list_elem_of_singleton]%elem_of_app; [by apply A7|]. subst y. rewrite Hx. by rewrite <-Hnone.
Qed.

(** An edit of one listing that keeps what identifies it. *)
Lemma mkeeps_edit id (f : MarketplaceListing → MarketplaceListing) s :
  (∀ x, li_id (f x) = li_id x ∧ li_publisher (f x) = li_publisher x ∧ li_downloads (f x) = li_downloads x) →
  (∀ x, x ∈ listings_of (st_db s) → li_id x = id → later_listing x (f x)) →
  mkeeps (sql_update (x_table x_listings) set_listings (by_listing id) f) s.
Proof.
  intros Hf Hlater [A1 A2 A3 A4 A5 A6 A7].
  split; [split; try done|split; try done].
  - unfold listings_of. simpl. rewrite update_column; [done|apply Hf].
  - intros v Hv. destruct (A5 v Hv) as [Hr (y & Hy & Hid & Hp)]. split; [done|].
    exists (if by_listing id y then f y else y). split; [by apply list_elem_of_fmap; exists y|].
    destruct (by_listing id y); [|done]. destruct (Hf y) as (H1 & H2 & _). by rewrite H1, H2.
  - intros i Hi. unfold listings_of. simpl. rewrite update_column by apply Hf. by apply A6.
  - intros y (x & -> & Hx)%list_elem_of_fmap. destruct (by_listing id x); [|by apply A7].
    destruct (Hf x) as (H1 & _ & H3). rewrite H1, H3. by apply A7.
  - apply grown_fmap. intros x Hx. destruct (by_listing id x) eqn:Hb; [|reflexivity].
    apply bool_decide_eq_true_1 in Hb. by apply Hlater.
Qed.

Lemma mkeeps_edit_listing id actor action metadata f x s :
  (∀ x, li_id (f x) = li_id x ∧ li_publisher (f x) = li_publisher x ∧ li_downloads (f x) = li_downloads x) →
  (∀ x, x ∈ listings_of (st_db s) → li_id x = id → later_listing x (f x)) →
  mkeeps (edit_listing id actor action metadata f x) s.
Proof.
  intros Hf Hlater. apply keeps_bind; [exact _|by apply mkeeps_edit|]. intros _ s1 _. apply mkeeps_audited.
Qed.

Lemma get_listing_or_raise_reads id : reads (get_listing_or_raise id).
Proof. apply reads_bind; [apply fetch_one_reads|]. intros [x|]; [apply reads_ret|apply reads_raise]. Qed.

Lemma get_listing_or_raise_ok id s x s' :
  get_listing_or_raise id s = (Ok x, s') → s' = s ∧ x ∈ listings_of (st_db s) ∧ li_id x = id.
Proof.
  unfold get_listing_or_raise. intros (o & s1 & [-> Ho]%fetch_one_ok & H)%bind_ok_inv.
  destruct o as [q|]; [|done]. apply mret_ok in H as [-> ->]. by destruct Ho as [Hq Hid%bool_decide_eq_true_1].
Qed.

Lemma mkeeps_retire l action id actor s : mkeeps (retire l action id actor) s.
Proof.
  unfold retire. apply keeps_bind; [exact _|apply mkeeps_reads, get_listing_or_raise_reads|]. intros x s1 _.
  apply keeps_bind; [exact _|apply mkeeps_reads, reads_raise_if|]. intros _ s2 _.
  apply keeps_bind; [exact _|by apply mkeeps_same|]. intros ts s3 _. apply mkeeps_edit_listing; [done|].
  intros y _ _. split_and!; [done|by left|done].
Qed.

Lemma mkeeps_visibility id v actor s : mkeeps (update_visibility id v actor) s.
Proof.
  unfold update_visibility. apply keeps_bind; [exact _|apply mkeeps_reads, get_listing_or_raise_reads|]. intros x s1 _.
  apply keeps_bind; [exact _|apply mkeeps_reads, reads_raise_if|]. intros _ s2 _.
  apply keeps_bind; [exact _|by apply mkeeps_same|]. intros ts s3 _. apply mkeeps_edit_listing; [done|].
  intros y _ _. split_and!; [done|by left|done].
Qed.

Lemma mkeeps_update_version id version template actor s : mkeeps (update_version id version template actor) s.
Proof.
  intros Hok. revert Hok. unfold update_version. intros Hok.
  assert (Hids := mk_listings _ Hok). revert Hok.
  apply keeps_bind; [exact _|apply mkeeps_reads, get_listing_or_raise_reads|].
  intros x s1 (-> & Hx & Hid)%get_listing_or_raise_ok.
  apply keeps_bind; [exact _|apply mkeeps_reads, reads_raise_if|]. intros [] s2 [_ ->]%raise_if_ok.
  apply keeps_bind; [exact _|apply mkeeps_reads, reads_raise_if|]. intros [] s3 [_ ->]%raise_if_ok.
  apply keeps_bind; [exact _|apply mkeeps_reads, reads_lift|]. intros new s4 [Hnew ->]%lift_ok.
  apply keeps_bind; [exact _|apply mkeeps_reads, reads_lift|]. intros cur s5 [Hcur ->]%lift_ok.
  apply keeps_bind; [exact _|apply mkeeps_reads, reads_raise_if|]. intros [] s6 [Hlt%negb_false_iff ->]%raise_if_ok.
  apply keeps_bind; [exact _|by apply mkeeps_same|]. intros ts s7 [-> ->]%now_utc_ok.
  apply mkeeps_edit_listing; [done|]. intros y Hy Hyid.
  rewrite (NoDup_fmap_inj_in li_id (listings_of (st_db s)) y x) by (done || congruence).
  split_and!; [done| |done]. right. by exists cur, new.
Qed.

Lemma mkeeps_publish name publisher type description version template visibility metadata s :
  mkeeps (publish known_principal rule_engine name publisher type description version template visibility metadata) s.
Proof.
  unfold publish. apply keeps_bind; [exact _|apply mkeeps_apart, check_rule_marketplace|]. intros _ s1 _.
  apply keeps_bind; [exact _|by apply mkeeps_same|]. intros ts s2 _.
  apply keeps_bind; [exact _|by apply mkeeps_same|]. intros lid s3 _. cbv zeta.
  apply keeps_bind; [exact _|by apply mkeeps_insert_listing|intros; apply mkeeps_audited].
Qed.

Lemma mkeeps_insert_review v s :
  (∃ x, x ∈ listings_of (st_db s) ∧ li_id x = vw_listing v ∧ li_publisher x ≠ vw_reviewer v) →
  mkeeps (insert_review known_principal v) s.
Proof.
  intros Hlisted. unfold insert_review. apply keeps_bind; [exact _|apply mkeeps_reads, reads_raise_if|].
  intros [] s1 [Hr%negb_false_iff ->]%raise_if_ok.
  apply keeps_bind; [exact _|apply mkeeps_reads, reads_raise_if|]. intros [] s2 [_ ->]%raise_if_ok.
  apply keeps_bind; [exact _|apply mkeeps_reads; intros s0; apply require_row_reads|]. intros [] s3 Hrow Hok.
  apply require_row_ok in Hrow as [-> _].
  destruct (sql_insert_cases (x_table x_reviews) set_reviews review_clash "marketplace_reviews" v s) as [->|[Hc ->]]; [done|].
  assert (Hfresh : ∀ y, y ∈ reviews_of (st_db s) → vw_id v ≠ vw_id y ∧ review_pair v ≠ review_pair y).
  { intros y Hy. specialize (Hc y Hy). apply orb_false_iff in Hc as [H1%bool_decide_eq_false_1 H2]. split; [done|].
    intros [= Hl Hp]. by rewrite !bool_decide_eq_true_2 in H2. }
  destruct Hok as [A1 A2 A3 A4 A5 A6 A7]. split; [split; try done|split; try done; by apply prefix_app_r].
  - apply fresh_snoc; [done|]. intros y Hy. by apply Hfresh.
  - unfold reviews_of. simpl. rewrite fmap_app. apply NoDup_app. split; [done|]. split; [|by apply NoDup_singleton].
    intros k (y & -> & Hy)%list_elem_of_fmap Hk%list_elem_of_singleton. by destruct (Hfresh y Hy) as [_ []].
  - intros y [Hy|Hy%list_elem_of_singleton]%elem_of_app; [by apply A5|]. subst y. split; [|done].
    apply andb_true_iff in Hr as [H1%Z.leb_le H2%Z.leb_le]. lia.
Qed.

Lemma translating_mkeeps words err m s : mkeeps m s → mkeeps (translating exc_text words err m) s.
Proof.
  intros Hm Hok. destruct (translating_cases exc_text words err m s) as [(s' & Hrun & ->)|(e & e' & s' & Hrun & -> & _)];
    specialize (Hm Hok); by rewrite Hrun in Hm.
Qed.

Lemma mkeeps_add_review id reviewer rating text s :
  mkeeps (add_review known_principal exc_text id reviewer rating text) s.
Proof.
  unfold add_review. apply keeps_bind; [exact _|apply mkeeps_reads, get_listing_or_raise_reads|].
  intros x s1 (-> & Hx & Hid)%get_listing_or_raise_ok.
  apply keeps_bind; [exact _|apply mkeeps_reads, reads_raise_if|]. intros [] s2 [Hown%bool_decide_eq_false_1 ->]%raise_if_ok.
  apply keeps_bind; [exact _|apply mkeeps_reads, reads_raise_if|]. intros [] s3 [_ ->]%raise_if_ok.
  apply keeps_bind; [exact _|by apply mkeeps_same|]. intros ts s4 [-> ->]%now_utc_ok.
  apply keeps_bind; [exact _|by apply mkeeps_same|]. intros rid s5 [-> ->]%generate_id_ok. cbv zeta.
  apply keeps_bind; [exact _|apply translating_mkeeps, mkeeps_insert_review; by exists x|intros; apply mkeeps_audited].
Qed.

(** An installation and its count go together: nothing can fail between them. *)
Lemma mkeeps_counted i s :
  mkeeps (insert_install known_principal i ;;
    sql_update (x_table x_listings) set_listings (by_listing (ms_listing i)) downloaded) s.
Proof.
  unfold insert_install. intros Hok. rewrite run_bind.
  destruct ((raise_if _ _ ;; _) s) as [[[]|e] s1] eqn:Hins.
  - apply bind_ok_inv in Hins as ([] & s2 & [_ ->]%raise_if_ok & Hins).
    apply bind_ok_inv in Hins as ([] & s3 & [-> (l & Hl & Hlid%bool_decide_eq_true_1)]%require_row_ok & Hins).
    apply sql_insert_ok in Hins as [Hc ->]. destruct Hok as [A1 A2 A3 A4 A5 A6 A7].
    assert (Hcount : ∀ x, times_installed (set_installs (installs_of (st_db s) ++ [i]) (st_db s)) (li_id x) =
      times_installed (st_db s) (li_id x) + (if by_listing (ms_listing i) x then 1 else 0)).
    { intros x. unfold times_installed, installs_of. cbn. rewrite filter_app, length_app. f_equal.
      unfold install_of, by_listing. rewrite filter_cons, filter_nil.
      case_bool_decide as H1; case_bool_decide as H2; repeat case_decide; try done; congruence. }
    split; [split; try done|split; try done].
    + unfold listings_of. simpl. by rewrite update_column.
    + apply fresh_snoc; [done|]. intros y Hy. specialize (Hc y Hy). by apply bool_decide_eq_false_1 in Hc.
    + intros v Hv. destruct (A5 v Hv) as [Hr (y & Hy & Hid & Hp)]. split; [done|].
      exists (if by_listing (ms_listing i) y then downloaded y else y). split; [by apply list_elem_of_fmap; exists y|].
      by destruct (by_listing _ y).
    + intros y [Hy|Hy%list_elem_of_singleton]%elem_of_app; unfold listings_of; simpl; rewrite update_column by done;
        [by apply A6|]. subst y. rewrite <-Hlid. by apply list_elem_of_fmap_2.
    + intros y (x & -> & Hx)%list_elem_of_fmap. pose proof (Hcount x) as Hx'. pose proof (A7 x Hx) as Hd.
      destruct (by_listing (ms_listing i) x); cbn [downloaded set_listing li_downloads li_id].
      * transitivity (times_installed (set_installs (installs_of (st_db s) ++ [i]) (st_db s)) (li_id x)); [lia|done].
      * transitivity (times_installed (set_installs (installs_of (st_db s) ++ [i]) (st_db s)) (li_id x)); [lia|done].
    + apply grown_fmap. intros x _. destruct (by_listing _ x); [|reflexivity]. split_and!; [done|by left|cbn; lia].
    + by apply prefix_app_r.
  - assert (s1 = s) as ->; [|by split]. rewrite run_bind in Hins. unfold raise_if at 1 in Hins.
    destruct (negb _); [by injection Hins as _ <-|]. cbn in Hins. rewrite run_bind in Hins.
    destruct (require_row_cases (x_table x_listings) (by_listing (ms_listing i)) "marketplace_installs.listing_id" s)
      as [Hrow|Hrow]; rewrite Hrow in Hins; [|by injection Hins as _ <-].
    destruct (sql_insert_cases (x_table x_installs) set_installs (λ a b, bool_decide (ms_id a = ms_id b))
      "marketplace_installs.id" i s) as [Hi|[_ Hi]]; rewrite Hi in Hins; [by injection Hins as _ <-|done].
Qed.

Lemma bind_assoc_run {R1 R2 R3} (m : lp R1) (k : lp R2) (f : lp R3) s : (m ;; k ;; f) s = ((m ;; k) ;; f) s.
Proof. rewrite !run_bind. by destruct (m s) as [[a|e] s1]. Qed.

Lemma mkeeps_install id installer config result result_type s :
  mkeeps (install known_principal rule_engine id installer config result result_type) s.
Proof.
  unfold install. apply keeps_bind; [exact _|apply mkeeps_apart, check_rule_marketplace|]. intros _ s1 _.
  apply keeps_bind; [exact _|apply mkeeps_reads, fetch_one_reads|]. intros [x|] s2 _; [|by apply mkeeps_same].
  apply keeps_bind; [exact _|apply mkeeps_reads, reads_raise_if|]. intros _ s3 _.
  apply keeps_bind; [exact _|apply mkeeps_reads, reads_raise_if|]. intros _ s4 _.
  apply keeps_bind; [exact _|by apply mkeeps_same|]. intros ts s5 _.
  apply keeps_bind; [exact _|by apply mkeeps_same|]. intros iid s6 _. cbv zeta.
  unfold keeps. rewrite bind_assoc_run.
  match goal with |- context [insert_install _ ?i] => pose proof (λ t, mkeeps_counted i t) as Hcount end. cbn [ms_listing] in Hcount.
  apply keeps_bind; [exact _|apply Hcount|intros; apply mkeeps_audited].
Qed.
End Invariant.

(** ** Every sequence of operations *)

Section Reachable.
Context `{host : !Host} `{sink : !AuditSink}.
Context (known_principal : string → bool) (rule_engine : option (option Z)) (exc_text : exn → string).

Inductive market_op :=
  | KPublish (name publisher : string) (type : ListingType) (description version : string) (template : option jdict)
      (visibility : ListingVisibility) (metadata : option jdict)
  | KUpdateVersion (id version : string) (template : option jdict) (actor : string)
  | KDeprecate (id actor : string)
  | KRemove (id actor : string)
  | KVisibility (id : string) (v : ListingVisibility) (actor : string)
  | KReview (id reviewer : string) (rating : Z) (text : string)
  | KInstall (id installer : string) (config : option jdict) (result result_type : option string).

Definition run_market_op (op : market_op) : lp unit :=
  match op with
  | KPublish name publisher type description version template visibility metadata =>
      publish known_principal rule_engine name publisher type description version template visibility metadata ;; mret tt
  | KUpdateVersion id version template actor => update_version id version template actor ;; mret tt
  | KDeprecate id actor => deprecate_listing id actor ;; mret tt
  | KRemove id actor => remove_listing id actor ;; mret tt
  | KVisibility id v actor => update_visibility id v actor ;; mret tt
  | KReview id reviewer rating text => add_review known_principal exc_text id reviewer rating text ;; mret tt
  | KInstall id installer config result result_type =>
      install known_principal rule_engine id installer config result result_type ;; mret tt
  end.

(** An operation, or anything that leaves the marketplace alone. *)
Inductive market_step : relation store :=
  | market_step_op op s : market_step s (run_market_op op s).2
  | market_step_other s s' : same_marketplace s s' → market_step s s'.

Lemma run_market_op_keeps op s : keeps marketplace_ok marketplace_later (run_market_op op) s.
Proof.
  destruct op; cbn [run_market_op]; (apply keeps_bind; [exact _| |intros; by apply mkeeps_same]).
  - apply mkeeps_publish.
  - apply mkeeps_update_version.
  - apply mkeeps_retire.
  - apply mkeeps_retire.
  - apply mkeeps_visibility.
  - apply mkeeps_add_review.
  - apply mkeeps_install.
Qed.

(** The marketplace stays sound whatever is called, on every exit: ids are
    unique, a reviewer reviews a listing at most once and never his own, ratings
    lie between one and five, and the download count of a listing is the number of
    its installations; listings are never lost and keep their identity, the version
    of a listing only rises, reviews and installations are append-only. *)
Theorem marketplace_reachable_ok s s' :
  marketplace_ok (st_db s) → rtc market_step s s' → marketplace_ok (st_db s') ∧ marketplace_later (st_db s) (st_db s').
Proof.
  intros Hok Hsteps. induction Hsteps as [s|s1 s2 s3 Hstep _ IH]; [done|].
  assert (H2 : marketplace_ok (st_db s2) ∧ marketplace_later (st_db s1) (st_db s2)).
  { destruct Hstep as [op s1|s1 s2 Hsame]; [by apply run_market_op_keeps|].
    by apply (mkeeps_same (λ _, (Ok tt, s2)) s1 Hsame). }
  destruct H2 as [Hok2 H12]. destruct (IH Hok2) as [Hok3 H23]. split; [done|]. by etrans.
Qed.

(** An installation that returns: of an active listing, of a private one by its
    publisher only, at the listing's version. *)
Theorem install_exact id installer config result result_type s i s' :
  install known_principal rule_engine id installer config result result_type s = (Ok i, s') →
  ∃ x, x ∈ listings_of (st_db s) ∧ li_id x = id ∧ li_lifecycle x = ACTIVE ∧
    (li_visibility x = PRIVATE → li_publisher x = installer) ∧
    ms_listing i = id ∧ ms_installer i = installer ∧ ms_version i = li_version x ∧ ms_config i = default [] config ∧
    installs_of (st_db s') = installs_of (st_db s) ++ [i].
Proof.
  unfold install. intros (u & s1 & Hgate & H)%bind_ok_inv.
  pose proof (check_rule_marketplace rule_engine (access "marketplace_install" (Some installer) "marketplace_listing" (Some id) None) s)
    as (Hl & _ & Hi). rewrite Hgate in Hl, Hi. cbn [snd] in Hl, Hi.
  apply bind_ok_inv in H as (o & s2 & [-> Ho]%fetch_one_ok & H). destruct o as [x|]; [|done].
  destruct Ho as [Hx Hid%bool_decide_eq_true_1].
  apply bind_ok_inv in H as ([] & s3 & [Ha%negb_false_iff%bool_decide_eq_true_1 ->]%raise_if_ok & H).
  apply bind_ok_inv in H as ([] & s4 & [Hpriv ->]%raise_if_ok & H).
  apply bind_ok_inv in H as (ts & s5 & [-> ->]%now_utc_ok & H).
  apply bind_ok_inv in H as (iid & s6 & [-> ->]%generate_id_ok & H). cbv zeta in H.
  apply bind_ok_inv in H as (u1 & s7 & Hins & H). unfold insert_install in Hins.
  apply bind_ok_inv in Hins as ([] & s8 & [_ ->]%raise_if_ok & Hins).
  apply bind_ok_inv in Hins as ([] & s9 & [-> _]%require_row_ok & Hins). apply sql_insert_ok in Hins as [_ ->].
  apply bind_ok_inv in H as (u2 & s10 & ->%sql_update_ok & H).
  apply bind_ok_inv in H as (u3 & s11 & Haudit & H). apply mret_ok in H as [-> ->].
  match type of Haudit with audit ?q ?t = _ => pose proof (audit_marketplace q t) as (_ & _ & Hi2) end.
  rewrite Haudit in Hi2. cbn [snd] in Hi2. exists x. rewrite <-Hl. split_and!; try done.
  - intros Hv. rewrite Hv in Hpriv. by apply negb_false_iff, bool_decide_eq_true_1 in Hpriv.
  - rewrite Hi2, <-Hi. done.
Qed.

(** A listing that was removed comes back as deprecated. *)
Lemma removed_listing_returns id actor x s :
  x ∈ listings_of (st_db s) → li_id x = id → li_publisher x = actor → NoDup (li_id <$> listings_of (st_db s)) →
  li_lifecycle x = ARCHIVED → (∀ q t, ∃ t', audit q t = (Ok tt, t')) →
  ∃ y s', deprecate_listing id actor s = (Ok y, s') ∧ li_lifecycle y = DEPRECATED.
Proof.
  intros Hx Hid Hpub Hnd _ Haudit. unfold deprecate_listing, retire.
  assert (Hget : get_listing_or_raise id s = (Ok x, s)).
  { unfold get_listing_or_raise, get_listing.
    destruct (fetch_one (x_table x_listings) (by_listing id) s) as [[o|e] s1] eqn:Hf; [|done].
    rewrite (run_bind_ok _ _ _ _ _ Hf). apply fetch_one_ok in Hf as [-> Ho]. destruct o as [y|].
    - destruct Ho as [Hy Hyid%bool_decide_eq_true_1].
      by rewrite (NoDup_fmap_inj_in li_id (listings_of (st_db s)) y x) by (done || congruence).
    - specialize (Ho x Hx). by apply bool_decide_eq_false_1 in Ho. }
  assert (Hreq : _require_publisher x actor s = (Ok tt, s)).
  { unfold _require_publisher. by rewrite bool_decide_eq_true_2. }
  rewrite (run_bind_ok _ _ _ _ _ Hget), (run_bind_ok _ _ _ _ _ Hreq), (run_bind_ok now_utc _ s (st_now s) s eq_refl).
  unfold edit_listing. rewrite run_bind. cbn [sql_update modify]. rewrite run_bind.
  edestruct Haudit as [t' ->]. do 2 eexists. split; [reflexivity|done].
Qed.
End Reachable.
