(* ===== verification/Sync.v ===== *)
(** * Legacy v1: the sync agent (sync/agent.py, models.py, transport.py, config.py)

    The background thread that pushes the metadata of the audit trail to the
    management plane: its watermark, its batches, its control from outside.  The
    plane is an arbitrary computation.  A turn of the loop is there as the code has it
    ([_sync_cycle], [turn]) and statement by statement ([loop_step]); in a run
    ([agent_run]) other loops of the agent, calls of it, what others record and restarts
    of the process come between any two statements, and [turn_is_steps] says that a turn
    that is left alone is one of these runs.  A call is one step, but for stop, which is
    two: up to the join, and from there on. *)

From Stdlib Require QArith_base.
From S2P Require Import Prelude LegacyTypes Schema Json Trail Tenancy Federation Constructs ConstructStore Identity.

(** ** models.py *)

Inductive SyncStatus := SYNC_IDLE | SYNC_SYNCING | SYNC_PAUSED | SYNC_ERROR | SYNC_STOPPED.

Record SyncEntryMetadata := {
  se_id : string; se_sequence : nat; se_actor : string; se_action : string; se_target_type : string;
  se_target_id : string; se_timestamp : Z; se_hash : string; se_previous_hash : string; se_scope : option string;
  se_parent : option string; se_metadata : jdict;
}.

Record ResourceCounts := { rc_objects : nat; rc_principals : nat; rc_scopes : nat; rc_at : Z }.

Record SyncBatch := {
  sb_id : string; sb_sdk : string; sb_entries : list SyncEntryMetadata; sb_counts : ResourceCounts;
  sb_first : nat; sb_last : nat; sb_chain_hash : string; sb_content_hash : string; sb_signature : string;
  sb_created_at : Z;
}.

Record SyncBatchAck := {
  ak_batch : string; ak_accepted : bool; ak_server_sequence : nat; ak_server_hash : string; ak_message : string;
  ak_errors : list string;
}.

Record SyncVerifyRequest := { vq_from : nat; vq_to : option nat; vq_hash : string; vq_count : nat }.

Record SyncVerifyResponse := {
  vp_verified : bool; vp_local_hash : string; vp_server_hash : string; vp_local_count : nat; vp_server_count : nat;
  vp_mismatch : option nat; vp_message : string;
}.

Record SyncStateSnapshot := {
  sn_sequence : nat; sn_hash : string; sn_synced_at : option Z; sn_batch : option string; sn_status : SyncStatus;
  sn_error : option string; sn_errors : nat;
}.

Definition no_sync_state : SyncStateSnapshot := {|
  sn_sequence := 0; sn_hash := ""; sn_synced_at := None; sn_batch := None; sn_status := SYNC_IDLE; sn_error := None;
  sn_errors := 0 |}.

(** ** config.py *)

Record SyncConfig := {
  interval_seconds : nat; batch_size : nat; max_retries : nat;
  retry_base_delay : QArith_base.Q; retry_max_delay : QArith_base.Q;
}.

(** ** transport.py *)

Section Signing.
(** SHA-256 as bytes, and pydantic's text of an instant. *)
Context `{host : !Host} `{hm : !Hmac} (digest : string → string) (json_datetime : Z → string).

Definition _derive_signing_key (api_key : string) : string := digest (api_key +:+ ":pyscoped-sync-v1").
Definition sign_payload (api_key payload : string) : string := hmac_hexdigest (_derive_signing_key api_key) payload.

(** [model_dump(mode="json")]. *)
Definition entry_dump (e : SyncEntryMetadata) : jval := JVdict [
  ("id", JVstr (se_id e)); ("sequence", JVint (Z.of_nat (se_sequence e))); ("actor_id", JVstr (se_actor e));
  ("action", JVstr (se_action e)); ("target_type", JVstr (se_target_type e)); ("target_id", JVstr (se_target_id e));
  ("timestamp", JVstr (json_datetime (se_timestamp e))); ("hash", JVstr (se_hash e));
  ("previous_hash", JVstr (se_previous_hash e)); ("scope_id", jopt (se_scope e)); ("parent_trace_id", jopt (se_parent e));
  ("metadata", JVdict (se_metadata e))].

(** [json.dumps(value, sort_keys=True, separators=(",", ":"))]. *)
Fixpoint json_compact (v : jval) : string :=
  match v with
  | JVlist l => "[" +:+ join_with "," (json_compact <$> l) +:+ "]"
  | JVdict d => "{" +:+ join_with "," ((λ x, json_string x.1 +:+ ":" +:+ x.2) <$>
                  sort_by by_key ((λ x, (x.1, json_compact x.2)) <$> d)) +:+ "}"
  | _ => json_dumps v
  end%string.

Definition compute_content_hash (entries : list SyncEntryMetadata) : string :=
  hexdigest (json_compact (JVlist (entry_dump <$> entries))).

(** What [_request] raises for an answer that is not 2xx. *)
Definition http_error (status : Z) (msg : string) : exn :=
  if (status =? 401)%Z || (status =? 403)%Z then SyncAuthenticationError ("Authentication failed: " +:+ msg)
  else if (status =? 400)%Z then SyncBatchRejected ("Batch rejected: " +:+ msg)
  else SyncTransportError ("Management plane error: " +:+ msg).
End Signing.

(** ** The agent *)

(** The row of _sync_state. *)
Record SyncState := {
  ss_sequence : nat; ss_hash : string; ss_synced_at : option Z; ss_batch : option string; ss_status : SyncStatus;
  ss_error : option string; ss_errors : nat; ss_created_at : Z; ss_updated_at : Z;
}.

(** Where a loop stands: the statement of _run, of _sync_cycle or of _handle_error
    that it is about to execute, with what it has read so far. *)
Inductive phase :=
  | AtWhile
  | AtPause
  | AtCheck
  | AtCycle
  | AtQuery (last_sequence : nat)
  | AtCount (e : SyncEntryMetadata) (rest : list SyncEntryMetadata)
  | AtBuild (e : SyncEntryMetadata) (rest : list SyncEntryMetadata) (counts : ResourceCounts)
  | AtPush (batch : SyncBatch)
  | AtWatermark (batch : SyncBatch)
  | AtError (exc : exn)
  | AtBackoff (exc : exn) (errors : nat).

(** The database with its row of _sync_state, which nothing else uses; the loops that
    run, each at its place, the thread the agent knows of, and the two events. *)
Record agent := Agent {
  ag_store : store;
  ag_row : option SyncState;
  ag_loops : gmap nat phase;
  ag_thread : option nat;
  ag_next : nat;
  ag_stop : bool;
  ag_go : bool;
}.

Definition put_row (x : option SyncState) (w : agent) : agent :=
  Agent (ag_store w) x (ag_loops w) (ag_thread w) (ag_next w) (ag_stop w) (ag_go w).
Definition put_events (stop go : bool) (w : agent) : agent :=
  Agent (ag_store w) (ag_row w) (ag_loops w) (ag_thread w) (ag_next w) stop go.
Definition put_threads (loops : gmap nat phase) (thread : option nat) (next : nat) (w : agent) : agent :=
  Agent (ag_store w) (ag_row w) loops thread next (ag_stop w) (ag_go w).
Definition put_database (s : store) (w : agent) : agent :=
  Agent s (ag_row w) (ag_loops w) (ag_thread w) (ag_next w) (ag_stop w) (ag_go w).

(** Loop [t] goes on at [q], or ends. *)
Definition put_loop (t : nat) (q : option phase) (w : agent) : agent :=
  put_threads (partial_alter (λ _, q) t (ag_loops w)) (ag_thread w) (ag_next w) w.

Abbreviation agp := (prog agent).

Definition on_database {R} (m : lp R) : agp R := λ w,
  let '(r, s) := m (ag_store w) in (r, put_database s w).

Section Agent.
Context `{host : !Host} `{hm : !Hmac} (digest : string → string) (json_datetime : Z → string).
Context (config : SyncConfig) (api_key sdk_version : string) (exc_text : exn → string).
(** The transport: what the plane answers to a request, while others may record. *)
Context (push_batch : SyncBatch → lp SyncBatchAck) (verify_sync : SyncVerifyRequest → lp SyncVerifyResponse).

(** *** State management *)

(** INSERT ... ON CONFLICT DO NOTHING. *)
Definition _ensure_sync_state : agp unit :=
  ts ← on_database now_utc;
  modify (λ w, match ag_row w with
    | Some _ => w
    | None => put_row (Some {| ss_sequence := 0; ss_hash := ""; ss_synced_at := None; ss_batch := None;
        ss_status := SYNC_IDLE; ss_error := None; ss_errors := 0; ss_created_at := ts; ss_updated_at := ts |}) w
    end).

(** UPDATE _sync_state: nothing when the row is not there. *)
Definition update_row (f : SyncState → SyncState) : agp unit := modify (λ w, put_row (f <$> ag_row w) w).

Definition row_status (st : SyncStatus) (ts : Z) (x : SyncState) : SyncState := {|
  ss_sequence := ss_sequence x; ss_hash := ss_hash x; ss_synced_at := ss_synced_at x; ss_batch := ss_batch x;
  ss_status := st; ss_error := ss_error x; ss_errors := ss_errors x; ss_created_at := ss_created_at x;
  ss_updated_at := ts |}.

Definition row_watermark (sequence : nat) (hash batch : string) (ts : Z) (x : SyncState) : SyncState := {|
  ss_sequence := sequence; ss_hash := hash; ss_synced_at := Some ts; ss_batch := Some batch;
  ss_status := SYNC_SYNCING; ss_error := None; ss_errors := 0; ss_created_at := ss_created_at x; ss_updated_at := ts |}.

Definition row_failed (message : string) (errors : nat) (ts : Z) (x : SyncState) : SyncState := {|
  ss_sequence := ss_sequence x; ss_hash := ss_hash x; ss_synced_at := ss_synced_at x; ss_batch := ss_batch x;
  ss_status := SYNC_ERROR; ss_error := Some message; ss_errors := errors; ss_created_at := ss_created_at x;
  ss_updated_at := ts |}.

Definition _update_watermark (sequence : nat) (hash batch : string) : agp unit :=
  ts ← on_database now_utc; update_row (row_watermark sequence hash batch ts).

Definition _update_status (st : SyncStatus) : agp unit :=
  ts ← on_database now_utc; update_row (row_status st ts).

Definition state_snapshot (x : SyncState) : SyncStateSnapshot := {|
  sn_sequence := ss_sequence x; sn_hash := ss_hash x; sn_synced_at := ss_synced_at x; sn_batch := ss_batch x;
  sn_status := ss_status x; sn_error := ss_error x; sn_errors := ss_errors x |}.

Definition agent_status : agp SyncStateSnapshot := gets (λ w, from_option state_snapshot no_sync_state (ag_row w)).

(** *** One cycle *)

(** The columns that are selected: not the states. *)
Definition sync_metadata (e : TraceEntry) : SyncEntryMetadata := {|
  se_id := te_id e; se_sequence := te_sequence e; se_actor := te_actor e; se_action := ActionType.value (te_action e);
  se_target_type := te_target_type e; se_target_id := te_target_id e; se_timestamp := te_timestamp e;
  se_hash := te_hash e; se_previous_hash := te_previous_hash e; se_scope := te_scope e; se_parent := te_parent e;
  se_metadata := te_metadata e |}.

Definition after_sequence (n : nat) (e : TraceEntry) : bool := n <? te_sequence e.

Definition _query_new_entries (n : nat) : lp (list SyncEntryMetadata) :=
  rows ← select_sorted t_trail (after_sequence n) by_sequence;
  mret (sync_metadata <$> take (batch_size config) rows).

Definition _count_resources : lp ResourceCounts :=
  objects ← select_count t_objects (λ o, bool_decide (so_lifecycle o = ACTIVE));
  principals ← select_count principals principal_active;
  scopes ← select_count t_scopes (λ x, bool_decide (sc_lifecycle x = ACTIVE));
  ts ← now_utc;
  mret {| rc_objects := objects; rc_principals := principals; rc_scopes := scopes; rc_at := ts |}.

(** [entries] is [e] and [rest]: never empty. *)
Definition _build_batch (e : SyncEntryMetadata) (rest : list SyncEntryMetadata) (counts : ResourceCounts) : lp SyncBatch :=
  let entries := e :: rest in
  let newest := List.last rest e in
  let content_hash := compute_content_hash json_datetime entries in
  let payload := json_compact (JVdict [("entries", JVlist (entry_dump json_datetime <$> entries));
    ("content_hash", JVstr content_hash); ("chain_hash", JVstr (se_hash newest))]) in
  id ← generate_id;
  ts ← now_utc;
  mret {| sb_id := id; sb_sdk := sdk_version; sb_entries := entries; sb_counts := counts; sb_first := se_sequence e;
    sb_last := se_sequence newest; sb_chain_hash := se_hash newest; sb_content_hash := content_hash;
    sb_signature := sign_payload digest api_key payload; sb_created_at := ts |}.

(** The batch of a cycle, if there is anything new. *)
Definition next_batch : agp (option SyncBatch) :=
  state ← agent_status;
  entries ← on_database (_query_new_entries (sn_sequence state));
  match entries with
  | [] => mret None
  | e :: rest =>
      counts ← on_database _count_resources;
      batch ← on_database (_build_batch e rest counts);
      mret (Some batch)
  end.

Definition _sync_cycle : agp unit :=
  batch ← next_batch;
  match batch with
  | None => mret tt
  | Some batch =>
      ack ← on_database (push_batch batch);
      if ak_accepted ack then _update_watermark (sb_last batch) (sb_chain_hash batch) (sb_id batch) else mret tt
  end.

(** Python's float cannot hold [2 ** n] from 1024 on. *)
Definition backoff (errors : nat) (jitter : QArith_base.Q) : outcome QArith_base.Q :=
  if 1024 <=? errors then Raise (OverflowError "int too large to convert to float")
  else
    let delay := QArith_base.Qplus (QArith_base.Qmult (retry_base_delay config) (QArith_base.inject_Z (2 ^ Z.of_nat errors))) jitter in
    Ok (if QArith_base.Qle_bool delay (retry_max_delay config) then delay else retry_max_delay config).

(** The row is updated before the delay is computed. *)
Definition _handle_error (e : exn) (jitter : QArith_base.Q) : agp QArith_base.Q :=
  state ← agent_status;
  let errors := S (sn_errors state) in
  ts ← on_database now_utc;
  update_row (row_failed (String.substring 0 500 (exc_text e)) errors ts) ;;
  lift (backoff errors jitter).

(** A turn of the loop, past the two events; what it raises ends the thread. *)
Definition turn (jitter : QArith_base.Q) : agp unit := λ w,
  match _sync_cycle w with
  | (Ok _, w) => (Ok tt, w)
  | (Raise e, w) => (_handle_error e jitter ;; mret tt) w
  end.

(** *** Step by step

    Between any two of these statements other loops may run, the agent may be called,
    and others may record. *)
Definition count_error (exc : exn) : agp (option phase) :=
  state ← agent_status; mret (Some (AtBackoff exc (S (sn_errors state)))).

Definition record_error (exc : exn) (errors : nat) (jitter : QArith_base.Q) : agp (option phase) :=
  ts ← on_database now_utc;
  update_row (row_failed (String.substring 0 500 (exc_text exc)) errors ts) ;;
  lift (backoff errors jitter) ;;
  mret (Some AtWhile).

(** The statements of _run, and between [AtCycle] and [AtWatermark] those of _sync_cycle. *)
Definition loop_step (jitter : QArith_base.Q) (p : phase) : agp (option phase) :=
  match p with
  | AtWhile => stop ← gets ag_stop; mret (if stop : bool then None else Some AtPause)
  | AtPause => mret (Some AtCheck)
  | AtCheck => stop ← gets ag_stop; mret (if stop : bool then None else Some AtCycle)
  | AtCycle => state ← agent_status; mret (Some (AtQuery (sn_sequence state)))
  | AtQuery n =>
      entries ← on_database (_query_new_entries n);
      mret (Some match entries with [] => AtWhile | e :: rest => AtCount e rest end)
  | AtCount e rest => counts ← on_database _count_resources; mret (Some (AtBuild e rest counts))
  | AtBuild e rest counts => batch ← on_database (_build_batch e rest counts); mret (Some (AtPush batch))
  | AtPush batch =>
      ack ← on_database (push_batch batch);
      mret (Some (if ak_accepted ack then AtWatermark batch else AtWhile))
  | AtWatermark batch =>
      _update_watermark (sb_last batch) (sb_chain_hash batch) (sb_id batch) ;; mret (Some AtWhile)
  | AtError exc => count_error exc
  | AtBackoff exc errors => record_error exc errors jitter
  end.

(** The statements of _sync_cycle are tried; what _handle_error raises ends the thread. *)
Definition in_cycle (p : phase) : bool :=
  match p with AtWhile | AtPause | AtCheck | AtError _ | AtBackoff _ _ => false | _ => true end.

Definition step_outcome (p : phase) (r : outcome (option phase)) : option phase :=
  match r with Ok q => q | Raise e => if in_cycle p then Some (AtError e) else None end.

Definition advance_loop (t : nat) (jitter : QArith_base.Q) (w : agent) : agent :=
  match ag_loops w !! t with
  | None => w
  | Some p => let '(r, w1) := loop_step jitter p w in put_loop t (step_outcome p r) w1
  end.

(** A loop before the pause event waits until it is set. *)
Definition may_advance (t : nat) (w : agent) : bool :=
  match ag_loops w !! t with None => false | Some AtPause => ag_go w | Some _ => true end.

(** *** Control *)

Definition thread_alive (w : agent) : bool :=
  match ag_thread w with Some t => bool_decide (is_Some (ag_loops w !! t)) | None => false end.

Definition agent_start : agp unit :=
  running ← gets thread_alive;
  raise_if running (SyncError "Sync agent is already running.") ;;
  _ensure_sync_state ;;
  _update_status SYNC_SYNCING ;;
  modify (put_events false true) ;;
  modify (λ w, put_threads (<[ag_next w := AtWhile]> (ag_loops w)) (Some (ag_next w)) (S (ag_next w)) w).

Definition agent_pause : agp unit :=
  modify (λ w, put_events (ag_stop w) false w) ;; _update_status SYNC_PAUSED.

Definition agent_resume : agp unit :=
  _update_status SYNC_SYNCING ;; modify (λ w, put_events (ag_stop w) true w).

(** A stop up to where it joins the thread, and from there on: when the thread has
    ended, or after ten seconds. *)
Definition stop_signal : agp unit := modify (put_events true true).

Definition stop_finish : agp unit :=
  modify (λ w, put_threads (ag_loops w) None (ag_next w) w) ;; _update_status SYNC_STOPPED.

Definition agent_verify (chunk_size : nat) : agp (option SyncVerifyResponse) :=
  state ← agent_status;
  chain ← on_database (verify_chain 1 None chunk_size);
  match chain with
  | None => mret None
  | Some chain =>
      answer ← on_database (verify_sync {| vq_from := 1; vq_to := if sn_sequence state =? 0 then None else Some (sn_sequence state);
        vq_hash := sn_hash state; vq_count := entries_checked chain |});
      mret (Some answer)
  end.
End Agent.

(** ** The trail above a watermark *)

Definition above (n : nat) (l : list TraceEntry) : list TraceEntry := filter (λ e, n < te_sequence e) l.
Definition between (n m : nat) (l : list TraceEntry) : list TraceEntry := filter (λ e, n < te_sequence e ∧ te_sequence e ≤ m) l.

Lemma between_above n m l : between n m l = filter (λ e, te_sequence e ≤ m) (above n l).
Proof.
  unfold between, above. rewrite list_filter_filter. apply list_filter_iff. intros e. lia.
Qed.

Lemma above_all_le m (l : list TraceEntry) : (∀ e, e ∈ l → te_sequence e ≤ m) → filter (λ e, te_sequence e ≤ m) l = l.
Proof. by rewrite filter_all_iff. Qed.

Lemma above_none m (l : list TraceEntry) : (∀ e, e ∈ l → m < te_sequence e) → filter (λ e, te_sequence e ≤ m) l = [].
Proof. intros H. apply filter_nil_iff. intros e He Hle. specialize (H e He). lia. Qed.

Lemma sorted_app_lt (l k : list TraceEntry) a b : seq_sorted (l ++ k) → a ∈ l → b ∈ k → te_sequence a < te_sequence b.
Proof.
  induction l as [|x l IH]; intros Hs Ha Hb; [by apply elem_of_nil in Ha|].
  apply StronglySorted_inv in Hs as [Hs Hx]. rewrite Forall_forall in Hx.
  apply elem_of_cons in Ha as [->|Ha]; [|by apply IH]. apply Hx, elem_of_app. by right.
Qed.

Lemma last_cons {X} (x : X) rest e : List.last (x :: rest) e = List.last rest x.
Proof.
  revert x e. induction rest as [|y rest IH]; intros x e; [done|].
  transitivity (List.last (y :: rest) e); [done|]. by rewrite !IH.
Qed.

Lemma last_elem {X} (e : X) rest : List.last rest e ∈ e :: rest.
Proof. revert e. induction rest as [|x rest IH]; intros e; [left|]. rewrite last_cons. right. apply IH. Qed.

Lemma last_fmap {X Y} (f : X → Y) e rest : List.last (f <$> rest) (f e) = f (List.last rest e).
Proof. revert e. induction rest as [|x rest IH]; intros e; [done|]. rewrite fmap_cons, !last_cons. apply IH. Qed.

Lemma sorted_last e rest (l : list TraceEntry) a :
  seq_sorted (e :: rest ++ l) → a ∈ e :: rest → te_sequence a ≤ te_sequence (List.last rest e).
Proof.
  revert e a. induction rest as [|x rest IH]; intros e a Hs Ha.
  - apply list_elem_of_singleton in Ha as ->. done.
  - apply StronglySorted_inv in Hs as [Hs He]. rewrite Forall_forall in He. rewrite last_cons.
    apply elem_of_cons in Ha as [->|Ha]; [|by apply IH].
    transitivity (te_sequence x); [|apply IH; [done|left]]. apply Nat.lt_le_incl, He. left.
Qed.

(** The first entries above a watermark are those up to the last of them. *)
Lemma between_taken m n l e rest :
  seq_sorted l → take n (above m l) = e :: rest →
  between m (te_sequence (List.last rest e)) l = e :: rest ∧ m < te_sequence (List.last rest e) ∧ List.last rest e ∈ l.
Proof.
  intros Hs Ht. assert (Habove : seq_sorted (above m l)) by (eapply sublist_sorted; [apply sublist_filter|done]).
  pose proof (take_drop n (above m l)) as Hsplit. rewrite Ht in Hsplit.
  assert (Hlast : List.last rest e ∈ above m l) by (rewrite <-Hsplit; apply elem_of_app; left; apply last_elem).
  split; [|by apply list_elem_of_filter in Hlast as [? ?]]. rewrite <-Hsplit in Habove.
  rewrite between_above, <-Hsplit, filter_app.
  rewrite above_all_le by (intros a Ha; by eapply sorted_last).
  rewrite above_none; [by rewrite app_nil_r|]. intros a Ha. eapply (sorted_app_lt (e :: rest)); [exact Habove|apply last_elem|done].
Qed.

Lemma between_app n m l k : between n m (l ++ k) = between n m l ++ between n m k.
Proof. apply filter_app. Qed.

Lemma between_join a b c l : seq_sorted l → a ≤ b → b ≤ c → between a b l ++ between b c l = between a c l.
Proof.
  intros Hs Hab Hbc. unfold between. induction Hs as [|x l Hs IH Hx]; [done|]. rewrite !filter_cons.
  rewrite Forall_forall in Hx. repeat case_decide; try lia; cbn; rewrite ?IH; try done.
  assert (filter (λ e, a < te_sequence e ∧ te_sequence e ≤ b) l = []) as E.
  { apply filter_nil_iff. intros y Hy [_ Hle]. specialize (Hx y Hy). unfold seq_lt in Hx. lia. }
  rewrite E in IH |- *. cbn in IH |- *. by rewrite IH.
Qed.

(** A sequence number that stays put: none, or that of an entry. *)
Definition known (l : list TraceEntry) (m : nat) : Prop := m = 0 ∨ ∃ e, e ∈ l ∧ te_sequence e = m.

(** Others append to the trail, which stays sorted. *)
Definition grows (l l' : list TraceEntry) : Prop := l `prefix_of` l' ∧ (seq_sorted l → seq_sorted l').

#[export] Instance grows_preorder : PreOrder grows.
Proof. split; [by split|]. intros a b c [A1 A2] [B1 B2]. split; [by etrans|auto]. Qed.

Lemma known_grows l l' m : grows l l' → known l m → known l' m.
Proof. intros [[k ->] _] [->|(e & He & Hm)]; [by left|right]. exists e. split; [apply elem_of_app; by left|done]. Qed.

Lemma between_grows n m l l' : grows l l' → seq_sorted l → known l m → between n m l' = between n m l.
Proof.
  intros [[k ->] Hsort] Hs Hm. specialize (Hsort Hs). rewrite between_app.
  assert (between n m k = []) as ->; [|apply app_nil_r].
  apply filter_nil_iff. intros y Hy [Hn Hle]. destruct Hm as [->|(e & He & <-)]; [lia|].
  pose proof (sorted_app_lt l k e y Hsort He Hy). lia.
Qed.

(** ** Exactly once *)

Definition mark (w : agent) : nat := from_option ss_sequence 0 (ag_row w).
Definition agent_trail (w : agent) : list TraceEntry := t_trail (st_db (ag_store w)).

Record agent_ok (w : agent) : Prop := {
  ao_sorted : seq_sorted (agent_trail w);
  ao_mark : known (agent_trail w) (mark w);
  ao_row : ag_loops w ≠ ∅ → is_Some (ag_row w);
}.

Definition sent (log : list SyncBatch) : list SyncEntryMetadata := mjoin (sb_entries <$> log).

Lemma sent_app log log' : sent (log ++ log') = sent log ++ sent log'.
Proof. unfold sent. by rewrite fmap_app, join_app. Qed.

(** [es] is the trail after [n], up to its entry [m]. *)
Definition block (l : list TraceEntry) (n m : nat) (es : list SyncEntryMetadata) : Prop :=
  es = sync_metadata <$> between n m l ∧ n < m ∧ known l m.

(** What a loop holds starts where [G] says it may. *)
Definition phase_ok (G : nat → Prop) (l : list TraceEntry) (p : phase) : Prop :=
  match p with
  | AtQuery n => G n
  | AtCount e rest | AtBuild e rest _ => ∃ n, G n ∧ block l n (se_sequence (List.last rest e)) (e :: rest)
  | AtPush b => ∃ n, G n ∧ block l n (sb_last b) (sb_entries b)
  | AtWatermark b => G (sb_last b)
  | _ => True
  end.

Lemma block_grows l l' n m es : grows l l' → seq_sorted l → block l n m es → block l' n m es.
Proof.
  intros Hg Hs (-> & Hlt & Hm). split_and!; [|done|by eapply known_grows]. by rewrite (between_grows n m l l').
Qed.

Lemma phase_ok_mono (G G' : nat → Prop) l l' p :
  grows l l' → seq_sorted l → (∀ n, G n → G' n) → phase_ok G l p → phase_ok G' l' p.
Proof.
  intros Hg Hs HG. destruct p; cbn [phase_ok]; try done; try apply HG.
  all: intros (n & Hn & Hb); exists n; split; [by apply HG|by eapply block_grows].
Qed.

Section Marks.
(** The watermark at the beginning, and what the plane has acknowledged since. *)
Context (m0 : nat) (log : list SyncBatch).

(** Up to [m] everything has been acknowledged at least once; exactly the trail up to [m]. *)
Definition covered (l : list TraceEntry) (m : nat) : Prop :=
  m0 ≤ m ∧ known l m ∧ ∀ e, e ∈ between m0 m l → sync_metadata e ∈ sent log.
Definition exactly (l : list TraceEntry) (m : nat) : Prop :=
  m0 ≤ m ∧ known l m ∧ sent log = sync_metadata <$> between m0 m l.

Lemma covered_grows l l' m : grows l l' → seq_sorted l → covered l m → covered l' m.
Proof.
  intros Hg Hs (Hle & Hm & Hin). split_and!; [done|by eapply known_grows|]. by rewrite (between_grows m0 m l l').
Qed.

Lemma exactly_grows l l' m : grows l l' → seq_sorted l → exactly l m → exactly l' m.
Proof.
  intros Hg Hs (Hle & Hm & Hsent). split_and!; [done|by eapply known_grows|]. by rewrite (between_grows m0 m l l').
Qed.

Lemma covered_push l n b : covered l n → block l n (sb_last b) (sb_entries b) →
  m0 ≤ sb_last b ∧ known l (sb_last b) ∧ ∀ e, e ∈ between m0 (sb_last b) l → sync_metadata e ∈ sent (log ++ [b]).
Proof.
  intros (Hle & _ & Hin) (Hes & Hlt & Hm). split_and!; [lia|done|]. intros e He. rewrite sent_app, elem_of_app.
  apply list_elem_of_filter in He as [[H1 H2] He]. destruct (decide (te_sequence e ≤ n)) as [Hn|Hn]; [left|right].
  - apply Hin, list_elem_of_filter. by split_and!.
  - unfold sent. cbn. rewrite app_nil_r, Hes. apply list_elem_of_fmap_2, list_elem_of_filter. split_and!; [lia|done|done].
Qed.

Lemma exactly_push l n b : seq_sorted l → exactly l n → block l n (sb_last b) (sb_entries b) →
  m0 ≤ sb_last b ∧ known l (sb_last b) ∧ sent (log ++ [b]) = sync_metadata <$> between m0 (sb_last b) l.
Proof.
  intros Hs (Hle & _ & Hsent) (Hes & Hlt & Hm). split_and!; [lia|done|]. rewrite sent_app, Hsent. unfold sent. cbn.
  rewrite app_nil_r, Hes, <-fmap_app, between_join by (done || lia). done.
Qed.
End Marks.

Section Delivery.
Context `{host : !Host} `{hm : !Hmac} (digest : string → string) (json_datetime : Z → string).
Context (config : SyncConfig) (api_key sdk_version : string) (exc_text : exn → string).
Context (push_batch : SyncBatch → lp SyncBatchAck) (verify_sync : SyncVerifyRequest → lp SyncVerifyResponse).
(** While the plane is busy others may record. *)
Context (push_grows : ∀ b s, grows (t_trail (st_db s)) (t_trail (st_db (push_batch b s).2))).
Context (verify_grows : ∀ q s, grows (t_trail (st_db s)) (t_trail (st_db (verify_sync q s).2))).

Let cycle := _sync_cycle digest json_datetime config api_key sdk_version push_batch.
Let next := next_batch digest json_datetime config api_key sdk_version.
Let one_step := loop_step digest json_datetime config api_key sdk_version exc_text push_batch.
Let move := advance_loop digest json_datetime config api_key sdk_version exc_text push_batch.
Let one_turn := turn digest json_datetime config api_key sdk_version exc_text push_batch.

Definition pending (w : agent) : list TraceEntry := above (mark w) (agent_trail w).

Lemma query_run n w :
  seq_sorted (agent_trail w) →
  on_database (_query_new_entries config n) w = (Ok (sync_metadata <$> take (batch_size config) (above n (agent_trail w))), w).
Proof using.
  intros Hs. unfold on_database, _query_new_entries. rewrite run_bind, select_trail by done.
  assert (Hfilter : filter (λ e, after_sequence n e = true) (t_trail (st_db (ag_store w))) = above n (agent_trail w)).
  { apply list_filter_iff. intros e. unfold after_sequence. by rewrite Nat.ltb_lt. }
  rewrite Hfilter. by destruct w.
Qed.

(** A cycle takes the first of what is pending, or nothing if nothing is. *)
Lemma next_batch_run w :
  seq_sorted (agent_trail w) →
  match take (batch_size config) (pending w) with
  | [] => next w = (Ok None, w)
  | e :: rest => ∃ b s, next w = (Ok (Some b), put_database s w) ∧ st_db s = st_db (ag_store w) ∧
      sb_entries b = sync_metadata <$> e :: rest ∧ sb_last b = te_sequence (List.last rest e)
  end.
Proof using.
  intros Hs. unfold next, next_batch. rewrite run_bind. cbn [agent_status gets].
  assert (Hmark : sn_sequence (from_option state_snapshot no_sync_state (ag_row w)) = mark w)
    by (unfold mark; by destruct (ag_row w)).
  rewrite Hmark, run_bind, query_run by done. unfold pending.
  destruct (take (batch_size config) (above (mark w) (agent_trail w))) as [|e rest]; [done|]. rewrite fmap_cons.
  eexists _, _. split; [reflexivity|]. cbn. split_and!; [done|done|]. rewrite last_fmap. done.
Qed.

(** ** Every run of the agent *)

(** What the plane acknowledges when a loop goes on from [p]. *)
Definition acknowledged (p : phase) (w : agent) : list SyncBatch :=
  match p with
  | AtPush b => match (push_batch b (ag_store w)).1 with Ok ack => if ak_accepted ack then [b] else [] | Raise _ => [] end
  | _ => []
  end.

Inductive agent_op := AStart | APause | AResume | AStopSignal | AStopFinish | AVerify (chunk_size : nat).

#[export] Instance agent_op_eq_dec : EqDecision agent_op.
Proof using. solve_decision. Defined.

Definition run_agent_op (op : agent_op) : agp unit :=
  match op with
  | AStart => agent_start
  | APause => agent_pause
  | AResume => agent_resume
  | AStopSignal => stop_signal
  | AStopFinish => stop_finish
  | AVerify chunk_size => agent_verify verify_sync chunk_size ;; mret tt
  end.

(** The thread the agent knows of has ended: a join returns. *)
Definition joined (w : agent) : Prop :=
  match ag_thread w with Some t => ag_loops w !! t = None | None => True end.

(** The process is started again on the same database. *)
Definition restarted (w : agent) : agent := Agent (ag_store w) (ag_row w) ∅ None 0 false true.

(** Steps of the loops, calls from outside, what others record, and restarts, in any
    order; the log is what the plane acknowledged.  In an [orderly] run a stop waits
    until its thread has ended, and no restart cuts a loop off. *)
Inductive agent_run (orderly : bool) : agent → list SyncBatch → agent → Prop :=
  | run_done w : agent_run orderly w [] w
  | run_step t jitter p w log w' :
      ag_loops w !! t = Some p → may_advance t w = true →
      agent_run orderly (move t jitter w) log w' → agent_run orderly w (acknowledged p w ++ log) w'
  | run_call op w log w' :
      (orderly = true → op = AStopFinish → joined w) →
      agent_run orderly (run_agent_op op w).2 log w' → agent_run orderly w log w'
  | run_recorded s w log w' :
      grows (agent_trail w) (t_trail (st_db s)) →
      agent_run orderly (put_database s w) log w' → agent_run orderly w log w'
  | run_restart w log w' :
      orderly = false → agent_run orderly (restarted w) log w' → agent_run orderly w log w'.

(** *** One step of a loop *)

(** What a step does to the agent, other than moving its loop on. *)
Record same_control (w w1 : agent) : Prop := {
  sc_trail : grows (agent_trail w) (agent_trail w1);
  sc_loops : ag_loops w1 = ag_loops w;
  sc_thread : ag_thread w1 = ag_thread w;
  sc_row : is_Some (ag_row w) → is_Some (ag_row w1);
}.

(** The place and the watermark after a step from [p]. *)
Inductive moved (w : agent) : phase → list SyncBatch → option phase → nat → Prop :=
  | moved_read p q : (∀ b, p ≠ AtWatermark b) →
      (∀ G : nat → Prop, G (mark w) → phase_ok G (agent_trail w) p → from_option (phase_ok G (agent_trail w)) True q) →
      moved w p [] q (mark w)
  | moved_push b : moved w (AtPush b) [b] (Some (AtWatermark b)) (mark w)
  | moved_mark b : moved w (AtWatermark b) [] (Some AtWhile) (from_option (λ _, sb_last b) 0 (ag_row w)).

Lemma put_database_same w : put_database (ag_store w) w = w.
Proof using. by destruct w. Qed.

Lemma mark_row f w : (∀ x, ss_sequence (f x) = ss_sequence x) → mark (put_row (f <$> ag_row w) w) = mark w.
Proof using. intros Hf. unfold mark. cbn. destruct (ag_row w); cbn; [apply Hf|done]. Qed.

Lemma sentinel (w : agent) : sn_sequence (from_option state_snapshot no_sync_state (ag_row w)) = mark w.
Proof using. unfold mark. by destruct (ag_row w). Qed.

Lemma same_control_refl w : same_control w w.
Proof using. by split. Qed.

Lemma update_row_control f w : same_control w (put_row (f <$> ag_row w) w).
Proof using. split; try done. intros [x Hx]. cbn. rewrite Hx. by eexists. Qed.

Lemma query_block w e rest n :
  seq_sorted (agent_trail w) → sync_metadata <$> take (batch_size config) (above n (agent_trail w)) = e :: rest →
  block (agent_trail w) n (se_sequence (List.last rest e)) (e :: rest).
Proof using.
  intros Hs Htake. destruct (take _ _) as [|x xs] eqn:Hx; [done|]. rewrite fmap_cons in Htake. injection Htake as <- <-.
  destruct (between_taken n (batch_size config) (agent_trail w) x xs Hs Hx) as (Hb & Hlt & Hin).
  rewrite (last_fmap sync_metadata). cbn [se_sequence sync_metadata]. split_and!; [by rewrite Hb|done|right; by eexists].
Qed.

Lemma moved_same w w1 p q :
  mark w1 = mark w → (∀ b, p ≠ AtWatermark b) →
  (∀ G : nat → Prop, G (mark w) → phase_ok G (agent_trail w) p → from_option (phase_ok G (agent_trail w)) True q) →
  moved w p [] q (mark w1).
Proof using. intros ->. apply moved_read. Qed.

Lemma loop_step_moved jitter p w :
  seq_sorted (agent_trail w) →
  let '(r, w1) := one_step jitter p w in
  same_control w w1 ∧ moved w p (acknowledged p w) (step_outcome p r) (mark w1).
Proof using push_grows.
  intros Hs. pose proof (same_control_refl w) as Hrefl. destruct p; cbn [acknowledged].
  - cbn. split; [done|]. apply moved_read; [done|]. by destruct (ag_stop w).
  - cbn. split; [done|]. by apply moved_same.
  - cbn. split; [done|]. apply moved_read; [done|]. by destruct (ag_stop w).
  - unfold one_step, loop_step. rewrite run_bind. cbn [agent_status gets mret prog_ret step_outcome]. rewrite sentinel.
    split; [done|]. by apply moved_same.
  - unfold one_step, loop_step. rewrite run_bind, query_run by done. cbn [mret prog_ret step_outcome]. split; [done|].
    apply moved_read; [done|]. intros G _ HG. destruct (sync_metadata <$> _) as [|e rest] eqn:Htake; [done|].
    exists last_sequence. split; [exact HG|by apply query_block].
  - destruct w. split; [by split|]. by apply moved_same.
  - split; [by split|]. apply moved_same; [done|done|]. by intros G _ HG.
  - unfold one_step, loop_step. rewrite run_bind. unfold on_database. pose proof (push_grows batch (ag_store w)) as Hg.
    destruct (push_batch batch (ag_store w)) as [[ack|e] s]; cbn in Hg |- *.
    + split; [by split|]. destruct (ak_accepted ack); [exact (moved_push w batch)|by apply moved_same].
    + split; [by split|]. by apply moved_same.
  - unfold one_step, loop_step, _update_watermark. rewrite !run_bind. cbn [on_database now_utc gets]. rewrite put_database_same.
    split; [apply update_row_control|]. pose proof (moved_mark w batch) as Hm. unfold mark at 1. cbn.
    by destruct (ag_row w).
  - cbn. split; [done|]. by apply moved_same.
  - unfold one_step, loop_step, record_error. rewrite run_bind. cbn [on_database now_utc gets]. rewrite put_database_same.
    cbn [update_row modify]. unfold mbind at 1 2, prog_bind. unfold lift.
    destruct (backoff config errors jitter) as [q|e]; cbn [mret prog_ret step_outcome in_cycle];
      (split; [apply update_row_control|]); (apply moved_same; [by apply mark_row|done|done]).
Qed.

(** *** What a run keeps *)

(** A call, or what others do: loops and watermark stay. *)
Definition untouched (w w1 : agent) : Prop := same_control w w1 ∧ mark w1 = mark w.

#[export] Instance untouched_preorder : PreOrder untouched.
Proof using.
  split; [split; [apply same_control_refl|done]|]. intros a b c [[A1 A2 A3 A4] A5] [[B1 B2 B3 B4] B5].
  split; [split; [by etrans|congruence|congruence|auto]|congruence].
Qed.

Definition loops_ok (G : nat → Prop) (w : agent) : Prop :=
  ∀ t p, ag_loops w !! t = Some p → phase_ok G (agent_trail w) p.

Record run_inv (m0 : nat) (log : list SyncBatch) (w : agent) : Prop := {
  ri_ok : agent_ok w;
  ri_mark : covered m0 log (agent_trail w) (mark w);
  ri_loops : loops_ok (covered m0 log (agent_trail w)) w;
  ri_sound : ∀ x, x ∈ sent log → x ∈ sync_metadata <$> above m0 (agent_trail w);
}.

Record orderly_inv (m0 : nat) (log : list SyncBatch) (w : agent) : Prop := {
  oi_single : ∀ t, is_Some (ag_loops w !! t) → ag_thread w = Some t;
  oi_loops : loops_ok (exactly m0 log (agent_trail w)) w;
  oi_mark : (∃ t b, ag_loops w !! t = Some (AtWatermark b)) ∨ exactly m0 log (agent_trail w) (mark w);
}.

Lemma put_loop_lookup t q w t' p :
  ag_loops (put_loop t q w) !! t' = Some p → t' = t ∧ q = Some p ∨ t' ≠ t ∧ ag_loops w !! t' = Some p.
Proof using.
  cbn. destruct (decide (t' = t)) as [->|Hne].
  - rewrite lookup_partial_alter_eq. by left.
  - rewrite lookup_partial_alter_ne by done. by right.
Qed.

Lemma sound_grows m0 log l l' :
  grows l l' → (∀ x, x ∈ sent log → x ∈ sync_metadata <$> above m0 l) → ∀ x, x ∈ sent log → x ∈ sync_metadata <$> above m0 l'.
Proof using.
  intros [[k ->] _] H x Hx. unfold above. rewrite filter_app, fmap_app. apply elem_of_app. left. by apply H.
Qed.

Lemma loops_ok_grows (G G' : nat → Prop) w w1 :
  grows (agent_trail w) (agent_trail w1) → seq_sorted (agent_trail w) → ag_loops w1 = ag_loops w →
  (∀ n, G n → G' n) → loops_ok G w → loops_ok G' w1.
Proof using. intros Hg Hs Hl HG H t p Hp. rewrite Hl in Hp. eapply phase_ok_mono; [done|done|exact HG|by apply (H t)]. Qed.

Lemma untouched_run_inv m0 log w w1 : untouched w w1 → run_inv m0 log w → run_inv m0 log w1.
Proof using.
  intros [[Hg Hl Ht Hr] Hm] [[A1 A2 A3] B C D].
  assert (Hgrow : ∀ n, covered m0 log (agent_trail w) n → covered m0 log (agent_trail w1) n) by (intros n; by apply covered_grows).
  split.
  - split; [by apply Hg|rewrite Hm; by eapply known_grows|rewrite Hl; auto].
  - rewrite Hm. auto.
  - by eapply loops_ok_grows.
  - by eapply sound_grows.
Qed.

Lemma untouched_orderly_inv m0 log w w1 :
  seq_sorted (agent_trail w) → untouched w w1 → orderly_inv m0 log w → orderly_inv m0 log w1.
Proof using.
  intros Hs [[Hg Hl Ht Hr] Hm] [A B C]. hnf in Hl.
  assert (Hgrow : ∀ n, exactly m0 log (agent_trail w) n → exactly m0 log (agent_trail w1) n) by (intros n; by apply exactly_grows).
  split; [by rewrite Hl, Ht|by eapply loops_ok_grows|]. rewrite Hl, Hm. destruct C as [C|C]; [by left|right; auto].
Qed.

(** *** Steps keep it *)

Lemma step_run_inv m0 log t jitter p w :
  ag_loops w !! t = Some p → run_inv m0 log w → run_inv m0 (log ++ acknowledged p w) (move t jitter w).
Proof using push_grows.
  intros Hp [[A1 A2 A3] B C D]. unfold move, advance_loop. rewrite Hp. pose proof (loop_step_moved jitter p w A1) as Hstep.
  fold one_step. destruct (one_step jitter p w) as [r w1]. destruct Hstep as [[Hg Hl Ht Hr] Hmoved].
  remember (acknowledged p w) as new eqn:E; clear E. remember (step_outcome p r) as q eqn:E; clear E.
  remember (mark w1) as m eqn:Em.
  assert (Hrow : is_Some (ag_row w)) by (apply A3; intros E; by rewrite E in Hp).
  set (log' := log ++ new).
  assert (Hgrow : ∀ n, covered m0 log (agent_trail w) n → covered m0 log' (agent_trail w) n).
  { intros n (H1 & H2 & H3). split_and!; [done|done|]. intros e He. unfold log'. rewrite sent_app. apply elem_of_app. left. auto. }
  assert (Hnew : covered m0 log' (agent_trail w) m ∧
    from_option (phase_ok (covered m0 log' (agent_trail w)) (agent_trail w)) True q ∧
    ∀ x, x ∈ sent log' → x ∈ sync_metadata <$> above m0 (agent_trail w)).
  { pose proof (C t p Hp) as Hphase. unfold log' in *. clear log'. destruct Hmoved as [p q Hno HG|b|b].
    - rewrite app_nil_r in *. split_and!; [done|by destruct q; [apply HG|]|done].
    - cbn in Hphase. destruct Hphase as (n & Hn & Hb). pose proof (covered_push _ _ _ _ _ Hn Hb) as Hpush.
      split_and!; [by apply Hgrow|exact Hpush|]. intros x. rewrite sent_app. intros [Hx|Hx]%elem_of_app; [by apply D|].
      unfold sent in Hx. cbn in Hx. rewrite app_nil_r in Hx. destruct Hb as (Hes & Hlt & _). rewrite Hes in Hx.
      apply list_elem_of_fmap in Hx as (e & -> & [[? ?] ?]%list_elem_of_filter). apply list_elem_of_fmap_2, list_elem_of_filter.
      split; [destruct Hn as [? _]; lia|done].
    - rewrite app_nil_r in *. destruct Hrow as [x Hx]. rewrite Hx. by split_and!. }
  destruct Hnew as (Hmark & Hq & Hsound). clear Hmoved. subst m. split.
  - split; [by apply Hg|cbn; eapply known_grows; [done|apply Hmark]|]. intros _. by apply Hr.
  - by eapply covered_grows.
  - intros t' p' [[-> Hp']|[Hne Hp']]%put_loop_lookup.
    + rewrite Hp' in Hq. eapply phase_ok_mono; [exact Hg|done| |exact Hq]. intros n. by apply covered_grows.
    + rewrite Hl in Hp'. eapply phase_ok_mono; [exact Hg|done| |by apply (C t')]. intros n Hn. eapply covered_grows; eauto.
  - by eapply sound_grows.
Qed.

Lemma step_orderly_inv m0 log t jitter p w :
  ag_loops w !! t = Some p → agent_ok w → orderly_inv m0 log w →
  orderly_inv m0 (log ++ acknowledged p w) (move t jitter w).
Proof using push_grows.
  intros Hp [A1 A2 A3] [B C D]. unfold move, advance_loop. rewrite Hp. pose proof (loop_step_moved jitter p w A1) as Hstep.
  fold one_step. destruct (one_step jitter p w) as [r w1]. destruct Hstep as [[Hg Hl Ht Hr] Hmoved].
  remember (acknowledged p w) as new eqn:E; clear E. remember (step_outcome p r) as q eqn:E; clear E.
  remember (mark w1) as m eqn:Em.
  assert (Hrow : is_Some (ag_row w)) by (apply A3; intros E; by rewrite E in Hp).
  assert (Hthread : ag_thread w = Some t) by (apply B; by eexists). set (log' := log ++ new).
  assert (Honly : ∀ t' x, ag_loops w !! t' = Some x → t' = t ∧ x = p).
  { intros t' x Hx. assert (ag_thread w = Some t') as E by (apply B; by eexists). rewrite Hthread in E. injection E as <-.
    rewrite Hp in Hx. by injection Hx. }
  assert (Hgrow : ∀ n, exactly m0 log' (agent_trail w) n → exactly m0 log' (agent_trail w1) n) by (intros n; by apply exactly_grows).
  assert (Hnew : ((∃ b, q = Some (AtWatermark b)) ∨ exactly m0 log' (agent_trail w) m) ∧
    from_option (phase_ok (exactly m0 log' (agent_trail w)) (agent_trail w)) True q).
  { pose proof (C t p Hp) as Hphase. unfold log' in *. clear log'. destruct Hmoved as [p q Hno HG|b|b].
    - rewrite app_nil_r in *. assert (Hm : exactly m0 log (agent_trail w) (mark w)).
      { destruct D as [(t' & b & Hb)|]; [|done]. apply Honly in Hb as [_ Hb]. by destruct (Hno b). }
      split; [by right|by destruct q; [apply HG|]].
    - cbn in Hphase. destruct Hphase as (n & Hn & Hb). pose proof (exactly_push _ _ _ _ _ A1 Hn Hb) as Hpush.
      split; [left; by eexists|exact Hpush].
    - rewrite app_nil_r in *. destruct Hrow as [x Hx]. rewrite Hx. split; [by right|done]. }
  destruct Hnew as (Hmark & Hq). clear Hmoved. subst m. split.
  - intros t' [x [[-> _]|[Hne Hx]]%put_loop_lookup]; cbn; [by rewrite Ht|]. rewrite Hl in Hx. by destruct (Honly _ _ Hx).
  - intros t' p' [[-> Hp']|[Hne Hp']]%put_loop_lookup.
    + rewrite Hp' in Hq. by eapply phase_ok_mono.
    + rewrite Hl in Hp'. by destruct (Honly _ _ Hp').
  - destruct Hmark as [[b Hb]|Hm]; [left|right; by apply Hgrow]. exists t, b. cbn. by rewrite lookup_partial_alter_eq, Hb.
Qed.

(** *** Calls keep it *)

Lemma untouched_bind {R R'} (m : agp R) (f : R → agp R') w :
  untouched w (m w).2 → (∀ a w1, untouched w1 (f a w1).2) → untouched w ((m ≫= f) w).2.
Proof using.
  intros Hm Hf. rewrite run_bind. destruct (m w) as [[a|e] w1]; [|done]. cbn in Hm. etrans; [exact Hm|apply Hf].
Qed.

Lemma on_database_untouched {R} (m : lp R) w :
  grows (t_trail (st_db (ag_store w))) (t_trail (st_db (m (ag_store w)).2)) → untouched w (on_database m w).2.
Proof using.
  intros H. unfold on_database. destruct (m (ag_store w)) as [r s] eqn:Hm. by split.
Qed.

Lemma update_status_untouched st w : untouched w (_update_status st w).2.
Proof using.
  unfold _update_status. apply untouched_bind; [by apply on_database_untouched|]. intros ts w1. cbn.
  split; [apply update_row_control|by apply mark_row].
Qed.

Lemma put_events_untouched stop go w : untouched w (put_events stop go w).
Proof using. by split. Qed.

Lemma ensure_untouched w : ∃ w1, _ensure_sync_state w = (Ok tt, w1) ∧ untouched w w1 ∧ is_Some (ag_row w1).
Proof using.
  unfold _ensure_sync_state. rewrite run_bind. cbn [on_database now_utc gets modify]. rewrite put_database_same.
  eexists. split; [reflexivity|]. destruct (ag_row w) as [x|] eqn:Hx; [split; [reflexivity|by eexists]|].
  split; [|by eexists]. split; [by split|]. unfold mark. cbn. by rewrite Hx.
Qed.

(** A start that does not raise puts a new loop beside those that run. *)
Lemma start_run w :
  (agent_start w).2 = w ∧ thread_alive w = true ∨
  thread_alive w = false ∧ ∃ w1, untouched w w1 ∧ is_Some (ag_row w1) ∧
    (agent_start w).2 = put_threads (<[ag_next w1 := AtWhile]> (ag_loops w1)) (Some (ag_next w1)) (S (ag_next w1)) w1.
Proof using.
  unfold agent_start. rewrite run_bind. cbn [gets]. rewrite run_bind. unfold raise_if.
  destruct (thread_alive w); [by left|right; split; [done|]]. cbn [mret prog_ret]. rewrite run_bind.
  destruct (ensure_untouched w) as (w1 & -> & H1 & Hsome). rewrite run_bind.
  pose proof (update_status_untouched SYNC_SYNCING w1) as H2. destruct (_update_status SYNC_SYNCING w1) as [[[]|e] w2] eqn:E; [|done].
  cbn [snd] in H2. exists (put_events false true w2). split_and!; [|by apply H2|done].
  etrans; [exact H1|]. etrans; [exact H2|]. apply put_events_untouched.
Qed.

Lemma finish_run w : untouched (put_threads (ag_loops w) None (ag_next w) w) (stop_finish w).2.
Proof using. unfold stop_finish. rewrite run_bind. cbn [modify]. apply update_status_untouched. Qed.

Lemma verify_loop_reads fuel x from to chunk_size : reads (verify_loop fuel x from to chunk_size).
Proof using.
  revert x from. induction fuel as [|fuel IH]; intros x from; [apply reads_ret|]. cbn [verify_loop].
  apply reads_bind; [apply reads_bind; [apply reads_gets|intros; apply reads_ret]|]. intros l.
  repeat case_match; solve [apply reads_ret|apply IH].
Qed.

Lemma verify_untouched chunk_size w : untouched w (agent_verify verify_sync chunk_size w).2.
Proof using verify_grows.
  unfold agent_verify. apply untouched_bind; [reflexivity|]. intros st w1. apply untouched_bind.
  - apply on_database_untouched. unfold verify_chain. rewrite run_bind. cbn [gets]. by rewrite verify_loop_reads.
  - intros [c|] w2; [|reflexivity]. apply untouched_bind; [apply on_database_untouched, verify_grows|intros; reflexivity].
Qed.

Lemma call_untouched op w : op ≠ AStart → op ≠ AStopFinish → untouched w (run_agent_op op w).2.
Proof using verify_grows.
  destruct op; cbn [run_agent_op]; intros H1 H2; try done.
  - unfold agent_pause. apply untouched_bind; [apply put_events_untouched|intros; apply update_status_untouched].
  - unfold agent_resume. apply untouched_bind; [apply update_status_untouched|intros; apply put_events_untouched].
  - apply untouched_bind; [apply verify_untouched|intros; reflexivity].
Qed.

Lemma spawned_lookup w t p :
  ag_loops (put_threads (<[ag_next w := AtWhile]> (ag_loops w)) (Some (ag_next w)) (S (ag_next w)) w) !! t = Some p →
  t = ag_next w ∧ p = AtWhile ∨ ag_loops w !! t = Some p.
Proof using. cbn. intros [[<- <-]|[_ H]]%lookup_insert_Some; [by left|by right]. Qed.

Lemma call_run_inv m0 log op w : run_inv m0 log w → run_inv m0 log (run_agent_op op w).2.
Proof using verify_grows.
  intros H. destruct (decide (op = AStopFinish)) as [->|Hfinish]; [|destruct (decide (op = AStart)) as [->|Hstart]].
  - eapply untouched_run_inv; [apply finish_run|]. destruct H as [[A1 A2 A3] B C D]. split; [by split|done..].
  - cbn [run_agent_op]. destruct (start_run w) as [[-> _]|(_ & w1 & Hw1 & Hrow & ->)]; [done|].
    pose proof (untouched_run_inv _ _ _ _ Hw1 H) as [[A1 A2 A3] B C D]. split; [by split|done| |done].
    intros t p [[-> ->]|Hp]%spawned_lookup; [done|by apply (C t)].
  - eapply untouched_run_inv; [by apply call_untouched|done].
Qed.

Lemma call_orderly_inv m0 log op w :
  seq_sorted (agent_trail w) → (op = AStopFinish → joined w) → orderly_inv m0 log w → orderly_inv m0 log (run_agent_op op w).2.
Proof using verify_grows.
  intros Hs Hjoin H. destruct (decide (op = AStopFinish)) as [->|Hfinish]; [|destruct (decide (op = AStart)) as [->|Hstart]].
  - eapply untouched_orderly_inv; [|apply finish_run|]; [done|]. specialize (Hjoin eq_refl). destruct H as [B C D]. split; [|done|done].
    intros t Ht. unfold joined in Hjoin. rewrite (B t Ht) in Hjoin. cbn in Ht. rewrite Hjoin in Ht. by destruct Ht.
  - cbn [run_agent_op]. destruct (start_run w) as [[-> _]|(Halive & w1 & Hw1 & Hrow & ->)]; [done|].
    pose proof (untouched_orderly_inv _ _ _ _ Hs Hw1 H) as [B C D]. destruct Hw1 as [[_ Hl Ht _] _].
    assert (Hnone : ∀ t, ¬ is_Some (ag_loops w1 !! t)).
    { intros t Hsome. pose proof (B t Hsome) as E. rewrite Ht in E. rewrite Hl in Hsome. unfold thread_alive in Halive.
      rewrite E in Halive. by apply bool_decide_eq_false_1 in Halive. }
    split.
    + intros t [p [[-> _]|Hp]%spawned_lookup]; [done|]. destruct (Hnone t). by eexists.
    + intros t p [[-> ->]|Hp]%spawned_lookup; [done|by apply (C t)].
    + destruct D as [(t & b & Hb)|D]; [destruct (Hnone t); by eexists|by right].
  - eapply untouched_orderly_inv; [done|by apply call_untouched|done].
Qed.

(** *** The theorem *)

(** Up to where the plane has acknowledged the trail: the watermark, or the end of the
    acknowledged batch whose watermark a loop is about to write. *)
Definition reached (w : agent) (m : nat) : Prop :=
  m = mark w ∨ ∃ t b, ag_loops w !! t = Some (AtWatermark b) ∧ m = sb_last b.

Lemma run_keeps orderly m0 log0 w log w' :
  agent_run orderly w log w' → run_inv m0 log0 w → (orderly = true → orderly_inv m0 log0 w) →
  run_inv m0 (log0 ++ log) w' ∧ (orderly = true → orderly_inv m0 (log0 ++ log) w').
Proof using push_grows verify_grows.
  intros Hrun. revert log0.
  induction Hrun as [w|t jitter p w log w' Hp _ _ IH|op w log w' Hfinish _ IH|s w log w' Hg _ IH|w log w' Hno _ IH]; intros log0 Hinv Hord.
  - by rewrite app_nil_r.
  - rewrite app_assoc. apply IH; [by apply step_run_inv|]. intros Ho. apply step_orderly_inv; [done|apply Hinv|by apply Hord].
  - apply IH; [by apply call_run_inv|]. intros Ho. apply call_orderly_inv; [apply Hinv|by apply Hfinish|by apply Hord].
  - assert (Hw : untouched w (put_database s w)) by by split. apply IH; [by eapply untouched_run_inv|].
    intros Ho. eapply untouched_orderly_inv; [apply Hinv|done|by apply Hord].
  - apply IH; [|by intros ->]. destruct Hinv as [[A1 A2 A3] B C D]. split; [by split|done|intros t p; by cbn|done].
Qed.

Lemma run_inv_start w : agent_ok w → ag_loops w = ∅ → run_inv (mark w) [] w ∧ orderly_inv (mark w) [] w.
Proof using.
  intros Hok Hnone. assert (Hloops : ∀ G, loops_ok G w) by (intros G t p Hp; by rewrite Hnone in Hp).
  pose proof (ao_mark _ Hok) as Hm.
  assert (Hempty : between (mark w) (mark w) (agent_trail w) = []) by (apply filter_nil_iff; intros e _ H; lia).
  split; split; try done.
  - split_and!; [done|done|]. rewrite Hempty. by intros e ?%elem_of_nil.
  - by intros x ?%elem_of_nil.
  - intros t [p Hp]. by rewrite Hnone in Hp.
  - right. split_and!; [done|done|]. by rewrite Hempty.
Qed.

(** C32: The trail reaches the plane: from an agent without a loop, however loops, calls,
    recordings and restarts interleave between the statements of the loop, and however
    often the plane fails or refuses, everything between the first watermark and the
    present one has been acknowledged at least once, and nothing else but entries past
    the first one; the watermark is never behind where it began. If moreover no stop gives
    up on a thread that still runs and no restart cuts a loop off, what was acknowledged is
    exactly the trail past the first watermark, every entry once and in order, up to the
    present watermark, or to the end of the batch whose watermark is about to be
    written. (A batch whose answer is lost was not acknowledged, and is sent again; one
    agent per database.) *)
Theorem sync_exactly_once orderly w log w' :
  agent_ok w → ag_loops w = ∅ → agent_run orderly w log w' →
  agent_ok w' ∧ mark w ≤ mark w' ∧
  (∀ e, e ∈ between (mark w) (mark w') (agent_trail w') → sync_metadata e ∈ sent log) ∧
  (∀ x, x ∈ sent log → x ∈ sync_metadata <$> above (mark w) (agent_trail w')) ∧
  (orderly = true → ∃ m, reached w' m ∧ sent log = sync_metadata <$> between (mark w) m (agent_trail w')).
Proof using push_grows verify_grows.
  intros Hok Hnone Hrun. destruct (run_inv_start w Hok Hnone) as [Hinv Hord].
  destruct (run_keeps orderly (mark w) [] w log w' Hrun Hinv (λ _, Hord)) as [[A (B1 & _ & B2) C D] Ho].
  cbn [app] in *. split_and!; try done. intros Horderly. destruct (Ho Horderly) as [O1 O2 [(t & b & Hb)|O3]].
  - destruct (O2 t _ Hb) as (_ & _ & Hsent). exists (sb_last b). split; [|done]. right. by exists t, b.
  - destruct O3 as (_ & _ & Hsent). exists (mark w'). split; [by left|done].
Qed.

(** *** A turn without interruption *)

(** The batch that a turn from here would have acknowledged. *)
Definition delivered (w : agent) : list SyncBatch :=
  match next w with (Ok (Some b), w1) => acknowledged (AtPush b) w1 | _ => [] end.

(** A loop whose turn raised has ended. *)
Definition after_turn (t : nat) (jitter : QArith_base.Q) (w : agent) : agent :=
  let '(r, w1) := one_turn jitter w in put_loop t (match r with Ok _ => Some AtWhile | Raise _ => None end) w1.

Lemma put_loop_twice t q q' w : put_loop t q (put_loop t q' w) = put_loop t q w.
Proof using.
  unfold put_loop, put_threads. cbn. f_equal. apply map_eq. intros i. destruct (decide (i = t)) as [->|Hne].
  - by rewrite !lookup_partial_alter_eq.
  - by rewrite !lookup_partial_alter_ne by done.
Qed.

Lemma put_loop_here t p w : ag_loops (put_loop t (Some p) w) !! t = Some p.
Proof using. cbn. by rewrite lookup_partial_alter_eq. Qed.

Lemma put_loop_same t p w : ag_loops w !! t = Some p → put_loop t (Some p) w = w.
Proof using.
  intros Hp. destruct w as [s r loops th n st go]. unfold put_loop, put_threads. cbn in *. f_equal.
  apply map_eq. intros i. destruct (decide (i = t)) as [->|Hne]; [by rewrite lookup_partial_alter_eq|by rewrite lookup_partial_alter_ne].
Qed.

(** The statements do not look at where loops stand. *)
Lemma step_elsewhere jitter p t q w :
  one_step jitter p (put_loop t q w) = let '(r, w1) := one_step jitter p w in (r, put_loop t q w1).
Proof using.
  destruct p as [| | | |n|e rest|e rest counts|batch|batch|exc|exc errors]; try done;
    unfold one_step, loop_step, record_error; rewrite !(run_bind _ _ (put_loop t q w)), !(run_bind _ _ w);
    unfold on_database; cbn [ag_store put_loop put_threads].
  - by destruct (push_batch batch (ag_store w)) as [[ack|e] s].
  - cbn [now_utc gets]. unfold mbind, prog_bind, lift. cbn. by destruct (backoff config errors jitter).
Qed.

(** Loop [t] goes from [p] to [q] on its own. *)
Definition walk (orderly : bool) (t : nat) (p : phase) (w : agent) (log : list SyncBatch) (q : option phase) (w' : agent) : Prop :=
  agent_run orderly (put_loop t (Some p) w) log (put_loop t q w').

Lemma walk_step orderly t jitter p w r w1 log q w2 :
  p ≠ AtPause → one_step jitter p w = (r, w1) →
  match step_outcome p r with
  | Some p' => walk orderly t p' w1 log q w2
  | None => log = [] ∧ q = None ∧ w2 = w1
  end →
  walk orderly t p w (acknowledged p w ++ log) q w2.
Proof using.
  intros Hp Hstep Hrest. unfold walk in *. pose proof (put_loop_here t p w) as Hhere.
  assert (acknowledged p w = acknowledged p (put_loop t (Some p) w)) as -> by by destruct p.
  apply (run_step orderly t jitter p); [done|unfold may_advance; rewrite Hhere; by destruct p|].
  assert (move t jitter (put_loop t (Some p) w) = put_loop t (step_outcome p r) w1) as ->.
  { unfold move, advance_loop. rewrite Hhere. fold one_step. rewrite step_elsewhere, Hstep. apply put_loop_twice. }
  destruct (step_outcome p r) as [p'|]; [exact Hrest|]. destruct Hrest as (-> & -> & ->). apply run_done.
Qed.

(** A statement that acknowledges nothing. *)
Lemma walk_silent orderly t jitter p w r w1 log q w2 :
  p ≠ AtPause → acknowledged p w = [] → one_step jitter p w = (r, w1) →
  match step_outcome p r with
  | Some p' => walk orderly t p' w1 log q w2
  | None => log = [] ∧ q = None ∧ w2 = w1
  end →
  walk orderly t p w log q w2.
Proof using.
  intros Hp Hlog Hstep Hrest. pose proof (walk_step orderly t jitter p w r w1 log q w2 Hp Hstep Hrest) as Hw.
  by rewrite Hlog in Hw.
Qed.

Lemma walk_done orderly t p w : walk orderly t p w [] (Some p) w.
Proof using. apply run_done. Qed.

(** The statement whose run is [H]. *)
Ltac walk_on jitter H :=
  eapply (walk_silent _ _ jitter); [done|done|unfold one_step, loop_step; rewrite run_bind, H; reflexivity|cbn [step_outcome in_cycle]].

Lemma walk_cycle orderly t (jitter : QArith_base.Q) w :
  let '(r, w1) := cycle w in
  walk orderly t AtCycle w (delivered w) (Some match r with Ok _ => AtWhile | Raise e => AtError e end) w1.
Proof using.
  unfold cycle, _sync_cycle, delivered, next, next_batch. rewrite !run_bind. cbn [agent_status gets]. rewrite !run_bind.
  set (n := sn_sequence _).
  assert (H : ∀ log q w2, walk orderly t (AtQuery n) w log q w2 → walk orderly t AtCycle w log q w2)
    by (intros log q w2 Hw; by eapply (walk_silent _ _ jitter)).
  destruct (on_database (_query_new_entries config n) w) as [[[|e rest]|e] w1] eqn:Hq.
  1, 3: apply H; walk_on jitter Hq; apply walk_done.
  rewrite !run_bind. destruct (on_database _count_resources w1) as [[counts|x] w2] eqn:Hc.
  2: apply H; walk_on jitter Hq; walk_on jitter Hc; apply walk_done.
  rewrite !run_bind. destruct (on_database (_build_batch _ _ _ _ e rest counts) w2) as [[b|x] w3] eqn:Hb.
  2: apply H; walk_on jitter Hq; walk_on jitter Hc; walk_on jitter Hb; apply walk_done.
  cbn [mret prog_ret]. rewrite run_bind.
  assert (H' : ∀ log q w4, walk orderly t (AtPush b) w3 log q w4 → walk orderly t AtCycle w log q w4)
    by (intros log q w4 Hw; apply H; walk_on jitter Hq; walk_on jitter Hc; walk_on jitter Hb; exact Hw).
  rewrite <-(app_nil_r (acknowledged _ _)). destruct (on_database (push_batch b) w3) as [[ack|x] w4] eqn:Hp.
  2: apply H'; eapply (walk_step _ _ jitter); [done|unfold one_step, loop_step; by rewrite run_bind, Hp|apply walk_done].
  assert (Hack : one_step jitter (AtPush b) w3 = (Ok (Some (if ak_accepted ack then AtWatermark b else AtWhile)), w4))
    by (unfold one_step, loop_step; by rewrite run_bind, Hp).
  destruct (ak_accepted ack); [|apply H'; eapply walk_step; [done|exact Hack|apply walk_done]].
  destruct (_update_watermark (sb_last b) (sb_chain_hash b) (sb_id b) w4) as [r w5] eqn:Hu. apply H'.
  eapply walk_step; [done|exact Hack|]. cbn [step_outcome]. destruct r; walk_on jitter Hu; apply walk_done.
Qed.

Lemma walk_trans orderly t p w log q w1 log' q' w2 :
  walk orderly t p w log (Some q) w1 → walk orderly t q w1 log' q' w2 → walk orderly t p w (log ++ log') q' w2.
Proof using.
  unfold walk. generalize (put_loop t (Some p) w), (put_loop t (Some q) w1), (put_loop t q' w2). intros a b c Hab Hbc.
  induction Hab as [x|x j p' y l z Hp Hm _ IH|op y l z Hf _ IH|s y l z Hg _ IH|y l z Hno _ IH]; [done|..].
  - rewrite <-app_assoc. eapply run_step; eauto.
  - eapply run_call; eauto.
  - eapply run_recorded; eauto.
  - eapply run_restart; eauto.
Qed.

(** A turn of the loop, as the code has it, is a run of its statements. *)
Theorem turn_is_steps orderly t jitter w :
  ag_loops w !! t = Some AtCycle → agent_run orderly w (delivered w) (after_turn t jitter w).
Proof using.
  intros Ht. rewrite <-(put_loop_same t AtCycle w Ht) at 1. pose proof (walk_cycle orderly t jitter w) as Hcycle.
  unfold after_turn, one_turn, turn. fold cycle. destruct (cycle w) as [[u|e] w1]; [exact Hcycle|].
  rewrite <-(app_nil_r (delivered w)). unfold _handle_error. rewrite !run_bind. cbn [agent_status gets]. rewrite !run_bind.
  cbn [on_database now_utc gets]. rewrite !run_bind. cbn [update_row modify]. set (n := S _). set (w2 := put_row _ _).
  assert (Hstep : one_step jitter (AtBackoff e n) w1 =
    (match backoff config n jitter with Ok _ => Ok (Some AtWhile) | Raise e => Raise e end, w2)).
  { unfold one_step, loop_step, record_error. rewrite run_bind. cbn [on_database now_utc gets]. rewrite run_bind. cbn [update_row modify].
    unfold mbind, prog_bind, lift. by destruct (backoff config n jitter). }
  assert (Hback : walk orderly t (AtBackoff e n) w1 [] (match backoff config n jitter with Ok _ => Some AtWhile | Raise _ => None end) w2).
  { eapply (walk_silent _ _ jitter); [done|done|exact Hstep|]. destruct (backoff config n jitter); [apply walk_done|done]. }
  assert (Herr : walk orderly t (AtError e) w1 [] (match backoff config n jitter with Ok _ => Some AtWhile | Raise _ => None end) w2)
    by (by eapply (walk_silent _ _ jitter)).
  pose proof (walk_trans _ _ _ _ _ _ _ _ _ _ Hcycle Herr) as Hrun. unfold lift. by destruct (backoff config n jitter).
Qed.

(** ** Catching up *)

Fixpoint turns (n : nat) (jitter : QArith_base.Q) : agp unit :=
  match n with O => mret tt | S n => one_turn jitter ;; turns n jitter end.

Lemma above_dropped m n l e rest :
  seq_sorted l → take n (above m l) = e :: rest → above (te_sequence (List.last rest e)) l = drop n (above m l).
Proof using.
  intros Hs Ht. destruct (between_taken m n l e rest Hs Ht) as (_ & Hlt & _).
  assert (Habove : seq_sorted (above m l)) by (eapply sublist_sorted; [apply sublist_filter|done]).
  assert (E : above (te_sequence (List.last rest e)) l = above (te_sequence (List.last rest e)) (above m l)).
  { unfold above. rewrite list_filter_filter. apply list_filter_iff. intros x. lia. }
  pose proof (take_drop n (above m l)) as Hsplit. rewrite Ht in Hsplit. rewrite E. rewrite <-Hsplit at 1. unfold above at 1.
  rewrite <-Hsplit in Habove. rewrite filter_app.
  assert (filter (λ x, te_sequence (List.last rest e) < te_sequence x) (e :: rest) = []) as ->.
  { apply filter_nil_iff. intros x Hx. pose proof (sorted_last e rest _ x Habove Hx). lia. }
  apply filter_all_iff. intros x Hx. eapply (sorted_app_lt (e :: rest)); [exact Habove|apply last_elem|done].
Qed.

(** With a plane that accepts everything a turn takes one batch off what is pending. *)
Lemma turn_takes jitter w :
  (∀ b w, ∃ ack, push_batch b w = (Ok ack, w) ∧ ak_accepted ack = true) → seq_sorted (agent_trail w) → is_Some (ag_row w) →
  ∃ w', one_turn jitter w = (Ok tt, w') ∧ seq_sorted (agent_trail w') ∧ is_Some (ag_row w') ∧
    pending w' = drop (batch_size config) (pending w).
Proof using.
  intros Haccept Hs [x Hx]. unfold one_turn, turn, _sync_cycle. rewrite run_bind. fold next.
  pose proof (next_batch_run w Hs) as Hnext. destruct (take (batch_size config) (pending w)) as [|e rest] eqn:Htake.
  { rewrite Hnext. exists w. split_and!; [done..|by exists x|].
    pose proof (take_drop (batch_size config) (pending w)) as Hsplit. rewrite Htake in Hsplit. by symmetry. }
  destruct Hnext as (b & s & -> & Hdb & _ & Hlast). rewrite run_bind. unfold on_database at 1.
  cbn [ag_store put_database]. destruct (Haccept b s) as (ack & -> & ->).
  unfold _update_watermark. rewrite run_bind. cbn [on_database now_utc gets update_row modify].
  eexists. split; [reflexivity|].
  assert (Htrail : t_trail (st_db s) = agent_trail w) by (unfold agent_trail; by rewrite Hdb).
  unfold pending, agent_trail, mark. cbn. rewrite Hx, Htrail. cbn. split_and!; [done|by eexists|]. rewrite Hlast.
  unfold pending, mark in Htake. rewrite Hx in Htake. exact (above_dropped _ _ _ _ _ Hs Htake).
Qed.

(** With a plane that accepts what it gets, as many turns as there are full or
    started batches of pending entries push everything: then nothing is pending. *)
Theorem sync_catches_up n jitter w :
  (∀ b w, ∃ ack, push_batch b w = (Ok ack, w) ∧ ak_accepted ack = true) →
  agent_ok w → is_Some (ag_row w) → length (pending w) ≤ n * batch_size config →
  ∃ w', turns n jitter w = (Ok tt, w') ∧ pending w' = [].
Proof using.
  intros Haccept [Hs _ _] Hrow. revert w Hs Hrow. induction n as [|n IH]; intros w Hs Hrow Hlen.
  { exists w. split; [done|]. apply length_zero_iff_nil. lia. }
  destruct (turn_takes jitter w Haccept Hs Hrow) as (w1 & Hrun & Hs1 & Hrow1 & Hpending).
  cbn [turns]. rewrite run_bind, Hrun. apply IH; [done..|]. rewrite Hpending, length_drop. lia.
Qed.

(** ** What leaves the house *)

Definition without_states (e : TraceEntry) : TraceEntry := {|
  te_id := te_id e; te_sequence := te_sequence e; te_actor := te_actor e; te_action := te_action e;
  te_target_type := te_target_type e; te_target_id := te_target_id e; te_timestamp := te_timestamp e;
  te_hash := te_hash e; te_previous_hash := te_previous_hash e; te_scope := te_scope e; te_before := None;
  te_after := None; te_metadata := te_metadata e; te_parent := te_parent e |}.

(** The same but for the states in the trail and everything else that is stored about
    objects, principals and scopes, except how many of them are active. *)
Definition actives {X} (lifecycle : X → Lifecycle) (l : list X) : nat :=
  length (filter (λ x, bool_decide (lifecycle x = ACTIVE) = true) l).

Definition same_structure (s1 s2 : store) : Prop :=
  without_states <$> t_trail (st_db s1) = without_states <$> t_trail (st_db s2) ∧
  actives so_lifecycle (t_objects (st_db s1)) = actives so_lifecycle (t_objects (st_db s2)) ∧
  actives pc_lifecycle (principals (st_db s1)) = actives pc_lifecycle (principals (st_db s2)) ∧
  actives sc_lifecycle (t_scopes (st_db s1)) = actives sc_lifecycle (t_scopes (st_db s2)) ∧
  st_now s1 = st_now s2 ∧ st_next s1 = st_next s2.

Lemma metadata_of_structure m n l :
  sync_metadata <$> take n (above m l) = sync_metadata <$> take n (above m (without_states <$> l)).
Proof using.
  assert (above m (without_states <$> l) = without_states <$> above m l) as ->.
  { unfold above. induction l as [|e l IH]; [done|]. rewrite fmap_cons, !filter_cons. cbn. case_decide; cbn; by rewrite IH. }
  rewrite <-fmap_take, <-list_fmap_compose. apply list_fmap_ext. by intros.
Qed.

Lemma sorted_structure (l k : list TraceEntry) : without_states <$> l = without_states <$> k → seq_sorted l → seq_sorted k.
Proof using.
  revert k. induction l as [|e l IH]; intros [|e' k] H Hs; try done.
  rewrite !fmap_cons in H. assert (Hseq : te_sequence e = te_sequence e') by (by injection H).
  assert (Hrest : without_states <$> l = without_states <$> k) by (by injection H).
  apply StronglySorted_inv in Hs as [Hs He]. constructor; [by apply IH|]. rewrite Forall_forall in He |- *.
  intros y Hy. apply (list_elem_of_fmap_2 without_states) in Hy. rewrite <-Hrest in Hy.
  apply list_elem_of_fmap in Hy as (z & Hz & Hin). specialize (He z Hin). unfold seq_lt in *.
  assert (te_sequence y = te_sequence z) by (by injection Hz). lia.
Qed.

Lemma count_run w :
  on_database _count_resources w = (Ok {|
    rc_objects := actives so_lifecycle (t_objects (st_db (ag_store w)));
    rc_principals := actives pc_lifecycle (principals (st_db (ag_store w)));
    rc_scopes := actives sc_lifecycle (t_scopes (st_db (ag_store w)));
    rc_at := st_now (ag_store w) |}, w).
Proof using. by destruct w. Qed.

(** C31: The batch that goes out does not depend on any customer data: two databases that
    agree on the columns of the trail other than the states, and on how many objects,
    principals and scopes are active, give the same batch, bit for bit, at the same
    instant, from the same watermark and under the same batch id. *)
Theorem sync_carries_no_data w1 w2 :
  seq_sorted (agent_trail w1) → ag_row w1 = ag_row w2 → same_structure (ag_store w1) (ag_store w2) →
  (next w1).1 = (next w2).1.
Proof using.
  intros Hs Hrow (Htrail & Hobj & Hpc & Hsc & Hnow & Hid). pose proof (sorted_structure _ _ Htrail Hs) as Hs2.
  unfold next, next_batch. rewrite !(run_bind _ _ w1), !(run_bind _ _ w2). cbn [agent_status gets]. rewrite <-Hrow.
  rewrite (run_bind _ _ w1), (run_bind _ _ w2), !query_run by done.
  rewrite (metadata_of_structure _ _ (agent_trail w1)), (metadata_of_structure _ _ (agent_trail w2)).
  unfold agent_trail. rewrite Htrail. destruct (sync_metadata <$> _) as [|e rest]; [done|].
  rewrite (run_bind _ _ w1), (run_bind _ _ w2), !count_run.
  rewrite Hobj, Hpc, Hsc, Hnow.
  set (counts := Build_ResourceCounts _ _ _ _). clearbody counts.
  unfold on_database, _build_batch, generate_id, now_utc, gets, modify, mbind, prog_bind. cbn. by rewrite Hnow, Hid.
Qed.

(** A thousand failures in a row end the thread: the delay cannot be computed. *)
Lemma outage_ends_thread t jitter e w w1 x :
  cycle w = (Raise e, w1) → ag_row w1 = Some x → 1023 ≤ ss_errors x →
  ag_loops (after_turn t jitter w) !! t = None ∧ (ss_status <$> ag_row (after_turn t jitter w)) = Some SYNC_ERROR.
Proof using.
  intros Hc Hx Hn. unfold after_turn, one_turn, turn. fold cycle. rewrite Hc. unfold _handle_error.
  rewrite !run_bind. cbn [agent_status gets]. rewrite Hx. rewrite run_bind. cbn [on_database now_utc gets]. rewrite run_bind.
  cbn [update_row modify]. unfold lift, backoff. cbn [from_option state_snapshot sn_errors].
  rewrite (proj2 (Nat.leb_le 1024 (S (ss_errors x)))) by lia. cbn. split.
  - by rewrite lookup_partial_alter_eq.
  - by rewrite Hx.
Qed.
End Delivery.
