(* ===== verification/Portability.v ===== *)
(** * Legacy v1: export and import of objects (objects/export.py, import_.py)

    Packages of objects with their versions, their JSON, the streams of one object to
    a line, and the import under new ids.  A JSON value in a field of another type than
    its annotation leaves the model: [Untyped]. *)

From Stdlib Require Import Ascii.
From S2P Require Context.
From S2P Require Import Prelude LegacyTypes Schema Json JsonParse Trail Objects.

(** ** Reading documents *)

Inductive parsed (A : Type) := Parsed (a : A) | Failed (e : exn) | Untyped.
Arguments Parsed {A} a.
Arguments Failed {A} e.
Arguments Untyped {A}.

#[export] Instance parsed_ret : MRet parsed := @Parsed.
#[export] Instance parsed_bind : MBind parsed := λ A B f r,
  match r with Parsed a => f a | Failed e => Failed e | Untyped => Untyped end.

Fixpoint parse_all {A B} (f : A → parsed B) (l : list A) : parsed (list B) :=
  match l with [] => mret [] | x :: l => y ← f x; ys ← parse_all f l; mret (y :: ys) end.

(** [d[k]]. *)
Definition item (d : jdict) (k : string) : parsed jval :=
  match jget d k with Some v => Parsed v | None => Failed (KeyError k) end.

Definition as_str (v : jval) : parsed string := match v with JVstr s => Parsed s | _ => Untyped end.
Definition as_nat (v : jval) : parsed nat :=
  match v with JVint z => if (0 <=? z)%Z then Parsed (Z.to_nat z) else Untyped | _ => Untyped end.
Definition as_dict (v : jval) : parsed jdict := match v with JVdict d => Parsed d | _ => Untyped end.
Definition as_list (v : jval) : parsed (list jval) := match v with JVlist l => Parsed l | _ => Untyped end.

Definition str_item (d : jdict) (k : string) : parsed string := item d k ≫= as_str.
Definition nat_item (d : jdict) (k : string) : parsed nat := item d k ≫= as_nat.

(** ** The package *)

Definition FORMAT_VERSION : string := "1.0".

Record ExportedVersion := {
  xv_version : nat; xv_data : jdict; xv_created_at : string; xv_created_by : string; xv_reason : string;
  xv_checksum : string;
}.

Record ExportedObject := {
  xo_id : string; xo_type : string; xo_owner : string; xo_created_at : string; xo_lifecycle : string;
  xo_versions : list ExportedVersion;
}.

Record ExportManifest := {
  xm_format : string; xm_at : string; xm_by : string; xm_objects : nat; xm_versions : nat;
}.

Record ExportPackage := { xp_manifest : ExportManifest; xp_objects : list ExportedObject }.

Definition jnat (n : nat) : jval := JVint (Z.of_nat n).

Definition version_dict (v : ExportedVersion) : jval := JVdict [
  ("version", jnat (xv_version v)); ("data", JVdict (xv_data v)); ("created_at", JVstr (xv_created_at v));
  ("created_by", JVstr (xv_created_by v)); ("change_reason", JVstr (xv_reason v)); ("checksum", JVstr (xv_checksum v))].

Definition object_dict (o : ExportedObject) : jval := JVdict [
  ("id", JVstr (xo_id o)); ("object_type", JVstr (xo_type o)); ("owner_id", JVstr (xo_owner o));
  ("created_at", JVstr (xo_created_at o)); ("lifecycle", JVstr (xo_lifecycle o));
  ("versions", JVlist (version_dict <$> xo_versions o))].

Definition package_to_dict (p : ExportPackage) : jval := JVdict [
  ("manifest", JVdict [
    ("format_version", JVstr (xm_format (xp_manifest p))); ("exported_at", JVstr (xm_at (xp_manifest p)));
    ("exported_by", JVstr (xm_by (xp_manifest p))); ("object_count", jnat (xm_objects (xp_manifest p)));
    ("version_count", jnat (xm_versions (xp_manifest p)))]);
  ("objects", JVlist (object_dict <$> xp_objects p))].

Definition package_to_json (p : ExportPackage) : string := json_text (package_to_dict p).

(** [reason]: how the change reason is looked up; the stream gives it a default. *)
Definition read_version (reason : jdict → parsed string) (v : jval) : parsed ExportedVersion :=
  d ← as_dict v;
  version ← nat_item d "version";
  data ← item d "data" ≫= as_dict;
  created_at ← str_item d "created_at";
  created_by ← str_item d "created_by";
  why ← reason d;
  checksum ← str_item d "checksum";
  mret {| xv_version := version; xv_data := data; xv_created_at := created_at; xv_created_by := created_by;
    xv_reason := why; xv_checksum := checksum |}.

Definition _parse_exported_version : jval → parsed ExportedVersion :=
  read_version (λ d, match jget d "change_reason" with Some v => as_str v | None => Parsed "" end).

(** [versions]: how the list of versions is looked up. *)
Definition read_object (versions : jdict → parsed (list ExportedVersion)) (d : jdict) : parsed ExportedObject :=
  id ← str_item d "id";
  type ← str_item d "object_type";
  owner ← str_item d "owner_id";
  created_at ← str_item d "created_at";
  lifecycle ← str_item d "lifecycle";
  vs ← versions d;
  mret {| xo_id := id; xo_type := type; xo_owner := owner; xo_created_at := created_at; xo_lifecycle := lifecycle;
    xo_versions := vs |}.

Definition listed_versions (d : jdict) : parsed (list ExportedVersion) :=
  l ← item d "versions" ≫= as_list; parse_all (read_version (λ d, str_item d "change_reason")) l.

Definition package_from_dict (data : jval) : parsed ExportPackage :=
  data ← as_dict data;
  m ← item data "manifest" ≫= as_dict;
  format ← str_item m "format_version";
  exported_at ← str_item m "exported_at";
  exported_by ← str_item m "exported_by";
  object_count ← nat_item m "object_count";
  version_count ← nat_item m "version_count";
  l ← item data "objects" ≫= as_list;
  objects ← parse_all (λ v, as_dict v ≫= read_object listed_versions) l;
  mret {| xp_manifest := {| xm_format := format; xm_at := exported_at; xm_by := exported_by; xm_objects := object_count;
      xm_versions := version_count |};
    xp_objects := objects |}.

Definition package_from_json (raw : string) : parsed ExportPackage :=
  match json_loads raw with
  | Some v => package_from_dict v
  | None => Failed (ValueError "JSONDecodeError")
  end.

(** ** Export *)

Section Exporting.
Context `{host : !Host}.

Definition exported_version (v : ObjectVersion) : ExportedVersion := {|
  xv_version := ov_version v; xv_data := ov_data v; xv_created_at := isoformat (ov_created_at v);
  xv_created_by := ov_created_by v; xv_reason := ov_reason v; xv_checksum := ov_checksum v |}.

Definition exported_object (o : ScopedObject) (rows : list ObjectVersion) : ExportedObject := {|
  xo_id := so_id o; xo_type := so_type o; xo_owner := so_owner o; xo_created_at := isoformat (so_created_at o);
  xo_lifecycle := lifecycle_name (so_lifecycle o); xo_versions := exported_version <$> rows |}.

Definition owned_row (id principal : string) (o : ScopedObject) : bool :=
  of_object id o && bool_decide (so_owner o = principal).

(** The rows of one object, which a stream and a package are made of. *)
Definition export_row (principal id : string) : lp (option ExportedObject) :=
  obj ← fetch_one t_objects (owned_row id principal);
  match obj with
  | None => mret None
  | Some o =>
      rows ← select_sorted t_object_versions (λ v, bool_decide (ov_object v = id)) by_object_version;
      mret (Some (exported_object o rows))
  end.

Definition export_objects (ids : list string) (principal : string) : lp ExportPackage :=
  exported ← for_fold ids ([], 0) (λ acc id,
    row ← export_row principal id;
    mret (match row with Some o => (acc.1 ++ [o], acc.2 + length (xo_versions o)) | None => acc end));
  ts ← now_utc;
  mret {| xp_manifest := {| xm_format := FORMAT_VERSION; xm_at := isoformat ts; xm_by := principal;
      xm_objects := length exported.1; xm_versions := exported.2 |};
    xp_objects := exported.1 |}.

Definition export_object (id principal : string) : lp ExportPackage := export_objects [id] principal.

Definition typed_row (type principal : string) (o : ScopedObject) : bool :=
  bool_decide (so_type o = type) && bool_decide (so_owner o = principal).

Definition export_by_type (type principal : string) (limit : nat) : lp ExportPackage :=
  rows ← select t_objects (typed_row type principal);
  export_objects (so_id <$> take limit rows) principal.

(** *** Streams: what an iteration that is not interrupted yields *)

Definition manifest_line (ts : Z) (principal : string) : string := json_text (JVdict [
  ("_type", JVstr "manifest"); ("format_version", JVstr FORMAT_VERSION); ("exported_at", JVstr (isoformat ts));
  ("exported_by", JVstr principal)]).

Definition _export_object_line (principal id : string) : lp (option string) :=
  row ← export_row principal id; mret ((λ o, json_text (object_dict o)) <$> row).

Definition export_lines (ids : list string) (principal : string) : lp (list string) :=
  for_fold ids [] (λ acc id, line ← _export_object_line principal id; mret (acc ++ option_list line)).

Definition stream_export (ids : list string) (principal : string) : lp (list string) :=
  ts ← now_utc;
  lines ← export_lines ids principal;
  mret (manifest_line ts principal :: lines).

(** The pages from [offset] on; None when the fuel ends. *)
Fixpoint type_pages (fuel : nat) (type principal : string) (batch_size offset : nat) : lp (option (list string)) :=
  match fuel with
  | O => mret None
  | S fuel =>
      rows ← select t_objects (typed_row type principal);
      match so_id <$> take batch_size (drop offset rows) with
      | [] => mret (Some [])
      | ids =>
          lines ← export_lines ids principal;
          rest ← type_pages fuel type principal batch_size (offset + batch_size);
          mret (app lines <$> rest)
      end
  end.

Definition stream_export_by_type (type principal : string) (batch_size : nat) : lp (option (list string)) :=
  ts ← now_utc;
  n ← gets (λ s, length (t_objects (st_db s)));
  lines ← type_pages (S n) type principal batch_size 0;
  mret (cons (manifest_line ts principal) <$> lines).
End Exporting.

(** ** Import *)

Record ImportResult := {
  ir_imported : nat; ir_skipped : nat; ir_versions : nat; ir_mapping : list (string * string); ir_errors : list string;
}.

Definition no_import : ImportResult := {|
  ir_imported := 0; ir_skipped := 0; ir_versions := 0; ir_mapping := []; ir_errors := [] |}.

(** [result.id_mapping[old] = new]. *)
Definition mapping_set (m : list (string * string)) (old new : string) : list (string * string) :=
  if existsb (λ x, bool_decide (x.1 = old)) m
  then (λ x, if bool_decide (x.1 = old) then (old, new) else x) <$> m
  else m ++ [(old, new)].

Definition mapping_get (m : list (string * string)) (old : string) : option string :=
  snd <$> find (λ x, bool_decide (x.1 = old)) m.

Definition skipped (r : ImportResult) : ImportResult := {|
  ir_imported := ir_imported r; ir_skipped := S (ir_skipped r); ir_versions := ir_versions r;
  ir_mapping := ir_mapping r; ir_errors := ir_errors r |}.

Definition with_error (msg : string) (r : ImportResult) : ImportResult := {|
  ir_imported := ir_imported r; ir_skipped := S (ir_skipped r); ir_versions := ir_versions r;
  ir_mapping := ir_mapping r; ir_errors := ir_errors r ++ [msg] |}.

Definition imported (o : ExportedObject) (new_id : string) (r : ImportResult) : ImportResult := {|
  ir_imported := S (ir_imported r); ir_skipped := ir_skipped r;
  ir_versions := ir_versions r + length (xo_versions o);
  ir_mapping := mapping_set (ir_mapping r) (xo_id o) new_id; ir_errors := ir_errors r |}.

(** A filter of the type that is given and not met. *)
Definition filtered_out (filter : option string) (type : option jval) : bool :=
  match filter with
  | Some f => negb (bool_decide (f = "")) &&
      negb (match type with Some (JVstr t) => bool_decide (t = f) | _ => false end)
  | None => false
  end.

Section Importing.
Context `{host : !Host} (known_principal : string → bool).
(** [str(exc)], and that of what [json.loads] raises for a line. *)
Context (exc_text : exn → string) (decode_error : string → string).

Definition import_version (principal new_id : string) (ts : Z) (recompute : bool) (v : ExportedVersion) : lp unit :=
  version_id ← generate_id;
  _persist_version_in_txn {|
    ov_id := version_id; ov_object := new_id; ov_version := xv_version v; ov_data := xv_data v; ov_created_at := ts;
    ov_created_by := principal; ov_reason := if bool_decide (xv_reason v = "") then "imported" else xv_reason v;
    ov_checksum := if recompute then compute_checksum (xv_data v) else xv_checksum v |}.

(** Statement by statement, in no transaction. *)
Definition _import_object (principal : string) (recompute : bool) (exported : ExportedObject) : lp string :=
  new_id ← generate_id;
  ts ← now_utc;
  _persist_object_in_txn known_principal {|
    so_id := new_id; so_type := xo_type exported; so_owner := principal;
    so_version := length (xo_versions exported); so_created_at := ts; so_lifecycle := ACTIVE; so_registry := None |} ;;
  for_each (xo_versions exported) (import_version principal new_id ts recompute) ;;
  mret new_id.

Definition import_error (id : string) (e : exn) : string := "Failed to import object " +:+ id +:+ ": " +:+ exc_text e.

(** The [try] around an object. *)
Definition import_attempt (principal : string) (recompute : bool) (result : ImportResult) (o : ExportedObject)
  : lp ImportResult :=
  r ← try (_import_object principal recompute o);
  mret (match r with
    | Ok new_id => imported o new_id result
    | Raise e => with_error (import_error (xo_id o) e) result
    end).

Definition import_package (package : ExportPackage) (principal : string) (filter : option string) (recompute : bool)
  : lp ImportResult :=
  for_fold (xp_objects package) no_import (λ result o,
    if filtered_out filter (Some (JVstr (xo_type o))) then mret (skipped result)
    else import_attempt principal recompute result o).

(** None when the document leaves the model. *)
Definition import_parsed (package : parsed ExportPackage) (principal : string) (filter : option string)
  (recompute : bool) : lp (option ImportResult) :=
  match package with
  | Parsed p => (r ← import_package p principal filter recompute; mret (Some r))
  | Failed e => raise e
  | Untyped => mret None
  end.

Definition import_from_dict (data : jval) : string → option string → bool → lp (option ImportResult) :=
  import_parsed (package_from_dict data).

Definition import_from_json (raw : string) : string → option string → bool → lp (option ImportResult) :=
  import_parsed (package_from_json raw).

(** *** Streams *)

Definition streamed_versions (d : jdict) : parsed (list ExportedVersion) :=
  l ← as_list (default (JVlist []) (jget d "versions")); parse_all _parse_exported_version l.

(** [line.strip()]. *)
Fixpoint strip_head (s : string) : string :=
  match s with String c s' => if Context.py_isspace c then strip_head s' else s | EmptyString => s end.

Fixpoint strip_tail (s : string) : string :=
  match s with
  | EmptyString => EmptyString
  | String c s' =>
      match strip_tail s' with
      | EmptyString => if Context.py_isspace c then EmptyString else String c EmptyString
      | r => String c r
      end
  end.

Definition py_strip (s : string) : string := strip_tail (strip_head s).

(** One line; a document that is no dict has no [get]. *)
Definition import_line (principal : string) (filter : option string) (recompute : bool) (raw : string)
  (result : ImportResult) : lp (option ImportResult) :=
  let line := py_strip raw in
  if bool_decide (line = "") then mret (Some result)
  else match json_loads line with
    | None => mret (Some (with_error ("Invalid JSON line: " +:+ decode_error line) result))
    | Some (JVdict data) =>
        if match jget data "_type" with Some (JVstr t) => bool_decide (t = "manifest") | _ => false end
        then mret (Some result)
        else if filtered_out filter (jget data "object_type") then mret (Some (skipped result))
        else match read_object streamed_versions data with
          | Parsed o => r ← import_attempt principal recompute result o; mret (Some r)
          | Failed e => mret (Some (with_error
              (import_error (from_option py_str_value "?" (jget data "id")) e) result))
          | Untyped => mret None
          end
    | Some _ => raise (AttributeError "get")
    end.

Definition stream_import (lines : list string) (principal : string) (filter : option string) (recompute : bool)
  : lp (option ImportResult) :=
  for_fold lines (Some no_import) (λ result raw,
    match result with Some r => import_line principal filter recompute raw r | None => mret None end).
End Importing.

(** ** Round trips of the documents *)

Lemma parse_all_fmap {A B} (f : A → parsed B) (g : B → A) l :
  (∀ x, x ∈ l → f (g x) = Parsed x) → parse_all f (g <$> l) = Parsed l.
Proof.
  induction l as [|x l IH]; intros H; [done|]. cbn [fmap list_fmap parse_all]. rewrite H by left.
  cbn [mbind parsed_bind]. fold (g <$> l). rewrite IH; [done|]. intros y Hy. apply H. by right.
Qed.

Lemma as_nat_jnat n : as_nat (jnat n) = Parsed n.
Proof. unfold as_nat, jnat. rewrite (proj2 (Z.leb_le _ _)) by lia. by rewrite Nat2Z.id. Qed.

Lemma item_here d k v : item ((k, v) :: d) k = Parsed v.
Proof. unfold item, jget. simpl. by rewrite bool_decide_eq_true_2. Qed.

Lemma item_there d k k' v : k ≠ k' → item ((k, v) :: d) k' = item d k'.
Proof. intros H. unfold item, jget. simpl. by rewrite bool_decide_eq_false_2. Qed.

Lemma jget_here d k v : jget ((k, v) :: d) k = Some v.
Proof. unfold jget. simpl. by rewrite bool_decide_eq_true_2. Qed.

Lemma jget_there d k k' v : k ≠ k' → jget ((k, v) :: d) k' = jget d k'.
Proof. intros H. unfold jget. simpl. by rewrite bool_decide_eq_false_2. Qed.

(** Look up the fields of a document that is written out. *)
Ltac read_items :=
  unfold nat_item, str_item;
  repeat first [rewrite item_here|rewrite item_there by discriminate|rewrite jget_here|rewrite jget_there by discriminate
    |rewrite as_nat_jnat|progress cbn [mbind parsed_bind as_str as_dict as_list default from_option]].

Lemma read_version_back v :
  read_version (λ d, str_item d "change_reason") (version_dict v) = Parsed v ∧
  _parse_exported_version (version_dict v) = Parsed v.
Proof.
  destruct v as [n d c b r k]. unfold _parse_exported_version, read_version, version_dict.
  cbn [xv_version xv_data xv_created_at xv_created_by xv_reason xv_checksum]. by read_items.
Qed.

Lemma read_object_back (versions : jdict → parsed (list ExportedVersion)) o d :
  object_dict o = JVdict d → versions d = Parsed (xo_versions o) → read_object versions d = Parsed o.
Proof.
  destruct o as [id ty ow c l vs]. unfold object_dict. cbn [xo_id xo_type xo_owner xo_created_at xo_lifecycle xo_versions].
  intros [= <-] Hv. unfold read_object. read_items. by rewrite Hv.
Qed.

Lemma listed_versions_back o d : object_dict o = JVdict d → listed_versions d = Parsed (xo_versions o).
Proof.
  intros [= <-]. unfold listed_versions. read_items. apply parse_all_fmap. intros v _. apply read_version_back.
Qed.

Lemma streamed_versions_back o d : object_dict o = JVdict d → streamed_versions d = Parsed (xo_versions o).
Proof.
  intros [= <-]. unfold streamed_versions. read_items. apply parse_all_fmap. intros v _. apply read_version_back.
Qed.

Lemma package_back p : package_from_dict (package_to_dict p) = Parsed p.
Proof.
  destruct p as [[f a b n k] l]. unfold package_from_dict, package_to_dict.
  cbn [xp_manifest xp_objects xm_format xm_at xm_by xm_objects xm_versions]. read_items.
  rewrite parse_all_fmap; [done|]. intros o _. unfold object_dict at 1. cbn [as_dict mbind parsed_bind].
  apply (read_object_back _ o); [done|]. by apply listed_versions_back.
Qed.

(** What is in a package is JSON: no key twice. *)
Definition portable (o : ExportedObject) : bool := forallb (λ v, json_ok (JVdict (xv_data v))) (xo_versions o).

Lemma object_json_ok o : portable o = true → json_ok (object_dict o) = true.
Proof.
  unfold portable, object_dict. intros H. cbn [json_ok forallb snd]. rewrite !andb_true_iff. split_and!; try done.
  rewrite forallb_forall in *. intros x (v & <- & Hv)%in_map_iff. specialize (H v Hv). unfold version_dict.
  cbn [json_ok forallb snd] in *. by rewrite H.
Qed.

Lemma package_json_back p :
  forallb portable (xp_objects p) = true → package_from_json (package_to_json p) = Parsed p.
Proof.
  intros H. unfold package_from_json, package_to_json. rewrite json_roundtrip; [apply package_back|].
  unfold package_to_dict. cbn [json_ok forallb snd]. rewrite !andb_true_iff. split_and!; try done.
  rewrite forallb_forall in *. intros x (o & <- & Ho)%in_map_iff. by apply object_json_ok, H.
Qed.

(** ** Export *)

Section ExportTheory.
Context `{host : !Host}.

(** The object of a principal under an id, and what a package holds of it. *)
Definition owned_object (t : tables) (principal id : string) : option ScopedObject :=
  find (owned_row id principal) (t_objects t).

Definition export_of (t : tables) (principal id : string) : option ExportedObject :=
  (λ o, exported_object o (versions_of_object t id)) <$> owned_object t principal id.

Lemma owned_object_Some t principal id o :
  objects_ok t → owned_object t principal id = Some o ↔ o ∈ t_objects t ∧ so_id o = id ∧ so_owner o = principal.
Proof.
  intros Hok. unfold owned_object. split.
  - intros [Ho Hp]%find_Some_elem. unfold owned_row, of_object in Hp. rewrite andb_true_iff, !bool_decide_eq_true in Hp. tauto.
  - intros (Ho & Hid & Hown). destruct (find _ _) as [x|] eqn:Hf.
    + apply find_Some_elem in Hf as [Hx Hp]. unfold owned_row, of_object in Hp.
      rewrite andb_true_iff, !bool_decide_eq_true in Hp. f_equal. apply (objects_keyed t); [done..|]. naive_solver.
    + pose proof (find_None_elem _ _ o Hf Ho) as Hp. unfold owned_row, of_object in Hp.
      by rewrite !bool_decide_eq_true_2 in Hp.
Qed.

(** The rows of an object come in the order of their numbers. *)
Lemma versions_sorted t o :
  objects_ok t → o ∈ t_objects t →
  sort_by by_object_version (scan (filter (λ v, bool_decide (ov_object v = so_id o) = true) (t_object_versions t)))
    = versions_of_object t (so_id o).
Proof.
  intros Hok Ho. set (rows := scan _).
  assert (Hrows : rows ≡ₚ versions_of_object t (so_id o)).
  { unfold rows. rewrite scan_perm. apply reflexive_eq, list_filter_iff. intros v. by rewrite bool_decide_eq_true. }
  pose proof (ok_versions t Hok o Ho) as Hseq.
  apply (StronglySorted_unique_strong (leb_rel by_object_version)).
  - intros a b Ha Hb Hab Hba. rewrite elem_of_sort_by, Hrows in Ha. unfold leb_rel, by_object_version in *.
    rewrite Nat.leb_le in *. unfold versions_of_object in Ha, Hb. apply list_elem_of_filter in Ha as [Ha1 Ha2].
    apply list_elem_of_filter in Hb as [Hb1 Hb2]. apply (version_unique t); [done..|congruence|lia].
  - apply sort_by_sorted; intros a b; unfold by_object_version; intros; rewrite ?Nat.leb_le in *; lia.
  - assert (Hs : StronglySorted le (ov_version <$> versions_of_object t (so_id o))) by (rewrite Hseq; apply seq_strongly_sorted).
    revert Hs. generalize (versions_of_object t (so_id o)). intros l. induction l as [|v l IH]; [constructor|].
    rewrite fmap_cons. intros [Hs Hv]%StronglySorted_inv. constructor; [by apply IH|]. rewrite (Forall_fmap ov_version) in Hv.
    eapply Forall_impl; [exact Hv|]. intros w Hw. by apply Nat.leb_le.
  - by rewrite sort_by_perm, Hrows.
Qed.

Lemma export_row_run principal id s :
  objects_ok (st_db s) → export_row principal id s = (Ok (export_of (st_db s) principal id), s).
Proof.
  intros Hok. unfold export_row, export_of. rewrite run_bind.
  assert (Hfetch : fetch_one t_objects (owned_row id principal) s = (Ok (owned_object (st_db s) principal id), s)).
  { destruct (fetch_one t_objects (owned_row id principal) s) as [[r|e] s1] eqn:Hf; [|done].
    apply fetch_one_ok in Hf as [-> Hr]. do 2 f_equal. symmetry. destruct r as [o|].
    - apply owned_object_Some; [done|]. destruct Hr as [Ho Hp]. unfold owned_row, of_object in Hp.
      rewrite andb_true_iff, !bool_decide_eq_true in Hp. tauto.
    - destruct (owned_object _ _ _) as [o|] eqn:Ho; [|done]. unfold owned_object in Ho.
      apply find_Some_elem in Ho as [Ho Hp]. by rewrite (Hr o Ho) in Hp. }
  rewrite Hfetch. destruct (owned_object (st_db s) principal id) as [o|] eqn:Ho; [|done].
  apply owned_object_Some in Ho as (Ho & <- & _); [|done]. rewrite run_bind. unfold select_sorted, gets.
  by rewrite versions_sorted.
Qed.

(** A package holds every object that is there and is the principal's, in the order
    of the ids, each with all its versions, and its manifest counts them. *)
Lemma export_objects_run ids principal s :
  objects_ok (st_db s) →
  export_objects ids principal s = (Ok {|
    xp_manifest := {| xm_format := FORMAT_VERSION; xm_at := isoformat (st_now s); xm_by := principal;
      xm_objects := length (omap (export_of (st_db s) principal) ids);
      xm_versions := sum_list (length ∘ xo_versions <$> omap (export_of (st_db s) principal) ids) |};
    xp_objects := omap (export_of (st_db s) principal) ids |}, s).
Proof.
  intros Hok. unfold export_objects.
  assert (Hfold : ∀ l acc, for_fold ids acc (λ acc id,
    row ← export_row principal id;
    mret (match row with Some o => (acc.1 ++ [o], acc.2 + length (xo_versions o)) | None => acc end)) s = (Ok l, s) ↔
    l = (acc.1 ++ omap (export_of (st_db s) principal) ids,
         acc.2 + sum_list (length ∘ xo_versions <$> omap (export_of (st_db s) principal) ids))).
  { induction ids as [|id ids IH]; intros l [acc n]; cbn [for_fold omap list_omap].
    - cbn. rewrite app_nil_r, Nat.add_0_r. split; [by intros [= <-]|by intros ->].
    - rewrite run_bind, run_bind, export_row_run by done. cbn [mret prog_ret]. rewrite IH.
      destruct (export_of (st_db s) principal id) as [o|]; [|done]. cbn. by rewrite <-app_assoc, Nat.add_assoc. }
  rewrite run_bind. rewrite (proj2 (Hfold _ _) eq_refl). done.
Qed.

Lemma export_lines_run ids principal s :
  objects_ok (st_db s) →
  export_lines ids principal s =
    (Ok ((λ o, json_text (object_dict o)) <$> omap (export_of (st_db s) principal) ids), s).
Proof.
  intros Hok. unfold export_lines.
  assert (Hfold : ∀ acc, for_fold ids acc (λ acc id,
    line ← _export_object_line principal id; mret (acc ++ option_list line)) s =
    (Ok (acc ++ ((λ o, json_text (object_dict o)) <$> omap (export_of (st_db s) principal) ids)), s)); [|apply Hfold].
  induction ids as [|id ids IH]; intros acc; cbn [for_fold omap list_omap].
  - cbn. by rewrite app_nil_r.
  - rewrite run_bind, run_bind. unfold _export_object_line at 1. rewrite run_bind, export_row_run by done. cbn [mret prog_ret].
    rewrite IH. destruct (export_of (st_db s) principal id) as [o|]; cbn; [|by rewrite app_nil_r].
    by rewrite <-app_assoc.
Qed.
End ExportTheory.

(** ** Import *)

Section ImportTheory.
Context `{host : !Host}.

(** No row has an id that is still to come. *)
Record ids_unused (s : store) : Prop := {
  iu_objects : ∀ n, st_next s ≤ n → id_of n ∉ so_id <$> t_objects (st_db s);
  iu_versions : ∀ n, st_next s ≤ n → id_of n ∉ ov_id <$> t_object_versions (st_db s);
}.

Lemma id_of_inj m n : id_of m = id_of n → m = n.
Proof. intros H. apply (inj (String.append "id-")), (inj pretty) in H. done. Qed.

(** The rows that a list of versions becomes. *)
Fixpoint imported_rows (q new : string) (ts : Z) (recompute : bool) (n : nat) (vs : list ExportedVersion) : list ObjectVersion :=
  match vs with
  | [] => []
  | v :: vs => {| ov_id := id_of n; ov_object := new; ov_version := xv_version v; ov_data := xv_data v; ov_created_at := ts;
      ov_created_by := q; ov_reason := if bool_decide (xv_reason v = "") then "imported" else xv_reason v;
      ov_checksum := if recompute then compute_checksum (xv_data v) else xv_checksum v |} ::
      imported_rows q new ts recompute (S n) vs
  end.

Lemma imported_rows_elem q new ts b n vs x :
  x ∈ imported_rows q new ts b n vs →
  ov_object x = new ∧ ov_created_by x = q ∧ (∃ m, n ≤ m < n + length vs ∧ ov_id x = id_of m) ∧
  (b = true → ov_checksum x = compute_checksum (ov_data x)).
Proof.
  revert n. induction vs as [|v vs IH]; intros n; [by intros ?%elem_of_nil|]. cbn [imported_rows length].
  intros [-> |Hx]%elem_of_cons; cbn.
  - split_and!; [done|done|exists n; split; [lia|done]|by intros ->].
  - destruct (IH _ Hx) as (? & ? & (m & Hm & ?) & ?). split_and!; [done|done|exists m; split; [lia|done]|done].
Qed.

Lemma imported_rows_columns q new ts b n vs :
  ov_data <$> imported_rows q new ts b n vs = xv_data <$> vs ∧
  ov_version <$> imported_rows q new ts b n vs = xv_version <$> vs.
Proof. revert n. induction vs as [|v vs IH]; intros n; [done|]. cbn. destruct (IH (S n)) as [-> ->]. done. Qed.

Lemma import_versions_run q new ts b vs s :
  new ∈ so_id <$> t_objects (st_db s) →
  (∀ n, st_next s ≤ n → id_of n ∉ ov_id <$> t_object_versions (st_db s)) →
  (∀ x, x ∈ t_object_versions (st_db s) → ov_object x = new → ov_version x ∉ xv_version <$> vs) →
  NoDup (xv_version <$> vs) →
  for_each vs (import_version q new ts b) s = (Ok tt,
    put_next (st_next s + length vs) (put_db (set_object_versions
      (t_object_versions (st_db s) ++ imported_rows q new ts b (st_next s) vs) (st_db s)) s)).
Proof using.
  revert s. induction vs as [|v vs IH]; intros s Hnew Hids Hnum Hnd.
  - cbn [for_each imported_rows length]. rewrite app_nil_r, Nat.add_0_r. by destruct s as [[]].
  - apply NoDup_cons in Hnd as [Hv Hnd]. fold (xv_version <$> vs) in Hnd, Hv. cbn [for_each]. rewrite run_bind.
    unfold import_version at 1. rewrite (run_bind_ok _ _ _ _ _ (eq_refl : generate_id s = (Ok (id_of (st_next s)), put_next (S (st_next s)) s))).
    unfold _persist_version_in_txn. rewrite run_bind. cbn [gets ov_object st_db put_next]. rewrite run_bind.
    rewrite (proj2 (existsb_exists _ _)); swap 1 2.
    { apply list_elem_of_fmap in Hnew as (o & -> & Ho). exists o. rewrite <-list_elem_of_In. split; [done|].
      by apply bool_decide_eq_true. }
    cbn [negb raise_if mret prog_ret]. rewrite sql_insert_run; swap 1 2.
    { intros x Hx. cbn. rewrite bool_decide_eq_false_2; cbn.
      - destruct (decide (new = ov_object x)) as [Heq|Hne]; [|by rewrite bool_decide_eq_false_2].
        rewrite bool_decide_eq_true_2 by done. cbn. apply Nat.eqb_neq. intros Hn. apply (Hnum x Hx); [done|].
        rewrite <-Hn. left.
      - intros Heq. apply (Hids (st_next s)); [lia|]. rewrite Heq. by apply list_elem_of_fmap_2. }
    rewrite IH; cbn.
    + rewrite <-app_assoc, Nat.add_succ_r. done.
    + done.
    + intros n Hn. rewrite fmap_app, elem_of_app.
      intros [Hin|Heq%list_elem_of_singleton%id_of_inj]; [apply (Hids n); [lia|done]|lia].
    + intros x. rewrite elem_of_app, list_elem_of_singleton. intros [Hx| ->] Hobj Hin.
      * apply (Hnum x Hx Hobj). by right.
      * done.
    + done.
Qed.
End ImportTheory.

(** ** A new object with all its versions *)

Section NewObject.
Context `{host : !Host}.

Definition with_rows (o : ScopedObject) (vs : list ObjectVersion) (t : tables) : tables :=
  set_object_versions (t_object_versions t ++ vs) (set_objects (t_objects t ++ [o]) t).

Lemma with_rows_versions o vs t id :
  so_id o ∉ so_id <$> t_objects t → (∀ v, v ∈ t_object_versions t → ov_object v ∈ so_id <$> t_objects t) →
  (∀ v, v ∈ vs → ov_object v = so_id o) →
  versions_of_object (with_rows o vs t) id = if decide (id = so_id o) then vs else versions_of_object t id.
Proof.
  intros Hnew Hfk Hvs. unfold versions_of_object, with_rows. cbn. rewrite filter_app. case_decide as Hid.
  - assert (filter (λ v, ov_object v = id) (t_object_versions t) = []) as ->.
    { apply filter_nil_iff. intros v Hv Heq. apply Hnew. rewrite <-Hid, <-Heq. by apply Hfk. }
    apply filter_all_iff. intros v Hv. by rewrite (Hvs v Hv).
  - assert (filter (λ v, ov_object v = id) vs = []) as ->; [|by rewrite app_nil_r].
    apply filter_nil_iff. intros v Hv Heq. by rewrite (Hvs v Hv) in Heq.
Qed.

Lemma objects_ok_with_rows t o vs :
  objects_ok t → so_id o ∉ so_id <$> t_objects t → so_lifecycle o = ACTIVE →
  (∀ v, v ∈ vs → ov_object v = so_id o ∧ ov_checksum v = compute_checksum (ov_data v)) →
  ov_version <$> vs = seq 1 (so_version o) →
  objects_ok (with_rows o vs t) ∧ evolves t (with_rows o vs t).
Proof.
  intros [A1 A2 A3 A4 A5 A6 A7] Hnew Hact Hvs Hseq.
  assert (Hrows : ∀ id, versions_of_object (with_rows o vs t) id =
    if decide (id = so_id o) then vs else versions_of_object t id)
    by (intros id; apply with_rows_versions; [done|done|by intros v [? _]%Hvs]).
  split; split; [cbn| |cbn..].
  - rewrite fmap_app. apply NoDup_app. split_and!; [done| |apply NoDup_singleton].
    by intros x Hx ->%list_elem_of_singleton.
  - intros x Hx. rewrite Hrows. case_decide as Hid.
    + apply elem_of_app in Hx as [Hx| ->%list_elem_of_singleton]; [|done].
      destruct Hnew. rewrite <-Hid. by apply list_elem_of_fmap_2.
    + apply elem_of_app in Hx as [Hx| ->%list_elem_of_singleton]; [by apply A2|done].
  - intros v. rewrite fmap_app, !elem_of_app. intros [Hv|Hv]; [left; by apply A3|right].
    rewrite (proj1 (Hvs v Hv)). left.
  - intros v. rewrite elem_of_app. intros [Hv|Hv]; [by apply A4|by apply Hvs].
  - done.
  - intros x. rewrite elem_of_app, list_elem_of_singleton. intros [Hx| ->]; [by apply A6|].
    rewrite Hact. split; [done|]. by intros ?%A7.
  - intros x Hx. rewrite fmap_app, elem_of_app. left. by apply A7.
  - by apply prefix_app_r.
  - done.
  - intros x Hx. exists x. split; [|done]. apply elem_of_app. by left.
Qed.
End NewObject.

(** ** An import *)

Section ImportRuns.
Context `{host : !Host} (known_principal : string → bool).

Definition ready (s : store) : Prop := objects_ok (st_db s) ∧ ids_unused s.

(** The versions of an object are numbered from one, without a gap. *)
Definition numbered (o : ExportedObject) : Prop := xv_version <$> xo_versions o = seq 1 (length (xo_versions o)).

(** [id] is a copy of [e] for [q]: a live object of the type with the data of each version. *)
Definition copy_of (q : string) (e : ExportedObject) (id : string) (t : tables) : Prop :=
  (∃ o, o ∈ t_objects t ∧ so_id o = id ∧ so_owner o = q ∧ so_type o = xo_type e ∧ so_lifecycle o = ACTIVE ∧
    so_version o = length (xo_versions e)) ∧
  ov_data <$> versions_of_object t id = xv_data <$> xo_versions e ∧
  Forall (λ v, ov_created_by v = q) (versions_of_object t id).

(** Tables with rows added to the two object tables: [n] objects of [q] under new
    ids, and [m] versions of those objects. Every row that was there, and every other
    table, is as it was. *)
Definition only_added (q : string) (n m : nat) (t t' : tables) : Prop :=
  ∃ os vs, t' = set_object_versions (t_object_versions t ++ vs) (set_objects (t_objects t ++ os) t) ∧
    length os = n ∧ length vs = m ∧
    (∀ o, o ∈ os → so_owner o = q ∧ so_id o ∉ so_id <$> t_objects t) ∧
    ∀ v, v ∈ vs → ov_object v ∈ so_id <$> os.

Lemma only_added_none q t : only_added q 0 0 t t.
Proof using.
  exists [], []. rewrite !app_nil_r. split_and!; [by destruct t|done|done| |]; by intros x ?%elem_of_nil.
Qed.

Lemma only_added_trans q n1 m1 n2 m2 t1 t2 t3 :
  only_added q n1 m1 t1 t2 → only_added q n2 m2 t2 t3 → only_added q (n1 + n2) (m1 + m2) t1 t3.
Proof using.
  intros (os1 & vs1 & -> & <- & <- & Hos1 & Hvs1) (os2 & vs2 & -> & <- & <- & Hos2 & Hvs2). cbn in *.
  exists (os1 ++ os2), (vs1 ++ vs2). rewrite !length_app. split_and!; [|done|done| |].
  - by rewrite <-!app_assoc.
  - intros o [Ho|Ho]%elem_of_app; [by apply Hos1|]. destruct (Hos2 o Ho) as [? Hnew]. split; [done|].
    intros Hin. apply Hnew. rewrite fmap_app. apply elem_of_app. by left.
  - intros v [Hv|Hv]%elem_of_app; rewrite fmap_app; apply elem_of_app; [left|right]; auto.
Qed.

Lemma import_object_run q e s :
  ready s → known_principal q = true → numbered e →
  ∃ s', _import_object known_principal q true e s = (Ok (id_of (st_next s)), s') ∧ ready s' ∧ st_next s < st_next s' ∧
    evolves (st_db s) (st_db s') ∧ only_added q 1 (length (xo_versions e)) (st_db s) (st_db s') ∧
    copy_of q e (id_of (st_next s)) (st_db s') ∧
    (∀ e' id, copy_of q e' id (st_db s) → copy_of q e' id (st_db s')).
Proof using.
  intros [Hok Hids] Hq Hnum. set (new := id_of (st_next s)).
  set (o := {| so_id := new; so_type := xo_type e; so_owner := q; so_version := length (xo_versions e);
    so_created_at := st_now s; so_lifecycle := ACTIVE; so_registry := None |}).
  assert (Hnew : so_id o ∉ so_id <$> t_objects (st_db s)) by (apply (iu_objects s Hids); done).
  set (vs := imported_rows q new (st_now s) true (S (st_next s)) (xo_versions e)).
  assert (Hvs : ∀ v, v ∈ vs → ov_object v = so_id o ∧ ov_checksum v = compute_checksum (ov_data v))
    by (intros v (? & _ & _ & Hsum)%imported_rows_elem; split; [done|by apply Hsum]).
  destruct (imported_rows_columns q new (st_now s) true (S (st_next s)) (xo_versions e)) as [Hdata Hversion].
  destruct (objects_ok_with_rows (st_db s) o vs Hok Hnew eq_refl Hvs) as [Hok' Hev];
    [unfold vs; rewrite Hversion; exact Hnum|].
  assert (Hrows : ∀ id, versions_of_object (with_rows o vs (st_db s)) id =
    if decide (id = new) then vs else versions_of_object (st_db s) id)
    by (intros id; apply with_rows_versions; [done|apply Hok|by intros v [? _]%Hvs]).
  exists (put_next (S (st_next s) + length (xo_versions e)) (put_db (with_rows o vs (st_db s)) s)). split_and!.
  - unfold _import_object. rewrite (run_bind_ok _ _ _ _ _ (eq_refl : generate_id s = (Ok new, put_next (S (st_next s)) s))).
    rewrite run_bind. cbn [now_utc gets]. rewrite run_bind. unfold _persist_object_in_txn. rewrite run_bind.
    cbn [so_owner]. rewrite Hq. cbn [negb raise_if mret prog_ret]. cbn [st_now put_next]. fold o. rewrite sql_insert_run; swap 1 2.
    { intros x Hx. apply bool_decide_eq_false. intros Heq. apply Hnew. rewrite Heq. by apply list_elem_of_fmap_2. }
    rewrite run_bind. rewrite import_versions_run; cbn.
    + done.
    + rewrite fmap_app, elem_of_app. right. left.
    + intros n Hn. apply (iu_versions s Hids). lia.
    + intros x Hx Hobj. exfalso. apply Hnew. cbn. rewrite <-Hobj. by apply Hok.
    + rewrite Hnum. apply NoDup_seq.
  - split; [done|]. split; cbn; intros n Hn; rewrite fmap_app, elem_of_app.
    + intros [Hin|Heq%list_elem_of_singleton%id_of_inj]; [apply (iu_objects s Hids n); [lia|done]|lia].
    + intros [Hin|Hin]; [apply (iu_versions s Hids n); [lia|done]|].
      apply list_elem_of_fmap in Hin as (v & Heq & (_ & _ & (m & Hm & Hid) & _)%imported_rows_elem).
      rewrite Hid in Heq. apply id_of_inj in Heq. lia.
  - cbn. lia.
  - exact Hev.
  - exists [o], vs. split_and!; [done|done| |by intros x ->%list_elem_of_singleton|].
    + unfold vs. rewrite <-(length_fmap ov_version), Hversion. apply length_fmap.
    + intros v [-> _]%Hvs. left.
  - split_and!; [|by rewrite Hrows, decide_True|].
    + exists o. split_and!; try done. cbn. apply elem_of_app. right. left.
    + rewrite Hrows, decide_True by done. apply Forall_forall. by intros v (_ & ? & _)%imported_rows_elem.
  - intros e' id ((x & Hx & Hid & Hrest) & Hdata' & Hby).
    assert (id ≠ new) by (intros ->; apply Hnew; cbn; rewrite <-Hid; by apply list_elem_of_fmap_2).
    unfold copy_of. cbn [st_db put_next put_db]. rewrite Hrows, decide_False by done. split_and!; [|done..]. exists x. split_and!; try tauto.
    cbn. apply elem_of_app. by left.
Qed.
End ImportRuns.

Section ImportTheorems.
Context `{host : !Host} (known_principal : string → bool) (exc_text : exn → string).

Abbreviation attempt := (import_attempt known_principal exc_text).

Lemma mapping_get_set m k v k' :
  mapping_get (mapping_set m k v) k' = if decide (k' = k) then Some v else mapping_get m k'.
Proof using.
  unfold mapping_get, mapping_set. destruct (existsb _ m) eqn:He.
  - induction m as [|[a b] m IH]; [done|]. cbn [existsb fmap list_fmap find] in *. case_bool_decide as Ha; simpl in *.
    + subst a. destruct (decide (k' = k)) as [->|Hne].
      * by rewrite bool_decide_eq_true_2.
      * rewrite bool_decide_eq_false_2 by done. clear -Hne. induction m as [|[a b'] m IH]; [done|].
        cbn. destruct (bool_decide_reflect (a = k)) as [->|]; cbn.
        -- by rewrite bool_decide_eq_false_2.
        -- by case_bool_decide.
    + case_bool_decide as Ha'; [|by apply IH]. subst a. by rewrite decide_False.
  - rewrite find_app. case_decide as Hk.
    + subst k'. destruct (find (λ x, bool_decide (x.1 = k)) m) as [x|] eqn:Hf.
      * apply find_Some_elem in Hf as [Hx Hp]. assert (existsb (λ x, bool_decide (x.1 = k)) m = true); [|congruence].
        apply existsb_exists. exists x. by rewrite <-list_elem_of_In.
      * cbn. by rewrite bool_decide_eq_true_2.
    + destruct (find (λ x, bool_decide (x.1 = k')) m); [done|]. cbn. by rewrite bool_decide_eq_false_2.
Qed.

(** What importing [l] after [r] comes to. *)
Record imports (q : string) (l : list ExportedObject) (r r' : ImportResult) (s s' : store) : Prop := {
  im_ready : ready s';
  im_evolves : evolves (st_db s) (st_db s');
  im_added : only_added q (length l) (sum_list (length ∘ xo_versions <$> l)) (st_db s) (st_db s');
  im_errors : ir_errors r' = ir_errors r ∧ ir_skipped r' = ir_skipped r;
  im_counts : ir_imported r' = ir_imported r + length l ∧
    ir_versions r' = ir_versions r + sum_list (length ∘ xo_versions <$> l);
  im_kept : ∀ id, id ∉ xo_id <$> l → mapping_get (ir_mapping r') id = mapping_get (ir_mapping r) id;
  im_copies : ∀ e id, copy_of q e id (st_db s) → copy_of q e id (st_db s');
  im_mapped : ∀ e, e ∈ l → ∃ new, mapping_get (ir_mapping r') (xo_id e) = Some new ∧ copy_of q e new (st_db s') ∧
    new ∉ so_id <$> t_objects (st_db s);
}.

Lemma import_attempt_run q e r s :
  ready s → known_principal q = true → numbered e →
  ∃ s', attempt q true r e s = (Ok (imported e (id_of (st_next s)) r), s') ∧
    imports q [e] r (imported e (id_of (st_next s)) r) s s'.
Proof using.
  intros Hready Hq Hnum. destruct (import_object_run known_principal q e s Hready Hq Hnum)
    as (s' & Hrun & Hready' & Hnext & Hev & Hadd & Hcopy & Hcopies).
  exists s'. split.
  - unfold import_attempt. rewrite run_bind. unfold try. by rewrite Hrun.
  - split; try done.
    + cbn. by rewrite Nat.add_0_r.
    + cbn. split; lia.
    + intros id Hid. cbn [ir_mapping imported]. rewrite mapping_get_set, decide_False; [done|]. intros ->. apply Hid. left.
    + intros x ->%list_elem_of_singleton. exists (id_of (st_next s)).
      cbn [ir_mapping imported]. rewrite mapping_get_set, decide_True by done.
      split_and!; [done..|]. by apply (iu_objects s (proj2 Hready)).
Qed.

Lemma imports_join q e l r r1 r2 s s1 s2 :
  (∀ e', e' ∈ l → xo_id e' = xo_id e → e' = e) →
  imports q [e] r r1 s s1 → imports q l r1 r2 s1 s2 → imports q (e :: l) r r2 s s2.
Proof using.
  intros Hsame [A1 A2 Aadd [A3 A3'] [A4 A4'] A5 A6 A7] [B1 B2 Badd [B3 B3'] [B4 B4'] B5 B6 B7].
  assert (Hold : ∀ new, new ∉ so_id <$> t_objects (st_db s1) → new ∉ so_id <$> t_objects (st_db s)).
  { intros new Hnew (o & -> & Ho)%list_elem_of_fmap. apply Hnew. destruct (ev_objects _ _ A2 o Ho) as (o' & Ho' & Hl).
    rewrite <-(proj1 Hl). by apply list_elem_of_fmap_2. }
  split; [done|by etrans| |split; congruence| | | |]; cbn in *.
  - rewrite Nat.add_0_r in Aadd. exact (only_added_trans _ _ _ _ _ _ _ _ Aadd Badd).
  - split; lia.
  - intros id Hid. rewrite B5; [apply A5|]; intros Hin; apply Hid; [|by right].
    apply list_elem_of_singleton in Hin as ->. left.
  - auto.
  - intros x Hx. destruct (decide (xo_id e ∈ xo_id <$> l)) as [Hin|Hout].
    + assert (Hl : x ∈ l).
      { apply elem_of_cons in Hx as [->|Hx]; [|done]. apply list_elem_of_fmap in Hin as (y & Heq & Hy).
        by rewrite <-(Hsame y Hy (eq_sym Heq)). }
      destruct (B7 x Hl) as (new & ? & ? & ?). exists new. split_and!; [done..|by apply Hold].
    + apply elem_of_cons in Hx as [-> |Hx].
      * destruct (A7 e) as (new & Hget & Hcopy & Hnew); [left|]. exists new. rewrite B5 by done. split_and!; [done|by apply B6|done].
      * destruct (B7 x Hx) as (new & ? & ? & ?). exists new. split_and!; [done..|by apply Hold].
Qed.

Lemma import_all_run q l r s :
  ready s → known_principal q = true → Forall numbered l →
  (∀ e e', e ∈ l → e' ∈ l → xo_id e = xo_id e' → e = e') →
  ∃ r' s', for_fold l r (attempt q true) s = (Ok r', s') ∧ imports q l r r' s s'.
Proof using.
  revert r s. induction l as [|e l IH]; intros r s Hready Hq Hnum Hsame.
  - exists r, s. split; [done|]. split; try done.
    + apply only_added_none.
    + by intros e ?%elem_of_nil.
  - apply Forall_cons in Hnum as [He Hl]. destruct (import_attempt_run q e r s Hready Hq He) as (s1 & Hrun & H1).
    destruct (IH (imported e (id_of (st_next s)) r) s1) as (r2 & s2 & Hrun2 & H2); [apply H1|done|done| |].
    { intros a b Ha Hb. apply Hsame; by right. }
    exists r2, s2. split; [cbn [for_fold]; by rewrite run_bind, Hrun|]. eapply imports_join; [|exact H1|exact H2].
    intros e' He' Heq. apply Hsame; [by right|left|done].
Qed.
End ImportTheorems.

(** ** Theorems *)

Section Transfer.
Context `{host : !Host} (known_principal : string → bool) (exc_text : exn → string) (decode_error : string → string).

(** The data of every version is a JSON dict: no key twice. *)
Definition data_ok (t : tables) : Prop := Forall (λ v, json_ok (JVdict (ov_data v)) = true) (t_object_versions t).

Lemma exported_elem t p (ids : list string) e :
  objects_ok t → e ∈ omap (export_of t p) ids ↔
    ∃ o, o ∈ t_objects t ∧ so_id o ∈ ids ∧ so_owner o = p ∧ e = exported_object o (versions_of_object t (so_id o)).
Proof using.
  intros Hok. rewrite list_elem_of_omap. unfold export_of. split.
  - intros (id & Hid & He). destruct (owned_object t p id) as [o|] eqn:Ho; [|done]. injection He as <-.
    apply owned_object_Some in Ho as (Ho & <- & Hown); [|done]. by exists o.
  - intros (o & Ho & Hid & Hown & ->). exists (so_id o). split; [done|].
    by rewrite (proj2 (owned_object_Some t p (so_id o) o Hok)).
Qed.

Lemma exported_numbered t p (ids : list string) : objects_ok t → Forall numbered (omap (export_of t p) ids).
Proof using.
  intros Hok. apply Forall_forall. intros e (o & Ho & _ & _ & ->)%exported_elem; [|done]. unfold numbered. cbn.
  rewrite length_fmap, <-list_fmap_compose. change (xv_version ∘ exported_version) with ov_version.
  rewrite (ok_versions t Hok o Ho), <-(length_fmap ov_version), (ok_versions t Hok o Ho). by rewrite length_seq.
Qed.

Lemma exported_same t p (ids : list string) e e' :
  objects_ok t → e ∈ omap (export_of t p) ids → e' ∈ omap (export_of t p) ids → xo_id e = xo_id e' → e = e'.
Proof using.
  intros Hok (o & Ho & _ & _ & ->)%exported_elem (o' & Ho' & _ & _ & ->)%exported_elem; [|done..]. cbn. intros Hid.
  by rewrite (objects_keyed t o o').
Qed.

Lemma exported_portable t p (ids : list string) : objects_ok t → data_ok t → forallb portable (omap (export_of t p) ids) = true.
Proof using.
  intros Hok Hdata. apply forallb_forall. intros e He%list_elem_of_In. apply exported_elem in He as (o & Ho & _ & _ & ->); [|done].
  unfold portable. apply forallb_forall. intros v (x & <- & Hx)%in_map_iff. apply list_elem_of_In, list_elem_of_filter in Hx as [_ Hx].
  unfold data_ok in Hdata. rewrite Forall_forall in Hdata. by apply (Hdata x).
Qed.

Lemma get_version_nth o n s :
  objects_ok (st_db s) → o ∈ t_objects (st_db s) →
  get_version (so_id o) (S n) s = (Ok (versions_of_object (st_db s) (so_id o) !! n), s).
Proof using.
  intros Hok Ho. pose proof (ok_versions _ Hok o Ho) as Hseq.
  destruct (versions_of_object (st_db s) (so_id o) !! n) as [v|] eqn:Hv.
  - assert (Hin : v ∈ versions_of_object (st_db s) (so_id o)) by by eapply list_elem_of_lookup_2.
    apply list_elem_of_filter in Hin as [Hid Hin]. assert (ov_version v = S n) as <-.
    { assert (Hn : (ov_version <$> versions_of_object (st_db s) (so_id o)) !! n = Some (ov_version v)) by by rewrite list_lookup_fmap, Hv.
      rewrite Hseq in Hn. apply lookup_seq in Hn as [-> _]. lia. }
    rewrite <-Hid. by apply get_version_found.
  - destruct (get_version (so_id o) (S n) s) as [[r|e] s1] eqn:Hr; [|done]. apply get_version_ok in Hr as [-> Hr].
    destruct r as [w|]; [|done]. destruct Hr as (Hw & Hid & Hn). exfalso.
    assert (Hin : S n ∈ ov_version <$> versions_of_object (st_db s) (so_id o)).
    { rewrite <-Hn. apply list_elem_of_fmap_2. by apply list_elem_of_filter. }
    rewrite Hseq in Hin. apply elem_of_seq in Hin. apply lookup_ge_None in Hv.
    rewrite <-(length_fmap ov_version), Hseq, length_seq in Hv. lia.
Qed.


(** *** Streams *)

Lemma strip_tail_brace x : strip_tail (x +:+ "}") = x +:+ "}".
Proof using.
  induction x as [|c x IH]; [done|]. change (String c x +:+ "}") with (String c (x +:+ "}")). cbn [strip_tail]. rewrite IH.
  by destruct x.
Qed.

Lemma strip_document d : py_strip (json_text (JVdict d)) = json_text (JVdict d).
Proof using.
  unfold py_strip. cbn [json_text]. set (x := join_with _ _).
  change ("{" +:+ x +:+ "}") with (String "{" (x +:+ "}")). cbn [strip_head].
  change (Context.py_isspace "{") with false. cbn [strip_tail]. rewrite strip_tail_brace. by destruct x.
Qed.

Lemma document_not_empty d : json_text (JVdict d) ≠ "".
Proof using. done. Qed.

Abbreviation line_read := (import_line known_principal exc_text decode_error).

Lemma manifest_line_skipped q filter b ts p r t : line_read q filter b (manifest_line ts p) r t = (Ok (Some r), t).
Proof using.
  unfold import_line, manifest_line. rewrite strip_document, bool_decide_eq_false_2 by apply document_not_empty.
  rewrite json_roundtrip by done. by rewrite jget_here, bool_decide_eq_true_2.
Qed.

Lemma object_line_read q filter b o r t :
  portable o = true →
  line_read q filter b (json_text (object_dict o)) r t =
    (if filtered_out filter (Some (JVstr (xo_type o))) then mret (Some (skipped r))
     else x ← import_attempt known_principal exc_text q b r o; mret (Some x)) t.
Proof using.
  intros Ho. unfold import_line. pose proof (object_json_ok o Ho) as Hok. unfold object_dict in *.
  rewrite strip_document, bool_decide_eq_false_2 by apply document_not_empty. rewrite json_roundtrip by done.
  change (jget _ "_type") with (@None jval). rewrite jget_there, jget_here by discriminate.
  destruct (filtered_out filter _); [done|]. by rewrite (read_object_back streamed_versions o _ eq_refl) by by apply streamed_versions_back.
Qed.

Lemma stream_fold q filter b l r t :
  forallb portable l = true →
  for_fold ((λ o, json_text (object_dict o)) <$> l) (Some r) (λ result raw,
    match result with Some r => line_read q filter b raw r | None => mret None end) t =
  (x ← for_fold l r (λ result o, if filtered_out filter (Some (JVstr (xo_type o))) then mret (skipped result)
    else import_attempt known_principal exc_text q b result o); mret (Some x)) t.
Proof using.
  revert r t. induction l as [|o l IH]; intros r t Hl; [done|]. apply andb_true_iff in Hl as [Ho Hl].
  rewrite fmap_cons. cbn [for_fold]. rewrite !run_bind, object_line_read by done.
  destruct (filtered_out filter _).
  - cbn [mret prog_ret]. rewrite IH by done. by rewrite run_bind.
  - rewrite run_bind. destruct (import_attempt known_principal exc_text q b r o t) as [[x|e] t1]; [|done].
    cbn [mret prog_ret]. rewrite IH by done. by rewrite run_bind.
Qed.

(** Exporting and importing line by line comes to the same as a package, whatever the
    filter and however single objects fail. *)
Theorem stream_is_package ids p s :
  objects_ok (st_db s) → data_ok (st_db s) →
  ∃ lines pkg, stream_export ids p s = (Ok lines, s) ∧ export_objects ids p s = (Ok pkg, s) ∧
    ∀ q filter b t, stream_import known_principal exc_text decode_error lines q filter b t =
      (r ← import_package known_principal exc_text pkg q filter b; mret (Some r)) t.
Proof using.
  intros Hok Hdata. eexists _, _. split; [|split; [by apply export_objects_run|]].
  - unfold stream_export. rewrite run_bind. cbn [now_utc gets]. rewrite run_bind, export_lines_run by done. reflexivity.
  - intros q filter b t. unfold stream_import. cbn [for_fold]. rewrite run_bind, manifest_line_skipped.
    rewrite stream_fold by by apply exported_portable. reflexivity.
Qed.

End Transfer.

Section Pages.
Context `{host : !Host}.

(** The pages end, and hold every object of the type once. *)
Lemma type_pages_run fuel type p batch_size offset s :
  objects_ok (st_db s) → 1 ≤ batch_size →
  let rows := scan (filter (λ o, typed_row type p o = true) (t_objects (st_db s))) in
  length rows - offset < fuel →
  type_pages fuel type p batch_size offset s =
    (Ok (Some ((λ o, json_text (object_dict o)) <$> omap (export_of (st_db s) p) (so_id <$> drop offset rows))), s).
Proof.
  intros Hok Hbatch rows. revert offset. induction fuel as [|fuel IH]; intros offset Hfuel; cbn [type_pages].
  - lia.
  - rewrite run_bind. unfold select, gets. fold rows. destruct (so_id <$> take batch_size (drop offset rows)) as [|id ids] eqn:Hpage.
    + apply fmap_nil_inv in Hpage. assert (drop offset rows = []) as ->; [|done].
      destruct (drop offset rows) as [|o l]; [done|]. destruct batch_size; [lia|done].
    + assert (Hsome : offset < length rows).
      { destruct (le_lt_dec (length rows) offset) as [Hle|]; [|done]. by rewrite drop_ge, take_nil in Hpage. }
      rewrite <-Hpage. rewrite run_bind, export_lines_run by done. rewrite run_bind, IH by lia.
      cbn [mret prog_ret fmap option_fmap option_map]. rewrite <-drop_drop, <-fmap_app, <-omap_app, <-fmap_app, take_drop. done.
Qed.

(** A stream by type yields what a stream of the ids of all its objects yields. *)
Theorem stream_by_type_complete type p batch_size s :
  objects_ok (st_db s) → 1 ≤ batch_size →
  ∃ ids lines, stream_export_by_type type p batch_size s = (Ok (Some lines), s) ∧
    stream_export ids p s = (Ok lines, s) ∧ NoDup ids ∧
    ∀ o, o ∈ t_objects (st_db s) → (so_id o ∈ ids ↔ so_type o = type ∧ so_owner o = p).
Proof.
  intros Hok Hbatch. set (rows := scan (filter (λ o, typed_row type p o = true) (t_objects (st_db s)))).
  assert (Hrows : ∀ o, o ∈ rows ↔ o ∈ t_objects (st_db s) ∧ so_type o = type ∧ so_owner o = p).
  { intros o. unfold rows, typed_row. rewrite scan_perm, list_elem_of_filter, andb_true_iff, !bool_decide_eq_true. tauto. }
  exists (so_id <$> rows). eexists. split_and!.
  - unfold stream_export_by_type. rewrite run_bind. cbn [now_utc gets]. rewrite run_bind. cbn [gets].
    rewrite run_bind, type_pages_run; [reflexivity|done|done|]. fold rows. unfold rows. rewrite scan_perm, Nat.sub_0_r.
    apply Nat.lt_succ_r, length_filter.
  - unfold stream_export. rewrite run_bind. cbn [now_utc gets]. rewrite run_bind, export_lines_run by done. done.
  - unfold rows. rewrite scan_perm. apply NoDup_fmap_filter, Hok.
  - intros o Ho. rewrite list_elem_of_fmap. split; [|intros Ht; exists o; split; [done|by apply Hrows]].
    intros (o' & Hid & (Ho' & Ht)%Hrows). by rewrite (objects_keyed _ o o' Hok Ho Ho' Hid).
Qed.

End Pages.

(** ** Checksums

    Recomputing does not compare: whatever the package says, the import is the same. *)
Definition with_checksums (f : ExportedVersion → string) (o : ExportedObject) : ExportedObject := {|
  xo_id := xo_id o; xo_type := xo_type o; xo_owner := xo_owner o; xo_created_at := xo_created_at o;
  xo_lifecycle := xo_lifecycle o;
  xo_versions := (λ v, {| xv_version := xv_version v; xv_data := xv_data v; xv_created_at := xv_created_at v;
    xv_created_by := xv_created_by v; xv_reason := xv_reason v; xv_checksum := f v |}) <$> xo_versions o |}.

Lemma checksums_not_compared `{host : !Host} known_principal exc_text f q o r s :
  import_attempt known_principal exc_text q true r (with_checksums f o) s = import_attempt known_principal exc_text q true r o s.
Proof.
  unfold import_attempt, imported, with_checksums. cbn [xo_versions xo_id]. rewrite length_fmap.
  assert (Hobj : ∀ s, _import_object known_principal q true (with_checksums f o) s = _import_object known_principal q true o s).
  { clear s. intros s. unfold _import_object, with_checksums. cbn [xo_versions xo_type]. rewrite length_fmap.
    assert (Hloop : ∀ vs id ts, for_each ((λ v, {| xv_version := xv_version v; xv_data := xv_data v; xv_created_at := xv_created_at v;
      xv_created_by := xv_created_by v; xv_reason := xv_reason v; xv_checksum := f v |}) <$> vs) (import_version q id ts true) =
      for_each vs (import_version q id ts true)).
    2: { rewrite !(run_bind generate_id). destruct (generate_id s) as [[id|e] s1]; [|done].
      rewrite !(run_bind now_utc). destruct (now_utc s1) as [[ts|e] s2]; [|done].
      rewrite !run_bind. destruct (_persist_object_in_txn known_principal _ s2) as [[[]|e] s3]; [|done].
      rewrite !run_bind. by rewrite Hloop. }
    induction vs as [|v vs IH]; intros id ts; [done|]. rewrite fmap_cons. cbn [for_each]. by rewrite IH. }
  rewrite !run_bind. unfold try. fold (with_checksums f o). by rewrite Hobj.
Qed.
