(* ===== verification/Migrations.v ===== *)
(** * Legacy v1: schema migrations (storage/migrations/base.py, registry.py, runner.py)

    The bookkeeping table, and the runner that applies and takes back migrations over a
    database of any kind.  A migration is an arbitrary computation on that database; it
    leaves the bookkeeping table, which the runner owns, alone. *)

From S2P Require Import Prelude LegacyTypes Schema.

(** ** base.py, registry.py *)

Record MigrationRecord := {
  mr_version : Z; mr_name : string; mr_applied_at : Z; mr_checksum : string;
}.

Section Migrations.
Context {S : Type}.

(** The database without the table, the table, the clock. *)
Record mig_world := MigWorld { mw_rest : S; mw_records : list MigrationRecord; mw_now : Z }.

(** [bm_source] is what [inspect.getsource] finds. *)
Record BaseMigration := {
  bm_version : Z; bm_name : string; bm_up : prog S unit; bm_down : prog S unit; bm_source : option string;
}.

Definition put_rest (x : S) (w : mig_world) : mig_world := MigWorld x (mw_records w) (mw_now w).
Definition put_records (l : list MigrationRecord) (w : mig_world) : mig_world := MigWorld (mw_rest w) l (mw_now w).

Definition on_rest {R} (m : prog S R) : prog mig_world R := λ w, let '(r, x) := m (mw_rest w) in (r, put_rest x w).

Definition record_of_version (v : Z) (r : MigrationRecord) : bool := bool_decide (mr_version r = v).
Definition by_record_version (a b : MigrationRecord) : bool := (mr_version a <=? mr_version b)%Z.

Definition get_applied_migrations : prog mig_world (list MigrationRecord) :=
  gets (λ w, sort_by by_record_version (mw_records w)).

Definition get_applied_versions : prog mig_world (list Z) :=
  l ← get_applied_migrations; mret (mr_version <$> l).

(** version is the primary key. *)
Definition record_applied (version : Z) (name checksum : string) : prog mig_world MigrationRecord :=
  ts ← gets mw_now;
  l ← gets mw_records;
  raise_if (existsb (record_of_version version) l) (IntegrityError "scoped_migrations.version") ;;
  let r := {| mr_version := version; mr_name := name; mr_applied_at := ts; mr_checksum := checksum |} in
  modify (λ w, put_records (mw_records w ++ [r]) w) ;;
  mret r.

Definition record_rolled_back (version : Z) : prog mig_world unit :=
  modify (λ w, put_records (filter (λ r, record_of_version version r = false) (mw_records w)) w).

(** MAX over no row is NULL. *)
Definition get_current_version : prog mig_world Z :=
  gets (λ w, match mw_records w with [] => 0%Z | r :: l => foldl Z.max (mr_version r) (mr_version <$> l) end).

Definition is_applied (version : Z) : prog mig_world bool :=
  gets (λ w, existsb (record_of_version version) (mw_records w)).

(** ** runner.py: registration *)

(** [self._migrations]: the migrations by version, in the order of registration. *)
Abbreviation runner := (list BaseMigration).

Definition of_version (v : Z) (m : BaseMigration) : bool := bool_decide (bm_version m = v).
Definition migration (ms : runner) (v : Z) : option BaseMigration := find (of_version v) ms.

Definition register_migration (m : BaseMigration) : prog runner unit :=
  ms ← gets id;
  match migration ms (bm_version m) with
  | Some other => raise (MigrationError ("Duplicate migration version " +:+ pretty (bm_version m) +:+ ": " +:+
      bm_name other +:+ " and " +:+ bm_name m))
  | None => modify (λ ms, ms ++ [m])
  end.

(** [found]: an instance of every concrete class of the package. *)
Definition discover (found : list BaseMigration) : prog runner nat :=
  for_fold found 0 (λ n m, register_migration m ;; mret (Datatypes.S n)).

(** *** Queries *)

Definition all_versions (ms : runner) : list Z := sort_by Z.leb (bm_version <$> ms).

Definition the_migrations (ms : runner) (p : Z → bool) : list BaseMigration :=
  omap (migration ms) (filter (λ v, p v = true) (all_versions ms)).

Definition get_pending (ms : runner) : prog mig_world (list BaseMigration) :=
  applied ← get_applied_versions; mret (the_migrations ms (λ v, bool_decide (v ∉ applied))).

Definition get_applied (ms : runner) : prog mig_world (list BaseMigration) :=
  applied ← get_applied_versions; mret (the_migrations ms (λ v, bool_decide (v ∈ applied))).

Record MigrationStatus := { st_version : Z; st_name : string; st_applied : bool; st_applied_at : option Z }.

Definition migration_status (records : list MigrationRecord) (m : BaseMigration) : MigrationStatus :=
  let r := find (record_of_version (bm_version m)) records in
  {| st_version := bm_version m; st_name := bm_name m; st_applied := bool_decide (is_Some r);
     st_applied_at := mr_applied_at <$> r |}.

Definition get_status (ms : runner) : prog mig_world (list MigrationStatus) :=
  records ← get_applied_migrations; mret (migration_status records <$> the_migrations ms (λ _, true)).

(** *** Execution *)

Section Running.
(** [str(exc)], and the digest of a source. *)
Context (exc_text : exn → string) (hexdigest : string → string).

Definition _compute_checksum (m : BaseMigration) : string :=
  match bm_source m with Some source => String.substring 0 16 (hexdigest source) | None => "" end.

(** [try: step except Exception as exc: raise MigrationError(...) from exc]. *)
Definition wrapped (what : string) (m : BaseMigration) (step : prog S unit) : prog mig_world unit := λ w,
  match on_rest step w with
  | (Ok _, w) => (Ok tt, w)
  | (Raise e, w) => (Raise (MigrationError ("Failed to " +:+ what +:+ " migration " +:+ pretty (bm_version m) +:+ " (" +:+
      bm_name m +:+ "): " +:+ exc_text e)), w)
  end.

Definition _apply_one (m : BaseMigration) : prog mig_world unit :=
  wrapped "apply" m (bm_up m) ;;
  record_applied (bm_version m) (bm_name m) (_compute_checksum m) ;;
  mret tt.

Definition _rollback_one (m : BaseMigration) : prog mig_world unit :=
  wrapped "roll back" m (bm_down m) ;;
  record_rolled_back (bm_version m).

(** A loop over migrations up to the first that [stop]s it; the versions done. *)
Fixpoint run_until (stop : BaseMigration → bool) (step : BaseMigration → prog mig_world unit) (l : list BaseMigration)
  (done : list Z) : prog mig_world (list Z) :=
  match l with
  | [] => mret done
  | m :: l => if stop m then mret done else step m ;; run_until stop step l (done ++ [bm_version m])
  end.

Definition apply_all (ms : runner) : prog mig_world (list Z) :=
  pending ← get_pending ms; run_until (λ _, false) _apply_one pending [].

Definition apply_up_to (ms : runner) (target : Z) : prog mig_world (list Z) :=
  pending ← get_pending ms; run_until (λ m, (target <? bm_version m)%Z) _apply_one pending [].

Definition apply_one (ms : runner) (version : Z) : prog mig_world unit :=
  match migration ms version with
  | None => raise (MigrationError ("Migration version " +:+ pretty version +:+ " not found"))
  | Some m =>
      applied ← is_applied version;
      raise_if applied (MigrationError ("Migration " +:+ pretty version +:+ " already applied")) ;;
      _apply_one m
  end.

Definition rollback_last (ms : runner) : prog mig_world (option Z) :=
  applied ← get_applied ms;
  match last applied with
  | None => mret None
  | Some m => _rollback_one m ;; mret (Some (bm_version m))
  end.

Definition rollback_to (ms : runner) (target : Z) : prog mig_world (list Z) :=
  applied ← get_applied ms; run_until (λ m, (bm_version m <=? target)%Z) _rollback_one (reverse applied) [].

Definition rollback_one (ms : runner) (version : Z) : prog mig_world unit :=
  match migration ms version with
  | None => raise (MigrationError ("Migration version " +:+ pretty version +:+ " not found"))
  | Some m =>
      applied ← is_applied version;
      raise_if (negb applied) (MigrationError ("Migration " +:+ pretty version +:+ " is not applied")) ;;
      _rollback_one m
  end.
End Running.
End Migrations.

(** ** Versions in order *)

Section Order.
Context {S : Type}.
Abbreviation mig := (@BaseMigration S).

(** What registration guarantees. *)
Definition registered (ms : list mig) : Prop := NoDup (bm_version <$> ms).

Lemma register_registered (m : mig) ms : registered ms → registered (register_migration m ms).2.
Proof.
  unfold register_migration, registered. rewrite run_bind. cbn [gets id]. destruct (migration ms (bm_version m)) as [o|] eqn:Hm; [done|].
  intros Hnd. cbn [modify snd]. rewrite fmap_app. apply NoDup_app. split_and!; [done| |apply NoDup_singleton].
  intros v (x & -> & Hx)%list_elem_of_fmap Hv%list_elem_of_singleton.
  pose proof (find_None_elem _ _ x Hm Hx) as Hp. unfold of_version in Hp. by rewrite bool_decide_eq_true_2 in Hp.
Qed.

Lemma discover_registered found (ms : list mig) : registered ms → registered (discover found ms).2.
Proof.
  unfold discover. apply (preserves_for_fold registered). intros n m _. apply preserves_bind.
  - intros ms'. apply register_registered.
  - intros []. apply preserves_ret.
Qed.

Lemma migration_Some (ms : list mig) v m :
  registered ms → migration ms v = Some m ↔ m ∈ ms ∧ bm_version m = v.
Proof.
  intros Hnd. unfold migration. split.
  - intros [Hm Hv]%find_Some_elem. unfold of_version in Hv. by apply bool_decide_eq_true in Hv.
  - intros [Hm Hv]. destruct (find (of_version v) ms) as [x|] eqn:Hf.
    + apply find_Some_elem in Hf as [Hx Hp]. unfold of_version in Hp. apply bool_decide_eq_true in Hp.
      f_equal. apply (NoDup_fmap_inj_in bm_version ms); [done..|congruence].
    + pose proof (find_None_elem _ _ m Hf Hm) as Hp. unfold of_version in Hp. by rewrite bool_decide_eq_true_2 in Hp.
Qed.

Lemma all_versions_elem (ms : list mig) v : v ∈ all_versions ms ↔ ∃ m, m ∈ ms ∧ bm_version m = v.
Proof. unfold all_versions. rewrite elem_of_sort_by, list_elem_of_fmap. naive_solver. Qed.

Lemma all_versions_sorted (ms : list mig) : StronglySorted Z.le (all_versions ms).
Proof.
  eapply sorted_mono; [|apply sort_by_sorted; intros; rewrite !Z.leb_le in *; lia].
  intros x y Hxy. by apply Z.leb_le.
Qed.

(** Only versions that are registered are looked up. *)
Lemma lookup_versions (ms : list mig) (l : list Z) :
  registered ms → (∀ v, v ∈ l → v ∈ all_versions ms) → bm_version <$> omap (migration ms) l = l.
Proof.
  intros Hms. induction l as [|v l IH]; intros Hl; [done|]. cbn [omap list_omap].
  destruct (proj1 (all_versions_elem ms v) (Hl v (list_elem_of_here _ _))) as (m & Hm & Hv).
  rewrite (proj2 (migration_Some ms v m Hms)) by done. rewrite fmap_cons, Hv. f_equal.
  apply IH. intros w Hw. apply Hl. by right.
Qed.

Lemma the_migrations_versions (ms : list mig) p :
  registered ms → bm_version <$> the_migrations ms p = filter (λ v, p v = true) (all_versions ms).
Proof. intros Hms. apply lookup_versions; [done|]. by intros v [_ ?]%list_elem_of_filter. Qed.

Lemma the_migrations_elem (ms : list mig) p m :
  registered ms → m ∈ the_migrations ms p ↔ m ∈ ms ∧ p (bm_version m) = true.
Proof.
  intros Hms. unfold the_migrations. rewrite list_elem_of_omap. split.
  - intros (v & [Hp Hv]%list_elem_of_filter & [Hm <-]%migration_Some); done.
  - intros [Hm Hp]. exists (bm_version m). rewrite list_elem_of_filter, all_versions_elem, migration_Some by done. naive_solver.
Qed.

Lemma the_migrations_NoDup (ms : list mig) p : registered ms → NoDup (bm_version <$> the_migrations ms p).
Proof.
  intros Hms. rewrite the_migrations_versions by done. apply NoDup_filter. unfold all_versions. by rewrite sort_by_perm.
Qed.

(** Up to a version and above it. *)
Lemma filter_split (p : Z → bool) t (l : list Z) :
  StronglySorted Z.le l →
  filter (λ v, p v = true) l =
    filter (λ v, p v && (v <=? t)%Z = true) l ++ filter (λ v, p v && (t <? v)%Z = true) l.
Proof.
  induction 1 as [|v l _ IH Hv]; [done|]. rewrite !filter_cons, IH. destruct (p v); cbn.
  - destruct (Z.leb_spec v t) as [Hle|Hgt].
    + rewrite (proj2 (Z.ltb_ge t v)) by lia. done.
    + rewrite (proj2 (Z.ltb_lt t v)) by lia. cbn.
      assert (filter (λ w, p w && (w <=? t)%Z = true) l = []) as ->; [|done].
      apply filter_nil_iff. intros w Hw [_ Hle%Z.leb_le]%andb_true_iff. rewrite Forall_forall in Hv. specialize (Hv w Hw). lia.
  - done.
Qed.

Lemma the_migrations_split (ms : list mig) p t :
  the_migrations ms p =
    the_migrations ms (λ v, p v && (v <=? t)%Z) ++ the_migrations ms (λ v, p v && (t <? v)%Z).
Proof.
  unfold the_migrations. rewrite (filter_split p t) by apply all_versions_sorted. by rewrite omap_app.
Qed.

Lemma the_migrations_ext (ms : list mig) p q :
  (∀ m, m ∈ ms → p (bm_version m) = q (bm_version m)) → the_migrations ms p = the_migrations ms q.
Proof.
  intros H. unfold the_migrations. f_equal. apply filter_ext_in. intros v (m & Hm & <-)%all_versions_elem. by rewrite H.
Qed.
End Order.

(** ** What the runner does *)

Section Theorems.
Context {S : Type} (exc_text : exn → string) (hexdigest : string → string).
Abbreviation mig := (@BaseMigration S).
Abbreviation mworld := (@mig_world S).
Abbreviation apply1 := (_apply_one exc_text hexdigest).
Abbreviation rollback1 := (_rollback_one exc_text).

Definition applied_in (w : mworld) (v : Z) : bool := bool_decide (v ∈ mr_version <$> mw_records w).

(** What is left to do, and what is done. *)
Definition pending (ms : list mig) (w : mworld) : list mig := the_migrations ms (λ v, negb (applied_in w v)).
Definition applied (ms : list mig) (w : mworld) : list mig := the_migrations ms (applied_in w).

Lemma get_pending_run ms w : get_pending ms w = (Ok (pending ms w), w).
Proof using.
  unfold get_pending, get_applied_versions, get_applied_migrations. rewrite run_bind, run_bind. cbn [gets]. unfold mret, prog_ret.
  do 2 f_equal. apply the_migrations_ext. intros m _. unfold applied_in. rewrite <-bool_decide_not.
  apply bool_decide_ext. by rewrite sort_by_perm.
Qed.

Lemma get_applied_run ms w : get_applied ms w = (Ok (applied ms w), w).
Proof using.
  unfold get_applied, get_applied_versions, get_applied_migrations. rewrite run_bind, run_bind. cbn [gets]. unfold mret, prog_ret.
  do 2 f_equal. apply the_migrations_ext. intros m _. unfold applied_in. apply bool_decide_ext. by rewrite sort_by_perm.
Qed.

(** The row of a migration, and the message of its failure. *)
Definition row_of (now : Z) (m : mig) : MigrationRecord := {|
  mr_version := bm_version m; mr_name := bm_name m; mr_applied_at := now;
  mr_checksum := _compute_checksum hexdigest m |}.

Definition failed_to (what : string) (m : mig) (e : exn) : exn :=
  MigrationError ("Failed to " +:+ what +:+ " migration " +:+ pretty (bm_version m) +:+ " (" +:+ bm_name m +:+ "): " +:+ exc_text e).

Lemma unrecorded (v : Z) (l : list MigrationRecord) : v ∉ mr_version <$> l → existsb (record_of_version v) l = false.
Proof using.
  intros Hv. destruct (existsb _ l) eqn:He; [|done]. apply existsb_exists in He as (r & Hr & Hp).
  unfold record_of_version in Hp. apply bool_decide_eq_true in Hp. destruct Hv. rewrite <-Hp.
  by apply list_elem_of_fmap_2, list_elem_of_In.
Qed.

Lemma apply1_run m w :
  bm_version m ∉ mr_version <$> mw_records w →
  apply1 m w = match bm_up m (mw_rest w) with
    | (Ok _, x) => (Ok tt, MigWorld x (mw_records w ++ [row_of (mw_now w) m]) (mw_now w))
    | (Raise e, x) => (Raise (failed_to "apply" m e), put_rest x w)
    end.
Proof using.
  intros Hv. unfold _apply_one. rewrite run_bind. unfold wrapped, on_rest.
  destruct (bm_up m (mw_rest w)) as [[u|e] x]; [|done]. rewrite run_bind. unfold record_applied.
  rewrite run_bind. cbn [gets]. rewrite run_bind. cbn [gets]. rewrite run_bind. cbn [put_rest mw_records].
  rewrite unrecorded by done. done.
Qed.

(** The loop over what is new: some are applied, in order, up to the end or to the first
    that fails, which leaves what it did. *)
Lemma apply_loop stop l w acc :
  Forall (λ m, stop m = false) l → NoDup (bm_version <$> l) →
  (∀ m, m ∈ l → bm_version m ∉ mr_version <$> mw_records w) →
  ∃ done rest y, l = done ++ rest ∧ for_each done bm_up (mw_rest w) = (Ok tt, y) ∧
    let w' := MigWorld y (mw_records w ++ (row_of (mw_now w) <$> done)) (mw_now w) in
    (rest = [] ∧ run_until stop apply1 l acc w = (Ok (acc ++ (bm_version <$> done)), w') ∨
     ∃ m rest' e x, rest = m :: rest' ∧ bm_up m y = (Raise e, x) ∧
       run_until stop apply1 l acc w = (Raise (failed_to "apply" m e), put_rest x w')).
Proof using.
  revert w acc. induction l as [|m l IH]; intros w acc Hstop Hnd Hnew.
  - exists [], [], (mw_rest w). split_and!; [done..|]. left. split; [done|]. cbn. rewrite !app_nil_r. by destruct w.
  - apply Forall_cons in Hstop as [Hm Hstop]. apply NoDup_cons in Hnd as [Hfresh Hnd]. fold (bm_version <$> l) in *.
    cbn [run_until]. rewrite Hm, run_bind, apply1_run by (apply Hnew; left).
    destruct (bm_up m (mw_rest w)) as [[[]|e] x] eqn:Hup.
    + destruct (IH (MigWorld x (mw_records w ++ [row_of (mw_now w) m]) (mw_now w)) (acc ++ [bm_version m]) Hstop Hnd)
        as (did & rest & y & -> & Hups & Hcase).
      { cbn. intros m' Hm'. rewrite fmap_app. intros [Hin|Heq%list_elem_of_singleton]%elem_of_app.
        - apply (Hnew m'); [by right|done].
        - apply Hfresh. cbn in Heq. rewrite <-Heq. by apply list_elem_of_fmap_2. }
      exists (m :: did), rest, y. split; [done|]. split; [cbn [for_each]; by rewrite run_bind, Hup|].
      cbn [mw_records mw_now fmap list_fmap] in *. fold (row_of (mw_now w) <$> did) in *. rewrite <-!app_assoc in Hcase. exact Hcase.
    + exists [], (m :: l), (mw_rest w). split_and!; [done..|]. right. exists m, l, e, x. split_and!; [done..|].
      cbn. by rewrite app_nil_r.
Qed.

Lemma the_migrations_filter (ms : list mig) p q :
  the_migrations ms (λ v, p v && q v) = filter (λ m, q (bm_version m) = true) (the_migrations ms p).
Proof using.
  unfold the_migrations. induction (all_versions ms) as [|v l IH]; [done|]. rewrite !filter_cons.
  destruct (p v) eqn:Hp; cbn [andb]; [|rewrite !decide_False by done; exact IH].
  rewrite (decide_True (P := true = true)) by done. cbn [omap list_omap]. destruct (migration ms v) as [m|] eqn:Hm.
  - rewrite filter_cons. assert (bm_version m = v) as ->.
    { apply find_Some_elem in Hm as [_ Hm]. by apply bool_decide_eq_true in Hm. }
    case_decide; cbn [omap list_omap]; [rewrite Hm|]; by rewrite <-IH.
  - case_decide; cbn [omap list_omap]; [rewrite Hm|]; by rewrite <-IH.
Qed.

(** After some of the pending ones are applied the others are pending. *)
Lemma pending_after ms w did rest x ts :
  registered ms → pending ms w = did ++ rest →
  pending ms (MigWorld x (mw_records w ++ (row_of ts <$> did)) (mw_now w)) = rest.
Proof using.
  intros Hms Hpending. pose proof (the_migrations_NoDup ms (λ v, negb (applied_in w v)) Hms) as Hnd.
  fold (pending ms w) in Hnd. rewrite Hpending, fmap_app in Hnd. apply NoDup_app in Hnd as (_ & Hdis & _).
  unfold pending at 1.
  rewrite (the_migrations_ext ms _ (λ v, negb (applied_in w v) && bool_decide (v ∉ bm_version <$> did))); swap 1 2.
  { intros m _. unfold applied_in. cbn [mw_records]. rewrite fmap_app, <-!bool_decide_not, <-bool_decide_and.
    apply bool_decide_ext. rewrite elem_of_app, <-list_fmap_compose. change (mr_version ∘ row_of ts) with (@bm_version S). tauto. }
  rewrite the_migrations_filter. fold (pending ms w). rewrite Hpending, filter_app.
  assert (filter (λ m, bool_decide (bm_version m ∉ bm_version <$> did) = true) did = []) as ->.
  { apply filter_nil_iff. intros m Hm Hp%bool_decide_eq_true. apply Hp. by apply list_elem_of_fmap_2. }
  apply filter_all_iff. intros m Hm. apply bool_decide_eq_true. intros Hin. apply (Hdis _ Hin). by apply list_elem_of_fmap_2.
Qed.

Lemma pending_new ms w m : registered ms → m ∈ pending ms w → bm_version m ∉ mr_version <$> mw_records w.
Proof using.
  intros Hms [_ Hp]%the_migrations_elem; [|done]. unfold applied_in in Hp. by apply negb_true_iff, bool_decide_eq_false in Hp.
Qed.

(** Applying everything runs the pending migrations in the order of their versions,
    each once, and records each right after it: to the end, or to the first that fails,
    whose failure is reported and which is neither recorded nor undone.  What is pending
    then is exactly what was not applied. *)
Theorem apply_all_exact ms w :
  registered ms →
  ∃ did rest y, pending ms w = did ++ rest ∧ for_each did bm_up (mw_rest w) = (Ok tt, y) ∧
    let w' := MigWorld y (mw_records w ++ (row_of (mw_now w) <$> did)) (mw_now w) in
    pending ms (apply_all exc_text hexdigest ms w).2 = rest ∧
    (rest = [] ∧ apply_all exc_text hexdigest ms w = (Ok (bm_version <$> did), w') ∨
     ∃ m rest' e x, rest = m :: rest' ∧ bm_up m y = (Raise e, x) ∧
       apply_all exc_text hexdigest ms w = (Raise (failed_to "apply" m e), put_rest x w')).
Proof using.
  intros Hms. unfold apply_all. rewrite run_bind, get_pending_run.
  destruct (apply_loop (λ _, false) (pending ms w) w []) as (did & rest & y & Heq & Hups & Hcase).
  - by apply Forall_true.
  - by apply the_migrations_NoDup.
  - intros m. by apply pending_new.
  - exists did, rest, y. split; [done|]. split; [done|]. cbn zeta in *. split; [|exact Hcase].
    destruct Hcase as [[_ ->]|(m & rest' & e & x & _ & _ & ->)]; exact (pending_after ms w did rest _ _ Hms Heq).
Qed.

Lemma for_each_snoc {X R} (l : list X) x (body : X → prog R unit) s :
  for_each (l ++ [x]) body s = match for_each l body s with (Ok _, s) => body x s | (Raise e, s) => (Raise e, s) end.
Proof using.
  revert s. induction l as [|y l IH]; intros s; cbn [app for_each]; rewrite run_bind.
  - unfold mret, prog_ret. by destruct (body x s) as [[[]|e] s1].
  - rewrite run_bind. destruct (body y s) as [[[]|e] s1]; [|done]. by rewrite IH.
Qed.

(** A migration whose way down undoes its way up. *)
Definition reversible (m : mig) : Prop := ∀ x y, bm_up m x = (Ok tt, y) → bm_down m y = (Ok tt, x).

Lemma rollback_loop stop l rest x y recs ts acc :
  Forall (λ m, stop m = false) l → Forall reversible l → NoDup (bm_version <$> l) →
  (∀ m, m ∈ l → bm_version m ∉ mr_version <$> recs) → for_each l bm_up x = (Ok tt, y) →
  run_until stop rollback1 (reverse l ++ rest) acc (MigWorld y (recs ++ (row_of ts <$> l)) ts) =
    run_until stop rollback1 rest (acc ++ reverse (bm_version <$> l)) (MigWorld x recs ts).
Proof using.
  revert y acc. induction l as [|m l IH] using rev_ind; intros y acc Hstop Hrev Hnd Hnew Hups.
  - injection Hups as <-. cbn. by rewrite !app_nil_r.
  - apply Forall_app in Hstop as [Hstop Hm], Hrev as [Hrev Hback]. rewrite Forall_singleton in Hm, Hback.
    rewrite fmap_app in Hnd. apply NoDup_app in Hnd as (Hnd & Hdis & _). rewrite for_each_snoc in Hups.
    destruct (for_each l bm_up x) as [[[]|e] z] eqn:Hl; [|done]. apply Hback in Hups.
    rewrite reverse_snoc. cbn [app run_until]. rewrite Hm, run_bind. unfold _rollback_one at 1. rewrite run_bind.
    unfold wrapped, on_rest. cbn [mw_rest]. rewrite Hups. unfold record_rolled_back, modify, put_rest, put_records. cbn [mw_rest mw_records mw_now].
    assert (filter (λ r, record_of_version (bm_version m) r = false) (recs ++ (row_of ts <$> l ++ [m])) = recs ++ (row_of ts <$> l)) as ->.
    { rewrite fmap_app, app_assoc, filter_app. change (row_of ts <$> [m]) with [row_of ts m]. rewrite filter_cons, decide_False; swap 1 2.
      { unfold record_of_version. by rewrite bool_decide_eq_true_2. }
      rewrite filter_nil, app_nil_r. apply filter_all_iff. intros r Hr. apply bool_decide_eq_false. intros Heq.
      apply elem_of_app in Hr as [Hr|(k & -> & Hk)%list_elem_of_fmap].
      - apply (Hnew m); [apply elem_of_app; right; left|]. rewrite <-Heq. by apply list_elem_of_fmap_2.
      - apply (Hdis (bm_version k)); [by apply list_elem_of_fmap_2|]. cbn in Heq. rewrite Heq. left. }
    rewrite IH; [|done..| |done].
    + rewrite fmap_app, reverse_app, <-app_assoc. done.
    + intros k Hk. apply Hnew. apply elem_of_app. by left.
Qed.

Lemma run_until_stopped stop step (l : list mig) acc (w : mworld) :
  Forall (λ m, stop m = true) l → run_until stop step l acc w = (Ok acc, w).
Proof using. intros Hl. destruct Hl as [|m l Hm _]; [done|]. cbn [run_until]. by rewrite Hm. Qed.

(** C25: Rolling back to a version undoes an upgrade from it: if every migration applied by
    [apply_all] is above the version and reversible, and what was applied before is not
    above it, the rollback returns their versions from the last to the first and leaves
    the database and the bookkeeping as they were. *)
Theorem rollback_undoes_apply ms target w vs w' :
  registered ms → Forall (λ m, (target < bm_version m)%Z ∧ reversible m) (pending ms w) →
  Forall (λ m, (bm_version m ≤ target)%Z) (applied ms w) →
  apply_all exc_text hexdigest ms w = (Ok vs, w') →
  vs = bm_version <$> pending ms w ∧ rollback_to exc_text ms target w' = (Ok (reverse vs), w).
Proof using.
  intros Hms Hnew Hold Hrun. destruct (apply_all_exact ms w Hms) as (did & rest & y & Hpending & Hups & _ & Hcase).
  rewrite Hrun in Hcase. destruct Hcase as [[-> [= -> ->]]|(? & ? & ? & ? & _ & _ & [=])]. rewrite app_nil_r in Hpending.
  rewrite Hpending in *. split; [done|]. unfold rollback_to. rewrite run_bind, get_applied_run.
  assert (Happlied : applied ms (MigWorld y (mw_records w ++ (row_of (mw_now w) <$> did)) (mw_now w)) = applied ms w ++ did).
  { assert (Hcase : ∀ m, m ∈ ms → let v := bm_version m in
      (applied_in w v = true ∧ (v ≤ target)%Z) ∨ (applied_in w v = false ∧ (target < v)%Z ∧ v ∈ bm_version <$> did)).
    { intros m Hm. cbn zeta. rewrite Forall_forall in Hnew, Hold. destruct (applied_in w (bm_version m)) eqn:Hin; [left|right]; split; [done| |done|].
      - apply Hold. by apply the_migrations_elem.
      - assert (Hp : m ∈ did) by (rewrite <-Hpending; apply the_migrations_elem; [done|by rewrite Hin]).
        split; [by apply Hnew|by apply list_elem_of_fmap_2]. }
    assert (Hin : ∀ v, applied_in (MigWorld y (mw_records w ++ (row_of (mw_now w) <$> did)) (mw_now w)) v =
      applied_in w v || bool_decide (v ∈ bm_version <$> did)).
    { intros v. unfold applied_in. cbn [mw_records]. rewrite fmap_app, <-bool_decide_or. apply bool_decide_ext.
      rewrite elem_of_app, <-list_fmap_compose. done. }
    trans (applied ms w ++ pending ms w); [|by rewrite Hpending].
    unfold applied at 1. rewrite (the_migrations_split ms _ target).
    f_equal; apply the_migrations_ext; intros m Hm; cbv beta; rewrite Hin; destruct (Hcase m Hm) as [[-> Hv]|(-> & Hv & Hd)]; cbn.
    - by apply Z.leb_le.
    - rewrite (proj2 (Z.leb_gt _ _)) by done. by rewrite andb_false_r.
    - by apply Z.ltb_ge.
    - rewrite bool_decide_eq_true_2 by done. by apply Z.ltb_lt. }
  rewrite Happlied, reverse_app. rewrite Forall_and in Hnew. destruct Hnew as [Habove Hrev].
  destruct w as [x recs ts]. cbn [mw_records mw_now mw_rest] in *. rewrite rollback_loop with (x := x); [|..].
  - rewrite run_until_stopped; [done|]. apply Forall_reverse. eapply Forall_impl; [exact Hold|]. intros m. by apply Z.leb_le.
  - eapply Forall_impl; [exact Habove|]. intros m. by apply Z.leb_gt.
  - done.
  - rewrite <-Hpending. by apply the_migrations_NoDup.
  - intros m Hm. apply (pending_new ms (MigWorld x recs ts)); [done|]. by rewrite Hpending.
  - done.
Qed.

(** ** In steps *)

Lemma run_until_app stop step (l k : list mig) acc (w : mworld) :
  Forall (λ m, stop m = false) l →
  run_until stop step (l ++ k) acc w = (done ← run_until stop step l acc; run_until stop step k done) w.
Proof using.
  intros Hl. revert acc w. induction Hl as [|m l Hm _ IH]; intros acc w; [done|]. cbn [app run_until]. rewrite Hm, !run_bind.
  destruct (step m w) as [[[]|e] w1]; [|done]. by rewrite IH.
Qed.

Lemma run_until_going stop step (l : list mig) acc (w : mworld) :
  Forall (λ m, stop m = false) l → run_until stop step l acc w = run_until (λ _, false) step l acc w.
Proof using.
  intros Hl. revert acc w. induction Hl as [|m l Hm _ IH]; intros acc w; [done|]. cbn [run_until]. rewrite Hm, !run_bind.
  destruct (step m w) as [[[]|e] w1]; [|done]. by rewrite IH.
Qed.

Lemma run_until_acc stop step (l : list mig) a acc (w : mworld) :
  run_until stop step l (a ++ acc) w = (vs ← run_until stop step l acc; mret (a ++ vs)) w.
Proof using.
  revert acc w. induction l as [|m l IH]; intros acc w; [done|]. cbn [run_until]. destruct (stop m); [done|].
  rewrite !run_bind. destruct (step m w) as [[[]|e] w1]; [|done]. by rewrite <-app_assoc, IH, run_bind.
Qed.

(** Going up to a version and then all the way is going all the way. *)
Theorem apply_in_two_steps (ms : list mig) target (w : mworld) vs w1 :
  registered ms → apply_up_to exc_text hexdigest ms target w = (Ok vs, w1) →
  apply_all exc_text hexdigest ms w = (us ← apply_all exc_text hexdigest ms; mret (vs ++ us)) w1.
Proof using.
  intros Hms. unfold apply_up_to, apply_all. rewrite !run_bind, !get_pending_run. set (stop := λ m : mig, (target <? bm_version m)%Z).
  set (low := the_migrations ms (λ v, negb (applied_in w v) && (v <=? target)%Z)).
  set (high := the_migrations ms (λ v, negb (applied_in w v) && (target <? v)%Z)).
  assert (Hsplit : pending ms w = low ++ high) by apply the_migrations_split.
  assert (Hlow : Forall (λ m, stop m = false) low).
  { apply Forall_forall. intros m [_ [_ Hm%Z.leb_le]%andb_true_iff]%the_migrations_elem; [|done]. by apply Z.ltb_ge. }
  assert (Hhigh : Forall (λ m, stop m = true) high).
  { apply Forall_forall. intros m [_ [_ Hm]%andb_true_iff]%the_migrations_elem; done. }
  rewrite Hsplit, !run_until_app, !run_bind by (done || by apply Forall_true). rewrite (run_until_going stop) by done.
  destruct (apply_loop (λ _, false) low w []) as (did & rest & y & Heq & Hups & Hcase).
  - by apply Forall_true.
  - by apply the_migrations_NoDup.
  - intros m Hm. apply (pending_new ms); [done|]. rewrite Hsplit. apply elem_of_app. by left.
  - destruct Hcase as [[-> Hrun]|(m & rest' & e & x & _ & _ & Hrun)]; rewrite Hrun; [|done].
    rewrite run_until_stopped by done. intros [= <- <-]. rewrite app_nil_r in Heq. subst did. cbn [app].
    rewrite (pending_after ms w low high) by done.
    rewrite <-(app_nil_r (bm_version <$> low)) at 1. rewrite run_until_acc, run_bind. done.
Qed.

(** What [rollback_last] takes back is the highest version, whenever it was applied. *)
Lemma rollback_last_highest (ms : list mig) (w : mworld) v w' :
  registered ms → rollback_last exc_text ms w = (Ok (Some v), w') →
  ∀ m, m ∈ applied ms w → (bm_version m ≤ v)%Z.
Proof using.
  intros Hms. unfold rollback_last. rewrite run_bind, get_applied_run.
  destruct (last (applied ms w)) as [k|] eqn:Hlast; [|done]. rewrite run_bind.
  destruct (rollback1 k w) as [[u|e] w1]; [|done]. intros [= <- _] m Hm.
  apply last_Some in Hlast as [l Hl].
  assert (Hsorted : StronglySorted Z.le (bm_version <$> applied ms w)).
  { unfold applied. rewrite the_migrations_versions by done. eapply sublist_sorted; [apply sublist_filter|apply all_versions_sorted]. }
  rewrite Hl, fmap_app in Hsorted. rewrite Hl in Hm. apply elem_of_app in Hm as [Hm| ->%list_elem_of_singleton]; [|done].
  eapply StronglySorted_app_1_elem_of; [exact Hsorted|by apply list_elem_of_fmap_2|left].
Qed.
End Theorems.
