(* ===== verification/ColdStorage.v ===== *)
(** * Legacy v1: storage tiers and glacial archives (storage/tiering.py, archival.py)

    The tiers of object versions, the policies that move them, and the compressed
    archives with their seal.  The three tables are used by nothing else. *)

From Stdlib Require Import Ascii.
From S2P Require Import Prelude LegacyTypes Schema Json JsonParse Trail Objects Portability.

(** ** tiering.py: data *)

Inductive StorageTier := HOT | WARM | COLD | GLACIAL.

#[export] Instance StorageTier_eq_dec : EqDecision StorageTier.
Proof. solve_decision. Defined.

Definition tier_rank (t : StorageTier) : nat := match t with HOT => 0 | WARM => 1 | COLD => 2 | GLACIAL => 3 end.
Definition tier_name (t : StorageTier) : string :=
  match t with HOT => "HOT" | WARM => "WARM" | COLD => "COLD" | GLACIAL => "GLACIAL" end.
Definition all_tiers : list StorageTier := [HOT; WARM; COLD; GLACIAL].

Record TierAssignment := {
  ta_id : string; ta_object : string; ta_version : nat; ta_tier : StorageTier; ta_at : Z; ta_by : string;
  ta_previous : option StorageTier;
}.

Record RetentionPolicy := {
  rp_id : string; rp_name : string; rp_description : string; rp_source : StorageTier; rp_target : StorageTier;
  rp_condition : string; rp_value : string; rp_type : option string; rp_scope : option string; rp_owner : string;
  rp_created_at : Z; rp_lifecycle : Lifecycle;
}.

Record TierTransitionCandidate := {
  tc_object : string; tc_version : nat; tc_current : StorageTier; tc_target : StorageTier; tc_policy : string;
  tc_reason : string;
}.

Definition policy_active (p : RetentionPolicy) : bool := bool_decide (rp_lifecycle p = ACTIVE).

(** ** archival.py: data *)

Record GlacialArchive := {
  ga_id : string; ga_name : string; ga_description : string; ga_objects : list string; ga_owner : string;
  ga_created_at : Z; ga_sealed : bool; ga_sealed_at : option Z; ga_hash : string; ga_compressed : nat;
  ga_original : nat; ga_entries : nat; ga_lifecycle : Lifecycle;
}.

(** A row of glacial_archives: what [get_archive] selects, and the compressed data. *)
Record archive_row := { ar_meta : GlacialArchive; ar_data : string }.

Record ArchiveEntry := {
  ae_object : string; ae_type : string; ae_version : nat; ae_data : jdict; ae_created_at : string; ae_created_by : string;
}.

(** What the layer uses of gzip: the header holds the time, and decompressing gives back
    the bytes whatever the time was. *)
Class Gzip := {
  compress : Z → string → string;
  decompress : string → outcome string;
  decompress_compress : ∀ t x, decompress (compress t x) = Ok x;
}.

(** ** The state *)

Record cold_world := ColdWorld {
  cw_store : store; cw_tiers : list TierAssignment; cw_policies : list RetentionPolicy; cw_archives : list archive_row;
}.

Definition put_store (s : store) (w : cold_world) : cold_world := ColdWorld s (cw_tiers w) (cw_policies w) (cw_archives w).
Definition put_tiers (l : list TierAssignment) (w : cold_world) : cold_world :=
  ColdWorld (cw_store w) l (cw_policies w) (cw_archives w).
Definition put_policies (l : list RetentionPolicy) (w : cold_world) : cold_world :=
  ColdWorld (cw_store w) (cw_tiers w) l (cw_archives w).
Definition put_archives (l : list archive_row) (w : cold_world) : cold_world :=
  ColdWorld (cw_store w) (cw_tiers w) (cw_policies w) l.

Abbreviation cp := (prog cold_world).

Definition on_store {R} (m : lp R) : cp R := λ w, let '(r, s) := m (cw_store w) in (r, put_store s w).

Section Tiers.
Context `{host : !Host} (known_principal known_scope : string → bool).

(** *** Assignments *)

Definition tier_of (object : string) (version : nat) (a : TierAssignment) : bool :=
  bool_decide (ta_object a = object) && (ta_version a =? version).

Definition get_tier (object : string) (version : nat) : cp (option TierAssignment) :=
  gets (λ w, head (scan (filter (λ a, tier_of object version a = true) (cw_tiers w)))).

Definition moved_to (tier : StorageTier) (ts : Z) (by_ : string) (previous : option StorageTier) (a : TierAssignment)
  : TierAssignment := {|
  ta_id := ta_id a; ta_object := ta_object a; ta_version := ta_version a; ta_tier := tier; ta_at := ts; ta_by := by_;
  ta_previous := previous |}.

(** INSERT: the object exists, and it has no row for the version. *)
Definition insert_tier (a : TierAssignment) : cp unit :=
  known ← gets (λ w, existsb (of_object (ta_object a)) (t_objects (st_db (cw_store w))));
  raise_if (negb known) (IntegrityError "tier_assignments.object_id") ;;
  l ← gets cw_tiers;
  raise_if (existsb (λ b, bool_decide (ta_id a = ta_id b) || tier_of (ta_object a) (ta_version a) b) l)
    (IntegrityError "tier_assignments") ;;
  modify (λ w, put_tiers (cw_tiers w ++ [a]) w).

Definition assign_tier (object : string) (version : nat) (tier : StorageTier) (principal : string) : cp TierAssignment :=
  existing ← get_tier object version;
  ts ← on_store now_utc;
  id ← on_store generate_id;
  match existing with
  | Some a =>
      modify (λ w, put_tiers ((λ b, if tier_of object version b then moved_to tier ts principal (Some (ta_tier a)) b else b)
        <$> cw_tiers w) w) ;;
      mret {| ta_id := ta_id a; ta_object := object; ta_version := version; ta_tier := tier; ta_at := ts; ta_by := principal;
        ta_previous := Some (ta_tier a) |}
  | None =>
      let a := {| ta_id := id; ta_object := object; ta_version := version; ta_tier := tier; ta_at := ts; ta_by := principal;
        ta_previous := None |} in
      insert_tier a ;; mret a
  end.

Definition by_version (a b : TierAssignment) : bool := ta_version a <=? ta_version b.
Definition newest_assignment (a b : TierAssignment) : bool := (ta_at b <=? ta_at a)%Z.

Definition get_object_tiers (object : string) : cp (list TierAssignment) :=
  gets (λ w, sort_by by_version (scan (filter (λ a, bool_decide (ta_object a = object) = true) (cw_tiers w)))).

(** [JOIN scoped_objects so ON ta.object_id = so.id WHERE ... so.object_type = ?]. *)
Definition of_type_row (w : cold_world) (type : option string) (a : TierAssignment) : bool :=
  match type with
  | None => true
  | Some t => existsb (λ o, of_object (ta_object a) o && bool_decide (so_type o = t)) (t_objects (st_db (cw_store w)))
  end.

Definition tier_rows (tier : StorageTier) (type : option string) (w : cold_world) : list TierAssignment :=
  scan (filter (λ a, bool_decide (ta_tier a = tier) && of_type_row w type a = true) (cw_tiers w)).

Definition get_objects_in_tier (tier : StorageTier) (type : option string) (limit : nat) : cp (list TierAssignment) :=
  gets (λ w, take limit (sort_by newest_assignment (tier_rows tier type w))).

Definition count_by_tier : cp (list (StorageTier * nat)) :=
  gets (λ w, (λ t, (t, length (filter (λ a, ta_tier a = t) (cw_tiers w)))) <$> all_tiers).

(** *** Policies *)

Definition create_policy (name : string) (source target : StorageTier) (condition value owner description : string)
  (type scope : option string) : cp RetentionPolicy :=
  raise_if (tier_rank target <=? tier_rank source) (ValueError ("Target tier (" +:+ tier_name target +:+
    ") must be colder than source tier (" +:+ tier_name source +:+ ")")) ;;
  raise_if (negb (bool_decide (condition ∈ ["age_days"; "lifecycle_state"])))
    (ValueError ("Unknown condition type: " +:+ condition)) ;;
  ts ← on_store now_utc;
  id ← on_store generate_id;
  raise_if (negb (known_principal owner)) (IntegrityError "retention_policies.owner_id") ;;
  raise_if (match scope with Some x => negb (known_scope x) | None => false end)
    (IntegrityError "retention_policies.scope_id") ;;
  l ← gets cw_policies;
  raise_if (existsb (λ p, bool_decide (rp_id p = id)) l) (IntegrityError "retention_policies.id") ;;
  let p := {| rp_id := id; rp_name := name; rp_description := description; rp_source := source; rp_target := target;
    rp_condition := condition; rp_value := value; rp_type := type; rp_scope := scope; rp_owner := owner;
    rp_created_at := ts; rp_lifecycle := ACTIVE |} in
  modify (λ w, put_policies (cw_policies w ++ [p]) w) ;;
  mret p.

Definition policy_of (id : string) (p : RetentionPolicy) : bool := bool_decide (rp_id p = id).

Definition get_policy (id : string) : cp (option RetentionPolicy) :=
  gets (λ w, head (scan (filter (λ p, policy_of id p = true) (cw_policies w)))).

Definition newest_policy (a b : RetentionPolicy) : bool := (rp_created_at b <=? rp_created_at a)%Z.

Definition list_policies (include_archived : bool) : cp (list RetentionPolicy) :=
  gets (λ w, sort_by newest_policy (scan (filter (λ p, include_archived ||
    negb (bool_decide (rp_lifecycle p = ARCHIVED)) = true) (cw_policies w)))).

Definition archived_policy (p : RetentionPolicy) : RetentionPolicy := {|
  rp_id := rp_id p; rp_name := rp_name p; rp_description := rp_description p; rp_source := rp_source p;
  rp_target := rp_target p; rp_condition := rp_condition p; rp_value := rp_value p; rp_type := rp_type p;
  rp_scope := rp_scope p; rp_owner := rp_owner p; rp_created_at := rp_created_at p; rp_lifecycle := ARCHIVED |}.

Definition archive_policy (id : string) : cp unit :=
  modify (λ w, put_policies ((λ p, if policy_of id p then archived_policy p else p) <$> cw_policies w) w).

(** *** Evaluation *)

(** [now - timedelta(days=n)], in microseconds: the bounds of timedelta and of datetime. *)
Definition days_before (now days : Z) : outcome Z :=
  if (999999999 <? Z.abs days)%Z then Raise (OverflowError ("days=" +:+ pretty days +:+ "; must have magnitude <= 999999999"))
  else
    let cutoff := (now - days * 86400000000)%Z in
    if ((cutoff <? -62135596800000000) || (253402300799999999 <? cutoff))%Z
    then Raise (OverflowError "date value out of range") else Ok cutoff.

Definition _matches_condition (a : TierAssignment) (p : RetentionPolicy) : cp bool :=
  if bool_decide (rp_condition p = "age_days") then
    match py_int (rp_value p) with
    | None => raise (ValueError ("invalid literal for int() with base 10: " +:+ py_repr_str (rp_value p)))
    | Some days =>
        now ← on_store now_utc;
        cutoff ← lift (days_before now days);
        mret (ta_at a <? cutoff)%Z
    end
  else if bool_decide (rp_condition p = "lifecycle_state") then
    row ← on_store (fetch_one t_objects (of_object (ta_object a)));
    mret (match row with None => false | Some o => bool_decide (lifecycle_name (so_lifecycle o) = rp_value p) end)
  else mret false.

Definition candidate (p : RetentionPolicy) (a : TierAssignment) : TierTransitionCandidate := {|
  tc_object := ta_object a; tc_version := ta_version a; tc_current := ta_tier a; tc_target := rp_target p;
  tc_policy := rp_id p;
  tc_reason := "Policy '" +:+ rp_name p +:+ "': " +:+ rp_condition p +:+ "=" +:+ rp_value p |}.

Definition _evaluate_policy (p : RetentionPolicy) : cp (list TierTransitionCandidate) :=
  assignments ← gets (tier_rows (rp_source p) (rp_type p));
  for_fold assignments [] (λ acc a,
    matches ← _matches_condition a p;
    mret (if (matches : bool) then acc ++ [candidate p a] else acc)).

Definition evaluate_policies : cp (list TierTransitionCandidate) :=
  policies ← list_policies false;
  for_fold policies [] (λ acc p, found ← _evaluate_policy p; mret (acc ++ found)).

Definition apply_transitions (candidates : list TierTransitionCandidate) (principal : string) : cp nat :=
  for_fold candidates 0 (λ count c,
    assign_tier (tc_object c) (tc_version c) (tc_target c) principal ;; mret (S count)).
End Tiers.

(** ** archival.py *)

Section Archives.
Context `{host : !Host} `{gz : !Gzip} (known_principal : string → bool).

Definition archive_of (id : string) (r : archive_row) : bool := bool_decide (ga_id (ar_meta r) = id).

Definition fetch_archive (id : string) : cp (option archive_row) :=
  gets (λ w, head (scan (filter (λ r, archive_of id r = true) (cw_archives w)))).

Definition entry_dict (type : string) (v : ObjectVersion) : jval := JVdict [
  ("object_id", JVstr (ov_object v)); ("object_type", JVstr type); ("version", jnat (ov_version v));
  ("data", JVdict (ov_data v)); ("created_at", JVstr (isoformat (ov_created_at v))); ("created_by", JVstr (ov_created_by v))].

(** The versions of an object, joined with its row. *)
Definition joined_versions (id : string) : lp (list (string * ObjectVersion)) :=
  rows ← select_sorted t_object_versions (λ v, bool_decide (ov_object v = id)) by_object_version;
  objects ← gets (λ s, t_objects (st_db s));
  mret (rows ≫= λ v, (λ o, (so_type o, v)) <$> filter (λ o, so_id o = ov_object v) objects).

Definition collect_entries (ids : list string) : lp (list jval) :=
  for_fold ids [] (λ acc id, rows ← joined_versions id; mret (acc ++ ((λ x, entry_dict x.1 x.2) <$> rows))).

Definition new_archive (id name description : string) (objects : list string) (owner : string) (ts : Z) (hash : string)
  (compressed original entries : nat) : GlacialArchive := {|
  ga_id := id; ga_name := if bool_decide (name = "") then "archive-" +:+ String.substring 0 8 id else name;
  ga_description := description; ga_objects := objects; ga_owner := owner; ga_created_at := ts; ga_sealed := false;
  ga_sealed_at := None; ga_hash := hash; ga_compressed := compressed; ga_original := original; ga_entries := entries;
  ga_lifecycle := ACTIVE |}.

Definition create_archive (objects : list string) (owner name description : string) : cp GlacialArchive :=
  raise_if (bool_decide (objects = [])) (ValueError "Cannot create archive with no object IDs") ;;
  entries ← on_store (collect_entries objects);
  let payload := json_dumps (JVlist entries) in
  ts ← on_store now_utc;
  let data := compress ts payload in
  id ← on_store generate_id;
  raise_if (negb (known_principal owner)) (IntegrityError "glacial_archives.owner_id") ;;
  l ← gets cw_archives;
  raise_if (existsb (archive_of id) l) (IntegrityError "glacial_archives.id") ;;
  let a := new_archive id name description objects owner ts (hexdigest data) (String.length data) (String.length payload)
    (length entries) in
  modify (λ w, put_archives (cw_archives w ++ [{| ar_meta := a; ar_data := data |}]) w) ;;
  mret a.

Definition get_archive (id : string) : cp (option GlacialArchive) := r ← fetch_archive id; mret (ar_meta <$> r).

Definition sealed_archive (ts : Z) (a : GlacialArchive) : GlacialArchive := {|
  ga_id := ga_id a; ga_name := ga_name a; ga_description := ga_description a; ga_objects := ga_objects a;
  ga_owner := ga_owner a; ga_created_at := ga_created_at a; ga_sealed := true; ga_sealed_at := Some ts; ga_hash := ga_hash a;
  ga_compressed := ga_compressed a; ga_original := ga_original a; ga_entries := ga_entries a; ga_lifecycle := ga_lifecycle a |}.

Definition archive_missing (id : string) : exn := ValueError ("Archive not found: " +:+ id).

Definition seal_archive (id : string) : cp GlacialArchive :=
  found ← get_archive id;
  match found with
  | None => raise (archive_missing id)
  | Some a =>
      raise_if (ga_sealed a) (ValueError ("Archive already sealed: " +:+ id)) ;;
      ts ← on_store now_utc;
      modify (λ w, put_archives ((λ r, if archive_of id r then {| ar_meta := sealed_archive ts (ar_meta r); ar_data := ar_data r |} else r)
        <$> cw_archives w) w) ;;
      mret (sealed_archive ts a)
  end.

Definition newest_archive (a b : archive_row) : bool := (ga_created_at (ar_meta b) <=? ga_created_at (ar_meta a))%Z.

Definition listed_archive (owner : option string) (sealed_only : bool) (r : archive_row) : bool :=
  negb (bool_decide (ga_lifecycle (ar_meta r) = ARCHIVED)) && filter_opt owner (ga_owner (ar_meta r)) &&
  (negb sealed_only || ga_sealed (ar_meta r)).

Definition list_archives (owner : option string) (sealed_only : bool) : cp (list GlacialArchive) :=
  gets (λ w, ar_meta <$> sort_by newest_archive (scan (filter (λ r, listed_archive owner sealed_only r = true) (cw_archives w)))).

Definition read_entry (v : jval) : parsed ArchiveEntry :=
  d ← as_dict v;
  object ← str_item d "object_id";
  type ← str_item d "object_type";
  version ← nat_item d "version";
  data ← item d "data" ≫= as_dict;
  created_at ← str_item d "created_at";
  created_by ← str_item d "created_by";
  mret {| ae_object := object; ae_type := type; ae_version := version; ae_data := data; ae_created_at := created_at;
    ae_created_by := created_by |}.

(** None when the payload leaves the model. *)
Definition extract_archive (id : string) : cp (option (list ArchiveEntry)) :=
  row ← fetch_archive id;
  match row with
  | None => raise (archive_missing id)
  | Some r =>
      let actual := hexdigest (ar_data r) in
      raise_if (negb (bool_decide (actual = ga_hash (ar_meta r)))) (ValueError ("Archive integrity check failed: expected " +:+
        ga_hash (ar_meta r) +:+ ", got " +:+ actual)) ;;
      text ← lift (decompress (ar_data r));
      match json_loads text with
      | None => raise (ValueError "JSONDecodeError")
      | Some entries =>
          match (l ← as_list entries; parse_all read_entry l) with
          | Parsed l => mret (Some l)
          | Failed e => raise e
          | Untyped => mret None
          end
      end
  end.

Definition extract_object (id object : string) : cp (option (list ArchiveEntry)) :=
  all ← extract_archive id; mret (filter (λ e, ae_object e = object) <$> all).

Definition verify_archive (id : string) : cp bool :=
  row ← fetch_archive id;
  match row with
  | None => raise (archive_missing id)
  | Some r => mret (bool_decide (hexdigest (ar_data r) = ga_hash (ar_meta r)))
  end.

Definition delete_archive (id : string) : cp unit :=
  found ← get_archive id;
  match found with
  | None => raise (archive_missing id)
  | Some a =>
      raise_if (ga_sealed a) (ValueError ("Cannot delete sealed archive: " +:+ id)) ;;
      modify (λ w, put_archives (filter (λ r, archive_of id r = false) (cw_archives w)) w)
  end.
End Archives.

(** ** Sorted keys

    What [json.dumps] writes with sorted keys is the plain text of the value with its
    keys sorted. *)

Fixpoint sort_keys (v : jval) : jval :=
  match v with
  | JVlist l => JVlist (sort_keys <$> l)
  | JVdict d => JVdict (sort_by by_key ((λ x, (x.1, sort_keys x.2)) <$> d))
  | _ => v
  end.

Definition sort_dict (d : jdict) : jdict := sort_by by_key ((λ x, (x.1, sort_keys x.2)) <$> d).

Lemma insert_by_key {A B} (f : A → B) (x : string * A) l :
  insert_by by_key (x.1, f x.2) ((λ x, (x.1, f x.2)) <$> l) = (λ x, (x.1, f x.2)) <$> insert_by by_key x l.
Proof.
  induction l as [|y l IH]; [done|]. rewrite fmap_cons. cbn [insert_by].
  change (by_key (x.1, f x.2) (y.1, f y.2)) with (by_key x y). destruct (by_key x y); [done|]. by rewrite IH.
Qed.

Lemma sort_by_key {A B} (f : A → B) (l : list (string * A)) :
  sort_by by_key ((λ x, (x.1, f x.2)) <$> l) = (λ x, (x.1, f x.2)) <$> sort_by by_key l.
Proof.
  induction l as [|x l IH]; [done|]. rewrite fmap_cons. unfold sort_by in *. cbn [foldr]. by rewrite IH, insert_by_key.
Qed.

Lemma dumps_sorted_text v : json_dumps v = json_text (sort_keys v).
Proof.
  induction v as [| | | | |l IH|d IH] using jval_nested_ind; [done..| |].
  - cbn [json_dumps sort_keys json_text]. do 3 f_equal. rewrite <-list_fmap_compose. apply list_fmap_ext. intros i x Hx.
    rewrite Forall_forall in IH. apply IH. by eapply list_elem_of_lookup_2.
  - cbn [json_dumps sort_keys json_text]. do 3 f_equal.
    assert (Hd : (λ x, (x.1, json_dumps x.2)) <$> d = (λ x, (x.1, json_text x.2)) <$> ((λ x, (x.1, sort_keys x.2)) <$> d)).
    { rewrite <-list_fmap_compose. apply list_fmap_ext. intros i x Hx. cbn. f_equal. rewrite Forall_forall in IH. apply IH.
      by eapply list_elem_of_lookup_2. }
    rewrite Hd, sort_by_key, <-list_fmap_compose. done.
Qed.

Lemma sort_keys_ok v : json_ok v = true → json_ok (sort_keys v) = true.
Proof.
  induction v as [| | | | |l IH|d IH] using jval_nested_ind; [done..| |]; rewrite Forall_forall in IH.
  - cbn [json_ok sort_keys]. rewrite !forallb_forall. intros Hl x (y & <- & Hy)%in_map_iff. rewrite <-list_elem_of_In in Hy.
    apply IH; [done|]. apply Hl. by apply list_elem_of_In.
  - cbn [json_ok sort_keys]. rewrite !andb_true_iff, !forallb_forall, !bool_decide_eq_true. intros [Hnd Hd].
    assert (Hp : sort_by by_key ((λ x, (x.1, sort_keys x.2)) <$> d) ≡ₚ (λ x, (x.1, sort_keys x.2)) <$> d) by apply sort_by_perm.
    split; [by rewrite Hp, <-list_fmap_compose|]. intros x Hx%list_elem_of_In. rewrite Hp in Hx.
    apply list_elem_of_fmap in Hx as (y & -> & Hy). apply IH; [done|]. apply Hd. by apply list_elem_of_In.
Qed.

(** ** Tiers *)

Section TierTheory.
Context `{host : !Host}.

Definition tier_key (a : TierAssignment) : string * nat := (ta_object a, ta_version a).

(** UNIQUE(object_id, version). *)
Definition tiers_ok (w : cold_world) : Prop := NoDup (tier_key <$> cw_tiers w).

(** No policy warms. *)
Definition policies_ok (w : cold_world) : Prop :=
  ∀ p, p ∈ cw_policies w → tier_rank (rp_source p) < tier_rank (rp_target p).

Lemma tier_of_key object version a : tier_of object version a = true ↔ tier_key a = (object, version).
Proof using.
  unfold tier_of, tier_key. rewrite andb_true_iff, bool_decide_eq_true, Nat.eqb_eq. split; [by intros [-> ->]|by intros [= -> ->]].
Qed.

Lemma get_tier_run a w : tiers_ok w → a ∈ cw_tiers w → get_tier (ta_object a) (ta_version a) w = (Ok (Some a), w).
Proof using.
  intros Hok Ha. unfold get_tier, gets. do 2 f_equal. set (l := filter _ (cw_tiers w)).
  assert (Hl : ∀ x, x ∈ scan l ↔ x = a).
  { intros x. unfold l. rewrite scan_perm, list_elem_of_filter, tier_of_key. split; [|by intros ->].
    intros [Hx Hin]. by apply (NoDup_fmap_inj_in tier_key (cw_tiers w)). }
  destruct (scan l) as [|x k]; cbn.
  - pose proof (proj2 (Hl a) eq_refl) as Hin. by apply elem_of_nil in Hin.
  - f_equal. apply Hl. left.
Qed.

Lemma on_store_policies {R} (m : lp R) : preserves policies_ok (on_store m).
Proof using. intros w Hw. unfold on_store. destruct (m (cw_store w)). exact Hw. Qed.

Lemma create_policy_colder known_principal known_scope name source target condition value owner description type scope :
  preserves policies_ok
    (create_policy known_principal known_scope name source target condition value owner description type scope).
Proof using.
  unfold create_policy. destruct (tier_rank target <=? tier_rank source) eqn:Hr; [by intros w|]. apply Nat.leb_gt in Hr.
  repeat (preserves_step || apply on_store_policies). intros w Hw p. cbn. rewrite elem_of_app, list_elem_of_singleton.
  intros [Hp| ->]; [by apply Hw|exact Hr].
Qed.

Lemma archive_policy_colder id : preserves policies_ok (archive_policy id).
Proof using.
  intros w Hw p. cbn. intros (x & -> & Hx)%list_elem_of_fmap. destruct (policy_of id x); exact (Hw x Hx).
Qed.

(** *** Evaluation *)

Definition matching (w : cold_world) (p : RetentionPolicy) (a : TierAssignment) : Prop :=
  p ∈ cw_policies w ∧ rp_lifecycle p ≠ ARCHIVED ∧ a ∈ cw_tiers w ∧ ta_tier a = rp_source p ∧
  of_type_row w (rp_type p) a = true ∧ _matches_condition a p w = (Ok true, w).

Lemma matches_reads a p : reads (_matches_condition a p).
Proof using.
  intros w. unfold _matches_condition. destruct (bool_decide _).
  - destruct (py_int (rp_value p)) as [days|]; [|done]. rewrite run_bind. destruct w as [s t pl l]. cbn.
    rewrite run_bind. unfold lift. by destruct (days_before (st_now s) days).
  - destruct (bool_decide _); [|done]. rewrite run_bind. by destruct w.
Qed.

(** A loop that only reads and collects. *)
Lemma collect_fold {X Y} (l : list X) (body : X → cp (list Y)) w acc r w' :
  (∀ x, x ∈ l → reads (body x)) →
  for_fold l acc (λ acc x, found ← body x; mret (acc ++ found)) w = (Ok r, w') →
  w' = w ∧ (∀ x, x ∈ l → ∃ k, body x w = (Ok k, w)) ∧
  ∀ y, y ∈ r ↔ y ∈ acc ∨ ∃ x k, x ∈ l ∧ body x w = (Ok k, w) ∧ y ∈ k.
Proof using.
  revert acc. induction l as [|x l IH]; intros acc Hreads; cbn [for_fold].
  - intros [= <- <-]. split_and!; [done|by intros x ?%elem_of_nil|]. intros y. split; [by left|].
    intros [?|(x & k & Hx & _)]; [done|by apply elem_of_nil in Hx].
  - intros H. apply bind_ok_inv in H as (acc' & w1 & H1 & H). apply bind_ok_inv in H1 as (k & w2 & Hk & H1).
    apply mret_ok in H1 as [-> ->]. assert (w2 = w) as -> by (eapply reads_run; [apply Hreads; left|exact Hk]).
    apply IH in H as (-> & Hrun & H); [|intros z Hz; apply Hreads; by right]. split_and!; [done| |].
    { intros z [-> |Hz]%elem_of_cons; [by exists k|by apply Hrun]. }
    intros y. rewrite H, elem_of_app. split.
    + intros [[?|?]|(z & j & Hz & ? & ?)]; [by left|right; exists x, k; split; [left|done]|right; exists z, j; split; [by right|done]].
    + intros [?|(z & j & [-> |Hz]%elem_of_cons & Hj & Hy)]; [by left; left| |right; by exists z, j].
      left. right. rewrite Hk in Hj. by injection Hj as <-.
Qed.

Lemma evaluate_policy_ok p w r w' :
  _evaluate_policy p w = (Ok r, w') → w' = w ∧
  ∀ c, c ∈ r ↔ ∃ a, a ∈ cw_tiers w ∧ ta_tier a = rp_source p ∧ of_type_row w (rp_type p) a = true ∧
    _matches_condition a p w = (Ok true, w) ∧ c = candidate p a.
Proof using.
  unfold _evaluate_policy. rewrite run_bind. cbn [gets]. intros H.
  assert (Hsame : ∀ l acc w, for_fold l acc (λ acc a, matches ← _matches_condition a p;
    mret (if (matches : bool) then acc ++ [candidate p a] else acc)) w =
    for_fold l acc (λ acc a, found ← (matches ← _matches_condition a p; mret (if (matches : bool) then [candidate p a] else []));
      mret (acc ++ found)) w).
  { clear. intros l. induction l as [|a l IH]; intros acc w; [done|]. cbn [for_fold]. rewrite !run_bind.
    destruct (_matches_condition a p w) as [[[]|e] w1]; cbn [mret prog_ret]; [|rewrite app_nil_r|done]; apply IH. }
  rewrite Hsame in H. apply collect_fold in H as (-> & _ & H).
  - split; [done|]. intros c. rewrite H. split.
    + intros [?%elem_of_nil|(a & k & Ha & Hk & Hc)]; [done|]. unfold tier_rows in Ha. rewrite scan_perm, list_elem_of_filter in Ha.
      destruct Ha as [[Ht%bool_decide_eq_true Htype]%andb_true_iff Ha]. rewrite run_bind in Hk.
      pose proof (matches_reads a p w) as Hw. destruct (_matches_condition a p w) as [[b|e] w1] eqn:Hm; [|done]. cbn in Hw. subst w1.
      injection Hk as <-. destruct b; [|by apply elem_of_nil in Hc]. apply list_elem_of_singleton in Hc as ->. by exists a.
    + intros (a & Ha & Ht & Htype & Hm & ->). right. exists a, [candidate p a]. split_and!; [| |left].
      * unfold tier_rows. rewrite scan_perm, list_elem_of_filter, andb_true_iff, bool_decide_eq_true. done.
      * by rewrite run_bind, Hm.
  - intros a _. apply reads_bind; [apply matches_reads|]. intros []; apply reads_ret.
Qed.

Lemma evaluate_policy_reads p : reads (_evaluate_policy p).
Proof using.
  unfold _evaluate_policy. apply reads_bind; [apply reads_gets|]. intros l. apply reads_for_fold. intros acc a _.
  apply reads_bind; [apply matches_reads|]. intros []; apply reads_ret.
Qed.

(** Evaluating names exactly the versions that match a policy that is not archived, and
    changes nothing. *)
Lemma evaluate_ok w cs w' :
  evaluate_policies w = (Ok cs, w') → w' = w ∧ ∀ c, c ∈ cs ↔ ∃ p a, matching w p a ∧ c = candidate p a.
Proof using.
  unfold evaluate_policies. rewrite run_bind. cbn [list_policies gets]. intros H. apply collect_fold in H as (-> & Hrun & H).
  - split; [done|]. intros c. rewrite H.
    assert (Hp : ∀ p, p ∈ sort_by newest_policy (scan (filter (λ p, false || negb (bool_decide (rp_lifecycle p = ARCHIVED)) = true)
      (cw_policies w))) ↔ p ∈ cw_policies w ∧ rp_lifecycle p ≠ ARCHIVED).
    { intros p. rewrite elem_of_sort_by, scan_perm, list_elem_of_filter. cbn. rewrite negb_true_iff, bool_decide_eq_false. tauto. }
    split.
    + intros [?%elem_of_nil|(p & k & Hin%Hp & Hk & Hc)]; [done|]. apply evaluate_policy_ok in Hk as [_ Hk].
      apply Hk in Hc as (a & Ha & Ht & Hty & Hm & ->). exists p, a. unfold matching. tauto.
    + intros (p & a & (Hin & Hlive & Ha & Ht & Hty & Hm) & ->). right. exists p.
      destruct (Hrun p) as [k Hk]; [by apply Hp|]. exists k. split_and!; [by apply Hp|done|].
      apply (evaluate_policy_ok p w k w Hk). by exists a.
  - intros p _. apply evaluate_policy_reads.
Qed.

(** *** Transitions *)

Lemma Forall2_in_impl {A B} (P Q : A → B → Prop) l k :
  Forall2 P l k → (∀ a b, a ∈ l → P a b → Q a b) → Forall2 Q l k.
Proof using.
  induction 1 as [|a b l k Hab _ IH]; intros H; constructor; [apply H; [left|done]|].
  apply IH. intros x y Hx. apply H. by right.
Qed.

Definition for_row (a : TierAssignment) (c : TierTransitionCandidate) : bool := tier_of (tc_object c) (tc_version c) a.

(** The row after the transitions of its version: at the target of the last. *)
Definition moved_row (cs : list TierTransitionCandidate) (a b : TierAssignment) : Prop :=
  ta_id b = ta_id a ∧ tier_key b = tier_key a ∧
  ta_tier b = from_option tc_target (ta_tier a) (last (filter (λ c, for_row a c = true) cs)).

Lemma assign_known a tier q w :
  tiers_ok w → a ∈ cw_tiers w →
  ∃ r w', assign_tier (ta_object a) (ta_version a) tier q w = (Ok r, w') ∧
    cw_tiers w' = (λ b, if tier_of (ta_object a) (ta_version a) b
      then moved_to tier (st_now (cw_store w)) q (Some (ta_tier a)) b else b) <$> cw_tiers w.
Proof using.
  intros Hok Ha. unfold assign_tier. rewrite run_bind, get_tier_run by done. destruct w as [s tiers policies archives].
  eexists _, _. split; [reflexivity|]. done.
Qed.

Lemma transitions_ok cs q n w :
  tiers_ok w → (∀ c, c ∈ cs → ∃ a, a ∈ cw_tiers w ∧ for_row a c = true) →
  ∃ w', for_fold cs n (λ count c, assign_tier (tc_object c) (tc_version c) (tc_target c) q ;; mret (S count)) w =
      (Ok (n + length cs), w') ∧ Forall2 (moved_row cs) (cw_tiers w) (cw_tiers w').
Proof using.
  revert n w. induction cs as [|c cs IH]; intros n w Hok Hcs.
  - exists w. split; [cbn; by rewrite Nat.add_0_r|]. apply Forall_Forall2_diag, Forall_true. intros a. by split_and!.
  - destruct (Hcs c) as (a & Ha & Hc); [left|]. apply tier_of_key in Hc as Hkey. injection Hkey as Hobj Hver.
    destruct (assign_known a (tc_target c) q w Hok Ha) as (r & w1 & Hrun & Htiers). rewrite Hobj, Hver in *.
    assert (Hkeys : tier_key <$> cw_tiers w1 = tier_key <$> cw_tiers w) by (rewrite Htiers; by apply update_column).
    destruct (IH (S n) w1) as (w2 & Hrun2 & Hall).
    + unfold tiers_ok. by rewrite Hkeys.
    + intros d Hd. destruct (Hcs d) as (x & Hx & Hdx); [by right|]. apply tier_of_key in Hdx.
      assert (Hin : tier_key x ∈ tier_key <$> cw_tiers w1) by (rewrite Hkeys; by apply list_elem_of_fmap_2).
      apply list_elem_of_fmap in Hin as (y & Hy & Hiny). exists y. split; [done|]. apply tier_of_key. congruence.
    + exists w2. split; [cbn [for_fold length]; rewrite run_bind, run_bind, Hrun; cbn [mret prog_ret]; by rewrite Hrun2, Nat.add_succ_r|].
      rewrite Htiers, Forall2_fmap_l in Hall. eapply Forall2_impl; [exact Hall|]. intros x y. cbn beta.
      intros Hm. change (moved_row cs (if for_row x c then moved_to (tc_target c) (st_now (cw_store w)) q (Some (ta_tier a)) x else x) y) in Hm.
      unfold moved_row. rewrite filter_cons. case_decide as Hx.
      * rewrite Hx in Hm. destruct Hm as (H1 & H2 & H3). split_and!; [done|done|]. rewrite H3.
        change (filter (λ c0, for_row (moved_to _ _ _ _ x) c0 = true) cs) with (filter (λ c0, for_row x c0 = true) cs).
        rewrite last_cons. by destruct (last _).
      * apply not_true_is_false in Hx. by rewrite Hx in Hm.
Qed.

(** Applying what the policies ask for moves a version exactly when some policy matches
    it, to the target of one that does: never to a warmer tier than it was in, and nothing
    else about it changes. *)
Theorem policies_never_warm q w cs w1 :
  tiers_ok w → policies_ok w → evaluate_policies w = (Ok cs, w1) →
  ∃ w2, apply_transitions cs q w1 = (Ok (length cs), w2) ∧
    Forall2 (λ a b, ta_id b = ta_id a ∧ tier_key b = tier_key a ∧ tier_rank (ta_tier a) ≤ tier_rank (ta_tier b) ∧
      (ta_tier b = ta_tier a ∧ (∀ p, ¬ matching w p a) ∨
       ∃ p, matching w p a ∧ ta_tier b = rp_target p ∧ tier_rank (ta_tier a) < tier_rank (ta_tier b)))
      (cw_tiers w) (cw_tiers w2).
Proof using.
  intros Hok Hpol [-> Hcs]%evaluate_ok. destruct (transitions_ok cs q 0 w Hok) as (w2 & Hrun & Hall).
  { intros c (p & a & (_ & _ & Ha & _) & ->)%Hcs. exists a. split; [done|]. by apply tier_of_key. }
  exists w2. split; [exact Hrun|].
  eapply Forall2_in_impl; [exact Hall|]. intros a b Ha (H1 & H2 & H3).
  destruct (last (filter (λ c, for_row a c = true) cs)) as [c|] eqn:Hlast; cbn in H3.
  - apply last_Some_elem_of, list_elem_of_filter in Hlast as [Hrow (p & a' & Hm & ->)%Hcs]. apply tier_of_key in Hrow.
    assert (a' = a) as -> by (apply (NoDup_fmap_inj_in tier_key (cw_tiers w)); [done|apply Hm|done|by rewrite Hrow]).
    assert (Hlt : tier_rank (ta_tier a) < tier_rank (ta_tier b)).
    { rewrite H3. cbn. destruct Hm as (Hp & _ & _ & -> & _). by apply Hpol. }
    split_and!; [done|done|lia|]. right. by exists p.
  - split_and!; [done|done|by rewrite H3|]. left. split; [done|]. intros p Hm. apply last_None in Hlast.
    assert (Hc : candidate p a ∈ filter (λ c, for_row a c = true) cs); [|rewrite Hlast in Hc; by apply elem_of_nil in Hc].
    apply list_elem_of_filter. split; [by apply tier_of_key|]. apply Hcs. by exists p, a.
Qed.
End TierTheory.

(** ** Archives *)

Section ArchiveTheory.
Context `{host : !Host} `{gz : !Gzip}.

(** What the archives of an object hold: its versions with the keys of their data sorted. *)
Definition entry_of (type : string) (v : ObjectVersion) : ArchiveEntry := {|
  ae_object := ov_object v; ae_type := type; ae_version := ov_version v; ae_data := sort_dict (ov_data v);
  ae_created_at := isoformat (ov_created_at v); ae_created_by := ov_created_by v |}.

Definition archived_versions (t : tables) (ids : list string) : list (string * ObjectVersion) :=
  ids ≫= λ id, match find (of_object id) (t_objects t) with
    | Some o => (λ v, (so_type o, v)) <$> versions_of_object t id
    | None => []
    end.

Definition archived_entries (t : tables) (ids : list string) : list ArchiveEntry :=
  (λ x, entry_of x.1 x.2) <$> archived_versions t ids.

Lemma read_entry_back type v : read_entry (sort_keys (entry_dict type v)) = Parsed (entry_of type v).
Proof using.
  assert (Hsorted : sort_keys (entry_dict type v) = JVdict [
    ("created_at", JVstr (isoformat (ov_created_at v))); ("created_by", JVstr (ov_created_by v));
    ("data", JVdict (sort_dict (ov_data v))); ("object_id", JVstr (ov_object v)); ("object_type", JVstr type);
    ("version", jnat (ov_version v))]) by reflexivity.
  rewrite Hsorted. unfold read_entry. by read_items.
Qed.

Lemma find_object t id :
  objects_ok t → match find (of_object id) (t_objects t) with
  | Some o => o ∈ t_objects t ∧ so_id o = id ∧ filter (λ o, so_id o = id) (t_objects t) = [o]
  | None => versions_of_object t id = []
  end.
Proof using.
  intros Hok. destruct (find (of_object id) (t_objects t)) as [o|] eqn:Hf.
  - apply find_Some_elem in Hf as [Ho Hid%bool_decide_eq_true]. split_and!; [done|done|].
    pose proof (ok_ids t Hok) as Hnd. revert Ho Hnd. generalize (t_objects t). intros l. induction l as [|x l IH]; [by intros ?%elem_of_nil|].
    rewrite fmap_cons, NoDup_cons. intros Ho [Hx Hnd]. rewrite filter_cons. apply elem_of_cons in Ho as [<-|Ho].
    + rewrite decide_True by done. f_equal. apply filter_nil_iff. intros y Hy Heq. apply Hx. rewrite Hid, <-Heq. by apply list_elem_of_fmap_2.
    + rewrite decide_False; [by apply IH|]. intros Heq. apply Hx. rewrite Heq, <-Hid. by apply list_elem_of_fmap_2.
  - apply filter_nil_iff. intros v Hv Heq. pose proof (ok_owner t Hok v Hv) as (o & Ho & Hin)%list_elem_of_fmap.
    pose proof (find_None_elem _ _ o Hf Hin) as Hn. apply bool_decide_eq_false in Hn. congruence.
Qed.

Lemma joined_versions_run id s :
  objects_ok (st_db s) →
  joined_versions id s = (Ok (match find (of_object id) (t_objects (st_db s)) with
    | Some o => (λ v, (so_type o, v)) <$> versions_of_object (st_db s) id
    | None => [] end), s).
Proof using.
  intros Hok. unfold joined_versions. rewrite run_bind. unfold select_sorted, gets. rewrite run_bind. unfold mret, prog_ret. do 2 f_equal.
  pose proof (find_object (st_db s) id Hok) as Hfind. destruct (find (of_object id) (t_objects (st_db s))) as [o|].
  - destruct Hfind as (Ho & <- & Hone). rewrite versions_sorted by done.
    assert (Hv : ∀ v, v ∈ versions_of_object (st_db s) (so_id o) → ov_object v = so_id o) by by intros v [? _]%list_elem_of_filter.
    revert Hv. generalize (versions_of_object (st_db s) (so_id o)). intros l. induction l as [|v l IH]; intros Hv; [done|].
    cbn [mbind list_bind]. rewrite (Hv v) by left. rewrite Hone. rewrite IH; [done|]. intros w Hw. apply Hv. by right.
  - assert (Hnil : filter (λ v, bool_decide (ov_object v = id) = true) (t_object_versions (st_db s)) = []).
    { rewrite <-Hfind. unfold versions_of_object. apply list_filter_iff. intros v. by rewrite bool_decide_eq_true. }
    rewrite Hnil. pose proof (scan_perm (@nil ObjectVersion)) as Hp. apply Permutation_nil_r in Hp. by rewrite Hp.
Qed.

Lemma collect_entries_run ids s :
  objects_ok (st_db s) →
  collect_entries ids s = (Ok ((λ x, entry_dict x.1 x.2) <$> archived_versions (st_db s) ids), s).
Proof using.
  intros Hok. unfold collect_entries.
  assert (Hfold : ∀ acc, for_fold ids acc (λ acc id, rows ← joined_versions id; mret (acc ++ ((λ x, entry_dict x.1 x.2) <$> rows))) s =
    (Ok (acc ++ ((λ x, entry_dict x.1 x.2) <$> archived_versions (st_db s) ids)), s)); [|apply Hfold].
  induction ids as [|id ids IH]; intros acc; cbn [for_fold].
  - cbn. by rewrite app_nil_r.
  - rewrite run_bind, run_bind, joined_versions_run by done. cbn [mret prog_ret]. rewrite IH. unfold archived_versions at 2.
    cbn [mbind list_bind]. fold (archived_versions (st_db s) ids). by rewrite fmap_app, <-app_assoc.
Qed.

Lemma parse_all_map {A B C} (f : A → parsed B) (g : C → A) (h : C → B) l :
  (∀ x, x ∈ l → f (g x) = Parsed (h x)) → parse_all f (g <$> l) = Parsed (h <$> l).
Proof using.
  induction l as [|x l IH]; intros H; [done|]. rewrite !fmap_cons. cbn [parse_all]. rewrite H by left.
  cbn [mbind parsed_bind]. rewrite IH; [done|]. intros y Hy. apply H. by right.
Qed.

(** The payload reads back as the entries. *)
Lemma payload_back t ids :
  data_ok t → let payload := json_dumps (JVlist ((λ x, entry_dict x.1 x.2) <$> archived_versions t ids)) in
  ∃ v, json_loads payload = Some v ∧ (l ← as_list v; parse_all read_entry l) = Parsed (archived_entries t ids).
Proof using.
  intros Hdata payload. unfold payload. rewrite dumps_sorted_text, json_roundtrip.
  - eexists. split; [done|]. cbn [sort_keys as_list mbind parsed_bind]. rewrite <-list_fmap_compose. apply parse_all_map.
    intros x _. apply read_entry_back.
  - apply sort_keys_ok. cbn [json_ok]. apply forallb_forall. intros x (y & <- & Hy)%in_map_iff. rewrite <-list_elem_of_In in Hy.
    unfold archived_versions in Hy. apply list_elem_of_bind in Hy as (id & Hy & _). destruct (find (of_object id) (t_objects t)) as [o|];
      [|by apply elem_of_nil in Hy]. apply list_elem_of_fmap in Hy as (v & -> & [_ Hv]%list_elem_of_filter).
    unfold data_ok in Hdata. rewrite Forall_forall in Hdata. specialize (Hdata v Hv). unfold entry_dict. cbn [json_ok forallb snd fst] in *.
    by rewrite Hdata.
Qed.

(** *** What stays *)

Definition row_id (r : archive_row) : string := ga_id (ar_meta r).

Record archives_ok (w : cold_world) : Prop := {
  ao_ids : NoDup (row_id <$> cw_archives w);
  ao_hashes : ∀ r, r ∈ cw_archives w → ga_hash (ar_meta r) = hexdigest (ar_data r);
}.

(** Sealed archives stay as they are. *)
Definition keeps_sealed (w w' : cold_world) : Prop :=
  ∀ r, r ∈ cw_archives w → ga_sealed (ar_meta r) = true → r ∈ cw_archives w'.

Lemma fetch_archive_run id w :
  archives_ok w → fetch_archive id w = (Ok (find (archive_of id) (cw_archives w)), w).
Proof using.
  intros [Hnd _]. unfold fetch_archive, gets. do 2 f_equal. set (l := filter _ (cw_archives w)).
  assert (Hl : ∀ x, x ∈ scan l ↔ x ∈ cw_archives w ∧ row_id x = id).
  { intros x. unfold l, archive_of. rewrite scan_perm, list_elem_of_filter, bool_decide_eq_true. unfold row_id. tauto. }
  destruct (find (archive_of id) (cw_archives w)) as [r|] eqn:Hf.
  - apply find_Some_elem in Hf as [Hr Hid%bool_decide_eq_true]. destruct (scan l) as [|x k] eqn:Hs.
    + assert (Hin : r ∈ @nil archive_row) by by apply Hl. by apply elem_of_nil in Hin.
    + cbn. f_equal. destruct (proj1 (Hl x)) as [Hx Hxid]; [left|].
      apply (NoDup_fmap_inj_in row_id (cw_archives w)); [done..|]. by rewrite Hxid, <-Hid.
  - destruct (scan l) as [|x k] eqn:Hs; [done|]. destruct (proj1 (Hl x)) as [Hx Hid]; [left|].
    pose proof (find_None_elem _ _ x Hf Hx) as Hn. by apply bool_decide_eq_false in Hn.
Qed.

Lemma find_archive r w : archives_ok w → r ∈ cw_archives w → find (archive_of (row_id r)) (cw_archives w) = Some r.
Proof using.
  intros [Hnd _] Hr. destruct (find (archive_of (row_id r)) (cw_archives w)) as [x|] eqn:Hf.
  - apply find_Some_elem in Hf as [Hx Hid%bool_decide_eq_true]. f_equal. by apply (NoDup_fmap_inj_in row_id (cw_archives w)).
  - pose proof (find_None_elem _ _ r Hf Hr) as Hn. by apply bool_decide_eq_false in Hn.
Qed.

Lemma collect_entries_reads ids s : ∃ l, collect_entries ids s = (Ok l, s).
Proof using.
  unfold collect_entries. generalize (@nil jval). induction ids as [|id ids IH]; intros acc; [by eexists|].
  cbn [for_fold]. rewrite run_bind, run_bind. unfold joined_versions at 1. rewrite run_bind. unfold select_sorted, gets at 1.
  rewrite run_bind. unfold gets at 1, mret, prog_ret. apply IH.
Qed.

Lemma create_archive_run known_principal objects owner name description w l :
  collect_entries objects (cw_store w) = (Ok l, cw_store w) →
  let id := id_of (st_next (cw_store w)) in
  let w1 := put_store (put_next (S (st_next (cw_store w))) (cw_store w)) w in
  let payload := json_dumps (JVlist l) in
  let data := compress (st_now (cw_store w)) payload in
  let a := new_archive id name description objects owner (st_now (cw_store w)) (hexdigest data) (String.length data)
    (String.length payload) (length l) in
  create_archive known_principal objects owner name description w =
    if bool_decide (objects = []) then (Raise (ValueError "Cannot create archive with no object IDs"), w)
    else if negb (known_principal owner) then (Raise (IntegrityError "glacial_archives.owner_id"), w1)
    else if existsb (archive_of id) (cw_archives w) then (Raise (IntegrityError "glacial_archives.id"), w1)
    else (Ok a, put_archives (cw_archives w ++ [{| ar_meta := a; ar_data := data |}]) w1).
Proof using.
  intros Hl. cbn zeta. unfold create_archive. rewrite run_bind. unfold raise_if at 1. destruct (bool_decide (objects = [])); [done|].
  unfold mret at 1, prog_ret at 1. rewrite run_bind. unfold on_store at 1. rewrite Hl. rewrite run_bind. unfold on_store at 1.
  cbn [now_utc gets]. rewrite run_bind. unfold on_store at 1. change (generate_id ?s) with (Ok (id_of (st_next s)), put_next (S (st_next s)) s).
  cbn [cw_store put_store]. rewrite run_bind. unfold raise_if at 1.
  destruct (negb (known_principal owner)); [done|]. unfold mret at 1, prog_ret at 1. rewrite run_bind.
  unfold gets at 1. rewrite run_bind. unfold raise_if at 1. cbn [cw_archives put_store]. by destruct (existsb _ (cw_archives w)).
Qed.

(** A creation, on both exits. *)
Lemma create_archive_cases known_principal objects owner name description w l :
  collect_entries objects (cw_store w) = (Ok l, cw_store w) →
  (∃ e w', create_archive known_principal objects owner name description w = (Raise e, w') ∧ cw_archives w' = cw_archives w) ∨
  ∃ a w', create_archive known_principal objects owner name description w = (Ok a, w') ∧
    let payload := json_dumps (JVlist l) in
    let data := compress (st_now (cw_store w)) payload in
    a = new_archive (ga_id a) name description objects owner (st_now (cw_store w)) (hexdigest data) (String.length data)
      (String.length payload) (length l) ∧
    ¬ (ga_id a ∈ row_id <$> cw_archives w) ∧ cw_archives w' = cw_archives w ++ [{| ar_meta := a; ar_data := data |}].
Proof using.
  intros Hl. rewrite (create_archive_run known_principal objects owner name description w l Hl).
  destruct (bool_decide (objects = [])); [left; by eexists _, _|]. destruct (negb (known_principal owner)); [left; by eexists _, _|].
  set (id := id_of (st_next (cw_store w))). destruct (existsb (archive_of id) (cw_archives w)) eqn:Hclash; [left; by eexists _, _|].
  right. eexists _, _. split; [reflexivity|]. cbn. split_and!; [done| |done].
  intros (r & Hid & Hr)%list_elem_of_fmap. assert (existsb (archive_of id) (cw_archives w) = true); [|congruence].
  apply existsb_exists. exists r. rewrite <-list_elem_of_In. split; [done|]. by apply bool_decide_eq_true.
Qed.

(** *** The operations on one archive *)

Lemma get_archive_run id w :
  archives_ok w → get_archive id w = (Ok (ar_meta <$> find (archive_of id) (cw_archives w)), w).
Proof using. intros Hok. unfold get_archive. by rewrite run_bind, fetch_archive_run. Qed.

Definition sealed_row (ts : Z) (id : string) (r : archive_row) : archive_row :=
  if archive_of id r then {| ar_meta := sealed_archive ts (ar_meta r); ar_data := ar_data r |} else r.

Lemma seal_archive_run id w :
  archives_ok w → seal_archive id w =
    match find (archive_of id) (cw_archives w) with
    | None => (Raise (archive_missing id), w)
    | Some r => if ga_sealed (ar_meta r) then (Raise (ValueError ("Archive already sealed: " +:+ id)), w)
        else (Ok (sealed_archive (st_now (cw_store w)) (ar_meta r)),
          put_archives (sealed_row (st_now (cw_store w)) id <$> cw_archives w) w)
    end.
Proof using.
  intros Hok. unfold seal_archive. rewrite run_bind, get_archive_run by done.
  destruct (find (archive_of id) (cw_archives w)) as [r|]; [|done]. cbn [fmap option_fmap option_map].
  rewrite run_bind. unfold raise_if. destruct (ga_sealed (ar_meta r)); [done|]. by destruct w.
Qed.

Lemma delete_archive_run id w :
  archives_ok w → delete_archive id w =
    match find (archive_of id) (cw_archives w) with
    | None => (Raise (archive_missing id), w)
    | Some r => if ga_sealed (ar_meta r) then (Raise (ValueError ("Cannot delete sealed archive: " +:+ id)), w)
        else (Ok tt, put_archives (filter (λ r, archive_of id r = false) (cw_archives w)) w)
    end.
Proof using.
  intros Hok. unfold delete_archive. rewrite run_bind, get_archive_run by done.
  destruct (find (archive_of id) (cw_archives w)) as [r|]; [|done]. cbn [fmap option_fmap option_map].
  rewrite run_bind. unfold raise_if. by destruct (ga_sealed (ar_meta r)).
Qed.

Lemma extract_archive_run r w :
  archives_ok w → r ∈ cw_archives w → extract_archive (row_id r) w =
    (text ← lift (decompress (ar_data r));
     match json_loads text with
     | None => raise (ValueError "JSONDecodeError")
     | Some entries => match (l ← as_list entries; parse_all read_entry l) with
         | Parsed l => mret (Some l) | Failed e => raise e | Untyped => mret None end
     end) w.
Proof using.
  intros Hok Hr. unfold extract_archive. rewrite run_bind, fetch_archive_run by done. rewrite find_archive by done.
  rewrite run_bind. unfold raise_if. rewrite (bool_decide_eq_true_2 (hexdigest (ar_data r) = _)); [done|]. symmetry. by apply Hok.
Qed.

(** What may happen to the three tables; the rest of the database and the clock move freely. *)
Inductive cold_step (known_principal : string → bool) : relation cold_world :=
  | step_create_archive objects owner name description w :
      cold_step known_principal w (create_archive known_principal objects owner name description w).2
  | step_seal id w : cold_step known_principal w (seal_archive id w).2
  | step_delete id w : cold_step known_principal w (delete_archive id w).2
  | step_else w w' : cw_archives w' = cw_archives w → cold_step known_principal w w'.

Lemma sealing_keeps ts id w :
  archives_ok w → (∀ r, r ∈ cw_archives w → row_id r = id → ga_sealed (ar_meta r) = false) →
  let w' := put_archives (sealed_row ts id <$> cw_archives w) w in
  archives_ok w' ∧ keeps_sealed w w'.
Proof using.
  intros [Hnd Hhash] Hopen w'. split; [split|].
  - cbn. unfold sealed_row. by rewrite update_column.
  - intros x. cbn. intros (r & -> & Hr)%list_elem_of_fmap. unfold sealed_row. destruct (archive_of id r); exact (Hhash r Hr).
  - intros r Hr Hsealed. cbn. apply list_elem_of_fmap. exists r. split; [|done]. unfold sealed_row, archive_of. case_bool_decide as Hid; [|done].
    by rewrite (Hopen r Hr Hid) in Hsealed.
Qed.

Lemma unchanged_keeps w w' :
  cw_archives w' = cw_archives w → archives_ok w → archives_ok w' ∧ keeps_sealed w w'.
Proof using.
  unfold keeps_sealed. intros Hsame [Hnd Hhash]. split; [|rewrite Hsame; by intros r Hr _].
  split; rewrite Hsame; [exact Hnd|exact Hhash].
Qed.

Lemma step_keeps known_principal w w' :
  cold_step known_principal w w' → archives_ok w → archives_ok w' ∧ keeps_sealed w w'.
Proof using.
  intros Hstep Hok. destruct Hstep as [objects owner name description w|id w|id w|w w' Hsame].
  - destruct (collect_entries_reads objects (cw_store w)) as [l Hl].
    destruct (create_archive_cases known_principal objects owner name description w l Hl)
      as [(e & w' & -> & Hsame)|(a & w' & -> & Ha & Hid & Hrows)]; cbn [snd].
    + by apply unchanged_keeps.
    + destruct Hok as [Hnd Hhash]. split; [split|]; unfold keeps_sealed; rewrite Hrows.
      * apply fresh_snoc; [done|]. intros y Hy Heq. apply Hid. cbn in Heq. unfold row_id in Heq. cbn in Heq. rewrite Heq. by apply (list_elem_of_fmap_2 row_id).
      * intros r [Hr| ->%list_elem_of_singleton]%elem_of_app; [by apply Hhash|]. cbn. by rewrite Ha.
      * intros r Hr _. apply elem_of_app. by left.
  - rewrite seal_archive_run by done. destruct (find (archive_of id) (cw_archives w)) as [r|] eqn:Hf; [|by apply unchanged_keeps].
    destruct (ga_sealed (ar_meta r)) eqn:Hs; [by apply unchanged_keeps|]. apply sealing_keeps; [done|].
    intros x Hx <-. rewrite find_archive in Hf by done. by injection Hf as ->.
  - rewrite delete_archive_run by done. destruct (find (archive_of id) (cw_archives w)) as [r|] eqn:Hf; [|by apply unchanged_keeps].
    destruct (ga_sealed (ar_meta r)) eqn:Hs; [by apply unchanged_keeps|]. cbn [snd]. destruct Hok as [Hnd Hhash]. split; [split|]; cbn.
    + by apply NoDup_fmap_filter.
    + intros x [_ Hx]%list_elem_of_filter. by apply Hhash.
    + intros x Hx Hsealed. apply list_elem_of_filter. split; [|done]. apply bool_decide_eq_false. intros <-.
      change (ga_id (ar_meta x)) with (row_id x) in Hf. rewrite find_archive in Hf by done. injection Hf as ->. congruence.
  - by apply unchanged_keeps.
Qed.

Lemma steps_keep known_principal w w' :
  rtc (cold_step known_principal) w w' → archives_ok w → archives_ok w' ∧ keeps_sealed w w'.
Proof using.
  induction 1 as [w|w w1 w' Hstep _ IH]; intros Hok; [by split; [|intros r]|].
  destruct (step_keeps known_principal w w1 Hstep Hok) as [Hok1 H1]. destruct (IH Hok1) as [Hok' H2].
  split; [done|]. intros r Hr Hs. apply H2; [by apply H1|done].
Qed.

(** C34: A sealed archive stays: whatever is archived, sealed or deleted afterwards, and however
    the objects change, it is the same record, it extracts to the versions the named objects had
    when it was made, its hash verifies, and both sealing it again and deleting it raise and
    change nothing. *)
Theorem sealed_archive_final known_principal objects owner name description w a w1 w1' b w2 w3 :
  archives_ok w → objects_ok (st_db (cw_store w)) → data_ok (st_db (cw_store w)) →
  create_archive known_principal objects owner name description w = (Ok a, w1) →
  cw_archives w1' = cw_archives w1 → seal_archive (ga_id a) w1' = (Ok b, w2) →
  rtc (cold_step known_principal) w2 w3 →
  get_archive (ga_id a) w3 = (Ok (Some b), w3) ∧ b = sealed_archive (st_now (cw_store w1')) a ∧
  extract_archive (ga_id a) w3 = (Ok (Some (archived_entries (st_db (cw_store w)) objects)), w3) ∧
  verify_archive (ga_id a) w3 = (Ok true, w3) ∧
  delete_archive (ga_id a) w3 = (Raise (ValueError ("Cannot delete sealed archive: " +:+ ga_id a)), w3) ∧
  seal_archive (ga_id a) w3 = (Raise (ValueError ("Archive already sealed: " +:+ ga_id a)), w3).
Proof using.
  intros Hok Hobj Hdata Hcreate Hsame Hseal Hsteps.
  pose proof (collect_entries_run objects (cw_store w) Hobj) as Hl.
  assert (Hok1 : archives_ok w1).
  { pose proof (step_keeps known_principal w _ (step_create_archive _ objects owner name description w) Hok) as [H _]. by rewrite Hcreate in H. }
  destruct (create_archive_cases known_principal objects owner name description w _ Hl)
    as [(e & x & Hrun & _)|(a' & x & Hrun & Ha & _ & Hrows)]; rewrite Hcreate in Hrun; [done|]. injection Hrun as <- <-.
  set (data := compress _ _) in *. set (r := {| ar_meta := a; ar_data := data |}) in *.
  destruct (unchanged_keeps w1 w1' Hsame Hok1) as [Hok1' _].
  assert (Hr : r ∈ cw_archives w1') by (rewrite Hsame, Hrows; apply elem_of_app; right; by apply list_elem_of_singleton).
  pose proof (seal_archive_run (ga_id a) w1' Hok1') as Hrun. rewrite Hseal in Hrun.
  change (ga_id a) with (row_id r) in Hrun at 1 2. rewrite (find_archive r w1' Hok1' Hr) in Hrun. cbn [ar_meta r] in Hrun.
  assert (Hopen : ga_sealed a = false) by by rewrite Ha. rewrite Hopen in Hrun. injection Hrun as Hb Hw2.
  destruct (step_keeps known_principal w1' w2) as [Hok2 _]; [|done|].
  { replace w2 with (seal_archive (ga_id a) w1').2 by by rewrite Hseal. constructor. }
  set (r' := {| ar_meta := b; ar_data := data |}).
  assert (Hr2 : r' ∈ cw_archives w2).
  { rewrite Hw2. cbn. apply list_elem_of_fmap. exists r. split; [|done]. unfold sealed_row, archive_of.
    rewrite bool_decide_eq_true_2 by done. unfold r'. by rewrite Hb. }
  destruct (steps_keep known_principal w2 w3 Hsteps Hok2) as [Hok3 Hkeep].
  assert (Hr3 : r' ∈ cw_archives w3) by (apply Hkeep; [done|unfold r'; by rewrite Hb]).
  assert (Hid : ga_id a = row_id r') by (unfold r', row_id; by rewrite Hb).
  rewrite Hid. rewrite get_archive_run, delete_archive_run, seal_archive_run, extract_archive_run, (find_archive r') by done.
  cbn [ar_meta ar_data r']. assert (Hsealed : ga_sealed b = true) by by rewrite Hb. rewrite Hsealed.
  split_and!; [done|done| | |done|done].
  - rewrite run_bind. unfold data. rewrite decompress_compress. cbn [lift].
    destruct (payload_back (st_db (cw_store w)) objects Hdata) as (v & -> & Hv). by rewrite Hv.
  - unfold verify_archive. rewrite run_bind, fetch_archive_run, (find_archive r') by done.
    rewrite (bool_decide_eq_true_2 (hexdigest _ = _)); [done|]. symmetry. by apply Hok3.
Qed.
End ArchiveTheory.
