(* ===== verification/LegacyDemo.v ===== *)
(** * Legacy v1: a host to run on

    A concrete [Host] (rows come back in reverse, the digest is a polynomial)
    and the runs that instantiate the theorems of the legacy layers; it models
    no code of the repository. *)

From Stdlib Require Import Ascii.
From S2P Require Import Prelude LegacyTypes Schema Json Trail Rules Tenancy Visibility.

(** A digest: a polynomial of the text modulo 2^32. *)
Fixpoint text_hash (s : string) (acc : N) : N :=
  match s with
  | EmptyString => acc
  | String c s' => text_hash s' ((acc * 65599 + N.of_nat (Ascii.nat_of_ascii c) + 1) mod 2 ^ 32)
  end.

Fixpoint hex_text (width : nat) (n : N) (tail : string) : string :=
  match width with
  | 0 => tail
  | S w => hex_text w (N.div n 16) (str1 (hex_digit (N.to_nat (n mod 16))) +:+ tail)
  end.

Lemma hex_text_hex w n t :
  all_hex t = true → all_hex (hex_text w n t) = true ∧ String.length (hex_text w n t) = w + String.length t.
Proof.
  revert n t. induction w as [|w IH]; intros n t Ht; [done|]. cbn [hex_text].
  assert (Hd : ∃ d, hex_value (hex_digit (N.to_nat (n mod 16))) = Some d).
  { assert (Hlt : N.to_nat (n mod 16) < 16) by (pose proof (N.mod_lt n 16); lia).
    revert Hlt. generalize (N.to_nat (n mod 16)). intros k Hk.
    do 16 (destruct k as [|k]; [by eexists|]). lia. }
  destruct Hd as [d Hd]. destruct (IH (N.div n 16) (str1 (hex_digit (N.to_nat (n mod 16))) +:+ t)) as [H1 H2].
  { simpl. by rewrite Hd. }
  split; [done|]. rewrite H2, string_app_length. simpl String.length. lia.
Qed.

Definition demo_digest (s : string) : string := hex_text 64 (text_hash s 0) "".

Lemma demo_digest_hex s : all_hex (demo_digest s) = true ∧ String.length (demo_digest s) = 64.
Proof. exact (hex_text_hex 64 (text_hash s 0) "" eq_refl). Qed.

#[export] Instance demo_host : Host := {
  isoformat := pretty;
  hexdigest := demo_digest;
  hexdigest_hex := demo_digest_hex;
  scan := @reverse;
  scan_perm := @reverse_Permutation;
}.

Definition empty_tables : tables :=
  Tables [] [] [] [] [] [] [] [] [] [] [] (VaultTables [] [] [] [] []) 
    (LayerTables (SchedTables [] [] []) (EnvTables [] [] [] []) (FlowTables [] [] [] [] [])
      (DeployTables [] [] []) (EventTables [] [] [] []) (NotifyTables [] [] []) (IdentityTables [] [] [])
      (BlueprintTables [] [] [] []) (PluginTables [] [] [] []) (ConnectorTables [] [] [] [] [] [] [] [])).
Definition fresh_store : store := Store empty_tables 1000 0 0 "" [] [].

Lemma fresh_coherent : coherent fresh_store.
Proof. split; [split; [constructor|done]|done]. Qed.

Definition a_request : trace_request :=
  states_req None (Some [("name", JVstr "q1")]) (request "alice" ActionType.CREATE "Document" "doc-1").

(** Two entries of another process that win the first race. *)
Definition rival (n : nat) (prev : string) : TraceEntry :=
  new_entry (request "bob" ActionType.READ "Document" "doc-2") ("r" +:+ pretty n) n 900 prev.
Definition rival_batch : list TraceEntry := [rival 1 ""; rival 2 (te_hash (rival 1 ""))].

Definition contended : store := put_rivals [rival_batch] fresh_store.
Definition recorded_store : store := (record a_request contended).2.

Example recorded_trail :
  (λ e, (te_sequence e, te_actor e)) <$> t_trail (st_db recorded_store) =
    [(1, "bob"); (2, "bob"); (3, "alice")].
Proof. vm_compute. reflexivity. Qed.

Lemma rival_continues : continues (st_sequence contended) (t_trail (st_db contended)) [rival_batch].
Proof.
  split; [done|]. split; [|done]. split.
  - repeat constructor; vm_compute; lia.
  - by repeat split.
Qed.

Lemma demo_fresh : fresh_ids (st_next contended) (t_trail (st_db contended) ++ mjoin [rival_batch]).
Proof.
  intros m x _. simpl. rewrite !elem_of_cons, elem_of_nil.
  intros [-> | [-> | []]]; unfold id_of; vm_compute; done.
Qed.

Lemma record_extends_trail_witness :
  ∃ e s', record a_request contended = (Ok e, s') ∧ trail_ok (t_trail (st_db s')).
Proof.
  destruct (record_extends_trail a_request [rival_batch] [] contended fresh_coherent eq_refl
    (or_introl eq_refl) ltac:(vm_compute; lia) rival_continues demo_fresh I)
    as (e & s' & Hrun & _ & Hok & _).
  exists e, s'. split; [exact Hrun|exact Hok].
Defined.

Lemma recorded_ok : trail_ok (t_trail (st_db recorded_store)).
Proof.
  split.
  - repeat constructor; vm_compute; lia.
  - vm_compute. tauto.
Qed.

Lemma verify_chain_exact_witness :
  ∃ v, verify_chain 1 None 2 recorded_store = (Ok (Some v), recorded_store) ∧ cv_valid v = true.
Proof.
  destruct (verify_chain_exact 1 None 2 recorded_store (proj1 recorded_ok) ltac:(lia))
    as (v & Hrun & _ & _ & Hvalid).
  exists v. split; [exact Hrun|]. exact (proj1 (Hvalid recorded_ok)).
Defined.

(** The same trail with the state of every entry rewritten. *)
Definition tampered : store :=
  put_db (set_trail ((λ e, strip_state true true e) <$> t_trail (st_db recorded_store))
    (st_db recorded_store)) recorded_store.

Lemma verify_ignores_state_witness :
  (verify_chain 1 None 2 tampered).1 = (verify_chain 1 None 2 recorded_store).1.
Proof.
  apply (verify_ignores_state 1 None 2 recorded_store tampered (proj1 recorded_ok) ltac:(lia)).
  repeat constructor; apply same_hashed_strip.
Defined.

Definition keep_two : RetentionPolicy := {|
  max_age_days := None; max_entries := Some 2; compact_before_state := true;
  compact_after_state := false |}.

Lemma retention_run :
  apply keep_two recorded_store = (Ok {| deleted := 1; compacted := 0 |}, (apply keep_two recorded_store).2).
Proof. vm_compute. reflexivity. Qed.

Lemma recorded_stamps :
  (λ e, (te_sequence e, te_timestamp e)) <$> t_trail (st_db recorded_store) =
    [(1, 900%Z); (2, 900%Z); (3, 1000%Z)].
Proof. vm_compute. reflexivity. Qed.

Lemma recorded_times : time_sorted (t_trail (st_db recorded_store)).
Proof.
  intros a b Ha Hb. apply (list_elem_of_fmap_2 (λ e, (te_sequence e, te_timestamp e))) in Ha, Hb.
  rewrite recorded_stamps in Ha, Hb. revert Ha Hb.
  rewrite !elem_of_cons, !elem_of_nil. intros [H|[H|[H|[]]]] [H'|[H'|[H'|[]]]]; simplify_eq; lia.
Qed.

Lemma retention_keeps_suffix_witness :
  (estimate keep_two recorded_store).1 = Ok 1.
Proof.
  destruct (retention_keeps_suffix keep_two recorded_store {| deleted := 1; compacted := 0 |}
    (apply keep_two recorded_store).2 recorded_ok recorded_times retention_run)
    as (_ & _ & H & _).
  exact H.
Defined.

(** Four batches of rivals: more than the retries cover. *)
Definition crowded : store :=
  put_rivals [[rival 1 ""]; [rival 2 "a"]; [rival 3 "b"]; [rival 4 "c"]] fresh_store.

Lemma crowded_run : record a_request crowded = (Raise sequence_collision, (record a_request crowded).2).
Proof. vm_compute. reflexivity. Qed.


(** ** Rules *)

#[local] Existing Instance writer_sink.

Definition editors_only : jdict := [("action", JVlist [JVstr "edit"; JVstr "read"])].

(** An engine with a cache: alice may edit, nobody may edit in the frozen scope. *)
Definition build_rules : lp (Rule * Rule) :=
  allow ← create_rule true "alice edits" RT_ACCESS ALLOW (Some editors_only) 1 "" "root";
  deny ← create_rule true "no edits" RT_ACCESS DENY None 5 "" "root";
  bind_rule true (rl_id allow) BT_PRINCIPAL "alice" "root" ;;
  bind_rule true (rl_id deny) BT_SCOPE "frozen" "root" ;;
  mret (allow, deny).

Definition ruled : store := (build_rules fresh_store).2.

Definition edit_request (scope_id : option string) : access_request := {|
  a_action := "edit"; a_principal_id := Some "alice"; a_principal_kind := None;
  a_object_type := None; a_object_id := None; a_scope_id := scope_id; a_environment_id := None |}.

Definition answer (q : access_request) (s : store) : option bool :=
  match evaluate (Some 60%Z) q s with (Ok r, _) => Some (allowed r) | _ => None end.

Example alice_edits : answer (edit_request None) ruled = Some true.
Proof. vm_compute. reflexivity. Qed.
Example frozen_denies : answer (edit_request (Some "frozen")) ruled = Some false.
Proof. vm_compute. reflexivity. Qed.

(** A cache that was filled before the scope's rule was bound. *)
Definition warm : store := (evaluate (Some 60%Z) (edit_request (Some "frozen")) ruled).2.

Lemma ruled_keyed : rules_keyed (st_db ruled).
Proof. apply (bool_decide_unpack _). vm_compute. exact I. Qed.

Lemma ruled_cache : cache_ok ruled.
Proof. intros ty tg e l. assert (st_cache ruled = []) as -> by (vm_compute; reflexivity). by intros ?%not_elem_of_nil. Qed.


Lemma explanation_agrees_witness :
  ∃ ex c, evaluate_with_explanation (Some 60%Z) (edit_request None) ruled = (Ok ex, put_cache c ruled).
Proof.
  destruct (explanation_agrees (Some 60%Z) (edit_request None) ruled ruled_cache ruled_keyed eq_refl)
    as (ex & c & H & _).
  exists ex, c. exact H.
Defined.

Lemma compiled_lookup_exact_witness : ∃ rs, compile_rules None None ruled = (Ok rs, ruled).
Proof.
  destruct (compiled_lookup_exact None None ruled ruled_keyed) as (rs & H & _).
  exists rs. exact H.
Defined.

Lemma fresh_rules_ok : rules_ok fresh_store.
Proof.
  split; [constructor| |split; [constructor|by intros b ?%not_elem_of_nil]|].
  - split; [by intros v ?%not_elem_of_nil|by intros r ?%not_elem_of_nil].
  - by intros ty tg e l ?%not_elem_of_nil.
Qed.

Definition first_op : rule_op := OpCreate "alice edits" RT_ACCESS ALLOW (Some editors_only) 1 "" "root".
Definition one_rule : store := (run_rule_op (Some 60%Z) first_op fresh_store).2.
Definition update_op : rule_op := OpUpdate "id-0" "root" None (Some DENY) None "incident".
Definition one_changed : store := (run_rule_op (Some 60%Z) update_op one_rule).2.

Lemma first_run : run_rule_op (Some 60%Z) first_op fresh_store = (Ok tt, one_rule).
Proof. vm_compute. reflexivity. Qed.
Lemma rule_update_run : run_rule_op (Some 60%Z) update_op one_rule = (Ok tt, one_changed).
Proof. vm_compute. reflexivity. Qed.

Lemma two_steps : rtc (rule_step_returned (Some 60%Z)) fresh_store one_changed.
Proof.
  eapply rtc_l; [exact (returned_op _ _ _ _ first_run)|]. eapply rtc_l; [exact (returned_op _ _ _ _ rule_update_run)|].
  constructor.
Qed.

(** An update of a rule that is not there raises in between. *)
Definition no_such_rule : rule_op := OpUpdate "id-9" "root" None (Some DENY) None "".

Lemma no_such_rule_run : (run_rule_op (Some 60%Z) no_such_rule one_rule).2 = one_rule.
Proof. vm_compute. reflexivity. Qed.

Lemma three_exits : rtc (rule_step (Some 60%Z)) fresh_store one_changed.
Proof.
  pose proof (step_op (Some 60%Z) no_such_rule one_rule) as Hnone. rewrite no_such_rule_run in Hnone.
  exact (rtc_l _ _ _ _ (step_op (Some 60%Z) first_op fresh_store)
    (rtc_l _ _ _ _ Hnone (rtc_once _ _ (step_op (Some 60%Z) update_op one_rule)))).
Qed.

Lemma rules_reachable_ok_witness :
  rules_sound (st_db one_changed) ∧ rules_ok one_changed ∧ rv_version <$> t_versions (st_db one_changed) = [1; 2].
Proof.
  destruct (rules_reachable_ok (Some 60%Z) fresh_store one_changed) as (Hany & Hreturned & _).
  split; [exact (proj1 (Hany three_exits (rules_ok_sound fresh_store fresh_rules_ok)))|].
  split; [exact (Hreturned two_steps fresh_rules_ok)|vm_compute; reflexivity].
Defined.

(** Archiving a rule whose audit record loses every race: the operation raises, the rule
    is archived, and the engine goes on allowing what it allowed. *)
Definition remembered : store := (evaluate (Some 60%Z) (edit_request None) ruled).2.
Definition contested : store := put_rivals [[rival 4 ""]; [rival 5 ""]; [rival 6 ""]; [rival 7 ""]] remembered.
Definition half_archived : store := (archive_rule true "id-0" "root" contested).2.

Example archive_raises_stale_cache :
  (match (archive_rule true "id-0" "root" contested).1 with Raise _ => true | Ok _ => false end,
   rl_lifecycle <$> find (by_rule "id-0") (t_rules (st_db half_archived)),
   answer (edit_request None) half_archived,
   answer (edit_request None) (put_cache [] half_archived)) = (true, Some ARCHIVED, Some true, Some false).
Proof. vm_compute. reflexivity. Qed.

Definition the_update : lp Rule := update_rule true "id-0" "root" None (Some DENY) None "incident".
Lemma the_update_run : ∃ r, the_update one_rule = (Ok r, one_changed).
Proof. eexists. vm_compute. reflexivity. Qed.
Lemma one_rule_keyed : rules_keyed (st_db one_rule).
Proof. apply (bool_decide_unpack _). vm_compute. exact I. Qed.

Lemma update_rule_versioned_witness :
  ∃ v, t_versions (st_db one_changed) = t_versions (st_db one_rule) ++ [v] ∧ rv_reason v = "incident".
Proof.
  destruct the_update_run as [r Hrun].
  destruct (update_rule_versioned true "id-0" "root" None (Some DENY) None "incident" one_rule
    r one_changed one_rule_keyed Hrun)
    as (old & v & _ & _ & _ & _ & _ & _ & _ & Hv & _ & Hr & _).
  exists v. split; [exact Hv|exact Hr].
Defined.

Definition deny_id : string := default "" (rl_id <$> (t_rules (st_db ruled) !! 1)).
Definition unbound : store := (unbind_rule true deny_id BT_SCOPE "frozen" ruled).2.
Lemma unbind_run : unbind_rule true deny_id BT_SCOPE "frozen" ruled = (Ok true, unbound).
Proof. vm_compute. reflexivity. Qed.
Lemma deny_exists : ∃ r, r ∈ t_rules (st_db ruled) ∧ rl_id r = deny_id.
Proof.
  destruct (t_rules (st_db ruled) !! 1) as [r|] eqn:Hr; [|vm_compute in Hr; discriminate Hr].
  exists r. split; [by eapply list_elem_of_lookup_2|]. unfold deny_id. by rewrite Hr.
Qed.

Lemma rebind_after_unbind_fails_witness :
  ∃ s, bind_rule true deny_id BT_SCOPE "frozen" "root" unbound
    = (Raise (IntegrityError "rule_bindings"), s).
Proof.
  destruct (rebind_after_unbind_fails true deny_id BT_SCOPE "frozen" ruled unbound unbind_run "root"
    deny_exists) as (s & H & _).
  exists s. exact H.
Defined.

(** ** Tenancy *)

Definition a_document : ScopedObject :=
  {| so_id := "doc-1"; so_type := "Document"; so_owner := "alice"; so_version := 1; so_created_at := 0;
     so_lifecycle := ACTIVE; so_registry := None |}.
Definition office : store :=
  put_db (set_objects [a_document] empty_tables) fresh_store.

(** A company, a team below it with bob as a viewer, alice's document shared into
    the company; then the team is frozen. *)
Definition build_office : lp (Scope * Scope) :=
  company ← create_scope "company" "alice" "" None None;
  team ← create_scope "team" "alice" "" (Some (sc_id company)) None;
  add_member (sc_id team) "bob" VIEWER "alice" (Some 5000%Z) ;;
  project (sc_id company) "doc-1" "alice" WRITE_LEVEL ;;
  freeze_scope (sc_id team) "alice" ;;
  mret (company, team).

Definition staffed : store := (build_office office).2.
Definition team_id : string := default "" (sc_id <$> (t_scopes (st_db staffed) !! 1)).
Definition company_id : string := default "" (sc_id <$> (t_scopes (st_db staffed) !! 0)).

Example office_built : (λ sc, (sc_name sc, lifecycle_display sc)) <$> t_scopes (st_db staffed)
  = [("company", "ACTIVE"); ("team", "FROZEN")].
Proof. vm_compute. reflexivity. Qed.

(** bob sees the document through the team's parent, but has no access level. *)
Example inherited_visibility :
  (can_see "bob" "doc-1" staffed).1 = Ok true ∧ (get_access_level "bob" "doc-1" staffed).1 = Ok None ∧
  (visible_object_ids "bob" None 10 staffed).1 = Ok ["doc-1"].
Proof. vm_compute. auto. Qed.

Lemma office_ok : tenancy_ok (st_db office).
Proof.
  split; [constructor|constructor|constructor| |]; by intros sc x ?%not_elem_of_nil.
Qed.

Lemma staffed_ok : tenancy_ok (st_db staffed).
Proof.
  assert (Hstays : stays build_office office); [|exact (proj1 (Hstays office_ok))].
  unfold build_office. apply stays_bind; [apply stays_create_scope|]. intros company s1 _.
  apply stays_bind; [apply stays_create_scope|]. intros team s2 _.
  apply stays_bind; [apply stays_add_member|]. intros m s3 _.
  apply stays_bind; [apply stays_project|]. intros p s4 _.
  apply stays_bind; [apply stays_freeze|]. intros sc s5 _. apply stays_ret.
Qed.

Definition the_team : Scope :=
  default {| sc_id := ""; sc_name := ""; sc_owner := ""; sc_created_at := 0; sc_description := "";
             sc_parent := None; sc_lifecycle := DRAFT; sc_metadata := [] |}
    (t_scopes (st_db staffed) !! 1).

Lemma team_in : the_team ∈ t_scopes (st_db staffed).
Proof. apply (list_elem_of_lookup_2 _ 1). vm_compute. reflexivity. Qed.
Lemma team_frozen : is_mutable the_team = false.
Proof. vm_compute. reflexivity. Qed.

Lemma frozen_scope_refuses_witness :
  rename_scope (sc_id the_team) "crew" "alice" staffed = (Raise (refusal the_team), staffed).
Proof.
  destruct (frozen_scope_refuses the_team staffed staffed_ok team_in team_frozen) as [H _].
  exact (H "crew" "alice").
Defined.

(** The company is dissolved, then an attempt to share into it fails. *)
Definition dissolved : store := (run_tenancy_op (ArchiveScope company_id "alice") staffed).2.
Definition after_all : store := (run_tenancy_op (Project company_id "doc-1" "alice" READ_LEVEL) dissolved).2.

Lemma dissolve_steps : rtc tenancy_step staffed after_all.
Proof.
  exact (rtc_l _ staffed dissolved after_all (tenancy_step_op (ArchiveScope company_id "alice") staffed)
    (rtc_l _ dissolved after_all after_all
      (tenancy_step_op (Project company_id "doc-1" "alice" READ_LEVEL) dissolved)
      (rtc_refl _ after_all))).
Qed.

Lemma tenancy_reachable_ok_witness :
  tenancy_ok (st_db after_all) ∧ (sp_lifecycle <$> t_projections (st_db after_all)) = [ARCHIVED].
Proof.
  split; [|vm_compute; reflexivity].
  exact (proj1 (tenancy_reachable_ok staffed after_all dissolve_steps staffed_ok)).
Defined.

Lemma dissolve_run : ∃ r, archive_scope company_id "alice" staffed = (Ok r, dissolved).
Proof. eexists. vm_compute. reflexivity. Qed.

Lemma archive_scope_dissolves_witness :
  ∃ sc, archive_scope company_id "alice" staffed = (Ok (scope_to ARCHIVED sc), dissolved) ∧
    sc ∈ t_scopes (st_db staffed).
Proof.
  destruct dissolve_run as [r Hrun].
  destruct (archive_scope_dissolves company_id "alice" staffed (Ok r) dissolved staffed_ok Hrun)
    as (sc & Hin & _ & _ & Hsc & _).
  exists sc. split; [rewrite <-Hsc; exact Hrun|exact Hin].
Defined.

Definition joined : store := (add_member company_id "carol" EDITOR "alice" None staffed).2.
Lemma join_run : ∃ m, add_member company_id "carol" EDITOR "alice" None staffed = (Ok m, joined).
Proof. eexists. vm_compute. reflexivity. Qed.

Lemma add_member_grants_witness :
  ∃ m, m ∈ t_members (st_db joined) ∧ grant_key m = (company_id, "carol", EDITOR).
Proof.
  destruct join_run as [m Hrun].
  destruct (add_member_grants company_id "carol" EDITOR "alice" None staffed m joined staffed_ok Hrun)
    as (Hkey & _ & Hin & _).
  exists m. split; [exact Hin|exact Hkey].
Defined.

Lemma ancestors_walk_witness :
  ∃ l, ancestors team_id staffed = (Ok (Some l), staffed) ∧ rises (st_db staffed) [team_id] (sc_parent the_team) l.
Proof.
  destruct (ancestors_walk team_id staffed staffed_ok) as (l & Hrun & Hup & _).
  exists l. split; [exact Hrun|]. apply (Hup the_team team_in); [vm_compute; reflexivity|vm_compute; discriminate].
Defined.

Lemma descendants_bounded_witness :
  ∃ l, descendants company_id 10 50 staffed = (Ok (Some l), staffed) ∧ length l ≤ 50.
Proof.
  destruct (descendants_bounded company_id 10 50 staffed) as (l & Hrun & Hlen & _).
  exists l. split; [exact Hrun|exact Hlen].
Defined.


Lemma access_level_highest_witness : ∃ r, get_access_level "bob" "doc-1" staffed = (Ok r, staffed).
Proof.
  destruct (access_level_highest "bob" "doc-1" staffed) as (r & Hrun & _). exists r. exact Hrun.
Defined.
