(* ===== verification/ObjectsDemo.v ===== *)
(** * Legacy v1: objects and rule clients to run

    The runs that instantiate the theorems of RuleClients and Objects on the
    host of LegacyDemo; it models no code of the repository. *)

From S2P Require Import Prelude LegacyTypes Schema Json Trail Rules RuleClients Builtins Tenancy Visibility Objects LegacyDemo.

#[local] Existing Instance writer_sink.

Definition client_rule (id : string) (t : RuleType) (priority : Z) (conds : jdict) : Rule := {|
  rl_id := id; rl_name := id; rl_type := t; rl_effect := ALLOW; rl_priority := priority;
  rl_conditions := conds; rl_created_at := 0; rl_created_by := "root"; rl_version := 1;
  rl_description := ""; rl_lifecycle := ACTIVE |}.

(** ** Redaction: a card number masked, a code dropped *)

Definition card_rule : Rule := client_rule "cards" RT_REDACTION 0 [
  ("object_type", JVstr "CreditCard");
  ("redactions", JVdict [
    ("number", JVdict [("strategy", JVstr "mask"); ("visible_chars", JVint 4)]);
    ("cvv", JVdict [("strategy", JVstr "omit")])])].

Definition card : jdict := [("number", JVstr "4111111111111111"); ("cvv", JVstr "123"); ("name", JVstr "Bo")].

Definition masked : FieldRedaction := {|
  field_name := "number"; strategy := MASK; mask_char := "*"; visible_chars := 4;
  replacement := JVstr "[REDACTED]" |}.

Example card_redacted :
  redact [card_rule] card (Some "CreditCard") None None =
    Ok {| rd_data := [("number", JVstr "************1111"); ("name", JVstr "Bo")];
          redacted_fields := ["number"; "cvv"]; rules_applied := ["cards"] |}.
Proof. vm_compute. reflexivity. Qed.

Lemma redaction_exact_witness :
  ∃ hidden shown, "4111111111111111" = hidden +:+ shown ∧ (Z.of_nat (String.length shown) ≤ 4)%Z ∧
    redacted (Some (JVstr "4111111111111111")) masked =
      Some (JVstr (repeat_str "*" (String.length hidden) +:+ shown)).
Proof.
  destruct (redaction_exact [card_rule] card (Some "CreditCard") None None) as [_ Hmask].
  destruct (Hmask (JVstr "4111111111111111") masked eq_refl eq_refl) as (hidden & shown & H1 & H2 & H3).
  exists hidden, shown. split; [exact H1|]. split; [exact H3|exact H2].
Defined.

(** ** A feature at half rollout, switched off by a rule of lower priority *)

Definition flag_rules : list Rule := [
  client_rule "off" RT_FEATURE_FLAG 1
    [("feature_flag", JVdict [("feature_name", JVstr "dark"); ("enabled", JVbool false)])];
  client_rule "half" RT_FEATURE_FLAG 5
    [("feature_flag", JVdict [("feature_name", JVstr "dark"); ("rollout_percentage", JVint 50)])]].

Definition dark_for (p : string) : outcome FeatureFlagResult := is_enabled flag_rules "dark" (Some p) None.

Lemma dark_run : ∃ r, dark_for "alice" = Ok r.
Proof. eexists. vm_compute. reflexivity. Qed.

Lemma flag_decision_witness :
  ∃ r, dark_for "alice" = Ok r ∧
    (r = no_flag "dark" None ∨ ∃ w, w ∈ of_type RT_FEATURE_FLAG flag_rules ∧ ff_rule r = Some (rl_id w)).
Proof.
  destruct dark_run as [r Hr]. exists r. split; [exact Hr|].
  destruct (flag_decision flag_rules "dark" (Some "alice") None r Hr)
    as [[_ H]|[(pre & w & post & c & Heq & _ & _ & _ & Hw & _) _]]; [left; exact H|right].
  exists w. split; [|exact Hw]. rewrite Heq. apply elem_of_app. right. left.
Defined.

(** ** Objects: one document under a quota of two *)

Definition no_other (_ : tables) (_ : string) (_ : list (string * string)) : outcome nat := Ok 0.
Definition everyone (_ : string) : bool := true.

Definition two_documents : Rule := client_rule "two" RT_QUOTA 0 [
  ("object_type", JVstr "Document"); ("quota", JVdict [("max_count", JVint 2)])].

Definition library : ScopedManager := {|
  mg_rules := None; mg_quota := Some [two_documents]; mg_rate := None; mg_visibility := true |}.

Definition draft : jdict := [("title", JVstr "draft")].
Definition final : jdict := [("title", JVstr "final"); ("pages", JVint 3)].


Definition filed : store :=
  (create_object no_other everyone library "Document" "alice" draft None "created" None fresh_store).2.

Lemma make_run : ∃ o v,
  create_object no_other everyone library "Document" "alice" draft None "created" None fresh_store
    = (Ok (o, v), filed).
Proof. eexists _, _. vm_compute. reflexivity. Qed.

Lemma fresh_objects : objects_ok (st_db fresh_store).
Proof. split; simpl; [apply NoDup_nil_2| | | |apply NoDup_nil_2| |]; intros ? H; by apply elem_of_nil in H. Qed.

Lemma one_step : rtc (object_step no_other everyone) fresh_store filed.
Proof. eapply rtc_l; [|apply rtc_refl]. apply step_create. Qed.

Lemma filed_objects : objects_ok (st_db filed).
Proof. exact (proj1 (objects_reachable no_other everyone fresh_store filed one_step fresh_objects)). Qed.

Lemma objects_reachable_ok_witness : objects_ok (st_db filed) ∧ so_version <$> t_objects (st_db filed) = [1].
Proof.
  split; [|vm_compute; reflexivity].
  exact (proj1 (objects_reachable_ok no_other everyone fresh_store filed one_step fresh_objects)).
Defined.

Lemma quota_respected_witness :
  ∃ n, resources no_other None filed {| max_count := 2; count_table := "scoped_objects";
    count_column := "object_type"; count_value := "Document"; scope_column := None |} = Ok n ∧ (Z.of_nat n ≤ 2)%Z.
Proof.
  destruct make_run as (o & v & Hrun).
  apply (quota_respected no_other everyone library [two_documents] "Document" "alice" draft None "created" None
    fresh_store o v filed eq_refl Hrun two_documents); [left|reflexivity..].
Defined.

Definition doc : string := "id-0".

Definition revised : store := (update_object library doc "alice" final "reviewed" filed).2.
Lemma revise_run : ∃ o v, update_object library doc "alice" final "reviewed" filed = (Ok (o, v), revised).
Proof. eexists _, _. vm_compute. reflexivity. Qed.

Lemma update_appends_version_witness :
  ∃ v, t_object_versions (st_db revised) = t_object_versions (st_db filed) ++ [v].
Proof.
  destruct revise_run as (o & v & Hrun).
  destruct (update_appends_version library doc "alice" final "reviewed" filed o v revised filed_objects Hrun)
    as (o0 & _ & _ & _ & _ & _ & _ & Hv & _).
  exists v. exact Hv.
Defined.

Definition discarded : store := (tombstone_object library doc "alice" "obsolete" filed).2.
Lemma discard_run : ∃ x, tombstone_object library doc "alice" "obsolete" filed = (Ok x, discarded).
Proof. eexists. vm_compute. reflexivity. Qed.

Lemma tombstone_final_witness :
  ∃ x, tombstone_object library doc "alice" "obsolete" filed = (Ok x, discarded) ∧
    is_ok (update_object library doc "alice" final "again" discarded).1 = false.
Proof.
  destruct discard_run as [x Hrun]. exists x. split; [exact Hrun|].
  refine (proj1 (proj2 (proj2 (proj2 (proj2 (proj2 (proj2
    (tombstone_final no_other everyone library doc "alice" "obsolete" filed x discarded filed_objects Hrun))))))
    discarded (rtc_refl _ _) library "alice") final "again").
Defined.


Lemma lists_isolated_witness :
  ∃ l : list ScopedObject, count_objects library "alice" None false filed = (Ok (length l), filed) ∧ NoDup l.
Proof.
  destruct (lists_isolated library "alice" None false "-created_at" filed filed_objects)
    as (l & _ & Hcount & Hnd & _).
  exists l. split; [exact Hcount|exact Hnd].
Defined.

(** ** A quota of ten documents, and nobody may read one *)

Definition read_request : access_request := {|
  a_action := "read"; a_principal_id := Some "alice"; a_principal_kind := None;
  a_object_type := Some "Document"; a_object_id := None; a_scope_id := Some "team"; a_environment_id := None |}.

Definition limited : store := (quota_for_object_type true "Document" 10 "team" "root" "ten" 0 fresh_store).2.

Lemma limited_run : ∃ r, quota_for_object_type true "Document" 10 "team" "root" "ten" 0 fresh_store = (Ok r, limited).
Proof. eexists. vm_compute. reflexivity. Qed.

Lemma reading_run : ∃ res s, evaluate None read_request limited = (Ok res, s).
Proof. eexists _, _. vm_compute. reflexivity. Qed.

Lemma factories_change_access_witness :
  ∃ res s, evaluate None read_request limited = (Ok res, s) ∧ allowed res = false.
Proof.
  destruct limited_run as [r Hr]. destruct reading_run as (res & s & Hev). exists res, s. split; [exact Hev|].
  destruct (factories_change_access None read_request "team" fresh_store r limited fresh_rules_ok
    ltac:(discriminate) eq_refl) as [Hquota _].
  exact (Hquota "Document" 10%Z "root" "ten" 0%Z res s Hr eq_refl Hev).
Defined.
