(* ===== verification/VaultDemo.v ===== *)
(** * Legacy v1: settings and secrets to run

    The runs that instantiate the theorems of Settings and Secrets, with the
    in-memory encryption backend, on the host of LegacyDemo; it models no code of
    the repository. *)

From S2P Require Import Prelude LegacyTypes Schema Json Trail Rules RuleClients Tenancy Settings Visibility Objects Secrets Leaks LegacyDemo ObjectsDemo.

#[local] Existing Instance writer_sink.

(** ** Settings: a company's theme, overridden by a team *)

Definition company : Scope := {|
  sc_id := "company"; sc_name := "company"; sc_owner := "alice"; sc_created_at := 0; sc_description := "";
  sc_parent := None; sc_lifecycle := ACTIVE; sc_metadata := [] |}.
Definition crew : Scope := {|
  sc_id := "crew"; sc_name := "crew"; sc_owner := "alice"; sc_created_at := 1; sc_description := "";
  sc_parent := Some "company"; sc_lifecycle := ACTIVE; sc_metadata := [] |}.

Definition chartered : store := put_db (set_scopes_table [company; crew] empty_tables) fresh_store.

Lemma chartered_ok : settings_ok (st_db chartered).
Proof. split; apply NoDup_nil_2. Qed.

Lemma chartered_scopes : NoDup (sc_id <$> t_scopes (st_db chartered)).
Proof. apply (bool_decide_unpack _). vm_compute. exact I. Qed.

Definition dark_company : store := (config_set "company" "theme" (JVstr "dark") "alice" "" chartered).2.
Lemma dark_set_run : ∃ x, config_set "company" "theme" (JVstr "dark") "alice" "" chartered = (Ok x, dark_company).
Proof. eexists. vm_compute. reflexivity. Qed.

Lemma dark_settings : settings_ok (st_db dark_company) ∧ t_scopes (st_db dark_company) = t_scopes (st_db chartered).
Proof.
  destruct dark_set_run as [x Hrun]. apply config_set_get in Hrun; [|exact chartered_ok].
  split; apply Hrun.
Qed.

Definition light_crew : store := (config_set "crew" "theme" (JVstr "light") "alice" "" dark_company).2.
Lemma light_run : ∃ x, config_set "crew" "theme" (JVstr "light") "alice" "" dark_company = (Ok x, light_crew).
Proof. eexists. vm_compute. reflexivity. Qed.

Lemma light_settings : settings_ok (st_db light_crew) ∧ NoDup (sc_id <$> t_scopes (st_db light_crew)).
Proof.
  destruct light_run as [x Hrun]. apply config_set_get in Hrun; [|apply dark_settings].
  destruct Hrun as (_ & Hok & -> & _). split; [exact Hok|]. rewrite (proj2 dark_settings). exact chartered_scopes.
Qed.

Lemma resolve_nearest_witness :
  ∃ ids o, lineage (st_db light_crew) 21 "crew" ids ∧
    resolve_setting 20 "crew" "theme" light_crew = (Ok o, light_crew) ∧
    nearest (st_db light_crew) "crew" "theme" ids o.
Proof.
  destruct (resolve_nearest 20 "crew" light_crew (proj1 light_settings) (proj2 light_settings))
    as (ids & all & Hlin & _ & Hkey).
  destruct (Hkey "theme") as (o & Hrun & Hnear & _). exists ids, o. split; [exact Hlin|]. split; [exact Hrun|exact Hnear].
Defined.

Example theme_resolved :
  match (resolve_setting 20 "crew" "theme" light_crew).1 with
  | Ok (Some r) => Some (rs_value r, inherited r, resolution_chain r)
  | _ => None
  end = Some (JVstr "light", false, [("company", JVstr "dark"); ("crew", JVstr "light")]).
Proof. vm_compute. reflexivity. Qed.

Definition unset_crew : store := (config_delete "crew" "theme" "alice" light_crew).2.
Lemma unset_run : config_delete "crew" "theme" "alice" light_crew = (Ok true, unset_crew).
Proof. vm_compute. reflexivity. Qed.

Example theme_inherited :
  match (resolve_setting 20 "crew" "theme" unset_crew).1 with
  | Ok (Some r) => Some (rs_value r, inherited r)
  | _ => None
  end = Some (JVstr "dark", true).
Proof. vm_compute. reflexivity. Qed.

Lemma deleted_setting_stuck_witness :
  ∃ s, config_set "crew" "theme" (JVstr "light") "alice" "" unset_crew = (Raise (IntegrityError "scope_settings"), s).
Proof.
  destruct (deleted_setting_stuck "crew" "theme" "alice" light_crew unset_crew (proj1 light_settings)
    (proj2 light_settings) unset_run) as (_ & _ & _ & Hset).
  destruct (Hset (JVstr "light") "") as (s & _ & Hrun). exists s. exact Hrun.
Defined.

(** ** Secrets: a password, granted to bob in one scope, rotated *)

#[local] Instance demo_vault : SecretBackend := InMemoryBackend [("test-key-1", "material-1")].

Definition vault_manager : ScopedManager := {|
  mg_rules := None; mg_quota := None; mg_rate := None; mg_visibility := false |}.

(** Critical secrets are for the crew only. *)
Definition crew_only : store :=
  (create_policy "root" None (Some "critical") (Some 3600%Z) true (Some ["crew"]) None chartered).2.
Lemma crew_only_run : ∃ p,
  create_policy "root" None (Some "critical") (Some 3600%Z) true (Some ["crew"]) None chartered = (Ok p, crew_only).
Proof. eexists. vm_compute. reflexivity. Qed.

Lemma chartered_vault : vault_ok (st_db chartered).
Proof.
  split; unfold v_table; simpl; [apply NoDup_nil_2..| | | |]; intros x **;
    match goal with H : _ ∈ [] |- _ => by apply elem_of_nil in H end.
Qed.

Lemma crew_only_vault : vault_ok (st_db crew_only).
Proof. exact (proj1 (create_policy_keeps "root" None (Some "critical") (Some 3600%Z) true (Some ["crew"]) None chartered chartered_vault)). Qed.

Definition on_vault (op : vault_op) (s : store) : store :=
  (run_vault_op no_other everyone "test-key-1" (Some vault_manager) true op s).2.

Definition stored : store := on_vault (CreateSecret "db" "hunter2" "alice" "" "critical" None None) crew_only.
Lemma store_run : ∃ x v,
  create_secret no_other everyone "test-key-1" (Some vault_manager) "db" "hunter2" "alice" "" "critical" None None crew_only
    = (Ok (x, v), stored) ∧ se_id x = "id-1".
Proof. eexists _, _. split; vm_compute; reflexivity. Qed.

Definition granted : store := on_vault (GrantRef "id-1" "bob" "alice" (Some "crew") None (Some 9000%Z)) stored.
Lemma grant_run : ∃ r,
  grant_ref everyone true "id-1" "bob" "alice" (Some "crew") None (Some 9000%Z) stored = (Ok r, granted).
Proof. eexists. vm_compute. reflexivity. Qed.

Lemma granted_fresh : fresh_log granted.
Proof. intros e He. exfalso. vm_compute in He. by apply elem_of_nil in He. Qed.

Lemma create_grant_resolve_witness :
  ∃ token s s', resolve_token everyone true token "bob" (Some "crew") None granted =
    (audit (request "bob" ActionType.SECRET_REF_RESOLVE "secret" s) ;; mret "hunter2") s'.
Proof.
  destruct store_run as (x & v & Hstore & Hid). destruct grant_run as (r & Hgrant). rewrite <-Hid in Hgrant.
  do 3 eexists. exact (create_grant_resolve no_other everyone "test-key-1" (Some vault_manager) true
    "db" "hunter2" "alice" "" "critical" None None "bob" "alice" (Some "crew") None (Some 9000%Z)
    crew_only x v stored r granted crew_only_vault eq_refl Hstore Hgrant eq_refl granted_fresh).
Defined.

Definition vault_moves : relation store := vault_step no_other everyone "test-key-1" (Some vault_manager) true.

Lemma granted_steps : rtc vault_moves crew_only granted.
Proof.
  assert (H1 : vault_moves crew_only stored)
    by exact (vault_step_op _ _ _ _ _ (CreateSecret "db" "hunter2" "alice" "" "critical" None None) crew_only).
  assert (H2 : vault_moves stored granted)
    by exact (vault_step_op _ _ _ _ _ (GrantRef "id-1" "bob" "alice" (Some "crew") None (Some 9000%Z)) stored).
  exact (rtc_l _ _ _ _ H1 (rtc_l _ _ _ _ H2 (rtc_refl _ _))).
Qed.

Lemma granted_vault : vault_ok (st_db granted).
Proof.
  exact (proj1 (vault_reachable no_other everyone "test-key-1" (Some vault_manager) true crew_only granted
    granted_steps crew_only_vault)).
Qed.

Lemma vault_reachable_ok_witness : vault_ok (st_db granted) ∧ length (v_table v_versions (st_db granted)) = 1.
Proof.
  split; [|vm_compute; reflexivity].
  exact (proj1 (vault_reachable_ok no_other everyone "test-key-1" (Some vault_manager) true crew_only granted
    granted_steps crew_only_vault)).
Defined.

Example the_tokens : sr_token <$> v_table v_refs (st_db granted) = ["id-8"].
Proof. vm_compute. reflexivity. Qed.

(** From another scope the reference refuses, and the refusal is logged; an
    unknown token is refused without a row. *)
Example wrong_scope : ∃ s, resolve_token everyone true "id-8" "bob" (Some "company") None granted =
    (Raise (SecretAccessDenied "Ref is restricted to a different scope"), s) ∧
  sl_result <$> v_table v_log (st_db s) = [DENIED].
Proof. eexists. split; vm_compute; reflexivity. Qed.

Lemma resolve_exact_witness :
  resolve_token everyone true "no-token" "bob" None None granted = (Raise invalid_token, granted).
Proof.
  pose proof (resolve_exact everyone true "no-token" "bob" None None granted granted_vault eq_refl granted_fresh) as H.
  cbv zeta in H. destruct H as [H _]. apply H. clear H.
  intros r Hr Ht. assert (Hin : sr_token r ∈ ["id-8"]) by (rewrite <-the_tokens; by apply list_elem_of_fmap_2).
  rewrite Ht in Hin. by apply list_elem_of_singleton in Hin.
Defined.

Definition turned : store := (rotate "test-key-1" "id-1" "hunter3" "alice" "leak" None granted).2.
Lemma turn_run : ∃ v, rotate "test-key-1" "id-1" "hunter3" "alice" "leak" None granted = (Ok v, turned).
Proof. eexists. vm_compute. reflexivity. Qed.

Lemma rotation_takes_effect_witness :
  ∃ v, v_table v_versions (st_db turned) = v_table v_versions (st_db granted) ++ [v].
Proof.
  destruct turn_run as [v Hrun]. exists v.
  exact (proj1 (rotation_takes_effect everyone "test-key-1" true "id-1" "hunter3" "alice" "leak" None granted v turned
    granted_vault Hrun)).
Defined.

Example resolved_after_rotation :
  (resolve_token everyone true "id-8" "bob" (Some "crew") None turned).1 = Ok "hunter3".
Proof. vm_compute. reflexivity. Qed.

(** The new password in a nested list is found. *)
Example leak_found :
  (scan_data [("log", JVlist [JVstr "ok"; JVdict [("line", JVstr "pw=hunter3;")]])] None turned).1 = Ok ["log[1].line"].
Proof. vm_compute. reflexivity. Qed.
