(* ===== verification/RotationDemo.v ===== *)
(** * Legacy v1: jobs and automatic rotation to run

    The runs that instantiate the theorems of Scheduling and Rotation, on the vault
    of VaultDemo; it models no code of the repository. *)

From S2P Require Import Prelude LegacyTypes Schema Json Trail Rules RuleClients Tenancy Settings Visibility Objects Secrets Scheduling Rotation LegacyDemo ObjectsDemo VaultDemo.

#[local] Existing Instance writer_sink.
#[local] Existing Instance demo_vault.

#[local] Instance no_registry : AutoRegister := {|
  auto_register := λ _ _, mret tt; auto_register_off := λ _ _ s, conj eq_refl eq_refl |}.

Definition error_text (e : exn) : string := match e with ValueError m => m | _ => "error" end.

(** ** A queue of two jobs, one of which fails *)

Definition flaky : job_executor := λ type _,
  if bool_decide (type = "fail") then raise (ValueError "boom") else mret [("status", JVstr "ok")].

Lemma flaky_apart : executor_apart flaky.
Proof. intros type config s. unfold flaky. by destruct (bool_decide (type = "fail")). Qed.

Definition queue_up (s : store) : store :=
  (run_queue_op everyone error_text (Enqueue "b" "fail" None "alice" None None)
    (run_queue_op everyone error_text (Enqueue "a" "report" None "alice" None None) s).2).2.

Definition waiting : store := queue_up fresh_store.

Lemma fresh_jobs : jobs_ok (st_db fresh_store).
Proof. split; [apply NoDup_nil_2|]. by intros x ?%elem_of_nil. Qed.

Lemma waiting_steps : rtc (queue_step everyone error_text) fresh_store waiting.
Proof.
  eapply rtc_l; [exact (queue_step_op everyone error_text (Enqueue "a" "report" None "alice" None None) fresh_store I)|].
  eapply rtc_l; [|apply rtc_refl].
  exact (queue_step_op everyone error_text (Enqueue "b" "fail" None "alice" None None) _ I).
Qed.

Lemma waiting_jobs : jobs_ok (st_db waiting).
Proof.
  assert (H : keeps jobs_ok jobs_later (run_queue_op everyone error_text (Enqueue "a" "report" None "alice" None None)) fresh_store)
    by (apply run_queue_op_keeps; exact I).
  pose proof (proj1 (H fresh_jobs)) as H1.
  assert (H2 : keeps jobs_ok jobs_later (run_queue_op everyone error_text (Enqueue "b" "fail" None "alice" None None))
    (run_queue_op everyone error_text (Enqueue "a" "report" None "alice" None None) fresh_store).2)
    by (apply run_queue_op_keeps; exact I).
  exact (proj1 (H2 H1)).
Qed.

Lemma jobs_reachable_ok_witness : jobs_ok (st_db waiting) ∧ jb_state <$> jobs_of waiting = [JOB_QUEUED; JOB_QUEUED].
Proof.
  split; [|vm_compute; reflexivity].
  exact (proj1 (jobs_reachable_ok everyone error_text fresh_store waiting waiting_steps fresh_jobs)).
Defined.

Lemma run_all_drains_witness :
  ∃ js s', run_all error_text flaky waiting = (Ok js, s') ∧ jobs_ok (st_db s').
Proof.
  destruct (run_all_drains error_text flaky waiting flaky_apart waiting_jobs)
    as (rows & js & s' & Hrun & _ & _ & _ & _ & Hok & _).
  exists js, s'. split; [exact Hrun|exact Hok].
Defined.

Example queue_drained :
  match (run_all error_text flaky waiting).1 with
  | Ok js => (λ j, (jb_name j, jb_state j, jb_error j)) <$> js
  | Raise _ => []
  end = [("b", JOB_FAILED, Some "boom"); ("a", JOB_COMPLETED, None)].
Proof. vm_compute. reflexivity. Qed.

(** ** A one-shot and a recurring action fall due *)

Definition plan : lp ScheduledAction :=
  create_schedule everyone "hourly" "alice" None (Some 3600%Z) ;;
  create_action everyone "tick" "alice" "tick" None 900 (Some "id-0") None ;;
  create_action everyone "once" "alice" "once" None 800 None None ;;
  create_action everyone "later" "alice" "later" None 5000 None None.

Definition planned : store := (plan fresh_store).2.

Definition processed : store := (process_due_actions everyone None None planned).2.
Lemma process_run : ∃ jobs, process_due_actions everyone None None planned = (Ok jobs, processed).
Proof. eexists. vm_compute. reflexivity. Qed.

Lemma planned_ids : NoDup (rc_id <$> schedules_of planned) ∧ NoDup (ac_id <$> actions_of planned).
Proof. split; apply (bool_decide_unpack _); vm_compute; exact I. Qed.

Lemma process_due_exact_witness :
  ∃ dues jobs, process_due_actions everyone None None planned = (Ok jobs, processed) ∧ Forall2 job_for dues jobs.
Proof.
  destruct process_run as [jobs Hrun].
  destruct (process_due_exact everyone None None planned jobs processed (proj1 planned_ids) (proj2 planned_ids) Hrun)
    as (dues & _ & _ & _ & Hjobs & _).
  exists dues, jobs. split; [exact Hrun|exact Hjobs].
Defined.

Example after_processing :
  (λ a, (ac_name a, ac_next a, ac_lifecycle a)) <$> actions_of processed =
    [("tick", 3600000900%Z, ACTIVE); ("once", 800%Z, ARCHIVED); ("later", 5000%Z, ACTIVE)].
Proof. vm_compute. reflexivity. Qed.

(** ** The password of VaultDemo, too old for its policy *)

Definition a_day_later (s : store) : store :=
  Store (st_db s) 86400000000 (st_next s) (st_sequence s) (st_last_hash s) (st_rivals s) (st_cache s).

Definition guarded : store :=
  (create_policy "root" (Some "id-1") None (Some 3600%Z) true None None granted).2.

Lemma guarded_ok : vault_ok (st_db guarded).
Proof.
  exact (proj1 (create_policy_keeps "root" (Some "id-1") None (Some 3600%Z) true None None granted granted_vault)).
Qed.

Lemma a_day_later_db s : st_db (a_day_later s) = st_db s.
Proof. reflexivity. Qed.

Abbreviation overdue_vault := (a_day_later guarded).

Lemma overdue_ok : vault_ok (st_db overdue_vault).
Proof. rewrite a_day_later_db. exact guarded_ok. Qed.

Definition fixed_value (_ : string) : lp string := mret "hunter3".

Lemma fixed_apart : generator_apart fixed_value.
Proof. by intros id s. Qed.

Definition rotation_config : jdict := [("secret_id", JVstr "id-1")].

Lemma overdue_ages p m : p ∈ v_table v_policies (st_db overdue_vault) → pl_max_age p = Some m → (0 ≤ m)%Z.
Proof.
  intros Hp Hm. assert (Hin : pl_max_age p ∈ pl_max_age <$> v_table v_policies (st_db overdue_vault))
    by by apply list_elem_of_fmap_2.
  rewrite Hm in Hin. vm_compute in Hin.
  repeat (apply elem_of_cons in Hin as [Hin|Hin]; [injection Hin as ->; lia|]). by apply elem_of_nil in Hin.
Qed.

Definition turned_over : store :=
  (rotation_executor "test-key-1" fixed_value ROTATION_ACTION_TYPE rotation_config overdue_vault).2.
Lemma turn_over_run : ∃ r,
  rotation_executor "test-key-1" fixed_value ROTATION_ACTION_TYPE rotation_config overdue_vault = (Ok r, turned_over).
Proof. eexists. vm_compute. reflexivity. Qed.

Lemma needed : needs_rotation "id-1" overdue_vault = (Ok true, overdue_vault).
Proof. vm_compute. reflexivity. Qed.

Lemma overdue_due : due_for_rotation (st_db overdue_vault) (st_now overdue_vault) "id-1".
Proof.
  destruct (needs_rotation_run "id-1" overdue_vault overdue_ok) as (b & Hb & Hiff). apply Hiff.
  rewrite needed in Hb. apply (f_equal fst) in Hb. cbn [fst] in Hb. injection Hb as <-. reflexivity.
Qed.

Lemma rotation_settles_witness :
  ∃ r, rotation_executor "test-key-1" fixed_value ROTATION_ACTION_TYPE rotation_config turned_over = (Ok r, turned_over).
Proof.
  destruct turn_over_run as [r Hrun].
  destruct (rotation_settles "test-key-1" fixed_value "id-1" rotation_config overdue_vault overdue_ok fixed_apart
    overdue_ages eq_refl ltac:(discriminate)) as [_ Hdue].
  destruct (Hdue r turned_over overdue_due Hrun) as (_ & _ & Hagain). eexists. exact Hagain.
Defined.

Definition with_actions : store := (schedule_auto_rotations everyone "root" overdue_vault).2.
Lemma schedule_run : ∃ created, schedule_auto_rotations everyone "root" overdue_vault = (Ok created, with_actions).
Proof. eexists. vm_compute. reflexivity. Qed.

Lemma schedule_idempotent_witness : schedule_auto_rotations everyone "root" with_actions = (Ok [], with_actions).
Proof.
  destruct schedule_run as [created Hrun].
  exact (proj2 (proj2 (proj2 (proj2 (proj2 (schedule_idempotent everyone "root" overdue_vault created with_actions Hrun)))))).
Defined.

(** The whole loop: the queue runs the rotation and the action moves on by a day. *)
Example rotation_loop :
  match run_pending_rotations everyone error_text (rotation_executor "test-key-1" fixed_value) with_actions with
  | (Ok js, s) => (jb_state <$> js, ac_next <$> actions_of s, se_version <$> v_table v_secrets (st_db s))
  | (Raise _, _) => ([], [], [])
  end = ([JOB_COMPLETED], [172800000000%Z], [2]).
Proof. vm_compute. reflexivity. Qed.
