(* ===== verification/WorkspaceDemo.v ===== *)
(** * Legacy v1: environments and pipelines to run

    The runs that instantiate the theorems of Environments, EnvBehaviour and Flow;
    it models no code of the repository. *)

From S2P Require Import Prelude LegacyTypes Schema Json Trail Rules Tenancy Environments EnvBehaviour Flow LegacyDemo ObjectsDemo.

#[local] Existing Instance writer_sink.

(** ** Runs of several calls *)

Definition after (ops : list env_op) (s : store) : store := foldl (λ s op, (run_env_op everyone op s).2) s ops.

Lemma after_ok ops s : env_ok (st_db s) → env_ok (st_db (after ops s)).
Proof.
  revert s. induction ops as [|op ops IH]; intros s Hok; [done|]. cbn. apply IH.
  by destruct (run_env_op_keeps everyone op s Hok).
Qed.

Lemma after_steps ops s : rtc (env_step everyone) s (after ops s).
Proof.
  revert s. induction ops as [|op ops IH]; intros s; [apply rtc_refl|]. cbn.
  eapply rtc_l; [apply env_step_op|apply IH].
Qed.

(** ** A desk with two documents *)

Definition doc (id : string) : ScopedObject :=
  {| so_id := id; so_type := "Document"; so_owner := "alice"; so_version := 1; so_created_at := 0;
     so_lifecycle := ACTIVE; so_registry := None |}.
Definition doc_version (id object : string) (n : nat) : ObjectVersion :=
  {| ov_id := id; ov_object := object; ov_version := n; ov_data := []; ov_created_at := 0; ov_created_by := "alice";
     ov_reason := ""; ov_checksum := "" |}.

Definition desk : store :=
  put_db (set_object_versions [doc_version "v-1" "doc-1" 1; doc_version "v-2" "doc-2" 1; doc_version "v-3" "doc-1" 2]
    (set_objects [doc "doc-1"; doc "doc-2"] empty_tables)) fresh_store.

Lemma desk_envs : env_ok (st_db desk).
Proof. split; try apply NoDup_nil_2; by intros x ?%elem_of_nil. Qed.

Lemma desk_tenancy : tenancy_ok (st_db desk).
Proof. split; [constructor|constructor|constructor| |]; by intros sc x ?%not_elem_of_nil. Qed.

Definition env_id : string := "id-0".

(** Spawned, activated, with one document created in it and one projected. *)
Definition setup : list env_op := [
  OpSpawn "lab" "alice" "" None true None; OpActivate env_id "alice";
  OpAddObject None env_id "doc-1" (Some "alice") CREATED; OpAddObject None env_id "doc-2" (Some "alice") PROJECTED].

Definition busy : store := after setup desk.
Definition finished : store := after [OpComplete env_id "alice"] busy.
Definition gone : store := (discard env_id "alice" finished).2.

Definition default_env : Environment :=
  new_environment "" "" "" "" None "" true 0 [].
Definition the_env (s : store) : Environment := default default_env (envs_of s !! 0).

Example setup_ran :
  en_state (the_env busy) = ENV_ACTIVE ∧ en_id (the_env busy) = env_id ∧ eo_object <$> members_of busy = ["doc-1"; "doc-2"] ∧
  en_state (the_env finished) = COMPLETED ∧ en_state (the_env gone) = DISCARDED ∧
  so_lifecycle <$> t_objects (st_db gone) = [ARCHIVED; ACTIVE] ∧
  sc_lifecycle <$> t_scopes (st_db gone) = [ARCHIVED].
Proof. vm_compute. auto 10. Qed.

Lemma finished_env : the_env finished ∈ envs_of finished.
Proof. apply (list_elem_of_lookup_2 _ 0). vm_compute. reflexivity. Qed.
Lemma busy_env : the_env busy ∈ envs_of busy.
Proof. apply (list_elem_of_lookup_2 _ 0). vm_compute. reflexivity. Qed.

Lemma env_reachable_ok_witness :
  env_ok (st_db gone) ∧ ∃ e', e' ∈ envs_of gone ∧ follows (the_env busy) e'.
Proof.
  assert (Hok : env_ok (st_db busy)) by exact (after_ok setup desk desk_envs).
  assert (Hsteps : rtc (env_step everyone) busy gone).
  { apply (rtc_r _ finished); [exact (after_steps [OpComplete env_id "alice"] busy)|].
    assert (Hgone : gone = (run_env_op everyone (OpDiscard env_id "alice") finished).2) by (vm_compute; reflexivity).
    rewrite Hgone. apply env_step_op. }
  destruct (env_reachable_ok everyone busy gone Hok Hsteps) as [Hgone He]. split; [exact Hgone|].
  destruct (He (the_env busy) busy_env) as (e' & He' & Hf & _). exists e'. split; [exact He'|exact Hf].
Defined.

Lemma env_discard_run : ∃ e, discard (en_id (the_env finished)) "alice" finished = (Ok e, gone).
Proof. eexists. vm_compute. reflexivity. Qed.

Lemma finished_tenancy : tenancy_ok (st_db finished).
Proof.
  assert (Hopen : Forall (λ sc, sc_lifecycle sc ≠ ARCHIVED) (t_scopes (st_db finished)))
    by (apply (bool_decide_unpack _); vm_compute; exact I).
  rewrite Forall_forall in Hopen.
  split; [apply (bool_decide_unpack _); vm_compute; exact I..| |]; intros sc m Hsc _ _ Har; by destruct (Hopen sc Hsc).
Qed.

Lemma finished_ok : env_ok (st_db finished).
Proof. exact (after_ok [OpComplete env_id "alice"] busy (after_ok setup desk desk_envs)). Qed.

Lemma discard_exact_witness :
  t_objects (st_db gone) =
    archived_among (created_in (en_id (the_env finished)) (members_of finished)) <$> t_objects (st_db finished).
Proof.
  destruct env_discard_run as [e Hrun].
  destruct (discard_exact (the_env finished) "alice" finished (Ok e) gone finished_ok finished_tenancy finished_env Hrun)
    as (_ & _ & _ & _ & _ & H & _).
  exact H.
Defined.

(** ** An active environment is promoted: refused, but the document is shared *)

Definition plain_promotion : PromotionManager := {| pr_flow := false; pr_projections := true; pr_rules := None |}.

Definition target : Scope := default {| sc_id := ""; sc_name := ""; sc_owner := ""; sc_created_at := 0;
  sc_description := ""; sc_parent := None; sc_lifecycle := DRAFT; sc_metadata := [] |} (t_scopes (st_db busy) !! 0).

Definition leaked : store := (promote (Some (flow_promoter plain_promotion)) env_id "alice" (Some (sc_id target)) None None busy).2.

Example promotion_leaks :
  is_ok (promote (Some (flow_promoter plain_promotion)) env_id "alice" (Some (sc_id target)) None None busy).1 = false ∧
  sp_object <$> t_projections (st_db leaked) = ["doc-1"] ∧ pm_object <$> promotions_of leaked = ["doc-1"].
Proof. vm_compute. auto. Qed.

Lemma promote_exact_witness :
  ∃ s1, promote (Some (flow_promoter plain_promotion)) (en_id (the_env busy)) "alice" (Some (sc_id target)) None None busy =
    (Raise (EnvironmentStateError "Cannot transition from 'active' to 'promoted'"), s1).
Proof.
  assert (Hok : env_ok (st_db busy)) by exact (after_ok setup desk desk_envs).
  exists leaked.
  rewrite (promote_exact (flow_promoter plain_promotion) (the_env busy) "alice" (sc_id target) None None busy Hok busy_env).
  vm_compute. reflexivity.
Defined.

(** ** A snapshot is restored after the environment was changed *)

Definition snapped : store := (capture env_id "alice" "before" busy).2.
Definition a_snapshot : EnvironmentSnapshot := default {| es_id := ""; es_env := ""; es_name := "";
  es_data := {| snap_env := None; snap_objects := []; snap_versions := []; snap_members := [] |};
  es_created_at := 0; es_created_by := ""; es_checksum := "" |} (snapshots_of snapped !! 0).

Lemma capture_run : capture env_id "alice" "before" busy = (Ok a_snapshot, snapped).
Proof. vm_compute. reflexivity. Qed.

(** The document is taken out, and its second version becomes the current one. *)
Definition rewritten (l : list ScopedObject) (s : store) : store := put_db (set_objects l (st_db s)) s.
Lemma rewritten_ok l s : env_ok (st_db s) → env_ok (st_db (rewritten l s)).
Proof. intros [A1 A2 A7 A3 A4 A5 A6]. by split. Qed.

Definition emptied : store := after [OpRemoveObject env_id "doc-1" None] snapped.
Definition changed : store := rewritten (at_version 2 <$> t_objects (st_db snapped)) emptied.

Lemma snapped_ok : env_ok (st_db snapped).
Proof. exact (proj1 (keeps_capture env_id "alice" "before" busy (after_ok setup desk desk_envs))). Qed.

Lemma changed_ok : env_ok (st_db changed).
Proof. exact (rewritten_ok _ _ (after_ok [OpRemoveObject env_id "doc-1" None] snapped snapped_ok)). Qed.

Definition restored : store := (restore_snapshot (es_id a_snapshot) "alice" changed).2.
Lemma snapshot_restore_run : restore_snapshot (es_id a_snapshot) "alice" changed = (Ok a_snapshot, restored).
Proof. vm_compute. reflexivity. Qed.

Lemma snapshot_kept : a_snapshot ∈ snapshots_of changed.
Proof. apply (list_elem_of_lookup_2 _ 0). vm_compute. reflexivity. Qed.

Lemma desk_objects : NoDup (so_id <$> t_objects (st_db busy)).
Proof. apply (bool_decide_unpack _). vm_compute. exact I. Qed.

Lemma capture_restore_witness :
  (∀ object, holds env_id object restored ↔ holds env_id object busy) ∧
  eo_object <$> members_of changed = ["doc-2"] ∧ so_version <$> t_objects (st_db restored) = [1; 1].
Proof.
  assert (Hok : env_ok (st_db busy)) by exact (after_ok setup desk desk_envs).
  destruct (capture_restore env_id "alice" "before" busy a_snapshot snapped changed "alice" a_snapshot restored Hok
    desk_objects capture_run changed_ok snapshot_kept snapshot_restore_run) as (_ & H & _).
  split; [exact H|]. vm_compute. auto.
Defined.

(** ** Three snapshots, of which the newest stays *)

Definition tick (s : store) : store :=
  Store (st_db s) (st_now s + 10) (st_next s) (st_sequence s) (st_last_hash s) (st_rivals s) (st_cache s).

Lemma tick_ok s : env_ok (st_db s) → env_ok (st_db (tick s)).
Proof. done. Qed.

Definition twice : store := (capture env_id "alice" "second" (tick snapped)).2.
Definition kept : store := (apply_snapshot_retention env_id None (Some 1) twice).2.

Lemma retention_run2 : ∃ k, apply_snapshot_retention env_id None (Some 1) twice = (Ok k, kept).
Proof. eexists. vm_compute. reflexivity. Qed.

Lemma snapshot_retention_exact_witness :
  length (newest_first env_id kept) ≤ 1 ∧ es_name <$> snapshots_of kept = ["second"].
Proof.
  assert (Hok : env_ok (st_db twice))
    by exact (proj1 (keeps_capture env_id "alice" "second" (tick snapped) (tick_ok snapped snapped_ok))).
  destruct retention_run2 as [k Hrun].
  destruct (snapshot_retention_exact env_id None (Some 1) twice k kept Hok Hrun) as (_ & _ & _ & H & _).
  split; [exact (H 1 eq_refl)|]. vm_compute. reflexivity.
Defined.

(** ** A pipeline of two stages *)

Definition flow_after (ops : list flow_op) (s : store) : store := foldl (λ s op, (run_flow_op everyone op s).2) s ops.

Definition a_pipeline : list flow_op := [
  FCreatePipeline "review" "alice" ""; FAddStage "id-0" "draft" 1 None; FAddStage "id-0" "done" 2 None].

Definition piped : store := flow_after a_pipeline desk.
Definition draft_id : string := default "" (sg_id <$> (stages_of piped !! 0)).
Definition done_id : string := default "" (sg_id <$> (stages_of piped !! 1)).

Lemma desk_flow : flow_ok (st_db desk).
Proof.
  split; try apply NoDup_nil_2; [by intros x ?%elem_of_nil|done|]. intros object. constructor.
Qed.

Definition place : flow_op := FTransition None "doc-1" draft_id "alice" None "".
Definition advance : flow_op := FTransition None "doc-1" done_id "alice" (Some draft_id) "ok".
Definition placed : store := tick (run_flow_op everyone place piped).2.
Definition advanced_store : store := (run_flow_op everyone advance placed).2.

Lemma place_ahead : clock_ahead place piped.
Proof.
  assert (H : transitions_of piped = []) by (vm_compute; reflexivity). intros x Hx. rewrite H in Hx. by apply elem_of_nil in Hx.
Qed.

Lemma advance_ahead : clock_ahead advance placed.
Proof.
  assert (H : Forall (λ x, (tn_at x < st_now placed)%Z) (transitions_of placed))
    by (apply (bool_decide_unpack _); vm_compute; exact I).
  rewrite Forall_forall in H. intros x Hx _. by apply H.
Qed.

Lemma flow_after_steps ops s : Forall (λ op, ∀ s, clock_ahead op s) ops → rtc (flow_step everyone) s (flow_after ops s).
Proof.
  intros H. revert s. induction H as [|op ops Hop _ IH]; intros s; [apply rtc_refl|]. cbn.
  eapply rtc_l; [by apply flow_step_op|apply IH].
Qed.

Lemma flow_after_ok ops s :
  Forall (λ op, ∀ s, clock_ahead op s) ops → flow_ok (st_db s) → flow_ok (st_db (flow_after ops s)).
Proof.
  intros H. revert s. induction H as [|op ops Hop _ IH]; intros s Hok; [done|]. cbn. apply IH.
  exact (proj1 (run_flow_op_keeps everyone op s (Hop s) Hok)).
Qed.

Lemma tick_flow s : same_flow s (tick s).
Proof. done. Qed.

Lemma free_of_clock : Forall (λ op, ∀ s, clock_ahead op s) a_pipeline.
Proof. by repeat constructor. Qed.

Lemma piped_steps : rtc (flow_step everyone) desk advanced_store.
Proof.
  refine (rtc_r _ placed _ _ (flow_step_op everyone advance placed advance_ahead)).
  refine (rtc_r _ _ placed _ (flow_step_other everyone _ _ (tick_flow _))).
  exact (rtc_r _ piped _ (flow_after_steps a_pipeline desk free_of_clock) (flow_step_op everyone place piped place_ahead)).
Qed.

Lemma flow_reachable_ok_witness :
  flow_ok (st_db advanced_store) ∧ tn_to <$> current_move "doc-1" advanced_store = Some done_id.
Proof.
  destruct (flow_reachable_ok everyone desk advanced_store desk_flow piped_steps) as (Hok & _ & _).
  split; [exact Hok|]. vm_compute. reflexivity.
Defined.

Lemma piped_flow : flow_ok (st_db piped).
Proof.
  exact (flow_after_ok a_pipeline desk free_of_clock desk_flow).
Qed.

Definition first_move : store := (transition None "doc-1" draft_id "alice" None "" piped).2.
Lemma first_move_run : ∃ t, transition None "doc-1" draft_id "alice" None "" piped = (Ok t, first_move).
Proof. eexists. vm_compute. reflexivity. Qed.

Lemma stage_transition_exact_witness :
  ∃ t, current_move "doc-1" first_move = Some t ∧ tn_to t = draft_id.
Proof.
  destruct first_move_run as [t Hrun]. exists t.
  destruct (stage_transition_exact None "doc-1" draft_id "alice" None "" piped (Ok t) first_move piped_flow Hrun)
    as (_ & _ & Hto & _ & _ & _ & _ & _ & Hcur).
  split; [exact (Hcur place_ahead)|exact Hto].
Defined.

(** A move between pipelines, out of turn, or by somebody else is refused. *)
Example moves_refused :
  is_ok (transition None "doc-1" done_id "alice" (Some done_id) "" first_move).1 = false ∧
  is_ok (transition None "doc-1" done_id "alice" None "" first_move).1 = false ∧
  is_ok (transition None "doc-1" done_id "bob" (Some draft_id) "" first_move).1 = false ∧
  is_ok (transition None "doc-1" done_id "alice" (Some draft_id) "" first_move).1 = true.
Proof. vm_compute. auto. Qed.

(** ** A channel for reports only, and a promotion that passes no type *)

Definition guarded : PromotionManager := {| pr_flow := true; pr_projections := true; pr_rules := None |}.

Definition channelled : store :=
  (run_flow_op everyone (FCreateChannel "reports" FP_ENVIRONMENT env_id FP_SCOPE (sc_id target) "alice" (Some ["Report"])) busy).2.
Definition promoted : store := (promote_to_scope guarded "doc-1" env_id (sc_id target) "alice" None None READ_LEVEL channelled).2.

Lemma promotion_run :
  ∃ p, promote_to_scope guarded "doc-1" env_id (sc_id target) "alice" None None READ_LEVEL channelled = (Ok p, promoted).
Proof. eexists. vm_compute. reflexivity. Qed.

Example typed_promotion_refused :
  is_ok (promote_to_scope guarded "doc-1" env_id (sc_id target) "alice" None (Some "Document") READ_LEVEL channelled).1 = false.
Proof. vm_compute. reflexivity. Qed.

Lemma promotion_exact_witness : projected_in (sc_id target) "doc-1" promoted.
Proof.
  destruct promotion_run as [p Hrun].
  destruct (promotion_exact guarded "doc-1" env_id (sc_id target) "alice" None None READ_LEVEL channelled p promoted Hrun)
    as (_ & _ & H & _).
  exact (proj1 (H eq_refl)).
Defined.
