(* ===== verification/TemporalDemo.v ===== *)
(** * Legacy v1: rollbacks to run

    The runs that instantiate the theorems of Temporal; it models no code of the
    repository. *)

From S2P Require Import Prelude LegacyTypes Schema Json Trail Rules Objects Environments Temporal LegacyDemo ObjectsDemo.

#[local] Existing Instance writer_sink.

Lemma sorted_trail l : bool_decide (StronglySorted lt (te_sequence <$> l)) = true → seq_sorted l.
Proof.
  intros H%bool_decide_eq_true_1. revert H. unfold seq_sorted. induction l as [|e l IH]; intros H; [constructor|].
  rewrite fmap_cons in H. apply StronglySorted_inv in H as [H Hall]. constructor; [by apply IH|].
  rewrite Forall_fmap in Hall. eapply Forall_impl; [exact Hall|]. done.
Qed.

Lemma keyed_trail l : bool_decide (NoDup (te_id <$> l)) = true → NoDup (te_id <$> l).
Proof. by intros H%bool_decide_eq_true_1. Qed.

(** The clock moves on between two calls. *)
Definition ticked (s : store) : store :=
  Store (st_db s) (st_now s + 10) (st_next s) (st_sequence s) (st_last_hash s) (st_rivals s) (st_cache s).

Lemma later_objects s : objects_ok (st_db s) → objects_ok (st_db (ticked s)).
Proof. done. Qed.

(** ** A document is filed, changed, and changed back *)

Definition aged_doc : store := ticked filed.
Definition edited : store := (update_object library doc "alice" final "reviewed" aged_doc).2.
Lemma edit_run : ∃ o v, update_object library doc "alice" final "reviewed" aged_doc = (Ok (o, v), edited).
Proof. eexists _, _. vm_compute. reflexivity. Qed.

Lemma aged_objects : objects_ok (st_db aged_doc).
Proof. exact (later_objects filed filed_objects). Qed.

Definition no_entry : TraceEntry := new_entry a_request "" 0 0 "".
Definition the_edit : TraceEntry := default no_entry (last (t_trail (st_db edited))).

Lemma edit_last : last (t_trail (st_db edited)) = Some the_edit.
Proof. vm_compute. reflexivity. Qed.
Lemma edit_in : the_edit ∈ t_trail (st_db edited).
Proof. apply last_Some_elem_of, edit_last. Qed.
Lemma edited_keyed : NoDup (te_id <$> t_trail (st_db edited)).
Proof. apply keyed_trail. vm_compute. reflexivity. Qed.
Lemma edited_sorted : seq_sorted (t_trail (st_db edited)).
Proof. apply sorted_trail. vm_compute. reflexivity. Qed.

Definition undone : store := (rollback_action None (te_id the_edit) "bob" None "mistake" false edited).2.
Lemma undo_run :
  ∃ res, rollback_action None (te_id the_edit) "bob" None "mistake" false edited = (Ok (inl res), undone).
Proof. eexists. vm_compute. reflexivity. Qed.

Lemma rollback_undoes_update_witness :
  object_tables (st_db undone) = object_tables (st_db aged_doc) ∧ so_version <$> t_objects (st_db edited) = [2].
Proof.
  destruct edit_run as (o & v & Hrun). destruct undo_run as [res Hundo].
  destruct (rollback_undoes_update None library doc "alice" final "reviewed" aged_doc o v edited aged_objects Hrun)
    as (e & He & _ & _ & H).
  rewrite edit_last in He. injection He as <-. split; [|vm_compute; reflexivity].
  exact (H "bob" None "mistake" edited (inl res) undone eq_refl edit_in edited_keyed Hundo).
Defined.

Definition edited_from : jdict := default [] (te_before the_edit).
Lemma edit_before : te_before the_edit = Some edited_from.
Proof. vm_compute. reflexivity. Qed.
Lemma undone_sorted : seq_sorted (t_trail (st_db undone)).
Proof. apply sorted_trail. vm_compute. reflexivity. Qed.

Lemma reconstruct_after_rollback_witness :
  ∃ t, reconstruct "Document" doc (st_now undone) undone =
    (Ok {| rs_target_type := "Document"; rs_target_id := doc; rs_timestamp := st_now undone;
           rs_state := Some edited_from; rs_trace := Some t; rs_found := true |}, undone).
Proof.
  destruct undo_run as [res Hundo].
  destruct (reconstruct_after_rollback None the_edit "bob" None "mistake" edited_from edited res undone
    edited_keyed edit_in edit_before Hundo undone_sorted) as (t & _ & H).
  exists t. exact H.
Defined.

(** ** The same by the instant before the change *)

Definition before_edit : Z := st_now filed.
Definition rewound_store : store := (rollback_to_timestamp None "Document" doc before_edit "bob" None "" false edited).2.
Lemma rewind_run : ∃ res,
  rollback_to_timestamp None "Document" doc before_edit "bob" None "" false edited = (Ok (inl res), rewound_store) ∧
  rb_denied res = [].
Proof. eexists. split; vm_compute; reflexivity. Qed.

Definition the_document (s : store) : ScopedObject := default a_document (t_objects (st_db s) !! 0).
Lemma document_in : the_document edited ∈ t_objects (st_db edited).
Proof. apply (list_elem_of_lookup_2 _ 0). vm_compute. reflexivity. Qed.

Lemma edited_objects : objects_ok (st_db edited).
Proof.
  assert (Hstep : object_step no_other everyone aged_doc edited) by apply step_update.
  exact (proj1 (objects_reachable no_other everyone aged_doc edited (rtc_once _ _ Hstep) aged_objects)).
Qed.

Lemma rollback_to_timestamp_exact_witness :
  object_tables (st_db rewound_store) = object_tables (rewound doc 1 (st_db edited)).
Proof.
  destruct rewind_run as (res & Hrun & Hden).
  refine (proj1 (rollback_to_timestamp_exact None "Document" before_edit "bob" None "" (the_document edited) 1
    edited res rewound_store edited_objects edited_sorted document_in _ _ Hrun Hden)).
  - apply Nat.leb_le. vm_compute. reflexivity.
  - vm_compute. auto.
Defined.

(** ** A rule that keeps alice from rolling back *)

Definition no_rollbacks : Rule := {|
  rl_id := "keep"; rl_name := "keep"; rl_type := RT_ACCESS; rl_effect := DENY; rl_priority := 1;
  rl_conditions := [("action", JVstr "rollback")]; rl_created_at := 0; rl_created_by := "root"; rl_version := 1;
  rl_description := ""; rl_lifecycle := ACTIVE |}.
Definition on_documents : RuleBinding := {|
  rb_id := "b"; rb_rule := "keep"; rb_target_type := BT_OBJECT_TYPE; rb_target := "Document"; rb_bound_at := 0;
  rb_bound_by := "root"; rb_lifecycle := ACTIVE |}.

Definition guarded_by (r : Rule) (b : RuleBinding) (s : store) : store :=
  put_db (set_bindings [b] (set_rules [r] (st_db s))) s.

Lemma guarded_trail r b s : t_trail (st_db (guarded_by r b s)) = t_trail (st_db s).
Proof. done. Qed.
Lemma guarded_keyed r b s : rules_keyed (st_db (guarded_by r b s)).
Proof. apply NoDup_singleton. Qed.
Lemma guarded_cache r b s : st_cache (guarded_by r b s) = st_cache s.
Proof. done. Qed.

Definition kept_from : store := guarded_by no_rollbacks on_documents edited.

Lemma kept_keyed : NoDup (te_id <$> t_trail (st_db kept_from)).
Proof. unfold kept_from. rewrite guarded_trail. exact edited_keyed. Qed.
Lemma kept_edit : the_edit ∈ t_trail (st_db kept_from).
Proof. unfold kept_from. rewrite guarded_trail. exact edit_in. Qed.
Lemma edited_cache : st_cache edited = [].
Proof. vm_compute. reflexivity. Qed.
Lemma kept_cache : cache_ok kept_from.
Proof. intros ty tg e l. unfold kept_from. rewrite guarded_cache, edited_cache. by intros ?%not_elem_of_nil. Qed.

Lemma kept_denies : denied_by (st_db kept_from) the_edit "alice" None no_rollbacks.
Proof.
  split; [|reflexivity]. split; [left|]. split; [reflexivity|]. split; [vm_compute; reflexivity|].
  exists on_documents. split; [left|]. split; [reflexivity|]. split; [reflexivity|].
  apply (bool_decide_unpack _). vm_compute. exact I.
Qed.

Lemma rollback_needs_permission_witness :
  ∃ ex s, rollback_action (Some (Some (Some 60%Z))) (te_id the_edit) "alice" None "" false kept_from = (Raise ex, s) ∧
    object_tables (st_db s) = object_tables (st_db kept_from).
Proof.
  destruct (rollback_action (Some (Some (Some 60%Z))) (te_id the_edit) "alice" None "" false kept_from) as [r s] eqn:Hrun.
  destruct (rollback_needs_permission (Some 60%Z) the_edit "alice" None "" false kept_from r s kept_cache
    (guarded_keyed _ _ _) kept_keyed kept_edit (or_intror (ex_intro _ no_rollbacks kept_denies)) Hrun)
    as [[ex ->] Hoff].
  exists ex, s. split; [reflexivity|]. exact (off_trail_objects kept_from s Hoff).
Defined.

(** ** A creation that led to another, undone together *)

Definition created_entry (id : string) (n : nat) (object : string) (parent : option string) : TraceEntry := {|
  te_id := id; te_sequence := n; te_actor := "alice"; te_action := ActionType.CREATE; te_target_type := "Document";
  te_target_id := object; te_timestamp := 0; te_hash := id; te_previous_hash := ""; te_scope := None;
  te_before := None; te_after := Some [("id", JVstr object)]; te_metadata := []; te_parent := parent |}.

Definition root_entry : TraceEntry := created_entry "t-1" 1 "doc-1" None.
Definition child_entry : TraceEntry := created_entry "t-2" 2 "doc-2" (Some "t-1").

Definition live_doc (id : string) : ScopedObject :=
  {| so_id := id; so_type := "Document"; so_owner := "alice"; so_version := 1; so_created_at := 0;
     so_lifecycle := ACTIVE; so_registry := None |}.

Definition linked_pair : store :=
  Store (set_trail [root_entry; child_entry] (set_objects [live_doc "doc-1"; live_doc "doc-2"] empty_tables))
    1000 0 2 "t-2" [] [].

Lemma pair_keyed : NoDup (te_id <$> t_trail (st_db linked_pair)).
Proof. apply keyed_trail. reflexivity. Qed.
Lemma linked_sorted : seq_sorted (t_trail (st_db linked_pair)).
Proof. apply sorted_trail. reflexivity. Qed.
Lemma root_in : root_entry ∈ t_trail (st_db linked_pair).
Proof. left. Qed.

Definition pair_undone : store := (rollback_cascade None "t-1" "bob" None "" false linked_pair).2.
Lemma cascade_run : ∃ r, rollback_cascade None "t-1" "bob" None "" false linked_pair = (Ok r, pair_undone).
Proof. eexists. vm_compute. reflexivity. Qed.

Example both_archived : so_lifecycle <$> t_objects (st_db pair_undone) = [ARCHIVED; ARCHIVED].
Proof. vm_compute. reflexivity. Qed.

Lemma few_kids i : length (filter (λ x, te_parent x = Some i) (t_trail (st_db linked_pair))) ≤ child_limit.
Proof. etrans; [apply length_filter|]. apply Nat.leb_le. reflexivity. Qed.

Lemma cascade_exact_witness :
  ∃ res es, rolled_back res = te_id <$> es ∧ root_entry ∈ es ∧ child_entry ∈ es ∧ StronglySorted newest_first es.
Proof.
  destruct cascade_run as [r Hrun].
  destruct (cascade_exact None root_entry "bob" None "" linked_pair linked_pair r pair_undone pair_keyed root_in eq_refl
    linked_sorted pair_keyed root_in few_kids Hrun) as (res & es & _ & Hmem & _ & Hsort & _ & _ & Hall & _).
  exists res, es. split; [exact (Hall eq_refl)|]. split; [apply Hmem; left; reflexivity|].
  split; [|exact Hsort]. apply Hmem. right. exists 1. split; [apply Nat.leb_le; reflexivity|].
  apply descends_child; [right; left|reflexivity].
Defined.

Definition half_undone : store := (rollback_action None "t-2" "bob" None "" false linked_pair).2.
Lemma half_run : ∃ r, rollback_action None "t-2" "bob" None "" false linked_pair = (Ok r, half_undone).
Proof. eexists. vm_compute. reflexivity. Qed.

Lemma rollback_target_exact_witness :
  t_objects (st_db half_undone) = updated_objects "doc-2" archived_object (t_objects (st_db linked_pair)) ∧
  t_tombstones (st_db half_undone) = [].
Proof.
  destruct half_run as [r Hrun].
  destruct (rollback_target_exact None child_entry "bob" None "" linked_pair r half_undone pair_keyed
    (list_elem_of_further _ _ _ (list_elem_of_here _ _)) Hrun) as (_ & Hobj & _).
  destruct Hobj as (Ht & _ & Ho & _); [right; left|]. split; [exact Ho|exact Ht].
Defined.
