(* ===== verification/DeployDemo.v ===== *)
(** * Legacy v1: a deployment to run

    The runs that instantiate the theorems of Deployments; it models no code of the
    repository. *)

From S2P Require Import Prelude LegacyTypes Schema Trail Tenancy Deployments LegacyDemo ObjectsDemo.

#[local] Existing Instance no_audit.

Definition ship (ops : list deploy_op) (s : store) : store := foldl (λ s op, (run_deploy_op everyone op s).2) s ops.

Lemma ship_steps ops s : Forall fair_op ops → rtc (deploy_step everyone) s (ship ops s).
Proof.
  intros H. revert s. induction H as [|op ops Hop _ IH]; intros s; [apply rtc_refl|]. cbn.
  eapply rtc_l; [by apply deploy_step_op|apply IH].
Qed.

Lemma ship_ok ops s : Forall fair_op ops → deploy_ok (st_db s) → deploy_ok (st_db (ship ops s)).
Proof.
  intros H. revert s. induction H as [|op ops Hop _ IH]; intros s Hok; [done|]. cbn. apply IH.
  exact (proj1 (run_deploy_op_keeps everyone op s Hop Hok)).
Qed.

Lemma no_deployments : deploy_ok (st_db fresh_store).
Proof.
  split; [apply NoDup_nil_2|apply NoDup_nil_2|done|by intros d ?%elem_of_nil| |by intros d ?%elem_of_nil|by intros g ?%elem_of_nil].
  by intros d r ?%elem_of_nil.
Qed.

(** A target, a deployment, and a gate that passed. *)
Definition prepare : list deploy_op := [
  DCreateTarget "site" "web" "alice" None; DCreate "id-0" "alice" None None None None;
  DGate "id-1" APPROVAL true None (Some "bob")].

Lemma prepare_fair : Forall fair_op prepare.
Proof. by repeat constructor. Qed.

Definition ready : store := ship prepare fresh_store.
Definition a_deployment (n : nat) (s : store) : Deployment :=
  default {| dp_id := ""; dp_target := ""; dp_by := ""; dp_version := 0; dp_state := DEP_PENDING; dp_object := None;
             dp_scope := None; dp_at := None; dp_rollback_of := None; dp_metadata := [] |} (deployments_of (st_db s) !! n).

(** The callback refuses. *)
Definition refuse_it : option (Deployment → lp bool) := Some (λ _, mret false).

Lemma refuse_same g : refuse_it = Some g → ∀ d s, same_deploys s (g d s).2.
Proof. by intros [= <-] d s. Qed.

Definition shipped : store := (execute_deployment "id-1" "alice" None ready).2.
Definition refused : store := (execute_deployment "id-1" "alice" refuse_it ready).2.

Lemma ship_run : ∃ d, execute_deployment "id-1" "alice" None ready = (Ok d, shipped).
Proof. eexists. vm_compute. reflexivity. Qed.
Lemma refuse_run : ∃ d, execute_deployment "id-1" "alice" refuse_it ready = (Ok d, refused).
Proof. eexists. vm_compute. reflexivity. Qed.

Lemma ready_ok : deploy_ok (st_db ready).
Proof. exact (ship_ok prepare fresh_store prepare_fair no_deployments). Qed.

Lemma ready_shipped : shipped = ship [DExecute "id-1" "alice" None] ready.
Proof. vm_compute. reflexivity. Qed.

Lemma shipped_ok : deploy_ok (st_db shipped).
Proof. rewrite ready_shipped. refine (ship_ok _ ready _ ready_ok). by repeat constructor. Qed.

(** Executed, rolled back, and the rollback executed. *)
Definition finish : list deploy_op := [
  DExecute "id-1" "alice" None; DRollback "id-1" "alice" None; DExecute "id-3" "alice" None].

Lemma finish_fair : Forall fair_op finish.
Proof. by repeat constructor. Qed.

Definition all_done : store := ship finish ready.

Lemma deploy_reachable_ok_witness :
  deploy_ok (st_db all_done) ∧ dp_state <$> deployments_of (st_db all_done) = [ROLLED_BACK; DEPLOYED].
Proof.
  split; [|vm_compute; reflexivity].
  exact (proj1 (deploy_reachable_ok everyone ready all_done ready_ok (ship_steps finish ready finish_fair))).
Defined.

Lemma execute_exact_witness :
  (∃ at_, deployments_of (st_db refused) = updated_deployments "id-1" (in_state DEP_FAILED at_) (deployments_of (st_db ready))) ∧
  dp_state <$> deployments_of (st_db shipped) = [DEPLOYED].
Proof.
  split; [|vm_compute; reflexivity]. destruct refuse_run as [d Hrun].
  destruct (execute_exact "id-1" "alice" refuse_it ready (Ok d) refused ready_ok refuse_same Hrun)
    as [[[=] _]|(e & _ & _ & _ & _ & _ & st & at_ & Hrows & H1 & H2 & _)].
  exists at_. destruct (decide (st = DEPLOYING)) as [Hst|Hst]; [discriminate (H1 Hst)|].
  destruct (H2 Hst) as (s1 & b & Hb & _ & Hstb). simpl in Hb. subst b st. exact Hrows.
Defined.

Definition taken_back : store := (rollback_deployment "id-1" "alice" None shipped).2.
Lemma take_back_run : ∃ d, rollback_deployment "id-1" "alice" None shipped = (Ok d, taken_back).
Proof. eexists. vm_compute. reflexivity. Qed.

Lemma rollback_deployment_exact_witness :
  ∃ d, rollback_deployment "id-1" "alice" None shipped = (Ok d, taken_back) ∧ dp_rollback_of d = Some "id-1" ∧
    dp_state <$> deployments_of (st_db taken_back) = [ROLLED_BACK; DEP_PENDING].
Proof.
  destruct take_back_run as [d Hrun]. exists d. split; [exact Hrun|].
  destruct (rollback_deployment_exact "id-1" "alice" None shipped (Ok d) taken_back shipped_ok Hrun) as [H _].
  destruct (H d eq_refl) as (o & _ & _ & _ & _ & _ & _ & _ & _ & _ & Hr & _).
  split; [exact Hr|]. vm_compute. reflexivity.
Defined.

Lemma all_done_ok : deploy_ok (st_db all_done).
Proof. exact (ship_ok finish ready finish_fair ready_ok). Qed.

Lemma rollback_chain_ends_witness :
  ∃ k, get_rollback_chain "id-1" all_done = (Ok (Some k), all_done) ∧ dp_state <$> k = [ROLLED_BACK; DEPLOYED].
Proof.
  destruct (rollback_chain_ends "id-1" all_done all_done_ok) as (k & Hrun & _). exists k. split; [exact Hrun|].
  assert (Hk : ∃ k', (get_rollback_chain "id-1" all_done).1 = Ok (Some k') ∧ dp_state <$> k' = [ROLLED_BACK; DEPLOYED])
    by (eexists; split; vm_compute; reflexivity).
  destruct Hk as (k' & Hk' & Hst). rewrite Hrun in Hk'. injection Hk' as ->. exact Hst.
Defined.
