(* ===== verification/EventDemo.v ===== *)
(** * Legacy v1: events and notifications to run

    The runs that instantiate the theorems of EventBehaviour and Notifications,
    with a toy cipher; it models no code of the repository. *)

From Stdlib Require Import Ascii.
From S2P Require Import Prelude LegacyTypes Schema Json JsonParse Trail Tenancy Secrets Scheduling Environments Events EventBehaviour Notifications LegacyDemo ObjectsDemo.

#[local] Existing Instance no_audit.

#[local] Instance quiet_registry : AutoRegister := {|
  auto_register := λ _ _, mret tt; auto_register_off := λ _ _ s, conj eq_refl eq_refl |}.

(** A token is the text behind a mark. *)
Definition toy_decrypt (key token : string) : outcome string :=
  match token with String "T"%char text => Ok text | _ => Raise InvalidToken end.

#[local] Instance toy_fernet : Fernet := {|
  fernet_encrypt := λ _ _ text, String "T"%char text; fernet_decrypt := toy_decrypt;
  fernet_inverse := λ _ _ _, eq_refl |}.

Lemma toy_only_invalid : only_invalid.
Proof.
  intros key token e. cbn. unfold toy_decrypt. destruct token as [|c token]; [by intros [= <-]|].
  destruct c as [[] [] [] [] [] [] [] []]; by intros [=].
Qed.

Lemma toy_empty : fernet_decrypt "key" "" = Raise InvalidToken.
Proof. reflexivity. Qed.

(** ** An endpoint, a subscription, an event *)

Definition headers : jdict := [("auth_token", JVstr "t0k3n"); ("secret", JVstr ""); ("retries", JVint 3)].

Definition hooked : store := (create_webhook everyone (Some "key") "ci" "https://ci" "alice" (Some headers) None fresh_store).2.

Lemma webhook_config_roundtrip_witness :
  ∃ wh row, get_webhook (Some "key") "id-0" hooked = (Ok (Some wh), hooked) ∧ wh_config wh = headers ∧
    row ∈ endpoints_of (st_db hooked) ∧ ∃ n, jget (wh_config row) "auth_token" = Some (JVstr (fernet_encrypt "key" n (json_text (JVstr "t0k3n")))).
Proof.
  assert (Hrun : ∃ wh, create_webhook everyone (Some "key") "ci" "https://ci" "alice" (Some headers) None fresh_store = (Ok wh, hooked)
    ∧ wh_id wh = "id-0") by (eexists; split; vm_compute; reflexivity).
  destruct Hrun as (wh & Hrun & Hid).
  destruct (webhook_config_roundtrip everyone "key" "ci" "https://ci" "alice" (Some headers) None fresh_store wh hooked hooked
    eq_refl toy_empty Hrun eq_refl) as (Hc & Hget & row & Hrow & _ & Hsealed).
  { apply (bool_decide_unpack _). vm_compute. exact I. }
  exists wh, row. rewrite Hid in Hget. split; [exact Hget|]. split; [exact Hc|]. split; [exact Hrow|].
  apply (Hsealed "auth_token" (JVstr "t0k3n")); [by right; left|by rewrite Hc|done].
Defined.

Definition bell : EventListener := {| ln_name := "bell"; ln_call := λ _, mret tt |}.
Definition bells : listeners := on_any (on [] "object_created" bell) bell.

Definition subscribe : event_op := ECreateSubscription "all" "alice" (Some ["object_created"]) None None (Some "id-0").
Definition emission : event_op := EEmit bells OBJECT_CREATED "alice" "Document" "doc-1" None None None.

Definition error_text (e : exn) : string := match e with ValueError m => m | _ => "error" end.

Definition play (ops : list event_op) (s : store) : store :=
  foldl (λ s op, (run_event_op everyone 3 (Some "key") error_text op s).2) s ops.

Lemma play_steps ops s :
  Forall (fair_event_op 3) ops → rtc (event_step everyone 3 (Some "key") error_text) s (play ops s).
Proof.
  intros H. revert s. induction H as [|op ops Hop _ IH]; intros s; [apply rtc_refl|]. cbn.
  eapply rtc_l; [by apply event_step_op|apply IH].
Qed.

Lemma play_ok ops s : Forall (fair_event_op 3) ops → events_ok 3 (st_db s) → events_ok 3 (st_db (play ops s)).
Proof.
  intros H. revert s. induction H as [|op ops Hop _ IH]; intros s Hok; [done|]. cbn. apply IH.
  exact (proj1 (run_event_op_keeps everyone 3 (Some "key") error_text op s Hop Hok)).
Qed.

Lemma no_events : events_ok 3 (st_db fresh_store).
Proof. split; try apply NoDup_nil_2; by intros d ?%elem_of_nil. Qed.

Lemma bells_quiet k l x : (k, l) ∈ bells → x ∈ l → quiet_listener x.
Proof.
  intros Hk Hx e s. assert (x = bell) as ->; [|done].
  assert (Hall : Forall (λ y, Forall (λ z, z = bell) y.2) bells) by by repeat constructor.
  rewrite Forall_forall in Hall. specialize (Hall _ Hk). rewrite Forall_forall in Hall. by apply Hall.
Qed.

Definition opening : list event_op := [ECreateWebhook "ci" "https://ci" "alice" (Some headers) None; subscribe].
Lemma opening_fair : Forall (fair_event_op 3) opening.
Proof. by repeat constructor. Qed.

Definition awake : store := play opening fresh_store.
Lemma awake_ok : events_ok 3 (st_db awake).
Proof. exact (play_ok opening fresh_store opening_fair no_events). Qed.

Definition rung : store := (emit bells OBJECT_CREATED "alice" "Document" "doc-1" None None None awake).2.
Lemma ring_run : ∃ e, emit bells OBJECT_CREATED "alice" "Document" "doc-1" None None None awake = (Ok e, rung).
Proof. eexists. vm_compute. reflexivity. Qed.

Lemma emit_exact_witness :
  ∃ e ds, emit bells OBJECT_CREATED "alice" "Document" "doc-1" None None None awake = (Ok e, rung) ∧
    events_of (st_db rung) = events_of (st_db awake) ++ [e] ∧
    deliveries_of (st_db rung) = deliveries_of (st_db awake) ++ ds ∧ Forall (queued_for e awake) ds ∧ length ds = 1.
Proof.
  destruct ring_run as [e Hrun].
  destruct (emit_exact bells OBJECT_CREATED "alice" "Document" "doc-1" None None None awake e rung bells_quiet Hrun)
    as (_ & Hev & _ & _ & (ds & Hds & Hq & _) & _).
  exists e, ds. split; [exact Hrun|]. split; [exact Hev|]. split; [exact Hds|]. split; [exact Hq|].
  assert (Hl : length (deliveries_of (st_db rung)) = 1) by (vm_compute; reflexivity).
  assert (H0 : length (deliveries_of (st_db awake)) = 0) by (vm_compute; reflexivity).
  rewrite Hds, length_app, H0 in Hl. exact Hl.
Defined.

(** ** A subscription to nowhere *)

Definition nowhere : event_op := ECreateSubscription "lost" "alice" None None None (Some "gone").
Definition lost : store := play [nowhere] fresh_store.
Definition lost_subscription : EventSubscription := {|
  sb_id := "id-0"; sb_name := "lost"; sb_owner := "alice"; sb_events := []; sb_targets := []; sb_scope := None;
  sb_endpoint := Some "gone"; sb_created_at := 1000; sb_lifecycle := ACTIVE |}.
Lemma lost_subscriptions : subscriptions_of (st_db lost) = [lost_subscription].
Proof. vm_compute. reflexivity. Qed.

Lemma emit_unknown_endpoint_witness :
  ∃ ex s', emit bells OBJECT_CREATED "alice" "Document" "doc-1" None None None lost = (Raise ex, s').
Proof.
  destruct (emit_unknown_endpoint bells OBJECT_CREATED "alice" "Document" "doc-1" None None None lost_subscription lost)
    as (ex & s' & e & Hrun & _); [| |done| |done| |exists ex, s'; exact Hrun].
  - apply (bool_decide_unpack _). vm_compute. exact I.
  - rewrite lost_subscriptions. left.
  - intros e _ _ _. reflexivity.
  - apply (bool_decide_unpack _). vm_compute. exact I.
Defined.

(** ** A delivery that fails, and is tried again *)

Definition refusing : DeliveryTransport := λ _ _, mret (500%Z, "busy").

Lemma refusing_quiet : quiet_transport refusing.
Proof. by intros w e s. Qed.
Lemma default_quiet : quiet_transport _default_transport.
Proof. by intros w e s. Qed.

Definition calling : list event_op := opening ++ [emission].
Definition called : store := play calling fresh_store.

Lemma bells_fair : fair_bus 3 bells.
Proof.
  intros k l x Hk Hx e s. apply ekeeps_same. exact (bells_quiet k l x Hk Hx e s).
Qed.

Lemma calling_fair : Forall (fair_event_op 3) calling.
Proof. apply Forall_app. split; [exact opening_fair|]. apply list.Forall_singleton. exact bells_fair. Qed.

Lemma called_ok : events_ok 3 (st_db called).
Proof. exact (play_ok calling fresh_store calling_fair no_events). Qed.

Lemma deliver_pending_exact_witness :
  ∃ round rows s', deliver_pending refusing (Some "key") error_text called = (Ok (snd <$> round), s') ∧
    round_over refusing (Some "key") error_text rows round called s' ∧
    (∀ d, d ∈ deliveries_of (st_db s') → wd_status d ≠ DELIVERY_PENDING) ∧
    wd_status <$> deliveries_of (st_db (deliver_pending refusing (Some "key") error_text called).2) = [DELIVERY_FAILED].
Proof.
  destruct (deliver_pending_exact refusing 3 (Some "key") error_text called called_ok toy_only_invalid refusing_quiet)
    as (round & rows & s' & Hrun & Hround & _ & _ & _ & Hnone).
  exists round, rows, s'. split; [exact Hrun|]. split; [exact Hround|]. split; [exact Hnone|]. vm_compute. reflexivity.
Defined.

Definition busy : store := play [EDeliver refusing] called.

Lemma refusing_fair : fair_transport 3 refusing.
Proof. intros w e s. split; [by apply ekeeps_same|done]. Qed.

Lemma default_fair : fair_transport 3 _default_transport.
Proof. intros w e s. split; [by apply ekeeps_same|done]. Qed.

Lemma busy_ok : events_ok 3 (st_db busy).
Proof. refine (play_ok [EDeliver refusing] called _ called_ok). apply list.Forall_singleton. exact refusing_fair. Qed.

Lemma retry_failed_exact_witness :
  ∃ (round : list (Delivery * outcome (Z * string) * DeliveryAttempt)) (rows : list Delivery) s', retry_failed _default_transport 3 (Some "key") error_text 0 busy = (Ok (snd <$> round), s') ∧
    (∀ row, row ∈ rows ↔ row ∈ deliveries_of (st_db busy) ∧ due_again 3 0 (st_now busy) row) ∧
    (λ d, (wd_status d, wd_attempt d)) <$>
      deliveries_of (st_db (retry_failed _default_transport 3 (Some "key") error_text 0 busy).2) = [(DELIVERED, 2)].
Proof.
  destruct (retry_failed_exact _default_transport 3 (Some "key") error_text 0 busy busy_ok toy_only_invalid default_quiet)
    as (round & rows & s' & Hrun & _ & _ & _ & Hrows).
  exists round, rows, s'. split; [exact Hrun|]. split; [exact Hrows|]. vm_compute. reflexivity.
Defined.

Definition answers : list event_op := [EDeliver refusing; ERetry _default_transport 0; EDeleteWebhook "id-0" "alice"].

Lemma answers_fair : Forall (fair_event_op 3) answers.
Proof.
  apply Forall_cons. split; [exact refusing_fair|]. apply Forall_cons. split; [exact default_fair|].
  by apply list.Forall_singleton.
Qed.

Lemma events_reachable_ok_witness :
  events_ok 3 (st_db (play answers called)) ∧
  (λ d, (wd_status d, wd_attempt d)) <$> deliveries_of (st_db (play answers called)) = [(DELIVERED, 2)].
Proof.
  split; [|vm_compute; reflexivity].
  exact (proj1 (events_reachable_ok everyone 3 (Some "key") error_text called (play answers called) called_ok
    (play_steps answers called answers_fair))).
Defined.

(** ** Notifications *)

Definition plain_fields (_ : list (string * string)) (rest : string) : outcome (string * string) := Ok ("", rest).

Definition announce (title : string) : notify_op :=
  NCreateRule "new" "alice" (Some ["object_created"]) None None ["bob"; "carol"] IN_APP title "by {actor_id}".

Definition notice (ops : list notify_op) (s : store) : store :=
  foldl (λ s op, (run_notify_op everyone plain_fields op s).2) s ops.

Lemma notice_steps ops s : rtc (notify_step everyone plain_fields) s (notice ops s).
Proof.
  revert s. induction ops as [|op ops IH]; intros s; [apply rtc_refl|]. cbn.
  eapply rtc_l; [apply notify_step_op|apply IH].
Qed.

Lemma notice_ok ops s : notify_ok (st_db s) → notify_ok (st_db (notice ops s)).
Proof.
  revert s. induction ops as [|op ops IH]; intros s Hok; [done|]. cbn. apply IH.
  exact (proj1 (run_notify_op_keeps everyone plain_fields op s Hok)).
Qed.

Lemma no_notifications : notify_ok (st_db fresh_store).
Proof. split; try apply NoDup_nil_2; by intros n ?%elem_of_nil. Qed.

Definition created_event : Event := {|
  ev_id := "e-1"; ev_type := OBJECT_CREATED; ev_actor := "alice"; ev_target_type := "Document"; ev_target := "doc-1";
  ev_at := 1000; ev_scope := None; ev_data := []; ev_source := None; ev_lifecycle := ACTIVE |}.

Definition announced : store := notice [announce "{target_type} {target_id}: {{new}}"] fresh_store.

Definition reading : list notify_op := [NProcess created_event; NMarkRead "id-1"; NMarkDismissed "id-2"].

Lemma notify_reachable_ok_witness :
  notify_ok (st_db (notice reading announced)) ∧
  (λ n, (nt_recipient n, nt_title n, nt_body n, nt_status n)) <$> notifications_of (st_db (notice reading announced)) =
    [("bob", "Document doc-1: {new}", "by alice", READ_STATUS); ("carol", "Document doc-1: {new}", "by alice", DISMISSED)].
Proof.
  split; [|vm_compute; reflexivity].
  exact (proj1 (notify_reachable_ok everyone plain_fields announced (notice reading announced)
    (notice_ok _ fresh_store no_notifications) (notice_steps reading announced))).
Defined.

Lemma announced_none : notifications_of (st_db announced) = [].
Proof. vm_compute. reflexivity. Qed.
Lemma announced_ahead : ids_ahead announced.
Proof. intros n k. rewrite announced_none. by intros ?%elem_of_nil. Qed.

Lemma process_event_exact_witness :
  ∃ l s', process_event plain_fields created_event announced = (Ok l, s') ∧
    notifications_of (st_db s') = notifications_of (st_db announced) ++ l ∧ nt_recipient <$> l = ["bob"; "carol"].
Proof.
  destruct (process_event_exact plain_fields created_event announced announced_ahead)
    as (rules & sent & l & r & s' & Hrun & _ & _ & Hrows & _ & Hend).
  assert (Hr : ∃ l', (process_event plain_fields created_event announced).1 = Ok l' ∧ nt_recipient <$> l' = ["bob"; "carol"])
    by (eexists; split; vm_compute; reflexivity).
  destruct Hr as (l' & Hl' & Hwho). rewrite Hrun in Hl'. cbn in Hl'. subst r.
  destruct Hend as [[[= <-] _]|(x & rest & ex & _ & [=] & _)].
  exists l', s'. split; [exact Hrun|]. split; [exact Hrows|exact Hwho].
Defined.

(** A template with a field that is not known. *)
Example unknown_field :
  (process_event plain_fields created_event (notice [announce "{owner}"] fresh_store)).1 = Raise (KeyError "owner").
Proof. vm_compute. reflexivity. Qed.

(** ** A channel turned off, then the preference deleted *)

Lemma preference_exact_witness :
  ∃ r s1 s2, set_preference "bob" EMAIL false fresh_store = (r, s1) ∧ is_ok r = true ∧
    is_channel_enabled "bob" EMAIL s1 = (Ok false, s1) ∧ delete_preference "bob" EMAIL s1 = (Ok tt, s2) ∧
    (set_preference "bob" EMAIL true s2).1 = Raise (IntegrityError "notification_preferences").
Proof.
  destruct (preference_exact "bob" EMAIL false fresh_store no_notifications) as (r & s1 & s2 & Hset & Hdel & Hend & _ & _ & _ & Hagain).
  { by intros x k ?%elem_of_nil. }
  exists r, s1, s2. destruct Hend as [[Hr Hen]|(_ & _ & x & Hx & _)]; [|by apply elem_of_nil in Hx].
  split; [exact Hset|]. split; [exact Hr|]. split; [exact Hen|]. split; [exact Hdel|]. apply Hagain.
Defined.
