(* ===== verification/BlueprintDemo.v ===== *)
(** * Legacy v1: contracts and templates to run

    The runs that instantiate the theorems of Contracts and Templates; it models no
    code of the repository. *)

From S2P Require Import Prelude LegacyTypes Schema Json Trail Rules RuleClients Tenancy Versioned PyFloat Objects Contracts Templates LegacyDemo ObjectsDemo.

(** ** A contract for notes *)

(** Patterns are not used here. *)
Definition no_pattern (p : jval) (s : string) : outcome bool := Ok true.

Definition title_field : ContractField := {|
  cf_name := "title"; cf_type := STRING; cf_required := true; cf_default := JVnull; cf_description := "";
  cf_constraints := [("min_length", JVint 1)] |}.
Definition stars_field : ContractField := {|
  cf_name := "stars"; cf_type := INTEGER; cf_required := false; cf_default := JVnull; cf_description := "";
  cf_constraints := [("max_value", JVint 5); ("choices", JVlist [JVint 1; JVint 3; JVint 5])] |}.

Definition first_contract : store :=
  (create_contract everyone "note" "Note" "alice" [title_field] "" None None fresh_store).2.
Definition revised : store := (update_contract "id-0" [title_field; stars_field] "alice" None "stars" first_contract).2.

Lemma no_contracts : contracts_ok (st_db fresh_store).
Proof. exact (versioned_nil _ _ _ _ _). Qed.

Lemma first_ok : contracts_ok (st_db first_contract).
Proof.
  exact (proj1 (kkeeps_create everyone "note" "Note" "alice" [title_field] "" None None fresh_store no_contracts)).
Qed.

Definition version_2 : ContractVersion := {|
  kv_id := "id-2"; kv_contract := "id-0"; kv_version := 2; kv_fields := [title_field; stars_field];
  kv_created_at := 1000; kv_created_by := "alice"; kv_constraints := []; kv_reason := "stars" |}.

Lemma blueprint_revised : update_contract "id-0" [title_field; stars_field] "alice" None "stars" first_contract = (Ok version_2, revised).
Proof. vm_compute. reflexivity. Qed.

Lemma plain_2 : plain_version no_pattern version_2.
Proof.
  split; [|by apply Forall_nil].
  assert (Hplain : ∀ f, f = title_field ∨ f = stars_field → plain_field no_pattern f).
  { intros f Hf. split_and!; [|done|].
    - intros k b Hk Hb%jget_elem. destruct Hf as [-> | ->].
      + apply list_elem_of_singleton in Hb as [= _ ->]. by eexists.
      + apply elem_of_cons in Hb as [[= _ ->]|[= -> _]%list_elem_of_singleton]; [by eexists|set_solver].
    - intros c Hc. destruct Hf as [-> | ->]; cbn in Hc; [done|]. injection Hc as <-. by eexists. }
  apply Forall_cons. split; [apply Hplain; by left|]. apply list.Forall_singleton. apply Hplain. by right.
Qed.

Definition good_note : jdict := [("title", JVstr "a"); ("stars", JVbool true)].
Definition bad_note : jdict := [("title", JVstr ""); ("stars", JVint 7); ("owner", JVnull)].

(** A ratio of at most 1.5, and a count. *)
Definition three_halves : SpecFloat.spec_float := SpecFloat.S754_finite false 3 (-1).
Definition float_field (name : string) (type : FieldType) (constraints : jdict) : ContractField := {|
  cf_name := name; cf_type := type; cf_required := false; cf_default := JVnull; cf_description := "";
  cf_constraints := constraints |}.

Definition ratios : ContractVersion := {|
  kv_id := "id-9"; kv_contract := "id-8"; kv_version := 1;
  kv_fields := [float_field "ratio" FLOAT [("max_value", JVfloat three_halves)]; float_field "count" INTEGER []];
  kv_created_at := 1000; kv_created_by := "alice"; kv_constraints := []; kv_reason := "" |}.

(** The bound itself passes, an int is a float here but not the other way round, and no
    bound holds back a NaN. *)
Definition passing : list jdict :=
  [[("ratio", JVfloat three_halves); ("count", JVint 2)]; [("ratio", JVint 1)]; [("ratio", JVfloat SpecFloat.S754_nan)]].
Definition refused_ratios : list jdict :=
  [[("count", JVfloat three_halves)]; [("ratio", JVint 2)]; [("ratio", JVstr "1.5")]].

Definition verdict (data : jdict) : option bool :=
  match validate_against_version no_pattern data ratios with Ok r => Some (vr_valid r) | Raise _ => None end.

Lemma verdicts : Forall (λ d, verdict d = Some true) passing ∧ Forall (λ d, verdict d = Some false) refused_ratios.
Proof. split; repeat (apply Forall_cons; split; [vm_compute; reflexivity|]); apply Forall_nil; exact I. Qed.

Lemma verdict_of data b : verdict data = Some b → ∃ r, validate_against_version no_pattern data ratios = Ok r ∧ vr_valid r = b.
Proof. unfold verdict. destruct (validate_against_version _ _ _) as [r|e]; [|done]. intros [= <-]. by exists r. Qed.

Lemma validate_exact_witness :
  conforms no_pattern good_note version_2 ∧ ¬ conforms no_pattern bad_note version_2 ∧
  Forall (λ data, conforms no_pattern data ratios) passing ∧ Forall (λ data, ¬ conforms no_pattern data ratios) refused_ratios.
Proof.
  destruct (validate_exact no_pattern good_note version_2) as [Hgood Htotal].
  destruct (validate_exact no_pattern bad_note version_2) as [Hbad _].
  destruct (Htotal plain_2) as [r Hr]. destruct verdicts as [Hpass Hrefused]. split; [|split; [|split]].
  - apply (Hgood r Hr). vm_compute in Hr. injection Hr as <-. reflexivity.
  - intros Hc. assert (Hrun : ∃ r, validate_against_version no_pattern bad_note version_2 = Ok r ∧ vr_valid r = false)
      by (eexists; split; [vm_compute; reflexivity|reflexivity]).
    destruct Hrun as (r' & Hr' & Hf). apply (Hbad r' Hr') in Hc. congruence.
  - eapply Forall_impl; [exact Hpass|]. intros d (r' & Hr' & Hv)%verdict_of.
    by apply (proj1 (validate_exact no_pattern d ratios) r' Hr').
  - eapply Forall_impl; [exact Hrefused|]. intros d (r' & Hr' & Hv)%verdict_of Hc.
    apply (proj1 (validate_exact no_pattern d ratios) r' Hr') in Hc. congruence.
Defined.

Example bad_note_errors :
  validate_against_version no_pattern bad_note version_2 = Ok {| vr_valid := false; vr_errors := [
    "Field 'title': length 0 < min_length 1"; "Field 'stars': 7 > max_value 5";
    "Field 'stars': 7 not in allowed choices [1, 3, 5]"; "Unknown field: owner"] |}.
Proof. vm_compute. reflexivity. Qed.

Lemma update_contract_pins_witness :
  get_contract_version "id-0" None revised = (Ok (Some version_2), revised) ∧
  validate no_pattern good_note "id-0" (Some 2) revised = (Ok {| vr_valid := true; vr_errors := [] |}, revised).
Proof.
  destruct (update_contract_pins everyone no_pattern "id-0" [title_field; stars_field] "alice" None "stars" first_contract version_2
    revised revised first_ok blueprint_revised (rtc_refl _ _)) as (_ & _ & Hrows & Hlatest & Hpin & _).
  split; [exact Hlatest|]. destruct (Hpin version_2) as [_ Hv]; [rewrite Hrows; apply elem_of_app; right; left|].
  exact (Hv good_note).
Defined.

(** ** A template, instantiated, then updated *)

Definition blueprint : jdict := [("region", JVstr "eu"); ("limits", JVdict [("cpu", JVint 2); ("ram", JVint 4)])].
Definition bigger : jdict := [("limits", JVdict [("ram", JVint 8)]); ("name", JVstr "prod")].

Definition templated : store := (create_template everyone "env" "environment" "alice" blueprint "" None fresh_store).2.

Lemma no_templates : templates_ok (st_db fresh_store).
Proof. split; [exact (versioned_nil _ _ _ _ _)|]. by intros x v ?%elem_of_nil. Qed.

Lemma templated_ok : templates_ok (st_db templated).
Proof.
  exact (proj1 (tkeeps_create everyone "env" "environment" "alice" blueprint "" None fresh_store no_templates)).
Qed.

Definition instance_1 : InstantiationResult := {|
  is_template := "id-0"; is_name := "env"; is_type := "environment"; is_version := 1;
  is_data := [("region", JVstr "eu"); ("limits", JVdict [("cpu", JVint 2); ("ram", JVint 8)]); ("name", JVstr "prod")];
  is_overrides := bigger |}.

Lemma instance_run : instantiate "id-0" (Some bigger) (Some 1) templated = (Ok instance_1, templated).
Proof. vm_compute. reflexivity. Qed.

Definition rewrite_it : template_op := TUpdate "id-0" "alice" [("region", JVstr "us")] (Some "env2") None "move".
Definition moved_template : store := (run_template_op everyone rewrite_it templated).2.

Lemma moved_steps : rtc (template_step everyone) templated moved_template.
Proof. apply rtc_once. exact (template_step_op everyone rewrite_it templated). Qed.

Lemma bigger_keys : NoDup (default [] (Some bigger)).*1.
Proof. apply (bool_decide_unpack _). vm_compute. exact I. Qed.

Lemma moved_active : ∃ y, y ∈ templates_of (st_db moved_template) ∧ tp_id y = "id-0" ∧ tp_lifecycle y = ACTIVE.
Proof.
  assert (H : Exists (λ y, tp_id y = "id-0" ∧ tp_lifecycle y = ACTIVE) (templates_of (st_db moved_template))).
  { apply (bool_decide_unpack _). vm_compute. exact I. }
  apply Exists_exists in H as (y & Hy & Hid & Hact). by exists y.
Qed.

Lemma instantiate_exact_witness :
  ∃ res, instantiate "id-0" (Some bigger) (Some 1) moved_template = (Ok res, moved_template) ∧
    is_data res = is_data instance_1.
Proof.
  destruct (instantiate_exact everyone "id-0" (Some bigger) (Some 1) templated instance_1 templated templated_ok bigger_keys
    instance_run) as (_ & x & schema & _ & _ & _ & _ & _ & _ & _ & _ & Hpin).
  destruct (Hpin 1 moved_template eq_refl moved_steps moved_active) as (res & Hrun & Hdata & _).
  exists res. split; [exact Hrun|exact Hdata].
Defined.
