(* ===== verification/PluginDemo.v ===== *)
(** * Legacy v1: plugins to run

    The runs that instantiate the theorems of PluginBehaviour; it models no code of
    the repository. *)

From S2P Require Import Prelude LegacyTypes Schema Json Trail Rules Tenancy Secrets Scheduling RuleGate Plugins PluginBehaviour LegacyDemo ObjectsDemo.

#[local] Existing Instance no_audit.

#[local] Instance plugin_registry : AutoRegister := {|
  auto_register := λ _ _, mret tt; auto_register_off := λ _ _ s, conj eq_refl eq_refl |}.

Definition driver_text (e : exn) : string :=
  match e with ValueError m => m | IntegrityError c => "UNIQUE constraint failed: " +:+ c | _ => "error" end.

(** ** Three hooks of one plugin *)

Definition greeter : Handler := λ ctx s, ((Ok (JVstr "hello"), jset ctx "greeted" (JVbool true)), s).
Definition breaker : Handler := λ ctx s, ((Raise (ValueError "boom"), jset ctx "broken" (JVbool true)), s).
Definition both : handler_table := register_handler "greet" greeter (register_handler "break" breaker ∅).

Lemma both_quiet ref h ctx s : both !! ref = Some h → same_plugging s (h ctx s).2.
Proof.
  intros Hh.
  change ((<["greet" := greeter]> (<["break" := breaker]> ∅ : gmap string Handler)) !! ref = Some h) in Hh.
  apply lookup_insert_Some in Hh as [[_ <-]|[_ Hh]]; [reflexivity|].
  apply lookup_insert_Some in Hh as [[_ <-]|[_ Hh]]; [reflexivity|]. by apply lookup_empty_Some in Hh.
Qed.

Lemma both_fair : fair_handlers both.
Proof.
  intros ref h ctx s Hh. apply pkeeps_same. pose proof (both_quiet ref h ctx s Hh) as Hq. unfold call.
  by destruct (h ctx s) as [r s'].
Qed.

Definition installation : list plugin_op := [
  GInstall "greetings" "alice" "1.0" "" None None None;
  GRegisterHook "id-0" "post_create" "greet" "alice" 1;
  GRegisterHook "id-0" "post_create" "break" "alice" 5;
  GRegisterHook "id-0" "post_create" "lost" "alice" 9;
  GActivate "id-0" "alice"].

Definition day : list plugin_op := installation ++ [
  GInstall "greetings" "bob" "1.0" "" None None None;
  GDispatch both false "post_create" None false;
  GUninstall "id-0" "alice"; GActivate "id-0" "alice"; GGrant "id-0" "hook" "post_create" "alice"].

Definition act (ops : list plugin_op) (s : store) : store :=
  foldl (λ s op, (run_plugin_op everyone None driver_text op s).2) s ops.

Lemma act_steps ops s : Forall fair_plugin_op ops → rtc (plugin_step everyone None driver_text) s (act ops s).
Proof.
  intros H. revert s. induction H as [|op ops Hop _ IH]; intros s; [apply rtc_refl|]. cbn.
  eapply rtc_l; [by apply plugin_step_op|apply IH].
Qed.

Lemma act_ok ops s : Forall fair_plugin_op ops → plugins_ok (st_db s) → plugins_ok (st_db (act ops s)).
Proof.
  intros H. revert s. induction H as [|op ops Hop _ IH]; intros s Hok; [done|]. cbn. apply IH.
  exact (proj1 (run_plugin_op_keeps everyone None driver_text op s Hop Hok)).
Qed.

Lemma no_plugins : plugins_ok (st_db fresh_store).
Proof. split; try apply NoDup_nil_2; by intros d ?%elem_of_nil. Qed.

Lemma installation_fair : Forall fair_plugin_op installation.
Proof. by repeat constructor. Qed.

Lemma day_fair : Forall fair_plugin_op day.
Proof. by repeat (constructor; [first [exact both_fair|exact I]|]). Qed.

Definition installed : store := act installation fresh_store.

Lemma installed_ok : plugins_ok (st_db installed).
Proof. exact (act_ok installation fresh_store installation_fair no_plugins). Qed.

(** One plugin, uninstalled for good: the second installation and the activation
    after the end were refused. *)
Lemma plugins_reachable_ok_witness :
  plugins_ok (st_db (act day fresh_store)) ∧
  (pg_state <$> plugins_of (st_db (act day fresh_store))) = [UNINSTALLED] ∧
  length (hooks_of (st_db (act day fresh_store))) = 3.
Proof.
  destruct (plugins_reachable_ok everyone None driver_text fresh_store (act day fresh_store) no_plugins
    (act_steps day fresh_store day_fair)) as [Hok _].
  split; [exact Hok|]. split; vm_compute; reflexivity.
Defined.

(** ** A dispatch *)

Definition dispatched : store := (dispatch None driver_text both false "post_create" None false installed).2.

Definition expected : DispatchResult := {|
  dr_point := "post_create";
  dr_results := [
    {| hr_hook := "id-3"; hr_plugin := "id-0"; hr_point := "post_create"; hr_success := false; hr_result := JVnull;
       hr_error := Some "Handler lost not found" |};
    {| hr_hook := "id-2"; hr_plugin := "id-0"; hr_point := "post_create"; hr_success := false; hr_result := JVnull;
       hr_error := Some "boom" |};
    {| hr_hook := "id-1"; hr_plugin := "id-0"; hr_point := "post_create"; hr_success := true; hr_result := JVstr "hello";
       hr_error := None |}];
  dr_all_succeeded := false; dr_failed := 2 |}.

Definition left_context : jdict := [("broken", JVbool true); ("greeted", JVbool true)].

Lemma dispatch_run :
  dispatch None driver_text both false "post_create" None false installed = (Ok (expected, left_context), dispatched).
Proof. vm_compute. reflexivity. Qed.

(** A handler that suspends the plugin whose hook comes next. *)
Definition meddler : Handler := λ ctx s,
  ((Ok (JVbool true), ctx),
   (sql_update (g_table g_plugins) set_plugin_rows (by_plugin "id-1") (plugin_moved PLUGIN_SUSPENDED 0) s).2).

Definition meddling : handler_table := register_handler "greet" greeter (register_handler "meddle" meddler ∅).

Lemma meddling_keyed : keyed_handlers meddling.
Proof.
  intros ref h ctx s Hh Hkey.
  change ((<["greet" := greeter]> (<["meddle" := meddler]> ∅ : gmap string Handler)) !! ref = Some h) in Hh.
  apply lookup_insert_Some in Hh as [[_ <-]|[_ Hh]]; [exact Hkey|].
  apply lookup_insert_Some in Hh as [[_ <-]|[_ Hh]]; [|by apply lookup_empty_Some in Hh].
  unfold plugins_keyed, plugins_of. cbn. by rewrite update_column.
Qed.

Definition two_plugins : list plugin_op := [
  GInstall "first" "alice" "1.0" "" None None None;
  GInstall "second" "bob" "1.0" "" None None None;
  GRegisterHook "id-0" "post_create" "meddle" "alice" 5;
  GRegisterHook "id-1" "post_create" "greet" "bob" 1;
  GActivate "id-0" "alice"; GActivate "id-1" "bob"].

Definition crowded : store := act two_plugins fresh_store.

Lemma crowded_ok : plugins_ok (st_db crowded).
Proof. apply act_ok; [by repeat constructor|exact no_plugins]. Qed.

Lemma priorities_of_crowded hooks :
  hooks ≡ₚ filter (λ h, at_point "post_create" h = true) (hooks_of (st_db crowded)) →
  StronglySorted (λ a b, (hk_priority b <= hk_priority a)%Z) hooks → hk_handler <$> hooks = ["meddle"; "greet"].
Proof.
  intros Hperm Hsort. assert (E : filter (λ h, at_point "post_create" h = true) (hooks_of (st_db crowded)) =
    hooks_of (st_db crowded)) by (vm_compute; reflexivity). rewrite E in Hperm. clear E.
  assert (E : ∃ a b, hooks_of (st_db crowded) = [a; b] ∧ hk_handler a = "meddle" ∧ hk_handler b = "greet" ∧
    (hk_priority b < hk_priority a)%Z) by (vm_compute; do 2 eexists; split_and!; reflexivity).
  destruct E as (a & b & E & Ha & Hb & Hlt). rewrite E in Hperm. symmetry in Hperm.
  apply Permutation_length_2_inv in Hperm as [->| ->]; cbn; [by rewrite Ha, Hb|].
  apply StronglySorted_inv in Hsort as [_ Hle]. apply Forall_cons in Hle as [Hle _]. lia.
Qed.

(** Both hooks are there and both plugins active when the dispatch begins; only the
    first runs. *)
Lemma dispatch_exact_witness :
  ∃ hooks d ctx' s', hk_handler <$> hooks = ["meddle"; "greet"] ∧
    turns_ran driver_text meddling "post_create" false false hooks [] crowded (dr_results d) ctx' s' ∧
    (hr_plugin <$> dr_results d) = ["id-0"].
Proof.
  destruct (dispatch None driver_text meddling false "post_create" None false crowded) as [[[d ctx']|e] s'] eqn:E;
    [|exfalso; vm_compute in E; discriminate E].
  destruct (dispatch_exact None driver_text meddling "post_create" false None false crowded crowded
    crowded_ok meddling_keyed eq_refl) as [Hret _].
  destruct (Hret d ctx' s' E) as (hooks & Hperm & Hsort & Hran & _).
  exists hooks, d, ctx', s'. split; [|split; [exact Hran|]].
  - apply priorities_of_crowded; [exact Hperm|exact Hsort].
  - assert (Hd : Ok (d, ctx') = (dispatch None driver_text meddling false "post_create" None false crowded).1) by by rewrite E.
    vm_compute in Hd. injection Hd as -> _. reflexivity.
Defined.
