(* ===== verification/ConnectorDemo.v ===== *)
(** * Legacy v1: connectors and federation to run

    The runs that instantiate the theorems of ConnectorBehaviour and Federation; it
    models no code of the repository. *)

From Stdlib Require Import Ascii.
From S2P Require Import Prelude LegacyTypes Schema Json Trail Rules Tenancy Secrets Scheduling RuleGate Contracts Connectors ConnectorBehaviour Federation LegacyDemo ObjectsDemo.

#[local] Existing Instance no_audit.

#[local] Instance bridge_registry : AutoRegister := {|
  auto_register := λ _ _, mret tt; auto_register_off := λ _ _ s, conj eq_refl eq_refl |}.

Definition wire_text (e : exn) : string :=
  match e with ValueError m => m | IntegrityError c => "UNIQUE constraint failed: " +:+ c | _ => "error" end.

(** ** A connector that may not carry drafts *)

Definition opening_bridge : list connector_op := [
  CPropose "partner" "org" "partner-org" "https://partner" "alice" "" OUTBOUND None;
  CSubmit "id-0" "alice";
  CApprove "id-0" "bob";
  CApprove "id-0" "alice";
  CAddPolicy "id-0" DENY_TYPES [("types", JVlist [JVstr "Draft"])] "alice"].

Definition walk (ops : list connector_op) (s : store) : store :=
  foldl (λ s op, (run_connector_op everyone None wire_text op s).2) s ops.

Lemma walk_steps ops s : Forall fair_connector_op ops → rtc (connector_step everyone None wire_text) s (walk ops s).
Proof.
  intros H. revert s. induction H as [|op ops Hop _ IH]; intros s; [apply rtc_refl|]. cbn.
  eapply rtc_l; [by apply connector_step_op|apply IH].
Qed.

Lemma no_bridge : bridge_ok (st_db fresh_store).
Proof. split; try apply NoDup_nil_2; by intros d ?%elem_of_nil. Qed.

Definition ok_wire : ConnectorTransport := λ _ _, mret (202%Z, JVstr "accepted").
Definition bad_wire : ConnectorTransport := λ _ _, mret (503%Z, JVstr "down").

Lemma ok_wire_quiet : quiet_transport (Some ok_wire).
Proof. intros send endpoint payload [= <-]. by intros s. Qed.

Definition bridged : store := walk opening_bridge fresh_store.

Definition busy_day : list connector_op := opening_bridge ++ [
  CSync (Some ok_wire) "id-0" "Document" "bob" (Some "doc-1") "outbound" None;
  CSync (Some bad_wire) "id-0" "Document" "bob" (Some "doc-1") "outbound" None;
  CSync (Some ok_wire) "id-0" "Draft" "bob" None "outbound" None;
  CSync (Some ok_wire) "id-0" "API_Key" "bob" None "outbound" None;
  CSync (Some ok_wire) "id-0" "Document" "bob" None "inbound" None;
  CRevoke "id-0" "alice"; CReactivate "id-0" "alice";
  CSync (Some ok_wire) "id-0" "Document" "bob" None "outbound" None].

Lemma busy_day_fair : Forall fair_connector_op busy_day.
Proof.
  assert (Hok : fair_connector_transport ok_wire) by (intros e p s; by apply bkeeps_same).
  assert (Hbad : fair_connector_transport bad_wire) by (intros e p s; by apply bkeeps_same).
  by repeat (constructor; [first [exact Hok|exact Hbad|exact I]|]).
Qed.

(** Approved by its creator only, revoked for good; what was blocked is on record,
    what had the wrong direction or came too late is not. *)
Lemma connectors_reachable_ok_witness :
  bridge_ok (st_db (walk busy_day fresh_store)) ∧
  (cn_state <$> connectors_of (st_db (walk busy_day fresh_store))) = [REVOKED] ∧
  (ct_status <$> traffic_of (st_db (walk busy_day fresh_store))) =
    [TRAFFIC_SUCCESS; TRAFFIC_FAILED; TRAFFIC_BLOCKED; TRAFFIC_BLOCKED].
Proof.
  destruct (connectors_reachable_ok everyone None wire_text fresh_store (walk busy_day fresh_store) no_bridge
    (walk_steps busy_day fresh_store busy_day_fair)) as [Hok _].
  split; [exact Hok|]. split; vm_compute; reflexivity.
Defined.

(** A document goes out; an API key raises, and nothing was sent. *)
Definition sent : store := (sync_object None wire_text (Some ok_wire) "id-0" "Document" "bob" None "outbound" None bridged).2.
Definition kept_back : store := (sync_object None wire_text (Some ok_wire) "id-0" "API_Key" "bob" None "outbound" None bridged).2.

Lemma sent_run : ∃ t, sync_object None wire_text (Some ok_wire) "id-0" "Document" "bob" None "outbound" None bridged = (Ok t, sent).
Proof. eexists. vm_compute. reflexivity. Qed.

Lemma kept_back_run : ∃ e, sync_object None wire_text (Some ok_wire) "id-0" "API_Key" "bob" None "outbound" None bridged = (Raise e, kept_back).
Proof. eexists. vm_compute. reflexivity. Qed.


(** ** Messages *)

(** A signature that shows its parts. *)
Definition toy_hmac (key data : string) : string := "sig".
Lemma toy_hmac_ascii key data : Forall (λ c, nat_of_ascii c < 128) (String.list_ascii_of_string (toy_hmac key data)).
Proof. repeat constructor; vm_compute; lia. Qed.
#[local] Instance toy_signatures : Hmac := {| hmac_hexdigest := toy_hmac; hmac_is_ascii := toy_hmac_ascii |}.

Definition hello : lp FederationMessage := create_message "k" "org" "partner-org" "id-0" "heartbeat" [("n", JVint 1)].

Definition greeted : store := (hello fresh_store).2.
Definition greeting : FederationMessage :=
  match (hello fresh_store).1 with Ok m => m | Raise _ => signed_with "" {|
    fm_id := ""; fm_sender := ""; fm_receiver := ""; fm_connector := ""; fm_type := ""; fm_payload := []; fm_timestamp := 0;
    fm_sequence := 0; fm_signature := "" |} end.

Lemma no_federation : federation_ok (st_db fresh_store).
Proof. split; try apply NoDup_nil_2; by intros d ?%elem_of_nil. Qed.

Lemma greeted_ok : federation_ok (st_db greeted).
Proof. exact (proj1 (fkeeps_create "k" "org" "partner-org" "id-0" "heartbeat" [("n", JVint 1)] fresh_store no_federation)). Qed.

Definition received : store := (accept_message "k" wire_text greeting greeted).2.

Lemma sequences_increase_witness :
  ∃ m1 m2, (hello fresh_store).1 = Ok m1 ∧ (hello received).1 = Ok m2 ∧ (0 < fm_sequence m1 < fm_sequence m2)%Z.
Proof.
  destruct (sequences_increase wire_text "k" "k" "org" "partner-org" "org" "partner-org" "id-0" "heartbeat" [("n", JVint 1)]
    "heartbeat" [("n", JVint 1)] fresh_store (hello fresh_store).1 greeted received (hello received).1 (hello received).2
    no_federation (surjective_pairing (hello fresh_store))) as (m1 & m2 & H1 & H2 & Hlt).
  - apply rtc_once. exact (federation_accept wire_text "k" greeting greeted).
  - exact (surjective_pairing (hello received)).
  - exists m1, m2. split; [exact H1|]. split; [exact H2|exact Hlt].
Defined.

(** The message is accepted, then refused. *)
Lemma accept_exact_witness :
  accept_message "k" wire_text greeting greeted = (Ok tt, received) ∧
  ∃ e, accept_message "k" wire_text greeting received = (Raise e, received).
Proof.
  assert (Hacc : accept_message "k" wire_text greeting greeted = (Ok tt, received)) by (vm_compute; reflexivity).
  destruct (accept_exact wire_text "k" greeting greeted greeted_ok) as (_ & _ & Hagain).
  split; [exact Hacc|]. apply (Hagain received received "k" greeting Hacc); [apply rtc_refl|reflexivity].
Defined.
