(* ===== verification/MarketDemo.v ===== *)
(** * Legacy v1: a marketplace to run

    The runs that instantiate the theorems of Marketplace; it models no code of the
    repository. *)

From S2P Require Import Prelude LegacyTypes Schema Json Trail Rules Tenancy Secrets RuleGate Connectors Marketplace LegacyDemo ObjectsDemo.

#[local] Existing Instance no_audit.

Definition market_text (e : exn) : string :=
  match e with IntegrityError c => "UNIQUE constraint failed: " +:+ c | _ => "error" end.

Definition market_day : list market_op := [
  KPublish "kit" "alice" PLUGIN_LISTING "" "1.0" None PRIVATE None;
  KInstall "id-0" "bob" None None None;
  KVisibility "id-0" PUBLIC "alice";
  KInstall "id-0" "bob" None None None;
  KReview "id-0" "bob" 5 "good";
  KReview "id-0" "bob" 1 "again";
  KReview "id-0" "alice" 5 "mine";
  KUpdateVersion "id-0" "1.0.0" None "alice";
  KUpdateVersion "id-0" "1.2" None "bob";
  KUpdateVersion "id-0" "1.2" None "alice";
  KInstall "id-0" "carol" None None None;
  KRemove "id-0" "alice";
  KInstall "id-0" "carol" None None None;
  KDeprecate "id-0" "alice"].

Definition trade (ops : list market_op) (s : store) : store :=
  foldl (λ s op, (run_market_op everyone None market_text op s).2) s ops.

Lemma trade_steps ops s : rtc (market_step everyone None market_text) s (trade ops s).
Proof.
  revert s. induction ops as [|op ops IH]; intros s; [apply rtc_refl|]. cbn.
  eapply rtc_l; [by apply market_step_op|apply IH].
Qed.

Lemma no_market : marketplace_ok (st_db fresh_store).
Proof. split; try apply NoDup_nil_2; by intros d ?%elem_of_nil. Qed.

(** Two of the four installations and one of the three reviews were let in; the
    version rose once, and the removed listing is only deprecated in the end. *)
Lemma marketplace_reachable_ok_witness :
  marketplace_ok (st_db (trade market_day fresh_store)) ∧
  ((λ x, (li_version x, li_downloads x, li_lifecycle x)) <$> listings_of (st_db (trade market_day fresh_store))) =
    [("1.2", 2, DEPRECATED)] ∧
  (vw_rating <$> reviews_of (st_db (trade market_day fresh_store))) = [5%Z].
Proof.
  destruct (marketplace_reachable_ok everyone None market_text fresh_store (trade market_day fresh_store) no_market
    (trade_steps market_day fresh_store)) as [Hok _].
  split; [exact Hok|]. split; vm_compute; reflexivity.
Defined.
