(* ===== verification/IdentityDemo.v ===== *)
(** * Legacy v1: a registry and its principals to run

    The runs that instantiate the theorems of Constructs, ConstructStore and
    Identity, and what some sequences of calls come to; it models no code of the
    repository. *)

From S2P Require Import Prelude LegacyTypes Schema Trail Tenancy Constructs ConstructStore Identity Resolver LegacyDemo.

#[local] Existing Instance no_audit.

Definition deaf (listener : nat) (event : string) (ref : nat) : pp unit := mret tt.

Definition new_process : process := Process new_registry ∅ [] fresh_store.

Definition a_model : EntryKind := Builtin RegistryKind.MODEL.

Definition modelling : list construct_op := [
  CRegister a_model "app" "Doc" "alice" (Some 7) None None 1 ACTIVE;
  CRegister a_model "app" "Doc" "bob" None None None 1 ACTIVE;
  CDefineKind "report" "";
  CRegister (Custom {| ck_name := "report"; ck_description := "" |}) "app" "Q1" "alice" None
    (Some [("year", JVint 2024)]) (Some {["b"; "a"]}) 1 ACTIVE;
  CTransition "id-1" DEPRECATED;
  CArchive "id-0";
  CFreeze;
  CRegister a_model "app" "Late" "bob" None None None 1 ACTIVE].

Definition do_constructs (ops : list construct_op) (p : process) : process :=
  foldl (λ p op, (run_construct_op deaf op p).2) p ops.

Lemma construct_steps ops p : rtc (construct_step deaf) p (do_constructs ops p).
Proof.
  revert p. induction ops as [|op ops IH]; intros p; [apply rtc_refl|]. cbn.
  eapply rtc_l; [by exists op|apply IH].
Qed.

Lemma new_process_ok : process_ok new_process.
Proof. split; [apply new_registry_ok|by intros id ?%elem_of_nil]. Qed.

Lemma deaf_keeps p0 l event ref : preserves (since p0) (deaf l event ref).
Proof. by intros p. Qed.

(** One registration is refused for its URN and one since the registry is frozen. *)
Lemma constructs_reachable_ok_witness :
  process_ok (do_constructs modelling new_process) ∧
  ((λ e, (re_lifecycle e, re_version e)) <$> entries_of (pr_registry (do_constructs modelling new_process))) =
    [(ARCHIVED, 2%Z); (DEPRECATED, 2%Z)].
Proof.
  split; [|vm_compute; reflexivity].
  exact (proj1 (constructs_reachable_ok deaf deaf_keeps new_process (do_constructs modelling new_process)
    new_process_ok (construct_steps modelling new_process))).
Defined.

(** ** Saving and loading *)

Definition modelled : process := do_constructs modelling new_process.
Definition saved : process := (persist_registry (H := SQLiteRegistryStore) modelled).2.
Definition restarted : process := Process new_registry ∅ [] (pr_store saved).

Lemma modelled_ok : registry_ok (pr_registry modelled).
Proof.
  assert (Hall : ∀ ops p, process_ok p → process_ok (do_constructs ops p)).
  { induction ops as [|op ops IH]; intros p Hp; [done|]. cbn. apply IH.
    apply (run_construct_op_keeps deaf deaf_keeps p op p). by split. }
  apply Hall, new_process_ok.
Qed.

Lemma persist_hydrate_witness :
  ∃ q', hydrate_registry (H := SQLiteRegistryStore) restarted = (Ok 2, q') ∧
    (entry_snapshot <$> entries_of (pr_registry q')) ≡ₚ (entry_snapshot <$> entries_of (pr_registry modelled)).
Proof.
  destruct (persist_hydrate (St := SQLiteRegistryStore) modelled 2 saved restarted) as (q' & Hq & _ & _ & Hperm).
  - exact modelled_ok.
  - vm_compute. reflexivity.
  - intros e He. assert (Hall : Forall (λ e, URN_parse (URN_str (re_urn e)) = Ok (re_urn e)) (entries_of (pr_registry modelled)))
      by (vm_compute; repeat constructor).
    rewrite Forall_forall in Hall. by apply Hall.
  - vm_compute. reflexivity.
  - split; vm_compute; reflexivity.
  - reflexivity.
  - intros n k H. discriminate H.
  - exists q'. split; [exact Hq|exact Hperm].
Defined.

(** Archiving twice takes the URN from the entry that has it since: three entries of
    one URN, two of them active. *)
Definition doc_again : list construct_op := [
  CRegister a_model "app" "Doc" "alice" None None None 1 ACTIVE; CArchive "id-0";
  CRegister a_model "app" "Doc" "bob" None None None 1 ACTIVE; CArchive "id-0";
  CRegister a_model "app" "Doc" "carol" None None None 1 ACTIVE].

Lemma archived_twice :
  ((λ e, (URN_str (re_urn e), re_lifecycle e)) <$> entries_of (pr_registry (do_constructs doc_again new_process))) =
    [("scoped:MODEL:app:Doc:1", ARCHIVED); ("scoped:MODEL:app:Doc:1", ACTIVE); ("scoped:MODEL:app:Doc:1", ACTIVE)].
Proof. vm_compute. reflexivity. Qed.

(** Such a registry cannot be saved. *)
Lemma reused_urn_unpersistable :
  (persist_registry (H := SQLiteRegistryStore) (do_constructs doc_again new_process)).1 =
    Raise (IntegrityError "registry_entries.urn").
Proof. vm_compute. reflexivity. Qed.

(** ** Principals *)

Definition staff : list identity_op := [
  ICreate "user" "Ann" "system" None (Some "ann");
  ICreate "team" "Core" "system" None (Some "core");
  ICreate "org" "Acme" "system" None (Some "acme");
  IRelate "core" "ann" "member_of" "system" None;
  IRelate "acme" "core" "member_of" "system" None;
  IRelate "ann" "acme" "audits" "system" None;
  IRelate "core" "ann" "member_of" "system" None;
  IUpdate "ann" (Some "Ann B") (Some [("team", JVstr "core")]) "system";
  ILifecycle "core" ARCHIVED;
  ICreate "bot" "Ann again" "system" None (Some "ann")].

Definition do_identity (ops : list identity_op) (p : process) : process :=
  foldl (λ p op, (run_identity_op deaf op p).2) p ops.

Lemma identity_steps ops p : rtc (identity_step deaf) p (do_identity ops p).
Proof.
  revert p. induction ops as [|op ops IH]; intros p; [apply rtc_refl|]. cbn.
  eapply rtc_l; [apply identity_step_op|apply IH].
Qed.

Lemma no_principals : identity_ok (st_db (pr_store new_process)).
Proof. split; try apply NoDup_nil_2; by intros x ?%elem_of_nil. Qed.

Lemma deaf_identified t0 l event ref : preserves (identified t0) (deaf l event ref).
Proof. by intros p. Qed.

Definition staffed : process := do_identity staff new_process.

Lemma identity_reachable_ok_witness :
  identity_ok (st_db (pr_store staffed)) ∧
  ((λ x, (pc_name x, pc_lifecycle x)) <$> principals (st_db (pr_store staffed))) =
    [("Ann B", ACTIVE); ("Core", ARCHIVED); ("Acme", ACTIVE)] ∧
  length (relationships (st_db (pr_store staffed))) = 3.
Proof.
  destruct (identity_reachable_ok deaf deaf_identified new_process staffed no_principals (identity_steps staff new_process))
    as [Hok _].
  split; [exact Hok|]. split; vm_compute; reflexivity.
Defined.

(** The second principal "ann" was refused, and its registry entry stays. *)
Lemma taken_id_leaves_entry :
  (rr_urn <$> t_registry (st_db (pr_store staffed))) =
    ["scoped:PRINCIPAL:identity:user:ann:1"; "scoped:PRINCIPAL:identity:team:core:1";
     "scoped:PRINCIPAL:identity:org:acme:1"; "scoped:PRINCIPAL:identity:bot:ann:1"].
Proof. vm_compute. reflexivity. Qed.

(** A cycle makes a principal its own ancestor; a depth of zero is the default. *)
Lemma own_ancestor :
  match (ancestors "ann" None None (pr_store staffed)).1 with Ok (Some l) => pc_id <$> l | _ => [] end =
    ["core"; "acme"; "ann"] ∧
  (ancestors "ann" None (Some 0%Z) (pr_store staffed)).1 = (ancestors "ann" None (Some 20%Z) (pr_store staffed)).1.
Proof. split; vm_compute; reflexivity. Qed.

(** A path may be one edge longer than the depth, and goes against the edges. *)
Lemma longer_path :
  (find_path "ann" "acme" (Some "member_of") (Some 1%Z) (pr_store staffed)).1 =
    Ok (Some (Some {| rp_principals := ["ann"; "core"; "acme"]; rp_relationships := ["member_of"; "member_of"] |})) ∧
  (find_path "acme" "ann" (Some "member_of") (Some 1%Z) (pr_store staffed)).1 =
    Ok (Some (Some {| rp_principals := ["acme"; "core"; "ann"]; rp_relationships := ["member_of"; "member_of"] |})).
Proof. split; vm_compute; reflexivity. Qed.

(** ** Contexts *)

Definition ann : Principal := {|
  pc_id := "ann"; pc_kind := "user"; pc_name := "Ann"; pc_entry := "e"; pc_created_at := 0; pc_created_by := "system";
  pc_lifecycle := ACTIVE; pc_metadata := [] |}.
Definition idle : ScopedContext := {| ctx_principal := ann; ctx_extras := []; ctx_token := None |}.
Definition two_contexts : contexts := Contexts None {[0 := idle; 1 := idle]}.

Definition asking : cxp string := p ← current_principal; mret (pc_id p).

Lemma asking_leaves i : leaves_token i asking.
Proof.
  assert (reads asking) as H; [|intros w; by rewrite (H w)].
  unfold asking, current_principal, current_context, current_or_none. repeat apply reads_bind; try apply reads_gets; intros.
  - destruct a; [apply reads_ret|apply reads_raise].
  - apply reads_bind; [apply context_object_reads|intros; apply reads_ret].
  - apply reads_ret.
Qed.

Lemma context_brackets_witness :
  (within_context 0 asking two_contexts).1 = Ok "ann" ∧
  cx_current (within_context 0 asking two_contexts).2 = None ∧
  cx_current (within_context 0 (within_context 0 asking) two_contexts).2 = Some 0.
Proof.
  destruct (context_brackets 0 asking idle two_contexts eq_refl (asking_leaves 0)) as [[H1 H2] H3].
  split; [rewrite H1; vm_compute; reflexivity|]. split; [exact H2|exact H3].
Defined.
