(* ===== verification/SyncDemo.v ===== *)
(** * Legacy v1: a sync agent to run

    A plane that fails once, schedules of calls and steps, two loops that overlap, and
    the runs that instantiate the theorems of Sync; it models no code of the
    repository. *)

From Stdlib Require QArith_base.
From S2P Require Import Prelude LegacyTypes Schema Json Trail Tenancy Federation Sync LegacyDemo ConnectorDemo.

#[local] Existing Instance toy_signatures.

Definition small_batches : SyncConfig := {|
  interval_seconds := 60; batch_size := 2; max_retries := 5; retry_base_delay := QArith_base.inject_Z 1;
  retry_max_delay := QArith_base.inject_Z 300 |}.

Definition logged (n : nat) : TraceEntry :=
  new_entry (states_req None (Some [("secret", JVint (Z.of_nat n))]) (request "alice" ActionType.UPDATE "Document" "doc-1"))
    ("t" +:+ pretty n) n 900 "".

Definition five_entries : store := put_db (set_trail (logged <$> [1; 2; 3; 4; 5]) (st_db fresh_store)) fresh_store.
Definition resting : agent := Agent five_entries None ∅ None 0 false true.

Definition accepting (b : SyncBatch) : SyncBatchAck := {|
  ak_batch := sb_id b; ak_accepted := true; ak_server_sequence := sb_last b; ak_server_hash := sb_chain_hash b;
  ak_message := ""; ak_errors := [] |}.

(** Unreachable for the second batch that is built. *)
Definition shaky (b : SyncBatch) : lp SyncBatchAck := λ s,
  if bool_decide (sb_id b = "id-1") then (Raise (SyncTransportError "Connection failed"), s) else (Ok (accepting b), s).

Definition agreeing (q : SyncVerifyRequest) : lp SyncVerifyResponse :=
  mret {| vp_verified := true; vp_local_hash := vq_hash q; vp_server_hash := vq_hash q; vp_local_count := vq_count q;
    vp_server_count := vq_count q; vp_mismatch := None; vp_message := "" |}.

Definition demo_text (e : exn) : string := "error".
Definition no_jitter : QArith_base.Q := QArith_base.inject_Z 0.

Abbreviation go plane := (advance_loop demo_digest pretty small_batches "key" "1.0" demo_text plane).
Abbreviation runs plane := (agent_run demo_digest pretty small_batches "key" "1.0" demo_text plane agreeing).

(** A schedule: calls, and loops that go on where they can. *)
Inductive event := Call (op : agent_op) | Step (t : nat).

#[local] Instance joined_decision w : Decision (Sync.joined w).
Proof. unfold Sync.joined. destruct (ag_thread w); apply _. Defined.

Fixpoint day (plane : SyncBatch → lp SyncBatchAck) (orderly : bool) (events : list event) (w : agent) : list SyncBatch * agent :=
  match events with
  | [] => ([], w)
  | Call op :: events =>
      if orderly && bool_decide (op = AStopFinish) && negb (bool_decide (Sync.joined w)) then day plane orderly events w
      else day plane orderly events (run_agent_op agreeing op w).2
  | Step t :: events =>
      match ag_loops w !! t with
      | Some p =>
          if may_advance t w
          then let '(log, w') := day plane orderly events (go plane t no_jitter w) in (acknowledged plane p w ++ log, w')
          else day plane orderly events w
      | None => day plane orderly events w
      end
  end.

Lemma day_runs plane orderly events w : runs plane orderly w (day plane orderly events w).1 (day plane orderly events w).2.
Proof.
  revert w. induction events as [|[op|t] events IH]; intros w; cbn [day]; [apply run_done| |].
  - destruct (orderly && _ && _) eqn:Hskip; [apply IH|]. eapply run_call; [|apply IH]. intros -> ->.
    rewrite bool_decide_eq_true_2 in Hskip by done. by apply negb_false_iff, bool_decide_eq_true_1 in Hskip.
  - destruct (ag_loops w !! t) as [p|] eqn:Hp; [|apply IH]. destruct (may_advance t w) eqn:Hmay; [|apply IH].
    specialize (IH (go plane t no_jitter w)). destruct (day plane orderly events (go plane t no_jitter w)) as [log w'].
    by eapply (run_step _ _ _ _ _ _ _ _ _ t no_jitter).
Qed.

Definition steps (n t : nat) : list event := repeat (Step t) n.

Lemma resting_ok : agent_ok resting.
Proof. split; [repeat constructor|by left|by intros []]. Qed.

Lemma shaky_grows b s : grows (t_trail (st_db s)) (t_trail (st_db (shaky b s).2)).
Proof. unfold shaky. by case_bool_decide. Qed.

Lemma agreeing_grows q s : grows (t_trail (st_db s)) (t_trail (st_db (agreeing q s).2)).
Proof. reflexivity. Qed.

(** A paused loop waits, a cycle fails and is tried again, and the stop waits for the
    loop to end. *)
Definition busy : list event :=
  Call AStart :: steps 5 0 ++ [Call APause] ++ steps 9 0 ++ [Call AResume] ++ steps 40 0 ++
  [Call AStopSignal; Call AStopFinish] ++ steps 3 0 ++ [Call AStopFinish].

Lemma sync_exactly_once_witness :
  Sync.sent (day shaky true busy resting).1 = sync_metadata <$> between 0 5 (t_trail (st_db five_entries)) ∧
  (λ b, (sb_first b, sb_last b)) <$> (day shaky true busy resting).1 = [(1, 2); (3, 4); (5, 5)].
Proof.
  destruct (sync_exactly_once demo_digest pretty small_batches "key" "1.0" demo_text shaky agreeing shaky_grows
    agreeing_grows true resting (day shaky true busy resting).1 (day shaky true busy resting).2 resting_ok eq_refl
    (day_runs shaky true busy resting)) as (_ & _ & _ & _ & Hsent).
  split; [|vm_compute; reflexivity]. destruct (Hsent eq_refl) as (m & [Hm|(t & b & Hb & _)] & Hlog).
  - rewrite Hlog, Hm. vm_compute. reflexivity.
  - exfalso. assert (E : ag_loops (day shaky true busy resting).2 = ∅) by (vm_compute; reflexivity). rewrite E in Hb. discriminate Hb.
Defined.

(** A stop gives up on a loop that waits for the answer of the plane, and a start puts a
    second loop beside it: both push the same entries. *)
Definition hasty : list event :=
  Call AStart :: steps 7 0 ++ [Call AStopSignal; Call AStopFinish; Call AStart] ++ steps 8 1 ++ steps 2 0 ++ steps 1 1.

Definition willing (b : SyncBatch) : lp SyncBatchAck := mret (accepting b).

Example overlap_sends_twice :
  (λ b, (sb_first b, sb_last b)) <$> (day willing false hasty resting).1 = [(1, 2); (1, 2)] ∧
  mark (day willing false hasty resting).2 = 2.
Proof. vm_compute. done. Qed.

(** Other states in the trail, and an archived object more. *)
Definition gone : ScopedObject := {|
  so_id := "gone"; so_type := "Document"; so_owner := "alice"; so_version := 1; so_created_at := 900;
  so_lifecycle := ARCHIVED; so_registry := None |}.

Definition other_states : store :=
  put_db (set_objects (gone :: t_objects (st_db five_entries))
    (set_trail (without_states <$> t_trail (st_db five_entries)) (st_db five_entries))) five_entries.

Lemma sync_carries_no_data_witness :
  (next_batch demo_digest pretty small_batches "key" "1.0" resting).1 =
    (next_batch demo_digest pretty small_batches "key" "1.0" (put_database other_states resting)).1 ∧
  t_trail (st_db five_entries) ≠ t_trail (st_db other_states).
Proof.
  split; [|vm_compute; discriminate].
  apply (sync_carries_no_data demo_digest pretty small_batches "key" "1.0" resting (put_database other_states resting)).
  - apply resting_ok.
  - reflexivity.
  - split_and!; vm_compute; reflexivity.
Defined.

(** Three turns for five entries in batches of two. *)
Definition started : agent := (agent_start resting).2.

Lemma sync_catches_up_witness :
  ∃ w', turns demo_digest pretty small_batches "key" "1.0" demo_text willing 3 no_jitter started = (Ok tt, w') ∧ pending w' = [].
Proof.
  apply (sync_catches_up demo_digest pretty small_batches "key" "1.0" demo_text willing 3 no_jitter started).
  - intros b s. exists (accepting b). by split.
  - split; [repeat constructor|by left|intros _; by eexists].
  - by eexists.
  - vm_compute. lia.
Defined.
