(* ===== verification/PortDemo.v ===== *)
(** * Legacy v1: a transfer to run

    The document of TemporalDemo with its two versions, moved into the store of
    ObjectsDemo; it models no code of the repository. *)

From S2P Require Import Prelude LegacyTypes Schema Json Trail Objects Portability LegacyDemo ObjectsDemo TemporalDemo.

Definition plain_text (e : exn) : string := "error".

Lemma ids_below (l : list string) m :
  Forall (λ i, i ∈ id_of <$> seq 0 m) l → ∀ n, m ≤ n → id_of n ∉ l.
Proof.
  rewrite Forall_forall. intros H n Hn (k & Hk%id_of_inj & Hin%elem_of_seq)%H%list_elem_of_fmap. lia.
Qed.

Lemma filed_ready : ready filed.
Proof.
  split; [exact filed_objects|].
  split; intros n Hn; (apply (ids_below _ (st_next filed)); [|exact Hn]); apply Forall_forall; intros x Hx;
    vm_compute in Hx; apply list_elem_of_singleton in Hx as ->; vm_compute;
    repeat (first [apply list_elem_of_here|apply list_elem_of_further]).
Qed.

Lemma edited_data : data_ok (st_db edited).
Proof. repeat constructor. Qed.


(** *** What the import lets through *)

Definition twice : ExportedObject := {|
  xo_id := "a"; xo_type := "Document"; xo_owner := "x"; xo_created_at := ""; xo_lifecycle := "ARCHIVED";
  xo_versions := (λ n, {| xv_version := n; xv_data := []; xv_created_at := ""; xv_created_by := "x"; xv_reason := "";
    xv_checksum := "forged" |}) <$> [3; 3] |}.

Definition forged : ExportPackage := {|
  xp_manifest := {| xm_format := "9"; xm_at := ""; xm_by := ""; xm_objects := 1; xm_versions := 2 |}; xp_objects := [twice] |}.

Definition half_imported : outcome ImportResult * store := import_package everyone plain_text forged "bob" None true fresh_store.

(** A repeated number makes the second row fail: the object is reported as skipped, but
    it and its first version stay, live, with a current version that does not exist. *)
Example half_import :
  (ir_imported <$> half_imported.1 = Ok 0) ∧ (ir_skipped <$> half_imported.1 = Ok 1) ∧
  ((λ o, (so_version o, so_lifecycle o)) <$> t_objects (st_db half_imported.2)) = [(2, ACTIVE)] ∧
  (ov_version <$> t_object_versions (st_db half_imported.2)) = [3].
Proof. vm_compute. done. Qed.
