(* ===== verification/StorageDemo.v ===== *)
(** * Legacy v1: tiers, archives and migrations to run

    The document of TemporalDemo is archived, sealed and attacked, two policies move its
    first version, and three migrations of a list run up and down; it models no code of
    the repository. *)

From S2P Require Import Prelude LegacyTypes Schema Json Trail Objects Portability Migrations ColdStorage.
From S2P Require Import LegacyDemo ObjectsDemo TemporalDemo PortDemo.

(** ** Archives *)

(** Stored, not compressed. *)
#[local] Instance stored_gzip : Gzip := {
  compress _ x := x;
  decompress x := Ok x;
  decompress_compress _ _ := eq_refl;
}.

Definition cold : cold_world := ColdWorld edited [] [] [].
Definition archived : outcome GlacialArchive * cold_world := create_archive everyone [doc] "alice" "old docs" "" cold.
Definition archive_id : string := match archived.1 with Ok a => ga_id a | Raise _ => "" end.
Definition sealed_world : cold_world := (seal_archive archive_id archived.2).2.
Definition attacked : cold_world := (delete_archive archive_id (put_store fresh_store sealed_world)).2.

Lemma cold_archives : archives_ok cold.
Proof. split; [constructor|]. by intros r ?%elem_of_nil. Qed.

Lemma attacks s id w : rtc (cold_step everyone) w (delete_archive id (put_store s w)).2.
Proof. eapply rtc_l; [apply (step_else everyone w (put_store s w)); reflexivity|]. apply rtc_once. constructor. Qed.

Lemma attack : rtc (cold_step everyone) sealed_world attacked.
Proof. exact (attacks fresh_store archive_id sealed_world). Qed.

(** Both versions are still there when the objects are gone. *)
Lemma sealed_archive_final_witness :
  (∃ l, extract_archive archive_id attacked = (Ok (Some l), attacked) ∧ length l = 2) ∧
  verify_archive archive_id attacked = (Ok true, attacked) ∧
  delete_archive archive_id attacked = (Raise (ValueError ("Cannot delete sealed archive: " +:+ archive_id)), attacked).
Proof.
  destruct archived as [[a|e] w1] eqn:Hrun; [|vm_compute in Hrun; discriminate].
  assert (Hid : archive_id = ga_id a) by (unfold archive_id; rewrite Hrun; reflexivity).
  destruct (seal_archive (ga_id a) w1) as [[b|e] w2] eqn:Hseal.
  - assert (Hw : sealed_world = w2) by (unfold sealed_world; rewrite Hid, Hrun; cbn [snd]; rewrite Hseal; reflexivity).
    destruct (sealed_archive_final everyone [doc] "alice" "old docs" "" cold a w1 w1 b w2 attacked cold_archives edited_objects
      edited_data Hrun eq_refl Hseal) as (_ & _ & Hext & Hver & Hdel & _).
    + rewrite <-Hw. exact attack.
    + rewrite Hid. split; [|split; [exact Hver|exact Hdel]]. eexists. split; [exact Hext|]. vm_compute. reflexivity.
  - exfalso. assert (H : (seal_archive archive_id archived.2).1 = Raise e) by (rewrite Hid, Hrun; cbn [snd]; rewrite Hseal; reflexivity).
    vm_compute in H. discriminate.
Defined.

(** ** Policies *)

Definition hot_row : TierAssignment := {|
  ta_id := "t1"; ta_object := doc; ta_version := 1; ta_tier := HOT; ta_at := 0; ta_by := "alice"; ta_previous := None |}.

Definition lifecycle_policy (id : string) (target : StorageTier) (ts : Z) : RetentionPolicy := {|
  rp_id := id; rp_name := id; rp_description := ""; rp_source := HOT; rp_target := target; rp_condition := "lifecycle_state";
  rp_value := "ACTIVE"; rp_type := Some "Document"; rp_scope := None; rp_owner := "alice"; rp_created_at := ts;
  rp_lifecycle := ACTIVE |}.

Definition tiered : cold_world := ColdWorld edited [hot_row] [lifecycle_policy "p1" WARM 10; lifecycle_policy "p2" GLACIAL 20] [].
Definition asked_moves : list TierTransitionCandidate :=
  match (evaluate_policies tiered).1 with Ok cs => cs | Raise _ => [] end.

(** Two policies on one tier: the version goes to the colder target first and from there
    to the warmer one, the step back staying on record. *)
Example last_policy_wins :
  (tc_target <$> asked_moves) = [GLACIAL; WARM] ∧
  (λ a, (ta_tier a, ta_previous a)) <$> cw_tiers (apply_transitions asked_moves "alice" tiered).2 = [(WARM, Some GLACIAL)].
Proof. vm_compute. split; reflexivity. Qed.

Lemma policies_never_warm_witness :
  ∃ w2, apply_transitions asked_moves "alice" tiered = (Ok 2, w2) ∧
    Forall2 (λ a b, tier_rank (ta_tier a) ≤ tier_rank (ta_tier b)) (cw_tiers tiered) (cw_tiers w2).
Proof.
  destruct (policies_never_warm "alice" tiered asked_moves tiered) as (w2 & Hrun & Hall).
  - unfold tiers_ok. apply NoDup_singleton.
  - intros p Hp. apply elem_of_cons in Hp as [Hp|Hp]; [subst p; vm_compute; lia|].
    apply list_elem_of_singleton in Hp. subst p. vm_compute. lia.
  - vm_compute. reflexivity.
  - exists w2. split; [exact Hrun|]. eapply Forall2_impl; [exact Hall|]. intros a b (_ & _ & Hle & _). exact Hle.
Defined.

(** A condition that is no number makes every evaluation raise. *)
Definition bad_policy : RetentionPolicy := {|
  rp_id := "p3"; rp_name := "p3"; rp_description := ""; rp_source := HOT; rp_target := COLD; rp_condition := "age_days";
  rp_value := "soon"; rp_type := None; rp_scope := None; rp_owner := "alice"; rp_created_at := 5; rp_lifecycle := ACTIVE |}.

Example bad_policy_stops_all :
  match (evaluate_policies (put_policies (bad_policy :: cw_policies tiered) tiered)).1 with Raise (ValueError _) => True | _ => False end.
Proof. vm_compute. exact I. Qed.

(** ** Migrations of a list *)

Definition adds (n : nat) : BaseMigration (S := list nat) := {|
  bm_version := Z.of_nat n; bm_name := "m" +:+ pretty n;
  bm_up := modify (λ l, n :: l); bm_down := modify (λ l, tail l); bm_source := None |}.

Definition breaking (n : nat) : BaseMigration (S := list nat) := {|
  bm_version := Z.of_nat n; bm_name := "bad"; bm_up := modify (λ l, n :: l) ;; raise (ValueError "no"); bm_down := mret tt;
  bm_source := None |}.

Definition exc_message (e : exn) : string := match e with ValueError m => m | _ => "error" end.
Definition start : mig_world (S := list nat) := MigWorld [] [] 7%Z.
Definition upgrades : list BaseMigration := [adds 3; adds 1; adds 2].

Lemma adds_reversible n : reversible (adds n).
Proof. intros x y H. unfold adds, modify in H. cbn in H. injection H as <-. reflexivity. Qed.

Lemma upgrades_registered : registered upgrades.
Proof. unfold registered. apply (bool_decide_unpack _). vm_compute. exact I. Qed.

Lemma rollback_undoes_apply_witness :
  ∃ w', apply_all exc_message demo_digest upgrades start = (Ok [1%Z; 2%Z; 3%Z], w') ∧
    rollback_to exc_message upgrades 0 w' = (Ok [3%Z; 2%Z; 1%Z], start).
Proof.
  destruct (apply_all exc_message demo_digest upgrades start) as [[vs|e] w'] eqn:Hrun; [|vm_compute in Hrun; discriminate].
  destruct (rollback_undoes_apply exc_message demo_digest upgrades 0 start vs w' upgrades_registered) as [Hvs Hback].
  - assert (Heq : pending upgrades start = [adds 1; adds 2; adds 3]) by (vm_compute; reflexivity). rewrite Heq.
    repeat constructor; apply adds_reversible.
  - assert (Heq : applied upgrades start = []) by (vm_compute; reflexivity). rewrite Heq. constructor.
  - exact Hrun.
  - exists w'. vm_compute in Hvs. subst vs. split; [reflexivity|exact Hback].
Defined.

(** The second of three fails half way: the first is recorded, the third never runs, and
    what the second wrote stays. *)
Lemma apply_all_exact_witness :
  ∃ did, pending [adds 3; adds 1; breaking 2] start = did ++ [breaking 2; adds 3] ∧
    (mw_rest (apply_all exc_message demo_digest [adds 3; adds 1; breaking 2] start).2 = [2; 1]) ∧
    pending [adds 3; adds 1; breaking 2] (apply_all exc_message demo_digest [adds 3; adds 1; breaking 2] start).2 = [breaking 2; adds 3].
Proof.
  set (ms := [adds 3; adds 1; breaking 2]).
  assert (Hreg : registered ms) by (unfold registered; apply (bool_decide_unpack _); vm_compute; exact I).
  destruct (apply_all_exact exc_message demo_digest ms start Hreg) as (did & rest & y & Hsplit & _ & Hpending & _).
  assert (Hrest : rest = [breaking 2; adds 3]) by (rewrite <-Hpending; vm_compute; reflexivity).
  exists did. rewrite <-Hrest. split; [exact Hsplit|]. split; [vm_compute; reflexivity|exact Hpending].
Defined.

(** [rollback_last] after the third and then the second: it takes back the third. *)
Example last_is_highest :
  let w := (apply_one exc_message demo_digest upgrades 2 (apply_one exc_message demo_digest upgrades 3 start).2).2 in
  (mr_version <$> mw_records w) = [3%Z; 2%Z] ∧ (rollback_last exc_message upgrades w).1 = Ok (Some 3%Z).
Proof. vm_compute. split; reflexivity. Qed.
